(* ===== verification/_CoqProject ===== *)
-Q . S2P
Prelude.v
Text.v
Codec.v
Wire.v
Core.v
Hello.v
HelloSpec.v
HelloParse.v
HelloWrite.v
LinkState.v
Link.v
LinkInv.v
LinkIo.v
LinkSend.v
LinkRecv.v
LinkDeclare.v
LinkRun.v
LinkContract.v
LinkProps.v
LinkEdges.v
Btree.v
Bindings.v
BindingsSpec.v
Report.v
ReportSpec.v
Step.v
StepPlan.v
StepScheduler.v
StepSchedulerSpec.v
StepProps.v
Job.v
HostProtocol.v
Connection.v
ProcessWire.v
HostMessages.v
ProcessPlan.v
ProcessAdmit.v
ProcessHost.v
ProcessAdmitSpec.v
ProcessOwner.v
ProcessReplay.v
ProcessProps.v
StepGate.v
StepGateSpec.v
StepDriver.v
StepControlProps.v
StepDispatch.v
LaunchTypes.v
LaunchLoad.v
LaunchPlan.v
LaunchResolve.v
LaunchDefinition.v
LaunchTree.v
LaunchTables.v
LaunchBind.v
LaunchAdmit.v
LaunchProps.v
EngineKey.v
EngineMatch.v
EngineLocal.v
EngineProps.v
EngineRouted.v
EngineRoutedProps.v
PubSub.v
PubSubProps.v
Managed.v
ManagedProps.v
Group.v
GroupSteps.v
GroupProps.v
HostChannel.v
Deploy.v
DeploySteps.v
DeployGraph.v
DeployProps.v
Fingerprint.v
FieldSpec.v
FingerprintSpec.v
FingerprintProps.v
DescriptorSet.v
