(* ===== verification/Prelude.v ===== *)
(** * The reiny runtime, modelled and verified

    reiny runs robot programs made of modules: a launcher resolves a tree of
    module manifests into a plan, processes and threads run the modules, and the
    modules talk over named typed ports through an engine (an in-process bus, a
    network, or a point-to-point link to a microcontroller).  Components may be
    stepped in logical time by a scheduler that spans processes.  This library
    translates the decision-making core of those crates and proves what it
    promises.  Paths below are under [src/crates/].

    ** How the parts interact

    - The launcher ([reiny-launch/src/modules*]) turns manifests into a plan whose
      bindings are the contract data of [reiny-core/src/bindings.rs].  The runtime
      validates the same data again ([ModuleBindings::validate],
      [validate_report], [validate_graph]); [LaunchProps.plan_is_admitted] is the
      composition: what the launcher resolves, the runtime admits.
    - A step plan ([reiny/src/step/plan.rs]) orders the nodes of a tick; the
      scheduler ([step/scheduler.rs]) advances it under a gate
      ([component/step/control.rs]) that arbitrates with stop, cancellation and
      timeouts, and through an executor that runs nodes locally or on other
      process hosts ([component/process/step_owner*.rs]).  The host protocol
      ([reiny-core/src/host_protocol/]) and its connection carry the calls, and
      every host guards itself by a replay guard ([process/step_replay.rs]);
      [StepDispatch.owner_calls_accepted] composes scheduler, executor and guard.
    - Messages between modules go through an engine ([reiny/src/engine/]), under
      keys that name endpoints; a link ([reiny-link/src/]) carries them to a
      device as CRC-checked, COBS-framed messages after a handshake that compares
      the two port tables.
    - The schema fingerprint that all of these compare is computed at build time
      from protobuf descriptors ([reiny-build/src/fingerprint.rs]).

    ** Files

    Shared: [Prelude] (scopes, hint databases, tactics, results, early-return
    notations, machine integers, little-endian bytes, the state monad [ST] with
    its weakest precondition), [Text] (UTF-8, splitting and joining), [Btree]
    ([BTreeMap], [BTreeSet] and [for] loops with early return).

    The link ([reiny-link/src/wire.rs], [link.rs]): [Codec] (classes for the [crc]
    and [cobs] crates, with an executable instance), [Wire] (frames), [Core]
    (port types), [Hello], [HelloSpec], [HelloParse], [HelloWrite] (the port table
    on the wire, its abstract table and the exact parser and writer), [LinkState],
    [Link] (every method of [Link] as a state transformer), [LinkInv], [LinkIo],
    [LinkSend], [LinkRecv], [LinkDeclare], [LinkRun] (the invariant, by groups of
    operations, and runs of arbitrary calls), [LinkContract], [LinkProps],
    [LinkEdges] (agreement, delivery, limits).

    Contracts ([reiny-core/src/bindings.rs], [bindings/report.rs]): [Bindings],
    [BindingsSpec], [Report], [ReportSpec].

    Logical time ([reiny/src/encoded.rs], [step/*.rs]): [Step] (data), [StepPlan]
    (compilation), [StepScheduler], [StepSchedulerSpec], [StepProps].  Its control
    ([component/step/*.rs], [component/deadline.rs]): [StepGate], [StepGateSpec],
    [StepDriver], [StepControlProps], [StepDispatch].

    Jobs ([reiny/src/job/*.rs]): [Job].

    Process hosts ([reiny-core/src/host_protocol/], [reiny/src/component/process/]):
    [HostProtocol], [Connection] (framing and the control
    channel), [HostMessages] (events, outcomes and how a session ends),
    [ProcessWire] (ticks, values, graphs on the wire),
    [ProcessPlan] (drafts), [ProcessAdmit], [ProcessHost], [ProcessAdmitSpec],
    [ProcessOwner] (admission on both sides and the commit barrier),
    [ProcessReplay] (the guard), [ProcessProps].

    The launcher ([reiny-launch/src/modules.rs], [modules/*.rs]): [LaunchTypes],
    [LaunchLoad], [LaunchPlan] (definitions);
    [LaunchResolve], [LaunchDefinition], [LaunchTree], [LaunchTables],
    [LaunchBind], [LaunchAdmit], [LaunchProps] (theorems).

    Engines ([reiny/src/engine/*.rs], [reiny-core/src/qos.rs]): [EngineKey],
    [EngineMatch] (addresses, their text, matching, and the interface of a
    network's key expressions), [EngineLocal], [EngineProps] (the in-process bus),
    [EngineRouted], [EngineRoutedProps] (the network engine's callbacks and
    replies, and the placement routes over both).

    Handles ([reiny/src/pubsub.rs], [pubsub/shared.rs], [service.rs],
    [service/raw.rs]): [PubSub], [PubSubProps] (publishers, subscribers, callers
    and servers, against the interface [EngineOps] of an engine).

    Modules at run time ([reiny/src/managed.rs], [managed/*.rs], [shutdown.rs]):
    [Managed], [ManagedProps] (the port registry, readiness, admission, owned
    children).

    Component groups ([reiny/src/component/host.rs], [coordinator.rs],
    [coordinator/*.rs], [worker.rs], [worker/control.rs], [staged.rs],
    [handle.rs]): [Group], [GroupSteps], [GroupProps] (the launch, the tasks that
    supervise the components and their channels, on top of [Managed] contexts).

    Deployments ([reiny-launch/src/deployment.rs], [deployment/hosted/*.rs],
    [deployment/status.rs], [deployment/remote/*.rs], [prepared.rs]):
    [HostChannel] (the owner's non-blocking end of a control channel), [Deploy]
    (sessions, the tick of a hosted graph, starting, stopping, publishing),
    [DeploySteps], [DeployGraph] (what every step keeps), [DeployProps].

    Schemas ([reiny-build/src/fingerprint.rs], [lib.rs]): [Fingerprint],
    [FieldSpec], [FingerprintSpec], [FingerprintProps], [DescriptorSet] (what a
    field stands for, the canonical form that is hashed, and the pruning of
    descriptor sets).

    ** State and operations

    A struct is a [Record] with the fields of the source, an enum an [Inductive]
    with its constructors, a method a [Definition] with the method's name (with
    the type's name in front where two methods share it).  A method on [&mut self]
    takes and returns the state; in [Link] it is a computation of the monad [ST].
    A panic (an index out of range, a failed [assert!]) is [None].  A fallible
    function returns [result], with the source's error value or its message.
    Fixed-width integers are [Z] with [wrap], [wrapping_add], [checked_add] and
    the like where the code uses them, and [is_u8], [is_u16], ... as their ranges;
    [usize] is [nat] and a [Duration] or an [Instant] its nanoseconds.  Threads and
    tasks are interleavings of the atomic sections of the code (what holds the
    lock, or one message of a channel): lists of steps, step relations, or a
    parameter that says what the others do in between.

    ** Fuel

    [feed_loop]: two turns take a byte off the input, [next_loop]: a turn takes a
    byte off the receive buffer; [LinkRun] proves that the fuel the methods pass
    suffices.  [order_nodes] gets one unit per node, [join_workers] one per
    worker, [resolve_endpoint] one per alias and two more, [visit] one per level
    of the module tree, which is bounded by the number of directories; [cobs_dec],
    [wire_sources] and [digits] get the length of their input.  Each theorem about
    such a function includes that it returns.
    [resolve_from] gets one unit per scope and one more, [record_fuel] is one per
    referring field and two, [wanted_loop] one per import and two, [routed_alive]
    the longest future and one, [routed_next] and [routed_replies] the weight of
    the streams and one, [receive_all] one per sample and one; [flush_loop] and
    [next_loop] one per byte of the budget and one, since every read or write
    moves a byte, [notify_loop] one per waiter, and [stop_turns] takes the list of
    its turns.

    ** Parameters

    The checksum and framing crates (classes with laws and an instance); prost's
    message encoder, serde's JSON and SHA-256 (functions, with a round trip or
    injectivity where a theorem needs it); the application's code: the executor
    of a node, a job's work, validators, factories; the file system, the YAML
    parser and Git (the record [Env]); sockets, pipes and channels as what they
    delivered; join handles; other threads at the gate; the key expressions of
    the network (class [KeyExpr]).  Each hypothesis about one of them is
    instantiated in the witness of the theorem that uses it.

    ** What the theorems show

    - The link: no sequence of calls panics or loops ([link_calls_return]); parser
      and writer are exact inverses ([hello_parse_exact], [hello_write_parse],
      [frame_roundtrip]); a connection is an agreement on every shared port
      ([connected_means_agreement]); what is sent is received, in order
      ([send_is_received], [send_queue_fifo]), however input is split
      ([feed_refines]); ids are fresh, declarations atomic, events permitted.
    - Contracts: the validators decide declarative specifications
      ([bindings_validate_exact], [validate_graph_exact]).
    - Logical time: compilation is exactly lexical topological order
      ([compile_exact]); a committed tick is the run of a synchronous dataflow
      network ([commit_is_dataflow]), a failed one changes nothing
      ([failure_commits_nothing]); the gate admits one run at a time, stop is
      final, and the result a run retains is what the scheduler did
      ([gate_admits_one], [stop_is_final], [start_exact], [attempt_agrees]).
    - Process hosts: graphs survive the wire and an admitted draft starts
      everywhere or nowhere ([graph_crosses_wire], [admitted_draft_compiles],
      [admitted_session_starts], [commit_barrier]); nodes run once and in order
      ([replay_exact], [owner_calls_accepted]); frames arrive once and in order
      ([control_channel_delivers]); outcomes account for failures.
    - Jobs: a result is explained by the history of the job.
    - The launcher: definitions are validated exactly, resolution terminates
      ([resolution_terminates]), endpoint resolution is exact, plans are admitted
      and respect local-only hosts.
    - Engines: texts and addresses correspond, in-process matching is network
      matching, the bus delivers exactly, reply streams end exactly.
    - Routes and handles: a read of several routes gives each publication once, a
      declaration is made on every route or on none, replies of routes are merged
      ([routed_reads_once], [routed_declare_all_or_none], [routed_replies_merge]);
      while presence is watched a retained value never follows a newer one of its
      source, a queue that waits loses nothing and a ring counts what it throws away, and a call
      reports what happened ([latest_wins], [subscriber_gets_all],
      [ring_accounts], [call_reports_truth]).
    - Modules: readiness stands only while the module's report is the one its
      bindings demand, a committed admission is the prepared one, and what is
      delegated to a child is well-formed ([readiness_is_true],
      [committed_is_prepared], [delegation_valid]).
    - Groups: in every interleaving of its tasks a group runs only a validated
      graph, ends with an outcome that is true, ends after a stop, and never
      blocks a report ([runs_validated_graph], [outcome_is_true],
      [stop_ends_group], [reports_never_wait]).
    - Deployments: whatever hosts, kernel and clock do, admission is in order, the
      published status is true, first failures and records stay, a stop ends with
      no process left, waiters get what they asked for, and the control channel
      delivers both ways ([admission_in_order], [status_is_true], [nothing_is_forgotten],
      [stopping_ends], [publish_exact], [authenticate_exact],
      [owner_channel_exact]).
    - Schemas: the fingerprint is the hash of a description of everything that a
      message refers to, which equal bytes have in common ([fingerprint_exact],
      [fingerprint_separates]), and pruning a descriptor set keeps it
      ([descriptor_subset_fingerprint]).

    ** Not modelled

    Input and output proper: serial ports, sockets, processes, signals, files and
    locks ([reiny-link/src/transport.rs], [host.rs], [reiny-launch/src/runner.rs],
    [materialize.rs], [artifacts.rs], ...); code generation (what
    [reiny-build/src/lib.rs] prints, [reiny-macros]); bindings of third-party
    middleware ([reiny-ros2], [reiny-iceoryx2], the settings of
    [engine/zenoh.rs]); the C interface and the wrappers
    in other languages; the command line.  [Display] and serde derives are not
    modelled except where a conversion is written by hand.  Nor are the
    process runtime and its signals ([reiny/src/runtime.rs]) and the processes,
    files and artifact paths of owned children, or the thread and the boxed
    object of a component.  Of deployments, the SSH command of a remote host, the
    control socket of clients and the older deployments of plain processes are
    left out. *)

From Stdlib Require Ascii String.
From Stdlib Require Import ZArith Lia.
From stdpp Require Export prelude.

#[global] Unset Program Mode.

Declare Scope reiny_scope.
Delimit Scope reiny_scope with reiny.
#[global] Open Scope reiny_scope.

(** ** Hint databases and tactics of the development *)

Create HintDb reiny discriminated.
Create HintDb reiny_len.

(** Boolean guards of the code as propositions. *)
Ltac breflect_in H :=
  repeat first
    [ rewrite andb_true_iff in H | rewrite orb_true_iff in H
    | rewrite andb_false_iff in H | rewrite orb_false_iff in H
    | rewrite negb_true_iff in H | rewrite negb_false_iff in H
    | rewrite bool_decide_eq_true in H | rewrite bool_decide_eq_false in H
    | rewrite Nat.ltb_lt in H | rewrite Nat.ltb_ge in H
    | rewrite Nat.leb_le in H | rewrite Nat.leb_gt in H
    | rewrite Nat.eqb_eq in H | rewrite Nat.eqb_neq in H
    | rewrite Z.ltb_lt in H | rewrite Z.ltb_ge in H
    | rewrite Z.leb_le in H | rewrite Z.leb_gt in H
    | rewrite Z.eqb_eq in H | rewrite Z.eqb_neq in H ].

(** Case analysis on the scrutinee of the first [if] or [match] of a hypothesis. *)
Ltac case_step H :=
  match type of H with
  | context [ if ?c then _ else _ ] =>
      let E := fresh "E" in destruct c eqn:E; simplify_eq
  | context [ match ?c with _ => _ end ] =>
      let E := fresh "E" in destruct c eqn:E; simplify_eq
  end.

(** ** Results: Rust's [Result] *)

Inductive result (A E : Type) : Type :=
  | Ok (a : A)
  | Err (e : E).
Arguments Ok {A E} a.
Arguments Err {A E} e.

Definition is_ok {A E} (r : result A E) : bool :=
  match r with Ok _ => true | Err _ => false end.

(** [Result::map_err] *)
Definition map_err {A E F} (f : E → F) (r : result A E) : result A F :=
  match r with Ok a => Ok a | Err e => Err (f e) end.

(** [Result::ok] *)
Definition result_ok {A E} (r : result A E) : option A :=
  match r with Ok a => Some a | Err _ => None end.

(** [Option::ok_or] *)
Definition ok_or {A E} (o : option A) (e : E) : result A E :=
  match o with Some a => Ok a | None => Err e end.

Lemma ok_or_Ok {A E} (o : option A) (e : E) a : ok_or o e = Ok a ↔ o = Some a.
Proof. destruct o; naive_solver. Qed.

#[export] Instance result_eq_dec {A E} `{EqDecision A, EqDecision E} :
  EqDecision (result A E).
Proof. solve_decision. Defined.

Notation "'let?' x := r 'in' k" :=
  (match r with Ok x => k | Err e => Err e end)
  (at level 10, x pattern, r at level 100, k at level 200) : reiny_scope.

Lemma bind_Ok {A B E} (r : result A E) (k : A → result B E) y :
  (let? x := r in k x) = Ok y → ∃ x, r = Ok x ∧ k x = Ok y.
Proof. destruct r as [x|]; [|done]. intros Hk. by exists x. Qed.

(** ** The state monad with failure

    A Rust method on [&mut self] is a function from the state to the returned
    value and the new state; [None] is a panic (an index or slice out of range)
    or, in the loops that carry fuel, fuel that ran out.  A method that returns
    [Result] returns a [result] value, so that the state survives an [Err]. *)

Definition ST (S A : Type) : Type := S → option (A * S).

Definition ret {S A} (a : A) : ST S A := λ s, Some (a, s).
Definition bind {S A B} (m : ST S A) (k : A → ST S B) : ST S B :=
  λ s, match m s with Some (a, s') => k a s' | None => None end.
Definition gets {S A} (f : S → A) : ST S A := λ s, Some (f s, s).
Definition get {S} : ST S S := λ s, Some (s, s).
Definition modify {S} (f : S → S) : ST S unit := λ s, Some (tt, f s).
Definition lift {S A} (o : option A) : ST S A :=
  λ s, match o with Some a => Some (a, s) | None => None end.

(** [?]: an [Err] of the first computation is the result of the whole. *)
Definition bind_try {S A B E} (m : ST S (result A E)) (k : A → ST S (result B E)) :
  ST S (result B E) :=
  bind m (λ r, match r with Ok a => k a | Err e => ret (Err e) end).

Notation "'let*' x := m 'in' k" := (bind m (λ x, k))
  (at level 10, x pattern, m at level 100, k at level 200) : reiny_scope.
Notation "'try*' x := m 'in' k" := (bind_try m (λ x, k))
  (at level 10, x pattern, m at level 100, k at level 200) : reiny_scope.
Notation "m ';;;' k" := (bind m (λ _, k))
  (at level 199, right associativity) : reiny_scope.

(** Total correctness: the computation returns, and its result satisfies [Q]. *)
Definition wp {S A} (m : ST S A) (Q : A → S → Prop) (s : S) : Prop :=
  match m s with Some (a, s') => Q a s' | None => False end.

Section wp_rules.
Context {S : Type}.
Implicit Types s : S.

Lemma wp_ret {A} (a : A) Q s : wp (ret a) Q s ↔ Q a s.
Proof. done. Qed.

Lemma wp_bind {A B} (m : ST S A) (k : A → ST S B) Q s :
  wp (bind m k) Q s ↔ wp m (λ a s', wp (k a) Q s') s.
Proof. unfold wp, bind. by destruct (m s) as [[a s']|]. Qed.

Lemma wp_gets {A} (f : S → A) Q s : wp (gets f) Q s ↔ Q (f s) s.
Proof. done. Qed.

Lemma wp_get (Q : S → S → Prop) s : wp get Q s ↔ Q s s.
Proof. done. Qed.

Lemma wp_modify (f : S → S) Q s : wp (modify f) Q s ↔ Q tt (f s).
Proof. done. Qed.

Lemma wp_mono {A} (m : ST S A) (P Q : A → S → Prop) s :
  wp m P s → (∀ a s', P a s' → Q a s') → wp m Q s.
Proof. unfold wp. destruct (m s) as [[a s']|]; eauto. Qed.

Lemma wp_conj {A} (m : ST S A) (P Q : A → S → Prop) s :
  wp m P s → wp m Q s → wp m (λ a s', P a s' ∧ Q a s') s.
Proof. unfold wp. destruct (m s) as [[a s']|]; eauto. Qed.

Lemma wp_lift {A} (o : option A) Q s :
  wp (lift o) Q s ↔ match o with Some a => Q a s | None => False end.
Proof. unfold wp, lift. by destruct o. Qed.

Lemma wp_bind_try {A B E} (m : ST S (result A E)) (k : A → ST S (result B E)) Q s :
  wp (bind_try m k) Q s ↔
  wp m (λ r s', match r with Ok a => wp (k a) Q s' | Err e => Q (Err e) s' end) s.
Proof.
  unfold bind_try. rewrite wp_bind. unfold wp.
  destruct (m s) as [[[a|e] s']|]; done.
Qed.

Lemma wp_exists {A} (m : ST S A) Q s :
  wp m Q s ↔ ∃ a s', m s = Some (a, s') ∧ Q a s'.
Proof.
  unfold wp. destruct (m s) as [[a s']|]; [|split; [done|by intros (?&?&?&_)]].
  split; [eauto|]. intros (b&s2&Hb&HQ). injection Hb as -> ->. exact HQ.
Qed.

Lemma wp_run {A} (m : ST S A) (Q : A → S → Prop) s a s' :
  wp m Q s → m s = Some (a, s') → Q a s'.
Proof. unfold wp. by intros H E; rewrite E in H. Qed.

Lemma wp_eq {A} (m : ST S A) (Q : A → S → Prop) s a s' :
  m s = Some (a, s') → Q a s' → wp m Q s.
Proof. unfold wp. by intros ->. Qed.
End wp_rules.

Ltac wp_step :=
  first [ rewrite wp_bind_try | rewrite wp_bind | rewrite wp_ret | rewrite wp_gets | rewrite wp_get
        | rewrite wp_modify | rewrite wp_lift ].
Ltac wp_steps := repeat (wp_step; cbn beta iota).

(** ** Machine integers *)

Definition wrap (w : Z) (z : Z) : Z := z `mod` 2 ^ w.
Definition u8_max : Z := 255.
Definition u16_max : Z := 65535.
Definition u32_max : Z := 4294967295.
Definition u64_max : Z := 18446744073709551615.

Definition is_u (w : Z) (z : Z) : Prop := (0 ≤ z < 2 ^ w)%Z.
Abbreviation is_u8 := (is_u 8).
Abbreviation is_u16 := (is_u 16).
Abbreviation is_u32 := (is_u 32).
Abbreviation is_u64 := (is_u 64).

Definition wrapping_add (w a b : Z) : Z := wrap w (a + b).
Definition wrapping_sub (w a b : Z) : Z := wrap w (a - b).
Definition wrapping_mul (w a b : Z) : Z := wrap w (a * b).
(** [checked_add]: [None] on overflow *)
Definition checked_add (w a b : Z) : option Z :=
  if (a + b <? 2 ^ w)%Z then Some (a + b)%Z else None.
Definition saturating_add (w a b : Z) : Z := Z.min (a + b) (2 ^ w - 1).
(** [!x] on a [u8] *)
Definition not8 (x : Z) : Z := Z.lxor x 255.

#[export] Instance is_u_dec w z : Decision (is_u w z).
Proof. unfold is_u. apply _. Defined.

Lemma wrap_range w z : (0 ≤ w)%Z → is_u w (wrap w z).
Proof. intros. unfold is_u, wrap. apply Z.mod_pos_bound. lia. Qed.

Lemma wrap_small w z : is_u w z → wrap w z = z.
Proof. intros. by apply Z.mod_small. Qed.

#[export] Hint Resolve wrap_range : reiny.

(** ** Slices

    Positions and lengths are [nat] ([usize]; a slice is never longer than the
    address space, so sums of in-range positions do not overflow).  The
    operations that Rust checks return [None] where Rust panics. *)

(** [&l[a..b]] *)
Definition slice {A} (a b : nat) (l : list A) : option (list A) :=
  if (a <=? b) && (b <=? length l) then Some (take (b - a) (drop a l)) else None.

(** [dst[pos..pos + src.len()].copy_from_slice(src)] *)
Definition copy_at {A} (pos : nat) (src dst : list A) : option (list A) :=
  if pos + length src <=? length dst
  then Some (take pos dst ++ src ++ drop (pos + length src) dst) else None.

(** [l.copy_within(a..b, dest)] *)
Definition copy_within {A} (a b dest : nat) (l : list A) : option (list A) :=
  match slice a b l with Some src => copy_at dest src l | None => None end.

(** [iter().position(p)] *)
Fixpoint position {A} (p : A → bool) (l : list A) : option nat :=
  match l with
  | [] => None
  | x :: l' => if p x then Some 0 else option_map S (position p l')
  end.

(** [iter().find(p)] *)
Fixpoint find {A} (p : A → bool) (l : list A) : option A :=
  match l with
  | [] => None
  | x :: l' => if p x then Some x else find p l'
  end.

(** [Option::is_none] *)
Definition is_none {A} (o : option A) : bool := match o with None => true | Some _ => false end.

(** [iter().flatten()] over a table of optional slots *)
Fixpoint flatten {A} (l : list (option A)) : list A :=
  match l with
  | [] => []
  | Some x :: l' => x :: flatten l'
  | None :: l' => flatten l'
  end.

(** [a - b] on [usize]: an underflow panics *)
Definition usub (a b : nat) : option nat := if b <=? a then Some (a - b) else None.

(** [m] on [&mut l[a..b]] *)
Definition sub_slice {A R} (a b : nat) (m : ST (list A) R) : ST (list A) R := λ l,
  match slice a b l with
  | Some part =>
      match m part with
      | Some (r, part') => option_map (λ l', (r, l')) (copy_at a part' l)
      | None => None
      end
  | None => None
  end.

(** [m] on a field of the state *)
Definition focus {S T R} (get : S → T) (set : T → S → S) (m : ST T R) : ST S R := λ s,
  match m (get s) with Some (r, t) => Some (r, set t s) | None => None end.

(** [iter().enumerate().any(f)], counting from [i] *)
Fixpoint any_enumerate {A} (f : nat → A → bool) (i : nat) (l : list A) : bool :=
  match l with
  | [] => false
  | x :: l' => f i x || any_enumerate f (S i) l'
  end.

Lemma wp_focus {S T R} (get : S → T) (set : T → S → S) (m : ST T R) Q s :
  wp (focus get set m) Q s ↔ wp m (λ r t, Q r (set t s)) (get s).
Proof. unfold wp, focus. by destruct (m (get s)) as [[r t]|]. Qed.

Lemma wp_sub_slice {A R} a b (m : ST (list A) R) Q l :
  a ≤ b → b ≤ length l →
  wp m (λ r part, length part = b - a ∧ Q r (take a l ++ part ++ drop b l))
     (take (b - a) (drop a l)) →
  wp (sub_slice a b m) Q l.
Proof.
  intros Hab Hb H. unfold wp, sub_slice, slice in *.
  rewrite (proj2 (Nat.leb_le _ _) Hab), (proj2 (Nat.leb_le _ _) Hb). cbn [andb].
  destruct (m _) as [[r part]|]; [|done]. destruct H as [Hl HQ].
  unfold copy_at. rewrite (proj2 (Nat.leb_le _ _)) by lia. cbn [option_map].
  by replace (a + length part) with b by lia.
Qed.

Lemma usub_eq a b : b ≤ a → usub a b = Some (a - b).
Proof. intros. unfold usub. by rewrite (proj2 (Nat.leb_le _ _)). Qed.

Section slices.
Context {A : Type}.
Implicit Types l src dst : list A.

Lemma slice_Some a b l r :
  slice a b l = Some r ↔ a ≤ b ∧ b ≤ length l ∧ r = take (b - a) (drop a l).
Proof.
  unfold slice. destruct (_ && _) eqn:E; breflect_in E.
  - naive_solver.
  - split; [done|]. naive_solver lia.
Qed.

Lemma slice_eq a b l :
  a ≤ b → b ≤ length l → slice a b l = Some (take (b - a) (drop a l)).
Proof. intros. by apply slice_Some. Qed.

Lemma copy_at_Some pos src dst r :
  copy_at pos src dst = Some r ↔
  pos + length src ≤ length dst ∧
  r = take pos dst ++ src ++ drop (pos + length src) dst.
Proof.
  unfold copy_at. destruct (_ <=? _) eqn:E; breflect_in E; naive_solver lia.
Qed.

Lemma copy_at_eq pos src dst :
  pos + length src ≤ length dst →
  copy_at pos src dst = Some (take pos dst ++ src ++ drop (pos + length src) dst).
Proof. intros. by apply copy_at_Some. Qed.

Lemma copy_at_length pos src dst r :
  copy_at pos src dst = Some r → length r = length dst.
Proof.
  intros [? ->]%copy_at_Some. rewrite !length_app, length_take, length_drop. lia.
Qed.

Lemma split_at n l :
  n ≤ length l → ∃ l1 l2, l = l1 ++ l2 ∧ length l1 = n.
Proof. intros. exists (take n l), (drop n l). rewrite take_drop, length_take. split; [done|lia]. Qed.

(** A write over a part of known extent replaces that part. *)
Lemma copy_at_app pre old post src pos :
  pos = length pre → length src = length old →
  copy_at pos src (pre ++ old ++ post) = Some (pre ++ src ++ post).
Proof.
  intros -> Hl. rewrite copy_at_eq by (rewrite !length_app; lia). do 2 f_equal.
  - by rewrite take_app_length.
  - f_equal. rewrite Hl, <- length_app, app_assoc. by rewrite drop_app_length.
Qed.

(** Writing at the end of a used prefix appends to it. *)
Lemma copy_at_take pos src dst r :
  copy_at pos src dst = Some r → take (pos + length src) r = take pos dst ++ src.
Proof.
  intros [? ->]%copy_at_Some. rewrite app_assoc.
  rewrite take_app_length'; [done|]. rewrite length_app, length_take. lia.
Qed.

Lemma copy_at_take_before n pos src dst r :
  copy_at pos src dst = Some r → n ≤ pos → take n r = take n dst.
Proof.
  intros [? ->]%copy_at_Some Hn. rewrite take_app_le by (rewrite length_take; lia).
  by rewrite take_take, Nat.min_l.
Qed.

Lemma copy_at_drop pos src dst r :
  copy_at pos src dst = Some r →
  drop (pos + length src) r = drop (pos + length src) dst.
Proof.
  intros [? ->]%copy_at_Some. rewrite app_assoc, drop_app_length'; [done|].
  rewrite length_app, length_take. lia.
Qed.

Lemma copy_at_window pos src dst r :
  copy_at pos src dst = Some r → take (length src) (drop pos r) = src.
Proof.
  intros [? ->]%copy_at_Some. rewrite drop_app_length' by (rewrite length_take; lia).
  by rewrite take_app_length.
Qed.

(** [copy_within(n..len, 0)] drops the first [n] elements of the used prefix. *)
Lemma copy_within_front n len l :
  n ≤ len → len ≤ length l →
  ∃ r, copy_within n len 0 l = Some r ∧ length r = length l ∧
       take (len - n) r = drop n (take len l).
Proof.
  intros Hn Hl. unfold copy_within. rewrite slice_eq by lia.
  set (src := take (len - n) (drop n l)).
  assert (Hs : length src = len - n) by (unfold src; rewrite length_take, length_drop; lia).
  rewrite copy_at_eq by lia. eexists; split; [done|].
  rewrite take_0, app_nil_l, length_app, length_drop. split; [lia|].
  rewrite Hs, Nat.add_0_l, take_app_length' by done.
  unfold src. by rewrite take_drop_commute, Nat.add_comm, Nat.sub_add.
Qed.

Lemma position_Some p l i :
  position p l = Some i ↔
  ∃ l1 x l2, l = l1 ++ x :: l2 ∧ length l1 = i ∧ p x = true ∧
             Forall (λ y, p y = false) l1.
Proof.
  revert i. induction l as [|x l IH]; intros i; cbn.
  - split; [done|]. intros (l1&y&l2&H&_). by destruct l1.
  - destruct (p x) eqn:E.
    + split.
      * intros [= <-]. exists [], x, l. by repeat constructor.
      * intros (l1&y&l2&H&Hlen&Hy&Hall). destruct l1 as [|z l1]; [by subst|].
        injection H as <- ->. inversion Hall; simplify_eq; congruence.
    + split.
      * destruct (position p l) as [j|] eqn:Ej; [|done]. intros [= <-].
        destruct (proj1 (IH j) eq_refl) as (l1&y&l2&->&<-&Hy&Hall).
        exists (x :: l1), y, l2. by repeat constructor.
      * intros (l1&y&l2&H&Hlen&Hy&Hall). destruct l1 as [|z l1].
        { injection H as <- ->. congruence. }
        injection H as <- ->. inversion Hall; subst.
        rewrite (proj2 (IH (length l1))); [done|].
        by exists l1, y, l2.
Qed.

Lemma position_None p l : position p l = None ↔ Forall (λ y, p y = false) l.
Proof.
  induction l as [|x l IH]; cbn; [by split; constructor|].
  destruct (p x) eqn:E.
  - split; [done|]. inversion 1; congruence.
  - rewrite Forall_cons, <- IH. destruct (position p l); cbn; naive_solver.
Qed.

Lemma position_lt p l i : position p l = Some i → i < length l.
Proof. intros (l1&x&l2&->&<-&_)%position_Some. rewrite length_app. cbn. lia. Qed.

Lemma find_Some p l x :
  find p l = Some x → x ∈ l ∧ p x = true.
Proof.
  induction l as [|y l IH]; cbn; [done|].
  destruct (p y) eqn:E; [intros [= ->]; split; [left|done]|].
  intros [? ?]%IH. split; [by right|done].
Qed.

Lemma find_None p l : find p l = None ↔ Forall (λ y, p y = false) l.
Proof.
  induction l as [|y l IH]; cbn; [by split; constructor|].
  rewrite Forall_cons, <- IH. destruct (p y); naive_solver.
Qed.

Lemma find_ext p q l : (∀ x, x ∈ l → p x = q x) → find p l = find q l.
Proof.
  induction l as [|y l IH]; intros H; cbn; [done|].
  rewrite (H y) by left. destruct (q y); [done|]. apply IH. intros; apply H. by right.
Qed.

Lemma elem_of_flatten (t : list (option A)) x : x ∈ flatten t ↔ Some x ∈ t.
Proof.
  induction t as [|[y|] t IH]; cbn; rewrite ?elem_of_cons, ?elem_of_nil, ?IH; naive_solver.
Qed.

Lemma flatten_app (l k : list (option A)) : flatten (l ++ k) = flatten l ++ flatten k.
Proof. induction l as [|[x|] l IH]; cbn; by rewrite ?IH. Qed.

Lemma flatten_replicate_None n : flatten (replicate n (@None A)) = [].
Proof. by induction n. Qed.

End slices.

Section slots.
Context {A : Type}.

(** The slot found by [position], replaced *)
Lemma insert_position (p : option A → bool) (l : list (option A)) i (y : option A) :
  position p l = Some i →
  ∃ l1 o l2, l = l1 ++ o :: l2 ∧ p o = true ∧ <[i := y]> l = l1 ++ y :: l2.
Proof.
  intros (l1&o&l2&->&<-&Hp&_)%position_Some. exists l1, o, l2. split_and!; [done|done|].
  rewrite <- (Nat.add_0_r (length l1)) at 1. by rewrite insert_app_r.
Qed.

Lemma insert_free (l : list (option A)) i x :
  position is_none l = Some i →
  ∃ l1 l2, flatten l = l1 ++ l2 ∧ flatten (<[i := Some x]> l) = l1 ++ x :: l2.
Proof.
  intros (l1&o&l2&->&Ho&->)%(insert_position _ _ _ (Some x)). destruct o; [done|].
  exists (flatten l1), (flatten l2). by rewrite !flatten_app.
Qed.

Lemma NoDup_flatten_insert (l : list (option A)) i x :
  position is_none l = Some i → x ∉ flatten l → NoDup (flatten l) →
  NoDup (flatten (<[i := Some x]> l)).
Proof.
  intros (l1&l2&E1&->)%(insert_free _ _ x) Hx Hnd. rewrite E1 in Hx, Hnd.
  rewrite <- Permutation_middle. by constructor.
Qed.

Lemma NoDup_flatten_clear (p : option A → bool) (l : list (option A)) i :
  position p l = Some i → NoDup (flatten l) → NoDup (flatten (<[i := None]> l)).
Proof.
  intros (l1&o&l2&->&_&->)%(insert_position _ _ _ None). rewrite !flatten_app. cbn.
  destruct o as [x|]; [|done]. rewrite <- Permutation_middle. by intros [_ ?]%NoDup_cons.
Qed.
End slots.

Lemma bool_decide_eq_iff (P Q : Prop) `{!Decision P, !Decision Q} :
  bool_decide P = bool_decide Q ↔ (P ↔ Q).
Proof. split; [|apply bool_decide_ext]. by repeat case_bool_decide. Qed.

Lemma forallb_Forall {A} (f : A → bool) l : forallb f l = true ↔ Forall (λ x, f x = true) l.
Proof.
  induction l as [|x l IH]; cbn; [by split; constructor|].
  by rewrite andb_true_iff, Forall_cons, IH.
Qed.

Lemma existsb_exists_elem {A} (f : A → bool) l :
  existsb f l = true ↔ ∃ x, x ∈ l ∧ f x = true.
Proof.
  induction l as [|x l IH]; cbn.
  - split; [done|]. intros (y&Hy&_). by apply elem_of_nil in Hy.
  - rewrite orb_true_iff, IH. setoid_rewrite elem_of_cons. naive_solver.
Qed.

Lemma existsb_false_elem {A} (f : A → bool) l :
  existsb f l = false ↔ ∀ x, x ∈ l → f x = false.
Proof.
  rewrite <- not_true_iff_false, existsb_exists_elem. split.
  - intros H x Hx. apply not_true_iff_false. eauto.
  - intros H (x&Hx&E). by rewrite H in E.
Qed.

(** ** Bytes and little-endian words *)

Definition bytes_ok (l : list Z) : Prop := Forall is_u8 l.

Fixpoint le_bytes (n : nat) (v : Z) : list Z :=
  match n with
  | 0 => []
  | S n' => (v `mod` 256)%Z :: le_bytes n' (v / 256)%Z
  end.

Fixpoint from_le (l : list Z) : Z :=
  match l with [] => 0%Z | b :: l' => (b + 256 * from_le l')%Z end.

Lemma length_le_bytes n v : length (le_bytes n v) = n.
Proof. revert v. induction n; intros; cbn; auto. Qed.

Lemma le_bytes_ok n v : bytes_ok (le_bytes n v).
Proof.
  revert v. induction n as [|n IH]; intros v; cbn; [constructor|].
  constructor; [|apply IH].
  unfold is_u. change (2 ^ 8)%Z with 256%Z. apply Z.mod_pos_bound. lia.
Qed.

Lemma from_le_bytes n v : is_u (8 * Z.of_nat n) v → from_le (le_bytes n v) = v.
Proof.
  revert v. induction n as [|n IH]; intros v Hv; cbn.
  - unfold is_u in Hv. cbn in Hv. lia.
  - rewrite IH.
    + pose proof (Z.div_mod v 256). lia.
    + unfold is_u in *.
      replace (8 * Z.of_nat (S n))%Z with (8 + 8 * Z.of_nat n)%Z in Hv by lia.
      rewrite Z.pow_add_r in Hv by lia. change (2 ^ 8)%Z with 256%Z in Hv.
      split; [apply Z.div_pos; lia|]. apply Z.div_lt_upper_bound; lia.
Qed.

Lemma le_bytes_from l : bytes_ok l → le_bytes (length l) (from_le l) = l.
Proof.
  induction 1 as [|b l Hb _ IH]; cbn; [done|].
  unfold is_u in Hb. change (2 ^ 8)%Z with 256%Z in Hb.
  rewrite Z.add_comm, Z.mul_comm.
  rewrite Z_div_plus_full_l by lia.
  rewrite (Z.add_comm (_ * _)), Z_mod_plus_full, Z.mod_small by lia.
  rewrite Z.div_small, Z.add_0_r by lia. by rewrite IH.
Qed.

Lemma from_le_range l : bytes_ok l → is_u (8 * Z.of_nat (length l)) (from_le l).
Proof.
  induction 1 as [|b l Hb _ IH]; cbn [from_le length]; [done|].
  unfold is_u in *. change (2 ^ 8)%Z with 256%Z in Hb.
  replace (8 * Z.of_nat (S (length l)))%Z with (8 + 8 * Z.of_nat (length l))%Z by lia.
  rewrite Z.pow_add_r by lia. change (2 ^ 8)%Z with 256%Z. lia.
Qed.

#[export] Hint Rewrite @length_app @length_take @length_drop @length_replicate
  @length_insert length_le_bytes @length_fmap : reiny_len.
Lemma bytes_ok_nil : bytes_ok [].
Proof. constructor. Qed.
Lemma bytes_ok_cons b l : is_u8 b → bytes_ok l → bytes_ok (b :: l).
Proof. by constructor. Qed.
Lemma bytes_ok_app l k : bytes_ok l → bytes_ok k → bytes_ok (l ++ k).
Proof. intros. by apply Forall_app. Qed.
Lemma bytes_ok_take n l : bytes_ok l → bytes_ok (take n l).
Proof. apply Forall_take. Qed.
Lemma bytes_ok_drop n l : bytes_ok l → bytes_ok (drop n l).
Proof. apply Forall_drop. Qed.

Lemma copy_within_bytes a b dest l l' :
  bytes_ok l → copy_within a b dest l = Some l' → bytes_ok l'.
Proof.
  intros Hl E. unfold copy_within in E. destruct (slice a b l) as [src|] eqn:Es; [|done].
  apply slice_Some in Es as (_&_&->). apply copy_at_Some in E as [_ ->].
  auto using bytes_ok_app, bytes_ok_take, bytes_ok_drop.
Qed.

#[export] Hint Resolve le_bytes_ok bytes_ok_nil bytes_ok_cons bytes_ok_app
  bytes_ok_take bytes_ok_drop : reiny.

(** A closed number is in range. *)
Ltac urange := vm_compute; split; [discriminate | reflexivity].
#[export] Hint Extern 1 (is_u _ (Zpos _)) => urange : reiny.
#[export] Hint Extern 1 (is_u _ Z0) => urange : reiny.

(** Length goals over the list operations of the development. *)
Ltac len := autorewrite with reiny_len in *; cbn [length] in *; lia.

(** ** String literals as UTF-8 bytes *)

Definition str : Type := list Z.

Fixpoint bytes_of (s : String.string) : str :=
  match s with
  | String.EmptyString => []
  | String.String c s' => Z.of_N (Ascii.N_of_ascii c) :: bytes_of s'
  end.
Export Stdlib.Strings.String.StringSyntax.
Delimit Scope string_scope with string.
Arguments bytes_of s%_string.
