(* ===== verification/Text.v ===== *)
(** * Text: what the sources use of Rust's [str]

    A [str] is its UTF-8 bytes.  [utf8_valid] is [core::str::from_utf8] as a
    predicate (RFC 3629, the table of well-formed sequences), [chars] decodes
    the scalar values, [split_on] is [str::split] on an ASCII character, [trim_empty]
    is [s.trim().is_empty()].  The ASCII classes are those of [u8]. *)

From Stdlib Require Import ZArith Lia.
From S2P Require Import Prelude.

Local Open Scope Z_scope.

Definition between (a b x : Z) : bool := (a <=? x) && (x <=? b).

Definition is_ascii_digit (b : Z) : bool := between 48 57 b.
Definition is_ascii_alphabetic (b : Z) : bool := between 65 90 b || between 97 122 b.
Definition is_ascii_alphanumeric (b : Z) : bool := is_ascii_alphabetic b || is_ascii_digit b.

(** ** UTF-8 *)

Definition utf8_cont (b : Z) : bool := between 128 191 b.
(** Lead and second byte of the three- and four-byte sequences. *)
Definition utf8_lead3 (a b : Z) : bool :=
  ((a =? 224) && between 160 191 b) || (between 225 236 a && utf8_cont b)
  || ((a =? 237) && between 128 159 b) || (between 238 239 a && utf8_cont b).
Definition utf8_lead4 (a b : Z) : bool :=
  ((a =? 240) && between 144 191 b) || (between 241 243 a && utf8_cont b)
  || ((a =? 244) && between 128 143 b).

Fixpoint utf8_valid (l : list Z) : bool :=
  match l with
  | [] => true
  | a :: l1 =>
      if between 0 127 a then utf8_valid l1 else
      match l1 with
      | [] => false
      | b :: l2 =>
          if between 194 223 a && utf8_cont b then utf8_valid l2 else
          match l2 with
          | [] => false
          | c :: l3 =>
              if utf8_lead3 a b && utf8_cont c then utf8_valid l3 else
              match l3 with
              | [] => false
              | d :: l4 =>
                  if utf8_lead4 a b && utf8_cont c && utf8_cont d
                  then utf8_valid l4 else false
              end
          end
      end
  end.

(** The scalar values of a valid string ([str::chars]). *)
Fixpoint chars (l : list Z) : list Z :=
  match l with
  | [] => []
  | a :: l1 =>
      if between 0 127 a then a :: chars l1 else
      match l1 with
      | [] => []
      | b :: l2 =>
          if between 194 223 a && utf8_cont b
          then ((a - 192) * 64 + (b - 128)) :: chars l2 else
          match l2 with
          | [] => []
          | c :: l3 =>
              if utf8_lead3 a b && utf8_cont c
              then ((a - 224) * 4096 + (b - 128) * 64 + (c - 128)) :: chars l3 else
              match l3 with
              | [] => []
              | d :: l4 =>
                  if utf8_lead4 a b && utf8_cont c && utf8_cont d
                  then ((a - 240) * 262144 + (b - 128) * 4096 + (c - 128) * 64 + (d - 128))
                       :: chars l4
                  else []
              end
          end
      end
  end.

(** [char::is_whitespace]: the Unicode property [White_Space] *)
Definition is_whitespace (c : Z) : bool :=
  between 9 13 c || (c =? 32) || (c =? 133) || (c =? 160) || (c =? 5760)
  || between 8192 8202 c || (c =? 8232) || (c =? 8233) || (c =? 8239)
  || (c =? 8287) || (c =? 12288).

(** [s.trim().is_empty()]: every character is white space *)
Definition trim_empty (s : str) : bool := forallb is_whitespace (chars s).

(** [s.split(sep)] for an ASCII separator: at least one segment *)
Fixpoint split_on (sep : Z) (s : str) : list str :=
  match s with
  | [] => [[]]
  | b :: s' =>
      if b =? sep then [] :: split_on sep s'
      else match split_on sep s' with
           | seg :: rest => (b :: seg) :: rest
           | [] => [[b]]
           end
  end.

(** A Rust [str]: bytes that [from_utf8] accepts. *)
Definition str_ok (s : str) : Prop := utf8_valid s = true.

(** ** Lemmas *)

Lemma between_true a b x : between a b x = true ↔ a ≤ x ≤ b.
Proof. unfold between. rewrite andb_true_iff, !Z.leb_le. done. Qed.

Lemma utf8_valid_app s t : utf8_valid s = true → utf8_valid (s ++ t) = utf8_valid t.
Proof.
  remember (length s) as n eqn:Hn. revert s Hn.
  induction (lt_wf n) as [n _ IH]. intros s Hn Hs.
  assert (IH' : ∀ s', (length s' < length s)%nat → utf8_valid s' = true →
                      utf8_valid (s' ++ t) = utf8_valid t).
  { intros s' Hl Hv. eapply IH; [|done|done]. lia. }
  clear IH Hn. destruct s as [|a l1]; [done|]. cbn [utf8_valid app] in *.
  destruct (between 0 127 a); [apply IH'; [cbn; lia|done]|].
  destruct l1 as [|b l2]; [done|]. cbn [app].
  destruct (_ && _); [apply IH'; [cbn; lia|done]|].
  destruct l2 as [|c l3]; [done|]. cbn [app].
  destruct (_ && _); [apply IH'; [cbn; lia|done]|].
  destruct l3 as [|d l4]; [done|]. cbn [app].
  destruct (_ && _); [apply IH'; [cbn; lia|done]|done].
Qed.

Lemma utf8_valid_ascii s : Forall (λ b, between 0 127 b = true) s → utf8_valid s = true.
Proof. induction 1 as [|b s Hb _ IH]; cbn; [done|]. by rewrite Hb. Qed.

Ltac utf8_ranges :=
  unfold utf8_lead3, utf8_lead4, utf8_cont in *;
  repeat match goal with
  | H : (_ && _) = true |- _ => apply andb_true_iff in H as [? ?]
  | H : (_ || _) = true |- _ => apply orb_true_iff in H as [?|?]
  | H : between _ _ _ = true |- _ => apply between_true in H
  | H : (_ =? _) = true |- _ => apply Z.eqb_eq in H
  end.

Lemma str_ok_bytes s : str_ok s → bytes_ok s.
Proof.
  unfold str_ok. remember (length s) as n eqn:Hn. revert s Hn.
  induction (lt_wf n) as [n _ IH]. intros s Hn Hs.
  assert (IH' : ∀ s', (length s' < length s)%nat → utf8_valid s' = true → bytes_ok s').
  { intros s' Hl Hv. eapply IH; [|done|done]. lia. }
  clear IH Hn. unfold bytes_ok, is_u in *. change (2 ^ 8) with 256 in *.
  destruct s as [|a l1]; [constructor|]. cbn [utf8_valid] in Hs.
  destruct (between 0 127 a) eqn:E1.
  { utf8_ranges. constructor; [lia|]. apply IH'; [cbn; lia|done]. }
  destruct l1 as [|b l2]; [done|].
  destruct (between 194 223 a && _) eqn:E2.
  { utf8_ranges. repeat (constructor; [lia|]). apply IH'; [cbn; lia|done]. }
  destruct l2 as [|c l3]; [done|].
  destruct (utf8_lead3 a b && _) eqn:E3.
  { assert (is_u8 a ∧ is_u8 b ∧ is_u8 c) as (?&?&?)
      by (clear E2; unfold is_u; utf8_ranges; change (2 ^ 8) with 256; lia).
    repeat (constructor; [done|]). apply IH'; [cbn; lia|done]. }
  destruct l3 as [|d l4]; [done|].
  destruct (utf8_lead4 a b && _ && _) eqn:E4; [|done].
  assert (is_u8 a ∧ is_u8 b ∧ is_u8 c ∧ is_u8 d) as (?&?&?&?)
    by (clear E2 E3; unfold is_u; utf8_ranges; change (2 ^ 8) with 256; lia).
  repeat (constructor; [done|]). apply IH'; [cbn; lia|done].
Qed.

Lemma split_on_nonempty sep s : split_on sep s ≠ [].
Proof. destruct s; cbn; [done|]. destruct (_ =? _); [done|]. by destruct (split_on sep s). Qed.

(** [split] is inverted by joining with the separator. *)
Fixpoint join_on (sep : Z) (segs : list str) : str :=
  match segs with
  | [] => []
  | [seg] => seg
  | seg :: rest => seg ++ sep :: join_on sep rest
  end.

Lemma join_split sep s : join_on sep (split_on sep s) = s.
Proof.
  induction s as [|b s IH]; [done|]. cbn [split_on].
  destruct (b =? sep) eqn:E.
  - apply Z.eqb_eq in E as ->. destruct (split_on sep s) as [|s0 l] eqn:Es.
    { by apply split_on_nonempty in Es. }
    change (sep :: join_on sep (s0 :: l) = sep :: s). by rewrite IH.
  - destruct (split_on sep s) as [|seg rest] eqn:Es; [by apply split_on_nonempty in Es|].
    destruct rest; cbn [join_on app] in *; by rewrite <- IH.
Qed.

#[export] Hint Resolve str_ok_bytes : reiny.
