(* ===== verification/Codec.v ===== *)
(** * Codec: the checksum and framing crates the link calls

    The [crc] and [cobs] crates are not part of the repository.  Their entry
    points are the operations of two classes, [CrcOps] and [CobsOps], and what
    the link relies on are the laws [CrcLaws] and [CobsLaws]: a CRC-16 is a
    [u16]; [cobs::encode] writes a non-empty block without zero bytes, no longer
    than [max_encoding_length], that [cobs::decode_in_place] turns back into the
    source; decoding never grows a buffer.  The theorems about the link hold for
    every instance; the second half is an executable instance, a CRC-16/KERMIT
    and a consistent-overhead byte stuffing written from their definitions, with
    the proof that they satisfy the laws. *)

From Stdlib Require Import ZArith Lia.
From S2P Require Import Prelude.

Class CrcOps : Type := {
  (** [crc::Crc::checksum] of the CRC-16 the link selects *)
  crc_checksum : list Z → Z;
}.

Class CrcLaws `{CrcOps} : Prop := {
  crc_range l : is_u16 (crc_checksum l);
}.

Class CobsOps : Type := {
  (** [cobs::max_encoding_length] *)
  cobs_max : nat → nat;
  (** [cobs::encode source dest]: the number of bytes written and the buffer
      afterwards; [None] where the destination is too small (a panic) *)
  cobs_encode : list Z → list Z → option (nat * list Z);
  (** [cobs::decode_in_place]: the decoded length or a failure, and the buffer
      afterwards *)
  cobs_decode_in_place : list Z → option nat * list Z;
}.

(** [enc] is an encoding of [raw]. *)
Definition cobs_block `{CobsOps} (raw enc : list Z) : Prop :=
  enc ≠ [] ∧ Forall (λ b, b ≠ 0%Z) enc ∧ bytes_ok enc ∧
  length enc ≤ cobs_max (length raw) ∧
  ∃ buf, cobs_decode_in_place enc = (Some (length raw), buf) ∧
         take (length raw) buf = raw.

Class CobsLaws `{CobsOps} : Prop := {
  cobs_encode_ok raw out :
    raw ≠ [] → bytes_ok raw → bytes_ok out → cobs_max (length raw) ≤ length out →
    ∃ n out', cobs_encode raw out = Some (n, out') ∧ length out' = length out ∧
              n ≤ length out ∧ bytes_ok out' ∧ cobs_block raw (take n out');
  cobs_decode_ok buf n buf' :
    bytes_ok buf → cobs_decode_in_place buf = (n, buf') →
    length buf' = length buf ∧ bytes_ok buf' ∧ from_option (λ n, n ≤ length buf) True n;
}.

(** ** CRC-16/KERMIT: reflected polynomial 0x8408, initial value 0 *)

Definition crc_bit (c : Z) : Z :=
  if Z.odd c then Z.lxor (Z.shiftr c 1) 33800 else Z.shiftr c 1.
Definition crc_byte (c b : Z) : Z := Nat.iter 8 crc_bit (Z.lxor c b).
Definition crc_kermit (l : list Z) : Z := wrap 16 (foldl crc_byte 0%Z l).

#[export] Instance kermit_crc : CrcOps := {| crc_checksum := crc_kermit |}.

#[export] Instance kermit_crc_laws : CrcLaws.
Proof. constructor. intros l. by apply wrap_range. Qed.

(** The check value of CRC-16/KERMIT. *)
Example crc_kermit_check : crc_kermit (bytes_of "123456789") = 8585%Z.
Proof. vm_compute. reflexivity. Qed.

(** ** COBS *)

(** [blk] holds the non-zero bytes of the block being collected. *)
Fixpoint cobs_enc (blk l : list Z) : list Z :=
  match l with
  | [] => Z.of_nat (S (length blk)) :: blk
  | x :: l' =>
      if (x =? 0)%Z then Z.of_nat (S (length blk)) :: blk ++ cobs_enc [] l'
      else if length blk =? 253 then 255%Z :: (blk ++ [x]) ++ cobs_enc [] l'
      else cobs_enc (blk ++ [x]) l'
  end.

Fixpoint cobs_dec (fuel : nat) (l : list Z) : option (list Z) :=
  match l, fuel with
  | [], _ => Some []
  | _, 0 => None
  | c :: l', S fuel' =>
      let n := Z.to_nat (c - 1) in
      if (c <=? 0)%Z || (length l' <? n) then None else
      match drop n l' with
      | [] => Some (take n l')
      | rest =>
          r ← cobs_dec fuel' rest;
          Some (take n l' ++ (if (c =? 255)%Z then [] else [0%Z]) ++ r)
      end
  end.

#[export] Instance ref_cobs : CobsOps := {|
  cobs_max n := n + n / 254 + 1;
  cobs_encode raw out :=
    let e := cobs_enc [] raw in
    if length e <=? length out then Some (length e, e ++ drop (length e) out) else None;
  cobs_decode_in_place buf :=
    match cobs_dec (length buf) buf with
    | Some r => (Some (length r), r ++ drop (length r) buf)
    | None => (None, buf)
    end;
|}.

Lemma cobs_enc_cons blk l : ∃ c e, cobs_enc blk l = c :: e.
Proof.
  revert blk. induction l as [|x l IH]; intros blk; cbn; [eauto|].
  destruct (x =? 0)%Z; [eauto|]. destruct (length blk =? 253); eauto.
Qed.

Lemma cobs_enc_length blk l :
  length blk ≤ 253 →
  length (cobs_enc blk l) ≤ length blk + length l + (length blk + length l) / 254 + 1.
Proof.
  revert blk. induction l as [|x l IH]; intros blk Hb; cbn [cobs_enc].
  - cbn [length]. rewrite Nat.add_0_r. lia.
  - destruct (x =? 0)%Z.
    + specialize (IH []). cbn [length] in *. rewrite length_app. cbn [Nat.add] in IH.
      assert (length l / 254 ≤ (length blk + S (length l)) / 254)
        by (apply Nat.Div0.div_le_mono; lia). lia.
    + destruct (length blk =? 253) eqn:E; breflect_in E.
      * specialize (IH []). cbn [length] in *. rewrite !length_app in *. cbn [length Nat.add] in *.
        replace (length blk + S (length l)) with (1 * 254 + length l) by lia.
        rewrite Nat.div_add_l by lia. lia.
      * specialize (IH (blk ++ [x])). rewrite length_app in IH. cbn [length] in *.
        replace (length blk + 1 + length l) with (length blk + S (length l)) in IH by lia. lia.
Qed.

Lemma cobs_enc_nonzero blk l :
  Forall (λ b, b ≠ 0%Z) blk → Forall (λ b, b ≠ 0%Z) (cobs_enc blk l).
Proof.
  revert blk. induction l as [|x l IH]; intros blk Hb; cbn [cobs_enc].
  - constructor; [lia|done].
  - destruct (x =? 0)%Z eqn:Ex; breflect_in Ex.
    + constructor; [lia|]. apply Forall_app; split; [done|]. by apply IH.
    + assert (Hbx : Forall (λ b, b ≠ 0%Z) (blk ++ [x])) by (apply Forall_app; auto).
      destruct (length blk =? 253); [|by apply IH].
      constructor; [lia|]. apply Forall_app; split; [done|]. by apply IH.
Qed.

Lemma cobs_enc_bytes blk l :
  length blk ≤ 253 → bytes_ok blk → bytes_ok l → bytes_ok (cobs_enc blk l).
Proof.
  revert blk. induction l as [|x l IH]; intros blk Hn Hb Hl; cbn [cobs_enc].
  - apply bytes_ok_cons; [|done]. unfold is_u. change (2 ^ 8)%Z with 256%Z. lia.
  - apply Forall_cons in Hl as [Hx Hl].
    assert (is_u8 (Z.of_nat (S (length blk)))) by (unfold is_u; change (2 ^ 8)%Z with 256%Z; lia).
    destruct (x =? 0)%Z; [apply bytes_ok_cons; auto with reiny; apply bytes_ok_app; auto;
                          apply IH; cbn; auto with reiny; lia|].
    destruct (length blk =? 253) eqn:E; breflect_in E.
    + apply bytes_ok_cons; auto with reiny. apply bytes_ok_app; auto with reiny.
      apply IH; cbn; auto with reiny; lia.
    + apply IH; auto with reiny. rewrite length_app. cbn. lia.
Qed.

Lemma cobs_dec_block fuel c data rest r :
  c = Z.of_nat (S (length data)) → rest ≠ [] → cobs_dec fuel rest = Some r →
  cobs_dec (S fuel) (c :: data ++ rest) =
  Some (data ++ (if (c =? 255)%Z then [] else [0%Z]) ++ r).
Proof.
  intros -> Hr Hd. cbn [cobs_dec].
  replace (Z.to_nat (Z.of_nat (S (length data)) - 1)) with (length data) by lia.
  rewrite (proj2 (Z.leb_gt _ _)), (proj2 (Nat.ltb_ge _ _)) by (rewrite ?length_app; lia).
  cbn [orb]. rewrite drop_app_length, take_app_length.
  destruct rest as [|b rest]; [done|]. by rewrite Hd.
Qed.

Lemma cobs_dec_last fuel c data :
  c = Z.of_nat (S (length data)) → cobs_dec (S fuel) (c :: data) = Some data.
Proof.
  intros ->. cbn [cobs_dec].
  replace (Z.to_nat (Z.of_nat (S (length data)) - 1)) with (length data) by lia.
  rewrite (proj2 (Z.leb_gt _ _)), (proj2 (Nat.ltb_ge _ _)) by lia. cbn [orb].
  by rewrite drop_all, firstn_all.
Qed.

Lemma cobs_dec_enc fuel blk l :
  length blk ≤ 253 → length (cobs_enc blk l) ≤ fuel →
  cobs_dec fuel (cobs_enc blk l) = Some (blk ++ l).
Proof.
  revert fuel blk. induction l as [|x l IH]; intros fuel blk Hb Hf; cbn [cobs_enc] in *.
  - destruct fuel; [cbn in Hf; lia|]. rewrite cobs_dec_last by done. by rewrite app_nil_r.
  - assert (Hne : cobs_enc [] l ≠ []) by (destruct (cobs_enc_cons [] l) as (?&?&->); done).
    destruct (x =? 0)%Z eqn:Ex; breflect_in Ex.
    + subst x. destruct fuel as [|fuel]; [cbn in Hf; lia|].
      cbn [length] in Hf. rewrite length_app in Hf.
      erewrite cobs_dec_block; [|done|done|apply IH; cbn; lia].
      rewrite (proj2 (Z.eqb_neq _ _)) by lia. done.
    + destruct (length blk =? 253) eqn:E; breflect_in E.
      * destruct fuel as [|fuel]; [cbn in Hf; lia|].
        cbn [length] in Hf. rewrite !length_app in Hf. cbn [length] in Hf.
        erewrite cobs_dec_block; [|rewrite length_app, E; done|done|apply IH; cbn; lia].
        cbn [Z.eqb Pos.eqb app]. by rewrite <- app_assoc.
      * rewrite IH; [by rewrite <- app_assoc| |done]. rewrite length_app. cbn. lia.
Qed.

Lemma cobs_dec_shrinks fuel l r :
  cobs_dec fuel l = Some r → bytes_ok l → length r ≤ length l ∧ bytes_ok r.
Proof.
  revert l r. induction fuel as [|fuel IH]; intros [|c l] r; cbn [cobs_dec];
    try (by intros [= <-]); try done.
  destruct (_ || _) eqn:E; [done|]. set (n := Z.to_nat (c - 1)) in *.
  apply orb_false_iff in E as [_ E]. breflect_in E.
  intros Hd [Hc Hl]%Forall_cons.
  destruct (drop n l) as [|b rest] eqn:Er.
  - injection Hd as <-. split; [rewrite length_take; cbn; lia|by apply bytes_ok_take].
  - destruct (cobs_dec fuel (b :: rest)) as [r'|] eqn:Hr; [|done]. injection Hd as <-.
    apply IH in Hr as [Hlen Hok]; [|rewrite <- Er; by apply bytes_ok_drop].
    assert (length (b :: rest) = length l - n) as Hbr by (rewrite <- Er; by rewrite length_drop).
    split.
    + rewrite !length_app, length_take. destruct (c =? 255)%Z; cbn [length]; lia.
    + destruct (c =? 255)%Z; auto 10 with reiny.
Qed.

#[export] Instance ref_cobs_laws : CobsLaws.
Proof.
  constructor.
  - intros raw out Hne Hr Ho Hl. cbn [cobs_max cobs_encode ref_cobs] in *.
    pose proof (cobs_enc_length [] raw) as Hlen. cbn [length Nat.add] in Hlen.
    assert (He : length (cobs_enc [] raw) ≤ length out) by lia.
    rewrite (proj2 (Nat.leb_le _ _) He). eexists _, _. split; [done|].
    assert (Hok : bytes_ok (cobs_enc [] raw)) by (apply cobs_enc_bytes; cbn; auto with reiny; lia).
    rewrite length_app, length_drop, take_app_length.
    split_and!; [lia|lia|auto with reiny|].
    destruct (cobs_enc_cons [] raw) as (c&e&Hce).
    split_and!; [by rewrite Hce|by apply cobs_enc_nonzero|done|cbn [cobs_max ref_cobs]; lia|].
    cbn [cobs_decode_in_place ref_cobs]. rewrite cobs_dec_enc by (cbn; lia). cbn [app].
    eexists. split; [done|]. by rewrite take_app_length.
  - intros buf n buf' Hb. cbn [cobs_decode_in_place ref_cobs].
    destruct (cobs_dec _ _) as [r|] eqn:E; intros [= <- <-]; [|done].
    apply cobs_dec_shrinks in E as [? ?]; [|done]. rewrite length_app, length_drop.
    split_and!; [lia|auto with reiny|done].
Qed.
