(* ===== verification/Wire.v ===== *)
(** * Wire: frames of the link ([crates/reiny-link/src/wire.rs])

    One frame is [COBS(header + payload + CRC)] followed by the delimiter.
    [seal] fills the header and the CRC around a payload already in the buffer,
    [parse] takes a raw frame apart, [encode] and [decode_in_place] go to and
    from the wire; [type_hash] and [endpoint_hash] are FNV-1a.  A function on
    [&mut [u8]] is a state transformer on the buffer.  The properties of the
    frame layer hold for every CRC and COBS that satisfy the laws of [Codec]. *)

From Stdlib Require Import ZArith Lia.
From S2P Require Import Prelude Text Codec.

(** ** Constants and data *)

Definition HEADER : nat := 9.
Definition EPOCH : Z := 2.
Definition TRAILER : nat := 2.
Definition OVERHEAD : nat := HEADER + TRAILER.
Definition DELIMITER : Z := 0.

(** The magic and the epoch every frame starts with: [b'R'], [b'Y'], [EPOCH] *)
Definition MAGIC : list Z := [82; 89; EPOCH]%Z.

Inductive Kind : Type := KHello | KData | KRequest | KReply | KError | KPing.

#[export] Instance Kind_eq_dec : EqDecision Kind.
Proof. solve_decision. Defined.

(** [kind as u8] *)
Definition kind_u8 (k : Kind) : Z :=
  match k with
  | KHello => 0 | KData => 1 | KRequest => 2 | KReply => 3 | KError => 4 | KPing => 5
  end%Z.

Definition kind_from_u8 (b : Z) : option Kind :=
  if (b =? 0)%Z then Some KHello else if (b =? 1)%Z then Some KData
  else if (b =? 2)%Z then Some KRequest else if (b =? 3)%Z then Some KReply
  else if (b =? 4)%Z then Some KError else if (b =? 5)%Z then Some KPing
  else None.

Record Header : Type := mkHeader { h_kind : Kind; h_hash : Z; h_seq : Z }.

#[export] Instance Header_eq_dec : EqDecision Header.
Proof. solve_decision. Defined.

Inductive WireError : Type :=
  | WTooLarge | WShort | WCrc | WCobs | WKind (k : Z) | WEpoch | WMalformed.

#[export] Instance WireError_eq_dec : EqDecision WireError.
Proof. solve_decision. Defined.

(** ** Hashes *)

Definition FNV_OFFSET : Z := 2166136261. (* 0x811c_9dc5 *)
Definition FNV_PRIME : Z := 16777619.    (* 0x0100_0193 *)

Definition fnv_step (h b : Z) : Z := wrapping_mul 32 (Z.lxor h b) FNV_PRIME.

Definition type_hash (name : str) : Z := foldl fnv_step FNV_OFFSET name.

(** [u32::try_from(component.len()).unwrap_or(u32::MAX)] *)
Definition len_u32 (s : str) : Z := Z.min (Z.of_nat (length s)) u32_max.

Definition endpoint_hash (namespace port : str) : Z :=
  foldl (λ hash component,
           foldl fnv_step hash (le_bytes 4 (len_u32 component) ++ component))
        FNV_OFFSET [namespace; port].

(** ** Frames *)

Section frames.
Context `{CrcOps} `{CobsOps}.

Definition encoded_max (raw_len : nat) : nat := cobs_max raw_len + 1.

Definition seal (header : Header) (payload_len : nat) :
  ST (list Z) (result nat WireError) := λ buf,
  let raw_len := OVERHEAD + payload_len in
  if length buf <? raw_len then Some (Err WTooLarge, buf) else
  buf ← copy_at 0 MAGIC buf;
  buf ← copy_at 3 [kind_u8 (h_kind header)] buf;
  buf ← copy_at 4 (le_bytes 4 (h_hash header)) buf;
  buf ← copy_at 8 [h_seq header] buf;
  let crc := crc_checksum (take (HEADER + payload_len) buf) in
  buf ← copy_at (HEADER + payload_len) (le_bytes 2 crc) buf;
  Some (Ok raw_len, buf).

(** The indices are below [OVERHEAD], so in range after the length check. *)
Definition parse (frame : list Z) : result (Header * list Z) WireError :=
  if length frame <? OVERHEAD then Err WShort else
  let body_len := length frame - TRAILER in
  let expected := from_le (take 2 (drop body_len frame)) in
  if negb (crc_checksum (take body_len frame) =? expected)%Z then Err WCrc else
  if negb (bool_decide (take 3 frame = MAGIC)) then Err WEpoch else
  let? kind := ok_or (kind_from_u8 (nth 3 frame 0%Z)) (WKind (nth 3 frame 0%Z)) in
  let hash := from_le (take 4 (drop 4 frame)) in
  Ok (mkHeader kind hash (nth 8 frame 0%Z),
      take (body_len - HEADER) (drop HEADER frame)).

Definition encode (raw : list Z) : ST (list Z) (result nat WireError) := λ out,
  if length out <? cobs_max (length raw) + 1 then Some (Err WTooLarge, out) else
  '(n, out) ← cobs_encode raw out;
  out ← copy_at n [DELIMITER] out;
  Some (Ok (n + 1), out).

Definition decode_in_place : ST (list Z) (result nat WireError) := λ buf,
  let '(n, buf) := cobs_decode_in_place buf in
  Some (ok_or n WCobs, buf).
End frames.

(** ** Specification of a raw frame *)

Definition header_ok (h : Header) : Prop := is_u32 (h_hash h) ∧ is_u8 (h_seq h).

(** [RY][epoch][kind][hash][seq][payload] *)
Definition frame_body (h : Header) (payload : list Z) : list Z :=
  MAGIC ++ [kind_u8 (h_kind h)] ++ le_bytes 4 (h_hash h) ++ [h_seq h] ++ payload.

Definition raw_frame `{CrcOps} (h : Header) (payload : list Z) : list Z :=
  frame_body h payload ++ le_bytes 2 (crc_checksum (frame_body h payload)).

Lemma kind_roundtrip k : kind_from_u8 (kind_u8 k) = Some k.
Proof. by destruct k. Qed.

Lemma kind_from_u8_Some b k : kind_from_u8 b = Some k → b = kind_u8 k.
Proof.
  unfold kind_from_u8.
  repeat (destruct (_ =? _)%Z eqn:E; breflect_in E; [intros [= <-]; done|clear E]). done.
Qed.

Lemma kind_u8_range k : is_u8 (kind_u8 k).
Proof. destruct k; by split. Qed.

Lemma length_frame_body h p : length (frame_body h p) = HEADER + length p.
Proof. reflexivity. Qed.

Lemma length_raw_frame `{CrcOps} h p : length (raw_frame h p) = OVERHEAD + length p.
Proof. unfold raw_frame. rewrite length_app, length_frame_body, length_le_bytes. unfold OVERHEAD, HEADER, TRAILER. lia. Qed.

Lemma frame_body_ok h p : header_ok h → bytes_ok p → bytes_ok (frame_body h p).
Proof.
  intros [? Hs] Hp. unfold frame_body, MAGIC, EPOCH. auto 20 using kind_u8_range with reiny.
Qed.

Lemma raw_frame_ok `{CrcOps} h p : header_ok h → bytes_ok p → bytes_ok (raw_frame h p).
Proof.
  intros. apply bytes_ok_app; auto using frame_body_ok with reiny.
Qed.

#[export] Hint Rewrite length_frame_body @length_raw_frame : reiny_len.
#[export] Hint Resolve frame_body_ok raw_frame_ok kind_u8_range : reiny.

Section frame_proofs.
Context `{CrcOps} `{!CrcLaws} `{CobsOps} `{!CobsLaws}.

(** [seal] writes the raw frame around the payload and leaves the rest alone. *)
Lemma seal_spec h n buf :
  OVERHEAD + n ≤ length buf →
  seal h n buf =
  Some (Ok (OVERHEAD + n), raw_frame h (take n (drop HEADER buf)) ++ drop (OVERHEAD + n) buf).
Proof.
  unfold OVERHEAD, HEADER, TRAILER. intros Hl.
  do 9 (destruct buf as [|? buf]; [cbn in Hl; lia|]). cbn [length] in Hl.
  unfold seal. rewrite (proj2 (Nat.ltb_ge _ _)) by (unfold OVERHEAD, HEADER, TRAILER; cbn; lia).
  destruct (split_at n buf) as (p&rest&->&Hp); [lia|]. rewrite length_app in Hl.
  destruct (split_at 2 rest) as (old&post&->&Ho); [lia|].
  cbn [skipn Nat.add]. rewrite drop_0, take_app_length' by done.
  rewrite (app_assoc p old post).
  rewrite drop_app_length' by (rewrite length_app; lia). rewrite <- app_assoc.
  rewrite (copy_at_app [] [z; z0; z1] (z2 :: z3 :: z4 :: z5 :: z6 :: z7 :: p ++ old ++ post)) by done.
  cbn [mbind option_bind app MAGIC].
  rewrite (copy_at_app [82%Z; 89%Z; EPOCH] [z2] (z3 :: z4 :: z5 :: z6 :: z7 :: p ++ old ++ post)) by done.
  cbn [mbind option_bind app].
  rewrite (copy_at_app [82%Z; 89%Z; EPOCH; kind_u8 (h_kind h)] [z3; z4; z5; z6] (z7 :: p ++ old ++ post)) by done.
  cbn [mbind option_bind].
  set (hb := le_bytes 4 (h_hash h)).
  rewrite app_assoc.
  rewrite (copy_at_app ([82%Z; 89%Z; EPOCH; kind_u8 (h_kind h)] ++ hb) [z7] (p ++ old ++ post)) by done.
  cbn [mbind option_bind].
  assert (Hb : (([82%Z; 89%Z; EPOCH; kind_u8 (h_kind h)] ++ hb) ++ [h_seq h] ++ p ++ old ++ post)
               = frame_body h p ++ old ++ post).
  { unfold frame_body, MAGIC. fold hb. by rewrite <- !app_assoc. }
  rewrite Hb, take_app_length' by (by rewrite length_frame_body, Hp).
  rewrite copy_at_app;
    [|by rewrite length_frame_body, Hp|by rewrite length_le_bytes].
  cbn [mbind option_bind]. unfold raw_frame. by rewrite <- app_assoc.
Qed.

Lemma seal_too_large h n buf :
  length buf < OVERHEAD + n → seal h n buf = Some (Err WTooLarge, buf).
Proof. intros Hl. unfold seal. by rewrite (proj2 (Nat.ltb_lt _ _) Hl). Qed.

Lemma parse_raw_frame h p : header_ok h → parse (raw_frame h p) = Ok (h, p).
Proof.
  intros [Hh Hs]. unfold parse. rewrite length_raw_frame.
  rewrite (proj2 (Nat.ltb_ge _ _)) by (unfold OVERHEAD, HEADER, TRAILER; lia).
  replace (OVERHEAD + length p - TRAILER) with (length (frame_body h p))
    by (rewrite length_frame_body; unfold OVERHEAD, HEADER, TRAILER; lia).
  unfold raw_frame at 1 2. rewrite drop_app_length, take_app_length.
  rewrite firstn_all2 by (by rewrite length_le_bytes).
  rewrite from_le_bytes by apply crc_range. rewrite Z.eqb_refl. cbn [negb].
  rewrite bool_decide_eq_true_2 by done. cbn [negb].
  change (nth 3 (raw_frame h p) 0%Z) with (kind_u8 (h_kind h)).
  rewrite kind_roundtrip. cbn [ok_or].
  change (nth 8 (raw_frame h p) 0%Z) with (h_seq h).
  change (take 4 (drop 4 (raw_frame h p))) with (le_bytes 4 (h_hash h)).
  rewrite from_le_bytes by done.
  rewrite length_frame_body, Nat.add_comm, Nat.add_sub.
  change (drop HEADER (raw_frame h p))
    with (p ++ le_bytes 2 (crc_checksum (frame_body h p))).
  rewrite take_app_length. by destruct h.
Qed.

Lemma parse_Ok_inv frame h p :
  bytes_ok frame → parse frame = Ok (h, p) → frame = raw_frame h p ∧ header_ok h ∧ bytes_ok p.
Proof.
  unfold parse. intros Hb Hp.
  destruct (_ <? _) eqn:El; breflect_in El; [done|].
  destruct (negb _) eqn:Ec; breflect_in Ec; [done|].
  destruct (negb (bool_decide _)) eqn:Em; breflect_in Em; [done|].
  destruct (kind_from_u8 _) as [k|] eqn:Ek; cbn [ok_or] in Hp; [|done].
  apply kind_from_u8_Some in Ek. injection Hp as <- <-.
  unfold OVERHEAD, HEADER, TRAILER in *.
  do 9 (destruct frame as [|? frame]; [cbn in El; lia|]).
  cbn [length] in El. cbn [nth] in *. cbn [firstn] in Em. injection Em as -> -> ->.
  set (n := length frame - 2).
  assert (Hn : length (82%Z :: 89%Z :: EPOCH :: z2 :: z3 :: z4 :: z5 :: z6 :: z7 :: frame) - 2 = 9 + n)
    by (unfold n; cbn [length]; lia).
  rewrite Hn in Ec. rewrite Hn. cbn [Nat.add] in *. cbn [firstn skipn] in *.
  assert (Hn2 : S (S (S (S (S (S (S (S (S n)))))))) - 9 = n) by lia. rewrite Hn2.
  assert (Ht : take 2 (drop n frame) = drop n frame)
    by (apply firstn_all2; rewrite length_drop; unfold n; lia).
  rewrite Ht in Ec.
  repeat (apply Forall_cons in Hb as [? Hb]).
  assert (Hbt : bytes_ok (drop n frame)) by by apply Forall_drop.
  assert (Hhash : le_bytes 4 (from_le [z3; z4; z5; z6]) = [z3; z4; z5; z6]).
  { apply (le_bytes_from [z3; z4; z5; z6]). auto 10 with reiny. }
  assert (Hbody : frame_body (mkHeader k (from_le [z3; z4; z5; z6]) z7) (take n frame)
          = 82%Z :: 89%Z :: EPOCH :: z2 :: z3 :: z4 :: z5 :: z6 :: z7 :: take n frame).
  { unfold frame_body, MAGIC. cbn [h_kind h_hash h_seq]. rewrite Hhash, Ek. done. }
  rewrite drop_0. split_and!.
  - unfold raw_frame. rewrite Hbody, Ec.
    replace 2 with (length (drop n frame)) by (rewrite length_drop; unfold n; lia).
    rewrite le_bytes_from by done. cbn [app]. by rewrite take_drop.
  - split; [|done]. cbn [h_hash].
    apply (from_le_range [z3; z4; z5; z6]). auto 10 with reiny.
  - by apply Forall_take.
Qed.

(** [encode] appends the delimiter to one COBS block of the raw frame. *)
Lemma encode_spec raw out :
  raw ≠ [] → bytes_ok raw → bytes_ok out → encoded_max (length raw) ≤ length out →
  ∃ n out', encode raw out = Some (Ok (n + 1), out') ∧ length out' = length out ∧
            n + 1 ≤ length out ∧ bytes_ok out' ∧
            ∃ enc, take (n + 1) out' = enc ++ [DELIMITER] ∧ length enc = n ∧ cobs_block raw enc.
Proof.
  unfold encoded_max. intros Hne Hr Ho Hl. unfold encode.
  rewrite (proj2 (Nat.ltb_ge _ _)) by lia.
  destruct (cobs_encode_ok raw out) as (n&out'&->&Hlen&Hn&Hob&Hblk); [done..|lia|].
  cbn [mbind option_bind].
  assert (Hnb : length (take n out') = n) by (rewrite length_take; lia).
  assert (n ≤ cobs_max (length raw)) by (destruct Hblk as (_&_&_&Hm&_); lia).
  destruct (copy_at n [DELIMITER] out') as [out2|] eqn:Ecp;
    [|rewrite copy_at_eq in Ecp by (cbn; lia); done].
  cbn [mbind option_bind]. pose proof (copy_at_length _ _ _ _ Ecp) as Hl2.
  pose proof (copy_at_take _ _ _ _ Ecp) as Ht. cbn [length] in Ht.
  exists n, out2. split_and!; [done|lia|lia| |].
  - apply copy_at_Some in Ecp as [_ ->]. unfold bytes_ok in *. rewrite !Forall_app.
    repeat split; [by apply Forall_take|by repeat constructor|by apply Forall_drop].
  - exists (take n out'). by rewrite Ht.
Qed.

Lemma encode_too_large raw out :
  length out < encoded_max (length raw) → encode raw out = Some (Err WTooLarge, out).
Proof. unfold encoded_max, encode. intros Hl. by rewrite (proj2 (Nat.ltb_lt _ _) Hl). Qed.
End frame_proofs.

Section properties.
Context `{CrcOps} `{!CrcLaws} `{CobsOps} `{!CobsLaws}.

(** [wire::parse] accepts exactly the sealed frames: a frame parses to a
    header and payload iff it is the raw frame of that header and payload
    (magic, epoch, kind, little-endian hash, sequence number, payload, and a
    checksum over all of them), so two frames never parse alike and no byte of
    an accepted frame is unaccounted for. *)
Theorem parse_exact frame h p :
  bytes_ok frame →
  parse frame = Ok (h, p) ↔ header_ok h ∧ frame = raw_frame h p.
Proof.
  intros Hb. split.
  - intros Hp. by apply parse_Ok_inv in Hp as (?&?&_).
  - intros [Hh ->]. by apply parse_raw_frame.
Qed.

(** A frame sealed in a buffer, COBS-encoded, cut at its delimiter, decoded
    in place and parsed gives back the header and the payload; the encoded
    bytes hold the delimiter at their end and nowhere else, so the receiver
    finds the frame's end. *)
Theorem frame_roundtrip h n buf out :
  header_ok h → bytes_ok buf → bytes_ok out →
  OVERHEAD + n ≤ length buf → encoded_max (OVERHEAD + n) ≤ length out →
  ∃ buf' m out' enc dec,
    seal h n buf = Some (Ok (OVERHEAD + n), buf') ∧
    encode (take (OVERHEAD + n) buf') out = Some (Ok m, out') ∧
    take m out' = enc ++ [DELIMITER] ∧ DELIMITER ∉ enc ∧
    decode_in_place enc = Some (Ok (OVERHEAD + n), dec) ∧
    parse (take (OVERHEAD + n) dec) = Ok (h, take n (drop HEADER buf)).
Proof.
  intros Hh Hb Ho Hl Hm. set (p := take n (drop HEADER buf)).
  assert (Hp : length p = n)
    by (unfold p; rewrite length_take, length_drop; unfold OVERHEAD in Hl; lia).
  assert (Hraw : length (raw_frame h p) = OVERHEAD + n) by (rewrite length_raw_frame; lia).
  destruct (encode_spec (raw_frame h p) out) as (k&out'&He&_&_&_&enc&Ht&Hk&Hblk).
  - intros E. apply (f_equal length) in E. rewrite Hraw in E. unfold OVERHEAD, HEADER in E.
    cbn in E. lia.
  - apply raw_frame_ok; [done|]. unfold p. auto with reiny.
  - done.
  - by rewrite Hraw.
  - destruct Hblk as (_&Hnz&_&_&dec&Hdec&Htk). rewrite Hraw in Hdec, Htk.
    exists (raw_frame h p ++ drop (OVERHEAD + n) buf), (k + 1), out', enc, dec.
    split_and!; try done.
    + by rewrite seal_spec.
    + rewrite take_app_length' by done. done.
    + intros Hin. rewrite Forall_forall in Hnz. by apply Hnz in Hin.
    + unfold decode_in_place. by rewrite Hdec.
    + rewrite Htk. by apply parse_raw_frame.
Qed.
End properties.

(** A ping header and a three-byte payload in a 14-byte buffer *)
Definition demo_header : Header := mkHeader KPing 0x01020304 7.
Definition demo_buf : list Z := repeat 0%Z 9 ++ [5; 0; 6; 0; 0]%Z.

Lemma parse_exact_witness :
  parse (raw_frame demo_header [5; 0; 6]%Z) = Ok (demo_header, [5; 0; 6]%Z).
Proof.
  apply parse_exact.
  - apply raw_frame_ok; [split; by split|]. repeat (apply bytes_ok_cons; [by split|]). apply bytes_ok_nil.
  - split; [split; by split|reflexivity].
Defined.

Lemma frame_roundtrip_witness :
  ∃ buf' m out' enc dec,
    seal demo_header 3 demo_buf = Some (Ok 14, buf') ∧
    encode (take 14 buf') (repeat 0%Z 20) = Some (Ok m, out') ∧
    take m out' = enc ++ [DELIMITER] ∧ DELIMITER ∉ enc ∧
    decode_in_place enc = Some (Ok 14, dec) ∧
    parse (take 14 dec) = Ok (demo_header, [5; 0; 6]%Z).
Proof.
  apply (frame_roundtrip demo_header 3 demo_buf (repeat 0%Z 20)).
  - split; by split.
  - repeat (apply bytes_ok_cons; [by split|]). apply bytes_ok_nil.
  - repeat (apply bytes_ok_cons; [by split|]). apply bytes_ok_nil.
  - vm_compute. lia.
  - vm_compute. lia.
Defined.
