(* ===== verification/Core.v ===== *)
(** * Core: the type vocabulary shared by the crates ([crates/reiny-core/src/lib.rs])

    Directions, port types and the static port table that [reiny-build]
    generates.  A message type ([MessageType]) and a service ([Service]) are the
    constants the code reads off them. *)

From S2P Require Import Prelude.

Definition SCHEMA_FINGERPRINT_VERSION : Z := 2.

Inductive PortDirection : Type := DInput | DOutput | DRpcServer | DRpcClient.

#[export] Instance PortDirection_eq_dec : EqDecision PortDirection.
Proof. solve_decision. Defined.

Record PortType : Type := mkPortType { pt_ty : str; pt_schema : Z }.

#[export] Instance PortType_eq_dec : EqDecision PortType.
Proof. solve_decision. Defined.

Record StaticEndpointAddress : Type := mkAddress { sa_namespace : str; sa_port : str }.

#[export] Instance StaticEndpointAddress_eq_dec : EqDecision StaticEndpointAddress.
Proof. solve_decision. Defined.

Record StaticPort : Type := mkStaticPort {
  sp_name : str;
  sp_direction : PortDirection;
  sp_ty : str;
  sp_schema : Z;
  sp_response : option PortType;
  sp_sources : list StaticEndpointAddress;
}.

#[export] Instance StaticPort_eq_dec : EqDecision StaticPort.
Proof. solve_decision. Defined.

(** The constants of [MessageType] that the sources read. *)
Record MessageType : Type := mkMessageType {
  TYPE_NAME : str;
  SCHEMA_FINGERPRINT : Z;
}.

(** [Service]: the request type and its [Response]. *)
Record Service : Type := mkService {
  svc_request : MessageType;
  svc_response : MessageType;
}.
