(* ===== verification/Hello.v ===== *)
(** * Hello: the link-up message ([crates/reiny-link/src/wire.rs], from [Hello] on)

    [hello_write] serializes the complete port table through a [Writer];
    [hello_parse] reads it back through a [Reader] and validates it as a whole.
    A [Reader] computation is [None] where the source returns [Option::None]. *)

From Stdlib Require Import ZArith Lia.
From S2P Require Import Prelude Text Codec Core Wire.

Definition HELLO_ACK : Z := 1.
Definition HELLO_BRIDGE : Z := 2.

(** Per-type flags of a Hello entry. *)
Module flags.
Definition PUB : Z := 1.
Definition SUB : Z := 2.
Definition SERVE : Z := 4.
Definition LATCHED : Z := 8.
Definition SCHEMA_FINGERPRINT : Z := 16.
Definition CALLS : Z := 32.
End flags.

(** [flags & mask != 0] *)
Definition has (fl mask : Z) : bool := negb (Z.land fl mask =? 0)%Z.

(** ** Data *)

Record EndpointRef : Type := mkEndpointRef { ep_namespace : str; ep_port : str }.

#[export] Instance EndpointRef_eq_dec : EqDecision EndpointRef.
Proof. solve_decision. Defined.

Inductive Sources : Type :=
  | SStatic (sources : list StaticEndpointAddress)
  | SWire (bytes : list Z).

Record HelloType : Type := mkHelloType { ht_name : str; ht_schema : Z }.

#[export] Instance HelloType_eq_dec : EqDecision HelloType.
Proof. solve_decision. Defined.

Record HelloEntry : Type := mkHelloEntry {
  he_hash : Z;
  he_flags : Z;
  he_schema : Z;
  he_name : str;
  he_port : str;
  he_response : option HelloType;
  he_sources : Sources;
}.

(** ** The reader *)

Record Reader : Type := mkReader { r_buf : list Z; r_pos : nat }.

Definition r_bytes (n : nat) : ST Reader (list Z) := λ r,
  let e := r_pos r + n in
  if e <=? length (r_buf r)
  then Some (take n (drop (r_pos r) (r_buf r)), mkReader (r_buf r) e) else None.

Definition r_u8 : ST Reader Z := let* b := r_bytes 1 in ret (nth 0 b 0%Z).
Definition r_u32 : ST Reader Z := let* b := r_bytes 4 in ret (from_le b).
Definition r_u64 : ST Reader Z := let* b := r_bytes 8 in ret (from_le b).

Definition r_str : ST Reader str :=
  let* len := r_u8 in
  let* b := r_bytes (Z.to_nat len) in
  lift (if utf8_valid b then Some b else None).

Definition r_endpoint : ST Reader EndpointRef :=
  let* namespace := r_str in
  let* port := r_str in
  ret (mkEndpointRef namespace port).

(** [Sources::iter] on wire bytes: pairs until the reader fails.  A pair takes at
    least two bytes, so the number of bytes is fuel enough. *)
Fixpoint wire_sources (fuel : nat) (r : Reader) : list EndpointRef :=
  match fuel with
  | 0 => []
  | S fuel' =>
      match r_endpoint r with
      | Some (e, r') => e :: wire_sources fuel' r'
      | None => []
      end
  end.

Definition sources_iter (s : Sources) : list EndpointRef :=
  match s with
  | SStatic l => (λ a, mkEndpointRef (sa_namespace a) (sa_port a)) <$> l
  | SWire b => wire_sources (length b) (mkReader b 0)
  end.

(** [for _ in 0..count { self.str()?; self.str()?; }] *)
Fixpoint r_skip (n : nat) : ST Reader unit :=
  match n with
  | 0 => ret tt
  | S n' => r_str ;;; r_str ;;; r_skip n'
  end.

Definition r_response : ST Reader (option HelloType) :=
  let* tag := r_u8 in
  if (tag =? 0)%Z then ret None
  else if (tag =? 1)%Z then
    let* name := r_str in
    let* schema := r_u64 in
    ret (Some (mkHelloType name schema))
  else lift None.

Definition r_entry : ST Reader HelloEntry :=
  let* hash := r_u32 in
  let* encoded_flags := r_u8 in
  if (Z.land encoded_flags flags.SCHEMA_FINGERPRINT =? 0)%Z then lift None else
  let fl := Z.land encoded_flags (not8 flags.SCHEMA_FINGERPRINT) in
  let* port := r_str in
  let* name := r_str in
  let* schema := r_u64 in
  let* response := r_response in
  let* count := r_u8 in
  let* start := gets r_pos in
  r_skip (Z.to_nat count) ;;;
  let* r := gets id in
  ret (mkHelloEntry hash fl schema name port response
         (SWire (take (r_pos r - start) (drop start (r_buf r))))).

(** ** The writer *)

Record Writer : Type := mkWriter { w_out : list Z; w_pos : nat }.

Definition w_bytes (b : list Z) : ST Writer (result unit WireError) := λ w,
  let e := w_pos w + length b in
  if length (w_out w) <? e then Some (Err WTooLarge, w) else
  out ← copy_at (w_pos w) b (w_out w);
  Some (Ok tt, mkWriter out e).

Definition w_u8 (v : Z) : ST Writer (result unit WireError) := w_bytes [v].
Definition w_u32 (v : Z) : ST Writer (result unit WireError) := w_bytes (le_bytes 4 v).
Definition w_u64 (v : Z) : ST Writer (result unit WireError) := w_bytes (le_bytes 8 v).

(** [u8::try_from(n)] *)
Definition u8_try_from (n : nat) : option Z :=
  if n <=? 255 then Some (Z.of_nat n) else None.

Definition w_str (s : str) : ST Writer (result unit WireError) :=
  try* len := ret (ok_or (u8_try_from (length s)) WTooLarge) in
  try* _ := w_u8 len in
  w_bytes s.

Fixpoint w_sources (l : list EndpointRef) : ST Writer (result unit WireError) :=
  match l with
  | [] => ret (Ok tt)
  | s :: l' =>
      try* _ := w_str (ep_namespace s) in
      try* _ := w_str (ep_port s) in
      w_sources l'
  end.

Definition w_response (r : option HelloType) : ST Writer (result unit WireError) :=
  match r with
  | Some response =>
      try* _ := w_str (ht_name response) in
      w_u64 (ht_schema response)
  | None => ret (Ok tt)
  end.

(** One turn of the loop over the entries. *)
Definition w_entry (e : HelloEntry) : ST Writer (result unit WireError) :=
  try* _ := w_u32 (he_hash e) in
  try* _ := w_u8 (Z.lor (he_flags e) flags.SCHEMA_FINGERPRINT) in
  try* _ := w_str (he_port e) in
  try* _ := w_str (he_name e) in
  try* _ := w_u64 (he_schema e) in
  try* _ := w_u8 (match he_response e with Some _ => 1 | None => 0 end)%Z in
  try* _ := w_response (he_response e) in
  try* sources := ret (ok_or (u8_try_from (length (sources_iter (he_sources e)))) WTooLarge) in
  try* _ := w_u8 sources in
  w_sources (sources_iter (he_sources e)).

Fixpoint w_entries (entries : list HelloEntry) (count : Z) : ST Writer (result Z WireError) :=
  match entries with
  | [] => ret (Ok count)
  | e :: rest =>
      try* _ := w_entry e in
      try* count := ret (ok_or (checked_add 8 count 1) WTooLarge) in
      w_entries rest count
  end.

(** [out[i] = v] *)
Definition w_set (i : nat) (v : Z) : ST Writer unit := λ w,
  out ← copy_at i [v] (w_out w); Some (tt, mkWriter out (w_pos w)).

Definition hello_flags (ack bridge : bool) : Z :=
  Z.lor (if ack then HELLO_ACK else 0) (if bridge then HELLO_BRIDGE else 0).

Definition hello_write_to (ack bridge : bool) (id : str) (entries : list HelloEntry) :
  ST Writer (result nat WireError) :=
  try* _ := w_u8 (hello_flags ack bridge) in
  try* _ := w_bytes (le_bytes 2 SCHEMA_FINGERPRINT_VERSION) in
  try* _ := w_str id in
  let* count_at := gets w_pos in
  try* _ := w_u8 0 in
  try* count := w_entries entries 0 in
  w_set count_at count ;;;
  let* pos := gets w_pos in
  ret (Ok pos).

Definition hello_write (ack bridge : bool) (id : str) (entries : list HelloEntry) :
  ST (list Z) (result nat WireError) := λ out,
  '(r, w) ← hello_write_to ack bridge id entries (mkWriter out 0);
  Some (r, w_out w).

(** ** Names *)

Definition dot : str := bytes_of ".".
Definition dotdot : str := bytes_of "..".

Definition valid_port (port : str) : bool :=
  negb (bool_decide (port = []))
  && forallb (λ b, is_ascii_alphanumeric b || bool_decide (b ∈ bytes_of "_.-")) port
  && negb (bool_decide (port = dot))
  && negb (bool_decide (port = dotdot)).

Definition valid_namespace (namespace : str) : bool :=
  negb (bool_decide (namespace = [])) && forallb valid_port (split_on 47 namespace).

Definition valid_type (name : str) : bool :=
  negb (bool_decide (name = []))
  && forallb (λ part,
       negb (bool_decide (part = []))
       && forallb (λ b, is_ascii_alphanumeric b || (b =? 95)%Z) part
       && negb (is_ascii_digit (nth 0 part 0%Z))) (split_on 46 name).

(** ** Parsing *)

Record Hello : Type := mkHello {
  hl_ack : bool;
  hl_bridge : bool;
  hl_id : str;
  hl_count : nat;
  hl_entries : list Z;
}.

(** The iterator [HelloEntries]: at most [n] entries, up to the first failure. *)
Fixpoint entries_from (n : nat) (r : Reader) : list HelloEntry :=
  match n with
  | 0 => []
  | S n' =>
      match r_entry r with
      | Some (e, r') => e :: entries_from n' r'
      | None => []
      end
  end.

(** [Hello::entries] *)
Definition hello_entries (h : Hello) : list HelloEntry :=
  entries_from (hl_count h) (mkReader (hl_entries h) 0).

Definition is_direction (d : Z) : bool :=
  bool_decide (d ∈ [flags.PUB; flags.SUB; flags.SERVE; flags.CALLS]).
Definition is_rpc (d : Z) : bool := bool_decide (d ∈ [flags.SERVE; flags.CALLS]).
Definition is_source_side (d : Z) : bool := bool_decide (d ∈ [flags.PUB; flags.SERVE]).

Definition direction_of (fl : Z) : Z := Z.land fl (not8 flags.LATCHED).

(** The per-entry conditions: direction, latching, names, hash, response shape *)
Definition entry_shape (id : str) (e : HelloEntry) : bool :=
  let direction := direction_of (he_flags e) in
  is_direction direction
  && negb (has (he_flags e) flags.LATCHED && negb (direction =? flags.PUB)%Z)
  && valid_port (he_port e)
  && valid_type (he_name e)
  && (he_hash e =? endpoint_hash id (he_port e))%Z
  && eqb (is_rpc direction) (bool_decide (is_Some (he_response e)))
  && match he_response e with Some r => valid_type (ht_name r) | None => true end.

(** How many sources a direction takes. *)
Definition source_count_ok (direction : Z) (n : nat) : bool :=
  negb ((is_source_side direction && negb (n =? 0))
        || ((direction =? flags.SUB)%Z && (n =? 0))
        || ((direction =? flags.CALLS)%Z && negb (n =? 1))).

(** Each source is valid and differs from the ones before it. *)
Fixpoint sources_ok (all : list EndpointRef) (i : nat) (rest : list EndpointRef) : bool :=
  match rest with
  | [] => true
  | s :: rest' =>
      valid_namespace (ep_namespace s) && valid_port (ep_port s)
      && negb (existsb (λ previous, bool_decide (previous = s)) (take i all))
      && sources_ok all (S i) rest'
  end.

(** [e] against an entry before it in the table *)
Definition pair_ok (previous e : HelloEntry) : bool :=
  let shared_source :=
    existsb (λ source, existsb (λ other, bool_decide (other = source))
                               (sources_iter (he_sources e)))
            (sources_iter (he_sources previous)) in
  negb (shared_source
        && (negb (bool_decide (he_name previous = he_name e))
            || negb (he_schema previous =? he_schema e)%Z
            || negb (bool_decide (he_response previous = he_response e))
            || negb (eqb (has (he_flags previous) flags.CALLS) (has (he_flags e) flags.CALLS))))
  && (let same_slot := eqb (has (he_flags previous) (Z.lor flags.PUB flags.SERVE))
                           (has (he_flags e) (Z.lor flags.PUB flags.SERVE)) in
      negb ((bool_decide (he_port previous = he_port e) && same_slot)
            || ((he_hash previous =? he_hash e)%Z
                && negb (bool_decide (he_port previous = he_port e))))).

(** One turn of the validation loop. *)
Definition check_entry (hello : Hello) (index : nat) (e : HelloEntry) : bool :=
  entry_shape (hl_id hello) e
  && source_count_ok (direction_of (he_flags e)) (length (sources_iter (he_sources e)))
  && sources_ok (sources_iter (he_sources e)) 0 (sources_iter (he_sources e))
  && forallb (λ previous, pair_ok previous e) (take index (hello_entries hello)).

Fixpoint check_entries (hello : Hello) (index n : nat) (r : Reader) : result Reader WireError :=
  match n with
  | 0 => Ok r
  | S n' =>
      let? (e, r) := ok_or (r_entry r) WMalformed in
      if check_entry hello index e then check_entries hello (S index) n' r
      else Err WMalformed
  end.

(** Every address of the table, sources included, in order. *)
Definition hello_addresses (hello : Hello) : list EndpointRef :=
  flat_map (λ e, mkEndpointRef (hl_id hello) (he_port e) :: sources_iter (he_sources e))
           (hello_entries hello).

Definition ep_hash (a : EndpointRef) : Z := endpoint_hash (ep_namespace a) (ep_port a).

Fixpoint address_hashes_ok (all : list EndpointRef) (index : nat) (rest : list EndpointRef) : bool :=
  match rest with
  | [] => true
  | address :: rest' =>
      negb (existsb (λ previous, negb (bool_decide (previous = address))
                                 && (ep_hash previous =? ep_hash address)%Z)
                    (take index all))
      && address_hashes_ok all (S index) rest'
  end.

Definition validate_address_hashes (hello : Hello) : result unit WireError :=
  if address_hashes_ok (hello_addresses hello) 0 (hello_addresses hello)
  then Ok tt else Err WMalformed.

Definition hello_parse (payload : list Z) : result Hello WireError :=
  let? (fl, r) := ok_or (r_u8 (mkReader payload 0)) WMalformed in
  if negb (Z.land fl (not8 (Z.lor HELLO_ACK HELLO_BRIDGE)) =? 0)%Z then Err WMalformed else
  let? (version, r) := ok_or (r_bytes 2 r) WMalformed in
  if negb (bool_decide (version = le_bytes 2 SCHEMA_FINGERPRINT_VERSION)) then Err WMalformed else
  let? (id, r) := ok_or (r_str r) WMalformed in
  if negb (valid_namespace id) then Err WMalformed else
  let? (count, r) := ok_or (r_u8 r) WMalformed in
  let hello := mkHello (has fl HELLO_ACK) (has fl HELLO_BRIDGE) id (Z.to_nat count)
                       (drop (r_pos r) payload) in
  if hl_bridge hello && negb (count =? 0)%Z then Err WMalformed else
  let? r := check_entries hello 0 (Z.to_nat count) r in
  if negb (r_pos r =? length payload) then Err WMalformed else
  let? _ := validate_address_hashes hello in
  Ok hello.
