(* ===== verification/HelloSpec.v ===== *)
(** * HelloSpec: the Hello table as a specification

    What a Hello says, apart from how it is read: a table of entries
    ([TEntry]), its bytes ([hello_bytes]), and when a table is acceptable
    ([table_ok]).  The reader is shown to be exactly the inverse of the
    serialization, and the validator to decide [table_ok]. *)

From Stdlib Require Import ZArith Lia.
From S2P Require Import Prelude Text Codec Core Wire Hello.

(** ** Tables and their bytes *)

Record TEntry : Type := mkTEntry {
  t_hash : Z;
  t_flags : Z;
  t_schema : Z;
  t_name : str;
  t_port : str;
  t_response : option HelloType;
  t_sources : list EndpointRef;
}.

Definition str_bytes (s : str) : list Z := Z.of_nat (length s) :: s.
Definition endpoint_bytes (a : EndpointRef) : list Z :=
  str_bytes (ep_namespace a) ++ str_bytes (ep_port a).
Definition response_bytes (r : option HelloType) : list Z :=
  match r with
  | None => [0%Z]
  | Some t => 1%Z :: str_bytes (ht_name t) ++ le_bytes 8 (ht_schema t)
  end.
Definition sources_bytes (l : list EndpointRef) : list Z := flat_map endpoint_bytes l.

Definition entry_bytes (t : TEntry) : list Z :=
  le_bytes 4 (t_hash t) ++ [Z.lor (t_flags t) flags.SCHEMA_FINGERPRINT]
  ++ str_bytes (t_port t) ++ str_bytes (t_name t) ++ le_bytes 8 (t_schema t)
  ++ response_bytes (t_response t)
  ++ [Z.of_nat (length (t_sources t))] ++ sources_bytes (t_sources t).

Definition hello_bytes (ack bridge : bool) (id : str) (ts : list TEntry) : list Z :=
  [hello_flags ack bridge] ++ le_bytes 2 SCHEMA_FINGERPRINT_VERSION
  ++ str_bytes id ++ [Z.of_nat (length ts)] ++ flat_map entry_bytes ts.

(** The entry the reader returns for [t]: its sources still are wire bytes. *)
Definition entry_of (t : TEntry) : HelloEntry :=
  mkHelloEntry (t_hash t) (t_flags t) (t_schema t) (t_name t) (t_port t) (t_response t)
               (SWire (sources_bytes (t_sources t))).

(** The table row an entry stands for: its sources listed. *)
Definition t_of (e : HelloEntry) : TEntry :=
  mkTEntry (he_hash e) (he_flags e) (he_schema e) (he_name e) (he_port e) (he_response e)
           (sources_iter (he_sources e)).

(** ** Ranges: what the fields can hold on the wire *)

Definition str_wire (s : str) : Prop := str_ok s ∧ length s ≤ 255.
Definition endpoint_wire (a : EndpointRef) : Prop :=
  str_wire (ep_namespace a) ∧ str_wire (ep_port a).
Definition response_wire (r : option HelloType) : Prop :=
  match r with None => True | Some t => str_wire (ht_name t) ∧ is_u64 (ht_schema t) end.

Record entry_wire (t : TEntry) : Prop := {
  ew_hash : is_u32 (t_hash t);
  ew_flags : is_u8 (t_flags t);
  ew_flag_bit : Z.land (t_flags t) flags.SCHEMA_FINGERPRINT = 0%Z;
  ew_schema : is_u64 (t_schema t);
  ew_name : str_wire (t_name t);
  ew_port : str_wire (t_port t);
  ew_response : response_wire (t_response t);
  ew_count : length (t_sources t) ≤ 255;
  ew_sources : Forall endpoint_wire (t_sources t);
}.

(** ** When a table is acceptable *)

Record entry_valid (id : str) (t : TEntry) : Prop := {
  ev_direction : direction_of (t_flags t) ∈ [flags.PUB; flags.SUB; flags.SERVE; flags.CALLS];
  ev_latched : has (t_flags t) flags.LATCHED = true → direction_of (t_flags t) = flags.PUB;
  ev_port : valid_port (t_port t) = true;
  ev_type : valid_type (t_name t) = true;
  ev_hash : t_hash t = endpoint_hash id (t_port t);
  ev_response : is_Some (t_response t) ↔ direction_of (t_flags t) ∈ [flags.SERVE; flags.CALLS];
  ev_response_type : ∀ r, t_response t = Some r → valid_type (ht_name r) = true;
  ev_no_sources : direction_of (t_flags t) ∈ [flags.PUB; flags.SERVE] → t_sources t = [];
  ev_sub_sources : direction_of (t_flags t) = flags.SUB → t_sources t ≠ [];
  ev_call_source : direction_of (t_flags t) = flags.CALLS → length (t_sources t) = 1;
  ev_addresses : Forall (λ s, valid_namespace (ep_namespace s) = true ∧
                              valid_port (ep_port s) = true) (t_sources t);
  ev_nodup : NoDup (t_sources t);
}.

(** An entry that owns its endpoint: a publisher or a server *)
Definition t_owns (t : TEntry) : bool := has (t_flags t) (Z.lor flags.PUB flags.SERVE).

Record compatible (t u : TEntry) : Prop := {
  cp_source : ∀ s, s ∈ t_sources t → s ∈ t_sources u →
    t_name t = t_name u ∧ t_schema t = t_schema u ∧ t_response t = t_response u ∧
    has (t_flags t) flags.CALLS = has (t_flags u) flags.CALLS;
  cp_slot : t_port t = t_port u → t_owns t ≠ t_owns u;
  cp_hash : t_hash t = t_hash u → t_port t = t_port u;
}.

Definition t_addresses (id : str) (ts : list TEntry) : list EndpointRef :=
  flat_map (λ t, mkEndpointRef id (t_port t) :: t_sources t) ts.

Record table_ok (bridge : bool) (id : str) (ts : list TEntry) : Prop := {
  tb_id : valid_namespace id = true;
  tb_bridge : bridge = true → ts = [];
  tb_entries : Forall (entry_valid id) ts;
  tb_pairs : ∀ i j t u, i < j → ts !! i = Some t → ts !! j = Some u → compatible t u;
  tb_hashes : ∀ a b, a ∈ t_addresses id ts → b ∈ t_addresses id ts →
                     ep_hash a = ep_hash b → a = b;
}.

(** A table that fits the wire. *)
Definition table_wire (id : str) (ts : list TEntry) : Prop :=
  str_wire id ∧ length ts ≤ 255 ∧ Forall entry_wire ts.

(** ** Bytes by cases *)

Lemma byte_forall (P : Z → bool) :
  forallb P (seqZ 0 256) = true → ∀ b, is_u8 b → P b = true.
Proof.
  intros H b Hb. rewrite forallb_Forall, Forall_forall in H. apply H.
  apply elem_of_seqZ. unfold is_u in Hb. change (2 ^ 8)%Z with 256%Z in Hb. lia.
Qed.

Lemma flag_byte_split b :
  is_u8 b → Z.land b 16 ≠ 0%Z →
  Z.lor (Z.land b (not8 16)) 16 = b ∧ Z.land (Z.land b (not8 16)) 16 = 0%Z
  ∧ is_u8 (Z.land b (not8 16)).
Proof.
  intros Hb H.
  pose proof (byte_forall (λ b, (Z.land b 16 =? 0)%Z ||
    ((Z.lor (Z.land b (not8 16)) 16 =? b)%Z && (Z.land (Z.land b (not8 16)) 16 =? 0)%Z
     && bool_decide (is_u8 (Z.land b (not8 16)))))) as Hall.
  specialize (Hall ltac:(vm_compute; reflexivity) b Hb).
  apply orb_true_iff in Hall as [Hz|Hr]; [by apply Z.eqb_eq in Hz|].
  by breflect_in Hr; destruct Hr as [[? ?] ?].
Qed.

Lemma flag_byte_join f :
  is_u8 f → Z.land f 16 = 0%Z →
  Z.land (Z.lor f 16) (not8 16) = f ∧ Z.land (Z.lor f 16) 16 ≠ 0%Z ∧ is_u8 (Z.lor f 16).
Proof.
  intros Hf H.
  pose proof (byte_forall (λ f, negb (Z.land f 16 =? 0)%Z ||
    ((Z.land (Z.lor f 16) (not8 16) =? f)%Z && negb (Z.land (Z.lor f 16) 16 =? 0)%Z
     && bool_decide (is_u8 (Z.lor f 16))))) as Hall.
  specialize (Hall ltac:(vm_compute; reflexivity) f Hf).
  apply orb_true_iff in Hall as [Hz|Hr]; [by rewrite H in Hz|].
  by breflect_in Hr; destruct Hr as [[? ?] ?].
Qed.

Lemma hello_flags_bits ack bridge :
  is_u8 (hello_flags ack bridge) ∧
  Z.land (hello_flags ack bridge) (not8 (Z.lor HELLO_ACK HELLO_BRIDGE)) = 0%Z ∧
  has (hello_flags ack bridge) HELLO_ACK = ack ∧
  has (hello_flags ack bridge) HELLO_BRIDGE = bridge.
Proof. destruct ack, bridge; repeat split; vm_compute; congruence. Qed.

Lemma hello_flags_byte b :
  is_u8 b → Z.land b (not8 (Z.lor HELLO_ACK HELLO_BRIDGE)) = 0%Z →
  b = hello_flags (has b HELLO_ACK) (has b HELLO_BRIDGE).
Proof.
  intros Hb H.
  pose proof (byte_forall (λ b, negb (Z.land b (not8 (Z.lor HELLO_ACK HELLO_BRIDGE)) =? 0)%Z ||
    (b =? hello_flags (has b HELLO_ACK) (has b HELLO_BRIDGE))%Z)) as Hall.
  specialize (Hall ltac:(vm_compute; reflexivity) b Hb).
  apply orb_true_iff in Hall as [Hz|Hr]; [by rewrite H in Hz|by apply Z.eqb_eq in Hr].
Qed.

(** ** Readers and the bytes they consume *)

Definition r_rest (r : Reader) : list Z := drop (r_pos r) (r_buf r).
Definition r_ok (r : Reader) : Prop := r_pos r ≤ length (r_buf r) ∧ bytes_ok (r_buf r).

(** [r'] is [r] after [b] was read. *)
Definition reads (r : Reader) (b : list Z) (r' : Reader) : Prop :=
  r_buf r' = r_buf r ∧ r_pos r' = r_pos r + length b ∧ r_rest r = b ++ r_rest r'.

(** [m] succeeds exactly on inputs that start with a [b] such that [P a b], and
    returns that [a]. *)
Definition parses {A} (m : ST Reader A) (P : A → list Z → Prop) : Prop :=
  ∀ r, r_ok r → ∀ a r', m r = Some (a, r') ↔ ∃ b, P a b ∧ reads r b r'.

Lemma reads_nil r : reads r [] r.
Proof. repeat split. cbn. lia. Qed.

Lemma reads_nil_inv r r' : reads r [] r' → r' = r.
Proof. intros (Hb&Hp&_). destruct r, r'. cbn in *. f_equal; [done|lia]. Qed.

Lemma reads_trans r b1 r1 b2 r2 : reads r b1 r1 → reads r1 b2 r2 → reads r (b1 ++ b2) r2.
Proof.
  intros (Hb1&Hp1&Hr1) (Hb2&Hp2&Hr2). repeat split.
  - by rewrite Hb2.
  - rewrite length_app. lia.
  - by rewrite Hr1, Hr2, app_assoc.
Qed.

Lemma reads_app_inv r b1 b2 r2 :
  reads r (b1 ++ b2) r2 → ∃ r1, reads r b1 r1 ∧ reads r1 b2 r2.
Proof.
  intros (Hb&Hp&Hr). rewrite length_app in Hp.
  exists (mkReader (r_buf r) (r_pos r + length b1)).
  assert (Hr1 : r_rest (mkReader (r_buf r) (r_pos r + length b1)) = b2 ++ r_rest r2).
  { unfold r_rest at 1. cbn. rewrite <- drop_drop. fold (r_rest r).
    rewrite Hr, <- app_assoc. by rewrite drop_app_length. }
  split; [split; [done|]|split; [cbn; congruence|]].
  - split; [done|]. by rewrite Hr1, Hr, app_assoc.
  - split; [cbn; lia|done].
Qed.

Lemma reads_ok r b r' : r_ok r → reads r b r' → r_ok r' ∧ bytes_ok b.
Proof.
  intros [Hp Hb] (Hb'&Hp'&Hr).
  assert (Hl : length (r_rest r) = length b + length (r_rest r')) by (by rewrite Hr, length_app).
  unfold r_rest in Hl. rewrite !length_drop, Hb' in Hl.
  assert (Hok : bytes_ok (r_rest r)) by by apply bytes_ok_drop.
  rewrite Hr in Hok. apply Forall_app in Hok as [Hokb _].
  split; [|done]. split; [rewrite Hb'; lia|by rewrite Hb'].
Qed.

Lemma reads_fun r b r1 r2 : reads r b r1 → reads r b r2 → r1 = r2.
Proof.
  intros (H1&H2&_) (H3&H4&_). destruct r1, r2. cbn in *. f_equal; [congruence|lia].
Qed.

Lemma bind_Some {S A B} (m : ST S A) (k : A → ST S B) s c s' :
  bind m k s = Some (c, s') ↔ ∃ a s1, m s = Some (a, s1) ∧ k a s1 = Some (c, s').
Proof.
  unfold bind. destruct (m s) as [[a s1]|]; split; intros Hx.
  - by exists a, s1.
  - by destruct Hx as (?&?&[= <- <-]&?).
  - done.
  - by destruct Hx as (?&?&?&_).
Qed.

Section parses_rules.
Context {A B : Type}.

Lemma parses_ret (a : A) : parses (ret a) (λ x b, x = a ∧ b = []).
Proof.
  intros r Hr x r'. split.
  - intros [= <- <-]. exists []. split; [done|apply reads_nil].
  - by intros (b&[-> ->]&->%reads_nil_inv).
Qed.

Lemma parses_bind (m : ST Reader A) (k : A → ST Reader B) P Q :
  parses m P → (∀ a, parses (k a) (Q a)) →
  parses (bind m k) (λ c b, ∃ a b1 b2, P a b1 ∧ Q a c b2 ∧ b = b1 ++ b2).
Proof.
  intros Hm Hk r Hr c r2. rewrite bind_Some. split.
  - intros (a&r1&Ha&Hc). apply (Hm r Hr) in Ha as (b1&HP&Hr1).
    destruct (reads_ok _ _ _ Hr Hr1) as [Hok1 _].
    apply (Hk a r1 Hok1) in Hc as (b2&HQ&Hr2).
    exists (b1 ++ b2). split; [by exists a, b1, b2|]. by eapply reads_trans.
  - intros (b&(a&b1&b2&HP&HQ&->)&(r1&Hr1&Hr2)%reads_app_inv).
    destruct (reads_ok _ _ _ Hr Hr1) as [Hok1 _].
    exists a, r1. split; [apply (Hm r Hr); eauto|apply (Hk a r1 Hok1); eauto].
Qed.

Lemma parses_iff (m : ST Reader A) P P' :
  parses m P → (∀ a b, bytes_ok b → P a b ↔ P' a b) → parses m P'.
Proof.
  intros Hm Hiff r Hr a r'. rewrite (Hm r Hr). split.
  - intros (b&HP&Hrd). destruct (reads_ok _ _ _ Hr Hrd) as [_ Hb].
    exists b. split; [by apply Hiff|done].
  - intros (b&HP&Hrd). destruct (reads_ok _ _ _ Hr Hrd) as [_ Hb].
    exists b. split; [by apply Hiff|done].
Qed.

Lemma parses_lift_None : parses (lift (@None A)) (λ _ _, False).
Proof. intros r Hr a r'. split; [done|by intros (?&?&_)]. Qed.

(** A guard after a read. *)
Lemma parses_guard (c : bool) (m : ST Reader A) P :
  parses m P → parses (if c then m else lift None) (λ a b, c = true ∧ P a b).
Proof.
  intros Hm. destruct c.
  - eapply parses_iff; [done|]. naive_solver.
  - eapply parses_iff; [apply parses_lift_None|]. naive_solver.
Qed.

(** The bytes between two positions of the reader are the ones read. *)
Lemma parses_capture (m : ST Reader A) (f : list Z → B) P :
  parses m P →
  parses (let* start := gets r_pos in
          m ;;;
          let* r := gets id in
          ret (f (take (r_pos r - start) (drop start (r_buf r)))))
         (λ c b, ∃ a, P a b ∧ c = f b).
Proof.
  intros Hm r Hr c r'. rewrite bind_Some.
  assert (Hcap : ∀ b r1, reads r b r1 →
    take (r_pos r1 - r_pos r) (drop (r_pos r) (r_buf r1)) = b).
  { intros b r1 (Hb&Hp&Hrest). rewrite Hb, Hp. fold (r_rest r).
    rewrite Hrest, take_app_length'; [done|lia]. }
  split.
  - intros (st&r0&[= <- <-]&Hc). apply bind_Some in Hc as (a&r1&Ha&Hc).
    apply (Hm r Hr) in Ha as (b&HP&Hrd). injection Hc as <- <-.
    exists b. unfold id. rewrite (Hcap b r1 Hrd). eauto.
  - intros (b&(a&HP&->)&Hrd). exists (r_pos r), r. split; [done|].
    apply bind_Some. exists a, r'. split; [apply (Hm r Hr); eauto|].
    unfold bind, gets, ret, id. by rewrite (Hcap b r' Hrd).
Qed.
End parses_rules.

(** ** What each reader reads *)

Lemma parses_bytes n : parses (r_bytes n) (λ a b, a = b ∧ length b = n).
Proof.
  intros r [Hp Hb] a r'. unfold r_bytes. split.
  - destruct (_ <=? _) eqn:E; breflect_in E; [|done]. intros [= <- <-].
    set (b := take n (drop (r_pos r) (r_buf r))).
    assert (Hl : length b = n) by (unfold b; rewrite length_take, length_drop; lia).
    exists b. split; [done|]. repeat split; cbn; [lia|].
    unfold r_rest. cbn. rewrite <- drop_drop. unfold b. by rewrite take_drop.
  - intros (b&[-> Hl]&Hb'&Hp'&Hr).
    assert (Hlen : length (r_rest r) = length b + length (r_rest r')) by (by rewrite Hr, length_app).
    unfold r_rest at 1 in Hlen. rewrite length_drop in Hlen.
    rewrite (proj2 (Nat.leb_le _ _)) by lia.
    fold (r_rest r). rewrite Hr, take_app_length' by done.
    destruct r' as [buf' pos']. cbn in *. subst. done.
Qed.

Lemma parses_u8 : parses r_u8 (λ v b, b = [v]).
Proof.
  eapply parses_iff; [eapply parses_bind; [apply parses_bytes|intros; apply parses_ret]|].
  intros v b Hb. cbn. split.
  - intros (a&b1&b2&[-> Hl]&[-> ->]&->). rewrite app_nil_r.
    destruct b1 as [|x [|]]; cbn in *; by try lia.
  - intros ->. exists [v], [v], []. done.
Qed.

Lemma parses_le n :
  parses (let* b := r_bytes n in ret (from_le b))
         (λ v b, is_u (8 * Z.of_nat n) v ∧ b = le_bytes n v).
Proof.
  eapply parses_iff; [eapply parses_bind; [apply parses_bytes|intros; apply parses_ret]|].
  intros v b Hb. cbn. split.
  - intros (a&b1&b2&[-> Hl]&[-> ->]&->). rewrite app_nil_r in Hb |- *. subst n.
    split; [by apply from_le_range|by rewrite le_bytes_from].
  - intros (Hv&->). exists (le_bytes n v), (le_bytes n v), [].
    rewrite length_le_bytes, app_nil_r, from_le_bytes by done. done.
Qed.

Lemma parses_u32 : parses r_u32 (λ v b, is_u32 v ∧ b = le_bytes 4 v).
Proof. apply (parses_le 4). Qed.

Lemma parses_u64 : parses r_u64 (λ v b, is_u64 v ∧ b = le_bytes 8 v).
Proof. apply (parses_le 8). Qed.

Lemma parses_str : parses r_str (λ s b, str_wire s ∧ b = str_bytes s).
Proof.
  eapply parses_iff.
  { eapply parses_bind; [apply parses_u8|]. intros len.
    eapply parses_bind; [apply parses_bytes|]. intros b.
    eapply (parses_iff _ _ (λ s b', str_ok s ∧ s = b ∧ b' = [])).
    - instantiate (1 := λ s b', utf8_valid b = true ∧ (s = b ∧ b' = [])).
      destruct (utf8_valid b) eqn:E.
      + eapply parses_iff; [apply (parses_ret b)|]. naive_solver.
      + eapply parses_iff; [apply parses_lift_None|]. naive_solver.
    - unfold str_ok. naive_solver. }
  intros s b Hb. cbn. split.
  - intros (len&b1&b2&->&(b'&b3&b4&[-> Hl]&(Hok&->&->)&->)&->).
    rewrite app_nil_r in *. apply Forall_cons in Hb as [Hlen Hb].
    unfold is_u in Hlen. change (2 ^ 8)%Z with 256%Z in Hlen.
    split; [split; [done|lia]|]. unfold str_bytes. cbn. f_equal. lia.
  - intros ([Hok Hl]&->). exists (Z.of_nat (length s)), [Z.of_nat (length s)], s.
    split; [done|]. split; [|done]. exists s, s, []. rewrite app_nil_r.
    repeat split; [lia|done].
Qed.

Lemma parses_endpoint : parses r_endpoint (λ a b, endpoint_wire a ∧ b = endpoint_bytes a).
Proof.
  eapply parses_iff.
  { eapply parses_bind; [apply parses_str|]. intros ns.
    eapply parses_bind; [apply parses_str|]. intros p. apply parses_ret. }
  intros a b _. cbn. split.
  - intros (ns&b1&b2&[? ->]&(p&b3&b4&[? ->]&[-> ->]&->)&->). by rewrite app_nil_r.
  - intros [[? ?] ->]. destruct a as [ns p]. cbn in *.
    exists ns, (str_bytes ns), (str_bytes p). split_and!; [done..| |done].
    exists p, (str_bytes p), []. by rewrite app_nil_r.
Qed.

Lemma parses_skip n :
  parses (r_skip n) (λ _ b, ∃ l, length l = n ∧ Forall endpoint_wire l ∧ b = sources_bytes l).
Proof.
  induction n as [|n IH]; cbn [r_skip].
  - eapply parses_iff; [apply parses_ret|]. intros [] b _. split.
    + intros [_ ->]. by exists [].
    + intros (l&Hl&_&->). by destruct l.
  - eapply parses_iff.
    { eapply parses_bind; [apply parses_str|]. intros ns.
      eapply parses_bind; [apply parses_str|]. intros p. apply IH. }
    intros [] b _. cbn. split.
    + intros (ns&b1&b2&[? ->]&(p&b3&b4&[? ->]&(l&<-&?&->)&->)&->).
      exists (mkEndpointRef ns p :: l). split_and!; [done|by constructor|].
      cbn. unfold endpoint_bytes. by rewrite <- app_assoc.
    + intros (l&Hl&Hw&->). destruct l as [|[ns p] l]; [done|]. injection Hl as <-.
      apply Forall_cons in Hw as [[? ?] Hw]. cbn in *.
      exists ns, (str_bytes ns), (str_bytes p ++ sources_bytes l).
      split_and!; [done..| |].
      * exists p, (str_bytes p), (sources_bytes l). split_and!; [done..| |done]. eauto.
      * unfold endpoint_bytes. by rewrite <- app_assoc.
Qed.

Lemma parses_response :
  parses r_response (λ r b, response_wire r ∧ b = response_bytes r).
Proof.
  eapply parses_iff.
  { eapply parses_bind; [apply parses_u8|]. intros tag.
    instantiate (1 := λ tag r b, (tag = 0%Z ∧ r = None ∧ b = []) ∨
      (tag = 1%Z ∧ ∃ t, r = Some t ∧ response_wire r ∧ b = str_bytes (ht_name t) ++ le_bytes 8 (ht_schema t))).
    destruct (tag =? 0)%Z eqn:E0; breflect_in E0.
    { eapply parses_iff; [apply parses_ret|]. intros r b _. naive_solver lia. }
    destruct (tag =? 1)%Z eqn:E1; breflect_in E1.
    - eapply parses_iff.
      { eapply parses_bind; [apply parses_str|]. intros name.
        eapply parses_bind; [apply parses_u64|]. intros schema. apply parses_ret. }
      intros r b _. cbn. split.
      + intros (name&b1&b2&[? ->]&(sc&b3&b4&[? ->]&[-> ->]&->)&->). right. split; [done|].
        exists (mkHelloType name sc). cbn. done.
      + intros [[? _]|(_&[name sc]&->&[? ?]&->)]; [lia|]. cbn in *.
        exists name, (str_bytes name), (le_bytes 8 sc). split_and!; [done..| |done].
        exists sc, (le_bytes 8 sc), []. by rewrite app_nil_r.
    - eapply parses_iff; [apply parses_lift_None|]. intros r b _. naive_solver lia. }
  intros r b _. cbn. split.
  - intros (tag&b1&b2&->&[(->&->&->)|(->&t&->&Hw&->)]&->); [done|]. split; [done|]. done.
  - intros [Hw ->]. destruct r as [t|]; cbn [response_bytes].
    + exists 1%Z, [1%Z], (str_bytes (ht_name t) ++ le_bytes 8 (ht_schema t)).
      split_and!; [done| |done]. right. split; [done|]. by exists t.
    + exists 0%Z, [0%Z], []. split_and!; [done| |done]. by left.
Qed.

Lemma parses_sources (f : list Z → HelloEntry) :
  parses (let* count := r_u8 in
          let* start := gets r_pos in
          r_skip (Z.to_nat count) ;;;
          let* r := gets id in
          ret (f (take (r_pos r - start) (drop start (r_buf r)))))
         (λ e b, ∃ l, length l ≤ 255 ∧ Forall endpoint_wire l ∧ e = f (sources_bytes l) ∧
                      b = [Z.of_nat (length l)] ++ sources_bytes l).
Proof.
  eapply parses_iff.
  { eapply parses_bind; [apply parses_u8|]. intros count. apply parses_capture, parses_skip. }
  intros e b Hb. cbn. split.
  - intros (c&b1&b2&->&([]&(l&Hl&Hw&->)&->)&->). apply Forall_cons in Hb as [Hc _].
    unfold is_u in Hc. change (2 ^ 8)%Z with 256%Z in Hc.
    exists l. split_and!; [lia|done|done|]. cbn. f_equal. lia.
  - intros (l&Hl&Hw&->&->). exists (Z.of_nat (length l)), [Z.of_nat (length l)], (sources_bytes l).
    split_and!; [done| |done]. exists tt. split; [|done]. exists l. split_and!; [lia|done|done].
Qed.

Lemma parses_entry :
  parses r_entry (λ e b, ∃ t, entry_wire t ∧ e = entry_of t ∧ b = entry_bytes t).
Proof.
  eapply parses_iff.
  { eapply parses_bind; [apply parses_u32|]. intros hash.
    eapply parses_bind; [apply parses_u8|]. intros fl.
    instantiate (1 := λ fl e b, Z.land fl 16 ≠ 0%Z ∧ ∃ port name schema resp l,
      str_wire port ∧ str_wire name ∧ is_u64 schema ∧ response_wire resp ∧
      length l ≤ 255 ∧ Forall endpoint_wire l ∧
      e = mkHelloEntry hash (Z.land fl (not8 16)) schema name port resp (SWire (sources_bytes l)) ∧
      b = str_bytes port ++ str_bytes name ++ le_bytes 8 schema ++ response_bytes resp
          ++ [Z.of_nat (length l)] ++ sources_bytes l).
    change flags.SCHEMA_FINGERPRINT with 16%Z.
    destruct (Z.land fl 16 =? 0)%Z eqn:E; breflect_in E.
    { eapply parses_iff; [apply parses_lift_None|]. naive_solver. }
    eapply parses_iff.
    { eapply parses_bind; [apply parses_str|]. intros port.
      eapply parses_bind; [apply parses_str|]. intros name.
      eapply parses_bind; [apply parses_u64|]. intros schema.
      eapply parses_bind; [apply parses_response|]. intros resp.
      apply (parses_sources (λ b, mkHelloEntry hash (Z.land fl (not8 16)) schema name port resp (SWire b))). }
    intros e b _. cbn -[le_bytes]. split.
    - intros (port&b1&b2&[? ->]&(name&b3&b4&[? ->]&(sc&b5&b6&[? ->]&(rs&b7&b8&[? ->]&
        (l&?&?&->&->)&->)&->)&->)&->). split; [done|]. by exists port, name, sc, rs, l.
    - intros (_&port&name&sc&rs&l&?&?&?&?&?&?&->&->).
      exists port, (str_bytes port). eexists. split; [done|split; [|done]].
      exists name, (str_bytes name). eexists. split; [done|split; [|done]].
      exists sc, (le_bytes 8 sc). eexists. split; [done|split; [|done]].
      exists rs, (response_bytes rs). eexists. split; [done|split; [|done]]. by exists l. }
  intros e b Hb. cbn -[le_bytes]. split.
  - intros (hash&b1&b2&[? ->]&(fl&b3&b4&->&(Hfl&port&name&sc&rs&l&?&?&?&?&?&?&->&->)&->)&->).
    apply Forall_app in Hb as [_ Hb]. apply Forall_cons in Hb as [Hflb _].
    destruct (flag_byte_split fl Hflb Hfl) as (Hj&Hz&Hu).
    exists (mkTEntry hash (Z.land fl (not8 16)) sc name port rs l).
    split_and!; [by constructor|done|].
    unfold entry_bytes. cbn -[le_bytes not8]. change flags.SCHEMA_FINGERPRINT with 16%Z.
    by rewrite Hj.
  - intros (t&Hw&->&->). destruct Hw.
    destruct (flag_byte_join (t_flags t) ew_flags0 ew_flag_bit0) as (Hs&Hn&_).
    exists (t_hash t), (le_bytes 4 (t_hash t)). eexists. split; [done|split; [|done]].
    exists (Z.lor (t_flags t) 16), [Z.lor (t_flags t) 16]. eexists. split; [done|split; [|done]].
    split; [done|]. exists (t_port t), (t_name t), (t_schema t), (t_response t), (t_sources t).
    split_and!; try done. rewrite Hs. done.
Qed.

(** ** Iterators over validated bytes *)

Lemma r_ok_start b : bytes_ok b → r_ok (mkReader b 0).
Proof. split; [cbn; lia|done]. Qed.

Lemma parses_here {A} (m : ST Reader A) P r a b post :
  parses m P → r_ok r → P a b → r_rest r = b ++ post →
  ∃ r', m r = Some (a, r') ∧ reads r b r' ∧ r_rest r' = post ∧ r_ok r'.
Proof.
  intros Hm Hr HP Hrest.
  exists (mkReader (r_buf r) (r_pos r + length b)).
  assert (Hpost : r_rest (mkReader (r_buf r) (r_pos r + length b)) = post).
  { unfold r_rest. cbn. rewrite <- drop_drop. fold (r_rest r). by rewrite Hrest, drop_app_length. }
  assert (Hrd : reads r b (mkReader (r_buf r) (r_pos r + length b))).
  { repeat split. by rewrite Hpost. }
  split_and!; [apply (Hm r Hr); eauto|done|done|]. by eapply reads_ok.
Qed.

Lemma length_endpoint_bytes a : 2 ≤ length (endpoint_bytes a).
Proof. unfold endpoint_bytes, str_bytes. rewrite length_app. cbn. lia. Qed.

Lemma wire_sources_bytes l r fuel :
  r_ok r → Forall endpoint_wire l → r_rest r = sources_bytes l →
  length l ≤ fuel → wire_sources fuel r = l.
Proof.
  revert r fuel. induction l as [|a l IH]; intros r fuel Hr Hw Hrest Hf.
  - destruct fuel as [|fuel]; [done|]. cbn.
    destruct (r_endpoint r) as [[e r']|] eqn:E; [|done].
    apply (parses_endpoint r Hr) in E as (b&[_ ->]&_&_&Hrest').
    pose proof (length_endpoint_bytes e) as Hl. rewrite Hrest in Hrest'.
    apply (f_equal length) in Hrest'. rewrite length_app in Hrest'. cbn in Hrest'. lia.
  - apply Forall_cons in Hw as [Ha Hw]. destruct fuel as [|fuel]; [cbn in Hf; lia|].
    destruct (parses_here r_endpoint _ r a (endpoint_bytes a) (sources_bytes l) parses_endpoint Hr)
      as (r'&E&_&Hrest'&Hr'); [done|done|].
    cbn [wire_sources]. rewrite E. f_equal. apply IH; [done..|]. cbn in Hf. lia.
Qed.

Lemma sources_bytes_length l : length l ≤ length (sources_bytes l).
Proof.
  unfold sources_bytes in *. induction l as [|a l IH]; cbn [flat_map length]; [done|].
  rewrite length_app. pose proof (length_endpoint_bytes a). lia.
Qed.

Lemma endpoint_bytes_ok a : endpoint_wire a → bytes_ok (endpoint_bytes a).
Proof.
  intros [[Hn ?] [Hp ?]]. apply str_ok_bytes in Hn, Hp. unfold endpoint_bytes, str_bytes.
  apply bytes_ok_app; apply bytes_ok_cons; try done; unfold is_u; change (2 ^ 8)%Z with 256%Z; lia.
Qed.

Lemma sources_bytes_ok l : Forall endpoint_wire l → bytes_ok (sources_bytes l).
Proof.
  unfold sources_bytes. induction 1 as [|a l Ha _ IH]; cbn [flat_map]; [constructor|].
  apply bytes_ok_app; [by apply endpoint_bytes_ok|done].
Qed.

Lemma sources_iter_of l :
  Forall endpoint_wire l → sources_iter (SWire (sources_bytes l)) = l.
Proof.
  intros Hw. cbn [sources_iter]. apply wire_sources_bytes; [|done..|apply sources_bytes_length].
  by apply r_ok_start, sources_bytes_ok.
Qed.

Lemma entries_from_bytes n ts post r :
  r_ok r → Forall entry_wire ts → n ≤ length ts →
  r_rest r = flat_map entry_bytes ts ++ post →
  entries_from n r = entry_of <$> take n ts.
Proof.
  revert n r. induction ts as [|t ts IH]; intros [|n] r Hr Hw Hn Hrest; [done|cbn in Hn; lia|done|].
  apply Forall_cons in Hw as [Ht Hw]. cbn [flat_map] in Hrest. rewrite <- app_assoc in Hrest.
  destruct (parses_here r_entry _ r (entry_of t) (entry_bytes t) (flat_map entry_bytes ts ++ post)
              parses_entry Hr) as (r'&E&_&Hrest'&Hr'); [by exists t|done|].
  cbn [entries_from]. rewrite E. cbn. f_equal. apply IH; [done..| |done]. cbn in Hn. lia.
Qed.
