(* ===== verification/HelloParse.v ===== *)
(** * HelloParse: the Hello parser is the inverse of the serialization

    The validator's boolean conditions decide [table_ok], the validation loop
    accepts exactly the serialized tables, and so [hello_parse] accepts a
    payload iff it is [hello_bytes] of an acceptable table. *)

From Stdlib Require Import ZArith Lia.
From S2P Require Import Prelude Text Codec Core Wire Hello HelloSpec.

(** ** The conditions of the validator *)

Lemma has_false fl m : has fl m = false ↔ Z.land fl m = 0%Z.
Proof. unfold has. by rewrite negb_false_iff, Z.eqb_eq. Qed.

Lemma sources_ok_iff pre rest :
  sources_ok (pre ++ rest) (length pre) rest = true ↔
  Forall (λ s, valid_namespace (ep_namespace s) = true ∧ valid_port (ep_port s) = true) rest ∧
  NoDup rest ∧ (∀ s, s ∈ rest → s ∉ pre).
Proof.
  revert pre. induction rest as [|s rest IH]; intros pre; cbn [sources_ok].
  - split; [|done]. intros _. split_and!; [constructor|constructor|].
    intros s Hs. by apply elem_of_nil in Hs.
  - rewrite !andb_true_iff, negb_true_iff, existsb_false_elem.
    rewrite take_app_length.
    replace (S (length pre)) with (length (pre ++ [s])) by (rewrite length_app; cbn; lia).
    replace (pre ++ s :: rest) with ((pre ++ [s]) ++ rest) by (by rewrite <- app_assoc).
    rewrite IH, Forall_cons, NoDup_cons.
    setoid_rewrite bool_decide_eq_false. setoid_rewrite elem_of_app.
    setoid_rewrite elem_of_cons. setoid_rewrite elem_of_nil.
    split; [|split]; naive_solver.
Qed.

Lemma address_hashes_iff pre rest :
  address_hashes_ok (pre ++ rest) (length pre) rest = true ↔
  (∀ a b, a ∈ pre → b ∈ rest → ep_hash a = ep_hash b → a = b) ∧
  (∀ i j a b, i < j → rest !! i = Some a → rest !! j = Some b → ep_hash a = ep_hash b → a = b).
Proof.
  revert pre. induction rest as [|s rest IH]; intros pre; cbn [address_hashes_ok].
  - split; [|done]. intros _. split; [|done]. intros a b _ Hb. by apply elem_of_nil in Hb.
  - rewrite andb_true_iff, negb_true_iff, existsb_false_elem, take_app_length.
    replace (S (length pre)) with (length (pre ++ [s])) by (rewrite length_app; cbn; lia).
    replace (pre ++ s :: rest) with ((pre ++ [s]) ++ rest) by (by rewrite <- app_assoc).
    rewrite IH.
    setoid_rewrite andb_false_iff. setoid_rewrite negb_false_iff.
    setoid_rewrite bool_decide_eq_true. setoid_rewrite Z.eqb_neq.
    setoid_rewrite elem_of_app. setoid_rewrite elem_of_cons. setoid_rewrite elem_of_nil.
    split.
    + intros (H1&H2&H3). split.
      * intros a b Ha [->|Hb] He; [|by apply H2; auto]. destruct (H1 a Ha); done.
      * intros [|i] [|j] a b Hij Hi Hj He; try lia; cbn in Hi, Hj.
        -- injection Hi as <-. apply H2; [auto|by eapply list_elem_of_lookup_2|done].
        -- eapply (H3 i j); [lia|done..].
    + intros (H1&H2). split_and!.
      * intros a Ha. destruct (decide (ep_hash a = ep_hash s)) as [He|]; [|auto].
        left. apply H1; auto.
      * intros a b [Ha|[->|[]]] Hb He; [by apply H1; auto|].
        apply list_elem_of_lookup_1 in Hb as [j Hj].
        by apply (H2 0 (S j) s b); [lia|..].
      * intros i j a b Hij Hi Hj He. by apply (H2 (S i) (S j) a b); [lia|..].
Qed.

Lemma hash_pairs_all (l : list EndpointRef) :
  (∀ i j a b, i < j → l !! i = Some a → l !! j = Some b → ep_hash a = ep_hash b → a = b) ↔
  (∀ a b, a ∈ l → b ∈ l → ep_hash a = ep_hash b → a = b).
Proof.
  split.
  - intros H a b [i Hi]%list_elem_of_lookup_1 [j Hj]%list_elem_of_lookup_1 He.
    destruct (lt_eq_lt_dec i j) as [[Hlt| ->]|Hlt]; [by eapply H|by simplify_eq|].
    symmetry. by eapply (H j i).
  - intros H i j a b _ Hi%list_elem_of_lookup_2 Hj%list_elem_of_lookup_2. by apply H.
Qed.

Lemma pair_ok_iff t u :
  entry_wire t → entry_wire u → pair_ok (entry_of t) (entry_of u) = true ↔ compatible t u.
Proof.
  intros Ht Hu. unfold pair_ok, entry_of. cbn [he_sources he_name he_schema he_response he_flags he_port he_hash].
  rewrite (sources_iter_of (t_sources t)) by apply Ht.
  rewrite (sources_iter_of (t_sources u)) by apply Hu.
  fold (t_owns t) (t_owns u).
  set (shared := existsb _ (t_sources t)).
  assert (Hs : shared = true ↔ ∃ s, s ∈ t_sources t ∧ s ∈ t_sources u).
  { unfold shared. rewrite existsb_exists_elem. setoid_rewrite existsb_exists_elem.
    setoid_rewrite bool_decide_eq_true. naive_solver. }
  rewrite andb_true_iff, !negb_true_iff, andb_false_iff, !orb_false_iff, !andb_false_iff,
    !negb_false_iff, !bool_decide_eq_true, bool_decide_eq_false, Z.eqb_eq, Z.eqb_neq,
    eqb_true_iff, eqb_false_iff.
  split.
  - intros (H1&H2&H3). constructor.
    + intros s Hst Hsu. destruct H1 as [H1|H1]; [|naive_solver].
      rewrite (proj2 Hs) in H1 by eauto. done.
    + naive_solver.
    + naive_solver.
  - intros [H1 H2 H3]. split_and!.
    + destruct shared; [right|by left]. destruct (proj1 Hs eq_refl) as (s&?&?). naive_solver.
    + destruct (decide (t_port t = t_port u)); [right; auto|by left].
    + destruct (decide (t_hash t = t_hash u)); [right; auto|by left].
Qed.

Lemma entry_checks_iff id t :
  entry_wire t →
  entry_shape id (entry_of t)
  && source_count_ok (direction_of (t_flags t)) (length (t_sources t))
  && sources_ok (t_sources t) 0 (t_sources t) = true ↔ entry_valid id t.
Proof.
  intros Ht. pose proof (sources_ok_iff [] (t_sources t)) as Hso. cbn [app length] in Hso.
  rewrite !andb_true_iff, Hso. clear Hso. unfold entry_shape, source_count_ok, entry_of.
  cbn [he_sources he_name he_schema he_response he_flags he_port he_hash].
  unfold is_direction, is_rpc, is_source_side.
  set (d := direction_of (t_flags t)).
  rewrite !andb_true_iff, !negb_true_iff, !orb_false_iff, !andb_false_iff, !negb_false_iff,
    !bool_decide_eq_true, !bool_decide_eq_false, !Z.eqb_eq, !Z.eqb_neq, !Nat.eqb_eq, !Nat.eqb_neq,
    eqb_true_iff, bool_decide_eq_iff.
  assert (Hr : match t_response t with Some r => valid_type (ht_name r) | None => true end = true ↔
               ∀ r, t_response t = Some r → valid_type (ht_name r) = true)
    by (destruct (t_response t); naive_solver).
  rewrite Hr. clear Hr. split.
  - intros ((((((((Hd&Hl)&Hp)&Htp)&Hh)&Hr)&Hrt)&(Hs1&Hs2)&Hs3)&Ha&Hn&_).
    constructor; fold d; try done.
    + intros Hlat. destruct Hl as [Hl|Hl]; [congruence|done].
    + intros Hin. destruct Hs1 as [Hs1|Hs1]; [done|by destruct (t_sources t)].
    + intros Hsub He. rewrite He in Hs2. by destruct Hs2 as [Hs2|Hs2].
    + intros Hc. by destruct Hs3 as [Hs3|Hs3].
  - intros [Hd Hl Hp Htp Hh Hr Hrt Hs1 Hs2 Hs3 Ha Hn].
    split_and!; try done; try apply Hr.
    + destruct (has (t_flags t) flags.LATCHED); [right; auto|by left].
    + destruct (decide (d ∈ [flags.PUB; flags.SERVE])); [right|by left].
      by rewrite Hs1.
    + destruct (decide (d = flags.SUB)); [right|by left].
      specialize (Hs2 e). by destruct (t_sources t).
    + destruct (decide (d = flags.CALLS)); [right; auto|by left].
    + intros s _. apply not_elem_of_nil.
Qed.

(** ** The validation loop *)

Lemma entries_from_take i n r : i ≤ n → take i (entries_from n r) = entries_from i r.
Proof.
  revert n r. induction i as [|i IH]; intros [|n] r Hi; cbn; try done; [lia|].
  destruct (r_entry r) as [[e r']|]; [|done]. cbn. f_equal. apply IH. lia.
Qed.

(** What the loop accepts after the entries [pre]. *)
Definition loop_ok (id : str) (pre ts : list TEntry) : Prop :=
  Forall entry_wire ts ∧
  ∀ i t, ts !! i = Some t → entry_valid id t ∧ Forall (λ p, compatible p t) (pre ++ take i ts).

Lemma loop_ok_cons id pre t ts :
  loop_ok id pre (t :: ts) ↔
  entry_wire t ∧ entry_valid id t ∧ Forall (λ p, compatible p t) pre ∧ loop_ok id (pre ++ [t]) ts.
Proof.
  unfold loop_ok. rewrite Forall_cons. split.
  - intros ((Ht&Hw)&H). destruct (H 0 t) as [Hv Hc]; [done|]. rewrite app_nil_r in Hc.
    split_and!; try done. intros i u Hu. destruct (H (S i) u) as [Hv' Hc']; [done|].
    split; [done|]. cbn in Hc'. by rewrite <- app_assoc.
  - intros (Ht&Hv&Hc&Hw&H). split_and!; [done..|]. intros [|i] u Hu; cbn in Hu.
    + injection Hu as <-. by rewrite app_nil_r.
    + destruct (H i u Hu) as [Hv' Hc']. rewrite <- app_assoc in Hc'. done.
Qed.

Lemma check_entry_iff hello pre t post :
  bytes_ok (hl_entries hello) → Forall entry_wire pre → entry_wire t →
  hl_entries hello = flat_map entry_bytes pre ++ post → length pre ≤ hl_count hello →
  check_entry hello (length pre) (entry_of t) = true ↔
  entry_valid (hl_id hello) t ∧ Forall (λ p, compatible p t) pre.
Proof.
  intros Hb Hpre Ht Hent Hn. unfold check_entry, hello_entries.
  rewrite entries_from_take by done.
  rewrite (entries_from_bytes _ pre post); [|by apply r_ok_start|done|done|done].
  rewrite firstn_all. unfold entry_of at 2 3 4 5. cbn [he_flags he_sources].
  rewrite sources_iter_of by apply Ht.
  rewrite andb_true_iff, entry_checks_iff by done.
  rewrite forallb_Forall, Forall_fmap, !Forall_forall.
  split; intros [Hv Hc]; (split; [done|]); intros p Hp.
  - apply pair_ok_iff; [rewrite Forall_forall in Hpre; auto|done|by apply Hc].
  - apply pair_ok_iff; [rewrite Forall_forall in Hpre; auto|done|by apply Hc].
Qed.

Lemma check_entries_iff hello pre n r r' :
  bytes_ok (hl_entries hello) → r_ok r → Forall entry_wire pre →
  hl_entries hello = flat_map entry_bytes pre ++ r_rest r →
  length pre + n = hl_count hello →
  check_entries hello (length pre) n r = Ok r' ↔
  ∃ ts, length ts = n ∧ loop_ok (hl_id hello) pre ts ∧ reads r (flat_map entry_bytes ts) r'.
Proof.
  intros Hb. revert pre r. induction n as [|n IH]; intros pre r Hr Hpre Hent Hn; cbn [check_entries].
  - split.
    + intros [= <-]. exists []. split_and!; [done|by split|apply reads_nil].
    + intros (ts&Hl&_&Hrd). destruct ts; [|done]. by apply reads_nil_inv in Hrd as ->.
  - assert (Hstep : ∀ t r1, entry_wire t → reads r (entry_bytes t) r1 →
      (if check_entry hello (length pre) (entry_of t)
       then check_entries hello (S (length pre)) n r1 else Err WMalformed) = Ok r' ↔
      ∃ ts, length ts = n ∧ loop_ok (hl_id hello) pre (t :: ts) ∧ reads r1 (flat_map entry_bytes ts) r').
    { intros t r1 Ht Hrd. pose proof Hrd as (_&_&Hrest).
      destruct (reads_ok _ _ _ Hr Hrd) as [Hr1 _].
      assert (Hent1 : hl_entries hello = flat_map entry_bytes (pre ++ [t]) ++ r_rest r1).
      { rewrite flat_map_app, <- app_assoc. cbn [flat_map]. by rewrite app_nil_r, <- Hrest. }
      specialize (IH (pre ++ [t]) r1 Hr1).
      replace (length (pre ++ [t])) with (S (length pre)) in IH by (rewrite length_app; cbn; lia).
      setoid_rewrite loop_ok_cons.
      destruct (check_entry hello (length pre) (entry_of t)) eqn:E.
      - apply (check_entry_iff hello pre t (r_rest r)) in E as [Hv Hc]; [|done..|lia].
        rewrite IH; [|by apply Forall_app; auto|done|lia]. naive_solver.
      - split; [done|]. intros (ts&_&(_&Hv&Hc&_)&_). exfalso.
        assert (check_entry hello (length pre) (entry_of t) = true); [|congruence].
        apply (check_entry_iff hello pre t (r_rest r)); [done..|lia|done]. }
    split.
    + destruct (r_entry r) as [[e r1]|] eqn:E; cbn [ok_or]; [|done].
      apply (parses_entry r Hr) in E as (b&(t&Ht&->&->)&Hrd). intros Hc.
      apply (Hstep t r1 Ht Hrd) in Hc as (ts&Hl&Hok&Hrd').
      exists (t :: ts). split_and!; [cbn; lia|done|]. by eapply reads_trans.
    + intros (ts&Hl&Hok&Hrd). destruct ts as [|t ts]; [done|]. injection Hl as Hl.
      cbn [flat_map] in Hrd. apply reads_app_inv in Hrd as (r1&Hrd1&Hrd2).
      assert (Ht : entry_wire t) by (destruct Hok as [Hw _]; by apply Forall_cons in Hw as [? _]).
      assert (E : r_entry r = Some (entry_of t, r1)).
      { apply (parses_entry r Hr). exists (entry_bytes t). split; [by exists t|done]. }
      rewrite E. cbn [ok_or]. apply (Hstep t r1 Ht Hrd1). by exists ts.
Qed.

Lemma loop_ok_table id ts :
  loop_ok id [] ts ↔
  Forall entry_wire ts ∧ Forall (entry_valid id) ts ∧
  ∀ i j t u, i < j → ts !! i = Some t → ts !! j = Some u → compatible t u.
Proof.
  unfold loop_ok. cbn [app]. split.
  - intros [Hw H]. split_and!; [done| |].
    + apply Forall_lookup. intros i t Ht. by destruct (H i t Ht).
    + intros i j t u Hij Ht Hu. destruct (H j u Hu) as [_ Hc].
      rewrite Forall_lookup in Hc. apply (Hc i). by rewrite lookup_take_lt.
  - intros (Hw&Hv&Hp). split; [done|]. intros j u Hu. split.
    + rewrite Forall_lookup in Hv. by eapply Hv.
    + apply Forall_lookup. intros i t Ht. apply lookup_take_Some in Ht as [Ht Hij]. by eapply Hp.
Qed.

(** ** The parser *)

(** The [Hello] handle for a table. *)
Definition hello_of (ack bridge : bool) (id : str) (ts : list TEntry) : Hello :=
  mkHello ack bridge id (length ts) (flat_map entry_bytes ts).

Lemma hello_entries_of ack bridge id ts :
  Forall entry_wire ts → bytes_ok (flat_map entry_bytes ts) →
  hello_entries (hello_of ack bridge id ts) = entry_of <$> ts.
Proof.
  intros Hw Hb. unfold hello_entries, hello_of. cbn [hl_count hl_entries].
  rewrite (entries_from_bytes _ ts []); [by rewrite firstn_all|by apply r_ok_start|done|done|].
  by rewrite app_nil_r.
Qed.

Lemma hello_addresses_of ack bridge id ts :
  Forall entry_wire ts → bytes_ok (flat_map entry_bytes ts) →
  hello_addresses (hello_of ack bridge id ts) = t_addresses id ts.
Proof.
  intros Hw Hb. unfold hello_addresses. rewrite hello_entries_of by done.
  cbn [hello_of hl_id]. clear Hb. unfold t_addresses. induction Hw as [|t ts Ht _ IH]; [done|].
  cbn -[sources_iter]. rewrite sources_iter_of by apply Ht. by rewrite IH.
Qed.

Lemma validate_addresses_iff ack bridge id ts :
  Forall entry_wire ts → bytes_ok (flat_map entry_bytes ts) →
  validate_address_hashes (hello_of ack bridge id ts) = Ok tt ↔
  ∀ a b, a ∈ t_addresses id ts → b ∈ t_addresses id ts → ep_hash a = ep_hash b → a = b.
Proof.
  intros Hw Hb. unfold validate_address_hashes. rewrite hello_addresses_of by done.
  pose proof (address_hashes_iff [] (t_addresses id ts)) as Ha. cbn [app length] in Ha.
  rewrite hash_pairs_all in Ha.
  destruct (address_hashes_ok _ _ _); split; intros Hx; try done.
  - by apply Ha.
  - assert (false = true); [|done]. apply Ha. split; [|done].
    intros a b Hin. by apply elem_of_nil in Hin.
Qed.

(** The parts of [hello_parse] before and after the loop. *)
Definition hello_prefix : ST Reader (Z * list Z * str * Z) :=
  let* fl := r_u8 in
  let* version := r_bytes 2 in
  let* id := r_str in
  let* count := r_u8 in
  ret (fl, version, id, count).

Lemma parses_prefix :
  parses hello_prefix (λ '(fl, version, id, count) b,
    length version = 2 ∧ str_wire id ∧ b = [fl] ++ version ++ str_bytes id ++ [count]).
Proof.
  eapply parses_iff.
  { eapply parses_bind; [apply parses_u8|]. intros fl.
    eapply parses_bind; [apply parses_bytes|]. intros v.
    eapply parses_bind; [apply parses_str|]. intros id.
    eapply parses_bind; [apply parses_u8|]. intros c. apply parses_ret. }
  intros [[[fl v] id] c] b _. cbn. split.
  - intros (fl'&b1&b2&->&(v'&b3&b4&[-> Hl]&(id'&b5&b6&[? ->]&(c'&b7&b8&->&[[= <- <- <- <-] ->]&->)&->)&->)&->).
    done.
  - intros (Hl&Hid&->). exists fl, [fl]. eexists. split; [done|split; [|done]].
    exists v, v. eexists. split; [done|split; [|done]].
    exists id, (str_bytes id). eexists. split; [done|split; [|done]].
    exists c, [c], []. done.
Qed.

Lemma hello_parse_prefix payload h :
  hello_parse payload = Ok h ↔
  ∃ fl id count r,
    hello_prefix (mkReader payload 0)
      = Some ((fl, le_bytes 2 SCHEMA_FINGERPRINT_VERSION, id, count), r) ∧
    Z.land fl (not8 (Z.lor HELLO_ACK HELLO_BRIDGE)) = 0%Z ∧
    valid_namespace id = true ∧
    h = mkHello (has fl HELLO_ACK) (has fl HELLO_BRIDGE) id (Z.to_nat count) (drop (r_pos r) payload) ∧
    (hl_bridge h = true → count = 0%Z) ∧
    ∃ r', check_entries h 0 (Z.to_nat count) r = Ok r' ∧ r_pos r' = length payload ∧
          validate_address_hashes h = Ok tt.
Proof.
  unfold hello_parse, hello_prefix, bind, ret.
  destruct (r_u8 _) as [[fl r0]|]; cbn [ok_or]; [|naive_solver].
  destruct (r_bytes 2 r0) as [[v r1]|]; cbn [ok_or];
    [|by split; [destruct (negb _)|naive_solver]].
  destruct (r_str r1) as [[id r2]|]; cbn [ok_or];
    [|by split; [repeat destruct (negb _)|naive_solver]].
  destruct (r_u8 r2) as [[count r3]|]; cbn [ok_or];
    [|by split; [repeat destruct (negb _)|naive_solver]].
  set (hello := mkHello _ _ _ _ _).
  split.
  - destruct (negb (Z.land fl _ =? 0)%Z) eqn:E1; [done|].
    destruct (negb (bool_decide (v = _))) eqn:E2; [done|].
    destruct (negb (valid_namespace id)) eqn:E3; [done|].
    destruct (hl_bridge hello && _) eqn:E4; [done|].
    destruct (check_entries _ _ _ _) as [r'|] eqn:E5; [|done].
    destruct (negb (_ =? _)) eqn:E6; [done|].
    destruct (validate_address_hashes hello) as [[]|] eqn:E7; [|done]. intros [= <-].
    breflect_in E1; breflect_in E2; breflect_in E3; breflect_in E6. subst v.
    exists fl, id, count, r3. split_and!; try done.
    + intros Hbr. rewrite Hbr in E4. cbn in E4. by breflect_in E4.
    + by exists r'.
  - intros (fl'&id'&c'&r'&[= <- -> <- <- <-]&E1&E3&->&E4&r''&E5&E6&E7).
    fold hello in E4, E5, E7. rewrite E1, E3. cbn [negb Z.eqb].
    rewrite bool_decide_eq_true_2 by done. cbn [negb].
    assert (E4' : hl_bridge hello && negb (count =? 0)%Z = false).
    { destruct (hl_bridge hello); [|done]. by rewrite E4. }
    rewrite E4', E5, E6, Nat.eqb_refl. cbn [negb]. by rewrite E7.
Qed.

Lemma is_u8_length {A} (l : list A) : length l ≤ 255 → is_u8 (Z.of_nat (length l)).
Proof. unfold is_u. lia. Qed.

Lemma str_bytes_ok s : str_wire s → bytes_ok (str_bytes s).
Proof. intros [Hs Hl]. apply bytes_ok_cons; auto using is_u8_length with reiny. Qed.

#[export] Hint Resolve is_u8_length str_bytes_ok sources_bytes_ok : reiny.

Lemma response_bytes_ok r : response_wire r → bytes_ok (response_bytes r).
Proof.
  assert (is_u8 0 ∧ is_u8 1) as [H0 H1] by (unfold is_u; lia).
  unfold response_bytes, response_wire. destruct r as [t|].
  - intros [? ?]. auto with reiny.
  - auto with reiny.
Qed.

#[export] Hint Resolve response_bytes_ok : reiny.

Lemma entry_bytes_ok t : entry_wire t → bytes_ok (entry_bytes t).
Proof.
  intros [Hh Hf Hfb Hsc Hn Hp Hre Hc Hso]. unfold entry_bytes.
  destruct (flag_byte_join _ Hf Hfb) as (_&_&Hf').
  repeat apply bytes_ok_app; auto with reiny.
Qed.

Lemma table_bytes_ok ts : Forall entry_wire ts → bytes_ok (flat_map entry_bytes ts).
Proof.
  induction 1 as [|t ts Ht _ IH]; [constructor|]. cbn [flat_map].
  apply bytes_ok_app; auto using entry_bytes_ok.
Qed.

Lemma hello_bytes_ok ack bridge id ts :
  table_wire id ts → bytes_ok (hello_bytes ack bridge id ts).
Proof.
  intros (Hid&Hn&Hw). unfold hello_bytes. pose proof (hello_flags_bits ack bridge) as [Hf _].
  repeat apply bytes_ok_app; auto using table_bytes_ok with reiny.
Qed.

(** The reader after the prefix of [hello_bytes]. *)
Lemma hello_prefix_reads payload fl id count r :
  bytes_ok payload →
  hello_prefix (mkReader payload 0)
    = Some ((fl, le_bytes 2 SCHEMA_FINGERPRINT_VERSION, id, count), r) ↔
  str_wire id ∧ reads (mkReader payload 0)
    ([fl] ++ le_bytes 2 SCHEMA_FINGERPRINT_VERSION ++ str_bytes id ++ [count]) r.
Proof.
  intros Hb. rewrite (parses_prefix _ (r_ok_start _ Hb)). split.
  - by intros (b&(_&Hid&->)&Hrd).
  - intros [Hid Hrd]. eexists. split; [|exact Hrd]. done.
Qed.

(** The loop, the end-of-payload check and the hash check, from the reader
    after the prefix. *)
Lemma hello_body_iff payload b ack bridge id count r :
  bytes_ok payload → is_u8 count → reads (mkReader payload 0) b r →
  let h := mkHello ack bridge id (Z.to_nat count) (drop (r_pos r) payload) in
  (∃ r', check_entries h 0 (Z.to_nat count) r = Ok r' ∧ r_pos r' = length payload ∧
         validate_address_hashes h = Ok tt) ↔
  ∃ ts, Z.of_nat (length ts) = count ∧ payload = b ++ flat_map entry_bytes ts ∧
        h = hello_of ack bridge id ts ∧ loop_ok id [] ts ∧
        ∀ a b, a ∈ t_addresses id ts → b ∈ t_addresses id ts → ep_hash a = ep_hash b → a = b.
Proof.
  intros Hb Hc Hrd h. pose proof (reads_ok _ _ _ (r_ok_start _ Hb) Hrd) as [Hr _].
  pose proof Hrd as (Hbuf&Hpos&Hrest). cbn in Hbuf, Hpos.
  assert (Hent : hl_entries h = flat_map entry_bytes [] ++ r_rest r)
    by (unfold h, r_rest; cbn; by rewrite Hbuf).
  unfold r_rest at 1 in Hrest. cbn [r_pos r_buf] in Hrest. rewrite drop_0 in Hrest.
  assert (Hbe : bytes_ok (hl_entries h)) by (unfold h; cbn; by apply bytes_ok_drop).
  pose proof (λ r', check_entries_iff h [] (Z.to_nat count) r r' Hbe Hr (Forall_nil_2 _)
    Hent eq_refl) as Hloop. cbn [length] in Hloop. change (hl_id h) with id in Hloop.
  assert (Hh : ∀ ts, length ts = Z.to_nat count → r_rest r = flat_map entry_bytes ts →
               h = hello_of ack bridge id ts).
  { intros ts Hl Hts. unfold h, hello_of. rewrite Hl. f_equal.
    rewrite <- Hts. unfold r_rest. by rewrite Hbuf. }
  split.
  - intros (r'&Hce&Hend&Hv). apply Hloop in Hce as (ts&Hl&Hok&Hrd').
    pose proof Hrd' as (Hbuf'&_&Hrest').
    assert (Hnil : r_rest r' = []).
    { unfold r_rest. rewrite Hbuf', Hbuf, Hend. apply drop_all. }
    rewrite Hnil, app_nil_r in Hrest'. rewrite (Hh ts Hl Hrest') in Hv.
    exists ts. unfold is_u in Hc. split_and!; [lia|by rewrite Hrest, Hrest'|by apply Hh|done|].
    apply (validate_addresses_iff ack bridge id ts); [by destruct Hok| |done].
    apply table_bytes_ok. by destruct Hok.
  - intros (ts&Hl&Hp&Heq&Hok&Hhash).
    assert (Hts : r_rest r = flat_map entry_bytes ts).
    { rewrite Hp in Hrest. by apply app_inv_head in Hrest. }
    exists (mkReader payload (length payload)). split_and!; [|done|].
    + apply Hloop. exists ts. split_and!; [lia|done|].
      split_and!; cbn; [done|by rewrite Hpos, Hp, length_app|].
      rewrite Hts. unfold r_rest. cbn. by rewrite drop_all, app_nil_r.
    + rewrite Heq. apply validate_addresses_iff; [by destruct Hok| |done].
      apply table_bytes_ok. by destruct Hok.
Qed.

(** The parser accepts exactly the serialized tables. *)
Lemma hello_parse_iff payload h :
  bytes_ok payload →
  hello_parse payload = Ok h ↔
  ∃ ack bridge id ts,
    table_ok bridge id ts ∧ table_wire id ts ∧
    payload = hello_bytes ack bridge id ts ∧ h = hello_of ack bridge id ts.
Proof.
  intros Hb. rewrite hello_parse_prefix. split.
  - intros (fl&id&count&r&Hpre&Hfl&Hid&->&Hbr&Hbody).
    apply hello_prefix_reads in Hpre as [Hidw Hrd]; [|done].
    destruct (reads_ok _ _ _ (r_ok_start _ Hb) Hrd) as [_ Hbok].
    unfold bytes_ok in Hbok. rewrite !Forall_app, !Forall_cons in Hbok.
    destruct Hbok as ([Hfl8 _]&_&_&[Hc _]).
    apply (hello_body_iff _ _ _ _ _ _ _ Hb Hc Hrd) in Hbody
      as (ts&Hl&Hp&Heq&Hok&Hhash).
    apply loop_ok_table in Hok as (Hw&Hv&Hpairs).
    exists (has fl HELLO_ACK), (has fl HELLO_BRIDGE), id, ts.
    unfold is_u in Hc. split_and!; [constructor|..]; try done.
    + intros Hb'. apply Hbr in Hb'. destruct ts; [done|]. cbn in Hl. lia.
    + split_and!; [done|lia|done].
    + rewrite Hp. unfold hello_bytes. rewrite <- hello_flags_byte, Hl by done.
      by rewrite <- !app_assoc.
  - intros (ack&bridge&id&ts&[Hid Hbr Hv Hpairs Hhash]&(Hidw&Hn&Hw)&->&->).
    destruct (hello_flags_bits ack bridge) as (Hf8&Hfz&Ha&Hbrg).
    set (pre := [hello_flags ack bridge] ++ le_bytes 2 SCHEMA_FINGERPRINT_VERSION
                  ++ str_bytes id ++ [Z.of_nat (length ts)]).
    set (payload := hello_bytes ack bridge id ts) in *.
    assert (Hp : payload = pre ++ flat_map entry_bytes ts).
    { unfold payload, pre, hello_bytes. by rewrite <- !app_assoc. }
    assert (Hrd : reads (mkReader payload 0) pre (mkReader payload (length pre))).
    { split_and!; [done|done|]. unfold r_rest. cbn [r_pos r_buf]. rewrite drop_0.
      symmetry. rewrite Hp at 1. by rewrite drop_app_length. }
    exists (hello_flags ack bridge), id, (Z.of_nat (length ts)), (mkReader payload (length pre)).
    rewrite Ha, Hbrg, Nat2Z.id.
    assert (Heq : hello_of ack bridge id ts
                  = mkHello ack bridge id (length ts) (drop (length pre) payload)).
    { unfold hello_of. rewrite Hp. by rewrite drop_app_length. }
    split_and!; [by apply hello_prefix_reads|done|done|done| |].
    + intros Hb'. by rewrite Hbr.
    + assert (Hc : is_u8 (Z.of_nat (length ts))) by (unfold is_u; lia).
      pose proof (hello_body_iff payload pre ack bridge id _ _ Hb Hc Hrd) as Hbody.
      cbn zeta in Hbody. rewrite Nat2Z.id in Hbody. cbn [r_pos] in Hbody.
      rewrite Heq. apply Hbody. exists ts. split_and!; try done.
      by apply loop_ok_table.
Qed.

Lemma t_of_entry_of t : entry_wire t → t_of (entry_of t) = t.
Proof.
  intros Ht. unfold t_of, entry_of. cbn -[sources_iter]. rewrite sources_iter_of by apply Ht.
  by destruct t.
Qed.

Lemma t_of_table ts : Forall entry_wire ts → t_of <$> (entry_of <$> ts) = ts.
Proof. induction 1 as [|t ts Ht _ IH]; [done|]. cbn. by rewrite t_of_entry_of, IH. Qed.

(** The parser decides [table_ok]. *)
Lemma hello_parse_table ack bridge id ts h :
  table_wire id ts → hello_parse (hello_bytes ack bridge id ts) = Ok h → table_ok bridge id ts.
Proof.
  intros Hw Hp. pose proof (hello_bytes_ok ack bridge id ts Hw) as Hb.
  apply hello_parse_iff in Hp as (ack'&bridge'&id'&ts'&Hok&Hw'&Heq&->); [|done].
  (* the prefix of the bytes determines the flags, the id and the count *)
  assert (H : ∀ a b i t, table_wire i t → hello_bytes a b i t = hello_bytes ack bridge id ts →
    hello_prefix (mkReader (hello_bytes ack bridge id ts) 0)
    = Some ((hello_flags a b, le_bytes 2 SCHEMA_FINGERPRINT_VERSION, i, Z.of_nat (length t)),
            mkReader (hello_bytes ack bridge id ts) (4 + length (str_bytes i)))).
  { intros a b i t (Hi&_&_) E. apply hello_prefix_reads; [done|]. split; [done|].
    split_and!; [done|by rewrite !length_app, length_le_bytes; cbn; lia|].
    unfold r_rest. cbn [r_pos r_buf]. rewrite drop_0, <- E. unfold hello_bytes.
    rewrite !app_assoc. symmetry. rewrite drop_app_length'; [done|].
    rewrite !length_app, length_le_bytes. cbn. lia. }
  pose proof (H _ _ _ _ Hw eq_refl) as H1. rewrite (H _ _ _ _ Hw' (eq_sym Heq)) in H1.
  injection H1 as Hfl Hid Hn _. subst id'.
  assert (Hbr : bridge' = bridge).
  { destruct (hello_flags_bits ack bridge) as (_&_&_&<-).
    destruct (hello_flags_bits ack' bridge') as (_&_&_&<-). by rewrite Hfl. }
  subst bridge'. replace ts with ts'; [done|].
  assert (Ent : flat_map entry_bytes ts' = flat_map entry_bytes ts).
  { unfold hello_bytes in Heq. rewrite Hfl, Hn in Heq. by repeat apply app_inv_head in Heq. }
  pose proof Hw as (_&_&Hf). pose proof Hw' as (_&_&Hf').
  rewrite <- (t_of_table ts), <- (t_of_table ts') by done. f_equal.
  rewrite <- (hello_entries_of ack bridge id ts), <- (hello_entries_of ack bridge id ts')
    by auto using table_bytes_ok.
  f_equal. unfold hello_of. rewrite Ent. f_equal. lia.
Qed.

(** ** Concrete tables, for the witnesses *)

Definition demo_id : str := bytes_of "rover/arm".
Definition demo_pub : TEntry :=
  mkTEntry (endpoint_hash demo_id (bytes_of "pose")) flags.PUB 7 (bytes_of "geo.Pose")
           (bytes_of "pose") None [].
Definition demo_sub : TEntry :=
  mkTEntry (endpoint_hash demo_id (bytes_of "goal")) flags.SUB 9 (bytes_of "geo.Goal")
           (bytes_of "goal") None [mkEndpointRef (bytes_of "base") (bytes_of "goal")].
Definition demo_table : list TEntry := [demo_pub; demo_sub].

Lemma demo_table_wire : table_wire demo_id demo_table.
Proof.
  split_and!; [split; [vm_compute; reflexivity|vm_compute; lia]|vm_compute; lia|].
  repeat apply Forall_cons_2; [| |apply Forall_nil_2];
    (constructor; try (vm_compute; split; congruence); try (vm_compute; lia); try done);
    try (split; [vm_compute; reflexivity|vm_compute; lia]).
  apply Forall_cons_2; [|apply Forall_nil_2].
  split; (split; [vm_compute; reflexivity|vm_compute; lia]).
Qed.

Lemma demo_table_parses :
  hello_parse (hello_bytes true false demo_id demo_table)
  = Ok (hello_of true false demo_id demo_table).
Proof. vm_compute. reflexivity. Qed.

(** C2: [Hello::parse] accepts a payload exactly when it is the serialization of
    a table that satisfies the contract ([table_ok]: valid names, hashes,
    directions, sources and no conflicting entries).  Every accepted payload
    therefore is a valid table and no valid table is refused; the handle carries
    the table's flags and id, and its entries and addresses, which are read again
    from the bytes, are those of the table. *)
Theorem hello_parse_exact payload :
  bytes_ok payload →
  (∀ h, hello_parse payload = Ok h →
     ∃ ts, table_ok (hl_bridge h) (hl_id h) ts ∧ table_wire (hl_id h) ts ∧
       payload = hello_bytes (hl_ack h) (hl_bridge h) (hl_id h) ts ∧
       hello_entries h = entry_of <$> ts ∧ hello_addresses h = t_addresses (hl_id h) ts) ∧
  (∀ ack bridge id ts, table_ok bridge id ts → table_wire id ts →
     payload = hello_bytes ack bridge id ts → hello_parse payload = Ok (hello_of ack bridge id ts)).
Proof.
  intros Hb. split.
  - intros h (ack&bridge&id&ts&Hok&Hw&->&->)%hello_parse_iff; [|done]. pose proof Hw as (_&_&Hf).
    exists ts. cbn [hello_of hl_ack hl_bridge hl_id].
    split_and!; auto using hello_entries_of, hello_addresses_of, table_bytes_ok.
  - intros ack bridge id ts Hok Hw ->. apply hello_parse_iff; [done|]. by exists ack, bridge, id, ts.
Qed.

Lemma hello_parse_exact_witness :
  ∃ ts, table_ok false demo_id ts ∧
    hello_bytes true false demo_id demo_table = hello_bytes true false demo_id ts.
Proof.
  destruct (hello_parse_exact (hello_bytes true false demo_id demo_table)) as [H _].
  - apply hello_bytes_ok, demo_table_wire.
  - destruct (H _ demo_table_parses) as (ts&Hok&_&Heq&_). exists ts. split; [exact Hok|exact Heq].
Defined.
