(* ===== verification/HelloWrite.v ===== *)
(** * HelloWrite: the Hello writer and its round trip

    [hello_write] either fills the front of the buffer with [hello_bytes] of the
    table or returns [TooLarge]; it never panics, whatever the buffer's length.
    Composed with [hello_parse], a table that satisfies the contract survives. *)

From Stdlib Require Import ZArith Lia.
From S2P Require Import Prelude Text Codec Core Wire Hello HelloSpec HelloParse.

(** ** Writers as encoders *)

(** The writer [w] after [b] was written. *)
Definition w_after (w : Writer) (b : list Z) : Writer :=
  mkWriter (take (w_pos w) (w_out w) ++ b ++ drop (w_pos w + length b) (w_out w))
           (w_pos w + length b).

Definition w_ok (w : Writer) : Prop := w_pos w ≤ length (w_out w).

(** [m] appends [b] and returns [a] if [o] is [Some (a, b)] and [b] fits; in every
    other case it returns [TooLarge] and leaves the length of the buffer. *)
Definition writes {A} (m : ST Writer (result A WireError)) (o : option (A * list Z)) : Prop :=
  ∀ w, w_ok w →
    (∀ a b, o = Some (a, b) → w_pos w + length b ≤ length (w_out w) →
            m w = Some (Ok a, w_after w b)) ∧
    ((∀ a b, o = Some (a, b) → length (w_out w) < w_pos w + length b) →
     ∃ w', m w = Some (Err WTooLarge, w') ∧ length (w_out w') = length (w_out w)).

Definition enc_bind {A B} (o : option (A * list Z)) (f : A → option (B * list Z)) :
  option (B * list Z) :=
  match o with
  | Some (a, b) => match f a with Some (c, b') => Some (c, b ++ b') | None => None end
  | None => None
  end.

Lemma length_w_after w b :
  w_pos w + length b ≤ length (w_out w) → length (w_out (w_after w b)) = length (w_out w).
Proof. intros. unfold w_after. cbn. len. Qed.

Lemma w_after_app w b c :
  w_pos w + length b + length c ≤ length (w_out w) →
  w_after (w_after w b) c = w_after w (b ++ c).
Proof.
  intros H. unfold w_after. cbn. rewrite length_app. f_equal; [|lia].
  rewrite take_app_ge by len. rewrite length_take, Nat.min_l by lia.
  replace (w_pos w + length b - w_pos w) with (length b) by lia.
  rewrite take_app_length, drop_app_ge by len. rewrite length_take, Nat.min_l by lia.
  rewrite drop_app_ge by lia. rewrite drop_drop, <- !app_assoc.
  do 4 f_equal. lia.
Qed.

Section writes_rules.
Context {A B : Type}.

Lemma writes_ret (a : A) : writes (ret (Ok a)) (Some (a, [])).
Proof.
  intros w Hw. split.
  - intros a' b [= <- <-] _. unfold ret. do 2 f_equal. unfold w_after.
    destruct w as [out pos]. cbn. rewrite Nat.add_0_r. by rewrite take_drop.
  - intros H. specialize (H _ _ eq_refl). unfold w_ok in Hw. cbn in H. lia.
Qed.

Lemma writes_err : writes (A := A) (ret (Err WTooLarge)) None.
Proof. intros w _. split; [done|]. intros _. by exists w. Qed.

Lemma writes_bind (m : ST Writer (result A WireError)) (k : A → ST Writer (result B WireError)) o f :
  writes m o → (∀ a b, o = Some (a, b) → writes (k a) (f a)) → writes (bind_try m k) (enc_bind o f).
Proof.
  intros Hm Hk w Hw. destruct (Hm w Hw) as [Hm1 Hm2]. unfold bind_try, bind.
  assert (Hfail : (∀ a b, o = Some (a, b) → length (w_out w) < w_pos w + length b) →
    ∃ w', match m w with
          | Some (Ok a, s') => k a s' | Some (Err e, s') => ret (Err e) s' | None => None end
          = Some (Err WTooLarge, w') ∧ length (w_out w') = length (w_out w)).
  { intros H. destruct (Hm2 H) as (w'&->&?). by exists w'. }
  destruct o as [[a b]|]; cbn [enc_bind].
  2:{ split; [done|]. intros _. destruct Hfail as (w'&E&?); [done|]. exists w'.
      by destruct (m w) as [[[] ?]|]. }
  destruct (decide (w_pos w + length b ≤ length (w_out w))) as [Hfit|Hno].
  - rewrite (Hm1 a b eq_refl Hfit).
    assert (Hw' : w_ok (w_after w b)) by (unfold w_ok; rewrite length_w_after by done; cbn; lia).
    destruct (Hk a b eq_refl _ Hw') as [Hk1 Hk2]. rewrite length_w_after in Hk1, Hk2 by done.
    cbn [w_pos w_after] in Hk1, Hk2. split.
    + intros c bc E Hlen. destruct (f a) as [[c' b']|] eqn:Ef; [|done]. injection E as <- <-.
      rewrite length_app in Hlen. rewrite (Hk1 c' b' eq_refl) by lia.
      rewrite w_after_app by lia. done.
    + intros Hno. apply Hk2. intros c b' Ec. rewrite Ec in Hno.
      specialize (Hno _ _ eq_refl). rewrite length_app in Hno. lia.
  - split.
    + intros c bc E Hlen. destruct (f a) as [[c' b']|]; [|done]. injection E as <- <-.
      rewrite length_app in Hlen. lia.
    + intros _. destruct Hfail as (w'&E&?); [intros ? ? [= <- <-]; lia|]. exists w'.
      by destruct (m w) as [[[] ?]|].
Qed.

Lemma writes_ok_or (o : option A) :
  writes (ret (ok_or o WTooLarge)) (match o with Some a => Some (a, []) | None => None end).
Proof. destruct o; [apply writes_ret|apply writes_err]. Qed.
End writes_rules.

Lemma writes_bytes b : writes (w_bytes b) (Some (tt, b)).
Proof.
  intros w Hw. unfold w_bytes. split.
  - intros [] b' [= <-] Hfit. destruct (_ <? _) eqn:E; breflect_in E; [lia|].
    by rewrite copy_at_eq.
  - intros H. specialize (H _ _ eq_refl). destruct (_ <? _) eqn:E; breflect_in E; [|lia].
    by exists w.
Qed.

(** ** The encoder each writer implements *)

Definition name_fits (s : str) : bool := length s <=? 255.

Definition str_enc (s : str) : option (unit * list Z) :=
  if name_fits s then Some (tt, str_bytes s) else None.

(** What the length bytes of an entry can hold. *)
Definition entry_encodable (t : TEntry) : bool :=
  name_fits (t_port t) && name_fits (t_name t)
  && match t_response t with Some r => name_fits (ht_name r) | None => true end
  && (length (t_sources t) <=? 255)
  && forallb (λ s, name_fits (ep_namespace s) && name_fits (ep_port s)) (t_sources t).

Definition table_encodable (id : str) (ts : list TEntry) : bool :=
  name_fits id && (length ts <=? 255) && forallb entry_encodable ts.

Lemma writes_eq {A} (m : ST Writer (result A WireError)) o o' :
  writes m o → o = o' → writes m o'.
Proof. by intros ? <-. Qed.

Lemma writes_str s : writes (w_str s) (str_enc s).
Proof.
  eapply writes_eq.
  { apply writes_bind; [apply writes_ok_or|]. intros len ? _.
    apply writes_bind; [apply writes_bytes|]. intros ? ? _. apply writes_bytes. }
  unfold u8_try_from, str_enc, name_fits. by destruct (length s <=? 255).
Qed.

Lemma writes_sources l :
  writes (w_sources l)
    (if forallb (λ s, name_fits (ep_namespace s) && name_fits (ep_port s)) l
     then Some (tt, sources_bytes l) else None).
Proof.
  induction l as [|s l IH]; cbn [w_sources]; [apply writes_ret|].
  eapply writes_eq.
  { apply writes_bind; [apply writes_str|]. intros ? ? _.
    apply writes_bind; [apply writes_str|]. intros ? ? _. apply IH. }
  unfold str_enc. cbn [forallb sources_bytes flat_map].
  destruct (name_fits (ep_namespace s)); [|done].
  destruct (name_fits (ep_port s)); [|done]. cbn [enc_bind andb].
  destruct (forallb _ l); [|done]. unfold endpoint_bytes, sources_bytes.
  by rewrite <- app_assoc.
Qed.

Lemma writes_response r :
  writes (w_response r)
    (if match r with Some t => name_fits (ht_name t) | None => true end
     then Some (tt, tl (response_bytes r)) else None).
Proof.
  destruct r as [t|]; cbn [w_response]; [|apply writes_ret].
  eapply writes_eq.
  { apply writes_bind; [apply writes_str|]. intros ? ? _. apply writes_bytes. }
  unfold str_enc. by destruct (name_fits (ht_name t)).
Qed.

Lemma writes_entry e :
  writes (w_entry e) (if entry_encodable (t_of e) then Some (tt, entry_bytes (t_of e)) else None).
Proof.
  eapply writes_eq.
  { apply writes_bind; [apply writes_bytes|]. intros ? ? _.
    apply writes_bind; [apply writes_bytes|]. intros ? ? _.
    apply writes_bind; [apply writes_str|]. intros ? ? _.
    apply writes_bind; [apply writes_str|]. intros ? ? _.
    apply writes_bind; [apply writes_bytes|]. intros ? ? _.
    apply writes_bind; [apply writes_bytes|]. intros ? ? _.
    apply writes_bind; [apply writes_response|]. intros ? ? _.
    apply writes_bind; [apply writes_ok_or|]. intros n ? _.
    apply writes_bind; [apply writes_bytes|]. intros ? ? _. apply writes_sources. }
  unfold entry_encodable, str_enc, u8_try_from, entry_bytes.
  cbn [t_of t_hash t_flags t_schema t_name t_port t_response t_sources].
  destruct (name_fits (he_port e)); [|done].
  destruct (name_fits (he_name e)); [|done]. cbn [andb enc_bind].
  destruct (match he_response e with Some _ => _ | None => _ end) eqn:Er; [|done].
  cbn [andb enc_bind].
  destruct (length (sources_iter (he_sources e)) <=? 255); [|done].
  cbn [andb enc_bind]. destruct (forallb _ _); [|done].
  do 2 f_equal. destruct (he_response e); cbn -[le_bytes]; rewrite <- ?app_assoc; done.
Qed.

Lemma writes_entries es c :
  (0 ≤ c < 256)%Z →
  writes (w_entries es c)
    (if forallb entry_encodable (t_of <$> es) && (c + Z.of_nat (length es) <? 256)%Z
     then Some ((c + Z.of_nat (length es))%Z, flat_map entry_bytes (t_of <$> es)) else None).
Proof.
  revert c. induction es as [|e es IH]; intros c Hc; cbn [w_entries].
  - eapply writes_eq; [apply writes_ret|]. cbn. rewrite Z.add_0_r.
    destruct (c <? 256)%Z eqn:E; breflect_in E; [done|lia].
  - eapply writes_eq.
    { apply writes_bind; [apply writes_entry|]. intros ? ? _.
      apply writes_bind; [apply writes_ok_or|]. intros c' b' Hc'. apply IH.
      unfold checked_add in Hc'.
      destruct (c + 1 <? 2 ^ 8)%Z eqn:E; [|done]. injection Hc' as <- _. breflect_in E. lia. }
    rewrite fmap_cons. cbn [forallb flat_map]. unfold checked_add.
    destruct (entry_encodable (t_of e)); [|done]. cbn [andb enc_bind].
    destruct (c + 1 <? 2 ^ 8)%Z eqn:E; breflect_in E; cbn [enc_bind app].
    + replace (c + 1 + Z.of_nat (length es))%Z with (c + Z.of_nat (length (e :: es)))%Z
        by (cbn [length]; lia).
      by destruct (forallb _ _ && _).
    + cbn [length]. destruct (c + Z.of_nat (S (length es)) <? 256)%Z eqn:E2; breflect_in E2; [lia|].
      by rewrite andb_false_r.
Qed.

(** ** The whole table *)

(** [hello_bytes] up to the count byte *)
Definition hello_front (ack bridge : bool) (id : str) : list Z :=
  [hello_flags ack bridge] ++ le_bytes 2 SCHEMA_FINGERPRINT_VERSION ++ str_bytes id.

Lemma hello_bytes_front ack bridge id ts :
  hello_bytes ack bridge id ts
  = hello_front ack bridge id ++ [Z.of_nat (length ts)] ++ flat_map entry_bytes ts.
Proof. unfold hello_bytes, hello_front. by rewrite <- !app_assoc. Qed.

Definition w_front (ack bridge : bool) (id : str) : ST Writer (result unit WireError) :=
  try* _ := w_u8 (hello_flags ack bridge) in
  try* _ := w_bytes (le_bytes 2 SCHEMA_FINGERPRINT_VERSION) in
  w_str id.

Definition w_body (es : list HelloEntry) : ST Writer (result Z WireError) :=
  try* _ := w_u8 0 in w_entries es 0.

Lemma writes_front ack bridge id :
  writes (w_front ack bridge id)
    (if name_fits id then Some (tt, hello_front ack bridge id) else None).
Proof.
  eapply writes_eq.
  { apply writes_bind; [apply writes_bytes|]. intros ? ? _.
    apply writes_bind; [apply writes_bytes|]. intros ? ? _. apply writes_str. }
  unfold str_enc, hello_front. by destruct (name_fits id).
Qed.

Lemma writes_body es :
  writes (w_body es)
    (if forallb entry_encodable (t_of <$> es) && (length es <=? 255)
     then Some (Z.of_nat (length es), 0%Z :: flat_map entry_bytes (t_of <$> es)) else None).
Proof.
  eapply writes_eq.
  { apply writes_bind; [apply writes_bytes|]. intros ? ? _. by apply writes_entries. }
  cbn [enc_bind]. rewrite Z.add_0_l.
  replace (Z.of_nat (length es) <? 256)%Z with (length es <=? 255).
  - by destruct (_ && _).
  - apply eq_bool_prop_intro. rewrite !Is_true_true, Nat.leb_le, Z.ltb_lt. lia.
Qed.

(** The writer in terms of its two parts. *)
Lemma hello_write_split ack bridge id es out :
  hello_write ack bridge id es out =
  match w_front ack bridge id (mkWriter out 0) with
  | Some (Ok _, w) =>
      match w_body es w with
      | Some (Ok count, w') =>
          out' ← copy_at (w_pos w) [count] (w_out w'); Some (Ok (w_pos w'), out')
      | Some (Err e, w') => Some (Err e, w_out w')
      | None => None
      end
  | Some (Err e, w) => Some (Err e, w_out w)
  | None => None
  end.
Proof.
  unfold hello_write, hello_write_to, w_front, w_body, bind_try, bind, gets, ret.
  destruct (w_u8 _ _) as [[[[]|?] w1]|]; [|done..].
  destruct (w_bytes _ w1) as [[[[]|?] w2]|]; [|done..].
  destruct (w_str id w2) as [[[[]|?] w3]|]; [|done..].
  destruct (w_u8 0 w3) as [[[[]|?] w4]|]; [|done..].
  destruct (w_entries es 0 w4) as [[[c|?] w5]|]; [|done..].
  unfold w_set. by destruct (copy_at _ _ _).
Qed.

Lemma hello_write_fits ack bridge id es out :
  let b := hello_bytes ack bridge id (t_of <$> es) in
  table_encodable id (t_of <$> es) = true → length b ≤ length out →
  hello_write ack bridge id es out = Some (Ok (length b), b ++ drop (length b) out).
Proof.
  intros b Henc Hlen. unfold table_encodable in Henc. breflect_in Henc.
  destruct Henc as [[Hid Hn] Hes]. rewrite length_fmap in Hn.
  unfold b in *. rewrite hello_bytes_front, length_fmap in *.
  set (f := hello_front ack bridge id) in *. set (d := flat_map entry_bytes _) in *.
  rewrite !length_app in Hlen. cbn [length] in Hlen.
  rewrite hello_write_split.
  destruct (writes_front ack bridge id (mkWriter out 0)) as [Hf _]; [unfold w_ok; cbn; lia|].
  rewrite Hid in Hf. rewrite (Hf _ _ eq_refl) by (cbn [w_pos w_out]; fold f; lia). fold f. clear Hf.
  set (w1 := w_after _ f).
  assert (Hw1 : length (w_out w1) = length out ∧ w_pos w1 = length f)
    by (unfold w1; rewrite length_w_after by (cbn [w_pos w_out]; lia); done). destruct Hw1 as [Hl1 Hp1].
  destruct (writes_body es w1) as [Hb _]; [unfold w_ok; lia|].
  rewrite Hes, (proj2 (Nat.leb_le _ _) Hn) in Hb. cbn [andb] in Hb.
  rewrite (Hb _ _ eq_refl) by (cbn [length]; fold d; lia). clear Hb. fold d.
  unfold w1. rewrite w_after_app by (cbn [w_pos w_out length]; lia).
  assert (Hout : w_out (w_after (mkWriter out 0) (f ++ 0%Z :: d))
                 = f ++ [0%Z] ++ d ++ drop (length f + S (length d)) out).
  { unfold w_after. cbn [w_out w_pos firstn app]. rewrite length_app. cbn [length].
    rewrite <- app_assoc. done. }
  rewrite Hout. fold w1. rewrite Hp1.
  rewrite (copy_at_app f [0%Z]) by done.
  cbn [mbind option_bind w_after w_pos]. rewrite !length_app. cbn [length]. by rewrite <- !app_assoc.
Qed.

Lemma hello_write_too_large ack bridge id es out :
  (table_encodable id (t_of <$> es) = true →
   length out < length (hello_bytes ack bridge id (t_of <$> es))) →
  ∃ out', hello_write ack bridge id es out = Some (Err WTooLarge, out') ∧
          length out' = length out.
Proof.
  intros H. rewrite hello_write_split. unfold table_encodable in H.
  rewrite hello_bytes_front, !length_app, length_fmap in H. cbn [length] in H.
  set (f := hello_front ack bridge id) in *. set (d := flat_map entry_bytes _) in *.
  destruct (writes_front ack bridge id (mkWriter out 0)) as [Hf1 Hf2]; [unfold w_ok; cbn; lia|].
  destruct (decide (name_fits id = true ∧ length f ≤ length out)) as [[Hid Hfit]|Hno].
  - rewrite Hid in Hf1, H. rewrite (Hf1 _ _ eq_refl) by done. fold f. clear Hf1 Hf2.
    set (w1 := w_after _ f).
    assert (Hl1 : length (w_out w1) = length out) by (unfold w1; by rewrite length_w_after).
    destruct (writes_body es w1) as [_ Hb]; [unfold w_ok; rewrite Hl1; done|].
    destruct Hb as (w'&->&Hl); [|exists (w_out w'); by rewrite Hl].
    intros a b E. rewrite andb_comm in E. cbn [andb] in H.
    destruct (_ && _); [|done]. injection E as <- <-. specialize (H eq_refl).
    rewrite Hl1. cbn [w1 w_after w_pos length]. fold d. lia.
  - destruct Hf2 as (w'&->&Hl); [|by exists (w_out w')].
    intros a b E. destruct (name_fits id); [|done]. injection E as <- <-. cbn [w_pos w_out]. fold f.
    destruct (decide (length f ≤ length out)); [tauto|lia].
Qed.

(** ** A writer of bytes leaves bytes *)

Definition keeps_bytes {A} (m : ST Writer A) : Prop :=
  ∀ w a w', bytes_ok (w_out w) → m w = Some (a, w') → bytes_ok (w_out w').

(** What Rust's types say of an entry *)
Record entry_typed (e : HelloEntry) : Prop := {
  ey_flags : is_u8 (he_flags e);
  ey_name : bytes_ok (he_name e);
  ey_port : bytes_ok (he_port e);
  ey_response : match he_response e with Some r => bytes_ok (ht_name r) | None => True end;
  ey_sources : Forall (λ a, bytes_ok (ep_namespace a) ∧ bytes_ok (ep_port a))
                      (sources_iter (he_sources e));
}.

Lemma keeps_ret {A} (a : A) : keeps_bytes (ret a).
Proof. by intros w ? ? ? [= <- <-]. Qed.

Lemma keeps_bind {A B} (m : ST Writer A) (k : A → ST Writer B) :
  keeps_bytes m → (∀ a, keeps_bytes (k a)) → keeps_bytes (bind m k).
Proof.
  intros Hm Hk w b w' Hw. rewrite bind_Some. intros (a&w1&E&Ek). eapply Hk; [|exact Ek]. by eapply Hm.
Qed.

Lemma keeps_try {A B} (m : ST Writer (result A WireError)) (k : A → ST Writer (result B WireError)) :
  keeps_bytes m → (∀ a, keeps_bytes (k a)) → keeps_bytes (bind_try m k).
Proof.
  intros Hm Hk. apply keeps_bind; [done|]. intros [a|e]; [done|].
  by intros w ? ? ? [= <- <-].
Qed.

Lemma keeps_w_bytes b : bytes_ok b → keeps_bytes (w_bytes b).
Proof.
  intros Hb w a w' Hw. unfold w_bytes. destruct (_ <? _); [by intros [= <- <-]|].
  destruct (copy_at _ _ _) as [out|] eqn:E; [|done]. cbn. intros [= <- <-]. cbn.
  apply copy_at_Some in E as [_ ->]. auto with reiny.
Qed.

Lemma keeps_u8_try_from {B} n (k : Z → ST Writer (result B WireError)) :
  (∀ v, is_u8 v → keeps_bytes (k v)) →
  keeps_bytes (bind_try (ret (ok_or (u8_try_from n) WTooLarge)) k).
Proof.
  intros Hk. unfold u8_try_from. destruct (n <=? 255) eqn:E; breflect_in E; cbn [ok_or].
  - apply (Hk (Z.of_nat n)). unfold is_u. lia.
  - apply (keeps_ret (Err WTooLarge : result B WireError)).
Qed.

Lemma keeps_w_str s : bytes_ok s → keeps_bytes (w_str s).
Proof.
  intros Hs. apply keeps_u8_try_from. intros len Hl.
  apply keeps_try; [apply keeps_w_bytes; auto with reiny|]. intros _. by apply keeps_w_bytes.
Qed.

Lemma keeps_w_sources l :
  Forall (λ a, bytes_ok (ep_namespace a) ∧ bytes_ok (ep_port a)) l → keeps_bytes (w_sources l).
Proof.
  induction 1 as [|s l [Hn Hp] _ IH]; cbn [w_sources]; [apply keeps_ret|].
  apply keeps_try; [by apply keeps_w_str|]. intros _.
  apply keeps_try; [by apply keeps_w_str|]. by intros _.
Qed.

Lemma keeps_w_entry e : entry_typed e → keeps_bytes (w_entry e).
Proof.
  intros [Hf Hn Hp Hr Hs].
  assert (Hflag : is_u8 (Z.lor (he_flags e) flags.SCHEMA_FINGERPRINT)).
  { apply (byte_forall (λ f, bool_decide (is_u8 (Z.lor f flags.SCHEMA_FINGERPRINT)))) in Hf;
      [by apply bool_decide_eq_true in Hf|vm_compute; reflexivity]. }
  apply keeps_try; [apply keeps_w_bytes; auto with reiny|]. intros _.
  apply keeps_try; [apply keeps_w_bytes; auto with reiny|]. intros _.
  apply keeps_try; [by apply keeps_w_str|]. intros _.
  apply keeps_try; [by apply keeps_w_str|]. intros _.
  apply keeps_try; [apply keeps_w_bytes; auto with reiny|]. intros _.
  apply keeps_try; [apply keeps_w_bytes|].
  { destruct (he_response e); (apply bytes_ok_cons; [unfold is_u; lia|apply bytes_ok_nil]). }
  intros _. apply keeps_try.
  { destruct (he_response e); cbn [w_response]; [|apply keeps_ret].
    apply keeps_try; [by apply keeps_w_str|]. intros _. apply keeps_w_bytes; auto with reiny. }
  intros _. apply keeps_u8_try_from. intros n Hcount.
  apply keeps_try; [apply keeps_w_bytes; auto with reiny|]. intros _. by apply keeps_w_sources.
Qed.

Lemma keeps_w_entries es c : Forall entry_typed es → keeps_bytes (w_entries es c).
Proof.
  intros Hes. revert c. induction Hes as [|e es He _ IH]; intros c; cbn [w_entries]; [apply keeps_ret|].
  apply keeps_try; [by apply keeps_w_entry|]. intros _.
  apply keeps_try; [apply keeps_ret|]. intros c'. apply IH.
Qed.

Lemma keeps_front ack bridge id : bytes_ok id → keeps_bytes (w_front ack bridge id).
Proof.
  intros Hid. destruct (hello_flags_bits ack bridge) as [Hf _].
  apply keeps_try; [apply keeps_w_bytes; auto with reiny|]. intros _.
  apply keeps_try; [apply keeps_w_bytes; auto with reiny|]. intros _. by apply keeps_w_str.
Qed.

Lemma keeps_body es : Forall entry_typed es → keeps_bytes (w_body es).
Proof.
  intros Hes. apply keeps_try; [apply keeps_w_bytes|intros _; by apply keeps_w_entries].
  apply bytes_ok_cons; [unfold is_u; lia|apply bytes_ok_nil].
Qed.

(** The failing writer leaves bytes, too. *)
Lemma hello_write_bytes ack bridge id es out out' e :
  bytes_ok id → Forall entry_typed es → bytes_ok out →
  hello_write ack bridge id es out = Some (Err e, out') → bytes_ok out'.
Proof.
  intros Hid Hes Ho. rewrite hello_write_split.
  destruct (w_front ack bridge id _) as [[[[]|e1] w1]|] eqn:E1; [| |done].
  - apply (keeps_front ack bridge id Hid) in E1; [|done].
    destruct (w_body es w1) as [[[c|e2] w2]|] eqn:E2; [| |done].
    + by destruct (copy_at _ _ _).
    + intros [= <- <-]. by eapply (keeps_body es Hes); [exact E1|].
  - intros [= <- <-]. by eapply (keeps_front ack bridge id Hid); [|exact E1].
Qed.

Lemma name_fits_wire s : str_wire s → name_fits s = true.
Proof. intros [_ H]. by apply Nat.leb_le. Qed.

Lemma entry_wire_encodable t : entry_wire t → entry_encodable t = true.
Proof.
  intros [_ _ _ _ Hn Hp Hr Hc Hs]. unfold entry_encodable. rewrite !andb_true_iff.
  split_and!; auto using name_fits_wire; [|by apply Nat.leb_le|].
  - destruct (t_response t); [|done]. by apply name_fits_wire, Hr.
  - rewrite forallb_Forall. eapply Forall_impl; [exact Hs|].
    intros s [? ?]. by rewrite !name_fits_wire.
Qed.

Lemma table_wire_encodable id ts : table_wire id ts → table_encodable id ts = true.
Proof.
  intros (Hid&Hn&Hw). unfold table_encodable. rewrite !andb_true_iff.
  split_and!; [by apply name_fits_wire|by apply Nat.leb_le|].
  rewrite forallb_Forall. by eapply Forall_impl; [exact Hw|apply entry_wire_encodable].
Qed.

(** [Hello::write] returns on every buffer, whatever its length (no index is
    ever out of range): it writes exactly the serialized table and its length and
    leaves the rest of the buffer, when the table is encodable and fits, and
    otherwise returns [TooLarge]. *)
Theorem hello_write_total ack bridge id es out :
  let b := hello_bytes ack bridge id (t_of <$> es) in
  ∃ r out', hello_write ack bridge id es out = Some (r, out') ∧
    length out' = length out ∧
    match r with
    | Ok n => table_encodable id (t_of <$> es) = true ∧ n = length b ∧
              out' = b ++ drop n out
    | Err e => e = WTooLarge ∧
               (table_encodable id (t_of <$> es) = true → length out < length b)
    end.
Proof.
  intros b.
  destruct (decide (table_encodable id (t_of <$> es) = true ∧ length b ≤ length out)) as [[He Hl]|Hno].
  - exists (Ok (length b)), (b ++ drop (length b) out).
    split_and!; [by apply hello_write_fits|len|done..].
  - destruct (hello_write_too_large ack bridge id es out) as (out'&E&Hl).
    + intros He. fold b. destruct (decide (length b ≤ length out)); [tauto|lia].
    + exists (Err WTooLarge), out'. split_and!; [done|done|done|].
      intros He. destruct (decide (length b ≤ length out)); [tauto|lia].
Qed.

(** Round trip of the link-up message: a table that satisfies the contract,
    written into a buffer it fits in and parsed from the written bytes, gives a
    handle with the same flags, id and entries. *)
Theorem hello_write_parse ack bridge id es out :
  let ts := t_of <$> es in
  table_ok bridge id ts → table_wire id ts →
  length (hello_bytes ack bridge id ts) ≤ length out →
  ∃ n out' h, hello_write ack bridge id es out = Some (Ok n, out') ∧
    hello_parse (take n out') = Ok h ∧
    hl_ack h = ack ∧ hl_bridge h = bridge ∧ hl_id h = id ∧ hl_count h = length es ∧
    t_of <$> hello_entries h = ts.
Proof.
  intros ts Hok Hw Hl. pose proof Hw as (_&_&Hf).
  exists (length (hello_bytes ack bridge id ts)),
    (hello_bytes ack bridge id ts ++ drop (length (hello_bytes ack bridge id ts)) out),
    (hello_of ack bridge id ts).
  split_and!; [by apply hello_write_fits; [apply table_wire_encodable|]| |done..| |].
  - rewrite take_app_length. apply hello_parse_iff; [by apply hello_bytes_ok|].
    by exists ack, bridge, id, ts.
  - unfold hello_of, ts. cbn. apply length_fmap.
  - rewrite hello_entries_of by auto using table_bytes_ok. by apply t_of_table.
Qed.

Lemma hello_write_parse_witness :
  ∃ n out' h, hello_write true false demo_id (entry_of <$> demo_table) (repeat 0%Z 100)
                = Some (Ok n, out') ∧ hello_parse (take n out') = Ok h ∧ hl_count h = 2.
Proof.
  destruct (hello_write_parse true false demo_id (entry_of <$> demo_table) (repeat 0%Z 100))
    as (n&out'&h&Hw&Hp&_&_&_&Hc&_).
  - rewrite t_of_table by apply demo_table_wire.
    exact (hello_parse_table _ _ _ _ _ demo_table_wire demo_table_parses).
  - rewrite t_of_table by apply demo_table_wire. exact demo_table_wire.
  - vm_compute. lia.
  - exists n, out', h. split; [exact Hw|split; [exact Hp|exact Hc]].
Defined.
