(* ===== verification/LinkState.v ===== *)
(** * LinkState: the state of a point-to-point link ([crates/reiny-link/src/link.rs])

    The data of [Link] with the source's fields.  A [&'static StaticPort] is a
    [PortRef], the port with its index in the static table, so that
    [core::ptr::eq] is equality of indices.  Arrays [[T; N]] and [[u8; FRAME]] are
    lists whose length the invariant fixes; [usize] is [nat]; the fixed-width
    counters are [Z]. *)

From Stdlib Require Import ZArith Lia.
From S2P Require Import Prelude Text Codec Core Wire Hello.

(** ** Configuration, identifiers and table rows *)

Record LinkConfig : Type := mkLinkConfig { ping_interval_ms : Z; timeout_ms : Z }.

Definition LinkConfig_default : LinkConfig := mkLinkConfig 1000 3000.

Definition ID_MAX : nat := 32.

(** A fixed-size id: the bytes, zero-padded, and the length *)
Record IdBuf : Type := mkIdBuf { ib_bytes : list Z; ib_len : Z }.

Record PortRef : Type := mkPortRef { pr_index : nat; pr_port : StaticPort }.

(** [core::ptr::eq] *)
Definition ptr_eq (a b : PortRef) : bool := pr_index a =? pr_index b.

Record LocalType : Type := mkLocalType {
  lt_hash : Z;
  lt_name : str;
  lt_schema : Z;
  lt_flags : Z;
  lt_port : PortRef;
}.

Record RemoteType : Type := mkRemoteType {
  rt_hash : Z;
  rt_flags : Z;
  rt_schema : Z;
  rt_mismatch : bool;
}.

#[export] Instance RemoteType_eq_dec : EqDecision RemoteType.
Proof. solve_decision. Defined.

Record PeerContract : Type := mkPeerContract {
  pc_peer : IdBuf;
  pc_remote : list (option RemoteType);
  pc_ack : bool;
  pc_bridge : bool;
}.

(** ** Frames, events and errors *)

Record Frame : Type := mkFrame {
  f_kind : Kind;
  f_hash : Z;
  f_seq : Z;
  f_len : Z;
  f_generation : Z;
}.

#[export] Instance Frame_eq_dec : EqDecision Frame.
Proof. solve_decision. Defined.

Inductive Event : Type :=
  | Connected (f : Frame)
  | Disconnected
  | Data (f : Frame)
  | Request (f : Frame)
  | Reply (f : Frame)
  | ErrorReply (f : Frame).

#[export] Instance Event_eq_dec : EqDecision Event.
Proof. solve_decision. Defined.

Inductive Error : Type :=
  | IdTooLong | TableFull | HashCollision (existing new : str) | SchemaMismatch | Started
  | NotDeclared | UnknownPort | WrongDirection | WrongType | InvalidPorts | NoPeerService
  | TooLarge | Full | EncodeError.

#[export] Instance Error_eq_dec : EqDecision Error.
Proof. solve_decision. Defined.

Record Stats : Type := mkStats {
  bad_frames : Z;
  dropped_schema : Z;
  dropped_unwanted : Z;
  rx_overflow : Z;
  remote_overflow : Z;
  tx_full : Z;
}.

Definition Stats_default : Stats := mkStats 0 0 0 0 0 0.

(** ** The link *)

Record Link : Type := mkLink {
  l_id : IdBuf;
  l_peer : option IdBuf;
  l_local : list (option LocalType);
  l_ports : list StaticPort;
  l_declared : list (option PortRef);
  l_remote : list (option RemoteType);
  l_peer_hello : list Z;
  l_peer_hello_len : nat;
  l_pending : list (option (Z * Z));
  l_tx : list Z;
  l_tx_len : nat;
  l_rx : list Z;
  l_rx_len : nat;
  l_rx_consumed : nat;
  l_rx_skip : bool;
  l_rx_generation : Z;
  l_scratch : list Z;
  l_config : LinkConfig;
  l_started : bool;
  l_connected : bool;
  l_bridge : bool;
  l_peer_bridge : bool;
  l_data_seq : Z;
  l_req_seq : Z;
  l_now_ms : Z;
  l_last_rx_ms : Z;
  l_last_tx_ms : Z;
  l_stats : Stats;
}.

(** Assignments to the fields *)

Definition set_peer (v : option IdBuf) (s : Link) : Link :=
  mkLink (l_id s) v (l_local s) (l_ports s) (l_declared s) (l_remote s) (l_peer_hello s)
    (l_peer_hello_len s) (l_pending s) (l_tx s) (l_tx_len s) (l_rx s) (l_rx_len s)
    (l_rx_consumed s) (l_rx_skip s) (l_rx_generation s) (l_scratch s) (l_config s) (l_started s)
    (l_connected s) (l_bridge s) (l_peer_bridge s) (l_data_seq s) (l_req_seq s) (l_now_ms s)
    (l_last_rx_ms s) (l_last_tx_ms s) (l_stats s).
Definition set_local (v : list (option LocalType)) (s : Link) : Link :=
  mkLink (l_id s) (l_peer s) v (l_ports s) (l_declared s) (l_remote s) (l_peer_hello s)
    (l_peer_hello_len s) (l_pending s) (l_tx s) (l_tx_len s) (l_rx s) (l_rx_len s)
    (l_rx_consumed s) (l_rx_skip s) (l_rx_generation s) (l_scratch s) (l_config s) (l_started s)
    (l_connected s) (l_bridge s) (l_peer_bridge s) (l_data_seq s) (l_req_seq s) (l_now_ms s)
    (l_last_rx_ms s) (l_last_tx_ms s) (l_stats s).
Definition set_declared (v : list (option PortRef)) (s : Link) : Link :=
  mkLink (l_id s) (l_peer s) (l_local s) (l_ports s) v (l_remote s) (l_peer_hello s)
    (l_peer_hello_len s) (l_pending s) (l_tx s) (l_tx_len s) (l_rx s) (l_rx_len s)
    (l_rx_consumed s) (l_rx_skip s) (l_rx_generation s) (l_scratch s) (l_config s) (l_started s)
    (l_connected s) (l_bridge s) (l_peer_bridge s) (l_data_seq s) (l_req_seq s) (l_now_ms s)
    (l_last_rx_ms s) (l_last_tx_ms s) (l_stats s).
Definition set_remote (v : list (option RemoteType)) (s : Link) : Link :=
  mkLink (l_id s) (l_peer s) (l_local s) (l_ports s) (l_declared s) v (l_peer_hello s)
    (l_peer_hello_len s) (l_pending s) (l_tx s) (l_tx_len s) (l_rx s) (l_rx_len s)
    (l_rx_consumed s) (l_rx_skip s) (l_rx_generation s) (l_scratch s) (l_config s) (l_started s)
    (l_connected s) (l_bridge s) (l_peer_bridge s) (l_data_seq s) (l_req_seq s) (l_now_ms s)
    (l_last_rx_ms s) (l_last_tx_ms s) (l_stats s).
Definition set_peer_hello (v : list Z) (s : Link) : Link :=
  mkLink (l_id s) (l_peer s) (l_local s) (l_ports s) (l_declared s) (l_remote s) v
    (l_peer_hello_len s) (l_pending s) (l_tx s) (l_tx_len s) (l_rx s) (l_rx_len s)
    (l_rx_consumed s) (l_rx_skip s) (l_rx_generation s) (l_scratch s) (l_config s) (l_started s)
    (l_connected s) (l_bridge s) (l_peer_bridge s) (l_data_seq s) (l_req_seq s) (l_now_ms s)
    (l_last_rx_ms s) (l_last_tx_ms s) (l_stats s).
Definition set_peer_hello_len (v : nat) (s : Link) : Link :=
  mkLink (l_id s) (l_peer s) (l_local s) (l_ports s) (l_declared s) (l_remote s)
    (l_peer_hello s) v (l_pending s) (l_tx s) (l_tx_len s) (l_rx s) (l_rx_len s)
    (l_rx_consumed s) (l_rx_skip s) (l_rx_generation s) (l_scratch s) (l_config s) (l_started s)
    (l_connected s) (l_bridge s) (l_peer_bridge s) (l_data_seq s) (l_req_seq s) (l_now_ms s)
    (l_last_rx_ms s) (l_last_tx_ms s) (l_stats s).
Definition set_pending (v : list (option (Z * Z))) (s : Link) : Link :=
  mkLink (l_id s) (l_peer s) (l_local s) (l_ports s) (l_declared s) (l_remote s)
    (l_peer_hello s) (l_peer_hello_len s) v (l_tx s) (l_tx_len s) (l_rx s) (l_rx_len s)
    (l_rx_consumed s) (l_rx_skip s) (l_rx_generation s) (l_scratch s) (l_config s) (l_started s)
    (l_connected s) (l_bridge s) (l_peer_bridge s) (l_data_seq s) (l_req_seq s) (l_now_ms s)
    (l_last_rx_ms s) (l_last_tx_ms s) (l_stats s).
Definition set_tx (v : list Z) (s : Link) : Link :=
  mkLink (l_id s) (l_peer s) (l_local s) (l_ports s) (l_declared s) (l_remote s)
    (l_peer_hello s) (l_peer_hello_len s) (l_pending s) v (l_tx_len s) (l_rx s) (l_rx_len s)
    (l_rx_consumed s) (l_rx_skip s) (l_rx_generation s) (l_scratch s) (l_config s) (l_started s)
    (l_connected s) (l_bridge s) (l_peer_bridge s) (l_data_seq s) (l_req_seq s) (l_now_ms s)
    (l_last_rx_ms s) (l_last_tx_ms s) (l_stats s).
Definition set_tx_len (v : nat) (s : Link) : Link :=
  mkLink (l_id s) (l_peer s) (l_local s) (l_ports s) (l_declared s) (l_remote s)
    (l_peer_hello s) (l_peer_hello_len s) (l_pending s) (l_tx s) v (l_rx s) (l_rx_len s)
    (l_rx_consumed s) (l_rx_skip s) (l_rx_generation s) (l_scratch s) (l_config s) (l_started s)
    (l_connected s) (l_bridge s) (l_peer_bridge s) (l_data_seq s) (l_req_seq s) (l_now_ms s)
    (l_last_rx_ms s) (l_last_tx_ms s) (l_stats s).
Definition set_rx (v : list Z) (s : Link) : Link :=
  mkLink (l_id s) (l_peer s) (l_local s) (l_ports s) (l_declared s) (l_remote s)
    (l_peer_hello s) (l_peer_hello_len s) (l_pending s) (l_tx s) (l_tx_len s) v (l_rx_len s)
    (l_rx_consumed s) (l_rx_skip s) (l_rx_generation s) (l_scratch s) (l_config s) (l_started s)
    (l_connected s) (l_bridge s) (l_peer_bridge s) (l_data_seq s) (l_req_seq s) (l_now_ms s)
    (l_last_rx_ms s) (l_last_tx_ms s) (l_stats s).
Definition set_rx_len (v : nat) (s : Link) : Link :=
  mkLink (l_id s) (l_peer s) (l_local s) (l_ports s) (l_declared s) (l_remote s)
    (l_peer_hello s) (l_peer_hello_len s) (l_pending s) (l_tx s) (l_tx_len s) (l_rx s) v
    (l_rx_consumed s) (l_rx_skip s) (l_rx_generation s) (l_scratch s) (l_config s) (l_started s)
    (l_connected s) (l_bridge s) (l_peer_bridge s) (l_data_seq s) (l_req_seq s) (l_now_ms s)
    (l_last_rx_ms s) (l_last_tx_ms s) (l_stats s).
Definition set_rx_consumed (v : nat) (s : Link) : Link :=
  mkLink (l_id s) (l_peer s) (l_local s) (l_ports s) (l_declared s) (l_remote s)
    (l_peer_hello s) (l_peer_hello_len s) (l_pending s) (l_tx s) (l_tx_len s) (l_rx s)
    (l_rx_len s) v (l_rx_skip s) (l_rx_generation s) (l_scratch s) (l_config s) (l_started s)
    (l_connected s) (l_bridge s) (l_peer_bridge s) (l_data_seq s) (l_req_seq s) (l_now_ms s)
    (l_last_rx_ms s) (l_last_tx_ms s) (l_stats s).
Definition set_rx_skip (v : bool) (s : Link) : Link :=
  mkLink (l_id s) (l_peer s) (l_local s) (l_ports s) (l_declared s) (l_remote s)
    (l_peer_hello s) (l_peer_hello_len s) (l_pending s) (l_tx s) (l_tx_len s) (l_rx s)
    (l_rx_len s) (l_rx_consumed s) v (l_rx_generation s) (l_scratch s) (l_config s)
    (l_started s) (l_connected s) (l_bridge s) (l_peer_bridge s) (l_data_seq s) (l_req_seq s)
    (l_now_ms s) (l_last_rx_ms s) (l_last_tx_ms s) (l_stats s).
Definition set_rx_generation (v : Z) (s : Link) : Link :=
  mkLink (l_id s) (l_peer s) (l_local s) (l_ports s) (l_declared s) (l_remote s)
    (l_peer_hello s) (l_peer_hello_len s) (l_pending s) (l_tx s) (l_tx_len s) (l_rx s)
    (l_rx_len s) (l_rx_consumed s) (l_rx_skip s) v (l_scratch s) (l_config s) (l_started s)
    (l_connected s) (l_bridge s) (l_peer_bridge s) (l_data_seq s) (l_req_seq s) (l_now_ms s)
    (l_last_rx_ms s) (l_last_tx_ms s) (l_stats s).
Definition set_scratch (v : list Z) (s : Link) : Link :=
  mkLink (l_id s) (l_peer s) (l_local s) (l_ports s) (l_declared s) (l_remote s)
    (l_peer_hello s) (l_peer_hello_len s) (l_pending s) (l_tx s) (l_tx_len s) (l_rx s)
    (l_rx_len s) (l_rx_consumed s) (l_rx_skip s) (l_rx_generation s) v (l_config s)
    (l_started s) (l_connected s) (l_bridge s) (l_peer_bridge s) (l_data_seq s) (l_req_seq s)
    (l_now_ms s) (l_last_rx_ms s) (l_last_tx_ms s) (l_stats s).
Definition set_config (v : LinkConfig) (s : Link) : Link :=
  mkLink (l_id s) (l_peer s) (l_local s) (l_ports s) (l_declared s) (l_remote s)
    (l_peer_hello s) (l_peer_hello_len s) (l_pending s) (l_tx s) (l_tx_len s) (l_rx s)
    (l_rx_len s) (l_rx_consumed s) (l_rx_skip s) (l_rx_generation s) (l_scratch s) v
    (l_started s) (l_connected s) (l_bridge s) (l_peer_bridge s) (l_data_seq s) (l_req_seq s)
    (l_now_ms s) (l_last_rx_ms s) (l_last_tx_ms s) (l_stats s).
Definition set_started (v : bool) (s : Link) : Link :=
  mkLink (l_id s) (l_peer s) (l_local s) (l_ports s) (l_declared s) (l_remote s)
    (l_peer_hello s) (l_peer_hello_len s) (l_pending s) (l_tx s) (l_tx_len s) (l_rx s)
    (l_rx_len s) (l_rx_consumed s) (l_rx_skip s) (l_rx_generation s) (l_scratch s) (l_config s)
    v (l_connected s) (l_bridge s) (l_peer_bridge s) (l_data_seq s) (l_req_seq s) (l_now_ms s)
    (l_last_rx_ms s) (l_last_tx_ms s) (l_stats s).
Definition set_connected (v : bool) (s : Link) : Link :=
  mkLink (l_id s) (l_peer s) (l_local s) (l_ports s) (l_declared s) (l_remote s)
    (l_peer_hello s) (l_peer_hello_len s) (l_pending s) (l_tx s) (l_tx_len s) (l_rx s)
    (l_rx_len s) (l_rx_consumed s) (l_rx_skip s) (l_rx_generation s) (l_scratch s) (l_config s)
    (l_started s) v (l_bridge s) (l_peer_bridge s) (l_data_seq s) (l_req_seq s) (l_now_ms s)
    (l_last_rx_ms s) (l_last_tx_ms s) (l_stats s).
Definition set_bridge (v : bool) (s : Link) : Link :=
  mkLink (l_id s) (l_peer s) (l_local s) (l_ports s) (l_declared s) (l_remote s)
    (l_peer_hello s) (l_peer_hello_len s) (l_pending s) (l_tx s) (l_tx_len s) (l_rx s)
    (l_rx_len s) (l_rx_consumed s) (l_rx_skip s) (l_rx_generation s) (l_scratch s) (l_config s)
    (l_started s) (l_connected s) v (l_peer_bridge s) (l_data_seq s) (l_req_seq s) (l_now_ms s)
    (l_last_rx_ms s) (l_last_tx_ms s) (l_stats s).
Definition set_peer_bridge (v : bool) (s : Link) : Link :=
  mkLink (l_id s) (l_peer s) (l_local s) (l_ports s) (l_declared s) (l_remote s)
    (l_peer_hello s) (l_peer_hello_len s) (l_pending s) (l_tx s) (l_tx_len s) (l_rx s)
    (l_rx_len s) (l_rx_consumed s) (l_rx_skip s) (l_rx_generation s) (l_scratch s) (l_config s)
    (l_started s) (l_connected s) (l_bridge s) v (l_data_seq s) (l_req_seq s) (l_now_ms s)
    (l_last_rx_ms s) (l_last_tx_ms s) (l_stats s).
Definition set_data_seq (v : Z) (s : Link) : Link :=
  mkLink (l_id s) (l_peer s) (l_local s) (l_ports s) (l_declared s) (l_remote s)
    (l_peer_hello s) (l_peer_hello_len s) (l_pending s) (l_tx s) (l_tx_len s) (l_rx s)
    (l_rx_len s) (l_rx_consumed s) (l_rx_skip s) (l_rx_generation s) (l_scratch s) (l_config s)
    (l_started s) (l_connected s) (l_bridge s) (l_peer_bridge s) v (l_req_seq s) (l_now_ms s)
    (l_last_rx_ms s) (l_last_tx_ms s) (l_stats s).
Definition set_req_seq (v : Z) (s : Link) : Link :=
  mkLink (l_id s) (l_peer s) (l_local s) (l_ports s) (l_declared s) (l_remote s)
    (l_peer_hello s) (l_peer_hello_len s) (l_pending s) (l_tx s) (l_tx_len s) (l_rx s)
    (l_rx_len s) (l_rx_consumed s) (l_rx_skip s) (l_rx_generation s) (l_scratch s) (l_config s)
    (l_started s) (l_connected s) (l_bridge s) (l_peer_bridge s) (l_data_seq s) v (l_now_ms s)
    (l_last_rx_ms s) (l_last_tx_ms s) (l_stats s).
Definition set_now_ms (v : Z) (s : Link) : Link :=
  mkLink (l_id s) (l_peer s) (l_local s) (l_ports s) (l_declared s) (l_remote s)
    (l_peer_hello s) (l_peer_hello_len s) (l_pending s) (l_tx s) (l_tx_len s) (l_rx s)
    (l_rx_len s) (l_rx_consumed s) (l_rx_skip s) (l_rx_generation s) (l_scratch s) (l_config s)
    (l_started s) (l_connected s) (l_bridge s) (l_peer_bridge s) (l_data_seq s) (l_req_seq s) v
    (l_last_rx_ms s) (l_last_tx_ms s) (l_stats s).
Definition set_last_rx_ms (v : Z) (s : Link) : Link :=
  mkLink (l_id s) (l_peer s) (l_local s) (l_ports s) (l_declared s) (l_remote s)
    (l_peer_hello s) (l_peer_hello_len s) (l_pending s) (l_tx s) (l_tx_len s) (l_rx s)
    (l_rx_len s) (l_rx_consumed s) (l_rx_skip s) (l_rx_generation s) (l_scratch s) (l_config s)
    (l_started s) (l_connected s) (l_bridge s) (l_peer_bridge s) (l_data_seq s) (l_req_seq s)
    (l_now_ms s) v (l_last_tx_ms s) (l_stats s).
Definition set_last_tx_ms (v : Z) (s : Link) : Link :=
  mkLink (l_id s) (l_peer s) (l_local s) (l_ports s) (l_declared s) (l_remote s)
    (l_peer_hello s) (l_peer_hello_len s) (l_pending s) (l_tx s) (l_tx_len s) (l_rx s)
    (l_rx_len s) (l_rx_consumed s) (l_rx_skip s) (l_rx_generation s) (l_scratch s) (l_config s)
    (l_started s) (l_connected s) (l_bridge s) (l_peer_bridge s) (l_data_seq s) (l_req_seq s)
    (l_now_ms s) (l_last_rx_ms s) v (l_stats s).
Definition set_stats (v : Stats) (s : Link) : Link :=
  mkLink (l_id s) (l_peer s) (l_local s) (l_ports s) (l_declared s) (l_remote s)
    (l_peer_hello s) (l_peer_hello_len s) (l_pending s) (l_tx s) (l_tx_len s) (l_rx s)
    (l_rx_len s) (l_rx_consumed s) (l_rx_skip s) (l_rx_generation s) (l_scratch s) (l_config s)
    (l_started s) (l_connected s) (l_bridge s) (l_peer_bridge s) (l_data_seq s) (l_req_seq s)
    (l_now_ms s) (l_last_rx_ms s) (l_last_tx_ms s) v.

(** [self.stats.x = self.stats.x.wrapping_add(1)] *)

Definition bump_bad_frames (s : Link) : Link :=
  set_stats (mkStats (wrapping_add 32 (bad_frames (l_stats s)) 1) (dropped_schema (l_stats s))
    (dropped_unwanted (l_stats s)) (rx_overflow (l_stats s)) (remote_overflow (l_stats s))
    (tx_full (l_stats s))) s.
Definition bump_dropped_schema (s : Link) : Link :=
  set_stats (mkStats (bad_frames (l_stats s)) (wrapping_add 32 (dropped_schema (l_stats s)) 1)
    (dropped_unwanted (l_stats s)) (rx_overflow (l_stats s)) (remote_overflow (l_stats s))
    (tx_full (l_stats s))) s.
Definition bump_dropped_unwanted (s : Link) : Link :=
  set_stats (mkStats (bad_frames (l_stats s)) (dropped_schema (l_stats s)) (wrapping_add 32
    (dropped_unwanted (l_stats s)) 1) (rx_overflow (l_stats s)) (remote_overflow (l_stats s))
    (tx_full (l_stats s))) s.
Definition bump_rx_overflow (s : Link) : Link :=
  set_stats (mkStats (bad_frames (l_stats s)) (dropped_schema (l_stats s)) (dropped_unwanted
    (l_stats s)) (wrapping_add 32 (rx_overflow (l_stats s)) 1) (remote_overflow (l_stats s))
    (tx_full (l_stats s))) s.
Definition bump_remote_overflow (s : Link) : Link :=
  set_stats (mkStats (bad_frames (l_stats s)) (dropped_schema (l_stats s)) (dropped_unwanted
    (l_stats s)) (rx_overflow (l_stats s)) (wrapping_add 32 (remote_overflow (l_stats s)) 1)
    (tx_full (l_stats s))) s.
Definition bump_tx_full (s : Link) : Link :=
  set_stats (mkStats (bad_frames (l_stats s)) (dropped_schema (l_stats s)) (dropped_unwanted
    (l_stats s)) (rx_overflow (l_stats s)) (remote_overflow (l_stats s)) (wrapping_add 32
    (tx_full (l_stats s)) 1)) s.
