(* ===== verification/Link.v ===== *)
(** * Link: the operations of a point-to-point link ([crates/reiny-link/src/link.rs])

    One definition per method of [Link], in the source's order.  A method on
    [&mut self] is an [ST Link] computation, a method on [&self] a function of the
    state; [None] of [ST] is a panic.  The two loops carry fuel that is enough:
    a turn of [next] takes at least one byte off the receive buffer, and two
    turns of [feed] take at least one byte off the input.

    A prost message is the parameter [Message]: its encoded length and what its
    encoder writes into a buffer of a given capacity.  [TABLE] is the const
    generic [N], [FRAME] is [FRAME]. *)

From Stdlib Require Import ZArith Lia.
From S2P Require Import Prelude Text Codec Core Wire Hello LinkState.

(** The const generics of [Link<B, N, FRAME>] *)
Class LinkParams : Type := { TABLE : nat; FRAME : nat }.

(** What the link uses of [prost::Message]: [encoded_len], and [encode] into a
    buffer of the given capacity, which fails or writes bytes at its front *)
Record Message : Type := mkMessage {
  encoded_len : nat;
  encode_to : nat → option (list Z);
}.

(** ** Identifiers *)

Definition idbuf_new (s : str) : result IdBuf Error :=
  let? len := ok_or (match u8_try_from (length s) with
                     | Some n => if Z.to_nat n <=? ID_MAX then Some n else None
                     | None => None
                     end) IdTooLong in
  Ok (mkIdBuf (s ++ replicate (ID_MAX - length s) 0%Z) len).

Definition as_str (b : IdBuf) : str :=
  let s := take (Z.to_nat (ib_len b)) (ib_bytes b) in
  if utf8_valid s then s else [].

(** ** Tables *)

(** Whether a port owns its endpoint: [Output | RpcServer] *)
Definition owns (d : PortDirection) : bool :=
  match d with DOutput | DRpcServer => true | DInput | DRpcClient => false end.

Definition is_service (d : PortDirection) : bool :=
  match d with DRpcServer | DRpcClient => true | DInput | DOutput => false end.

Definition no_sources (p : StaticPort) : bool := bool_decide (sp_sources p = []).

(** The condition of [Link::new] on one port of the static table *)
Definition bad_port (ports : list StaticPort) (index : nat) (port : StaticPort) : bool :=
  negb (valid_port (sp_name port))
  || bool_decide (sp_ty port = [])
  || (negb (owns (sp_direction port)) && no_sources port)
  || (owns (sp_direction port) && negb (no_sources port))
  || (bool_decide (sp_direction port = DRpcClient) && negb (length (sp_sources port) =? 1))
  || any_enumerate (λ i source,
       negb (valid_namespace (sa_namespace source))
       || negb (valid_port (sa_port source))
       || bool_decide (source ∈ take i (sp_sources port))) 0 (sp_sources port)
  || negb (eqb (is_service (sp_direction port)) (negb (is_none (sp_response port))))
  || existsb (λ other,
       bool_decide (sp_name other = sp_name port)
       && eqb (owns (sp_direction other)) (owns (sp_direction port))) (take index ports).

Section link.
Context {P : LinkParams} `{CrcOps} `{CobsOps}.

Definition new (id : str) (ports : list StaticPort) (tx rx : list Z) : result Link Error :=
  if FRAME <? OVERHEAD then Err TooLarge else
  if any_enumerate (bad_port ports) 0 ports then Err InvalidPorts else
  if negb (valid_namespace id) then Err InvalidPorts else
  let? id := idbuf_new id in
  Ok (mkLink id None (replicate TABLE None) ports (replicate TABLE None) (replicate TABLE None)
        (replicate FRAME 0%Z) 0 (replicate TABLE None) tx 0 rx 0 0 false 0 (replicate FRAME 0%Z)
        LinkConfig_default false false false false 0 0 0 0 0 Stats_default).

Definition with_config (config : LinkConfig) (s : Link) : Link := set_config config s.
Definition into_bridge (s : Link) : Link := set_bridge true s.
Definition is_bridge (s : Link) : bool := l_bridge s.
Definition id (s : Link) : str := as_str (l_id s).

(** ** Declarations *)

Definition response_contract (S : Service) : option PortType :=
  Some (mkPortType (TYPE_NAME (svc_response S)) (SCHEMA_FINGERPRINT (svc_response S))).

Definition find_port (p : StaticPort → bool) (ports : list StaticPort) : option PortRef :=
  i ← position p ports; q ← ports !! i; Some (mkPortRef i q).

Definition port (s : Link) (T : MessageType) (name : str) (direction : PortDirection)
    (response : option PortType) : result PortRef Error :=
  let? r := ok_or (find_port (λ q, bool_decide (sp_name q = name)
                                   && bool_decide (sp_direction q = direction)) (l_ports s))
                  (if existsb (λ q, bool_decide (sp_name q = name)) (l_ports s)
                   then WrongDirection else UnknownPort) in
  let q := pr_port r in
  if negb (bool_decide (sp_ty q = TYPE_NAME T))
     || negb (bool_decide (option_map pt_ty (sp_response q) = option_map pt_ty response))
  then Err WrongType else
  if negb (sp_schema q =? SCHEMA_FINGERPRINT T)%Z
     || negb (bool_decide (option_map pt_schema (sp_response q) = option_map pt_schema response))
  then Err SchemaMismatch else Ok r.

Definition is_declared (s : Link) (r : PortRef) : bool :=
  existsb (λ d, ptr_eq d r) (flatten (l_declared s)).

Definition check_port (s : Link) (T : MessageType) (name : str) (direction : PortDirection)
    (response : option PortType) : result unit Error :=
  let? r := port s T name direction response in
  if negb (is_declared s r) then Err NotDeclared else Ok tt.

(** The loop of [declare_type] over the occupied slots: [Ok None] if no slot is
    the port's *)
Fixpoint declare_slot (hash : Z) (r : PortRef) (flag : Z) (l : list (option LocalType)) :
  result (option (list (option LocalType))) Error :=
  match l with
  | [] => Ok None
  | None :: l' => let? o := declare_slot hash r flag l' in Ok (option_map (cons None) o)
  | Some t :: l' =>
      let existing := sp_name (pr_port (lt_port t)) in
      if (lt_hash t =? hash)%Z && negb (bool_decide (existing = sp_name (pr_port r)))
      then Err (HashCollision existing (sp_name (pr_port r))) else
      if ptr_eq (lt_port t) r
      then Ok (Some (Some (mkLocalType (lt_hash t) (lt_name t) (lt_schema t)
                             (Z.lor (lt_flags t) flag) (lt_port t)) :: l'))
      else let? o := declare_slot hash r flag l' in Ok (option_map (cons (Some t)) o)
  end.

Definition declare_type (r : PortRef) (flag : Z) : ST Link (result unit Error) :=
  let* s := get in
  let hash := endpoint_hash (id s) (sp_name (pr_port r)) in
  match declare_slot hash r flag (l_local s) with
  | Err e => ret (Err e)
  | Ok (Some local) => modify (set_local local) ;;; ret (Ok tt)
  | Ok None =>
      match position is_none (l_local s) with
      | None => ret (Err TableFull)
      | Some free =>
          modify (set_local (<[free := Some (mkLocalType hash (sp_ty (pr_port r))
                                               (sp_schema (pr_port r)) flag r)]> (l_local s))) ;;;
          ret (Ok tt)
      end
  end.

(** ** Lookups *)

Definition source_hash (a : StaticEndpointAddress) : Z := endpoint_hash (sa_namespace a) (sa_port a).

Definition local_type (s : Link) (hash : Z) : option LocalType :=
  find (λ t, (lt_hash t =? hash)%Z && has (lt_flags t) (Z.lor flags.PUB flags.SERVE))
       (flatten (l_local s)).

Definition local_source (s : Link) (hash flag : Z) : option LocalType :=
  find (λ t, has (lt_flags t) flag
             && existsb (λ a, source_hash a =? hash)%Z (sp_sources (pr_port (lt_port t))))
       (flatten (l_local s)).

Definition remote_type (s : Link) (hash : Z) : option RemoteType :=
  find (λ t, (rt_hash t =? hash)%Z && has (rt_flags t) (Z.lor flags.PUB flags.SERVE))
       (flatten (l_remote s)).

(** The slice [peer_hello[..peer_hello_len]] is in range by the invariant. *)
Definition hello (s : Link) : option Hello :=
  result_ok (hello_parse (take (l_peer_hello_len s) (l_peer_hello s))).

Definition remote_source (s : Link) (hash flag : Z) : option HelloEntry :=
  h ← hello s;
  find (λ e, has (he_flags e) flag
             && existsb (λ a, ep_hash a =? hash)%Z (sources_iter (he_sources e))) (hello_entries h).

Definition request_hash (s : Link) (S : Service) (name : str) : result Z Error :=
  let? _ := check_port s (svc_request S) name DRpcClient (response_contract S) in
  let? r := port s (svc_request S) name DRpcClient (response_contract S) in
  let? source := ok_or (head (sp_sources (pr_port r))) InvalidPorts in
  Ok (source_hash source).

Definition is_pending (hash seq : Z) (slot : option (Z * Z)) : bool :=
  bool_decide (slot = Some (hash, seq)).

Definition cancel_request (hash seq : Z) : ST Link unit :=
  let* s := get in
  match position (is_pending hash seq) (l_pending s) with
  | Some i => modify (set_pending (<[i := None]> (l_pending s)))
  | None => ret tt
  end.

(** ** Emitting *)

Definition emit (kind : Kind) (hash seq : Z) (payload_len : nat) : ST Link (result unit Error) :=
  let* sealed := focus l_scratch set_scratch (seal (mkHeader kind hash seq) payload_len) in
  match sealed with
  | Err _ => ret (Err TooLarge)
  | Ok raw_len =>
      let* s := get in
      let* free := lift (usub (length (l_tx s)) (l_tx_len s)) in
      if free <? encoded_max raw_len then modify bump_tx_full ;;; ret (Err Full) else
      let* raw := lift (slice 0 raw_len (l_scratch s)) in
      let* written := focus l_tx set_tx (sub_slice (l_tx_len s) (length (l_tx s)) (encode raw)) in
      match written with
      | Err _ => ret (Err Full)
      | Ok n =>
          modify (set_tx_len (l_tx_len s + n)) ;;;
          modify (set_last_tx_ms (l_now_ms s)) ;;;
          ret (Ok tt)
      end
  end.

Definition local_entry (t : LocalType) : HelloEntry :=
  let q := pr_port (lt_port t) in
  mkHelloEntry (lt_hash t) (lt_flags t) (lt_schema t) (lt_name t) (sp_name q)
    (option_map (λ r, mkHelloType (pt_ty r) (pt_schema r)) (sp_response q))
    (SStatic (sp_sources q)).

Definition hello_payload (ack : bool) : ST Link (result nat Error) :=
  let* s := get in
  let* e := lift (usub FRAME TRAILER) in
  let* written := focus l_scratch set_scratch (sub_slice HEADER e
    (hello_write ack (l_bridge s) (id s) (local_entry <$> flatten (l_local s)))) in
  match written with
  | Err _ => ret (Err TooLarge)
  | Ok len =>
      let* scratch := gets l_scratch in
      let* payload := lift (slice HEADER (HEADER + len) scratch) in
      match hello_parse payload with
      | Err _ => ret (Err InvalidPorts)
      | Ok _ => ret (Ok len)
      end
  end.

Definition queue_hello (ack : bool) : ST Link (result unit Error) :=
  try* len := hello_payload ack in
  emit KHello 0 0 len.

Definition ensure_started : ST Link unit :=
  let* started := gets l_started in
  if started then ret tt else
  modify (set_started true) ;;;
  let* _ := queue_hello false in
  ret tt.

(** [declare] needs [hello_payload]. *)
Definition declare (T : MessageType) (name : str) (direction : PortDirection) (flag : Z)
    (response : option PortType) : ST Link (result unit Error) :=
  let* s := get in
  if l_started s then ret (Err Started) else
  try* r := ret (port s T name direction response) in
  let already_declared := is_declared s r in
  if negb already_declared && forallb (λ d, negb (is_none d)) (l_declared s)
  then ret (Err TableFull) else
  let previous := l_local s in
  try* _ := declare_type r flag in
  let* written := hello_payload false in
  match written with
  | Err e => modify (set_local previous) ;;; ret (Err e)
  | Ok _ =>
      if already_declared then ret (Ok tt) else
      let* declared := gets l_declared in
      match position is_none declared with
      | None => ret (Err TableFull)
      | Some free => modify (set_declared (<[free := Some r]> declared)) ;;; ret (Ok tt)
      end
  end.

Definition publishes (T : MessageType) (name : str) : ST Link (result unit Error) :=
  declare T name DOutput flags.PUB None.
Definition publishes_latched (T : MessageType) (name : str) : ST Link (result unit Error) :=
  declare T name DOutput (Z.lor flags.PUB flags.LATCHED) None.
Definition subscribes (T : MessageType) (name : str) : ST Link (result unit Error) :=
  declare T name DInput flags.SUB None.
Definition declare_rpc (S : Service) (name : str) (direction : PortDirection) (flag : Z) :
  ST Link (result unit Error) :=
  declare (svc_request S) name direction flag (response_contract S).
Definition rpc_server (S : Service) (name : str) : ST Link (result unit Error) :=
  declare_rpc S name DRpcServer flags.SERVE.
Definition rpc_client (S : Service) (name : str) : ST Link (result unit Error) :=
  declare_rpc S name DRpcClient flags.CALLS.

(** ** Buffers *)

Definition tx_consume (n : nat) : ST Link unit :=
  let* s := get in
  let* tx := lift (copy_within n (l_tx_len s) 0 (l_tx s)) in
  let* len := lift (usub (l_tx_len s) n) in
  modify (set_tx tx) ;;; modify (set_tx_len len).

Definition rx_discard (n : nat) : ST Link unit :=
  let* s := get in
  let* rx := lift (copy_within n (l_rx_len s) 0 (l_rx s)) in
  let* len := lift (usub (l_rx_len s) n) in
  modify (set_rx rx) ;;; modify (set_rx_len len) ;;;
  modify (set_rx_generation (wrapping_add 16 (l_rx_generation s) 1)).

Definition rx_compact : ST Link unit :=
  let* n := gets l_rx_consumed in
  if 0 <? n then modify (set_rx_consumed 0) ;;; rx_discard n else ret tt.

Definition is_delimiter (b : Z) : bool := (b =? DELIMITER)%Z.

(** The loop of [feed]; the result is [bytes.len() - rest.len()] at the return. *)
Fixpoint feed_loop (fuel total : nat) (rest : list Z) : ST Link nat :=
  match fuel with
  | 0 => lift None
  | S fuel' =>
      if bool_decide (rest = []) then ret total else
      let* s := get in
      if l_rx_skip s then
        match position is_delimiter rest with
        | Some i => modify (set_rx_skip false) ;;; feed_loop fuel' total (drop (i + 1) rest)
        | None => ret total
        end
      else
        let* free := lift (usub (length (l_rx s)) (l_rx_len s)) in
        if free =? 0 then
          let* filled := lift (slice 0 (l_rx_len s) (l_rx s)) in
          if existsb is_delimiter filled then lift (usub total (length rest)) else
          modify (set_rx_len 0) ;;; modify (set_rx_skip true) ;;; modify bump_rx_overflow ;;;
          feed_loop fuel' total rest
        else
          let n := Nat.min free (length rest) in
          let* rx := lift (copy_at (l_rx_len s) (take n rest) (l_rx s)) in
          modify (set_rx rx) ;;; modify (set_rx_len (l_rx_len s + n)) ;;;
          feed_loop fuel' total (drop n rest)
  end.

Definition feed (bytes : list Z) : ST Link nat :=
  ensure_started ;;; rx_compact ;;;
  feed_loop (2 * length bytes + 2) (length bytes) bytes.

(** [drain] and [drain_frame] return the buffer [out] beside their result. *)
Definition drain (out : list Z) : ST Link (nat * list Z) :=
  ensure_started ;;;
  let* s := get in
  let n := Nat.min (l_tx_len s) (length out) in
  let* src := lift (slice 0 n (l_tx s)) in
  let* out := lift (copy_at 0 src out) in
  tx_consume n ;;;
  ret (n, out).

Definition drain_frame (out : list Z) : ST Link (option nat * list Z) :=
  ensure_started ;;;
  let* s := get in
  let* queued := lift (slice 0 (l_tx_len s) (l_tx s)) in
  match position is_delimiter queued with
  | None => ret (None, out)
  | Some i =>
      let e := i + 1 in
      if length out <? e then
        tx_consume e ;;; modify bump_tx_full ;;; ret (None, out)
      else
        let* src := lift (slice 0 e (l_tx s)) in
        let* out := lift (copy_at 0 src out) in
        tx_consume e ;;;
        ret (Some e, out)
  end.

Definition tx_pending (s : Link) : nat := l_tx_len s.

(** ** Liveness *)

(** The assignments of [tick] and [on_hello] that drop the peer *)
Definition drop_peer (s : Link) : Link :=
  set_pending (replicate TABLE None) (set_peer_hello_len 0 (set_remote (replicate TABLE None)
    (set_peer_bridge false (set_peer None (set_connected false s))))).

Definition tick (now_ms : Z) : ST Link (option Event) :=
  modify (set_now_ms now_ms) ;;;
  let* s := get in
  if negb (l_started s) then
    modify (set_last_rx_ms now_ms) ;;; ensure_started ;;; ret None
  else
    let since_rx := wrapping_sub 32 now_ms (l_last_rx_ms s) in
    let since_tx := wrapping_sub 32 now_ms (l_last_tx_ms s) in
    if l_connected s then
      if (timeout_ms (l_config s) <? since_rx)%Z then
        modify drop_peer ;;; ret (Some Disconnected)
      else if (ping_interval_ms (l_config s) <=? since_tx)%Z then
        let* _ := emit KPing 0 0 0 in ret None
      else ret None
    else if (ping_interval_ms (l_config s) <=? since_tx)%Z then
      let* _ := queue_hello false in ret None
    else ret None.

(** ** Sending *)

(** [FRAME.saturating_sub(OVERHEAD)] *)
Definition payload_max : nat := FRAME - OVERHEAD.

Definition encode_payload (msg : Message) : ST Link (result nat Error) :=
  let len := encoded_len msg in
  if payload_max <? len then ret (Err TooLarge) else
  let* scratch := gets l_scratch in
  let* slot := lift (slice HEADER (HEADER + len) scratch) in
  match encode_to msg (length slot) with
  | None => ret (Err EncodeError)
  | Some b =>
      let* scratch := lift (copy_at HEADER b scratch) in
      modify (set_scratch scratch) ;;; ret (Ok len)
  end.

Definition copy_payload (payload : list Z) : ST Link (result nat Error) :=
  if payload_max <? length payload then ret (Err TooLarge) else
  let* scratch := gets l_scratch in
  let* scratch := lift (copy_at HEADER payload scratch) in
  modify (set_scratch scratch) ;;; ret (Ok (length payload)).

Definition emit_error (hash seq : Z) (message : str) : ST Link (result unit Error) :=
  let len := Nat.min (length message) payload_max in
  let* scratch := gets l_scratch in
  let* scratch := lift (copy_at HEADER (take len message) scratch) in
  modify (set_scratch scratch) ;;;
  emit KError hash seq len.

Definition emit_reply (hash seq schema : Z) (len : nat) : ST Link (result unit Error) :=
  let reply_len := len + 8 in
  if payload_max <? reply_len then ret (Err TooLarge) else
  let* scratch := gets l_scratch in
  let* scratch := lift (copy_within HEADER (HEADER + len) (HEADER + 8) scratch) in
  let* scratch := lift (copy_at HEADER (le_bytes 8 schema) scratch) in
  modify (set_scratch scratch) ;;;
  emit KReply hash seq reply_len.

Definition check_publishes (s : Link) (hash : Z) : result unit Error :=
  if negb (l_bridge s)
     && match local_type s hash with
        | None => true
        | Some t => negb (has (lt_flags t) flags.PUB)
        end
  then Err NotDeclared else Ok tt.

Definition emit_data (hash : Z) (len : nat) : ST Link (result bool Error) :=
  let* seq := gets l_data_seq in
  modify (set_data_seq (wrapping_add 8 seq 1)) ;;;
  try* _ := emit KData hash seq len in
  ret (Ok true).

Definition emit_request (hash : Z) (len : nat) : ST Link (result Z Error) :=
  let* s := get in
  try* free := ret (ok_or (position is_none (l_pending s)) TableFull) in
  try* seq := ret (ok_or
    (find (λ seq, negb (bool_decide (Some (hash, seq) ∈ l_pending s)))
          (wrapping_add 8 (l_req_seq s) <$> seqZ 0 256)) TableFull) in
  try* _ := emit KRequest hash seq len in
  modify (set_req_seq (wrapping_add 8 seq 1)) ;;;
  let* pending := gets l_pending in
  modify (set_pending (<[free := Some (hash, seq)]> pending)) ;;;
  ret (Ok seq).

(** ** The peer *)

Definition is_connected (s : Link) : bool := l_connected s.
Definition peer_id (s : Link) : option str := option_map as_str (l_peer s).
Definition peer_types (s : Link) : list RemoteType := flatten (l_remote s).
Definition peer_is_bridge (s : Link) : bool := l_connected s && l_peer_bridge s.

Definition peer_subscribes_hash (s : Link) (hash : Z) : bool :=
  l_connected s && (l_peer_bridge s || negb (is_none (remote_source s hash flags.SUB))).

Definition peer_subscribes (s : Link) (T : MessageType) (name : str) : bool :=
  is_ok (check_port s T name DOutput None) && peer_subscribes_hash s (endpoint_hash (id s) name).

Definition peer_serves_hash (s : Link) (hash : Z) : bool :=
  l_connected s && (l_peer_bridge s || match remote_type s hash with
                                       | Some t => has (rt_flags t) flags.SERVE
                                       | None => false
                                       end).

Definition peer_serves (s : Link) (S : Service) (name : str) : bool :=
  match request_hash s S name with Ok hash => peer_serves_hash s hash | Err _ => false end.

(** ** The public senders *)

Definition send (T : MessageType) (name : str) (msg : Message) : ST Link (result bool Error) :=
  let* s := get in
  try* _ := ret (check_port s T name DOutput None) in
  let hash := endpoint_hash (id s) name in
  try* _ := ret (check_publishes s hash) in
  if match local_type s hash with
     | Some t => negb (lt_schema t =? SCHEMA_FINGERPRINT T)%Z
     | None => false
     end then ret (Err SchemaMismatch) else
  if negb (peer_subscribes_hash s hash) then ret (Ok false) else
  try* len := encode_payload msg in
  emit_data hash len.

Definition send_raw (hash : Z) (payload : list Z) : ST Link (result bool Error) :=
  let* s := get in
  try* _ := ret (check_publishes s hash) in
  if negb (peer_subscribes_hash s hash) then ret (Ok false) else
  try* len := copy_payload payload in
  emit_data hash len.

Definition request (S : Service) (name : str) (req : Message) : ST Link (result Z Error) :=
  let* s := get in
  try* _ := ret (check_port s (svc_request S) name DRpcClient (response_contract S)) in
  try* hash := ret (request_hash s S name) in
  if negb (peer_serves_hash s hash) then ret (Err NoPeerService) else
  if match remote_type s hash with
     | Some t => negb (rt_schema t =? SCHEMA_FINGERPRINT (svc_request S))%Z
     | None => false
     end then ret (Err SchemaMismatch) else
  try* len := encode_payload req in
  emit_request hash len.

Definition request_raw (hash : Z) (payload : list Z) : ST Link (result Z Error) :=
  let* s := get in
  if negb (l_bridge s) && is_none (local_source s hash flags.CALLS) then ret (Err NotDeclared) else
  if negb (peer_serves_hash s hash) then ret (Err NoPeerService) else
  try* len := copy_payload payload in
  emit_request hash len.

Definition reply (S : Service) (name : str) (seq : Z) (resp : Message) :
  ST Link (result unit Error) :=
  let* s := get in
  try* _ := ret (check_port s (svc_request S) name DRpcServer (response_contract S)) in
  try* len := encode_payload resp in
  emit_reply (endpoint_hash (id s) name) seq (SCHEMA_FINGERPRINT (svc_response S)) len.

Definition reply_raw (seq hash schema : Z) (payload : list Z) : ST Link (result unit Error) :=
  try* len := copy_payload payload in
  emit_reply hash seq schema len.

Definition reply_err (S : Service) (name : str) (seq : Z) (message : str) :
  ST Link (result unit Error) :=
  let* s := get in
  try* _ := ret (check_port s (svc_request S) name DRpcServer (response_contract S)) in
  emit_error (endpoint_hash (id s) name) seq message.

Definition reply_err_raw (seq hash : Z) (message : str) : ST Link (result unit Error) :=
  emit_error hash seq message.

(** ** Receiving *)

Definition decode_frame (e : nat) : ST Link (option Frame) :=
  let* decoded := focus l_rx set_rx (sub_slice 0 e decode_in_place) in
  match decoded with
  | Err _ => ret None
  | Ok raw_len =>
      if FRAME <? raw_len then ret None else
      let* rx := gets l_rx in
      let* raw := lift (slice 0 raw_len rx) in
      match parse raw with
      | Err _ => ret None
      | Ok (header, payload) =>
          ret (if (Z.of_nat (length payload) <=? u16_max)%Z
               then Some (mkFrame (h_kind header) (h_hash header) (h_seq header)
                                  (Z.of_nat (length payload)) 0)
               else None)
      end
  end.

(** [local] against one entry of the peer's table *)
Definition check_local (s : Link) (h : Hello) (entry : HelloEntry) (local : LocalType) :
  result unit Error :=
  let q := pr_port (lt_port local) in
  let from_peer :=
    existsb (λ a, bool_decide (sa_namespace a = hl_id h) && bool_decide (sa_port a = he_port entry))
            (sp_sources q)
    && has (he_flags entry) (Z.lor flags.PUB flags.SERVE) in
  let to_peer :=
    existsb (λ a, bool_decide (ep_namespace a = id s) && bool_decide (ep_port a = sp_name q))
            (sources_iter (he_sources entry))
    && has (lt_flags local) (Z.lor flags.PUB flags.SERVE) in
  if (from_peer || to_peer)
     && (negb (bool_decide (lt_name local = he_name entry))
         || negb (lt_schema local =? he_schema entry)%Z
         || negb (bool_decide (option_map (λ r, (pt_ty r, pt_schema r)) (sp_response q)
                               = option_map (λ r, (ht_name r, ht_schema r)) (he_response entry)))
         || negb (eqb (has (lt_flags local) (Z.lor flags.CALLS flags.SERVE))
                      (has (he_flags entry) (Z.lor flags.CALLS flags.SERVE))))
  then Err SchemaMismatch else
  if existsb (λ a, (source_hash a =? he_hash entry)%Z
                   && (negb (bool_decide (sa_namespace a = hl_id h))
                       || negb (bool_decide (sa_port a = he_port entry)))) (sp_sources q)
  then Err InvalidPorts else Ok tt.

Fixpoint check_locals (s : Link) (h : Hello) (entry : HelloEntry) (l : list LocalType) :
  result unit Error :=
  match l with
  | [] => Ok tt
  | t :: l' => let? _ := check_local s h entry t in check_locals s h entry l'
  end.

(** The addresses of a row of the local table *)
Definition local_addresses (s : Link) (t : LocalType) : list EndpointRef :=
  let q := pr_port (lt_port t) in
  mkEndpointRef (id s) (sp_name q)
  :: ((λ a, mkEndpointRef (sa_namespace a) (sa_port a)) <$> sp_sources q).

(** Two different addresses with one hash, one of each table *)
Definition address_collision (s : Link) (h : Hello) (entry : HelloEntry) : bool :=
  existsb (λ address,
    existsb (λ local,
      existsb (λ other, negb (bool_decide (other = address)) && (ep_hash other =? ep_hash address)%Z)
              (local_addresses s local)) (flatten (l_local s)))
    (mkEndpointRef (hl_id h) (he_port entry) :: sources_iter (he_sources entry)).

Fixpoint check_remote (s : Link) (h : Hello) (index : nat) (entries : list HelloEntry)
    (remote : list (option RemoteType)) : result (list (option RemoteType)) Error :=
  match entries with
  | [] => Ok remote
  | entry :: rest =>
      if TABLE <=? index then Err TableFull else
      let? _ := check_locals s h entry (flatten (l_local s)) in
      if address_collision s h entry then Err InvalidPorts else
      check_remote s h (S index) rest
        (<[index := Some (mkRemoteType (he_hash entry) (he_flags entry) (he_schema entry) false)]>
           remote)
  end.

(** Whether a Hello received while connected repeats the peer's contract, the
    [ack] bit apart *)
Definition same_contract (s : Link) (payload : list Z) : option bool :=
  if negb (l_peer_hello_len s =? length payload) then Some false else
  p0 ← l_peer_hello s !! 0;
  q0 ← payload !! 0;
  if negb (Z.land p0 (not8 HELLO_ACK) =? Z.land q0 (not8 HELLO_ACK))%Z then Some false else
  p ← slice 1 (l_peer_hello_len s) (l_peer_hello s);
  q ← slice 1 (length payload) payload;
  Some (bool_decide (p = q)).

Definition validate_hello (s : Link) (payload : list Z) : option (result PeerContract Error) :=
  match hello_parse payload with
  | Err _ => Some (Err InvalidPorts)
  | Ok h =>
      match idbuf_new (hl_id h) with
      | Err e => Some (Err e)
      | Ok peer =>
          if FRAME <? length payload then Some (Err TooLarge) else
          same ← (if l_connected s then same_contract s payload else Some true);
          if negb same then Some (Err InvalidPorts) else
          Some (let? remote := check_remote s h 0 (hello_entries h) (replicate TABLE None) in
                Ok (mkPeerContract peer remote (hl_ack h) (hl_bridge h)))
      end
  end.

Definition on_hello (frame : Frame) : ST Link (option Event) :=
  let* s := get in
  let* payload := lift (slice HEADER (HEADER + Z.to_nat (f_len frame)) (l_rx s)) in
  let* result := lift (validate_hello s payload) in
  match result with
  | Err e =>
      modify bump_bad_frames ;;;
      (if bool_decide (e = TableFull) then modify bump_remote_overflow else ret tt) ;;;
      modify drop_peer ;;;
      ret (if l_connected s then Some Disconnected else None)
  | Ok contract =>
      let* stored := lift (copy_at 0 payload (l_peer_hello s)) in
      modify (set_peer_hello stored) ;;;
      modify (set_peer_hello_len (length payload)) ;;;
      modify (set_peer (Some (pc_peer contract))) ;;;
      modify (set_peer_bridge (pc_bridge contract)) ;;;
      modify (set_remote (pc_remote contract)) ;;;
      modify (set_connected true) ;;;
      (if pc_ack contract then ret tt else let* _ := queue_hello true in ret tt) ;;;
      ret (if negb (pc_ack contract) || negb (l_connected s) then Some (Connected frame) else None)
  end.

Definition publishes_here (t : RemoteType) : bool := has (rt_flags t) flags.PUB.

Definition dispatch (frame : Frame) : ST Link (option Event) :=
  match f_kind frame with
  | KHello => on_hello frame
  | KPing => ret None
  | KData =>
      let* s := get in
      let wanted :=
        if l_bridge s
        then match remote_type s (f_hash frame) with Some t => publishes_here t | None => false end
        else negb (is_none (local_source s (f_hash frame) flags.SUB)) in
      if negb wanted then modify bump_dropped_unwanted ;;; ret None else
      if negb (l_connected s)
         || (negb (l_peer_bridge s)
             && match remote_type s (f_hash frame) with
                | None => true
                | Some t => rt_mismatch t || negb (publishes_here t)
                end)
      then modify bump_dropped_schema ;;; ret None else
      ret (Some (Data frame))
  | KRequest =>
      let* s := get in
      let served := match local_type s (f_hash frame) with
                    | Some t => has (lt_flags t) flags.SERVE
                    | None => false
                    end in
      let caller := negb (is_none (remote_source s (f_hash frame) flags.CALLS)) in
      if negb (l_connected s) || (negb (l_peer_bridge s) && negb caller) then
        modify bump_dropped_unwanted ;;;
        let* _ := emit_error (f_hash frame) (f_seq frame) (bytes_of "undeclared source") in
        ret None
      else if served || (l_bridge s && caller) then ret (Some (Request frame))
      else
        modify bump_dropped_unwanted ;;;
        let* _ := emit_error (f_hash frame) (f_seq frame) (bytes_of "no such service") in
        ret None
  | KReply | KError =>
      let* s := get in
      if negb (l_connected s)
         || negb (bool_decide (Some (f_hash frame, f_seq frame) ∈ l_pending s))
      then modify bump_dropped_unwanted ;;; ret None else
      cancel_request (f_hash frame) (f_seq frame) ;;;
      ret (Some (if bool_decide (f_kind frame = KReply) then Reply frame else ErrorReply frame))
  end.

Definition with_generation (g : Z) (f : Frame) : Frame :=
  mkFrame (f_kind f) (f_hash f) (f_seq f) (f_len f) g.

Fixpoint next_loop (fuel : nat) : ST Link (option Event) :=
  match fuel with
  | 0 => lift None
  | S fuel' =>
      let* s := get in
      let* filled := lift (slice 0 (l_rx_len s) (l_rx s)) in
      match position is_delimiter filled with
      | None => ret None
      | Some e =>
          let consumed := e + 1 in
          if e =? 0 then rx_discard consumed ;;; next_loop fuel' else
          let* decoded := decode_frame e in
          match decoded with
          | None => modify bump_bad_frames ;;; rx_discard consumed ;;; next_loop fuel'
          | Some frame =>
              modify (set_rx_consumed consumed) ;;;
              modify (set_rx_generation (wrapping_add 16 (l_rx_generation s) 1)) ;;;
              modify (set_last_rx_ms (l_now_ms s)) ;;;
              let frame := with_generation (wrapping_add 16 (l_rx_generation s) 1) frame in
              let* event := dispatch frame in
              match event with
              | Some _ => ret event
              | None => rx_compact ;;; next_loop fuel'
              end
          end
      end
  end.

Definition next : ST Link (option Event) :=
  ensure_started ;;; rx_compact ;;;
  let* len := gets l_rx_len in
  next_loop (S len).

(** ** Reading *)

Definition is_fresh (s : Link) (frame : Frame) : bool :=
  (f_generation frame =? l_rx_generation s)%Z.

Definition payload (s : Link) (frame : Frame) : option (list Z) :=
  if negb (is_fresh s frame) then Some [] else
  slice HEADER (HEADER + Z.to_nat (f_len frame)) (l_rx s).

Definition static_ref (a : StaticEndpointAddress) : EndpointRef :=
  mkEndpointRef (sa_namespace a) (sa_port a).

Definition frame_address (s : Link) (frame : Frame) : option EndpointRef :=
  if bool_decide (f_kind frame = KData) then
    if l_peer_bridge s then
      local ← local_source s (f_hash frame) flags.SUB;
      source ← find (λ a, source_hash a =? f_hash frame)%Z (sp_sources (pr_port (lt_port local)));
      Some (static_ref source)
    else
      h ← hello s;
      entry ← find (λ e, (he_hash e =? f_hash frame)%Z && has (he_flags e) flags.PUB)
                   (hello_entries h);
      Some (mkEndpointRef (hl_id h) (he_port entry))
  else
    match local_type s (f_hash frame) with
    | Some local => Some (mkEndpointRef (id s) (sp_name (pr_port (lt_port local))))
    | None =>
        entry ← remote_source s (f_hash frame) flags.CALLS;
        find (λ a, ep_hash a =? f_hash frame)%Z (sources_iter (he_sources entry))
    end.

Definition frame_contract (s : Link) (frame : Frame) : option (str * Z) :=
  if negb (is_fresh s frame) then None else
  let local :=
    match f_kind frame with
    | KData => if l_peer_bridge s then local_source s (f_hash frame) flags.SUB else None
    | KRequest => local_type s (f_hash frame)
    | KReply => local_source s (f_hash frame) flags.CALLS
    | KHello | KError | KPing => None
    end in
  match local with
  | Some t => Some (lt_name t, lt_schema t)
  | None =>
      h ← hello s;
      entry ← (if bool_decide (f_kind frame = KRequest)
               then remote_source s (f_hash frame) flags.CALLS
               else find (λ e, (he_hash e =? f_hash frame)%Z
                               && has (he_flags e) (Z.lor flags.PUB flags.SERVE))
                         (hello_entries h));
      Some (he_name entry, he_schema entry)
  end.

Definition contract_is (s : Link) (frame : Frame) (T : MessageType) : bool :=
  bool_decide (frame_contract s frame = Some (TYPE_NAME T, SCHEMA_FINGERPRINT T)).

(** [prost_decode] is [T::decode(..).ok()]. *)
Definition decode {A} (T : MessageType) (prost_decode : list Z → option A) (s : Link)
    (frame : Frame) : option (option A) :=
  if negb (bool_decide (f_kind frame ∈ [KData; KRequest])) || negb (contract_is s frame T)
  then Some None
  else p ← payload s frame; Some (prost_decode p).

Definition decode_reply {A} (S : Service) (prost_decode : list Z → option A) (s : Link)
    (frame : Frame) : option (option A) :=
  if negb (bool_decide (f_kind frame = KReply)) || negb (contract_is s frame (svc_request S))
  then Some None
  else
    p ← payload s frame;
    Some (if length p <? 8 then None else
          if negb (from_le (take 8 p) =? SCHEMA_FINGERPRINT (svc_response S))%Z then None
          else prost_decode (drop 8 p)).

Definition error_message (s : Link) (frame : Frame) : option str :=
  p ← payload s frame; Some (if utf8_valid p then p else []).

Definition stats (s : Link) : Stats := l_stats s.
End link.
