(* ===== verification/LinkInv.v ===== *)
(** * LinkInv: the invariant of a link, and the operations on its buffers

    [link_ok] is split into named groups: the buffers ([bufs_ok]), the declared
    tables ([local_ok]), the peer's contract ([peer_ok]) and the ranges of the
    counters ([counters_ok]).  The lemmas of this file are about the operations that
    touch the buffers only; each says which fields it changes, so that the other
    groups follow by rewriting. *)

From Stdlib Require Import ZArith Lia.
From S2P Require Import Prelude Text Codec Core Wire Hello HelloSpec HelloParse HelloWrite LinkState Link.

Section invariant.
Context {P : LinkParams}.

(** ** The invariant *)

Record bufs_ok (s : Link) : Prop := {
  bo_frame : OVERHEAD ≤ FRAME;
  bo_scratch : length (l_scratch s) = FRAME;
  bo_scratch_bytes : bytes_ok (l_scratch s);
  bo_hello : length (l_peer_hello s) = FRAME;
  bo_hello_bytes : bytes_ok (l_peer_hello s);
  bo_tx : l_tx_len s ≤ length (l_tx s);
  bo_tx_bytes : bytes_ok (l_tx s);
  bo_rx : l_rx_len s ≤ length (l_rx s);
  bo_rx_bytes : bytes_ok (l_rx s);
  bo_consumed : l_rx_consumed s ≤ l_rx_len s;
}.

(** Rust's typing of the static port table: strings are UTF-8, fingerprints [u64] *)
Record port_typed (p : StaticPort) : Prop := {
  py_name : str_ok (sp_name p);
  py_ty : str_ok (sp_ty p);
  py_schema : is_u64 (sp_schema p);
  py_response : match sp_response p with
                | Some r => str_ok (pt_ty r) ∧ is_u64 (pt_schema r)
                | None => True
                end;
  py_sources : Forall (λ a, str_ok (sa_namespace a) ∧ str_ok (sa_port a)) (sp_sources p);
}.

(** The flags a port of each direction can have in the table *)
Definition flags_of (d : PortDirection) : list Z :=
  match d with
  | DOutput => [flags.PUB; Z.lor flags.PUB flags.LATCHED]
  | DInput => [flags.SUB]
  | DRpcServer => [flags.SERVE]
  | DRpcClient => [flags.CALLS]
  end.

(** A reference into the static table *)
Definition ref_ok (ports : list StaticPort) (r : PortRef) : Prop :=
  ports !! pr_index r = Some (pr_port r).

Record row_ok (ports : list StaticPort) (own : str) (t : LocalType) : Prop := {
  ro_ref : ref_ok ports (lt_port t);
  ro_hash : lt_hash t = endpoint_hash own (sp_name (pr_port (lt_port t)));
  ro_name : lt_name t = sp_ty (pr_port (lt_port t));
  ro_schema : lt_schema t = sp_schema (pr_port (lt_port t));
  ro_flags : lt_flags t ∈ flags_of (sp_direction (pr_port (lt_port t)));
}.

(** The rows of the local table, as a Hello serializes them *)
Definition local_rows (s : Link) : list TEntry := (t_of ∘ local_entry) <$> flatten (l_local s).

Record rows_ok (s : Link) : Prop := {
  rw_id : ∃ i, idbuf_new i = Ok (l_id s) ∧ valid_namespace i = true ∧ str_ok i;
  rw_ports : Forall port_typed (l_ports s);
  rw_rows : Forall (row_ok (l_ports s) (id s)) (flatten (l_local s));
}.

Record local_ok (s : Link) : Prop := {
  lo_rows : rows_ok s;
  lo_local : length (l_local s) = TABLE;
  lo_declared : length (l_declared s) = TABLE;
  lo_refs : Forall (ref_ok (l_ports s)) (flatten (l_declared s));
  lo_covered : ∀ r, r ∈ flatten (l_declared s) →
                 ∃ t, t ∈ flatten (l_local s) ∧ lt_port t = r;
  lo_table : l_bridge s = false → table_ok false (id s) (local_rows s);
}.

(** The peer's contract that is in force, when there is one *)
Record contract_ok (s : Link) (h : Hello) (p : IdBuf) : Prop := {
  co_hello : hello s = Some h;
  co_peer : idbuf_new (hl_id h) = Ok p;
  co_peer_id : l_peer s = Some p;
  co_bridge : l_peer_bridge s = hl_bridge h;
  co_remote : check_remote s h 0 (hello_entries h) (replicate TABLE None) = Ok (l_remote s);
}.

Record peer_ok (s : Link) : Prop := {
  po_remote : length (l_remote s) = TABLE;
  po_pending : length (l_pending s) = TABLE;
  po_hello_len : l_peer_hello_len s ≤ FRAME;
  po_connected : l_connected s = true → l_started s = true ∧ ∃ h p, contract_ok s h p;
  po_disconnected : l_connected s = false →
    l_peer s = None ∧ l_peer_bridge s = false ∧ l_remote s = replicate TABLE None ∧
    l_peer_hello_len s = 0 ∧ l_pending s = replicate TABLE None;
  po_nodup : NoDup (flatten (l_pending s));
}.

Record counters_ok (s : Link) : Prop := {
  ct_data : is_u8 (l_data_seq s);
  ct_req : is_u8 (l_req_seq s);
  ct_generation : is_u16 (l_rx_generation s);
}.

Record link_ok (s : Link) : Prop := {
  ok_bufs : bufs_ok s;
  ok_local : local_ok s;
  ok_peer : peer_ok s;
  ok_counters : counters_ok s;
}.

(** ** Views *)

(** The bytes waiting to be sent, and the bytes received and not yet taken *)
Definition tx_queue (s : Link) : list Z := take (l_tx_len s) (l_tx s).
Definition rx_queue (s : Link) : list Z := take (l_rx_len s) (l_rx s).

(** ** Which fields an operation leaves alone *)

(** The identity, the tables and the peer's contract *)
Record same_core (s s' : Link) : Prop := {
  sc_id : l_id s' = l_id s;
  sc_ports : l_ports s' = l_ports s;
  sc_local : l_local s' = l_local s;
  sc_declared : l_declared s' = l_declared s;
  sc_bridge : l_bridge s' = l_bridge s;
  sc_peer : l_peer s' = l_peer s;
  sc_remote : l_remote s' = l_remote s;
  sc_hello : l_peer_hello s' = l_peer_hello s;
  sc_hello_len : l_peer_hello_len s' = l_peer_hello_len s;
  sc_peer_bridge : l_peer_bridge s' = l_peer_bridge s;
  sc_connected : l_connected s' = l_connected s;
}.

Record same_rx (s s' : Link) : Prop := {
  sr_rx : l_rx s' = l_rx s;
  sr_len : l_rx_len s' = l_rx_len s;
  sr_consumed : l_rx_consumed s' = l_rx_consumed s;
  sr_skip : l_rx_skip s' = l_rx_skip s;
  sr_generation : l_rx_generation s' = l_rx_generation s;
  sr_last : l_last_rx_ms s' = l_last_rx_ms s;
  sr_overflow : rx_overflow (l_stats s') = rx_overflow (l_stats s);
}.

Record same_tx (s s' : Link) : Prop := {
  st_tx : l_tx s' = l_tx s;
  st_len : l_tx_len s' = l_tx_len s;
  st_scratch : l_scratch s' = l_scratch s;
  st_last : l_last_tx_ms s' = l_last_tx_ms s;
}.

Record same_seq (s s' : Link) : Prop := {
  sq_pending : l_pending s' = l_pending s;
  sq_data : l_data_seq s' = l_data_seq s;
  sq_req : l_req_seq s' = l_req_seq s;
}.

Record same_env (s s' : Link) : Prop := {
  se_config : l_config s' = l_config s;
  se_started : l_started s' = l_started s;
  se_now : l_now_ms s' = l_now_ms s;
}.

#[global] Instance same_core_preorder : PreOrder same_core.
Proof. split; [by constructor|]. intros ? ? ? [] []. constructor; congruence. Qed.
#[global] Instance same_rx_preorder : PreOrder same_rx.
Proof. split; [by constructor|]. intros ? ? ? [] []. constructor; congruence. Qed.
#[global] Instance same_tx_preorder : PreOrder same_tx.
Proof. split; [by constructor|]. intros ? ? ? [] []. constructor; congruence. Qed.
#[global] Instance same_seq_preorder : PreOrder same_seq.
Proof. split; [by constructor|]. intros ? ? ? [] []. constructor; congruence. Qed.
#[global] Instance same_env_preorder : PreOrder same_env.
Proof. split; [by constructor|]. intros ? ? ? [] []. constructor; congruence. Qed.

(** Emitting changes the send side only. *)
Record tx_changed (s s' : Link) : Prop := {
  tc_core : same_core s s';
  tc_rx : same_rx s s';
  tc_seq : same_seq s s';
  tc_env : same_env s s';
  tc_length : length (l_tx s') = length (l_tx s);
  tc_bufs : bufs_ok s';
}.

(** Consuming and feeding change the receive side only. *)
Record rx_changed (s s' : Link) : Prop := {
  rc_core : same_core s s';
  rc_tx : same_tx s s';
  rc_seq : same_seq s s';
  rc_env : same_env s s';
  rc_last : l_last_rx_ms s' = l_last_rx_ms s;
  rc_length : length (l_rx s') = length (l_rx s);
  rc_generation : is_u16 (l_rx_generation s) → is_u16 (l_rx_generation s');
  rc_bufs : bufs_ok s';
}.

Lemma tx_changed_refl s : bufs_ok s → tx_changed s s.
Proof. by constructor. Qed.

Lemma tx_changed_trans s1 s2 s3 : tx_changed s1 s2 → tx_changed s2 s3 → tx_changed s1 s3.
Proof. intros [] []. constructor; [by etrans..|congruence|done]. Qed.

Lemma rx_changed_refl s : bufs_ok s → rx_changed s s.
Proof. by constructor. Qed.

Lemma rx_changed_trans s1 s2 s3 : rx_changed s1 s2 → rx_changed s2 s3 → rx_changed s1 s3.
Proof. intros [] []. constructor; [by etrans..|congruence|congruence|auto|done]. Qed.

Lemma check_remote_ext s s' h entries :
  l_local s' = l_local s → l_id s' = l_id s →
  ∀ i remote, check_remote s' h i entries remote = check_remote s h i entries remote.
Proof.
  intros Hl Hi. induction entries as [|e es IH]; intros i remote; [done|].
  cbn [check_remote]. unfold address_collision, local_addresses, id. rewrite Hl, Hi.
  replace (check_locals s' h e (flatten (l_local s)))
    with (check_locals s h e (flatten (l_local s))); [by rewrite IH|].
  induction (flatten (l_local s)) as [|t l IHl]; [done|]. cbn [check_locals].
  rewrite IHl. unfold check_local, id. by rewrite Hi.
Qed.

Lemma local_ok_core s s' : same_core s s' → local_ok s → local_ok s'.
Proof.
  intros [Ei Ep El Ed Eb _ _ _ _ _ _] [[Hi Hp Hr] Hl Hd Hf Hc Ht].
  constructor; [constructor|..]; unfold id, local_rows in *; rewrite ?Ei, ?Ep, ?El, ?Ed, ?Eb; done.
Qed.

Lemma contract_ok_core s s' h p : same_core s s' → contract_ok s h p → contract_ok s' h p.
Proof.
  intros [Ei Ep El Ed Eb Epr Er Eh Ehl Epb Ec] [K1 K2 K3 K4 K5].
  constructor; unfold hello in *; rewrite ?Eh, ?Ehl, ?Epr, ?Er, ?Epb; try done.
  by rewrite (check_remote_ext s).
Qed.

Lemma peer_ok_core s s' :
  same_core s s' → (l_started s = true → l_started s' = true) →
  length (l_pending s') = TABLE → NoDup (flatten (l_pending s')) →
  (l_connected s = false → l_pending s' = replicate TABLE None) →
  peer_ok s → peer_ok s'.
Proof.
  intros Hsc Hst Hpl Hnd Hpd [K1 K2 K3 K4 K5 K6]. pose proof Hsc as [Ei Ep El Ed Eb Epr Er Eh Ehl Epb Ec].
  constructor; try done; rewrite ?Er, ?Ehl, ?Ec, ?Epr, ?Epb; try done.
  - intros E. destruct (K4 E) as (Hs&h&p&Hc). split; [auto|]. exists h, p. by eapply contract_ok_core.
  - intros E. destruct (K5 E) as (?&?&?&?&_). by split_and!; auto.
Qed.

Lemma link_ok_core s s' :
  same_core s s' → (l_started s = true → l_started s' = true) → l_pending s' = l_pending s →
  bufs_ok s' → counters_ok s' → link_ok s → link_ok s'.
Proof.
  intros Hsc Hst Hp Hb Hc [_ Hl Hpe _]. constructor; [done|by eapply local_ok_core| |done].
  eapply peer_ok_core; [done|done|rewrite Hp; by destruct Hpe..| |done].
  rewrite Hp. intros E. by destruct Hpe as [_ _ _ _ (_&_&_&_&?)%(λ f, f E) _].
Qed.

Lemma rows_ok_core s s' : same_core s s' → rows_ok s → rows_ok s'.
Proof.
  intros [Ei Ep El Ed Eb _ _ _ _ _ _] [Hi Hp Hr].
  constructor; unfold id in *; rewrite ?Ei, ?Ep, ?El; done.
Qed.

Lemma link_ok_tx s s' : tx_changed s s' → link_ok s → link_ok s'.
Proof.
  intros [Hc [] [Hp Hd Hr] [_ Hst _] _ Hb] Hs.
  apply (link_ok_core s); [done|by rewrite Hst|done|done| |done].
  destruct Hs as [_ _ _ []]. constructor; congruence.
Qed.
Lemma link_ok_rx s s' : rx_changed s s' → link_ok s → link_ok s'.
Proof.
  intros [Hc _ [Hp Hd Hr] [_ Hst _] _ _ Hg Hb] Hs.
  apply (link_ok_core s); [done|by rewrite Hst|done|done| |done].
  destruct Hs as [_ _ _ []]. constructor; [congruence..|auto].
Qed.
End invariant.

Section buffers.
Context {P : LinkParams} `{CrcOps} `{!CrcLaws} `{CobsOps} `{!CobsLaws}.

(** ** The send buffer *)

Lemma length_tx_queue s : bufs_ok s → length (tx_queue s) = l_tx_len s.
Proof. intros Hb. unfold tx_queue. rewrite length_take. pose proof (bo_tx s Hb). lia. Qed.

Lemma length_rx_queue s : bufs_ok s → length (rx_queue s) = l_rx_len s.
Proof. intros Hb. unfold rx_queue. rewrite length_take. pose proof (bo_rx s Hb). lia. Qed.

(** The part of the scratch buffer a payload of length [n] occupies *)
Definition scratch_payload (s : Link) (n : nat) : list Z := take n (drop HEADER (l_scratch s)).

(** [emit] appends one delimited frame to the send queue, or leaves the queue. *)
Lemma emit_spec k hash seq n s :
  bufs_ok s → is_u32 hash → is_u8 seq →
  wp (emit k hash seq n) (λ r s',
    tx_changed s s' ∧
    match r with
    | Ok _ =>
        OVERHEAD + n ≤ FRAME ∧
        ∃ enc, cobs_block (raw_frame (mkHeader k hash seq) (scratch_payload s n)) enc ∧
               tx_queue s' = tx_queue s ++ enc ++ [DELIMITER] ∧ l_last_tx_ms s' = l_now_ms s
    | Err e =>
        tx_queue s' = tx_queue s ∧
        ((e = TooLarge ∧ FRAME < OVERHEAD + n) ∨
         (e = Full ∧ length (l_tx s) < l_tx_len s + encoded_max (OVERHEAD + n)))
    end) s.
Proof.
  intros Hb Hh Hs. pose proof Hb as [Hfr Hsl Hsb Hhl Hhb Htx Htb Hrx Hrb Hco].
  unfold emit. rewrite wp_bind, wp_focus.
  destruct (decide (OVERHEAD + n ≤ FRAME)) as [Hfit|Hno].
  2:{ eapply wp_eq; [apply seal_too_large; lia|]. cbn beta. wp_steps.
      replace (set_scratch (l_scratch s) s) with s by by destruct s.
      split; [by apply tx_changed_refl|]. split; [done|]. left. split; [done|lia]. }
  eapply wp_eq; [apply seal_spec; lia|]. cbn beta.
  set (raw := raw_frame (mkHeader k hash seq) (take n (drop HEADER (l_scratch s)))).
  assert (Hraw : length raw = OVERHEAD + n).
  { unfold raw. rewrite length_raw_frame, length_take, length_drop. unfold OVERHEAD in *. lia. }
  assert (Hrawb : bytes_ok raw) by (unfold raw; apply raw_frame_ok; [done|auto with reiny]).
  set (sc := raw ++ drop (OVERHEAD + n) (l_scratch s)).
  assert (Hsc : length sc = FRAME) by (unfold sc; rewrite length_app, length_drop; lia).
  assert (Hscb : bytes_ok sc) by (unfold sc; auto with reiny).
  wp_steps. cbn [l_tx l_tx_len set_scratch]. rewrite usub_eq by done. wp_steps.
  destruct (_ <? _) eqn:Ef; breflect_in Ef.
  { wp_steps. split; [|split; [done|right; split; [done|lia]]].
    by constructor. }
  wp_steps. cbn [l_scratch set_scratch]. rewrite slice_eq by lia. wp_steps.
  rewrite drop_0, Nat.sub_0_r.
  assert (Htk : take (OVERHEAD + n) sc = raw)
    by (unfold sc; by rewrite take_app_length' by done).
  rewrite Htk, wp_focus. apply wp_sub_slice; [done|done|]. cbn [l_tx set_scratch].
  rewrite (firstn_all2 (drop (l_tx_len s) (l_tx s))) by (rewrite length_drop; lia).
  destruct (encode_spec raw (drop (l_tx_len s) (l_tx s))) as (m&out'&He&Hlen&Hm&Hob&enc&Ht&Hel&Hblk).
  { intros E. rewrite E in Hraw. cbn in Hraw. unfold OVERHEAD, HEADER in Hraw. lia. }
  { done. } { auto with reiny. } { rewrite length_drop, Hraw. lia. }
  eapply wp_eq; [exact He|]. cbn beta. rewrite Hlen, length_drop. split; [done|].
  rewrite drop_all, app_nil_r. wp_steps. rewrite length_drop in Hm.
  cbn [l_tx_len set_scratch l_now_ms set_tx set_tx_len].
  set (tx' := take (l_tx_len s) (l_tx s) ++ out').
  assert (Htx' : length tx' = length (l_tx s))
    by (unfold tx'; rewrite length_app, length_take, Hlen, length_drop; lia).
  split.
  - constructor; try done. constructor; cbn; try done; [|unfold tx'; auto with reiny]. lia.
  - split; [done|]. exists enc. split; [done|]. split; [|done].
    unfold tx_queue. cbn. unfold tx'. rewrite take_app_ge by (rewrite length_take; lia).
    rewrite length_take, Nat.min_l by lia.
    replace (l_tx_len s + (m + 1) - l_tx_len s) with (m + 1) by lia. by rewrite Ht.
Qed.

(** ** The Hello of the local table *)

Lemma as_str_new i b : idbuf_new i = Ok b → str_ok i → as_str b = i.
Proof.
  unfold idbuf_new, u8_try_from. intros Hn Hs.
  destruct (length i <=? 255); [|done]. rewrite Nat2Z.id in Hn.
  destruct (length i <=? ID_MAX) eqn:E; [|done]. injection Hn as <-. unfold as_str. cbn.
  rewrite Nat2Z.id, take_app_length. by rewrite Hs.
Qed.

Lemma idbuf_new_length i b : idbuf_new i = Ok b → length i ≤ ID_MAX.
Proof.
  unfold idbuf_new, u8_try_from. destruct (length i <=? 255); [|done].
  rewrite Nat2Z.id. destruct (length i <=? ID_MAX) eqn:E; [|done]. by breflect_in E.
Qed.

Lemma rows_id s : rows_ok s → str_ok (id s) ∧ valid_namespace (id s) = true ∧ length (id s) ≤ ID_MAX.
Proof.
  intros [(i&Hi&Hv&Hs) _ _]. unfold id. rewrite (as_str_new i _ Hi Hs).
  split_and!; [done|done|by eapply idbuf_new_length].
Qed.

Lemma row_port s t : rows_ok s → t ∈ flatten (l_local s) → port_typed (pr_port (lt_port t)).
Proof.
  intros [_ Hp Hr] Hin. rewrite Forall_forall in Hr. rewrite Forall_forall in Hp. apply Hp.
  destruct (Hr t Hin) as [Href _ _ _ _]. by eapply list_elem_of_lookup_2.
Qed.

Lemma flags_of_u8 f d : f ∈ flags_of d → is_u8 f ∧ Z.land f flags.SCHEMA_FINGERPRINT = 0%Z.
Proof.
  destruct d; cbn [flags_of]; rewrite ?elem_of_cons, ?elem_of_nil; intros Hin;
    repeat destruct Hin as [->|Hin]; try done; (split; [by split|done]).
Qed.

Lemma static_sources_iter l : sources_iter (SStatic l) = static_ref <$> l.
Proof. done. Qed.

Lemma rows_typed s : rows_ok s → Forall entry_typed (local_entry <$> flatten (l_local s)).
Proof.
  intros Hr. apply Forall_fmap, Forall_forall. intros t Ht.
  destruct (row_port s t Hr Ht) as [Hn Hty Hsc Hre Hso].
  destruct Hr as [_ _ Hrows]. rewrite Forall_forall in Hrows.
  destruct (Hrows t Ht) as [_ _ Hname _ Hf].
  constructor; cbn -[sources_iter].
  - by apply flags_of_u8 in Hf as [? _].
  - rewrite Hname. auto with reiny.
  - auto with reiny.
  - destruct (sp_response _); [|done]. cbn. destruct Hre. auto with reiny.
  - rewrite static_sources_iter. apply Forall_fmap. eapply Forall_impl; [exact Hso|].
    intros a [? ?]. cbn. auto with reiny.
Qed.

Lemma endpoint_hash_u32 ns pt : is_u32 (endpoint_hash ns pt).
Proof.
  unfold endpoint_hash. cbn -[le_bytes fnv_step foldl].
  assert (Hf : ∀ l h, is_u32 h → is_u32 (foldl fnv_step h l)).
  { induction l as [|b l IH]; intros h Hh; [done|]. cbn [foldl]. apply IH.
    unfold fnv_step, wrapping_mul. by apply wrap_range. }
  repeat (apply Hf). by split.
Qed.

Lemma local_rows_entries s : local_rows s = t_of <$> (local_entry <$> flatten (l_local s)).
Proof. unfold local_rows. by rewrite list_fmap_compose. Qed.

Lemma rows_wire s :
  rows_ok s → table_encodable (id s) (local_rows s) = true → table_wire (id s) (local_rows s).
Proof.
  intros Hr Henc. unfold table_encodable, name_fits in Henc. breflect_in Henc.
  destruct Henc as [[Hid Hn] Hes]. destruct (rows_id s Hr) as (Hids&_&_).
  split_and!; [done|done|]. rewrite forallb_Forall in Hes.
  unfold local_rows in *. rewrite Forall_fmap in Hes. rewrite Forall_fmap. rewrite Forall_forall in Hes. rewrite Forall_forall.
  intros t Ht. specialize (Hes t Ht). cbn beta in Hes. unfold compose in *.
  destruct (row_port s t Hr Ht) as [Hnm Hty Hsc Hre Hso].
  destruct Hr as [_ _ Hrows]. rewrite Forall_forall in Hrows.
  destruct (Hrows t Ht) as [_ Hh Hname Hschema Hf]. apply flags_of_u8 in Hf as [Hf Hfb].
  unfold entry_encodable, name_fits, t_of in Hes. cbn -[sources_iter] in Hes.
  rewrite !andb_true_iff, !Nat.leb_le, forallb_Forall in Hes.
  destruct Hes as ((((K1&K2)&K3)&K4)&K5).
  constructor; cbn -[sources_iter]; try done.
  - rewrite Hh. apply endpoint_hash_u32.
  - by rewrite Hschema.
  - split; [by rewrite Hname|done].
  - destruct (sp_response _) as [r|]; [|done]. destruct Hre as [Hr1 Hr2]. cbn in *.
    apply Nat.leb_le in K3. done.
  - rewrite static_sources_iter in *. rewrite Forall_fmap in K5. rewrite Forall_fmap.
    rewrite Forall_forall in K5. rewrite Forall_forall in Hso. rewrite Forall_forall. intros a Ha. specialize (K5 a Ha). cbn in K5.
    rewrite andb_true_iff, !Nat.leb_le in K5. destruct (Hso a Ha), K5. by split; split.
Qed.

(** [hello_payload] writes the local table behind the header of the scratch
    buffer, or fails. *)
Lemma hello_payload_spec ack s :
  bufs_ok s → rows_ok s →
  wp (hello_payload ack) (λ r s',
    (∃ sc, s' = set_scratch sc s) ∧ bufs_ok s' ∧
    match r with
    | Ok len =>
        let b := hello_bytes ack (l_bridge s) (id s) (local_rows s) in
        len = length b ∧ OVERHEAD + len ≤ FRAME ∧ scratch_payload s' len = b ∧
        table_wire (id s) (local_rows s) ∧ table_ok (l_bridge s) (id s) (local_rows s)
    | Err e => e = TooLarge ∨ e = InvalidPorts
    end) s.
Proof.
  intros Hb Hr. pose proof Hb as [Hfr Hsl Hsb Hhl Hhb Htx Htb Hrx Hrb Hco].
  unfold hello_payload. wp_steps. assert (Hfr' : HEADER + TRAILER ≤ FRAME) by exact Hfr.
  rewrite usub_eq by lia. wp_steps.
  rewrite wp_focus. apply wp_sub_slice; [unfold HEADER, TRAILER in *; lia|lia|].
  set (es := local_entry <$> flatten (l_local s)).
  set (out := take _ (drop HEADER (l_scratch s))).
  assert (Hout : length out = FRAME - TRAILER - HEADER)
    by (unfold out; rewrite length_take, length_drop; lia).
  assert (Houtb : bytes_ok out) by (unfold out; auto with reiny).
  destruct (rows_id s Hr) as (Hids&Hidv&_).
  set (b := hello_bytes ack (l_bridge s) (id s) (local_rows s)).
  assert (Hrows : t_of <$> es = local_rows s) by (by rewrite local_rows_entries).
  assert (Hupd : ∀ part, length part = length out → bytes_ok part →
    bufs_ok (set_scratch (take HEADER (l_scratch s) ++ part ++ drop (FRAME - TRAILER) (l_scratch s)) s)).
  { intros part Hl Hpb. constructor; cbn [set_scratch l_scratch l_peer_hello l_tx l_tx_len l_rx l_rx_len l_rx_consumed];
      try done; [|auto with reiny].
    rewrite !length_app, length_take, length_drop. lia. }
  destruct (decide (table_encodable (id s) (local_rows s) = true ∧ length b ≤ length out)) as [[He Hl]|Hno].
  - pose proof (rows_wire s Hr He) as Hw.
    assert (Hbb : bytes_ok b) by by apply hello_bytes_ok.
    eapply wp_eq.
    { apply hello_write_fits; rewrite Hrows; [done|exact Hl]. }
    rewrite Hrows. fold b. cbn beta.
    split; [rewrite length_app, length_drop; lia|]. wp_steps. cbn [l_scratch set_scratch].
    set (sc := take HEADER (l_scratch s) ++ (b ++ drop (length b) out) ++ drop (FRAME - TRAILER) (l_scratch s)).
    assert (Hsc : length sc = FRAME)
      by (unfold sc; rewrite !length_app, length_take, !length_drop; lia).
    rewrite slice_eq by (unfold HEADER, TRAILER in *; lia). wp_steps.
    assert (Hpay : take (length b) (drop HEADER sc) = b).
    { unfold sc. rewrite drop_app_length' by (rewrite length_take; lia).
      rewrite <- app_assoc. by rewrite take_app_length. }
    replace (HEADER + length b - HEADER) with (length b) by lia. rewrite Hpay.
    assert (Hbufs : bufs_ok (set_scratch sc s)).
    { apply Hupd; [rewrite length_app, length_drop; lia|auto with reiny]. }
    destruct (hello_parse b) as [h|] eqn:Ep; wp_steps.
    + split; [by eexists|]. split; [done|]. split_and!; try done.
      * unfold OVERHEAD, HEADER, TRAILER in *. lia.
      * by eapply hello_parse_table.
    + split; [by eexists|]. split; [done|by right].
  - destruct (hello_write_too_large ack (l_bridge s) (id s) es out) as (out'&Ew&Hl').
    + rewrite Hrows. intros He. fold b. destruct (decide (length b ≤ length out)); [tauto|lia].
    + assert (Hob' : bytes_ok out').
      { eapply hello_write_bytes; [|by apply rows_typed|exact Houtb|exact Ew]. auto with reiny. }
      eapply wp_eq; [exact Ew|]. cbn beta. split; [lia|]. wp_steps.
      split; [by eexists|]. split; [by apply Hupd|by left].
Qed.
End buffers.
