(* ===== verification/LinkIo.v ===== *)
(** * LinkIo: the byte streams of a link

    The send buffer is a queue of delimited frames: [emit] appends one, [drain]
    takes any prefix and [drain_frame] takes exactly the first frame.  The receive
    buffer is refined by a byte-at-a-time automaton ([rx_byte]), so that how the
    caller splits its input does not matter. *)

From Stdlib Require Import ZArith Lia.
From S2P Require Import Prelude Text Codec Core Wire Hello HelloSpec HelloParse HelloWrite LinkState Link LinkInv.

Section io.
Context {P : LinkParams} `{CrcOps} `{!CrcLaws} `{CobsOps} `{!CobsLaws}.

(** ** Starting *)

(** The bytes [b] are one encoded frame with its delimiter. *)
Definition frame_bytes (h : Header) (payload b : list Z) : Prop :=
  ∃ enc, cobs_block (raw_frame h payload) enc ∧ b = enc ++ [DELIMITER].

Definition own_hello (ack : bool) (s : Link) : list Z :=
  hello_bytes ack (l_bridge s) (id s) (local_rows s).

Lemma tx_changed_scratch s sc : bufs_ok (set_scratch sc s) → tx_changed s (set_scratch sc s).
Proof.
  by constructor.
Qed.

Lemma queue_hello_spec ack s :
  bufs_ok s → rows_ok s →
  wp (queue_hello ack) (λ r s',
    tx_changed s s' ∧
    match r with
    | Ok _ => ∃ b, frame_bytes (mkHeader KHello 0 0) (own_hello ack s) b ∧
                   tx_queue s' = tx_queue s ++ b
    | Err _ => tx_queue s' = tx_queue s
    end) s.
Proof.
  intros Hb Hr. unfold queue_hello. rewrite wp_bind_try.
  eapply wp_mono; [by apply hello_payload_spec|]. intros r s1 ((sc&->)&Hb1&Hcase).
  destruct r as [len|e]; [|split; [by apply tx_changed_scratch|done]].
  destruct Hcase as (->&_&Hpay&_&_).
  eapply wp_mono; [apply emit_spec; [done|by split|by split]|].
  intros r s2 (Ht&Hc). split; [eapply tx_changed_trans; [by apply tx_changed_scratch|done]|].
  destruct r as [[]|e].
  - destruct Hc as (_&enc&Hblk&Hq&_). rewrite Hpay in Hblk. exists (enc ++ [DELIMITER]).
    split; [|done]. by exists enc.
  - by destruct Hc as [Hq _].
Qed.

Lemma ensure_started_spec s :
  bufs_ok s → rows_ok s →
  wp ensure_started (λ _ s',
    tx_changed (set_started true s) s' ∧ (l_started s = true → s' = s) ∧
    (tx_queue s' = tx_queue s ∨
     ∃ b, frame_bytes (mkHeader KHello 0 0) (own_hello false s) b ∧ tx_queue s' = tx_queue s ++ b)) s.
Proof.
  intros Hb Hr. unfold ensure_started. wp_steps.
  assert (Hb' : bufs_ok (set_started true s)) by (destruct Hb; by constructor).
  destruct (l_started s) eqn:E; wp_steps.
  - replace (set_started true s) with s by (destruct s; cbn in *; by subst).
    split_and!; [by apply tx_changed_refl|done|by left].
  - assert (Hr' : rows_ok (set_started true s)) by (destruct Hr; by constructor).
    eapply wp_mono; [by apply queue_hello_spec|]. intros r s' [Ht Hc]. wp_steps.
    split_and!; [done|done|]. destruct r; [by right|by left].
Qed.

(** ** The send queue *)

Lemma tx_consume_spec n s :
  bufs_ok s → n ≤ l_tx_len s →
  wp (tx_consume n) (λ _ s', tx_changed s s' ∧ tx_queue s' = drop n (tx_queue s) ∧
                             l_stats s' = l_stats s) s.
Proof.
  intros Hb Hn. pose proof Hb as [Hfr Hsl Hsb Hhl Hhb Htx Htb Hrx Hrb Hco].
  unfold tx_consume. wp_steps.
  destruct (copy_within_front n (l_tx_len s) (l_tx s)) as (tx'&E&Hl&Ht); [done|done|].
  rewrite E. wp_steps. rewrite usub_eq by done. wp_steps. split; [|split; [|done]].
  - constructor; try done. constructor; cbn; try done; [lia|].
    exact (copy_within_bytes _ _ _ _ _ Htb E).
  - unfold tx_queue. cbn. by rewrite Ht.
Qed.

Lemma drain_spec out s :
  bufs_ok s → rows_ok s →
  wp (drain out) (λ '(n, out') s',
    tx_changed (set_started true s) s' ∧
    ∃ q, (l_started s = true → q = tx_queue s) ∧
      n = Nat.min (length q) (length out) ∧
      out' = take n q ++ drop n out ∧ tx_queue s' = drop n q) s.
Proof.
  intros Hb Hr. unfold drain. rewrite wp_bind.
  eapply wp_mono; [by apply ensure_started_spec|]. intros [] s1 (Ht&Hst&_).
  pose proof (tc_bufs _ _ Ht) as Hb1. pose proof (length_tx_queue s1 Hb1) as Hlen. wp_steps.
  set (n := Nat.min _ _). pose proof (bo_tx s1 Hb1) as Htx.
  rewrite slice_eq by lia. wp_steps. rewrite drop_0, Nat.sub_0_r.
  assert (Htk : take n (l_tx s1) = take n (tx_queue s1))
    by (unfold tx_queue; rewrite take_take; f_equal; lia).
  rewrite Htk, copy_at_eq by (rewrite length_take; lia). wp_steps. rewrite take_0, app_nil_l.
  eapply wp_mono; [apply tx_consume_spec; [done|lia]|]. intros [] s2 (Ht2&Hq&_). wp_steps.
  split; [by eapply tx_changed_trans|]. exists (tx_queue s1).
  split; [by intros E; rewrite (Hst E)|]. rewrite Hlen. split; [done|]. split; [|done].
  f_equal. f_equal. rewrite length_take. cbn. lia.
Qed.

(** The first frame of a queue: up to and with the first delimiter *)
Definition first_frame (q : list Z) : option nat := option_map (λ i, i + 1) (position is_delimiter q).

Lemma drain_frame_spec out s :
  bufs_ok s → rows_ok s →
  wp (drain_frame out) (λ '(n, out') s',
    tx_changed (set_started true s) s' ∧
    ∃ q, (l_started s = true → q = tx_queue s) ∧
      match first_frame q with
      | None => n = None ∧ out' = out ∧ tx_queue s' = q
      | Some e =>
          tx_queue s' = drop e q ∧
          if e <=? length out then n = Some e ∧ out' = take e q ++ drop e out
          else n = None ∧ out' = out
      end) s.
Proof.
  intros Hb Hr. unfold drain_frame. rewrite wp_bind.
  eapply wp_mono; [by apply ensure_started_spec|]. intros [] s1 (Ht&Hst&_).
  pose proof (tc_bufs _ _ Ht) as Hb1. pose proof (length_tx_queue s1 Hb1) as Hlen. wp_steps.
  pose proof (bo_tx s1 Hb1) as Htx.
  rewrite slice_eq by lia. wp_steps. rewrite drop_0, Nat.sub_0_r. fold (tx_queue s1).
  assert (Hq1 : l_started s = true → tx_queue s1 = tx_queue s) by (by intros E; rewrite (Hst E)).
  destruct (position is_delimiter (tx_queue s1)) as [i|] eqn:Ei.
  2:{ wp_steps. split; [done|]. exists (tx_queue s1). unfold first_frame. by rewrite Ei. }
  pose proof (position_lt _ _ _ Ei) as Hi.
  destruct (length out <? i + 1) eqn:Eo; breflect_in Eo.
  - rewrite wp_bind. eapply wp_mono; [apply tx_consume_spec; [done|lia]|].
    intros [] s2 (Ht2&Hq&_). wp_steps. split.
    + eapply tx_changed_trans; [exact Ht|]. eapply tx_changed_trans; [exact Ht2|].
      constructor; try done. by destruct (tc_bufs _ _ Ht2); constructor.
    + exists (tx_queue s1). split; [done|]. unfold first_frame. rewrite Ei. cbn [option_map].
      split; [done|]. by rewrite (proj2 (Nat.leb_gt _ _)) by lia.
  - wp_steps. rewrite slice_eq by lia. wp_steps. rewrite drop_0, Nat.sub_0_r.
    assert (Htk : take (i + 1) (l_tx s1) = take (i + 1) (tx_queue s1))
      by (unfold tx_queue; rewrite take_take; f_equal; lia).
    rewrite Htk, copy_at_eq by (rewrite length_take; lia). wp_steps. rewrite take_0, app_nil_l.
    eapply wp_mono; [apply tx_consume_spec; [done|lia]|]. intros [] s2 (Ht2&Hq&_). wp_steps.
    split; [by eapply tx_changed_trans|]. exists (tx_queue s1). split; [done|].
    unfold first_frame. rewrite Ei. cbn [option_map]. split; [done|].
    rewrite (proj2 (Nat.leb_le _ _)) by lia. split; [done|].
    f_equal. f_equal. rewrite length_take. cbn. lia.
Qed.

(** A frame at the front of a queue is what [drain_frame] takes. *)
Lemma first_frame_app h p b q : frame_bytes h p b → first_frame (b ++ q) = Some (length b).
Proof.
  intros (enc&(_&Hnz&_)&->). unfold first_frame.
  assert (E : position is_delimiter ((enc ++ [DELIMITER]) ++ q) = Some (length enc)).
  { apply position_Some. exists enc, DELIMITER, q. rewrite <- app_assoc. split_and!; try done.
    eapply Forall_impl; [exact Hnz|]. intros x Hx. by apply Z.eqb_neq. }
  rewrite E. cbn [option_map]. rewrite length_app. done.
Qed.

(** ** The receive queue *)

Lemma rx_discard_spec n s :
  bufs_ok s → n ≤ l_rx_len s → l_rx_consumed s = 0 →
  wp (rx_discard n) (λ _ s', rx_changed s s' ∧ rx_queue s' = drop n (rx_queue s) ∧
    l_rx_consumed s' = 0 ∧ l_rx_skip s' = l_rx_skip s ∧ l_stats s' = l_stats s ∧
    l_rx_len s' = l_rx_len s - n) s.
Proof.
  intros Hb Hn Hc. pose proof Hb as [Hfr Hsl Hsb Hhl Hhb Htx Htb Hrx Hrb Hco].
  unfold rx_discard. wp_steps.
  destruct (copy_within_front n (l_rx_len s) (l_rx s)) as (rx'&E&Hl&Ht); [done|done|].
  rewrite E. wp_steps. rewrite usub_eq by done. wp_steps. split_and!; try done.
  - constructor; try done; [intros _; by apply wrap_range|].
    constructor; cbn; try done; [lia|exact (copy_within_bytes _ _ _ _ _ Hrb E)|lia].
Qed.

Lemma rx_compact_spec s :
  bufs_ok s →
  wp rx_compact (λ _ s', rx_changed s s' ∧ rx_queue s' = drop (l_rx_consumed s) (rx_queue s) ∧
    l_rx_consumed s' = 0 ∧ l_rx_skip s' = l_rx_skip s ∧ l_stats s' = l_stats s ∧
    l_rx_len s' = l_rx_len s - l_rx_consumed s) s.
Proof.
  intros Hb. unfold rx_compact. wp_steps. destruct (0 <? l_rx_consumed s) eqn:E; breflect_in E.
  - wp_steps.
    assert (Hb' : bufs_ok (set_rx_consumed 0 s)) by (destruct Hb; constructor; cbn; try done; lia).
    eapply wp_mono; [apply rx_discard_spec; [done|apply Hb|done]|].
    intros [] s' (Hc&Hq&Hcs&Hk&Hst&Hl). split_and!; try done.
    eapply rx_changed_trans; [|exact Hc]. by constructor.
  - assert (l_rx_consumed s = 0) as -> by lia. wp_steps.
    split_and!; try done; lia.
Qed.

(** The receive side, byte by byte: what is held, whether an overlong frame is
    being skipped, and the overflow counter *)
Record RxState : Type := mkRx { ra_held : list Z; ra_skip : bool; ra_over : Z }.

(** One byte; [None] is "not accepted": the buffer is full and holds a complete
    frame.  A byte that finds the buffer full of an incomplete frame drops the
    held bytes and starts skipping up to the next delimiter. *)
Definition rx_byte (cap : nat) (a : RxState) (b : Z) : option RxState :=
  if ra_skip a then Some (mkRx (ra_held a) (negb (is_delimiter b)) (ra_over a)) else
  if length (ra_held a) <? cap then Some (mkRx (ra_held a ++ [b]) false (ra_over a)) else
  if existsb is_delimiter (ra_held a) then None else
  Some (mkRx [] (negb (is_delimiter b)) (wrapping_add 32 (ra_over a) 1)).

(** As many bytes as are accepted *)
Fixpoint rx_bytes (cap : nat) (a : RxState) (l : list Z) : nat * RxState :=
  match l with
  | [] => (0, a)
  | b :: l' =>
      match rx_byte cap a b with
      | None => (0, a)
      | Some a' => let '(n, a'') := rx_bytes cap a' l' in (S n, a'')
      end
  end.

Definition rx_abs (s : Link) : RxState :=
  mkRx (rx_queue s) (l_rx_skip s) (rx_overflow (l_stats s)).

Lemma rx_bytes_app cap a l1 l2 :
  rx_bytes cap a (l1 ++ l2) =
  let '(n, a1) := rx_bytes cap a l1 in
  if n <? length l1 then (n, a1)
  else let '(m, a2) := rx_bytes cap a1 l2 in (n + m, a2).
Proof.
  revert a. induction l1 as [|b l1 IH]; intros a; cbn [app rx_bytes length].
  - cbn. by destruct (rx_bytes cap a l2).
  - destruct (rx_byte cap a b) as [a'|]; [|done]. rewrite IH.
    destruct (rx_bytes cap a' l1) as [n a1].
    destruct (n <? length l1) eqn:E1, (S n <? S (length l1)) eqn:E2; breflect_in E1; breflect_in E2;
      try lia; [done|]. by destruct (rx_bytes cap a1 l2).
Qed.

Lemma rx_bytes_le cap l a : (rx_bytes cap a l).1 ≤ length l.
Proof.
  revert a. induction l as [|b l IH]; intros a; cbn; [lia|].
  destruct (rx_byte cap a b) as [a'|]; cbn; [|lia]. specialize (IH a').
  destruct (rx_bytes cap a' l). cbn in *. lia.
Qed.

Lemma rx_bytes_hold cap l held over :
  length held + length l ≤ cap →
  rx_bytes cap (mkRx held false over) l = (length l, mkRx (held ++ l) false over).
Proof.
  revert held. induction l as [|b l IH]; intros held Hc; cbn [rx_bytes length].
  - by rewrite app_nil_r.
  - cbn [length] in Hc. unfold rx_byte. cbn [ra_skip ra_held ra_over].
    rewrite (proj2 (Nat.ltb_lt _ _)) by lia.
    rewrite IH by (rewrite length_app; cbn; lia). by rewrite <- app_assoc.
Qed.

Lemma rx_bytes_skip cap l held over :
  Forall (λ b, is_delimiter b = false) l →
  rx_bytes cap (mkRx held true over) l = (length l, mkRx held true over).
Proof.
  induction 1 as [|b l Hb _ IH]; cbn [rx_bytes length]; [done|].
  unfold rx_byte. cbn [ra_skip ra_held ra_over]. rewrite Hb. cbn [negb]. by rewrite IH.
Qed.

(** An overflow drops the held bytes before the first byte is looked at. *)
Lemma rx_bytes_overflow cap l held over :
  l ≠ [] → cap ≤ length held → existsb is_delimiter held = false →
  rx_bytes cap (mkRx held false over) l
  = rx_bytes cap (mkRx [] true (wrapping_add 32 over 1)) l.
Proof.
  intros Hl Hc Hd. destruct l as [|b l]; [done|]. cbn [rx_bytes]. unfold rx_byte.
  cbn [ra_skip ra_held ra_over]. rewrite (proj2 (Nat.ltb_ge _ _)) by done. by rewrite Hd.
Qed.

(** What [feed_loop] needs of its fuel *)
Definition feed_fuel (skip : bool) (rest : list Z) : nat :=
  2 * length rest + (if skip then 1 else 2).

Lemma feed_loop_spec fuel total rest s :
  bufs_ok s → l_rx_consumed s = 0 → bytes_ok rest → length rest ≤ total →
  feed_fuel (l_rx_skip s) rest ≤ fuel →
  wp (feed_loop fuel total rest) (λ n s',
    rx_changed s s' ∧ l_rx_consumed s' = 0 ∧
    let '(m, a) := rx_bytes (length (l_rx s)) (rx_abs s) rest in
    n = total - length rest + m ∧ rx_abs s' = a) s.
Proof.
  revert rest s. induction fuel as [|fuel IH]; intros rest s Hb Hc Hr Ht Hf;
    [unfold feed_fuel in Hf; destruct (l_rx_skip s); lia|].
  pose proof Hb as [Hfr Hsl Hsb Hhl Hhb Htx Htb Hrx Hrb Hco]. cbn [feed_loop].
  case_bool_decide as Enil; [subst rest; wp_steps; cbn in *; split_and!; auto using rx_changed_refl; lia|].
  unfold feed_fuel in Hf, IH. wp_steps.
  destruct (l_rx_skip s) eqn:Ek.
  { destruct (position is_delimiter rest) as [i|] eqn:Ei; wp_steps.
    - pose proof Ei as (l1&x&l2&->&<-&Hx&Hl1)%position_Some.
      rewrite length_app in *. cbn [length] in *.
      replace (drop (length l1 + 1) (l1 ++ x :: l2)) with l2.
      2:{ rewrite (cons_middle x l1 l2), app_assoc. rewrite drop_app_length'; [done|].
          rewrite length_app. done. }
      apply Forall_app in Hr as [_ Hr]. apply Forall_cons in Hr as [_ Hr].
      eapply wp_mono; [apply IH; cbn; try done; lia|].
      intros n s' (Hch&Hcs&Hcase). split; [|split; [done|]].
      { eapply rx_changed_trans; [|exact Hch]. by constructor. }
      rewrite (cons_middle x l1 l2), app_assoc. unfold rx_abs at 1. rewrite Ek.
      rewrite rx_bytes_app, rx_bytes_app, rx_bytes_skip by done. cbn [length].
      rewrite Nat.ltb_irrefl. cbn [rx_bytes]. unfold rx_byte at 1. cbn [ra_skip ra_held ra_over].
      rewrite Hx. cbn [negb]. rewrite length_app. cbn [length].
      rewrite (proj2 (Nat.ltb_ge _ _)) by lia.
      change (mkRx (rx_queue s) false (rx_overflow (l_stats s))) with (rx_abs (set_rx_skip false s)).
      change (length (l_rx (set_rx_skip false s))) with (length (l_rx s)) in Hcase.
      destruct (rx_bytes _ _ l2) as [m a]. destruct Hcase as [-> Hcase]. split; [lia|done].
    - apply position_None in Ei. split; [by apply rx_changed_refl|]. split; [done|].
      unfold rx_abs at 1. rewrite Ek, rx_bytes_skip by done.
      split; [lia|]. unfold rx_abs. by rewrite Ek. }
  rewrite usub_eq by done. wp_steps.
  assert (Habs : rx_abs s = mkRx (rx_queue s) false (rx_overflow (l_stats s)))
    by (unfold rx_abs; by rewrite Ek).
  destruct (_ =? 0) eqn:Efree; breflect_in Efree.
  - wp_steps. rewrite slice_eq by lia. wp_steps. rewrite drop_0, Nat.sub_0_r. fold (rx_queue s).
    pose proof (length_rx_queue s Hb) as Hlq.
    destruct (existsb is_delimiter (rx_queue s)) eqn:Ed.
    + wp_steps. rewrite usub_eq by lia. split; [by apply rx_changed_refl|]. split; [done|].
      destruct rest as [|b rest]; [done|]. cbn [rx_bytes]. unfold rx_byte. rewrite Habs.
      cbn [ra_skip ra_held ra_over]. rewrite (proj2 (Nat.ltb_ge _ _)) by lia. rewrite Ed.
      split; [lia|done].
    + wp_steps. set (s1 := bump_rx_overflow _).
      assert (Hb1 : bufs_ok s1) by (constructor; cbn; try done; lia).
      eapply wp_mono; [apply IH; cbn; try done; lia|].
      intros n s' (Hch&Hcs&Hcase). split; [|split; [done|]].
      { eapply rx_changed_trans; [|exact Hch]. by constructor. }
      rewrite Habs, rx_bytes_overflow by (done || lia). exact Hcase.
  - wp_steps. set (n := Nat.min _ _).
    assert (Hn : 1 ≤ n ∧ n ≤ length rest ∧ l_rx_len s + n ≤ length (l_rx s))
      by (destruct rest; [done|unfold n; cbn [length]; lia]).
    rewrite copy_at_eq by (rewrite length_take; lia). wp_steps.
    rewrite length_take, Nat.min_l by lia.
    set (rx' := take (l_rx_len s) (l_rx s) ++ _).
    assert (Hl' : length rx' = length (l_rx s))
      by (unfold rx'; rewrite !length_app, !length_take, length_drop; lia).
    set (s1 := set_rx_len _ _).
    assert (Hb1 : bufs_ok s1)
      by (constructor; cbn; try done; [lia|unfold rx'; auto with reiny|lia]).
    eapply wp_mono; [apply IH; cbn; try done; [by apply Forall_drop|..]|].
    { rewrite length_drop. lia. } { rewrite Ek, length_drop. lia. }
    intros m s' (Hch&Hcs&Hcase). split; [|split; [done|]].
    { eapply rx_changed_trans; [|exact Hch]. by constructor. }
    replace (rx_bytes (length (l_rx s)) (rx_abs s) rest)
      with (rx_bytes (length (l_rx s)) (rx_abs s) (take n rest ++ drop n rest)) by (by rewrite take_drop).
    rewrite rx_bytes_app, Habs, rx_bytes_hold.
    2:{ rewrite length_rx_queue, length_take by done. lia. }
    rewrite Nat.ltb_irrefl.
    assert (Habs1 : rx_abs s1 = mkRx (rx_queue s ++ take n rest) false (rx_overflow (l_stats s))).
    { unfold rx_abs, rx_queue. cbn. rewrite Ek. f_equal. unfold rx'.
      rewrite app_assoc. rewrite take_app_length'; [done|].
      rewrite length_app, !length_take. lia. }
    change (length (l_rx s1)) with (length rx') in Hcase. rewrite Hl', Habs1 in Hcase.
    destruct (rx_bytes _ _ (drop n rest)) as [k a]. destruct Hcase as [-> Hcase].
    split; [|done]. rewrite length_drop, length_take. lia.
Qed.

Lemma feed_spec bytes s :
  bufs_ok s → rows_ok s → bytes_ok bytes →
  wp (feed bytes) (λ n s',
    ∃ s1, tx_changed (set_started true s) s1 ∧ (l_started s = true → s1 = s) ∧ rx_changed s1 s' ∧
    l_rx_consumed s' = 0 ∧
    let '(m, a) := rx_bytes (length (l_rx s))
      (mkRx (drop (l_rx_consumed s) (rx_queue s)) (l_rx_skip s) (rx_overflow (l_stats s1))) bytes in
    n = m ∧ rx_abs s' = a) s.
Proof.
  intros Hb Hr Hby. unfold feed. rewrite wp_bind.
  eapply wp_mono; [by apply ensure_started_spec|]. intros [] s1 (Ht&Hst&_).
  pose proof Ht as [Hcore1 [Erx Erl Ecs Esk _ _ _] _ _ _ Hb1]. cbn in Erx, Erl, Ecs, Esk. wp_steps.
  eapply wp_mono; [by apply rx_compact_spec|]. intros [] s2 (Hc2&Hq2&Hcs2&Hk2&Hst2&_).
  pose proof (rc_length _ _ Hc2) as Hl2. pose proof (rc_bufs _ _ Hc2) as Hb2.
  eapply wp_mono; [apply feed_loop_spec; [done|done|done|done|]|].
  { unfold feed_fuel. destruct (l_rx_skip s2); lia. }
  intros n s3 (Hc3&Hcs3&Hcase). exists s1. split_and!; try done; [by eapply rx_changed_trans|].
  assert (Hq1 : rx_queue s1 = rx_queue s) by (unfold rx_queue; by rewrite Erx, Erl).
  unfold rx_abs at 1 in Hcase. rewrite Hl2, Erx, Hq2, Hq1, Ecs, Hk2, Esk, Hst2 in Hcase.
  destruct (rx_bytes _ _ bytes) as [m a]. destruct Hcase as [-> Hcase]. split; [lia|done].
Qed.
End io.
