(* ===== verification/LinkSend.v ===== *)
(** * LinkSend: the senders

    Payloads in the scratch buffer, and the frames that [send], [request], [reply]
    and their raw forms append to the send queue.  The correlation ids of
    outstanding requests are kept distinct. *)

From Stdlib Require Import ZArith Lia.
From S2P Require Import Prelude Text Codec Core Wire Hello HelloSpec HelloParse HelloWrite LinkState Link LinkInv LinkIo.

(** What prost documents of an encoder: a buffer of [encoded_len] bytes is enough,
    and is filled. *)
Definition message_bytes (m : Message) (b : list Z) : Prop :=
  encode_to m (encoded_len m) = Some b ∧ length b = encoded_len m ∧ bytes_ok b.
Definition message_ok (m : Message) : Prop := ∃ b, message_bytes m b.

Section send.
Context {P : LinkParams} `{CrcOps} `{!CrcLaws} `{CobsOps} `{!CobsLaws}.

(** ** Starting keeps the invariant *)

Lemma link_ok_started s : link_ok s → link_ok (set_started true s).
Proof.
  intros Hs. apply (link_ok_core s); [by constructor|done|done| | |exact Hs].
  - by destruct Hs as [[] _ _ _].
  - by destruct Hs as [_ _ _ []].
Qed.

Lemma link_ok_rows s : link_ok s → rows_ok s.
Proof. by intros [_ [? _ _ _ _ _] _ _]. Qed.

(** ** Payloads *)

(** The scratch buffer after a payload [b] was put behind the header *)
Lemma scratch_put b s :
  bufs_ok s → bytes_ok b → length b ≤ payload_max →
  ∃ sc, copy_at HEADER b (l_scratch s) = Some sc ∧ tx_changed s (set_scratch sc s) ∧
        scratch_payload (set_scratch sc s) (length b) = b ∧ OVERHEAD + length b ≤ FRAME.
Proof.
  intros Hb Hbb Hl. pose proof Hb as [Hfr Hsl Hsb Hhl Hhb Htx Htb Hrx Hrb Hco].
  unfold payload_max, OVERHEAD in *.
  destruct (copy_at HEADER b (l_scratch s)) as [sc|] eqn:E.
  2:{ rewrite copy_at_eq in E by lia. done. }
  exists sc. split_and!; [done| |by eapply copy_at_window|lia].
  apply tx_changed_scratch. pose proof (copy_at_length _ _ _ _ E) as Hl'.
  apply copy_at_Some in E as [_ E].
  constructor; cbn; try done; [congruence|]. rewrite E. auto with reiny.
Qed.

Lemma copy_payload_spec b s :
  bufs_ok s → bytes_ok b →
  wp (copy_payload b) (λ r s',
    tx_changed s s' ∧ tx_queue s' = tx_queue s ∧
    match r with
    | Ok len => len = length b ∧ scratch_payload s' len = b ∧ OVERHEAD + len ≤ FRAME
    | Err e => e = TooLarge ∧ payload_max < length b
    end) s.
Proof.
  intros Hb Hbb. unfold copy_payload. destruct (_ <? _) eqn:E; breflect_in E; wp_steps.
  - split_and!; [by apply tx_changed_refl|done|done|done].
  - destruct (scratch_put b s Hb Hbb E) as (sc&->&Ht&Hp&Hf). wp_steps. by split_and!.
Qed.

Lemma encode_payload_spec m b s :
  bufs_ok s → message_bytes m b →
  wp (encode_payload m) (λ r s',
    tx_changed s s' ∧ tx_queue s' = tx_queue s ∧
    match r with
    | Ok len => len = length b ∧ scratch_payload s' len = b ∧ OVERHEAD + len ≤ FRAME
    | Err e => e = TooLarge ∧ payload_max < length b
    end) s.
Proof.
  intros Hb (Henc&Hl&Hbb). unfold encode_payload. rewrite <- Hl in *.
  destruct (_ <? _) eqn:E; breflect_in E; wp_steps.
  - split_and!; [by apply tx_changed_refl|done|done|done].
  - pose proof (bo_scratch s Hb) as Hsl. pose proof (bo_frame s Hb) as Hfr.
    unfold payload_max, OVERHEAD in *.
    rewrite slice_eq by lia. wp_steps.
    rewrite length_take, length_drop.
    replace (Nat.min _ _) with (length b) by lia. rewrite Henc.
    destruct (scratch_put b s Hb Hbb) as (sc&->&Ht&Hp&Hf); [unfold payload_max, OVERHEAD; lia|].
    wp_steps. by split_and!.
Qed.

(** The effect of a sender: one frame appended, or nothing *)
Definition appends (s s' : Link) (h : Header) (p : list Z) : Prop :=
  ∃ b, frame_bytes h p b ∧ tx_queue s' = tx_queue s ++ b.

Lemma emit_error_spec hash seq msg s :
  bufs_ok s → bytes_ok msg → is_u32 hash → is_u8 seq →
  wp (emit_error hash seq msg) (λ r s',
    tx_changed s s' ∧
    match r with
    | Ok _ => appends s s' (mkHeader KError hash seq) (take payload_max msg)
    | Err e => tx_queue s' = tx_queue s ∧ e = Full
    end) s.
Proof.
  intros Hb Hm Hh Hs. unfold emit_error. set (len := Nat.min _ _). wp_steps.
  assert (Hlen : length (take len msg) = len) by (rewrite length_take; lia).
  destruct (scratch_put (take len msg) s Hb) as (sc&->&Ht&Hp&Hf); [auto with reiny|lia|].
  rewrite Hlen in Hp, Hf. wp_steps.
  eapply wp_mono; [apply emit_spec; [apply Ht|done|done]|]. intros r s' (Ht'&Hc).
  split; [exact (tx_changed_trans _ _ _ Ht Ht')|]. destruct r as [[]|e].
  - destruct Hc as (_&enc&Hblk&Hq&_). exists (enc ++ [DELIMITER]). split; [|done].
    exists enc. split; [|done]. rewrite Hp in Hblk.
    assert (Htk : take len msg = take payload_max msg)
      by (unfold len; by rewrite Nat.min_comm, <- take_take, firstn_all).
    by rewrite <- Htk.
  - destruct Hc as (Hq&[[_ ?]|[-> _]]); [lia|done].
Qed.

Lemma emit_reply_spec hash seq schema len s :
  bufs_ok s → is_u32 hash → is_u8 seq → OVERHEAD + len ≤ FRAME →
  wp (emit_reply hash seq schema len) (λ r s',
    tx_changed s s' ∧
    match r with
    | Ok _ => appends s s' (mkHeader KReply hash seq) (le_bytes 8 schema ++ scratch_payload s len)
    | Err e => tx_queue s' = tx_queue s ∧
               ((e = TooLarge ∧ payload_max < len + 8) ∨ e = Full)
    end) s.
Proof.
  intros Hb Hh Hs Hlen. pose proof Hb as [Hfr Hsl Hsb Hhl Hhb Htx Htb Hrx Hrb Hco].
  unfold emit_reply. destruct (_ <? _) eqn:E; breflect_in E; wp_steps.
  { split; [by apply tx_changed_refl|]. split; [done|by left]. }
  unfold payload_max, OVERHEAD in E, Hlen.
  unfold copy_within. rewrite slice_eq by lia.
  replace (HEADER + len - HEADER) with len by lia. fold (scratch_payload s len).
  set (p := scratch_payload s len).
  assert (Hp : length p = len) by (unfold p, scratch_payload; rewrite length_take, length_drop; lia).
  rewrite copy_at_eq by lia. wp_steps.
  set (sc1 := take (HEADER + 8) (l_scratch s) ++ _).
  assert (Hsc1 : length sc1 = FRAME)
    by (unfold sc1; rewrite !length_app, length_take, length_drop; lia).
  assert (Hsb1 : bytes_ok sc1) by (unfold sc1, p, scratch_payload; auto 10 with reiny).
  destruct (copy_at HEADER (le_bytes 8 schema) sc1) as [sc2|] eqn:Ec.
  2:{ rewrite copy_at_eq in Ec by (rewrite length_le_bytes; lia). done. }
  wp_steps. pose proof (copy_at_length _ _ _ _ Ec) as Hl2.
  assert (Hb2 : bufs_ok (set_scratch sc2 s)).
  { apply copy_at_Some in Ec as [_ Ec]. constructor; cbn; try done; [congruence|].
    rewrite Ec. auto 10 with reiny. }
  assert (Hpay : scratch_payload (set_scratch sc2 s) (len + 8) = le_bytes 8 schema ++ p).
  { apply copy_at_Some in Ec as [_ Ec]. unfold scratch_payload. cbn [l_scratch set_scratch]. rewrite Ec.
    rewrite drop_app_length' by (rewrite length_take; lia).
    rewrite take_app_ge by (rewrite length_le_bytes; lia). f_equal.
    rewrite !length_le_bytes. unfold sc1.
    rewrite drop_app_length' by (rewrite length_take; lia).
    rewrite take_app_length' by lia. done. }
  eapply wp_mono; [apply emit_spec; done|]. intros r s' (Ht'&Hc).
  split; [eapply tx_changed_trans; [by apply tx_changed_scratch|done]|]. destruct r as [[]|e].
  - destruct Hc as (_&enc&Hblk&Hq&_). exists (enc ++ [DELIMITER]). split; [|done].
    exists enc. split; [|done]. by rewrite Hpay in Hblk.
  - destruct Hc as (Hq&[[_ Hx]|[-> _]]); [|by auto]. unfold OVERHEAD in Hx. lia.
Qed.

(** ** Sequence numbers and correlation ids *)

(** A sender changes the send side, the counters and the outstanding requests. *)
Record sent (s s' : Link) : Prop := {
  sn_core : same_core s s';
  sn_rx : same_rx s s';
  sn_env : same_env s s';
  sn_length : length (l_tx s') = length (l_tx s);
  sn_bufs : bufs_ok s';
}.

Lemma sent_tx s s' : tx_changed s s' → sent s s'.
Proof. intros []. by constructor. Qed.

Lemma sent_trans s1 s2 s3 : sent s1 s2 → sent s2 s3 → sent s1 s3.
Proof. intros [] []. constructor; [by etrans..|congruence|done]. Qed.

Lemma emit_data_spec hash len s :
  link_ok s → is_u32 hash → OVERHEAD + len ≤ FRAME →
  wp (emit_data hash len) (λ r s',
    link_ok s' ∧ sent s s' ∧ l_pending s' = l_pending s ∧
    l_data_seq s' = wrapping_add 8 (l_data_seq s) 1 ∧
    match r with
    | Ok b => b = true ∧ appends s s' (mkHeader KData hash (l_data_seq s)) (scratch_payload s len)
    | Err e => e = Full ∧ tx_queue s' = tx_queue s
    end) s.
Proof.
  intros Hs Hh Hl. unfold emit_data. wp_steps.
  set (s1 := set_data_seq _ s).
  assert (Hs1 : link_ok s1).
  { apply (link_ok_core s); [by constructor|done|done|by destruct Hs as [[] _ _ _]| |done].
    destruct Hs as [_ _ _ []]. constructor; [by apply wrap_range|done|done]. }
  eapply wp_mono; [apply emit_spec; [apply Hs1|done|apply Hs]|]. intros r s' (Ht&Hc).
  assert (Hcom : link_ok s' ∧ sent s s' ∧ l_pending s' = l_pending s ∧
                 l_data_seq s' = wrapping_add 8 (l_data_seq s) 1).
  { split_and!; [by eapply link_ok_tx| |apply (tc_seq _ _ Ht)|apply (tc_seq _ _ Ht)].
    apply (sent_trans _ s1); [|by apply sent_tx]. constructor; try done. apply Hs1. }
  destruct r as [[]|e]; wp_steps; (split; [apply Hcom|]); (split; [apply Hcom|]);
    (split; [apply Hcom|]); (split; [apply Hcom|]).
  - split; [done|]. destruct Hc as (_&enc&Hblk&Hq&_). exists (enc ++ [DELIMITER]).
    split; [by exists enc|done].
  - destruct Hc as (Hq&[[_ ?]|[-> _]]); [lia|done].
Qed.

Lemma emit_request_spec hash len s :
  link_ok s → l_connected s = true → is_u32 hash → OVERHEAD + len ≤ FRAME →
  wp (emit_request hash len) (λ r s',
    link_ok s' ∧ sent s s' ∧
    match r with
    | Ok seq =>
        is_u8 seq ∧ (hash, seq) ∉ flatten (l_pending s) ∧
        (∃ free, position is_none (l_pending s) = Some free ∧
                 l_pending s' = <[free := Some (hash, seq)]> (l_pending s)) ∧
        l_req_seq s' = wrapping_add 8 seq 1 ∧
        appends s s' (mkHeader KRequest hash seq) (scratch_payload s len)
    | Err e => (e = Full ∨ e = TableFull) ∧ tx_queue s' = tx_queue s ∧ l_pending s' = l_pending s
    end) s.
Proof.
  intros Hs Hcon Hh Hl. unfold emit_request. wp_steps.
  assert (Hrefl : link_ok s ∧ sent s s).
  { split; [done|]. apply sent_tx, tx_changed_refl, Hs. }
  destruct (position is_none (l_pending s)) as [free|] eqn:Ef; cbn [ok_or].
  2:{ wp_steps. destruct Hrefl. by auto. }
  wp_steps. destruct (find _ _) as [seq|] eqn:Es; cbn [ok_or].
  2:{ wp_steps. destruct Hrefl. by auto. }
  apply find_Some in Es as [Hin Hnew].
  apply list_elem_of_fmap in Hin as (off&Hseq&_).
  assert (Hu : is_u8 seq) by (rewrite Hseq; by apply wrap_range).
  apply negb_true_iff, bool_decide_eq_false in Hnew.
  assert (Hnf : (hash, seq) ∉ flatten (l_pending s)) by (by rewrite elem_of_flatten).
  wp_steps. eapply wp_mono; [apply emit_spec; [apply Hs|done|done]|]. intros r s1 (Ht&Hc).
  pose proof (sq_pending _ _ (tc_seq _ _ Ht)) as Hpd.
  destruct r as [[]|e]; wp_steps.
  2:{ split; [by eapply link_ok_tx|]. split; [by apply sent_tx|].
      destruct Hc as (Hq&[[_ ?]|[-> _]]); [lia|]. split; [by left|done]. }
  change (l_pending (set_req_seq (wrapping_add 8 seq 1) s1)) with (l_pending s1). rewrite Hpd.
  set (s2 := set_pending _ _). destruct Hc as (_&enc&Hblk&Hq&_).
  pose proof (ok_peer s Hs) as [Hrl Hpl Hhl Hpc Hpdis Hnd].
  assert (Hnd' : NoDup (flatten (<[free := Some (hash, seq)]> (l_pending s))))
    by by apply NoDup_flatten_insert.
  split; [|split; [|split; [done|]]].
  - pose proof (link_ok_tx _ _ Ht Hs) as Hs1. destruct Hs1 as [Hb1 Hl1 Hp1 Hct1].
    assert (Hcore : same_core s1 s2) by by constructor. constructor.
    + destruct Hb1. by constructor.
    + by eapply local_ok_core.
    + eapply (peer_ok_core s1); [done|done|..|done].
      * cbn. by rewrite length_insert, ?Hpd.
      * cbn. by rewrite ?Hpd.
      * intros E. rewrite (sc_connected _ _ (tc_core _ _ Ht)) in E. congruence.
    + destruct Hct1. constructor; [done| |done]. by apply wrap_range.
  - apply (sent_trans _ s1); [by apply sent_tx|]. constructor; try done.
    by destruct (tc_bufs _ _ Ht); constructor.
  - split; [done|]. split; [by exists free|]. split; [done|].
    exists (enc ++ [DELIMITER]). split; [by exists enc|done].
Qed.

(** ** The public senders *)

(** What a sender of data does to the link: the frame [(hash, data_seq, b)] is
    appended exactly when the result is [Ok true]. *)
Definition data_effect (s s' : Link) (hash : Z) (b : list Z) (r : result bool Error) : Prop :=
  match r with
  | Ok true => peer_subscribes_hash s hash = true ∧ OVERHEAD + length b ≤ FRAME ∧
               appends s s' (mkHeader KData hash (l_data_seq s)) b
  | Ok false => peer_subscribes_hash s hash = false ∧ s' = s
  | Err _ => tx_queue s' = tx_queue s
  end.

(** What a caller does: the request frame is appended and its correlation id,
    which no outstanding request has, is recorded, exactly when it is [Ok]. *)
Definition request_effect (s s' : Link) (hash : Z) (b : list Z) (r : result Z Error) : Prop :=
  match r with
  | Ok seq =>
      peer_serves_hash s hash = true ∧ is_u8 seq ∧ (hash, seq) ∉ flatten (l_pending s) ∧
      (∃ free, position is_none (l_pending s) = Some free ∧
               l_pending s' = <[free := Some (hash, seq)]> (l_pending s)) ∧
      appends s s' (mkHeader KRequest hash seq) b
  | Err _ => tx_queue s' = tx_queue s ∧ l_pending s' = l_pending s
  end.

Lemma sent_refl s : link_ok s → sent s s.
Proof. intros Hs. apply sent_tx, tx_changed_refl, Hs. Qed.

(** The cases in which a sender leaves the link as it is *)
Ltac unchanged := split_and!; first [by apply sent_refl | done].

(** A payload in the scratch buffer, then [emit_data] *)
Lemma then_emit_data (m : ST Link (result nat Error)) hash b s :
  link_ok s → is_u32 hash → peer_subscribes_hash s hash = true →
  wp m (λ r s1, tx_changed s s1 ∧ tx_queue s1 = tx_queue s ∧
    match r with
    | Ok len => len = length b ∧ scratch_payload s1 len = b ∧ OVERHEAD + len ≤ FRAME
    | Err e => e = TooLarge ∧ payload_max < length b
    end) s →
  wp (try* len := m in emit_data hash len)
     (λ r s', link_ok s' ∧ sent s s' ∧ l_pending s' = l_pending s ∧ data_effect s s' hash b r) s.
Proof.
  intros Hs Hh Hsub Hm. rewrite wp_bind_try. eapply wp_mono; [exact Hm|].
  intros r s1 (Ht&Hq&Hc). destruct r as [len|e].
  - destruct Hc as (->&Hp&Hl).
    eapply wp_mono; [apply emit_data_spec; [by eapply link_ok_tx|done|done]|].
    intros r s2 (Hok&Hsent&Hpd&_&Hcase).
    assert (Hds : l_data_seq s1 = l_data_seq s) by apply Ht.
    assert (Hps : l_pending s1 = l_pending s) by apply Ht.
    split_and!; [done|eapply sent_trans; [by apply sent_tx|done]|congruence|].
    destruct r as [bo|e]; cbn.
    + destruct Hcase as [-> (fb&Hf&Hq2)]. split; [done|]. split; [done|]. exists fb.
      rewrite Hds, Hp in Hf. by rewrite <- Hq.
    + destruct Hcase as [_ Hq2]. congruence.
  - split_and!; [by eapply link_ok_tx|by apply sent_tx|apply Ht|done].
Qed.

Lemma then_emit_request (m : ST Link (result nat Error)) hash b s :
  link_ok s → is_u32 hash → peer_serves_hash s hash = true →
  wp m (λ r s1, tx_changed s s1 ∧ tx_queue s1 = tx_queue s ∧
    match r with
    | Ok len => len = length b ∧ scratch_payload s1 len = b ∧ OVERHEAD + len ≤ FRAME
    | Err e => e = TooLarge ∧ payload_max < length b
    end) s →
  wp (try* len := m in emit_request hash len)
     (λ r s', link_ok s' ∧ sent s s' ∧ request_effect s s' hash b r) s.
Proof.
  intros Hs Hh Hsv Hm. rewrite wp_bind_try. eapply wp_mono; [exact Hm|].
  intros r s1 (Ht&Hq&Hc). assert (Hps : l_pending s1 = l_pending s) by apply Ht.
  destruct r as [len|e].
  - destruct Hc as (->&Hp&Hl).
    assert (Hcon : l_connected s1 = true).
    { rewrite (sc_connected _ _ (tc_core _ _ Ht)). unfold peer_serves_hash in Hsv. by apply andb_true_iff in Hsv as [? _]. }
    eapply wp_mono; [apply emit_request_spec; [by eapply link_ok_tx|done..]|].
    intros r s2 (Hok&Hsent&Hcase).
    split_and!; [done|eapply sent_trans; [by apply sent_tx|done]|].
    destruct r as [seq|e]; cbn.
    + rewrite Hps in Hcase. destruct Hcase as (Hu&Hnew&Hfree&_&fb&Hf&Hq2).
      split_and!; try done. exists fb. rewrite Hp in Hf. by rewrite <- Hq.
    + destruct Hcase as (_&Hq2&Hp2). split; congruence.
  - split; [by eapply link_ok_tx|]. split; [by apply sent_tx|]. by split.
Qed.

Lemma send_spec T name m b s :
  link_ok s → message_bytes m b →
  wp (send T name m) (λ r s',
    link_ok s' ∧ sent s s' ∧ l_pending s' = l_pending s ∧
    data_effect s s' (endpoint_hash (id s) name) b r) s.
Proof.
  intros Hs Hm. unfold send. wp_steps.
  assert (Herr : ∀ e, link_ok s ∧ sent s s ∧ l_pending s = l_pending s ∧
    data_effect s s (endpoint_hash (id s) name) b (Err e)) by (intros e; unchanged).
  destruct (check_port _ _ _ _ _) as [[]|e]; [|apply Herr]. wp_steps.
  destruct (check_publishes _ _) as [[]|e]; [|apply Herr].
  destruct (match local_type _ _ with Some _ => _ | None => _ end); [wp_steps; apply Herr|].
  destruct (peer_subscribes_hash _ _) eqn:Es; cbn [negb].
  - apply then_emit_data; [done|apply endpoint_hash_u32|done|].
    apply encode_payload_spec; [apply Hs|done].
  - wp_steps. unchanged.
Qed.

Lemma send_raw_spec hash b s :
  link_ok s → is_u32 hash → bytes_ok b →
  wp (send_raw hash b) (λ r s',
    link_ok s' ∧ sent s s' ∧ l_pending s' = l_pending s ∧ data_effect s s' hash b r) s.
Proof.
  intros Hs Hh Hb. unfold send_raw. wp_steps.
  destruct (check_publishes _ _) as [[]|e]; [|unchanged].
  destruct (peer_subscribes_hash _ _) eqn:Es; cbn [negb].
  - apply then_emit_data; [done..|]. apply copy_payload_spec; [apply Hs|done].
  - wp_steps. unchanged.
Qed.

Lemma request_hash_u32 s S name hash : request_hash s S name = Ok hash → is_u32 hash.
Proof.
  unfold request_hash. destruct (check_port _ _ _ _ _); [|done].
  destruct (port _ _ _ _ _); [|done]. destruct (head _); [|done]. cbn. intros [= <-].
  apply endpoint_hash_u32.
Qed.

Lemma request_spec S name m b s :
  link_ok s → message_bytes m b →
  wp (request S name m) (λ r s',
    link_ok s' ∧ sent s s' ∧
    match request_hash s S name with
    | Ok hash => request_effect s s' hash b r
    | Err e => r = Err e ∧ s' = s
    end) s.
Proof.
  intros Hs Hm. unfold request. wp_steps.
  destruct (check_port _ _ _ _ _) as [[]|e] eqn:Ec.
  2:{ unfold request_hash. rewrite Ec. unchanged. }
  wp_steps. destruct (request_hash s S name) as [hash|e] eqn:Eh; [|unchanged].
  destruct (peer_serves_hash _ _) eqn:Es; cbn [negb]; [|wp_steps; unchanged].
  destruct (match remote_type _ _ with Some _ => _ | None => _ end);
    [wp_steps; unchanged|].
  apply then_emit_request; [done|by eapply request_hash_u32|done|].
  apply encode_payload_spec; [apply Hs|done].
Qed.

Lemma request_raw_spec hash b s :
  link_ok s → is_u32 hash → bytes_ok b →
  wp (request_raw hash b) (λ r s', link_ok s' ∧ sent s s' ∧ request_effect s s' hash b r) s.
Proof.
  intros Hs Hh Hb. unfold request_raw. wp_steps.
  destruct (_ && _); [wp_steps; unchanged|].
  destruct (peer_serves_hash _ _) eqn:Es; cbn [negb]; [|wp_steps; unchanged].
  apply then_emit_request; [done..|]. apply copy_payload_spec; [apply Hs|done].
Qed.

(** What an answer does: a reply carries the response's fingerprint before its
    bytes; nothing else of the link changes. *)
Definition answer_effect (s s' : Link) (h : Header) (p : list Z) (r : result unit Error) : Prop :=
  tx_changed s s' ∧ match r with Ok _ => appends s s' h p | Err _ => tx_queue s' = tx_queue s end.

Lemma then_emit_reply (m : ST Link (result nat Error)) hash seq schema b s :
  bufs_ok s → is_u32 hash → is_u8 seq →
  wp m (λ r s1, tx_changed s s1 ∧ tx_queue s1 = tx_queue s ∧
    match r with
    | Ok len => len = length b ∧ scratch_payload s1 len = b ∧ OVERHEAD + len ≤ FRAME
    | Err e => e = TooLarge ∧ payload_max < length b
    end) s →
  wp (try* len := m in emit_reply hash seq schema len)
     (λ r s', answer_effect s s' (mkHeader KReply hash seq) (le_bytes 8 schema ++ b) r) s.
Proof.
  intros Hs Hh Hseq Hm. rewrite wp_bind_try. eapply wp_mono; [exact Hm|].
  intros r s1 (Ht&Hq&Hc). destruct r as [len|e]; [|done].
  destruct Hc as (->&Hp&Hl).
  eapply wp_mono; [apply emit_reply_spec; [apply Ht|done..]|].
  intros r s2 (Ht2&Hcase). split; [by eapply tx_changed_trans|].
  destruct r as [[]|e].
  - destruct Hcase as (fb&Hf&Hq2). exists fb. rewrite Hp in Hf. by rewrite <- Hq.
  - destruct Hcase as [Hq2 _]. congruence.
Qed.

Lemma reply_spec S name seq m b s :
  link_ok s → is_u8 seq → message_bytes m b →
  wp (reply S name seq m) (λ r s',
    answer_effect s s' (mkHeader KReply (endpoint_hash (id s) name) seq)
      (le_bytes 8 (SCHEMA_FINGERPRINT (svc_response S)) ++ b) r) s.
Proof.
  intros Hs Hseq Hm. unfold reply. wp_steps.
  destruct (check_port _ _ _ _ _) as [[]|e]; [|split; [by apply tx_changed_refl, Hs|done]].
  apply then_emit_reply; [apply Hs|apply endpoint_hash_u32|done|].
  apply encode_payload_spec; [apply Hs|done].
Qed.

Lemma reply_raw_spec seq hash schema b s :
  link_ok s → is_u8 seq → is_u32 hash → bytes_ok b →
  wp (reply_raw seq hash schema b) (λ r s',
    answer_effect s s' (mkHeader KReply hash seq) (le_bytes 8 schema ++ b) r) s.
Proof.
  intros Hs Hseq Hh Hb. apply then_emit_reply; [apply Hs|done|done|].
  apply copy_payload_spec; [apply Hs|done].
Qed.

Lemma reply_err_raw_spec seq hash msg s :
  link_ok s → is_u8 seq → is_u32 hash → bytes_ok msg →
  wp (reply_err_raw seq hash msg) (λ r s',
    answer_effect s s' (mkHeader KError hash seq) (take payload_max msg) r) s.
Proof.
  intros Hs Hseq Hh Hm. eapply wp_mono; [apply emit_error_spec; [apply Hs|done..]|].
  intros [[]|e] s' [Ht Hc]; (split; [done|]); [done|by destruct Hc].
Qed.

Lemma reply_err_spec S name seq msg s :
  link_ok s → is_u8 seq → bytes_ok msg →
  wp (reply_err S name seq msg) (λ r s',
    answer_effect s s' (mkHeader KError (endpoint_hash (id s) name) seq) (take payload_max msg) r) s.
Proof.
  intros Hs Hseq Hm. unfold reply_err. wp_steps.
  destruct (check_port _ _ _ _ _) as [[]|e]; [|split; [by apply tx_changed_refl, Hs|done]].
  apply reply_err_raw_spec; [done|done|apply endpoint_hash_u32|done].
Qed.
End send.
