(* ===== verification/LinkRecv.v ===== *)
(** * LinkRecv: receiving

    Decoding a frame in place, the handshake ([on_hello] and its validation), the
    dispatch on the frame's kind and the loop of [next].  [event_ok] says what an
    event promises about the link at the moment it is reported. *)

From Stdlib Require Import ZArith Lia.
From S2P Require Import Prelude Text Codec Core Wire Hello HelloSpec HelloParse HelloWrite LinkState Link LinkInv LinkIo LinkSend.

Section recv.
Context {P : LinkParams} `{CrcOps} `{!CrcLaws} `{CobsOps} `{!CobsLaws}.

(** A handle whose payload lies within the receive buffer *)
Record frame_ok (s : Link) (f : Frame) : Prop := {
  fo_len : (0 ≤ f_len f)%Z;
  fo_range : HEADER + Z.to_nat (f_len f) ≤ length (l_rx s);
  fo_hash : is_u32 (f_hash f);
  fo_seq : is_u8 (f_seq f);
}.

Definition frame_payload (s : Link) (f : Frame) : list Z :=
  take (Z.to_nat (f_len f)) (drop HEADER (l_rx s)).

(** ** Decoding in place *)

(** Decoding [e] bytes touches these bytes only. *)
Record decoded_in (e : nat) (s s' : Link) : Prop := {
  di_changed : rx_changed s s';
  di_len : l_rx_len s' = l_rx_len s;
  di_consumed : l_rx_consumed s' = l_rx_consumed s;
  di_generation : l_rx_generation s' = l_rx_generation s;
  di_stats : l_stats s' = l_stats s;
  di_skip : l_rx_skip s' = l_rx_skip s;
  di_rest : drop e (l_rx s') = drop e (l_rx s);
}.

Lemma parse_length raw h p : parse raw = Ok (h, p) → length raw = OVERHEAD + length p.
Proof.
  unfold parse. destruct (_ <? _) eqn:E; breflect_in E; [done|].
  destruct (negb _); [done|]. destruct (negb _); [done|].
  destruct (kind_from_u8 _); cbn [ok_or]; [|done]. intros [= _ <-].
  rewrite length_take, length_drop. unfold OVERHEAD, HEADER, TRAILER in *. lia.
Qed.

Lemma parse_payload raw h p : parse raw = Ok (h, p) → p = take (length p) (drop HEADER raw).
Proof.
  intros Hp. pose proof (parse_length _ _ _ Hp) as Hl. unfold parse in Hp.
  destruct (_ <? _); [done|]. destruct (negb _); [done|]. destruct (negb _); [done|].
  destruct (kind_from_u8 _); cbn [ok_or] in Hp; [|done]. injection Hp as _ <-.
  f_equal. rewrite length_take, length_drop. unfold OVERHEAD, HEADER, TRAILER in *. lia.
Qed.

Lemma decode_frame_spec e s :
  bufs_ok s → e ≤ l_rx_len s →
  wp (decode_frame e) (λ r s',
    decoded_in e s s' ∧
    match r with Some f => frame_ok s' f ∧ f_generation f = 0%Z | None => True end ∧
    ∀ h p, cobs_block (raw_frame h p) (take e (l_rx s)) → header_ok h →
      OVERHEAD + length p ≤ FRAME → (Z.of_nat (length p) ≤ u16_max)%Z →
      r = Some (mkFrame (h_kind h) (h_hash h) (h_seq h) (Z.of_nat (length p)) 0) ∧
      take (length p) (drop HEADER (l_rx s')) = p) s.
Proof.
  intros Hb He. pose proof Hb as [Hfr Hsl Hsb Hhl Hhb Htx Htb Hrx Hrb Hco].
  unfold decode_frame. wp_steps. rewrite wp_focus. apply wp_sub_slice; [lia|lia|].
  rewrite drop_0, Nat.sub_0_r. set (enc := take e (l_rx s)).
  assert (Henc : length enc = e) by (unfold enc; rewrite length_take; lia).
  destruct (cobs_decode_in_place enc) as [n dec] eqn:Ed.
  destruct (cobs_decode_ok enc n dec) as (Hdl&Hdb&Hn); [unfold enc; auto with reiny|done|].
  eapply wp_eq; [unfold decode_in_place; by rewrite Ed|]. cbn beta. split; [lia|].
  rewrite take_0, app_nil_l. set (s1 := set_rx _ s).
  assert (Hl1 : length (l_rx s1) = length (l_rx s))
    by (cbn; rewrite length_app, length_drop; lia).
  assert (Hdi : decoded_in e s s1).
  { constructor; try done; [|cbn; rewrite drop_app_length'; [done|lia]].
    constructor; try done. constructor; cbn; try done; [|by auto with reiny].
    rewrite length_app, length_drop. lia. }
  assert (Hblock : ∀ h p, cobs_block (raw_frame h p) enc →
    n = Some (OVERHEAD + length p) ∧ take (OVERHEAD + length p) dec = raw_frame h p).
  { intros h p (_&_&_&_&dec'&Hd&Ht). rewrite Ed, length_raw_frame in Hd.
    rewrite length_raw_frame in Ht. apply pair_equal_spec in Hd as [-> ->]. done. }
  destruct n as [raw_len|]; cbn [ok_or].
  2:{ wp_steps. split_and!; [done|done|]. intros h p Hblk.
      by destruct (Hblock h p Hblk) as [? _]. }
  cbn in Hn.
  assert (Hblock' : ∀ h p, cobs_block (raw_frame h p) enc →
    raw_len = OVERHEAD + length p ∧ take raw_len dec = raw_frame h p).
  { intros h p Hblk. destruct (Hblock h p Hblk) as [Hr Ht]. apply (inj Some) in Hr.
    rewrite Hr at 2. done. }
  clear Hblock. destruct (FRAME <? raw_len) eqn:Ef; breflect_in Ef; wp_steps.
  { split_and!; [done|done|]. intros h p Hblk _ Hle. destruct (Hblock' h p Hblk) as [? _]. lia. }
  rewrite slice_eq by lia. wp_steps. rewrite drop_0, Nat.sub_0_r.
  assert (Hraw : take raw_len (l_rx s1) = take raw_len dec)
    by (cbn; rewrite take_app_le by lia; done).
  rewrite Hraw. destruct (parse (take raw_len dec)) as [[h p]|er] eqn:Ep.
  2:{ wp_steps. split_and!; [done|done|]. intros h p Hblk Hh _ _.
      destruct (Hblock' h p Hblk) as [_ Ht]. rewrite Ht, parse_raw_frame in Ep by done. done. }
  wp_steps. assert (Hlen := parse_length _ _ _ Ep). rewrite length_take, Nat.min_l in Hlen by lia.
  destruct (parse_Ok_inv _ _ _ (bytes_ok_take raw_len dec Hdb) Ep) as (_&[Hhh Hhs]&_).
  assert (Hpay : take (length p) (drop HEADER (l_rx s1)) = p).
  { rewrite (parse_payload _ _ _ Ep) at 2. rewrite <- Hraw.
    rewrite skipn_firstn_comm, take_take. f_equal. unfold OVERHEAD in Hlen. lia. }
  split; [done|]. destruct (Z.of_nat (length p) <=? u16_max)%Z eqn:Eu; breflect_in Eu; (split; [|]).
  - split; [|done]. constructor; cbn [f_len f_hash f_seq]; [lia|rewrite Nat2Z.id; unfold OVERHEAD in Hlen; lia|done|done].
  - intros h' p' Hblk Hh' _ _. destruct (Hblock' h' p' Hblk) as [_ Ht].
    rewrite Ht, parse_raw_frame in Ep by done. injection Ep as -> ->. done.
  - done.
  - intros h' p' Hblk Hh' _ Hle. destruct (Hblock' h' p' Hblk) as [_ Ht].
    rewrite Ht, parse_raw_frame in Ep by done. injection Ep as -> ->. lia.
Qed.

(** ** The handshake *)

Lemma hello_parse_nonempty payload h : hello_parse payload = Ok h → payload ≠ [].
Proof. by intros Hp ->. Qed.

(** The comparison with the contract in force never goes out of range, and says
    that the two payloads differ in the [ack] bit at most. *)
Lemma same_contract_spec s payload :
  bufs_ok s → peer_ok s → payload ≠ [] →
  ∃ b, same_contract s payload = Some b ∧
    (b = true → ∃ p0 q0 rest,
       take (l_peer_hello_len s) (l_peer_hello s) = p0 :: rest ∧ payload = q0 :: rest ∧
       Z.land p0 (not8 HELLO_ACK) = Z.land q0 (not8 HELLO_ACK)).
Proof.
  intros Hb Hp Hne. pose proof (bo_hello s Hb) as Hhl. pose proof (bo_frame s Hb) as Hfr.
  pose proof (po_hello_len s Hp) as Hlen. unfold same_contract.
  destruct (l_peer_hello_len s =? length payload) eqn:E; breflect_in E; cbn [negb]; [|by exists false].
  destruct payload as [|q0 rest]; [done|]. cbn [length] in E.
  unfold OVERHEAD, HEADER, TRAILER in Hfr.
  destruct (l_peer_hello s) as [|p0 stored] eqn:Es; [cbn in Hhl; lia|]. cbn [lookup list_lookup mbind option_bind].
  rewrite E. destruct (_ =? _)%Z eqn:E0; breflect_in E0; cbn [negb]; [|by exists false].
  cbn [length] in *. rewrite !slice_eq by (cbn [length]; lia). cbn [mbind option_bind].
  eexists. split; [done|]. rewrite bool_decide_eq_true. cbn [Nat.sub skipn]. rewrite !drop_0, Nat.sub_0_r.
  intros Eq. rewrite firstn_all in Eq. exists p0, q0, rest. cbn [firstn]. by rewrite Eq.
Qed.

(** What an accepted Hello satisfies *)
Record accepted (s : Link) (payload : list Z) (c : PeerContract) (h : Hello) : Prop := {
  ac_hello : hello_parse payload = Ok h;
  ac_peer : idbuf_new (hl_id h) = Ok (pc_peer c);
  ac_fits : length payload ≤ FRAME;
  ac_remote : check_remote s h 0 (hello_entries h) (replicate TABLE None) = Ok (pc_remote c);
  ac_ack : pc_ack c = hl_ack h;
  ac_bridge : pc_bridge c = hl_bridge h;
}.

Lemma validate_hello_spec s payload :
  bufs_ok s → peer_ok s →
  ∃ r, validate_hello s payload = Some r ∧
    match r with Ok c => ∃ h, accepted s payload c h | Err _ => True end.
Proof.
  intros Hb Hp. unfold validate_hello. destruct (hello_parse payload) as [h|] eqn:Eh; [|by eexists].
  destruct (idbuf_new (hl_id h)) as [peer|] eqn:Ei; [|by eexists].
  destruct (FRAME <? length payload) eqn:Ef; breflect_in Ef; [by eexists|].
  assert (Hs : ∃ b, (if l_connected s then same_contract s payload else Some true) = Some b).
  { destruct (l_connected s); [|by eexists].
    destruct (same_contract_spec s payload Hb Hp (hello_parse_nonempty _ _ Eh)) as (b&->&_). by eexists. }
  destruct Hs as [b ->]. cbn [mbind option_bind]. destruct b; cbn [negb]; [|by eexists].
  destruct (check_remote _ _ _ _ _) as [remote|] eqn:Er; [|by eexists].
  eexists. split; [done|]. exists h. by constructor.
Qed.

Lemma check_remote_length s h es : ∀ i remote remote',
  check_remote s h i es remote = Ok remote' → length remote' = length remote.
Proof.
  induction es as [|e es IH]; intros i remote remote'; cbn [check_remote]; [by intros [= <-]|].
  destruct (_ <=? _); [done|]. destruct (check_locals _ _ _ _); [|done].
  destruct (address_collision _ _ _); [done|]. intros ->%IH. by rewrite length_insert.
Qed.

Lemma drop_peer_ok s : link_ok s → link_ok (drop_peer s).
Proof.
  intros [Hb Hl Hp Hc]. constructor.
  - by destruct Hb; constructor.
  - by destruct Hl as [[]]; constructor.
  - destruct Hp as [K1 K2 K3 K4 K5 K6].
    constructor; try done; [cbn; len|cbn; len|cbn; lia|].
    cbn. rewrite flatten_replicate_None. constructor.
  - by destruct Hc; constructor.
Qed.

Lemma link_ok_bump s s' :
  same_core s s' → same_rx s s' → same_tx s s' → same_seq s s' → same_env s s' →
  link_ok s → link_ok s'.
Proof.
  intros Hco Hr Ht Hsq He Hs. apply (link_ok_core s); [done| |apply Hsq| | |done].
  - by rewrite (se_started _ _ He).
  - destruct Hs as [[] _ _ _], Hr as [Er El Ec _ _ _ _], Ht as [Et Etl Esc _], Hco as [_ _ _ _ _ _ _ Eh _ _ _].
    constructor; rewrite ?Er, ?El, ?Ec, ?Et, ?Etl, ?Esc, ?Eh; done.
  - destruct Hs as [_ _ _ []], Hr as [_ _ _ _ Eg _ _], Hsq as [_ Ed Erq].
    constructor; rewrite ?Eg, ?Ed, ?Erq; done.
Qed.

(** The state in which an accepted contract is in force *)
Definition adopt (stored : list Z) (len : nat) (c : PeerContract) (s : Link) : Link :=
  set_connected true (set_remote (pc_remote c) (set_peer_bridge (pc_bridge c)
    (set_peer (Some (pc_peer c)) (set_peer_hello_len len (set_peer_hello stored s))))).

Lemma adopt_ok s payload c h stored :
  link_ok s → l_started s = true → bytes_ok payload → accepted s payload c h →
  copy_at 0 payload (l_peer_hello s) = Some stored →
  link_ok (adopt stored (length payload) c s) ∧
  contract_ok (adopt stored (length payload) c s) h (pc_peer c).
Proof.
  intros Hs Hst Hpb Hac Hcp. pose proof Hac as [A1 A2 A3 A4 A5 A6].
  pose proof (copy_at_length _ _ _ _ Hcp) as Hl. pose proof (copy_at_take _ _ _ _ Hcp) as Ht.
  cbn [Nat.add] in Ht. rewrite take_0, app_nil_l in Ht.
  set (s1 := adopt _ _ _ _).
  assert (Hcon : contract_ok s1 h (pc_peer c)).
  { constructor; try done.
    - unfold hello, s1. cbn [adopt set_connected set_remote set_peer_bridge set_peer
        set_peer_hello_len set_peer_hello l_peer_hello_len l_peer_hello]. by rewrite Ht, A1.
    - by rewrite (check_remote_ext s). }
  split; [|done]. destruct Hs as [Hb Hlo Hp Hc]. constructor.
  - destruct Hb. constructor; try done; cbn; [congruence|].
    apply copy_at_Some in Hcp as [_ ->]. auto with reiny.
  - by destruct Hlo as [[]]; constructor.
  - destruct Hp as [K1 K2 K3 K4 K5 K6]. constructor; try done.
    + cbn. rewrite (check_remote_length _ _ _ _ _ _ A4). len.
    + intros _. split; [done|]. by exists h, (pc_peer c).
  - by destruct Hc; constructor.
Qed.

(** ** Events *)

(** Data of [hash] is allowed through: the peer publishes it, and we subscribe to
    it (a bridge mirrors the peer). *)
Definition data_allowed (s : Link) (hash : Z) : Prop :=
  l_connected s = true ∧
  (if l_bridge s
   then ∃ t, remote_type s hash = Some t ∧ publishes_here t = true
   else is_Some (local_source s hash flags.SUB)) ∧
  (l_peer_bridge s = true ∨
   ∃ t, remote_type s hash = Some t ∧ publishes_here t = true ∧ rt_mismatch t = false).

(** A request for [hash] is allowed through: the peer declared a caller for it (or
    is a bridge), and we serve it (or are a bridge). *)
Definition request_allowed (s : Link) (hash : Z) : Prop :=
  l_connected s = true ∧
  (l_peer_bridge s = true ∨ is_Some (remote_source s hash flags.CALLS)) ∧
  ((∃ t, local_type s hash = Some t ∧ has (lt_flags t) flags.SERVE = true) ∨
   (l_bridge s = true ∧ is_Some (remote_source s hash flags.CALLS))).

(** An outstanding request was answered: it, and no other, is outstanding no more. *)
Definition request_done (pending pending' : list (option (Z * Z))) (r : Z * Z) : Prop :=
  r ∈ flatten pending ∧ r ∉ flatten pending' ∧
  ∀ q, q ≠ r → q ∈ flatten pending' ↔ q ∈ flatten pending.

Definition event_ok (s s' : Link) (f : Frame) (ev : option Event) : Prop :=
  match ev with
  | None => l_pending s' = l_pending s
  | Some (Connected g) =>
      g = f ∧ f_kind f = KHello ∧ l_connected s' = true ∧ l_pending s' = l_pending s ∧
      take (l_peer_hello_len s') (l_peer_hello s') = frame_payload s f
  | Some Disconnected => l_connected s = true ∧ l_connected s' = false
  | Some (Data g) => g = f ∧ f_kind f = KData ∧ s' = s ∧ data_allowed s (f_hash f)
  | Some (Request g) => g = f ∧ f_kind f = KRequest ∧ s' = s ∧ request_allowed s (f_hash f)
  | Some (Reply g) =>
      g = f ∧ f_kind f = KReply ∧ l_connected s = true ∧
      request_done (l_pending s) (l_pending s') (f_hash f, f_seq f)
  | Some (ErrorReply g) =>
      g = f ∧ f_kind f = KError ∧ l_connected s = true ∧
      request_done (l_pending s) (l_pending s') (f_hash f, f_seq f)
  end.

(** What dispatching a frame leaves alone: the receive buffer, the declared
    tables and the clock *)
Record dispatched (s s' : Link) : Prop := {
  dp_ok : link_ok s';
  dp_rx : same_rx s s';
  dp_env : same_env s s';
  dp_local : l_local s' = l_local s;
  dp_id : l_id s' = l_id s;
  dp_bridge : l_bridge s' = l_bridge s;
  dp_tx : length (l_tx s') = length (l_tx s);
}.

Lemma dispatched_refl s : link_ok s → dispatched s s.
Proof. by constructor. Qed.

Lemma dispatched_tx s s' : link_ok s → tx_changed s s' → dispatched s s'.
Proof.
  intros Hs Ht. pose proof (link_ok_tx _ _ Ht Hs). destruct Ht as [[] ? ? ? ? ?]. by constructor.
Qed.

Lemma on_hello_spec f s :
  link_ok s → l_started s = true → frame_ok s f → f_kind f = KHello →
  wp (on_hello f) (λ ev s', dispatched s s' ∧ event_ok s s' f ev) s.
Proof.
  intros Hs Hst [Hf0 Hfr _ _] Hk. unfold on_hello. wp_steps.
  rewrite slice_eq by lia. wp_steps.
  replace (HEADER + Z.to_nat (f_len f) - HEADER) with (Z.to_nat (f_len f)) by lia.
  fold (frame_payload s f). set (p := frame_payload s f).
  assert (Hpb : bytes_ok p) by (unfold p, frame_payload; destruct Hs as [[] _ _ _]; auto with reiny).
  destruct (validate_hello_spec s p (ok_bufs s Hs) (ok_peer s Hs)) as (r&->&Hr).
  wp_steps. destruct r as [c|e].
  - destruct Hr as [h Hac]. pose proof (ac_fits _ _ _ _ Hac) as Hfit.
    pose proof (bo_hello s (ok_bufs s Hs)) as Hhl.
    destruct (copy_at 0 p (l_peer_hello s)) as [stored|] eqn:Ecp;
      [|rewrite copy_at_eq in Ecp by (cbn; lia); done].
    wp_steps. fold (adopt stored (length p) c s).
    destruct (adopt_ok s p c h stored Hs Hst Hpb Hac Ecp) as [Hok1 _].
    set (s1 := adopt _ _ _ _) in *.
    assert (Hstored : take (l_peer_hello_len s1) (l_peer_hello s1) = p).
    { pose proof (copy_at_take _ _ _ _ Ecp) as Ht. cbn [Nat.add] in Ht.
      rewrite take_0, app_nil_l in Ht. exact Ht. }
    assert (Hdis : ∀ s', tx_changed s1 s' → dispatched s s' ∧
      take (l_peer_hello_len s') (l_peer_hello s') = p ∧ l_connected s' = true ∧ l_pending s' = l_pending s).
    { intros s' Ht. split; [|destruct Ht as [[_ _ _ _ _ _ _ -> -> _ ->] _ [-> _ _] _ _ _]; by split_and!].
      destruct (dispatched_tx s1 s' Hok1 Ht) as [D1 D2 D3 D4 D5 D6 D7].
      constructor; [done|by destruct D2; constructor|by destruct D3; constructor|done..]. }
    assert (Hend : ∀ s', tx_changed s1 s' →
      dispatched s s' ∧ event_ok s s' f
        (if negb (pc_ack c) || negb (l_connected s) then Some (Connected f) else None)).
    { intros s' (Hd&Hp&Hc&Hpe)%Hdis. split; [done|].
      destruct (_ || _); [|done]. cbn. split_and!; done. }
    destruct (pc_ack c); wp_steps.
    + apply Hend, tx_changed_refl, Hok1.
    + eapply wp_mono; [apply queue_hello_spec; [apply Hok1|by apply link_ok_rows]|].
      intros r s' [Ht _]. wp_steps. by apply Hend.
  - clear Hr. wp_steps.
    assert (Hfin : ∀ s1, same_core s s1 → same_rx s s1 → same_tx s s1 → same_seq s s1 →
      same_env s s1 → dispatched s (drop_peer s1) ∧
      event_ok s (drop_peer s1) f (if l_connected s then Some Disconnected else None)).
    { intros s1 Hc1 Hr1 Ht1 Hq1 He1. pose proof (link_ok_bump _ _ Hc1 Hr1 Ht1 Hq1 He1 Hs) as Hok1.
      split.
      - destruct Hc1, Hr1, Ht1, Hq1, He1. constructor; [by apply drop_peer_ok|by constructor..|done|done|done|].
        cbn. congruence.
      - destruct (l_connected s) eqn:Ec; cbn; [done|].
        by destruct (po_disconnected s (ok_peer s Hs) Ec) as (_&_&_&_&->). }
    case_bool_decide; wp_steps; apply Hfin; by constructor.
Qed.

(** ** Dispatch *)

Lemma dispatched_bump s s' :
  same_core s s' → same_rx s s' → same_tx s s' → same_seq s s' → same_env s s' →
  link_ok s → dispatched s s'.
Proof.
  intros Hc Hr Ht Hq He Hs. pose proof (link_ok_bump _ _ Hc Hr Ht Hq He Hs).
  destruct Hc, Ht. constructor; try done. congruence.
Qed.

Lemma cancel_request_spec hash seq s :
  link_ok s → (hash, seq) ∈ flatten (l_pending s) →
  wp (cancel_request hash seq) (λ _ s',
    dispatched s s' ∧ l_connected s' = l_connected s ∧
    request_done (l_pending s) (l_pending s') (hash, seq)) s.
Proof.
  intros Hs Hin. unfold cancel_request. wp_steps.
  destruct (position (is_pending hash seq) (l_pending s)) as [i|] eqn:Ei.
  2:{ apply position_None in Ei. rewrite Forall_forall in Ei. apply elem_of_flatten in Hin.
      apply Ei in Hin. unfold is_pending in Hin. by rewrite bool_decide_eq_false in Hin. }
  wp_steps. set (s' := set_pending _ s).
  pose proof (ok_peer s Hs) as Hp. pose proof (po_nodup s Hp) as Hnd.
  assert (Hconn : l_connected s = true).
  { destruct (l_connected s) eqn:E; [done|]. destruct (po_disconnected s Hp E) as (_&_&_&_&Hpe).
    rewrite Hpe, flatten_replicate_None in Hin. by apply elem_of_nil in Hin. }
  split_and!; [|done|].
  - constructor; try done. destruct Hs as [Hb Hl _ Hc]. constructor.
    + by destruct Hb; constructor.
    + apply (local_ok_core s); [by constructor|done].
    + apply (peer_ok_core s); [by constructor|done|..|done].
      * cbn. rewrite length_insert. apply Hp.
      * cbn. by eapply NoDup_flatten_clear.
      * congruence.
    + by destruct Hc; constructor.
  - destruct (insert_position _ _ _ None Ei) as (l1&o&l2&El&Ho&En).
    unfold is_pending in Ho. apply bool_decide_eq_true in Ho as ->.
    change (l_pending s') with (<[i := None]> (l_pending s)). rewrite En.
    rewrite El in Hnd |- *. unfold request_done. rewrite !flatten_app in *. cbn in *.
    rewrite <- Permutation_middle in Hnd. apply NoDup_cons in Hnd as [Hni _].
    rewrite !elem_of_app, !elem_of_cons in *. split_and!; [by auto|done|].
    intros q Hq. rewrite !elem_of_app, elem_of_cons. split; [tauto|].
    intros [?|[?|?]]; [by left|done|by right].
Qed.

Lemma dispatch_spec f s :
  link_ok s → l_started s = true → frame_ok s f →
  wp (dispatch f) (λ ev s', dispatched s s' ∧ event_ok s s' f ev) s.
Proof.
  intros Hs Hst Hf. unfold dispatch.
  assert (Herr : ∀ msg, bytes_ok msg →
    wp (modify bump_dropped_unwanted ;;;
        let* _ := emit_error (f_hash f) (f_seq f) msg in ret None)
       (λ ev s', dispatched s s' ∧ event_ok s s' f ev) s).
  { intros msg Hm. wp_steps.
    assert (Hd1 : dispatched s (bump_dropped_unwanted s)) by (by apply dispatched_bump).
    eapply wp_mono; [apply emit_error_spec; [apply Hd1|done|apply Hf|apply Hf]|].
    intros r s' [Ht _]. wp_steps. split; [|exact (sq_pending _ _ (tc_seq _ _ Ht))].
    destruct (dispatched_tx _ _ (dp_ok _ _ Hd1) Ht) as [D1 D2 D3 D4 D5 D6 D7].
    destruct Hd1. constructor; [done|by etrans|by etrans|congruence..]. }
  assert (Hbump : ∀ g, (∀ s, same_core s (g s)) → (∀ s, same_rx s (g s)) → (∀ s, same_tx s (g s)) →
    (∀ s, same_seq s (g s)) → (∀ s, same_env s (g s)) →
    wp (modify g ;;; ret None) (λ ev s', dispatched s s' ∧ event_ok s s' f ev) s).
  { intros g G1 G2 G3 G4 G5. wp_steps. split; [by apply dispatched_bump|]. apply G4. }
  assert (Hrep : ∀ ev, (∀ s', request_done (l_pending s) (l_pending s') (f_hash f, f_seq f) →
      l_connected s = true → event_ok s s' f (Some ev)) →
    wp (let* s := get in
        if negb (l_connected s) || negb (bool_decide (Some (f_hash f, f_seq f) ∈ l_pending s))
        then modify bump_dropped_unwanted ;;; ret None else
        cancel_request (f_hash f) (f_seq f) ;;; ret (Some ev))
       (λ ev s', dispatched s s' ∧ event_ok s s' f ev) s).
  { intros ev Hev. wp_steps. destruct (_ || _) eqn:E; [by apply Hbump|].
    apply orb_false_iff in E as [Ec Ep]. apply negb_false_iff in Ec, Ep.
    apply bool_decide_eq_true in Ep. wp_steps.
    eapply wp_mono; [apply cancel_request_spec; [done|by apply elem_of_flatten]|].
    intros [] s' (Hd&_&Hrd). wp_steps. auto. }
  destruct (f_kind f) eqn:Ek.
  - by apply on_hello_spec.
  - wp_steps. set (wanted := if l_bridge s then _ else _).
    destruct wanted eqn:Ew; cbn [negb]; [|by apply Hbump].
    destruct (_ || _) eqn:E; [by apply Hbump|]. wp_steps.
    split; [by apply dispatched_refl|]. cbn. split_and!; try done.
    apply orb_false_iff in E as [Ec E]. apply negb_false_iff in Ec.
    apply andb_false_iff in E. split_and!; [done| |].
    + unfold wanted in Ew. destruct (l_bridge s).
      * destruct (remote_type _ _) as [t|]; [by exists t|done].
      * by destruct (local_source _ _ _); [eexists|].
    + destruct E as [E|E]; [left; by apply negb_false_iff|].
      right. destruct (remote_type _ _) as [t|]; [|done]. apply orb_false_iff in E as [E1 E2].
      apply negb_false_iff in E2. by exists t.
  - wp_steps. set (served := match local_type _ _ with Some _ => _ | None => _ end).
    destruct (_ || _) eqn:E; [apply Herr; vm_compute; repeat constructor; discriminate|].
    apply orb_false_iff in E as [Ec E]. apply negb_false_iff in Ec. apply andb_false_iff in E.
    rewrite !negb_false_iff in E.
    assert (Hcaller : negb (is_none (remote_source s (f_hash f) flags.CALLS)) = true →
                      is_Some (remote_source s (f_hash f) flags.CALLS))
      by (destruct (remote_source _ _ _); [by eexists|done]).
    destruct (served || _) eqn:Ev; [|apply Herr; vm_compute; repeat constructor; discriminate].
    wp_steps. split; [by apply dispatched_refl|]. cbn. split_and!; try done. split_and!; [done| |].
    + destruct E; [by left|right; auto].
    + apply orb_true_iff in Ev as [Ev|Ev].
      * left. unfold served in Ev. destruct (local_type _ _) as [t|]; [by exists t|done].
      * right. apply andb_true_iff in Ev as [? ?]. auto.
  - apply Hrep. intros s' Hrd Hc. by rewrite bool_decide_eq_true_2.
  - apply Hrep. intros s' Hrd Hc. by rewrite bool_decide_eq_false_2.
  - wp_steps. by split; [apply dispatched_refl|].
Qed.

(** ** The loop of [next] *)

(** Between two frames: the tables, the clock and the outstanding requests are
    as before. *)
Record passed (s s' : Link) : Prop := {
  ps_ok : link_ok s';
  ps_rx : length (l_rx s') = length (l_rx s);
  ps_env : same_env s s';
  ps_local : l_local s' = l_local s;
  ps_id : l_id s' = l_id s;
  ps_bridge : l_bridge s' = l_bridge s;
  ps_tx : length (l_tx s') = length (l_tx s);
  ps_pending : l_pending s' = l_pending s;
}.

Lemma passed_trans s1 s2 s3 : passed s1 s2 → passed s2 s3 → passed s1 s3.
Proof. intros [] []. constructor; [done|congruence|by etrans|congruence..]. Qed.

Lemma passed_rx s s' : link_ok s → rx_changed s s' → passed s s'.
Proof.
  intros Hs Hr. pose proof (link_ok_rx _ _ Hr Hs). destruct Hr as [[] [] [] ? ? ? ? ?].
  constructor; try done. congruence.
Qed.

Lemma passed_bump s s' :
  same_core s s' → same_rx s s' → same_tx s s' → same_seq s s' → same_env s s' →
  link_ok s → passed s s'.
Proof.
  intros Hc Hr Ht Hq He Hs. pose proof (link_ok_bump _ _ Hc Hr Ht Hq He Hs).
  destruct Hc, Hr, Ht, Hq. constructor; try done; congruence.
Qed.

Lemma passed_dispatched s s' :
  dispatched s s' → l_pending s' = l_pending s → passed s s'.
Proof. intros [? [] ? ? ? ? ?] ?. constructor; try done. congruence. Qed.

(** The state in which a frame of [n] bytes is dispatched *)
Definition arrived (n : nat) (s : Link) : Link :=
  set_last_rx_ms (l_now_ms s) (set_rx_generation (wrapping_add 16 (l_rx_generation s) 1)
    (set_rx_consumed n s)).

Lemma arrived_passed n s : link_ok s → n ≤ l_rx_len s → passed s (arrived n s).
Proof.
  intros Hs Hn. constructor; try done.
  apply (link_ok_core s); [by constructor|done|done| | |done].
  - destruct Hs as [[] _ _ _]. by constructor.
  - destruct Hs as [_ _ _ []]. constructor; [done..|]. by apply wrap_range.
Qed.

(** The report of [next]: nothing complete is left, or the event of a frame that
    was dispatched in the state [s0] *)
Definition next_post (s s' : Link) (ev : option Event) : Prop :=
  match ev with
  | None => passed s s' ∧ l_rx_consumed s' = 0 ∧ position is_delimiter (rx_queue s') = None
  | Some e =>
      ∃ s0 f, passed s s0 ∧ frame_ok s0 f ∧ f_generation f = l_rx_generation s0 ∧
              0 < l_rx_consumed s0 ∧ dispatched s0 s' ∧ event_ok s0 s' f (Some e)
  end.

Lemma next_post_passed s1 s2 s3 ev : passed s1 s2 → next_post s2 s3 ev → next_post s1 s3 ev.
Proof.
  intros Hp. destruct ev as [e|]; cbn.
  - intros (s0&f&Hp0&Hr). exists s0, f. split; [by eapply passed_trans|done].
  - intros (Hp0&?&?). split_and!; [by eapply passed_trans|done..].
Qed.

Lemma next_loop_spec fuel s :
  link_ok s → l_started s = true → l_rx_consumed s = 0 → l_rx_len s < fuel →
  wp (next_loop fuel) (λ ev s', next_post s s' ev) s.
Proof.
  revert s. induction fuel as [|fuel IH]; intros s Hs Hst Hcs Hfu; [lia|].
  cbn [next_loop]. wp_steps. pose proof (ok_bufs s Hs) as Hb. pose proof (bo_rx s Hb) as Hrx.
  rewrite slice_eq by lia. wp_steps. rewrite drop_0, Nat.sub_0_r. fold (rx_queue s).
  destruct (position is_delimiter (rx_queue s)) as [e|] eqn:Ee.
  2:{ wp_steps. cbn. split; [by constructor|done]. }
  pose proof (position_lt _ _ _ Ee) as He. rewrite length_rx_queue in He by done.
  (* dropping the frame and going on *)
  assert (Hdrop : ∀ s1, passed s s1 → l_rx_consumed s1 = 0 → l_rx_len s1 = l_rx_len s →
    wp (rx_discard (e + 1) ;;; next_loop fuel) (λ ev s', next_post s s' ev) s1).
  { intros s1 Hp1 Hc1 Hl1. rewrite wp_bind.
    eapply wp_mono; [apply rx_discard_spec; [apply Hp1|lia|done]|].
    intros [] s2 (Hr2&_&Hc2&_&_&Hl2).
    pose proof (passed_trans _ _ _ Hp1 (passed_rx _ _ (ps_ok _ _ Hp1) Hr2)) as Hp2.
    eapply wp_mono; [apply IH; [apply Hp2| |done|lia]|].
    { by rewrite (se_started _ _ (ps_env _ _ Hp2)). }
    intros ev s3. by apply next_post_passed. }
  destruct (e =? 0) eqn:E0; breflect_in E0; [by apply Hdrop; [by constructor|..]|].
  wp_steps. eapply wp_mono; [apply decode_frame_spec; [done|lia]|].
  intros r s1 (Hdi&Hf&_). pose proof Hdi as [D1 D2 D3 D4 D5 D6 D7].
  pose proof (passed_rx _ _ Hs D1) as Hp1.
  destruct r as [f|].
  2:{ rewrite wp_bind, wp_modify. apply Hdrop; [|cbn; lia|done].
      eapply passed_trans; [exact Hp1|]. apply passed_bump; try by constructor. apply Hp1. }
  destruct Hf as [Hf Hg0]. wp_steps.
  replace (wrapping_add 16 (l_rx_generation s) 1) with (wrapping_add 16 (l_rx_generation s1) 1)
    by (by rewrite D4).
  replace (l_now_ms s) with (l_now_ms s1) by (by rewrite (se_now _ _ (ps_env _ _ Hp1))).
  fold (arrived (e + 1) s1). set (g := with_generation _ f).
  assert (Hp2 : passed s1 (arrived (e + 1) s1)) by (apply arrived_passed; [apply Hp1|lia]).
  pose proof (passed_trans _ _ _ Hp1 Hp2) as Hp12.
  assert (Hg : frame_ok (arrived (e + 1) s1) g) by (by destruct Hf; constructor).
  eapply wp_mono; [apply dispatch_spec; [apply Hp2| |done]|].
  { by rewrite (se_started _ _ (ps_env _ _ Hp12)). }
  intros ev s3 [Hd Hev]. destruct ev as [ev|].
  - wp_steps. exists (arrived (e + 1) s1), g. split_and!; try done. cbn. lia.
  - pose proof (passed_dispatched _ _ Hd Hev) as Hp3. pose proof (passed_trans _ _ _ Hp12 Hp3) as Hp13.
    wp_steps. eapply wp_mono; [apply rx_compact_spec; apply Hd|].
    intros [] s4 (Hr4&_&Hc4&_&_&Hl4).
    pose proof (passed_trans _ _ _ Hp13 (passed_rx _ _ (ps_ok _ _ Hp3) Hr4)) as Hp4.
    eapply wp_mono; [apply IH; [apply Hp4| |done|]|].
    { by rewrite (se_started _ _ (ps_env _ _ Hp4)). }
    { rewrite Hl4, (sr_len _ _ (dp_rx _ _ Hd)), (sr_consumed _ _ (dp_rx _ _ Hd)). cbn. lia. }
    intros ev s5. by apply next_post_passed.
Qed.

(** [next] from any state: what it does before the loop keeps the tables, too. *)
Lemma next_spec s :
  link_ok s →
  wp next (λ ev s', ∃ s1, passed (set_started true s) s1 ∧ l_started s1 = true ∧ next_post s1 s' ev) s.
Proof.
  intros Hs. unfold next. rewrite wp_bind.
  eapply wp_mono; [apply ensure_started_spec; [apply Hs|by apply link_ok_rows]|].
  intros [] s1 (Ht&_&_). pose proof (link_ok_started s Hs) as Hs0.
  pose proof (passed_dispatched _ _ (dispatched_tx _ _ Hs0 Ht) (sq_pending _ _ (tc_seq _ _ Ht))) as Hp1.
  wp_steps. eapply wp_mono; [apply rx_compact_spec, Ht|].
  intros [] s2 (Hr2&_&Hc2&_&_&_).
  pose proof (passed_trans _ _ _ Hp1 (passed_rx _ _ (ps_ok _ _ Hp1) Hr2)) as Hp2. wp_steps.
  assert (Hst2 : l_started s2 = true) by (by rewrite (se_started _ _ (ps_env _ _ Hp2))).
  eapply wp_mono; [apply next_loop_spec; [apply Hp2|done|done|lia]|].
  intros ev s3 Hpost. by exists s2.
Qed.
End recv.
