(* ===== verification/LinkDeclare.v ===== *)
(** * LinkDeclare: declarations and the clock

    [declare] either leaves the tables as they were or adds a row that keeps the
    whole table a valid Hello; [tick] decides liveness with a wrapping clock. *)

From Stdlib Require Import ZArith Lia.
From S2P Require Import Prelude Text Codec Core Wire Hello HelloSpec HelloParse HelloWrite LinkState Link LinkInv LinkIo LinkSend LinkRecv.

Section declare.
Context {P : LinkParams} `{CrcOps} `{!CrcLaws} `{CobsOps} `{!CobsLaws}.

(** ** Ports *)

Lemma find_port_Some p ports r :
  find_port p ports = Some r → ref_ok ports r ∧ p (pr_port r) = true.
Proof.
  unfold find_port. destruct (position p ports) as [i|] eqn:E; [|done]. cbn.
  apply position_Some in E as (l1&x&l2&->&<-&Hp&_).
  rewrite list_lookup_middle by done. cbn. intros [= <-]. split; [|done].
  unfold ref_ok. cbn. by rewrite list_lookup_middle.
Qed.

(** What a looked-up port satisfies: it is the named one, with the direction, the
    types and the fingerprints asked for. *)
Record port_matches (q : StaticPort) (T : MessageType) (name : str) (d : PortDirection)
    (response : option PortType) : Prop := {
  pm_name : sp_name q = name;
  pm_direction : sp_direction q = d;
  pm_type : sp_ty q = TYPE_NAME T;
  pm_schema : sp_schema q = SCHEMA_FINGERPRINT T;
  pm_response : sp_response q = response;
}.

Lemma option_pair_eq (a b : option PortType) :
  option_map pt_ty a = option_map pt_ty b → option_map pt_schema a = option_map pt_schema b → a = b.
Proof. destruct a as [[]|], b as [[]|]; cbn; congruence. Qed.

Lemma port_spec s T name d response r :
  port s T name d response = Ok r → ref_ok (l_ports s) r ∧ port_matches (pr_port r) T name d response.
Proof.
  unfold port. destruct (find_port _ _) as [r'|] eqn:E; cbn [ok_or]; [|done].
  apply find_port_Some in E as [Hr Hp]. apply andb_true_iff in Hp as [Hn Hd].
  apply bool_decide_eq_true in Hn. apply bool_decide_eq_true in Hd.
  destruct (_ || _) eqn:E1; [done|]. destruct (negb (_ =? _)%Z || _) eqn:E2; [done|].
  intros [= <-]. apply orb_false_iff in E1 as [E1 E1']. apply orb_false_iff in E2 as [E2 E2'].
  apply negb_false_iff, bool_decide_eq_true in E1. apply negb_false_iff, bool_decide_eq_true in E1'.
  apply negb_false_iff, Z.eqb_eq in E2. apply negb_false_iff, bool_decide_eq_true in E2'.
  split; [done|]. constructor; try done. by apply option_pair_eq.
Qed.

Lemma ref_ok_ptr ports r r' : ref_ok ports r → ref_ok ports r' → ptr_eq r r' = true → r = r'.
Proof.
  unfold ref_ok, ptr_eq. intros Hr Hr' E. apply Nat.eqb_eq in E. destruct r as [i q], r' as [i' q'].
  cbn in *. subst i'. congruence.
Qed.

(** ** The local table *)

Lemma flags_of_lor d f g : f ∈ flags_of d → g ∈ flags_of d → Z.lor f g ∈ flags_of d.
Proof.
  destruct d; cbn [flags_of]; rewrite ?elem_of_cons, ?elem_of_nil; intros Hf Hg;
    repeat destruct Hf as [->|Hf]; repeat destruct Hg as [->|Hg]; try done; cbn; auto.
Qed.

(** The table after a declaration: every port keeps its row and [r] has one. *)
Record extends (ports : list StaticPort) (own : str) (r : PortRef)
    (l l' : list (option LocalType)) : Prop := {
  ex_length : length l' = length l;
  ex_rows : Forall (row_ok ports own) (flatten l');
  ex_kept : ∀ t, t ∈ flatten l → ∃ t', t' ∈ flatten l' ∧ lt_port t' = lt_port t;
  ex_new : ∃ t, t ∈ flatten l' ∧ lt_port t = r;
}.

Lemma declare_slot_spec ports own r flag l :
  ref_ok ports r → flag ∈ flags_of (sp_direction (pr_port r)) →
  Forall (row_ok ports own) (flatten l) →
  match declare_slot (endpoint_hash own (sp_name (pr_port r))) r flag l with
  | Ok (Some l') => extends ports own r l l'
  | _ => True
  end.
Proof.
  intros Hr Hf. induction l as [|[t|] l IH]; intros Hrows; cbn [declare_slot]; [done| |].
  - cbn [flatten] in Hrows. apply Forall_cons in Hrows as [Ht Hrows].
    destruct (_ && _); [done|]. destruct (ptr_eq (lt_port t) r) eqn:Ep.
    + apply (ref_ok_ptr ports) in Ep; [|apply Ht|done]. destruct Ht as [T1 T2 T3 T4 T5].
      set (t' := mkLocalType _ _ _ _ _). constructor; cbn [flatten]; [done| | |].
      * apply Forall_cons. split; [|done]. constructor; cbn; try done.
        apply flags_of_lor; [done|by rewrite Ep].
      * intros u Hu. apply elem_of_cons in Hu as [->|Hu]; [exists t'; by split; [left|]|].
        exists u. by split; [right|].
      * exists t'. by split; [left|].
    + specialize (IH Hrows). destruct (declare_slot _ _ _ _) as [[l'|]|]; cbn; try done.
      destruct IH as [I1 I2 I3 I4]. constructor; cbn [flatten]; [cbn; congruence|by apply Forall_cons| |].
      * intros u Hu. apply elem_of_cons in Hu as [->|Hu]; [exists t; by split; [left|]|].
        destruct (I3 u Hu) as (u'&?&?). exists u'. by split; [right|].
      * destruct I4 as (u&?&?). exists u. by split; [right|].
  - specialize (IH Hrows). destruct (declare_slot _ _ _ _) as [[l'|]|]; cbn; try done.
    destruct IH as [I1 I2 I3 I4]. constructor; cbn [flatten]; [cbn; congruence|done..].
Qed.

Lemma declare_type_spec r flag s :
  rows_ok s → ref_ok (l_ports s) r → flag ∈ flags_of (sp_direction (pr_port r)) →
  wp (declare_type r flag) (λ res s',
    match res with
    | Ok _ => ∃ l, s' = set_local l s ∧ extends (l_ports s) (id s) r (l_local s) l
    | Err e => s' = s
    end) s.
Proof.
  intros Hs Hr Hf. unfold declare_type. wp_steps.
  pose proof (declare_slot_spec (l_ports s) (id s) r flag (l_local s) Hr Hf (rw_rows s Hs)) as Hd.
  destruct (declare_slot _ _ _ _) as [[l|]|e]; wp_steps; [by exists l| |done].
  destruct (position is_none (l_local s)) as [free|] eqn:Ef; wp_steps; [|done].
  set (t := mkLocalType _ _ _ _ _). eexists. split; [done|].
  destruct (insert_free _ _ t Ef) as (l1&l2&E1&E2).
  constructor; [by rewrite length_insert|rewrite E2|rewrite E1, E2|rewrite E2].
  - destruct Hs as [_ _ Hrows]. rewrite E1 in Hrows. apply Forall_app in Hrows as [R1 R2].
    apply Forall_app. split; [done|]. apply Forall_cons. split; [by constructor|done].
  - intros u Hu. exists u. split; [|done]. rewrite elem_of_app in *. rewrite elem_of_cons. tauto.
  - exists t. split; [|done]. apply elem_of_app. right. left.
Qed.

(** ** Declaring *)

Lemma position_some_free {A} (l : list (option A)) :
  forallb (λ d, negb (is_none d)) l = false → ∃ i, position is_none l = Some i.
Proof.
  intros Hf. destruct (position is_none l) as [i|] eqn:E; [by exists i|]. exfalso.
  apply position_None in E. assert (forallb (λ d, negb (is_none d)) l = true); [|congruence].
  rewrite forallb_Forall. eapply Forall_impl; [exact E|]. intros o ->. done.
Qed.

(** Before the start, only the local tables and the scratch buffer matter. *)
Lemma link_ok_declared s local declared sc :
  link_ok s → l_started s = false →
  bufs_ok (set_scratch sc (set_local local s)) →
  local_ok (set_declared declared (set_scratch sc (set_local local s))) →
  link_ok (set_declared declared (set_scratch sc (set_local local s))).
Proof.
  intros [Hb Hl Hp Hc] Hst Hb' Hl'. constructor; [by destruct Hb'; constructor|done| |].
  - destruct Hp as [K1 K2 K3 K4 K5 K6]. constructor; try done.
    cbn. intros E. destruct (K4 E) as [Hs _]. congruence.
  - by destruct Hc; constructor.
Qed.

(** The outcome of a declaration *)
Definition declare_effect (s s' : Link) (T : MessageType) (name : str) (d : PortDirection)
    (response : option PortType) (res : result unit Error) : Prop :=
  match res with
  | Ok _ => l_started s = false ∧ check_port s' T name d response = Ok tt ∧
            table_ok (l_bridge s) (id s) (local_rows s') ∧
            ∀ t, t ∈ flatten (l_local s) → ∃ t', t' ∈ flatten (l_local s') ∧ lt_port t' = lt_port t
  | Err e => l_local s' = l_local s ∧ l_declared s' = l_declared s ∧ tx_changed s s'
  end.

Lemma declare_spec T name d flag response s :
  link_ok s → flag ∈ flags_of d →
  wp (declare T name d flag response) (λ res s',
    link_ok s' ∧ tx_queue s' = tx_queue s ∧ l_ports s' = l_ports s ∧ l_id s' = l_id s ∧
    declare_effect s s' T name d response res) s.
Proof.
  intros Hs Hflag. unfold declare. wp_steps.
  assert (Hsame : ∀ e, link_ok s ∧ tx_queue s = tx_queue s ∧ l_ports s = l_ports s ∧ l_id s = l_id s ∧
    declare_effect s s T name d response (Err e)).
  { intros e. unfold declare_effect. split_and!; try done. apply tx_changed_refl, Hs. }
  destruct (l_started s) eqn:Est; wp_steps; [apply Hsame|].
  destruct (port s T name d response) as [r|e] eqn:Eport; [|apply Hsame].
  destruct (port_spec _ _ _ _ _ _ Eport) as [Href Hm].
  destruct (negb (is_declared s r) && _) eqn:Efull; wp_steps; [apply Hsame|].
  eapply wp_mono; [apply declare_type_spec; [by apply link_ok_rows|done|by rewrite (pm_direction _ _ _ _ _ Hm)]|].
  intros res s1 Hres. destruct res as [[]|e]; [|subst s1; apply Hsame].
  destruct Hres as (l&->&[X1 X2 X3 X4]).
  assert (Hb1 : bufs_ok (set_local l s)) by (destruct Hs as [[] _ _ _]; by constructor).
  assert (Hr1 : rows_ok (set_local l s)).
  { destruct (link_ok_rows s Hs) as [R1 R2 R3]. by constructor. }
  rewrite wp_bind. eapply wp_mono; [by apply hello_payload_spec|].
  intros res s2 ((sc&->)&Hb2&Hcase). destruct res as [len|e].
  2:{ wp_steps. set (s3 := set_local _ _).
      assert (Ht : tx_changed s s3) by (constructor; try done; destruct Hb2; by constructor).
      split; [by eapply link_ok_tx|]. split_and!; done. }
  destruct Hcase as (_&_&_&_&Htab).
  change (l_bridge (set_local l s)) with (l_bridge s) in Htab.
  change (id (set_local l s)) with (id s) in Htab.
  assert (Hlocal : ∀ declared, length declared = TABLE → Forall (ref_ok (l_ports s)) (flatten declared) →
    (∀ q, q ∈ flatten declared → q ∈ flatten (l_declared s) ∨ q = r) →
    link_ok (set_declared declared (set_scratch sc (set_local l s)))).
  { intros declared L1 L2 L3. apply link_ok_declared; [done|done|done|].
    destruct Hs as [_ [O1 O2 O3 O4 O5 O6] _ _].
    constructor; try done; [by destruct Hr1; constructor|cbn; congruence| |].
    - cbn. intros q Hq. destruct (L3 q Hq) as [Hold| ->]; [|done].
      destruct (O5 q Hold) as (t&Ht&<-). destruct (X3 t Ht) as (t'&?&?). by exists t'.
    - cbn. intros Hb. rewrite Hb in Htab. exact Htab. }
  assert (Hcp : ∀ s', l_ports s' = l_ports s → is_declared s' r = true →
    check_port s' T name d response = Ok tt).
  { intros s' Hp Hd. unfold check_port, port in *. rewrite Hp.
    destruct (ok_or _ _) as [r0|]; [|done]. destruct (_ || _); [done|]. destruct (_ || _); [done|].
    injection Eport as ->. by rewrite Hd. }
  destruct (is_declared s r) eqn:Edecl; wp_steps.
  - unfold declare_effect. split_and!; try done.
    + change (set_scratch sc (set_local l s))
        with (set_declared (l_declared s) (set_scratch sc (set_local l s))).
      destruct Hs as [_ [O1 O2 O3 O4 O5 O6] _ _]. apply Hlocal; auto.
    + by apply Hcp.
  - cbn [negb andb] in Efull. destruct (position_some_free _ Efull) as [free Ef].
    cbn [l_declared set_scratch set_local]. rewrite Ef. wp_steps.
    destruct (insert_free _ _ r Ef) as (d1&d2&E1&E2).
    destruct Hs as [Hsb [O1 O2 O3 O4 O5 O6] Hsp Hsc].
    unfold declare_effect. split_and!; try done.
    + apply Hlocal; [by rewrite length_insert|rewrite E2|rewrite E1, E2].
      * rewrite E1 in O4. apply Forall_app in O4 as [? ?]. apply Forall_app. split; [done|by constructor].
      * intros q. rewrite !elem_of_app, elem_of_cons. tauto.
    + apply Hcp; [done|]. unfold is_declared. cbn [set_declared l_declared]. rewrite E2.
      rewrite existsb_exists_elem. exists r. split; [apply elem_of_app; right; left|].
      unfold ptr_eq. apply Nat.eqb_refl.
Qed.
End declare.
