(* ===== verification/LinkRun.v ===== *)
(** * LinkRun: a link driven by any sequence of calls

    [tick] and [new], the calls of the public and crate-level interface as data
    ([Op]), and the step relation they generate.  Every call from a state that
    satisfies the invariant returns, and re-establishes it. *)

From Stdlib Require Import ZArith Lia.
From S2P Require Import Prelude Text Codec Core Wire Hello HelloSpec HelloParse HelloWrite LinkState Link LinkInv LinkIo LinkSend LinkRecv LinkDeclare.

(** The calls on a link *)
Inductive Op : Type :=
  | OpConfig (config : LinkConfig)
  | OpBridge
  | OpPublishes (T : MessageType) (name : str)
  | OpPublishesLatched (T : MessageType) (name : str)
  | OpSubscribes (T : MessageType) (name : str)
  | OpRpcServer (S : Service) (name : str)
  | OpRpcClient (S : Service) (name : str)
  | OpFeed (bytes : list Z)
  | OpDrain (out : list Z)
  | OpDrainFrame (out : list Z)
  | OpTick (now_ms : Z)
  | OpNext
  | OpSend (T : MessageType) (name : str) (msg : Message)
  | OpSendRaw (hash : Z) (payload : list Z)
  | OpRequest (S : Service) (name : str) (req : Message)
  | OpRequestRaw (hash : Z) (payload : list Z)
  | OpReply (S : Service) (name : str) (seq : Z) (resp : Message)
  | OpReplyRaw (seq hash schema : Z) (payload : list Z)
  | OpReplyErr (S : Service) (name : str) (seq : Z) (message : str)
  | OpReplyErrRaw (seq hash : Z) (message : str)
  | OpCancel (hash seq : Z).

(** What Rust's types, and prost's contract, say of the arguments *)
Definition op_typed (o : Op) : Prop :=
  match o with
  | OpFeed bytes => bytes_ok bytes
  | OpSend _ _ m | OpRequest _ _ m => message_ok m
  | OpSendRaw hash p | OpRequestRaw hash p => is_u32 hash ∧ bytes_ok p
  | OpReply _ _ seq m => is_u8 seq ∧ message_ok m
  | OpReplyRaw seq hash _ p => is_u8 seq ∧ is_u32 hash ∧ bytes_ok p
  | OpReplyErr _ _ seq msg => is_u8 seq ∧ str_ok msg
  | OpReplyErrRaw seq hash msg => is_u8 seq ∧ is_u32 hash ∧ str_ok msg
  | _ => True
  end.

Section run.
Context {P : LinkParams} `{CrcOps} `{CobsOps}.

(** A call, its result put aside *)
Definition run_op (o : Op) : ST Link unit :=
  match o with
  | OpConfig c => modify (with_config c)
  | OpBridge => modify into_bridge
  | OpPublishes T name => publishes T name ;;; ret tt
  | OpPublishesLatched T name => publishes_latched T name ;;; ret tt
  | OpSubscribes T name => subscribes T name ;;; ret tt
  | OpRpcServer Svc name => rpc_server Svc name ;;; ret tt
  | OpRpcClient Svc name => rpc_client Svc name ;;; ret tt
  | OpFeed bytes => feed bytes ;;; ret tt
  | OpDrain out => drain out ;;; ret tt
  | OpDrainFrame out => drain_frame out ;;; ret tt
  | OpTick now => tick now ;;; ret tt
  | OpNext => next ;;; ret tt
  | OpSend T name m => send T name m ;;; ret tt
  | OpSendRaw hash p => send_raw hash p ;;; ret tt
  | OpRequest Svc name m => request Svc name m ;;; ret tt
  | OpRequestRaw hash p => request_raw hash p ;;; ret tt
  | OpReply Svc name seq m => reply Svc name seq m ;;; ret tt
  | OpReplyRaw seq hash schema p => reply_raw seq hash schema p ;;; ret tt
  | OpReplyErr Svc name seq msg => reply_err Svc name seq msg ;;; ret tt
  | OpReplyErrRaw seq hash msg => reply_err_raw seq hash msg ;;; ret tt
  | OpCancel hash seq => cancel_request hash seq
  end.

(** The links that calls can lead to *)
Inductive reachable (id : str) (ports : list StaticPort) (tx rx : list Z) : Link → Prop :=
  | reach_new s : new id ports tx rx = Ok s → reachable id ports tx rx s
  | reach_op s o s' : reachable id ports tx rx s → op_typed o → run_op o s = Some (tt, s') →
                      reachable id ports tx rx s'.

(** A script of calls *)
Fixpoint run_ops (ops : list Op) (s : Link) : option Link :=
  match ops with
  | [] => Some s
  | o :: ops' => match run_op o s with Some (_, s') => run_ops ops' s' | None => None end
  end.

Lemma run_ops_reachable id ports tx rx ops s s' :
  Forall op_typed ops → reachable id ports tx rx s → run_ops ops s = Some s' →
  reachable id ports tx rx s'.
Proof.
  intros Ho. revert s. induction Ho as [|o ops Ho _ IH]; intros s Hs; cbn; [by intros [= <-]|].
  destruct (run_op o s) as [[[] s1]|] eqn:E; [|done]. apply IH. by eapply reach_op.
Qed.
End run.

Section run_proofs.
Context {P : LinkParams} `{CrcOps} `{!CrcLaws} `{CobsOps} `{!CobsLaws}.

Lemma new_ok i ports tx rx s :
  str_ok i → Forall port_typed ports → bytes_ok tx → bytes_ok rx →
  new i ports tx rx = Ok s → link_ok s.
Proof.
  intros Hi Hp Htx Hrx. unfold new. destruct (FRAME <? OVERHEAD) eqn:Ef; breflect_in Ef; [done|].
  destruct (any_enumerate _ _ _); [done|].
  destruct (negb _) eqn:Ev; [done|]. apply negb_false_iff in Ev.
  destruct (idbuf_new i) as [b|] eqn:Eb; [|done]. intros [= <-].
  assert (Hz : bytes_ok (replicate FRAME 0%Z)) by (apply Forall_replicate; by split).
  constructor.
  - constructor; cbn; try done; try (by rewrite length_replicate); lia.
  - constructor; cbn; try (by rewrite ?length_replicate, ?flatten_replicate_None; constructor).
    + constructor; cbn; [by exists i|done|]. rewrite flatten_replicate_None. constructor.
    + intros r. rewrite flatten_replicate_None. intros Hr. by apply elem_of_nil in Hr.
    + intros _. unfold local_rows. cbn. rewrite flatten_replicate_None. cbn.
      constructor; try done.
      * unfold id. cbn. by rewrite (as_str_new i b Eb Hi).
      * intros a c Ha. by apply elem_of_nil in Ha.
  - constructor; cbn; try done; try (by rewrite length_replicate); [lia|].
    rewrite flatten_replicate_None. constructor.
  - by constructor.
Qed.

(** Changes of fields that no part of the invariant mentions *)
Ltac link_misc s Hs :=
  apply (link_ok_core s); [by constructor|done|done|by destruct Hs as [[] _ _ _]; constructor
                          |by destruct Hs as [_ _ _ []]; constructor|done].

(** ** The clock *)

(** [tick] reports a disconnection exactly when a started, connected link has
    heard nothing for more than the timeout, on a clock that wraps. *)
Definition timed_out (now_ms : Z) (s : Link) : bool :=
  l_started s && l_connected s
  && (timeout_ms (l_config s) <? wrapping_sub 32 now_ms (l_last_rx_ms s))%Z.

Lemma link_ok_clock now s : link_ok s → link_ok (set_now_ms now s).
Proof. intros Hs. link_misc s Hs. Qed.

Lemma tick_spec now s :
  link_ok s →
  wp (tick now) (λ ev s', link_ok s' ∧
    if timed_out now s
    then ev = Some Disconnected ∧ s' = drop_peer (set_now_ms now s)
    else ev = None ∧ l_started s' = true ∧ l_now_ms s' = now ∧
         l_connected s' = l_connected s ∧ l_pending s' = l_pending s) s.
Proof.
  intros Hs. unfold tick, timed_out. wp_steps. pose proof (link_ok_clock now s Hs) as Hs1.
  cbn [set_now_ms l_started l_connected l_config l_last_rx_ms l_last_tx_ms].
  assert (Htx : ∀ s1 s', link_ok s1 → tx_changed s1 s' → l_started s1 = true → l_now_ms s1 = now →
    l_connected s1 = l_connected s → l_pending s1 = l_pending s →
    link_ok s' ∧ None = @None Event ∧ l_started s' = true ∧ l_now_ms s' = now ∧
    l_connected s' = l_connected s ∧ l_pending s' = l_pending s).
  { intros s1 s' Hok Ht E1 E2 E3 E4. pose proof (link_ok_tx _ _ Ht Hok).
    destruct Ht as [[] _ [] [] _ _]. split_and!; congruence. }
  destruct (l_started s) eqn:Est; cbn [negb andb].
  - destruct (l_connected s) eqn:Ec; cbn [andb].
    + destruct (_ <? _)%Z eqn:Et.
      { wp_steps. split; [by apply drop_peer_ok|done]. }
      destruct (_ <=? _)%Z; wp_steps; [|apply (Htx (set_now_ms now s)); try done; by apply tx_changed_refl, Hs1].
      eapply wp_mono; [apply emit_spec; [apply Hs1|by split|by split]|].
      intros r s' [Ht _]. wp_steps. by apply (Htx (set_now_ms now s)).
    + destruct (_ <=? _)%Z; wp_steps; [|apply (Htx (set_now_ms now s)); try done; by apply tx_changed_refl, Hs1].
      eapply wp_mono; [apply queue_hello_spec; [apply Hs1|by apply link_ok_rows]|].
      intros r s' [Ht _]. wp_steps. by apply (Htx (set_now_ms now s)).
  - wp_steps. set (s2 := set_last_rx_ms now _).
    assert (Hs2 : link_ok s2).
    { link_misc (set_now_ms now s) Hs1. }
    eapply wp_mono; [apply ensure_started_spec; [apply Hs2|by apply link_ok_rows]|].
    intros [] s' (Ht&_&_). wp_steps.
    apply (Htx (set_started true s2)); try done. by apply link_ok_started.
Qed.

(** ** Every call keeps the invariant *)

Lemma link_ok_config c s : link_ok s → link_ok (with_config c s).
Proof.
  intros Hs. link_misc s Hs.
Qed.

Lemma link_ok_bridge s : link_ok s → link_ok (into_bridge s).
Proof.
  intros [Hb Hl Hp Hc]. constructor.
  - by destruct Hb; constructor.
  - destruct Hl as [[] ? ? ? ? ?]. constructor; try done.
  - destruct Hp as [K1 K2 K3 K4 K5 K6]. constructor; try done.
    intros E. destruct (K4 E) as (?&h&p&[? ? ? ? ?]). split; [done|]. exists h, p.
    constructor; try done. by rewrite (check_remote_ext s).
  - by destruct Hc; constructor.
Qed.

Lemma link_ok_started_tx s s' : link_ok s → tx_changed (set_started true s) s' → link_ok s'.
Proof. intros Hs Ht. eapply link_ok_tx; [exact Ht|]. by apply link_ok_started. Qed.

Lemma cancel_request_ok hash seq s :
  link_ok s → wp (cancel_request hash seq) (λ _ s', link_ok s') s.
Proof.
  intros Hs. destruct (decide ((hash, seq) ∈ flatten (l_pending s))) as [Hin|Hout].
  - eapply wp_mono; [by apply cancel_request_spec|]. intros [] s' (Hd&_). apply Hd.
  - unfold cancel_request. wp_steps.
    destruct (position (is_pending hash seq) (l_pending s)) as [i|] eqn:Ei; wp_steps; [|done].
    apply position_Some in Ei as (l1&o&l2&El&_&Ho&_). unfold is_pending in Ho.
    apply bool_decide_eq_true in Ho as ->. destruct Hout. rewrite elem_of_flatten, El.
    apply elem_of_app. right. left.
Qed.

Lemma run_op_ok o s : link_ok s → op_typed o → wp (run_op o) (λ _ s', link_ok s') s.
Proof.
  intros Hs Ho. pose proof (ok_bufs s Hs) as Hb. pose proof (link_ok_rows s Hs) as Hr.
  assert (Hdecl : ∀ T name d flag response, flag ∈ flags_of d →
    wp (declare T name d flag response ;;; ret tt) (λ _ s', link_ok s') s).
  { intros T name d flag response Hf. wp_steps. eapply wp_mono; [by apply declare_spec|].
    intros res s' [Hok _]. done. }
  destruct o; cbn [run_op op_typed] in *.
  - by apply link_ok_config.
  - by apply link_ok_bridge.
  - apply Hdecl. cbn. left.
  - apply Hdecl. cbn. right. left.
  - apply Hdecl. cbn. left.
  - apply Hdecl. cbn. left.
  - apply Hdecl. cbn. left.
  - wp_steps. eapply wp_mono; [by apply feed_spec|]. intros n s' (s1&Ht&_&Hrx&_).
    wp_steps. eapply link_ok_rx; [exact Hrx|]. by eapply link_ok_started_tx.
  - wp_steps. eapply wp_mono; [by apply drain_spec|]. intros [n out'] s' [Ht _].
    wp_steps. by eapply link_ok_started_tx.
  - wp_steps. eapply wp_mono; [by apply drain_frame_spec|]. intros [n out'] s' [Ht _].
    wp_steps. by eapply link_ok_started_tx.
  - wp_steps. eapply wp_mono; [by apply tick_spec|]. intros ev s' [Hok _]. done.
  - wp_steps. eapply wp_mono; [by apply next_spec|]. intros ev s' (s1&_&_&Hpost). wp_steps.
    destruct ev as [ev|]; cbn in Hpost; [|apply Hpost].
    destruct Hpost as (s0&f&_&_&_&_&Hd&_). apply Hd.
  - destruct Ho as [b Hm]. wp_steps. eapply wp_mono; [by apply send_spec|]. by intros r s' [Hok _].
  - destruct Ho as [Hh Hp]. wp_steps. eapply wp_mono; [by apply send_raw_spec|]. by intros r s' [Hok _].
  - destruct Ho as [b Hm]. wp_steps. eapply wp_mono; [by apply request_spec|]. by intros r s' [Hok _].
  - destruct Ho as [Hh Hp]. wp_steps. eapply wp_mono; [by apply request_raw_spec|]. by intros r s' [Hok _].
  - destruct Ho as [Hq [b Hm]]. wp_steps. eapply wp_mono; [by apply reply_spec|].
    intros r s' [Ht _]. wp_steps. by eapply link_ok_tx.
  - destruct Ho as (Hq&Hh&Hp). wp_steps. eapply wp_mono; [by apply reply_raw_spec|].
    intros r s' [Ht _]. wp_steps. by eapply link_ok_tx.
  - destruct Ho as [Hq Hm]. wp_steps. eapply wp_mono; [apply reply_err_spec; auto with reiny|].
    intros r s' [Ht _]. wp_steps. by eapply link_ok_tx.
  - destruct Ho as (Hq&Hh&Hm). wp_steps. eapply wp_mono; [apply reply_err_raw_spec; auto with reiny|].
    intros r s' [Ht _]. wp_steps. by eapply link_ok_tx.
  - by apply cancel_request_ok.
Qed.

Lemma reachable_ok i ports tx rx s :
  str_ok i → Forall port_typed ports → bytes_ok tx → bytes_ok rx →
  reachable i ports tx rx s → link_ok s.
Proof.
  intros Hi Hp Htx Hrx. induction 1 as [s Hn|s o s' _ IH Ho E]; [exact (new_ok _ _ _ _ _ Hi Hp Htx Hrx Hn)|].
  by apply (wp_run _ _ _ _ _ (run_op_ok o s IH Ho) E).
Qed.
End run_proofs.
