(* ===== verification/LinkContract.v ===== *)
(** * LinkContract: what two connected links have agreed on, and delivery

    The validation of a Hello against the local table, as a statement about the two
    tables; the send queue as a queue of frames; and the way of a frame from one
    link's sender to the other link's event. *)

From Stdlib Require Import ZArith Lia.
From S2P Require Import Prelude Text Codec Core Wire Hello HelloSpec HelloParse HelloWrite LinkState Link LinkInv LinkIo LinkSend LinkRecv LinkDeclare LinkRun.

Section contract.
Context {P : LinkParams} `{CrcOps} `{!CrcLaws} `{CobsOps} `{!CobsLaws}.

(** ** Agreement of the tables *)

(** The peer's entry [e] feeds the local row [t]: [t] names it as a source. *)
Definition from_peer (h : Hello) (e : HelloEntry) (t : LocalType) : Prop :=
  mkAddress (hl_id h) (he_port e) ∈ sp_sources (pr_port (lt_port t)) ∧
  has (he_flags e) (Z.lor flags.PUB flags.SERVE) = true.

(** The local row [t] feeds the peer's entry [e]. *)
Definition to_peer (s : Link) (e : HelloEntry) (t : LocalType) : Prop :=
  mkEndpointRef (id s) (sp_name (pr_port (lt_port t))) ∈ sources_iter (he_sources e) ∧
  has (lt_flags t) (Z.lor flags.PUB flags.SERVE) = true.

(** The two sides carry the same type, fingerprint and response contract. *)
Record agrees (e : HelloEntry) (t : LocalType) : Prop := {
  ag_name : lt_name t = he_name e;
  ag_schema : lt_schema t = he_schema e;
  ag_response : option_map (λ r, (pt_ty r, pt_schema r)) (sp_response (pr_port (lt_port t)))
                = option_map (λ r, (ht_name r, ht_schema r)) (he_response e);
  ag_rpc : has (lt_flags t) (Z.lor flags.CALLS flags.SERVE)
           = has (he_flags e) (Z.lor flags.CALLS flags.SERVE);
}.

Definition peer_addresses (h : Hello) (e : HelloEntry) : list EndpointRef :=
  mkEndpointRef (hl_id h) (he_port e) :: sources_iter (he_sources e).

Lemma existsb_address ns pt (l : list StaticEndpointAddress) :
  existsb (λ a, bool_decide (sa_namespace a = ns) && bool_decide (sa_port a = pt)) l = true
  ↔ mkAddress ns pt ∈ l.
Proof.
  rewrite existsb_exists_elem. setoid_rewrite andb_true_iff. setoid_rewrite bool_decide_eq_true.
  split; [intros ([? ?]&Hin&<-&<-); done|]. intros Hin. by exists (mkAddress ns pt).
Qed.

Lemma existsb_endpoint ns pt (l : list EndpointRef) :
  existsb (λ a, bool_decide (ep_namespace a = ns) && bool_decide (ep_port a = pt)) l = true
  ↔ mkEndpointRef ns pt ∈ l.
Proof.
  rewrite existsb_exists_elem. setoid_rewrite andb_true_iff. setoid_rewrite bool_decide_eq_true.
  split; [intros ([? ?]&Hin&<-&<-); done|]. intros Hin. by exists (mkEndpointRef ns pt).
Qed.

Lemma check_local_ok s h e t :
  check_local s h e t = Ok tt → from_peer h e t ∨ to_peer s e t → agrees e t.
Proof.
  unfold check_local. set (fp := existsb _ _ && _). set (tp := existsb _ _ && _).
  intros Hc Hlink. assert (Hl : fp || tp = true).
  { apply orb_true_iff. destruct Hlink as [[Ha Hf]|[Ha Hf]]; [left|right]; apply andb_true_iff;
      (split; [|done]); [by apply existsb_address|by apply existsb_endpoint]. }
  rewrite Hl in Hc. cbn [andb] in Hc. destruct (_ || _) eqn:E; [done|].
  rewrite !orb_false_iff, !negb_false_iff, !bool_decide_eq_true, Z.eqb_eq, eqb_true_iff in E.
  destruct E as (((K1&K2)&K3)&K4). by constructor.
Qed.

Definition remote_of (e : HelloEntry) : RemoteType :=
  mkRemoteType (he_hash e) (he_flags e) (he_schema e) false.

(** Every entry of an accepted table passed the checks against every local row, and
    the remote table holds exactly the entries. *)
Lemma check_remote_ok s h es : ∀ pre remote,
  check_remote s h (length pre) es (pre ++ replicate (TABLE - length pre) None) = Ok remote →
  (∀ e, e ∈ es → (∀ t, t ∈ flatten (l_local s) → check_local s h e t = Ok tt) ∧
                 address_collision s h e = false) ∧
  flatten remote = flatten pre ++ (remote_of <$> es).
Proof.
  induction es as [|e es IH]; intros pre remote; cbn [check_remote].
  - intros [= <-]. split; [intros e He; by apply elem_of_nil in He|].
    rewrite flatten_app, flatten_replicate_None. done.
  - destruct (TABLE <=? length pre) eqn:En; breflect_in En; [done|].
    destruct (check_locals s h e _) as [[]|] eqn:El; [|done].
    destruct (address_collision s h e) eqn:Ec; [done|].
    replace (TABLE - length pre) with (S (TABLE - length (pre ++ [Some (remote_of e)])))
      by (rewrite length_app; cbn; lia).
    cbn [replicate]. rewrite <- (Nat.add_0_r (length pre)) at 2. rewrite insert_app_r.
    cbn [insert list_insert].
    replace (pre ++ Some _ :: replicate _ None)
      with ((pre ++ [Some (remote_of e)]) ++ replicate (TABLE - length (pre ++ [Some (remote_of e)])) None)
      by (by rewrite <- app_assoc).
    replace (S (length pre)) with (length (pre ++ [Some (remote_of e)])) by (rewrite length_app; cbn; lia).
    intros Hr. apply IH in Hr as [Hes Hfl]. split.
    + intros u Hu. apply elem_of_cons in Hu as [->|Hu]; [|by apply Hes]. split; [|done].
      clear -El. induction (flatten (l_local s)) as [|t l IHl]; intros u Hu; [by apply elem_of_nil in Hu|].
      cbn [check_locals] in El. destruct (check_local s h e t) as [[]|] eqn:Et; [|done].
      apply elem_of_cons in Hu as [->|Hu]; [done|]. by apply IHl.
    + rewrite Hfl, flatten_app. cbn. by rewrite <- app_assoc.
Qed.

Lemma address_collision_ok s h e :
  address_collision s h e = false →
  ∀ a t b, a ∈ peer_addresses h e → t ∈ flatten (l_local s) → b ∈ local_addresses s t →
    ep_hash a = ep_hash b → a = b.
Proof.
  unfold address_collision. rewrite existsb_false_elem. intros Hc a t b Ha Ht Hb He.
  specialize (Hc a Ha). rewrite existsb_false_elem in Hc. specialize (Hc t Ht).
  rewrite existsb_false_elem in Hc. specialize (Hc b Hb).
  apply andb_false_iff in Hc as [Hc|Hc].
  - apply negb_false_iff, bool_decide_eq_true in Hc. done.
  - apply Z.eqb_neq in Hc. congruence.
Qed.

(** What being connected means: the peer's table is a valid Hello, every endpoint
    the two tables share has the same contract on both sides, no hash stands for
    two addresses, and the remote table is the peer's table. *)
Record agreement (s : Link) (h : Hello) : Prop := {
  am_hello : hello s = Some h;
  am_peer : peer_id s = Some (hl_id h);
  am_bridge : l_peer_bridge s = hl_bridge h;
  am_types : peer_types s = remote_of <$> hello_entries h;
  am_linked : ∀ e t, e ∈ hello_entries h → t ∈ flatten (l_local s) →
                from_peer h e t ∨ to_peer s e t → agrees e t;
  am_hashes : ∀ e t a b, e ∈ hello_entries h → t ∈ flatten (l_local s) →
                a ∈ peer_addresses h e → b ∈ local_addresses s t → ep_hash a = ep_hash b → a = b;
}.

Lemma connected_agreement s :
  link_ok s → l_connected s = true → ∃ h, agreement s h.
Proof.
  intros Hs Hc. destruct (po_connected s (ok_peer s Hs) Hc) as (_&h&p&[C1 C2 C3 C4 C5]).
  exists h. pose proof (check_remote_ok s h (hello_entries h) [] (l_remote s)) as Hok.
  cbn [length app] in Hok. rewrite Nat.sub_0_r in Hok.
  destruct Hok as [Hes Hfl]; [done|].
  constructor; try done.
  - unfold peer_id. rewrite C3. cbn. f_equal. apply as_str_new; [done|].
    unfold hello in C1. destruct (hello_parse _) as [h'|] eqn:Eh; [|done]. injection C1 as ->.
    apply hello_parse_iff in Eh as (ack&br&i&ts&_&([Hi _]&_)&_&->); [done|].
    destruct (ok_bufs s Hs). auto with reiny.
  - intros e t He Ht. destruct (Hes e He) as [Hl _]. by apply check_local_ok, Hl.
  - intros e t a b He Ht Ha Hb. destruct (Hes e He) as [_ Hl].
    by apply (address_collision_ok s h e Hl a t b).
Qed.

(** ** The send queue as a queue of frames *)

(** The send buffer holds the frames [fs], in order and nothing else. *)
Definition queued (s : Link) (fs : list (Header * list Z)) : Prop :=
  ∃ bs, Forall2 (λ f b, frame_bytes f.1 f.2 b) fs bs ∧ tx_queue s = concat bs.

Lemma queued_snoc s s' fs h p :
  queued s fs → appends s s' h p → queued s' (fs ++ [(h, p)]).
Proof.
  intros (bs&Hbs&Hq) (b&Hb&Hq'). exists (bs ++ [b]). split.
  - apply Forall2_app; [done|]. by constructor.
  - rewrite Hq', Hq, concat_app. cbn. by rewrite app_nil_r.
Qed.

Lemma queued_same s s' fs : queued s fs → tx_queue s' = tx_queue s → queued s' fs.
Proof. intros (bs&Hbs&Hq) Hq'. exists bs. split; [done|congruence]. Qed.

Lemma queued_first s fs :
  queued s fs →
  match fs with
  | [] => first_frame (tx_queue s) = None
  | f :: fs' =>
      ∃ b rest, frame_bytes f.1 f.2 b ∧ first_frame (tx_queue s) = Some (length b) ∧
                tx_queue s = b ++ rest ∧ ∃ bs, Forall2 (λ f b, frame_bytes f.1 f.2 b) fs' bs ∧ rest = concat bs
  end.
Proof.
  intros (bs&Hbs&Hq). destruct Hbs as [|f b fs bs Hf Hbs]; rewrite Hq; [done|].
  exists b, (concat bs). cbn [concat]. split_and!; [done|by eapply first_frame_app|done|].
  by exists bs.
Qed.

(** ** Delivery *)

(** A link that waits with an empty receive buffer *)
Definition idle_rx (s : Link) : Prop :=
  l_started s = true ∧ l_rx_len s = 0 ∧ l_rx_consumed s = 0 ∧ l_rx_skip s = false.

(** What the frame's header and payload have to fit for the receiver *)
Record fits_peer (h : Header) (p : list Z) (b : list Z) (s : Link) : Prop := {
  fp_header : header_ok h;
  fp_frame : OVERHEAD + length p ≤ FRAME;
  fp_len : (Z.of_nat (length p) ≤ u16_max)%Z;
  fp_buffer : length b ≤ length (l_rx s);
}.

Lemma frame_bytes_ok h p b : frame_bytes h p b → bytes_ok b.
Proof.
  intros (enc&(_&_&Hb&_)&->). apply bytes_ok_app; [done|].
  apply bytes_ok_cons; [by split|apply bytes_ok_nil].
Qed.

(** One whole frame, fed to an idle link *)
Lemma feed_frame h p b s :
  link_ok s → idle_rx s → frame_bytes h p b → fits_peer h p b s →
  wp (feed b) (λ n s', n = length b ∧ rx_changed s s' ∧ l_rx_consumed s' = 0 ∧
                       rx_queue s' = b ∧ l_rx_len s' = length b) s.
Proof.
  intros Hs (Hst&Hlen&Hcs&Hsk) Hfb [_ _ _ Hbuf].
  eapply wp_mono; [apply feed_spec; [apply Hs|by apply link_ok_rows|by eapply frame_bytes_ok]|].
  intros n s' (s1&_&Hs1&Hr&Hc&Hcase). rewrite (Hs1 Hst) in *.
  assert (Hq0 : rx_queue s = []) by (unfold rx_queue; by rewrite Hlen).
  rewrite Hq0, Hcs, Hsk in Hcase. cbn [skipn] in Hcase.
  rewrite rx_bytes_hold in Hcase by (cbn; lia). destruct Hcase as [-> Habs].
  unfold rx_abs in Habs. cbn [app] in Habs. injection Habs as Hq _ _.
  split_and!; try done. rewrite <- (length_rx_queue s') by apply Hr. by rewrite Hq.
Qed.

(** The first turn of [next] on a buffer that starts with a frame dispatches it. *)
Lemma next_frame fuel h p b rest s Q :
  link_ok s → l_rx_consumed s = 0 → rx_queue s = b ++ rest →
  frame_bytes h p b → fits_peer h p b s →
  (∀ s1, decoded_in (length b - 1) s s1 →
     let s2 := arrived (length b) s1 in
     let f := mkFrame (h_kind h) (h_hash h) (h_seq h) (Z.of_nat (length p)) (l_rx_generation s2) in
     payload s2 f = Some p → passed s s2 → frame_ok s2 f →
     wp (dispatch f) (λ ev s3, match ev with
                               | Some _ => Q ev s3
                               | None => wp (rx_compact ;;; next_loop fuel) Q s3
                               end) s2) →
  wp (next_loop (S fuel)) Q s.
Proof.
  intros Hs Hcs Hq (enc&Hblk&->) [Hh Hfr Hlen Hbuf] Hk.
  pose proof (ok_bufs s Hs) as Hb. pose proof (bo_rx s Hb) as Hrx.
  pose proof (length_rx_queue s Hb) as Hql. rewrite Hq, !length_app in Hql. cbn [length] in Hql.
  assert (Hne : length enc ≠ 0) by (destruct Hblk as [Hne _]; by destruct enc).
  cbn [next_loop]. wp_steps. rewrite slice_eq by lia. wp_steps. rewrite drop_0, Nat.sub_0_r.
  fold (rx_queue s).
  assert (Hpos : position is_delimiter (rx_queue s) = Some (length enc)).
  { rewrite Hq. apply position_Some. exists enc, DELIMITER, rest. rewrite <- app_assoc.
    split_and!; try done. destruct Hblk as (_&Hnz&_). eapply Forall_impl; [exact Hnz|].
    intros x Hx. by apply Z.eqb_neq. }
  rewrite Hpos. destruct (length enc =? 0) eqn:E0; breflect_in E0; [lia|].
  wp_steps. eapply wp_mono; [apply decode_frame_spec; [done|lia]|].
  intros r s1 (Hdi&Hf&Hdec).
  assert (Htk : take (length enc) (l_rx s) = enc).
  { transitivity (take (length enc) (rx_queue s)).
    - unfold rx_queue. rewrite take_take. f_equal. lia.
    - rewrite Hq, <- app_assoc. by rewrite take_app_length. }
  rewrite Htk in Hdec. destruct (Hdec h p Hblk Hh Hfr Hlen) as [-> Hpay]. clear Hdec.
  destruct Hf as [Hf _]. pose proof Hdi as [D1 D2 D3 D4 D5 D6 D7]. wp_steps.
  replace (wrapping_add 16 (l_rx_generation s) 1) with (wrapping_add 16 (l_rx_generation s1) 1)
    by (by rewrite D4).
  replace (l_now_ms s) with (l_now_ms s1) by (by rewrite (se_now _ _ (rc_env _ _ D1))).
  replace (length enc + 1) with (length (enc ++ [DELIMITER])) by (by rewrite length_app).
  fold (arrived (length (enc ++ [DELIMITER])) s1).
  pose proof (passed_rx _ _ Hs D1) as Hp1.
  assert (Hp2 : passed s1 (arrived (length (enc ++ [DELIMITER])) s1)).
  { apply arrived_passed; [apply Hp1|]. rewrite length_app. cbn. lia. }
  eapply wp_mono; [apply (Hk s1)|by intros [ev|] s3].
  - rewrite length_app, Nat.add_sub. done.
  - unfold payload, is_fresh. cbn [f_generation arrived]. rewrite Z.eqb_refl. cbn [negb f_len].
    destruct Hf as [_ Hrange _ _]. cbn [f_len] in Hrange. rewrite Nat2Z.id in *.
    rewrite slice_eq; [|lia|done]. replace (HEADER + length p - HEADER) with (length p) by lia.
    f_equal. exact Hpay.
  - by eapply passed_trans.
  - destruct Hf. by constructor.
Qed.

(** Whether data is allowed through depends on the tables only. *)
Lemma data_allowed_core s s' hash : same_core s s' → data_allowed s hash → data_allowed s' hash.
Proof.
  intros [C1 C2 C3 C4 C5 C6 C7 C8 C9 C10 C11].
  unfold data_allowed, remote_type, local_source. by rewrite C3, C5, C7, C10, C11.
Qed.

(** A data frame that is fed to an idle link which allows it is the next event,
    with the payload that was sent. *)
Lemma data_delivered h p b s :
  link_ok s → idle_rx s → frame_bytes h p b → fits_peer h p b s →
  h_kind h = KData → data_allowed s (h_hash h) →
  ∃ s1 f s2, feed b s = Some (length b, s1) ∧ next s1 = Some (Some (Data f), s2) ∧
    f_hash f = h_hash h ∧ f_seq f = h_seq h ∧ payload s2 f = Some p ∧ link_ok s2.
Proof.
  intros Hs Hidle Hfb Hfit Hk Hal.
  pose proof (feed_frame h p b s Hs Hidle Hfb Hfit) as Hfeed. apply wp_exists in Hfeed.
  destruct Hfeed as (n&s1&Ef&->&Hr1&Hc1&Hq1&Hl1).
  pose proof (link_ok_rx _ _ Hr1 Hs) as Hs1.
  assert (Hst1 : l_started s1 = true) by (rewrite (se_started _ _ (rc_env _ _ Hr1)); apply Hidle).
  assert (Hnext : wp next (λ ev s2, ∃ f, ev = Some (Data f) ∧ f_hash f = h_hash h ∧ f_seq f = h_seq h ∧
                                         payload s2 f = Some p ∧ link_ok s2) s1).
  { unfold next. rewrite wp_bind.
    eapply wp_mono; [apply ensure_started_spec; [apply Hs1|by apply link_ok_rows]|].
    intros [] s1' (_&Heq&_). rewrite (Heq Hst1) in *. clear s1' Heq.
    unfold rx_compact. wp_steps. rewrite Hc1. cbn [Nat.ltb Nat.leb]. wp_steps.
    eapply (next_frame (l_rx_len s1) h p b []); [done|done|by rewrite app_nil_r|done| |].
    { destruct Hfit. constructor; try done. by rewrite (rc_length _ _ Hr1). }
    intros s2 Hdi s3 f Hpay Hps Hfo. unfold dispatch. cbn [f_kind f]. rewrite Hk. wp_steps.
    assert (Hal3 : data_allowed s3 (h_hash h)).
    { apply (data_allowed_core s1); [|by apply (data_allowed_core s); [apply Hr1|]].
      etrans; [apply (rc_core _ _ (di_changed _ _ _ Hdi))|]. by constructor. }
    destruct Hal3 as (A1&A2&A3). cbn [f_hash f].
    assert (Hw : (if l_bridge s3
      then match remote_type s3 (h_hash h) with Some t => publishes_here t | None => false end
      else negb (is_none (local_source s3 (h_hash h) flags.SUB))) = true).
    { destruct (l_bridge s3); [by destruct A2 as (t&->&->)|by destruct A2 as [t ->]]. }
    rewrite Hw, A1. cbn [negb orb].
    assert (Hpb : negb (l_peer_bridge s3) && match remote_type s3 (h_hash h) with
      | None => true | Some t => rt_mismatch t || negb (publishes_here t) end = false).
    { destruct A3 as [->|(t&->&->&->)]; [done|]. by rewrite andb_false_r. }
    rewrite Hpb. wp_steps. exists f. split_and!; try done. apply Hps. }
  apply wp_exists in Hnext. destruct Hnext as (ev&s2&En&f&->&Hx). by exists s1, f, s2.
Qed.
End contract.
