(* ===== verification/LinkProps.v ===== *)
(** * LinkProps: what a link promises

    The properties of [Link] for every CRC and COBS that satisfy their laws, with
    witnesses on a small pair of links over the codecs of [Codec]: [rover/arm]
    publishes [pose] and calls the service [plan] of [base]; [base] subscribes to
    [pose] and serves [plan].  The links are built by scripts of calls, evaluated
    by [vm_compute]. *)

From Stdlib Require Import ZArith Lia.
From S2P Require Import Prelude Text Codec Core Wire Hello HelloSpec HelloParse HelloWrite LinkState Link LinkInv LinkIo LinkSend LinkRecv LinkDeclare LinkRun LinkContract.

#[export] Instance demo_params : LinkParams := {| TABLE := 3; FRAME := 160 |}.

Definition Pose : MessageType := mkMessageType (bytes_of "geo.Pose") 7.
Definition Plan : Service :=
  mkService (mkMessageType (bytes_of "geo.Plan") 11) (mkMessageType (bytes_of "geo.Route") 13).

Definition arm_id : str := bytes_of "rover/arm".
Definition base_id : str := bytes_of "base".

Definition plan_response : option PortType := Some (mkPortType (bytes_of "geo.Route") 13).

Definition arm_ports : list StaticPort := [
  mkStaticPort (bytes_of "pose") DOutput (bytes_of "geo.Pose") 7 None [];
  mkStaticPort (bytes_of "plan") DRpcClient (bytes_of "geo.Plan") 11 plan_response
    [mkAddress base_id (bytes_of "plan")]].
Definition base_ports : list StaticPort := [
  mkStaticPort (bytes_of "pose_in") DInput (bytes_of "geo.Pose") 7 None
    [mkAddress arm_id (bytes_of "pose")];
  mkStaticPort (bytes_of "plan") DRpcServer (bytes_of "geo.Plan") 11 plan_response []].

(** A message whose encoding is [b] *)
Definition plain (b : list Z) : Message :=
  mkMessage (length b) (λ cap, if length b <=? cap then Some b else None).

Lemma plain_bytes b : bytes_ok b → message_bytes (plain b) b.
Proof. intros Hb. split_and!; try done. cbn. by rewrite Nat.leb_refl. Qed.

Definition zeros (n : nat) : list Z := replicate n 0%Z.

Lemma zeros_ok n : bytes_ok (zeros n).
Proof. apply Forall_replicate. by split. Qed.

Definition script (i : str) (ports : list StaticPort) (ops : list Op) : option Link :=
  match new i ports (zeros 400) (zeros 400) with Ok s => run_ops ops s | Err _ => None end.

(** Everything queued by a link *)
Definition queue_of (o : option Link) : list Z :=
  match o with Some s => tx_queue s | None => [] end.

Definition arm_decl : list Op :=
  [OpPublishes Pose (bytes_of "pose"); OpRpcClient Plan (bytes_of "plan"); OpTick 5].
Definition base_decl : list Op :=
  [OpSubscribes Pose (bytes_of "pose_in"); OpRpcServer Plan (bytes_of "plan"); OpTick 5].

Definition arm_hello : list Z := Eval vm_compute in queue_of (script arm_id arm_ports arm_decl).
Definition base_hello : list Z := Eval vm_compute in queue_of (script base_id base_ports base_decl).

(** After the exchange of the Hellos, with all buffers empty *)
Definition arm_ops : list Op :=
  arm_decl ++ [OpDrain (zeros 400); OpFeed base_hello; OpNext; OpNext; OpDrain (zeros 400)].
Definition base_ops : list Op :=
  base_decl ++ [OpDrain (zeros 400); OpFeed arm_hello; OpNext; OpNext; OpDrain (zeros 400)].

Definition dummy : Link :=
  mkLink (mkIdBuf [] 0) None [] [] [] [] [] 0 [] [] 0 [] 0 0 false 0 [] LinkConfig_default
    false false false false 0 0 0 0 0 Stats_default.
Definition or_dummy (o : option Link) : Link := match o with Some s => s | None => dummy end.

Definition arm : Link := Eval vm_compute in or_dummy (script arm_id arm_ports arm_ops).
Definition base : Link := Eval vm_compute in or_dummy (script base_id base_ports base_ops).

Lemma bytes_ok_check l : forallb (λ b, (0 <=? b) && (b <? 256))%Z l = true → bytes_ok l.
Proof.
  rewrite forallb_Forall. intros Hl. eapply Forall_impl; [exact Hl|].
  intros b Hb. cbn beta in Hb. breflect_in Hb. unfold is_u. lia.
Qed.

Lemma arm_ports_typed : Forall port_typed arm_ports.
Proof. repeat apply Forall_cons_2; [..|apply Forall_nil_2]; (constructor; vm_compute; repeat constructor; congruence). Qed.

Lemma base_ports_typed : Forall port_typed base_ports.
Proof. repeat apply Forall_cons_2; [..|apply Forall_nil_2]; (constructor; vm_compute; repeat constructor; congruence). Qed.

(** A script leads to a reachable link. *)
Lemma script_reachable i ports ops s :
  Forall op_typed ops → script i ports ops = Some s →
  reachable i ports (zeros 400) (zeros 400) s.
Proof.
  unfold script. intros Ho. destruct (new _ _ _ _) as [s0|] eqn:E; [|done].
  intros Hr. eapply run_ops_reachable; [exact Ho|by apply reach_new|exact Hr].
Qed.

Lemma arm_ops_typed : Forall op_typed arm_ops.
Proof.
  unfold arm_ops, arm_decl. cbn [app]. rewrite !Forall_cons, Forall_nil.
  split_and!; try exact I. apply bytes_ok_check. vm_compute. reflexivity.
Qed.

Lemma base_ops_typed : Forall op_typed base_ops.
Proof.
  unfold base_ops, base_decl. cbn [app]. rewrite !Forall_cons, Forall_nil.
  split_and!; try exact I. apply bytes_ok_check. vm_compute. reflexivity.
Qed.

Lemma arm_reachable : reachable arm_id arm_ports (zeros 400) (zeros 400) arm.
Proof. apply (script_reachable _ _ _ _ arm_ops_typed). vm_compute. reflexivity. Qed.

Lemma base_reachable : reachable base_id base_ports (zeros 400) (zeros 400) base.
Proof. apply (script_reachable _ _ _ _ base_ops_typed). vm_compute. reflexivity. Qed.

Lemma arm_ok : link_ok arm.
Proof.
  refine (reachable_ok arm_id arm_ports (zeros 400) (zeros 400) arm _ _ _ _ arm_reachable);
    [reflexivity|apply arm_ports_typed|apply zeros_ok|apply zeros_ok].
Qed.

Lemma base_ok : link_ok base.
Proof.
  refine (reachable_ok base_id base_ports (zeros 400) (zeros 400) base _ _ _ _ base_reachable);
    [reflexivity|apply base_ports_typed|apply zeros_ok|apply zeros_ok].
Qed.

(** A data frame of [arm], and [base] with it in its receive buffer *)
Definition pose_frame : list Z :=
  Eval vm_compute in
  queue_of (script arm_id arm_ports (arm_ops ++ [OpSend Pose (bytes_of "pose") (plain [1; 0; 2]%Z)])).
Definition base_fed : Link :=
  Eval vm_compute in or_dummy (script base_id base_ports (base_ops ++ [OpFeed pose_frame])).

Lemma base_fed_ok : link_ok base_fed.
Proof.
  refine (reachable_ok base_id base_ports (zeros 400) (zeros 400) base_fed _ _ _ _ _);
    [reflexivity|apply base_ports_typed|apply zeros_ok|apply zeros_ok|].
  refine (script_reachable _ _ (base_ops ++ [OpFeed pose_frame]) _ _ _); [|vm_compute; reflexivity].
  apply Forall_app. split; [apply base_ops_typed|]. apply Forall_singleton.
  apply bytes_ok_check. reflexivity.
Qed.

Section properties.
Context {P : LinkParams} `{CrcOps} `{!CrcLaws} `{CobsOps} `{!CobsLaws}.

(** C1: No sequence of calls makes a link panic or loop: from every link that
    [Link::new] and any calls with well-typed arguments lead to, every further
    call returns, and the invariant holds: buffers within their bounds, tables
    that form a valid Hello, a peer contract in force exactly while connected,
    and no correlation id outstanding twice. *)
Theorem link_calls_return i ports tx rx s o :
  str_ok i → Forall port_typed ports → bytes_ok tx → bytes_ok rx →
  reachable i ports tx rx s → op_typed o →
  link_ok s ∧ ∃ s', run_op o s = Some (tt, s') ∧ link_ok s'.
Proof.
  intros Hi Hp Htx Hrx Hreach Ho. pose proof (reachable_ok i ports tx rx s Hi Hp Htx Hrx Hreach) as Hs.
  split; [done|]. destruct (proj1 (wp_exists _ _ _) (run_op_ok o s Hs Ho)) as ([]&s'&E&Hok).
  by exists s'.
Qed.

(** C12: End to end: what [send] accepts on one link is what the other link reports.
    If [send] returns [Ok true] on a link with an empty send queue, the datagram
    taken by [drain_frame], fed to an idle peer that subscribes to the output, is
    the peer's next event, with the sender's sequence number and exactly the
    encoded message as payload. *)
Theorem send_is_received a b T name m msg out a1 n out' a2 :
  link_ok a → link_ok b → l_started a = true → idle_rx b → tx_queue a = [] →
  message_bytes m msg → (Z.of_nat (length msg) ≤ u16_max)%Z → n ≤ length (l_rx b) →
  send T name m a = Some (Ok true, a1) →
  drain_frame out a1 = Some ((Some n, out'), a2) →
  data_allowed b (endpoint_hash (id a) name) →
  ∃ b1 f b2, feed (take n out') b = Some (n, b1) ∧ next b1 = Some (Some (Data f), b2) ∧
    f_hash f = endpoint_hash (id a) name ∧ f_seq f = l_data_seq a ∧ payload b2 f = Some msg.
Proof.
  intros Ha Hb Hst Hidle Hq Hm Hu Hn Hsend Hdrain Hal.
  destruct (wp_run _ _ _ _ _ (send_spec T name m msg a Ha Hm) Hsend) as (Ha1&Hsent&_&Hd).
  destruct Hd as (_&Hfit&bs&Hfb&Hq1). rewrite Hq, app_nil_l in Hq1.
  assert (Hst1 : l_started a1 = true) by (by rewrite (se_started _ _ (sn_env _ _ Hsent))).
  pose proof (wp_run _ _ _ _ _ (drain_frame_spec out a1 (ok_bufs _ Ha1) (link_ok_rows _ Ha1)) Hdrain) as Hdr.
  cbn beta iota in Hdr. destruct Hdr as (_&q&Hqq&Hcase). rewrite (Hqq Hst1), Hq1 in Hcase.
  pose proof (first_frame_app _ _ _ [] Hfb) as Hff. rewrite app_nil_r in Hff. rewrite Hff in Hcase.
  destruct Hcase as [_ Hcase]. destruct (length bs <=? length out); destruct Hcase as [Hn' Hout]; [|done].
  injection Hn' as ->. rewrite firstn_all in Hout.
  assert (Htk : take (length bs) out' = bs) by (rewrite Hout; apply take_app_length). rewrite Htk.
  destruct (data_delivered (mkHeader KData (endpoint_hash (id a) name) (l_data_seq a)) msg bs b)
    as (b1&f&b2&E1&E2&E3&E4&E5&_); try done.
  - constructor; try done. split; [apply endpoint_hash_u32|apply Ha].
  - by exists b1, f, b2.
Qed.

(** The send buffer is a queue of frames: emitting appends one frame, or
    nothing when it returns an error, and [drain_frame] takes the oldest frame,
    whole (or drops it, when the caller's buffer is shorter); the frames behind it
    stay in order. *)
Theorem send_queue_fifo s fs :
  link_ok s → queued s fs →
  (∀ k hash seq n, is_u32 hash → is_u8 seq →
     ∃ r s', emit k hash seq n s = Some (r, s') ∧
       queued s' (if is_ok r then fs ++ [(mkHeader k hash seq, scratch_payload s n)] else fs)) ∧
  (l_started s = true → ∀ out, ∃ n out' s', drain_frame out s = Some ((n, out'), s') ∧
     match fs with
     | [] => n = None ∧ out' = out ∧ queued s' []
     | f :: fs' =>
         queued s' fs' ∧
         match n with
         | Some e => frame_bytes f.1 f.2 (take e out') ∧ drop e out' = drop e out
         | None => ∃ b, frame_bytes f.1 f.2 b ∧ length out < length b
         end
     end).
Proof.
  intros Hs Hq. split.
  - intros k hash seq n Hh Hsq.
    destruct (proj1 (wp_exists _ _ _) (emit_spec k hash seq n s (ok_bufs s Hs) Hh Hsq))
      as (r&s'&E&_&Hc). exists r, s'. split; [done|]. destruct r as [[]|e]; cbn [is_ok].
    + destruct Hc as (_&enc&Hblk&Hq'&_). eapply queued_snoc; [done|].
      exists (enc ++ [DELIMITER]). split; [by exists enc|done].
    + destruct Hc as [Hq' _]. by eapply queued_same.
  - intros Hst out.
    destruct (proj1 (wp_exists _ _ _) (drain_frame_spec out s (ok_bufs s Hs) (link_ok_rows s Hs)))
      as ([n out']&s'&E&_&q&Hqq&Hc). rewrite (Hqq Hst) in Hc.
    exists n, out', s'. split; [done|]. pose proof (queued_first s fs Hq) as Hf.
    destruct fs as [|f fs].
    + rewrite Hf in Hc. destruct Hc as (->&->&Hq'). split_and!; try done. by eapply queued_same.
    + destruct Hf as (b&rest&Hfb&Hff&Hqb&bs&Hbs&->). rewrite Hff in Hc.
      destruct Hc as [Hq' Hc]. rewrite Hqb, drop_app_length in Hq'. split; [by exists bs|].
      destruct (length b <=? length out) eqn:El; breflect_in El; destruct Hc as [-> ->].
      * rewrite Hqb, take_app_length, take_app_length. split; [done|].
        by rewrite drop_app_length.
      * by exists b.
Qed.

(** [feed] implements the byte-at-a-time receiver [rx_bytes]: it accepts the
    bytes the receiver accepts and ends with the same held bytes, skipping flag
    and overflow count.  In particular a full buffer that holds a complete frame
    refuses further bytes, and one that holds an overlong frame is discarded up to
    the next delimiter. *)
Theorem feed_refines bytes s :
  link_ok s → l_started s = true → bytes_ok bytes →
  ∃ n s', feed bytes s = Some (n, s') ∧ link_ok s' ∧
    (n, rx_abs s') = rx_bytes (length (l_rx s))
      (mkRx (drop (l_rx_consumed s) (rx_queue s)) (l_rx_skip s) (rx_overflow (l_stats s))) bytes.
Proof.
  intros Hs Hst Hb.
  destruct (proj1 (wp_exists _ _ _) (feed_spec bytes s (ok_bufs s Hs) (link_ok_rows s Hs) Hb))
    as (n&s'&E&s1&_&Hs1&Hr&_&Hc). rewrite (Hs1 Hst) in *. exists n, s'.
  split_and!; [done|by eapply link_ok_rx|].
  destruct (rx_bytes _ _ bytes) as [m a]. destruct Hc as [-> ->]. done.
Qed.

(** How the input is split does not matter: feeding two chunks leaves the
    receiver as feeding them at once does, provided the first chunk was accepted;
    if it was not, feeding them at once stops at the same byte. *)
Theorem feed_chunks b1 b2 s :
  link_ok s → l_started s = true → bytes_ok b1 → bytes_ok b2 →
  ∃ n s' n1 s1, feed (b1 ++ b2) s = Some (n, s') ∧ feed b1 s = Some (n1, s1) ∧
    if n1 =? length b1
    then ∃ n2 s2, feed b2 s1 = Some (n2, s2) ∧ n = n1 + n2 ∧ rx_abs s' = rx_abs s2
    else n = n1 ∧ rx_abs s' = rx_abs s1.
Proof.
  intros Hs Hst Hb1 Hb2.
  destruct (proj1 (wp_exists _ _ _) (feed_spec (b1 ++ b2) s (ok_bufs s Hs) (link_ok_rows s Hs)
    (bytes_ok_app _ _ Hb1 Hb2))) as (n&s'&E&s0&_&Hs0&Hr&_&Hc). rewrite (Hs0 Hst) in *. clear s0 Hs0.
  destruct (proj1 (wp_exists _ _ _) (feed_spec b1 s (ok_bufs s Hs) (link_ok_rows s Hs) Hb1))
    as (n1&s1&E1&s0&_&Hs0&Hr1&Hcs1&Hc1). rewrite (Hs0 Hst) in *. clear s0 Hs0.
  exists n, s', n1, s1. split; [done|]. split; [done|].
  rewrite rx_bytes_app in Hc. destruct (rx_bytes _ _ b1) as [m1 a1] eqn:Eb1.
  destruct Hc1 as [-> Ha1].
  assert (Hle : m1 ≤ length b1).
  { pose proof (rx_bytes_le (length (l_rx s)) b1 (mkRx (drop (l_rx_consumed s) (rx_queue s))
      (l_rx_skip s) (rx_overflow (l_stats s)))) as Hle. by rewrite Eb1 in Hle. }
  destruct (m1 <? length b1) eqn:El; breflect_in El.
  - rewrite (proj2 (Nat.eqb_neq _ _)) by lia. destruct Hc as [-> ->]. done.
  - rewrite (proj2 (Nat.eqb_eq _ _)) by lia.
    pose proof (link_ok_rx _ _ Hr1 Hs) as Hs1.
    assert (Hst1 : l_started s1 = true) by (by rewrite (se_started _ _ (rc_env _ _ Hr1))).
    destruct (proj1 (wp_exists _ _ _) (feed_spec b2 s1 (ok_bufs s1 Hs1) (link_ok_rows s1 Hs1) Hb2))
      as (n2&s2&E2&s0&_&Hs0&Hr2&_&Hc2). rewrite (Hs0 Hst1) in *. clear s0 Hs0.
    exists n2, s2. split; [done|].
    rewrite (rc_length _ _ Hr1), Hcs1, drop_0 in Hc2.
    change (mkRx (rx_queue s1) (l_rx_skip s1) (rx_overflow (l_stats s1))) with (rx_abs s1) in Hc2.
    rewrite Ha1 in Hc2. destruct (rx_bytes _ a1 b2) as [m2 a2].
    destruct Hc2 as [-> ->], Hc as [-> ->]. done.
Qed.


(** C17: A connected link has an agreement with its peer: the stored Hello is valid,
    the table of remote types is the peer's table, every endpoint that the two
    tables share carries the same type, fingerprint and response contract on both
    sides, and no endpoint hash stands for two addresses. *)
Theorem connected_means_agreement i ports tx rx s :
  str_ok i → Forall port_typed ports → bytes_ok tx → bytes_ok rx →
  reachable i ports tx rx s → is_connected s = true → ∃ h, agreement s h.
Proof.
  intros Hi Hp Htx Hrx Hr Hc. apply connected_agreement; [|done].
  exact (reachable_ok i ports tx rx s Hi Hp Htx Hrx Hr).
Qed.

(** A request takes a correlation id that no outstanding request to the same
    server has, appends exactly one Request frame that carries it, and is
    outstanding from then on; a failed request leaves the queue and the
    outstanding requests alone. *)
Theorem request_takes_fresh_id Svc name m msg s r s' :
  link_ok s → message_bytes m msg → request Svc name m s = Some (r, s') →
  NoDup (flatten (l_pending s')) ∧
  match r with
  | Ok seq =>
      ∃ hash, request_hash s Svc name = Ok hash ∧ peer_serves_hash s hash = true ∧
        (hash, seq) ∉ flatten (l_pending s) ∧ (hash, seq) ∈ flatten (l_pending s') ∧
        appends s s' (mkHeader KRequest hash seq) msg
  | Err _ => tx_queue s' = tx_queue s ∧ l_pending s' = l_pending s
  end.
Proof.
  intros Hs Hm E. destruct (wp_run _ _ _ _ _ (request_spec Svc name m msg s Hs Hm) E) as (Hok&_&Hc).
  split; [apply (ok_peer _ Hok)|]. destruct (request_hash s Svc name) as [hash|e] eqn:Eh.
  - destruct r as [seq|e]; [|done]. destruct Hc as (Hsv&_&Hnew&(free&Hfree&Hpd)&Happ).
    exists hash. split_and!; try done. rewrite Hpd.
    destruct (insert_free _ _ (hash, seq) Hfree) as (l1&l2&_&->). apply elem_of_app. right. left.
  - destruct Hc as [-> ->]. done.
Qed.

(** Declarations are atomic: [publishes], [subscribes] and the RPC
    declarations either leave both tables as they were, with nothing queued, or
    leave a table that still is a valid Hello, in which the port is declared and
    every earlier port keeps its row. *)
Theorem declare_is_atomic T name d flag response s :
  link_ok s → flag ∈ flags_of d →
  ∃ res s', declare T name d flag response s = Some (res, s') ∧ link_ok s' ∧
    tx_queue s' = tx_queue s ∧ declare_effect s s' T name d response res.
Proof.
  intros Hs Hf.
  destruct (proj1 (wp_exists _ _ _) (declare_spec T name d flag response s Hs Hf))
    as (res&s'&E&Hok&Hq&_&_&Heff).
  by exists res, s'.
Qed.

(** [tick] reports [Disconnected] exactly when a started, connected link has
    received nothing for more than [timeout_ms], measured on the wrapping clock;
    then the peer, its tables and all outstanding requests are gone, and otherwise
    the connection and the outstanding requests are untouched. *)
Theorem tick_timeout now s :
  link_ok s →
  ∃ ev s', tick now s = Some (ev, s') ∧ link_ok s' ∧
    (ev = Some Disconnected ↔
       l_started s = true ∧ l_connected s = true ∧
       (timeout_ms (l_config s) < (now - l_last_rx_ms s) `mod` 2 ^ 32)%Z) ∧
    (ev = Some Disconnected → l_connected s' = false ∧ peer_types s' = [] ∧ peer_id s' = None ∧
                              flatten (l_pending s') = []) ∧
    (ev ≠ Some Disconnected → l_connected s' = l_connected s ∧ l_pending s' = l_pending s).
Proof.
  intros Hs. destruct (proj1 (wp_exists _ _ _) (tick_spec now s Hs)) as (ev&s'&E&Hok&Hc).
  exists ev, s'. split; [done|]. split; [done|].
  assert (Ht : timed_out now s = true ↔ l_started s = true ∧ l_connected s = true ∧
    (timeout_ms (l_config s) < (now - l_last_rx_ms s) `mod` 2 ^ 32)%Z).
  { unfold timed_out, wrapping_sub, wrap. rewrite !andb_true_iff, Z.ltb_lt. tauto. }
  rewrite <- Ht. clear Ht. destruct (timed_out now s).
  - destruct Hc as [-> ->]. split_and!; try done. intros _. unfold peer_types. cbn.
    by rewrite !flatten_replicate_None.
  - destruct Hc as (->&_&_&Hc&Hp). split_and!; done.
Qed.
End properties.

(** ** Witnesses *)

Lemma link_calls_return_witness :
  ∃ s', run_op (OpSend Pose (bytes_of "pose") (plain [1; 0; 2]%Z)) arm = Some (tt, s') ∧ link_ok s'.
Proof.
  refine (proj2 (link_calls_return arm_id arm_ports (zeros 400) (zeros 400) arm _ _ _ _ _ arm_reachable _)).
  - reflexivity.
  - exact arm_ports_typed.
  - apply zeros_ok.
  - apply zeros_ok.
  - exists [1; 0; 2]%Z. apply plain_bytes, bytes_ok_check. reflexivity.
Defined.

(** The link after a computation that returns *)
Definition after {A} (d : A) (o : option (A * Link)) : A * Link :=
  match o with Some r => r | None => (d, dummy) end.

Lemma send_is_received_witness :
  ∃ n out' b1 f b2, feed (take n out') base = Some (n, b1) ∧ next b1 = Some (Some (Data f), b2) ∧
    payload b2 f = Some [1; 0; 2]%Z.
Proof.
  destruct (send_is_received arm base Pose (bytes_of "pose") (plain [1; 0; 2]%Z) [1; 0; 2]%Z (zeros 100)
    (after (Err Full) (send Pose (bytes_of "pose") (plain [1; 0; 2]%Z) arm)).2 16
    (after (None, []) (drain_frame (zeros 100)
       (after (Err Full) (send Pose (bytes_of "pose") (plain [1; 0; 2]%Z) arm)).2)).1.2
    (after (None, []) (drain_frame (zeros 100)
       (after (Err Full) (send Pose (bytes_of "pose") (plain [1; 0; 2]%Z) arm)).2)).2)
    as (b1&f&b2&E1&E2&_&_&E3).
  - exact arm_ok.
  - exact base_ok.
  - reflexivity.
  - vm_compute. auto.
  - reflexivity.
  - apply plain_bytes, bytes_ok_check. reflexivity.
  - vm_compute. congruence.
  - vm_compute. lia.
  - vm_compute. reflexivity.
  - vm_compute. reflexivity.
  - split; [reflexivity|]. split; [eexists; vm_compute; reflexivity|].
    right. eexists. split; [vm_compute; reflexivity|]. split; reflexivity.
  - eexists 16, _, b1, f, b2. split; [exact E1|]. split; [exact E2|exact E3].
Defined.

Lemma send_queue_fifo_witness :
  ∃ n out' s', drain_frame (zeros 8) arm = Some ((n, out'), s') ∧ n = None ∧ out' = zeros 8 ∧ queued s' [].
Proof.
  refine (proj2 (send_queue_fifo arm [] arm_ok _) _ (zeros 8)).
  - exists []. split; [constructor|reflexivity].
  - reflexivity.
Defined.

Lemma feed_refines_witness :
  ∃ n s', feed [7; 0; 8]%Z base = Some (n, s') ∧ link_ok s' ∧
    (n, rx_abs s') = (3, mkRx [7; 0; 8]%Z false 0).
Proof.
  destruct (feed_refines [7; 0; 8]%Z base base_ok) as (n&s'&E&Hok&Hx).
  - reflexivity.
  - apply bytes_ok_check. reflexivity.
  - exists n, s'. split; [exact E|]. split; [exact Hok|]. rewrite Hx. vm_compute. reflexivity.
Defined.

Lemma feed_chunks_witness :
  ∃ n s' n1 s1, feed ([7; 9] ++ [0; 8])%Z base = Some (n, s') ∧ feed [7; 9]%Z base = Some (n1, s1) ∧
    if n1 =? 2
    then ∃ n2 s2, feed [0; 8]%Z s1 = Some (n2, s2) ∧ n = n1 + n2 ∧ rx_abs s' = rx_abs s2
    else n = n1 ∧ rx_abs s' = rx_abs s1.
Proof.
  apply (feed_chunks [7; 9]%Z [0; 8]%Z base base_ok).
  - reflexivity.
  - apply bytes_ok_check. reflexivity.
  - apply bytes_ok_check. reflexivity.
Defined.


Lemma connected_means_agreement_witness : ∃ h, agreement arm h.
Proof.
  apply (connected_means_agreement arm_id arm_ports (zeros 400) (zeros 400) arm).
  - reflexivity.
  - exact arm_ports_typed.
  - apply zeros_ok.
  - apply zeros_ok.
  - exact arm_reachable.
  - reflexivity.
Defined.

Lemma request_takes_fresh_id_witness :
  ∃ seq s', request Plan (bytes_of "plan") (plain [3]%Z) arm = Some (Ok seq, s') ∧
    NoDup (flatten (l_pending s')).
Proof.
  eexists 0%Z, _. split; [vm_compute; reflexivity|].
  refine (proj1 (request_takes_fresh_id Plan (bytes_of "plan") (plain [3]%Z) [3]%Z arm (Ok 0%Z) _ arm_ok _ _)).
  - apply plain_bytes, bytes_ok_check. reflexivity.
  - vm_compute. reflexivity.
Defined.

Lemma declare_is_atomic_witness :
  ∃ res s', declare Pose (bytes_of "pose") DOutput flags.PUB None arm = Some (res, s') ∧ link_ok s' ∧
    tx_queue s' = tx_queue arm ∧ declare_effect arm s' Pose (bytes_of "pose") DOutput None res.
Proof.
  apply (declare_is_atomic Pose (bytes_of "pose") DOutput flags.PUB None arm arm_ok). left.
Defined.

Lemma tick_timeout_witness :
  ∃ ev s', tick 5000 arm = Some (ev, s') ∧ ev = Some Disconnected ∧ l_connected s' = false.
Proof.
  destruct (tick_timeout 5000 arm arm_ok) as (ev&s'&E&_&Hiff&Hdis&_).
  assert (Hev : ev = Some Disconnected).
  { apply Hiff. split; [reflexivity|]. split; [reflexivity|]. vm_compute. reflexivity. }
  exists ev, s'. split; [exact E|]. split; [exact Hev|]. apply (Hdis Hev).
Defined.
