(* ===== verification/LinkEdges.v ===== *)
(** * LinkEdges: handles, lengths and texts at their limits

    A [Frame] handle is checked by a 16-bit generation, its length is a [u16], and
    an error text is cut to the frame: what holds for them, and where the limits
    show. *)

From Stdlib Require Import ZArith Lia.
From S2P Require Import Prelude Text Codec Core Wire Hello HelloSpec HelloParse HelloWrite LinkState Link LinkInv LinkIo LinkSend LinkRecv LinkDeclare LinkRun LinkContract LinkProps.

Section edges.
Context {P : LinkParams} `{CrcOps} `{!CrcLaws} `{CobsOps} `{!CobsLaws}.

(** ** Generations *)

Lemma rx_discard_generation n s a s' :
  rx_discard n s = Some (a, s') → l_rx_generation s' = wrapping_add 16 (l_rx_generation s) 1.
Proof.
  unfold rx_discard, bind, get, lift, modify.
  destruct (copy_within _ _ _ _); [|done]. destruct (usub _ _); [|done]. by intros [= _ <-].
Qed.

Lemma rx_compact_generation s a s' :
  0 < l_rx_consumed s → rx_compact s = Some (a, s') →
  l_rx_generation s' = wrapping_add 16 (l_rx_generation s) 1.
Proof.
  intros Hc. unfold rx_compact, bind at 1, gets. rewrite (proj2 (Nat.ltb_lt _ _) Hc).
  unfold bind at 1, modify. intros E. by apply rx_discard_generation in E.
Qed.

Lemma wrapping_add_add w a b c : wrapping_add w (wrapping_add w a b) c = wrapping_add w a (b + c).
Proof. unfold wrapping_add, wrap. rewrite Zplus_mod_idemp_l. f_equal. lia. Qed.

Lemma wrapping_add_neq a : is_u16 a → wrapping_add 16 a 1 ≠ a.
Proof.
  intros Ha E. unfold wrapping_add, wrap, is_u in *. change (2 ^ 16)%Z with 65536%Z in *.
  destruct (decide (a = 65535)%Z) as [->|]; [vm_compute in E; lia|].
  rewrite Z.mod_small in E by lia. lia.
Qed.

Lemma feed_loop_generation fuel total rest : ∀ s n s',
  feed_loop fuel total rest s = Some (n, s') → l_rx_generation s' = l_rx_generation s.
Proof.
  revert rest. induction fuel as [|fuel IH]; intros rest s n s'; cbn [feed_loop]; [done|].
  case_bool_decide; [by intros [= _ <-]|]. unfold bind, get.
  destruct (l_rx_skip s).
  - destruct (position _ _); [|by intros [= _ <-]]. unfold modify. intros E. by apply IH in E.
  - unfold lift, modify. destruct (usub _ _) as [free|]; [|done]. destruct (free =? 0).
    + destruct (slice _ _ _); [|done]. destruct (existsb _ _).
      * destruct (usub _ _); [|done]. by intros [= _ <-].
      * intros E. by apply IH in E.
    + destruct (copy_at _ _ _); [|done]. intros E. by apply IH in E.
Qed.

(** A handle is dead after [feed]: if [f] is the frame the last [next] handed
    out, then after a [feed] its payload reads as empty and nothing decodes through
    it. *)
Theorem feed_kills_handle f bytes s n s' :
  link_ok s → l_started s = true → is_fresh s f = true → 0 < l_rx_consumed s →
  feed bytes s = Some (n, s') →
  payload s' f = Some [] ∧ frame_contract s' f = None.
Proof.
  intros Hs Hst Hfresh Hc E. unfold feed in E. rewrite bind_Some in E.
  destruct E as ([]&s1&E1&E). rewrite bind_Some in E. destruct E as ([]&s2&E2&E).
  assert (s1 = s) as ->.
  { pose proof (wp_run _ _ _ _ _ (ensure_started_spec s (ok_bufs s Hs) (link_ok_rows s Hs)) E1) as (_&H'&_).
    by apply H'. }
  apply rx_compact_generation in E2; [|done]. apply feed_loop_generation in E.
  assert (Hstale : is_fresh s' f = false).
  { unfold is_fresh in *. apply Z.eqb_eq in Hfresh. apply Z.eqb_neq. rewrite E, E2, Hfresh.
    apply not_eq_sym, wrapping_add_neq, Hs. }
  unfold payload, frame_contract. by rewrite Hstale.
Qed.

(** Empty frames only: each is discarded, and each discard is a generation. *)
Lemma next_loop_empty_frames n : ∀ fuel s,
  bufs_ok s → is_u16 (l_rx_generation s) → l_rx_consumed s = 0 →
  rx_queue s = replicate n 0%Z → n < fuel →
  wp (next_loop fuel) (λ ev s', ev = None ∧
    l_rx_generation s' = wrapping_add 16 (l_rx_generation s) (Z.of_nat n)) s.
Proof.
  induction n as [|n IH]; intros [|fuel] s Hb Hg Hc Hq Hf; try lia; cbn [next_loop]; wp_steps;
    pose proof (bo_rx s Hb) as Hrx; rewrite slice_eq by lia; wp_steps;
    rewrite drop_0, Nat.sub_0_r; fold (rx_queue s); rewrite Hq; cbn [replicate position].
  - wp_steps. split; [done|]. unfold wrapping_add. rewrite Z.add_0_r. by rewrite wrap_small.
  - cbn [is_delimiter Z.eqb Nat.eqb DELIMITER]. rewrite wp_bind.
    assert (Hlen : 1 ≤ l_rx_len s).
    { rewrite <- length_rx_queue by done. rewrite Hq. cbn. lia. }
    pose proof (rx_discard_spec 1 s Hb Hlen Hc) as Hd. apply wp_exists in Hd.
    destruct Hd as ([]&s1&E&Hr&Hq1&Hc1&_). eapply wp_eq; [exact E|]. cbn beta.
    apply rx_discard_generation in E.
    rewrite Hq in Hq1. cbn [replicate skipn] in Hq1. rewrite drop_0 in Hq1.
    eapply wp_mono; [apply IH; [apply Hr| |done|done|lia]|].
    { rewrite E. by apply wrap_range. }
    intros ev s2 [-> Hg2]. split; [done|]. rewrite Hg2, E, wrapping_add_add. f_equal. lia.
Qed.

(** The generation is 16 bits wide, so a handle comes back to life: when the
    receive buffer holds 65535 empty frames behind the frame of [f], the next call
    of [next] consumes them all, reports nothing, and [f] counts as fresh again
    although its bytes are gone. *)
Theorem stale_handle_revives f n s :
  link_ok s → l_started s = true → is_fresh s f = true → 0 < l_rx_consumed s →
  drop (l_rx_consumed s) (rx_queue s) = replicate n 0%Z → Z.of_nat n = 65535%Z →
  ∃ s', next s = Some (None, s') ∧ is_fresh s' f = true.
Proof.
  intros Hs Hst Hfresh Hc Hq Hn.
  assert (Hw : wp next (λ ev s', ev = None ∧ is_fresh s' f = true) s).
  { unfold next. rewrite wp_bind.
    eapply wp_mono; [apply ensure_started_spec; [apply Hs|by apply link_ok_rows]|].
    intros [] s1 (_&Heq&_). rewrite (Heq Hst) in *. clear s1 Heq. rewrite wp_bind.
    pose proof (rx_compact_spec s (ok_bufs s Hs)) as Hcp. apply wp_exists in Hcp.
    destruct Hcp as ([]&s1&E&Hr&Hq1&Hc1&_). eapply wp_eq; [exact E|]. cbn beta. wp_steps.
    apply rx_compact_generation in E; [|done]. rewrite Hq in Hq1.
    assert (Hl1 : l_rx_len s1 = n).
    { rewrite <- length_rx_queue by apply Hr. rewrite Hq1. apply length_replicate. }
    eapply wp_mono; [apply (next_loop_empty_frames n); [apply Hr| |done|done|lia]|].
    { rewrite E. by apply wrap_range. }
    intros ev s2 [-> Hg]. split; [done|]. unfold is_fresh in *. apply Z.eqb_eq in Hfresh.
    apply Z.eqb_eq. rewrite Hg, E, wrapping_add_add, Hn, Hfresh. unfold wrapping_add, wrap.
    change (1 + 65535)%Z with (1 * 2 ^ 16)%Z. rewrite Z.mod_add by done.
    by rewrite Z.mod_small by (destruct Hs as [_ _ _ [_ _ Hg16]]; exact Hg16). }
  apply wp_exists in Hw as (ev&s'&E&->&Hf). by exists s'.
Qed.

(** ** Lengths *)

(** A payload of more than [u16::MAX] bytes never arrives, however large
    [FRAME] is: the sender's frame is sound and its raw length is within [FRAME],
    yet the receiver takes it for a broken frame. *)
Theorem large_payload_is_broken h p e s :
  bufs_ok s → e ≤ l_rx_len s → cobs_block (raw_frame h p) (take e (l_rx s)) → header_ok h →
  OVERHEAD + length p ≤ FRAME → (u16_max < Z.of_nat (length p))%Z →
  ∃ s', decode_frame e s = Some (None, s').
Proof.
  intros Hb He (_&_&_&_&dec&Hd&Ht) Hh Hf Hu.
  assert (Hw : wp (decode_frame e) (λ r _, r = None) s).
  { pose proof (bo_rx s Hb) as Hrx. unfold decode_frame. wp_steps. rewrite wp_focus.
    apply wp_sub_slice; [lia|lia|]. rewrite drop_0, Nat.sub_0_r.
    assert (Hdl : length dec = e ∧ length (raw_frame h p) ≤ e).
    { destruct (cobs_decode_ok (take e (l_rx s)) (Some (length (raw_frame h p))) dec) as (Hl&_&Hle);
        [destruct Hb; auto with reiny|done|].
      rewrite length_take, Nat.min_l in Hl, Hle by lia. cbn [from_option] in Hle. done. }
    destruct Hdl as [Hdl Hle].
    eapply wp_eq; [unfold decode_in_place; by rewrite Hd|]. cbn beta. split; [lia|].
    cbn [ok_or]. rewrite length_raw_frame in *.
    rewrite (proj2 (Nat.ltb_ge _ _)) by lia. wp_steps. cbn [l_rx set_rx].
    rewrite take_0, app_nil_l. rewrite slice_eq by (rewrite ?length_app, ?length_drop; lia).
    wp_steps. rewrite drop_0, Nat.sub_0_r, take_app_le by lia. rewrite Ht, parse_raw_frame by done.
    wp_steps. by rewrite (proj2 (Z.leb_gt _ _)) by done. }
  apply wp_exists in Hw as (r&s'&E&->). by exists s'.
Qed.
End edges.

(** ** Error texts *)

(** The longest error text of the demo links: 149 bytes *)
Definition long_text : str := replicate 148 97%Z ++ [195; 169]%Z. (* 148 times a, then e acute *)

(** [arm] calls [plan]; [base] answers with [long_text]; [arm] takes the event. *)
Definition error_exchange : option (option Event * option str) :=
  '(r, arm1) ← request Plan (bytes_of "plan") (plain [3]%Z) arm;
  match r with
  | Err _ => None
  | Ok seq =>
      '(_, base1) ← feed (tx_queue arm1) base;
      '(_, base2) ← next base1;
      '(_, base3) ← reply_err Plan (bytes_of "plan") seq long_text base2;
      '(_, arm2) ← feed (tx_queue base3) arm1;
      '(ev, arm3) ← next arm2;
      Some (ev, match ev with Some (ErrorReply f) => error_message arm3 f | _ => None end)
  end.

(** A long error text is cut at a byte, not at a character: the text is valid
    UTF-8, the call is answered with an error, and the caller reads an empty
    message, because the cut left half a character at the end. *)
Theorem error_text_is_lost :
  str_ok long_text ∧ length long_text = payload_max + 1 ∧
  ∃ f, error_exchange = Some (Some (ErrorReply f), Some []).
Proof.
  split; [vm_compute; reflexivity|]. split; [vm_compute; reflexivity|].
  eexists. vm_compute. reflexivity.
Qed.

(** ** Witnesses *)

Definition base_event : option Event * Link :=
  match next base_fed with Some r => r | None => (None, dummy) end.

Lemma feed_kills_handle_witness :
  ∃ f n s', base_event.1 = Some (Data f) ∧ feed [0]%Z base_event.2 = Some (n, s') ∧ payload s' f = Some [].
Proof.
  destruct (feed [0]%Z base_event.2) as [[n s']|] eqn:E; [|vm_compute in E; discriminate].
  eexists _, n, s'. split; [vm_compute; reflexivity|]. split; [reflexivity|].
  refine (proj1 (feed_kills_handle _ [0]%Z base_event.2 n s' _ _ _ _ E)).
  - pose proof (run_op_ok OpNext base_fed base_fed_ok I) as Hok.
    unfold wp in Hok. vm_compute in Hok. vm_compute. exact Hok.
  - vm_compute. reflexivity.
  - vm_compute. reflexivity.
  - vm_compute. lia.
Defined.

(** [arm] with one consumed byte and 65535 empty frames in a large buffer *)
Definition empties : nat := Z.to_nat 65535.
Definition arm_flooded : Link :=
  set_rx_consumed 1 (set_rx_len (S empties) (set_rx (zeros (S empties)) arm)).

Lemma arm_flooded_ok : link_ok arm_flooded.
Proof.
  pose proof arm_ok as Ha. apply (link_ok_core arm); [by constructor|done|done| | |done].
  - destruct Ha as [[K1 K2 K3 K4 K5 K6 K7 K8 K9 K10] _ _ _].
    constructor; try assumption; cbn [arm_flooded set_rx_consumed set_rx_len set_rx l_rx l_rx_len l_rx_consumed].
    + unfold zeros. rewrite length_replicate. done.
    + apply zeros_ok.
    + lia.
  - destruct Ha as [_ _ _ [K1 K2 K3]]. by constructor.
Qed.

Lemma stale_handle_revives_witness :
  ∃ s', next arm_flooded = Some (None, s') ∧
        is_fresh s' (mkFrame KData 0 0 3 (l_rx_generation arm)) = true.
Proof.
  apply (stale_handle_revives (mkFrame KData 0 0 3 (l_rx_generation arm)) empties arm_flooded).
  - exact arm_flooded_ok.
  - reflexivity.
  - reflexivity.
  - cbn [arm_flooded set_rx_consumed l_rx_consumed]. lia.
  - unfold rx_queue. cbn [arm_flooded set_rx_consumed set_rx_len set_rx l_rx l_rx_len l_rx_consumed].
    unfold zeros. rewrite firstn_all2 by (rewrite length_replicate; lia). cbn [replicate skipn].
    apply drop_0.
  - unfold empties. rewrite Z2Nat.id by lia. reflexivity.
Defined.

(** A link for frames larger than [u16::MAX], with an encoded one in its buffer *)
Definition big : nat := Z.to_nat 70000.
Definition big_params : LinkParams := {| TABLE := 1; FRAME := OVERHEAD + big |}.
Definition big_header : Header := mkHeader KData 1 2.
Definition big_link (rx : list Z) : Link :=
  mkLink (mkIdBuf [] 0) None [] [] [] [] (zeros (OVERHEAD + big)) 0 [] [] 0 rx (length rx) 0 false 0
    (zeros (OVERHEAD + big)) LinkConfig_default false false false false 0 0 0 0 0 Stats_default.

Lemma big_block : ∃ enc, bytes_ok enc ∧ cobs_block (raw_frame big_header (zeros big)) enc.
Proof.
  destruct (cobs_encode_ok (raw_frame big_header (zeros big))
              (zeros (cobs_max (length (raw_frame big_header (zeros big))))))
    as (n&out&_&_&_&Hob&Hblk).
  - done.
  - apply raw_frame_ok; [by split; split|apply zeros_ok].
  - apply zeros_ok.
  - unfold zeros at 2. by rewrite length_replicate.
  - exists (take n out). split; [auto with reiny|done].
Qed.

Lemma large_payload_is_broken_witness :
  ∃ rx s', @decode_frame big_params _ _ (length rx) (big_link rx) = Some (None, s').
Proof.
  destruct big_block as (enc&Hb&Hblk). exists enc.
  apply (@large_payload_is_broken big_params _ _ _ _ big_header (zeros big) (length enc) (big_link enc)).
  - constructor; cbn [big_link l_scratch l_peer_hello l_tx l_rx l_tx_len l_rx_len l_rx_consumed FRAME big_params].
    + lia.
    + apply length_replicate.
    + apply zeros_ok.
    + apply length_replicate.
    + apply zeros_ok.
    + reflexivity.
    + apply bytes_ok_nil.
    + reflexivity.
    + exact Hb.
    + lia.
  - reflexivity.
  - cbn [big_link l_rx]. rewrite firstn_all. exact Hblk.
  - split; split; vm_compute; congruence.
  - cbn [FRAME big_params]. unfold zeros. rewrite length_replicate. reflexivity.
  - unfold zeros, big. rewrite length_replicate, Z2Nat.id by lia. vm_compute. reflexivity.
Defined.
