(* ===== verification/Btree.v ===== *)
(** * Btree: ordered maps and sets, and the loops over them

    [BTreeMap<K, V>] is the list of its entries in increasing key order, which
    is the order its iterators give; [bt_ok] is that order as an invariant.  A
    [BTreeSet] is a map to [unit].  Keys are ordered by a class [Ord] with laws;
    byte strings and tuples have the lexicographic order of the derived [Ord].
    [for_each] and [for_fold] are [for] loops whose body may return early. *)

From Stdlib Require Import Permutation Sorted.
From stdpp Require Import sorting.
From S2P Require Import Prelude.

Class Ord (K : Type) : Type := cmp : K → K → comparison.

Class OrdLaws (K : Type) `{Ord K} : Prop := {
  cmp_eq (x y : K) : cmp x y = Eq ↔ x = y;
  cmp_opp (x y : K) : cmp y x = CompOpp (cmp x y);
  cmp_trans (x y z : K) : cmp x y = Lt → cmp y z = Lt → cmp x z = Lt;
}.

(** ** Orders *)

#[export] Instance Ord_Z : Ord Z := Z.compare.
#[export] Instance Ord_nat : Ord nat := Nat.compare.
#[export] Instance Ord_bool : Ord bool := λ x y,
  match x, y with false, true => Lt | true, false => Gt | _, _ => Eq end.
#[export] Instance Ord_unit : Ord unit := λ _ _, Eq.

(** [Ordering::then_with] *)
Definition then_cmp (c d : comparison) : comparison :=
  match c with Eq => d | _ => c end.

#[export] Instance Ord_pair {A B} `{Ord A, Ord B} : Ord (A * B) := λ x y,
  then_cmp (cmp x.1 y.1) (cmp x.2 y.2).

Fixpoint cmp_list {A} `{Ord A} (x y : list A) : comparison :=
  match x, y with
  | [], [] => Eq
  | [], _ :: _ => Lt
  | _ :: _, [] => Gt
  | a :: x', b :: y' => then_cmp (cmp a b) (cmp_list x' y')
  end.
#[export] Instance Ord_list {A} `{Ord A} : Ord (list A) := cmp_list.
#[export] Instance Ord_str : Ord str := Ord_list (A := Z).

(** An order carried over along an injection (a derived [Ord] of a struct). *)
Definition cmp_on {A B} `{Ord B} (f : A → B) : Ord A := λ x y, cmp (f x) (f y).

#[export] Instance OrdLaws_Z : OrdLaws Z.
Proof.
  split; unfold cmp, Ord_Z.
  - apply Z.compare_eq_iff.
  - intros. apply Z.compare_antisym.
  - intros x y z. rewrite !Z.compare_lt_iff. lia.
Qed.

#[export] Instance OrdLaws_nat : OrdLaws nat.
Proof.
  split; unfold cmp, Ord_nat.
  - intros x y. apply Nat.compare_eq_iff.
  - intros x y. apply Nat.compare_antisym.
  - intros x y z. rewrite !Nat.compare_lt_iff. lia.
Qed.
#[export] Instance OrdLaws_bool : OrdLaws bool.
Proof. split; [intros [] []|intros [] []|intros [] [] []]; done. Qed.

#[export] Instance OrdLaws_unit : OrdLaws unit.
Proof. split; [intros [] []|intros [] []|intros [] [] []]; done. Qed.

Lemma cmp_refl {K} `{OrdLaws K} (x : K) : cmp x x = Eq.
Proof. by apply cmp_eq. Qed.

Lemma then_cmp_Lt c d : then_cmp c d = Lt ↔ c = Lt ∨ c = Eq ∧ d = Lt.
Proof. destruct c; naive_solver. Qed.

#[export] Instance OrdLaws_pair {A B} `{OrdLaws A, OrdLaws B} : OrdLaws (A * B).
Proof.
  split; unfold cmp, Ord_pair.
  - intros [a b] [c d]; cbn. pose proof (cmp_eq a c). pose proof (cmp_eq b d).
    destruct (cmp a c); cbn; naive_solver.
  - intros [a b] [c d]; cbn. rewrite (cmp_opp a c). destruct (cmp a c); cbn; [|done..].
    apply cmp_opp.
  - intros [a b] [c d] [e f]; cbn. rewrite !then_cmp_Lt.
    intros [Hac|[Hac%cmp_eq Hbd]] [Hce|[Hce%cmp_eq Hdf]]; subst; eauto using cmp_trans.
    right. split; [apply cmp_refl|eauto using cmp_trans].
Qed.

#[export] Instance OrdLaws_list {A} `{OrdLaws A} : OrdLaws (list A).
Proof.
  split; unfold cmp, Ord_list.
  - induction x as [|a x IH]; intros [|b y]; cbn; [done..|].
    pose proof (cmp_eq a b). pose proof (IH y).
    destruct (cmp a b); cbn; naive_solver.
  - induction x as [|a x IH]; intros [|b y]; cbn; [done..|].
    rewrite (cmp_opp a b). destruct (cmp a b); cbn; [|done..]. apply IH.
  - induction x as [|a x IH]; intros [|b y] [|c z]; cbn; try done.
    rewrite !then_cmp_Lt.
    intros [Hac|[Hac%cmp_eq Hbd]] [Hce|[Hce%cmp_eq Hdf]]; subst; eauto using cmp_trans.
    right. split; [apply cmp_refl|eauto].
Qed.
#[export] Instance OrdLaws_str : OrdLaws str := OrdLaws_list (A := Z).

Lemma OrdLaws_on {A B} `{OrdLaws B} (f : A → B) : Inj (=) (=) f → @OrdLaws A (cmp_on f).
Proof.
  intros Hf. split.
  - intros x y. change (cmp (f x) (f y) = Eq ↔ x = y). rewrite cmp_eq.
    split; [apply Hf|by intros ->].
  - intros x y. exact (cmp_opp (f x) (f y)).
  - intros x y z. exact (cmp_trans (f x) (f y) (f z)).
Qed.

(** [min] over an iterator of two optional candidates, as
    [a.into_iter().chain(b).min()] *)
Definition option_min {K} `{Ord K} (a b : option K) : option K :=
  match a, b with
  | Some x, Some y => match cmp x y with Gt => Some y | _ => Some x end
  | Some x, None => Some x
  | None, _ => b
  end.

(** ** Maps *)

Definition btree (K V : Type) : Type := list (K * V).

Section maps.
Context {K V : Type} `{Ord K}.
Implicit Types m : btree K V.

(** [BTreeMap::get] *)
Fixpoint bt_get (k : K) m : option V :=
  match m with
  | [] => None
  | (k', v) :: m' =>
      match cmp k k' with Lt => None | Eq => Some v | Gt => bt_get k m' end
  end.

(** [BTreeMap::contains_key] *)
Definition bt_contains (k : K) m : bool :=
  match bt_get k m with Some _ => true | None => false end.

(** [BTreeMap::insert]: the map, and the value that was there *)
Fixpoint bt_insert (k : K) (v : V) m : option V * btree K V :=
  match m with
  | [] => (None, [(k, v)])
  | (k', v') :: m' =>
      match cmp k k' with
      | Lt => (None, (k, v) :: m)
      | Eq => (Some v', (k', v) :: m')
      | Gt => let '(old, m2) := bt_insert k v m' in (old, (k', v') :: m2)
      end
  end.

(** [BTreeMap::remove] *)
Fixpoint bt_remove (k : K) m : option V * btree K V :=
  match m with
  | [] => (None, [])
  | (k', v') :: m' =>
      match cmp k k' with
      | Lt => (None, m)
      | Eq => (Some v', m')
      | Gt => let '(old, m2) := bt_remove k m' in (old, (k', v') :: m2)
      end
  end.

(** Entries in strictly increasing key order. *)
Fixpoint bt_ok m : Prop :=
  match m with
  | [] => True
  | (k, _) :: m' => Forall (λ e, cmp k e.1 = Lt) m' ∧ bt_ok m'
  end.

#[export] Instance bt_ok_dec m : Decision (bt_ok m).
Proof. induction m as [|[k v] m IH]; cbn; apply _. Defined.
End maps.

(** [BTreeSet::insert]: whether the element is new, and the set *)
Definition bs_insert {K} `{Ord K} (k : K) (s : btree K unit) : bool * btree K unit :=
  let '(old, s') := bt_insert k tt s in (is_none old, s').

Section map_laws.
Context {K V : Type} `{OrdLaws K}.
Implicit Types m : btree K V.

Lemma bt_ok_lt k v m e : bt_ok ((k, v) :: m) → e ∈ m → cmp k e.1 = Lt.
Proof. intros [Hall _] He. by rewrite Forall_forall in Hall; apply Hall. Qed.

(** A lookup that answers points at an entry. *)
Lemma bt_get_elem k v m : bt_get k m = Some v → (k, v) ∈ m.
Proof.
  induction m as [|[k' v'] m IH]; cbn; [done|].
  destruct (cmp k k') eqn:E; [|done|by right; apply IH].
  apply cmp_eq in E as ->. intros [= ->]. by left.
Qed.

Lemma bt_get_Some k v m : bt_ok m → bt_get k m = Some v ↔ (k, v) ∈ m.
Proof.
  intros Hok. split; [apply bt_get_elem|].
  induction m as [|[k' v'] m IH]; [by intros ?%elem_of_nil|].
  intros [[= -> ->]|Hin]%elem_of_cons; cbn; [by rewrite cmp_refl|].
  pose proof (bt_ok_lt _ _ _ _ Hok Hin) as Hlt. cbn in Hlt.
  rewrite (cmp_opp k' k), Hlt. cbn. apply IH; [apply Hok|done].
Qed.

Lemma bt_get_None k m : bt_ok m → bt_get k m = None ↔ k ∉ m.*1.
Proof.
  intros Hok. split.
  - intros Hn ([k' v]&->&Hin)%list_elem_of_fmap. apply bt_get_Some in Hin; [|done]. cbn in *. congruence.
  - intros Hk. destruct (bt_get k m) eqn:E; [|done]. apply bt_get_elem in E.
    destruct Hk. by apply (list_elem_of_fmap_2 fst) in E.
Qed.

Lemma bt_contains_true k m : bt_ok m → bt_contains k m = true ↔ k ∈ m.*1.
Proof.
  intros Hok. unfold bt_contains. pose proof (bt_get_None k m Hok) as Hn.
  destruct (bt_get k m) as [v|] eqn:E; [|naive_solver].
  apply bt_get_elem in E. split; [|done]. intros _. by apply (list_elem_of_fmap_2 fst) in E.
Qed.

Lemma bt_ok_NoDup m : bt_ok m → NoDup m.*1.
Proof.
  induction m as [|[k v] m IH]; cbn; [by constructor|]. intros [Hall Hok].
  constructor; [|by apply IH]. intros ([k' v']&E&Hin)%list_elem_of_fmap. cbn in E. subst.
  rewrite Forall_forall in Hall. specialize (Hall _ Hin). cbn in Hall.
  by rewrite cmp_refl in Hall.
Qed.

(** An entry of the map is found by its key, and only it. *)
Lemma bt_ok_functional k v w m : bt_ok m → (k, v) ∈ m → (k, w) ∈ m → v = w.
Proof. intros Hok Hv%bt_get_Some Hw%bt_get_Some; [congruence|done..]. Qed.

Lemma bt_insert_old k v m : (bt_insert k v m).1 = bt_get k m.
Proof.
  induction m as [|[k' v'] m IH]; cbn; [done|]. destruct (cmp k k'); [done..|].
  by destruct (bt_insert k v m).
Qed.

Lemma bt_insert_elem k v m e : e ∈ (bt_insert k v m).2 → e = (k, v) ∨ e ∈ m.
Proof.
  induction m as [|[k' v'] m IH]; cbn; [by intros ?%list_elem_of_singleton; left|].
  destruct (cmp k k') eqn:E.
  - apply cmp_eq in E as ->. intros [->|?]%elem_of_cons; [by left|right; by right].
  - intros [->|?]%elem_of_cons; [by left|by right].
  - destruct (bt_insert k v m) as [old m2]. cbn in *.
    intros [->|Hin]%elem_of_cons; [by right; left|].
    destruct (IH Hin); [by left|right; by right].
Qed.

Lemma bt_insert_ok k v m : bt_ok m → bt_ok (bt_insert k v m).2.
Proof.
  induction m as [|[k' v'] m IH]; cbn; [done|]. intros [Hall Hok].
  destruct (cmp k k') eqn:E; cbn; [done| |].
  - split; [|done]. constructor; [done|].
    eapply Forall_impl; [exact Hall|]. intros e He. by eapply cmp_trans.
  - pose proof (bt_insert_elem k v m) as Hel. specialize (IH Hok).
    destruct (bt_insert k v m) as [old m2]. cbn in *. split; [|done].
    rewrite Forall_forall in Hall. apply Forall_forall. intros e [->|He]%Hel; cbn.
    + by rewrite (cmp_opp k k'), E.
    + by apply Hall.
Qed.

Lemma bt_get_insert k v m k' :
  bt_ok m → bt_get k' (bt_insert k v m).2 = if bool_decide (cmp k' k = Eq) then Some v else bt_get k' m.
Proof.
  induction m as [|[j w] m IH]; cbn.
  - intros _. by destruct (cmp k' k).
  - intros [Hall Hok]. specialize (IH Hok). destruct (cmp k j) eqn:E; cbn.
    + apply cmp_eq in E as ->. by destruct (cmp k' j).
    + destruct (cmp k' k) eqn:E'; cbn; [done| |done].
      by rewrite (cmp_trans _ _ _ E' E).
    + destruct (bt_insert k v m) as [old m2]. cbn in *.
      destruct (cmp k' j) eqn:E'; cbn.
      * apply cmp_eq in E' as ->. by rewrite (cmp_opp k j), E.
      * assert (cmp j k = Lt) as Hjk by by rewrite (cmp_opp k j), E.
        by rewrite (cmp_trans _ _ _ E' Hjk).
      * done.
Qed.
End map_laws.

(** ** Loops with early return *)

(** [for x in l { f(x)?; }] *)
Fixpoint for_each {A E} (f : A → result unit E) (l : list A) : result unit E :=
  match l with
  | [] => Ok tt
  | x :: l' => let? _ := f x in for_each f l'
  end.

(** [for x in l { s = f(s, x)?; }] over a local variable *)
Fixpoint for_fold {A S E} (f : S → A → result S E) (s : S) (l : list A) : result S E :=
  match l with
  | [] => Ok s
  | x :: l' => let? s' := f s x in for_fold f s' l'
  end.

(** [good] holds of every element, given the elements before it. *)
Fixpoint each_after {A} (good : list A → A → Prop) (before l : list A) : Prop :=
  match l with
  | [] => True
  | x :: l' => good before x ∧ each_after good (before ++ [x]) l'
  end.

Section loops.
Context {A E : Type}.
Implicit Types l : list A.

Lemma for_each_Ok (f : A → result unit E) l :
  for_each f l = Ok tt ↔ Forall (λ x, f x = Ok tt) l.
Proof.
  induction l as [|x l IH]; cbn; [by split; [constructor|]|]. rewrite Forall_cons, <- IH.
  destruct (f x) as [[]|e]; naive_solver.
Qed.

Lemma for_each_is_ok (f : A → result unit E) l :
  is_ok (for_each f l) = true ↔ Forall (λ x, f x = Ok tt) l.
Proof. rewrite <- for_each_Ok. by destruct (for_each f l) as [[]|]. Qed.

Lemma for_each_Err (f : A → result unit E) l e :
  for_each f l = Err e ↔
  ∃ l1 x l2, l = l1 ++ x :: l2 ∧ Forall (λ y, f y = Ok tt) l1 ∧ f x = Err e.
Proof.
  induction l as [|x l IH]; cbn; [split; [done|]; intros ([]&?&?&[=]&_)|].
  destruct (f x) as [[]|e'] eqn:Ex.
  - rewrite IH. split.
    + intros (l1&y&l2&->&Hall&Hy). exists (x :: l1), y, l2. by repeat constructor.
    + intros ([|z l1]&y&l2&[= -> ->]&Hall&Hy); [congruence|].
      inversion Hall. eauto 10.
  - split; [intros [= ->]; by exists [], x, l|].
    intros ([|z l1]&y&l2&[= -> ->]&Hall&Hy); [congruence|]. inversion Hall; congruence.
Qed.

(** A loop over a local that represents what was seen ([R]) accepts exactly
    the lists each of whose elements is good after those before it. *)
Lemma for_fold_exact {S} (f : S → A → result S E) (R : list A → S → Prop)
    (good : list A → A → Prop) :
  (∀ before s x, R before s →
     match f s x with
     | Ok s' => good before x ∧ R (before ++ [x]) s'
     | Err _ => ¬ good before x
     end) →
  ∀ l before s, R before s →
  match for_fold f s l with
  | Ok s' => each_after good before l ∧ R (before ++ l) s'
  | Err _ => ¬ each_after good before l
  end.
Proof.
  intros Hstep. induction l as [|x l IH]; intros before s HR; cbn [for_fold each_after].
  - by rewrite app_nil_r.
  - specialize (Hstep before s x HR). destruct (f s x) as [s'|e]; [|naive_solver].
    destruct Hstep as [Hg HR']. specialize (IH _ _ HR'). rewrite <- app_assoc in IH. cbn in IH.
    destruct (for_fold f s' l); naive_solver.
Qed.

Lemma for_fold_is_ok {S} (f : S → A → result S E) (R : list A → S → Prop)
    (good : list A → A → Prop) l s :
  (∀ before s x, R before s →
     match f s x with
     | Ok s' => good before x ∧ R (before ++ [x]) s'
     | Err _ => ¬ good before x
     end) →
  R [] s → is_ok (for_fold f s l) = true ↔ each_after good [] l.
Proof.
  intros Hstep HR. pose proof (for_fold_exact f R good Hstep l [] s HR) as Hl.
  destruct (for_fold f s l); naive_solver.
Qed.

Lemma each_after_and (P : A → Prop) (good : list A → A → Prop) before l :
  each_after (λ b x, P x ∧ good b x) before l ↔ Forall P l ∧ each_after good before l.
Proof.
  revert before. induction l as [|x l IH]; intros before; cbn; [by split; [split; [constructor|]|]|].
  rewrite IH, Forall_cons. tauto.
Qed.

Lemma each_after_Forall (P : A → Prop) before l :
  each_after (λ _ x, P x) before l ↔ Forall P l.
Proof.
  revert before. induction l as [|x l IH]; intros before; cbn; [by split; [constructor|]|].
  by rewrite IH, Forall_cons.
Qed.

Lemma each_after_mono (good good' : list A → A → Prop) before l :
  (∀ b x, good b x ↔ good' b x) → each_after good before l ↔ each_after good' before l.
Proof.
  intros Hg. revert before. induction l as [|x l IH]; intros before; cbn; [done|].
  by rewrite Hg, IH.
Qed.

(** Keys that differ from all earlier ones are pairwise different. *)
Lemma each_after_NoDup {K} (key : A → K) before l :
  each_after (λ b x, key x ∉ key <$> b) before l ↔
  NoDup (key <$> l) ∧ ∀ x, x ∈ key <$> before → x ∉ key <$> l.
Proof.
  revert before. induction l as [|x l IH]; intros before; cbn.
  - split; [intros _; split; [constructor|set_solver]|done].
  - rewrite IH, NoDup_cons. rewrite fmap_app. cbn. set_solver.
Qed.

Lemma each_after_NoDup_bind {K} (g : A → list K) before l :
  each_after (λ b x, NoDup (g x) ∧ ∀ k, k ∈ b ≫= g → k ∉ g x) before l ↔
  NoDup (l ≫= g) ∧ ∀ k, k ∈ before ≫= g → k ∉ l ≫= g.
Proof.
  revert before. induction l as [|x l IH]; intros before; cbn.
  - split; [intros _; split; [constructor|set_solver]|done].
  - rewrite IH, NoDup_app, bind_app. cbn. rewrite app_nil_r. set_solver.
Qed.

(** A symmetric relation to every earlier element holds between all. *)
Lemma each_after_pairwise (rel : A → A → Prop) `{!Reflexive rel, !Symmetric rel} before l :
  each_after (λ b x, ∀ y, y ∈ b → rel y x) before l ↔
  (∀ x y, x ∈ before ++ l → y ∈ l → rel x y).
Proof.
  revert before. induction l as [|x l IH]; intros before; cbn.
  - split; [|done]. by intros _ x y _ ?%elem_of_nil.
  - rewrite IH, <- app_assoc. cbn. split.
    + intros [Hx Hl] y z Hy [->|Hz]%elem_of_cons; [|by apply Hl].
      apply elem_of_app in Hy as [Hy|[->|Hy]%elem_of_cons]; [by apply Hx|done|].
      symmetry. apply Hl; [|done]. apply elem_of_app. right. by left.
    + intros Hall. split; intros; apply Hall; set_solver.
Qed.
End loops.

(** A set holds the keys seen so far. *)
Definition seen {A K} `{Ord K} (key : A → K) (before : list A) (s : btree K unit) : Prop :=
  bt_ok s ∧ ∀ k, bt_contains k s = true ↔ k ∈ key <$> before.

Lemma seen_nil {A K} `{Ord K} (key : A → K) : seen key [] [].
Proof. split; [done|]. intros k. split; [done|by intros ?%elem_of_nil]. Qed.

(** [set.insert(key(x))] answers whether the key is new. *)
Lemma seen_insert {A K} `{OrdLaws K} (key : A → K) before s x :
  seen key before s →
  ((bs_insert (key x) s).1 = true ↔ key x ∉ key <$> before) ∧
  seen key (before ++ [x]) (bs_insert (key x) s).2.
Proof.
  intros [Hok Hs]. unfold bs_insert.
  pose proof (bt_insert_old (key x) tt s) as Hold.
  pose proof (bt_insert_ok (key x) tt s Hok) as Hok'.
  pose proof (λ k, bt_get_insert (key x) tt s k Hok) as Hget.
  destruct (bt_insert (key x) tt s) as [old s']. cbn in *. subst old. split.
  - rewrite <- Hs. unfold bt_contains. by destruct (bt_get (key x) s).
  - split; [done|]. intros k. unfold bt_contains. rewrite Hget, fmap_app, elem_of_app, <- Hs.
    unfold bt_contains. cbn. rewrite list_elem_of_singleton.
    case_bool_decide as E.
    + apply cmp_eq in E. naive_solver.
    + rewrite cmp_eq in E. naive_solver.
Qed.

(** ** Collecting and updating *)

(** [BTreeMap::extend] *)
Definition bt_extend {K V} `{Ord K} (m : btree K V) (l : list (K * V)) : btree K V :=
  foldl (λ m e, (bt_insert e.1 e.2 m).2) m l.

(** [collect()] into a [BTreeMap] *)
Definition bt_collect {K V} `{Ord K} (l : list (K * V)) : btree K V := bt_extend [] l.

Section extend_laws.
Context {K V : Type} `{OrdLaws K}.
Implicit Types m : btree K V.

Lemma bt_get_insert_eq k v m : bt_ok m → bt_get k (bt_insert k v m).2 = Some v.
Proof. intros Hok. rewrite bt_get_insert by done. by rewrite cmp_refl. Qed.

Lemma bt_get_insert_ne k v m k' :
  bt_ok m → k' ≠ k → bt_get k' (bt_insert k v m).2 = bt_get k' m.
Proof.
  intros Hok Hne. rewrite bt_get_insert by done. case_bool_decide as E; [|done].
  by apply cmp_eq in E.
Qed.

Lemma bt_extend_ok m l : bt_ok m → bt_ok (bt_extend m l).
Proof.
  revert m. induction l as [|[k v] l IH]; intros m Hok; cbn; [done|].
  by apply IH, bt_insert_ok.
Qed.

(** Keys not mentioned keep their value. *)
Lemma bt_get_extend_other m l k :
  bt_ok m → k ∉ l.*1 → bt_get k (bt_extend m l) = bt_get k m.
Proof.
  revert m. induction l as [|[k' v] l IH]; intros m Hok; cbn [bt_extend foldl fmap list_fmap fst snd]; [done|].
  intros [Hne Hl]%not_elem_of_cons. fold (bt_extend (bt_insert k' v m).2 l). rewrite IH by (done || by apply bt_insert_ok).
  by apply bt_get_insert_ne.
Qed.

(** Entries with distinct keys are all found. *)
Lemma bt_get_extend m l k v :
  bt_ok m → NoDup l.*1 → (k, v) ∈ l → bt_get k (bt_extend m l) = Some v.
Proof.
  revert m. induction l as [|[k' v'] l IH]; intros m Hok Hnd; cbn; [by intros ?%elem_of_nil|].
  apply NoDup_cons in Hnd as [Hk Hnd].
  intros [[= -> ->]|Hin]%elem_of_cons.
  - fold (bt_extend (bt_insert k' v' m).2 l).
    rewrite bt_get_extend_other by (done || by apply bt_insert_ok).
    by apply bt_get_insert_eq.
  - apply IH; [by apply bt_insert_ok|done..].
Qed.

(** Entries that agree on each key are found, however often they occur. *)
Lemma bt_get_extend_functional (h : K → option V) m l k :
  bt_ok m → (∀ e, e ∈ l → h e.1 = Some e.2) → k ∈ l.*1 → bt_get k (bt_extend m l) = h k.
Proof.
  revert m. induction l as [|[k' v'] l IH]; intros m Hok Hh; cbn; [by intros ?%elem_of_nil|].
  fold (bt_extend (bt_insert k' v' m).2 l). intros Hk.
  assert (Hh' : ∀ e, e ∈ l → h e.1 = Some e.2) by (intros e He; apply Hh; by right).
  destruct (decide (Exists (λ e, cmp k e.1 = Eq) l)) as [Hin|Hno].
  - apply Exists_exists in Hin as ([k2 v2]&Hin&E%cmp_eq). cbn in E. subst k2.
    apply IH; [by apply bt_insert_ok|done|]. by apply (list_elem_of_fmap_2 fst) in Hin.
  - assert (Hkl : k ∉ l.*1).
    { intros ([k2 v2]&->&Hin)%list_elem_of_fmap. apply Hno, Exists_exists. exists (k2, v2).
      split; [done|]. apply cmp_refl. }
    apply elem_of_cons in Hk as [->|?]; [|done].
    rewrite bt_get_extend_other by (done || by apply bt_insert_ok).
    rewrite bt_get_insert_eq by done. symmetry. apply (Hh (k', v')). by left.
Qed.

Lemma bt_extend_keys m l k :
  bt_ok m → k ∈ (bt_extend m l).*1 → k ∈ m.*1 ∨ k ∈ l.*1.
Proof.
  revert m. induction l as [|[k' v'] l IH]; intros m Hok; cbn; [by left|].
  intros [Hin|Hin]%IH; [|set_solver|by apply bt_insert_ok].
  apply list_elem_of_fmap in Hin as ([j w]&->&[[= -> ->]|Hin]%bt_insert_elem); cbn; [set_solver|].
  left. by apply (list_elem_of_fmap_2 fst) in Hin.
Qed.

Lemma bt_remove_elem k m e : bt_ok m → e ∈ (bt_remove k m).2 ↔ e ∈ m ∧ e.1 ≠ k.
Proof.
  induction m as [|[k' v'] m IH]; cbn; [intros _; set_solver|]. intros [Hall Hok].
  rewrite Forall_forall in Hall. destruct (cmp k k') eqn:E; cbn.
  - apply cmp_eq in E as ->. rewrite elem_of_cons. split; [|naive_solver].
    intros Hin. split; [by right|]. intros Heq. specialize (Hall _ Hin). rewrite Heq in Hall.
    by rewrite cmp_refl in Hall.
  - split; [|naive_solver]. intros Hin. split; [done|]. intros Heq.
    apply elem_of_cons in Hin as [->|Hin]; cbn in Heq.
    + by rewrite Heq, cmp_refl in E.
    + specialize (Hall _ Hin). pose proof (cmp_trans _ _ _ E Hall) as Hc.
      by rewrite Heq, cmp_refl in Hc.
  - specialize (IH Hok). destruct (bt_remove k m) as [old m2]. cbn in *.
    rewrite !elem_of_cons, IH. split; [|naive_solver].
    intros [->|[? ?]]; [|by split; [right|]]. split; [by left|]. cbn. intros ->.
    by rewrite cmp_refl in E.
Qed.

Lemma bt_remove_ok k m : bt_ok m → bt_ok (bt_remove k m).2.
Proof.
  induction m as [|[k' v'] m IH]; cbn; [done|]. intros [Hall Hok].
  destruct (cmp k k') eqn:E; cbn; [done|done|].
  pose proof (λ e, proj1 (bt_remove_elem k m e Hok)) as Hel. specialize (IH Hok).
  destruct (bt_remove k m) as [old m2]. cbn in *. split; [|done].
  rewrite Forall_forall in Hall. apply Forall_forall. intros e He. by apply Hall, Hel.
Qed.

(** Changing the values leaves a map. *)
Lemma bt_ok_fmap {W} (f : V → W) m : bt_ok m → bt_ok (prod_map id f <$> m).
Proof.
  induction m as [|[k v] m IH]; cbn; [done|]. intros [Hall Hok]. split; [|by apply IH].
  by apply Forall_fmap.
Qed.

Lemma bt_get_fmap {W} (f : V → W) k m : bt_get k (prod_map id f <$> m) = f <$> bt_get k m.
Proof. induction m as [|[k' v] m IH]; cbn; [done|]. by destruct (cmp k k'). Qed.
End extend_laws.

Lemma bs_insert_elem {K} `{OrdLaws K} (k : K) (s : btree K unit) x :
  bt_ok s → x ∈ (bs_insert k s).2.*1 ↔ x = k ∨ x ∈ s.*1.
Proof.
  intros Hok. unfold bs_insert.
  pose proof (bt_insert_ok k tt s Hok) as Hok'.
  pose proof (bt_get_insert k tt s x Hok) as Hget.
  destruct (bt_insert k tt s) as [old s']. cbn in *.
  rewrite <- !bt_contains_true by done. unfold bt_contains. rewrite Hget.
  case_bool_decide as E; [apply cmp_eq in E|rewrite cmp_eq in E]; naive_solver.
Qed.

Lemma bs_insert_ok {K} `{OrdLaws K} (k : K) (s : btree K unit) : bt_ok s → bt_ok (bs_insert k s).2.
Proof.
  intros Hok. unfold bs_insert. pose proof (bt_insert_ok k tt s Hok) as Hok'.
  by destruct (bt_insert k tt s).
Qed.

(** ** Fallible computations that may panic *)

(** [?] on a computation that is [None] when it panics or runs out of fuel *)
Notation "'let??' x := r 'in' k" :=
  (match r with Some (Ok x) => k | Some (Err e) => Some (Err e) | None => None end)
  (at level 10, x pattern, r at level 100, k at level 200) : reiny_scope.

(** [for x in l { s = f(s, x)?; }] with a body that may panic *)
Fixpoint try_fold {A S E} (f : S → A → option (result S E)) (s : S) (l : list A) :
  option (result S E) :=
  match l with
  | [] => Some (Ok s)
  | x :: l' => let?? s' := f s x in try_fold f s' l'
  end.

(** A loop keeps an invariant that its body keeps, and returns if the body does. *)
Lemma try_fold_spec {A S E} (f : S → A → option (result S E)) (I : list A → S → Prop)
    (bad : E → Prop) l s :
  (∀ pre x post s, l = pre ++ x :: post → I pre s →
     ∃ r, f s x = Some r ∧
       match r with Ok s' => I (pre ++ [x]) s' | Err e => bad e end) →
  I [] s →
  ∃ r, try_fold f s l = Some r ∧ match r with Ok s' => I l s' | Err e => bad e end.
Proof.
  intros Hstep HI.
  assert (Hgen : ∀ post pre s, l = pre ++ post → I pre s →
    ∃ r, try_fold f s post = Some r ∧ match r with Ok s' => I l s' | Err e => bad e end).
  { induction post as [|x post IH]; intros pre s0 Heq HIs; cbn [try_fold].
    - rewrite app_nil_r in Heq. subst. by exists (Ok s0).
    - destruct (Hstep pre x post s0 Heq HIs) as ([s'|e]&->&Hr); [|by exists (Err e)].
      apply (IH (pre ++ [x])); [by rewrite <- app_assoc|done]. }
  by apply (Hgen l []).
Qed.

(** The same for a loop that is known to succeed. *)
Lemma try_fold_Ok {A S E} (f : S → A → option (result S E)) (I : list A → S → Prop) l s s' :
  (∀ pre x post s s', l = pre ++ x :: post → I pre s → f s x = Some (Ok s') → I (pre ++ [x]) s') →
  I [] s → try_fold f s l = Some (Ok s') → I l s'.
Proof.
  intros Hstep HI.
  assert (Hgen : ∀ post pre s, l = pre ++ post → I pre s →
    try_fold f s post = Some (Ok s') → I l s').
  { induction post as [|x post IH]; intros pre s0 Heq HIs; cbn [try_fold].
    - rewrite app_nil_r in Heq. subst. by intros [= ->].
    - destruct (f s0 x) as [[s1|]|] eqn:Ef; [|done..].
      apply (IH (pre ++ [x])); [by rewrite <- app_assoc|by eapply Hstep]. }
  by apply (Hgen l []).
Qed.

(** A [for] loop that succeeds keeps an invariant over what it has seen. *)
Lemma for_fold_Ok {A S E} (f : S → A → result S E) (I : list A → S → Prop) l s s' :
  (∀ pre x post s s', l = pre ++ x :: post → I pre s → f s x = Ok s' → I (pre ++ [x]) s') →
  I [] s → for_fold f s l = Ok s' → I l s'.
Proof.
  intros Hstep HI.
  assert (Hgen : ∀ post pre s, l = pre ++ post → I pre s → for_fold f s post = Ok s' → I l s').
  { induction post as [|x post IH]; intros pre s0 Heq HIs; cbn [for_fold].
    - rewrite app_nil_r in Heq. subst. by intros [= ->].
    - destruct (f s0 x) as [s1|] eqn:Ef; [|done].
      apply (IH (pre ++ [x])); [by rewrite <- app_assoc|by eapply Hstep]. }
  by apply (Hgen l []).
Qed.

(** Members of two lists that are related element by element. *)
Lemma Forall2_member_l {A B} (P : A → B → Prop) l k x :
  Forall2 P l k → x ∈ l → ∃ y, y ∈ k ∧ P x y.
Proof.
  induction 1 as [|a b l k Hab _ IH]; [by intros ?%elem_of_nil|].
  intros [->|Hin]%elem_of_cons; [by exists b; split; [left|]|].
  destruct (IH Hin) as (y&?&?). exists y. split; [by right|done].
Qed.

Lemma Forall2_member_r {A B} (P : A → B → Prop) l k y :
  Forall2 P l k → y ∈ k → ∃ x, x ∈ l ∧ P x y.
Proof. intros HP%Forall2_flip Hy. by destruct (Forall2_member_l _ _ _ _ HP Hy) as (x&?&?); exists x. Qed.

(** ** Keys of maps *)

Section keys.
Context {K V : Type} `{OrdLaws K}.
Implicit Types m : btree K V.

Lemma bt_key_get k m : bt_ok m → k ∈ m.*1 ↔ is_Some (bt_get k m).
Proof. intros Hok. rewrite <- bt_contains_true by done. unfold bt_contains. destruct (bt_get k m); split; naive_solver. Qed.

Lemma bt_insert_keys k v m k' : bt_ok m → k' ∈ (bt_insert k v m).2.*1 ↔ k' = k ∨ k' ∈ m.*1.
Proof.
  intros Hok. rewrite !bt_key_get by (done || by apply bt_insert_ok). rewrite bt_get_insert by done.
  case_bool_decide as E.
  - apply cmp_eq in E as ->. naive_solver.
  - split; [by right|]. intros [->|?]; [|done]. by rewrite cmp_refl in E.
Qed.

Lemma bt_insert_old_elem k v m e : bt_ok m → e ∈ m → e.1 ≠ k → e ∈ (bt_insert k v m).2.
Proof.
  intros Hok Hin Hne. destruct e as [k' v']. apply bt_get_Some; [by apply bt_insert_ok|].
  rewrite bt_get_insert_ne by done. by apply bt_get_Some.
Qed.

Lemma bt_extend_keys_iff m l k : bt_ok m → k ∈ (bt_extend m l).*1 ↔ k ∈ m.*1 ∨ k ∈ l.*1.
Proof.
  revert m. induction l as [|[k' v'] l IH]; intros m Hok; cbn; [set_solver|].
  fold (bt_extend (bt_insert k' v' m).2 l). rewrite IH by by apply bt_insert_ok. rewrite bt_insert_keys by done. set_solver.
Qed.

Lemma bt_extend_elem m l e : e ∈ bt_extend m l → e ∈ m ∨ e ∈ l.
Proof.
  revert m. induction l as [|[k v] l IH]; intros m; cbn; [by left|]. intros [Hin|?]%IH; [|set_solver].
  apply bt_insert_elem in Hin as [->|?]; set_solver.
Qed.
End keys.

(** ** Sorting *)

(** A sort that keeps the order of elements with equal keys ([sort_by_key]) *)
Fixpoint insert_by {A K} `{Ord K} (key : A → K) (x : A) (l : list A) : list A :=
  match l with
  | [] => [x]
  | y :: l' => match cmp (key x) (key y) with Gt => y :: insert_by key x l' | _ => x :: l end
  end.
Definition sort_by_key {A K} `{Ord K} (key : A → K) (l : list A) : list A := foldr (insert_by key) [] l.

Definition le_on {A K} `{Ord K} (key : A → K) (x y : A) : Prop := cmp (key x) (key y) ≠ Gt.
Definition lt_on {A K} `{Ord K} (key : A → K) (x y : A) : Prop := cmp (key x) (key y) = Lt.

Section sorting.
Context {A K : Type} `{OrdLaws K} (key : A → K).
Implicit Types l k : list A.

Lemma cmp_not_gt (x y : K) : cmp x y ≠ Gt ↔ cmp x y = Lt ∨ x = y.
Proof. rewrite <- (cmp_eq x y). destruct (cmp x y); naive_solver. Qed.

Lemma insert_by_perm x l : insert_by key x l ≡ₚ x :: l.
Proof. induction l as [|y l IH]; [done|]. cbn. destruct (cmp _ _); [done|done|]. rewrite IH. constructor. Qed.

Lemma sort_perm l : sort_by_key key l ≡ₚ l.
Proof. induction l as [|x l IH]; [done|]. cbn. by rewrite insert_by_perm, IH. Qed.

Lemma insert_by_sorted x l : StronglySorted (le_on key) l → StronglySorted (le_on key) (insert_by key x l).
Proof.
  induction 1 as [|y l Hl IH Hy]; [repeat constructor|]. cbn. destruct (cmp (key x) (key y)) eqn:E.
  1,2: constructor; [by constructor|]; constructor; [unfold le_on; congruence|].
  1,2: eapply Forall_impl; [exact Hy|]; intros z; unfold le_on; rewrite !cmp_not_gt; intros [Hz|<-].
  - apply cmp_eq in E as ->. by left.
  - apply cmp_eq in E. by right.
  - left. by eapply cmp_trans.
  - by left.
  - constructor; [done|]. rewrite insert_by_perm. constructor; [|done]. unfold le_on.
    rewrite cmp_opp, E. done.
Qed.

Lemma sort_sorted l : StronglySorted (le_on key) (sort_by_key key l).
Proof. induction l as [|x l IH]; [constructor|]. by apply insert_by_sorted. Qed.

Lemma sorted_strict l : StronglySorted (le_on key) l → NoDup (key <$> l) → StronglySorted (lt_on key) l.
Proof.
  induction 1 as [|x l Hl IH Hx]; [constructor|]. cbn. intros [Hin Hnd]%NoDup_cons. constructor; [by apply IH|].
  rewrite Forall_forall in *. intros y Hy. specialize (Hx y Hy). unfold le_on in Hx. apply cmp_not_gt in Hx as [?|Heq]; [done|].
  exfalso. apply Hin. rewrite Heq. by apply list_elem_of_fmap_2.
Qed.

Lemma strict_unique l k : StronglySorted (lt_on key) l → StronglySorted (lt_on key) k → l ≡ₚ k → l = k.
Proof.
  apply StronglySorted_unique. intros x y Hxy Hyx. unfold lt_on in *. rewrite cmp_opp, Hxy in Hyx. done.
Qed.

(** With distinct keys, the order before sorting does not matter. *)
Lemma sort_unique l k : NoDup (key <$> l) → l ≡ₚ k → sort_by_key key l = sort_by_key key k.
Proof.
  intros Hnd Hp. apply strict_unique; [apply sorted_strict..|by rewrite !sort_perm];
    try apply sort_sorted; by rewrite sort_perm, <- ?Hp.
Qed.

Lemma sort_strict_id l : StronglySorted (lt_on key) l → sort_by_key key l = l.
Proof.
  induction 1 as [|x l Hl IH Hx]; [done|]. cbn. change (foldr (insert_by key) [] l) with (sort_by_key key l).
  rewrite IH. destruct l as [|y l]; [done|]. cbn. apply List.Forall_cons_iff in Hx as [Hxy _]. unfold lt_on in Hxy.
  by rewrite Hxy.
Qed.
End sorting.

(** All elements are keys. *)
Lemma sort_id_unique {K} `{OrdLaws K} (l k : list K) : l ≡ₚ k → sort_by_key id l = sort_by_key id k.
Proof.
  assert (AntiSymm (=) (le_on (K := K) id)).
  { intros x y. unfold le_on, id. rewrite !cmp_not_gt. intros [Hxy| ->]; [|done]. intros [Hyx| ->]; [|done].
    rewrite cmp_opp, Hxy in Hyx. done. }
  intros Hp. apply (StronglySorted_unique (le_on (K := K) id)); [apply sort_sorted..|by rewrite !sort_perm].
Qed.
