(* ===== verification/Bindings.v ===== *)
(** * Bindings: named-port contracts of a managed module
    ([crates/reiny-core/src/bindings.rs])

    The contract data and the validator of a module's resolved bindings.  The
    serde representations are not modelled, apart from the conversion of the
    receive buffer. *)

From S2P Require Import Prelude Text Btree.

Definition MODULE_MANIFEST_VERSION : Z := 3.
Definition MODULE_BINDINGS_VERSION : Z := 3.
Definition MODULE_REPORT_VERSION : Z := 3.

(** ** Contracts *)

Inductive PortKind : Type := Stream | Rpc.
Inductive QosProfile : Type := QDefault | QCommand | QSensor.
Inductive Retention : Type := Volatile | RetainLast.
Inductive Replay : Type := Live | ReplayLast.
Inductive ReceiveBuffer : Type := Fifo | Latest (depth : nat).

#[export] Instance PortKind_eq_dec : EqDecision PortKind.
Proof. solve_decision. Defined.
#[export] Instance QosProfile_eq_dec : EqDecision QosProfile.
Proof. solve_decision. Defined.
#[export] Instance Retention_eq_dec : EqDecision Retention.
Proof. solve_decision. Defined.
#[export] Instance Replay_eq_dec : EqDecision Replay.
Proof. solve_decision. Defined.
#[export] Instance ReceiveBuffer_eq_dec : EqDecision ReceiveBuffer.
Proof. solve_decision. Defined.

(** The serialized form of the buffer and the conversions both ways. *)
Inductive BufferRepr : Type := ReprFifo | ReprLatest (latest : nat).

Definition buffer_from_repr (value : BufferRepr) : ReceiveBuffer :=
  match value with ReprFifo => Fifo | ReprLatest latest => Latest latest end.

Definition buffer_into_repr (value : ReceiveBuffer) : BufferRepr :=
  match value with Fifo => ReprFifo | Latest latest => ReprLatest latest end.

Record EndpointContract : Type := mkContract {
  ec_semantics : btree str str;
  ec_type_name : str;
  ec_kind : PortKind;
  ec_response : option str;
  ec_qos : QosProfile;
  ec_retention : Retention;
  ec_replay : Replay;
  ec_buffer : ReceiveBuffer;
}.

#[export] Instance EndpointContract_eq_dec : EqDecision EndpointContract.
Proof. solve_decision. Defined.

Record PortDelegation : Type := mkDelegation { pd_inputs : list str; pd_outputs : list str }.

Record EndpointAddress : Type := mkEndpoint { ea_namespace : str; ea_port : str }.

#[export] Instance EndpointAddress_eq_dec : EqDecision EndpointAddress.
Proof. solve_decision. Defined.

(** The derived order: the fields in turn. *)
Definition address_key (a : EndpointAddress) : str * str := (ea_namespace a, ea_port a).
#[export] Instance Ord_address : Ord EndpointAddress := cmp_on address_key.
#[export] Instance OrdLaws_address : OrdLaws EndpointAddress.
Proof. apply OrdLaws_on. by intros [] [] [= -> ->]. Qed.

Record InputBinding : Type := mkInput {
  ib_contract : EndpointContract;
  ib_sources : list EndpointAddress;
}.

Record OutputBinding : Type := mkOutput { ob_contract : EndpointContract }.

Record ModuleBindings : Type := mkBindings {
  mb_version : Z;
  mb_namespace : str;
  mb_endpoint_namespace : str;
  mb_inputs : btree str InputBinding;
  mb_outputs : btree str OutputBinding;
  mb_children : btree str PortDelegation;
  mb_executables : list str;
}.

(** ** Validation *)

Record BindingError : Type := mkBindingError { be_message : str }.

Definition require (condition : bool) (message : str) : result unit BindingError :=
  if condition then Ok tt else Err (mkBindingError message).

Definition is_dots (value : str) : bool :=
  bool_decide (value = bytes_of ".") || bool_decide (value = bytes_of "..").

Definition segment (value : str) : bool :=
  negb (bool_decide (value = []))
  && negb (is_dots value)
  && negb (existsb (λ c, bool_decide (c ∈ bytes_of "/*?#$@")) (chars value))
  && negb (existsb is_whitespace (chars value)).

Definition type_name (value : str) : bool :=
  forallb (λ part, negb (bool_decide (part = []))
                   && forallb (λ byte, is_ascii_alphanumeric byte || (byte =? 95)%Z) part)
    (split_on 46 value).

Definition validate_namespace (value : str) : result unit BindingError :=
  require (forallb (λ part, segment part && negb (is_dots part)) (split_on 47 value))
    (bytes_of "invalid module namespace").

Definition validate_port_name (value : str) : result unit BindingError :=
  require (segment value) (bytes_of "invalid endpoint name").

Definition validate_semantics (semantics : btree str str) : result unit BindingError :=
  require (forallb (λ '(key, value), negb (trim_empty key) && negb (trim_empty value)) semantics)
    (bytes_of "semantic assertion keys and values must not be blank").

Definition address_validate (self : EndpointAddress) : result unit BindingError :=
  let? _ := validate_namespace (ea_namespace self) in
  validate_port_name (ea_port self).

(** [EndpointContract::validate] *)
Definition contract_validate (self : EndpointContract) (input : bool) : result unit BindingError :=
  let? _ := validate_semantics (ec_semantics self) in
  let? _ := require (type_name (ec_type_name self)) (bytes_of "invalid endpoint type") in
  let? _ := require (negb (bool_decide (ec_buffer self = Latest 0)))
              (bytes_of "latest buffer depth must be positive") in
  let? _ := require (negb input || (bool_decide (ec_qos self = QDefault)
                                    && bool_decide (ec_retention self = Volatile)))
              (bytes_of "qos and retention belong to outputs") in
  let? _ := require (input || (bool_decide (ec_replay self = Live)
                               && bool_decide (ec_buffer self = Fifo)))
              (bytes_of "replay and buffer belong to inputs") in
  match ec_kind self with
  | Stream => require (is_none (ec_response self)) (bytes_of "stream cannot declare a response")
  | Rpc =>
      let? _ := require (match ec_response self with Some r => type_name r | None => false end)
                  (bytes_of "RPC requires a valid response type") in
      require (bool_decide (ec_qos self = QDefault)
               && bool_decide (ec_retention self = Volatile)
               && bool_decide (ec_replay self = Live)
               && bool_decide (ec_buffer self = Fifo))
        (bytes_of "stream policies do not apply to RPC")
  end.

(** [str::strip_prefix] *)
Definition strip_prefix (prefix s : str) : option str :=
  if bool_decide (take (length prefix) s = prefix) then Some (drop (length prefix) s) else None.

(** [self.namespace.strip_prefix("{endpoint_namespace}/owned/")] names a child *)
Definition owned_child (self : ModuleBindings) : bool :=
  match strip_prefix (mb_endpoint_namespace self ++ bytes_of "/owned/") (mb_namespace self) with
  | Some child => negb (bool_decide (child = []))
                  && negb (existsb (λ c, (c =? 47)%Z) (chars child))
  | None => false
  end.

(** The body of the loop over the executables. *)
Definition check_executable (executables : btree str unit) (executable : str) :
  result (btree str unit) BindingError :=
  let '(fresh, executables') := bs_insert executable executables in
  let? _ := require (segment executable && negb (is_dots executable) && fresh)
              (bytes_of "invalid or duplicate executable") in
  Ok executables'.

(** What all inputs from one source endpoint must agree on. *)
Definition source_contract : Type := str * option str * bool * btree str str.

Definition contract_of (port : InputBinding) : source_contract :=
  (ec_type_name (ib_contract port), ec_response (ib_contract port),
   bool_decide (ec_kind (ib_contract port) = Rpc), ec_semantics (ib_contract port)).

(** The body of the loop over the sources of one input. *)
Definition check_source (port : InputBinding)
    (locals : btree EndpointAddress unit * btree EndpointAddress source_contract)
    (source : EndpointAddress) :
  result (btree EndpointAddress unit * btree EndpointAddress source_contract) BindingError :=
  let '(unique, addresses) := locals in
  let? _ := address_validate source in
  let '(fresh, unique') := bs_insert source unique in
  let? _ := require fresh (bytes_of "duplicate input source") in
  let '(previous, addresses') := bt_insert source (contract_of port) addresses in
  let? _ := match previous with
            | Some previous => require (bool_decide (previous = contract_of port))
                                 (bytes_of "incompatible contracts for one source endpoint")
            | None => Ok tt
            end in
  Ok (unique', addresses').

(** The body of the loop over the inputs. *)
Definition check_input (addresses : btree EndpointAddress source_contract)
    (entry : str * InputBinding) : result (btree EndpointAddress source_contract) BindingError :=
  let '(name, port) := entry in
  let? _ := validate_port_name name in
  let? _ := contract_validate (ib_contract port) true in
  let? _ := require (negb (bool_decide (ib_sources port = [])))
              (bytes_of "input requires exact sources") in
  let? _ := require (negb (bool_decide (ec_kind (ib_contract port) = Rpc))
                     || (length (ib_sources port) =? 1))
              (bytes_of "RPC input requires exactly one source") in
  let? locals := for_fold (check_source port) ([], addresses) (ib_sources port) in
  Ok locals.2.

Definition check_output (entry : str * OutputBinding) : result unit BindingError :=
  let '(name, port) := entry in
  let? _ := validate_port_name name in
  contract_validate (ob_contract port) false.

(** The endpoints a child names, inputs first. *)
Definition delegations (child : PortDelegation) : list (str * bool) :=
  ((λ port, (port, true)) <$> pd_inputs child) ++ ((λ port, (port, false)) <$> pd_outputs child).

Definition check_delegation (self : ModuleBindings) (delegated : btree (str * bool) unit)
    (endpoint : str * bool) : result (btree (str * bool) unit) BindingError :=
  let '(port, input) := endpoint in
  let? _ := require (if input : bool then bt_contains port (mb_inputs self)
                     else bt_contains port (mb_outputs self))
              (bytes_of "child delegates undefined endpoint") in
  let '(fresh, delegated') := bs_insert (port, input) delegated in
  let? _ := require fresh (bytes_of "endpoint delegated more than once") in
  Ok delegated'.

Definition check_child (self : ModuleBindings) (delegated : btree (str * bool) unit)
    (entry : str * PortDelegation) : result (btree (str * bool) unit) BindingError :=
  let '(name, child) := entry in
  let? _ := require (segment name && negb (is_dots name)) (bytes_of "invalid owned child name") in
  for_fold (check_delegation self) delegated (delegations child).

Definition validate_delegations (self : ModuleBindings) : result unit BindingError :=
  let? _ := for_fold (check_child self) [] (mb_children self) in
  Ok tt.

(** [ModuleBindings::validate] *)
Definition bindings_validate (self : ModuleBindings) : result unit BindingError :=
  let? _ := require (mb_version self =? MODULE_BINDINGS_VERSION)%Z
              (bytes_of "unsupported module bindings version") in
  let? _ := validate_namespace (mb_namespace self) in
  let? _ := validate_namespace (mb_endpoint_namespace self) in
  let? _ := require (bool_decide (mb_namespace self = mb_endpoint_namespace self)
                     || owned_child self)
              (bytes_of "endpoint namespace must be the module or its owning host") in
  let? _ := require (bool_decide (mb_namespace self = mb_endpoint_namespace self)
                     || bool_decide (length (mb_children self) = 0))
              (bytes_of "owned children cannot delegate endpoints") in
  let? _ := for_fold check_executable [] (mb_executables self) in
  let? _ := for_fold check_input [] (mb_inputs self) in
  let? _ := for_each check_output (mb_outputs self) in
  validate_delegations self.
