(* ===== verification/BindingsSpec.v ===== *)
(** * BindingsSpec: what [ModuleBindings::validate] accepts

    The contract of a module's bindings stated without the order of the checks
    and without the sets and maps of the code ([bindings_wf]), and the proof
    that the validator decides it. *)

From S2P Require Import Prelude Text Btree Bindings.

(** ** Names *)

Definition segment_wf (s : str) : Prop :=
  s ≠ [] ∧ s ≠ bytes_of "." ∧ s ≠ bytes_of ".." ∧
  ∀ c, c ∈ chars s → c ∉ bytes_of "/*?#$@" ∧ is_whitespace c = false.

(** Segments joined by slashes. *)
Definition namespace_wf (ns : str) : Prop :=
  ∃ segs, segs ≠ [] ∧ Forall (λ s, segment_wf s ∧ 47%Z ∉ s) segs ∧ ns = join_on 47 segs.

(** Identifiers joined by dots. *)
Definition type_wf (t : str) : Prop :=
  ∃ parts, parts ≠ [] ∧
    Forall (λ p, p ≠ [] ∧ Forall (λ b, is_ascii_alphanumeric b = true ∨ b = 95%Z) p) parts ∧
    t = join_on 46 parts.

Definition blank (s : str) : Prop := ∀ c, c ∈ chars s → is_whitespace c = true.

Definition address_wf (a : EndpointAddress) : Prop :=
  namespace_wf (ea_namespace a) ∧ segment_wf (ea_port a).

(** ** Contracts and bindings *)

Record contract_wf (input : bool) (c : EndpointContract) : Prop := {
  cw_semantics k v : (k, v) ∈ ec_semantics c → ¬ blank k ∧ ¬ blank v;
  cw_type : type_wf (ec_type_name c);
  cw_input : input = true →
    ec_qos c = QDefault ∧ ec_retention c = Volatile ∧ ec_buffer c ≠ Latest 0;
  cw_output : input = false → ec_replay c = Live ∧ ec_buffer c = Fifo;
  cw_stream : ec_kind c = Stream → ec_response c = None;
  cw_rpc : ec_kind c = Rpc →
    (∃ r, ec_response c = Some r ∧ type_wf r) ∧ ec_qos c = QDefault ∧
    ec_retention c = Volatile ∧ ec_replay c = Live ∧ ec_buffer c = Fifo;
}.

Record input_wf (name : str) (port : InputBinding) : Prop := {
  iw_name : segment_wf name;
  iw_contract : contract_wf true (ib_contract port);
  iw_sources : ib_sources port ≠ [];
  iw_rpc : ec_kind (ib_contract port) = Rpc → length (ib_sources port) = 1;
  iw_addresses : Forall address_wf (ib_sources port);
  iw_distinct : NoDup (ib_sources port);
}.

(** Everything the children of a module are given. *)
Definition delegated_endpoints (b : ModuleBindings) : list (str * bool) :=
  mb_children b ≫= λ entry, delegations entry.2.

(** Two inputs from one endpoint assume the same contract of it. *)
Definition sources_agree (e f : str * InputBinding) : Prop :=
  ∀ a, a ∈ ib_sources e.2 → a ∈ ib_sources f.2 → contract_of e.2 = contract_of f.2.

(** A module publishes as itself, or as the host that owns it. *)
Definition owner_wf (b : ModuleBindings) : Prop :=
  mb_namespace b = mb_endpoint_namespace b ∨
  ∃ child, mb_namespace b = mb_endpoint_namespace b ++ bytes_of "/owned/" ++ child ∧
           child ≠ [] ∧ 47%Z ∉ chars child ∧ mb_children b = [].

Record bindings_wf (b : ModuleBindings) : Prop := {
  bw_version : mb_version b = MODULE_BINDINGS_VERSION;
  bw_namespace : namespace_wf (mb_namespace b);
  bw_endpoint : namespace_wf (mb_endpoint_namespace b);
  bw_owner : owner_wf b;
  bw_executables : Forall segment_wf (mb_executables b) ∧ NoDup (mb_executables b);
  bw_inputs name port : (name, port) ∈ mb_inputs b → input_wf name port;
  bw_agree e f : e ∈ mb_inputs b → f ∈ mb_inputs b → sources_agree e f;
  bw_outputs name port : (name, port) ∈ mb_outputs b →
    segment_wf name ∧ contract_wf false (ob_contract port);
  bw_children name child : (name, child) ∈ mb_children b →
    segment_wf name ∧ (∀ p, p ∈ pd_inputs child → p ∈ (mb_inputs b).*1) ∧
    (∀ p, p ∈ pd_outputs child → p ∈ (mb_outputs b).*1);
  bw_exclusive : NoDup (delegated_endpoints b);
}.

(** ** Sequences of checks *)

Lemma require_Ok c m : require c m = Ok tt ↔ c = true.
Proof. unfold require. by destruct c. Qed.

Lemma seq_Ok {E B} (r : result unit E) (k : result B E) b :
  (let? _ := r in k) = Ok b ↔ r = Ok tt ∧ k = Ok b.
Proof. destruct r as [[]|e]; naive_solver. Qed.

Lemma seq_any_Ok {E A B} (r : result A E) (k : result B E) b :
  (let? _ := r in k) = Ok b ↔ is_ok r = true ∧ k = Ok b.
Proof. destruct r; naive_solver. Qed.

Lemma is_dots_false s : is_dots s = false ↔ s ≠ bytes_of "." ∧ s ≠ bytes_of "..".
Proof. unfold is_dots. rewrite orb_false_iff, !bool_decide_eq_false. done. Qed.

Lemma segment_true s : segment s = true ↔ segment_wf s.
Proof.
  unfold segment, segment_wf. rewrite !andb_true_iff, !negb_true_iff, bool_decide_eq_false.
  rewrite is_dots_false, !existsb_false_elem.
  setoid_rewrite bool_decide_eq_false. naive_solver.
Qed.

(** The redundant second test for dots in the callers of [segment]. *)
Lemma segment_dots s : segment s && negb (is_dots s) = segment s.
Proof. unfold segment. by destruct (negb (is_dots s)); rewrite ?andb_true_r, ?andb_false_r. Qed.

Lemma split_on_sep sep s seg : seg ∈ split_on sep s → sep ∉ seg.
Proof.
  revert seg. induction s as [|b s IH]; cbn; intros seg.
  - intros ->%list_elem_of_singleton. apply not_elem_of_nil.
  - destruct (b =? sep)%Z eqn:E.
    + intros [->|?]%elem_of_cons; [apply not_elem_of_nil|by apply IH].
    + apply Z.eqb_neq in E. pose proof (split_on_nonempty sep s) as Hne.
      destruct (split_on sep s) as [|s0 rest]; [done|].
      intros [->|Hin]%elem_of_cons; [|apply IH; by right].
      intros [?|Hs]%elem_of_cons; [congruence|]. apply (IH s0); [by left|done].
Qed.

Lemma split_on_app sep seg rest :
  sep ∉ seg → split_on sep (seg ++ sep :: rest) = seg :: split_on sep rest.
Proof.
  induction seg as [|b seg IH]; cbn; intros Hs.
  - by rewrite Z.eqb_refl.
  - apply not_elem_of_cons in Hs as [Hb Hs].
    destruct (b =? sep)%Z eqn:E; [apply Z.eqb_eq in E; congruence|]. by rewrite IH.
Qed.

Lemma split_on_none sep seg : sep ∉ seg → split_on sep seg = [seg].
Proof.
  induction seg as [|b seg IH]; cbn; intros Hs; [done|].
  apply not_elem_of_cons in Hs as [Hb Hs].
  destruct (b =? sep)%Z eqn:E; [apply Z.eqb_eq in E; congruence|]. by rewrite IH.
Qed.

Lemma split_join sep segs :
  segs ≠ [] → Forall (λ s, sep ∉ s) segs → split_on sep (join_on sep segs) = segs.
Proof.
  intros Hne Hall. induction Hall as [|s segs Hs Hall IH]; [done|].
  destruct segs as [|s' segs]; cbn [join_on]; [by apply split_on_none|].
  rewrite split_on_app by done. f_equal. by apply IH.
Qed.

(** A check of every piece accepts exactly the joins of good pieces. *)
Lemma split_forall sep (p : str → bool) (P : str → Prop) s :
  (∀ x, P x ↔ p x = true ∧ sep ∉ x) →
  forallb p (split_on sep s) = true ↔
  ∃ segs, segs ≠ [] ∧ Forall P segs ∧ s = join_on sep segs.
Proof.
  intros HP. rewrite forallb_Forall. split.
  - intros Hall. exists (split_on sep s). split_and!; [apply split_on_nonempty| |by rewrite join_split].
    rewrite Forall_forall in Hall. apply Forall_forall. intros x Hx. apply HP.
    split; [by apply Hall|by eapply split_on_sep].
  - intros (segs&Hne&Hall&->). rewrite split_join; [|done|];
      (eapply Forall_impl; [exact Hall|]; intros x Hx%HP; apply Hx).
Qed.

Lemma type_name_true t : type_name t = true ↔ type_wf t.
Proof.
  unfold type_name, type_wf. apply split_forall. intros p.
  rewrite andb_true_iff, negb_true_iff, bool_decide_eq_false, forallb_Forall.
  assert (Hb : ∀ b, is_ascii_alphanumeric b || (b =? 95)%Z = true ↔
                    is_ascii_alphanumeric b = true ∨ b = 95%Z).
  { intros b. by rewrite <- Z.eqb_eq, <- orb_true_iff. }
  setoid_rewrite Hb. split; [|by intros [[? ?] _]]. intros [Hne Hall]. split_and!; [done|done|].
  intros Hin. rewrite Forall_forall in Hall. by destruct (Hall _ Hin) as [?|?].
Qed.

Lemma validate_namespace_Ok ns : validate_namespace ns = Ok tt ↔ namespace_wf ns.
Proof.
  unfold validate_namespace, namespace_wf. rewrite require_Ok. apply split_forall.
  intros s. by rewrite segment_dots, segment_true.
Qed.

Lemma validate_port_name_Ok s : validate_port_name s = Ok tt ↔ segment_wf s.
Proof. unfold validate_port_name. by rewrite require_Ok, segment_true. Qed.

Lemma address_validate_Ok a : address_validate a = Ok tt ↔ address_wf a.
Proof.
  unfold address_validate, address_wf.
  by rewrite seq_Ok, validate_namespace_Ok, validate_port_name_Ok.
Qed.

Lemma trim_empty_false s : trim_empty s = false ↔ ¬ blank s.
Proof.
  unfold trim_empty, blank. rewrite <- not_true_iff_false, forallb_Forall, Forall_forall. done.
Qed.

Lemma validate_semantics_Ok m :
  validate_semantics m = Ok tt ↔ ∀ k v, (k, v) ∈ m → ¬ blank k ∧ ¬ blank v.
Proof.
  unfold validate_semantics. rewrite require_Ok, forallb_Forall, Forall_forall. split.
  - intros Hm k v Hin. specialize (Hm _ Hin). cbn in Hm.
    by rewrite andb_true_iff, !negb_true_iff, !trim_empty_false in Hm.
  - intros Hm [k v] Hin. rewrite andb_true_iff, !negb_true_iff, !trim_empty_false. by apply Hm.
Qed.

(** ** The validator *)

Lemma contract_validate_Ok c input :
  contract_validate c input = Ok tt ↔ contract_wf input c.
Proof.
  unfold contract_validate.
  rewrite !seq_Ok, !require_Ok, validate_semantics_Ok, type_name_true, negb_true_iff,
    bool_decide_eq_false.
  destruct c as [sem ty kind resp qos ret rep buf]; cbn.
  pose proof type_name_true as Ht.
  split.
  - intros (Hsem&Hty&Hbuf&Hin&Hout&Hkind). split; cbn; [done|done|..].
    + intros ->. cbn in Hin. breflect_in Hin. naive_solver.
    + intros ->. cbn in Hout. breflect_in Hout. naive_solver.
    + intros ->. apply require_Ok in Hkind. by destruct resp.
    + intros ->. rewrite seq_Ok, !require_Ok in Hkind. destruct Hkind as [Hr Hk].
      breflect_in Hk. destruct resp as [r|]; [|done]. naive_solver.
  - intros [Hsem Hty Hin Hout Hstream Hrpc]; cbn in *. split_and!; [done|done|..].
    + destruct input; [apply Hin; done|]. intros ->. by destruct Hout.
    + destruct input; [|done]. destruct Hin as (->&->&_); done.
    + destruct input; [done|]. by destruct Hout as [-> ->].
    + destruct kind.
      * by rewrite Hstream.
      * destruct Hrpc as ((r&->&Hr)&->&->&->&->); [done|]. cbn. by rewrite (proj2 (Ht r) Hr).
Qed.

Lemma strip_prefix_Some prefix s rest : strip_prefix prefix s = Some rest ↔ s = prefix ++ rest.
Proof.
  unfold strip_prefix. case_bool_decide as E; split; try done.
  - intros [= <-]. symmetry. rewrite <- (take_drop (length prefix) s) at 2. by rewrite E.
  - intros ->. by rewrite drop_app_length.
  - intros ->. by rewrite take_app_length in E.
Qed.

Lemma owned_child_true b :
  owned_child b = true ↔
  ∃ child, mb_namespace b = mb_endpoint_namespace b ++ bytes_of "/owned/" ++ child ∧
           child ≠ [] ∧ 47%Z ∉ chars child.
Proof.
  unfold owned_child.
  assert (Hc : ∀ child, existsb (λ c, (c =? 47)%Z) (chars child) = false ↔ 47%Z ∉ chars child).
  { intros child. rewrite existsb_false_elem. split.
    - intros Hall Hin. by apply Hall in Hin.
    - intros Hn c Hin. apply Z.eqb_neq. by intros ->. }
  destruct (strip_prefix _ _) as [child|] eqn:E.
  - apply strip_prefix_Some in E. rewrite <- app_assoc in E.
    rewrite andb_true_iff, !negb_true_iff, bool_decide_eq_false, Hc. split; [eauto|].
    intros (child'&E'&Hch). rewrite E' in E.
    apply (inj (_ ++.)), (inj (_ ++.)) in E. by subst.
  - split; [done|]. intros (child&E'&_). rewrite app_assoc in E'.
    by apply strip_prefix_Some in E'; rewrite E' in E.
Qed.

Lemma check_executable_exact before s x :
  seen id before s →
  match check_executable s x with
  | Ok s' => (segment_wf x ∧ id x ∉ id <$> before) ∧ seen id (before ++ [x]) s'
  | Err _ => ¬ (segment_wf x ∧ id x ∉ id <$> before)
  end.
Proof.
  intros Hs. unfold check_executable. apply (seen_insert id before s x) in Hs as [Hf Hs'].
  cbn [id] in *. destruct (bs_insert x s) as [fresh s']. cbn in *.
  rewrite segment_dots. unfold require. pose proof (segment_true x) as Hx.
  destruct (segment x), fresh; cbn; naive_solver.
Qed.

Lemma check_executables_Ok l :
  is_ok (for_fold check_executable [] l) = true ↔ Forall segment_wf l ∧ NoDup l.
Proof.
  rewrite (for_fold_is_ok _ _ _ _ _ check_executable_exact (seen_nil id)).
  rewrite each_after_and, each_after_NoDup, list_fmap_id.
  split; [naive_solver|]. intros [Hall Hnd]. split_and!; [done..|]. by intros x ?%elem_of_nil.
Qed.

(** ** Inputs *)

(** The map holds, for every source seen so far, the contract all its uses share. *)
Definition addressed (before : list (EndpointAddress * source_contract))
    (m : btree EndpointAddress source_contract) : Prop :=
  bt_ok m ∧ ∀ a c, bt_get a m = Some c ↔ (a, c) ∈ before.

Lemma addressed_insert before m a c :
  addressed before m →
  (∀ c', bt_get a m = Some c' → c' = c) →
  addressed (before ++ [(a, c)]) (bt_insert a c m).2.
Proof.
  intros [Hok Hm] Hold. split; [by apply bt_insert_ok|].
  intros a' c'. rewrite bt_get_insert, elem_of_app, list_elem_of_singleton by done.
  case_bool_decide as E.
  - apply cmp_eq in E as ->. split; [intros [= ->]; by right|].
    intros [Hin|[= ->]]; [|done]. by apply Hm, Hold in Hin as ->.
  - rewrite cmp_eq in E. rewrite Hm. naive_solver.
Qed.

(** The uses of sources by one input, and by many. *)
Definition uses (entry : str * InputBinding) : list (EndpointAddress * source_contract) :=
  (λ a, (a, contract_of entry.2)) <$> ib_sources entry.2.

Definition check_source_good (uses_before : list (EndpointAddress * source_contract))
    (port : InputBinding) (before : list EndpointAddress) (a : EndpointAddress) : Prop :=
  address_wf a ∧ (∀ c, (a, c) ∈ uses_before → c = contract_of port) ∧ id a ∉ id <$> before.

Lemma check_source_exact uses_before port before locals a :
  seen id before locals.1 ∧
  addressed (uses_before ++ ((λ a, (a, contract_of port)) <$> before)) locals.2 →
  match check_source port locals a with
  | Ok locals' =>
      check_source_good uses_before port before a ∧
      seen id (before ++ [a]) locals'.1 ∧
      addressed (uses_before ++ ((λ a, (a, contract_of port)) <$> before ++ [a])) locals'.2
  | Err _ => ¬ check_source_good uses_before port before a
  end.
Proof.
  destruct locals as [unique addrs]; cbn [fst snd]. intros [Hs Ha].
  apply (seen_insert id before unique a) in Hs as [Hf Hs']. cbn [id] in Hf, Hs'.
  unfold check_source, check_source_good. cbn [id].
  pose proof (address_validate_Ok a) as Hv. destruct (address_validate a) as [[]|e]; [|naive_solver].
  destruct (bs_insert a unique) as [fresh unique']. cbn in Hf, Hs'.
  destruct fresh; [|cbn; naive_solver]. cbn.
  assert (Hwf : address_wf a) by by apply Hv.
  assert (Hnew : a ∉ id <$> before) by by apply Hf.
  pose proof (bt_insert_old a (contract_of port) addrs) as Hold.
  pose proof (addressed_insert _ addrs a (contract_of port) Ha) as Hins.
  destruct (bt_insert a (contract_of port) addrs) as [previous addrs']. cbn in Hold, Hins.
  subst previous. destruct Ha as [_ Ha].
  assert (Hfresh : ∀ c, (a, c) ∉ (λ a, (a, contract_of port)) <$> before).
  { intros c (a'&[= <- _]&Hin)%list_elem_of_fmap. apply Hf; [done|].
    by apply (list_elem_of_fmap_2 id) in Hin. }
  assert (Hget : ∀ c, bt_get a addrs = Some c ↔ (a, c) ∈ uses_before).
  { intros c. rewrite Ha, elem_of_app. naive_solver. }
  rewrite fmap_app, app_assoc. cbn [fmap list_fmap].
  destruct (bt_get a addrs) as [c|] eqn:E.
  - unfold require. case_bool_decide as Hc; cbn.
    + split_and!; [done| |done|done|apply Hins; congruence].
      intros c' Hc'%Hget. congruence.
    + intros (_&Hall&_). apply Hc, Hall, Hget. done.
  - cbn. split_and!; [done| |done|done|apply Hins; done].
    intros c' Hc'%Hget. congruence.
Qed.

Lemma check_sources_exact uses_before port m :
  addressed uses_before m →
  match for_fold (check_source port) ([], m) (ib_sources port) with
  | Ok locals =>
      (Forall address_wf (ib_sources port) ∧
       Forall (λ a, ∀ c, (a, c) ∈ uses_before → c = contract_of port) (ib_sources port) ∧
       NoDup (ib_sources port)) ∧
      addressed (uses_before ++ ((λ a, (a, contract_of port)) <$> ib_sources port)) locals.2
  | Err _ =>
      ¬ (Forall address_wf (ib_sources port) ∧
         Forall (λ a, ∀ c, (a, c) ∈ uses_before → c = contract_of port) (ib_sources port) ∧
         NoDup (ib_sources port))
  end.
Proof.
  intros Hm.
  assert (Hgood : each_after (check_source_good uses_before port) [] (ib_sources port) ↔
    Forall address_wf (ib_sources port) ∧
    Forall (λ a, ∀ c, (a, c) ∈ uses_before → c = contract_of port) (ib_sources port) ∧
    NoDup (ib_sources port)).
  { unfold check_source_good. rewrite !each_after_and, each_after_NoDup, list_fmap_id.
    split; [naive_solver|]. intros (?&?&?). split_and!; [done..|]. by intros x ?%elem_of_nil. }
  pose proof (for_fold_exact (check_source port) _ _ (check_source_exact uses_before port)
                (ib_sources port) [] ([], m)) as Hl.
  cbn [fst snd fmap list_fmap] in Hl. rewrite app_nil_r in Hl.
  specialize (Hl (conj (seen_nil id) Hm)).
  destruct (for_fold _ _ _); naive_solver.
Qed.

Definition check_input_good (before : list (str * InputBinding)) (e : str * InputBinding) : Prop :=
  input_wf e.1 e.2 ∧ ∀ f, f ∈ before → sources_agree f e.

Lemma uses_agree before (e : str * InputBinding) :
  Forall (λ a, ∀ c, (a, c) ∈ before ≫= uses → c = contract_of e.2) (ib_sources e.2) ↔
  ∀ f, f ∈ before → sources_agree f e.
Proof.
  rewrite Forall_forall. setoid_rewrite list_elem_of_bind. unfold uses, sources_agree. split.
  - intros Hall f Hf a Ha Hae. symmetry. symmetry. eapply Hall; [done|]. exists f. split; [|done].
    by apply (list_elem_of_fmap_2 (λ a, (a, contract_of f.2))).
  - intros Hall a Ha c (f&(a'&[= -> ->]&Hin)%list_elem_of_fmap&Hf). by eapply Hall.
Qed.

Lemma check_input_exact before m e :
  addressed (before ≫= uses) m →
  match check_input m e with
  | Ok m' => check_input_good before e ∧ addressed ((before ++ [e]) ≫= uses) m'
  | Err _ => ¬ check_input_good before e
  end.
Proof.
  intros Hm. destruct e as [name port]. unfold check_input, check_input_good. cbn [fst snd].
  pose proof (check_sources_exact _ port m Hm) as Hs.
  pose proof (uses_agree before (name, port)) as Hu. cbn [fst snd] in Hu.
  pose proof (validate_port_name_Ok name) as Hn.
  destruct (validate_port_name name) as [[]|]; [|intros [[] ?]; naive_solver].
  pose proof (contract_validate_Ok (ib_contract port) true) as Hc.
  destruct (contract_validate _ _) as [[]|]; [|intros [[] ?]; naive_solver].
  unfold require. case_bool_decide as Hne; cbn [negb]; [by intros [[] ?]|].
  destruct (negb _ || _) eqn:Hrpc.
  2: { intros [[] ?]. breflect_in Hrpc. naive_solver. }
  assert (Hlen : ec_kind (ib_contract port) = Rpc → length (ib_sources port) = 1).
  { intros Hk. rewrite Hk in Hrpc. by apply Nat.eqb_eq in Hrpc. }
  destruct (for_fold _ _ _) as [locals|].
  - destruct Hs as [(Ha&Huse&Hnd) Hm']. split.
    + split; [|by apply Hu]. by split; [apply Hn|apply Hc|..].
    + rewrite bind_app. cbn. by rewrite app_nil_r.
  - intros [[] Hag]. apply Hs. split_and!; [done|by apply Hu|done].
Qed.

#[local] Instance sources_agree_reflexive : Reflexive sources_agree.
Proof. by intros e a _ _. Qed.
#[local] Instance sources_agree_symmetric : Symmetric sources_agree.
Proof. intros e f Hef a Ha Hb. symmetry. by apply (Hef a). Qed.

Lemma check_inputs_Ok l :
  is_ok (for_fold check_input [] l) = true ↔
  (∀ name port, (name, port) ∈ l → input_wf name port) ∧
  (∀ e f, e ∈ l → f ∈ l → sources_agree e f).
Proof.
  rewrite (for_fold_is_ok _ _ _ _ _ check_input_exact).
  2: { split; [done|]. intros a c. split; [done|by intros ?%elem_of_nil]. }
  unfold check_input_good.
  rewrite each_after_and, each_after_pairwise, Forall_forall by apply _. split.
  - intros [Hwf Hag]. split; [intros name port; apply Hwf|apply Hag].
  - intros [Hwf Hag]. split; [intros []; apply Hwf|apply Hag].
Qed.

(** ** Delegation *)

Definition endpoint_defined (b : ModuleBindings) (endpoint : str * bool) : Prop :=
  if endpoint.2 then endpoint.1 ∈ (mb_inputs b).*1 else endpoint.1 ∈ (mb_outputs b).*1.

Section delegation.
Context (b : ModuleBindings).
Hypothesis Hinputs : bt_ok (mb_inputs b).
Hypothesis Houtputs : bt_ok (mb_outputs b).

Lemma check_delegation_exact before s x :
  seen id before s →
  match check_delegation b s x with
  | Ok s' => (endpoint_defined b x ∧ id x ∉ id <$> before) ∧ seen id (before ++ [x]) s'
  | Err _ => ¬ (endpoint_defined b x ∧ id x ∉ id <$> before)
  end.
Proof.
  intros Hs. destruct x as [port input]. unfold check_delegation, endpoint_defined. cbn [fst snd].
  apply (seen_insert id before s (port, input)) in Hs as [Hf Hs']. cbn [id] in *.
  pose proof (bt_contains_true port (mb_inputs b) Hinputs) as Hi.
  pose proof (bt_contains_true port (mb_outputs b) Houtputs) as Ho.
  unfold require.
  destruct (bs_insert (port, input) s) as [fresh s']. cbn in Hf, Hs'.
  destruct input; [destruct (bt_contains port (mb_inputs b))
                  |destruct (bt_contains port (mb_outputs b))];
    destruct fresh; cbn; naive_solver.
Qed.

Definition check_child_good (before : list (str * PortDelegation)) (e : str * PortDelegation) : Prop :=
  (segment_wf e.1 ∧ Forall (endpoint_defined b) (delegations e.2)) ∧
  NoDup (delegations e.2) ∧
  ∀ x, x ∈ before ≫= (λ f, delegations f.2) → x ∉ delegations e.2.

Lemma check_child_exact before s e :
  seen id (before ≫= λ f, delegations f.2) s →
  match check_child b s e with
  | Ok s' => check_child_good before e ∧ seen id ((before ++ [e]) ≫= λ f, delegations f.2) s'
  | Err _ => ¬ check_child_good before e
  end.
Proof.
  intros Hs. destruct e as [name child]. unfold check_child, check_child_good, require.
  cbn [fst snd]. rewrite segment_dots. pose proof (segment_true name) as Hn.
  destruct (segment name); [|naive_solver].
  pose proof (for_fold_exact _ _ _ check_delegation_exact (delegations child) _ _ Hs) as Hl.
  assert (Hgood : each_after (λ b' x, endpoint_defined b x ∧ id x ∉ id <$> b')
      (before ≫= λ f, delegations f.2) (delegations child) ↔
    Forall (endpoint_defined b) (delegations child) ∧ NoDup (delegations child) ∧
    ∀ x, x ∈ before ≫= (λ f, delegations f.2) → x ∉ delegations child).
  { by rewrite each_after_and, each_after_NoDup, !list_fmap_id. }
  rewrite bind_app. cbn. rewrite app_nil_r.
  destruct (for_fold _ _ _); naive_solver.
Qed.

Lemma check_children_Ok l :
  is_ok (for_fold (check_child b) [] l) = true ↔
  Forall (λ e, segment_wf e.1 ∧ Forall (endpoint_defined b) (delegations e.2)) l ∧
  NoDup (l ≫= λ e, delegations e.2).
Proof.
  rewrite (for_fold_is_ok _ _ _ _ _ check_child_exact) by apply seen_nil.
  unfold check_child_good. rewrite each_after_and, each_after_NoDup_bind. cbn.
  split; [naive_solver|]. intros [? ?]. split_and!; [done..|]. by intros x ?%elem_of_nil.
Qed.

Lemma delegations_defined child :
  Forall (endpoint_defined b) (delegations child) ↔
  (∀ p, p ∈ pd_inputs child → p ∈ (mb_inputs b).*1) ∧
  (∀ p, p ∈ pd_outputs child → p ∈ (mb_outputs b).*1).
Proof.
  unfold delegations. rewrite Forall_app, !Forall_fmap, !Forall_forall. done.
Qed.
End delegation.

(** The validator decides the contract. *)
Lemma bindings_validate_Ok b :
  bt_ok (mb_inputs b) → bt_ok (mb_outputs b) →
  bindings_validate b = Ok tt ↔ bindings_wf b.
Proof.
  intros Hi Ho. unfold bindings_validate, validate_delegations.
  rewrite !seq_Ok, !require_Ok, !validate_namespace_Ok, Z.eqb_eq.
  rewrite !seq_any_Ok, for_each_is_ok.
  rewrite check_executables_Ok, check_inputs_Ok, (check_children_Ok b Hi Ho).
  rewrite !orb_true_iff, !bool_decide_eq_true, owned_child_true.
  setoid_rewrite (delegations_defined b). rewrite !Forall_forall.
  assert (Hout : (∀ x, x ∈ mb_outputs b → check_output x = Ok tt) ↔
    ∀ name port, (name, port) ∈ mb_outputs b →
      segment_wf name ∧ contract_wf false (ob_contract port)).
  { assert (Hx : ∀ name port, check_output (name, port) = Ok tt ↔
      segment_wf name ∧ contract_wf false (ob_contract port)).
    { intros. cbn. by rewrite seq_Ok, validate_port_name_Ok, contract_validate_Ok. }
    split; [intros H name port Hin; by apply Hx, H|intros H [name port] Hin; by apply Hx, H]. }
  rewrite Hout. split.
  - intros (Hv&Hns&Hens&Hown&Hch&Hexe&[Hin Hag]&Ho'&Hd&_). split; try done.
    + unfold owner_wf. destruct Hown as [?|(c&?&?&?)]; [by left|].
      destruct Hch as [?|?%nil_length_inv]; [by left|right; eauto].
    + by rewrite Forall_forall.
    + intros name child Hc. by apply (proj1 Hd) in Hc.
    + apply Hd.
  - intros [Hv Hns Hens Hown Hexe Hin Hag Ho' Hch Hex].
    rewrite Forall_forall in Hexe. split_and!; try done.
    + destruct Hown as [?|(c&?&?&?&?)]; [by left|right; eauto].
    + destruct Hown as [?|(c&?&?&?&->)]; [by left|by right].
    + apply Hexe.
    + apply Hexe.
    + intros [name child] Hc. by apply Hch in Hc.
Qed.
