(* ===== verification/Report.v ===== *)
(** * Report: compiled module reports and closed graphs
    ([crates/reiny-core/src/bindings.rs], [bindings/report.rs])

    The ports a module registered, the comparison with its bindings
    ([validate_report]) and the check of the edges between modules
    ([validate_graph]).  An [option] around a result is a panic: the code
    indexes maps by name. *)

From S2P Require Import Prelude Text Btree Core Bindings.

(** ** Reports *)

Inductive PortEndpoint : Type :=
  | EndpointInput (sources : list EndpointAddress)
  | EndpointOutput (address : EndpointAddress).

#[export] Instance PortEndpoint_eq_dec : EqDecision PortEndpoint.
Proof. solve_decision. Defined.

Record ResponseReport : Type := mkResponseReport { rr_type_name : str; rr_schema : Z }.

Record PortReport : Type := mkPortReport {
  pr_endpoint : PortEndpoint;
  pr_type_name : str;
  pr_schema : Z;
  pr_contract : EndpointContract;
  pr_response : option ResponseReport;
}.

Record ModuleReport : Type := mkModuleReport {
  mr_version : Z;
  mr_fingerprint_version : Z;
  mr_namespace : str;
  mr_endpoint_namespace : str;
  mr_inputs : btree str PortReport;
  mr_outputs : btree str PortReport;
}.

#[export] Instance ResponseReport_eq_dec : EqDecision ResponseReport.
Proof. solve_decision. Defined.
#[export] Instance PortReport_eq_dec : EqDecision PortReport.
Proof. solve_decision. Defined.
#[export] Instance ModuleReport_eq_dec : EqDecision ModuleReport.
Proof. solve_decision. Defined.

Record ReportEntry : Type := mkEntry { re_bindings : ModuleBindings; re_report : ModuleReport }.

(** ** Errors *)

Inductive ReportErrorCode : Type :=
  | EmptyGraph | InvalidBindings | UnsupportedGraphMember | DuplicateNamespace
  | ReportVersion | FingerprintVersion | CodeNamespace | CodeEndpointNamespace
  | PortSet | CodeEndpoint | CodeContract | CodeType | CodeResponse
  | MissingSourceModule | MissingSourcePort | CodeSchema | CodePolicy | CodeSemantics.

Inductive ReportPortSide : Type := SideInput | SideOutput.

Record ReportError : Type := mkReportError {
  er_code : ReportErrorCode;
  er_module : option str;
  er_side : option ReportPortSide;
  er_port : option str;
  er_source : option EndpointAddress;
  er_detail : str;
}.

(** [ReportError::new] and [ReportError::at] *)
Definition error_new (code : ReportErrorCode) (module : option str) (detail : str) : ReportError :=
  mkReportError code module None None None detail.

Definition error_at (e : ReportError) (side : ReportPortSide) (port : str) : ReportError :=
  mkReportError (er_code e) (er_module e) (Some side) (Some port) (er_source e) (er_detail e).

(** The errors of one edge name its source too. *)
Definition error_from (e : ReportError) (address : EndpointAddress) : ReportError :=
  mkReportError (er_code e) (er_module e) (er_side e) (er_port e) (Some address) (er_detail e).

(** A check that may panic. *)
Definition check : Type := option (result unit ReportError).

(** [f()?; k] *)
Definition then_check (c k : check) : check :=
  match c with Some (Ok _) => k | _ => c end.

(** [for x in l { f(x)?; }] with a body that may panic *)
Fixpoint for_check {A} (f : A → check) (l : list A) : check :=
  match l with [] => Some (Ok tt) | x :: l' => then_check (f x) (for_check f l') end.

(** ** One report *)

(** A declared port: its contract, and the sources when it is an input. *)
Definition declared_port : Type := str * EndpointContract * option (list EndpointAddress).

Definition declared (b : ModuleBindings) (side : ReportPortSide) : list declared_port :=
  match side with
  | SideInput => (λ '(name, binding), (name, ib_contract binding, Some (ib_sources binding)))
                   <$> mb_inputs b
  | SideOutput => (λ '(name, binding), (name, ob_contract binding, None)) <$> mb_outputs b
  end.

Definition is_declared (b : ModuleBindings) (side : ReportPortSide) (name : str) : bool :=
  match side with
  | SideInput => bt_contains name (mb_inputs b)
  | SideOutput => bt_contains name (mb_outputs b)
  end.

Definition actual_ports (r : ModuleReport) (side : ReportPortSide) : btree str PortReport :=
  match side with SideInput => mr_inputs r | SideOutput => mr_outputs r end.

Definition endpoint_matches (b : ModuleBindings) (name : str)
    (sources : option (list EndpointAddress)) (endpoint : PortEndpoint) : bool :=
  match endpoint, sources with
  | EndpointInput actual, Some expected => bool_decide (actual = expected)
  | EndpointOutput address, None =>
      bool_decide (ea_namespace address = mb_endpoint_namespace b)
      && bool_decide (ea_port address = name)
  | EndpointInput _, None | EndpointOutput _, Some _ => false
  end.

Definition response_matches (contract : EndpointContract) (response : option ResponseReport) : bool :=
  match ec_kind contract, ec_response contract, response with
  | Stream, None, None => true
  | Rpc, Some expected, Some response => bool_decide (expected = rr_type_name response)
  | _, _, _ => false
  end.

(** The body of the loop over the declared ports. *)
Definition check_port (b : ModuleBindings) (side : ReportPortSide) (actual : btree str PortReport)
    (d : declared_port) : check :=
  let '(name, contract, sources) := d in
  let error code detail := error_at (error_new code (Some (mb_namespace b)) detail) side name in
  match bt_get name actual with
  | None => None
  | Some port => Some (
      if negb (endpoint_matches b name sources (pr_endpoint port)) then
        Err (error CodeEndpoint (bytes_of "compiled endpoint differs from its binding"))
      else if negb (bool_decide (pr_contract port = contract)) then
        Err (error CodeContract (bytes_of "effective contract differs from its declaration"))
      else if negb (bool_decide (pr_type_name port = ec_type_name contract)) then
        Err (error CodeType (bytes_of "compiled message or request name differs"))
      else if response_matches contract (pr_response port) then Ok tt
      else Err (error CodeResponse (bytes_of "compiled response shape or name differs")))
  end.

Definition validate_ports (entry : ReportEntry) (side : ReportPortSide) : check :=
  let b := re_bindings entry in
  let actual := actual_ports (re_report entry) side in
  let missing := (λ d : declared_port, d.1.1) <$>
                 find (λ d : declared_port, negb (bt_contains d.1.1 actual)) (declared b side) in
  let extra := find (λ name, negb (is_declared b side name)) actual.*1 in
  match option_min missing extra with
  | Some name =>
      Some (Err (error_at (error_new PortSet (Some (mb_namespace b))
                             (bytes_of "declared and compiled port sets differ")) side name))
  | None => for_check (check_port b side actual) (declared b side)
  end.

Definition validate_report (bindings : ModuleBindings) (report : ModuleReport) : check :=
  let error code detail := error_new code (Some (mb_namespace bindings)) detail in
  match bindings_validate bindings with
  | Err failure => Some (Err (error InvalidBindings (be_message failure)))
  | Ok _ =>
      then_check
        (for_check (λ '(valid, code, detail),
                      Some (if valid : bool then Ok tt else Err (error code detail)))
          [ ((mr_version report =? MODULE_REPORT_VERSION)%Z, ReportVersion,
             bytes_of "unsupported report version");
            ((mr_fingerprint_version report =? SCHEMA_FINGERPRINT_VERSION)%Z, FingerprintVersion,
             bytes_of "unsupported fingerprint version");
            (bool_decide (mr_namespace report = mb_namespace bindings), CodeNamespace,
             bytes_of "report namespace differs from bindings");
            (bool_decide (mr_endpoint_namespace report = mb_endpoint_namespace bindings),
             CodeEndpointNamespace, bytes_of "report endpoint namespace differs from bindings") ])
        (then_check (validate_ports (mkEntry bindings report) SideInput)
           (validate_ports (mkEntry bindings report) SideOutput))
  end.

(** ** A closed graph *)

(** The body of the loop that collects the modules. *)
Definition add_module (modules : btree str ModuleReport) (entry : ReportEntry) :
  result (btree str ModuleReport) ReportError :=
  let b := re_bindings entry in
  let error code detail := error_new code (Some (mb_namespace b)) detail in
  if negb (bool_decide (mb_namespace b = mb_endpoint_namespace b)) then
    Err (error UnsupportedGraphMember
           (bytes_of "aggregate an owned child's report into its parent"))
  else
    let '(old, modules') := bt_insert (mb_namespace b) (re_report entry) modules in
    if is_none old then Ok modules'
    else Err (error DuplicateNamespace (bytes_of "module namespace is repeated")).

(** The comparison of the two ends of an edge. *)
Definition check_ends (error : ReportErrorCode → str → ReportError) (input output : PortReport) :
  result unit ReportError :=
  if negb (bool_decide (pr_type_name input = pr_type_name output)) then
    Err (error CodeType (bytes_of "source message or request name differs"))
  else if negb (pr_schema input =? pr_schema output)%Z then
    Err (error CodeSchema (bytes_of "source message or request fingerprint differs"))
  else if negb (bool_decide (ec_kind (pr_contract input) = ec_kind (pr_contract output))) then
    Err (error CodePolicy (bytes_of "source endpoint kind differs"))
  else if negb (bool_decide (ec_semantics (pr_contract input)
                             = ec_semantics (pr_contract output))) then
    Err (error CodeSemantics (bytes_of "source semantic assertions differ"))
  else
    let? _ := match pr_response input, pr_response output with
              | None, None => Ok tt
              | Some expected, Some actual =>
                  if negb (bool_decide (rr_type_name expected = rr_type_name actual)) then
                    Err (error CodeResponse (bytes_of "source response name differs"))
                  else if negb (rr_schema expected =? rr_schema actual)%Z then
                    Err (error CodeSchema (bytes_of "source response fingerprint differs"))
                  else Ok tt
              | None, Some _ | Some _, None =>
                  Err (error CodeResponse (bytes_of "source response shape differs"))
              end in
    match ec_replay (pr_contract input), ec_retention (pr_contract output) with
    | ReplayLast, Volatile =>
        Err (error CodePolicy (bytes_of "source does not retain replayable samples"))
    | Live, (Volatile | RetainLast) | ReplayLast, RetainLast => Ok tt
    end.

(** The body of the loop over the sources of an input. *)
Definition check_edge (modules : btree str ModuleReport) (module name : str) (input : PortReport)
    (address : EndpointAddress) : result unit ReportError :=
  let error code detail :=
    error_from (error_at (error_new code (Some module) detail) SideInput name) address in
  let? source := ok_or (bt_get (ea_namespace address) modules)
                   (error MissingSourceModule (bytes_of "source module is absent")) in
  let? output := ok_or (bt_get (ea_port address) (mr_outputs source))
                   (error MissingSourcePort (bytes_of "source output is absent")) in
  check_ends error input output.

(** The body of the loop over the inputs of an entry. *)
Definition check_edges (modules : btree str ModuleReport) (entry : ReportEntry)
    (e : str * InputBinding) : check :=
  let '(name, binding) := e in
  match bt_get name (mr_inputs (re_report entry)) with
  | None => None
  | Some input =>
      Some (for_each (check_edge modules (mb_namespace (re_bindings entry)) name input)
              (ib_sources binding))
  end.

Definition validate_graph (entries : list ReportEntry) : check :=
  if bool_decide (length entries = 0) then
    Some (Err (error_new EmptyGraph None (bytes_of "a closed graph requires a module")))
  else
    then_check (for_check (λ entry, validate_report (re_bindings entry) (re_report entry)) entries)
      match for_fold add_module [] entries with
      | Err e => Some (Err e)
      | Ok modules =>
          for_check (λ entry, for_check (check_edges modules entry)
                                (mb_inputs (re_bindings entry))) entries
      end.
