(* ===== verification/ReportSpec.v ===== *)
(** * ReportSpec: what [validate_report] and [validate_graph] accept

    A report is accepted when the bindings are valid and the compiled ports are
    the declared ones ([report_wf]); a graph, when every member's report is and
    every input resolves to a compatible output of one member ([graph_wf]).
    [validate_graph] never panics on typed entries, accepts exactly the closed
    compatible graphs, and otherwise reports the first edge that fails, in the
    order entry, input name, declared source. *)

From S2P Require Import Prelude Text Btree Core Bindings BindingsSpec Report.

(** ** Specifications *)

(** The maps of an entry are maps. *)
Record entry_typed (e : ReportEntry) : Prop := {
  et_inputs : bt_ok (mb_inputs (re_bindings e));
  et_outputs : bt_ok (mb_outputs (re_bindings e));
  et_actual_inputs : bt_ok (mr_inputs (re_report e));
  et_actual_outputs : bt_ok (mr_outputs (re_report e));
}.

(** The response half of a port: none for a stream, the declared type for RPC. *)
Definition response_wf (c : EndpointContract) (r : option ResponseReport) : Prop :=
  match ec_kind c with
  | Stream => ec_response c = None ∧ r = None
  | Rpc => ∃ x, r = Some x ∧ ec_response c = Some (rr_type_name x)
  end.

Definition port_wf (c : EndpointContract) (endpoint : PortEndpoint) (p : PortReport) : Prop :=
  pr_endpoint p = endpoint ∧ pr_contract p = c ∧ pr_type_name p = ec_type_name c ∧
  response_wf c (pr_response p).

Record report_wf (b : ModuleBindings) (r : ModuleReport) : Prop := {
  rw_bindings : bindings_wf b;
  rw_version : mr_version r = MODULE_REPORT_VERSION;
  rw_fingerprint : mr_fingerprint_version r = SCHEMA_FINGERPRINT_VERSION;
  rw_namespace : mr_namespace r = mb_namespace b;
  rw_endpoint : mr_endpoint_namespace r = mb_endpoint_namespace b;
  rw_input_names name : name ∈ (mr_inputs r).*1 ↔ name ∈ (mb_inputs b).*1;
  rw_output_names name : name ∈ (mr_outputs r).*1 ↔ name ∈ (mb_outputs b).*1;
  rw_inputs name i p : (name, i) ∈ mb_inputs b → (name, p) ∈ mr_inputs r →
    port_wf (ib_contract i) (EndpointInput (ib_sources i)) p;
  rw_outputs name o p : (name, o) ∈ mb_outputs b → (name, p) ∈ mr_outputs r →
    port_wf (ob_contract o) (EndpointOutput (mkEndpoint (mb_endpoint_namespace b) name)) p;
}.

(** The two ends of an edge agree. *)
Record compatible (input output : PortReport) : Prop := {
  cp_type : pr_type_name input = pr_type_name output;
  cp_schema : pr_schema input = pr_schema output;
  cp_kind : ec_kind (pr_contract input) = ec_kind (pr_contract output);
  cp_semantics : ec_semantics (pr_contract input) = ec_semantics (pr_contract output);
  cp_response : pr_response input = pr_response output;
  cp_replay : ec_replay (pr_contract input) = ReplayLast →
              ec_retention (pr_contract output) = RetainLast;
}.

(** An input port of a graph and one of its sources. *)
Definition edge_wf (entries : list ReportEntry) (input : PortReport) (a : EndpointAddress) : Prop :=
  ∃ member output, member ∈ entries ∧ mb_namespace (re_bindings member) = ea_namespace a ∧
    (ea_port a, output) ∈ mr_outputs (re_report member) ∧ compatible input output.

Record graph_wf (entries : list ReportEntry) : Prop := {
  gw_nonempty : entries ≠ [];
  gw_reports e : e ∈ entries → report_wf (re_bindings e) (re_report e);
  gw_toplevel e : e ∈ entries →
    mb_namespace (re_bindings e) = mb_endpoint_namespace (re_bindings e);
  gw_distinct : NoDup ((λ e, mb_namespace (re_bindings e)) <$> entries);
  gw_edges e name binding input a :
    e ∈ entries → (name, binding) ∈ mb_inputs (re_bindings e) →
    (name, input) ∈ mr_inputs (re_report e) → a ∈ ib_sources binding →
    edge_wf entries input a;
}.

(** ** Checks in sequence *)

Lemma then_check_Ok c k : then_check c k = Some (Ok tt) ↔ c = Some (Ok tt) ∧ k = Some (Ok tt).
Proof. destruct c as [[[]|]|]; naive_solver. Qed.

Lemma then_check_total c k : c ≠ None → (c = Some (Ok tt) → k ≠ None) → then_check c k ≠ None.
Proof. destruct c as [[[]|]|]; naive_solver. Qed.

Lemma for_check_Ok {A} (f : A → check) l :
  for_check f l = Some (Ok tt) ↔ Forall (λ x, f x = Some (Ok tt)) l.
Proof.
  induction l as [|x l IH]; cbn; [by split; [constructor|]|].
  by rewrite then_check_Ok, IH, Forall_cons.
Qed.

Lemma for_check_total {A} (f : A → check) l : (∀ x, x ∈ l → f x ≠ None) → for_check f l ≠ None.
Proof.
  induction l as [|x l IH]; cbn; [done|]. intros Hall.
  apply then_check_total; [apply Hall; by left|]. intros _. apply IH. intros y Hy.
  apply Hall. by right.
Qed.

(** The first failure of a loop is that of an element all before which pass. *)
Lemma for_check_Err {A} (f : A → check) l e :
  for_check f l = Some (Err e) ↔
  ∃ l1 x l2, l = l1 ++ x :: l2 ∧ Forall (λ y, f y = Some (Ok tt)) l1 ∧ f x = Some (Err e).
Proof.
  induction l as [|x l IH]; cbn; [split; [done|]; intros ([]&?&?&[=]&_)|].
  destruct (f x) as [[[]|e']|] eqn:Ex; cbn.
  - rewrite IH. split.
    + intros (l1&y&l2&->&Hall&Hy). exists (x :: l1), y, l2. by repeat constructor.
    + intros ([|z l1]&y&l2&[= -> ->]&Hall&Hy); [congruence|]. inversion Hall. eauto 10.
  - split; [intros [= ->]; by exists [], x, l|].
    intros ([|z l1]&y&l2&[= -> ->]&Hall&Hy); [congruence|]. inversion Hall; congruence.
  - split; [done|].
    intros ([|z l1]&y&l2&[= -> ->]&Hall&Hy); [congruence|]. inversion Hall; congruence.
Qed.

(** ** Ports *)

Lemma response_matches_true c r : response_matches c r = true ↔ response_wf c r.
Proof.
  unfold response_matches, response_wf.
  destruct (ec_kind c), (ec_response c), r as [x|]; rewrite ?bool_decide_eq_true; naive_solver.
Qed.

Definition expected_endpoint (b : ModuleBindings) (name : str)
    (sources : option (list EndpointAddress)) : PortEndpoint :=
  match sources with
  | Some sources => EndpointInput sources
  | None => EndpointOutput (mkEndpoint (mb_endpoint_namespace b) name)
  end.

Lemma endpoint_matches_true b name sources endpoint :
  endpoint_matches b name sources endpoint = true ↔ endpoint = expected_endpoint b name sources.
Proof.
  unfold endpoint_matches, expected_endpoint.
  destruct endpoint as [actual|[ns port]], sources as [expected|];
    rewrite ?andb_true_iff, ?bool_decide_eq_true; cbn; naive_solver.
Qed.

Lemma check_port_Ok b side actual name c sources :
  check_port b side actual (name, c, sources) = Some (Ok tt) ↔
  ∃ p, bt_get name actual = Some p ∧ port_wf c (expected_endpoint b name sources) p.
Proof.
  unfold check_port, port_wf.
  destruct (bt_get name actual) as [p|]; [|naive_solver].
  pose proof (endpoint_matches_true b name sources (pr_endpoint p)) as He.
  pose proof (response_matches_true c (pr_response p)) as Hr.
  destruct (endpoint_matches _ _ _ _); cbn; [|naive_solver].
  case_bool_decide; cbn; [|naive_solver]. case_bool_decide; cbn; [|naive_solver].
  destruct (response_matches _ _); naive_solver.
Qed.

Definition declared_names (b : ModuleBindings) (side : ReportPortSide) : list str :=
  (declared b side).*1.*1.

Lemma declared_names_inputs b : declared_names b SideInput = (mb_inputs b).*1.
Proof. unfold declared_names. cbn. induction (mb_inputs b) as [|[] l IH]; cbn; [done|]. by rewrite IH. Qed.
Lemma declared_names_outputs b : declared_names b SideOutput = (mb_outputs b).*1.
Proof. unfold declared_names. cbn. induction (mb_outputs b) as [|[] l IH]; cbn; [done|]. by rewrite IH. Qed.

Section entry.
Context (e : ReportEntry).
Hypothesis Ht : entry_typed e.
Let b := re_bindings e.
Let r := re_report e.

Lemma actual_ok side : bt_ok (actual_ports r side).
Proof. destruct Ht. by destruct side. Qed.

Lemma is_declared_true side name : is_declared b side name = true ↔ name ∈ declared_names b side.
Proof.
  destruct Ht. destruct side; cbn [is_declared];
    [rewrite declared_names_inputs|rewrite declared_names_outputs]; by apply bt_contains_true.
Qed.

(** The first missing or extra name is none exactly when the sets agree. *)
Lemma port_sets_agree side :
  option_min
    ((λ d : declared_port, d.1.1) <$>
       find (λ d : declared_port, negb (bt_contains d.1.1 (actual_ports r side))) (declared b side))
    (find (λ name, negb (is_declared b side name)) (actual_ports r side).*1) = None ↔
  ∀ name, name ∈ (actual_ports r side).*1 ↔ name ∈ declared_names b side.
Proof.
  assert (Hmin : ∀ x y : option str, option_min x y = None ↔ x = None ∧ y = None).
  { intros [x|] [y|]; cbn; try naive_solver. destruct (cmp x y); naive_solver. }
  rewrite Hmin, fmap_None, !find_None, !Forall_forall. unfold declared_names.
  setoid_rewrite negb_false_iff. setoid_rewrite (bt_contains_true _ _ (actual_ok side)).
  setoid_rewrite (is_declared_true side). unfold declared_names. split.
  - intros [Hmiss Hextra] name. split; [apply Hextra|].
    intros (x&->&(d&->&Hd)%list_elem_of_fmap)%list_elem_of_fmap. by apply Hmiss.
  - intros Hag. split; [|intros x; apply Hag]. intros d Hd. apply Hag.
    by apply list_elem_of_fmap_2, list_elem_of_fmap_2.
Qed.

Lemma validate_ports_spec side :
  validate_ports e side ≠ None ∧
  (validate_ports e side = Some (Ok tt) ↔
   (∀ name, name ∈ (actual_ports r side).*1 ↔ name ∈ declared_names b side) ∧
   ∀ name c sources p, (name, c, sources) ∈ declared b side → (name, p) ∈ actual_ports r side →
     port_wf c (expected_endpoint b name sources) p).
Proof.
  unfold validate_ports. fold b r. pose proof (port_sets_agree side) as Hsets.
  pose proof (actual_ok side) as Hok.
  destruct (option_min _ _) as [name|]; [naive_solver|].
  pose proof (proj1 Hsets eq_refl) as Hnames.
  assert (Hget : ∀ name c sources, (name, c, sources) ∈ declared b side →
                 ∃ p, bt_get name (actual_ports r side) = Some p).
  { intros name c sources Hd. apply (list_elem_of_fmap_2 fst), (list_elem_of_fmap_2 fst) in Hd.
    apply Hnames, list_elem_of_fmap in Hd as ([name' p]&Heq&Hin). cbn in Heq. subst name'.
    exists p. by apply bt_get_Some. }
  split.
  - apply for_check_total. intros [[name c] sources] Hd. apply Hget in Hd as [p Hp].
    unfold check_port. by rewrite Hp.
  - rewrite for_check_Ok, Forall_forall. split.
    + intros Hall. split; [done|]. intros name c sources p Hd Hin.
      apply Hall, check_port_Ok in Hd as (p'&Hp'&Hwf).
      apply bt_get_Some in Hin; [|done]. congruence.
    + intros [_ Hall] [[name c] sources] Hd. apply check_port_Ok.
      destruct (Hget _ _ _ Hd) as [p Hp]. exists p. split; [done|].
      eapply Hall; [done|]. by apply bt_get_Some.
Qed.

(** [validate_report] returns, and accepts exactly the matching reports. *)
Lemma validate_report_spec :
  validate_report b r ≠ None ∧ (validate_report b r = Some (Ok tt) ↔ report_wf b r).
Proof.
  destruct (validate_ports_spec SideInput) as [Hti Hi].
  destruct (validate_ports_spec SideOutput) as [Hto Ho].
  rewrite declared_names_inputs in Hi. rewrite declared_names_outputs in Ho. cbn in Hi, Ho.
  assert (He : mkEntry b r = e) by by destruct e.
  pose proof (bindings_validate_Ok b (et_inputs _ Ht) (et_outputs _ Ht)) as Hb.
  unfold validate_report. rewrite He.
  destruct (bindings_validate b) as [[]|failure]; [|split; [done|]].
  - split.
    + apply then_check_total; [|intros _; by apply then_check_total].
      apply for_check_total. by intros [[[] code] detail] _.
    + rewrite !then_check_Ok, for_check_Ok, Hi, Ho, !Forall_cons, Forall_nil.
      assert (Hif : ∀ (c : bool) (x : ReportError),
                Some (if c then Ok tt else Err x) = Some (Ok tt) ↔ c = true)
        by (intros [] x; naive_solver).
      rewrite !Hif, !bool_decide_eq_true, !Z.eqb_eq. split.
      * intros ((?&?&?&?&_)&[Hin Hip]&[Hon Hop]). split; try done.
        -- by apply Hb.
        -- intros name i p Hd. apply (Hip name _ (Some (ib_sources i))).
           by apply (list_elem_of_fmap_2 (λ '(n, x), (n, ib_contract x, Some (ib_sources x)))) in Hd.
        -- intros name o p Hd. apply (Hop name _ None).
           by apply (list_elem_of_fmap_2 (λ '(n, x), (n, ob_contract x, @None (list EndpointAddress)))) in Hd.
      * intros []. split_and!; try done.
        -- intros name c sources p ([n i]&[= -> -> ->]&Hd)%list_elem_of_fmap. cbn. by apply rw_inputs0.
        -- intros name c sources p ([n i]&[= -> -> ->]&Hd)%list_elem_of_fmap. cbn. by apply rw_outputs0.
  - split; [done|]. intros [Hwf]. by apply Hb in Hwf.
Qed.
End entry.

(** ** The graph *)

(** [if !c { return Err(x) }; k] *)
Lemma guard_Ok {E} (c : bool) (x : E) (k : result unit E) :
  (if negb c then Err x else k) = Ok tt ↔ c = true ∧ k = Ok tt.
Proof. destruct c; cbn; split; [done|by intros []|done|by intros []]. Qed.

Lemma check_ends_Ok error input output :
  check_ends error input output = Ok tt ↔ compatible input output.
Proof.
  unfold check_ends. rewrite !guard_Ok, !bool_decide_eq_true, Z.eqb_eq, seq_Ok.
  assert (Hc : compatible input output ↔
    pr_type_name input = pr_type_name output ∧ pr_schema input = pr_schema output ∧
    ec_kind (pr_contract input) = ec_kind (pr_contract output) ∧
    ec_semantics (pr_contract input) = ec_semantics (pr_contract output) ∧
    pr_response input = pr_response output ∧
    (ec_replay (pr_contract input) = ReplayLast → ec_retention (pr_contract output) = RetainLast)).
  { split; [by intros []|]. by intros (?&?&?&?&?&?). }
  rewrite Hc. do 4 apply and_iff_compat_l. apply Morphisms_Prop.and_iff_morphism.
  - destruct (pr_response input) as [[t1 s1]|], (pr_response output) as [[t2 s2]|]; cbn; [|done..].
    rewrite !guard_Ok, bool_decide_eq_true, Z.eqb_eq. split; [by intros (->&->&_)|].
    by intros [= -> ->].
  - destruct (ec_replay _), (ec_retention _); split; try done. by intros H; specialize (H eq_refl).
Qed.

(** The map of the members, when they are top-level and distinct. *)
Definition members (before : list ReportEntry) (m : btree str ModuleReport) : Prop :=
  bt_ok m ∧ (∀ ns, bt_contains ns m = true ↔ ns ∈ (λ e, mb_namespace (re_bindings e)) <$> before) ∧
  ∀ ns r, bt_get ns m = Some r →
    ∃ e, e ∈ before ∧ mb_namespace (re_bindings e) = ns ∧ re_report e = r.

Lemma add_module_exact before m e :
  members before m →
  match add_module m e with
  | Ok m' =>
      (mb_namespace (re_bindings e) = mb_endpoint_namespace (re_bindings e) ∧
       mb_namespace (re_bindings e) ∉ (λ e, mb_namespace (re_bindings e)) <$> before) ∧
      members (before ++ [e]) m'
  | Err _ =>
      ¬ (mb_namespace (re_bindings e) = mb_endpoint_namespace (re_bindings e) ∧
         mb_namespace (re_bindings e) ∉ (λ e, mb_namespace (re_bindings e)) <$> before)
  end.
Proof.
  intros (Hok&Hin&Hget). unfold add_module. set (ns := mb_namespace (re_bindings e)).
  case_bool_decide as Htop; cbn [negb]; [|naive_solver].
  pose proof (bt_insert_old ns (re_report e) m) as Hold.
  pose proof (bt_insert_ok ns (re_report e) m Hok) as Hok'.
  pose proof (λ k, bt_get_insert ns (re_report e) m k Hok) as Hins.
  destruct (bt_insert ns (re_report e) m) as [old m']. cbn in Hold, Hok', Hins. subst old.
  pose proof (Hin ns) as Hns. unfold bt_contains in Hns.
  destruct (bt_get ns m); cbn [is_none]; [naive_solver|].
  split; [naive_solver|]. split; [done|]. split.
  - intros k. unfold bt_contains. rewrite Hins, fmap_app, elem_of_app, <- Hin. cbn.
    rewrite list_elem_of_singleton. fold ns. unfold bt_contains.
    case_bool_decide as E; [apply cmp_eq in E|rewrite cmp_eq in E]; naive_solver.
  - intros k r. rewrite Hins. case_bool_decide as E.
    + apply cmp_eq in E as ->. intros [= <-]. exists e. rewrite elem_of_app.
      split_and!; [right; by left|done|done].
    + intros (f&Hf&?&?)%Hget. exists f. rewrite elem_of_app. naive_solver.
Qed.

Lemma members_nil : members [] [].
Proof. split_and!; [done| |done]. intros ns. split; [done|by intros ?%elem_of_nil]. Qed.

Lemma add_modules_exact entries :
  match for_fold add_module [] entries with
  | Ok m =>
      (Forall (λ e, mb_namespace (re_bindings e) = mb_endpoint_namespace (re_bindings e)) entries ∧
       NoDup ((λ e, mb_namespace (re_bindings e)) <$> entries)) ∧ members entries m
  | Err _ =>
      ¬ (Forall (λ e, mb_namespace (re_bindings e) = mb_endpoint_namespace (re_bindings e)) entries ∧
         NoDup ((λ e, mb_namespace (re_bindings e)) <$> entries))
  end.
Proof.
  pose proof (for_fold_exact add_module _ _ add_module_exact entries [] [] members_nil) as Hl.
  assert (Hiff : each_after (λ before e,
      mb_namespace (re_bindings e) = mb_endpoint_namespace (re_bindings e) ∧
      mb_namespace (re_bindings e) ∉ (λ e, mb_namespace (re_bindings e)) <$> before) [] entries ↔
    Forall (λ e, mb_namespace (re_bindings e) = mb_endpoint_namespace (re_bindings e)) entries ∧
    NoDup ((λ e, mb_namespace (re_bindings e)) <$> entries)).
  { rewrite each_after_and, each_after_NoDup. split; [naive_solver|].
    intros [? ?]. split_and!; [done..|]. by intros x ?%elem_of_nil. }
  destruct (for_fold add_module [] entries); naive_solver.
Qed.

(** A member is found under its namespace, and nothing else is. *)
Lemma members_get entries m ns r :
  NoDup ((λ e, mb_namespace (re_bindings e)) <$> entries) → members entries m →
  bt_get ns m = Some r ↔
  ∃ e, e ∈ entries ∧ mb_namespace (re_bindings e) = ns ∧ re_report e = r.
Proof.
  intros Hnd (Hok&Hin&Hget). split; [apply Hget|]. intros (e&He&<-&<-).
  assert (Hc : bt_contains (mb_namespace (re_bindings e)) m = true).
  { apply Hin. by apply (list_elem_of_fmap_2 (λ e, mb_namespace (re_bindings e))) in He. }
  unfold bt_contains in Hc. destruct (bt_get _ m) as [r|] eqn:E; [|done].
  apply Hget in E as (f&Hf&Hns&<-). f_equal. f_equal.
  apply list_elem_of_lookup in He as [i Hi]. apply list_elem_of_lookup in Hf as [j Hj].
  assert (i = j) as ->; [|congruence].
  eapply (NoDup_lookup _ i j (mb_namespace (re_bindings e)) Hnd); rewrite list_lookup_fmap.
  - by rewrite Hi.
  - by rewrite Hj, <- Hns.
Qed.

(** ** Edges *)

(** An entry, one of its inputs and one of that input's sources. *)
Definition edge : Type := ReportEntry * str * EndpointAddress.

Definition input_edges (e : ReportEntry) (i : str * InputBinding) : list edge :=
  (λ a, (e, i.1, a)) <$> ib_sources i.2.

(** In entry order, then lexical input order, then declared source order. *)
Definition graph_edges (entries : list ReportEntry) : list edge :=
  entries ≫= λ e, mb_inputs (re_bindings e) ≫= input_edges e.

Definition edge_holds (entries : list ReportEntry) (x : edge) : Prop :=
  let '(e, name, a) := x in
  ∃ input, (name, input) ∈ mr_inputs (re_report e) ∧ edge_wf entries input a.

(** The error context that points at an edge. *)
Definition points_at (err : ReportError) (x : edge) : Prop :=
  let '(e, name, a) := x in
  er_module err = Some (mb_namespace (re_bindings e)) ∧ er_side err = Some SideInput ∧
  er_port err = Some name ∧ er_source err = Some a.

Lemma check_ends_Err error input output err :
  check_ends error input output = Err err → ∃ code detail, err = error code detail.
Proof.
  unfold check_ends. intros H.
  repeat first [ case_match; simplify_eq; eauto; [] | case_match; simplify_eq; eauto ].
Qed.

Section graph.
Context (entries : list ReportEntry) (m : btree str ModuleReport).
Hypothesis Htyped : ∀ e, e ∈ entries → entry_typed e.
Hypothesis Hreports : ∀ e, e ∈ entries → report_wf (re_bindings e) (re_report e).
Hypothesis Hdistinct : NoDup ((λ e, mb_namespace (re_bindings e)) <$> entries).
Hypothesis Hmembers : members entries m.

Lemma check_edge_Ok module name input a :
  check_edge m module name input a = Ok tt ↔ edge_wf entries input a.
Proof.
  unfold check_edge, edge_wf.
  pose proof (λ r, members_get entries m (ea_namespace a) r Hdistinct Hmembers) as Hget.
  destruct (bt_get (ea_namespace a) m) as [r|]; cbn [ok_or].
  2: { split; [done|]. intros (f&o&Hf&Hns&_).
       by assert (None = Some (re_report f)) by (apply Hget; eauto). }
  destruct (proj1 (Hget r) eq_refl) as (f&Hf&Hns&<-).
  assert (Hu : ∀ g, g ∈ entries → mb_namespace (re_bindings g) = ea_namespace a →
               re_report g = re_report f).
  { intros g Hg Hgn. assert (Some (re_report f) = Some (re_report g)) by (apply Hget; eauto).
    congruence. }
  pose proof (λ o, bt_get_Some (ea_port a) o _ (et_actual_outputs _ (Htyped _ Hf))) as Ho.
  destruct (bt_get (ea_port a) (mr_outputs (re_report f))) as [o|]; cbn [ok_or].
  - rewrite check_ends_Ok. split; [intros Hc; exists f, o; by rewrite <- Ho|].
    intros (g&o'&Hg&Hgn&Hin&Hc). rewrite (Hu g Hg Hgn) in Hin. apply Ho in Hin. congruence.
  - split; [done|]. intros (g&o'&Hg&Hgn&Hin&Hc). rewrite (Hu g Hg Hgn) in Hin.
    by apply Ho in Hin.
Qed.

Lemma check_edge_Err e name input a err :
  check_edge m (mb_namespace (re_bindings e)) name input a = Err err → points_at err (e, name, a).
Proof.
  unfold check_edge. destruct (bt_get _ m) as [r|]; cbn [ok_or]; [|by intros [= <-]].
  destruct (bt_get _ _) as [o|]; cbn [ok_or]; [|by intros [= <-]].
  by intros (code&detail&->)%check_ends_Err.
Qed.

(** The registered port of a declared input. *)
Lemma input_registered e name binding :
  e ∈ entries → (name, binding) ∈ mb_inputs (re_bindings e) →
  ∃ input, bt_get name (mr_inputs (re_report e)) = Some input.
Proof.
  intros He Hin. apply (list_elem_of_fmap_2 fst) in Hin. cbn in Hin.
  apply (rw_input_names _ _ (Hreports e He)), list_elem_of_fmap in Hin as ([n input]&->&Hin).
  exists input. apply bt_get_Some; [apply (Htyped e He)|done].
Qed.

Lemma check_edges_spec e i :
  e ∈ entries → i ∈ mb_inputs (re_bindings e) →
  check_edges m e i ≠ None ∧
  (check_edges m e i = Some (Ok tt) ↔ Forall (edge_holds entries) (input_edges e i)) ∧
  ∀ err, check_edges m e i = Some (Err err) →
    ∃ pre x post, input_edges e i = pre ++ x :: post ∧ Forall (edge_holds entries) pre ∧
                  ¬ edge_holds entries x ∧ points_at err x.
Proof.
  intros He Hi. destruct i as [name binding]. unfold check_edges, input_edges. cbn [fst snd].
  destruct (input_registered e name binding He Hi) as [input Hg]. rewrite Hg.
  assert (Hx : ∀ a, check_edge m (mb_namespace (re_bindings e)) name input a = Ok tt ↔
                    edge_holds entries (e, name, a)).
  { intros a. rewrite check_edge_Ok. apply bt_get_elem in Hg as Hin. split; [by exists input|].
    intros (p&Hp&Hw). apply bt_get_Some in Hp; [|apply (Htyped e He)]. by simplify_eq. }
  split; [done|]. split.
  - rewrite Forall_fmap. rewrite (inj_iff Some), for_each_Ok.
    rewrite !Forall_forall. split; intros H a Ha; by apply Hx, H.
  - intros err [= (l1&a&l2&Hs&Hall&Herr)%for_each_Err]. rewrite Hs, fmap_app. cbn.
    exists ((λ a, (e, name, a)) <$> l1), (e, name, a), ((λ a, (e, name, a)) <$> l2).
    split_and!; [done| | |by eapply check_edge_Err].
    + rewrite Forall_fmap. eapply Forall_impl; [exact Hall|]. intros y Hy. by apply Hx.
    + intros Hh. apply Hx in Hh. congruence.
Qed.

(** A loop over parts each of which checks its own edges, in order. *)
Lemma for_check_flat {A} (f : A → check) (g : A → list edge) l :
  (∀ y, y ∈ l →
     f y ≠ None ∧ (f y = Some (Ok tt) ↔ Forall (edge_holds entries) (g y)) ∧
     ∀ err, f y = Some (Err err) →
       ∃ pre x post, g y = pre ++ x :: post ∧ Forall (edge_holds entries) pre ∧
                     ¬ edge_holds entries x ∧ points_at err x) →
  for_check f l ≠ None ∧ (for_check f l = Some (Ok tt) ↔ Forall (edge_holds entries) (l ≫= g)) ∧
  ∀ err, for_check f l = Some (Err err) →
    ∃ pre x post, l ≫= g = pre ++ x :: post ∧ Forall (edge_holds entries) pre ∧
                  ¬ edge_holds entries x ∧ points_at err x.
Proof.
  intros Hf. split_and!.
  - apply for_check_total. intros y Hy. by apply Hf.
  - rewrite for_check_Ok, Forall_bind, !Forall_forall. split; intros H y Hy; by apply Hf, H.
  - intros err (l1&y&l2&->&Hall&Herr)%for_check_Err.
    destruct (Hf y) as (_&_&Hy); [apply elem_of_app; right; by left|].
    destruct (Hy err Herr) as (pre&x&post&Hg&Hpre&Hx). rewrite bind_app. cbn. rewrite Hg.
    exists ((l1 ≫= g) ++ pre), x, (post ++ (l2 ≫= g)).
    split; [by rewrite <- !app_assoc|]. split; [|done].
    apply Forall_app. split; [|done]. rewrite Forall_bind.
    rewrite Forall_forall in Hall. apply Forall_forall. intros z Hz.
    apply Hf; [apply elem_of_app; by left|by apply Hall].
Qed.

Lemma graph_edges_check :
  let c := for_check (λ e, for_check (check_edges m e) (mb_inputs (re_bindings e))) entries in
  c ≠ None ∧ (c = Some (Ok tt) ↔ Forall (edge_holds entries) (graph_edges entries)) ∧
  ∀ err, c = Some (Err err) →
    ∃ pre x post, graph_edges entries = pre ++ x :: post ∧ Forall (edge_holds entries) pre ∧
                  ¬ edge_holds entries x ∧ points_at err x.
Proof.
  apply for_check_flat. intros e He. apply for_check_flat. intros i Hi.
  by apply check_edges_spec.
Qed.

(** Edge by edge, as the specification states it. *)
Lemma edges_hold_iff :
  Forall (edge_holds entries) (graph_edges entries) ↔
  ∀ e name binding input a, e ∈ entries → (name, binding) ∈ mb_inputs (re_bindings e) →
    (name, input) ∈ mr_inputs (re_report e) → a ∈ ib_sources binding → edge_wf entries input a.
Proof.
  unfold graph_edges. rewrite Forall_bind, Forall_forall. split.
  - intros Hall e name binding input a He Hi Hin Ha. specialize (Hall e He). unfold compose in Hall.
    rewrite Forall_bind, Forall_forall in Hall. specialize (Hall _ Hi). unfold compose in Hall.
    unfold input_edges in Hall. rewrite Forall_fmap, Forall_forall in Hall.
    destruct (Hall a Ha) as (p&Hp&Hw). unfold compose in *. cbn in Hp.
    by rewrite <- (bt_ok_functional name p input _ (et_actual_inputs _ (Htyped e He)) Hp Hin).
  - intros Hall e He. apply Forall_bind, Forall_forall. intros [name binding] Hi.
    apply Forall_fmap, Forall_forall. intros a Ha. cbn.
    destruct (input_registered e name binding He Hi) as [input Hg%bt_get_elem]. eauto.
Qed.
End graph.

(** The check of a graph, with its panics. *)
Lemma validate_graph_spec (entries : list ReportEntry) :
  (∀ e, e ∈ entries → entry_typed e) →
  validate_graph entries ≠ None ∧ (validate_graph entries = Some (Ok tt) ↔ graph_wf entries).
Proof.
  intros Htyped. unfold validate_graph.
  case_bool_decide as Hlen.
  { split; [done|]. split; [done|]. intros [Hne]. by apply nil_length_inv in Hlen. }
  assert (Hrep : ∀ e, e ∈ entries → validate_report (re_bindings e) (re_report e) ≠ None ∧
    (validate_report (re_bindings e) (re_report e) = Some (Ok tt) ↔
     report_wf (re_bindings e) (re_report e))).
  { intros e He. by apply validate_report_spec, Htyped. }
  pose proof (add_modules_exact entries) as Hadd.
  rewrite then_check_Ok, for_check_Ok, Forall_forall. split.
  - apply then_check_total; [apply for_check_total; intros e He; by apply Hrep|].
    rewrite for_check_Ok, Forall_forall. intros Hall.
    destruct (for_fold add_module [] entries) as [m|]; [|done]. destruct Hadd as [[_ Hnd] Hm].
    apply (graph_edges_check entries m); [done| |done|done]. intros e He. by apply Hrep, Hall.
  - split.
    + intros [Hall Hc].
      assert (Hwf : ∀ e, e ∈ entries → report_wf (re_bindings e) (re_report e)).
      { intros e He. by apply Hrep, Hall. }
      destruct (for_fold add_module [] entries) as [m|]; [|done].
      destruct Hadd as [[Htop Hnd] Hm]. rewrite Forall_forall in Htop.
      apply (graph_edges_check entries m) in Hc; [|done..].
      split; [by destruct entries|done|done|done|by apply edges_hold_iff].
    + intros [Hne Hwf Htop Hnd Hedges]. split; [intros e He; by apply Hrep, Hwf|].
      destruct (for_fold add_module [] entries) as [m|].
      * destruct Hadd as [_ Hm].
        apply (graph_edges_check entries m); [done..|]. by apply edges_hold_iff.
      * destruct Hadd. split; [by apply Forall_forall|done].
Qed.

(** ** A robot with a sensor and a controller *)

Definition stream_contract (replay : Replay) (retention : Retention) : EndpointContract :=
  mkContract [(bytes_of "unit", bytes_of "rad")] (bytes_of "robot.State") Stream None QDefault
    retention replay Fifo.

Definition sensor_address : EndpointAddress :=
  mkEndpoint (bytes_of "robot/sensor") (bytes_of "state").

Definition robot_sensor (retention : Retention) : ReportEntry :=
  mkEntry
    (mkBindings 3 (bytes_of "robot/sensor") (bytes_of "robot/sensor") []
       [(bytes_of "state", mkOutput (stream_contract Live retention))]
       [(bytes_of "worker", mkDelegation [] [bytes_of "state"])] [bytes_of "worker"])
    (mkModuleReport 3 2 (bytes_of "robot/sensor") (bytes_of "robot/sensor") []
       [(bytes_of "state",
         mkPortReport (EndpointOutput sensor_address) (bytes_of "robot.State") 17
           (stream_contract Live retention) None)]).

Definition robot_control : ReportEntry :=
  mkEntry
    (mkBindings 3 (bytes_of "robot/control") (bytes_of "robot/control")
       [(bytes_of "pose", mkInput (stream_contract ReplayLast Volatile) [sensor_address])]
       [] [] [])
    (mkModuleReport 3 2 (bytes_of "robot/control") (bytes_of "robot/control")
       [(bytes_of "pose",
         mkPortReport (EndpointInput [sensor_address]) (bytes_of "robot.State") 17
           (stream_contract ReplayLast Volatile) None)] []).

Lemma robot_typed retention e : e ∈ [robot_sensor retention; robot_control] → entry_typed e.
Proof.
  intros [->|[->|?%elem_of_nil]%elem_of_cons]%elem_of_cons; [..|done];
    by repeat constructor.
Qed.

(** ** Properties *)

(** [ModuleBindings::validate] accepts a module's bindings exactly when they
    satisfy the whole contract: versions and names, ports with their policies,
    sources that are present, distinct and agreed on between inputs, and
    children that are given existing endpoints, each to one child only. *)
Theorem bindings_validate_exact (b : ModuleBindings) :
  bt_ok (mb_inputs b) → bt_ok (mb_outputs b) →
  (bindings_validate b = Ok tt ↔ bindings_wf b).
Proof. apply bindings_validate_Ok. Qed.

Lemma bindings_validate_exact_witness : bindings_wf (re_bindings (robot_sensor RetainLast)).
Proof. apply bindings_validate_exact; [repeat constructor..|]. by vm_compute. Defined.

(** [validate_report] returns on every report and accepts exactly the
    reports whose identities, port sets, endpoints, contracts, types and
    response shapes are the declared ones. *)
Theorem validate_report_exact (b : ModuleBindings) (r : ModuleReport) :
  entry_typed (mkEntry b r) →
  validate_report b r ≠ None ∧ (validate_report b r = Some (Ok tt) ↔ report_wf b r).
Proof. apply (validate_report_spec (mkEntry b r)). Qed.

Lemma validate_report_exact_witness :
  report_wf (re_bindings robot_control) (re_report robot_control).
Proof.
  apply validate_report_exact; [|by vm_compute].
  apply (robot_typed Volatile). by right; left.
Defined.

(** C13: [validate_graph] returns on every list of entries and accepts exactly
    the closed graphs: each report valid, each member top-level under a
    namespace of its own, and each source of each input an output of a member
    with the same type, fingerprints, kind and semantics that retains samples
    when the input replays them. *)
Theorem validate_graph_exact (entries : list ReportEntry) :
  (∀ e, e ∈ entries → entry_typed e) →
  validate_graph entries ≠ None ∧ (validate_graph entries = Some (Ok tt) ↔ graph_wf entries).
Proof. apply validate_graph_spec. Qed.

Lemma validate_graph_exact_witness : graph_wf [robot_sensor RetainLast; robot_control].
Proof. apply validate_graph_exact; [apply robot_typed|]. by vm_compute. Defined.

(** When every report is valid and the members are admitted, the error of
    [validate_graph] points at the first failing edge, in the order of the
    entries, then of the input names, then of the declared sources; all edges
    before it hold. *)
Theorem graph_first_failure (entries : list ReportEntry) (err : ReportError) :
  (∀ e, e ∈ entries → entry_typed e) → entries ≠ [] →
  for_check (λ e, validate_report (re_bindings e) (re_report e)) entries = Some (Ok tt) →
  is_ok (for_fold add_module [] entries) = true →
  validate_graph entries = Some (Err err) →
  ∃ pre x post, graph_edges entries = pre ++ x :: post ∧
    Forall (edge_holds entries) pre ∧ ¬ edge_holds entries x ∧ points_at err x.
Proof.
  intros Htyped Hne Hrep Hadd. unfold validate_graph. rewrite Hrep.
  rewrite bool_decide_eq_false_2 by (by destruct entries). cbn [then_check].
  rewrite for_check_Ok, Forall_forall in Hrep.
  pose proof (add_modules_exact entries) as Hm.
  destruct (for_fold add_module [] entries) as [m|]; [|done]. destruct Hm as [[_ Hnd] Hm].
  apply (graph_edges_check entries m); [done| |done|done].
  intros e He. by apply (validate_report_spec e (Htyped e He)), Hrep.
Qed.

Lemma graph_first_failure_witness :
  ∃ pre x post, graph_edges [robot_sensor Volatile; robot_control] = pre ++ x :: post ∧
    Forall (edge_holds [robot_sensor Volatile; robot_control]) pre ∧
    ¬ edge_holds [robot_sensor Volatile; robot_control] x ∧
    points_at (error_from (error_at (error_new CodePolicy (Some (bytes_of "robot/control"))
      (bytes_of "source does not retain replayable samples")) SideInput (bytes_of "pose"))
      sensor_address) x.
Proof.
  apply graph_first_failure; [apply robot_typed|done|by vm_compute..].
Defined.
