(* ===== verification/Step.v ===== *)
(** * Step: values, graphs, requests and status of the step scheduler
    ([crates/reiny/src/encoded.rs], [step/value.rs], [step/graph.rs],
    [step/status.rs], [step/request.rs])

    The schema identity of a value has two representations, compiled and owned;
    [step_type_eqb] is the hand-written [PartialEq] that does not see the
    difference, and [same_type] the equivalence it decides.  A [Duration] is its
    number of nanoseconds. *)

From Stdlib Require Import ZArith Lia.
From S2P Require Import Prelude Text Btree Core Bindings.

(** ** Durations: [core::time::Duration] *)

Definition NANOS_PER_SEC : Z := 1000000000.
(** [Duration::MAX]: [u64::MAX] seconds and 999999999 nanoseconds *)
Definition duration_max : Z := u64_max * NANOS_PER_SEC + 999999999.
Definition is_duration (d : Z) : Prop := (0 ≤ d ≤ duration_max)%Z.
(** [Duration::checked_add] *)
Definition duration_checked_add (a b : Z) : option Z :=
  if (a + b <=? duration_max)%Z then Some (a + b)%Z else None.

(** [u64::checked_add(1)] *)
Definition checked_succ (n : Z) : option Z := checked_add 64 n 1.

(** ** Encoded schema identities *)

Record EncodedType : Type := mkEncodedType {
  et_type_name : str;
  et_fingerprint_version : Z;
  et_fingerprint : Z;
}.

Inductive SchemaError : Type :=
  | InvalidTypeName
  | UnsupportedFingerprintVersion (expected received : Z).

Definition protobuf_segment (segment : str) : bool :=
  match segment with
  | [] => false
  | byte :: bytes =>
      (is_ascii_alphabetic byte || (byte =? 95)%Z)
      && forallb (λ byte, is_ascii_alphanumeric byte || (byte =? 95)%Z) bytes
  end.

Definition encoded_type_new (type_name : str) (fingerprint_version fingerprint : Z) :
  result EncodedType SchemaError :=
  if negb (forallb protobuf_segment (split_on 46 type_name)) then Err InvalidTypeName
  else if negb (fingerprint_version =? SCHEMA_FINGERPRINT_VERSION)%Z then
    Err (UnsupportedFingerprintVersion SCHEMA_FINGERPRINT_VERSION fingerprint_version)
  else Ok (mkEncodedType type_name fingerprint_version fingerprint).

Definition encoded_type_of (T : MessageType) : result EncodedType SchemaError :=
  encoded_type_new (TYPE_NAME T) SCHEMA_FINGERPRINT_VERSION (SCHEMA_FINGERPRINT T).

(** ** Step types *)

Record OwnedType : Type := mkOwnedType {
  ot_type_name : str;
  ot_fingerprint : Z;
  ot_semantics : btree str str;
}.

Inductive TypeData : Type :=
  | Compiled (type_name : str) (fingerprint : Z)
  | Owned (data : OwnedType).

Record StepType : Type := mkStepType { st_data : TypeData }.

(** [StepType::of] *)
Definition step_type_of (T : MessageType) : StepType :=
  mkStepType (Compiled (TYPE_NAME T) (SCHEMA_FINGERPRINT T)).

Definition from_encoded_type (ty : EncodedType) : result StepType SchemaError :=
  Ok (mkStepType (Owned (mkOwnedType (et_type_name ty) (et_fingerprint ty) []))).

Definition semantics (self : StepType) : btree str str :=
  match st_data self with Compiled _ _ => [] | Owned data => ot_semantics data end.

Definition step_type_name (self : StepType) : str :=
  match st_data self with Compiled type_name _ => type_name | Owned data => ot_type_name data end.

Definition step_fingerprint (self : StepType) : Z :=
  match st_data self with Compiled _ fingerprint => fingerprint | Owned data => ot_fingerprint data end.

Definition step_fingerprint_version (self : StepType) : Z := SCHEMA_FINGERPRINT_VERSION.

(** [StepType::with_semantics] *)
Definition type_with_semantics (self : StepType) (sem : btree str str) :
  result StepType BindingError :=
  let? _ := validate_semantics sem in
  match st_data self with
  | Compiled type_name fingerprint =>
      Ok (mkStepType (Owned (mkOwnedType type_name fingerprint sem)))
  | Owned data =>
      Ok (mkStepType (Owned (mkOwnedType (ot_type_name data) (ot_fingerprint data) sem)))
  end.

(** [impl PartialEq for StepType] *)
Definition step_type_eqb (a b : StepType) : bool :=
  bool_decide (step_type_name a = step_type_name b)
  && (step_fingerprint a =? step_fingerprint b)%Z
  && bool_decide (semantics a = semantics b).

(** ** Values *)

Record StepValue : Type := mkStepValue { sv_type : StepType; sv_bytes : list Z }.

Inductive StepValueError : Type :=
  | ValueTypeMismatch (expected actual : StepType)
  | ValueDecode (type_name message : str).

Definition value_with_semantics (self : StepValue) (sem : btree str str) :
  result StepValue BindingError :=
  let? ty := type_with_semantics (sv_type self) sem in
  Ok (mkStepValue ty (sv_bytes self)).

Definition from_encoded (step_type : StepType) (bytes : list Z) : StepValue :=
  mkStepValue step_type bytes.

(** What the code uses of [prost::Message] for a message type. *)
Record Codec (T : Type) : Type := mkCodec {
  codec_type : MessageType;
  encode_to_vec : T → list Z;
  decode_slice : list Z → result T str;
}.
Arguments codec_type {T} _.
Arguments encode_to_vec {T} _ _.
Arguments decode_slice {T} _ _.

(** [StepValue::encode] *)
Definition value_encode {T} (M : Codec T) (value : T) : StepValue :=
  mkStepValue (step_type_of (codec_type M)) (encode_to_vec M value).

(** [StepValue::decode] *)
Definition value_decode {T} (M : Codec T) (self : StepValue) : result T StepValueError :=
  let expected := step_type_of (codec_type M) in
  if negb (bool_decide (step_type_name (sv_type self) = step_type_name expected))
     || negb (step_fingerprint (sv_type self) =? step_fingerprint expected)%Z
  then Err (ValueTypeMismatch expected (sv_type self))
  else map_err (λ message, ValueDecode (step_type_name (sv_type self)) message)
         (decode_slice M (sv_bytes self)).

(** ** Graphs *)

Record StepInput : Type := mkStepInput { si_instance : str; si_port : str }.
Record StepOutput : Type := mkStepOutput { so_instance : str; so_port : str }.

#[export] Instance StepInput_eq_dec : EqDecision StepInput.
Proof. solve_decision. Defined.
#[export] Instance StepOutput_eq_dec : EqDecision StepOutput.
Proof. solve_decision. Defined.

Definition input_key (i : StepInput) : str * str := (si_instance i, si_port i).
#[export] Instance Ord_StepInput : Ord StepInput := cmp_on input_key.
#[export] Instance OrdLaws_StepInput : OrdLaws StepInput.
Proof. apply OrdLaws_on. by intros [] [] [= -> ->]. Qed.

Definition output_key (o : StepOutput) : str * str := (so_instance o, so_port o).
#[export] Instance Ord_StepOutput : Ord StepOutput := cmp_on output_key.
#[export] Instance OrdLaws_StepOutput : OrdLaws StepOutput.
Proof. apply OrdLaws_on. by intros [] [] [= -> ->]. Qed.

Record StepSchema : Type := mkStepSchema {
  ss_inputs : btree str StepType;
  ss_outputs : btree str StepType;
}.

Inductive StepSource : Type :=
  | External
  | SameTick (output : StepOutput)
  | PreviousTick (source : StepOutput) (initial : StepValue).

Record StepGraph : Type := mkStepGraph {
  sg_nodes : btree str StepSchema;
  sg_inputs : btree StepInput StepSource;
}.

Inductive StepPlanError : Type :=
  | EmptyStepGraph
  | InvalidInstance (instance : str)
  | InvalidPort (instance port : str)
  | MissingInput (input : StepInput)
  | UnknownInput (input : StepInput)
  | UnknownSource (output : StepOutput)
  | TypeMismatch (input : StepInput) (expected actual : StepType)
  | InitialTypeMismatch (input : StepInput) (expected actual : StepType)
  | SameTickCycle (instances : list str)
  | EpochExhausted.

(** ** Status *)

Record StepId : Type := mkStepId { id_epoch : Z; id_index : Z }.

Record StepTick : Type := mkStepTick {
  tick_id : StepId;
  tick_start : Z;
  tick_dt : Z;
  tick_end : Z;
}.

(** Named values delivered to, and produced by, a single node. *)
Definition StepInputs : Type := btree str StepValue.
Definition StepOutputs : Type := btree str StepValue.

Record StepReceipt : Type := mkReceipt {
  rc_tick : StepTick;
  rc_outputs : btree StepOutput StepValue;
}.

Inductive StepFailureKind : Type :=
  | NodeErrorKind | NodePanicked | InvalidOutputs | Cancelled | TimedOut | HostStopped
  | WorkerLost | AdvanceDropped.

#[export] Instance StepFailureKind_eq_dec : EqDecision StepFailureKind.
Proof. solve_decision. Defined.

Record StepFailure : Type := mkFailure {
  sf_tick : StepId;
  sf_kind : StepFailureKind;
  sf_instance : option str;
  sf_port : option str;
  sf_attempted : list str;
  sf_completed : list str;
  sf_detail : str;
}.

Inductive StepRequestError : Type :=
  | ZeroDt
  | TimeOverflow
  | TickOverflow
  | RequestMissingInput (input : StepInput)
  | UnexpectedInput (input : StepInput)
  | RequestTypeMismatch (input : StepInput) (expected actual : StepType).

Inductive SchedulerError : Type :=
  | Request (error : StepRequestError)
  | Failed (failure : StepFailure)
  | Faulted (failure : StepFailure).

Record NodeError : Type := mkNodeError { ne_message : str }.

Inductive ClockPhase : Type :=
  | PhaseStarting
  | PhaseReady
  | PhaseRunning (id : StepId)
  | PhaseFaulted (failure : StepFailure)
  | PhaseStopped.

Record ClockSnapshot : Type := mkClock {
  ck_epoch : Z;
  ck_next_index : Z;
  ck_time : Z;
  ck_phase : ClockPhase;
}.

(** ** The equivalence of schema identities *)

(** What a type names, whichever way it is stored. *)
Definition type_identity (t : StepType) : str * Z * btree str str :=
  match st_data t with
  | Compiled type_name fingerprint => (type_name, fingerprint, [])
  | Owned data => (ot_type_name data, ot_fingerprint data, ot_semantics data)
  end.

Definition same_type (a b : StepType) : Prop := type_identity a = type_identity b.

Lemma same_type_parts a b :
  same_type a b ↔ step_type_name a = step_type_name b ∧ step_fingerprint a = step_fingerprint b ∧
                  semantics a = semantics b.
Proof.
  destruct a as [[n f|[n f sem]]], b as [[n' f'|[n' f' sem']]]; cbn; unfold same_type, type_identity; cbn;
    (split; [intros H; injection H; intros; subst; done|intros (?&?&?); by subst]).
Qed.

Lemma step_type_eqb_true a b : step_type_eqb a b = true ↔ same_type a b.
Proof.
  rewrite same_type_parts. unfold step_type_eqb.
  rewrite !andb_true_iff, !bool_decide_eq_true, Z.eqb_eq. tauto.
Qed.

#[export] Instance same_type_equivalence : Equivalence same_type.
Proof.
  unfold same_type. split; [done|..].
  - by intros a b.
  - intros a b c. by transitivity (type_identity b).
Qed.

#[export] Instance step_type_eqb_proper : Proper (same_type ==> same_type ==> (=)) step_type_eqb.
Proof.
  intros a a' (Ha&Hb&Hc)%same_type_parts b b' (Hd&He&Hf)%same_type_parts. unfold step_type_eqb.
  by rewrite Ha, Hb, Hc, Hd, He, Hf.
Qed.
