(* ===== verification/StepPlan.v ===== *)
(** * StepPlan: compilation of a step graph ([crates/reiny/src/step/plan.rs])

    The routes are checked against the schemas, and the nodes are ordered by
    their same-tick dependencies.  The ordering loop carries fuel, one unit per
    remaining node; [None] means it ran out.  [routes_wf] states the checks of
    the plan without their order; a [schedule] is the lexically first topological
    order of the same-tick dependencies.  Compilation returns one exactly for a
    well-formed graph without a same-tick cycle, and names a set of mutually
    blocked nodes otherwise. *)

From S2P Require Import Prelude Text Btree Core Bindings Step BindingsSpec.

Record PlanRoute : Type := mkRoute {
  pr_output : option StepOutput;
  pr_initial : option StepType;
  pr_same_tick : bool;
}.

Record Plan : Type := mkPlan { pl_graph : StepGraph; pl_order : list str }.

(** Same-tick sources of every node that is not ordered yet. *)
Definition deps : Type := btree str (btree str unit).

(** The body of the loop over the nodes. *)
Definition check_node (inputs : btree StepInput PlanRoute) (dependencies : deps)
    (node : str * StepSchema) : result deps StepPlanError :=
  let '(instance, schema) := node in
  let? _ := map_err (λ _, InvalidInstance instance) (validate_namespace instance) in
  let? _ := for_each (λ port, map_err (λ _, InvalidPort instance port) (validate_port_name port))
              ((ss_inputs schema).*1 ++ (ss_outputs schema).*1) in
  let? _ := for_each (λ port,
              let input := mkStepInput instance port in
              if negb (bt_contains input inputs) then Err (MissingInput input) else Ok tt)
              (ss_inputs schema).*1 in
  Ok (bt_insert instance [] dependencies).2.

(** [dependencies.entry(k).or_default().insert(source)] *)
Definition add_dependency (k source : str) (dependencies : deps) : deps :=
  let sources := default [] (bt_get k dependencies) in
  (bt_insert k (bs_insert source sources).2 dependencies).2.

(** [nodes.get(instance).and_then(|schema| ports(schema).get(port))] *)
Definition find_port (ports : StepSchema → btree str StepType) (nodes : btree str StepSchema)
    (instance port : str) : option StepType :=
  match bt_get instance nodes with
  | Some schema => bt_get port (ports schema)
  | None => None
  end.

(** The body of the loop over the routes. *)
Definition check_route (nodes : btree str StepSchema) (dependencies : deps)
    (entry : StepInput * PlanRoute) : result deps StepPlanError :=
  let '(input, route) := entry in
  let? expected := ok_or (find_port ss_inputs nodes (si_instance input) (si_port input))
                     (UnknownInput input) in
  let? _ := match pr_initial route with
            | Some initial =>
                if negb (step_type_eqb initial expected)
                then Err (InitialTypeMismatch input expected initial) else Ok tt
            | None => Ok tt
            end in
  match pr_output route with
  | None => Ok dependencies
  | Some output =>
      let? actual := ok_or (find_port ss_outputs nodes (so_instance output) (so_port output))
                       (UnknownSource output) in
      if negb (step_type_eqb actual expected) then Err (TypeMismatch input expected actual)
      else Ok (if pr_same_tick route
               then add_dependency (si_instance input) (so_instance output) dependencies
               else dependencies)
  end.

(** [dependencies.remove(&next)] and the removal of [next] from the sources of
    the others *)
Definition remove_node (next : str) (dependencies : deps) : deps :=
  prod_map id (λ sources, (bt_remove next sources).2) <$> (bt_remove next dependencies).2.

(** The [while] loop; [order] is what it has produced. *)
Fixpoint order_nodes (fuel : nat) (dependencies : deps) (order : list str) :
  option (result (list str) StepPlanError) :=
  if bool_decide (length dependencies = 0) then Some (Ok order) else
  match fuel with
  | 0 => None
  | S fuel =>
      match find (λ entry : str * btree str unit, bool_decide (length entry.2 = 0)) dependencies with
      | None => Some (Err (SameTickCycle dependencies.*1))
      | Some (next, _) => order_nodes fuel (remove_node next dependencies) (order ++ [next])
      end
  end.

Definition validate_routes (nodes : btree str StepSchema) (inputs : btree StepInput PlanRoute) :
  option (result (list str) StepPlanError) :=
  if bool_decide (length nodes = 0) then Some (Err EmptyStepGraph) else
  match (let? dependencies := for_fold (check_node inputs) [] nodes in
         for_fold (check_route nodes) dependencies inputs) with
  | Err e => Some (Err e)
  | Ok dependencies => order_nodes (length dependencies) dependencies []
  end.

(** The route of a source in [Plan::compile] *)
Definition route_of (source : StepSource) : PlanRoute :=
  match source with
  | External => mkRoute None None false
  | SameTick output => mkRoute (Some output) None true
  | PreviousTick source initial => mkRoute (Some source) (Some (sv_type initial)) false
  end.

(** [Plan::compile] *)
Definition compile (graph : StepGraph) : option (result Plan StepPlanError) :=
  match validate_routes (sg_nodes graph) (prod_map id route_of <$> sg_inputs graph) with
  | Some (Ok order) => Some (Ok (mkPlan graph order))
  | Some (Err e) => Some (Err e)
  | None => None
  end.

(** ** Specification *)

Record node_wf (inputs : btree StepInput PlanRoute) (node : str * StepSchema) : Prop := {
  nw_instance : namespace_wf node.1;
  nw_ports port : port ∈ (ss_inputs node.2).*1 ++ (ss_outputs node.2).*1 → segment_wf port;
  nw_routed port : port ∈ (ss_inputs node.2).*1 → mkStepInput node.1 port ∈ inputs.*1;
}.

Definition route_wf (nodes : btree str StepSchema) (entry : StepInput * PlanRoute) : Prop :=
  ∃ expected, find_port ss_inputs nodes (si_instance entry.1) (si_port entry.1) = Some expected ∧
    (∀ initial, pr_initial entry.2 = Some initial → same_type initial expected) ∧
    ∀ output, pr_output entry.2 = Some output →
      ∃ actual, find_port ss_outputs nodes (so_instance output) (so_port output) = Some actual ∧
                same_type actual expected.

Record routes_wf (nodes : btree str StepSchema) (inputs : btree StepInput PlanRoute) : Prop := {
  rt_nonempty : nodes ≠ [];
  rt_nodes : Forall (node_wf inputs) nodes;
  rt_routes : Forall (route_wf nodes) inputs;
}.

(** Node [n] takes an output of [m] in the same tick. *)
Definition depends (inputs : list (StepInput * PlanRoute)) (n m : str) : Prop :=
  ∃ input route output, (input, route) ∈ inputs ∧ si_instance input = n ∧
    pr_output route = Some output ∧ pr_same_tick route = true ∧ so_instance output = m.

(** All same-tick sources of [n] have run. *)
Definition ready (inputs : list (StepInput * PlanRoute)) (before : list str) (n : str) : Prop :=
  ∀ m, depends inputs n m → m ∈ before.

Definition topological (inputs : list (StepInput * PlanRoute)) (order : list str) : Prop :=
  ∀ pre n post, order = pre ++ n :: post → ready inputs pre n.

(** Every step takes the lexically first of the ready nodes. *)
Definition lexical (inputs : list (StepInput * PlanRoute)) (nodes order : list str) : Prop :=
  ∀ pre n post, order = pre ++ n :: post →
  ∀ k, k ∈ nodes → k ∉ pre → k ≠ n → ready inputs pre k → cmp n k = Lt.

Record schedule (nodes : btree str StepSchema) (inputs : btree StepInput PlanRoute)
    (order : list str) : Prop := {
  sc_nodes : order ≡ₚ nodes.*1;
  sc_topological : topological inputs order;
  sc_lexical : lexical inputs nodes.*1 order;
}.

(** Nodes each of which waits for another of them. *)
Definition blocked (nodes : btree str StepSchema) (inputs : btree StepInput PlanRoute)
    (instances : list str) : Prop :=
  instances ≠ [] ∧ instances ⊆ nodes.*1 ∧
  ∀ n, n ∈ instances → ∃ m, m ∈ instances ∧ depends inputs n m.

(** ** Checks of nodes and routes *)

Lemma map_err_Ok {A E F} (f : E → F) (r : result A E) a : map_err f r = Ok a ↔ r = Ok a.
Proof. destruct r; naive_solver. Qed.

(** The dependencies after some nodes: known, and without sources. *)
Definition registered (before : list (str * StepSchema)) (d : deps) : Prop :=
  bt_ok d ∧ (∀ k, k ∈ d.*1 ↔ k ∈ before.*1) ∧ Forall (λ e, e.2 = []) d.

Lemma registered_insert before d n :
  registered before d → registered (before ++ [n]) (bt_insert n.1 [] d).2.
Proof.
  intros (Hok&Hk&He). split; [by apply bt_insert_ok|]. split.
  - intros k. rewrite <- bt_contains_true by by apply bt_insert_ok.
    unfold bt_contains. rewrite bt_get_insert, fmap_app, elem_of_app, <- Hk by done. cbn.
    rewrite list_elem_of_singleton, <- bt_contains_true by done. unfold bt_contains.
    case_bool_decide as E; [apply cmp_eq in E|rewrite cmp_eq in E]; naive_solver.
  - rewrite Forall_forall in He. apply Forall_forall. intros e [->|?]%bt_insert_elem; [done|by apply He].
Qed.

Lemma check_node_exact inputs before d n :
  bt_ok inputs → registered before d →
  match check_node inputs d n with
  | Ok d' => node_wf inputs n ∧ registered (before ++ [n]) d'
  | Err _ => ¬ node_wf inputs n
  end.
Proof.
  intros Hi Hd. apply (registered_insert before d n) in Hd. destruct n as [i schema].
  assert (Hiff : is_ok (check_node inputs d (i, schema)) = true ↔ node_wf inputs (i, schema)).
  { unfold check_node.
    set (r1 := map_err _ (validate_namespace i)). set (r2 := for_each _ (_ ++ _)).
    set (r3 := for_each _ _).
    assert (is_ok (let? _ := r1 in let? _ := r2 in let? _ := r3 in Ok (bt_insert i [] d).2) = true ↔
            r1 = Ok tt ∧ r2 = Ok tt ∧ r3 = Ok tt) as ->.
    { destruct r1 as [[]|], r2 as [[]|], r3 as [[]|]; naive_solver. }
    unfold r1, r2, r3. rewrite map_err_Ok, validate_namespace_Ok, !for_each_Ok, !Forall_forall.
    setoid_rewrite map_err_Ok. setoid_rewrite validate_port_name_Ok. split.
    - intros (?&?&Hr). split; [done|done|]. cbn. intros port Hp. apply Hr in Hp.
      destruct (bt_contains _ _) eqn:E; [|done]. by apply bt_contains_true in E.
    - intros [? ? Hr]. split_and!; [done|done|]. intros port Hp. apply Hr in Hp. cbn in Hp.
      apply bt_contains_true in Hp; [|done]. by rewrite Hp. }
  assert (Hd' : ∀ d', check_node inputs d (i, schema) = Ok d' → d' = (bt_insert i [] d).2).
  { unfold check_node. intros d' H. repeat case_step H. done. }
  destruct (check_node inputs d (i, schema)) as [d'|]; cbn in Hiff; [|naive_solver].
  rewrite (Hd' d') by done. naive_solver.
Qed.

(** The dependencies after some routes. *)
Record tracked (nodes : btree str StepSchema) (before : list (StepInput * PlanRoute)) (d : deps) :
  Prop := {
  tk_ok : bt_ok d;
  tk_keys k : k ∈ d.*1 ↔ k ∈ nodes.*1;
  tk_sources n s : (n, s) ∈ d → bt_ok s ∧ ∀ m, m ∈ s.*1 ↔ depends before n m;
}.

Lemma tracked_start nodes d : registered nodes d → tracked nodes [] d.
Proof.
  intros (Hok&Hk&He). split; [done|done|]. intros n s Hin. rewrite Forall_forall in He.
  specialize (He _ Hin). cbn in He. subst s. split; [done|]. intros m.
  split; [by intros ?%elem_of_nil|]. by intros (?&?&?&?%elem_of_nil&_).
Qed.

Lemma depends_app before x n m :
  depends (before ++ [x]) n m ↔
  depends before n m ∨
  si_instance x.1 = n ∧ ∃ output, pr_output x.2 = Some output ∧ pr_same_tick x.2 = true ∧
                                  so_instance output = m.
Proof.
  unfold depends. setoid_rewrite elem_of_app. setoid_rewrite list_elem_of_singleton.
  destruct x as [i r]; cbn. split.
  - intros (i'&r'&o&[Hin|[= -> ->]]&Hrest); [left; eauto 10|right; naive_solver].
  - intros [(i'&r'&o&Hin&Hrest)|(Hi&o&Ho)]; [exists i', r', o; eauto 10|].
    exists i, r, o. naive_solver.
Qed.

(** A route without a same-tick source leaves the dependencies alone. *)
Lemma tracked_keep nodes before d x :
  tracked nodes before d → (∀ o, pr_output x.2 = Some o → pr_same_tick x.2 = false) →
  tracked nodes (before ++ [x]) d.
Proof.
  intros [Hok Hk Hs] Hx. split; [done|done|]. intros n s Hin. destruct (Hs n s Hin) as [Hbs Hm].
  split; [done|]. intros m. rewrite Hm, depends_app. split; [by left|].
  intros [?|(_&o&Ho&Ht&_)]; [done|]. apply Hx in Ho. congruence.
Qed.

Lemma tracked_add nodes before d x output :
  tracked nodes before d → si_instance x.1 ∈ nodes.*1 →
  pr_output x.2 = Some output → pr_same_tick x.2 = true →
  tracked nodes (before ++ [x]) (add_dependency (si_instance x.1) (so_instance output) d).
Proof.
  intros [Hok Hk Hs] Hin Ho Ht. unfold add_dependency. set (n := si_instance x.1) in *.
  apply Hk, list_elem_of_fmap in Hin as ([n' s]&Heq&Hin). cbn in Heq. subst n'.
  rewrite (proj2 (bt_get_Some n s d Hok) Hin). cbn [default].
  destruct (Hs n s Hin) as [Hbs Hm]. split.
  - by apply bt_insert_ok.
  - intros k. rewrite <- Hk, <- !bt_contains_true by (done || by apply bt_insert_ok).
    unfold bt_contains. rewrite bt_get_insert by done. case_bool_decide as E; [|done].
    apply cmp_eq in E as ->. by rewrite (proj2 (bt_get_Some n s d Hok) Hin).
  - intros k t Hkt. apply bt_get_Some in Hkt; [|by apply bt_insert_ok].
    rewrite bt_get_insert in Hkt by done. case_bool_decide as E.
    + apply cmp_eq in E as ->. apply (inj Some) in Hkt as <-. split; [by apply bs_insert_ok|].
      intros m. rewrite bs_insert_elem, Hm, depends_app by done. fold n.
      rewrite Ho, Ht. naive_solver.
    + rewrite cmp_eq in E. apply bt_get_elem in Hkt. destruct (Hs k t Hkt) as [Hbt Hmt].
      split; [done|]. intros m. rewrite Hmt, depends_app. fold n. naive_solver.
Qed.

Lemma find_port_elem ports nodes i p t : find_port ports nodes i p = Some t → i ∈ nodes.*1.
Proof.
  unfold find_port. destruct (bt_get i nodes) eqn:E; [|done]. intros _.
  apply bt_get_elem in E. by apply (list_elem_of_fmap_2 fst) in E.
Qed.

Lemma check_route_exact nodes before d x :
  tracked nodes before d →
  match check_route nodes d x with
  | Ok d' => route_wf nodes x ∧ tracked nodes (before ++ [x]) d'
  | Err _ => ¬ route_wf nodes x
  end.
Proof.
  intros Hd. pose proof (tracked_keep nodes before d x Hd) as Hkeep.
  pose proof (λ o, tracked_add nodes before d x o Hd) as Hadd.
  destruct x as [input route]. unfold check_route, route_wf. cbn [fst snd] in *.
  destruct (find_port ss_inputs _ _ _) as [expected|] eqn:Ef; cbn [ok_or]; [|naive_solver].
  apply find_port_elem in Ef as Hin.
  assert (Hinit : match pr_initial route with
    | Some initial => if negb (step_type_eqb initial expected)
                      then Err (InitialTypeMismatch input expected initial) else Ok tt
    | None => Ok tt end = Ok tt ↔
    ∀ initial, pr_initial route = Some initial → same_type initial expected).
  { destruct (pr_initial route) as [t|]; [|naive_solver].
    pose proof (step_type_eqb_true t expected) as Ht. destruct (step_type_eqb t expected); naive_solver. }
  destruct (match pr_initial route with Some _ => _ | None => _ end) as [[]|]; [|naive_solver].
  destruct (pr_output route) as [output|]; [|split; [naive_solver|by apply Hkeep]].
  destruct (find_port ss_outputs _ _ _) as [actual|] eqn:Eo; cbn [ok_or]; [|naive_solver].
  pose proof (step_type_eqb_true actual expected) as Ht.
  destruct (step_type_eqb actual expected); cbn [negb]; [|naive_solver].
  split; [naive_solver|]. destruct (pr_same_tick route); [by apply Hadd|by apply Hkeep].
Qed.

(** ** The order *)

Record pending (nodes : btree str StepSchema) (inputs : btree StepInput PlanRoute)
    (order : list str) (d : deps) : Prop := {
  pe_ok : bt_ok d;
  pe_nodes : order ++ d.*1 ≡ₚ nodes.*1;
  pe_sources n s : (n, s) ∈ d → bt_ok s ∧ ∀ m, m ∈ s.*1 ↔ depends inputs n m ∧ m ∉ order;
  pe_topological : topological inputs order;
  pe_lexical : lexical inputs nodes.*1 order;
}.

Lemma length_bt_remove {K V} `{OrdLaws K} (k : K) (m : btree K V) :
  k ∈ m.*1 → bt_ok m → S (length (bt_remove k m).2) = length m.
Proof.
  induction m as [|[k' v] m IH]; cbn; [by intros ?%elem_of_nil|]. intros Hin [Hall Hok].
  destruct (cmp k k') eqn:E; cbn; [done| |].
  - apply elem_of_cons in Hin as [->|Hin]; [by rewrite cmp_refl in E|].
    apply list_elem_of_fmap in Hin as (e&->&He). rewrite Forall_forall in Hall.
    pose proof (cmp_trans _ _ _ E (Hall _ He)) as Hc. by rewrite cmp_refl in Hc.
  - apply elem_of_cons in Hin as [->|Hin]; [by rewrite cmp_refl in E|].
    specialize (IH Hin Hok). destruct (bt_remove k m) as [old m2]. cbn in *. by rewrite IH.
Qed.

Lemma bt_remove_perm {K V} `{OrdLaws K} (k : K) (m : btree K V) :
  k ∈ m.*1 → bt_ok m → m.*1 ≡ₚ k :: (bt_remove k m).2.*1.
Proof.
  induction m as [|[k' v] m IH]; cbn; [by intros ?%elem_of_nil|]. intros Hin [Hall Hok].
  destruct (cmp k k') eqn:E; cbn.
  - by apply cmp_eq in E as ->.
  - apply elem_of_cons in Hin as [->|Hin]; [by rewrite cmp_refl in E|].
    apply list_elem_of_fmap in Hin as (e&->&He). rewrite Forall_forall in Hall.
    pose proof (cmp_trans _ _ _ E (Hall _ He)) as Hc. by rewrite cmp_refl in Hc.
  - apply elem_of_cons in Hin as [->|Hin]; [by rewrite cmp_refl in E|].
    specialize (IH Hin Hok). destruct (bt_remove k m) as [old m2]. cbn in *.
    rewrite IH. apply Permutation_swap.
Qed.

Lemma remove_node_keys next d : (remove_node next d).*1 = (bt_remove next d).2.*1.
Proof.
  unfold remove_node. rewrite <- list_fmap_compose. apply list_fmap_ext.
  intros i [k s] _. done.
Qed.

Lemma remove_node_elem next d n s :
  bt_ok d → (n, s) ∈ remove_node next d →
  n ≠ next ∧ ∃ s0, (n, s0) ∈ d ∧ s = (bt_remove next s0).2.
Proof.
  intros Hok ([n' s0]&[= -> ->]&Hin)%list_elem_of_fmap.
  apply bt_remove_elem in Hin as [Hin Hne]; [|done]. eauto.
Qed.

(** The last element of a list and the position in front of it. *)
Lemma snoc_split {A} (l pre post : list A) x n :
  l ++ [x] = pre ++ n :: post →
  (pre = l ∧ n = x ∧ post = []) ∨ ∃ post', post = post' ++ [x] ∧ l = pre ++ n :: post'.
Proof.
  destruct post as [|y post _] using rev_ind.
  - intros [-> [= ->]]%app_inj_tail_iff. by left.
  - rewrite app_comm_cons, app_assoc. intros [-> ->]%app_inj_tail_iff. right. eauto.
Qed.

(** The first entry that satisfies a test comes before all others that do. *)
Lemma find_first {K V} `{OrdLaws K} (p : K * V → bool) (m : btree K V) x y :
  bt_ok m → find p m = Some x → y ∈ m → p y = true → y.1 ≠ x.1 → cmp x.1 y.1 = Lt.
Proof.
  induction m as [|[k v] m IH]; cbn [find]; [done|]. intros Hok. destruct (p (k, v)) eqn:E.
  - intros [= <-] [->|Hy]%elem_of_cons _ Hne; [done|]. cbn. by apply (bt_ok_lt k v m).
  - intros Hf [->|Hy]%elem_of_cons Hp Hne; [congruence|]. apply IH; [apply Hok|done..].
Qed.

Lemma pending_ready nodes inputs order d n s :
  pending nodes inputs order d → (n, s) ∈ d → s = [] ↔ ready inputs order n.
Proof.
  intros [Hok Hn Hs Ht Hl] Hin. destruct (Hs n s Hin) as [Hbs Hm]. split.
  - intros -> m Hd. destruct (decide (m ∈ order)) as [|Hno]; [done|].
    exfalso. apply (elem_of_nil m). by apply Hm.
  - intros Hr. destruct s as [|[m u] s]; [done|]. destruct (proj1 (Hm m)) as [Hd Hno]; [by left|].
    by apply Hr in Hd.
Qed.

Lemma pending_step nodes inputs order d next s :
  pending nodes inputs order d →
  find (λ entry : str * btree str unit, bool_decide (length entry.2 = 0)) d = Some (next, s) →
  pending nodes inputs (order ++ [next]) (remove_node next d) ∧
  S (length (remove_node next d)) = length d.
Proof.
  intros Hp Hf. pose proof Hp as [Hok Hn Hs Ht Hl].
  pose proof Hf as [Hin Hnil]%find_Some. apply bool_decide_eq_true, nil_length_inv in Hnil.
  cbn in Hnil. subst s.
  assert (Hkey : next ∈ d.*1) by by apply (list_elem_of_fmap_2 fst) in Hin.
  pose proof (proj1 (pending_ready _ _ _ _ _ _ Hp Hin) eq_refl) as Hready.
  split; [split|].
  - unfold remove_node. by apply bt_ok_fmap, bt_remove_ok.
  - rewrite remove_node_keys, <- app_assoc. cbn. by rewrite <- bt_remove_perm.
  - intros n s (Hne&s0&Hin0&->)%remove_node_elem; [|done]. destruct (Hs n s0 Hin0) as [Hb Hm].
    split; [by apply bt_remove_ok|]. intros m. rewrite elem_of_app, list_elem_of_singleton.
    transitivity (m ∈ s0.*1 ∧ m ≠ next); [|rewrite Hm; tauto]. split.
    + intros ([m' u]&->&Hin')%list_elem_of_fmap. apply bt_remove_elem in Hin' as [Hin' Hne']; [|done].
      split; [|done]. by apply (list_elem_of_fmap_2 fst) in Hin'.
    + intros [([m' u]&->&Hin')%list_elem_of_fmap Hne']. apply list_elem_of_fmap.
      exists (m', u). split; [done|]. by apply bt_remove_elem.
  - intros pre n post [(->&->&->)|(post'&->&->)]%snoc_split; [done|by eapply Ht].
  - intros pre n post [(->&->&->)|(post'&->&->)]%snoc_split k Hk Hpre Hne Hr; [|by eapply Hl].
    rewrite <- Hn, elem_of_app in Hk. destruct Hk as [?|Hk]; [done|].
    apply list_elem_of_fmap in Hk as ([k' sk]&->&Hkd).
    apply (find_first _ d (next, []) (k', sk) Hok Hf Hkd); [|done].
    apply (pending_ready _ _ _ _ _ _ Hp Hkd) in Hr as ->. done.
  - unfold remove_node. rewrite length_fmap. by apply length_bt_remove.
Qed.

Lemma pending_stuck nodes inputs order d :
  pending nodes inputs order d → d ≠ [] →
  (∀ n m, depends inputs n m → m ∈ nodes.*1) →
  find (λ entry : str * btree str unit, bool_decide (length entry.2 = 0)) d = None →
  blocked nodes inputs d.*1.
Proof.
  intros [Hok Hn Hs Ht Hl] Hne Hdep Hf. split; [by destruct d|]. split.
  - intros n Hin. rewrite <- Hn. set_solver.
  - intros n ([n' s]&->&Hin)%list_elem_of_fmap. rewrite find_None, Forall_forall in Hf.
    specialize (Hf _ Hin). cbn in Hf |- *. apply bool_decide_eq_false in Hf.
    destruct s as [|[m u] s]; [done|]. destruct (Hs _ _ Hin) as [_ Hm].
    destruct (proj1 (Hm m)) as [Hd Hno]; [by left|]. exists m. split; [|done].
    apply Hdep in Hd. rewrite <- Hn in Hd. apply elem_of_app in Hd as [?|?]; done.
Qed.

Lemma order_nodes_spec nodes inputs fuel d order :
  pending nodes inputs order d → length d ≤ fuel →
  (∀ n m, depends inputs n m → m ∈ nodes.*1) →
  ∃ r, order_nodes fuel d order = Some r ∧
    match r with
    | Ok order' => schedule nodes inputs order'
    | Err e => ∃ instances, e = SameTickCycle instances ∧ blocked nodes inputs instances
    end.
Proof.
  intros Hp Hlen Hdep. revert d order Hp Hlen.
  induction fuel as [|fuel IH]; intros d order Hp Hlen; cbn [order_nodes];
    (case_bool_decide as Hd; [apply nil_length_inv in Hd as ->|]).
  - exists (Ok order). destruct Hp as [_ Hn _ Ht Hl]. rewrite app_nil_r in Hn. done.
  - lia.
  - exists (Ok order). destruct Hp as [_ Hn _ Ht Hl]. rewrite app_nil_r in Hn. done.
  - destruct (find _ d) as [[next s]|] eqn:Hf.
    + destruct (pending_step _ _ _ _ _ _ Hp Hf) as [Hp' Hl']. apply IH; [done|lia].
    + eexists. split; [done|]. eexists. split; [done|].
      apply (pending_stuck _ _ order); try done. by intros ->.
Qed.

(** ** Compilation *)

(** Only the ordering loop reports a cycle. *)
Lemma for_fold_error {A S E} (f : S → A → result S E) (P : E → Prop) :
  (∀ s x e, f s x = Err e → P e) → ∀ l s e, for_fold f s l = Err e → P e.
Proof.
  intros Hf. induction l as [|x l IH]; intros s e; cbn; [done|].
  destruct (f s x) eqn:Ef; [apply IH|]. intros [= <-]. by eapply Hf.
Qed.

Definition no_cycle (e : StepPlanError) : Prop := match e with SameTickCycle _ => False | _ => True end.

Lemma check_nodes_no_cycle inputs d nodes instances :
  for_fold (check_node inputs) d nodes = Err (SameTickCycle instances) → False.
Proof.
  apply (for_fold_error _ no_cycle). intros s [i schema] e. unfold check_node, map_err.
  destruct (validate_namespace i); [|by intros [= <-]].
  destruct (for_each _ (_ ++ _)) as [|e'] eqn:Ep.
  - destruct (for_each _ (ss_inputs schema).*1) as [|e'] eqn:Er; [done|]. intros [= <-].
    apply for_each_Err in Er as (?&port&?&_&_&H). by destruct (negb _); simplify_eq.
  - intros [= <-]. apply for_each_Err in Ep as (?&port&?&_&_&H).
    by destruct (validate_port_name port); simplify_eq.
Qed.

Lemma check_routes_no_cycle nodes d inputs instances :
  for_fold (check_route nodes) d inputs = Err (SameTickCycle instances) → False.
Proof.
  apply (for_fold_error _ no_cycle). intros s [i route] e. unfold check_route, ok_or.
  repeat case_match; intros; simplify_eq; exact I.
Qed.

Lemma tracked_pending nodes inputs d : bt_ok nodes → tracked nodes inputs d → pending nodes inputs [] d.
Proof.
  intros Hn [Hok Hk Hs]. split; [done| | |by intros [] ? ? ?|by intros [] ? ? ?].
  - cbn. apply NoDup_Permutation; [by apply bt_ok_NoDup..|done].
  - intros n s Hin. destruct (Hs n s Hin) as [Hb Hm]. split; [done|]. intros m. rewrite Hm.
    split; [|by intros []]. intros ?. split; [done|apply not_elem_of_nil].
Qed.

Definition routes (g : StepGraph) : btree StepInput PlanRoute := prod_map id route_of <$> sg_inputs g.

(** The maps of a graph are maps. *)
Record graph_typed (g : StepGraph) : Prop := {
  gt_nodes : bt_ok (sg_nodes g);
  gt_inputs : bt_ok (sg_inputs g);
  gt_schemas n schema : (n, schema) ∈ sg_nodes g → bt_ok (ss_inputs schema) ∧ bt_ok (ss_outputs schema);
}.

Lemma routes_depend nodes inputs n m :
  Forall (route_wf nodes) inputs → depends inputs n m → m ∈ nodes.*1.
Proof.
  intros Hall (input&route&output&Hin&_&Ho&_&<-). rewrite Forall_forall in Hall.
  destruct (Hall _ Hin) as (expected&_&_&Hout). destruct (Hout _ Ho) as (actual&Hf&_).
  by eapply find_port_elem.
Qed.

Lemma validate_routes_spec nodes inputs :
  bt_ok nodes → bt_ok inputs →
  ∃ r, validate_routes nodes inputs = Some r ∧
    match r with
    | Ok order => routes_wf nodes inputs ∧ schedule nodes inputs order
    | Err (SameTickCycle instances) => routes_wf nodes inputs ∧ blocked nodes inputs instances
    | Err _ => ¬ routes_wf nodes inputs
    end.
Proof.
  intros Hn Hi. unfold validate_routes.
  case_bool_decide as Hlen; [apply nil_length_inv in Hlen as ->|].
  { eexists. split; [done|]. by intros [Hne]. }
  assert (Hne : nodes ≠ []) by by intros ->.
  assert (Hstep : ∀ before d x, registered before d →
    match check_node inputs d x with
    | Ok d' => node_wf inputs x ∧ registered (before ++ [x]) d'
    | Err _ => ¬ node_wf inputs x end).
  { intros before d x. by apply check_node_exact. }
  assert (Hreg : registered [] []) by (split; [done|by split; [set_solver|constructor]]).
  pose proof (for_fold_exact (check_node inputs) registered (λ _, node_wf inputs) Hstep nodes [] []
                Hreg) as Hnodes.
  pose proof (each_after_Forall (node_wf inputs) [] nodes) as Hna. clear Hstep Hreg.
  destruct (for_fold (check_node inputs) [] nodes) as [d0|e0] eqn:E0.
  2: { exists (Err e0). split; [done|].
       assert (Hno : ¬ routes_wf nodes inputs) by (intros [_ Hw _]; by apply Hnodes, Hna).
       destruct e0; try done. exfalso. by eapply check_nodes_no_cycle. }
  destruct Hnodes as [Hwn Hd0%tracked_start]. rewrite app_nil_l in Hd0.
  pose proof (for_fold_exact (check_route nodes) (tracked nodes) (λ _, route_wf nodes)
                (check_route_exact nodes) inputs [] d0 Hd0) as Hroutes.
  pose proof (each_after_Forall (route_wf nodes) [] inputs) as Hra.
  destruct (for_fold (check_route nodes) d0 inputs) as [d|e] eqn:E1.
  2: { exists (Err e). split; [done|].
       assert (Hno : ¬ routes_wf nodes inputs) by (intros [_ _ Hw]; by apply Hroutes, Hra).
       destruct e; try done. exfalso. by eapply check_routes_no_cycle. }
  destruct Hroutes as [Hwr Hd]. rewrite app_nil_l in Hd.
  assert (Hwf : routes_wf nodes inputs) by (split; [done|by apply Hna|by apply Hra]).
  destruct (order_nodes_spec nodes inputs (length d) d []) as (r&Hr&Hspec).
  - by apply tracked_pending.
  - done.
  - intros n m. by apply routes_depend, Hra.
  - exists r. split; [done|]. destruct r as [order|e]; [done|].
    by destruct Hspec as (instances&->&Hb).
Qed.

(** A topological order leaves no node blocked. *)
Lemma topological_not_blocked nodes inputs order instances :
  order ≡ₚ nodes.*1 → topological inputs order → blocked nodes inputs instances → False.
Proof.
  intros Hperm Htop (Hne&Hsub&Hb).
  assert (Hno : ∀ pre post, order = pre ++ post → ∀ n, n ∈ pre → n ∉ instances).
  { induction pre as [|x pre IH] using rev_ind; intros post Heq n; [by intros ?%elem_of_nil|].
    rewrite <- app_assoc in Heq. cbn in Heq.
    intros [Hn|Hn%list_elem_of_singleton]%elem_of_app Hin; [by eapply IH|]. subst x.
    destruct (Hb n Hin) as (m&Hm&Hd). apply (Htop _ _ _ Heq) in Hd. by eapply IH. }
  destruct instances as [|n instances]; [done|].
  apply (Hno order [] (eq_sym (app_nil_r _)) n); [|by left].
  rewrite Hperm. apply Hsub. by left.
Qed.

Lemma compile_spec g :
  graph_typed g →
  ∃ r, compile g = Some r ∧
    match r with
    | Ok p => pl_graph p = g ∧ routes_wf (sg_nodes g) (routes g) ∧
              schedule (sg_nodes g) (routes g) (pl_order p)
    | Err (SameTickCycle instances) =>
        routes_wf (sg_nodes g) (routes g) ∧ blocked (sg_nodes g) (routes g) instances
    | Err _ => ¬ routes_wf (sg_nodes g) (routes g)
    end.
Proof.
  intros [Hn Hi _]. destruct (validate_routes_spec (sg_nodes g) (routes g)) as (r&Hr&Hspec);
    [done|by apply bt_ok_fmap|].
  unfold compile. fold (routes g). rewrite Hr.
  destruct r as [order|e]; [by exists (Ok (mkPlan g order))|by exists (Err e)].
Qed.

(** ** The graph itself

    What compilation decides, in terms of the graph's nodes and sources. *)

(** Node [n] takes an output of [m] in the same tick. *)
Definition waits_for (g : StepGraph) (n m : str) : Prop :=
  ∃ input output, (input, SameTick output) ∈ sg_inputs g ∧
    si_instance input = n ∧ so_instance output = m.

Definition declares_input (g : StepGraph) (input : StepInput) (ty : StepType) : Prop :=
  ∃ schema, (si_instance input, schema) ∈ sg_nodes g ∧ (si_port input, ty) ∈ ss_inputs schema.

Definition declares_output (g : StepGraph) (output : StepOutput) (ty : StepType) : Prop :=
  ∃ schema, (so_instance output, schema) ∈ sg_nodes g ∧ (so_port output, ty) ∈ ss_outputs schema.

(** A declared output of the type [ty]. *)
Definition produces (g : StepGraph) (output : StepOutput) (ty : StepType) : Prop :=
  ∃ actual, declares_output g output actual ∧ same_type actual ty.

(** A source for a declared input, of the input's type. *)
Definition source_sound (g : StepGraph) (input : StepInput) (source : StepSource) : Prop :=
  ∃ ty, declares_input g input ty ∧
    match source with
    | External => True
    | SameTick output => produces g output ty
    | PreviousTick output initial => same_type (sv_type initial) ty ∧ produces g output ty
    end.

(** There is a node, names are valid, every declared input has a source, and
    every source is sound. *)
Record graph_sound (g : StepGraph) : Prop := {
  gs_some : sg_nodes g ≠ [];
  gs_names n schema : (n, schema) ∈ sg_nodes g →
    namespace_wf n ∧
    ∀ port, port ∈ (ss_inputs schema).*1 ∨ port ∈ (ss_outputs schema).*1 → segment_wf port;
  gs_fed n schema port ty : (n, schema) ∈ sg_nodes g → (port, ty) ∈ ss_inputs schema →
    ∃ source, (mkStepInput n port, source) ∈ sg_inputs g;
  gs_sources input source : (input, source) ∈ sg_inputs g → source_sound g input source;
}.

(** An order of the nodes in which every same-tick source comes first. *)
Record runs_in_order (g : StepGraph) (order : list str) : Prop := {
  ri_nodes : order ≡ₚ (sg_nodes g).*1;
  ri_sources pre n post m : order = pre ++ n :: post → waits_for g n m → m ∈ pre;
}.

(** At every place stands the first by name of the nodes that could run there. *)
Definition first_by_name (g : StepGraph) (order : list str) : Prop :=
  ∀ pre n post k, order = pre ++ n :: post → k ∈ n :: post → (∀ m, waits_for g k m → m ∈ pre) →
    k = n ∨ cmp n k = Lt.

(** Nodes each of which waits for another of them. *)
Record deadlocked (g : StepGraph) (instances : list str) : Prop := {
  dl_some : instances ≠ [];
  dl_nodes n : n ∈ instances → n ∈ (sg_nodes g).*1;
  dl_waits n : n ∈ instances → ∃ m, m ∈ instances ∧ waits_for g n m;
}.

Section graph.
Context (g : StepGraph).
Hypothesis Hg : graph_typed g.

Lemma routes_elem input route :
  (input, route) ∈ routes g ↔ ∃ source, route = route_of source ∧ (input, source) ∈ sg_inputs g.
Proof.
  unfold routes. rewrite list_elem_of_fmap. split.
  - intros ([i source]&[= -> ->]&Hin). eauto.
  - intros (source&->&Hin). by exists (input, source).
Qed.

Lemma depends_waits n m : depends (routes g) n m ↔ waits_for g n m.
Proof.
  split.
  - intros (input&route&output&(source&->&Hin)%routes_elem&Hn&Ho&Hs&Hm).
    destruct source; simplify_eq/=. by exists input, output.
  - intros (input&output&Hin&Hn&Hm). exists input, (route_of (SameTick output)), output.
    split_and!; [|done..]. apply routes_elem. eauto.
Qed.

Lemma find_declared ports i p ty :
  (∀ n schema, (n, schema) ∈ sg_nodes g → bt_ok (ports schema)) →
  find_port ports (sg_nodes g) i p = Some ty ↔
  ∃ schema, (i, schema) ∈ sg_nodes g ∧ (p, ty) ∈ ports schema.
Proof.
  intros Hports. unfold find_port. pose proof (gt_nodes _ Hg) as Hn. split.
  - destruct (bt_get i (sg_nodes g)) as [schema|] eqn:E; [|done]. intros Hp.
    exists schema. split; by apply bt_get_elem.
  - intros (schema&Hi&Hp). rewrite (proj2 (bt_get_Some _ _ _ Hn) Hi).
    by apply bt_get_Some; [eapply Hports|].
Qed.

Lemma find_input input ty :
  find_port ss_inputs (sg_nodes g) (si_instance input) (si_port input) = Some ty ↔
  declares_input g input ty.
Proof. apply find_declared. intros n schema Hin. by apply (gt_schemas _ Hg n). Qed.

Lemma find_output output ty :
  find_port ss_outputs (sg_nodes g) (so_instance output) (so_port output) = Some ty ↔
  declares_output g output ty.
Proof. apply find_declared. intros n schema Hin. by apply (gt_schemas _ Hg n). Qed.

Lemma route_wf_sound input source :
  route_wf (sg_nodes g) (input, route_of source) ↔ source_sound g input source.
Proof.
  unfold route_wf, source_sound, produces. cbn [fst snd]. setoid_rewrite find_input.
  setoid_rewrite find_output. destruct source; cbn [route_of pr_initial pr_output]; naive_solver.
Qed.

Lemma routes_wf_sound : routes_wf (sg_nodes g) (routes g) ↔ graph_sound g.
Proof.
  split.
  - intros [Hne Hns Hrs]. rewrite Forall_forall in Hns.
    pose proof (proj1 (Forall_forall (route_wf (sg_nodes g)) (routes g)) Hrs) as Hroutes.
    split; [done|..].
    + intros n schema Hin. destruct (Hns _ Hin) as [? Hp _]. split; [done|].
      intros port Hport. apply Hp. by apply elem_of_app.
    + intros n schema port ty Hin Hp. destruct (Hns _ Hin) as [_ _ Hr].
      apply (list_elem_of_fmap_2 fst) in Hp. apply Hr in Hp as Hr'.
      apply list_elem_of_fmap in Hr' as ([i route]&Hi&(source&_&Hs)%routes_elem). cbn in Hi. subst i.
      by exists source.
    + intros input source Hin. apply route_wf_sound, Hroutes, routes_elem. eauto.
  - intros [Hne Hns Hfed Hrs]. split; [done|..]; apply Forall_forall.
    + intros [n schema] Hin. destruct (Hns _ _ Hin) as [? Hp]. split; cbn [fst snd]; [done|..].
      * intros port Hport. apply Hp. by apply elem_of_app in Hport.
      * intros port ([p ty]&->&Hport)%list_elem_of_fmap. cbn [fst].
        destruct (Hfed _ _ _ _ Hin Hport) as [source Hs].
        apply (list_elem_of_fmap_2' fst _ (mkStepInput n p, route_of source)); [|done].
        apply routes_elem. eauto.
    + intros [input route] (source&->&Hin)%routes_elem. by apply route_wf_sound, Hrs.
Qed.

Lemma topological_in_order order :
  order ≡ₚ (sg_nodes g).*1 → topological (routes g) order ↔ runs_in_order g order.
Proof.
  intros Hperm. unfold topological, ready. setoid_rewrite depends_waits. split.
  - intros Ht. split; [done|]. intros pre n post m Heq. by eapply Ht.
  - intros [_ Hs] pre n post Heq m. by eapply Hs.
Qed.

Lemma schedule_first order :
  schedule (sg_nodes g) (routes g) order → runs_in_order g order ∧ first_by_name g order.
Proof.
  intros [Hperm Ht Hl]. split; [by apply topological_in_order|].
  intros pre n post k Heq Hk Hready. destruct (decide (k = n)) as [|Hne]; [by left|right].
  assert (Hnd : NoDup order) by (rewrite Hperm; apply bt_ok_NoDup, Hg).
  apply (Hl pre n post Heq); [| |done|].
  - rewrite <- Hperm, Heq. apply elem_of_app. by right.
  - intros Hpre. rewrite Heq in Hnd. apply NoDup_app in Hnd as (_&Hdis&_). by apply (Hdis k).
  - intros m Hm%depends_waits. by apply Hready.
Qed.

Lemma blocked_deadlocked instances :
  blocked (sg_nodes g) (routes g) instances → deadlocked g instances.
Proof.
  intros (Hne&Hsub&Hb). split; [done|by apply Hsub|]. intros n Hn.
  destruct (Hb n Hn) as (m&Hm&Hd%depends_waits). eauto.
Qed.
End graph.
