(* ===== verification/StepScheduler.v ===== *)
(** * StepScheduler: advancing logical time ([crates/reiny/src/step/request.rs],
    [step/execution.rs], [step/scheduler.rs])

    One call of [advance_controlled] is a function of the scheduler, the
    executor and the commit gate.  The executor is a state [X] and what an
    invocation does ([Invocation]): complete, unwind, or stay pending until the
    caller drops the future, the only await point.  [None] is a panic of the
    scheduler itself (a missing map entry). *)

From Stdlib Require Import ZArith Lia.
From S2P Require Import Prelude Text Btree Core Bindings Step StepPlan.

(** ** Requests *)

Record StepRequest : Type := mkRequest { rq_dt : Z; rq_inputs : btree StepInput StepValue }.

Record ValidatedRequest : Type := mkValidated {
  vr_tick : StepTick;
  vr_next_index : Z;
  vr_inputs : btree StepInput StepValue;
}.

(** The first loop: no value without an external route. *)
Definition check_supplied (p : Plan) (input : StepInput) : result unit StepRequestError :=
  match bt_get input (sg_inputs (pl_graph p)) with
  | Some External => Ok tt
  | Some (SameTick _ | PreviousTick _ _) | None => Err (UnexpectedInput input)
  end.

(** The second loop: a value of the declared type for every external route. *)
Definition check_required (p : Plan) (inputs : btree StepInput StepValue)
    (entry : StepInput * StepSource) : option (result unit StepRequestError) :=
  let '(input, source) := entry in
  match source with
  | External =>
      match bt_get input inputs with
      | None => Some (Err (RequestMissingInput input))
      | Some value =>
          match find_port ss_inputs (sg_nodes (pl_graph p)) (si_instance input) (si_port input) with
          | None => None
          | Some expected =>
              Some (if negb (step_type_eqb (sv_type value) expected)
                    then Err (RequestTypeMismatch input expected (sv_type value)) else Ok tt)
          end
      end
  | SameTick _ | PreviousTick _ _ => Some (Ok tt)
  end.

(** A loop whose body may panic. *)
Fixpoint for_each_opt {A E} (f : A → option (result unit E)) (l : list A) : option (result unit E) :=
  match l with
  | [] => Some (Ok tt)
  | x :: l' => match f x with Some (Ok _) => for_each_opt f l' | r => r end
  end.

(** [StepRequest::validate] *)
Definition request_validate (self : StepRequest) (p : Plan) (clock : ClockSnapshot) :
  option (result ValidatedRequest StepRequestError) :=
  if (rq_dt self =? 0)%Z then Some (Err ZeroDt) else
  match duration_checked_add (ck_time clock) (rq_dt self) with
  | None => Some (Err TimeOverflow)
  | Some end_ =>
      match checked_succ (ck_next_index clock) with
      | None => Some (Err TickOverflow)
      | Some next_index =>
          match for_each (check_supplied p) (rq_inputs self).*1 with
          | Err e => Some (Err e)
          | Ok _ =>
              match for_each_opt (check_required p (rq_inputs self)) (sg_inputs (pl_graph p)) with
              | None => None
              | Some (Err e) => Some (Err e)
              | Some (Ok _) =>
                  Some (Ok (mkValidated
                    (mkStepTick (mkStepId (ck_epoch clock) (ck_next_index clock))
                       (ck_time clock) (rq_dt self) end_)
                    next_index (rq_inputs self)))
              end
          end
      end
  end.

(** ** The guard of one advancement *)

(** [AdvanceGuard::new]: the failure to record if the tick does not commit *)
Definition guard_new (tick : StepId) : StepFailure :=
  mkFailure tick AdvanceDropped None None [] []
    (bytes_of "advance dropped after dispatch; component effects may persist").

(** [AdvanceGuard::dispatch] *)
Definition guard_dispatch (f : StepFailure) (instance : str) : StepFailure :=
  mkFailure (sf_tick f) (sf_kind f) (Some instance) (sf_port f) (sf_attempted f ++ [instance])
    (sf_completed f) (sf_detail f).

Definition failure_because (f : StepFailure) (kind : StepFailureKind) (detail : str) : StepFailure :=
  mkFailure (sf_tick f) kind (sf_instance f) (sf_port f) (sf_attempted f) (sf_completed f) detail.

Definition failure_at_port (f : StepFailure) (port : str) : StepFailure :=
  mkFailure (sf_tick f) (sf_kind f) (sf_instance f) (Some port) (sf_attempted f) (sf_completed f)
    (sf_detail f).

Definition failure_completed (f : StepFailure) (instance : str) : StepFailure :=
  mkFailure (sf_tick f) (sf_kind f) (sf_instance f) (sf_port f) (sf_attempted f)
    (sf_completed f ++ [instance]) (sf_detail f).

(** [impl Drop for AdvanceGuard], armed *)
Definition guard_drop (f : StepFailure) (panicking : bool) : StepFailure :=
  if panicking
  then failure_because f NodePanicked (bytes_of "unwound after dispatch; component effects may persist")
  else f.

(** ** Invocations *)

(** The payload of an unwind: a string, or something else. *)
Definition payload : Type := option str.

(** What happens to the future of one invocation: it is polled to a result or
    an unwind, and then disposed of, which may unwind too; or the advancement
    is dropped while it is pending. *)
Inductive Invocation : Type :=
  | Polled (r : result (result StepOutputs NodeError) payload) (disposal : option payload)
  | Abandoned (panicking : bool).

Definition panic_detail (p : payload) : str :=
  default (bytes_of "node panicked with a non-string payload") p.

(** [catch_node]; [None] when the future is dropped *)
Definition catch_node (i : Invocation) : option (result StepOutputs (StepFailureKind * str)) :=
  match i with
  | Abandoned _ => None
  | Polled _ (Some p) => Some (Err (NodePanicked, panic_detail p))
  | Polled (Ok (Ok outputs)) None => Some (Ok outputs)
  | Polled (Ok (Err error)) None => Some (Err (NodeErrorKind, ne_message error))
  | Polled (Err p) None => Some (Err (NodePanicked, panic_detail p))
  end.

(** [iter().find_map(f)] *)
Fixpoint find_map {A B} (f : A → option B) (l : list A) : option B :=
  match l with
  | [] => None
  | x :: l' => match f x with Some y => Some y | None => find_map f l' end
  end.

Definition invalid_output (schema : btree str StepType) (outputs : StepOutputs) : option (str * str) :=
  match find_map (λ '(port, expected),
                    match bt_get port outputs with
                    | None => Some (port, bytes_of "missing declared output")
                    | Some value =>
                        if negb (step_type_eqb (sv_type value) expected)
                        then Some (port, bytes_of "output schema mismatch") else None
                    end) schema with
  | Some r => Some r
  | None =>
      (λ port, (port, bytes_of "undeclared output")) <$>
      find (λ port, negb (bt_contains port schema)) outputs.*1
  end.

(** ** The scheduler *)

Record StepScheduler : Type := mkScheduler {
  sch_plan : Plan;
  sch_epoch : Z;
  sch_next_index : Z;
  sch_time : Z;
  sch_previous : btree StepOutput StepValue;
  sch_fault : option StepFailure;
}.

(** [StepScheduler::new], over the counter [NEXT_EPOCH]; the loop of the plan
    is the only partial part *)
Definition scheduler_new (graph : StepGraph) (initial_time : Z) :
  ST Z (result StepScheduler StepPlanError) := λ next_epoch,
  match compile graph with
  | None => None
  | Some (Err e) => Some (Err e, next_epoch)
  | Some (Ok plan) =>
      match checked_succ next_epoch with
      | None => Some (Err EpochExhausted, next_epoch)
      | Some next_epoch' =>
          Some (Ok (mkScheduler plan next_epoch 0 initial_time [] None), next_epoch')
      end
  end.

(** [StepScheduler::clock] *)
Definition clock (self : StepScheduler) : ClockSnapshot :=
  mkClock (sch_epoch self) (sch_next_index self) (sch_time self)
    match sch_fault self with Some failure => PhaseFaulted failure | None => PhaseReady end.

Definition set_fault (self : StepScheduler) (f : StepFailure) : StepScheduler :=
  mkScheduler (sch_plan self) (sch_epoch self) (sch_next_index self) (sch_time self)
    (sch_previous self) (Some f).

(** The value of one route. *)
Definition route_value (self : StepScheduler) (supplied : btree StepInput StepValue)
    (outputs : btree StepOutput StepValue) (input : StepInput) (source : StepSource) :
  option StepValue :=
  match source with
  | External => bt_get input supplied
  | SameTick source => bt_get source outputs
  | PreviousTick source initial =>
      if (sch_next_index self =? 0)%Z then Some initial else bt_get source (sch_previous self)
  end.

(** The inputs of a node, collected by port; [None] where an entry is missing. *)
Definition node_inputs (self : StepScheduler) (supplied : btree StepInput StepValue)
    (outputs : btree StepOutput StepValue) (instance : str) : option StepInputs :=
  bt_collect <$>
  mapM (λ '(input, source), (λ v, (si_port input, v)) <$> route_value self supplied outputs input source)
    (filter (λ e : StepInput * StepSource, si_instance e.1 = instance)
       (sg_inputs (pl_graph (sch_plan self)) : list (StepInput * StepSource))).

(** How the loop over the nodes ends. *)
Inductive NodesEnd : Type :=
  | NodesDone (f : StepFailure) (outputs : btree StepOutput StepValue)
  | NodesFailed (f : StepFailure)
  | NodesDropped (f : StepFailure).

(** How a call of [advance] ends: with its result, or dropped by the caller. *)
Inductive Advance : Type :=
  | Returned (r : result StepReceipt SchedulerError)
  | DroppedByCaller.

Section advance.
Context {X : Type} (invoke : X → str → StepTick → StepInputs → Invocation * X).
(** [Commit::commit]: [None] when the bookkeeping was applied *)
Context {C : Type} (commit : C → StepReceipt → ClockSnapshot → option StepFailureKind * C).

(** The loop over the nodes, in plan order. *)
Fixpoint run_nodes (self : StepScheduler) (request : ValidatedRequest) (f : StepFailure)
    (outputs : btree StepOutput StepValue) (x : X) (order : list str) : option (NodesEnd * X) :=
  match order with
  | [] => Some (NodesDone f outputs, x)
  | instance :: rest =>
      match node_inputs self (vr_inputs request) outputs instance with
      | None => None
      | Some inputs =>
          let f := guard_dispatch f instance in
          let '(invocation, x) := invoke x instance (vr_tick request) inputs in
          match catch_node invocation with
          | None =>
              Some (NodesDropped (guard_drop f
                match invocation with Abandoned panicking => panicking | _ => false end), x)
          | Some (Err (kind, detail)) => Some (NodesFailed (failure_because f kind detail), x)
          | Some (Ok node_outputs) =>
              match bt_get instance (sg_nodes (pl_graph (sch_plan self))) with
              | None => None
              | Some schema =>
                  match invalid_output (ss_outputs schema) node_outputs with
                  | Some (port, detail) =>
                      Some (NodesFailed (failure_because (failure_at_port f port)
                                           InvalidOutputs detail), x)
                  | None =>
                      run_nodes self request (failure_completed f instance)
                        (bt_extend outputs
                           ((λ '(port, value), (mkStepOutput instance port, value)) <$> node_outputs))
                        x rest
                  end
              end
          end
      end
  end.

(** The delayed outputs to keep for the next tick. *)
Definition delayed (g : StepGraph) (outputs : btree StepOutput StepValue) :
  option (btree StepOutput StepValue) :=
  bt_collect <$>
  mapM (λ source, (λ v, (source, v)) <$> bt_get source outputs)
    (omap (λ e : StepInput * StepSource,
             match e.2 with PreviousTick source _ => Some source | External | SameTick _ => None end)
       (sg_inputs g)).

(** [StepScheduler::advance_controlled] *)
Definition advance_controlled (self : StepScheduler) (x : X) (c : C) (request : StepRequest) :
  option (Advance * StepScheduler * X * C) :=
  match sch_fault self with
  | Some failure => Some (Returned (Err (Faulted failure)), self, x, c)
  | None =>
      match request_validate request (sch_plan self) (clock self) with
      | None => None
      | Some (Err e) => Some (Returned (Err (Request e)), self, x, c)
      | Some (Ok request) =>
          let f := guard_new (tick_id (vr_tick request)) in
          match run_nodes self request f [] x (pl_order (sch_plan self)) with
          | None => None
          | Some (NodesDropped f, x) => Some (DroppedByCaller, set_fault self f, x, c)
          | Some (NodesFailed f, x) => Some (Returned (Err (Failed f)), set_fault self f, x, c)
          | Some (NodesDone f outputs, x) =>
              match delayed (pl_graph (sch_plan self)) outputs with
              | None => None
              | Some previous =>
                  let receipt := mkReceipt (vr_tick request) outputs in
                  let ready := mkClock (sch_epoch self) (vr_next_index request)
                                 (tick_end (vr_tick request)) PhaseReady in
                  match commit c receipt ready with
                  | (None, c) =>
                      Some (Returned (Ok receipt),
                            mkScheduler (sch_plan self) (sch_epoch self) (vr_next_index request)
                              (tick_end (vr_tick request)) previous None, x, c)
                  | (Some kind, c) =>
                      let f := failure_because f kind
                        (bytes_of "host rejected bookkeeping commit; effects may persist") in
                      Some (Returned (Err (Failed f)), set_fault self f, x, c)
                  end
              end
          end
      end
  end.
End advance.

(** [impl Commit for DirectCommit] *)
Definition direct_commit (c : unit) (receipt : StepReceipt) (clock : ClockSnapshot) :
  option StepFailureKind * unit := (None, c).

(** [StepScheduler::advance] *)
Definition advance {X} (invoke : X → str → StepTick → StepInputs → Invocation * X)
    (self : StepScheduler) (x : X) (request : StepRequest) : option (Advance * StepScheduler * X) :=
  match advance_controlled invoke direct_commit self x tt request with
  | Some (r, self, x, _) => Some (r, self, x)
  | None => None
  end.

(** [StepScheduler::interrupted] *)
Definition interrupted (self : StepScheduler) (kind : StepFailureKind) :
  option StepFailure * StepScheduler :=
  match sch_fault self with
  | None => (None, self)
  | Some failure =>
      let failure :=
        failure_because failure kind
          (if bool_decide (sf_kind failure = AdvanceDropped)
           then bytes_of "host interrupted advancement; component effects may persist"
           else sf_detail failure) in
      (Some failure, set_fault self failure)
  end.
