(* ===== verification/StepSchedulerSpec.v ===== *)
(** * StepSchedulerSpec: the meaning of one advancement

    The invariant of a scheduler ([sched_ok]), what a valid request is
    ([request_wf]), and the loop over the nodes as a run of a synchronous
    dataflow network: every node sees the values its routes name in the tick's
    final outputs. *)

From Stdlib Require Import ZArith Lia.
From S2P Require Import Prelude Text Btree Core Bindings BindingsSpec Step StepPlan.
From S2P Require Import StepScheduler.

(** ** Plans and schedulers *)

Record plan_ok (p : Plan) : Prop := {
  po_typed : graph_typed (pl_graph p);
  po_routes : routes_wf (sg_nodes (pl_graph p)) (routes (pl_graph p));
  po_order : schedule (sg_nodes (pl_graph p)) (routes (pl_graph p)) (pl_order p);
}.

Lemma compile_plan_ok g p : graph_typed g → compile g = Some (Ok p) → plan_ok p ∧ pl_graph p = g.
Proof.
  intros Hg Hc. destruct (compile_spec g Hg) as (r&Hr&Hspec).
  rewrite Hc in Hr. apply (inj Some) in Hr as <-. destruct Hspec as (Heq&Hrw&Hs).
  split; [|done]. by split; rewrite Heq.
Qed.

(** A value of the type a port declares. *)
Definition fits (v : option StepValue) (ty : StepType) : Prop :=
  ∃ x, v = Some x ∧ same_type (sv_type x) ty.

Record sched_ok (s : StepScheduler) : Prop := {
  so_plan : plan_ok (sch_plan s);
  so_index : is_u64 (sch_next_index s);
  so_time : is_duration (sch_time s);
  so_previous : bt_ok (sch_previous s);
  so_delayed input source initial :
    sch_next_index s ≠ 0%Z →
    (input, PreviousTick source initial) ∈ sg_inputs (pl_graph (sch_plan s)) →
    is_Some (bt_get source (sch_previous s));
}.

(** ** Requests *)

Record request_typed (r : StepRequest) : Prop := {
  rqt_dt : is_duration (rq_dt r);
  rqt_inputs : bt_ok (rq_inputs r);
}.

(** Positive, within the range of the clock, and with a value of the declared
    type for exactly the external inputs. *)
Record request_wf (s : StepScheduler) (r : StepRequest) : Prop := {
  qw_positive : rq_dt r ≠ 0%Z;
  qw_time : (sch_time s + rq_dt r ≤ duration_max)%Z;
  qw_index : (sch_next_index s < u64_max)%Z;
  qw_inputs input : input ∈ (rq_inputs r).*1 ↔ (input, External) ∈ sg_inputs (pl_graph (sch_plan s));
  qw_types input v ty :
    (input, v) ∈ rq_inputs r →
    find_port ss_inputs (sg_nodes (pl_graph (sch_plan s))) (si_instance input) (si_port input) = Some ty →
    same_type (sv_type v) ty;
}.

Definition validated (s : StepScheduler) (r : StepRequest) : ValidatedRequest :=
  mkValidated
    (mkStepTick (mkStepId (sch_epoch s) (sch_next_index s)) (sch_time s) (rq_dt r)
       (sch_time s + rq_dt r))
    (sch_next_index s + 1) (rq_inputs r).

Lemma for_each_opt_spec {A E} (f : A → option (result unit E)) l :
  (∀ x, x ∈ l → f x ≠ None) →
  for_each_opt f l ≠ None ∧
  (for_each_opt f l = Some (Ok tt) ↔ Forall (λ x, f x = Some (Ok tt)) l).
Proof.
  induction l as [|x l IH]; cbn; intros Hall; [by split; [|split; [constructor|]]|].
  destruct IH as [IHt IH]; [intros y Hy; apply Hall; by right|].
  pose proof (Hall x (list_elem_of_here _ _)) as Hx. rewrite Forall_cons.
  destruct (f x) as [[[]|]|]; naive_solver.
Qed.

Section requests.
Context (s : StepScheduler) (r : StepRequest).
Hypothesis Hs : sched_ok s.
Hypothesis Hr : request_typed r.
Let g := pl_graph (sch_plan s).

Lemma check_supplied_Ok input :
  check_supplied (sch_plan s) input = Ok tt ↔ (input, External) ∈ sg_inputs g.
Proof.
  unfold check_supplied, g.
  rewrite <- (bt_get_Some input External _ (gt_inputs _ (po_typed _ (so_plan _ Hs)))).
  destruct (bt_get input _) as [[]|]; naive_solver.
Qed.

(** Every route has a declared destination. *)
Lemma route_declared input source :
  (input, source) ∈ sg_inputs g →
  route_wf (sg_nodes g) (input, route_of source).
Proof.
  intros Hin. destruct (so_plan _ Hs) as [_ [_ _ Hall] _]. rewrite Forall_forall in Hall.
  apply Hall. unfold routes. apply list_elem_of_fmap. by exists (input, source).
Qed.

Lemma check_required_spec input source :
  (input, source) ∈ sg_inputs g →
  check_required (sch_plan s) (rq_inputs r) (input, source) ≠ None ∧
  (check_required (sch_plan s) (rq_inputs r) (input, source) = Some (Ok tt) ↔
   (source = External → ∃ v ty, (input, v) ∈ rq_inputs r ∧
      find_port ss_inputs (sg_nodes g) (si_instance input) (si_port input) = Some ty ∧
      same_type (sv_type v) ty)).
Proof.
  intros Hin. destruct (route_declared _ _ Hin) as (ty&Hty&_). cbn in Hty.
  unfold check_required. fold g. rewrite Hty.
  destruct source; [|split; [done|naive_solver]..].
  pose proof (λ v, bt_get_Some input v _ (rqt_inputs _ Hr)) as Hget.
  destruct (bt_get input (rq_inputs r)) as [v|]; [|split; [done|]].
  - split; [done|]. pose proof (step_type_eqb_true (sv_type v) ty) as Heq.
    assert (Hv : (input, v) ∈ rq_inputs r) by by apply Hget.
    destruct (step_type_eqb (sv_type v) ty); cbn.
    + split; [|done]. intros _ _. exists v, ty. naive_solver.
    + split; [done|]. intros H. destruct (H eq_refl) as (v'&ty'&Hv'%Hget&[= <-]&Ht).
      apply (inj Some) in Hv' as <-. by apply Heq in Ht.
  - split; [done|]. intros H. by destruct (H eq_refl) as (v'&ty'&Hv'%Hget&_).
Qed.

(** Validation returns, and accepts exactly the well-formed requests. *)
Lemma request_validate_spec :
  ∃ v, request_validate r (sch_plan s) (clock s) = Some v ∧
    match v with
    | Ok v => request_wf s r ∧ v = validated s r
    | Err _ => ¬ request_wf s r
    end.
Proof.
  destruct Hr as [Hdt Hri]. destruct (so_index _ Hs) as [Hi0 _].
  unfold request_validate, clock; cbn [ck_time ck_next_index ck_epoch].
  destruct (rq_dt r =? 0)%Z eqn:E0; [apply Z.eqb_eq in E0|apply Z.eqb_neq in E0].
  { eexists. split; [done|]. by intros []. }
  unfold duration_checked_add. destruct (_ <=? duration_max)%Z eqn:Et;
    [apply Z.leb_le in Et|apply Z.leb_gt in Et].
  2: { eexists. split; [done|]. intros []. lia. }
  unfold checked_succ, checked_add. destruct (_ <? _)%Z eqn:Ei;
    [apply Z.ltb_lt in Ei|apply Z.ltb_ge in Ei].
  2: { eexists. split; [done|]. intros []. unfold u64_max in *. lia. }
  pose proof (for_each_Ok (check_supplied (sch_plan s)) (rq_inputs r).*1) as Hsup.
  rewrite Forall_forall in Hsup. setoid_rewrite check_supplied_Ok in Hsup.
  destruct (for_each _ _) as [[]|e].
  2: { eexists. split; [done|]. intros [_ _ _ Hin _].
       assert (Err e = Ok tt) as [=]. apply Hsup. intros i Hi. by apply Hin. }
  destruct (for_each_opt_spec (check_required (sch_plan s) (rq_inputs r)) (sg_inputs g)) as [Htot Hreq].
  { intros [input source] Hin. by apply check_required_spec. }
  fold g. destruct (for_each_opt _ _) as [[[]|e]|]; [| |done].
  - eexists. split; [done|]. split; [|done].
    pose proof (proj1 Hreq eq_refl) as Hall. rewrite Forall_forall in Hall. split; [done|lia| | |].
    + unfold u64_max. lia.
    + intros input. fold g. split; [by apply Hsup|]. intros Hin.
      destruct (proj1 (proj2 (check_required_spec _ _ Hin)) (Hall _ Hin) eq_refl) as (v&ty&Hv&_).
      by apply (list_elem_of_fmap_2 fst) in Hv.
    + intros input v ty Hv Hty.
      assert (Hin : (input, External) ∈ sg_inputs g).
      { apply Hsup; [done|]. by apply (list_elem_of_fmap_2 fst) in Hv. }
      destruct (proj1 (proj2 (check_required_spec _ _ Hin)) (Hall _ Hin) eq_refl)
        as (v'&ty'&Hv'&Hty'&Hst).
      rewrite (bt_ok_functional _ _ _ _ Hri Hv Hv'). fold g in Hty. rewrite Hty in Hty'.
      by apply (inj Some) in Hty' as ->.
  - eexists. split; [done|]. intros [_ _ _ Hin Htypes].
    assert (Some (Err e) = Some (Ok tt)) as [=]. apply Hreq, Forall_forall.
    intros [input source] Hi. apply check_required_spec; [done|]. intros ->.
    pose proof (proj2 (Hin input) Hi) as ([i v]&->&Hv)%list_elem_of_fmap.
    destruct (route_declared _ _ Hi) as (ty&Hty&_). cbn in Hty |- *.
    exists v, ty. split_and!; [done|done|]. by eapply Htypes.
Qed.
End requests.

(** ** Outputs *)

Lemma find_map_None {A B} (f : A → option B) l : find_map f l = None ↔ Forall (λ x, f x = None) l.
Proof.
  induction l as [|x l IH]; cbn; [by split; [constructor|]|].
  rewrite Forall_cons, <- IH. destruct (f x); naive_solver.
Qed.

(** A node's outputs pass when they are exactly the declared ports, each with
    a value of its type. *)
Lemma invalid_output_None schema outputs :
  bt_ok schema → bt_ok outputs →
  invalid_output schema outputs = None ↔
  (∀ port ty, (port, ty) ∈ schema → fits (bt_get port outputs) ty) ∧
  (∀ port, port ∈ outputs.*1 → port ∈ schema.*1).
Proof.
  intros Hs Ho. unfold invalid_output.
  pose proof (find_map_None (λ '(port, expected),
                    match bt_get port outputs with
                    | None => Some (port, bytes_of "missing declared output")
                    | Some value =>
                        if negb (step_type_eqb (sv_type value) expected)
                        then Some (port, bytes_of "output schema mismatch") else None
                    end) schema) as Hm.
  assert (Hfit : Forall (λ x : str * StepType, (let '(port, expected) := x in
                    match bt_get port outputs with
                    | None => Some (port, bytes_of "missing declared output")
                    | Some value =>
                        if negb (step_type_eqb (sv_type value) expected)
                        then Some (port, bytes_of "output schema mismatch") else None
                    end) = None) schema ↔
            ∀ port ty, (port, ty) ∈ schema → fits (bt_get port outputs) ty).
  { rewrite Forall_forall. unfold fits. split.
    - intros Hall port ty Hin. specialize (Hall _ Hin). cbn in Hall.
      destruct (bt_get port outputs) as [v|]; [|done]. exists v. split; [done|].
      apply step_type_eqb_true. by destruct (step_type_eqb _ _).
    - intros Hall [port ty] Hin. destruct (Hall _ _ Hin) as (v&->&Hv%step_type_eqb_true).
      by rewrite Hv. }
  destruct (find_map _ schema) as [r|]; [split; [done|]; intros [H _]; apply Hfit, Hm in H; done|].
  rewrite fmap_None, find_None, Forall_forall. setoid_rewrite negb_false_iff.
  setoid_rewrite (bt_contains_true _ _ Hs). split; [|by intros [_ ?]].
  intros Hx. split; [by apply Hfit, Hm|done].
Qed.

(** What the nodes run so far have produced. *)
Record gathered (g : StepGraph) (before : list str) (O : btree StepOutput StepValue) : Prop := {
  ga_ok : bt_ok O;
  ga_before o : o ∈ O.*1 → so_instance o ∈ before;
  ga_values n schema port ty :
    n ∈ before → (n, schema) ∈ sg_nodes g → (port, ty) ∈ ss_outputs schema →
    fits (bt_get (mkStepOutput n port) O) ty;
}.

(** The outputs of one more node. *)
Definition node_entries (n : str) (outs : StepOutputs) : list (StepOutput * StepValue) :=
  (λ '(port, value), (mkStepOutput n port, value)) <$> outs.

Lemma node_entries_keys n outs : (node_entries n outs).*1 = mkStepOutput n <$> outs.*1.
Proof.
  unfold node_entries. rewrite <- !list_fmap_compose. apply list_fmap_ext. by intros i [p v] _.
Qed.

Lemma node_entries_NoDup n outs : bt_ok outs → NoDup (node_entries n outs).*1.
Proof.
  intros Ho. rewrite node_entries_keys. apply NoDup_fmap; [by intros ? ? [= ->]|].
  by apply bt_ok_NoDup.
Qed.

Section extend.
Context (g : StepGraph) (before : list str) (O : btree StepOutput StepValue).
Context (n : str) (schema : StepSchema) (outs : StepOutputs).
Hypothesis Hg : graph_typed g.
Hypothesis HO : gathered g before O.
Hypothesis Hn : (n, schema) ∈ sg_nodes g.
Hypothesis Hnew : n ∉ before.
Hypothesis Houts : bt_ok outs.
Hypothesis Hvalid : invalid_output (ss_outputs schema) outs = None.

Lemma extend_same port : bt_get (mkStepOutput n port) (bt_extend O (node_entries n outs)) = bt_get port outs.
Proof.
  pose proof (ga_ok _ _ _ HO) as Hok.
  destruct (bt_get port outs) as [v|] eqn:E.
  - apply bt_get_extend; [done|by apply node_entries_NoDup|].
    apply bt_get_elem in E. by apply (list_elem_of_fmap_2 (λ '(p, w), (mkStepOutput n p, w))) in E.
  - rewrite bt_get_extend_other; [|done|].
    + apply bt_get_None; [done|]. intros Hin. by apply (ga_before _ _ _ HO) in Hin.
    + rewrite node_entries_keys. intros (p&[= <-]&Hin)%list_elem_of_fmap.
      by apply bt_get_None in E.
Qed.

Lemma extend_other o :
  so_instance o ≠ n → bt_get o (bt_extend O (node_entries n outs)) = bt_get o O.
Proof.
  intros Hne. apply bt_get_extend_other; [apply HO|].
  rewrite node_entries_keys. by intros (p&->&_)%list_elem_of_fmap.
Qed.

Lemma gathered_extend : gathered g (before ++ [n]) (bt_extend O (node_entries n outs)).
Proof.
  pose proof HO as [Hok Hb Hv]. split.
  - by apply bt_extend_ok.
  - intros o [Hin|Hin]%bt_extend_keys; [| |done]; apply elem_of_app.
    + left. by apply Hb.
    + right. rewrite node_entries_keys in Hin. apply list_elem_of_fmap in Hin as (p&->&_). by left.
  - intros m schema' port ty [Hm|Hm%list_elem_of_singleton]%elem_of_app Hin Hp.
    + rewrite extend_other by (cbn; congruence || (intros ->; done)). by eapply Hv.
    + subst m. rewrite extend_same.
      rewrite (bt_ok_functional _ _ _ _ (gt_nodes _ Hg) Hin Hn) in Hp.
      apply invalid_output_None in Hvalid as [Hfit _]; [by apply Hfit| |done].
      by apply (gt_schemas _ Hg n).
Qed.
End extend.

(** ** Inputs of a node *)

(** What a route carries in a tick: the supplied value; what its source has in
    the outputs [O] of the tick; and for a delayed route what its source had in
    the receipt before, or the initial value where there is none. *)
Inductive carries (s : StepScheduler) (supplied : btree StepInput StepValue)
    (O : btree StepOutput StepValue) (input : StepInput) : StepSource → StepValue → Prop :=
  | carries_external v : bt_get input supplied = Some v → carries s supplied O input External v
  | carries_now output v : bt_get output O = Some v → carries s supplied O input (SameTick output) v
  | carries_initial output initial :
      sch_next_index s = 0%Z → carries s supplied O input (PreviousTick output initial) initial
  | carries_before output initial v :
      sch_next_index s ≠ 0%Z → bt_get output (sch_previous s) = Some v →
      carries s supplied O input (PreviousTick output initial) v.

(** The inputs a node receives: for every route to it, and only those, the
    value the route carries. *)
Definition receives (s : StepScheduler) (supplied : btree StepInput StepValue)
    (O : btree StepOutput StepValue) (n : str) (ins : StepInputs) : Prop :=
  (∀ input source, (input, source) ∈ sg_inputs (pl_graph (sch_plan s)) → si_instance input = n →
     ∃ v, carries s supplied O input source v ∧ bt_get (si_port input) ins = Some v) ∧
  (∀ port, port ∈ ins.*1 → mkStepInput n port ∈ (sg_inputs (pl_graph (sch_plan s))).*1).

Lemma route_value_carries s supplied O input source v :
  route_value s supplied O input source = Some v ↔ carries s supplied O input source v.
Proof.
  split.
  - destruct source as [|src|src initial]; cbn [route_value]; [by constructor..|].
    destruct (_ =? 0)%Z eqn:E; [apply Z.eqb_eq in E; intros [= ->]|apply Z.eqb_neq in E];
      by constructor.
  - intros [w|src w|src w E|src initial w E]; cbn [route_value]; [done..| |];
      [by rewrite E|by apply Z.eqb_neq in E as ->].
Qed.

Section inputs.
Context (s : StepScheduler) (supplied : btree StepInput StepValue).
Hypothesis Hs : sched_ok s.
Let g := pl_graph (sch_plan s).
Hypothesis Hsupplied : ∀ input, (input, External) ∈ sg_inputs g → is_Some (bt_get input supplied).

Lemma output_found before O n schema port ty :
  gathered g before O → n ∈ before → (n, schema) ∈ sg_nodes g →
  bt_get port (ss_outputs schema) = Some ty → is_Some (bt_get (mkStepOutput n port) O).
Proof.
  intros HO Hn Hin Hp%bt_get_elem.
  destruct (ga_values _ _ _ HO n schema port ty Hn Hin Hp) as (v&->&_). eauto.
Qed.

(** A source whose node has run has a value. *)
Lemma source_found before O src ty :
  gathered g before O → so_instance src ∈ before →
  find_port ss_outputs (sg_nodes g) (so_instance src) (so_port src) = Some ty →
  is_Some (bt_get src O).
Proof.
  intros HO Hin Hf. unfold find_port in Hf.
  destruct (bt_get (so_instance src) (sg_nodes g)) as [schema|] eqn:E; [|done].
  apply bt_get_elem in E. destruct src as [n port]. by eapply output_found.
Qed.

Lemma route_value_found before O input source :
  gathered g before O → ready (routes g) before (si_instance input) →
  (input, source) ∈ sg_inputs g → is_Some (route_value s supplied O input source).
Proof.
  intros HO Hr Hin. destruct source as [|src|src initial]; cbn [route_value].
  - by apply Hsupplied.
  - destruct (route_declared s Hs input (SameTick src) Hin) as (ty&_&_&Hout).
    destruct (Hout src eq_refl) as (actual&Hf&_).
    eapply source_found; [done| |done]. apply Hr.
    exists input, (route_of (SameTick src)), src. split; [|done].
    unfold routes. apply list_elem_of_fmap. by exists (input, SameTick src).
  - destruct (_ =? 0)%Z eqn:E; [eauto|]. apply Z.eqb_neq in E.
    by eapply (so_delayed s Hs).
Qed.

Lemma node_inputs_spec before O n :
  gathered g before O → ready (routes g) before n →
  ∃ ins, node_inputs s supplied O n = Some ins ∧ receives s supplied O n ins.
Proof.
  intros HO Hr. unfold node_inputs. fold g.
  set (l := filter (λ e : StepInput * StepSource, si_instance e.1 = n)
             (sg_inputs g : list (StepInput * StepSource))).
  assert (Hl : ∀ e, e ∈ l ↔ si_instance e.1 = n ∧ e ∈ sg_inputs g).
  { intros e. unfold l. by rewrite list_elem_of_filter. }
  set (f := λ '(input, source), (λ v, (si_port input, v)) <$> route_value s supplied O input source).
  destruct (proj2 (mapM_is_Some f l)) as [k Hk].
  { apply Forall_forall. intros [input source] [Hn Hin]%Hl. cbn in Hn. unfold compose, f.
    apply fmap_is_Some. eapply route_value_found; [done| |done]. by rewrite Hn. }
  rewrite Hk. exists (bt_collect k). split; [done|]. apply mapM_Some in Hk.
  assert (Hkeys : k.*1 = (λ e : StepInput * StepSource, si_port e.1) <$> l).
  { clear -Hk. induction Hk as [|[i src] [p v] l k Hx _ IH]; [done|]. cbn. rewrite IH. f_equal.
    apply fmap_Some in Hx as (w&_&[= -> _]). done. }
  assert (Hnd : NoDup k.*1).
  { rewrite Hkeys. pose proof (bt_ok_NoDup _ (gt_inputs _ (po_typed _ (so_plan _ Hs)))) as Hd.
    fold g in Hd. unfold l. clear -Hd. induction (sg_inputs g) as [|[i src] m IH]; [constructor|].
    cbn in Hd. apply NoDup_cons in Hd as [Hi Hd]. rewrite filter_cons. case_decide as Hn; [|by apply IH].
    cbn in *. apply NoDup_cons. split; [|by apply IH].
    intros ([j src']&Hp&[Hj Hin]%list_elem_of_filter)%list_elem_of_fmap. cbn in *.
    apply Hi, list_elem_of_fmap. exists (j, src'). split; [|done]. cbn.
    destruct i, j; cbn in *; congruence. }
  split.
  - intros input source Hin Hn. fold g in Hin.
    assert (Hil : (input, source) ∈ l) by by apply Hl.
    destruct (list_elem_of_lookup_1 _ _ Hil) as [j Hj].
    destruct (Forall2_lookup_l _ _ _ _ _ Hk Hj) as ([p v]&Hkj&Hf). cbn in Hf.
    apply fmap_Some in Hf as (w&Hw%route_value_carries&[= -> ->]). exists w. split; [done|].
    apply bt_get_extend; [done|done|]. by eapply list_elem_of_lookup_2.
  - intros port [?%elem_of_nil|Hp]%bt_extend_keys; [done| |done].
    rewrite Hkeys in Hp. apply list_elem_of_fmap in Hp as ([input source]&->&[Hn Hin]%Hl).
    cbn in *. apply list_elem_of_fmap. exists (input, source). split; [|done].
    cbn. destruct input; cbn in *; congruence.
Qed.

(** Later outputs do not change what a node has received. *)
Lemma receives_later before O O' n ins :
  ready (routes g) before n → (∀ o, so_instance o ∈ before → bt_get o O' = bt_get o O) →
  receives s supplied O n ins → receives s supplied O' n ins.
Proof.
  intros Hr Hsame [Hval Hkeys]. split; [|done]. intros input source Hin Hn.
  destruct (Hval input source Hin Hn) as (v&Hv&Hget). exists v. split; [|done].
  destruct Hv as [w Hw|src w Hw|src w|src initial w]; [by constructor| |by constructor..].
  constructor. rewrite Hsame; [done|]. apply Hr. exists input, (route_of (SameTick src)), src.
  split; [|done]. unfold routes. apply list_elem_of_fmap. by exists (input, SameTick src).
Qed.
End inputs.

(** ** The loop over the nodes *)

(** An invocation that completed: the node, its inputs and its outputs. *)
Definition call : Type := str * StepInputs * StepOutputs.
Definition call_node (c : call) : str := c.1.1.

Section run.
Context {X : Type} (invoke : X → str → StepTick → StepInputs → Invocation * X).

(** Outputs are maps. *)
Definition executor_typed : Prop :=
  ∀ x n t ins outs d x', invoke x n t ins = (Polled (Ok (Ok outs)) d, x') → bt_ok outs.

(** Successful invocations in sequence. *)
Inductive executes (t : StepTick) : X → list call → X → Prop :=
  | executes_nil x : executes t x [] x
  | executes_cons x n ins outs x' tr x'' :
      invoke x n t ins = (Polled (Ok (Ok outs)) None, x') → executes t x' tr x'' →
      executes t x ((n, ins, outs) :: tr) x''.

(** A call receives what its routes name and produces its node's outputs. *)
Definition dataflow (s : StepScheduler) (supplied : btree StepInput StepValue)
    (O : btree StepOutput StepValue) (c : call) : Prop :=
  let '(n, ins, outs) := c in
  receives s supplied O n ins ∧ ∀ port, bt_get (mkStepOutput n port) O = bt_get port outs.

(** Why a node stops the tick: it fails or panics, or its outputs are not the
    declared ones, or the caller drops the tick while it is pending. *)
Inductive stops (schema : StepSchema) : Invocation → StepFailure → bool → Prop :=
  | stops_failed i kind detail f :
      catch_node i = Some (Err (kind, detail)) → sf_kind f = kind → sf_detail f = detail →
      sf_port f = None → stops schema i f true
  | stops_invalid outs port detail f :
      invalid_output (ss_outputs schema) outs = Some (port, detail) →
      sf_kind f = InvalidOutputs → sf_port f = Some port → sf_detail f = detail →
      stops schema (Polled (Ok (Ok outs)) None) f true
  | stops_dropped (panicking : bool) f :
      sf_kind f = (if panicking then NodePanicked else AdvanceDropped) → sf_port f = None →
      stops schema (Abandoned panicking) f false.

(** The record of a tick that stopped: the calls before, and the last one. *)
Definition stopped_tick (s : StepScheduler) (t : StepTick) (x : X) (f : StepFailure) (x' : X)
    (returned : bool) : Prop :=
  ∃ tr n rest schema ins i x1,
    pl_order (sch_plan s) = (call_node <$> tr) ++ n :: rest ∧
    (n, schema) ∈ sg_nodes (pl_graph (sch_plan s)) ∧
    executes t x tr x1 ∧ invoke x1 n t ins = (i, x') ∧ stops schema i f returned ∧
    sf_tick f = tick_id t ∧ sf_instance f = Some n ∧
    sf_completed f = call_node <$> tr ∧ sf_attempted f = (call_node <$> tr) ++ [n].

Lemma executes_snoc t x tr x1 n ins outs x' :
  executes t x tr x1 → invoke x1 n t ins = (Polled (Ok (Ok outs)) None, x') →
  executes t x (tr ++ [(n, ins, outs)]) x'.
Proof.
  induction 1 as [x|x m ins' outs' x2 tr x3 Hi _ IH]; intros Hn; cbn.
  - econstructor; [done|constructor].
  - econstructor; [done|]. by apply IH.
Qed.

Context (s : StepScheduler) (request : ValidatedRequest) (x0 : X).
Hypothesis Htyped : executor_typed.
Hypothesis Hs : sched_ok s.
Let g := pl_graph (sch_plan s).
Hypothesis Hsupplied : ∀ input, (input, External) ∈ sg_inputs g →
  is_Some (bt_get input (vr_inputs request)).

(** The state of the loop after the calls [tr]. *)
Record loop_ok (tr : list call) (rest : list str) (f : StepFailure)
    (O : btree StepOutput StepValue) (x : X) : Prop := {
  lo_order : pl_order (sch_plan s) = (call_node <$> tr) ++ rest;
  lo_trace : executes (vr_tick request) x0 tr x;
  lo_gathered : gathered g (call_node <$> tr) O;
  lo_flow : Forall (dataflow s (vr_inputs request) O) tr;
  lo_tick : sf_tick f = tick_id (vr_tick request);
  lo_kind : sf_kind f = AdvanceDropped;
  lo_port : sf_port f = None;
  lo_attempted : sf_attempted f = call_node <$> tr;
  lo_completed : sf_completed f = call_node <$> tr;
}.

(** The next node is one of the graph, not run yet, and ready. *)
Lemma loop_next tr n rest f O x :
  loop_ok tr (n :: rest) f O x →
  (∃ schema, (n, schema) ∈ sg_nodes g) ∧ n ∉ call_node <$> tr ∧
  ready (routes g) (call_node <$> tr) n.
Proof.
  intros Hl. pose proof (lo_order _ _ _ _ _ Hl) as Ho.
  destruct (po_order _ (so_plan _ Hs)) as [Hperm Htop _]. fold g in Hperm, Htop. split_and!.
  - assert (Hin : n ∈ (sg_nodes g).*1) by (rewrite <- Hperm, Ho; set_solver).
    apply list_elem_of_fmap in Hin as ([n' schema]&->&Hin). eauto.
  - assert (Hnd : NoDup (pl_order (sch_plan s))).
    { rewrite Hperm. apply bt_ok_NoDup. apply (po_typed _ (so_plan _ Hs)). }
    rewrite Ho in Hnd. apply NoDup_app in Hnd as (_&Hdis&_). intros Hin.
    apply (Hdis _ Hin). by left.
  - by eapply Htop.
Qed.

(** One successful call keeps the loop's state. *)
Lemma loop_step tr n rest f O x schema ins outs x' :
  loop_ok tr (n :: rest) f O x → (n, schema) ∈ sg_nodes g →
  receives s (vr_inputs request) O n ins →
  invoke x n (vr_tick request) ins = (Polled (Ok (Ok outs)) None, x') →
  invalid_output (ss_outputs schema) outs = None →
  loop_ok (tr ++ [(n, ins, outs)]) rest (failure_completed (guard_dispatch f n) n)
    (bt_extend O (node_entries n outs)) x'.
Proof.
  intros Hl Hin Hrec Hinv Hvalid. pose proof (loop_next _ _ _ _ _ _ Hl) as (_&Hnew&Hready).
  pose proof (Htyped _ _ _ _ _ _ _ Hinv) as Hbt.
  pose proof (po_typed _ (so_plan _ Hs)) as Hg. fold g in Hg.
  destruct Hl as [Ho Htr Hga Hflow Ht Hk Hp Ha Hc].
  assert (Hsame : ∀ o, so_instance o ∈ call_node <$> tr →
            bt_get o (bt_extend O (node_entries n outs)) = bt_get o O).
  { intros o Hoin. eapply extend_other; [done|]. intros Heq. by rewrite Heq in Hoin. }
  assert (Hnodes : call_node <$> tr ++ [(n, ins, outs)] = (call_node <$> tr) ++ [n])
    by by rewrite fmap_app.
  split; rewrite ?Hnodes; cbn; try done.
  - by rewrite <- app_assoc.
  - by eapply executes_snoc.
  - by eapply gathered_extend.
  - apply Forall_app. split; [|apply Forall_singleton; cbn].
    + rewrite Forall_forall in Hflow. apply Forall_forall. intros [[m mins] mouts] Hm.
      destruct (Hflow _ Hm) as [Hmr Hmo]. split.
      * destruct (proj1 (list_elem_of_lookup _ _) Hm) as [j Hj].
        apply (take_drop_middle _ _ _) in Hj as Hsplit.
        eapply (receives_later s _ (call_node <$> take j tr)); [| |done].
        -- apply (sc_topological _ _ _ (po_order _ (so_plan _ Hs)) _ _
                    ((call_node <$> drop (S j) tr) ++ n :: rest)).
           rewrite Ho, <- Hsplit at 1. rewrite fmap_app, <- app_assoc. done.
        -- intros o (c&Heq&Hc')%list_elem_of_fmap. apply Hsame. rewrite Heq.
           apply list_elem_of_fmap_2. by eapply subseteq_take.
      * intros port. rewrite Hsame; [done|].
        apply (list_elem_of_fmap_2 call_node) in Hm. exact Hm.
    + split; [by eapply (receives_later s _ (call_node <$> tr))|].
      intros port. by eapply extend_same.
  - by rewrite Ha.
  - by rewrite Hc.
Qed.

Lemma run_nodes_spec rest tr f O x :
  loop_ok tr rest f O x →
  ∃ e x', run_nodes invoke s request f O x rest = Some (e, x') ∧
    match e with
    | NodesDone f' O' => ∃ tr', loop_ok tr' [] f' O' x'
    | NodesFailed f' => stopped_tick s (vr_tick request) x0 f' x' true
    | NodesDropped f' => stopped_tick s (vr_tick request) x0 f' x' false
    end.
Proof.
  revert tr f O x. induction rest as [|n rest IH]; intros tr f O x Hl; cbn [run_nodes].
  { eexists _, _. split; [done|]. by exists tr. }
  pose proof (loop_next _ _ _ _ _ _ Hl) as ((schema&Hin)&_&Hready).
  destruct (node_inputs_spec s (vr_inputs request) Hs Hsupplied _ O n (lo_gathered _ _ _ _ _ Hl)
              Hready) as (ins&Hins&Hrec).
  rewrite Hins.
  rewrite (proj2 (bt_get_Some n schema _ (gt_nodes _ (po_typed _ (so_plan _ Hs)))) Hin).
  destruct (invoke x n (vr_tick request) ins) as [i x'] eqn:Hinv.
  assert (Hstop : ∀ f' b, stops schema i f' b → sf_tick f' = sf_tick f → sf_instance f' = Some n →
            sf_completed f' = sf_completed f → sf_attempted f' = sf_attempted f ++ [n] →
            stopped_tick s (vr_tick request) x0 f' x' b).
  { intros f' b Hst Ht Hi Hc Ha. exists tr, n, rest, schema, ins, i, x.
    destruct Hl as [Ho Htr _ _ Hft _ _ Hfa Hfc]. split_and!; try done; congruence. }
  pose proof (lo_port _ _ _ _ _ Hl) as Hport. pose proof (lo_kind _ _ _ _ _ Hl) as Hkind.
  destruct i as [[[outs|err]|p] [d|]|panicking]; cbn [catch_node].
  1: { eexists _, _. split; [done|]. apply Hstop; try done. by econstructor. }
  2-5: eexists _, _; split; [done|]; apply Hstop; try done; by econstructor.
  2: { eexists _, _. split; [done|]. by apply Hstop; destruct panicking; try done; econstructor. }
  destruct (invalid_output (ss_outputs schema) outs) as [[port detail]|] eqn:Hv.
  - eexists _, _. split; [done|]. apply Hstop; try done. by econstructor.
  - eapply IH, loop_step; done.
Qed.

Lemma delayed_spec tr f O x :
  loop_ok tr [] f O x →
  ∃ previous, delayed g O = Some previous ∧ bt_ok previous ∧
    (∀ input source initial, (input, PreviousTick source initial) ∈ sg_inputs g →
       is_Some (bt_get source O) ∧ bt_get source previous = bt_get source O) ∧
    ∀ source, source ∈ previous.*1 →
      ∃ input initial, (input, PreviousTick source initial) ∈ sg_inputs g.
Proof.
  intros Hl. unfold delayed.
  set (sources := omap (M := list) _ _).
  assert (Hsrc : ∀ source, source ∈ sources ↔
                 ∃ input initial, (input, PreviousTick source initial) ∈ sg_inputs g).
  { intros source. unfold sources. rewrite list_elem_of_omap. split.
    - intros ([input [| |src initial]]&Hin&[=]). subst src. eauto.
    - intros (input&initial&Hin). by exists (input, PreviousTick source initial). }
  assert (Hval : ∀ source, source ∈ sources → is_Some (bt_get source O)).
  { intros source (input&initial&Hin)%Hsrc.
    destruct (route_declared s Hs input _ Hin) as (ty&_&_&Hout).
    destruct (Hout source eq_refl) as (actual&Hf&_).
    pose proof (lo_gathered _ _ _ _ _ Hl) as Hga.
    eapply (source_found s (call_node <$> tr)); [exact Hga| |exact Hf].
    destruct (po_order _ (so_plan _ Hs)) as [Hperm _ _].
    rewrite (lo_order _ _ _ _ _ Hl), app_nil_r in Hperm. rewrite Hperm.
    by eapply find_port_elem. }
  set (h := λ source, (λ v, (source, v)) <$> bt_get source O).
  destruct (proj2 (mapM_is_Some h sources)) as [k Hk].
  { apply Forall_forall. intros source Hin. apply fmap_is_Some. by apply Hval. }
  rewrite Hk. apply mapM_Some in Hk.
  assert (Hkk : (∀ e, e ∈ k → bt_get e.1 O = Some e.2) ∧ k.*1 = sources).
  { clear -Hk. induction Hk as [|source [src v] l k Hx _ [IH1 IH2]]; [split; [set_solver|done]|].
    apply fmap_Some in Hx as (w&Hw&[= -> ->]). cbn. rewrite IH2. split; [|done].
    intros e [->|?]%elem_of_cons; [done|by apply IH1]. }
  destruct Hkk as [Hent Hkeys].
  exists (bt_collect k). split_and!; [done|by apply bt_extend_ok| |].
  - intros input source initial Hin.
    assert (Hs' : source ∈ sources) by (apply Hsrc; eauto). split; [by apply Hval|].
    apply (bt_get_extend_functional (λ o, bt_get o O)); [done|done|by rewrite Hkeys].
  - intros source [?%elem_of_nil|Hin]%bt_extend_keys; [done| |done].
    rewrite Hkeys in Hin. by apply Hsrc.
Qed.
End run.
