(* ===== verification/StepProps.v ===== *)
(** * StepProps: properties of the step scheduler

    Plans, requests, committed and failed ticks, permanence of faults, delayed
    feedback and epochs, over every scheduler that [scheduler_new] and any
    sequence of advancements and interruptions lead to. *)

From Stdlib Require Import ZArith Lia.
From S2P Require Import Prelude Text Btree Core Bindings BindingsSpec Step StepPlan.
From S2P Require Import StepScheduler StepSchedulerSpec.

(** ** One advancement *)

(** A tick that committed. *)
Record committed {X} (invoke : X → str → StepTick → StepInputs → Invocation * X)
    (s : StepScheduler) (r : StepRequest) (x : X) (rc : StepReceipt) (s' : StepScheduler) (x' : X) :
  Prop := {
  cm_tick : rc_tick rc = vr_tick (validated s r);
  cm_calls : ∃ tr, call_node <$> tr = pl_order (sch_plan s) ∧
    executes invoke (rc_tick rc) x tr x' ∧ Forall (dataflow s (rq_inputs r) (rc_outputs rc)) tr;
  cm_index : sch_next_index s' = (sch_next_index s + 1)%Z;
  cm_time : sch_time s' = (sch_time s + rq_dt r)%Z;
  cm_fault : sch_fault s' = None;
  cm_previous input source initial :
    (input, PreviousTick source initial) ∈ sg_inputs (pl_graph (sch_plan s)) →
    is_Some (bt_get source (rc_outputs rc)) ∧
    bt_get source (sch_previous s') = bt_get source (rc_outputs rc);
}.

(** Every node succeeded, and the host refused the commit. *)
Definition refused {X} (invoke : X → str → StepTick → StepInputs → Invocation * X)
    (s : StepScheduler) (r : StepRequest) (x : X) (f : StepFailure) (x' : X) : Prop :=
  sf_completed f = pl_order (sch_plan s) ∧ sf_attempted f = pl_order (sch_plan s) ∧
  sf_tick f = tick_id (vr_tick (validated s r)) ∧
  ∃ tr, call_node <$> tr = pl_order (sch_plan s) ∧
        executes invoke (vr_tick (validated s r)) x tr x'.

Section advance_spec.
Context {X : Type} (invoke : X → str → StepTick → StepInputs → Invocation * X).
Context {C : Type} (commit : C → StepReceipt → ClockSnapshot → option StepFailureKind * C).

(** What an advancement of a scheduler without a fault does. *)
Definition advance_post (s : StepScheduler) (x : X) (c : C) (r : StepRequest)
    (a : Advance) (s' : StepScheduler) (x' : X) (c' : C) : Prop :=
  match a with
  | Returned (Err (Request _)) => ¬ request_wf s r ∧ s' = s ∧ x' = x ∧ c' = c
  | Returned (Err (Faulted _)) => False
  | Returned (Err (Failed f)) =>
      request_wf s r ∧ s' = set_fault s f ∧
      (stopped_tick invoke s (vr_tick (validated s r)) x f x' true ∧ c' = c ∨
       refused invoke s r x f x' ∧
       ∃ rc ck, commit c rc ck = (Some (sf_kind f), c'))
  | Returned (Ok rc) =>
      request_wf s r ∧ committed invoke s r x rc s' x' ∧
      commit c rc (mkClock (sch_epoch s) (sch_next_index s') (sch_time s') PhaseReady) = (None, c')
  | DroppedByCaller =>
      request_wf s r ∧ c' = c ∧
      ∃ f, s' = set_fault s f ∧ stopped_tick invoke s (vr_tick (validated s r)) x f x' false
  end.

Lemma sched_ok_fault s f : sched_ok s → sched_ok (set_fault s f).
Proof. by intros []. Qed.

Lemma advance_spec s x c r :
  sched_ok s → request_typed r → executor_typed invoke → sch_fault s = None →
  ∃ a s' x' c', advance_controlled invoke commit s x c r = Some (a, s', x', c') ∧
    sched_ok s' ∧ sch_plan s' = sch_plan s ∧ sch_epoch s' = sch_epoch s ∧
    advance_post s x c r a s' x' c'.
Proof.
  intros Hs Hr Hx Hf. unfold advance_controlled. rewrite Hf.
  destruct (request_validate_spec s r Hs Hr) as (v&Hv&Hspec). rewrite Hv.
  destruct v as [v|e]; [destruct Hspec as [Hwf ->]|].
  2: { eexists _, _, _, _. split; [done|]. by split_and!. }
  assert (Hsup : ∀ input, (input, External) ∈ sg_inputs (pl_graph (sch_plan s)) →
                 is_Some (bt_get input (rq_inputs r))).
  { intros input Hin%(qw_inputs _ _ Hwf).
    apply (bt_contains_true _ _ (rqt_inputs _ Hr)) in Hin. unfold bt_contains in Hin.
    destruct (bt_get input (rq_inputs r)); [eauto|done]. }
  set (f0 := guard_new (tick_id (vr_tick (validated s r)))).
  destruct (run_nodes_spec invoke s (validated s r) x Hx Hs Hsup (pl_order (sch_plan s)) [] f0 [] x)
    as (e&x'&Hrun&He).
  { split; try done; [constructor|]. split; [done|by intros o ?%elem_of_nil|by intros ? ? ? ? ?%elem_of_nil]. }
  rewrite Hrun. destruct e as [f O|f|f].
  - destruct He as (tr&Hl).
    destruct (delayed_spec invoke s (validated s r) x Hs tr f O x' Hl) as (prev&Hd&Hok&Hprev&_).
    rewrite Hd. pose proof Hl as [Ho Htr _ Hflow Ht _ _ Ha Hc]. rewrite app_nil_r in Ho.
    destruct (commit c _ _) as [[kind|] c'] eqn:Hcommit; eexists _, _, _, _; (split; [done|]).
    + do 5 (split; [by first [apply sched_ok_fault | done]|]). right.
      split; [|by eexists _, _]. unfold refused. cbn [sf_completed sf_attempted sf_tick failure_because].
      rewrite Ha, Hc, Ht, Ho. split_and!; [done..|]. by exists tr.
    + split_and!; [|done|done|split_and!; [done| |done]].
      * destruct Hs as [Hp Hi Ht' _ _]. destruct Hwf as [_ Htime Hidx _ _]. split; cbn; [done| |..].
        -- unfold is_u, u64_max in *. lia.
        -- unfold is_duration in *. pose proof (rqt_dt _ Hr) as [? ?]. lia.
        -- done.
        -- intros input source initial _ Hin. destruct (Hprev _ _ _ Hin) as [? ->]. done.
      * split; try done. exists tr. split; [by rewrite Ho|done].
  - eexists _, _, _, _. split; [done|]. split_and!; [by apply sched_ok_fault|done..|].
    split_and!; [done|done|by left].
  - eexists _, _, _, _. split; [done|]. split_and!; [by apply sched_ok_fault|done..|].
    split_and!; [done|done|]. by exists f.
Qed.

Lemma advance_faulted s x c r f :
  sch_fault s = Some f →
  advance_controlled invoke commit s x c r = Some (Returned (Err (Faulted f)), s, x, c).
Proof. intros Hf. unfold advance_controlled. by rewrite Hf. Qed.
End advance_spec.

(** ** Reachable schedulers *)

(** One operation on a scheduler, with any executor and any host. *)
Inductive sched_step : StepScheduler → StepScheduler → Prop :=
  | step_advance {X C} (invoke : X → str → StepTick → StepInputs → Invocation * X)
      (commit : C → StepReceipt → ClockSnapshot → option StepFailureKind * C) s x c r a s' x' c' :
      executor_typed invoke → request_typed r →
      advance_controlled invoke commit s x c r = Some (a, s', x', c') → sched_step s s'
  | step_interrupted s kind f s' : interrupted s kind = (f, s') → sched_step s s'.

Inductive sched_reachable : StepScheduler → Prop :=
  | reach_new graph t epoch s epoch' :
      graph_typed graph → is_duration t → scheduler_new graph t epoch = Some (Ok s, epoch') →
      sched_reachable s
  | reach_step s s' : sched_reachable s → sched_step s s' → sched_reachable s'.

Lemma new_sched_ok graph t epoch s epoch' :
  graph_typed graph → is_duration t → scheduler_new graph t epoch = Some (Ok s, epoch') → sched_ok s.
Proof.
  intros Hg Ht. unfold scheduler_new. destruct (compile graph) as [[p|]|] eqn:Hc; [|done..].
  destruct (checked_succ epoch); [|done]. intros [= <- <-].
  apply compile_plan_ok in Hc as [Hp _]; [|done]. split; cbn; [done|by auto with reiny|done|done|done].
Qed.

Lemma interrupted_spec s kind f s' :
  interrupted s kind = (f, s') →
  sch_fault s = None ∧ s' = s ∨
  ∃ f0 f1, sch_fault s = Some f0 ∧ s' = set_fault s f1 ∧ sf_tick f1 = sf_tick f0 ∧
    sf_attempted f1 = sf_attempted f0 ∧ sf_completed f1 = sf_completed f0.
Proof.
  unfold interrupted. destruct (sch_fault s) as [f0|] eqn:E; intros [= <- <-]; [right|by left].
  by eexists f0, _.
Qed.

Lemma step_sched_ok s s' : sched_ok s → sched_step s s' → sched_ok s'.
Proof.
  intros Hs Hstep. destruct Hstep as [X C invoke commit s x c r a s' x' c' Hx Hr Ha|s kind f s' Hi].
  - destruct (sch_fault s) as [f|] eqn:E.
    + rewrite (advance_faulted _ _ _ _ _ _ _ E) in Ha. by simplify_eq.
    + destruct (advance_spec invoke commit s x c r Hs Hr Hx E) as (?&?&?&?&Ha'&Hok&_). by simplify_eq.
  - destruct (interrupted_spec _ _ _ _ Hi) as [[_ ->]|(f0&f1&_&->&_)]; [done|].
    by apply sched_ok_fault.
Qed.

Lemma sched_reachable_ok s : sched_reachable s → sched_ok s.
Proof. induction 1; eauto using new_sched_ok, step_sched_ok. Qed.

(** A committed tick of a sound scheduler. *)
Lemma advance_commits {X C} (invoke : X → str → StepTick → StepInputs → Invocation * X)
    (commit : C → StepReceipt → ClockSnapshot → option StepFailureKind * C) s x c r rc s' x' c' :
  sched_ok s → executor_typed invoke → request_typed r →
  advance_controlled invoke commit s x c r = Some (Returned (Ok rc), s', x', c') →
  request_wf s r ∧ sched_ok s' ∧ sch_plan s' = sch_plan s ∧ committed invoke s r x rc s' x'.
Proof.
  intros Hs Hx Hr Ha. destruct (sch_fault s) as [f|] eqn:E.
  - by rewrite (advance_faulted invoke commit s x c r f E) in Ha.
  - destruct (advance_spec invoke commit s x c r Hs Hr Hx E) as (a&?&?&?&Ha'&?&?&_&Hpost).
    rewrite Ha in Ha'. simplify_eq. by destruct Hpost as (?&?&_).
Qed.

(** The call of the node a route leads to, and what it receives. *)
Lemma routed_call s supplied O tr input source :
  sched_ok s → (input, source) ∈ sg_inputs (pl_graph (sch_plan s)) →
  call_node <$> tr = pl_order (sch_plan s) → Forall (dataflow s supplied O) tr →
  ∃ ins outs v, (si_instance input, ins, outs) ∈ tr ∧
    carries s supplied O input source v ∧ bt_get (si_port input) ins = Some v.
Proof.
  intros Hs Hin Htr Hflow. destruct (route_declared s Hs input source Hin) as (ty&Hf%find_port_elem&_).
  destruct (po_order _ (so_plan _ Hs)) as [Hperm _ _]. rewrite <- Hperm, <- Htr in Hf. cbn in Hf.
  apply list_elem_of_fmap in Hf as ([[n ins] outs]&Hn&Hc). cbn in Hn. subst n.
  rewrite Forall_forall in Hflow. destruct (Hflow _ Hc) as [[Hrec _] _].
  destruct (Hrec _ _ Hin eq_refl) as (v&?&?). by exists ins, outs, v.
Qed.

(** ** A controller and a plant *)

Definition number : StepType := mkStepType (Compiled (bytes_of "step.Number") 7).
Definition value_of (n : Z) : StepValue := mkStepValue number [n].

Definition controller : str := bytes_of "controller".
Definition physics : str := bytes_of "physics".
Definition state_port : str := bytes_of "state".
Definition target_port : str := bytes_of "target".
Definition command_port : str := bytes_of "command".
Definition out_port : str := bytes_of "out".

Definition loop_graph : StepGraph :=
  mkStepGraph
    [(controller, mkStepSchema [(state_port, number); (target_port, number)] [(out_port, number)]);
     (physics, mkStepSchema [(command_port, number)] [(out_port, number)])]
    [(mkStepInput controller state_port, PreviousTick (mkStepOutput physics out_port) (value_of 10));
     (mkStepInput controller target_port, External);
     (mkStepInput physics command_port, SameTick (mkStepOutput controller out_port))].

(** Every node adds up its inputs; the executor logs the nodes it ran. *)
Definition adding (x : list str) (n : str) (t : StepTick) (ins : StepInputs) : Invocation * list str :=
  (Polled (Ok (Ok [(out_port, mkStepValue number [foldr Z.add 0%Z (ins.*2 ≫= sv_bytes)])])) None,
   x ++ [n]).

(** An executor whose plant stays pending until the caller gives up. *)
Definition stalling (x : list str) (n : str) (t : StepTick) (ins : StepInputs) : Invocation * list str :=
  if bool_decide (n = physics) then (Abandoned false, x ++ [n]) else adding x n t ins.

Definition target (n : Z) : StepRequest :=
  mkRequest 1000000 [(mkStepInput controller target_port, value_of n)].

Definition loop_scheduler : StepScheduler :=
  mkScheduler (mkPlan loop_graph [controller; physics]) 0 0 0 [] None.

Lemma loop_graph_typed : graph_typed loop_graph.
Proof.
  split; [by repeat constructor..|].
  intros n schema [[= -> ->]|[[= -> ->]|?%elem_of_nil]%elem_of_cons]%elem_of_cons;
    [by repeat constructor..|done].
Qed.

Lemma adding_typed : executor_typed adding.
Proof. intros x n t ins outs d x' [= <- <- <-]. by repeat constructor. Qed.

Lemma stalling_typed : executor_typed stalling.
Proof.
  intros x n t ins outs d x'. unfold stalling. case_bool_decide; [done|]. apply adding_typed.
Qed.

Lemma target_typed n : request_typed (target n).
Proof. split; [|by repeat constructor]. vm_compute. split; discriminate. Qed.

Lemma loop_reachable : sched_reachable loop_scheduler.
Proof.
  apply (reach_new loop_graph 0 0 _ 1 loop_graph_typed); [|by vm_compute].
  vm_compute. split; discriminate.
Qed.

(** ** Properties *)

(** C14: compilation of a step graph returns.  It gives a plan exactly when the
    graph is sound (nodes with valid names, every declared input with a source,
    every source declared and of the input's type, initial values too) and some
    order of the nodes puts every same-tick source before its consumer.  The
    plan's order is then such an order, and at every place stands the first by
    name of the nodes that could run there.  A sound graph without such an order
    is refused with the names of nodes each of which takes an output of another
    of them in the same tick. *)
Theorem compile_exact (g : StepGraph) :
  graph_typed g →
  ∃ r, compile g = Some r ∧
    (is_ok r = true ↔ graph_sound g ∧ ∃ order, runs_in_order g order) ∧
    (∀ p, r = Ok p → pl_graph p = g ∧ runs_in_order g (pl_order p) ∧ first_by_name g (pl_order p)) ∧
    (∀ e, r = Err e → graph_sound g → ∃ instances, e = SameTickCycle instances ∧ deadlocked g instances) ∧
    (∀ instances, r = Err (SameTickCycle instances) → graph_sound g ∧ deadlocked g instances).
Proof.
  intros Hg. destruct (compile_spec g Hg) as (r&Hr&Hspec). exists r. split; [done|].
  pose proof (routes_wf_sound g Hg) as Hsound. destruct r as [p|e]; cbn [is_ok].
  - destruct Hspec as (Hp&Hw%Hsound&Hs). destruct (schedule_first g Hg _ Hs) as [Ho Hf].
    split_and!; [|by intros ? [= <-]|done|done]. split; [|done]. intros _. split; [done|eauto].
  - split_and!; [|done| |].
    + split; [done|]. intros [Hw%Hsound (order&Hrun)]. destruct e; try done.
      destruct Hspec as [_ Hb]. pose proof (ri_nodes _ _ Hrun) as Hperm.
      apply topological_in_order in Hrun; [|done].
      by destruct (topological_not_blocked _ _ _ _ Hperm Hrun Hb).
    + intros e' [= <-] Hw%Hsound. destruct e; try done.
      destruct Hspec as [_ Hb]. eexists. split; [done|]. by apply blocked_deadlocked.
    + intros instances [= ->]. destruct Hspec as [Hw%Hsound Hb]. split; [done|]. by apply blocked_deadlocked.
Qed.

(** The controller runs before the plant it commands, in the same tick. *)
Lemma compile_exact_witness :
  runs_in_order loop_graph [controller; physics] ∧ first_by_name loop_graph [controller; physics].
Proof.
  destruct (compile_exact loop_graph loop_graph_typed) as (r&Hr&_&Hp&_).
  apply (Hp (mkPlan loop_graph [controller; physics])).
  assert (Hc : compile loop_graph = Some (Ok (mkPlan loop_graph [controller; physics])))
    by by vm_compute.
  congruence.
Defined.

(** An advancement of any reachable scheduler returns (no map entry is
    missing), whatever the executor and the host do, and leads to a scheduler
    whose invariant holds, with the same plan and epoch. *)
Theorem advance_safe {X C : Type} (invoke : X → str → StepTick → StepInputs → Invocation * X)
    (commit : C → StepReceipt → ClockSnapshot → option StepFailureKind * C)
    (s : StepScheduler) (x : X) (c : C) (r : StepRequest) :
  sched_reachable s → executor_typed invoke → request_typed r →
  ∃ a s' x' c', advance_controlled invoke commit s x c r = Some (a, s', x', c') ∧
    sched_ok s' ∧ sch_plan s' = sch_plan s ∧ sch_epoch s' = sch_epoch s.
Proof.
  intros Hs%sched_reachable_ok Hx Hr. destruct (sch_fault s) as [f|] eqn:E.
  - rewrite (advance_faulted invoke commit s x c r f E). by eexists _, _, _, _.
  - destruct (advance_spec invoke commit s x c r Hs Hr Hx E) as (a&s'&x'&c'&Ha&Hok&Hp&He&_).
    by eexists _, _, _, _.
Qed.

Lemma advance_safe_witness :
  ∃ a s' x' c', advance_controlled stalling direct_commit loop_scheduler [] tt (target 2) =
                  Some (a, s', x', c') ∧
    sched_ok s' ∧ sch_plan s' = sch_plan loop_scheduler ∧ sch_epoch s' = sch_epoch loop_scheduler.
Proof. apply advance_safe; [apply loop_reachable|apply stalling_typed|apply target_typed]. Defined.

(** C3: a committed tick is one step of the synchronous dataflow network: every
    node runs once, in plan order, with exactly its routed inputs.  An external
    route carries the request's value, a same-tick route the receipt's, and a
    delayed route the stored value of its source, or at tick zero its initial
    value ([carries]).  The receipt holds what the nodes produced, the clock
    moves by one index and by [dt], and what the receipt has for the source of
    a delayed route is what the next tick finds stored. *)
Theorem commit_is_dataflow {X C : Type} (invoke : X → str → StepTick → StepInputs → Invocation * X)
    (commit : C → StepReceipt → ClockSnapshot → option StepFailureKind * C)
    (s s' : StepScheduler) (x x' : X) (c c' : C) (r : StepRequest) (rc : StepReceipt) :
  sched_reachable s → executor_typed invoke → request_typed r →
  advance_controlled invoke commit s x c r = Some (Returned (Ok rc), s', x', c') →
  request_wf s r ∧ committed invoke s r x rc s' x'.
Proof.
  intros Hs%sched_reachable_ok Hx Hr Ha.
  by destruct (advance_commits invoke commit _ _ _ _ _ _ _ _ Hs Hx Hr Ha) as (?&_&_&?).
Qed.

Definition loop_receipt (epoch index start n : Z) : StepReceipt :=
  mkReceipt (mkStepTick (mkStepId epoch index) start 1000000 (start + 1000000))
    [(mkStepOutput controller out_port, value_of n); (mkStepOutput physics out_port, value_of n)].

Definition loop_advanced (index time n : Z) : StepScheduler :=
  mkScheduler (mkPlan loop_graph [controller; physics]) 0 index time
    [(mkStepOutput physics out_port, value_of n)] None.

Lemma loop_advanced_reachable : sched_reachable (loop_advanced 1 1000000 12).
Proof.
  apply (reach_step loop_scheduler); [apply loop_reachable|].
  apply (step_advance adding direct_commit _ [] tt (target 2) (Returned (Ok (loop_receipt 0 0 0 12)))
           _ [controller; physics] tt); [apply adding_typed|apply target_typed|by vm_compute].
Qed.

(** The second tick adds the plant's first output, 12, to its target. *)
Lemma commit_is_dataflow_witness :
  request_wf (loop_advanced 1 1000000 12) (target 3) ∧
  committed adding (loop_advanced 1 1000000 12) (target 3) [controller; physics]
    (loop_receipt 0 1 1000000 15) (loop_advanced 2 2000000 15)
    [controller; physics; controller; physics].
Proof.
  apply (commit_is_dataflow adding direct_commit _ _ _ _ tt tt);
    [apply loop_advanced_reachable|apply adding_typed|apply target_typed|by vm_compute].
Defined.

(** C21: an advancement that fails, or that the caller drops, commits nothing:
    clock, index and delayed values stay, the failure is recorded as the
    permanent fault, and it names the nodes that completed and the one that was
    running, a prefix of the plan's order, all of which were invoked. *)
Theorem failure_commits_nothing {X C : Type}
    (invoke : X → str → StepTick → StepInputs → Invocation * X)
    (commit : C → StepReceipt → ClockSnapshot → option StepFailureKind * C)
    (s s' : StepScheduler) (x x' : X) (c c' : C) (r : StepRequest) (a : Advance) :
  sched_reachable s → executor_typed invoke → request_typed r → sch_fault s = None →
  advance_controlled invoke commit s x c r = Some (a, s', x', c') →
  match a with
  | Returned (Ok _) => True
  | Returned (Err (Request _)) => ¬ request_wf s r ∧ s' = s ∧ x' = x
  | Returned (Err (Faulted _)) => False
  | Returned (Err (Failed f)) =>
      s' = set_fault s f ∧
      (stopped_tick invoke s (vr_tick (validated s r)) x f x' true ∨ refused invoke s r x f x')
  | DroppedByCaller =>
      ∃ f, s' = set_fault s f ∧ stopped_tick invoke s (vr_tick (validated s r)) x f x' false
  end.
Proof.
  intros Hs%sched_reachable_ok Hx Hr E Ha.
  destruct (advance_spec invoke commit s x c r Hs Hr Hx E) as (a'&s''&x''&c''&Ha'&_&_&_&Hpost).
  rewrite Ha in Ha'. injection Ha' as <- <- <- <-. destruct a as [[rc|[e|f|f]]|]; cbn in Hpost |- *; [done|..].
  - by destruct Hpost as (?&?&?&_).
  - destruct Hpost as (_&?&[[? _]|[? _]]); eauto.
  - done.
  - by destruct Hpost as (_&_&?).
Qed.

Lemma failure_commits_nothing_witness :
  ∃ f, set_fault loop_scheduler
         (mkFailure (mkStepId 0 0) AdvanceDropped (Some physics) None [controller; physics] [controller]
            (bytes_of "advance dropped after dispatch; component effects may persist")) =
       set_fault loop_scheduler f ∧
       stopped_tick stalling loop_scheduler (vr_tick (validated loop_scheduler (target 2))) [] f
         [controller; physics] false.
Proof.
  apply (failure_commits_nothing stalling direct_commit loop_scheduler _ [] [controller; physics]
           tt tt (target 2) DroppedByCaller);
    [apply loop_reachable|apply stalling_typed|apply target_typed|done|by vm_compute].
Defined.

(** A fault is permanent: after any sequence of advancements and
    interruptions the clock, the delayed values and the recorded progress are
    those of the fault, and every further advancement is refused without
    calling the executor. *)
Theorem fault_is_permanent (s s' : StepScheduler) (f : StepFailure) :
  sch_fault s = Some f → rtc sched_step s s' →
  ∃ f', sch_fault s' = Some f' ∧ s' = set_fault s f' ∧ sf_tick f' = sf_tick f ∧
    sf_attempted f' = sf_attempted f ∧ sf_completed f' = sf_completed f ∧
    ∀ (X C : Type) (invoke : X → str → StepTick → StepInputs → Invocation * X)
      (commit : C → StepReceipt → ClockSnapshot → option StepFailureKind * C) x c r,
      advance_controlled invoke commit s' x c r = Some (Returned (Err (Faulted f')), s', x, c).
Proof.
  intros Hf Hsteps. revert f Hf. induction Hsteps as [s|s1 s2 s3 Hstep _ IH]; intros f Hf.
  - exists f. split_and!; [done| |done..|].
    + destruct s; cbn in *. by rewrite Hf.
    + intros. by apply advance_faulted.
  - destruct Hstep as [X C invoke commit s1 x c r a s2 x' c' Hx Hr Ha|s1 kind f1 s2 Hi].
    + rewrite (advance_faulted _ _ _ _ _ _ _ Hf) in Ha. simplify_eq. by apply IH.
    + destruct (interrupted_spec _ _ _ _ Hi) as [[Hn _]|(f0&f2&Hf0&->&Ht&Hat&Hco)]; [congruence|].
      rewrite Hf in Hf0. apply (inj Some) in Hf0 as <-.
      destruct (IH f2 eq_refl) as (f'&?&?&?&?&?&?). exists f'. split_and!; try congruence; done.
Qed.

Definition stalled_fault : StepFailure :=
  mkFailure (mkStepId 0 0) AdvanceDropped (Some physics) None [controller; physics] [controller]
    (bytes_of "advance dropped after dispatch; component effects may persist").

Lemma fault_is_permanent_witness :
  ∃ f', sch_fault (interrupted (set_fault loop_scheduler stalled_fault) TimedOut).2 = Some f' ∧
    (interrupted (set_fault loop_scheduler stalled_fault) TimedOut).2 =
      set_fault (set_fault loop_scheduler stalled_fault) f' ∧
    sf_tick f' = sf_tick stalled_fault ∧
    sf_attempted f' = sf_attempted stalled_fault ∧ sf_completed f' = sf_completed stalled_fault ∧
    ∀ (X C : Type) (invoke : X → str → StepTick → StepInputs → Invocation * X)
      (commit : C → StepReceipt → ClockSnapshot → option StepFailureKind * C) x c r,
      advance_controlled invoke commit
        (interrupted (set_fault loop_scheduler stalled_fault) TimedOut).2 x c r =
      Some (Returned (Err (Faulted f')),
            (interrupted (set_fault loop_scheduler stalled_fault) TimedOut).2, x, c).
Proof.
  apply (fault_is_permanent (set_fault loop_scheduler stalled_fault)); [done|].
  apply rtc_once. by eapply (step_interrupted _ TimedOut).
Defined.

(** A request is accepted exactly when its duration is positive, the end
    time and the next index are representable, and it supplies a value of the
    declared type for exactly the external inputs; validation never panics. *)
Theorem request_validate_exact (s : StepScheduler) (r : StepRequest) :
  sched_reachable s → request_typed r →
  ∃ v, request_validate r (sch_plan s) (clock s) = Some v ∧
    (is_ok v = true ↔ request_wf s r) ∧ (∀ q, v = Ok q → q = validated s r).
Proof.
  intros Hs%sched_reachable_ok Hr. destruct (request_validate_spec s r Hs Hr) as (v&Hv&Hspec).
  exists v. split; [done|]. destruct v as [q|e]; cbn; [|split; [split; done|done]].
  destruct Hspec as [Hw ->]. split; [done|]. by intros ? [= <-].
Qed.

Lemma request_validate_exact_witness : request_wf loop_scheduler (target 2).
Proof.
  destruct (request_validate_exact loop_scheduler (target 2) loop_reachable (target_typed 2))
    as (v&Hv&Hok&_).
  apply Hok. revert Hv. vm_compute. by intros [= <-].
Defined.

(** Delayed feedback: when two ticks commit in a row, a node fed by a
    delayed route receives in the second tick the value of the first receipt,
    and at tick zero the initial value. *)
Theorem delayed_feedback {X C : Type} (invoke : X → str → StepTick → StepInputs → Invocation * X)
    (commit : C → StepReceipt → ClockSnapshot → option StepFailureKind * C)
    (s s1 s2 : StepScheduler) (x x1 x2 : X) (c c1 c2 : C) (r1 r2 : StepRequest)
    (rc1 rc2 : StepReceipt) (input : StepInput) (source : StepOutput) (initial : StepValue) :
  sched_reachable s → executor_typed invoke → request_typed r1 → request_typed r2 →
  advance_controlled invoke commit s x c r1 = Some (Returned (Ok rc1), s1, x1, c1) →
  advance_controlled invoke commit s1 x1 c1 r2 = Some (Returned (Ok rc2), s2, x2, c2) →
  (input, PreviousTick source initial) ∈ sg_inputs (pl_graph (sch_plan s)) →
  (∃ tr, executes invoke (rc_tick rc2) x1 tr x2 ∧
     ∃ ins outs, (si_instance input, ins, outs) ∈ tr ∧
       bt_get (si_port input) ins = bt_get source (rc_outputs rc1)) ∧
  (sch_next_index s = 0%Z →
   ∃ tr, executes invoke (rc_tick rc1) x tr x1 ∧
     ∃ ins outs, (si_instance input, ins, outs) ∈ tr ∧ bt_get (si_port input) ins = Some initial).
Proof.
  intros Hs%sched_reachable_ok Hx Hr1 Hr2 Ha1 Ha2 Hin.
  destruct (advance_commits invoke commit _ _ _ _ _ _ _ _ Hs Hx Hr1 Ha1) as (_&Hs1&Hp1&[Ht1 Hc1 Hi1 _ _ Hv1]).
  destruct (advance_commits invoke commit _ _ _ _ _ _ _ _ Hs1 Hx Hr2 Ha2) as (_&_&_&[Ht2 Hc2 _ _ _ _]).
  destruct (Hv1 _ _ _ Hin) as [[v Hv] Hprev]. pose proof (so_index _ Hs) as [H0 _]. split.
  - destruct Hc2 as (tr&Htr&He&Hflow). exists tr. split; [done|].
    rewrite <- Hp1 in Hin. apply (routed_call s1 _ _ _ _ _ Hs1 Hin Htr) in Hflow as (ins&outs&w&Hc&Hw%route_value_carries&Hg).
    exists ins, outs. split; [done|]. rewrite Hg, <- Hw. cbn.
    rewrite (proj2 (Z.eqb_neq _ _)) by lia. done.
  - intros Hz. destruct Hc1 as (tr&Htr&He&Hflow). exists tr. split; [done|].
    apply (routed_call s _ _ _ _ _ Hs Hin Htr) in Hflow as (ins&outs&w&Hc&Hw%route_value_carries&Hg).
    exists ins, outs. split; [done|]. rewrite Hg, <- Hw. cbn. by rewrite Hz.
Qed.

Lemma delayed_feedback_witness :
  (∃ tr, executes adding (rc_tick (loop_receipt 0 1 1000000 15)) [controller; physics] tr
           [controller; physics; controller; physics] ∧
     ∃ ins outs, (controller, ins, outs) ∈ tr ∧
       bt_get state_port ins = bt_get (mkStepOutput physics out_port) (rc_outputs (loop_receipt 0 0 0 12))) ∧
  (sch_next_index loop_scheduler = 0%Z →
   ∃ tr, executes adding (rc_tick (loop_receipt 0 0 0 12)) [] tr [controller; physics] ∧
     ∃ ins outs, (controller, ins, outs) ∈ tr ∧ bt_get state_port ins = Some (value_of 10)).
Proof.
  apply (delayed_feedback adding direct_commit loop_scheduler (loop_advanced 1 1000000 12)
           (loop_advanced 2 2000000 15) [] [controller; physics]
           [controller; physics; controller; physics] tt tt tt (target 2) (target 3)
           (loop_receipt 0 0 0 12) (loop_receipt 0 1 1000000 15) (mkStepInput controller state_port)
           (mkStepOutput physics out_port) (value_of 10));
    [apply loop_reachable|apply adding_typed|apply target_typed|apply target_typed
    |by vm_compute|by vm_compute|by left].
Defined.

(** Epochs are unique: schedulers made one after the other have strictly
    increasing epochs, and an exhausted counter is an error that allocates
    nothing. *)
Theorem epochs_increase (g1 g2 : StepGraph) (t1 t2 e0 e1 e1' e2 : Z) (s1 s2 : StepScheduler) :
  is_u64 e0 →
  scheduler_new g1 t1 e0 = Some (Ok s1, e1) → (e1 ≤ e1')%Z → is_u64 e1' →
  scheduler_new g2 t2 e1' = Some (Ok s2, e2) →
  (sch_epoch s1 < sch_epoch s2)%Z ∧ is_u64 (sch_epoch s2) ∧ is_u64 e2.
Proof.
  unfold scheduler_new, checked_succ, checked_add. intros He0 Hn1 Hle He1 Hn2.
  destruct (compile g1) as [[p1|]|]; [|done..]. destruct (compile g2) as [[p2|]|]; [|done..].
  destruct (e0 + 1 <? 2 ^ 64)%Z eqn:E1; [|done]. destruct (e1' + 1 <? 2 ^ 64)%Z eqn:E2; [|done].
  apply Z.ltb_lt in E2. simplify_eq. cbn. unfold is_u in *. lia.
Qed.

Lemma epochs_increase_witness :
  (sch_epoch loop_scheduler < sch_epoch (mkScheduler (mkPlan loop_graph [controller; physics]) 1 0 5 [] None))%Z
  ∧ is_u64 1 ∧ is_u64 2.
Proof.
  apply (epochs_increase loop_graph loop_graph 0 5 0 1 1 2); [|by vm_compute|done| |by vm_compute];
    by auto with reiny.
Defined.
