(* ===== verification/Job.v ===== *)
(** * Job: in-process jobs and their owner ([crates/reiny/src/job/])

    A job's state is one [JobSnapshot] in a watch channel; every operation on it
    is one closure that the channel runs under its lock, so it is one atomic
    step ([request_cancel], [progress], [complete_step]).  [worker_step] is the
    task that [start] spawns: the application's work, the completion, and the
    guard that reports a panic or an interruption.  [JobOwner] keeps the workers
    and shuts them down; which of them have finished is an argument.  A run of a
    job interleaves cancellation requests and progress reports with the steps of
    its worker task; the labels of a run are its history. *)

From Stdlib Require Import ZArith Lia.
From S2P Require Import Prelude.

(** ** Types *)

Section types.
Context (P T E : Type).

Inductive JobOutcome : Type :=
  | Succeeded (value : T)
  | JobFailed (error : E)
  | JobCancelled
  | Panicked
  | Interrupted.

Inductive JobStatus : Type :=
  | Running
  | Cancelling
  | Complete (outcome : JobOutcome).

Record JobSnapshot : Type := mkSnapshot {
  js_id : Z;
  js_revision : Z;
  js_progress : option P;
  js_cancellation_requested : bool;
  js_status : JobStatus;
}.
End types.

Arguments Succeeded {T E} value.
Arguments JobFailed {T E} error.
Arguments JobCancelled {T E}.
Arguments Panicked {T E}.
Arguments Interrupted {T E}.
Arguments Running {T E}.
Arguments Cancelling {T E}.
Arguments Complete {T E} outcome.
Arguments mkSnapshot {P T E}.
Arguments js_id {P T E}.
Arguments js_revision {P T E}.
Arguments js_progress {P T E}.
Arguments js_cancellation_requested {P T E}.
Arguments js_status {P T E}.

Inductive CancelRequest : Type := Requested | AlreadyRequested | Finished.
Inductive StartError : Type := Closed | AtCapacity | IdExhausted | RuntimeUnavailable.
Inductive ShutdownError : Type := InvalidDeadline.

Record ShutdownReport : Type := mkReport {
  unresponsive : list Z;
  join_failures : list Z;
}.

(** ** The state of one job *)

Section state.
Context {P T E : Type}.
Implicit Types s : JobSnapshot P T E.

(** The snapshot a job starts with. *)
Definition initial (id : Z) : JobSnapshot P T E := mkSnapshot id 0 None false Running.

(** [State::request_cancel] *)
Definition request_cancel s : CancelRequest * JobSnapshot P T E :=
  match js_status s with
  | Running =>
      (Requested,
       mkSnapshot (js_id s) (saturating_add 64 (js_revision s) 1) (js_progress s) true Cancelling)
  | Cancelling => (AlreadyRequested, s)
  | Complete _ => (Finished, s)
  end.

(** [State::progress]: whether the progress was accepted *)
Definition progress (value : P) s : bool * JobSnapshot P T E :=
  match js_status s with
  | Cancelling | Complete _ => (false, s)
  | Running =>
      match checked_add 64 (js_revision s) 1 with
      | Some next =>
          if (next <=? u64_max - 2)%Z
          then (true, mkSnapshot (js_id s) next (Some value) (js_cancellation_requested s) (js_status s))
          else (false, s)
      | None => (false, s)
      end
  end.

(** The closure of [State::complete]: whether the result was discarded, which
    leaves the job cancelling until the value has been dropped *)
Definition complete_step (result : JobOutcome T E) s : bool * JobSnapshot P T E :=
  match js_status s with
  | Complete _ => (false, s)
  | Running =>
      (false, mkSnapshot (js_id s) (saturating_add 64 (js_revision s) 1) (js_progress s)
                (js_cancellation_requested s) (Complete result))
  | Cancelling =>
      match result with
      | Succeeded _ => (true, s)
      | _ =>
          (false, mkSnapshot (js_id s) (saturating_add 64 (js_revision s) 1) (js_progress s)
                    (js_cancellation_requested s) (Complete result))
      end
  end.

(** [Completion::drop] *)
Definition completion_drop (panicking : bool) s : JobSnapshot P T E :=
  (complete_step (if panicking then Panicked else Interrupted) s).2.

(** [JobContext::is_cancelled] *)
Definition is_cancelled s : bool := js_cancellation_requested s.

(** One look of [JobHandle::wait] at the snapshot: the result once there is one *)
Definition wait_poll s : option (JobOutcome T E) :=
  match js_status s with Complete outcome => Some outcome | Running | Cancelling => None end.

(** One look of [JobContext::cancelled] at the snapshot *)
Definition cancelled_poll s : bool :=
  match js_status s with Running => false | Cancelling | Complete _ => true end.

(** ** The worker task *)

(** Where the task of [start] is: running the application's work; dropping a
    success that came after a cancellation; past the completion, with the guard
    still to drop; gone. *)
Inductive Worker : Type :=
  | Working
  | Discarding
  | Closing
  | Gone.

(** What happens to the task: the work returns, or its future is dropped
    (unwinding or not); the discarded value's destructor returns or unwinds; the
    guard is dropped. *)
Inductive Event : Type :=
  | Returns (r : result T E)
  | Dropped (panicking : bool)
  | Disposed (unwound : bool)
  | GuardDropped.

Definition worker_step (e : Event) (w : Worker) s : option (Worker * JobSnapshot P T E) :=
  match w, e with
  | Working, Returns r =>
      let outcome := match r with Ok value => Succeeded value | Err error => JobFailed error end in
      let '(discarded, s') := complete_step outcome s in
      Some (if discarded then Discarding else Closing, s')
  | Working, Dropped panicking => Some (Gone, completion_drop panicking s)
  | Discarding, Disposed false => Some (Closing, (complete_step JobCancelled s).2)
  | Discarding, Disposed true => Some (Gone, completion_drop true s)
  | Closing, GuardDropped => Some (Gone, completion_drop false s)
  | _, _ => None
  end.
End state.

(** ** The owner *)

(** What the owner knows of a worker: the job's id. *)
Record JobOwner : Type := mkOwner {
  ow_capacity : nat;
  ow_closed : bool;
  ow_workers : list Z;
}.

(** [JobOwner::new] *)
Definition owner_new (capacity : nat) : JobOwner := mkOwner capacity false [].

(** The jobs that exist, by id: each start adds one. *)
Section owner.
Context {P T E : Type}.

Record World : Type := mkWorld {
  wd_next_id : Z;
  wd_jobs : list (JobSnapshot P T E * Worker);
}.

(** The snapshot and the task of a job. *)
Definition job (id : Z) (w : World) : option (JobSnapshot P T E * Worker) :=
  find (λ j, (js_id j.1 =? id)%Z) (wd_jobs w).

(** [JobOwner::start]; [finished] tells of a join handle whether its task has
    finished, [runtime] whether a runtime is current *)
Definition start (runtime : bool) (finished : Z → bool) (self : JobOwner) (w : World) :
  result Z StartError * JobOwner * World :=
  if ow_closed self then (Err Closed, self, w) else
  let self := mkOwner (ow_capacity self) (ow_closed self)
                (filter (λ id, finished id = false) (ow_workers self)) in
  if ow_capacity self <=? length (ow_workers self) then (Err AtCapacity, self, w) else
  if negb runtime then (Err RuntimeUnavailable, self, w) else
  match checked_add 64 (wd_next_id w) 1 with
  | None => (Err IdExhausted, self, w)
  | Some next =>
      let id := wd_next_id w in
      (Ok id, mkOwner (ow_capacity self) (ow_closed self) (ow_workers self ++ [id]),
       mkWorld next (wd_jobs w ++ [(initial id, Working)]))
  end.

(** [Cancel::cancel] of a worker *)
Definition cancel (id : Z) (w : World) : World :=
  mkWorld (wd_next_id w)
    ((λ j, if (js_id j.1 =? id)%Z then ((request_cancel j.1).2, j.2) else j) <$> wd_jobs w).

(** [JobOwner::close] *)
Definition close (self : JobOwner) (w : World) : JobOwner * World :=
  (mkOwner (ow_capacity self) true (ow_workers self),
   foldl (λ w id, cancel id w) w (ow_workers self)).

(** How waiting for a worker ends before the deadline: joined, with or without
    a failure, or not at all. *)
Inductive Join : Type := Joined (failed : bool) | TimedOutJoin.

(** The loop of [shutdown]; fuel for one look at each worker *)
Fixpoint join_workers (fuel : nat) (joins : Z → Join) (index : nat) (workers : list Z)
    (report : ShutdownReport) : option (list Z * ShutdownReport) :=
  if length workers <=? index then Some (workers, report) else
  match fuel with
  | 0 => None
  | S fuel =>
      match workers !! index with
      | None => None
      | Some id =>
          match joins id with
          | Joined failed =>
              join_workers fuel joins index (delete index workers)
                (if failed then mkReport (unresponsive report) (join_failures report ++ [id]) else report)
          | TimedOutJoin =>
              join_workers fuel joins (index + 1) workers
                (mkReport (unresponsive report ++ [id]) (join_failures report))
          end
      end
  end.

(** [JobOwner::shutdown]; [deadline] tells whether the deadline is representable *)
Definition shutdown (deadline : bool) (joins : Z → Join) (self : JobOwner) (w : World) :
  option (result ShutdownReport ShutdownError * JobOwner * World) :=
  let '(self, w) := close self w in
  if negb deadline then Some (Err InvalidDeadline, self, w) else
  match join_workers (length (ow_workers self)) joins 0 (ow_workers self) (mkReport [] []) with
  | None => None
  | Some (workers, report) =>
      Some (Ok report, mkOwner (ow_capacity self) (ow_closed self) workers, w)
  end.
End owner.

(** ** Runs of one job *)

Section runs.
Context {P T E : Type}.
Implicit Types s : JobSnapshot P T E.

Inductive Label : Type :=
  | LCancel (answer : CancelRequest)
  | LProgress (accepted : bool)
  | LWorker (e : Event (T := T) (E := E)).

(** One atomic step: anyone cancels or reports progress, or the task moves. *)
Inductive job_step : Label → JobSnapshot P T E * Worker → JobSnapshot P T E * Worker → Prop :=
  | step_cancel s w answer s' :
      request_cancel s = (answer, s') → job_step (LCancel answer) (s, w) (s', w)
  | step_progress value s w accepted s' :
      progress value s = (accepted, s') → job_step (LProgress accepted) (s, w) (s', w)
  | step_worker e s w s' w' :
      worker_step e w s = Some (w', s') → job_step (LWorker e) (s, w) (s', w').

(** The runs from the initial snapshot, with their history. *)
Inductive run (id : Z) : list Label → JobSnapshot P T E * Worker → Prop :=
  | run_start : run id [] (initial id, Working)
  | run_step ls l c c' : run id ls c → job_step l c c' → run id (ls ++ [l]) c'.

(** ** The invariant *)

Definition is_request (l : Label) : bool :=
  match l with LCancel Requested => true | _ => false end.

(** How many cancellation requests won. *)
Definition requests (ls : list Label) : nat := length (filter (λ l, is_request l = true) ls).

(** How a result came about. *)
Definition explained (ls : list Label) (o : JobOutcome T E) : Prop :=
  match o with
  | Succeeded value => LWorker (Returns (Ok value)) ∈ ls ∧ requests ls = 0
  | JobFailed error => LWorker (Returns (Err error)) ∈ ls
  | JobCancelled =>
      LCancel Requested ∈ ls ∧ (∃ value, LWorker (Returns (Ok value)) ∈ ls) ∧
      LWorker (Disposed false) ∈ ls
  | Panicked => LWorker (Dropped true) ∈ ls ∨ LWorker (Disposed true) ∈ ls
  | Interrupted => LWorker (Dropped false) ∈ ls
  end.

(** The revisions a state may have: room for a cancellation and a completion. *)
Definition revision_bound (st : JobStatus T E) : Z :=
  match st with
  | Running => u64_max - 2
  | Cancelling => u64_max - 1
  | Complete _ => u64_max
  end.

Record job_ok (id : Z) (ls : list Label) s (w : Worker) : Prop := {
  jo_id : js_id s = id;
  jo_revision : (0 ≤ js_revision s ≤ revision_bound (js_status s))%Z;
  jo_requests : requests ls = (if js_cancellation_requested s then 1 else 0)%nat;
  jo_flag : match js_status s with
            | Running => js_cancellation_requested s = false
            | Cancelling => js_cancellation_requested s = true
            | Complete _ => True
            end;
  jo_phase : match w with
             | Working => ∀ o, js_status s ≠ Complete o
             | Discarding =>
                 js_status s = Cancelling ∧ ∃ value, LWorker (Returns (Ok value)) ∈ ls
             | Closing | Gone => ∃ o, js_status s = Complete o ∧ explained ls o
             end;
}.

Lemma requests_app ls l : requests (ls ++ [l]) = (requests ls + if is_request l then 1 else 0)%nat.
Proof.
  unfold requests. rewrite filter_app, length_app. f_equal. rewrite filter_cons, filter_nil.
  by destruct (is_request l).
Qed.

Lemma requests_pos ls : requests ls ≠ 0 → LCancel Requested ∈ ls.
Proof.
  induction ls as [|l ls IH]; [done|]. unfold requests in *. rewrite filter_cons.
  destruct l as [[]| |]; cbn; intros H; [by left|right; by apply IH..].
Qed.

Lemma explained_app ls l o : is_request l = false → explained ls o → explained (ls ++ [l]) o.
Proof.
  intros Hl. destruct o; cbn; rewrite ?requests_app, ?Hl, ?Nat.add_0_r; set_solver.
Qed.

(** [saturating_add] does not saturate below its bound. *)
Lemma revision_succ r b : (0 ≤ r ≤ b)%Z → (b < u64_max)%Z → saturating_add 64 r 1 = (r + 1)%Z.
Proof. unfold saturating_add, u64_max. lia. Qed.

(** Completing a job whose result is not discarded. *)
Lemma complete_step_spec o s :
  (∀ o', js_status s ≠ Complete o') →
  (0 ≤ js_revision s ≤ revision_bound (js_status s))%Z →
  (∀ value, js_status s = Cancelling → o ≠ Succeeded value) →
  complete_step o s =
    (false, mkSnapshot (js_id s) (js_revision s + 1) (js_progress s) (js_cancellation_requested s)
              (Complete o)).
Proof.
  intros Hn Hr Hd. unfold complete_step. destruct (js_status s) eqn:Es; cbn in Hr.
  - by rewrite (revision_succ _ _ Hr).
  - rewrite (revision_succ _ _ Hr) by done. destruct o; try done. by destruct (Hd value eq_refl).
  - by destruct (Hn outcome).
Qed.

(** A job that is complete does not change any more. *)
Lemma step_complete l s w s' w' o :
  js_status s = Complete o → job_step l (s, w) (s', w') → s' = s ∧ is_request l = false.
Proof.
  intros Hs Hstep. inversion Hstep; subst.
  - unfold request_cancel in *. rewrite Hs in *. by simplify_eq.
  - unfold progress in *. rewrite Hs in *. by simplify_eq.
  - split; [|done]. unfold worker_step, completion_drop, complete_step in *. rewrite Hs in *.
    destruct w, e as [r|[]|[]|]; by simplify_eq.
Qed.

(** Completion ends the job with an explained result. *)
Lemma complete_ok id ls l s w o :
  job_ok id ls s w → (∀ o', js_status s ≠ Complete o') → is_request l = false →
  (∀ value, js_status s = Cancelling → o ≠ Succeeded value) →
  explained (ls ++ [l]) o → ∀ w', w' = Closing ∨ w' = Gone →
  job_ok id (ls ++ [l]) (complete_step o s).2 w'.
Proof.
  intros [Hid Hrev Hreq Hflag _] Hn Hl Hd Hex w' Hw.
  rewrite complete_step_spec by done. split; cbn; [done| | |done|].
  - destruct (js_status s); cbn in Hrev; unfold u64_max in *; lia || by destruct (Hn outcome).
  - by rewrite requests_app, Hl, Nat.add_0_r.
  - destruct Hw as [->| ->]; eauto.
Qed.

(** A step that leaves the job alone. *)
Lemma job_keep id ls l s w : job_ok id ls s w → is_request l = false → job_ok id (ls ++ [l]) s w.
Proof.
  intros [Hid Hrev Hreq Hflag Hp] Hl.
  split; [done|done|by rewrite requests_app, Hl, Nat.add_0_r|done|].
  destruct w; [done| |..].
  - destruct Hp as [? (value&?)]. split; [done|]. exists value. set_solver.
  - destruct Hp as (o&?&?). exists o. split; [done|]. by apply explained_app.
  - destruct Hp as (o&?&?). exists o. split; [done|]. by apply explained_app.
Qed.

(** Only a task that still works has a running job. *)
Lemma running_working id ls s w : job_ok id ls s w → js_status s = Running → w = Working.
Proof. intros [_ _ _ _ Hp] Hs. rewrite Hs in Hp. destruct w; naive_solver. Qed.

Lemma cancel_ok id ls s w answer s' :
  job_ok id ls s w → request_cancel s = (answer, s') → job_ok id (ls ++ [LCancel answer]) s' w.
Proof.
  intros Hok Hc. unfold request_cancel in Hc.
  destruct (js_status s) as [| |o] eqn:Es; injection Hc as <- <-; [|by apply job_keep..].
  rewrite (running_working _ _ _ _ Hok Es). destruct Hok as [Hid Hrev Hreq Hflag _].
  rewrite Es in Hrev, Hflag. rewrite Hflag in Hreq. cbn in Hrev.
  rewrite (revision_succ _ _ Hrev) by done.
  split; cbn; [done|unfold u64_max in *; lia| |done|done].
  by rewrite requests_app, Hreq.
Qed.

Lemma progress_ok id ls s w value accepted s' :
  job_ok id ls s w → progress value s = (accepted, s') → job_ok id (ls ++ [LProgress accepted]) s' w.
Proof.
  intros Hok Hp. unfold progress in Hp.
  destruct (js_status s) as [| |o] eqn:Es; [|injection Hp as <- <-; by apply job_keep..].
  destruct (checked_add 64 (js_revision s) 1) as [next|] eqn:En;
    [|injection Hp as <- <-; by apply job_keep].
  destruct (next <=? u64_max - 2)%Z eqn:El; injection Hp as <- <-; [|by apply job_keep].
  rewrite (running_working _ _ _ _ Hok Es). destruct Hok as [Hid Hrev Hreq Hflag _].
  unfold checked_add in En. destruct (_ <? _)%Z; simplify_eq. apply Z.leb_le in El.
  rewrite Es in *. split; cbn; [done|lia| |done|done].
  by rewrite requests_app, Hreq, Nat.add_0_r.
Qed.

Lemma cancelling_requested id ls s w :
  job_ok id ls s w → js_status s = Cancelling → LCancel Requested ∈ ls.
Proof.
  intros [_ _ Hreq Hflag _] Hs. rewrite Hs in Hflag. rewrite Hflag in Hreq.
  apply requests_pos. by rewrite Hreq.
Qed.

Lemma worker_ok id ls s w e s' w' :
  job_ok id ls s w → worker_step e w s = Some (w', s') → job_ok id (ls ++ [LWorker e]) s' w'.
Proof.
  intros Hok Hw. pose proof (jo_phase _ _ _ _ Hok) as Hp.
  assert (Hin : LWorker e ∈ ls ++ [LWorker e]) by set_solver.
  destruct w, e as [r|panicking|unwound|]; cbn [worker_step] in Hw; try done.
  - destruct r as [value|error].
    + destruct (js_status s) as [| |o] eqn:Es; [| |by destruct (Hp o)].
      * assert (Hd : (complete_step (Succeeded value) s).1 = false)
          by (unfold complete_step; by rewrite Es).
        assert (Hs : (complete_step (Succeeded value) s).2 = s') by (by destruct (complete_step _ s) as [[] ?]; simplify_eq).
        destruct (complete_step (Succeeded value) s) as [d s2] eqn:Ec. cbn in Hd, Hs. subst.
        injection Hw as <-. pose proof (complete_ok id ls (LWorker (Returns (Ok value))) s Working
          (Succeeded value) Hok) as Hc. rewrite Ec in Hc. apply Hc; [by rewrite Es|done|by rewrite Es| |by left].
        split; [done|]. rewrite requests_app, (jo_requests _ _ _ _ Hok).
        pose proof (jo_flag _ _ _ _ Hok) as Hf. rewrite Es in Hf. by rewrite Hf.
      * unfold complete_step in Hw. rewrite Es in Hw. injection Hw as <- <-.
        pose proof (job_keep id ls (LWorker (Returns (Ok value))) s Working Hok eq_refl) as [? ? ? ? _].
        split; [done..|]. eauto.
    + pose proof (complete_ok id ls (LWorker (Returns (Err error))) s Working (JobFailed error) Hok Hp
                    eq_refl) as Hc.
      rewrite (complete_step_spec _ _ Hp (jo_revision _ _ _ _ Hok)) in Hw, Hc by done.
      injection Hw as <- <-. by apply Hc; [|done|left].
  - injection Hw as <- <-. apply (complete_ok id ls (LWorker (Dropped panicking)) s Working _ Hok Hp eq_refl);
      [by destruct panicking| |by right]. destruct panicking; [by left|done].
  - destruct Hp as [Es (value&Hv)].
    assert (Hn : ∀ o, js_status s ≠ Complete o) by (intros o; by rewrite Es).
    pose proof (λ o, complete_ok id ls (LWorker (Disposed unwound)) s Discarding o Hok Hn eq_refl) as Hc.
    destruct unwound; injection Hw as <- <-; apply Hc; try done; [by right|by right| |by left].
    split_and!; [|exists value; set_solver|done].
    apply elem_of_app. left. by eapply cancelling_requested.
  - injection Hw as <- <-. destruct Hp as (o&Es&Hex). unfold completion_drop, complete_step. rewrite Es. cbn.
    pose proof (job_keep id ls (LWorker GuardDropped) s Closing Hok eq_refl) as [? ? ? ? ?]. by split.
Qed.

(** A change of an open job raises the revision by one. *)
Lemma open_step_revision id ls l s w s' w' :
  job_ok id ls s w → (∀ o, js_status s ≠ Complete o) → job_step l (s, w) (s', w') →
  s' = s ∨ js_revision s' = (js_revision s + 1)%Z ∧ ∀ o, js_status s ≠ Complete o.
Proof.
  intros [_ Hrev _ _ _] Hn Hstep.
  assert (Hc : ∀ o, (complete_step o s).2 = s ∨ js_revision (complete_step o s).2 = (js_revision s + 1)%Z).
  { intros o. unfold complete_step. destruct (js_status s) eqn:Es; cbn in *;
      [|destruct o|]; rewrite ?(revision_succ _ _ Hrev) by done; eauto. }
  inversion Hstep; subst.
  - unfold request_cancel in *. destruct (js_status s) eqn:Es; simplify_eq; cbn in *; [|by left..].
    right. by rewrite (revision_succ _ _ Hrev).
  - unfold progress, checked_add in *. destruct (js_status s) eqn:Es; simplify_eq; cbn in *; [|by left..].
    repeat case_match; simplify_eq; eauto.
  - match goal with H : worker_step _ _ _ = _ |- _ => rename H into Hw end.
    unfold completion_drop in Hw.
    destruct w, e as [r|panicking|[]|]; cbn [worker_step] in Hw; try done.
    + destruct (complete_step _ s) as [d s2] eqn:Ec in Hw. simplify_eq.
      match type of Ec with complete_step ?o s = _ => destruct (Hc o) as [H|H] end; rewrite Ec in H; eauto.
    + unfold completion_drop in Hw. simplify_eq.
      destruct (Hc (if panicking then Panicked else Interrupted)); eauto.
    + simplify_eq. destruct (Hc Panicked); eauto.
    + simplify_eq. destruct (Hc JobCancelled); eauto.
    + simplify_eq. destruct (Hc Interrupted); eauto.
Qed.

Lemma run_ok id ls s w : run id ls (s, w) → job_ok id ls s w.
Proof.
  intros Hrun. remember (s, w) as c eqn:Hc. revert s w Hc.
  induction Hrun as [|ls l c c' Hrun IH Hstep]; intros s w Hc; [|subst c'].
  - injection Hc as <- <-. split; cbn; [done|unfold u64_max; lia|done|done|done].
  - destruct c as [s0 w0]. specialize (IH _ _ eq_refl). inversion Hstep; subst.
    + by eapply cancel_ok.
    + by eapply progress_ok.
    + by eapply worker_ok.
Qed.
End runs.

(** ** The owner *)

Section owners.
Context {P T E : Type}.
Implicit Types (o : JobOwner) (w : World (P := P) (T := T) (E := E)).

Definition timed_out (joins : Z → Join) (id : Z) : Prop := joins id = TimedOutJoin.
Definition failed_join (joins : Z → Join) (id : Z) : Prop := joins id = Joined true.
#[export] Instance timed_out_dec joins id : Decision (timed_out joins id).
Proof. unfold timed_out. destruct (joins id); [right; done|by left]. Defined.
#[export] Instance failed_join_dec joins id : Decision (failed_join joins id).
Proof. unfold failed_join. destruct (joins id) as [[]|]; [by left|right; done|right; done]. Defined.

(** The loop keeps the workers that did not finish, in order. *)
Lemma join_workers_spec fuel joins index workers report :
  index ≤ length workers → length workers - index ≤ fuel →
  join_workers fuel joins index workers report =
  Some (take index workers ++ filter (timed_out joins) (drop index workers),
        mkReport (unresponsive report ++ filter (timed_out joins) (drop index workers))
                 (join_failures report ++ filter (failed_join joins) (drop index workers))).
Proof.
  revert index workers report. induction fuel as [|fuel IH]; intros index workers report Hi Hf;
    cbn [join_workers]; destruct (length workers <=? index) eqn:El; breflect_in El.
  1,3: rewrite drop_ge, take_ge, !filter_nil, !app_nil_r by lia; by destruct report.
  - lia.
  - destruct (lookup_lt_is_Some_2 workers index ltac:(lia)) as [id Hid]. rewrite Hid.
    pose proof (take_drop_middle workers index id Hid) as Hsplit.
    rewrite (drop_S workers id index Hid), !filter_cons.
    destruct (joins id) as [failed|] eqn:Ej.
    + rewrite decide_False by (unfold timed_out; by rewrite Ej).
      assert (Hdel : delete index workers = take index workers ++ drop (S index) workers).
      { by rewrite delete_take_drop. }
      rewrite Hdel, IH.
      * rewrite take_app_length' by (rewrite length_take; lia).
        rewrite drop_app_length' by (rewrite length_take; lia). f_equal. f_equal.
        destruct failed; cbn.
        -- rewrite decide_True by done. by rewrite <- app_assoc.
        -- rewrite decide_False by (unfold failed_join; by rewrite Ej). done.
      * rewrite length_app, length_take. lia.
      * rewrite length_app, length_take, length_drop. lia.
    + rewrite decide_True by done. rewrite decide_False by (unfold failed_join; by rewrite Ej).
      rewrite IH by lia. rewrite Nat.add_1_r. cbn. rewrite (take_S_r workers index id Hid).
      by rewrite <- !app_assoc.
Qed.

Record owner_ok o w : Prop := {
  oo_capacity : length (ow_workers o) ≤ ow_capacity o;
  oo_workers : NoDup (ow_workers o);
  oo_known id : id ∈ ow_workers o → id ∈ js_id ∘ fst <$> wd_jobs w;
  oo_jobs : NoDup (js_id ∘ fst <$> wd_jobs w);
  oo_fresh id : id ∈ js_id ∘ fst <$> wd_jobs w → (id < wd_next_id w)%Z;
}.

(** Steps of an owner and its jobs: its operations, and the jobs' own steps. *)
Inductive owner_step : JobOwner * World (P := P) (T := T) (E := E) →
    JobOwner * World (P := P) (T := T) (E := E) → Prop :=
  | owner_start runtime finished o w r o' w' :
      start runtime finished o w = (r, o', w') → owner_step (o, w) (o', w')
  | owner_close o w : owner_step (o, w) (close o w)
  | owner_shutdown deadline joins o w r o' w' :
      shutdown deadline joins o w = Some (r, o', w') → owner_step (o, w) (o', w')
  | owner_job o w i l j j' :
      wd_jobs w !! i = Some j → job_step l j j' →
      owner_step (o, w) (o, mkWorld (wd_next_id w) (<[i:=j']> (wd_jobs w))).

Inductive owner_reachable (capacity : nat) : JobOwner * World (P := P) (T := T) (E := E) → Prop :=
  | owner_init : owner_reachable capacity (owner_new capacity, mkWorld 1 [])
  | owner_next c c' : owner_reachable capacity c → owner_step c c' → owner_reachable capacity c'.

Lemma request_cancel_id (s : JobSnapshot P T E) : js_id (request_cancel s).2 = js_id s.
Proof. unfold request_cancel. by destruct (js_status s). Qed.

Lemma cancel_ids id w : js_id ∘ fst <$> wd_jobs (cancel id w) = js_id ∘ fst <$> wd_jobs w.
Proof.
  unfold cancel. cbn. rewrite <- list_fmap_compose. apply list_fmap_ext. intros i [s wk] _. cbn.
  destruct (_ =? _)%Z; [apply request_cancel_id|done].
Qed.

Lemma cancel_all_ids ids w :
  js_id ∘ fst <$> wd_jobs (foldl (λ w id, cancel id w) w ids) = js_id ∘ fst <$> wd_jobs w ∧
  wd_next_id (foldl (λ w id, cancel id w) w ids) = wd_next_id w.
Proof.
  revert w. induction ids as [|id ids IH]; intros w; cbn [foldl]; [done|].
  destruct (IH (cancel id w)) as [-> ->]. by rewrite cancel_ids.
Qed.

(** A step of a job does not change its identity. *)
Lemma job_step_id l (s s' : JobSnapshot P T E) wk wk' :
  job_step l (s, wk) (s', wk') → js_id s' = js_id s.
Proof.
  assert (Hc : ∀ r (s : JobSnapshot P T E), js_id (complete_step r s).2 = js_id s).
  { intros r s0. unfold complete_step. by destruct (js_status s0), r. }
  intros Hstep. inversion Hstep; subst.
  - pose proof (request_cancel_id s) as Hi.
    match goal with H : request_cancel _ = _ |- _ => by rewrite H in Hi end.
  - match goal with H : progress _ _ = _ |- _ => unfold progress in H; rename H into Hp end.
    repeat case_match; by simplify_eq.
  - match goal with H : worker_step _ _ _ = _ |- _ => rename H into Hw end.
    destruct wk, e as [r|[]|[]|]; cbn in Hw; simplify_eq; try apply Hc.
    pose proof (Hc (match r with Ok value => Succeeded value | Err error => JobFailed error end) s) as Hi.
    destruct (complete_step _ s). by simplify_eq.
Qed.

Lemma owner_ok_close o w : owner_ok o w → owner_ok (close o w).1 (close o w).2.
Proof.
  intros [Hc Hn Hk Hj Hf]. unfold close. cbn [fst snd].
  destruct (cancel_all_ids (ow_workers o) w) as [Hids Hnext].
  split; cbn [ow_workers ow_capacity]; rewrite ?Hids, ?Hnext; done.
Qed.

Lemma owner_ok_start runtime finished o w r o' w' :
  owner_ok o w → start runtime finished o w = (r, o', w') → owner_ok o' w'.
Proof.
  intros [Hc Hn Hk Hj Hf]. unfold start. destruct (ow_closed o); [by intros [= <- <- <-]|].
  set (kept := filter (λ id, finished id = false) (ow_workers o)).
  assert (Hkept : owner_ok (mkOwner (ow_capacity o) false kept) w).
  { split; cbn; [|by apply NoDup_filter| |done|done].
    - pose proof (length_filter (λ id, finished id = false) (ow_workers o)). fold kept in H. lia.
    - intros id [_ Hin]%list_elem_of_filter. by apply Hk. }
  cbn [ow_capacity ow_workers ow_closed].
  destruct (_ <=? length kept) eqn:El; [by intros [= <- <- <-]|breflect_in El].
  destruct runtime; cbn [negb]; [|by intros [= <- <- <-]].
  unfold checked_add. destruct (_ <? _)%Z; [|by intros [= <- <- <-]]. intros [= <- <- <-].
  destruct Hkept as [_ Hn' Hk' _ _]. cbn in *.
  assert (Hnew : wd_next_id w ∉ js_id ∘ fst <$> wd_jobs w) by (intros Hin%Hf; lia).
  split; cbn; rewrite ?fmap_app; cbn.
  - rewrite length_app. cbn. lia.
  - apply NoDup_app. split_and!; [done| |apply NoDup_singleton].
    intros id Hid ->%list_elem_of_singleton. by apply Hnew, Hk'.
  - intros id [Hid|Hid]%elem_of_app; apply elem_of_app; [left; by apply Hk'|by right].
  - apply NoDup_app. split_and!; [done| |apply NoDup_singleton].
    by intros id Hid ->%list_elem_of_singleton.
  - intros id [Hid%Hf|Hid%list_elem_of_singleton]%elem_of_app; lia.
Qed.

Lemma owner_ok_shutdown deadline joins o w r o' w' :
  owner_ok o w → shutdown deadline joins o w = Some (r, o', w') → owner_ok o' w'.
Proof.
  intros Hok. pose proof (owner_ok_close o w Hok) as Hclosed. unfold shutdown.
  destruct (close o w) as [o1 w1]. cbn in Hclosed. destruct deadline; cbn [negb]; [|by intros [= <- <- <-]].
  rewrite join_workers_spec by lia. rewrite drop_0, take_0, app_nil_l. intros [= <- <- <-].
  destruct Hclosed as [Hc Hn Hk Hj Hf]. split; cbn; [|by apply NoDup_filter| |done|done].
  - pose proof (length_filter (timed_out joins) (ow_workers o1)). lia.
  - intros id [_ Hin]%list_elem_of_filter. by apply Hk.
Qed.

Lemma owner_ok_job o w i l j j' :
  owner_ok o w → wd_jobs w !! i = Some j → job_step l j j' →
  owner_ok o (mkWorld (wd_next_id w) (<[i:=j']> (wd_jobs w))).
Proof.
  intros [Hc Hn Hk Hj Hf] Hi Hstep. destruct j as [s wk], j' as [s' wk'].
  assert (Hids : js_id ∘ fst <$> <[i:=(s', wk')]> (wd_jobs w) = js_id ∘ fst <$> wd_jobs w).
  { rewrite list_fmap_insert. cbn. apply list_insert_id.
    rewrite list_lookup_fmap, Hi. cbn. by rewrite (job_step_id _ _ _ _ _ Hstep). }
  split; cbn; rewrite ?Hids; done.
Qed.

Lemma owner_reachable_ok capacity o w :
  owner_reachable capacity (o, w) → owner_ok o w ∧ ow_capacity o = capacity.
Proof.
  intros Hr. remember (o, w) as c eqn:Hc. revert o w Hc.
  induction Hr as [|c c' Hr IH Hstep]; intros o w Hc.
  - injection Hc as <- <-. split; [|done]. split; cbn; [lia|constructor|set_solver|constructor|set_solver].
  - destruct Hstep as [runtime finished o0 w0 r o' w' Hs|o0 w0|deadline joins o0 w0 r o' w' Hs
                      |o0 w0 i l j j' Hi Hs]; destruct (IH _ _ eq_refl) as [Hok Hcap].
    + injection Hc as <- <-. split; [by eapply owner_ok_start|]. revert Hs. unfold start.
      destruct (ow_closed o0); [by intros [= <- <- <-]|]. cbn.
      repeat case_match; by intros [= <- <- <-].
    + split; [|by injection Hc as <- _]. pose proof (owner_ok_close o0 w0 Hok) as Hcl.
      by rewrite Hc in Hcl.
    + injection Hc as <- <-. split; [by eapply owner_ok_shutdown|]. revert Hs. unfold shutdown, close. cbn.
      destruct deadline; cbn; [|by intros [= <- <- <-]].
      destruct (join_workers _ _ _ _ _) as [[]|]; [|done]. by intros [= <- <- <-].
    + injection Hc as <- <-. split; [by eapply owner_ok_job|done].
Qed.

(** What closing does to one job. *)
Definition cancel_if (ids : list Z) (j : JobSnapshot P T E * Worker) : JobSnapshot P T E * Worker :=
  if decide (js_id j.1 ∈ ids) then ((request_cancel j.1).2, j.2) else j.

Lemma request_cancel_idem (s : JobSnapshot P T E) :
  (request_cancel (request_cancel s).2).2 = (request_cancel s).2.
Proof. unfold request_cancel. destruct (js_status s) eqn:E0; cbn; by rewrite ?E0. Qed.

Lemma cancel_all_jobs ids w :
  wd_jobs (foldl (λ w id, cancel id w) w ids) = cancel_if ids <$> wd_jobs w.
Proof.
  revert w. induction ids as [|id ids IH]; intros w; cbn [foldl].
  - symmetry. rewrite <- (list_fmap_id (wd_jobs w)) at 2. apply list_fmap_ext. by intros i j _.
  - rewrite IH. unfold cancel. cbn [wd_jobs]. rewrite <- list_fmap_compose. apply list_fmap_ext.
    intros i [s wk] _. unfold cancel_if. cbn.
    destruct (js_id s =? id)%Z eqn:Ei; cbn; [apply Z.eqb_eq in Ei|apply Z.eqb_neq in Ei].
    + rewrite request_cancel_id, (decide_True (P := js_id s ∈ id :: ids)) by (rewrite Ei; by left).
      destruct (decide (js_id s ∈ ids)); cbn; [|done]. by rewrite request_cancel_idem.
    + destruct (decide (js_id s ∈ ids)) as [Hin|Hin].
      * rewrite decide_True; [done|by right].
      * rewrite decide_False; [done|]. by intros [?|?]%elem_of_cons.
Qed.

Lemma cancel_if_not_running ids j : js_id j.1 ∈ ids → js_status (cancel_if ids j).1 ≠ Running.
Proof.
  intros Hin. unfold cancel_if. rewrite decide_True by done. cbn. unfold request_cancel.
  destruct (js_status j.1) eqn:E0; cbn; by rewrite ?E0.
Qed.
End owners.

Arguments Label T E : clear implicits.

(** ** Properties *)

(** C24: a job's result, however cancellation, progress and the worker
    interleave: there is a result exactly when the worker has completed; a
    success means that no cancellation won, an application error is kept, a
    cancelled job had a request and a success that was disposed of, and panics
    and interruptions are what they say; at most one request ever wins. *)
Theorem job_result_explained {P T E : Type} (id : Z) (ls : list (Label T E))
    (s : JobSnapshot P T E) (w : Worker) :
  run id ls (s, w) →
  ((∃ o, wait_poll s = Some o) ↔ w = Closing ∨ w = Gone) ∧
  (∀ o, wait_poll s = Some o → explained ls o) ∧
  requests ls ≤ 1 ∧ (is_cancelled s = true ↔ requests ls = 1).
Proof.
  intros [_ _ Hreq _ Hp]%run_ok. unfold wait_poll, is_cancelled. split_and!.
  - destruct w; [|destruct Hp as [-> _]|destruct Hp as (o&->&_)|destruct Hp as (o&->&_)];
      [|naive_solver..].
    destruct (js_status s) as [| |o]; [naive_solver..|]. by destruct (Hp o).
  - intros o Ho. destruct (js_status s) as [| |o'] eqn:Es; simplify_eq.
    destruct w; [by destruct (Hp o)|by destruct Hp|..]; by destruct Hp as (o'&[= ->]&?).
  - rewrite Hreq. destruct (js_cancellation_requested s); lia.
  - rewrite Hreq. by destruct (js_cancellation_requested s).
Qed.

(** The worker succeeds after a cancellation won. *)
Definition demo_labels : list (Label Z Z) :=
  [LProgress true; LCancel Requested; LWorker (Returns (Ok 7%Z)); LWorker (Disposed false)].

Lemma demo_run :
  run (P := Z) 5 demo_labels (mkSnapshot 5 3 (Some 1%Z) true (Complete JobCancelled), Closing).
Proof.
  apply (run_step 5 [LProgress true; LCancel Requested; LWorker (Returns (Ok 7%Z))] _
           (mkSnapshot 5 2 (Some 1%Z) true Cancelling, Discarding)); [|by constructor].
  apply (run_step 5 [LProgress true; LCancel Requested] _
           (mkSnapshot 5 2 (Some 1%Z) true Cancelling, Working)); [|by constructor].
  apply (run_step 5 [LProgress true] _ (mkSnapshot 5 1 (Some 1%Z) false Running, Working));
    [|by constructor].
  apply (run_step 5 [] _ (initial 5, Working)); [constructor|]. by apply (step_progress 1%Z).
Qed.

Lemma job_result_explained_witness : explained demo_labels JobCancelled ∧ requests demo_labels ≤ 1.
Proof. destruct (job_result_explained 5 demo_labels _ _ demo_run) as (_&He&Hr&_). split; [by apply He|done]. Defined.

(** Every change of a job's snapshot raises its revision by exactly one,
    which never saturates; the identity is kept, and a complete job never
    changes again. *)
Theorem job_revisions_strict {P T E : Type} (id : Z) (ls : list (Label T E)) (l : Label T E)
    (s s' : JobSnapshot P T E) (w w' : Worker) :
  run id ls (s, w) → job_step l (s, w) (s', w') →
  js_id s' = js_id s ∧ is_u64 (js_revision s') ∧
  (s' = s ∨ js_revision s' = (js_revision s + 1)%Z ∧ ∀ o, js_status s ≠ Complete o).
Proof.
  intros Hrun Hstep. pose proof (run_ok _ _ _ _ Hrun) as Hok.
  pose proof (run_ok _ _ _ _ (run_step _ _ _ _ _ Hrun Hstep)) as Hok'.
  split_and!.
  - by eapply job_step_id.
  - pose proof (jo_revision _ _ _ _ Hok') as Hr. unfold is_u.
    destruct (js_status s'); cbn in Hr; unfold u64_max in *; lia.
  - destruct (wait_poll s) as [o|] eqn:Ho.
    + left. unfold wait_poll in Ho. destruct (js_status s) eqn:Es; [done..|]. by eapply step_complete.
    + apply (open_step_revision id ls l s w s' w' Hok); [|done].
      intros o Es. unfold wait_poll in Ho. by rewrite Es in Ho.
Qed.

Lemma job_revisions_strict_witness :
  js_id (initial (P := Z) (T := Z) (E := Z) 5) = js_id (initial (P := Z) (T := Z) (E := Z) 5) ∧
  is_u64 1 ∧
  ((mkSnapshot 5 1 None true Cancelling : JobSnapshot Z Z Z) = initial 5 ∨
   (1 = js_revision (initial (P := Z) (T := Z) (E := Z) 5) + 1)%Z ∧
   ∀ o, js_status (initial (P := Z) (T := Z) (E := Z) 5) ≠ Complete o).
Proof.
  apply (job_revisions_strict 5 [] (LCancel Requested) (initial 5)
           (mkSnapshot 5 1 None true Cancelling) Working Working); by constructor.
Defined.

(** An owner never holds more workers than its capacity, job identities are
    never reused, and every worker it holds is one of the jobs it started. *)
Theorem owner_bounded {P T E : Type} (capacity : nat) (o : JobOwner) (w : World) :
  owner_reachable (P := P) (T := T) (E := E) capacity (o, w) →
  length (ow_workers o) ≤ capacity ∧ NoDup (ow_workers o) ∧
  NoDup (js_id ∘ fst <$> wd_jobs w) ∧ ow_workers o ⊆ js_id ∘ fst <$> wd_jobs w.
Proof. intros [[] <-]%owner_reachable_ok. by split_and!. Qed.

Definition demo_world : World (P := Z) (T := Z) (E := Z) :=
  mkWorld 3 [(initial 1, Working); (initial 2, Working)].
Definition demo_owner : JobOwner := mkOwner 2 false [1; 2]%Z.

Lemma demo_reachable : owner_reachable 2 (demo_owner, demo_world).
Proof.
  apply (owner_next 2 (mkOwner 2 false [1%Z], mkWorld 2 [(initial 1, Working)]));
    [|by apply (owner_start true (λ _, false) _ _ (Ok 2%Z))].
  apply (owner_next 2 (owner_new 2, mkWorld 1 [])); [constructor|].
  by apply (owner_start true (λ _, false) _ _ (Ok 1%Z)).
Qed.

Lemma owner_bounded_witness : length (ow_workers demo_owner) ≤ 2 ∧ NoDup (ow_workers demo_owner).
Proof. destruct (owner_bounded 2 demo_owner demo_world demo_reachable) as (?&?&_). by split. Defined.

(** [shutdown] returns.  It closes the owner, which rejects every later
    start, and asks every owned job to stop; then the report and the owner
    agree: the workers that missed the deadline stay owned and are listed, in
    start order, the others are gone, and those that failed are listed.  With
    an unrepresentable deadline no worker is joined. *)
Theorem shutdown_accounts {P T E : Type} (deadline : bool) (joins : Z → Join) (o : JobOwner)
    (w : World (P := P) (T := T) (E := E)) :
  ∃ r o' w', shutdown deadline joins o w = Some (r, o', w') ∧ ow_closed o' = true ∧
    (∀ runtime finished w2, start (P := P) (T := T) (E := E) runtime finished o' w2 = (Err Closed, o', w2)) ∧
    (∀ j, j ∈ wd_jobs w' → js_id j.1 ∈ ow_workers o → js_status j.1 ≠ Running) ∧
    match r with
    | Ok report =>
        ow_workers o' = filter (timed_out joins) (ow_workers o) ∧
        unresponsive report = ow_workers o' ∧
        join_failures report = filter (failed_join joins) (ow_workers o)
    | Err InvalidDeadline => deadline = false ∧ ow_workers o' = ow_workers o
    end.
Proof.
  unfold shutdown, close.
  assert (Hjobs : ∀ j, j ∈ wd_jobs (foldl (λ w id, cancel id w) w (ow_workers o)) →
            js_id j.1 ∈ ow_workers o → js_status j.1 ≠ Running).
  { intros j Hj Hid. rewrite cancel_all_jobs in Hj. apply list_elem_of_fmap in Hj as (j0&->&_).
    apply cancel_if_not_running. revert Hid. unfold cancel_if.
    destruct (decide _); cbn; [by rewrite request_cancel_id|done]. }
  destruct deadline; cbn [negb].
  - cbn [ow_workers]. rewrite join_workers_spec by lia. rewrite drop_0, take_0, app_nil_l.
    eexists _, _, _. split; [done|]. by split_and!.
  - eexists _, _, _. split; [done|]. by split_and!.
Qed.
