(* ===== verification/HostProtocol.v ===== *)
(** * HostProtocol: the owner/host control channel
    ([crates/reiny-core/src/host_protocol/])

    Framing, the session identity and ordering of envelopes, the normalized
    durations and ticks of the step extension, and the owner's messages.  Positions are [nat]; the wire
    length is a [u32]. *)

From Stdlib Require Import ZArith Lia.
From S2P Require Import Prelude Btree Core Bindings Step.

(** ** Framing *)

Definition MAX_FRAME_BYTES : Z := 8 * 1024 * 1024.

Inductive FrameError : Type := Length (length : Z) | Truncated | TrailingBytes.

Definition to_be_bytes (v : Z) : list Z := rev (le_bytes 4 v).
Definition from_be_bytes (l : list Z) : Z := from_le (rev l).

Definition payload_length (header : list Z) : result nat FrameError :=
  let length := from_be_bytes header in
  if ((length =? 0) || (MAX_FRAME_BYTES <? length))%Z then Err (Length length)
  else Ok (Z.to_nat length).

Definition frame_header (payload : list Z) : result (list Z) FrameError :=
  if (Z.of_nat (length payload) <=? u32_max)%Z then
    let header := to_be_bytes (Z.of_nat (length payload)) in
    let? _ := payload_length header in Ok header
  else Err (Length u32_max).

Definition frame_payload (frame : list Z) : result (list Z) FrameError :=
  if length frame <? 4 then Err Truncated else
  let body := drop 4 frame in
  let? len := payload_length (take 4 frame) in
  match length body ?= len with
  | Lt => Err Truncated
  | Gt => Err TrailingBytes
  | Eq => Ok body
  end.

(** ** Identity *)

Inductive EnvelopeError : Type := Version (version : Z) | Identity | SequenceError.

(** [ProtocolVersion::try_from]; the only version is one *)
Definition protocol_version (value : Z) : result unit EnvelopeError :=
  if (value =? 1)%Z then Ok tt else Err (Version value).

Record SessionIdentity : Type := mkSession {
  owner_generation : Z;
  graph_generation : Z;
  host_id : str;
  host_generation : Z;
  graph_digest : str;
  bundle_digest : str;
}.

#[export] Instance SessionIdentity_eq_dec : EqDecision SessionIdentity.
Proof. solve_decision. Defined.

Record Envelope (T : Type) : Type := mkEnvelope {
  ev_session : SessionIdentity;
  ev_sequence : Z;
  ev_body : T;
}.
Arguments mkEnvelope {T}.
Arguments ev_session {T}.
Arguments ev_sequence {T}.
Arguments ev_body {T}.

(** [Envelope::check] *)
Definition envelope_check {T} (self : Envelope T) (expected : SessionIdentity)
    (previous : option Z) : result unit EnvelopeError :=
  if negb (bool_decide (ev_session self = expected)) then Err Identity else
  let ordered := match previous with
                 | None => (ev_sequence self =? 0)%Z
                 | Some previous => (previous <? ev_sequence self)%Z
                 end in
  if negb ordered then Err SequenceError else Ok tt.

(** ** Compatibility *)

Record Compatibility : Type := mkCompatibility {
  reiny_release : str;
  bindings_version : Z;
  report_version : Z;
  fingerprint_version : Z;
  named_key_epoch : Z;
}.

(** [Compatibility::current]; the release is the crate's version at build time *)
Definition compatibility_current (release : str) (epoch : Z) : Compatibility :=
  mkCompatibility release MODULE_BINDINGS_VERSION MODULE_REPORT_VERSION SCHEMA_FINGERPRINT_VERSION epoch.

(** ** Durations and ticks of the step extension *)

Definition MAX_ENTRIES : nat := 1024.
Definition MAX_VALUE_BYTES : Z := 1024 * 1024.
Definition MAX_RETAINED_BYTES : Z := 64 * 1024 * 1024.

(** [StepProtocol::try_from] *)
Definition step_protocol (value : Z) : result unit str :=
  if (value =? 1)%Z then Ok tt else Err (bytes_of "unsupported step protocol").

Record WireDuration : Type := mkWireDuration { wd_secs : Z; wd_nanos : Z }.

(** [WireDuration::duration] *)
Definition wire_duration (self : WireDuration) : result Z str :=
  if (NANOS_PER_SEC <=? wd_nanos self)%Z then Err (bytes_of "non-normalized duration")
  else Ok (wd_secs self * NANOS_PER_SEC + wd_nanos self)%Z.

(** [WireDuration::from]: [as_secs] and [subsec_nanos] *)
Definition wire_from (d : Z) : WireDuration :=
  mkWireDuration (d `div` NANOS_PER_SEC) (d `mod` NANOS_PER_SEC).

Record WireTick : Type := mkWireTick {
  wt_epoch : Z;
  wt_index : Z;
  wt_start : WireDuration;
  wt_dt : WireDuration;
  wt_end : WireDuration;
}.

(** [WireTick::validate] *)
Definition wire_tick_validate (self : WireTick) : result unit str :=
  let? dt := wire_duration (wt_dt self) in
  let? bad :=
    if (dt =? 0)%Z then Ok true else
    let? start := wire_duration (wt_start self) in
    let? end_ := wire_duration (wt_end self) in
    Ok (negb (bool_decide (duration_checked_add start dt = Some end_))) in
  if bad : bool then Err (bytes_of "invalid tick interval") else
  match checked_succ (wt_index self) with
  | None => Err (bytes_of "tick index exhausted")
  | Some _ => Ok tt
  end.

(** The tick a scheduler publishes, on the wire. *)
Definition wire_tick_of (t : StepTick) : WireTick :=
  mkWireTick (id_epoch (tick_id t)) (id_index (tick_id t)) (wire_from (tick_start t))
    (wire_from (tick_dt t)) (wire_from (tick_end t)).

(** ** Assignments ([assignment.rs]) *)

Record FactoryRegistration : Type := mkFactory { fr_factory : str; fr_revision : str }.

Record ConfigOrigin : Type := mkConfigOrigin { co_directory : str; co_config_file : option str }.

Record ComponentAssignment : Type := mkAssignment {
  ca_implementation : FactoryRegistration;
  ca_bindings : ModuleBindings;
  ca_config_origin : option ConfigOrigin;
}.

Inductive TransportSettings : Type :=
  | TransportLocal (domain : str) (placement : btree str str)
  | TransportZenoh (domain : str) (connect listen : list str) (multicast_scouting : bool)
  | TransportRoutedZenoh (domain : str) (connect listen : list str) (multicast_scouting : bool)
      (placement : btree str str).

(** Budgets are in milliseconds. *)
Record Prepare : Type := mkPrepare {
  pp_assignments : list ComponentAssignment;
  pp_transport : TransportSettings;
  pp_remaining_budget : Z;
}.

(** ** The step extension ([step.rs]) *)

Record StepSessionKey : Type := mkSessionKey {
  sk_incarnation : list Z;
  sk_owner_generation : Z;
  sk_graph_generation : Z;
  sk_graph_digest : str;
  sk_plan_digest : str;
}.

Record StepCallKey : Type := mkCallKey {
  ck_session : StepSessionKey;
  ck_call_epoch : Z;
  ck_run_sequence : Z;
  ck_tick_index : Z;
  ck_node_ordinal : Z;
  ck_instance : str;
}.

Record WireStepType : Type := mkWireStepType {
  wst_type_name : str;
  wst_fingerprint_version : Z;
  wst_fingerprint : Z;
  wst_assertions : btree str str;
}.

Record WireValue : Type := mkWireValue { wv_ty : WireStepType; wv_bytes : list Z }.

Record WireSchema : Type := mkWireSchema {
  ws_inputs : btree str WireStepType;
  ws_outputs : btree str WireStepType;
}.

Record StepPreparedReport : Type := mkPreparedReport {
  spr_instance : str;
  spr_schema : WireSchema;
  spr_contract : list Z;
  spr_outputs : btree str WireValue;
}.

Record StepAssignment : Type := mkStepAssignment {
  sas_schema : WireSchema;
  sas_contract : list Z;
  sas_seed_outputs : btree str unit;
}.

Record WireOutput : Type := mkWireOutput { wo_instance : str; wo_port : str }.

Inductive WireSource : Type :=
  | WireExternal
  | WireSameTick (source : WireOutput)
  | WirePreviousTick (source : WireOutput) (initial : WireValue).

Record WireRoute : Type := mkWireRoute {
  wr_instance : str;
  wr_port : str;
  wr_source : WireSource;
}.

Record WireGraph : Type := mkWireGraph {
  wg_nodes : btree str WireSchema;
  wg_inputs : list WireRoute;
}.

Record BoundSteps : Type := mkBound {
  bd_session : StepSessionKey;
  bd_epoch : Z;
  bd_initial_time : WireDuration;
  bd_order : list str;
  bd_graph : WireGraph;
}.

Record InvokeStep : Type := mkInvoke {
  iv_call : StepCallKey;
  iv_tick : WireTick;
  iv_inputs : btree str WireValue;
  iv_remaining_budget : WireDuration;
}.

Inductive StepOwnerMessage : Type :=
  | StepAuthenticated (compatibility : Compatibility) (required_factories : list FactoryRegistration)
  | StepPrepare (ordinary : Prepare) (steps : btree str StepAssignment)
  | Bind (bound : BoundSteps)
  | Invoke (invocation : InvokeStep).

(** ** Messages ([message.rs], [status.rs]) *)

Inductive StopReason : Type := StopRequested | AdmissionAborted | DeploymentFailure | OwnerLost.

Inductive OwnerMessage : Type :=
  | OwnerSteps (message : StepOwnerMessage)
  | Authenticated (compatibility : Compatibility) (required_factories : list FactoryRegistration)
  | OwnerPrepare (prepare : Prepare)
  | OwnerCommit
  | OwnerRun
  | OwnerStop (reason : StopReason) (remaining_budget : Z).

Inductive FailureCode : Type :=
  | MalformedMessage | FAuthentication | FCompatibility | FIdentity | FSequence | Transition
  | Factory | FAssignment | ContextOpen | FPrepare | Admission | FReport | FCommit | FRun
  | UnexpectedExit | FPanic | ReadinessLost | StopHook | Timeout | FCancelled | Disconnected.
