(* ===== verification/Connection.v ===== *)
(** * Connection: both ends of the control channel
    ([crates/reiny/src/component/process/connection.rs],
    [step_owner/channel.rs])

    The owner's [Channel] writes framed envelopes; the host's [Reader] collects
    them from reads of any size and [Guard] watches for stop requests.  The JSON
    codec is a parameter.  A read is the bytes it returned; a write reports how
    it ended.  [None] is a panic.  Frames are exact, and the bodies the owner
    sends arrive at the host in order, each once, however the bytes are split
    over reads. *)

From Stdlib Require Import ZArith Lia.
From S2P Require Import Prelude Core Bindings Step HostProtocol.

Record ProcessError : Type := mkProcessError { pe_code : FailureCode }.

Section connection.
Context {B : Type}.
(** [codec::encode] and [codec::decode] of an envelope *)
Context (encode : Envelope B → result (list Z) ProcessError).
Context (decode : list Z → result (Envelope B) ProcessError).

(** ** The sender *)

Record Channel : Type := mkChannel {
  ch_identity : SessionIdentity;
  ch_sent : Z;
  ch_received : option Z;
  ch_healthy : bool;
}.

(** How the two writes end: all bytes, or a prefix and an error. *)
Inductive WriteEnd : Type := Written | WriteFailed (prefix : nat) (code : FailureCode).

(** [Channel::send]: the result, and what went onto the wire *)
Definition channel_send (self : Channel) (body : B) (w : WriteEnd) :
  result unit ProcessError * Channel * list Z :=
  match checked_add 64 (ch_sent self) 1 with
  | None => (Err (mkProcessError FAssignment), self, [])
  | Some next =>
      match encode (mkEnvelope (ch_identity self) (ch_sent self) body) with
      | Err e => (Err e, self, [])
      | Ok payload =>
          match frame_header payload with
          | Err _ => (Err (mkProcessError MalformedMessage), self, [])
          | Ok header =>
              match w with
              | Written =>
                  (Ok tt, mkChannel (ch_identity self) next (ch_received self) true,
                   header ++ payload)
              | WriteFailed prefix code =>
                  (Err (mkProcessError code),
                   mkChannel (ch_identity self) (ch_sent self) (ch_received self) false,
                   take prefix (header ++ payload))
              end
          end
      end
  end.

(** [Channel::receive]: [stream] is what arrives before the deadline or the end,
    [ended] how the wait ends when that is not enough; the rest of the stream *)
Definition channel_receive (self : Channel) (stream : list Z) (ended : FailureCode) :
  result B ProcessError * Channel * list Z :=
  let broken := mkChannel (ch_identity self) (ch_sent self) (ch_received self) false in
  if length stream <? 4 then (Err (mkProcessError ended), broken, []) else
  match payload_length (take 4 stream) with
  | Err _ => (Err (mkProcessError MalformedMessage), broken, drop 4 stream)
  | Ok len =>
      let stream := drop 4 stream in
      if length stream <? len then (Err (mkProcessError ended), broken, []) else
      match decode (take len stream) with
      | Err e => (Err e, broken, drop len stream)
      | Ok envelope =>
          match envelope_check envelope (ch_identity self) (ch_received self) with
          | Err _ => (Err (mkProcessError FIdentity), broken, drop len stream)
          | Ok _ =>
              (Ok (ev_body envelope),
               mkChannel (ch_identity self) (ch_sent self) (Some (ev_sequence envelope)) true,
               drop len stream)
          end
      end
  end.

(** The host's end of the same direction. *)
Record Writer : Type := mkWriter {
  wt_identity : SessionIdentity;
  wt_sequence : Z;
  wt_writable : bool;
}.

(** [Writer::send] *)
Definition writer_send (self : Writer) (body : B) (w : WriteEnd) :
  result unit ProcessError * Writer * list Z :=
  if negb (wt_writable self) then (Err (mkProcessError Disconnected), self, []) else
  match encode (mkEnvelope (wt_identity self) (wt_sequence self) body) with
  | Err e => (Err e, self, [])
  | Ok payload =>
      match frame_header payload with
      | Err _ => (Err (mkProcessError MalformedMessage), self, [])
      | Ok header =>
          match w with
          | WriteFailed prefix code =>
              (Err (mkProcessError code), mkWriter (wt_identity self) (wt_sequence self) false,
               take prefix (header ++ payload))
          | Written =>
              match checked_add 64 (wt_sequence self) 1 with
              | None =>
                  (Err (mkProcessError FSequence), mkWriter (wt_identity self) (wt_sequence self) false,
                   header ++ payload)
              | Some next => (Ok tt, mkWriter (wt_identity self) next true, header ++ payload)
              end
          end
      end
  end.

(** ** The reader *)

Record Reader : Type := mkReader {
  rd_identity : SessionIdentity;
  rd_previous : option Z;
  rd_header : list Z;
  rd_header_used : nat;
  rd_payload : list Z;
  rd_payload_used : nat;
  rd_frame_deadline : bool;
}.

(** [Reader::new]; the deadline of a frame is only set or not *)
Definition reader_new (identity : SessionIdentity) : Reader :=
  mkReader identity None (replicate 4 0%Z) 0 [] 0 false.

(** The room of the buffer the next read fills. *)
Definition room (self : Reader) : nat :=
  if rd_header_used self <? length (rd_header self) then length (rd_header self) - rd_header_used self
  else length (rd_payload self) - rd_payload_used self.

(** What a turn of the loop waits for: the frame's deadline, or a read. *)
Inductive ReadEvent : Type :=
  | Expired
  | ReadFailed
  | ReadBytes (bytes : list Z).

(** [EnvelopeError] as a failure code *)
Definition envelope_failure (e : EnvelopeError) : FailureCode :=
  match e with Identity => FIdentity | SequenceError => FSequence | Version _ => FCompatibility end.

(** The frame is complete: decode, check, and start over. *)
Definition reader_finish (self : Reader) : result B ProcessError * Reader :=
  match decode (rd_payload self) with
  | Err e => (Err e, self)
  | Ok envelope =>
      match envelope_check envelope (rd_identity self) (rd_previous self) with
      | Err e => (Err (mkProcessError (envelope_failure e)), self)
      | Ok _ =>
          (Ok (ev_body envelope),
           mkReader (rd_identity self) (Some (ev_sequence envelope)) (rd_header self) 0 [] 0 false)
      end
  end.

(** One turn of the loop of [Reader::next]; a result ends it. *)
Definition reader_turn (self : Reader) (e : ReadEvent) :
  option (option (result B ProcessError) * Reader) :=
  match e with
  | Expired =>
      Some (if rd_frame_deadline self then Some (Err (mkProcessError Timeout)) else None, self)
  | ReadFailed => Some (Some (Err (mkProcessError Disconnected)), self)
  | ReadBytes bytes =>
      let count := length bytes in
      if count =? 0 then Some (Some (Err (mkProcessError Disconnected)), self) else
      if rd_header_used self <? length (rd_header self) then
        match copy_at (rd_header_used self) bytes (rd_header self) with
        | None => None
        | Some header =>
            let used := rd_header_used self + count in
            if used =? length header then
              match payload_length header with
              | Err _ =>
                  Some (Some (Err (mkProcessError MalformedMessage)),
                        mkReader (rd_identity self) (rd_previous self) header used
                          (rd_payload self) (rd_payload_used self) true)
              | Ok len =>
                  Some (None, mkReader (rd_identity self) (rd_previous self) header used
                                (take len (rd_payload self) ++
                                 replicate (len - length (rd_payload self)) 0%Z)
                                (rd_payload_used self) true)
              end
            else Some (None, mkReader (rd_identity self) (rd_previous self) header used
                               (rd_payload self) (rd_payload_used self) true)
        end
      else
        match copy_at (rd_payload_used self) bytes (rd_payload self) with
        | None => None
        | Some payload =>
            let self := mkReader (rd_identity self) (rd_previous self) (rd_header self)
                          (rd_header_used self) payload (rd_payload_used self + count) true in
            if rd_payload_used self =? length payload then
              let '(r, self) := reader_finish self in Some (Some r, self)
            else Some (None, self)
        end
  end.

(** [Reader::next] over what its turns see: pending when they run out *)
Fixpoint reader_next (self : Reader) (events : list ReadEvent) :
  option (option (result B ProcessError) * Reader * list ReadEvent) :=
  match events with
  | [] => Some (None, self, [])
  | e :: events' =>
      match reader_turn self e with
      | None => None
      | Some (Some r, self) => Some (Some r, self, events')
      | Some (None, self) => reader_next self events'
      end
  end.
End connection.

(** ** The guard of a stage *)

Record Guard : Type := mkGuard {
  gd_reader : Reader;
  gd_stop : option StopReason;
  gd_cleanup_budget : Z;
}.

(** What [Guard::next] does with a message the reader delivers before the
    stage's deadline *)
Definition guard_message (self : Guard) (message : OwnerMessage) :
  result OwnerMessage ProcessError * Guard :=
  match message with
  | OwnerStop reason remaining_budget =>
      (Err (mkProcessError FCancelled),
       mkGuard (gd_reader self) (Some reason)
         (Z.min (gd_cleanup_budget self) (remaining_budget * 1000000)))
  | OwnerSteps _ | Authenticated _ _ | OwnerPrepare _ | OwnerCommit | OwnerRun => (Ok message, self)
  end.

(** [Guard::next] *)
Definition guard_next (decode : list Z → result (Envelope OwnerMessage) ProcessError) (self : Guard)
    (expired : bool) (events : list ReadEvent) :
  option (option (result OwnerMessage ProcessError) * Guard * list ReadEvent) :=
  if expired then Some (Some (Err (mkProcessError Timeout)), self, events) else
  match reader_next decode (gd_reader self) events with
  | None => None
  | Some (r, reader, events) =>
      let self := mkGuard reader (gd_stop self) (gd_cleanup_budget self) in
      match r with
      | None => Some (None, self, events)
      | Some (Err e) => Some (Some (Err e), self, events)
      | Some (Ok message) =>
          let '(r, self) := guard_message self message in Some (Some r, self, events)
      end
  end.

(** ** Frames *)

Lemma length_be_bytes v : length (to_be_bytes v) = 4.
Proof. unfold to_be_bytes. by rewrite length_rev, length_le_bytes. Qed.

Lemma from_to_be v : is_u32 v → from_be_bytes (to_be_bytes v) = v.
Proof.
  intros Hv. unfold from_be_bytes, to_be_bytes. rewrite rev_involutive. by apply from_le_bytes.
Qed.

Lemma to_from_be l : bytes_ok l → length l = 4 → to_be_bytes (from_be_bytes l) = l.
Proof.
  intros Hl Hlen. unfold from_be_bytes, to_be_bytes.
  rewrite <- (length_rev l) in Hlen. rewrite <- Hlen, le_bytes_from, rev_involutive; [done|].
  by apply Forall_rev.
Qed.

(** The payloads that fit a frame. *)
Definition fits_frame (payload : list Z) : Prop :=
  0 < length payload ∧ (Z.of_nat (length payload) ≤ MAX_FRAME_BYTES)%Z.

Lemma payload_length_be n :
  (0 < n ≤ MAX_FRAME_BYTES)%Z → payload_length (to_be_bytes n) = Ok (Z.to_nat n).
Proof.
  intros Hn. unfold payload_length. rewrite from_to_be by (unfold is_u, MAX_FRAME_BYTES in *; lia).
  rewrite (proj2 (Z.eqb_neq n 0)) by lia. by rewrite (proj2 (Z.ltb_ge MAX_FRAME_BYTES n)) by lia.
Qed.

Lemma payload_length_Ok header n :
  payload_length header = Ok n →
  n = Z.to_nat (from_be_bytes header) ∧ (0 < from_be_bytes header ≤ MAX_FRAME_BYTES)%Z ∨
  (from_be_bytes header < 0)%Z.
Proof.
  unfold payload_length. destruct (_ || _) eqn:E; [done|]. intros [= <-]. breflect_in E. lia.
Qed.

Lemma frame_header_Ok payload header :
  frame_header payload = Ok header ↔
  fits_frame payload ∧ header = to_be_bytes (Z.of_nat (length payload)).
Proof.
  unfold frame_header, fits_frame. split.
  - destruct (_ <=? u32_max)%Z eqn:E; [apply Z.leb_le in E|done].
    unfold payload_length. rewrite from_to_be by (unfold is_u, u32_max in *; lia).
    destruct (_ || _) eqn:E'; [done|]. breflect_in E'. intros [= <-]. split; [lia|done].
  - intros [[Hpos Hmax] ->].
    rewrite (proj2 (Z.leb_le _ _)) by (unfold MAX_FRAME_BYTES, u32_max in *; lia).
    by rewrite payload_length_be by lia.
Qed.

(** ** The reader *)

(** A reader in the middle of a frame of which it has [got] some bytes. *)
Inductive reading (id : SessionIdentity) (prev : option Z) : Reader → list Z → Prop :=
  | reading_header header used deadline :
      length header = 4 → used < 4 →
      reading id prev (mkReader id prev header used [] 0 deadline) (take used header)
  | reading_payload header payload used deadline :
      length header = 4 → payload_length header = Ok (length payload) → used < length payload →
      reading id prev (mkReader id prev header 4 payload used deadline)
        (header ++ take used payload).

Section reader.
Context {B : Type} (decode : list Z → result (Envelope B) ProcessError).
Context (id : SessionIdentity) (prev : option Z).

(** Room for the rest of the frame, and no more. *)
Lemma reading_room s got header payload :
  reading id prev s got → got `prefix_of` header ++ payload →
  frame_header payload = Ok header →
  0 < room s ∧ length got + room s ≤ length (header ++ payload).
Proof.
  intros Hr Hpre [Hfit ->]%frame_header_Ok. pose proof (length_be_bytes (Z.of_nat (length payload))) as Hl.
  destruct Hr as [header used deadline Hh Hu|header p used deadline Hh Hp Hu]; unfold room;
    cbn [rd_header rd_header_used rd_payload rd_payload_used].
  - rewrite Hh, (proj2 (Nat.ltb_lt _ _) Hu), length_app, length_take. lia.
  - rewrite Hh, (proj2 (Nat.ltb_ge 4 4)) by lia.
    assert (header = to_be_bytes (Z.of_nat (length payload))) as ->.
    { destruct Hpre as [k Hk]. rewrite <- app_assoc in Hk.
      apply (f_equal (take 4)) in Hk. rewrite !take_app_length' in Hk by done. done. }
    rewrite payload_length_be in Hp by (destruct Hfit; lia). injection Hp as Hp.
    rewrite !length_app, length_take. lia.
Qed.

Lemma prefix_take {A} (l k : list A) : l `prefix_of` k → l = take (length l) k.
Proof. intros [r ->]. by rewrite take_app_length. Qed.

(** A read inside the frame. *)
Lemma reading_turn s got bytes header payload :
  reading id prev s got → frame_header payload = Ok header →
  got ++ bytes `prefix_of` header ++ payload → bytes ≠ [] → length bytes ≤ room s →
  if decide (got ++ bytes = header ++ payload) then
    ∃ s1, reader_turn decode s (ReadBytes bytes) =
            Some (let '(r, s') := reader_finish decode s1 in (Some r, s')) ∧
          rd_payload s1 = payload ∧ rd_identity s1 = id ∧ rd_previous s1 = prev ∧
          length (rd_header s1) = 4
  else ∃ s', reader_turn decode s (ReadBytes bytes) = Some (None, s') ∧
             reading id prev s' (got ++ bytes).
Proof.
  intros Hr Hh Hpre Hne Hroom. pose proof Hh as [Hfit Heq]%frame_header_Ok.
  assert (Hl : length header = 4) by (subst; apply length_be_bytes).
  assert (Hplen : payload_length header = Ok (length payload)).
  { subst header. rewrite payload_length_be by (destruct Hfit; lia). by rewrite Nat2Z.id. }
  assert (Hc : length bytes =? 0 = false) by (destruct bytes; done).
  destruct Hr as [h used deadline Hh4 Hu|h p used deadline Hh4 Hp Hu]; unfold reader_turn; rewrite Hc;
    cbn [rd_header rd_header_used rd_payload rd_payload_used rd_identity rd_previous];
    unfold room in Hroom; cbn [rd_header rd_header_used rd_payload rd_payload_used] in Hroom; rewrite Hh4 in *.
  - rewrite (proj2 (Nat.ltb_lt _ _) Hu) in Hroom |- *.
    destruct (copy_at used bytes h) as [h'|] eqn:Hcopy.
    2: { unfold copy_at in Hcopy. rewrite (proj2 (Nat.leb_le _ _)) in Hcopy by lia. done. }
    pose proof (copy_at_length _ _ _ _ Hcopy) as Hl'. pose proof (copy_at_take _ _ _ _ Hcopy) as Ht.
    rewrite decide_False.
    2: { intros Hfull. apply (f_equal length) in Hfull. rewrite !length_app, length_take in Hfull.
         destruct Hfit. lia. }
    rewrite Hl', Hh4. rewrite <- Ht in Hpre |- *. destruct (used + length bytes =? 4) eqn:E4.
    + apply Nat.eqb_eq in E4. rewrite E4 in Hpre |- *. rewrite take_ge in Hpre |- * by lia.
      assert (h' = header) as ->.
      { apply prefix_take in Hpre. rewrite Hl', Hh4, <- Hl, take_app_length in Hpre. done. }
      rewrite Hplen. eexists. split; [done|]. rewrite take_nil, app_nil_l, Nat.sub_0_r.
      replace header with (header ++ take 0 (replicate (length payload) 0%Z)) at 2
        by by rewrite take_0, app_nil_r.
      apply reading_payload; [done|by rewrite length_replicate|rewrite length_replicate; apply Hfit].
    + apply Nat.eqb_neq in E4. eexists. split; [done|]. apply reading_header; [congruence|lia].
  - rewrite (proj2 (Nat.ltb_ge 4 4)) in Hroom |- * by lia.
    assert (h = header) as ->.
    { rewrite <- app_assoc in Hpre. destruct Hpre as [k Hk]. rewrite <- app_assoc in Hk.
      apply (f_equal (take 4)) in Hk. by rewrite !take_app_length' in Hk by done. }
    rewrite Hplen in Hp. injection Hp as Hp.
    destruct (copy_at used bytes p) as [p'|] eqn:Hcopy.
    2: { unfold copy_at in Hcopy. rewrite (proj2 (Nat.leb_le _ _)) in Hcopy by lia. done. }
    pose proof (copy_at_length _ _ _ _ Hcopy) as Hl'. pose proof (copy_at_take _ _ _ _ Hcopy) as Ht.
    rewrite <- app_assoc, <- Ht in Hpre |- *. apply prefix_app_inv in Hpre.
    cbv zeta. cbn [rd_payload_used].
    destruct (used + length bytes =? length p') eqn:Ef.
    + apply Nat.eqb_eq in Ef. rewrite Ef in Hpre |- *. rewrite take_ge in Hpre |- * by lia.
      assert (p' = payload) as ->.
      { apply prefix_take in Hpre. rewrite Hl', <- Hp, take_ge in Hpre; done. }
      rewrite decide_True by done.
      exists (mkReader id prev header 4 payload (length payload) true). split; [|done].
      by destruct (reader_finish _ _).
    + apply Nat.eqb_neq in Ef. rewrite decide_False.
      2: { intros Hfull%(inj (header ++.)). apply (f_equal length) in Hfull.
           rewrite length_take in Hfull. lia. }
      eexists. split; [done|]. apply reading_payload; [done|congruence|lia].
Qed.
End reader.

(** ** Delivery *)

Section delivery.
Context {B : Type}.
Context (encode : Envelope B → result (list Z) ProcessError).
Context (decode : list Z → result (Envelope B) ProcessError).

(** What the JSON codec promises: a serialized envelope parses back. *)
Definition codec_law : Prop := ∀ e payload, encode e = Ok payload → decode payload = Ok e.

(** The owner sends bodies one after the other, all successfully. *)
Fixpoint send_all (c : Channel) (bodies : list B) : option (Channel * list Z) :=
  match bodies with
  | [] => Some (c, [])
  | b :: bodies' =>
      match channel_send encode c b Written with
      | (Ok _, c', w) =>
          match send_all c' bodies' with Some (c'', w') => Some (c'', w ++ w') | None => None end
      | _ => None
      end
  end.

(** Reads of any size that the buffer has room for, and the bodies they give. *)
Inductive delivers : Reader → list Z → list B → Reader → list Z → Prop :=
  | delivers_done s w : delivers s w [] s w
  | delivers_more s bytes w s1 ms s2 w2 :
      bytes ≠ [] → length bytes ≤ room s →
      reader_turn decode s (ReadBytes bytes) = Some (None, s1) →
      delivers s1 w ms s2 w2 → delivers s (bytes ++ w) ms s2 w2
  | delivers_body s bytes w b s1 ms s2 w2 :
      bytes ≠ [] → length bytes ≤ room s →
      reader_turn decode s (ReadBytes bytes) = Some (Some (Ok b), s1) →
      delivers s1 w ms s2 w2 → delivers s (bytes ++ w) (b :: ms) s2 w2.

Context (id : SessionIdentity).

(** The bytes of bodies numbered from [n]. *)
Inductive wire : Z → list B → list Z → Prop :=
  | wire_nil n : wire n [] []
  | wire_cons n b bodies payload header rest :
      (0 ≤ n)%Z → encode (mkEnvelope id n b) = Ok payload → frame_header payload = Ok header →
      wire (n + 1) bodies rest → wire n (b :: bodies) ((header ++ payload) ++ rest).

Lemma send_all_wire c bodies c' w :
  ch_identity c = id → (0 ≤ ch_sent c)%Z → send_all c bodies = Some (c', w) →
  wire (ch_sent c) bodies w.
Proof.
  revert c c' w. induction bodies as [|b bodies IH]; intros c c' w Hid Hn; cbn [send_all].
  - intros [= <- <-]. constructor.
  - unfold channel_send. rewrite Hid. unfold checked_add. destruct (_ <? _)%Z; [|done].
    destruct (encode _) as [payload|] eqn:He; [|done].
    destruct (frame_header payload) as [header|] eqn:Hh; [|done].
    destruct (send_all _ bodies) as [[c2 w2]|] eqn:Hs; [|done]. intros [= <- <-].
    apply IH in Hs; [|done|cbn; lia]. by econstructor.
Qed.

(** The sequence accepted before [n]. *)
Definition before (n : Z) : option Z := if (n =? 0)%Z then None else Some (n - 1)%Z.

(** A reader with the bodies still to come. *)
Definition carries (n : Z) (bodies : list B) (s : Reader) (w : list Z) : Prop :=
  ∃ got, reading id (before n) s got ∧
    match bodies with
    | [] => got = [] ∧ w = []
    | b :: bodies' =>
        ∃ payload header rest, (0 ≤ n)%Z ∧ encode (mkEnvelope id n b) = Ok payload ∧
          frame_header payload = Ok header ∧ got `prefix_of` header ++ payload ∧
          got ++ w = (header ++ payload) ++ rest ∧ wire (n + 1) bodies' rest
    end.

Lemma carries_start n bodies header deadline w :
  length header = 4 → wire n bodies w →
  carries n bodies (mkReader id (before n) header 0 [] 0 deadline) w.
Proof.
  intros Hh Hw. exists []. split; [by apply (reading_header id _ header 0); [|lia]|].
  destruct Hw as [n|n b bodies payload h rest Hn He Hf Hw]; [done|].
  exists payload, h, rest. split_and!; try done. apply prefix_nil.
Qed.

(** One read: the reader goes on, or delivers the next body. *)
Lemma carries_turn n bodies s bytes w :
  codec_law → carries n bodies s (bytes ++ w) → bytes ≠ [] → length bytes ≤ room s →
  (∃ s', reader_turn decode s (ReadBytes bytes) = Some (None, s') ∧ carries n bodies s' w) ∨
  (∃ b bodies' s', bodies = b :: bodies' ∧
     reader_turn decode s (ReadBytes bytes) = Some (Some (Ok b), s') ∧ carries (n + 1) bodies' s' w).
Proof.
  intros Hlaw (got&Hr&Hb) Hne Hroom. destruct bodies as [|b bodies].
  { destruct Hb as [_ [? _]%app_eq_nil]. done. }
  destruct Hb as (payload&header&rest&Hn&He&Hh&Hpre&Hw&Hrest).
  destruct (reading_room id _ s got header payload Hr Hpre Hh) as [_ Hlen].
  assert (Hpre' : got ++ bytes `prefix_of` header ++ payload).
  { rewrite app_assoc in Hw. exists (drop (length (got ++ bytes)) (header ++ payload)).
    rewrite <- (take_drop (length (got ++ bytes)) (header ++ payload)) at 1. f_equal.
    apply (f_equal (take (length (got ++ bytes)))) in Hw.
    rewrite take_app_length, take_app_le in Hw by (rewrite length_app; lia). done. }
  pose proof (reading_turn decode id _ s got bytes header payload Hr Hh Hpre' Hne Hroom) as Ht.
  rewrite app_assoc in Hw. destruct (decide _) as [Hfull|Hpart].
  - right. destruct Ht as (s1&Ht&Hp&Hi&Hprev&Hl4). rewrite Hfull in Hw.
    apply (inj (_ ++.)) in Hw as ->.
    unfold reader_finish in Ht. rewrite Hp, (Hlaw _ _ He), Hi, Hprev in Ht.
    assert (Hck : envelope_check (mkEnvelope id n b) id (before n) = Ok tt).
    { unfold envelope_check, before. cbn. rewrite bool_decide_eq_true_2 by done.
      destruct (n =? 0)%Z eqn:E0; [done|]. rewrite (proj2 (Z.ltb_lt _ _)) by lia. done. }
    rewrite Hck in Ht. cbn [ev_body ev_sequence] in Ht. eexists b, bodies, _. split_and!; [done|exact Ht|].
    assert (Some n = before (n + 1)) as ->.
    { unfold before. rewrite (proj2 (Z.eqb_neq _ _)) by lia. f_equal. lia. }
    by apply carries_start.
  - left. destruct Ht as (s'&Ht&Hr'). exists s'. split; [done|]. exists (got ++ bytes).
    split; [done|]. exists payload, header, rest. by split_and!.
Qed.

Lemma delivers_carries n bodies s w ms s' w' :
  codec_law → carries n bodies s w → delivers s w ms s' w' →
  ∃ n' rest, bodies = ms ++ rest ∧ carries n' rest s' w'.
Proof.
  intros Hlaw Hc Hd. revert n bodies Hc.
  induction Hd as [s w|s bytes w s1 ms s2 w2 Hne Hroom Ht _ IH|s bytes w b s1 ms s2 w2 Hne Hroom Ht _ IH];
    intros n bodies Hc; [by exists n, bodies| |];
    destruct (carries_turn n bodies s bytes w Hlaw Hc Hne Hroom)
      as [(s'&Ht'&Hc')|(b'&bodies'&s'&->&Ht'&Hc')]; rewrite Ht in Ht'; simplify_eq.
  - by eapply IH.
  - destruct (IH _ _ Hc') as (n'&rest&->&?). by exists n', rest.
Qed.
End delivery.

(** ** Properties *)

(** The bodies an owner sends arrive at the host exactly once and in
    order, however the byte stream is split over reads: what has been delivered
    is a prefix of what was sent, it is everything once all bytes are read, and
    as long as bytes remain the reader has room for more and every read goes on
    or delivers a body, never an error. *)
Theorem control_channel_delivers {B : Type} (encode : Envelope B → result (list Z) ProcessError)
    (decode : list Z → result (Envelope B) ProcessError) (id : SessionIdentity) (bodies ms : list B)
    (c : Channel) (stream w : list Z) (s : Reader) :
  codec_law encode decode →
  send_all encode (mkChannel id 0 None true) bodies = Some (c, stream) →
  delivers decode (reader_new id) stream ms s w →
  ∃ rest, bodies = ms ++ rest ∧ (w = [] → rest = []) ∧
    (w ≠ [] → 0 < room s ∧
       ∀ bytes w', w = bytes ++ w' → bytes ≠ [] → length bytes ≤ room s →
         ∃ r s', reader_turn decode s (ReadBytes bytes) = Some (r, s') ∧
                 (r = None ∨ ∃ b, r = Some (Ok b))).
Proof.
  intros Hlaw Hsend Hd. apply (send_all_wire encode id) in Hsend; [|done|done]. cbn in Hsend.
  pose proof (carries_start encode id 0 bodies (replicate 4 0%Z) false stream eq_refl Hsend) as Hc.
  destruct (delivers_carries encode decode id 0 bodies _ _ _ _ _ Hlaw Hc Hd) as (n&rest&->&Hc').
  exists rest. split; [done|]. split.
  - intros ->. destruct Hc' as (got&Hr&Hb). destruct rest as [|b rest]; [done|].
    destruct Hb as (payload&header&more&_&_&Hh&Hpre&Hw&_). rewrite app_nil_r in Hw.
    destruct (reading_room id _ s got header payload Hr Hpre Hh) as [Hpos Hle].
    apply (f_equal length) in Hw. rewrite length_app in Hw. lia.
  - intros Hne. split.
    + destruct Hc' as (got&Hr&Hb). destruct rest as [|b rest]; [by destruct Hb|].
      destruct Hb as (payload&header&more&_&_&Hh&Hpre&_).
      by destruct (reading_room id _ s got header payload Hr Hpre Hh).
    + intros bytes w' -> Hbn Hroom.
      destruct (carries_turn encode decode id n rest s bytes w' Hlaw Hc' Hbn Hroom)
        as [(s'&Ht&_)|(b&?&s'&_&Ht&_)]; eexists _, s'; (split; [done|]); eauto.
Qed.

(** A codec of one-byte bodies: the sequence and the body, each a byte. *)
Definition demo_session : SessionIdentity :=
  mkSession 11 23 (bytes_of "sensors") 37 (bytes_of "graph-a") (bytes_of "bundle-b").

Definition byte_encode (e : Envelope Z) : result (list Z) ProcessError :=
  if bool_decide (ev_session e = demo_session) then Ok [ev_sequence e; ev_body e]
  else Err (mkProcessError MalformedMessage).
Definition byte_decode (payload : list Z) : result (Envelope Z) ProcessError :=
  match payload with
  | [n; b] => Ok (mkEnvelope demo_session n b)
  | _ => Err (mkProcessError MalformedMessage)
  end.

Lemma byte_law : codec_law byte_encode byte_decode.
Proof.
  intros [session n b] payload. unfold byte_encode. cbn. case_bool_decide as E; [|done].
  intros [= <-]. cbn. by rewrite E.
Qed.

Lemma control_channel_delivers_witness :
  ∃ rest, [7; 8]%Z = [7]%Z ++ rest ∧ ([0; 0; 2; 1; 8]%Z = [] → rest = []) ∧
    ([0; 0; 2; 1; 8]%Z ≠ [] →
     0 < room (mkReader demo_session (Some 0%Z) [0; 0; 0; 2]%Z 1 [] 0 true) ∧
       ∀ bytes w', [0; 0; 2; 1; 8]%Z = bytes ++ w' → bytes ≠ [] →
         length bytes ≤ room (mkReader demo_session (Some 0%Z) [0; 0; 0; 2]%Z 1 [] 0 true) →
         ∃ r s', reader_turn byte_decode (mkReader demo_session (Some 0%Z) [0; 0; 0; 2]%Z 1 [] 0 true)
                   (ReadBytes bytes) = Some (r, s') ∧ (r = None ∨ ∃ b, r = Some (Ok b))).
Proof.
  apply (control_channel_delivers byte_encode byte_decode demo_session [7; 8]%Z [7]%Z
           (mkChannel demo_session 2 None true) [0; 0; 0; 2; 0; 7; 0; 0; 0; 2; 1; 8]%Z);
    [exact byte_law|by vm_compute|].
  apply (delivers_more byte_decode _ [0; 0; 0]%Z _ (mkReader demo_session None [0; 0; 0; 0]%Z 3 [] 0 true));
    [done|cbn; lia|by vm_compute|].
  apply (delivers_more byte_decode _ [2]%Z _ (mkReader demo_session None [0; 0; 0; 2]%Z 4 [0; 0]%Z 0 true));
    [done|cbn; lia|by vm_compute|].
  apply (delivers_body byte_decode _ [0; 7]%Z _ 7%Z (mkReader demo_session (Some 0%Z) [0; 0; 0; 2]%Z 0 [] 0 false));
    [done|cbn; lia|by vm_compute|].
  apply (delivers_more byte_decode _ [0]%Z _ (mkReader demo_session (Some 0%Z) [0; 0; 0; 2]%Z 1 [] 0 true));
    [done|cbn; lia|by vm_compute|].
  constructor.
Defined.

(** [frame_payload] accepts exactly one whole frame: it returns a body
    exactly when the input is the header [frame_header] makes for that body,
    followed by the body. *)
Theorem frame_payload_exact (frame body : list Z) :
  bytes_ok frame →
  (frame_payload frame = Ok body ↔ ∃ header, frame_header body = Ok header ∧ frame = header ++ body).
Proof.
  intros Hb. unfold frame_payload. split.
  - destruct (length frame <? 4) eqn:E; [done|]. apply Nat.ltb_ge in E.
    assert (Hh : bytes_ok (take 4 frame)) by by apply bytes_ok_take.
    assert (Hl : length (take 4 frame) = 4) by (rewrite length_take; lia).
    destruct (payload_length (take 4 frame)) as [len|] eqn:Hp; [|done].
    destruct (Nat.compare_spec (length (drop 4 frame)) len) as [Heq| |]; [|done..]. intros [= <-].
    exists (take 4 frame). split; [|by rewrite take_drop].
    pose proof (from_le_range (rev (take 4 frame))) as Hr. rewrite length_rev, Hl in Hr.
    specialize (Hr ltac:(by apply Forall_rev)). destruct Hr as [Hr _].
    change (from_le (rev (take 4 frame))) with (from_be_bytes (take 4 frame)) in Hr.
    destruct (payload_length_Ok _ _ Hp) as [[Hlen Hmax]|?]; [|lia].
    assert (Hz : Z.of_nat (length (drop 4 frame)) = from_be_bytes (take 4 frame)) by lia.
    apply frame_header_Ok. unfold fits_frame. rewrite Hz. split; [lia|].
    by rewrite to_from_be.
  - intros (header&[Hfit ->]%frame_header_Ok&->). pose proof (length_be_bytes (Z.of_nat (length body))) as Hl.
    rewrite (proj2 (Nat.ltb_ge _ _)) by (rewrite length_app; lia).
    rewrite take_app_length', drop_app_length' by done.
    rewrite payload_length_be by (destruct Hfit; lia). by rewrite Nat2Z.id, Nat.compare_refl.
Qed.

Lemma frame_payload_exact_witness :
  frame_payload [0; 0; 0; 2; 123; 125]%Z = Ok [123; 125]%Z ↔
  ∃ header, frame_header [123; 125]%Z = Ok header ∧ [0; 0; 0; 2; 123; 125]%Z = header ++ [123; 125]%Z.
Proof. apply frame_payload_exact. repeat constructor; vm_compute; congruence. Defined.
