(* ===== verification/ProcessWire.v ===== *)
(** * ProcessWire: ticks, values, schemas, graphs and failures on the control channel
    ([crates/reiny/src/component/process/step_wire.rs], [step_wire/graph.rs])

    What [WireTick::validate] accepts, and that every tick a scheduler issues
    passes it and decodes to the same interval.  The exporting side turns the
    scheduler's data into wire records and the importing side validates them.
    [collect()] into a [Result] is [try_map]: the first error wins.  The JSON
    codec and the hash of [plan_digest] are parameters.

    Import after export gives back every type, schema, value and graph in its
    owned representation; a plan compiles to the same order on both sides,
    because compilation sees schema identities only up to [same_type]. *)

From Stdlib Require Import ZArith Lia.
From S2P Require Import Prelude Btree Core Bindings BindingsSpec Step StepPlan StepScheduler StepSchedulerSpec StepProps HostProtocol Text Connection.

(** The fields of a duration on the wire: a [u64] and a [u32]. *)
Definition wire_typed (d : WireDuration) : Prop := is_u64 (wd_secs d) ∧ is_u32 (wd_nanos d).

(** A normalized duration and its value. *)
Definition normalized (d : WireDuration) (v : Z) : Prop :=
  (wd_nanos d < NANOS_PER_SEC)%Z ∧ v = (wd_secs d * NANOS_PER_SEC + wd_nanos d)%Z.

Lemma wire_duration_Ok d v : wire_duration d = Ok v ↔ normalized d v.
Proof.
  unfold wire_duration, normalized. destruct (_ <=? _)%Z eqn:E; breflect_in E.
  - split; [done|]. lia.
  - split; [intros [= <-]; done|]. by intros [_ ->].
Qed.

Lemma normalized_range d v : wire_typed d → normalized d v → is_duration v.
Proof.
  intros [[Hs Hs'] [Hn _]] [Hlt ->]. unfold is_duration, duration_max, u64_max, NANOS_PER_SEC in *. lia.
Qed.

(** A tick is valid exactly when its durations are normalized, its interval is
    positive and adds up, and its index has a successor. *)
Lemma wire_tick_validate_Ok t :
  wire_typed (wt_start t) → wire_typed (wt_dt t) → wire_typed (wt_end t) → is_u64 (wt_index t) →
  wire_tick_validate t = Ok tt ↔
  ∃ start dt end_, normalized (wt_start t) start ∧ normalized (wt_dt t) dt ∧
    normalized (wt_end t) end_ ∧ (0 < dt)%Z ∧ (start + dt = end_)%Z ∧ (wt_index t < u64_max)%Z.
Proof.
  intros Hts Htd Hte Hti. unfold wire_tick_validate, checked_succ, checked_add, duration_checked_add.
  setoid_rewrite <- wire_duration_Ok.
  destruct (wire_duration (wt_dt t)) as [dt|] eqn:Ed; [|naive_solver].
  apply wire_duration_Ok in Ed as Hd. apply (normalized_range _ _ Htd) in Hd as [Hd0 _].
  destruct (dt =? 0)%Z eqn:E0; breflect_in E0; [split; [done|]; naive_solver lia|].
  destruct (wire_duration (wt_start t)) as [start|] eqn:Es; [|naive_solver].
  destruct (wire_duration (wt_end t)) as [end_|] eqn:Ee; [|naive_solver].
  apply wire_duration_Ok in Ee as He. apply (normalized_range _ _ Hte) in He as [_ He].
  case_bool_decide as Hadd; cbn [negb].
  - destruct (_ <? _)%Z eqn:Ei; breflect_in Ei.
    + split; [|done]. intros _. exists start, dt, end_. destruct (_ <=? _)%Z; simplify_eq.
      unfold u64_max. split_and!; try done; lia.
    + split; [done|]. intros (?&?&?&_&_&_&_&_&Hi). unfold u64_max in Hi. lia.
  - split; [done|]. intros (?&?&?&[= <-]&[= <-]&[= <-]&_&Hsum&_). destruct Hadd.
    by rewrite (proj2 (Z.leb_le _ _)), Hsum by lia.
Qed.

Lemma wire_from_normalized d : is_duration d → wire_typed (wire_from d) ∧ normalized (wire_from d) d.
Proof.
  intros [H0 H1]. unfold wire_typed, normalized, wire_from, is_u, duration_max, u64_max, NANOS_PER_SEC in *.
  cbn [wd_secs wd_nanos].
  pose proof (Z.mod_pos_bound d 1000000000 ltac:(lia)). pose proof (Z.div_mod d 1000000000 ltac:(lia)).
  assert (0 ≤ d `div` 1000000000 < 2 ^ 64)%Z by (split; [apply Z.div_pos; lia|apply Z.div_lt_upper_bound; lia]).
  split_and!; lia.
Qed.

(** Every tick that a reachable scheduler issues for an accepted request
    crosses the control channel: the wire form passes [WireTick::validate], and
    its durations decode to the tick's start, length and end. *)
Theorem tick_crosses_wire (s : StepScheduler) (r : StepRequest) :
  sched_reachable s → request_typed r → request_wf s r →
  let t := vr_tick (validated s r) in
  wire_tick_validate (wire_tick_of t) = Ok tt ∧
  wire_duration (wt_start (wire_tick_of t)) = Ok (tick_start t) ∧
  wire_duration (wt_dt (wire_tick_of t)) = Ok (tick_dt t) ∧
  wire_duration (wt_end (wire_tick_of t)) = Ok (tick_end t).
Proof.
  intros Hs%sched_reachable_ok [Hdt _] [Hpos Htime Hidx _ _]. cbn.
  pose proof (so_time _ Hs) as Hst. pose proof (so_index _ Hs) as Hix.
  assert (Hend : is_duration (sch_time s + rq_dt r)) by (unfold is_duration in *; lia).
  destruct (wire_from_normalized _ Hst) as [Hts Hns], (wire_from_normalized _ Hdt) as [Htd Hnd],
    (wire_from_normalized _ Hend) as [Hte Hne].
  rewrite !wire_duration_Ok. split_and!; [|done..]. apply wire_tick_validate_Ok; [done..|]. cbn.
  exists (sch_time s), (rq_dt r), (sch_time s + rq_dt r)%Z. unfold is_duration in Hdt.
  split_and!; try done; lia.
Qed.

Lemma tick_crosses_wire_witness :
  wire_tick_validate (wire_tick_of (vr_tick (validated loop_scheduler (target 2)))) = Ok tt ∧
  wire_duration (wt_start (wire_tick_of (vr_tick (validated loop_scheduler (target 2))))) =
    Ok (tick_start (vr_tick (validated loop_scheduler (target 2)))) ∧
  wire_duration (wt_dt (wire_tick_of (vr_tick (validated loop_scheduler (target 2))))) =
    Ok (tick_dt (vr_tick (validated loop_scheduler (target 2)))) ∧
  wire_duration (wt_end (wire_tick_of (vr_tick (validated loop_scheduler (target 2))))) =
    Ok (tick_end (vr_tick (validated loop_scheduler (target 2)))).
Proof.
  apply tick_crosses_wire; [apply loop_reachable|apply target_typed|].
  destruct (request_validate_spec loop_scheduler (target 2) (sched_reachable_ok _ loop_reachable)
              (target_typed 2)) as (v&Hv&Hspec).
  assert (Hok : request_validate (target 2) (sch_plan loop_scheduler) (clock loop_scheduler) =
                Some (Ok (validated loop_scheduler (target 2)))) by by vm_compute.
  rewrite Hok in Hv. injection Hv as <-. by destruct Hspec.
Defined.

(** [iter.map(f).collect::<Result<_, _>>()] *)
Fixpoint try_map {A B E} (f : A → result B E) (l : list A) : result (list B) E :=
  match l with
  | [] => Ok []
  | x :: l' => let? y := f x in let? k := try_map f l' in Ok (y :: k)
  end.

#[export] Instance WireStepType_eq_dec : EqDecision WireStepType.
Proof. solve_decision. Defined.
#[export] Instance WireValue_eq_dec : EqDecision WireValue.
Proof. solve_decision. Defined.
#[export] Instance WireSchema_eq_dec : EqDecision WireSchema.
Proof. solve_decision. Defined.
#[export] Instance StepSessionKey_eq_dec : EqDecision StepSessionKey.
Proof. solve_decision. Defined.
#[export] Instance StepCallKey_eq_dec : EqDecision StepCallKey.
Proof. solve_decision. Defined.

(** Failures on the wire ([host_protocol/step.rs]) *)
Inductive StepFailureCode : Type :=
  | CodeNodeError | CodeNodePanicked | CodeInvalidOutputs | CodeCancelled | CodeTimedOut
  | CodeHostStopped | CodeWorkerLost.

Record WireStepFailure : Type := mkWireFailure { wf_code : StepFailureCode; wf_message : str }.

(** [component::step::DispatchFailure] *)
Record DispatchFailure : Type := mkDispatchFailure { df_kind : StepFailureKind; df_message : str }.

Definition invalid : ProcessError := mkProcessError FAssignment.

(** ** Types and schemas *)

Definition export_type (ty : StepType) : WireStepType :=
  mkWireStepType (step_type_name ty) (step_fingerprint_version ty) (step_fingerprint ty) (semantics ty).

Definition import_type (ty : WireStepType) : result StepType ProcessError :=
  let? encoded := map_err (λ _, invalid)
    (encoded_type_new (wst_type_name ty) (wst_fingerprint_version ty) (wst_fingerprint ty)) in
  let? step := map_err (λ _, invalid) (from_encoded_type encoded) in
  map_err (λ _, invalid) (type_with_semantics step (wst_assertions ty)).

Definition export_schema (schema : StepSchema) : WireSchema :=
  mkWireSchema (prod_map id export_type <$> ss_inputs schema)
    (prod_map id export_type <$> ss_outputs schema).

(** [ports], the function inside [import_schema] *)
Definition import_ports (ports : btree str WireStepType) : result (btree str StepType) ProcessError :=
  if MAX_ENTRIES <? length ports then Err invalid else
  try_map (λ '(name, ty),
             let? _ := map_err (λ _, invalid) (validate_port_name name) in
             let? ty := import_type ty in Ok (name, ty)) ports.

Definition import_schema (schema : WireSchema) : result StepSchema ProcessError :=
  let? inputs := import_ports (ws_inputs schema) in
  let? outputs := import_ports (ws_outputs schema) in
  Ok (mkStepSchema inputs outputs).

(** ** Values *)

(** The encoded length of a value, as compared with the limits. *)
Definition byte_len (bytes : list Z) : Z := Z.of_nat (length bytes).

Definition export_values (values : StepOutputs) : result (btree str WireValue) ProcessError :=
  if MAX_ENTRIES <? length values then Err invalid else
  try_map (λ '(port, value),
             if (MAX_VALUE_BYTES <? byte_len (sv_bytes value))%Z then Err invalid else
             Ok (port, mkWireValue (export_type (sv_type value)) (sv_bytes value))) values.

Definition import_values (values : btree str WireValue) : result StepInputs ProcessError :=
  if MAX_ENTRIES <? length values then Err invalid else
  try_map (λ '(port, value),
             if (MAX_VALUE_BYTES <? byte_len (wv_bytes value))%Z then Err invalid else
             let? ty := import_type (wv_ty value) in
             Ok (port, from_encoded ty (wv_bytes value))) values.

Definition check_values (schema : btree str StepType) (values : StepInputs) :
  result unit ProcessError :=
  if negb (length schema =? length values)
     || existsb (λ '(p, t), match bt_get p values with
                            | None => true
                            | Some v => negb (step_type_eqb (sv_type v) t)
                            end) schema
  then Err invalid else Ok tt.

(** ** Failures *)

Definition export_failure (kind : StepFailureKind) (message : str) : WireStepFailure :=
  mkWireFailure
    match kind with
    | NodeErrorKind => CodeNodeError
    | NodePanicked => CodeNodePanicked
    | InvalidOutputs => CodeInvalidOutputs
    | Cancelled => CodeCancelled
    | TimedOut => CodeTimedOut
    | HostStopped => CodeHostStopped
    | WorkerLost | AdvanceDropped => CodeWorkerLost
    end message.

Definition import_failure (failure : WireStepFailure) : DispatchFailure :=
  mkDispatchFailure
    match wf_code failure with
    | CodeNodeError => NodeErrorKind
    | CodeNodePanicked => NodePanicked
    | CodeInvalidOutputs => InvalidOutputs
    | CodeCancelled => Cancelled
    | CodeTimedOut => TimedOut
    | CodeHostStopped => HostStopped
    | CodeWorkerLost => WorkerLost
    end (wf_message failure).

(** ** Graphs *)

Definition initial_key : str := bytes_of "initial".

Definition export_output (p : StepOutput) : WireOutput := mkWireOutput (so_instance p) (so_port p).
Definition import_output (p : WireOutput) : StepOutput := mkStepOutput (wo_instance p) (wo_port p).

Definition export_source (source : StepSource) : result WireSource ProcessError :=
  match source with
  | External => Ok WireExternal
  | SameTick p => Ok (WireSameTick (export_output p))
  | PreviousTick source initial =>
      let? values := export_values [(initial_key, initial)] in
      let? initial := ok_or (bt_remove initial_key values).1 invalid in
      Ok (WirePreviousTick (export_output source) initial)
  end.

Definition export_graph (graph : StepGraph) : result WireGraph ProcessError :=
  let? inputs := try_map (λ '(input, source),
                   let? source := export_source source in
                   Ok (mkWireRoute (si_instance input) (si_port input) source)) (sg_inputs graph) in
  Ok (mkWireGraph (prod_map id export_schema <$> sg_nodes graph) inputs).

Definition import_source (source : WireSource) : result StepSource ProcessError :=
  match source with
  | WireExternal => Ok External
  | WireSameTick source => Ok (SameTick (import_output source))
  | WirePreviousTick source initial =>
      let? values := import_values [(initial_key, initial)] in
      let? initial := ok_or (bt_remove initial_key values).1 invalid in
      Ok (PreviousTick (import_output source) initial)
  end.

(** The body of the loop over the routes. *)
Definition import_route (inputs : btree StepInput StepSource) (route : WireRoute) :
  result (btree StepInput StepSource) ProcessError :=
  let? source := import_source (wr_source route) in
  let '(old, inputs) := bt_insert (mkStepInput (wr_instance route) (wr_port route)) source inputs in
  match old with Some _ => Err invalid | None => Ok inputs end.

Definition import_graph (graph : WireGraph) : result StepGraph ProcessError :=
  if (MAX_ENTRIES <? length (wg_nodes graph))
     || (Z.of_nat MAX_ENTRIES * Z.of_nat MAX_ENTRIES <? Z.of_nat (length (wg_inputs graph)))%Z
  then Err invalid else
  let? nodes := try_map (λ '(id, s), let? s := import_schema s in Ok (id, s)) (wg_nodes graph) in
  let? inputs := for_fold import_route [] (wg_inputs graph) in
  Ok (mkStepGraph nodes inputs).

(** [plan_digest]; the codec of the pair and the hexadecimal SHA-256 are parameters *)
Definition plan_digest (encode : WireGraph → WireDuration → result (list Z) ProcessError)
    (sha256_hex : list Z → str) (graph : WireGraph) (initial_time : WireDuration) :
  result str ProcessError :=
  let? bytes := encode graph initial_time in
  Ok (sha256_hex bytes).

(** ** Lemmas of [try_map] *)

Section try_map.
Context {A B E : Type}.

Lemma try_map_Ok (f : A → result B E) l k :
  try_map f l = Ok k ↔ Forall2 (λ x y, f x = Ok y) l k.
Proof.
  revert k. induction l as [|x l IH]; intros k; cbn.
  - split; [intros [= <-]; constructor|]. by inversion 1.
  - split.
    + destruct (f x) as [y|] eqn:Ex; [|done]. destruct (try_map f l) as [k'|]; [|done].
      intros [= <-]. constructor; [done|]. by apply IH.
    + inversion 1 as [|?? y k' Hx Hl]; subst. rewrite Hx. by rewrite (proj2 (IH k') Hl).
Qed.

Lemma try_map_ext_Ok (f : A → result B E) (g : A → B) l :
  Forall (λ x, f x = Ok (g x)) l → try_map f l = Ok (g <$> l).
Proof. induction 1 as [|x l Hx _ IH]; [done|]. cbn. by rewrite Hx, IH. Qed.
End try_map.

(** ** Schema identities *)

(** A name and assertions that [EncodedType::new] and [with_semantics] accept. *)
Definition type_wf (t : StepType) : Prop :=
  forallb protobuf_segment (split_on 46 (step_type_name t)) = true ∧
  validate_semantics (semantics t) = Ok tt.

(** The owned representation of an identity. *)
Definition owned (t : StepType) : StepType :=
  mkStepType (Owned (mkOwnedType (step_type_name t) (step_fingerprint t) (semantics t))).

Lemma owned_same t : same_type (owned t) t.
Proof. by apply same_type_parts. Qed.

Lemma export_same a b : same_type a b ↔ export_type a = export_type b.
Proof.
  rewrite same_type_parts. unfold export_type, step_fingerprint_version. split.
  - by intros (->&->&->).
  - by intros [= -> -> ->].
Qed.

(** [import_type] accepts exactly the well-formed identities of this version. *)
Lemma import_type_Ok w t :
  import_type w = Ok t ↔
  wst_fingerprint_version w = SCHEMA_FINGERPRINT_VERSION ∧
  type_wf t ∧ t = owned t ∧ export_type t = w.
Proof.
  unfold import_type, encoded_type_new, from_encoded_type, type_with_semantics.
  destruct w as [name version fp sem]. cbn. split.
  - destruct (forallb _ _) eqn:En; [cbn|done]. destruct (version =? _)%Z eqn:Ev; [cbn|done].
    breflect_in Ev. destruct (validate_semantics sem) as [[]|] eqn:Es; [cbn|done]. intros [= <-].
    by subst version.
  - intros (->&[Hn Hs]&Ho&Hw). unfold export_type in Hw. injection Hw as <- <- <-.
    rewrite Hn, Z.eqb_refl. cbn. rewrite Hs. cbn. by rewrite Ho.
Qed.

Lemma import_export_type t : type_wf t → import_type (export_type t) = Ok (owned t).
Proof. intros Hwf. by apply import_type_Ok. Qed.

(** ** Schemas *)

Definition port_wf (e : str * StepType) : Prop := segment_wf e.1 ∧ type_wf e.2.

Record ports_wf (ports : btree str StepType) : Prop := {
  pw_count : length ports ≤ MAX_ENTRIES;
  pw_ports : Forall port_wf ports;
}.

Definition schema_wf (s : StepSchema) : Prop := ports_wf (ss_inputs s) ∧ ports_wf (ss_outputs s).

Definition retype_schema (f : StepType → StepType) (s : StepSchema) : StepSchema :=
  mkStepSchema (prod_map id f <$> ss_inputs s) (prod_map id f <$> ss_outputs s).

Lemma import_export_ports ports :
  ports_wf ports →
  import_ports (prod_map id export_type <$> ports) = Ok (prod_map id owned <$> ports).
Proof.
  intros [Hc Hp]. unfold import_ports. rewrite length_fmap, (proj2 (Nat.ltb_ge _ _)) by done.
  rewrite (try_map_ext_Ok _ (λ e : str * WireStepType, (e.1, mkStepType (Owned
    (mkOwnedType (wst_type_name e.2) (wst_fingerprint e.2) (wst_assertions e.2)))))).
  - by rewrite <- list_fmap_compose.
  - apply Forall_fmap. eapply Forall_impl; [exact Hp|]. intros [name ty] [Hn Ht]. cbn in *.
    rewrite (proj2 (validate_port_name_Ok name) Hn). cbn. by rewrite import_export_type.
Qed.

Lemma import_export_schema s :
  schema_wf s → import_schema (export_schema s) = Ok (retype_schema owned s).
Proof.
  intros [Hi Ho]. unfold import_schema, export_schema. cbn.
  by rewrite !import_export_ports.
Qed.

(** ** Values *)

Definition value_fits (v : StepValue) : Prop :=
  type_wf (sv_type v) ∧ (byte_len (sv_bytes v) ≤ MAX_VALUE_BYTES)%Z.

Definition owned_value (v : StepValue) : StepValue := mkStepValue (owned (sv_type v)) (sv_bytes v).
Definition export_value (v : StepValue) : WireValue := mkWireValue (export_type (sv_type v)) (sv_bytes v).

(** Export succeeds exactly within the limits. *)
Lemma export_values_Ok values wire :
  export_values values = Ok wire ↔
  length values ≤ MAX_ENTRIES ∧
  Forall (λ e, (byte_len (sv_bytes e.2) ≤ MAX_VALUE_BYTES)%Z) (values : list (str * StepValue)) ∧
  wire = prod_map id export_value <$> values.
Proof.
  unfold export_values. destruct (_ <? _)%nat eqn:El; breflect_in El; [split; [done|lia]|].
  etransitivity; [apply try_map_Ok|]. split.
  - intros Hall. split; [done|]. clear El. induction Hall as [|[port v] y l k Hx _ [IH1 IH2]]; [done|].
    destruct (_ <? _)%Z eqn:Eb in Hx; breflect_in Eb; simplify_eq. by repeat constructor.
  - intros (_&Hall&->). apply Forall2_fmap_r. apply Forall_Forall2_diag.
    eapply Forall_impl; [exact Hall|]. intros [port v] Hv. cbn in *.
    by rewrite (proj2 (Z.ltb_ge _ _)).
Qed.

Lemma import_export_values values :
  length values ≤ MAX_ENTRIES → Forall (λ e, value_fits e.2) (values : list (str * StepValue)) →
  import_values (prod_map id export_value <$> values) = Ok (prod_map id owned_value <$> values).
Proof.
  intros Hlen Hall. unfold import_values. rewrite length_fmap, (proj2 (Nat.ltb_ge _ _)) by done.
  rewrite (try_map_ext_Ok _ (λ e : str * WireValue, (e.1, mkStepValue (mkStepType (Owned
    (mkOwnedType (wst_type_name (wv_ty e.2)) (wst_fingerprint (wv_ty e.2))
       (wst_assertions (wv_ty e.2))))) (wv_bytes e.2)))).
  - by rewrite <- list_fmap_compose.
  - apply Forall_fmap. eapply Forall_impl; [exact Hall|]. intros [port v] [Ht Hb]. cbn in *.
    rewrite (proj2 (Z.ltb_ge _ _)) by done. by rewrite import_export_type.
Qed.

(** Values that pass [check_values] have exactly the declared ports and types. *)
Lemma check_values_Ok schema values :
  check_values schema values = Ok tt ↔
  length schema = length values ∧
  ∀ p t, (p, t) ∈ schema → ∃ v, bt_get p values = Some v ∧ same_type (sv_type v) t.
Proof.
  unfold check_values. destruct (_ || _) eqn:E.
  - split; [done|]. intros [Hlen Hall]. rewrite (proj2 (Nat.eqb_eq _ _) Hlen) in E. cbn in E.
    apply existsb_exists_elem in E as ([p t]&Hin&Hx).
    destruct (Hall p t Hin) as (v&Hv&Ht). rewrite Hv in Hx.
    apply step_type_eqb_true in Ht. by rewrite Ht in Hx.
  - split; [intros _|done]. apply orb_false_iff in E as [Hlen Hex]. breflect_in Hlen.
    split; [done|]. intros p t Hin.
    pose proof (proj1 (existsb_false_elem _ _) Hex (p, t) Hin) as Hp. clear Hex. cbn in Hp. destruct (bt_get p values) as [v|]; [|done].
    exists v. split; [done|]. apply step_type_eqb_true. by destruct (step_type_eqb _ _).
Qed.

(** ** Compilation up to schema identity *)

(** A change of representation of every identity of a graph. *)
Definition retype_route (f : StepType → StepType) (r : PlanRoute) : PlanRoute :=
  mkRoute (pr_output r) (f <$> pr_initial r) (pr_same_tick r).

Definition retype_source (f : StepType → StepType) (s : StepSource) : StepSource :=
  match s with
  | PreviousTick source initial =>
      PreviousTick source (mkStepValue (f (sv_type initial)) (sv_bytes initial))
  | External | SameTick _ => s
  end.

Definition retype_graph (f : StepType → StepType) (g : StepGraph) : StepGraph :=
  mkStepGraph (prod_map id (retype_schema f) <$> sg_nodes g)
    (prod_map id (retype_source f) <$> sg_inputs g).

Definition retype_error (f : StepType → StepType) (e : StepPlanError) : StepPlanError :=
  match e with
  | TypeMismatch input expected actual => TypeMismatch input (f expected) (f actual)
  | InitialTypeMismatch input expected actual => InitialTypeMismatch input (f expected) (f actual)
  | _ => e
  end.

Lemma for_fold_map {A A' S E E'} (f : S → A → result S E) (f' : S → A' → result S E')
    (h : A → A') (e : E → E') s l :
  (∀ s x, f' s (h x) = map_err e (f s x)) →
  for_fold f' s (h <$> l) = map_err e (for_fold f s l).
Proof.
  intros Hf. revert s. induction l as [|x l IH]; intros s; cbn; [done|].
  rewrite Hf. destruct (f s x); cbn; [apply IH|done].
Qed.

Lemma for_each_map {A E E'} (e : E → E') (f : A → result unit E) (f' : A → result unit E') l :
  (∀ x, f' x = map_err e (f x)) → for_each f' l = map_err e (for_each f l).
Proof.
  intros Hf. induction l as [|x l IH]; cbn; [done|]. rewrite Hf.
  destruct (f x); cbn; [apply IH|done].
Qed.

Section retype.
Context (f : StepType → StepType) (Hf : ∀ t, same_type (f t) t).

Lemma retype_eqb a b : step_type_eqb (f a) (f b) = step_type_eqb a b.
Proof. by rewrite !Hf. Qed.

Lemma retype_keys {K} (m : btree K StepType) : (prod_map id f <$> m).*1 = m.*1.
Proof. rewrite <- list_fmap_compose. by apply list_fmap_ext; intros ? [k t]. Qed.

Lemma check_node_retype inputs d n :
  check_node (prod_map id (retype_route f) <$> inputs) d (prod_map id (retype_schema f) n) =
  map_err (retype_error f) (check_node inputs d n).
Proof.
  destruct n as [instance schema]. unfold check_node. cbn.
  destruct (validate_namespace instance); cbn; [|done]. rewrite !retype_keys.
  rewrite (for_each_map (retype_error f) (λ port, map_err (λ _, InvalidPort instance port) (validate_port_name port))) at 1
    by (intros p; by destruct (validate_port_name p)).
  destruct (for_each _ (_ ++ _)); cbn; [|done].
  rewrite (for_each_map (retype_error f) (λ port, if negb (bt_contains (mkStepInput instance port) inputs)
    then Err (MissingInput (mkStepInput instance port)) else Ok tt)).
  - by destruct (for_each _ (ss_inputs schema).*1).
  - intros p. unfold bt_contains. rewrite bt_get_fmap. by destruct (bt_get _ inputs).
Qed.

Lemma find_port_retype ports nodes i p :
  (∀ s, ports (retype_schema f s) = prod_map id f <$> ports s) →
  find_port ports (prod_map id (retype_schema f) <$> nodes) i p = f <$> find_port ports nodes i p.
Proof.
  intros Hp. unfold find_port. rewrite bt_get_fmap. destruct (bt_get i nodes) as [s|]; cbn; [|done].
  by rewrite Hp, bt_get_fmap.
Qed.

Lemma check_route_retype nodes d e :
  check_route (prod_map id (retype_schema f) <$> nodes) d (prod_map id (retype_route f) e) =
  map_err (retype_error f) (check_route nodes d e).
Proof.
  destruct e as [input route]. unfold check_route. cbn.
  rewrite (find_port_retype ss_inputs) by done.
  destruct (find_port ss_inputs nodes _ _) as [expected|]; cbn; [|done].
  assert (Hi : match pr_initial (retype_route f route) with
     | Some initial => if negb (step_type_eqb initial (f expected))
                       then Err (InitialTypeMismatch input (f expected) initial) else Ok tt
     | None => Ok tt end =
   map_err (retype_error f) match pr_initial route with
     | Some initial => if negb (step_type_eqb initial expected)
                       then Err (InitialTypeMismatch input expected initial) else Ok tt
     | None => Ok tt end).
  { cbn. destruct (pr_initial route) as [t|]; cbn; [|done]. rewrite retype_eqb.
    by destruct (step_type_eqb t expected). }
  cbn in Hi. rewrite Hi. destruct (match pr_initial route with Some _ => _ | None => _ end); cbn; [|done].
  destruct (pr_output route) as [output|]; [|done].
  rewrite (find_port_retype ss_outputs) by done.
  destruct (find_port ss_outputs nodes _ _) as [actual|]; cbn; [|done].
  rewrite retype_eqb. by destruct (step_type_eqb actual expected).
Qed.

Lemma order_nodes_retype fuel d order :
  order_nodes fuel d order = map_err (retype_error f) <$> order_nodes fuel d order.
Proof.
  revert d order. induction fuel as [|fuel IH]; intros d order; cbn; case_bool_decide; try done.
  destruct (find _ d) as [[next ?]|]; [apply IH|done].
Qed.

Lemma validate_routes_retype nodes inputs :
  validate_routes (prod_map id (retype_schema f) <$> nodes) (prod_map id (retype_route f) <$> inputs) =
  map_err (retype_error f) <$> validate_routes nodes inputs.
Proof.
  unfold validate_routes. rewrite length_fmap. case_bool_decide; [done|].
  rewrite (for_fold_map (check_node inputs) _ _ (retype_error f))
    by (intros; apply check_node_retype).
  destruct (for_fold (check_node inputs) [] nodes) as [d|e]; cbn; [|done].
  rewrite (for_fold_map (check_route nodes) _ _ (retype_error f))
    by (intros; apply check_route_retype).
  destruct (for_fold (check_route nodes) d inputs) as [d'|e]; cbn; [|done].
  apply order_nodes_retype.
Qed.

(** A plan compiles in every representation of its identities, to the same order. *)
Lemma compile_retype g :
  compile (retype_graph f g) =
  match compile g with
  | Some (Ok p) => Some (Ok (mkPlan (retype_graph f g) (pl_order p)))
  | Some (Err e) => Some (Err (retype_error f e))
  | None => None
  end.
Proof.
  unfold compile. cbn.
  assert (Hr : prod_map id route_of <$> (prod_map id (retype_source f) <$> sg_inputs g) =
               prod_map id (retype_route f) <$> (prod_map id route_of <$> sg_inputs g)).
  { rewrite <- !list_fmap_compose. apply list_fmap_ext. by intros ? [i []]. }
  rewrite Hr, validate_routes_retype.
  by destruct (validate_routes _ _) as [[]|].
Qed.
End retype.

(** ** Graphs *)

Definition source_fits (s : StepSource) : Prop :=
  match s with PreviousTick _ v => value_fits v | External | SameTick _ => True end.

(** A graph within the limits of the protocol. *)
Record graph_fits (g : StepGraph) : Prop := {
  gf_nodes : length (sg_nodes g) ≤ MAX_ENTRIES;
  gf_inputs : (Z.of_nat (length (sg_inputs g)) ≤ Z.of_nat MAX_ENTRIES * Z.of_nat MAX_ENTRIES)%Z;
  gf_schemas : Forall (λ n, schema_wf n.2) (sg_nodes g : list (str * StepSchema));
  gf_sources : Forall (λ e, source_fits e.2) (sg_inputs g : list (StepInput * StepSource));
  gf_ordered : bt_ok (sg_inputs g);
}.

Definition wire_source (s : StepSource) : WireSource :=
  match s with
  | External => WireExternal
  | SameTick p => WireSameTick (export_output p)
  | PreviousTick p v => WirePreviousTick (export_output p) (export_value v)
  end.

Definition wire_route (e : StepInput * StepSource) : WireRoute :=
  mkWireRoute (si_instance e.1) (si_port e.1) (wire_source e.2).

Definition wire_graph (g : StepGraph) : WireGraph :=
  mkWireGraph (prod_map id export_schema <$> sg_nodes g) (wire_route <$> sg_inputs g).

Lemma export_source_fits s : source_fits s → export_source s = Ok (wire_source s).
Proof.
  destruct s as [|p|p v]; [done..|]. intros [_ Hb]. unfold export_source, export_values. cbn.
  by rewrite (proj2 (Z.ltb_ge _ _)).
Qed.

Lemma import_source_fits s : source_fits s → import_source (wire_source s) = Ok (retype_source owned s).
Proof.
  destruct s as [|[]|[] v]; [done..|]. intros [Ht Hb]. unfold import_source, import_values. cbn.
  rewrite (proj2 (Z.ltb_ge _ _)) by done. by rewrite import_export_type.
Qed.

Lemma export_graph_fits g : graph_fits g → export_graph g = Ok (wire_graph g).
Proof.
  intros Hg. unfold export_graph.
  rewrite (try_map_ext_Ok _ wire_route); [done|].
  eapply Forall_impl; [apply (gf_sources _ Hg)|]. intros [i s] Hs. cbn in *.
  by rewrite export_source_fits.
Qed.

(** Inserting a key above all others appends. *)
Lemma bt_insert_last {K V} `{OrdLaws K} (k : K) (v : V) m :
  Forall (λ e, cmp e.1 k = Lt) (m : list (K * V)) → bt_insert k v m = (None, m ++ [(k, v)]).
Proof.
  induction 1 as [|[k' v'] m Hlt _ IH]; cbn in *; [done|].
  by rewrite (cmp_opp k' k), Hlt, IH.
Qed.

Lemma bt_ok_snoc {K V} `{OrdLaws K} (m : btree K V) e l :
  bt_ok (m ++ e :: l) → Forall (λ x, cmp x.1 e.1 = Lt) (m : list (K * V)).
Proof.
  induction m as [|[k v] m IH]; cbn; [constructor|]. intros [Hall Hok].
  constructor; [|by apply IH]. rewrite Forall_forall in Hall. apply Hall. set_solver.
Qed.

Lemma import_routes_fit l : ∀ m : list (StepInput * StepSource),
  bt_ok (m ++ l) → Forall (λ e, source_fits e.2) l →
  for_fold import_route (prod_map id (retype_source owned) <$> m) (wire_route <$> l) =
  Ok (prod_map id (retype_source owned) <$> m ++ l).
Proof.
  induction l as [|[i s] l IH]; intros m Hok Hfit; cbn; [by rewrite app_nil_r|].
  apply Forall_cons in Hfit as [Hs Hfit]. unfold import_route at 1. cbn.
  rewrite import_source_fits by done. cbn.
  replace (mkStepInput (si_instance i) (si_port i)) with i by by destruct i.
  rewrite bt_insert_last by (apply Forall_fmap; apply bt_ok_snoc in Hok; exact Hok).
  specialize (IH (m ++ [(i, s)])). rewrite fmap_app, <- app_assoc in IH. by apply IH.
Qed.

Lemma import_export_graph g : graph_fits g → import_graph (wire_graph g) = Ok (retype_graph owned g).
Proof.
  intros [Hn Hi Hsch Hsrc Hok]. unfold import_graph. cbn [wire_graph wg_nodes wg_inputs].
  rewrite !length_fmap, (proj2 (Nat.ltb_ge _ _)), (proj2 (Z.ltb_ge _ _)) by done. cbn [orb].
  assert (Hnodes : try_map (λ '(id, s), let? s := import_schema s in Ok (id, s))
      (prod_map id export_schema <$> sg_nodes g) = Ok (prod_map id (retype_schema owned) <$> sg_nodes g)).
  { clear Hn. induction Hsch as [|[id s] l Hs _ IH]; cbn in *; [done|].
    rewrite import_export_schema by done. by rewrite IH. }
  pose proof (import_routes_fit (sg_inputs g) [] Hok Hsrc) as Hr. cbn [app fmap list_fmap] in Hr.
  rewrite Hnodes. by rewrite Hr.
Qed.
