(* ===== verification/HostMessages.v ===== *)
(** * HostMessages: the host's side of the protocol, and how a session ends
    ([crates/reiny-core/src/host_protocol/message.rs], [status.rs],
    [crates/reiny/src/component/status.rs], [process/terminal.rs])

    The events a host reports, the outcome of its local component group, and
    [finish], which joins a failure of the control session with the failures of
    the group into the outcome that is reported. *)

From Stdlib Require Import ZArith Lia.
From S2P Require Import Prelude Text Btree Core Bindings Report Step HostProtocol Connection ProcessWire.

(** ** Protocol status *)

Inductive HostPhase : Type :=
  | PAuthenticating | PPreparing | PPrepared | PCommitted | PRunning | PStopping | PStopped | PFailed
  | PUnresponsive.

#[export] Instance HostPhase_eq_dec : EqDecision HostPhase.
Proof. solve_decision. Defined.

Record HostFailure : Type := mkHostFailure {
  hf_code : FailureCode;
  hf_phase : HostPhase;
  hf_instance : option str;
  hf_message : str;
}.

Record InstanceStatus : Type := mkInstanceStatus {
  is_phase : HostPhase;
  is_report : option ModuleReport;
  is_first_failure : option HostFailure;
}.

Record HostStatus : Type := mkHostStatus {
  hs_phase : HostPhase;
  hs_instances : btree str InstanceStatus;
}.

Inductive HostOutcome : Type :=
  | OutcomeStopped
  | OutcomeFailed (primary : HostFailure) (cleanup : list HostFailure)
  | OutcomeUnresponsive (primary : option HostFailure) (cleanup : list HostFailure)
      (instances : list str).

(** ** Host events *)

Record Authenticate : Type := mkAuthenticate {
  au_nonce : list Z;
  au_compatibility : Compatibility;
  au_registrations : list FactoryRegistration;
}.

Record StepResult : Type := mkStepResult {
  sr_call : StepCallKey;
  sr_result : result (btree str WireValue) WireStepFailure;
}.

Inductive StepHostMessage : Type :=
  | StepAuthenticate (ordinary : Authenticate) (schemas : btree str WireSchema)
  | StepReport (report : StepPreparedReport)
  | StepBound (bound : BoundSteps)
  | StepResultMessage (r : StepResult).

Inductive HostMessage : Type :=
  | HostSteps (message : StepHostMessage)
  | HostAuthenticate (proof : Authenticate)
  | HostReport (report : ModuleReport)
  | HostPreparedComplete
  | HostCommitted
  | HostRunning
  | HostStatusMessage (status : HostStatus)
  | HostFailureMessage (failure : HostFailure)
  | HostOutcomeMessage (outcome : HostOutcome).

(** ** The local component group ([component/status.rs]) *)

Inductive HostErrorCode : Type :=
  | EDuplicateFactory | EEmptyGraph | EDuplicateInstance | EUnknownFactory | EInvalidBindings
  | EInvalidOptions | ENoRuntime | EContextOpen | EFactory | EPrepare | EAdmission | EGraph
  | EActivate | ERun | EStep | EUnexpectedExit | EPanic | EReadinessLost | EStopHook | ETimeout
  | ECancelled.

Record HostError : Type := mkHostError {
  he_code : HostErrorCode;
  he_instance : option str;
  he_message : str;
  he_report : option ReportError;
}.

(** [HostError::new] *)
Definition host_error_new (code : HostErrorCode) (instance : option str) (message : str) : HostError :=
  mkHostError code instance message None.

Inductive LocalOutcome : Type :=
  | LocalStopped
  | LocalFailed (primary : HostError) (cleanup : list HostError)
  | LocalUnresponsive (primary : option HostError) (cleanup : list HostError) (instances : list str).

(** ** Codes ([process/terminal.rs]) *)

#[export] Instance FailureCode_eq_dec : EqDecision FailureCode.
Proof. solve_decision. Defined.
#[export] Instance HostErrorCode_eq_dec : EqDecision HostErrorCode.
Proof. solve_decision. Defined.

Definition code (c : HostErrorCode) : FailureCode :=
  match c with
  | EDuplicateFactory | EUnknownFactory | EFactory => Factory
  | EEmptyGraph | EDuplicateInstance | EInvalidBindings | EInvalidOptions | ENoRuntime => FAssignment
  | EContextOpen => ContextOpen
  | EPrepare => FPrepare
  | EAdmission => Admission
  | EGraph => FReport
  | EActivate => FCommit
  | ERun | EStep => FRun
  | EUnexpectedExit => UnexpectedExit
  | EPanic => FPanic
  | EReadinessLost => ReadinessLost
  | EStopHook => StopHook
  | ETimeout => Timeout
  | ECancelled => FCancelled
  end.

Definition outcome_code (outcome : LocalOutcome) : FailureCode :=
  match outcome with
  | LocalStopped => FCancelled
  | LocalFailed primary _ | LocalUnresponsive (Some primary) _ _ => code (he_code primary)
  | LocalUnresponsive None _ _ => Timeout
  end.

(** [{code:?}] *)
Definition code_debug (c : FailureCode) : str :=
  match c with
  | MalformedMessage => bytes_of "MalformedMessage"
  | FAuthentication => bytes_of "Authentication"
  | FCompatibility => bytes_of "Compatibility"
  | FIdentity => bytes_of "Identity"
  | FSequence => bytes_of "Sequence"
  | Transition => bytes_of "Transition"
  | Factory => bytes_of "Factory"
  | FAssignment => bytes_of "Assignment"
  | ContextOpen => bytes_of "ContextOpen"
  | FPrepare => bytes_of "Prepare"
  | Admission => bytes_of "Admission"
  | FReport => bytes_of "Report"
  | FCommit => bytes_of "Commit"
  | FRun => bytes_of "Run"
  | UnexpectedExit => bytes_of "UnexpectedExit"
  | FPanic => bytes_of "Panic"
  | ReadinessLost => bytes_of "ReadinessLost"
  | StopHook => bytes_of "StopHook"
  | Timeout => bytes_of "Timeout"
  | FCancelled => bytes_of "Cancelled"
  | Disconnected => bytes_of "Disconnected"
  end.

Definition failure (c : FailureCode) (phase : HostPhase) : HostFailure :=
  mkHostFailure c phase None (bytes_of "component host: " ++ code_debug c).

Definition local_failure (error : HostError) (phase : HostPhase) : HostFailure :=
  let f := failure (code (he_code error)) phase in
  mkHostFailure (hf_code f) (hf_phase f) (he_instance error) (hf_message f).

(** ** Joining the outcomes *)

(** [convert] *)
Definition convert (outcome : LocalOutcome) (primary : option HostFailure) (phase : HostPhase) :
  HostOutcome :=
  match outcome with
  | LocalStopped =>
      match primary with Some primary => OutcomeFailed primary [] | None => OutcomeStopped end
  | LocalFailed local cleanup =>
      let cleanup := (λ error, local_failure error PStopping) <$> cleanup in
      let local := local_failure local phase in
      match primary with
      | Some primary =>
          if bool_decide (hf_code primary = hf_code local) then OutcomeFailed local cleanup
          else if bool_decide (hf_code local = FCancelled) then OutcomeFailed primary cleanup
          else OutcomeFailed primary (local :: cleanup)
      | None => OutcomeFailed local cleanup
      end
  | LocalUnresponsive local cleanup instances =>
      let cleanup := (λ error, local_failure error PStopping) <$> cleanup in
      match primary, local with
      | Some primary, Some local =>
          OutcomeUnresponsive (Some primary)
            (if bool_decide (he_code local = ECancelled) then cleanup
             else local_failure local phase :: cleanup) instances
      | Some primary, None => OutcomeUnresponsive (Some primary) cleanup instances
      | None, local =>
          OutcomeUnresponsive ((λ error, local_failure error phase) <$> local) cleanup instances
      end
  end.

(** How the local group ended: within the cleanup budget, or not, with the
    namespaces of its status. *)
Inductive GroupEnd : Type :=
  | GroupJoined (outcome : LocalOutcome)
  | GroupTimedOut (namespaces : list str).

(** The primary failure of the session in [finish] *)
Definition session_failure (error : option ProcessError) (stop : option StopReason)
    (phase : HostPhase) : option HostFailure :=
  match error, stop with
  | _, Some StopRequested | None, _ => None
  | Some error, _ => Some (failure (pe_code error) phase)
  end.

(** [finish]: the outcome, and the messages it reports while the budget lasts *)
Definition finish (local : option GroupEnd) (error : option ProcessError) (stop : option StopReason)
    (phase : HostPhase) : HostOutcome * list HostMessage :=
  let primary := session_failure error stop phase in
  let outcome :=
    match local with
    | Some (GroupJoined stopped) => convert stopped primary phase
    | Some (GroupTimedOut namespaces) => OutcomeUnresponsive primary [] namespaces
    | None => match primary with Some primary => OutcomeFailed primary [] | None => OutcomeStopped end
    end in
  let reported :=
    match outcome with
    | OutcomeFailed primary _ | OutcomeUnresponsive (Some primary) _ _ => [HostFailureMessage primary]
    | OutcomeStopped | OutcomeUnresponsive None _ _ => []
    end in
  (outcome, reported ++ [HostOutcomeMessage outcome]).

(** ** What an outcome retains *)

Definition outcome_primary (o : HostOutcome) : option HostFailure :=
  match o with
  | OutcomeStopped => None
  | OutcomeFailed primary _ => Some primary
  | OutcomeUnresponsive primary _ _ => primary
  end.

Definition outcome_cleanup (o : HostOutcome) : list HostFailure :=
  match o with
  | OutcomeStopped => []
  | OutcomeFailed _ cleanup | OutcomeUnresponsive _ cleanup _ => cleanup
  end.

(** The failures a local group ended with. *)
Definition local_primary (o : LocalOutcome) : option HostError :=
  match o with
  | LocalStopped => None
  | LocalFailed primary _ => Some primary
  | LocalUnresponsive primary _ _ => primary
  end.

Definition local_cleanup (o : LocalOutcome) : list HostError :=
  match o with
  | LocalStopped => []
  | LocalFailed _ cleanup | LocalUnresponsive _ cleanup _ => cleanup
  end.

Definition same_failure (a b : HostFailure) : Prop := hf_code a = hf_code b ∧ hf_phase a = hf_phase b.

(** Where the failures of a session and of its local group go. *)
Record accounted (o : HostOutcome) (session : option HostFailure) (group : LocalOutcome)
    (phase : HostPhase) : Prop := {
  (** the session's failure comes first, then the group's *)
  ac_primary :
    match session, local_primary group with
    | Some f, _ => ∃ p, outcome_primary o = Some p ∧ same_failure p f
    | None, Some e => outcome_primary o = Some (local_failure e phase)
    | None, None => outcome_primary o = None
    end;
  (** cleanup failures are all kept, in order, at the end *)
  ac_cleanup : (λ e, local_failure e PStopping) <$> local_cleanup group `suffix_of` outcome_cleanup o;
  (** the group's own failure is kept unless it is the echo of the abort *)
  ac_local e : local_primary group = Some e →
    (∃ f, outcome_primary o = Some f ∧ hf_code f = code (he_code e)) ∨
    local_failure e phase ∈ outcome_cleanup o ∨ code (he_code e) = FCancelled;
  (** it is a success only if nothing failed and everything joined *)
  ac_stopped : o = OutcomeStopped ↔ session = None ∧ group = LocalStopped;
}.

Lemma convert_accounted group session phase :
  (∀ f, session = Some f → hf_phase f = phase) →
  accounted (convert group session phase) session group phase.
Proof.
  intros Hph. destruct group as [|e cleanup|e cleanup instances]; cbn.
  - destruct session as [f|]; cbn; (split; cbn; [|done|done|]).
    + by exists f.
    + split; [done|by intros []].
    + done.
    + done.
  - destruct session as [f|]; cbn.
    + case_bool_decide as E; [|case_bool_decide as E2]; (split; cbn; [| | |split; [done|by intros []]]).
      * eexists. split; [done|]. split; [done|]. cbn. symmetry. by apply Hph.
      * done.
      * intros ? [= <-]. left. by eexists.
      * by exists f.
      * done.
      * intros ? [= <-]. by right; right.
      * by exists f.
      * by exists [local_failure e phase].
      * intros ? [= <-]. right. left. by left.
    + split; cbn; [done|done| |split; [done|by intros []]]. intros ? [= <-]. left. by eexists.
  - destruct session as [f|], e as [e|]; cbn.
    + case_bool_decide as E; (split; cbn; [by exists f| | |split; [done|by intros []]]).
      * done.
      * intros ? [= <-]. rewrite E. by right; right.
      * by exists [local_failure e phase].
      * intros ? [= <-]. right. left. by left.
    + split; cbn; [by exists f|done|done|split; [done|by intros []]].
    + split; cbn; [done|done| |split; [done|by intros []]]. intros ? [= <-]. left. by eexists.
    + split; cbn; [done|done|done|split; [done|by intros []]].
Qed.
