(* ===== verification/ProcessPlan.v ===== *)
(** * ProcessPlan: step plans over process hosts
    ([crates/reiny/src/component/process/step_plan.rs], [step_budget.rs])

    A draft whose delayed inputs may start from a value that a host reports when
    it is prepared.  [plan_validate] checks the draft with the scheduler's own
    validator and [plan_resolve] turns it into the final graph.  An error is an
    [anyhow] error: a message, or the error it was made from.  [None] is a panic
    or fuel that ran out in the validator.  The graph resolved from a validated
    draft and matching reports compiles, with the order the draft was validated
    with, and fits the protocol. *)

From Stdlib Require Import ZArith Lia.
From S2P Require Import Prelude Text Btree Core Bindings BindingsSpec Report Step StepPlan HostProtocol Connection ProcessWire.

Inductive Anyhow : Type :=
  | Message (message : str)
  | OfProcess (e : ProcessError)
  | OfPlan (e : StepPlanError)
  | OfReport (e : ReportError).

(** [anyhow::ensure!] *)
Definition ensure (b : bool) (message : str) : result unit Anyhow :=
  if b then Ok tt else Err (Message message).

(** ** The preparation budget *)

(** [SnapshotBudget::charge]: the new total of [bytes] *)
Definition charge (self bytes : Z) : result Z ProcessError :=
  match checked_add 64 self bytes with
  | Some total => if (total <=? MAX_RETAINED_BYTES)%Z then Ok total else Err invalid
  | None => Err invalid
  end.

(** ** Drafts *)

Inductive ProcessStepSeed : Type :=
  | Literal (value : StepValue)
  | PreparedOutput (output : StepOutput).

Inductive ProcessStepSource : Type :=
  | ProcExternal
  | ProcSameTick (output : StepOutput)
  | ProcPreviousTick (source : StepOutput) (initial : ProcessStepSeed).

Record ProcessStepPlan : Type := mkProcessPlan {
  psp_nodes : btree str StepSchema;
  psp_inputs : btree StepInput ProcessStepSource;
}.

(** The type of a seed in [ProcessStepPlan::validate] *)
Definition seed_type (nodes : btree str StepSchema) (initial : ProcessStepSeed) :
  result StepType Anyhow :=
  match initial with
  | Literal value =>
      let? _ := ensure (byte_len (sv_bytes value) <=? MAX_VALUE_BYTES)%Z
                  (bytes_of "oversized initial value") in
      Ok (sv_type value)
  | PreparedOutput output =>
      ok_or (find_port ss_outputs nodes (so_instance output) (so_port output))
        (Message (bytes_of "unknown prepared seed output"))
  end.

(** The route of one input in [ProcessStepPlan::validate] *)
Definition draft_route (nodes : btree str StepSchema) (source : ProcessStepSource) :
  result PlanRoute Anyhow :=
  match source with
  | ProcExternal => Ok (mkRoute None None false)
  | ProcSameTick output => Ok (mkRoute (Some output) None true)
  | ProcPreviousTick source initial =>
      let? ty := seed_type nodes initial in
      Ok (mkRoute (Some source) (Some ty) false)
  end.

(** [ProcessStepPlan::literal_budget] *)
Definition literal_budget (self : ProcessStepPlan) : result Z Anyhow :=
  for_fold (λ budget (e : StepInput * ProcessStepSource),
              match e.2 with
              | ProcPreviousTick _ (Literal value) =>
                  map_err OfProcess (charge budget (byte_len (sv_bytes value)))
              | ProcExternal | ProcSameTick _ | ProcPreviousTick _ (PreparedOutput _) => Ok budget
              end) 0%Z (psp_inputs self).

(** [ProcessStepPlan::validate] *)
Definition plan_validate (self : ProcessStepPlan) : option (result unit Anyhow) :=
  let checked :=
    let? _ := ensure (length (psp_nodes self) <=? MAX_ENTRIES) (bytes_of "too many nodes") in
    let? _ := literal_budget self in
    for_fold (λ routes (e : StepInput * ProcessStepSource),
                let? route := draft_route (psp_nodes self) e.2 in
                Ok (bt_insert e.1 route routes).2) [] (psp_inputs self) in
  match checked with
  | Err e => Some (Err e)
  | Ok routes =>
      match validate_routes (psp_nodes self) routes with
      | Some (Ok _) => Some (Ok tt)
      | Some (Err e) => Some (Err (OfPlan e))
      | None => None
      end
  end.

(** ** Resolution *)

Definition reports_t : Type := btree str StepPreparedReport.

(** The budget that the reported snapshots use. *)
Definition report_budget (reports : reports_t) : result Z Anyhow :=
  for_fold (λ budget (r : str * StepPreparedReport),
    for_fold (λ budget (o : str * WireValue),
                map_err OfProcess (charge budget (byte_len (wv_bytes o.2))))
      budget (spr_outputs r.2)) 0%Z reports.

(** The initial value of a delayed input, and the budget after it *)
Definition resolve_seed (reports : reports_t) (budget : Z) (initial : ProcessStepSeed) :
  result (StepValue * Z) Anyhow :=
  match initial with
  | Literal value =>
      let? budget := map_err OfProcess (charge budget (byte_len (sv_bytes value))) in
      Ok (value, budget)
  | PreparedOutput output =>
      let? value := ok_or (match bt_get (so_instance output) reports with
                           | Some r => bt_get (so_port output) (spr_outputs r)
                           | None => None
                           end) (Message (bytes_of "missing authorized prepared seed")) in
      let? budget := map_err OfProcess (charge budget (byte_len (wv_bytes value))) in
      let? values := map_err OfProcess (import_values [(so_port output, value)]) in
      let? value := ok_or (bt_remove (so_port output) values).1
                      (Message (bytes_of "missing prepared value")) in
      Ok (value, budget)
  end.

Definition resolve_source (reports : reports_t) (budget : Z) (source : ProcessStepSource) :
  result (StepSource * Z) Anyhow :=
  match source with
  | ProcExternal => Ok (External, budget)
  | ProcSameTick source => Ok (SameTick source, budget)
  | ProcPreviousTick source initial =>
      let? (initial, budget) := resolve_seed reports budget initial in
      Ok (PreviousTick source initial, budget)
  end.

(** [ProcessStepPlan::resolve] *)
Definition plan_resolve (self : ProcessStepPlan) (reports : reports_t) : result StepGraph Anyhow :=
  let? budget := report_budget reports in
  let? (_, inputs) :=
    for_fold (λ '(budget, inputs) (e : StepInput * ProcessStepSource),
                let? (source, budget) := resolve_source reports budget e.2 in
                Ok (budget, inputs ++ [(e.1, source)])) (budget, []) (psp_inputs self) in
  Ok (mkStepGraph (psp_nodes self) inputs).

(** ** The budget is a bound on the bytes that are kept *)

Definition total (sizes : list Z) : Z := foldr Z.add 0%Z sizes.

Lemma total_app a b : total (a ++ b) = (total a + total b)%Z.
Proof. induction a as [|x a IH]; cbn; [done|]. fold (total (a ++ b)) (total a). lia. Qed.

Lemma charge_Ok self bytes t :
  charge self bytes = Ok t ↔ t = (self + bytes)%Z ∧ (t ≤ MAX_RETAINED_BYTES)%Z.
Proof.
  unfold charge, checked_add. destruct (self + bytes <? 2 ^ 64)%Z eqn:E; breflect_in E.
  - destruct (_ <=? _)%Z eqn:El; breflect_in El; split; try done; [by intros [= <-]| |].
    + by intros [-> _].
    + intros [-> ?]. lia.
  - split; [done|]. intros [-> ?]. unfold MAX_RETAINED_BYTES in *. lia.
Qed.

(** The bytes of the values that a final graph keeps as initial state. *)
Definition initial_bytes (s : StepSource) : list Z :=
  match s with
  | PreviousTick _ v => [byte_len (sv_bytes v)]
  | External | SameTick _ => []
  end.

Definition reported_bytes (reports : reports_t) : list Z :=
  reports ≫= λ r, (λ o : str * WireValue, byte_len (wv_bytes o.2)) <$> spr_outputs r.2.

(** ** Resolution *)

(** How an entry of the draft becomes an entry of the graph. *)
Inductive seeded (reports : reports_t) : ProcessStepSeed → StepValue → Prop :=
  | seeded_literal v : seeded reports (Literal v) v
  | seeded_prepared o r w v :
      bt_get (so_instance o) reports = Some r →
      bt_get (so_port o) (spr_outputs r) = Some w →
      import_type (wv_ty w) = Ok (sv_type v) → sv_bytes v = wv_bytes w →
      (byte_len (sv_bytes v) ≤ MAX_VALUE_BYTES)%Z →
      seeded reports (PreparedOutput o) v.

Inductive resolved_source (reports : reports_t) : ProcessStepSource → StepSource → Prop :=
  | resolved_external : resolved_source reports ProcExternal External
  | resolved_same o : resolved_source reports (ProcSameTick o) (SameTick o)
  | resolved_previous o seed v :
      seeded reports seed v →
      resolved_source reports (ProcPreviousTick o seed) (PreviousTick o v).

Definition resolved_entry (reports : reports_t) (e : StepInput * ProcessStepSource)
    (e' : StepInput * StepSource) : Prop :=
  e'.1 = e.1 ∧ resolved_source reports e.2 e'.2.

Lemma report_budget_Ok reports b :
  report_budget reports = Ok b → b = total (reported_bytes reports) ∧ (b ≤ MAX_RETAINED_BYTES)%Z.
Proof.
  unfold report_budget.
  apply (for_fold_Ok _ (λ pre s, s = total (reported_bytes pre) ∧ (s ≤ MAX_RETAINED_BYTES)%Z)); [|by split].
  intros pre r post s s' _ [-> Hs]. unfold reported_bytes at 2. rewrite bind_app, total_app. cbn. rewrite app_nil_r.
  intros Hin.
  apply (for_fold_Ok _ (λ pre' s, s = (total (reported_bytes pre) +
    total ((λ o : str * WireValue, byte_len (wv_bytes o.2)) <$> pre'))%Z ∧ (s ≤ MAX_RETAINED_BYTES)%Z)) in Hin;
    [done| |cbn; split; [lia|done]].
  intros pre' o post' t t' _ [-> Ht]. rewrite fmap_app, total_app. cbn.
  destruct (charge _ _) as [?|] eqn:Ec; [|done]. intros [= ->]. apply charge_Ok in Ec as [-> ?]. split; [lia|done].
Qed.

Lemma resolve_seed_Ok reports b seed v b' :
  resolve_seed reports b seed = Ok (v, b') →
  seeded reports seed v ∧ b' = (b + byte_len (sv_bytes v))%Z ∧ (b' ≤ MAX_RETAINED_BYTES)%Z.
Proof.
  destruct seed as [w|o]; cbn.
  - destruct (charge _ _) as [?|] eqn:Ec; [|done]. intros [= <- <-].
    apply charge_Ok in Ec as [-> ?]. split; [constructor|done].
  - destruct (bt_get _ reports) as [r|] eqn:Er; [cbn|done].
    destruct (bt_get _ (spr_outputs r)) as [w|] eqn:Ew; [cbn|done].
    destruct (charge _ _) as [?|] eqn:Ec; [cbn|done]. apply charge_Ok in Ec as [-> ?].
    unfold import_values. cbn. destruct (_ <? _)%Z eqn:El; breflect_in El; [done|].
    destruct (import_type _) as [ty|] eqn:Et; [cbn|done]. rewrite cmp_refl. cbn. intros [= <- <-].
    split; [|done]. by apply (seeded_prepared _ _ r w).
Qed.

(** The budget bounds all snapshots and initial values together. *)
Lemma plan_resolve_Ok p reports g :
  plan_resolve p reports = Ok g →
  sg_nodes g = psp_nodes p ∧ Forall2 (resolved_entry reports) (psp_inputs p) (sg_inputs g) ∧
  (total (reported_bytes reports) + total (sg_inputs g ≫= λ e, initial_bytes e.2) ≤ MAX_RETAINED_BYTES)%Z.
Proof.
  unfold plan_resolve. destruct (report_budget reports) as [b|] eqn:Eb; [|done].
  apply report_budget_Ok in Eb as [-> Hmax].
  match goal with |- context [for_fold ?f _ _] => set (body := f) end.
  destruct (for_fold body _ _) as [[b inputs]|] eqn:Ef; [|done]. intros [= <-]. cbn.
  apply (for_fold_Ok _ (λ pre '(b, ins), Forall2 (resolved_entry reports) pre ins ∧
    b = (total (reported_bytes reports) + total (ins ≫= λ e, initial_bytes e.2))%Z ∧
    (b ≤ MAX_RETAINED_BYTES)%Z)) in Ef.
  - by destruct Ef as (Hall&->&Hb).
  - intros pre [i s] post [b1 ins] [b2 ins'] _ (Hall&->&Hb) Hstep. unfold body in Hstep. cbn in Hstep.
    destruct s as [|o|o seed]; cbn in Hstep.
    1-2: injection Hstep as <- <-; rewrite bind_app, total_app; cbn; rewrite ?app_nil_r;
      split_and!; [|lia|done]; apply Forall2_app; [done|]; by repeat constructor.
    destruct (resolve_seed _ _ _) as [[v b3]|] eqn:Es; [|done]. injection Hstep as <- <-.
    apply resolve_seed_Ok in Es as (Hs&->&Hkept). rewrite bind_app, total_app. cbn.
    split_and!; [|lia|done]. apply Forall2_app; [done|]. by repeat constructor.
  - split_and!; [constructor|cbn; lia|done].
Qed.

(** ** Drafts *)

Definition draft_entry (nodes : btree str StepSchema) (e : StepInput * ProcessStepSource)
    (r : StepInput * PlanRoute) : Prop :=
  r.1 = e.1 ∧ draft_route nodes e.2 = Ok r.2.

Lemma draft_routes_Ok nodes l routes :
  bt_ok (l : btree StepInput ProcessStepSource) →
  for_fold (λ routes (e : StepInput * ProcessStepSource),
              let? route := draft_route nodes e.2 in Ok (bt_insert e.1 route routes).2) [] l = Ok routes →
  Forall2 (draft_entry nodes) l routes.
Proof.
  intros Hok. apply (for_fold_Ok _ (λ pre s, Forall2 (draft_entry nodes) pre s)); [|constructor].
  intros pre [i src] post s s' -> Hall Hstep. cbn in Hstep.
  destruct (draft_route nodes src) as [r|] eqn:Er; [|done]. injection Hstep as <-.
  rewrite bt_insert_last.
  - apply Forall2_app; [done|]. by repeat constructor.
  - apply bt_ok_snoc in Hok. clear Er. induction Hall as [|x y l k [Hk _] _ IH]; [constructor|].
    apply Forall_cons in Hok as [Hx Hok]. constructor; [by rewrite Hk|by apply IH].
Qed.

Lemma plan_validate_Ok p :
  bt_ok (psp_inputs p) → plan_validate p = Some (Ok tt) →
  length (psp_nodes p) ≤ MAX_ENTRIES ∧
  ∃ routes order, Forall2 (draft_entry (psp_nodes p)) (psp_inputs p) routes ∧
    validate_routes (psp_nodes p) routes = Some (Ok order).
Proof.
  intros Hok. unfold plan_validate, ensure.
  destruct (_ <=? _)%nat eqn:El; breflect_in El; [|done]. cbn.
  destruct (literal_budget p); [|done].
  destruct (for_fold _ _ _) as [routes|] eqn:Er; [|done].
  destruct (validate_routes _ _) as [[order|]|] eqn:Ev; [|done..]. intros _.
  split; [done|]. exists routes, order. split; [|done]. by apply draft_routes_Ok.
Qed.

(** ** A validated draft compiles *)

(** Every reported snapshot has the type of its declared output port. *)
Definition reports_match (nodes : btree str StepSchema) (reports : reports_t) : Prop :=
  ∀ o r w, bt_get (so_instance o) reports = Some r → bt_get (so_port o) (spr_outputs r) = Some w →
  ∃ ty, find_port ss_outputs nodes (so_instance o) (so_port o) = Some ty ∧ export_type ty = wv_ty w.

Lemma owned_canonical a b : same_type a b → owned a = owned b.
Proof. unfold owned. rewrite same_type_parts. by intros (->&->&->). Qed.

Lemma seed_route_same nodes reports seed v ty :
  reports_match nodes reports → seeded reports seed v → seed_type nodes seed = Ok ty →
  same_type (sv_type v) ty.
Proof.
  intros Hm [w|o r w u Hr Hw Hi _ _]; cbn.
  - unfold ensure. destruct (_ <=? _)%Z; [|done]. by intros [= <-].
  - destruct (Hm o r w Hr Hw) as (ty'&->&Hty). intros [= <-].
    apply import_type_Ok in Hi as (_&_&_&He). apply export_same. by rewrite He, Hty.
Qed.

Lemma routes_agree nodes reports l routes inputs :
  reports_match nodes reports →
  Forall2 (draft_entry nodes) l routes → Forall2 (resolved_entry reports) l inputs →
  prod_map id (retype_route owned) <$> (prod_map id route_of <$> inputs) =
  prod_map id (retype_route owned) <$> routes.
Proof.
  intros Hm Hd. revert inputs. induction Hd as [|[i s] [j r] l routes [Hk Hr] _ IH]; intros inputs Hres.
  - by inversion Hres.
  - inversion Hres as [|? [j' s'] ? inputs' [Hk' Hs'] Htl]; subst. cbn in *. subst.
    f_equal; [|by apply IH]. f_equal. destruct Hs' as [|o|o seed v Hv]; cbn in Hr; simplify_eq; [done..|].
    destruct (seed_type nodes seed) as [ty|] eqn:Et; [|done]. injection Hr as <-.
    unfold retype_route. cbn. do 2 f_equal. apply owned_canonical. by eapply seed_route_same.
Qed.

(** The graph resolved from a validated draft compiles, with the draft's order. *)
Lemma resolved_compiles p reports g :
  bt_ok (psp_inputs p) → reports_match (psp_nodes p) reports →
  plan_validate p = Some (Ok tt) → plan_resolve p reports = Ok g →
  ∃ order, compile g = Some (Ok (mkPlan g order)).
Proof.
  intros Hok Hm Hv Hr. destruct (plan_validate_Ok p Hok Hv) as (_&routes&order&Hd&Hval).
  destruct (plan_resolve_Ok p reports g Hr) as (Hn&Hall&_). exists order. unfold compile. rewrite Hn.
  pose proof (routes_agree _ _ _ _ _ Hm Hd Hall) as Hag.
  pose proof (validate_routes_retype owned owned_same (psp_nodes p) routes) as H1.
  pose proof (validate_routes_retype owned owned_same (psp_nodes p)
                (prod_map id route_of <$> sg_inputs g)) as H2.
  rewrite Hag, H1, Hval in H2. cbn in H2.
  by destruct (validate_routes (psp_nodes p) (prod_map id route_of <$> sg_inputs g)) as [[]|]; simplify_eq/=.
Qed.

(** ** A resolved graph fits the protocol *)

(** The maps of a draft are maps. *)
Record draft_typed (p : ProcessStepPlan) : Prop := {
  dt_nodes : bt_ok (psp_nodes p);
  dt_inputs : bt_ok (psp_inputs p);
  dt_schemas n schema : (n, schema) ∈ psp_nodes p → bt_ok (ss_inputs schema) ∧ bt_ok (ss_outputs schema);
}.

Lemma bt_ok_keys {K V W} `{OrdLaws K} (m : btree K V) (m' : btree K W) :
  m.*1 = m'.*1 → bt_ok m → bt_ok m'.
Proof.
  revert m'. induction m as [|[k v] m IH]; intros [|[k' w] m'] Hk; cbn in *; try done.
  injection Hk as -> Hk. intros [Hall Hok]. split; [|by eapply IH].
  apply (Forall_fmap fst (λ k, cmp k' k = Lt)). rewrite <- Hk. by apply Forall_fmap.
Qed.

Lemma resolved_keys reports l inputs :
  Forall2 (resolved_entry reports) l inputs → l.*1 = inputs.*1.
Proof. induction 1 as [|[i s] [j s'] ?? [Hk _] _ IH]; cbn in *; congruence. Qed.

Lemma resolved_typed p reports g :
  draft_typed p → plan_resolve p reports = Ok g → graph_typed g.
Proof.
  intros [Hn Hi Hs] (Hg&Hall&_)%plan_resolve_Ok. split; rewrite ?Hg; [done| |done].
  eapply bt_ok_keys; [by eapply resolved_keys|done].
Qed.

(** All declared inputs of the nodes. *)
Definition declared (nodes : btree str StepSchema) : list StepInput :=
  nodes ≫= λ n, mkStepInput n.1 <$> (ss_inputs n.2).*1.

Lemma declared_bound nodes :
  Forall (λ n, schema_wf n.2) (nodes : list (str * StepSchema)) →
  (Z.of_nat (length (declared nodes)) ≤ Z.of_nat (length nodes) * Z.of_nat MAX_ENTRIES)%Z.
Proof.
  induction 1 as [|n nodes [[Hc _] _] _ IH]; [done|].
  change (declared (n :: nodes)) with ((mkStepInput n.1 <$> (ss_inputs n.2).*1) ++ declared nodes).
  rewrite length_app, !length_fmap. cbn [length]. lia.
Qed.

Lemma find_port_declared nodes i p ty :
  find_port ss_inputs nodes i p = Some ty → mkStepInput i p ∈ declared nodes.
Proof.
  unfold find_port. destruct (bt_get i nodes) as [s|] eqn:Es; [|done]. intros Hp.
  apply list_elem_of_bind. exists (i, s). split; [|by apply bt_get_elem].
  apply list_elem_of_fmap_2. by apply bt_get_elem, (list_elem_of_fmap_2 fst) in Hp.
Qed.

Lemma find_port_wf nodes i p ty :
  Forall (λ n, schema_wf n.2) (nodes : list (str * StepSchema)) →
  find_port ss_inputs nodes i p = Some ty → type_wf ty.
Proof.
  intros Hall. unfold find_port. destruct (bt_get i nodes) as [s|] eqn:Es; [|done]. intros Hp.
  apply bt_get_elem in Es, Hp. rewrite Forall_forall in Hall.
  destruct (Hall _ Es) as [[_ Hports] _]. rewrite Forall_forall in Hports. apply (Hports _ Hp).
Qed.

Lemma type_wf_same a b : same_type a b → type_wf a → type_wf b.
Proof. unfold type_wf. rewrite same_type_parts. by intros (->&_&->). Qed.

(** Well-formed schemas and a compiled plan leave only the sizes to check. *)
Lemma compiled_fits g p :
  graph_typed g → compile g = Some (Ok p) → length (sg_nodes g) ≤ MAX_ENTRIES →
  Forall (λ n, schema_wf n.2) (sg_nodes g : list (str * StepSchema)) →
  (∀ i o v, (i, PreviousTick o v) ∈ sg_inputs g → (byte_len (sv_bytes v) ≤ MAX_VALUE_BYTES)%Z) →
  graph_fits g.
Proof.
  intros Ht Hc Hn Hs Hb. destruct (compile_spec g Ht) as (r&Hr&Hspec). rewrite Hc in Hr.
  injection Hr as <-. destruct Hspec as (_&[_ _ Hroutes]&_). rewrite Forall_forall in Hroutes.
  assert (Hport : ∀ i s, (i, s) ∈ sg_inputs g → ∃ ty,
    find_port ss_inputs (sg_nodes g) (si_instance i) (si_port i) = Some ty ∧
    ∀ o v, s = PreviousTick o v → same_type (sv_type v) ty).
  { intros i s Hin. destruct (Hroutes (i, route_of s)) as (ty&Hf&Hi&_).
    { apply list_elem_of_fmap. by exists (i, s). }
    exists ty. split; [done|]. intros o v ->. by apply Hi. }
  pose proof (gt_inputs _ Ht) as Hok. split; [done| |done| |done].
  - pose proof (declared_bound _ Hs) as Hd.
    assert (Hle : length (sg_inputs g).*1 ≤ length (declared (sg_nodes g))).
    { apply submseteq_length, NoDup_submseteq; [by apply bt_ok_NoDup|].
      intros i ([j s]&->&Hin)%list_elem_of_fmap. destruct (Hport _ _ Hin) as (ty&Hf&_).
      destruct j. by eapply find_port_declared. }
    rewrite length_fmap in Hle. unfold MAX_ENTRIES in *. lia.
  - apply Forall_forall. intros [i [|o|o v]] Hin; [done..|]. cbn. split; [|by eapply Hb].
    destruct (Hport _ _ Hin) as (ty&Hf&Hsame). apply (type_wf_same ty); [|by eapply find_port_wf].
    symmetry. by eapply Hsame.
Qed.

Lemma resolved_fits p reports g :
  draft_typed p → reports_match (psp_nodes p) reports →
  Forall (λ n, schema_wf n.2) (psp_nodes p : list (str * StepSchema)) →
  plan_validate p = Some (Ok tt) → plan_resolve p reports = Ok g → graph_fits g.
Proof.
  intros Ht Hm Hs Hv Hr.
  destruct (resolved_compiles p reports g (dt_inputs _ Ht) Hm Hv Hr) as (order&Hc).
  pose proof (resolved_typed _ _ _ Ht Hr) as Hgt.
  destruct (plan_validate_Ok p (dt_inputs _ Ht) Hv) as (Hn&routes&order'&Hd&_).
  destruct (plan_resolve_Ok p reports g Hr) as (Hg&Hall&_).
  eapply compiled_fits; rewrite ?Hg; [done..|].
  intros i o v Hin. destruct (Forall2_member_r _ _ _ _ Hall Hin) as ([j s]&Hin'&_&Hsrc). cbn in Hsrc.
  inversion Hsrc as [| |o' seed v' Hseed]; subst.
  destruct Hseed as [v|? ? ? ? _ _ _ _ Hle]; [|done].
  destruct (Forall2_member_l _ _ _ _ Hd Hin') as (r&_&_&Hroute). cbn in Hroute.
  unfold ensure in Hroute. by destruct (_ <=? _)%Z eqn:E in Hroute; breflect_in E.
Qed.
