(* ===== verification/ProcessAdmit.v ===== *)
(** * ProcessAdmit: admission of process hosts
    ([crates/reiny/src/component/process/step_owner/admission.rs],
    [step_owner/preparation.rs], [steps.rs], [steps/admission.rs], [placement.rs])

    The owner checks assignments against the draft, collects what every host
    reports, and binds, commits and runs all hosts; a host checks its
    assignments against its registry, reports, and checks the plan it is bound
    to.  A received stream is the list of its messages and the error after the
    last one.  Factory objects are not represented: a registry holds schemas and
    revisions.  [None] is a panic. *)

From Stdlib Require Import ZArith Lia.
From S2P Require Import Prelude Text Btree Core Bindings Report Step StepPlan.
From S2P Require Import HostProtocol Connection ProcessWire HostMessages ProcessPlan.

#[export] Instance FactoryRegistration_eq_dec : EqDecision FactoryRegistration.
Proof. solve_decision. Defined.
#[export] Instance Compatibility_eq_dec : EqDecision Compatibility.
Proof. solve_decision. Defined.
#[export] Instance WireDuration_eq_dec : EqDecision WireDuration.
Proof. solve_decision. Defined.
#[export] Instance WireOutput_eq_dec : EqDecision WireOutput.
Proof. solve_decision. Defined.
#[export] Instance WireSource_eq_dec : EqDecision WireSource.
Proof. solve_decision. Defined.
#[export] Instance WireRoute_eq_dec : EqDecision WireRoute.
Proof. solve_decision. Defined.
#[export] Instance WireGraph_eq_dec : EqDecision WireGraph.
Proof. solve_decision. Defined.
#[export] Instance BoundSteps_eq_dec : EqDecision BoundSteps.
Proof. solve_decision. Defined.

Definition factory_key (f : FactoryRegistration) : str * str := (fr_factory f, fr_revision f).
#[export] Instance Ord_FactoryRegistration : Ord FactoryRegistration := cmp_on factory_key.
#[export] Instance OrdLaws_FactoryRegistration : OrdLaws FactoryRegistration.
Proof. apply OrdLaws_on. by intros [] [] [= -> ->]. Qed.

(** [iter().collect::<BTreeSet<_>>()] *)
Definition bs_collect {K} `{Ord K} (l : list K) : btree K unit := bt_collect ((λ k, (k, tt)) <$> l).

(** Lift of a fallible part without panics. *)
Definition pure_part {A E} (r : result A E) : option (result A E) := Some r.

(** ** The owner: assignments ([step_owner/admission.rs]) *)

Record ProcessStepPeer : Type := mkPeer {
  pe_identity : SessionIdentity;
  pe_nonce : list Z;
  pe_prepare : Prepare;
  pe_steps : btree str StepAssignment;
}.

(** [bindings.namespace] of an assignment *)
Definition assigned_namespace (a : ComponentAssignment) : str := mb_namespace (ca_bindings a).

Definition same_session (i : SessionIdentity) (key : StepSessionKey) : bool :=
  (owner_generation i =? sk_owner_generation key)%Z
  && (graph_generation i =? sk_graph_generation key)%Z
  && bool_decide (graph_digest i = sk_graph_digest key).

(** The loop over one peer's step assignments. *)
Definition assign_step (plan : ProcessStepPlan) (host_instances : btree str unit)
    (assigned : btree str StepAssignment) (e : str * StepAssignment) :
  result (btree str StepAssignment) Anyhow :=
  let '(id, assignment) := e in
  if negb (bt_contains id host_instances) then Err (Message (bytes_of "step assignment mismatch")) else
  let '(old, assigned) := bt_insert id assignment assigned in
  match old with
  | Some _ => Err (Message (bytes_of "step assignment mismatch"))
  | None =>
      let? _ := ensure match bt_get id (psp_nodes plan) with
                       | Some schema => bool_decide (export_schema schema = sas_schema assignment)
                       | None => false
                       end (bytes_of "assigned schema mismatch") in
      let? _ := map_err OfProcess (import_schema (sas_schema assignment)) in
      Ok assigned
  end.

(** The loop over the peers; the sets of instances and of hosts seen so far *)
Definition assign_peer (plan : ProcessStepPlan) (key : StepSessionKey)
    (st : btree str StepAssignment * btree str unit * btree str unit) (peer : ProcessStepPeer) :
  result (btree str StepAssignment * btree str unit * btree str unit) Anyhow :=
  let '(assigned, all_instances, hosts) := st in
  let? _ := ensure (same_session (pe_identity peer) key) (bytes_of "session mismatch") in
  let '(fresh, hosts) := bs_insert (host_id (pe_identity peer)) hosts in
  let? _ := ensure fresh (bytes_of "duplicate host") in
  let? (all_instances, host_instances) :=
    for_fold (λ '(all_instances, host_instances) instance,
                let '(fresh, all_instances) := bs_insert (assigned_namespace instance) all_instances in
                let? _ := ensure fresh (bytes_of "duplicate instance") in
                Ok (all_instances, (bs_insert (assigned_namespace instance) host_instances).2))
      (all_instances, []) (pp_assignments (pe_prepare peer)) in
  let? assigned := for_fold (assign_step plan host_instances) assigned (pe_steps peer) in
  Ok (assigned, all_instances, hosts).

(** Every prepared seed is authorized by its assignment. *)
Definition authorized_seed (assigned : btree str StepAssignment)
    (e : StepInput * ProcessStepSource) : result unit Anyhow :=
  match e.2 with
  | ProcPreviousTick _ (PreparedOutput output) =>
      ensure match bt_get (so_instance output) assigned with
             | Some a => bt_contains (so_port output) (sas_seed_outputs a)
             | None => false
             end (bytes_of "unauthorized prepared seed")
  | ProcExternal | ProcSameTick _ | ProcPreviousTick _ (Literal _) => Ok tt
  end.

(** [validate_assignments] of the owner *)
Definition owner_validate_assignments (peers : list ProcessStepPeer) (plan : ProcessStepPlan)
    (key : StepSessionKey) : option (result unit Anyhow) :=
  let?? _ := plan_validate plan in
  let?? (assigned, _, _) := pure_part (for_fold (assign_peer plan key) ([], [], []) peers) in
  let?? _ := pure_part (ensure (length assigned =? length (psp_nodes plan))
                         (bytes_of "incomplete placement")) in
  pure_part (for_each (authorized_seed assigned) (psp_inputs plan)).

(** The steps a host advertises for the assigned factories, by namespace *)
Definition expected_schemas (schemas : btree str WireSchema) (assignments : list ComponentAssignment) :
  btree str WireSchema :=
  bt_collect (omap (λ a, (λ s, (assigned_namespace a, s)) <$>
                           bt_get (fr_factory (ca_implementation a)) schemas) assignments).

(** The factories a peer requires, sorted and unique *)
Definition required_factories (peer : ProcessStepPeer) : list FactoryRegistration :=
  (bs_collect (ca_implementation <$> pp_assignments (pe_prepare peer))).*1.

(** [authenticate_peer], on the proof of the host *)
Definition authenticate_peer (release : str) (peer : ProcessStepPeer) (proof : Authenticate)
    (schemas : btree str WireSchema) : result (list FactoryRegistration) Anyhow :=
  let required := required_factories peer in
  let? _ := ensure (bool_decide (au_nonce proof = pe_nonce peer)
                    && bool_decide (au_compatibility proof = compatibility_current release 3))
              (bytes_of "authentication rejected") in
  let? _ := ensure (forallb (λ r, bool_decide (r ∈ au_registrations proof)) required)
              (bytes_of "factory revision mismatch") in
  let expected := expected_schemas schemas (pp_assignments (pe_prepare peer)) in
  let? _ := ensure ((length expected =? length (pe_steps peer))
                    && forallb (λ '(id, a), bool_decide (bt_get id expected = Some (sas_schema a)))
                         (pe_steps peer)) (bytes_of "step kind/schema mismatch") in
  Ok required.

(** ** The owner: reports ([step_owner/preparation.rs]) *)

Record CollectedReports : Type := mkCollected {
  cr_steps : reports_t;
  cr_ordinary : btree str ModuleReport;
  cr_budget : Z;
}.

(** The namespaces seen from one host: ordinary, and step *)
Definition actual_t : Type := btree str unit * btree str unit.

(** The check of one reported snapshot. *)
Definition collect_seed (schema : StepSchema) (budget : Z) (e : str * WireValue) : result Z Anyhow :=
  let '(port, value) := e in
  let? ty := map_err OfProcess (import_type (wv_ty value)) in
  let? _ := ensure ((byte_len (wv_bytes value) <=? MAX_VALUE_BYTES)%Z
                    && match bt_get port (ss_outputs schema) with
                       | Some declared => step_type_eqb declared ty
                       | None => false
                       end) (bytes_of "seed schema mismatch") in
  map_err OfProcess (charge budget (byte_len (wv_bytes value))).

Definition collect_step (steps : btree str StepAssignment) (st : CollectedReports * actual_t)
    (report : StepPreparedReport) : result (CollectedReports * actual_t) Anyhow :=
  let '(reports, (ordinary_actual, actual)) := st in
  let? expected := ok_or (bt_get (spr_instance report) steps) (OfProcess invalid) in
  let? _ := ensure (bool_decide (spr_schema report = sas_schema expected)
                    && bool_decide (spr_contract report = sas_contract expected)
                    && bool_decide (bs_collect (spr_outputs report).*1 = sas_seed_outputs expected))
              (bytes_of "prepared contract mismatch") in
  let? schema := map_err OfProcess (import_schema (spr_schema report)) in
  let? budget := for_fold (collect_seed schema) (cr_budget reports) (spr_outputs report) in
  let actual := (bs_insert (spr_instance report) actual).2 in
  let '(old, steps') := bt_insert (spr_instance report) report (cr_steps reports) in
  let? _ := ensure (is_none old) (bytes_of "duplicate step report") in
  Ok (mkCollected steps' (cr_ordinary reports) budget, (ordinary_actual, actual)).

Definition collect_ordinary (bindings : btree str ModuleBindings) (st : CollectedReports * actual_t)
    (report : ModuleReport) : option (result (CollectedReports * actual_t) Anyhow) :=
  let '(reports, (ordinary_actual, actual)) := st in
  match bt_get (mr_namespace report) bindings with
  | None => Some (Err (OfProcess invalid))
  | Some expected =>
      match validate_report expected report with
      | None => None
      | Some (Err e) => Some (Err (OfReport e))
      | Some (Ok _) =>
          let ordinary_actual := (bs_insert (mr_namespace report) ordinary_actual).2 in
          let '(old, ordinary) := bt_insert (mr_namespace report) report (cr_ordinary reports) in
          pure_part
            (let? _ := ensure (is_none old) (bytes_of "duplicate ordinary report") in
             Ok (mkCollected (cr_steps reports) ordinary (cr_budget reports), (ordinary_actual, actual)))
      end
  end.

(** The loop of [collect_reports]; it ends with the channel, or with
    [PreparedComplete] *)
Fixpoint collect_loop (steps : btree str StepAssignment) (bindings : btree str ModuleBindings)
    (st : CollectedReports * actual_t) (messages : list HostMessage) (ended : ProcessError) :
  option (result (CollectedReports * actual_t) Anyhow) :=
  match messages with
  | [] => Some (Err (OfProcess ended))
  | HostReport report :: rest =>
      let?? st := collect_ordinary bindings st report in collect_loop steps bindings st rest ended
  | HostSteps (StepReport report) :: rest =>
      let?? st := pure_part (collect_step steps st report) in collect_loop steps bindings st rest ended
  | HostSteps _ :: _ => Some (Err (Message (bytes_of "unexpected preparation event")))
  | HostPreparedComplete :: _ => Some (Ok st)
  | _ :: _ => Some (Err (Message (bytes_of "host failed during preparation")))
  end.

(** [collect_reports] *)
Definition collect_reports (steps : btree str StepAssignment) (bindings : btree str ModuleBindings)
    (reports : CollectedReports) (messages : list HostMessage) (ended : ProcessError) :
  option (result CollectedReports Anyhow) :=
  let?? (reports, (ordinary_actual, actual)) := collect_loop steps bindings (reports, ([], [])) messages ended in
  pure_part
    (let? _ := ensure (bool_decide (actual = bs_collect steps.*1)) (bytes_of "missing prepared step report") in
     let? _ := ensure (bool_decide (ordinary_actual = bs_collect bindings.*1))
                 (bytes_of "missing host ordinary report") in
     Ok reports).

(** A prepared peer and what it sent. *)
Record Prepared : Type := mkPrepared { pd_peer : ProcessStepPeer; pd_sent : list HostMessage }.

Definition host_bindings (peer : ProcessStepPeer) : btree str ModuleBindings :=
  bt_collect ((λ a, (assigned_namespace a, ca_bindings a)) <$> pp_assignments (pe_prepare peer)).

(** The second loop of [prepare_hosts]: reports, placement and bindings *)
Definition prepare_host (ended : ProcessError)
    (st : CollectedReports * btree str nat * btree str ModuleBindings * nat) (p : Prepared) :
  option (result (CollectedReports * btree str nat * btree str ModuleBindings * nat) Anyhow) :=
  let '(reports, placement, bindings, index) := st in
  let?? reports := collect_reports (pe_steps (pd_peer p)) (host_bindings (pd_peer p)) reports (pd_sent p) ended in
  Some (Ok (reports, bt_extend placement ((λ id, (id, index)) <$> (pe_steps (pd_peer p)).*1),
            bt_extend bindings (host_bindings (pd_peer p)), S index)).

(** [prepare_hosts], after authentication *)
Definition prepare_hosts (peers : list Prepared) (ended : ProcessError) (budget : Z) :
  option (result (btree str nat * reports_t) Anyhow) :=
  let?? (reports, placement, bindings, _) :=
    try_fold (prepare_host ended) (mkCollected [] [] budget, [], [], 0) peers in
  match mapM (λ '(id, b), mkEntry b <$> bt_get id (cr_ordinary reports)) bindings with
  | None => None
  | Some entries =>
      match validate_graph entries with
      | None => None
      | Some (Err e) => Some (Err (OfReport e))
      | Some (Ok _) => Some (Ok (placement, cr_steps reports))
      end
  end.
