(* ===== verification/ProcessHost.v ===== *)
(** * ProcessHost: the process host's side of admission
    ([crates/reiny/src/component/process.rs], [process/steps.rs],
    [process/steps/admission.rs], [process/placement.rs],
    [process/step_owner/preparation.rs])

    The registry, the checks of the owner's factories, placement and assignments,
    the snapshot reports, and the bind/commit/run barrier as a stage machine.
    [exchange_all] is the owner's loop over its channels.  [None] is a panic. *)

From Stdlib Require Import ZArith Lia.
From S2P Require Import Prelude Text Btree Core Bindings Report Step StepPlan.
From S2P Require Import HostProtocol Connection ProcessWire HostMessages ProcessPlan ProcessAdmit.

(** ** The registry ([process.rs]) *)

Record ProcessRegistry : Type := mkRegistry {
  reg_local : btree str unit;
  reg_revisions : btree str str;
  reg_steps : btree str StepSchema;
  reg_seed_outputs : btree str (btree str unit);
}.

Definition registry_new : ProcessRegistry := mkRegistry [] [] [] [].

(** The guard shared by both registrations *)
Definition registrable (self : ProcessRegistry) (implementation : FactoryRegistration) : bool :=
  negb (bool_decide (fr_factory implementation = [])
        || bool_decide (fr_revision implementation = [])
        || bt_contains (fr_factory implementation) (reg_revisions self)).

(** [ProcessRegistry::register] *)
Definition register (self : ProcessRegistry) (implementation : FactoryRegistration) :
  result unit ProcessError * ProcessRegistry :=
  if negb (registrable self implementation) then (Err (mkProcessError Factory), self) else
  let '(old, local) := bt_insert (fr_factory implementation) tt (reg_local self) in
  match old with
  | Some _ => (Err (mkProcessError Factory), self)
  | None =>
      (Ok tt, mkRegistry local
                (bt_insert (fr_factory implementation) (fr_revision implementation) (reg_revisions self)).2
                (reg_steps self) (reg_seed_outputs self))
  end.

(** [ProcessRegistry::register_step] *)
Definition register_step (self : ProcessRegistry) (implementation : FactoryRegistration)
    (schema : StepSchema) : result unit ProcessError * ProcessRegistry :=
  if negb (registrable self implementation) then (Err (mkProcessError Factory), self) else
  match import_schema (export_schema schema) with
  | Err e => (Err e, self)
  | Ok _ =>
      (Ok tt, mkRegistry (reg_local self)
                (bt_insert (fr_factory implementation) (fr_revision implementation) (reg_revisions self)).2
                (bt_insert (fr_factory implementation) schema (reg_steps self)).2
                (reg_seed_outputs self))
  end.

(** [ProcessRegistry::register_step_prepared] *)
Definition register_step_prepared (self : ProcessRegistry) (implementation : FactoryRegistration)
    (schema : StepSchema) (seed_outputs : btree str unit) : result unit ProcessError * ProcessRegistry :=
  if existsb (λ port, negb (bt_contains port (ss_outputs schema))) seed_outputs.*1
  then (Err (mkProcessError FAssignment), self) else
  match register_step self implementation schema with
  | (Err e, self) => (Err e, self)
  | (Ok _, self) =>
      (Ok tt, mkRegistry (reg_local self) (reg_revisions self) (reg_steps self)
                (bt_insert (fr_factory implementation) seed_outputs (reg_seed_outputs self)).2)
  end.

(** [ProcessRegistry::registrations] *)
Definition registrations (self : ProcessRegistry) : list FactoryRegistration :=
  (λ '(factory, revision), mkFactory factory revision) <$> reg_revisions self.

(** The schemas of the authentication proof *)
Definition registry_schemas (self : ProcessRegistry) : btree str WireSchema :=
  prod_map id export_schema <$> reg_steps self.

(** [authenticate] of [steps.rs], on the factories the owner requires *)
Definition check_required_factories (self : ProcessRegistry) (required : list FactoryRegistration) :
  result unit ProcessError :=
  if bool_decide (length required = 0)
     || negb (length (bs_collect required) =? length required)
     || existsb (λ f, negb (bool_decide (bt_get (fr_factory f) (reg_revisions self) = Some (fr_revision f))))
          required
  then Err (mkProcessError Factory) else Ok tt.

(** ** Placement ([placement.rs]) *)

Definition owner_name_ok (owner : str) : bool :=
  negb (bool_decide (owner = [])) && negb (bool_decide (owner = bytes_of "in"))
  && forallb (λ byte, is_ascii_alphanumeric byte || bool_decide (byte ∈ bytes_of "_-")) owner.

Definition placement_validate (request : Prepare) (limit : nat) (host : str) :
  result unit ProcessError :=
  let? namespaces := for_fold (λ namespaces assignment,
      let '(fresh, namespaces) := bs_insert (assigned_namespace assignment) namespaces in
      if negb fresh then Err invalid else Ok namespaces) [] (pp_assignments request) in
  let check (placement : btree str str) (local : bool) :=
    if limit <? length placement then Err invalid else
    let? _ := for_each (λ '(namespace, owner),
        let? _ := map_err (λ _, invalid) (validate_namespace namespace) in
        if negb (owner_name_ok owner) then Err invalid else Ok tt) placement in
    let assigned := bs_collect
      (filter (λ e : str * str, e.2 = host) (placement : list (str * str))).*1 in
    if negb (bool_decide (assigned = namespaces)) then Err invalid else
    for_each (λ assignment,
      for_each (λ source,
        match bt_get (ea_namespace source) placement with
        | Some owner => if negb local || bool_decide (owner = host) then Ok tt else Err invalid
        | None => Err invalid
        end) ((mb_inputs (ca_bindings assignment)).*2 ≫= ib_sources)) (pp_assignments request) in
  match pp_transport request with
  | TransportZenoh _ _ _ _ => Ok tt
  | TransportRoutedZenoh _ _ _ _ placement => check placement false
  | TransportLocal _ placement => check placement true
  end.

(** ** Assignments ([steps.rs]) *)

(** [validate_assignments] of the host *)
Definition host_validate_assignments (ordinary : Prepare) (assignments : btree str StepAssignment)
    (registry : ProcessRegistry) : result unit ProcessError :=
  let expected := expected_schemas (registry_schemas registry) (pp_assignments ordinary) in
  if bool_decide (length assignments = 0)
     || (MAX_ENTRIES <? length assignments)
     || negb (length assignments =? length expected)
     || existsb (λ '(id, a),
          negb (bool_decide (bt_get id expected = Some (sas_schema a)))
          || (MAX_VALUE_BYTES <? byte_len (sas_contract a))%Z
          || existsb (λ p, negb (bt_contains p (ws_outputs (sas_schema a)))) (sas_seed_outputs a).*1)
          assignments
  then Err invalid else
  for_each (λ instance,
    match bt_get (assigned_namespace instance) assignments with
    | Some assignment =>
        if existsb (λ port,
             negb match bt_get (fr_factory (ca_implementation instance)) (reg_seed_outputs registry) with
                  | Some allowed => bt_contains port allowed
                  | None => false
                  end) (sas_seed_outputs assignment).*1
        then Err invalid else Ok tt
    | None => Ok tt
    end) (pp_assignments ordinary).

(** ** Snapshot reports ([steps/admission.rs]) *)

(** What a prepared object left for its report: its outputs and its contract. *)
Definition snapshot_t : Type := option (StepOutputs * list Z).

Definition report_step (snapshots : btree str snapshot_t) (schemas : btree str StepSchema)
    (instance : str) (assignment : StepAssignment) : option (result StepPreparedReport ProcessError) :=
  match bt_get instance snapshots with
  | None => None
  | Some None => Some (Err invalid)
  | Some (Some (outputs, contract)) =>
      if negb (bool_decide (contract = sas_contract assignment)) then Some (Err invalid) else
      match bt_get instance schemas, outputs with
      | None, _ :: _ => None
      | schema, _ =>
          let declared := match schema with Some s => ss_outputs s | None => [] end in
          Some (
            if existsb (λ p, negb (bt_contains p declared)) outputs.*1
               || existsb (λ '(p, v), match bt_get p declared with
                                      | Some t => negb (step_type_eqb t (sv_type v))
                                      | None => true
                                      end) outputs
            then Err invalid else
            let? seeds := try_map (λ p, let? v := ok_or (bt_get p outputs) invalid in Ok (p, v))
                            (sas_seed_outputs assignment).*1 in
            let? outputs := export_values seeds in
            Ok (mkPreparedReport instance (sas_schema assignment) contract outputs))
      end
  end.

(** [report_steps]: the reports it sends, in order *)
Definition report_steps (snapshots : btree str snapshot_t) (schemas : btree str StepSchema)
    (assignments : btree str StepAssignment) : option (result (list StepPreparedReport) ProcessError) :=
  try_fold (λ sent '(instance, assignment),
              let?? report := report_step snapshots schemas instance assignment in
              Some (Ok (sent ++ [report]))) [] assignments.

(** ** The plan a host is bound to *)

(** The derived equality of two port maps and of two schemas *)
Fixpoint ports_eqb (a b : btree str StepType) : bool :=
  match a, b with
  | [], [] => true
  | (p, t) :: a', (q, u) :: b' => bool_decide (p = q) && step_type_eqb t u && ports_eqb a' b'
  | _, _ => false
  end.

Definition schema_eqb (a b : StepSchema) : bool :=
  ports_eqb (ss_inputs a) (ss_inputs b) && ports_eqb (ss_outputs a) (ss_outputs b).

Section bind.
(** the codec and the hash of [plan_digest] *)
Context (encode : WireGraph → WireDuration → result (list Z) ProcessError) (sha256_hex : list Z → str).

(** The checks of [bind] on what the owner sent *)
Definition bind_check (identity : SessionIdentity) (schemas : btree str StepSchema)
    (bound : BoundSteps) : option (result unit ProcessError) :=
  match import_graph (bd_graph bound) with
  | Err e => Some (Err e)
  | Ok graph =>
      match compile graph with
      | None => None
      | Some (Err _) => Some (Err invalid)
      | Some (Ok validated) =>
          Some (
            if negb (same_session identity (bd_session bound))
               || (MAX_ENTRIES <? length (bd_order bound))
               || negb (length (bs_collect (bd_order bound)) =? length (bd_order bound))
               || existsb (λ id, negb (bool_decide (id ∈ bd_order bound))) schemas.*1
               || existsb (λ '(id, schema),
                    match bt_get id (sg_nodes graph) with
                    | Some s => negb (schema_eqb s schema)
                    | None => true
                    end) schemas
               || negb (bool_decide (pl_order validated = bd_order bound))
            then Err invalid else
            let? digest := plan_digest encode sha256_hex (bd_graph bound) (bd_initial_time bound) in
            if negb (bool_decide (digest = sk_plan_digest (bd_session bound))) then Err invalid else
            let? _ := map_err (λ _, invalid) (wire_duration (bd_initial_time bound)) in
            Ok tt)
      end
  end.

(** ** The barrier *)

(** Where a host stands in [bind]: it waits for the plan, for commit, for run,
    it executes, or the session failed. *)
Inductive HostStage : Type :=
  | AwaitBind
  | AwaitCommit (bound : BoundSteps)
  | AwaitRun (bound : BoundSteps)
  | Executing (bound : BoundSteps)
  | SessionFailed (e : ProcessError).

(** A host: its assignment, and how its local group answers commit and
    activation. *)
Record BindHost : Type := mkBindHost {
  bh_identity : SessionIdentity;
  bh_schemas : btree str StepSchema;
  bh_commit : result unit HostError;
  bh_activate : result unit HostError;
  bh_stage : HostStage;
}.

Definition at_stage (h : BindHost) (s : HostStage) : BindHost :=
  mkBindHost (bh_identity h) (bh_schemas h) (bh_commit h) (bh_activate h) s.

(** One command of the owner to [bind]: the stage after it, and the reply *)
Definition bind_step (h : BindHost) (message : OwnerMessage) : option (BindHost * option HostMessage) :=
  let fail e := (at_stage h (SessionFailed e), None) in
  match bh_stage h with
  | AwaitBind =>
      match message with
      | OwnerSteps (Bind bound) =>
          match bind_check (bh_identity h) (bh_schemas h) bound with
          | None => None
          | Some (Err e) => Some (fail e)
          | Some (Ok _) => Some (at_stage h (AwaitCommit bound), Some (HostSteps (StepBound bound)))
          end
      | _ => Some (fail invalid)
      end
  | AwaitCommit bound =>
      Some match message with
           | OwnerCommit =>
               match bh_commit h with
               | Err e => fail (mkProcessError (code (he_code e)))
               | Ok _ => (at_stage h (AwaitRun bound), Some HostCommitted)
               end
           | _ => fail invalid
           end
  | AwaitRun bound =>
      Some match message with
           | OwnerRun =>
               match bh_activate h with
               | Err e => fail (mkProcessError (code (he_code e)))
               | Ok _ => (at_stage h (Executing bound), Some HostRunning)
               end
           | _ => fail invalid
           end
  | Executing _ | SessionFailed _ => Some (h, None)
  end.

(** One exchange of the owner with a host: send, and receive the reply.  A host
    that does not reply ends the channel. *)
Definition exchange (h : BindHost) (message : OwnerMessage) (accept : HostMessage → bool)
    (rejected : str) : option (result unit Anyhow * BindHost) :=
  match bind_step h message with
  | None => None
  | Some (h, None) => Some (Err (OfProcess (mkProcessError Disconnected)), h)
  | Some (h, Some reply) => Some (ensure (accept reply) rejected, h)
  end.

(** [for channel in channels] with an early return *)
Fixpoint exchange_all (message : OwnerMessage) (accept : HostMessage → bool) (rejected : str)
    (hosts : list BindHost) : option (result unit Anyhow * list BindHost) :=
  match hosts with
  | [] => Some (Ok tt, [])
  | h :: rest =>
      match exchange h message accept rejected with
      | None => None
      | Some (Err e, h) => Some (Err e, h :: rest)
      | Some (Ok _, h) =>
          match exchange_all message accept rejected rest with
          | None => None
          | Some (r, rest) => Some (r, h :: rest)
          end
      end
  end.

(** [activate_hosts] *)
Definition activate_hosts (hosts : list BindHost) (bound : BoundSteps) :
  option (result unit Anyhow * list BindHost) :=
  match exchange_all (OwnerSteps (Bind bound))
          (λ reply, match reply with HostSteps (StepBound b) => bool_decide (b = bound) | _ => false end)
          (bytes_of "binding rejected") hosts with
  | None => None
  | Some (Err e, hosts) => Some (Err e, hosts)
  | Some (Ok _, hosts) =>
      match exchange_all OwnerCommit (λ reply, match reply with HostCommitted => true | _ => false end)
              (bytes_of "commit rejected") hosts with
      | None => None
      | Some (Err e, hosts) => Some (Err e, hosts)
      | Some (Ok _, hosts) =>
          exchange_all OwnerRun (λ reply, match reply with HostRunning => true | _ => false end)
            (bytes_of "run rejected") hosts
      end
  end.
End bind.

(** ** Results of an invocation ([steps/execution.rs]) *)

(** [encode_result] *)
Definition encode_result (r : result StepOutputs (StepFailureKind * str)) (schema : StepSchema) :
  result (btree str WireValue) WireStepFailure :=
  match r with
  | Ok outputs =>
      map_err (λ _, export_failure InvalidOutputs (bytes_of "invalid or oversized outputs"))
        (let? _ := check_values (ss_outputs schema) outputs in export_values outputs)
  | Err (kind, message) => Err (export_failure kind message)
  end.
