(* ===== verification/ProcessAdmitSpec.v ===== *)
(** * ProcessAdmitSpec: what the owner's admission establishes

    Accepted assignments cover every node of the draft with a schema that can
    be imported, and collected reports match the draft. *)

From Stdlib Require Import ZArith Lia.
From S2P Require Import Prelude Text Btree Core Bindings BindingsSpec Report ReportSpec Step StepPlan.
From S2P Require Import HostProtocol Connection ProcessWire HostMessages ProcessPlan ProcessAdmit ProcessHost.

Lemma ensure_Ok b m : ensure b m = Ok tt ↔ b = true.
Proof. unfold ensure. by destruct b. Qed.

(** ** Imported schemas *)

Lemma import_ports_wf ports imported :
  import_ports (prod_map id export_type <$> ports) = Ok imported → ports_wf ports.
Proof.
  unfold import_ports. rewrite length_fmap. destruct (_ <? _)%nat eqn:El; breflect_in El; [done|].
  intros Hm%try_map_Ok. split; [done|]. apply Forall2_fmap_l in Hm.
  clear El. induction Hm as [|[name ty] y l k Hx _ IH]; constructor; [|done]. cbn in Hx.
  destruct (validate_port_name name) as [[]|] eqn:En; [cbn in Hx|done].
  destruct (import_type _) as [t|] eqn:Et; [|done]. apply import_type_Ok in Et as (_&Hwf&_&He).
  split; cbn; [by apply validate_port_name_Ok|]. apply (type_wf_same t); [|done]. by apply export_same.
Qed.

Lemma import_schema_wf s imported : import_schema (export_schema s) = Ok imported → schema_wf s.
Proof.
  unfold import_schema, export_schema. cbn.
  destruct (import_ports _) as [i|] eqn:Ei; [|done]. 
  destruct (import_ports (prod_map id export_type <$> ss_outputs s)) as [o|] eqn:Eo; [|done].
  intros _. split; by eapply import_ports_wf.
Qed.

(** ** Assignments *)

(** An accepted assignment of node [id]. *)
Definition assignment_wf (plan : ProcessStepPlan) (id : str) (a : StepAssignment) : Prop :=
  ∃ schema, bt_get id (psp_nodes plan) = Some schema ∧ export_schema schema = sas_schema a ∧
    schema_wf schema.

Definition assigned_wf (plan : ProcessStepPlan) (assigned : btree str StepAssignment) : Prop :=
  bt_ok assigned ∧ ∀ id a, (id, a) ∈ assigned → assignment_wf plan id a.

Lemma assign_step_Ok plan hi assigned e assigned' :
  assign_step plan hi assigned e = Ok assigned' → assigned_wf plan assigned →
  assigned_wf plan assigned' ∧ e ∈ assigned' ∧ (∀ x, x ∈ assigned → x ∈ assigned').
Proof.
  destruct e as [id a]. unfold assign_step. destruct (bt_contains id hi); [cbn|done].
  intros Hs [Hok Hall].
  pose proof (bt_insert_old id a assigned) as Hold. pose proof (bt_insert_ok id a assigned Hok) as Hok'.
  pose proof (bt_insert_elem id a assigned) as Hel. pose proof (λ k, bt_get_insert id a assigned k Hok) as Hget.
  destruct (bt_insert id a assigned) as [old m]. cbn in *. subst old.
  destruct (bt_get id assigned) eqn:Eold; [done|].
  destruct (bt_get id (psp_nodes plan)) as [schema|] eqn:Esc; [|done].
  destruct (bool_decide (export_schema schema = sas_schema a)) eqn:Ee; [cbn in Hs|done].
  apply bool_decide_eq_true in Ee. rewrite <- Ee in Hs.
  destruct (import_schema _) as [s'|] eqn:Ei; [|done]. injection Hs as <-.
  apply import_schema_wf in Ei. split_and!.
  - split; [done|]. intros id' a' [[= -> ->]|Hin]%Hel; [by exists schema|by apply Hall].
  - apply bt_get_elem. rewrite Hget. by rewrite cmp_refl.
  - intros [k v] Hin. apply bt_get_elem. rewrite Hget. apply bt_get_Some in Hin; [|done].
    case_bool_decide as E; [|done]. apply cmp_eq in E as ->. congruence.
Qed.

Lemma assign_steps_Ok plan hi assigned l assigned' :
  for_fold (assign_step plan hi) assigned l = Ok assigned' → assigned_wf plan assigned →
  assigned_wf plan assigned' ∧ (∀ x, x ∈ l → x ∈ assigned') ∧ (∀ x, x ∈ assigned → x ∈ assigned').
Proof.
  revert assigned. induction l as [|e l IH]; intros assigned; cbn [for_fold].
  - intros [= <-] Hwf. split_and!; [done|by intros ? ?%elem_of_nil|done].
  - destruct (assign_step _ _ _ _) as [s1|] eqn:E1; [|done]. intros Hr Hwf.
    destruct (assign_step_Ok _ _ _ _ _ E1 Hwf) as (Hwf1&He&Hsub).
    destruct (IH _ Hr Hwf1) as (Hwf'&Hl&Hsub'). split_and!; [done| |by eauto].
    intros x [->|Hx]%elem_of_cons; eauto.
Qed.

Lemma assign_peers_Ok plan key st peers st' :
  for_fold (assign_peer plan key) st peers = Ok st' → assigned_wf plan st.1.1 →
  assigned_wf plan st'.1.1 ∧
  (∀ peer x, peer ∈ peers → x ∈ pe_steps peer → x ∈ st'.1.1) ∧ (∀ x, x ∈ st.1.1 → x ∈ st'.1.1).
Proof.
  revert st. induction peers as [|peer peers IH]; intros st; cbn [for_fold].
  - intros [= <-] Hwf. split_and!; [done|by intros ? ? ?%elem_of_nil|done].
  - destruct (assign_peer _ _ _ _) as [s1|] eqn:E1; [|done]. intros Hr Hwf.
    destruct st as [[assigned ai] hosts]. unfold assign_peer in E1.
    destruct (ensure _ _); [|done]. destruct (bs_insert _ hosts) as [fresh hosts'].
    destruct (ensure fresh _); [|done].
    destruct (for_fold _ _ (pp_assignments (pe_prepare peer))) as [[ai' hi]|]; [|done].
    destruct (for_fold (assign_step plan hi) _ _) as [assigned'|] eqn:Ea; [|done].
    injection E1 as <-. cbn in Hwf.
    destruct (assign_steps_Ok _ _ _ _ _ Ea Hwf) as (Hwf1&Hl&Hsub).
    destruct (IH _ Hr Hwf1) as (Hwf'&Hl'&Hsub'). cbn in *. split_and!; [done| |by eauto].
    intros p x [->|Hp]%elem_of_cons Hx; eauto.
Qed.

(** ** Accepted assignments *)

Record admission (peers : list ProcessStepPeer) (plan : ProcessStepPlan) : Prop := {
  ad_valid : plan_validate plan = Some (Ok tt);
  (** every node is a peer's step, with a well-formed schema *)
  ad_nodes : Forall (λ n, schema_wf n.2) (psp_nodes plan : list (str * StepSchema));
  (** every step assignment is that of a node *)
  ad_steps peer id a : peer ∈ peers → (id, a) ∈ pe_steps peer → assignment_wf plan id a;
}.

Lemma owner_validate_Ok peers plan key :
  bt_ok (psp_nodes plan) →
  owner_validate_assignments peers plan key = Some (Ok tt) → admission peers plan.
Proof.
  intros Hok. unfold owner_validate_assignments, pure_part.
  destruct (plan_validate plan) as [[[]|]|] eqn:Ev; [|done..].
  destruct (for_fold (assign_peer plan key) _ peers) as [[[assigned ai] hosts]|] eqn:Ea; [|done].
  destruct (ensure _ _) as [[]|] eqn:El; [|done]. intros _.
  apply ensure_Ok, Nat.eqb_eq in El.
  apply assign_peers_Ok in Ea as ([Haok Hall]&Hin&_); [|split; [done|by intros ?? ?%elem_of_nil]]. cbn in *.
  split; [done| |by eauto]. apply Forall_forall. intros [id schema] Hn. cbn.
  assert (Hsub : assigned.*1 ⊆+ (psp_nodes plan).*1).
  { apply NoDup_submseteq; [by apply bt_ok_NoDup|]. intros k ([k' a]&->&Hk)%list_elem_of_fmap.
    destruct (Hall _ _ Hk) as (s&Hs&_). by apply bt_get_elem, (list_elem_of_fmap_2 fst) in Hs. }
  apply submseteq_length_Permutation in Hsub as Hperm; [|rewrite !length_fmap; lia].
  assert (Hida : id ∈ assigned.*1).
  { rewrite Hperm. by apply (list_elem_of_fmap_2 fst) in Hn. }
  apply list_elem_of_fmap in Hida as ([k a]&->&Hk). destruct (Hall _ _ Hk) as (s&Hs&_&Hwf).
  cbn in *. apply bt_get_elem in Hs. by rewrite <- (bt_ok_functional k _ _ _ Hok Hs Hn).
Qed.

(** ** Collected reports *)

Lemma collect_seeds_Ok schema b l b' :
  for_fold (collect_seed schema) b l = Ok b' →
  ∀ port w, (port, w) ∈ l → ∃ ty declared, import_type (wv_ty w) = Ok ty ∧
    bt_get port (ss_outputs schema) = Some declared ∧ same_type declared ty.
Proof.
  apply (for_fold_Ok _ (λ pre _, ∀ port w, (port, w) ∈ pre → ∃ ty declared,
    import_type (wv_ty w) = Ok ty ∧ bt_get port (ss_outputs schema) = Some declared ∧
    same_type declared ty)); [|by intros ?? ?%elem_of_nil].
  intros pre [port w] post s s' _ Hpre Hstep port' w' [Hin|Hin]%elem_of_app; [by apply Hpre|].
  apply list_elem_of_singleton in Hin as [= -> ->]. cbn in Hstep.
  destruct (import_type (wv_ty w)) as [ty|] eqn:Et; [cbn in Hstep|done].
  destruct (ensure _ _) as [[]|] eqn:Ee; [|done]. apply ensure_Ok, andb_true_iff in Ee as [_ Ee].
  destruct (bt_get port (ss_outputs schema)) as [d|] eqn:Ed; [|done].
  exists ty, d. split_and!; [done..|]. by apply step_type_eqb_true.
Qed.

(** The snapshots of a report have the declared types. *)
Definition report_good (plan : ProcessStepPlan) (id : str) (r : StepPreparedReport) : Prop :=
  ∀ port w, (port, w) ∈ spr_outputs r →
  ∃ ty, find_port ss_outputs (psp_nodes plan) id port = Some ty ∧ export_type ty = wv_ty w.

Definition reports_good (plan : ProcessStepPlan) (reports : reports_t) : Prop :=
  bt_ok reports ∧ ∀ id r, (id, r) ∈ reports → report_good plan id r.

Lemma reports_good_match plan reports :
  reports_good plan reports → reports_match (psp_nodes plan) reports.
Proof. intros [_ Hall] o r w Hr%bt_get_elem Hw%bt_get_elem. by apply (Hall _ _ Hr). Qed.

Section collect.
Context (plan : ProcessStepPlan) (steps : btree str StepAssignment).
Context (Hsteps : ∀ id a, (id, a) ∈ steps → assignment_wf plan id a).

Lemma collect_step_Ok st report st' :
  collect_step steps st report = Ok st' → reports_good plan (cr_steps st.1) →
  reports_good plan (cr_steps st'.1).
Proof.
  destruct st as [reports [oa actual]]. unfold collect_step.
  destruct (bt_get (spr_instance report) steps) as [expected|] eqn:Ex; [cbn|done].
  apply bt_get_elem in Ex. destruct (Hsteps _ _ Ex) as (schema&Hnode&Hexp&Hwf).
  destruct (ensure _ _) as [[]|] eqn:Ee; [|done].
  apply ensure_Ok in Ee. rewrite !andb_true_iff, !bool_decide_eq_true in Ee.
  destruct Ee as [[Hsch _] _]. rewrite Hsch, <- Hexp, import_export_schema by done. cbn.
  destruct (for_fold _ _ _) as [b|] eqn:Eb; [|done]. intros Hst [Hok Hall].
  pose proof (bt_insert_ok (spr_instance report) report _ Hok) as Hok'.
  pose proof (bt_insert_elem (spr_instance report) report (cr_steps reports)) as Hel.
  destruct (bt_insert _ report _) as [old m]. cbn in *. destruct (ensure _ _); [|done].
  injection Hst as <-. cbn. split; [done|]. intros id r [[= -> ->]|Hin]%Hel; [|by apply Hall].
  intros port w Hw. destruct (collect_seeds_Ok _ _ _ _ Eb port w Hw) as (ty&d&Hi&Hd&Hsame).
  cbn in Hd. rewrite bt_get_fmap in Hd. destruct (bt_get port (ss_outputs schema)) as [t|] eqn:Et; [|done].
  injection Hd as <-. exists t. unfold find_port. rewrite Hnode. split; [done|].
  apply import_type_Ok in Hi as (_&_&_&<-). apply export_same. by rewrite <- Hsame, owned_same.
Qed.

Lemma collect_ordinary_steps bindings st report st' :
  collect_ordinary bindings st report = Some (Ok st') → cr_steps st'.1 = cr_steps st.1.
Proof.
  destruct st as [reports [oa actual]]. unfold collect_ordinary, pure_part.
  destruct (bt_get _ bindings) as [b|]; [|done]. destruct (validate_report b report) as [[]|]; [|done..].
  destruct (bt_insert _ report _) as [old m]. destruct (ensure _ _); [|done]. by intros [= <-].
Qed.

Lemma collect_loop_Ok bindings messages ended st st' :
  collect_loop steps bindings st messages ended = Some (Ok st') → reports_good plan (cr_steps st.1) →
  reports_good plan (cr_steps st'.1).
Proof.
  revert st. induction messages as [|m messages IH]; intros st; cbn [collect_loop]; [done|].
  destruct m as [[]| |report| | | | | |]; try done.
  - unfold pure_part. destruct (collect_step steps st report) as [s1|] eqn:E1; [|done]. intros Hr Hg.
    apply (IH _ Hr). by eapply collect_step_Ok.
  - destruct (collect_ordinary bindings st report) as [[s1|]|] eqn:E1; [|done..]. intros Hr Hg.
    apply (IH _ Hr). by rewrite (collect_ordinary_steps _ _ _ _ E1).
  - by intros [= <-].
Qed.

Lemma collect_reports_Ok bindings reports messages ended reports' :
  collect_reports steps bindings reports messages ended = Some (Ok reports') →
  reports_good plan (cr_steps reports) → reports_good plan (cr_steps reports').
Proof.
  unfold collect_reports, pure_part.
  destruct (collect_loop _ _ _ _ _) as [[[r [oa actual]]|]|] eqn:El; [|done..].
  destruct (ensure _ _); [|done]. destruct (ensure _ _); [|done]. intros [= <-] Hg.
  by apply collect_loop_Ok in El.
Qed.
End collect.

(** The reports that [prepare_hosts] returns match the draft. *)
Lemma prepare_hosts_Ok plan peers ended budget placement reports :
  (∀ p id a, p ∈ peers → (id, a) ∈ pe_steps (pd_peer p) → assignment_wf plan id a) →
  prepare_hosts peers ended budget = Some (Ok (placement, reports)) → reports_good plan reports.
Proof.
  intros Hsteps. unfold prepare_hosts.
  destruct (try_fold _ _ _) as [[[[[r pl] bs] ix]|]|] eqn:Ef; [|done..].
  apply (try_fold_Ok _ (λ _ st, reports_good plan (cr_steps st.1.1.1))) in Ef.
  - destruct (mapM _ _); [|done]. destruct (validate_graph _) as [[]|]; [|done..].
    intros [= <- <-]. exact Ef.
  - intros pre p post [[[r1 pl1] bs1] ix1] s' -> Hg. cbn in *.
    destruct (collect_reports _ _ _ _ _) as [[r2|]|] eqn:Ec; [|done..]. intros [= <-]. cbn.
    eapply collect_reports_Ok; [|done..]. intros id a. apply (Hsteps p). set_solver.
  - split; [done|]. by intros ?? ?%elem_of_nil.
Qed.
