(* ===== verification/ProcessOwner.v ===== *)
(** * ProcessOwner: the owner's session over admitted hosts
    ([crates/reiny/src/component/process/step_owner.rs])

    From the prepared hosts' reports to the plan every host is bound to.  The
    application's validator is a parameter, and so are the codec and the hash of
    the plan digest.  [None] is a panic.  What [owner_prepare] returns is the plan
    that every admitted host accepts, and [activate_hosts] is a commit barrier. *)

From Stdlib Require Import ZArith Lia.
From S2P Require Import Prelude Text Btree Core Bindings BindingsSpec Report Step StepPlan StepScheduler HostProtocol Connection ProcessWire HostMessages ProcessPlan ProcessAdmit ProcessHost StepSchedulerSpec StepProps ProcessAdmitSpec.

(** What [ProcessStepOwner::prepare] leaves: the bound plan, the scheduler, the
    bytes retained from the start, the outputs that are delayed, and the last
    ordinal. *)
Record OwnerSession : Type := mkOwnerSession {
  os_bound : BoundSteps;
  os_scheduler : StepScheduler;
  os_bootstrap : Z;
  os_delayed : btree StepOutput unit;
  os_final_ordinal : Z;
}.

(** [try_fold(0, usize::checked_add)] over the initial values *)
Definition bootstrap_bytes (inputs : btree StepInput StepSource) : option Z :=
  foldl (λ acc n, match acc with Some total => checked_add 64 total n | None => None end) (Some 0%Z)
    (inputs ≫= λ e, initial_bytes e.2).

Definition delayed_sources (inputs : btree StepInput StepSource) : btree StepOutput unit :=
  bs_collect (omap (λ e : StepInput * StepSource,
                      match e.2 with PreviousTick source _ => Some source | External | SameTick _ => None end)
                inputs).

Definition with_plan_digest (key : StepSessionKey) (digest : str) : StepSessionKey :=
  mkSessionKey (sk_incarnation key) (sk_owner_generation key) (sk_graph_generation key)
    (sk_graph_digest key) digest.

Section prepare.
Context (encode : WireGraph → WireDuration → result (list Z) ProcessError) (sha256_hex : list Z → str).
(** the application's check of the reports and of the resolved graph *)
Context (validate : reports_t → StepGraph → result unit Anyhow).

(** [ProcessStepOwner::prepare], from the reports of the hosts to the plan that
    is sent to them; the state is the counter of epochs *)
Definition owner_prepare (plan : ProcessStepPlan) (key : StepSessionKey) (initial_time : Z)
    (reports : reports_t) : ST Z (result OwnerSession Anyhow) :=
  try* graph := ret (plan_resolve plan reports) in
  try* _ := ret (validate reports graph) in
  try* compiled := (let* r := lift (compile graph) in ret (map_err OfPlan r)) in
  try* wire_graph := ret (map_err OfProcess (export_graph graph)) in
  try* digest := ret (map_err OfProcess
                        (plan_digest encode sha256_hex wire_graph (wire_from initial_time))) in
  let key := with_plan_digest key digest in
  try* bootstrap := ret (ok_or (bootstrap_bytes (sg_inputs graph)) (OfProcess invalid)) in
  let ordinal := (Z.of_nat (length (pl_order compiled)) - 1)%Z in
  let* _ := lift (if (ordinal <? 0)%Z then None else Some tt) in
  try* _ := ret (ensure (ordinal <=? u32_max)%Z (bytes_of "out of range integral type conversion attempted")) in
  try* scheduler := (let* r := scheduler_new graph initial_time in ret (map_err OfPlan r)) in
  ret (Ok (mkOwnerSession
    (mkBound key (sch_epoch scheduler) (wire_from initial_time) (pl_order compiled) wire_graph)
    scheduler bootstrap (delayed_sources (sg_inputs graph)) ordinal)).
End prepare.

(** ** Schemas that export alike are equal for the host *)

Lemma ports_eqb_export a b :
  prod_map id export_type <$> a = prod_map id export_type <$> (b : list (str * StepType)) →
  ports_eqb (prod_map id owned <$> a) b = true.
Proof.
  revert b. induction a as [|[p t] a IH]; intros [|[q u] b]; cbn; try done.
  intros [= -> Ht Hrest]. rewrite bool_decide_eq_true_2 by done. cbn.
  rewrite IH by done. rewrite andb_true_r. apply step_type_eqb_true.
  rewrite same_type_parts. cbn. naive_solver.
Qed.

Lemma schema_eqb_export a b :
  export_schema a = export_schema b → schema_eqb (retype_schema owned a) b = true.
Proof.
  unfold export_schema, schema_eqb. intros [= Hi Ho]. cbn. by rewrite !ports_eqb_export.
Qed.

Lemma bs_collect_NoDup {K} `{OrdLaws K} (l : list K) :
  NoDup l → length (bs_collect l) = length l.
Proof.
  intros Hnd. unfold bs_collect, bt_collect, bt_extend.
  assert (Hgen : ∀ (l : list K) (m : btree K unit), NoDup l → bt_ok m → (∀ k, k ∈ l → k ∉ m.*1) →
    length (foldl (λ m (e : K * unit), (bt_insert e.1 e.2 m).2) m ((λ k, (k, tt)) <$> l)) =
    length m + length l).
  { clear l Hnd. induction l as [|k l IH]; intros m Hnd Hok Hdis; cbn; [lia|].
    apply NoDup_cons in Hnd as [Hk Hnd].
    assert (Hnone : bt_get k m = None) by (apply bt_get_None; [done|apply Hdis; by left]).
    rewrite IH; [|done|by apply bt_insert_ok|].
    - assert (Hlen : length (bt_insert k tt m).2 = S (length m)); [|lia].
      clear - Hnone. induction m as [|[k' v] m IHm]; cbn in *; [done|].
      destruct (cmp k k'); [done..|]. specialize (IHm Hnone).
      destruct (bt_insert k tt m). cbn in *. lia.
    - intros j Hj ([j' v]&->&Hin)%list_elem_of_fmap.
      apply bt_insert_elem in Hin as [[= -> ->]|Hin]; [done|].
      apply (Hdis j'); [by right|]. by apply (list_elem_of_fmap_2 fst) in Hin. }
  rewrite Hgen; [done..|]. intros k _. apply not_elem_of_nil.
Qed.

(** ** What the owner binds *)

Section bind.
Context (encode : WireGraph → WireDuration → result (list Z) ProcessError) (sha256_hex : list Z → str).
Context (validate : reports_t → StepGraph → result unit Anyhow).

Record bound_from (plan : ProcessStepPlan) (key : StepSessionKey) (initial_time : Z)
    (reports : reports_t) (epoch : Z) (s : OwnerSession) : Prop := {
  bf_resolved : plan_resolve plan reports = Ok (pl_graph (sch_plan (os_scheduler s)));
  bf_compiled : compile (pl_graph (sch_plan (os_scheduler s))) = Some (Ok (sch_plan (os_scheduler s)));
  bf_scheduler : os_scheduler s = mkScheduler (sch_plan (os_scheduler s)) epoch 0 initial_time [] None;
  bf_graph : export_graph (pl_graph (sch_plan (os_scheduler s))) = Ok (bd_graph (os_bound s));
  bf_order : bd_order (os_bound s) = pl_order (sch_plan (os_scheduler s));
  bf_epoch : bd_epoch (os_bound s) = epoch;
  bf_time : bd_initial_time (os_bound s) = wire_from initial_time;
  bf_digest : ∃ digest, plan_digest encode sha256_hex (bd_graph (os_bound s)) (wire_from initial_time) = Ok digest ∧
    bd_session (os_bound s) = with_plan_digest key digest;
  bf_last : os_final_ordinal s = (Z.of_nat (length (bd_order (os_bound s))) - 1)%Z;
}.

Lemma owner_prepare_Ok plan key time reports epoch s epoch' :
  owner_prepare encode sha256_hex validate plan key time reports epoch = Some (Ok s, epoch') →
  bound_from plan key time reports epoch s ∧ epoch' = (epoch + 1)%Z.
Proof.
  unfold owner_prepare, bind_try, bind, ret, lift.
  destruct (plan_resolve plan reports) as [g|] eqn:Eg; [|done].
  destruct (validate reports g); [|done].
  destruct (compile g) as [[p|]|] eqn:Ec; cbn; [|done..].
  destruct (export_graph g) as [w|] eqn:Ew; cbn; [|done].
  destruct (plan_digest _ _ _ _) as [d|] eqn:Ed; cbn; [|done].
  destruct (bootstrap_bytes _) as [b|]; cbn; [|done].
  destruct (_ <? _)%Z; [done|]. destruct (ensure _ _); [|done].
  unfold scheduler_new. rewrite Ec. unfold checked_succ, checked_add.
  destruct (_ <? _)%Z; cbn; [|done]. intros [= <- <-].
  assert (Hg : pl_graph p = g).
  { unfold compile in Ec. destruct (validate_routes _ _) as [[]|]; by simplify_eq. }
  split; [|done]. split; cbn; rewrite ?Hg; try done. by exists d.
Qed.

(** ** Hosts accept it *)

(** A host of the session whose schemas are those of its step assignments. *)
Record host_of (peers : list ProcessStepPeer) (key : StepSessionKey) (identity : SessionIdentity)
    (schemas : btree str StepSchema) : Prop := {
  ho_session : same_session identity key = true;
  ho_schemas id s : (id, s) ∈ schemas →
    ∃ peer a, peer ∈ peers ∧ (id, a) ∈ pe_steps peer ∧ export_schema s = sas_schema a;
}.

Lemma order_keys g p : graph_typed g → compile g = Some (Ok p) → pl_order p ≡ₚ (sg_nodes g).*1.
Proof.
  intros Ht Hc. destruct (compile_spec g Ht) as (r&Hr&Hspec). rewrite Hc in Hr. injection Hr as <-.
  by destruct Hspec as (_&_&[]).
Qed.

Context (peers : list ProcessStepPeer) (plan : ProcessStepPlan) (key : StepSessionKey).
Context (time : Z) (reports : reports_t) (epoch : Z) (s : OwnerSession).
Context (Htyped : draft_typed plan) (Hadm : admission peers plan) (Hrep : reports_good plan reports).
Context (Htime : is_duration time) (Hs : bound_from plan key time reports epoch s).
Let g : StepGraph := pl_graph (sch_plan (os_scheduler s)).

Lemma bound_fits : graph_fits g.
Proof.
  destruct Hadm as [Hv Hn _]. destruct Hs as [Hr _ _ _ _ _ _ _ _].
  by eapply resolved_fits, Hr; [|apply reports_good_match| |].
Qed.

Lemma bound_wire : bd_graph (os_bound s) = wire_graph g.
Proof.
  destruct Hs as [_ _ _ Hg _ _ _ _ _]. fold g in Hg. rewrite (export_graph_fits _ bound_fits) in Hg.
  by injection Hg.
Qed.

Lemma host_accepts identity schemas :
  host_of peers key identity schemas →
  bind_check encode sha256_hex identity schemas (os_bound s) = Some (Ok tt).
Proof.
  intros [Hsess Hsch]. unfold bind_check.
  rewrite bound_wire, (import_export_graph g bound_fits).
  rewrite (compile_retype owned owned_same g).
  pose proof Hs as [Hr Hc _ _ Hord _ Ht (digest&Hdig&Hkey) _]. fold g in Hr, Hc.
  rewrite Hc. cbn [pl_order]. rewrite Hord, Ht, Hkey.
  rewrite bound_wire in Hdig. rewrite Hdig. cbn [with_plan_digest sk_plan_digest].
  pose proof (resolved_typed _ _ _ Htyped Hr) as Hgt. pose proof (order_keys _ _ Hgt Hc) as Hperm.
  destruct (plan_resolve_Ok _ _ _ Hr) as (Hnodes&_&_).
  assert (Hnd : NoDup (pl_order (sch_plan (os_scheduler s)))).
  { rewrite Hperm. by apply bt_ok_NoDup, gt_nodes. }
  assert (Hlen : length (pl_order (sch_plan (os_scheduler s))) ≤ MAX_ENTRIES).
  { rewrite Hperm, length_fmap. apply (gf_nodes _ bound_fits). }
  assert (Hmem : existsb (λ id, negb (bool_decide (id ∈ pl_order (sch_plan (os_scheduler s))))) schemas.*1 = false).
  { apply existsb_false_elem. intros id ([k sch]&->&Hin)%list_elem_of_fmap.
    destruct (Hsch _ _ Hin) as (peer&a&Hp&Ha&_). destruct (ad_steps _ _ Hadm _ _ _ Hp Ha) as (sn&Hn&_).
    rewrite bool_decide_eq_true_2; [done|]. rewrite Hperm, Hnodes.
    by apply bt_get_elem, (list_elem_of_fmap_2 fst) in Hn. }
  assert (Hsame : existsb (λ '(id, schema),
      match bt_get id (sg_nodes (retype_graph owned g)) with
      | Some s => negb (schema_eqb s schema) | None => true end) schemas = false).
  { apply existsb_false_elem. intros [id sch] Hin. cbn. rewrite bt_get_fmap, Hnodes.
    destruct (Hsch _ _ Hin) as (peer&a&Hp&Ha&He). destruct (ad_steps _ _ Hadm _ _ _ Hp Ha) as (sn&->&He'&_).
    cbn. rewrite schema_eqb_export; [done|]. congruence. }
  assert (Hss : same_session identity (with_plan_digest key digest) = true) by exact Hsess.
  rewrite Hss, (bs_collect_NoDup _ Hnd), Nat.eqb_refl, Hmem, Hsame.
  rewrite (proj2 (Nat.ltb_ge _ _) Hlen), bool_decide_eq_true_2 by done. cbn [negb orb].
  rewrite bool_decide_eq_true_2 by done. cbn [negb].
  destruct (wire_from_normalized time Htime) as [_ Hn]. apply wire_duration_Ok in Hn. by rewrite Hn.
Qed.
End bind.

(** ** A host always answers a bind *)

Lemma import_routes_ok l m m' :
  for_fold import_route m l = Ok m' → bt_ok (m : btree StepInput StepSource) → bt_ok m'.
Proof.
  revert m. induction l as [|r l IH]; intros m; cbn [for_fold]; [by intros [= <-]|].
  unfold import_route at 1. destruct (import_source _) as [src|]; [|done].
  pose proof (bt_insert_ok (mkStepInput (wr_instance r) (wr_port r)) src m) as Hok.
  destruct (bt_insert _ src m) as [[]  m1]; [done|]. intros Hr Hm. apply (IH _ Hr). by apply Hok.
Qed.

Lemma bind_check_returns encode sha256_hex identity schemas bound :
  bt_ok (wg_nodes (bd_graph bound)) → bind_check encode sha256_hex identity schemas bound ≠ None.
Proof.
  intros Hn. unfold bind_check, import_graph. destruct (_ || _); [done|].
  destruct (try_map _ (wg_nodes _)) as [nodes|] eqn:En; [|done].
  destruct (for_fold import_route [] _) as [inputs|] eqn:Ei; [|done].
  apply import_routes_ok in Ei; [|done].
  assert (Hk : (wg_nodes (bd_graph bound)).*1 = nodes.*1).
  { apply try_map_Ok in En. clear - En. induction En as [|[i w] [j n] ?? Hx _ IH]; [done|].
    cbn in Hx. destruct (import_schema w); simplify_eq. cbn. by rewrite IH. }
  destruct (validate_routes_spec nodes (prod_map id route_of <$> inputs)) as (r&Hr&_);
    [by eapply bt_ok_keys|by apply bt_ok_fmap|].
  unfold compile. cbn. rewrite Hr. by destruct r.
Qed.

(** ** The barrier *)

Section barrier.
Context (encode : WireGraph → WireDuration → result (list Z) ProcessError) (sha256_hex : list Z → str).
Abbreviation exchange_all := (exchange_all encode sha256_hex).
Abbreviation check := (bind_check encode sha256_hex).

(** The parts of a host that an exchange does not change. *)
Definition same_host (h h' : BindHost) : Prop :=
  bh_identity h' = bh_identity h ∧ bh_schemas h' = bh_schemas h ∧ bh_commit h' = bh_commit h ∧
  bh_activate h' = bh_activate h.

#[local] Instance same_host_equivalence : Equivalence same_host.
Proof. split; [by intros ?|by intros ?? (?&?&?&?)|intros ??? (?&?&?&?) (?&?&?&?); repeat split; congruence]. Qed.

(** One round: hosts that satisfy [P] are told [message].  Those that reply as
    expected satisfy [Q]; [L] hosts do reply; all hosts satisfy [I] after it. *)
Lemma exchange_all_spec (P Q I L : BindHost → Prop) message accept rejected hosts :
  (∀ h, P h → I h) →
  (∀ h, P h → ∃ r h', exchange encode sha256_hex h message accept rejected = Some (r, h') ∧
     same_host h h' ∧ I h' ∧ (L h → r = Ok tt) ∧ (r = Ok tt → Q h')) →
  Forall P hosts →
  ∃ r hosts', exchange_all message accept rejected hosts = Some (r, hosts') ∧
    Forall2 same_host hosts hosts' ∧ Forall I hosts' ∧ (Forall L hosts → r = Ok tt) ∧
    (r = Ok tt → Forall Q hosts').
Proof.
  intros HPI Hstep. induction 1 as [|h hosts Hh Hall IH]; cbn [ProcessHost.exchange_all].
  - exists (Ok tt), []. by repeat constructor.
  - destruct (Hstep h Hh) as (r&h'&->&Hsame&HI&HL&HQ). destruct r as [[]|e].
    + destruct IH as (r&hosts'&->&Hf2&HIs&HLs&HQs). exists r, (h' :: hosts'). split_and!.
      * done.
      * by constructor.
      * by constructor.
      * by intros [_ ?]%Forall_cons; apply HLs.
      * intros Hr. constructor; [by apply HQ|by apply HQs].
    + exists (Err e), (h' :: hosts). split_and!.
      * done.
      * by constructor.
      * constructor; [done|]. by eapply Forall_impl.
      * intros [?%HL _]%Forall_cons. done.
      * done.
Qed.

Context (bound : BoundSteps).

(** What a host has agreed to before it commits, and before it runs. *)
Definition accepts (h : BindHost) : Prop := check (bh_identity h) (bh_schemas h) bound = Some (Ok tt).
Definition commits (h : BindHost) : Prop := accepts h ∧ bh_commit h = Ok tt.
Definition activates (h : BindHost) : Prop := commits h ∧ bh_activate h = Ok tt.

Lemma same_accepts h h' : same_host h h' → accepts h ↔ accepts h'.
Proof. unfold accepts. by intros (->&->&_&_). Qed.

Lemma same_commits h h' : same_host h h' → commits h ↔ commits h'.
Proof. intros Hs. unfold commits. rewrite (same_accepts h h' Hs). by destruct Hs as (_&_&->&_). Qed.

Lemma same_activates h h' : same_host h h' → activates h ↔ activates h'.
Proof. intros Hs. unfold activates. rewrite (same_commits h h' Hs). by destruct Hs as (_&_&_&->). Qed.

Lemma Forall_same (P : BindHost → Prop) hosts hosts' :
  (∀ h h', same_host h h' → P h → P h') → Forall2 same_host hosts hosts' → Forall P hosts → Forall P hosts'.
Proof. intros HP. induction 1; inversion 1; constructor; eauto. Qed.

Definition running (h : BindHost) : Prop := bh_stage h = Executing bound.

(** The barrier: hosts run only after all hosts have accepted the same plan and
    committed; when every group cooperates, all hosts run. *)
Lemma activate_hosts_spec hosts :
  Forall (λ h, check (bh_identity h) (bh_schemas h) bound ≠ None) hosts →
  Forall (λ h, bh_stage h = AwaitBind) hosts →
  ∃ r hosts', activate_hosts encode sha256_hex hosts bound = Some (r, hosts') ∧
    Forall2 same_host hosts hosts' ∧
    (r = Ok tt → Forall running hosts') ∧
    ((∃ h, h ∈ hosts' ∧ ∃ b, bh_stage h = Executing b) → Forall commits hosts') ∧
    (Forall activates hosts → r = Ok tt).
Proof.
  intros Htot Hstart. unfold activate_hosts.
  destruct (exchange_all_spec
    (λ h, bh_stage h = AwaitBind ∧ check (bh_identity h) (bh_schemas h) bound ≠ None)
    (λ h, bh_stage h = AwaitCommit bound ∧ accepts h) (λ h, ∀ b, bh_stage h ≠ Executing b) accepts
    (OwnerSteps (Bind bound))
    (λ reply, match reply with HostSteps (StepBound b) => bool_decide (b = bound) | _ => false end)
    (bytes_of "binding rejected") hosts) as (r1&hosts1&->&Hs1&HI1&HL1&HQ1).
  { by intros h [-> _] b. }
  { intros h [Hst Hne]. unfold exchange, bind_step. rewrite Hst.
    destruct (check _ _ bound) as [[[]|e]|] eqn:Ec; [| |done].
    - eexists _, _. split; [done|]. rewrite bool_decide_eq_true_2 by done. unfold accepts. by split_and!.
    - eexists _, _. split; [done|]. unfold accepts. rewrite Ec. by split_and!. }
  { apply Forall_and. by split. }
  destruct r1 as [[]|e1].
  2: { exists (Err e1), hosts1. split_and!; [done..| |].
       - intros (h&Hin&b&Hb). rewrite Forall_forall in HI1. by destruct (HI1 _ Hin b).
       - intros Hact. apply HL1. eapply Forall_impl; [exact Hact|]. by intros h [[] _]. }
  specialize (HQ1 eq_refl).
  destruct (exchange_all_spec
    (λ h, bh_stage h = AwaitCommit bound ∧ accepts h)
    (λ h, bh_stage h = AwaitRun bound ∧ commits h) (λ h, ∀ b, bh_stage h ≠ Executing b) commits
    OwnerCommit (λ reply, match reply with HostCommitted => true | _ => false end)
    (bytes_of "commit rejected") hosts1) as (r2&hosts2&->&Hs2&HI2&HL2&HQ2); [| |done|].
  { by intros h [-> _] b. }
  { intros h [Hst Hacc]. unfold exchange, bind_step. rewrite Hst.
    destruct (bh_commit h) as [[]|e] eqn:Ec; (eexists _, _; split; [done|]); unfold commits; cbn;
      rewrite ?Ec; split_and!; try done; by intros []. }
  assert (Hs12 : Forall2 same_host hosts hosts2) by (by etrans).
  destruct r2 as [[]|e2].
  2: { exists (Err e2), hosts2. split_and!; [done..| |].
       - intros (h&Hin&b&Hb). rewrite Forall_forall in HI2. by destruct (HI2 _ Hin b).
       - intros Hact. apply HL2. apply (Forall_same _ hosts); [by intros ?? ?%same_commits; tauto|done|].
         eapply Forall_impl; [exact Hact|]. by intros h []. }
  specialize (HQ2 eq_refl).
  destruct (exchange_all_spec
    (λ h, bh_stage h = AwaitRun bound ∧ commits h)
    (λ h, running h) (λ h, commits h) activates
    OwnerRun (λ reply, match reply with HostRunning => true | _ => false end)
    (bytes_of "run rejected") hosts2) as (r3&hosts3&->&Hs3&HI3&HL3&HQ3); [by intros h []| |done|].
  { intros h [Hst Hcom]. unfold exchange, bind_step. rewrite Hst. unfold activates.
    destruct (bh_activate h) as [[]|e] eqn:Ec; (eexists _, _; split; [done|]); cbn;
      rewrite ?Ec; split_and!; try done; by intros []. }
  exists r3, hosts3. split_and!; [done|by etrans|done|done|].
  intros Hact. apply HL3. apply (Forall_same _ hosts); [by intros ?? ?%same_activates; tauto|done..].
Qed.
End barrier.
