(* ===== verification/ProcessReplay.v ===== *)
(** * ProcessReplay: each node of a tick runs once, in order
    ([crates/reiny/src/component/process/step_replay.rs],
    [component/step/session.rs], [process/step_owner/executor.rs])

    The host reserves every invocation before it schedules user code; an invalid
    one ends the session.  [admissible] is what a host may accept after the calls
    before it, and [owner_calls] what the owner's executor sends to a host for
    one tick.  The guard accepts exactly the admissible calls, and the calls that
    the owner's executor makes for a sequence of ticks are admissible. *)

From Stdlib Require Import ZArith Lia.
From S2P Require Import Prelude Text Btree Core Bindings Step HostProtocol Connection ProcessWire.

Record ReplayGuard : Type := mkGuard {
  rg_session : StepSessionKey;
  rg_epoch : Z;
  rg_order : list str;
  rg_assigned : list str;
  rg_cursor : nat;
  rg_active_run : option Z;
  (** next index, committed time and last run of each assigned node *)
  rg_progress : btree str (Z * Z * option Z);
}.

(** [ReplayGuard::new] *)
Definition guard_start (bound : BoundSteps) (schemas : btree str StepSchema) :
  result ReplayGuard ProcessError :=
  let? initial := map_err (λ _, invalid) (wire_duration (bd_initial_time bound)) in
  let assigned := filter (λ id, bt_contains id schemas = true) (bd_order bound) in
  if bool_decide (assigned = []) then Err invalid else
  Ok (mkGuard (bd_session bound) (bd_epoch bound) (bd_order bound) assigned 0 None
        ((λ id, (id, (0, initial, None))%Z) <$> schemas.*1)).

(** [ReplayGuard::reserve]: an [Err] leaves the guard as it is *)
Definition reserve (self : ReplayGuard) (invocation : InvokeStep) :
  result (StepTick * ReplayGuard) ProcessError :=
  let call := iv_call invocation in
  let tick := iv_tick invocation in
  let? _ := map_err (λ _, invalid) (wire_tick_validate tick) in
  let? (index, time, sequence) := ok_or (bt_get (ck_instance call) (rg_progress self)) invalid in
  let? start := map_err (λ _, invalid) (wire_duration (wt_start tick)) in
  if negb (bool_decide (ck_session call = rg_session self))
     || (ck_run_sequence call =? u64_max)%Z
     || negb (ck_call_epoch call =? rg_epoch self)%Z
     || negb (wt_epoch tick =? rg_epoch self)%Z
     || negb (ck_tick_index call =? index)%Z
     || negb (wt_index tick =? index)%Z
     || negb (start =? time)%Z
     || match sequence with Some previous => (ck_run_sequence call <=? previous)%Z | None => false end
     || negb (bool_decide (rg_order self !! Z.to_nat (ck_node_ordinal call) = Some (ck_instance call)))
     || negb (bool_decide (rg_assigned self !! rg_cursor self = Some (ck_instance call)))
     || (negb (rg_cursor self =? 0)
         && negb (bool_decide (rg_active_run self = Some (ck_run_sequence call))))
  then Err invalid else
  let? dt := map_err (λ _, invalid) (wire_duration (wt_dt tick)) in
  let? end_ := map_err (λ _, invalid) (wire_duration (wt_end tick)) in
  let reserved := mkStepTick (mkStepId (rg_epoch self) (ck_tick_index call)) time dt end_ in
  let? next := ok_or (checked_succ index) invalid in
  Ok (reserved,
      mkGuard (rg_session self) (rg_epoch self) (rg_order self) (rg_assigned self)
        ((rg_cursor self + 1) mod length (rg_assigned self)) (Some (ck_run_sequence call))
        (bt_insert (ck_instance call) (next, end_, Some (ck_run_sequence call)) (rg_progress self)).2).

(** The reservations of a session, in order. *)
Definition reserve_all (self : ReplayGuard) (invocations : list InvokeStep) :
  result ReplayGuard ProcessError :=
  for_fold (λ g i, let? (_, g) := reserve g i in Ok g) self invocations.

(** ** What the owner sends ([step/session.rs], [step_owner/executor.rs]) *)

(** The call of [Executor::invoke] for one node of a run *)
Definition invocation_for (key : StepSessionKey) (run : Z) (tick : StepTick) (ordinal : nat)
    (instance : str) (inputs : btree str WireValue) (budget : Z) : InvokeStep :=
  mkInvoke
    (mkCallKey key (id_epoch (tick_id tick)) run (id_index (tick_id tick)) (Z.of_nat ordinal) instance)
    (wire_tick_of tick) inputs (wire_from budget).

(** The calls of one run that reach the host with nodes [assigned]: [Adapter]
    numbers the nodes in scheduler order, and placement selects the host. *)
Definition owner_calls (key : StepSessionKey) (order : list str) (schemas : btree str StepSchema)
    (inputs : nat → str → btree str WireValue) (budget : nat → Z) (run : Z) (tick : StepTick) :
  list InvokeStep :=
  omap (λ '(ordinal, instance),
          if bt_contains instance schemas
          then Some (invocation_for key run tick ordinal instance (inputs ordinal instance) (budget ordinal))
          else None)
    (imap (λ ordinal instance, (ordinal, instance)) order).

(** ** What a host may accept *)

Definition instance_of (i : InvokeStep) : str := ck_instance (iv_call i).
Definition run_of (i : InvokeStep) : Z := ck_run_sequence (iv_call i).

(** The calls of one instance. *)
Definition calls_of (instance : str) (l : list InvokeStep) : list InvokeStep :=
  filter (λ i, instance_of i = instance) l.

Section admissible.
Context (bound : BoundSteps) (assigned : list str) (initial : Z).

(** Where the last call of an instance left its time. *)
Definition time_of (instance : str) (before : list InvokeStep) (time : Z) : Prop :=
  match last (calls_of instance before) with
  | None => time = initial
  | Some i => normalized (wt_end (iv_tick i)) time
  end.

Record admissible (before : list InvokeStep) (i : InvokeStep) : Prop := {
  am_tick : wire_tick_validate (iv_tick i) = Ok tt;
  am_session : ck_session (iv_call i) = bd_session bound;
  am_epoch : ck_call_epoch (iv_call i) = bd_epoch bound ∧ wt_epoch (iv_tick i) = bd_epoch bound;
  am_run : run_of i ≠ u64_max;
  (** it is the turn of this node *)
  am_turn : assigned !! (length before mod length assigned) = Some (instance_of i);
  am_ordinal : bd_order bound !! Z.to_nat (ck_node_ordinal (iv_call i)) = Some (instance_of i);
  (** the next tick of this node, where the last one ended *)
  am_index : ck_tick_index (iv_call i) = Z.of_nat (length (calls_of (instance_of i) before)) ∧
             wt_index (iv_tick i) = Z.of_nat (length (calls_of (instance_of i) before));
  am_start : ∃ time, time_of (instance_of i) before time ∧ normalized (wt_start (iv_tick i)) time;
  (** one run per round, and a later run for every later tick *)
  am_round : length before mod length assigned ≠ 0 → run_of <$> last before = Some (run_of i);
  am_fresh j : last (calls_of (instance_of i) before) = Some j → (run_of j < run_of i)%Z;
}.
End admissible.

Lemma tick_validate_parts t :
  wire_tick_validate t = Ok tt →
  ∃ start dt end_ next, wire_duration (wt_start t) = Ok start ∧ wire_duration (wt_dt t) = Ok dt ∧
    wire_duration (wt_end t) = Ok end_ ∧ checked_succ (wt_index t) = Some next.
Proof.
  unfold wire_tick_validate. destruct (wire_duration (wt_dt t)) as [dt|]; [|done].
  destruct (dt =? 0)%Z; [done|]. destruct (wire_duration (wt_start t)) as [start|]; [|done].
  destruct (wire_duration (wt_end t)) as [end_|]; [|done].
  destruct (negb _); [done|]. destruct (checked_succ _) as [next|]; [|done]. by exists start, dt, end_, next.
Qed.

Lemma calls_of_snoc instance l i :
  calls_of instance (l ++ [i]) =
  if bool_decide (instance_of i = instance) then calls_of instance l ++ [i] else calls_of instance l.
Proof.
  unfold calls_of. rewrite filter_app, filter_cons, filter_nil.
  case_bool_decide; case_decide; try done. by rewrite app_nil_r.
Qed.

Section guard.
Context (bound : BoundSteps) (assigned : list str) (initial : Z).
Abbreviation admissible := (admissible bound assigned initial).
Abbreviation time_of := (time_of initial).

(** The guard after it has accepted [before]. *)
Record tracks (before : list InvokeStep) (g : ReplayGuard) : Prop := {
  tk_session : rg_session g = bd_session bound;
  tk_epoch : rg_epoch g = bd_epoch bound;
  tk_order : rg_order g = bd_order bound;
  tk_assigned : rg_assigned g = assigned;
  tk_cursor : rg_cursor g = length before mod length assigned;
  tk_active : rg_active_run g = run_of <$> last before;
  tk_ok : bt_ok (rg_progress g);
  tk_progress instance : instance ∈ assigned →
    ∃ time, bt_get instance (rg_progress g) =
      Some (Z.of_nat (length (calls_of instance before)), time, run_of <$> last (calls_of instance before)) ∧
      time_of instance before time;
}.

Lemma time_of_unique instance before t1 t2 :
  time_of instance before t1 → time_of instance before t2 → t1 = t2.
Proof.
  unfold ProcessReplay.time_of. destruct (last _); [|congruence]. by intros [_ ->] [_ ->].
Qed.

Lemma normalized_unique d v w : normalized d v → normalized d w → v = w.
Proof. by intros [_ ->] [_ ->]. Qed.

(** The tick that a reservation returns. *)
Definition decodes (i : InvokeStep) (t : StepTick) : Prop :=
  tick_id t = mkStepId (wt_epoch (iv_tick i)) (wt_index (iv_tick i)) ∧
  normalized (wt_start (iv_tick i)) (tick_start t) ∧ normalized (wt_dt (iv_tick i)) (tick_dt t) ∧
  normalized (wt_end (iv_tick i)) (tick_end t).

Lemma tracks_next before g i time end_ next :
  tracks before g → admissible before i → time_of (instance_of i) before time →
  wire_duration (wt_end (iv_tick i)) = Ok end_ → checked_succ (wt_index (iv_tick i)) = Some next →
  tracks (before ++ [i])
    (mkGuard (rg_session g) (rg_epoch g) (rg_order g) (rg_assigned g)
       ((rg_cursor g + 1) mod length (rg_assigned g)) (Some (run_of i))
       (bt_insert (instance_of i) (next, end_, Some (run_of i)) (rg_progress g)).2).
Proof.
  intros [H1 H2 H3 H4 H5 H6 H7 H8] Ha Ht He Hnext. destruct Ha as [_ _ _ _ Hturn _ [_ Hidx] _ _ _].
  assert (Hne : length assigned ≠ 0).
  { intros Hz. apply nil_length_inv in Hz as ->. by rewrite lookup_nil in Hturn. }
  split; cbn [rg_session rg_epoch rg_order rg_assigned rg_cursor rg_active_run rg_progress]; try done.
  - rewrite H4, H5, length_app. cbn [length]. by rewrite Nat.Div0.add_mod_idemp_l.
  - by rewrite last_snoc.
  - by apply bt_insert_ok.
  - intros inst Hin. destruct (decide (instance_of i = inst)) as [<-|Hd].
    + exists end_. rewrite bt_get_insert_eq by done. unfold ProcessReplay.time_of.
      rewrite calls_of_snoc, bool_decide_eq_true_2 by done. rewrite last_snoc, length_app. cbn.
      split; [|by apply wire_duration_Ok]. repeat f_equal. rewrite Hidx in Hnext.
      unfold checked_succ, checked_add in Hnext. destruct (_ <? _)%Z; simplify_eq. lia.
    + destruct (H8 inst Hin) as (t&Hg&Htime). exists t. rewrite bt_get_insert_ne by done.
      unfold ProcessReplay.time_of in *. by rewrite calls_of_snoc, bool_decide_eq_false_2 by done.
Qed.

(** One reservation: accepted exactly when admissible. *)
Lemma reserve_exact before g i :
  tracks before g →
  match reserve g i with
  | Ok (t, g') => admissible before i ∧ tracks (before ++ [i]) g' ∧ decodes i t
  | Err _ => ¬ admissible before i
  end.
Proof.
  intros Htr. pose proof Htr as [H1 H2 H3 H4 H5 H6 H7 H8]. unfold reserve.
  destruct (wire_tick_validate (iv_tick i)) as [[]|] eqn:Ev; cbn [map_err]; [|by intros [? _ _ _ _ _ _ _ _ _]; congruence].
  destruct (tick_validate_parts _ Ev) as (start&dt&end_&next&Es&Ed&Ee&En). rewrite Es, Ed, Ee. cbn [map_err].
  destruct (decide (instance_of i ∈ assigned)) as [Hin|Hnin].
  2: { assert (Hno : ¬ admissible before i).
       { intros [_ _ _ _ Hturn _ _ _ _ _]. by apply list_elem_of_lookup_2 in Hturn. }
       destruct (bt_get _ _) as [[[ix tm] sq]|]; cbn [ok_or]; [|done]. rewrite H4.
       rewrite (bool_decide_eq_false_2 (assigned !! _ = Some _))
         by (intros Hx%list_elem_of_lookup_2; done). cbn [negb]. rewrite !orb_true_r. cbn [orb]. done. }
  destruct (H8 _ Hin) as (time&Hg&Ht). unfold instance_of in Hg. rewrite Hg. cbn [ok_or].
  match goal with |- context [if ?b then _ else _] => destruct b eqn:Eb end.
  - intros Ha. revert Eb. apply not_true_iff_false. rewrite !orb_false_iff, H1, H2, H3, H4, H5, H6.
    destruct Ha as [_ Hse [He1 He2] Hrun Hturn Hord [Hi1 Hi2] (time'&Ht'&Hst) Hround Hfresh].
    pose proof (time_of_unique _ _ _ _ Ht Ht') as <-. apply wire_duration_Ok in Hst.
    rewrite Es in Hst. injection Hst as <-. unfold instance_of, run_of in *.
    rewrite Hse, He1, He2, Hi1, Hi2, Hord, Hturn, !Z.eqb_refl, !bool_decide_eq_true_2 by done. cbn.
    split_and!; try done; [by apply Z.eqb_neq| |].
    + destruct (last (calls_of _ before)) as [j|] eqn:Ej; [|done]. cbn. apply Z.leb_gt. by apply Hfresh.
    + destruct (_ =? 0)%nat eqn:Ez; [done|]. apply Nat.eqb_neq in Ez. rewrite Hround by done.
      by rewrite bool_decide_eq_true_2.
  - rewrite !orb_false_iff, H1, H2, H3, H4, H5, H6 in Eb.
    destruct Eb as [[[[[[[[[[B1 B2] B3] B4] B5] B6] B7] B8] B9] B10] B11].
    breflect_in B1. breflect_in B2. breflect_in B3. breflect_in B4. breflect_in B5. breflect_in B6.
    breflect_in B7. breflect_in B9. breflect_in B10.
    assert (Ha : admissible before i).
    { split; [done|done|by split|done|done|done|by split| | |].
      - exists time. split; [done|]. apply wire_duration_Ok. by rewrite Es, B7.
      - intros Hz. apply andb_false_iff in B11 as [Hc|Hc]; breflect_in Hc; [by rewrite Hc in Hz|done].
      - intros j Hj. unfold instance_of in Hj. rewrite Hj in B8. cbn in B8. by apply Z.leb_gt in B8. }
    rewrite <- B6, En. cbn [ok_or]. split_and!; [done|by eapply tracks_next|].
    unfold decodes. cbn. rewrite B4, B5, B6. rewrite <- B7, <- !wire_duration_Ok. by rewrite H2.
Qed.

(** A session accepts exactly the admissible sequences of calls. *)
Lemma reserve_all_exact g invocations :
  tracks [] g →
  is_ok (reserve_all g invocations) = true ↔ each_after admissible [] invocations.
Proof.
  intros Hg. apply (for_fold_is_ok _ tracks); [|done]. intros before s x Htr.
  pose proof (reserve_exact before s x Htr) as He.
  by destruct (reserve s x) as [[t s']|]; [destruct He as (?&?&?)|].
Qed.
End guard.

(** A fresh guard tracks the empty history. *)
Lemma guard_start_tracks bound schemas g :
  bt_ok schemas → guard_start bound schemas = Ok g →
  ∃ initial, wire_duration (bd_initial_time bound) = Ok initial ∧
    tracks bound (rg_assigned g) initial [] g ∧
    rg_assigned g = filter (λ id, bt_contains id schemas = true) (bd_order bound) ∧ rg_assigned g ≠ [].
Proof.
  intros Hok. unfold guard_start. destruct (wire_duration _) as [initial|]; [cbn [map_err]|done].
  case_bool_decide as Hne; [done|]. intros [= <-]. exists initial. split; [done|].
  assert (Hmap : (λ id, (id, (0, initial, None))%Z) <$> schemas.*1 =
    prod_map id (λ _ : StepSchema, (0, initial, None : option Z)%Z) <$> schemas).
  { rewrite <- list_fmap_compose. by apply list_fmap_ext; intros ? []. }
  split_and!; [|done|done]. split; cbn [rg_session rg_epoch rg_order rg_assigned rg_cursor rg_active_run rg_progress]; try done.
  - cbn [length]. by rewrite Nat.Div0.mod_0_l.
  - rewrite Hmap. by apply bt_ok_fmap.
  - intros inst [Hin _]%list_elem_of_filter. rewrite Hmap, bt_get_fmap. unfold bt_contains in Hin.
    destruct (bt_get inst schemas); [|done]. cbn. by exists initial.
Qed.

(** ** The owner's calls are admissible *)

Lemma each_after_split {A} (good : list A → A → Prop) before l :
  each_after good before l ↔ ∀ pre x post, l = pre ++ x :: post → good (before ++ pre) x.
Proof.
  revert before. induction l as [|y l IH]; intros before; cbn.
  - split; [|done]. by intros _ [] ? ? ?.
  - rewrite IH. split.
    + intros [Hy Hl] [|z pre] x post [= -> ->]; [by rewrite app_nil_r|].
      specialize (Hl pre x post eq_refl). by rewrite <- app_assoc in Hl.
    + intros Hall. split.
      * specialize (Hall [] y l eq_refl). by rewrite app_nil_r in Hall.
      * intros pre x post ->. rewrite <- app_assoc. by apply (Hall (y :: pre) x post).
Qed.

Lemma each_after_app {A} (good : list A → A → Prop) before l k :
  each_after good before (l ++ k) ↔ each_after good before l ∧ each_after good (before ++ l) k.
Proof.
  revert before. induction l as [|y l IH]; intros before; cbn; [by rewrite app_nil_r; tauto|].
  rewrite IH, <- app_assoc. cbn. tauto.
Qed.

Lemma calls_of_app instance a b : calls_of instance (a ++ b) = calls_of instance a ++ calls_of instance b.
Proof. apply filter_app. Qed.

Lemma calls_of_none instance l : instance ∉ instance_of <$> l → calls_of instance l = [].
Proof.
  intros Hn. unfold calls_of. induction l as [|i l IH]; [done|]. rewrite filter_cons_False; [|set_solver].
  apply IH. set_solver.
Qed.

Lemma calls_of_one instance l :
  NoDup (instance_of <$> l) → instance ∈ instance_of <$> l → ∃ i, calls_of instance l = [i] ∧ i ∈ l.
Proof.
  intros Hnd (i&->&Hin)%list_elem_of_fmap. exists i. split; [|done].
  apply list_elem_of_split in Hin as (l1&l2&->). rewrite fmap_app in Hnd. cbn in Hnd.
  apply NoDup_app in Hnd as (_&Hd&Hnd). apply NoDup_cons in Hnd as [Hni _].
  rewrite calls_of_app. unfold calls_of at 2. rewrite filter_cons_True by done. fold (calls_of (instance_of i) l2).
  rewrite !calls_of_none; [done..|]. intros Hx. apply (Hd _ Hx). by left.
Qed.

Section owner.
Context (bound : BoundSteps) (schemas : btree str StepSchema) (initial : Z).
Context (inputs : Z → nat → str → btree str WireValue) (budget : Z → nat → Z).
Let assigned : list str := filter (λ id, bt_contains id schemas = true) (bd_order bound).
Abbreviation calls run t :=
  (owner_calls (bd_session bound) (bd_order bound) schemas (inputs run) (budget run) run t).
Abbreviation admissible := (admissible bound assigned initial).

(** Consecutive ticks from index [i] and [time], with runs after [last]. *)
Fixpoint clocked (i : nat) (time : Z) (last : option Z) (runs : list (Z * StepTick)) : Prop :=
  match runs with
  | [] => True
  | (run, t) :: runs =>
      tick_id t = mkStepId (bd_epoch bound) (Z.of_nat i) ∧ (Z.of_nat i < u64_max)%Z ∧
      tick_start t = time ∧ is_duration time ∧ is_duration (tick_dt t) ∧ (0 < tick_dt t)%Z ∧
      tick_end t = (time + tick_dt t)%Z ∧ is_duration (tick_end t) ∧
      (∀ l, last = Some l → (l < run)%Z) ∧ (run < u64_max)%Z ∧
      clocked (S i) (tick_end t) (Some run) runs
  end.

(** All ticks before [i] are complete. *)
Record settled (before : list InvokeStep) (i : nat) (time : Z) (lastrun : option Z) : Prop := {
  se_length : length before = i * length assigned;
  se_count instance : instance ∈ assigned → length (calls_of instance before) = i;
  se_time instance : instance ∈ assigned → time_of initial instance before time;
  se_run instance : instance ∈ assigned → run_of <$> last (calls_of instance before) = lastrun;
}.

(** What the calls of one tick are. *)
Record call_of (run : Z) (t : StepTick) (c : InvokeStep) : Prop := {
  co_session : ck_session (iv_call c) = bd_session bound;
  co_epoch : ck_call_epoch (iv_call c) = id_epoch (tick_id t);
  co_run : run_of c = run;
  co_index : ck_tick_index (iv_call c) = id_index (tick_id t);
  co_ordinal : bd_order bound !! Z.to_nat (ck_node_ordinal (iv_call c)) = Some (instance_of c);
  co_tick : iv_tick c = wire_tick_of t;
}.

Lemma calls_shape run t :
  instance_of <$> calls run t = assigned ∧ ∀ c, c ∈ calls run t → call_of run t c.
Proof.
  unfold owner_calls, assigned. split.
  - assert (Hgen : ∀ l k, instance_of <$> omap (λ '(ordinal, instance),
       if bt_contains instance schemas then Some (invocation_for (bd_session bound) run t ordinal instance
         (inputs run ordinal instance) (budget run ordinal)) else None)
       (imap (λ ordinal instance, (k + ordinal, instance)) l) = filter (λ id, bt_contains id schemas = true) l).
    { induction l as [|x l IH]; intros k; [done|]. rewrite imap_cons. cbn [omap list_omap].
      rewrite filter_cons. specialize (IH (S k)).
      assert (Hs : imap ((λ ordinal instance, (k + ordinal, instance)) ∘ S) l =
                   imap (λ ordinal instance, (S k + ordinal, instance)) l)
        by (apply imap_ext; intros; cbn; f_equal; lia).
      rewrite Hs. destruct (bt_contains x schemas); case_decide; try done.
      rewrite fmap_cons. by f_equal. }
    apply (Hgen _ 0).
  - intros c ([ordinal instance]&Hin&Hc)%list_elem_of_omap.
    apply elem_of_lookup_imap in Hin as (j&y&[= -> ->]&Hj).
    destruct (bt_contains y schemas); [|done]. injection Hc as <-. split; try done. cbn.
    by rewrite Nat2Z.id.
Qed.

(** The calls of the next tick are admissible after complete ticks. *)
Lemma tick_admissible before i time lastrun run t :
  NoDup (bd_order bound) → settled before i time lastrun →
  clocked i time lastrun [(run, t)] → each_after admissible before (calls run t).
Proof.
  intros Hnd [Hlen Hcount Htime Hrun] (Hid&Hi&Hstart&Hd0&Hd1&Hpos&Hend&Hd2&Hlast&Hmax&_).
  destruct (calls_shape run t) as [Hinst Hall]. apply each_after_split. intros pre c post Heq.
  assert (Hndc : NoDup (instance_of <$> calls run t)) by (rewrite Hinst; by apply NoDup_filter).
  rewrite Heq, fmap_app in Hndc. cbn in Hndc. apply NoDup_app in Hndc as (_&Hdis&Hndc).
  assert (Hnin : instance_of c ∉ instance_of <$> pre) by (intros Hx; apply (Hdis _ Hx); by left).
  assert (Hturn : assigned !! length pre = Some (instance_of c)).
  { rewrite <- Hinst, Heq, list_lookup_fmap, list_lookup_middle by done. done. }
  assert (Hc : call_of run t c) by (apply Hall; rewrite Heq; set_solver).
  assert (Hin : instance_of c ∈ assigned) by by eapply list_elem_of_lookup_2.
  assert (Hlt : length pre < length assigned) by by eapply lookup_lt_Some.
  assert (Hmod : length (before ++ pre) mod length assigned = length pre).
  { rewrite length_app, Hlen, Nat.add_comm, Nat.Div0.mod_add. by apply Nat.mod_small. }
  assert (Hcalls : calls_of (instance_of c) (before ++ pre) = calls_of (instance_of c) before).
  { by rewrite calls_of_app, (calls_of_none _ pre Hnin), app_nil_r. }
  destruct Hc as [Hs He Hr Hix Hord Htk].
  destruct (wire_from_normalized time Hd0) as [Hw1 Hn1], (wire_from_normalized _ Hd1) as [Hw2 Hn2],
    (wire_from_normalized _ Hd2) as [Hw3 Hn3].
  split; rewrite ?Hcalls, ?Hmod, ?Htk, ?Hr; try done.
  - apply wire_tick_validate_Ok; cbn; rewrite ?Hstart, ?Hid; try done; cbn; [unfold is_u, u64_max in *; lia|].
    exists time, (tick_dt t), (tick_end t). by split_and!.
  - rewrite He. cbn. by rewrite Hid.
  - lia.
  - rewrite Hix, Hid. cbn. rewrite Hid. cbn. by rewrite (Hcount _ Hin).
  - exists time. cbn. rewrite Hstart. split; [|done]. unfold ProcessReplay.time_of. rewrite Hcalls.
    by apply Htime.
  - intros Hz. destruct pre as [|p pre] using rev_ind; [done|]. rewrite app_assoc, last_snoc. cbn. f_equal.
    apply (co_run run t). apply Hall. rewrite Heq. set_solver.
  - intros j Hj. apply Hlast. rewrite <- (Hrun _ Hin), Hj. done.
Qed.

Lemma tick_settled before i time lastrun run t :
  NoDup (bd_order bound) → settled before i time lastrun → is_duration (tick_end t) →
  settled (before ++ calls run t) (S i) (tick_end t) (Some run).
Proof.
  intros Hnd [Hlen Hcount Htime Hrun] Hd. destruct (calls_shape run t) as [Hinst Hall].
  assert (Hndc : NoDup (instance_of <$> calls run t)) by (rewrite Hinst; by apply NoDup_filter).
  assert (Hone : ∀ inst, inst ∈ assigned → ∃ c, calls_of inst (calls run t) = [c] ∧ c ∈ calls run t).
  { intros inst Hin. apply calls_of_one; [done|]. by rewrite Hinst. }
  split.
  - rewrite length_app, Hlen, <- Hinst, length_fmap. rewrite <- Hinst, length_fmap in Hlen. lia.
  - intros inst Hin. destruct (Hone inst Hin) as (c&Hc&_).
    rewrite calls_of_app, length_app, Hc, (Hcount _ Hin). cbn. lia.
  - intros inst Hin. destruct (Hone inst Hin) as (c&Hc&Hcin). unfold ProcessReplay.time_of.
    rewrite calls_of_app, Hc, last_snoc, (co_tick _ _ _ (Hall c Hcin)). cbn.
    by apply wire_from_normalized.
  - intros inst Hin. destruct (Hone inst Hin) as (c&Hc&Hcin).
    rewrite calls_of_app, Hc, last_snoc. cbn. f_equal. by apply (co_run run t), Hall.
Qed.

(** Any number of consecutive ticks. *)
Lemma owner_admissible runs before i time lastrun :
  NoDup (bd_order bound) → settled before i time lastrun → clocked i time lastrun runs →
  each_after admissible before (runs ≫= λ '(run, t), calls run t).
Proof.
  intros Hnd. revert before i time lastrun.
  induction runs as [|[run t] runs IH]; intros before i time lastrun Hs; cbn [mbind list_bind]; [done|].
  intros Hc. apply each_after_app. split.
  - eapply tick_admissible; [done..|]. cbn. naive_solver.
  - destruct Hc as (_&_&_&_&_&_&_&Hd&_&_&Hc). eapply IH; [|exact Hc]. by eapply tick_settled.
Qed.
End owner.
