(* ===== verification/ProcessProps.v ===== *)
(** * ProcessProps: steps over process hosts

    The composition of the owner, the control channel and the hosts: graphs
    cross the wire, an admitted draft compiles and binds everywhere, no host
    runs before all have committed, and every node of a tick runs once. *)

From Stdlib Require Import ZArith Lia.
From S2P Require Import Prelude Text Btree Core Bindings BindingsSpec Report Step StepPlan.
From S2P Require Import StepScheduler StepSchedulerSpec StepProps HostProtocol Connection ProcessWire.
From S2P Require Import ProcessWire HostMessages ProcessPlan.
From S2P Require Import ProcessAdmit ProcessHost ProcessAdmitSpec ProcessOwner.
From S2P Require Import ProcessReplay.

(** ** Committed ticks of a session *)

Section ticks.
Context {X C : Type} (invoke : X → str → StepTick → StepInputs → Invocation * X).
Context (commit : C → StepReceipt → ClockSnapshot → option StepFailureKind * C).

(** What the executor does when a run begins *)
Context (begin : Z → X → X).

(** The ticks of successive commits, with the run that each belongs to, and the
    executor at the end. *)
Inductive commits_ticks : option Z → StepScheduler → X → C → list (Z * StepTick) → X → Prop :=
  | ticks_nil last s x c : commits_ticks last s x c [] x
  | ticks_cons last s x c r run receipt s' x' c' ts y :
      request_typed r → (∀ l, last = Some l → (l < run)%Z) → (run < u64_max)%Z →
      advance_controlled invoke commit s (begin run x) c r = Some (Returned (Ok receipt), s', x', c') →
      commits_ticks (Some run) s' x' c' ts y →
      commits_ticks last s x c ((run, rc_tick receipt) :: ts) y.

Lemma ticks_clocked bound last s x c ts y :
  executor_typed invoke → sched_ok s → sch_epoch s = bd_epoch bound → commits_ticks last s x c ts y →
  clocked bound (Z.to_nat (sch_next_index s)) (sch_time s) last ts.
Proof.
  intros Hx Hs He Hts. revert Hs He.
  induction Hts as [|last s x c r run receipt s' x' c' ts y Hr Hl Hmax Ha _ IH]; intros Hs He; [done|].
  destruct (sch_fault s) as [f|] eqn:Ef.
  { by rewrite (advance_faulted invoke commit s (begin run x) c r f Ef) in Ha. }
  destruct (advance_spec invoke commit s (begin run x) c r Hs Hr Hx Ef) as (a&?&?&?&Ha'&Hs'&_&He'&Hpost).
  rewrite Ha in Ha'. simplify_eq. cbn in Hpost. destruct Hpost as (Hwf&Hcm&_).
  pose proof (so_index _ Hs) as [Hi0 Hi1]. pose proof (so_time _ Hs) as [Ht0 Ht1].
  destruct Hcm as [Htick _ Hix Htm _ _], Hwf as [Hp Htime Hidx _ _], Hr as [[Hd0 Hd1] _].
  rewrite Htick. cbn [clocked validated vr_tick tick_id tick_start tick_dt tick_end].
  rewrite Z2Nat.id by done. unfold is_duration. split_and!; try done; try lia; [by rewrite <- He| ].
  rewrite Htm, Hix, Z2Nat.inj_add in IH by lia. rewrite Nat.add_comm in IH. apply IH; [done|congruence].
Qed.
End ticks.

(** ** A demonstration: the loop of two nodes, each on a host of its own *)

Definition release : str := bytes_of "0.1.0".
Definition encode_any (g : WireGraph) (d : WireDuration) : result (list Z) ProcessError :=
  Ok [Z.of_nat (length (wg_inputs g)); wd_secs d].
Definition hash_any (bytes : list Z) : str := bytes.

Definition loop_key : StepSessionKey := mkSessionKey [1%Z] 1 2 (bytes_of "graph") [].

(** The loop, with the plant's state taken from its prepared object. *)
Definition loop_plan : ProcessStepPlan :=
  mkProcessPlan (sg_nodes loop_graph)
    (prod_map id (λ s, match s with
                       | External => ProcExternal
                       | SameTick o => ProcSameTick o
                       | PreviousTick o v => ProcPreviousTick o (PreparedOutput o)
                       end) <$> sg_inputs loop_graph).

Definition node_bindings (ns : str) : ModuleBindings :=
  mkBindings MODULE_BINDINGS_VERSION ns ns [] [] [] [].
Definition node_report (ns : str) : ModuleReport :=
  mkModuleReport MODULE_REPORT_VERSION SCHEMA_FINGERPRINT_VERSION ns ns [] [].
Definition node_schema (ns : str) : StepSchema :=
  default (mkStepSchema [] []) (bt_get ns (sg_nodes loop_graph)).

Definition host_identity (host : str) : SessionIdentity :=
  mkSession 1%Z 2%Z host 0%Z (bytes_of "graph") (bytes_of "bundle").

Definition node_peer (host ns : str) (seeds : btree str unit) : ProcessStepPeer :=
  mkPeer (host_identity host) [7%Z]
    (mkPrepare [mkAssignment (mkFactory ns (bytes_of "r1")) (node_bindings ns) None]
       (TransportZenoh (bytes_of "robot") [] [] false) 1000%Z)
    [(ns, mkStepAssignment (export_schema (node_schema ns)) [] seeds)].

(** A prepared host: its ordinary report, and the snapshots it was asked for. *)
Definition node_prepared (host ns : str) (outputs : btree str WireValue) : Prepared :=
  mkPrepared (node_peer host ns ((λ e : str * WireValue, (e.1, tt)) <$> outputs))
    [HostReport (node_report ns);
     HostSteps (StepReport (mkPreparedReport ns (export_schema (node_schema ns)) [] outputs));
     HostPreparedComplete].

Definition loop_prepared : list Prepared :=
  [node_prepared (bytes_of "left") controller [];
   node_prepared (bytes_of "right") physics [(out_port, export_value (value_of 10))]].

Definition loop_peers : list ProcessStepPeer := pd_peer <$> loop_prepared.

Definition loop_reports : reports_t :=
  [(controller, mkPreparedReport controller (export_schema (node_schema controller)) [] []);
   (physics, mkPreparedReport physics (export_schema (node_schema physics)) []
      [(out_port, export_value (value_of 10))])].

Definition gone : ProcessError := mkProcessError Disconnected.
Definition any_reports (reports : reports_t) (g : StepGraph) : result unit Anyhow := Ok tt.

Definition loop_session : option (result OwnerSession Anyhow * Z) :=
  owner_prepare encode_any hash_any any_reports loop_plan loop_key 0%Z loop_reports 0%Z.

Definition loop_owner : OwnerSession :=
  match loop_session with
  | Some (Ok s, _) => s
  | _ => mkOwnerSession (mkBound loop_key 0%Z (wire_from 0) [] (mkWireGraph [] [])) loop_scheduler 0%Z [] 0%Z
  end.

Definition node_host (host ns : str) : BindHost :=
  mkBindHost (host_identity host) [(ns, node_schema ns)] (Ok tt) (Ok tt) AwaitBind.

Definition loop_hosts : list BindHost :=
  [node_host (bytes_of "left") controller; node_host (bytes_of "right") physics].

Lemma loop_plan_typed : draft_typed loop_plan.
Proof.
  split; [by repeat constructor..|].
  intros n schema [[= -> ->]|[[= -> ->]|?%elem_of_nil]%elem_of_cons]%elem_of_cons;
    [by repeat constructor..|done].
Qed.

Lemma zero_duration : is_duration 0%Z.
Proof. vm_compute. split; discriminate. Qed.

Lemma loop_admitted : owner_validate_assignments loop_peers loop_plan loop_key = Some (Ok tt).
Proof. by vm_compute. Qed.

Lemma loop_collected :
  prepare_hosts loop_prepared gone 0%Z =
  Some (Ok ([(controller, 0); (physics, 1)], loop_reports)).
Proof. by vm_compute. Qed.

Lemma loop_prepares : loop_session = Some (Ok loop_owner, 1%Z).
Proof. by vm_compute. Qed.

(** ** Graphs on the wire *)

(** Every graph within the limits of the protocol is exported, and importing
    what was exported gives the same graph with each schema identity in its owned
    representation; it compiles on the host exactly when it compiles on the
    owner, to the same execution order. *)
Theorem graph_crosses_wire (g : StepGraph) :
  graph_fits g →
  export_graph g = Ok (wire_graph g) ∧ import_graph (wire_graph g) = Ok (retype_graph owned g) ∧
  ∀ order, compile (retype_graph owned g) = Some (Ok (mkPlan (retype_graph owned g) order)) ↔
           compile g = Some (Ok (mkPlan g order)).
Proof.
  intros Hg. split_and!; [by apply export_graph_fits|by apply import_export_graph|].
  intros order. rewrite (compile_retype owned owned_same g).
  destruct (compile g) as [[p|]|] eqn:Ec; [|done..].
  assert (pl_graph p = g) as Hp.
  { unfold compile in Ec. destruct (validate_routes _ _) as [[]|]; by simplify_eq. }
  destruct p as [g' o]. cbn in *. subst. split; by intros [= ->].
Qed.

Lemma loop_graph_fits : graph_fits loop_graph.
Proof.
  assert (Hwf : ∀ port, segment_wf port → port_wf (port, number)) by (intros port Hp; by split).
  split; [vm_compute; lia|vm_compute; discriminate| | |by repeat constructor].
  - repeat apply List.Forall_cons; [| |by constructor];
      (split; (split; [vm_compute; lia|]); repeat apply List.Forall_cons;
       try constructor; apply Hwf, segment_true; done).
  - by repeat apply List.Forall_cons.
Qed.

Lemma graph_crosses_wire_witness :
  export_graph loop_graph = Ok (wire_graph loop_graph) ∧
  import_graph (wire_graph loop_graph) = Ok (retype_graph owned loop_graph) ∧
  ∀ order, compile (retype_graph owned loop_graph) =
             Some (Ok (mkPlan (retype_graph owned loop_graph) order)) ↔
           compile loop_graph = Some (Ok (mkPlan loop_graph order)).
Proof. apply graph_crosses_wire. exact loop_graph_fits. Defined.

(** ** Admission *)

(** C19: a draft that the owner accepted, together with the reports collected from
    its hosts, never fails once it resolves: the resolved graph has the draft's
    nodes, is well-typed, compiles, and fits the limits of the protocol; and all
    the snapshots that the hosts reported, those that no input asks for included,
    stay together with the initial values that the graph keeps within the budget
    of retained bytes. *)
Theorem admitted_draft_compiles (plan : ProcessStepPlan) (key : StepSessionKey)
    (prepared : list Prepared) (ended : ProcessError) (budget : Z) (placement : btree str nat)
    (reports : reports_t) (g : StepGraph) :
  draft_typed plan →
  owner_validate_assignments (pd_peer <$> prepared) plan key = Some (Ok tt) →
  prepare_hosts prepared ended budget = Some (Ok (placement, reports)) →
  plan_resolve plan reports = Ok g →
  sg_nodes g = psp_nodes plan ∧ graph_typed g ∧ graph_fits g ∧
  (∃ order, compile g = Some (Ok (mkPlan g order)) ∧ order ≡ₚ (psp_nodes plan).*1) ∧
  (total (reported_bytes reports) + total (sg_inputs g ≫= λ e, initial_bytes e.2) ≤ MAX_RETAINED_BYTES)%Z.
Proof.
  intros Ht Hv Hp Hr. pose proof (owner_validate_Ok _ _ _ (dt_nodes _ Ht) Hv) as Hadm.
  assert (Hrep : reports_good plan reports).
  { eapply prepare_hosts_Ok; [|exact Hp]. intros p id a Hin. eapply (ad_steps _ _ Hadm).
    by apply list_elem_of_fmap_2. }
  apply reports_good_match in Hrep as Hm. destruct Hadm as [Hval Hn _].
  destruct (plan_resolve_Ok _ _ _ Hr) as (Hg&_&Hb). pose proof (resolved_typed _ _ _ Ht Hr) as Hgt.
  destruct (resolved_compiles _ _ _ (dt_inputs _ Ht) Hm Hval Hr) as (order&Hc).
  split_and!; [done|done|by eapply resolved_fits| |done].
  exists order. split; [done|]. rewrite <- Hg. exact (order_keys g _ Hgt Hc).
Qed.

Lemma loop_resolves : plan_resolve loop_plan loop_reports = Ok (pl_graph (sch_plan (os_scheduler loop_owner))).
Proof. by vm_compute. Qed.

Lemma admitted_draft_compiles_witness :
  ∃ order, compile (pl_graph (sch_plan (os_scheduler loop_owner))) =
             Some (Ok (mkPlan (pl_graph (sch_plan (os_scheduler loop_owner))) order)) ∧
           order ≡ₚ (psp_nodes loop_plan).*1.
Proof.
  apply (admitted_draft_compiles loop_plan loop_key loop_prepared gone 0 _ loop_reports _
           loop_plan_typed loop_admitted loop_collected loop_resolves).
Defined.

(** C20: once the owner has admitted its peers and prepared its session, the plan
    it binds is accepted by every host of the session whose schemas are those of
    its step assignments; and if the local groups commit and activate, the
    barrier completes with every host executing exactly that plan. *)
Theorem admitted_session_starts
    (encode : WireGraph → WireDuration → result (list Z) ProcessError) (sha256_hex : list Z → str)
    (validate : reports_t → StepGraph → result unit Anyhow)
    (plan : ProcessStepPlan) (key : StepSessionKey) (time : Z) (prepared : list Prepared)
    (ended : ProcessError) (budget : Z) (placement : btree str nat) (reports : reports_t)
    (epoch epoch' : Z) (s : OwnerSession) (hosts : list BindHost) :
  draft_typed plan → is_duration time →
  owner_validate_assignments (pd_peer <$> prepared) plan key = Some (Ok tt) →
  prepare_hosts prepared ended budget = Some (Ok (placement, reports)) →
  owner_prepare encode sha256_hex validate plan key time reports epoch = Some (Ok s, epoch') →
  Forall (λ h, host_of (pd_peer <$> prepared) key (bh_identity h) (bh_schemas h) ∧
               bh_commit h = Ok tt ∧ bh_activate h = Ok tt ∧ bh_stage h = AwaitBind) hosts →
  ∃ hosts', activate_hosts encode sha256_hex hosts (os_bound s) = Some (Ok tt, hosts') ∧
            Forall (λ h, bh_stage h = Executing (os_bound s)) hosts'.
Proof.
  intros Ht Htime Hv Hp Ho Hhosts. pose proof (owner_validate_Ok _ _ _ (dt_nodes _ Ht) Hv) as Hadm.
  assert (Hrep : reports_good plan reports).
  { eapply prepare_hosts_Ok; [|exact Hp]. intros p id a Hin. eapply (ad_steps _ _ Hadm).
    by apply list_elem_of_fmap_2. }
  destruct (owner_prepare_Ok _ _ _ _ _ _ _ _ _ _ Ho) as [Hs _].
  assert (Hacc : Forall (accepts encode sha256_hex (os_bound s)) hosts).
  { eapply Forall_impl; [exact Hhosts|]. intros h (Hh&_). by eapply host_accepts. }
  destruct (activate_hosts_spec encode sha256_hex (os_bound s) hosts) as (r&hosts'&Ha&_&Hrun&_&Hlive).
  - eapply Forall_impl; [exact Hacc|]. intros h Hh. unfold accepts in Hh. by rewrite Hh.
  - eapply Forall_impl; [exact Hhosts|]. by intros h (_&_&_&?).
  - assert (Hr : r = Ok tt).
    { apply Hlive.
      eapply Forall_impl; [apply Forall_and; split; [exact Hacc|exact Hhosts]|].
      intros h (Hh&_&Hc&Hact&_). by split; [split|]. }
    exists hosts'. rewrite Hr in Ha. split; [done|]. by apply Hrun.
Qed.

Lemma loop_host_of h :
  h ∈ loop_hosts → host_of loop_peers loop_key (bh_identity h) (bh_schemas h).
Proof.
  intros [->|[->|?%elem_of_nil]%elem_of_cons]%elem_of_cons; [| |done]; split; try done;
    intros id s [[= -> ->]|?%elem_of_nil]%elem_of_cons; try done.
  - eexists (pd_peer (node_prepared (bytes_of "left") controller [])), _.
    split_and!; [by left|by left|done].
  - eexists (pd_peer (node_prepared (bytes_of "right") physics [(out_port, export_value (value_of 10))])), _.
    split_and!; [by right; left|by left|done].
Qed.

Lemma admitted_session_starts_witness :
  ∃ hosts', activate_hosts encode_any hash_any loop_hosts (os_bound loop_owner) = Some (Ok tt, hosts') ∧
            Forall (λ h, bh_stage h = Executing (os_bound loop_owner)) hosts'.
Proof.
  apply (admitted_session_starts encode_any hash_any any_reports loop_plan loop_key 0 loop_prepared
           gone 0 _ loop_reports 0 1 loop_owner loop_hosts loop_plan_typed zero_duration loop_admitted
           loop_collected loop_prepares).
  apply Forall_forall. intros h Hh. split; [by apply loop_host_of|].
  by apply elem_of_cons in Hh as [->|[->|?%elem_of_nil]%elem_of_cons].
Defined.

(** C7: the barrier of [activate_hosts] always returns; when it succeeds every
    host executes the same plan; whatever happens, as soon as one host executes,
    every host of the session has accepted exactly this plan and its local group
    has committed. *)
Theorem commit_barrier
    (encode : WireGraph → WireDuration → result (list Z) ProcessError) (sha256_hex : list Z → str)
    (hosts : list BindHost) (bound : BoundSteps) :
  bt_ok (wg_nodes (bd_graph bound)) →
  Forall (λ h, bh_stage h = AwaitBind) hosts →
  ∃ r hosts', activate_hosts encode sha256_hex hosts bound = Some (r, hosts') ∧
    length hosts' = length hosts ∧
    (r = Ok tt → Forall (λ h, bh_stage h = Executing bound) hosts') ∧
    ((∃ h b, h ∈ hosts' ∧ bh_stage h = Executing b) →
     Forall (λ h, bind_check encode sha256_hex (bh_identity h) (bh_schemas h) bound = Some (Ok tt) ∧
                  bh_commit h = Ok tt) hosts').
Proof.
  intros Hok Hst. destruct (activate_hosts_spec encode sha256_hex bound hosts) as (r&hosts'&Ha&Hs&Hrun&Hbar&_).
  - apply Forall_forall. intros h _. by apply bind_check_returns.
  - done.
  - exists r, hosts'. split; [done|]. split; [by apply Forall2_length in Hs|]. split; [exact Hrun|].
    intros (h&b&Hin&Hb). apply Hbar. by exists h; split; [|exists b].
Qed.

(** The right host refuses to commit. *)
Definition refusing_hosts : list BindHost :=
  [node_host (bytes_of "left") controller;
   mkBindHost (host_identity (bytes_of "right")) [(physics, node_schema physics)]
     (Err (host_error_new EReadinessLost None [])) (Ok tt) AwaitBind].

Lemma commit_barrier_witness :
  ∃ r hosts', activate_hosts encode_any hash_any refusing_hosts (os_bound loop_owner) = Some (r, hosts') ∧
    length hosts' = length refusing_hosts ∧
    (r = Ok tt → Forall (λ h, bh_stage h = Executing (os_bound loop_owner)) hosts') ∧
    ((∃ h b, h ∈ hosts' ∧ bh_stage h = Executing b) →
     Forall (λ h, bind_check encode_any hash_any (bh_identity h) (bh_schemas h) (os_bound loop_owner) =
                    Some (Ok tt) ∧ bh_commit h = Ok tt) hosts').
Proof. apply commit_barrier; [vm_compute; by repeat constructor|by repeat constructor]. Defined.

(** ** Invocations *)

(** C15: the replay guard of a host accepts exactly the call sequences in which the
    host's nodes take turns in plan order, each call names this session, epoch and
    the node's ordinal, every node sees its ticks one after the other from the
    initial time without gaps, all nodes of a round belong to one run, and each
    later tick belongs to a later run. *)
Theorem replay_exact (bound : BoundSteps) (schemas : btree str StepSchema) (g : ReplayGuard)
    (initial : Z) (invocations : list InvokeStep) :
  bt_ok schemas → guard_start bound schemas = Ok g → wire_duration (bd_initial_time bound) = Ok initial →
  is_ok (reserve_all g invocations) = true ↔
  each_after (admissible bound (filter (λ id, bt_contains id schemas = true) (bd_order bound)) initial)
    [] invocations.
Proof.
  intros Hok Hg Hi. destruct (guard_start_tracks bound schemas g Hok Hg) as (i&Hi'&Htr&Has&_).
  rewrite Hi in Hi'. injection Hi' as <-. rewrite <- Has. by apply reserve_all_exact.
Qed.

Definition right_guard : ReplayGuard :=
  match guard_start (os_bound loop_owner) [(physics, node_schema physics)] with
  | Ok g => g
  | Err _ => mkGuard loop_key 0 [] [] 0 None []
  end.

(** The second call repeats the first. *)
Definition repeated_call : list InvokeStep :=
  let i := invocation_for (bd_session (os_bound loop_owner)) 0
             (mkStepTick (mkStepId 0 0) 0 1000000 1000000) 1 physics [] 5 in [i; i].

Lemma replay_exact_witness :
  ¬ each_after (admissible (os_bound loop_owner)
                  (filter (λ id, bt_contains id [(physics, node_schema physics)] = true)
                     (bd_order (os_bound loop_owner))) 0)
      [] repeated_call.
Proof.
  rewrite <- (replay_exact (os_bound loop_owner) [(physics, node_schema physics)] right_guard 0
                repeated_call ltac:(by repeat constructor) ltac:(by vm_compute) ltac:(by vm_compute)).
  by vm_compute.
Defined.

(** The scheduler of a bound session. *)
Lemma bound_sched_ok encode sha256_hex plan key time reports epoch s :
  draft_typed plan → is_duration time → bound_from encode sha256_hex plan key time reports epoch s →
  sched_ok (os_scheduler s).
Proof.
  intros Ht Htime [Hr Hc Hsch _ _ _ _ _ _]. pose proof (resolved_typed _ _ _ Ht Hr) as Hgt.
  rewrite Hsch. apply compile_plan_ok in Hc as [Hp _]; [|done].
  split; cbn; [done|by auto with reiny|done|done|done].
Qed.

(** For every sequence of ticks that the owner's scheduler commits, with the run
    numbers increasing, the calls that the owner makes to a bound host are all
    accepted by its replay guard. *)
Lemma owner_calls_reserved {X C : Type}
    (encode : WireGraph → WireDuration → result (list Z) ProcessError) (sha256_hex : list Z → str)
    (plan : ProcessStepPlan) (key : StepSessionKey) (time : Z) (reports : reports_t) (epoch : Z)
    (s : OwnerSession) (schemas : btree str StepSchema) (g : ReplayGuard)
    (invoke : X → str → StepTick → StepInputs → Invocation * X)
    (commit : C → StepReceipt → ClockSnapshot → option StepFailureKind * C) (begin : Z → X → X) (x y : X)
    (c : C) (inputs : Z → nat → str → btree str WireValue) (budget : Z → nat → Z)
    (runs : list (Z * StepTick)) :
  draft_typed plan → is_duration time → bound_from encode sha256_hex plan key time reports epoch s →
  bt_ok schemas → guard_start (os_bound s) schemas = Ok g →
  executor_typed invoke → commits_ticks invoke commit begin None (os_scheduler s) x c runs y →
  is_ok (reserve_all g (runs ≫= λ '(run, t),
    owner_calls (bd_session (os_bound s)) (bd_order (os_bound s)) schemas (inputs run) (budget run) run t)) = true.
Proof.
  intros Ht Htime Hb Hok Hg Hx Hruns.
  destruct (guard_start_tracks _ _ _ Hok Hg) as (initial&Hi&Htr&Has&_).
  apply (reserve_all_exact (os_bound s) (rg_assigned g) initial); [done|]. rewrite Has.
  pose proof Hb as [Hr Hc Hsch _ Hord He Hti _ _].
  pose proof (resolved_typed _ _ _ Ht Hr) as Hgt.
  pose proof (bound_sched_ok _ _ _ _ _ _ _ _ Ht Htime Hb) as Hso.
  assert (Hinit : initial = time).
  { rewrite Hti in Hi. destruct (wire_from_normalized time Htime) as [_ Hn].
    apply wire_duration_Ok in Hn. congruence. }
  subst initial. apply (owner_admissible _ _ _ _ _ _ [] 0 time None).
  - rewrite Hord, (order_keys _ _ Hgt Hc). by apply bt_ok_NoDup, gt_nodes.
  - by split.
  - pose proof (ticks_clocked invoke commit begin (os_bound s) None (os_scheduler s) x c runs y Hx Hso) as Hcl.
    rewrite He in Hcl. rewrite Hsch in Hcl at 1. cbn in Hcl. specialize (Hcl eq_refl Hruns).
    rewrite Hsch in Hcl. exact Hcl.
Qed.

(** ** The end of a session *)

(** The outcome a host reports accounts for every failure: the session's own
    failure comes first and the group's failure otherwise, failures of cleanup
    are all kept in order, a group failure that is not the echo of the abort is
    never dropped, and success is reported only when nothing failed; the messages
    end with the outcome, after the primary failure if there is one. *)
Theorem outcome_accounts (group : LocalOutcome) (error : option ProcessError) (stop : option StopReason)
    (phase : HostPhase) :
  let '(outcome, messages) := finish (Some (GroupJoined group)) error stop phase in
  accounted outcome (session_failure error stop phase) group phase ∧
  (session_failure error stop phase = None ↔ error = None ∨ stop = Some StopRequested) ∧
  messages = (match outcome_primary outcome with Some f => [HostFailureMessage f] | None => [] end) ++
             [HostOutcomeMessage outcome].
Proof.
  cbn [finish]. split_and!.
  - apply convert_accounted. intros f. unfold session_failure.
    destruct error as [e|], stop as [[]|]; try done; by intros [= <-].
  - unfold session_failure. destruct error as [e|], stop as [[]|]; naive_solver.
  - by destruct (convert _ _ _) as [| |[]].
Qed.
