(* ===== verification/StepGate.v ===== *)
(** * StepGate: the ordering point of admission, cancellation, stop and commit
    ([crates/reiny/src/component/step/control.rs], [control/admission.rs],
    [component/deadline.rs], [component/step.rs])

    Every operation that holds the lock is one function on the gate.  Runs are
    shared objects: the gate, the driver and the handles refer to a run by its
    sequence number, and its flags live in one table.  A panic while the lock is
    held leaves the mutex poisoned.  The identity of the clock object, which
    [start] compares, is a version number.  Instants are nanoseconds; wakeups of
    waiters are not represented. *)

From Stdlib Require Import ZArith Lia.
From S2P Require Import Prelude Text Btree Core Bindings Step StepPlan StepScheduler.

(** ** Runs *)

Record StepRunId : Type := mkRunId { ri_epoch : Z; ri_sequence : Z }.

Inductive StepRunError : Type :=
  | CancelledBeforeDispatch (tick : StepId)
  | TimedOutBeforeDispatch (tick : StepId)
  | RunFailed (failure : StepFailure)
  | RunSupervisorGone (tick : StepId).

Definition RunResult : Type := result StepReceipt StepRunError.

Record Run : Type := mkRun {
  run_id : StepRunId;
  run_tick : StepId;
  run_deadline : option Z;
  run_cancelled : bool;
  run_result : option RunResult;
}.

Inductive StepStartError : Type :=
  | NotRunning
  | Busy (in_flight : StepRunId)
  | InvalidRequest (e : StepRequestError)
  | InvalidTimeout
  | RunIdExhausted
  | StartFaulted (failure : StepFailure)
  | StartStopped
  | StartSupervisorGone.

Inductive CancelStatus : Type := CancelRequested | AlreadyRequested | CancelFinished | CancelSupervisorGone.

(** ** Deadlines ([deadline.rs]) *)

(** [Deadline::checked_after], from [now]; [limit] is the largest instant *)
Definition checked_after (limit now : Z) (timeout : option Z) : option (option Z) :=
  match timeout with
  | Some timeout =>
      if (timeout =? 0)%Z then None
      else if (now + timeout <=? limit)%Z then Some (Some (now + timeout)%Z) else None
  | None => Some None
  end.

(** [Deadline::expired] *)
Definition expired (now : Z) (deadline : option Z) : bool :=
  match deadline with Some at_ => (at_ <=? now)%Z | None => false end.

(** ** The gate *)

Record Gate : Type := mkGate {
  g_ready : bool;
  g_stopped : bool;
  g_sequence : Z;
  g_clock : ClockSnapshot;
  g_version : nat;
  g_active : option Z;
  g_poisoned : bool;
  g_lost : bool;
  g_published : ClockSnapshot;
  g_runs : btree Z Run;
}.

Definition with_phase (c : ClockSnapshot) (p : ClockPhase) : ClockSnapshot :=
  mkClock (ck_epoch c) (ck_next_index c) (ck_time c) p.

(** [Gate::new] *)
Definition gate_new (clock : ClockSnapshot) : Gate :=
  let clock := with_phase clock PhaseStarting in
  mkGate false false 0 clock 0 None false false clock [].

(** Field updates *)
Definition set_ready (g : Gate) : Gate :=
  mkGate true (g_stopped g) (g_sequence g) (g_clock g) (g_version g) (g_active g) (g_poisoned g)
    (g_lost g) (g_published g) (g_runs g).
Definition set_stopped (g : Gate) : Gate :=
  mkGate (g_ready g) true (g_sequence g) (g_clock g) (g_version g) (g_active g) (g_poisoned g)
    (g_lost g) (g_published g) (g_runs g).
Definition set_lost (g : Gate) : Gate :=
  mkGate (g_ready g) (g_stopped g) (g_sequence g) (g_clock g) (g_version g) (g_active g) (g_poisoned g)
    true (g_published g) (g_runs g).
Definition set_published (g : Gate) (c : ClockSnapshot) : Gate :=
  mkGate (g_ready g) (g_stopped g) (g_sequence g) (g_clock g) (g_version g) (g_active g) (g_poisoned g)
    (g_lost g) c (g_runs g).
Definition set_runs (g : Gate) (runs : btree Z Run) : Gate :=
  mkGate (g_ready g) (g_stopped g) (g_sequence g) (g_clock g) (g_version g) (g_active g) (g_poisoned g)
    (g_lost g) (g_published g) runs.
Definition poison (g : Gate) : Gate :=
  mkGate (g_ready g) (g_stopped g) (g_sequence g) (g_clock g) (g_version g) (g_active g) true
    (g_lost g) (g_published g) (g_runs g).
(** [mem::replace(&mut state.clock, clock)] and [state.active = active] *)
Definition set_slot (g : Gate) (clock : ClockSnapshot) (active : option Z) : Gate :=
  mkGate (g_ready g) (g_stopped g) (g_sequence g) clock (S (g_version g)) active (g_poisoned g)
    (g_lost g) (g_published g) (g_runs g).
Definition set_sequence (g : Gate) (n : Z) : Gate :=
  mkGate (g_ready g) (g_stopped g) n (g_clock g) (g_version g) (g_active g) (g_poisoned g)
    (g_lost g) (g_published g) (g_runs g).

(** [run.cancelled.swap(true)] and [run.result.set(result)] on the shared run;
    the second does nothing when there is a result *)
Definition cancel_run (run : Run) : Run :=
  mkRun (run_id run) (run_tick run) (run_deadline run) true (run_result run).
Definition resolve_run (r : RunResult) (run : Run) : Run :=
  match run_result run with
  | Some _ => run
  | None => mkRun (run_id run) (run_tick run) (run_deadline run) (run_cancelled run) (Some r)
  end.
Definition update_run (g : Gate) (n : Z) (f : Run → Run) : Gate :=
  match bt_get n (g_runs g) with
  | Some run => set_runs g (bt_insert n (f run) (g_runs g)).2
  | None => g
  end.

(** [Gate::disappear] *)
Definition disappear (g : Gate) : Gate := set_lost g.

(** [Gate::lock]: whether the lock was taken, and the gate after it *)
Definition lock (g : Gate) : option StepFailureKind * Gate :=
  if g_poisoned g then (Some WorkerLost, disappear g)
  else if g_lost g then (Some WorkerLost, g) else (None, g).

(** [Gate::snapshot] *)
Definition snapshot (g : Gate) : ClockSnapshot * Gate :=
  let '(ready, stopped, g) :=
    if g_poisoned g then (false, true, set_lost g) else (g_ready g, g_stopped g, g) in
  let clock := g_clock g in
  (match ck_phase clock with
   | PhaseFaulted _ => clock
   | phase =>
       if stopped || g_lost g then with_phase clock PhaseStopped
       else match ready, phase with
            | true, PhaseStarting => with_phase clock PhaseReady
            | _, _ => clock
            end
   end, g).

(** [Gate::publish]: the watch holds the latest snapshot *)
Definition publish (g : Gate) : Gate :=
  let '(latest, g) := snapshot g in set_published g latest.

(** [Gate::mark_stop] *)
Definition mark_stop (g : Gate) : Gate :=
  match lock g with
  | (None, g) => set_stopped g
  | (Some _, g) => g
  end.

(** [Gate::stop] *)
Definition stop (g : Gate) : Gate := publish (mark_stop g).

(** [Gate::activate] *)
Definition activate (g : Gate) : Gate :=
  publish match lock g with
          | (None, g) => if g_stopped g then g else set_ready g
          | (Some _, g) => g
          end.

(** [Gate::cancel] *)
Definition cancel (g : Gate) (n : Z) : CancelStatus * Gate :=
  match bt_get n (g_runs g) with
  | None => (CancelSupervisorGone, g)
  | Some run =>
      match lock g with
      | (Some _, g) =>
          (match run_result run with Some _ => CancelFinished | None => CancelSupervisorGone end, g)
      | (None, g) =>
          match run_result run with
          | Some _ => (CancelFinished, g)
          | None =>
              (if run_cancelled run then AlreadyRequested else CancelRequested, update_run g n cancel_run)
          end
      end
  end.

(** [Gate::reason] *)
Definition reason (g : Gate) (run : Run) (now : Z) : option StepFailureKind :=
  if g_stopped g then Some HostStopped
  else if run_cancelled run then Some Cancelled
  else if expired now (run_deadline run) then Some TimedOut
  else None.

(** [Gate::interruption] *)
Definition interruption (g : Gate) (n : Z) (now : Z) : option StepFailureKind * Gate :=
  match lock g with
  | (Some kind, g) => (Some kind, g)
  | (None, g) =>
      match bt_get n (g_runs g) with
      | Some run => (reason g run now, g)
      | None => (None, g)
      end
  end.

(** [Gate::finish] *)
Definition gate_finish (g : Gate) (n : Z) (r : RunResult) (clock : ClockSnapshot) : Gate :=
  match lock g with
  | (Some _, g) => g
  | (None, g) => publish (update_run (set_slot g clock None) n (resolve_run r))
  end.

(** [ControlledCommit::commit]: [None] when the bookkeeping was applied *)
Definition controlled_commit (now : Z) (n : Z) (g : Gate) (receipt : StepReceipt)
    (clock : ClockSnapshot) : option StepFailureKind * Gate :=
  match lock g with
  | (Some kind, g) => (Some kind, g)
  | (None, g) =>
      match (match bt_get n (g_runs g) with Some run => reason g run now | None => None end) with
      | Some kind => (Some kind, g)
      | None => (None, publish (update_run (set_slot g clock None) n (resolve_run (Ok receipt))))
      end
  end.

(** ** Admission ([control/admission.rs]) *)

(** What the first critical section of [start] leaves to the second: the clock
    object it saw, the sequence, and the request checked against them. *)
Record StartSample : Type := mkSample {
  sm_clock : ClockSnapshot;
  sm_version : nat;
  sm_sequence : Z;
  sm_next_sequence : Z;
}.

(** The first critical section, and the checks after it *)
Definition start_sample (g : Gate) (request : StepRequest) (plan : Plan) :
  option (result StartSample StepStartError) * Gate :=
  match lock g with
  | (Some _, g) => (Some (Err StartSupervisorGone), g)
  | (None, g) =>
      (match ck_phase (g_clock g) with
       | PhaseFaulted failure => Some (Err (StartFaulted failure))
       | _ =>
           if g_stopped g then Some (Err StartStopped)
           else if negb (g_ready g) then Some (Err NotRunning)
           else match g_active g with
                | Some n =>
                    Some (Err (Busy match bt_get n (g_runs g) with
                                    | Some run => run_id run
                                    | None => mkRunId (ck_epoch (g_clock g)) n
                                    end))
                | None =>
                    match request_validate request plan (g_clock g) with
                    | None => None
                    | Some (Err e) => Some (Err (InvalidRequest e))
                    | Some (Ok _) =>
                        match checked_succ (g_sequence g) with
                        | None => Some (Err RunIdExhausted)
                        | Some next =>
                            Some (Ok (mkSample (g_clock g) (g_version g) (g_sequence g) next))
                        end
                    end
                end
       end, g)
  end.

(** How the second critical section ends. *)
Inductive StartRound : Type :=
  | Accepted (n : Z)
  | Rejected (e : StepStartError)
  | Retry.

(** The second critical section *)
Definition start_admit (limit : Z) (g : Gate) (sample : StartSample) (timeout : option Z) (now : Z) :
  StartRound * Gate :=
  match lock g with
  | (Some _, g) => (Rejected StartSupervisorGone, g)
  | (None, g) =>
      if g_stopped g then (Rejected StartStopped, g) else
      match g_active g with
      | Some n =>
          (Rejected (Busy match bt_get n (g_runs g) with
                          | Some run => run_id run
                          | None => mkRunId (ck_epoch (g_clock g)) n
                          end), g)
      | None =>
          if negb (g_sequence g =? sm_sequence sample)%Z
             || negb (g_version g =? sm_version sample)
          then (Retry, g) else
          match checked_after limit now timeout with
          | None => (Rejected InvalidTimeout, g)
          | Some deadline =>
              let tick := mkStepId (ck_epoch (sm_clock sample)) (ck_next_index (sm_clock sample)) in
              let run := mkRun (mkRunId (ck_epoch (sm_clock sample)) (sm_sequence sample)) tick deadline
                           false None in
              let g := set_slot g (with_phase (sm_clock sample) (PhaseRunning tick))
                         (Some (sm_sequence sample)) in
              let g := set_sequence g (sm_next_sequence sample) in
              (Accepted (sm_sequence sample),
               publish (set_runs g (bt_insert (sm_sequence sample) run (g_runs g)).2))
          end
      end
  end.

(** [Gate::start]: each element of [rounds] is what other threads do to the gate
    between the two critical sections of one iteration of the loop, and the time
    at the second; the [option] is [None] when the list is used up. *)
Fixpoint gate_start (limit : Z) (g : Gate) (request : StepRequest) (timeout : option Z) (plan : Plan)
    (rounds : list ((Gate → Gate) * Z)) : option (result Z StepStartError * Gate) :=
  match rounds with
  | [] => None
  | (others, now) :: rounds =>
      match start_sample g request plan with
      | (None, _) => None
      | (Some (Err e), g) => Some (Err e, g)
      | (Some (Ok sample), g) =>
          match start_admit limit (others g) sample timeout now with
          | (Accepted n, g) => Some (Ok n, g)
          | (Rejected e, g) => Some (Err e, g)
          | (Retry, g) => gate_start limit g request timeout plan rounds
          end
      end
  end.

(** [Gate::start] with its first check, at the time of the call *)
Definition start (limit : Z) (g : Gate) (request : StepRequest) (timeout : option Z) (plan : Plan)
    (called : Z) (rounds : list ((Gate → Gate) * Z)) : option (result Z StepStartError * Gate) :=
  match checked_after limit called timeout with
  | None => Some (Err InvalidTimeout, g)
  | Some _ => gate_start limit g request timeout plan rounds
  end.

(** ** Handles ([step.rs]) *)

(** [StepRun::retained_result] *)
Definition retained_result (g : Gate) (n : Z) : option RunResult :=
  match bt_get n (g_runs g) with
  | Some run =>
      match run_result run with
      | Some r => Some r
      | None => if g_lost g then Some (Err (RunSupervisorGone (run_tick run))) else None
      end
  | None => None
  end.
