(* ===== verification/StepGateSpec.v ===== *)
(** * StepGateSpec: the gate's invariant and what its operations preserve

    One run is in flight at a time, every accepted run but that one has a
    result, results are written once, and nothing commits after stop. *)

From Stdlib Require Import ZArith Lia.
From S2P Require Import Prelude Text Btree Core Bindings Step StepPlan StepScheduler StepGate.

(** ** The invariant *)

Record gate_ok (g : Gate) : Prop := {
  go_sequence : is_u64 (g_sequence g);
  go_runs : bt_ok (g_runs g);
  (** the runs are numbered from zero without gaps *)
  go_numbered n : is_Some (bt_get n (g_runs g)) ↔ (0 ≤ n < g_sequence g)%Z;
  go_ids n run : bt_get n (g_runs g) = Some run → ri_sequence (run_id run) = n;
  (** the slot holds the last run, which has no result, and the clock shows it *)
  go_active n : g_active g = Some n → n = (g_sequence g - 1)%Z ∧ (0 ≤ n)%Z;
  go_open n run : bt_get n (g_runs g) = Some run → run_result run = None ↔ g_active g = Some n;
  go_phase n run : g_active g = Some n → bt_get n (g_runs g) = Some run →
    ck_phase (g_clock g) = PhaseRunning (run_tick run);
  go_idle : g_active g = None → ∀ t, ck_phase (g_clock g) ≠ PhaseRunning t;
}.

(** Samples that [start] may still hold. *)
Definition sample_ok (g : Gate) (s : StartSample) : Prop :=
  is_u64 (sm_sequence s) ∧ checked_succ (sm_sequence s) = Some (sm_next_sequence s) ∧
  sm_version s ≤ g_version g ∧ (sm_version s = g_version g → sm_clock s = g_clock g).

(** ** What never goes back *)

(** A run keeps its identity, its cancellation and its result. *)
Record run_le (a b : Run) : Prop := {
  rl_id : run_id b = run_id a;
  rl_tick : run_tick b = run_tick a;
  rl_deadline : run_deadline b = run_deadline a;
  rl_cancelled : run_cancelled a = true → run_cancelled b = true;
  rl_result r : run_result a = Some r → run_result b = Some r;
}.

Record gate_le (a b : Gate) : Prop := {
  gl_stopped : g_stopped a = true → g_stopped b = true;
  gl_lost : g_lost a = true → g_lost b = true;
  gl_poisoned : g_poisoned a = true → g_poisoned b = true;
  gl_sequence : (g_sequence a ≤ g_sequence b)%Z;
  gl_version : g_version a ≤ g_version b;
  gl_runs n run : bt_get n (g_runs a) = Some run →
    ∃ run', bt_get n (g_runs b) = Some run' ∧ run_le run run';
}.

#[export] Instance run_le_preorder : PreOrder run_le.
Proof.
  split; [by intros ?|]. intros a b c [Ha1 Ha2 Ha3 Ha4 Ha5] [Hb1 Hb2 Hb3 Hb4 Hb5].
  split; [congruence..|by auto|by auto].
Qed.

#[export] Instance gate_le_preorder : PreOrder gate_le.
Proof.
  split; [intros a; split; try done; intros n run; by exists run|].
  intros a b c [Ha1 Ha2 Ha3 Ha4 Ha5 Ha6] [Hb1 Hb2 Hb3 Hb4 Hb5 Hb6]. split; [by auto..|lia|lia|].
  intros n run (run'&Hr%Hb6&Hle)%Ha6. destruct Hr as (run''&?&?). exists run''. split; [done|]. by etrans.
Qed.

(** ** Runs in the table *)

Lemma get_update_run g n f m :
  bt_ok (g_runs g) →
  bt_get m (g_runs (update_run g n f)) =
  if bool_decide (m = n) then f <$> bt_get n (g_runs g) else bt_get m (g_runs g).
Proof.
  intros Hok. unfold update_run. case_bool_decide as E.
  - subst m. destruct (bt_get n (g_runs g)) as [run|] eqn:Er; cbn; [|done]. by rewrite bt_get_insert_eq.
  - destruct (bt_get n (g_runs g)) as [run|]; cbn; [|done]. by rewrite bt_get_insert_ne.
Qed.

Lemma update_run_ok g n f : bt_ok (g_runs g) → bt_ok (g_runs (update_run g n f)).
Proof. intros Hok. unfold update_run. destruct (bt_get n _); [by apply bt_insert_ok|done]. Qed.

Lemma update_run_same g n f :
  g_ready (update_run g n f) = g_ready g ∧ g_stopped (update_run g n f) = g_stopped g ∧
  g_sequence (update_run g n f) = g_sequence g ∧ g_clock (update_run g n f) = g_clock g ∧
  g_version (update_run g n f) = g_version g ∧ g_active (update_run g n f) = g_active g ∧
  g_poisoned (update_run g n f) = g_poisoned g ∧ g_lost (update_run g n f) = g_lost g.
Proof. unfold update_run. by destruct (bt_get n _). Qed.

Lemma cancel_run_le run : run_le run (cancel_run run).
Proof. by split. Qed.

Lemma resolve_run_le r run : run_le run (resolve_run r run).
Proof. unfold resolve_run. destruct (run_result run) eqn:E; [by split|]. split; try done. by rewrite E. Qed.

Lemma update_run_le g n f :
  bt_ok (g_runs g) → (∀ run, run_le run (f run)) → gate_le g (update_run g n f).
Proof.
  intros Hok Hf. destruct (update_run_same g n f) as (H1&H2&H3&H4&H5&H6&H7&H8).
  split; rewrite ?H2, ?H3, ?H5, ?H7, ?H8; try done.
  intros m run Hm. rewrite get_update_run by done. case_bool_decide as E; [subst m|by exists run].
  rewrite Hm. cbn. by exists (f run).
Qed.

(** ** Operations that leave the slot alone *)

(** What other threads may do while a run is in flight: flags and cancellation
    only. *)
Record quiet (a b : Gate) : Prop := {
  qt_le : gate_le a b;
  qt_sequence : g_sequence b = g_sequence a;
  qt_clock : g_clock b = g_clock a;
  qt_version : g_version b = g_version a;
  qt_active : g_active b = g_active a;
  qt_runs_ok : bt_ok (g_runs a) → bt_ok (g_runs b);
  qt_runs n : (bt_get n (g_runs a) = None → bt_get n (g_runs b) = None) ∧
    ∀ run', bt_get n (g_runs b) = Some run' →
      ∃ run, bt_get n (g_runs a) = Some run ∧ run_le run run' ∧ run_result run' = run_result run;
}.

#[export] Instance quiet_preorder : PreOrder quiet.
Proof.
  split.
  - intros a. split; try done. intros n. split; [done|]. intros run. by exists run.
  - intros a b c [H1 H2 H3 H4 H5 H6 H7] [K1 K2 K3 K4 K5 K6 K7]. split; try congruence; [by etrans|by auto|].
    intros n. destruct (H7 n) as [Hn Hs], (K7 n) as [Kn Ks]. split; [by auto|].
    intros r Hr. destruct (Ks r Hr) as (r1&Hr1&Hle1&Heq1). destruct (Hs r1 Hr1) as (r0&?&?&?).
    exists r0. split; [done|]. split; [by etrans|congruence].
Qed.

(** Only flags changed. *)
Lemma quiet_flags a b :
  g_runs b = g_runs a → g_sequence b = g_sequence a → g_clock b = g_clock a →
  g_version b = g_version a → g_active b = g_active a →
  (g_stopped a = true → g_stopped b = true) → (g_lost a = true → g_lost b = true) →
  (g_poisoned a = true → g_poisoned b = true) → quiet a b.
Proof.
  intros Hr Hs Hc Hv Ha H1 H2 H3. split; try done.
  - split; [done..|lia|lia|]. intros n run Hn. rewrite Hr. by exists run.
  - by rewrite Hr.
  - intros n. rewrite Hr. split; [done|]. intros run Hn. by exists run.
Qed.

Lemma lock_quiet g : quiet g (lock g).2.
Proof.
  unfold lock, disappear. destruct (g_poisoned g) eqn:E; [by apply quiet_flags|].
  by destruct (g_lost g).
Qed.

Lemma lock_free g : (lock g).1 = None ↔ g_poisoned g = false ∧ g_lost g = false.
Proof. unfold lock. destruct (g_poisoned g), (g_lost g); naive_solver. Qed.

(** A lock that was taken leaves the gate as it is. *)
Lemma lock_None g g' : lock g = (None, g') → g' = g ∧ g_poisoned g = false ∧ g_lost g = false.
Proof. unfold lock. destruct (g_poisoned g), (g_lost g); try done. by intros [= <-]. Qed.

Lemma snapshot_quiet g : quiet g (snapshot g).2.
Proof. unfold snapshot. destruct (g_poisoned g) eqn:E; cbn; [by apply quiet_flags|done]. Qed.

Lemma publish_quiet g : quiet g (publish g).
Proof.
  unfold publish. pose proof (snapshot_quiet g) as Hq. destruct (snapshot g) as [latest g']. cbn in Hq.
  etrans; [exact Hq|]. by apply quiet_flags.
Qed.

Lemma mark_stop_quiet g : quiet g (mark_stop g).
Proof.
  unfold mark_stop. pose proof (lock_quiet g) as Hq. destruct (lock g) as [[k|] g']; cbn in Hq; [done|].
  etrans; [exact Hq|]. by apply quiet_flags.
Qed.

Lemma stop_quiet g : quiet g (stop g).
Proof. unfold stop. etrans; [apply mark_stop_quiet|apply publish_quiet]. Qed.

Lemma activate_quiet g : quiet g (activate g).
Proof.
  unfold activate. pose proof (lock_quiet g) as Hq. etrans; [|apply publish_quiet].
  destruct (lock g) as [[k|] g']; cbn in Hq; [done|]. destruct (g_stopped g'); [done|].
  etrans; [exact Hq|]. by apply quiet_flags.
Qed.

Lemma interruption_quiet g n now : quiet g (interruption g n now).2.
Proof.
  unfold interruption. pose proof (lock_quiet g) as Hq. destruct (lock g) as [[k|] g']; cbn in Hq; [done|].
  by destruct (bt_get n _).
Qed.

Lemma sample_quiet g request plan : quiet g (start_sample g request plan).2.
Proof.
  unfold start_sample. pose proof (lock_quiet g) as Hq. by destruct (lock g) as [[k|] g'].
Qed.

Lemma disappear_quiet g : quiet g (disappear g).
Proof. by apply quiet_flags. Qed.

Lemma poison_quiet g : quiet g (poison g).
Proof. by apply quiet_flags. Qed.

Lemma cancel_quiet g n : bt_ok (g_runs g) → quiet g (cancel g n).2.
Proof.
  intros Hok. unfold cancel. destruct (bt_get n (g_runs g)) as [run|] eqn:Er; [|done].
  pose proof (lock_quiet g) as Hq. destruct (lock g) as [[k|] g'] eqn:El; cbn in Hq; [done|].
  apply lock_None in El as (->&_&_). destruct (run_result run) eqn:Eres; [done|]. cbn.
  destruct (update_run_same g n cancel_run) as (H1&H2&H3&H4&H5&H6&H7&H8).
  split; try done.
  - apply update_run_le; [done|apply cancel_run_le].
  - intros _. by apply update_run_ok.
  - intros m. rewrite get_update_run by done. case_bool_decide as E; [subst m; rewrite Er; cbn|].
    + split; [done|]. intros run' [= <-]. exists run. split; [done|]. split; [apply cancel_run_le|done].
    + split; [done|]. intros run' Hm. by exists run'.
Qed.

(** ** The invariant is kept *)

Lemma quiet_ok a b : gate_ok a → quiet a b → gate_ok b.
Proof.
  intros [H1 H2 H3 H4 H5 H6 H7 H8] [Hle Hs Hc Hv Ha Hr Hruns].
  assert (Hsome : ∀ n, is_Some (bt_get n (g_runs b)) ↔ is_Some (bt_get n (g_runs a))).
  { intros n. destruct (Hruns n) as [Hn Hsm]. split.
    - intros [r Hr']. destruct (Hsm r Hr') as (r0&?&_). by exists r0.
    - intros [r Hr']. destruct (bt_get n (g_runs b)) eqn:E; [done|].
      destruct (gl_runs _ _ Hle n r Hr') as (?&?&_). congruence. }
  split; rewrite ?Hs, ?Ha, ?Hc; try done; [by auto|..].
  - intros n. by rewrite Hsome.
  - intros n run Hn. destruct (proj2 (Hruns n) run Hn) as (r0&Hr0&Hl&_). rewrite (rl_id _ _ Hl). by apply H4.
  - intros n run Hn. destruct (proj2 (Hruns n) run Hn) as (r0&Hr0&_&->). by apply H6.
  - intros n run Hact Hn. destruct (proj2 (Hruns n) run Hn) as (r0&Hr0&Hl&_).
    rewrite (rl_tick _ _ Hl). by apply (H7 n).
Qed.

Lemma gate_new_ok clock : gate_ok (gate_new clock).
Proof.
  split; cbn; try done. intros n. split; [by intros []|lia].
Qed.

(** The slot is released with a result. *)
Lemma release_ok g n r clock :
  gate_ok g → g_active g = Some n → (∀ t, ck_phase clock ≠ PhaseRunning t) →
  gate_ok (update_run (set_slot g clock None) n (resolve_run r)) ∧
  gate_le g (update_run (set_slot g clock None) n (resolve_run r)).
Proof.
  intros Hok Hact Hph. pose proof Hok as [H1 H2 H3 H4 H5 H6 H7 H8].
  set (g1 := set_slot g clock None). assert (Hok1 : bt_ok (g_runs g1)) by done.
  destruct (update_run_same g1 n (resolve_run r)) as (K1&K2&K3&K4&K5&K6&K7&K8).
  destruct (H5 n Hact) as [Hn Hn0].
  assert (Hrun : ∃ run, bt_get n (g_runs g) = Some run ∧ run_result run = None).
  { destruct (proj2 (H3 n)) as [run Hrun]; [lia|]. exists run. split; [done|]. by apply (H6 n run Hrun). }
  destruct Hrun as (run&Hrun&Hres). split.
  - split; rewrite ?K3, ?K4, ?K6; cbn; try done.
    + by apply update_run_ok.
    + intros m. rewrite get_update_run by done. cbn. case_bool_decide as E; [subst m|by apply H3].
      rewrite Hrun. cbn. rewrite <- H3, Hrun. split; by eexists.
    + intros m x. rewrite get_update_run by done. cbn. case_bool_decide as E; [subst m|by apply H4].
      rewrite Hrun. cbn. intros [= <-]. rewrite (rl_id _ _ (resolve_run_le r run)). by apply H4.
    + intros m x. rewrite get_update_run by done. cbn. case_bool_decide as E.
      * subst m. rewrite Hrun. cbn. intros [= <-]. unfold resolve_run. rewrite Hres. done.
      * intros Hm. rewrite (H6 m x Hm), Hact. split; [by intros [= ->]|done].
  - etrans; [|apply update_run_le; [done|apply resolve_run_le]]. split; cbn; try done; [lia|].
    intros m x Hx. by exists x.
Qed.

Lemma bt_get_fresh (g : Gate) : gate_ok g → bt_get (g_sequence g) (g_runs g) = None.
Proof.
  intros [_ _ H3 _ _ _ _ _]. destruct (bt_get (g_sequence g) (g_runs g)) eqn:E; [|done].
  assert (Hs : is_Some (bt_get (g_sequence g) (g_runs g))) by by eexists. apply H3 in Hs. lia.
Qed.

(** What [start_admit] does: it takes the free slot with a new run, or nothing. *)
Lemma admit_spec limit g s timeout now a g' :
  gate_ok g → sample_ok g s → start_admit limit g s timeout now = (a, g') →
  match a with
  | Accepted n =>
      gate_ok g' ∧ gate_le g g' ∧ g_version g < g_version g' ∧
      n = g_sequence g ∧ g_active g = None ∧ g_active g' = Some n ∧
      g_stopped g = false ∧ g_lost g = false ∧ g_poisoned g = false ∧ sm_clock s = g_clock g ∧
      ∃ run, bt_get n (g_runs g') = Some run ∧ run_result run = None ∧ run_cancelled run = false ∧
        run_tick run = mkStepId (ck_epoch (g_clock g)) (ck_next_index (g_clock g)) ∧
        g_clock g' = with_phase (g_clock g) (PhaseRunning (run_tick run))
  | Rejected _ => quiet g g'
  | Retry => g' = g ∧ (g_sequence g ≠ sm_sequence s ∨ g_version g ≠ sm_version s)
  end.
Proof.
  intros Hok (Hu&Hnext&Hver&Hclk). unfold start_admit. pose proof (lock_quiet g) as Hq.
  destruct (lock g) as [[k|] g1] eqn:El; cbn in Hq; [by intros [= <- <-]|].
  apply lock_None in El as (->&Hp&Hl).
  destruct (g_stopped g) eqn:Est; [by intros [= <- <-]|].
  destruct (g_active g) as [m|] eqn:Eact; [by intros [= <- <-]|].
  destruct (_ || _) eqn:Eq.
  { intros [= <- <-]. split; [done|]. breflect_in Eq. tauto. }
  apply orb_false_iff in Eq as [Eq1 Eq2]. breflect_in Eq1. breflect_in Eq2.
  destruct (checked_after limit now timeout) as [deadline|]; [|by intros [= <- <-]]. intros [= <- <-].
  specialize (Hclk (eq_sym Eq2)). rewrite <- Eq1 in *. rewrite Hclk.
  pose proof Hok as [H1 H2 H3 H4 H5 H6 H7 H8]. pose proof (bt_get_fresh g Hok) as Hfresh.
  unfold checked_succ, checked_add in Hnext. destruct (_ <? _)%Z eqn:Elt; [|done].
  injection Hnext as <-. breflect_in Elt.
  match goal with |- gate_ok (publish ?x) ∧ _ => set (g2 := x) end.
  pose proof (publish_quiet g2) as Hpub.
  match goal with g2 := set_runs _ (bt_insert _ ?r _).2 |- _ => set (run := r) in * end.
  assert (Hget : ∀ m, bt_get m (g_runs g2) = if bool_decide (m = g_sequence g) then Some run else bt_get m (g_runs g)).
  { intros m. subst g2. cbn. case_bool_decide as E; [subst m; by rewrite bt_get_insert_eq|].
    by rewrite bt_get_insert_ne. }
  assert (Hok2 : gate_ok g2).
  { split; cbn.
    - unfold is_u in *. lia.
    - by apply bt_insert_ok.
    - intros m. change (is_Some (bt_get m (g_runs g2)) ↔ (0 ≤ m < g_sequence g + 1)%Z). rewrite Hget.
      case_bool_decide as E; [subst m; split; [unfold is_u in *; lia|by eexists]|]. rewrite H3. lia.
    - intros m x. change (bt_get m (g_runs g2) = Some x → ri_sequence (run_id x) = m). rewrite Hget.
      case_bool_decide as E; [by intros [= <-]; subst m|apply H4].
    - intros m [= <-]. unfold is_u in *. lia.
    - intros m x. change (bt_get m (g_runs g2) = Some x → run_result x = None ↔ Some (g_sequence g) = Some m).
      rewrite Hget. case_bool_decide as E; [intros [= <-]; by subst m|]. intros Hm. rewrite (H6 m x Hm), Eact.
      split; [done|]. intros [= Heq]. congruence.
    - intros m x [= <-]. change (bt_get (g_sequence g) (g_runs g2) = Some x →
        PhaseRunning (mkStepId (ck_epoch (g_clock g)) (ck_next_index (g_clock g))) = PhaseRunning (run_tick x)).
      rewrite Hget, bool_decide_eq_true_2 by done. by intros [= <-].
    - done. }
  assert (Hle2 : gate_le g g2).
  { split; cbn; try done; [lia|lia|]. intros m x Hm. change (∃ run', bt_get m (g_runs g2) = Some run' ∧ run_le x run').
    rewrite Hget. case_bool_decide as E; [subst m; congruence|]. by exists x. }
  split_and!; try done.
  - by eapply quiet_ok.
  - etrans; [exact Hle2|apply Hpub].
  - rewrite (qt_version _ _ Hpub). cbn. lia.
  - by rewrite (qt_active _ _ Hpub).
  - destruct (gl_runs _ _ (qt_le _ _ Hpub) (g_sequence g) run) as (run'&Hr'&_).
    { rewrite Hget. by rewrite bool_decide_eq_true_2. }
    destruct (proj2 (qt_runs _ _ Hpub (g_sequence g)) run' Hr') as (r0&Hr0&Hl0&Hres0).
    rewrite Hget, bool_decide_eq_true_2 in Hr0 by done. injection Hr0 as <-.
    exists run'. split_and!; [done|by rewrite Hres0| |by rewrite (rl_tick _ _ Hl0)|].
    + (* publishing does not touch runs *)
      subst g2. unfold publish in Hr'. destruct (snapshot _) as [latest g3] eqn:Es. cbn in Hr'.
      unfold snapshot in Es. cbn in Es. rewrite Hp in Es. injection Es as _ <-. cbn in Hr'.
      rewrite bt_get_insert_eq in Hr' by done. by injection Hr' as <-.
    + rewrite (qt_clock _ _ Hpub). by rewrite (rl_tick _ _ Hl0).
Qed.

(** ** Commit and finish *)

(** The gate after the slot was released with result [r] and clock [clock]. *)
Record released (g : Gate) (n : Z) (r : RunResult) (clock : ClockSnapshot) (g' : Gate) : Prop := {
  rs_ok : gate_ok g';
  rs_le : gate_le g g';
  rs_free : g_poisoned g = false ∧ g_lost g = false;
  rs_active : g_active g' = None;
  rs_clock : g_clock g' = clock;
  rs_version : g_version g < g_version g';
  rs_result : ∃ run, bt_get n (g_runs g') = Some run ∧ run_result run = Some r;
  rs_others m run : m ≠ n → bt_get m (g_runs g') = Some run →
    ∃ run0, bt_get m (g_runs g) = Some run0 ∧ run_result run = run_result run0;
}.

Lemma release_published g n r clock :
  gate_ok g → g_active g = Some n → (∀ t, ck_phase clock ≠ PhaseRunning t) →
  g_poisoned g = false → g_lost g = false →
  released g n r clock (publish (update_run (set_slot g clock None) n (resolve_run r))).
Proof.
  intros Hok Hact Hph Hp Hl. destruct (release_ok g n r clock Hok Hact Hph) as [Hok' Hle'].
  destruct (update_run_same (set_slot g clock None) n (resolve_run r)) as (K1&K2&K3&K4&K5&K6&K7&K8).
  set (g1 := update_run _ n _) in *. pose proof (publish_quiet g1) as Hq.
  pose proof Hok as [_ H2 H3 _ H5 H6 _ _]. destruct (H5 n Hact) as [Hn Hn0].
  destruct (proj2 (H3 n)) as [run Hrun]; [lia|].
  assert (Hres : run_result run = None) by by apply (H6 n run Hrun).
  assert (Hget : bt_get n (g_runs g1) = Some (resolve_run r run)).
  { subst g1. rewrite get_update_run by done. rewrite bool_decide_eq_true_2 by done. cbn. by rewrite Hrun. }
  split.
  - by eapply quiet_ok.
  - etrans; [exact Hle'|apply Hq].
  - done.
  - by rewrite (qt_active _ _ Hq), K6.
  - by rewrite (qt_clock _ _ Hq), K4.
  - rewrite (qt_version _ _ Hq), K5. cbn. lia.
  - destruct (gl_runs _ _ (qt_le _ _ Hq) n _ Hget) as (run'&Hr'&Hle). exists run'. split; [done|].
    apply (rl_result _ _ Hle). unfold resolve_run. by rewrite Hres.
  - intros m x Hm Hx. destruct (proj2 (qt_runs _ _ Hq m) x Hx) as (y&Hy&_&Heq).
    subst g1. rewrite get_update_run in Hy by done. rewrite bool_decide_eq_false_2 in Hy by done.
    by exists y.
Qed.

Lemma commit_spec now n g rc clock k g' :
  gate_ok g → g_active g = Some n → (∀ t, ck_phase clock ≠ PhaseRunning t) →
  controlled_commit now n g rc clock = (k, g') →
  match k with
  | Some kind => quiet g g' ∧ interruption g n now = (Some kind, g')
  | None => released g n (Ok rc) clock g' ∧ interruption g n now = (None, g) ∧ g_stopped g = false
  end.
Proof.
  intros Hok Hact Hph. unfold controlled_commit, interruption. pose proof (lock_quiet g) as Hq.
  destruct (lock g) as [[kind|] g1] eqn:El; cbn in Hq; [by intros [= <- <-]|].
  apply lock_None in El as (->&Hp&Hl). pose proof Hok as [_ _ H3 _ H5 _ _ _].
  destruct (H5 n Hact) as [Hn Hn0]. destruct (proj2 (H3 n)) as [run Hrun]; [lia|]. rewrite Hrun.
  destruct (reason g run now) as [kind|] eqn:Er; intros [= <- <-]; [done|].
  split_and!; [by apply release_published|done|]. unfold reason in Er. by destruct (g_stopped g).
Qed.

Lemma finish_spec g n r clock :
  gate_ok g → g_active g = Some n → (∀ t, ck_phase clock ≠ PhaseRunning t) →
  quiet g (gate_finish g n r clock) ∧ (g_poisoned g = true ∨ g_lost g = true) ∨
  released g n r clock (gate_finish g n r clock).
Proof.
  intros Hok Hact Hph. unfold gate_finish. pose proof (lock_quiet g) as Hq.
  destruct (lock g) as [[kind|] g1] eqn:El; cbn in Hq.
  - left. split; [done|]. unfold lock in El. destruct (g_poisoned g), (g_lost g); naive_solver.
  - right. apply lock_None in El as (->&Hp&Hl). by apply release_published.
Qed.

(** ** The gate as a state machine *)

(** An operation of some thread.  [start] holds a sample between its two
    critical sections; only the driver commits or finishes, and only the run in
    the slot. *)
Inductive gate_step : Gate * list StartSample → Gate * list StartSample → Prop :=
  | gs_quiet g ss g' :
      g' = stop g ∨ g' = mark_stop g ∨ g' = activate g ∨ g' = publish g ∨ g' = disappear g ∨
      g' = poison g ∨ (∃ n, g' = (cancel g n).2) ∨ (∃ n now, g' = (interruption g n now).2) →
      gate_step (g, ss) (g', ss)
  | gs_sample g ss request plan r g' :
      start_sample g request plan = (r, g') →
      gate_step (g, ss) (g', match r with Some (Ok s) => s :: ss | _ => ss end)
  | gs_admit limit g ss s timeout now a g' :
      s ∈ ss → start_admit limit g s timeout now = (a, g') → gate_step (g, ss) (g', ss)
  | gs_commit g ss n now rc clock k g' :
      g_active g = Some n → (∀ t, ck_phase clock ≠ PhaseRunning t) →
      controlled_commit now n g rc clock = (k, g') → gate_step (g, ss) (g', ss)
  | gs_finish g ss n r clock :
      g_active g = Some n → (∀ t, ck_phase clock ≠ PhaseRunning t) → is_ok r = false →
      gate_step (g, ss) (gate_finish g n r clock, ss).

Definition world_ok (w : Gate * list StartSample) : Prop :=
  gate_ok w.1 ∧ Forall (sample_ok w.1) w.2.

Lemma quiet_samples a b ss : quiet a b → Forall (sample_ok a) ss → Forall (sample_ok b) ss.
Proof.
  intros [_ _ Hc Hv _ _ _] Hss. eapply Forall_impl; [exact Hss|]. intros s. unfold sample_ok. by rewrite Hc, Hv.
Qed.

Lemma newer_samples a b ss :
  g_version a < g_version b → Forall (sample_ok a) ss → Forall (sample_ok b) ss.
Proof.
  intros Hv Hss. eapply Forall_impl; [exact Hss|]. intros s (?&?&?&_). split_and!; try done; lia.
Qed.

Lemma sample_taken g request plan s g' :
  gate_ok g → start_sample g request plan = (Some (Ok s), g') → g' = g ∧ sample_ok g s.
Proof.
  intros Hok. unfold start_sample. destruct (lock g) as [[k|] g1] eqn:El; [done|].
  apply lock_None in El as (->&_&_). intros [= Hs <-]. split; [done|].
  assert (Hs' : match request_validate request plan (g_clock g) with
    | None => None | Some (Err e) => Some (Err (InvalidRequest e))
    | Some (Ok _) => match checked_succ (g_sequence g) with
        | None => Some (Err RunIdExhausted)
        | Some next => Some (Ok (mkSample (g_clock g) (g_version g) (g_sequence g) next)) end end = Some (Ok s)).
  { destruct (ck_phase (g_clock g)), (g_stopped g), (g_ready g), (g_active g); by cbn in Hs. }
  destruct (request_validate _ _ _) as [[]|]; [|done..].
  destruct (checked_succ (g_sequence g)) as [next|] eqn:En; [|done]. injection Hs' as <-.
  split_and!; try done. apply (go_sequence _ Hok).
Qed.

(** Results after a step are results before it, except that the driver may
    resolve the run in the slot. *)
Definition results_kept (a b : Gate) : Prop :=
  ∀ n run rc, bt_get n (g_runs b) = Some run → run_result run = Some (Ok rc) →
  ∃ run0, bt_get n (g_runs a) = Some run0 ∧ run_result run0 = Some (Ok rc).

Lemma quiet_results a b : quiet a b → results_kept a b.
Proof.
  intros Hq n run rc Hn Hr. destruct (proj2 (qt_runs _ _ Hq n) run Hn) as (run0&?&_&Heq).
  exists run0. split; [done|]. congruence.
Qed.

Lemma admit_world limit g ss s timeout now a g' :
  gate_ok g → Forall (sample_ok g) ss → s ∈ ss → start_admit limit g s timeout now = (a, g') →
  world_ok (g', ss) ∧ gate_le g g' ∧ results_kept g g'.
Proof.
  intros Hok Hss Hin Ha. assert (Hs : sample_ok g s) by (rewrite Forall_forall in Hss; by apply Hss).
  pose proof (admit_spec _ _ _ _ _ _ _ Hok Hs Ha) as Hspec. destruct a as [n|e|].
  - destruct Hspec as (Hok'&Hle&Hver&->&Hact&Hact'&_&_&_&_&run&Hrun&Hres&_).
    split_and!; [|done|].
    + split; [done|]. by eapply newer_samples.
    + intros m x rc Hm Hx. pose proof (go_open _ Hok' m x Hm) as Hopen.
      destruct (decide (m = g_sequence g)) as [->|Hne]; [congruence|].
      assert (Hs' : is_Some (bt_get m (g_runs g'))) by by eexists. apply (go_numbered _ Hok') in Hs'.
      destruct (go_active _ Hok' _ Hact') as [Hlast _].
      destruct (proj2 (go_numbered _ Hok m)) as [y Hy]; [lia|].
      destruct (gl_runs _ _ Hle m y Hy) as (x'&Hx'&Hl). rewrite Hm in Hx'. injection Hx' as <-.
      exists y. split; [done|]. destruct (run_result y) as [r|] eqn:Ey.
      * by rewrite <- (rl_result _ _ Hl r Ey).
      * apply (go_open _ Hok m y Hy) in Ey. congruence.
  - split_and!; [split; [by eapply quiet_ok|by eapply quiet_samples]|apply Hspec|by apply quiet_results].
  - destruct Hspec as [-> _]. split_and!; [done|done|]. intros n run rc ? ?. by exists run.
Qed.

(** One step keeps the invariant, never undoes anything, and lets a run succeed
    only if the gate is open. *)
Lemma gate_step_spec w w' :
  world_ok w → gate_step w w' →
  world_ok w' ∧ gate_le w.1 w'.1 ∧
  (g_stopped w.1 = true ∨ g_lost w.1 = true ∨ g_poisoned w.1 = true → results_kept w.1 w'.1).
Proof.
  intros [Hok Hss] Hstep.
  destruct Hstep as [g ss g' Hop|g ss request plan r g' Hs|limit g ss s timeout now a g' Hin Ha|
                     g ss n now rc clock k g' Hact Hph Hc|g ss n r clock Hact Hph Hr]; cbn in *.
  - assert (Hq : quiet g g').
    { destruct Hop as [->|[->|[->|[->|[->|[->|[[n ->]|(n&now&->)]]]]]]];
        auto using stop_quiet, mark_stop_quiet, activate_quiet, publish_quiet, disappear_quiet,
          poison_quiet, interruption_quiet.
      apply cancel_quiet, Hok. }
    split_and!; [split; [by eapply quiet_ok|by eapply quiet_samples]|apply Hq|intros _; by apply quiet_results].
  - pose proof (sample_quiet g request plan) as Hq. rewrite Hs in Hq. cbn in Hq.
    split_and!; [split; [by eapply quiet_ok|]|apply Hq|intros _; by apply quiet_results]. cbn.
    pose proof (quiet_samples _ _ _ Hq Hss) as Hss'. destruct r as [[s|]|]; [|done..].
    destruct (sample_taken _ _ _ _ _ Hok Hs) as [-> Hsm]. by constructor.
  - destruct (admit_world _ _ _ _ _ _ _ _ Hok Hss Hin Ha) as (?&?&?). by split_and!.
  - pose proof (commit_spec _ _ _ _ _ _ _ Hok Hact Hph Hc) as Hspec. destruct k as [kind|].
    + destruct Hspec as [Hq _].
      split_and!; [split; [by eapply quiet_ok|by eapply quiet_samples]|apply Hq|intros _; by apply quiet_results].
    + destruct Hspec as (Hrel&_&Hst). destruct Hrel as [Hok' Hle [Hp Hl] _ _ Hv _ _].
      split_and!; [split; [done|by eapply newer_samples]|done|]. intros [?|[?|?]]; congruence.
  - destruct (finish_spec g n r clock Hok Hact Hph) as [[Hq _]|Hrel].
    + split_and!; [split; [by eapply quiet_ok|by eapply quiet_samples]|apply Hq|intros _; by apply quiet_results].
    + destruct Hrel as [Hok' Hle [Hp Hl] _ _ Hv (run&Hrun&Hres) Hoth].
      split_and!; [split; [done|by eapply newer_samples]|done|]. intros _ m x rc Hm Hx.
      destruct (decide (m = n)) as [->|Hne].
      * rewrite Hrun in Hm. injection Hm as <-. rewrite Hres in Hx. injection Hx as ->. done.
      * destruct (Hoth m x Hne Hm) as (y&Hy&Heq). exists y. split; [done|]. congruence.
Qed.
