(* ===== verification/StepDriver.v ===== *)
(** * StepDriver: the driver of managed steps and its executors
    ([crates/reiny/src/component/step/driver.rs], [step/session.rs],
    [step/worker.rs], [process/step_owner/executor.rs], [step.rs])

    One request of the driver: the scheduler advances under the gate's commit,
    unless the gate interrupts it first.  What other threads do to the gate
    meanwhile is a parameter.  The local executor calls a worker over a channel;
    the process executor sends the call to the host the node is placed on and
    accounts for the bytes of the reply.  A channel is a function of its state:
    it answers, or leaves the call pending until it is dropped.  The lemmas at
    the end show that one attempt resolves one run: the result that a run
    retains agrees with what the scheduler did, whatever other threads do to the
    gate. *)

From Stdlib Require Import ZArith Lia.
From S2P Require Import Prelude Text Btree Core Bindings Step StepPlan StepScheduler HostProtocol Connection ProcessWire HostMessages ProcessReplay StepGate StepSchedulerSpec StepProps StepGateSpec.

(** ** The driver ([driver.rs]) *)

(** How [Driver::advance] ends: the driver goes on, it stops with a failure, or
    its own task was aborted. *)
Inductive DriverEnd : Type :=
  | DriverContinues
  | DriverFailed (failure : StepFailure)
  | DriverAborted.

(** [unknown] *)
Definition unknown (tick : StepId) : StepFailure :=
  mkFailure tick WorkerLost None None [] []
    (bytes_of "step supervisor unavailable; effects unknown").

Definition with_kind (f : StepFailure) (kind : StepFailureKind) : StepFailure :=
  mkFailure (sf_tick f) kind (sf_instance f) (sf_port f) (sf_attempted f) (sf_completed f) (sf_detail f).

(** The end of [Driver::advance] with a failure *)
Definition driver_fault (s : StepScheduler) (g : Gate) (n : Z) (failure : StepFailure) : Gate :=
  gate_finish g n (Err (RunFailed failure)) (with_phase (clock s) (PhaseFaulted failure)).

(** The branch where the gate interrupted the advancement *)
Definition driver_interrupted (s : StepScheduler) (g : Gate) (n : Z) (tick : StepId)
    (kind : StepFailureKind) : DriverEnd * StepScheduler * Gate :=
  match interrupted s kind with
  | (Some failure, s) => (DriverFailed failure, s, driver_fault s g n failure)
  | (None, s) =>
      let r := match kind with
               | Cancelled => CancelledBeforeDispatch tick
               | TimedOut => TimedOutBeforeDispatch tick
               | _ => RunFailed (with_kind (unknown tick) kind)
               end in
      (DriverContinues, s, gate_finish g n (Err r) (clock s))
  end.

(** When the steps of an attempt happen, and what other threads do to the gate:
    until the commit or the interruption, and from there to the end. *)
Record Schedule : Type := mkSchedule {
  at_poll : Z;
  at_commit : Z;
  at_interrupt : Z;
  meanwhile : Gate → Gate;
  afterwards : Gate → Gate;
}.

Section driver.
Context {X : Type} (invoke : X → str → StepTick → StepInputs → Invocation * X).
(** [DriverExecutor::begin] and [DriverExecutor::failure] *)
Context (begin : X → Run → X) (failure_of : X → option StepFailureKind).

(** [Driver::advance] for the accepted run [n]; [None] is a panic *)
Definition driver_advance (w : Schedule) (s : StepScheduler) (x : X) (g : Gate) (n : Z) (run : Run)
    (request : StepRequest) : option (DriverEnd * StepScheduler * X * Gate) :=
  let x := begin x run in
  match interruption g n (at_poll w) with
  | (Some kind, g) =>
      let '(e, s, g) := driver_interrupted s g n (run_tick run) kind in Some (e, s, x, g)
  | (None, g) =>
      match advance_controlled invoke (λ g rc ck, controlled_commit (at_commit w) n (meanwhile w g) rc ck)
              s x g request with
      | None => None
      | Some (Returned (Ok _), s, x, g) => Some (DriverContinues, s, x, g)
      | Some (Returned (Err (Failed failure)), s, x, g)
      | Some (Returned (Err (Faulted failure)), s, x, g) =>
          let kind := default (sf_kind failure) (failure_of x) in
          let '(f, s) := interrupted s kind in
          let failure := default failure f in
          Some (DriverFailed failure, s, x, driver_fault s (afterwards w g) n failure)
      | Some (Returned (Err (Request _)), s, x, g) =>
          Some (DriverFailed (unknown (run_tick run)), s, x, disappear g)
      | Some (DroppedByCaller, s, x, g) =>
          match interruption (meanwhile w g) n (at_interrupt w) with
          | (Some kind, g) =>
              let '(e, s, g) := driver_interrupted s g n (run_tick run) kind in Some (e, s, x, g)
          | (None, g) => Some (DriverAborted, s, x, publish (disappear g))
          end
      end
  end.
End driver.

(** ** The local executor ([worker.rs]) *)

(** What happens to a call on the channel of a worker: the result, a reply
    channel that was dropped, or no answer. *)
Inductive WorkerReply : Type :=
  | WorkerResult (r : result StepOutputs (StepFailureKind * str))
  | WorkerGone
  | WorkerPending.

Section worker.
Context {W : Type}.
(** [calls.get(instance)]: [None] without a channel, [Some None] when sending fails *)
Context (call : W → str → StepTick → StepInputs → option (option (WorkerReply * W))).

Record Executor : Type := mkExecutor { we_workers : W; we_failure : option StepFailureKind }.

(** [begin] *)
Definition worker_begin (x : Executor) (run : Run) : Executor := mkExecutor (we_workers x) None.

(** [StepExecutor::invoke] for [Executor] *)
Definition worker_invoke (x : Executor) (instance : str) (tick : StepTick) (inputs : StepInputs) :
  Invocation * Executor :=
  let failed w kind message :=
    (Polled (Ok (Err (mkNodeError message))) None, mkExecutor w (Some kind)) in
  match call (we_workers x) instance tick inputs with
  | None | Some None =>
      failed (we_workers x) WorkerLost (bytes_of "step worker unavailable; effects unknown")
  | Some (Some (WorkerPending, w)) => (Abandoned false, mkExecutor w (we_failure x))
  | Some (Some (WorkerGone, w)) =>
      failed w WorkerLost (bytes_of "step worker disappeared; effects unknown")
  | Some (Some (WorkerResult (Ok outputs), w)) => (Polled (Ok (Ok outputs)) None, mkExecutor w (we_failure x))
  | Some (Some (WorkerResult (Err (kind, message)), w)) => failed w kind message
  end.
End worker.

(** ** The process executor ([session.rs], [step_owner/executor.rs]) *)

(** [ProcessError]'s [Display] *)
Definition process_error_display (e : ProcessError) : str :=
  bytes_of "component host session: " ++ code_debug (pe_code e).

(** The owner's accounting of retained bytes. *)
Record Accounting : Type := mkAccounting {
  ac_available : Z;
  ac_previous : Z;
  ac_run_sequence : option Z;
  ac_retained : Z;
  ac_next_previous : Z;
}.

Record ProcessExecutor : Type := mkProcessExecutor {
  px_placement : btree str nat;
  px_key : StepSessionKey;
  px_delayed : btree StepOutput unit;
  px_final_ordinal : Z;
  px_accounting : Accounting;
  (** the adapter of [session.rs]: the run with its deadline, the next ordinal *)
  px_run : option (Z * Z);
  px_ordinal : Z;
  px_failure : option StepFailureKind;
}.

Definition lost (message : str) : DispatchFailure := mkDispatchFailure WorkerLost message.
Definition bounds : DispatchFailure :=
  mkDispatchFailure InvalidOutputs (bytes_of "aggregate retained step bytes exceeded").

(** The loop of [retain_outputs] over the outputs: the retained and the delayed
    bytes, also where it stops *)
Fixpoint retain_loop (delayed : btree StepOutput unit) (instance : str) (retained next_previous : Z)
    (outputs : StepOutputs) : result unit DispatchFailure * (Z * Z) :=
  match outputs with
  | [] => (Ok tt, (retained, next_previous))
  | (port, value) :: rest =>
      match checked_add 64 retained (byte_len (sv_bytes value)) with
      | None => (Err bounds, (retained, next_previous))
      | Some retained =>
          if bt_contains (mkStepOutput instance port) delayed then
            match checked_add 64 next_previous (byte_len (sv_bytes value)) with
            | None => (Err bounds, (retained, next_previous))
            | Some next_previous => retain_loop delayed instance retained next_previous rest
            end
          else retain_loop delayed instance retained next_previous rest
      end
  end.

(** [Executor::retain_outputs] *)
Definition retain_outputs (x : ProcessExecutor) (run ordinal : Z) (instance : str)
    (outputs : StepOutputs) : result unit DispatchFailure * Accounting :=
  let a := px_accounting x in
  let '(retained, next_previous) :=
    if bool_decide (ac_run_sequence a = Some run) then (ac_retained a, ac_next_previous a) else (0%Z, 0%Z) in
  let '(r, (retained, next_previous)) :=
    retain_loop (px_delayed x) instance retained next_previous outputs in
  let kept := mkAccounting (ac_available a) (ac_previous a) (Some run) retained next_previous in
  match r with
  | Err e => (Err e, kept)
  | Ok _ =>
      match checked_add 64 retained next_previous with
      | None => (Err bounds, kept)
      | Some used =>
          if (ac_available a <? used)%Z then (Err bounds, kept)
          else if (ordinal =? px_final_ordinal x)%Z
          then (Ok tt, mkAccounting (ac_available a) next_previous (Some run) retained next_previous)
          else (Ok tt, kept)
      end
  end.

Section process.
Context {H : Type}.
(** One exchange on the channel with a number: the reply, an error, or none yet *)
Context (answer : H → nat → InvokeStep → option (result HostMessage ProcessError) * H).
(** the time left to a deadline *)
Context (remaining : H → Z → Z).
(** the host channels, which admission hands over: [None] while it goes on, and
    [Some false] when it disappeared *)
Context (channels : H → option bool).

(** [Adapter::begin] *)
Definition process_begin (x : ProcessExecutor * H) (run : Run) : ProcessExecutor * H :=
  let '(x, h) := x in
  (mkProcessExecutor (px_placement x) (px_key x) (px_delayed x) (px_final_ordinal x) (px_accounting x)
     ((λ deadline, (ri_sequence (run_id run), deadline)) <$> run_deadline run) 0 None, h).

Definition process_failure (x : ProcessExecutor * H) : option StepFailureKind := px_failure x.1.

Definition set_accounting (x : ProcessExecutor) (a : Accounting) : ProcessExecutor :=
  mkProcessExecutor (px_placement x) (px_key x) (px_delayed x) (px_final_ordinal x) a (px_run x)
    (px_ordinal x) (px_failure x).
Definition set_ordinal (x : ProcessExecutor) (n : Z) : ProcessExecutor :=
  mkProcessExecutor (px_placement x) (px_key x) (px_delayed x) (px_final_ordinal x) (px_accounting x)
    (px_run x) n (px_failure x).
Definition fail_with (x : ProcessExecutor) (k : StepFailureKind) : ProcessExecutor :=
  mkProcessExecutor (px_placement x) (px_key x) (px_delayed x) (px_final_ordinal x) (px_accounting x)
    (px_run x) (px_ordinal x) (Some k).

(** The reply to a call, in [Executor::invoke] *)
Definition accept_reply (x : ProcessExecutor) (call : StepCallKey) (run ordinal : Z) (instance : str)
    (reply : result HostMessage ProcessError) : result StepOutputs DispatchFailure * ProcessExecutor :=
  match reply with
  | Err e => (Err (lost (process_error_display e)), x)
  | Ok (HostSteps (StepResultMessage r)) =>
      if bool_decide (sr_call r = call) then
        match (let? values := map_err import_failure (sr_result r) in
               map_err (λ e, lost (process_error_display e)) (import_values values)) with
        | Err f => (Err f, x)
        | Ok outputs =>
            let '(kept, accounting) := retain_outputs x run ordinal instance outputs in
            (match kept with Ok _ => Ok outputs | Err f => Err f end, set_accounting x accounting)
        end
      else (Err (lost (bytes_of "unsolicited or mismatched step result")), x)
  | Ok (HostSteps _) => (Err (lost (bytes_of "unsolicited or mismatched step result")), x)
  | Ok _ => (Err (lost (bytes_of "host disappeared during invocation")), x)
  end.

(** [Executor::invoke]; [None] while the channels or the reply are awaited *)
Definition executor_invoke (x : ProcessExecutor) (h : H) (run deadline ordinal : Z) (instance : str)
    (tick : StepTick) (inputs : StepInputs) :
  option (result StepOutputs DispatchFailure) * (ProcessExecutor * H) :=
  match channels h with
  | None => (None, (x, h))
  | Some false => (Some (Err (lost (bytes_of "owner admission disappeared"))), (x, h))
  | Some true =>
      match bt_get instance (px_placement x) with
      | None => (Some (Err (lost (bytes_of "unassigned node"))), (x, h))
      | Some index =>
          match export_values inputs with
          | Err e => (Some (Err (lost (process_error_display e))), (x, h))
          | Ok wire =>
              let invocation := invocation_for (px_key x) run tick (Z.to_nat ordinal) instance wire
                                  (remaining h deadline) in
              let '(reply, h) := answer h index invocation in
              match reply with
              | None => (None, (x, h))
              | Some reply =>
                  let '(r, x) := accept_reply x (iv_call invocation) run ordinal instance reply in
                  (Some r, (x, h))
              end
          end
      end
  end.

(** [Adapter::invoke] *)
Definition process_invoke (xh : ProcessExecutor * H) (instance : str) (tick : StepTick)
    (inputs : StepInputs) : Invocation * (ProcessExecutor * H) :=
  let '(x, h) := xh in
  let failed x h (f : DispatchFailure) :=
    (Polled (Ok (Err (mkNodeError (df_message f)))) None, (fail_with x (df_kind f), h)) in
  match px_run x with
  | None => failed x h (lost (bytes_of "missing owner attempt"))
  | Some (run, deadline) =>
      let ordinal := px_ordinal x in
      match checked_add 32 ordinal 1 with
      | None => failed x h (lost (bytes_of "node ordinal exhausted"))
      | Some next =>
          match executor_invoke (set_ordinal x next) h run deadline ordinal instance tick inputs with
          | (None, xh) => (Abandoned false, xh)
          | (Some (Err f), (x, h)) => failed x h f
          | (Some (Ok outputs), xh) => (Polled (Ok (Ok outputs)) None, xh)
          end
      end
  end.
End process.

(** ** Admission of a request ([step.rs]) *)

(** [StepHandle::try_step_with_timeout]; [open] says whether the driver still
    receives requests *)
Definition try_step_with_timeout (limit : Z) (local open : bool) (g : Gate) (request : StepRequest)
    (timeout : option Z) (plan : Plan) (called : Z) (rounds : list ((Gate → Gate) * Z)) :
  option (result Z StepStartError * Gate) :=
  if match timeout with None => negb local | Some _ => false end then Some (Err InvalidTimeout, g) else
  match start limit g request timeout plan called rounds with
  | Some (Ok n, g) =>
      if open then Some (Ok n, g) else Some (Err StartSupervisorGone, disappear g)
  | r => r
  end.

(** The gate shows the scheduler's clock. *)
Record agrees (g : Gate) (s : StepScheduler) : Prop := {
  ag_epoch : ck_epoch (g_clock g) = sch_epoch s;
  ag_index : ck_next_index (g_clock g) = sch_next_index s;
  ag_time : ck_time (g_clock g) = sch_time s;
}.

(** The retained result of run [n]. *)
Definition outcome (g : Gate) (n : Z) : option RunResult :=
  match bt_get n (g_runs g) with Some run => run_result run | None => None end.

(** Other threads leave the slot alone while a run is in flight. *)
Definition quiet_op (o : Gate → Gate) : Prop := ∀ g, gate_ok g → is_Some (g_active g) → quiet g (o g).

(** What an attempt of run [n] for [request] leaves. *)
Definition attempt_post (s : StepScheduler) (n : Z) (request : StepRequest) (e : DriverEnd)
    (s' : StepScheduler) (g' : Gate) : Prop :=
  match outcome g' n with
  | Some (Ok rc) =>
      e = DriverContinues ∧ rc_tick rc = vr_tick (validated s request) ∧
      sch_next_index s' = (sch_next_index s + 1)%Z ∧ sch_time s' = (sch_time s + rq_dt request)%Z ∧
      sch_fault s' = None ∧ g_active g' = None ∧ agrees g' s' ∧ ck_phase (g_clock g') = PhaseReady
  | Some (Err error) =>
      sch_next_index s' = sch_next_index s ∧ sch_time s' = sch_time s ∧ g_active g' = None ∧ agrees g' s' ∧
      (e = DriverContinues ∧ s' = s ∧ ck_phase (g_clock g') = PhaseReady ∨
       ∃ f, e = DriverFailed f ∧ error = RunFailed f ∧ sch_fault s' = Some f ∧
            ck_phase (g_clock g') = PhaseFaulted f)
  | None =>
      (g_lost g' = true ∨ g_poisoned g' = true) ∧ sch_next_index s' = sch_next_index s ∧
      sch_time s' = sch_time s
  end.

Lemma outcome_open g n : gate_ok g → g_active g = Some n → outcome g n = None.
Proof.
  intros Hok Hact. unfold outcome. destruct (bt_get n (g_runs g)) as [run|] eqn:Er; [|done].
  by apply (go_open _ Hok n run Er).
Qed.

Lemma outcome_quiet g g' n : quiet g g' → outcome g' n = outcome g n.
Proof.
  intros Hq. unfold outcome. destruct (qt_runs _ _ Hq n) as [Hn Hs].
  destruct (bt_get n (g_runs g')) as [r|] eqn:E'.
  - destruct (Hs r eq_refl) as (r0&->&_&Heq). done.
  - destruct (bt_get n (g_runs g)) as [r|] eqn:E; [|done].
    destruct (gl_runs _ _ (qt_le _ _ Hq) n r E) as (r'&Hr'&_). congruence.
Qed.

Lemma outcome_released g n r ck g' : released g n r ck g' → outcome g' n = Some r.
Proof. intros [_ _ _ _ _ _ (run&Hrun&Hres) _]. unfold outcome. by rewrite Hrun. Qed.

Lemma commit_refused now n g rc ck kind g' : controlled_commit now n g rc ck = (Some kind, g') → quiet g g'.
Proof.
  unfold controlled_commit. pose proof (lock_quiet g) as Hq. destruct (lock g) as [[k|] g1]; cbn in Hq.
  - by intros [= <- <-].
  - destruct (match bt_get n (g_runs g1) with Some _ => _ | None => _ end); by intros [= <- <-].
Qed.

Lemma interrupted_clean s kind : sch_fault s = None → interrupted s kind = (None, s).
Proof. intros Hf. unfold interrupted. by rewrite Hf. Qed.

Lemma interrupted_fault s f kind :
  ∃ f', interrupted (set_fault s f) kind = (Some f', set_fault s f') ∧ sf_tick f' = sf_tick f.
Proof. unfold interrupted. cbn. by eexists. Qed.

(** A failed attempt: the epoch is faulted, and the run retains the failure. *)
Lemma fault_post s n request f g :
  gate_ok g → g_active g = Some n →
  gate_ok (driver_fault (set_fault s f) g n f) ∧ gate_le g (driver_fault (set_fault s f) g n f) ∧
  attempt_post s n request (DriverFailed f) (set_fault s f) (driver_fault (set_fault s f) g n f).
Proof.
  intros Hok Hact. unfold driver_fault.
  destruct (finish_spec g n (Err (RunFailed f)) (with_phase (clock (set_fault s f)) (PhaseFaulted f)) Hok Hact
              ltac:(done)) as [[Hq Hlost]|Hrel].
  - split_and!; [by eapply quiet_ok|apply Hq|]. unfold attempt_post.
    rewrite (outcome_quiet _ _ n Hq), outcome_open by done. split; [|done].
    destruct Hlost as [?|?]; [right; by apply (gl_poisoned _ _ (qt_le _ _ Hq))|
                              left; by apply (gl_lost _ _ (qt_le _ _ Hq))].
  - split_and!; [apply Hrel|apply Hrel|]. unfold attempt_post. rewrite (outcome_released _ _ _ _ _ Hrel).
    destruct Hrel as [_ _ _ Ha Hc _ _ _]. split_and!; try done.
    + split; rewrite Hc; done.
    + right. exists f. split_and!; try done. by rewrite Hc.
Qed.

(** An attempt that was interrupted before anything was dispatched. *)
Lemma early_post s n request g tick kind :
  sch_fault s = None → gate_ok g → g_active g = Some n →
  ∃ g', driver_interrupted s g n tick kind = (DriverContinues, s, g') ∧ gate_ok g' ∧ gate_le g g' ∧
    attempt_post s n request DriverContinues s g'.
Proof.
  intros Hf Hok Hact. unfold driver_interrupted. rewrite interrupted_clean by done.
  set (r := match kind with Cancelled => _ | TimedOut => _ | _ => _ end).
  assert (Hclock : ck_phase (clock s) = PhaseReady) by (unfold clock; by rewrite Hf).
  eexists. split; [done|].
  destruct (finish_spec g n (Err r) (clock s) Hok Hact ltac:(intros t; by rewrite Hclock)) as [[Hq Hlost]|Hrel].
  - split_and!; [by eapply quiet_ok|apply Hq|]. unfold attempt_post.
    rewrite (outcome_quiet _ _ n Hq), outcome_open by done. split; [|done].
    destruct Hlost as [?|?]; [right; by apply (gl_poisoned _ _ (qt_le _ _ Hq))|
                              left; by apply (gl_lost _ _ (qt_le _ _ Hq))].
  - split_and!; [apply Hrel|apply Hrel|]. unfold attempt_post. rewrite (outcome_released _ _ _ _ _ Hrel).
    destruct Hrel as [_ _ _ Ha Hc _ _ _]. split_and!; try done.
    + split; rewrite Hc; done.
    + left. by rewrite Hc.
Qed.

Section driver.
Context {X : Type} (invoke : X → str → StepTick → StepInputs → Invocation * X).
Context (begin : X → Run → X) (failure_of : X → option StepFailureKind).
Context (Hexec : executor_typed invoke).

(** A faulted scheduler whose run was dropped or failed. *)
Lemma dropped_post s f n request g tick kind :
  gate_ok g → g_active g = Some n →
  ∃ e s' g', driver_interrupted (set_fault s f) g n tick kind = (e, s', g') ∧ gate_ok g' ∧ gate_le g g' ∧
    (∃ f', s' = set_fault s f') ∧ attempt_post s n request e s' g'.
Proof.
  intros Hok Hact. unfold driver_interrupted. destruct (interrupted_fault s f kind) as (f'&->&_).
  destruct (fault_post s n request f' g Hok Hact) as (?&?&?).
  eexists _, _, _. split; [done|]. split_and!; try done. by exists f'.
Qed.

(** The attempt of the run in the slot. *)
Lemma driver_advance_spec w s x g n run request :
  sched_ok s → sch_fault s = None → request_typed request → request_wf s request →
  gate_ok g → g_active g = Some n → bt_get n (g_runs g) = Some run →
  quiet_op (meanwhile w) → quiet_op (afterwards w) →
  ∃ e s' x' g', driver_advance invoke begin failure_of w s x g n run request = Some (e, s', x', g') ∧
    gate_ok g' ∧ gate_le g g' ∧ sched_ok s' ∧ sch_plan s' = sch_plan s ∧ sch_epoch s' = sch_epoch s ∧
    attempt_post s n request e s' g'.
Proof.
  intros Hs Hf Hr Hwf Hok Hact Hrun Hmean Haft. unfold driver_advance.
  pose proof (interruption_quiet g n (at_poll w)) as Hq0.
  destruct (interruption g n (at_poll w)) as [[kind|] g1] eqn:Ei; cbn in Hq0.
  { destruct (early_post s n request g1 (run_tick run) kind Hf) as (g'&->&?&?&?);
      [by eapply quiet_ok|by rewrite (qt_active _ _ Hq0)|].
    eexists _, _, _, _. split; [done|]. split_and!; try done. etrans; [apply Hq0|done]. }
  assert (Hok1 : gate_ok g1) by by apply (quiet_ok g).
  assert (Hact1 : g_active g1 = Some n) by by rewrite (qt_active _ _ Hq0).
  assert (Hqm : quiet g1 (meanwhile w g1)) by (apply Hmean; [done|rewrite Hact1; by eexists]).
  assert (Hokm : gate_ok (meanwhile w g1)) by by apply (quiet_ok g1).
  assert (Hactm : g_active (meanwhile w g1) = Some n) by by rewrite (qt_active _ _ Hqm).
  destruct (advance_spec invoke (λ g rc ck, controlled_commit (at_commit w) n (meanwhile w g) rc ck)
              s (begin x run) g1 request Hs Hr Hexec Hf) as (a&s1&x1&g2&->&Hs1&Hp1&He1&Hpost).
  destruct a as [[rc|[e|f|f]]|]; cbn in Hpost.
  - (* committed *)
    destruct Hpost as (_&Hcm&Hc). destruct Hcm as [Htick _ Hix Htm Hfault _].
    apply commit_spec in Hc as (Hrel&_&_); [|done..].
    eexists _, _, _, _. split; [done|]. split_and!; try done; [apply Hrel| |].
    + etrans; [apply Hq0|]. etrans; [apply Hqm|apply Hrel].
    + unfold attempt_post. rewrite (outcome_released _ _ _ _ _ Hrel).
      destruct Hrel as [_ _ _ Ha Hck _ _ _]. split_and!; try done; [|by rewrite Hck].
      split; rewrite Hck; done.
  - by destruct Hpost as [? _].
  - (* failed *)
    destruct Hpost as (_&->&Hfail).
    assert (Hq2 : quiet g1 g2).
    { destruct Hfail as [[_ ->]|[_ (rc&ck&Hc%commit_refused)]]; [done|].
      etrans; [exact Hqm|exact Hc]. }
    assert (Hok2 : gate_ok g2) by by apply (quiet_ok g1).
    assert (Hact2 : g_active g2 = Some n) by by rewrite (qt_active _ _ Hq2).
    assert (Hq3 : quiet g2 (afterwards w g2)) by (apply Haft; [done|rewrite Hact2; by eexists]).
    destruct (interrupted_fault s f (default (sf_kind f) (failure_of x1))) as (f'&->&_). cbn [default].
    destruct (fault_post s n request f' (afterwards w g2)) as (?&?&?);
      [by apply (quiet_ok g2)|by rewrite (qt_active _ _ Hq3)|].
    eexists _, _, _, _. split; [done|]. split_and!; try done; [|by apply sched_ok_fault].
    etrans; [apply Hq0|]. etrans; [apply Hq2|]. etrans; [apply Hq3|done].
  - done.
  - (* dropped *)
    destruct Hpost as (_&->&f&->&_). pose proof (interruption_quiet (meanwhile w g1) n (at_interrupt w)) as Hqi.
    destruct (interruption (meanwhile w g1) n (at_interrupt w)) as [[kind|] g3]; cbn in Hqi.
    + destruct (dropped_post s f n request g3 (run_tick run) kind) as (e&s'&g'&->&?&?&(f'&->)&?);
        [by apply (quiet_ok (meanwhile w g1))|by rewrite (qt_active _ _ Hqi)|].
      eexists _, _, _, _. split; [done|]. split_and!; try done; [|by apply sched_ok_fault].
      etrans; [apply Hq0|]. etrans; [apply Hqm|]. etrans; [apply Hqi|done].
    + assert (Hq4 : quiet g3 (publish (disappear g3))).
      { etrans; [apply disappear_quiet|apply publish_quiet]. }
      assert (Hok3 : gate_ok g3) by by apply (quiet_ok (meanwhile w g1)).
      eexists _, _, _, _. split; [done|]. split_and!; try done; [by apply (quiet_ok g3)| |].
      * etrans; [apply Hq0|]. etrans; [apply Hqm|]. etrans; [apply Hqi|apply Hq4].
      * unfold attempt_post. rewrite (outcome_quiet _ _ n Hq4), outcome_open; [|done|].
        -- split; [|done]. left. by apply (gl_lost _ _ (qt_le _ _ (publish_quiet _))).
        -- by rewrite (qt_active _ _ Hqi).
Qed.
End driver.
