(* ===== verification/StepControlProps.v ===== *)
(** * StepControlProps: managed steps under stop, cancellation and timeout

    The gate admits one run at a time, nothing commits after stop, and the
    result a run retains says what the scheduler did. *)

From Stdlib Require Import ZArith Lia.
From S2P Require Import Prelude Text Btree Core Bindings Step StepPlan StepScheduler StepSchedulerSpec StepProps.
From S2P Require Import HostProtocol Connection ProcessWire HostMessages ProcessReplay StepGate StepGateSpec StepDriver.

(** ** The gate *)

Lemma gate_steps_spec w w' :
  rtc gate_step w w' → world_ok w →
  world_ok w' ∧ gate_le w.1 w'.1 ∧
  (g_stopped w.1 = true ∨ g_lost w.1 = true ∨ g_poisoned w.1 = true → results_kept w.1 w'.1).
Proof.
  induction 1 as [w|w w1 w2 Hs _ IH]; intros Hw.
  - split_and!; [done|done|]. intros _ n run rc ? ?. by exists run.
  - destruct (gate_step_spec _ _ Hw Hs) as (Hw1&Hle1&Hk1). destruct (IH Hw1) as (Hw2&Hle2&Hk2).
    split_and!; [done|by etrans|]. intros Hc n run rc Hn Hr.
    assert (Hc1 : g_stopped w1.1 = true ∨ g_lost w1.1 = true ∨ g_poisoned w1.1 = true).
    { destruct Hle1 as [H1 H2 H3 _ _ _]. naive_solver. }
    destruct (Hk2 Hc1 n run rc Hn Hr) as (run1&Hn1&Hr1). by apply (Hk1 Hc n run1).
Qed.

(** A schedule: one run is accepted and committed, and then the host stops. *)
Definition idle_gate : Gate := activate (gate_new (clock loop_scheduler)).
Definition loop_sample : StartSample := mkSample (g_clock idle_gate) 0 0 1.
Definition busy_gate : Gate := (start_admit 1000000000000 idle_gate loop_sample (Some 5%Z) 0).2.
Definition done_gate : Gate :=
  (controlled_commit 1 0 busy_gate (loop_receipt 0 0 0 12)
     (mkClock 0 1 1000000 PhaseReady)).2.

Lemma done_reachable :
  rtc gate_step (gate_new (clock loop_scheduler), []) (stop done_gate, [loop_sample]).
Proof.
  eapply rtc_l; [apply (gs_quiet _ _ idle_gate); right; right; by left|].
  eapply rtc_l; [by apply (gs_sample idle_gate [] (target 2) (sch_plan loop_scheduler)
                   (Some (Ok loop_sample)) idle_gate); vm_compute|]. cbn [app].
  eapply rtc_l; [apply (gs_admit 1000000000000 idle_gate [loop_sample] loop_sample (Some 5%Z) 0 (Accepted 0) busy_gate);
                 [by left|by vm_compute]|].
  eapply rtc_l; [by apply (gs_commit busy_gate [loop_sample] 0 1 (loop_receipt 0 0 0 12)
                   (mkClock 0 1 1000000 PhaseReady) None done_gate); vm_compute|].
  eapply rtc_l; [apply (gs_quiet _ _ (stop done_gate)); by left|]. apply rtc_refl.
Qed.

(** In every state that admissions, cancellations, stops, losses, commits and
    finishes of any number of threads can reach, accepted runs are numbered
    without gaps, at most one run has no result, it is the last one accepted, it
    is the one in the slot, and the clock shows its tick. *)
Theorem gate_admits_one (clock : ClockSnapshot) (g : Gate) (samples : list StartSample) :
  rtc gate_step (gate_new clock, []) (g, samples) →
  (∀ n, is_Some (bt_get n (g_runs g)) ↔ (0 ≤ n < g_sequence g)%Z) ∧
  (∀ n run, bt_get n (g_runs g) = Some run →
     ri_sequence (run_id run) = n ∧
     (run_result run = None ↔ g_active g = Some n) ∧
     (run_result run = None → n = (g_sequence g - 1)%Z ∧ ck_phase (g_clock g) = PhaseRunning (run_tick run))) ∧
  (g_active g = None → ∀ t, ck_phase (g_clock g) ≠ PhaseRunning t).
Proof.
  intros Hr. destruct (gate_steps_spec _ _ Hr) as ([Hok _]&_&_); [split; [apply gate_new_ok|constructor]|].
  cbn in Hok. split_and!; [apply Hok| |apply Hok]. intros n run Hn.
  split_and!; [by apply Hok|by apply (go_open _ Hok n run)|].
  intros Hres. apply (go_open _ Hok n run Hn) in Hres.
  destruct (go_active _ Hok n Hres) as [-> _]. split; [done|]. by eapply (go_phase _ Hok).
Qed.

Lemma gate_admits_one_witness :
  (g_active (stop done_gate) = None → ∀ t, ck_phase (g_clock (stop done_gate)) ≠ PhaseRunning t) ∧
  g_sequence (stop done_gate) = 1%Z.
Proof.
  split; [|by vm_compute]. apply (gate_admits_one _ _ _ done_reachable).
Defined.

(** C18: stop is final: once a gate is stopped, lost or poisoned, whatever happens
    later, no run succeeds that had not succeeded before, and no retained result
    ever changes. *)
Theorem stop_is_final (clock : ClockSnapshot) (g g' : Gate) (samples samples' : list StartSample) :
  rtc gate_step (gate_new clock, []) (g, samples) → rtc gate_step (g, samples) (g', samples') →
  (∀ n run r, bt_get n (g_runs g) = Some run → run_result run = Some r →
     ∃ run', bt_get n (g_runs g') = Some run' ∧ run_result run' = Some r) ∧
  (g_stopped g = true ∨ g_lost g = true ∨ g_poisoned g = true →
   ∀ n run rc, bt_get n (g_runs g') = Some run → run_result run = Some (Ok rc) →
     ∃ run0, bt_get n (g_runs g) = Some run0 ∧ run_result run0 = Some (Ok rc)).
Proof.
  intros Hr Hr'. destruct (gate_steps_spec _ _ Hr) as (Hw&_&_); [split; [apply gate_new_ok|constructor]|].
  destruct (gate_steps_spec _ _ Hr' Hw) as (_&Hle&Hkept). split; [|exact Hkept].
  intros n run r Hn Hres. destruct (gl_runs _ _ Hle n run Hn) as (run'&?&Hl). exists run'.
  split; [done|]. by apply (rl_result _ _ Hl).
Qed.

Lemma stop_is_final_witness :
  ∃ run0, bt_get 0%Z (g_runs (stop done_gate)) = Some run0 ∧
          run_result run0 = Some (Ok (loop_receipt 0 0 0 12)).
Proof.
  eapply (stop_is_final _ _ _ _ _ done_reachable (rtc_refl _ _)); [left; by vm_compute|by vm_compute|by vm_compute].
Defined.

(** ** Admission *)

(** The conditions under which [start] accepts, on the gate alone. *)
Record admits (limit : Z) (g : Gate) (request : StepRequest) (timeout : option Z) (plan : Plan) (now : Z) :
  Prop := {
  adm_present : g_poisoned g = false ∧ g_lost g = false;
  adm_clean f : ck_phase (g_clock g) ≠ PhaseFaulted f;
  adm_open : g_stopped g = false ∧ g_ready g = true;
  adm_free : g_active g = None;
  adm_request : ∃ v, request_validate request plan (g_clock g) = Some (Ok v);
  adm_number : (g_sequence g < u64_max)%Z;
  adm_timeout : is_Some (checked_after limit now timeout);
}.

Lemma sample_exact g request plan :
  request_validate request plan (g_clock g) ≠ None →
  ∃ r g', start_sample g request plan = (Some r, g') ∧ quiet g g' ∧
    (is_ok r = true ↔
      (g_poisoned g = false ∧ g_lost g = false) ∧ (∀ f, ck_phase (g_clock g) ≠ PhaseFaulted f) ∧
      (g_stopped g = false ∧ g_ready g = true) ∧ g_active g = None ∧
      (∃ v, request_validate request plan (g_clock g) = Some (Ok v)) ∧ (g_sequence g < u64_max)%Z) ∧
    ∀ s, r = Ok s → g' = g ∧ s = mkSample (g_clock g) (g_version g) (g_sequence g) (g_sequence g + 1).
Proof.
  intros Hv. pose proof (sample_quiet g request plan) as Hq. unfold start_sample in *.
  destruct (lock g) as [[k|] g1] eqn:El; cbn in Hq.
  { eexists _, _. split_and!; [done|done| |done]. cbn. split; [done|]. intros [[Hp Hl] _].
    unfold lock in El. by rewrite Hp, Hl in El. }
  apply lock_None in El as (->&Hp&Hl).
  assert (Hgen : ∀ r, match ck_phase (g_clock g) with
     | PhaseFaulted failure => Some (Err (StartFaulted failure))
     | _ => if g_stopped g then Some (Err StartStopped) else if negb (g_ready g) then Some (Err NotRunning)
            else r end = (r : option (result StartSample StepStartError)) ∧
         (∀ f, ck_phase (g_clock g) ≠ PhaseFaulted f) ∧ (g_stopped g = false ∧ g_ready g = true) ∨
       ∃ e, match ck_phase (g_clock g) with
     | PhaseFaulted failure => Some (Err (StartFaulted failure))
     | _ => if g_stopped g then Some (Err StartStopped) else if negb (g_ready g) then Some (Err NotRunning)
            else r end = Some (Err e) ∧
         ¬ ((∀ f, ck_phase (g_clock g) ≠ PhaseFaulted f) ∧ (g_stopped g = false ∧ g_ready g = true))).
  { intros r. destruct (ck_phase (g_clock g)) as [| | |f|]; destruct (g_stopped g), (g_ready g); cbn;
      try (left; by split_and!); right; eexists; (split; [done|]); intros [Hc [? ?]]; try done; by apply (Hc f). }
  match goal with |- context [if negb (g_ready g) then Some (Err NotRunning) else ?r] => destruct (Hgen r) as [(Heq&Hc&Ho)|(e&Heq&Hno)] end;
    clear Hgen; rewrite Heq; clear Heq.
  2: { eexists _, _. split_and!; [done|done| |done]. cbn. split; [done|]. intros (_&?&?&_). by destruct Hno. }
  destruct (g_active g) as [n|].
  { eexists _, _. split_and!; [done|done| |done]. cbn. split; [done|]. by intros (_&_&_&?&_). }
  destruct (request_validate request plan (g_clock g)) as [[v|e]|]; [| |done].
  2: { eexists _, _. split_and!; [done|done| |done]. cbn. split; [done|]. by intros (_&_&_&_&(?&?)&_). }
  unfold checked_succ, checked_add. destruct (_ <? _)%Z eqn:E; breflect_in E.
  - eexists _, _. split_and!; [done|done| |by intros s [= <-]]. cbn. split; [intros _|done].
    split_and!; try done; try apply Hc; try apply Ho; [by exists v|]. unfold u64_max. lia.
  - eexists _, _. split_and!; [done|done| |done]. cbn. split; [done|]. intros (_&_&_&_&_&Hlt).
    unfold u64_max in Hlt. lia.
Qed.

Lemma checked_after_earlier limit called now timeout :
  (called ≤ now)%Z → is_Some (checked_after limit now timeout) → is_Some (checked_after limit called timeout).
Proof.
  intros Hle. unfold checked_after. destruct timeout as [t|]; [|done].
  destruct (t =? 0)%Z; [done|]. destruct (now + t <=? limit)%Z eqn:E; breflect_in E; [intros _|by intros []].
  rewrite (proj2 (Z.leb_le _ _)) by lia. by eexists.
Qed.

(** What an accepted request leaves in the gate. *)
Record accepted (g : Gate) (n : Z) (g' : Gate) : Prop := {
  ac_gate : gate_ok g';
  ac_later : gate_le g g';
  ac_next : n = g_sequence g;
  ac_slot : g_active g' = Some n;
  ac_run : ∃ run, bt_get n (g_runs g') = Some run ∧ run_result run = None ∧ run_cancelled run = false ∧
    run_tick run = mkStepId (ck_epoch (g_clock g)) (ck_next_index (g_clock g)) ∧
    g_clock g' = with_phase (g_clock g) (PhaseRunning (run_tick run));
}.

(** The second critical section on the gate that was sampled. *)
Lemma admit_same limit g timeout now a g' :
  g_poisoned g = false ∧ g_lost g = false → g_stopped g = false → g_active g = None →
  start_admit limit g (mkSample (g_clock g) (g_version g) (g_sequence g) (g_sequence g + 1)) timeout now = (a, g') →
  (∃ n, a = Accepted n) ↔ is_Some (checked_after limit now timeout).
Proof.
  intros [Hp Hl] Hs Ha. unfold start_admit, lock. rewrite Hp, Hl, Hs, Ha. cbn.
  rewrite Z.eqb_refl, Nat.eqb_refl. cbn. destruct (checked_after limit now timeout) as [d|]; intros [= <- <-].
  - split; [by eexists|]. intros _. by eexists.
  - split; [by intros []|by intros []].
Qed.

(** One round of [start] in which other threads do not take the slot. *)
Lemma start_round limit g request timeout plan called others now :
  gate_ok g → request_validate request plan (g_clock g) ≠ None → (called ≤ now)%Z →
  (∀ g, gate_ok g → quiet g (others g)) →
  ∃ r g', start limit g request timeout plan called [(others, now)] = Some (r, g') ∧
    (others g = g → is_ok r = true ↔ admits limit g request timeout plan now) ∧
    match r with
    | Ok n => accepted (others g) n g' ∧ (∀ f, ck_phase (g_clock g) ≠ PhaseFaulted f) ∧
              ∃ v, request_validate request plan (g_clock g) = Some (Ok v)
    | Err _ => quiet g g'
    end.
Proof.
  intros Hok Hv Hle Hothers. unfold start.
  destruct (checked_after limit called timeout) as [d|] eqn:Ed.
  2: { exists (Err InvalidTimeout), g. split_and!; [done| |done]. intros _. split; [done|]. intros [_ _ _ _ _ _ Ht].
       apply (checked_after_earlier _ _ _ _ Hle) in Ht. rewrite Ed in Ht. by destruct Ht. }
  cbn [gate_start]. destruct (sample_exact g request plan Hv) as (r&g1&Hs&Hq&Hiff&Heq). rewrite Hs.
  destruct r as [s|e]; cbn in Hiff.
  2: { exists (Err e), g1. split_and!; [done| |done]. intros _. split; [done|]. intros [H1 H2 H3 H4 H5 H6 _].
       apply Hiff. exact (conj H1 (conj H2 (conj H3 (conj H4 (conj H5 H6))))). }
  destruct (Heq s eq_refl) as [-> ->]. destruct (proj1 Hiff eq_refl) as (Hp&Hc&Ho&Ha&Hreq&Hseq).
  pose proof (Hothers g Hok) as Hqo. assert (Hoko : gate_ok (others g)) by by apply (quiet_ok g).
  set (s := mkSample (g_clock g) (g_version g) (g_sequence g) (g_sequence g + 1)).
  assert (Hsm : sample_ok (others g) s).
  { destruct Hqo as [_ _ Hck Hvr _ _ _]. split_and!; cbn; [apply (go_sequence _ Hok)| |lia|done].
    unfold checked_succ, checked_add. unfold u64_max in Hseq. by rewrite (proj2 (Z.ltb_lt _ _)) by lia. }
  destruct (start_admit limit (others g) s timeout now) as [a g'] eqn:Eadm.
  assert (Hid : others g = g → (∃ n, a = Accepted n) ↔ admits limit g request timeout plan now).
  { intros Hid. rewrite Hid in Eadm. rewrite (admit_same _ _ _ _ _ _ Hp (proj1 Ho) Ha Eadm).
    split; [intros ?; by split|by intros []]. }
  pose proof (admit_spec _ _ _ _ _ _ _ Hoko Hsm Eadm) as Hspec. destruct a as [n|e|].
  - destruct Hspec as (H1&H2&_&H3&H4&H5&H6&H7&H8&H9&H10). exists (Ok n), g'.
    split_and!; [done| |by split|done|done]. intros Hg. rewrite <- Hid by done. split; [by eexists|done].
  - exists (Err e), g'. split_and!; [done| |by etrans]. intros Hg. rewrite <- Hid by done. split; [done|by intros []].
  - destruct Hspec as [_ [Hne|Hne]]; destruct Hqo as [_ Hsq _ Hvr _ _ _]; cbn in Hne; congruence.
Qed.

(** With no interference, a request is admitted exactly when the supervisor is
    present, the host is ready and not stopped, the epoch is not faulted, no run
    is in flight, the request is valid for the current clock, run numbers are left
    and the timeout is positive and representable; an admitted request gets the
    next number and the slot, and a rejected one changes no run, clock or slot. *)
Theorem start_exact (limit : Z) (g : Gate) (request : StepRequest) (timeout : option Z) (plan : Plan)
    (called now : Z) :
  gate_ok g → request_validate request plan (g_clock g) ≠ None → (called ≤ now)%Z →
  ∃ r g', start limit g request timeout plan called [(id, now)] = Some (r, g') ∧
    (is_ok r = true ↔ admits limit g request timeout plan now) ∧
    match r with Ok n => accepted g n g' | Err _ => quiet g g' end.
Proof.
  intros Hok Hv Hle. destruct (start_round limit g request timeout plan called id now Hok Hv Hle)
    as (r&g'&Hs&Hiff&Hr); [done|].
  exists r, g'. split_and!; [done|by apply Hiff|]. destruct r; [by destruct Hr|done].
Qed.

Lemma idle_ok : gate_ok idle_gate.
Proof. apply (quiet_ok (gate_new (clock loop_scheduler))); [apply gate_new_ok|apply activate_quiet]. Qed.

Lemma start_exact_witness :
  ∃ r g', start 1000000000000 idle_gate (target 2) (Some 5%Z) (sch_plan loop_scheduler) 0 [(id, 1%Z)] = Some (r, g') ∧
    (is_ok r = true ↔ admits 1000000000000 idle_gate (target 2) (Some 5%Z) (sch_plan loop_scheduler) 1) ∧
    match r with Ok n => accepted idle_gate n g' | Err _ => quiet idle_gate g' end.
Proof. apply start_exact; [exact idle_ok|by vm_compute|lia]. Defined.

(** ** Attempts *)

(** A request that was checked against the gate's clock is valid for the scheduler. *)
Lemma agreed_request s g request v :
  sched_ok s → request_typed request → agrees g s →
  request_validate request (sch_plan s) (g_clock g) = Some (Ok v) → request_wf s request.
Proof.
  intros Hs Hr [He Hi Ht] Hv. destruct (request_validate_spec s request Hs Hr) as (v'&Hv'&Hspec).
  assert (Heq : request_validate request (sch_plan s) (g_clock g) =
                request_validate request (sch_plan s) (clock s)).
  { unfold request_validate. cbn. by rewrite He, Hi, Ht. }
  rewrite Heq, Hv' in Hv. injection Hv as ->. by destruct Hspec.
Qed.

(** C6: an accepted run is resolved by one attempt of the driver, whatever other
    threads do to the gate in between (stop, cancel, lose the supervisor): the
    attempt returns; a retained success means that the scheduler committed exactly
    the requested tick and the gate shows its new clock; a retained error means
    that logical time did not move, and either nothing was dispatched or the epoch
    is faulted with that error on both sides; no result is left only if the
    supervisor is gone, and then no tick was committed either. *)
Theorem attempt_agrees {X : Type} (invoke : X → str → StepTick → StepInputs → Invocation * X)
    (begin : X → Run → X) (failure_of : X → option StepFailureKind)
    (limit : Z) (s : StepScheduler) (x : X) (g g1 : Gate) (request : StepRequest) (timeout : option Z)
    (called now n : Z) (others : Gate → Gate) (w : Schedule) :
  executor_typed invoke → sched_ok s → sch_fault s = None → request_typed request →
  gate_ok g → agrees g s → (called ≤ now)%Z → (∀ g, gate_ok g → quiet g (others g)) →
  quiet_op (meanwhile w) → quiet_op (afterwards w) →
  start limit g request timeout (sch_plan s) called [(others, now)] = Some (Ok n, g1) →
  ∃ run e s' x' g', bt_get n (g_runs g1) = Some run ∧
    run_tick run = tick_id (vr_tick (validated s request)) ∧
    driver_advance invoke begin failure_of w s x g1 n run request = Some (e, s', x', g') ∧
    sched_ok s' ∧ gate_ok g' ∧ gate_le g1 g' ∧ attempt_post s n request e s' g'.
Proof.
  intros Hx Hs Hf Hr Hok Hag Hle Hoth Hmean Haft Hst.
  assert (Hv : request_validate request (sch_plan s) (g_clock g) ≠ None).
  { destruct (request_validate_spec s request Hs Hr) as (v'&Hv'&_).
    assert (Heq : request_validate request (sch_plan s) (g_clock g) =
                  request_validate request (sch_plan s) (clock s)).
    { unfold request_validate. destruct Hag as [He Hi Ht]. cbn. by rewrite He, Hi, Ht. }
    by rewrite Heq, Hv'. }
  destruct (start_round limit g request timeout (sch_plan s) called others now Hok Hv Hle Hoth)
    as (r&g2&Hst'&_&Hpost). rewrite Hst in Hst'. injection Hst' as <- <-.
  destruct Hpost as ([Hok1 _ _ Hact (run&Hrun&_&_&Htick&_)]&_&v&Hval).
  pose proof (agreed_request _ _ _ _ Hs Hr Hag Hval) as Hwf.
  destruct (driver_advance_spec invoke begin failure_of Hx w s x g1 n run request) as (e&s'&x'&g'&Hd&Hg'&Hl'&Hs'&_&_&Hp);
    [done..|].
  exists run, e, s', x', g'. split_and!; try done.
  rewrite Htick. destruct Hag as [He Hi _], (Hoth g Hok) as [_ _ Hck _ _ _ _]. cbn. by rewrite Hck, He, Hi.
Qed.

(** The run is cancelled while its nodes execute. *)
Definition cancelled_meanwhile : Schedule := mkSchedule 1 2 3 (λ g, (cancel g 0).2) stop.

Definition started_gate : Gate :=
  match start 1000000000000 idle_gate (target 2) (Some 5%Z) (sch_plan loop_scheduler) 0 [(publish, 1%Z)] with
  | Some (_, g) => g
  | None => idle_gate
  end.

Lemma attempt_agrees_witness :
  ∃ run e s' x' g', bt_get 0%Z (g_runs started_gate) = Some run ∧
    run_tick run = tick_id (vr_tick (validated loop_scheduler (target 2))) ∧
    driver_advance adding (λ x _, x) (λ _, None) cancelled_meanwhile loop_scheduler [] started_gate 0 run
      (target 2) = Some (e, s', x', g') ∧
    sched_ok s' ∧ gate_ok g' ∧ gate_le started_gate g' ∧
    attempt_post loop_scheduler 0 (target 2) e s' g'.
Proof.
  apply (attempt_agrees adding (λ x _, x) (λ _, None) 1000000000000 loop_scheduler [] idle_gate started_gate
           (target 2) (Some 5%Z) 0 1 0 publish cancelled_meanwhile).
  - exact adding_typed.
  - exact (sched_reachable_ok _ loop_reachable).
  - done.
  - apply target_typed.
  - exact idle_ok.
  - by split; vm_compute.
  - lia.
  - intros g _. apply publish_quiet.
  - intros g Hg _. by apply cancel_quiet, Hg.
  - intros g _ _. apply stop_quiet.
  - by vm_compute.
Defined.
