(* ===== verification/StepDispatch.v ===== *)
(** * StepDispatch: what the owner sends is what the hosts accept

    The process executor under the real scheduler, with a record of every call
    that goes out: each host receives the calls of its own nodes, in order, and
    its replay guard accepts them all. *)

From Stdlib Require Import ZArith Lia.
From S2P Require Import Prelude Text Btree Core Bindings Step StepPlan StepScheduler StepSchedulerSpec StepProps.
From S2P Require Import HostProtocol Connection ProcessWire HostMessages ProcessPlan.
From S2P Require Import ProcessAdmit ProcessHost ProcessAdmitSpec ProcessOwner ProcessReplay ProcessProps.
From S2P Require Import StepGate StepDriver.

Section dispatch_call.
Context {H : Type}.
Context (answer : H → nat → InvokeStep → option (result HostMessage ProcessError) * H).
Context (remaining : H → Z → Z) (channels : H → option bool).

(** The channels with a record of every call: the host's number and the call. *)
Definition logged (h : H * list (nat * InvokeStep)) (index : nat) (i : InvokeStep) :
  option (result HostMessage ProcessError) * (H * list (nat * InvokeStep)) :=
  let '(reply, h') := answer h.1 index i in (reply, (h', h.2 ++ [(index, i)])).

Definition dispatch_call (xh : ProcessExecutor * (H * list (nat * InvokeStep))) (instance : str)
    (tick : StepTick) (inputs : StepInputs) :
  Invocation * (ProcessExecutor * (H * list (nat * InvokeStep))) :=
  process_invoke logged (λ h, remaining h.1) (λ h, channels h.1) xh instance tick inputs.

(** A result on the wire is a map. *)
Definition answers_typed : Prop :=
  ∀ h index i call values h',
    answer h index i = (Some (Ok (HostSteps (StepResultMessage (mkStepResult call (Ok values))))), h') →
    bt_ok values.

(** The calls to one host. *)
Definition sent_to (host : nat) (log : list (nat * InvokeStep)) : list InvokeStep :=
  omap (λ e, if e.1 =? host then Some e.2 else None) log.

(** The parts of the executor that calls leave alone. *)
Definition keeps_session (x x' : ProcessExecutor) : Prop :=
  px_placement x' = px_placement x ∧ px_key x' = px_key x.

Lemma import_values_typed values outs : bt_ok values → import_values values = Ok outs → bt_ok outs.
Proof.
  intros Hok. unfold import_values. destruct (_ <? _); [done|]. intros Hm.
  eapply bt_ok_keys, Hok. clear Hok. apply try_map_Ok in Hm.
  induction Hm as [|[p v] y values outs Hx _ IH]; [done|]. cbn. f_equal; [|exact IH].
  destruct (_ <? _)%Z; [done|]. destruct (import_type _); [|done]. by injection Hx as <-.
Qed.

Lemma accept_reply_Ok x call run ordinal instance reply outs x' :
  accept_reply x call run ordinal instance reply = (Ok outs, x') →
  keeps_session x x' ∧ px_run x' = px_run x ∧ px_ordinal x' = px_ordinal x ∧
  ∃ values, reply = Ok (HostSteps (StepResultMessage (mkStepResult call (Ok values)))) ∧
            import_values values = Ok outs.
Proof.
  unfold accept_reply. destruct reply as [[]|]; try done. destruct message as [| | |r]; try done.
  case_bool_decide as Hc; [|done]. destruct r as [rcall [values|f]]; cbn in Hc |- *; [|done].
  destruct (import_values values) as [outputs|] eqn:Ei; cbn; [|done].
  destruct (retain_outputs _ _ _ _ _) as [[]]; [|done]. intros [= <- <-]. cbn. split_and!; try done.
  exists values. by subst.
Qed.

(** An invocation that completes sends one call. *)
Lemma dispatch_Ok xh instance tick inputs outs d xh' :
  dispatch_call xh instance tick inputs = (Polled (Ok (Ok outs)) d, xh') →
  ∃ run deadline index wire values budget,
    px_run xh.1 = Some (run, deadline) ∧ bt_get instance (px_placement xh.1) = Some index ∧
    export_values inputs = Ok wire ∧
    keeps_session xh.1 xh'.1 ∧ px_run xh'.1 = px_run xh.1 ∧ px_ordinal xh'.1 = (px_ordinal xh.1 + 1)%Z ∧
    xh'.2.2 = xh.2.2 ++ [(index, invocation_for (px_key xh.1) run tick (Z.to_nat (px_ordinal xh.1))
                                   instance wire budget)] ∧
    d = None ∧ import_values values = Ok outs ∧ ∃ i call,
      answer xh.2.1 index i = (Some (Ok (HostSteps (StepResultMessage (mkStepResult call (Ok values))))), xh'.2.1).
Proof.
  destruct xh as [x [h log]]. unfold dispatch_call, process_invoke, executor_invoke, logged. cbn.
  destruct (px_run x) as [[run deadline]|] eqn:Er; [|done].
  destruct (checked_add 32 (px_ordinal x) 1) as [next|] eqn:En; [|done].
  assert (next = px_ordinal x + 1)%Z as ->.
  { unfold checked_add in En. by destruct (_ <? _)%Z; simplify_eq. }
  change (px_placement (set_ordinal x (px_ordinal x + 1))) with (px_placement x).
  destruct (channels h) as [[]|]; [|done..].
  destruct (bt_get instance (px_placement x)) as [index|] eqn:Ei; [|done].
  destruct (export_values inputs) as [wire|] eqn:Ex; [|done].
  destruct (answer h index _) as [[reply|] h'] eqn:Ea; [|done].
  destruct (accept_reply _ _ _ _ _ _) as [[outs'|f] x'] eqn:Eacc; [|done].
  intros [= <- <- <-]. apply accept_reply_Ok in Eacc as (Hs&Hr&Ho&values&->&Hi).
  eexists run, deadline, index, wire, values, _. cbn in *. split_and!; try done; [congruence|by eexists _, _].
Qed.

Lemma dispatch_typed : answers_typed → executor_typed dispatch_call.
Proof.
  intros Ha xh n t ins outs d xh' Hd.
  destruct (dispatch_Ok _ _ _ _ _ _ _ Hd) as (?&?&?&?&values&?&_&_&_&_&_&_&_&_&Hi&i&call&Hans).
  eapply import_values_typed, Hi. by eapply Ha.
Qed.

(** The calls of nodes [names] from ordinal [k] on, by the host of each. *)
Definition calls_from (x : ProcessExecutor) (run : Z) (t : StepTick) (k : nat) (names : list str)
    (inputs : nat → str → btree str WireValue) (budget : nat → Z) : list (nat * InvokeStep) :=
  imap (λ i n, (default 0 (bt_get n (px_placement x)),
                invocation_for (px_key x) run t (k + i) n (inputs (k + i) n) (budget (k + i)))) names.

Lemma calls_from_ext x run t k names inputs inputs' budget budget' :
  (∀ i, k ≤ i → inputs i = inputs' i ∧ budget i = budget' i) →
  calls_from x run t k names inputs budget = calls_from x run t k names inputs' budget'.
Proof. intros He. apply imap_ext. intros i n _. destruct (He (k + i)) as [-> ->]; [lia|done]. Qed.

Lemma calls_from_cons x run t k n names inputs budget :
  calls_from x run t k (n :: names) inputs budget =
  (default 0 (bt_get n (px_placement x)), invocation_for (px_key x) run t k n (inputs k n) (budget k)) ::
  calls_from x run t (S k) names inputs budget.
Proof.
  unfold calls_from. rewrite imap_cons, Nat.add_0_r. f_equal. apply imap_ext. intros i m _. cbn.
  by rewrite Nat.add_succ_r.
Qed.

(** The calls of completed invocations. *)
Lemma executes_sends t xh tr xh' run deadline k :
  executes dispatch_call t xh tr xh' →
  px_run xh.1 = Some (run, deadline) → px_ordinal xh.1 = Z.of_nat k →
  keeps_session xh.1 xh'.1 ∧ Forall (λ n, is_Some (bt_get n (px_placement xh.1))) (call_node <$> tr) ∧
  ∃ inputs budget, xh'.2.2 = xh.2.2 ++ calls_from xh.1 run t k (call_node <$> tr) inputs budget.
Proof.
  intros Hx. revert k. induction Hx as [xh|xh n ins outs xh1 tr xh' Hi _ IH]; intros k Hr Hk.
  { split_and!; [done|constructor|]. exists (λ _ _, []), (λ _, 0%Z). by rewrite app_nil_r. }
  destruct (dispatch_Ok _ _ _ _ _ _ _ Hi)
    as (run'&dl'&index&wire&values&b&Hr'&Hp&_&[Hs1 Hs2]&Hr1&Ho&Hlog&_).
  rewrite Hr in Hr'. injection Hr' as <- <-. rewrite Hk, Nat2Z.id in Hlog.
  destruct (IH (S k)) as ([Hs3 Hs4]&Hall&inputs&budget&Hlog'); [congruence|lia|].
  split_and!; [split; congruence| |].
  { cbn. apply List.Forall_cons; [by exists index|]. by rewrite <- Hs1. }
  exists (λ i, if i =? k then λ _, wire else inputs i), (λ i, if i =? k then b else budget i).
  rewrite Hlog', Hlog, <- app_assoc. f_equal. cbn [fmap list_fmap call_node fst app].
  rewrite calls_from_cons, Nat.eqb_refl, Hp. cbn [default]. f_equal.
  unfold calls_from at 1. rewrite Hs1, Hs2. fold (calls_from xh.1 run t (S k) (call_node <$> tr) inputs budget).
  apply calls_from_ext. intros i Hlt. by rewrite (proj2 (Nat.eqb_neq i k)) by lia.
Qed.

Lemma sent_to_app host a b : sent_to host (a ++ b) = sent_to host a ++ sent_to host b.
Proof. apply omap_app. Qed.

(** What one host gets of them is [owner_calls]. *)
Lemma sent_to_calls x run t names inputs budget host schemas :
  Forall (λ n, is_Some (bt_get n (px_placement x))) names →
  (∀ n, n ∈ names → bt_contains n schemas = true ↔ bt_get n (px_placement x) = Some host) →
  sent_to host (calls_from x run t 0 names inputs budget) =
  owner_calls (px_key x) names schemas inputs budget run t.
Proof.
  intros Hall Hs. unfold owner_calls.
  change (imap (λ ordinal n, (ordinal, n)) names) with (imap (λ ordinal n, (0 + ordinal, n)) names).
  generalize 0 as k.
  induction names as [|n names IH]; intros k; [done|]. apply List.Forall_cons_iff in Hall as [[index Hn] Hall].
  assert (Hns : bt_contains n schemas = true ↔ bt_get n (px_placement x) = Some host) by (apply Hs; by left).
  rewrite calls_from_cons, imap_cons, Nat.add_0_r, Hn. cbn [sent_to omap list_omap fst snd default].
  rewrite (imap_ext ((λ ordinal n, (k + ordinal, n)) ∘ S) (λ ordinal n, (S k + ordinal, n)))
    by (intros; cbn; by rewrite Nat.add_succ_r).
  rewrite <- IH; [|done|intros; apply Hs; by right]. rewrite Hn in Hns. unfold id.
  destruct (bt_contains n schemas).
  - injection (proj1 Hns eq_refl) as ->. by rewrite Nat.eqb_refl.
  - destruct (index =? host) eqn:E; [|done]. apply Nat.eqb_eq in E as ->. by discriminate (proj2 Hns eq_refl).
Qed.

(** ** The calls of committed ticks *)

Section ticks.
Context {C : Type} (commit : C → StepReceipt → ClockSnapshot → option StepFailureKind * C).
(** The run with each number, which has a deadline *)
Context (runs_of : Z → Run).
Hypothesis Hruns : ∀ n, ri_sequence (run_id (runs_of n)) = n ∧ is_Some (run_deadline (runs_of n)).
Hypothesis Hanswers : answers_typed.

Definition begin_run (n : Z) (xh : ProcessExecutor * (H * list (nat * InvokeStep))) :
  ProcessExecutor * (H * list (nat * InvokeStep)) := process_begin xh (runs_of n).

Lemma begin_run_spec n xh :
  keeps_session xh.1 (begin_run n xh).1 ∧ (begin_run n xh).2 = xh.2 ∧
  px_ordinal (begin_run n xh).1 = 0%Z ∧ ∃ deadline, px_run (begin_run n xh).1 = Some (n, deadline).
Proof.
  destruct xh as [x h]. destruct (Hruns n) as [Hn [deadline Hd]].
  split; [done|]. split; [done|]. split; [done|]. exists deadline. cbn. rewrite Hd. cbn. by rewrite Hn.
Qed.

Lemma ticks_increase last s xh c ts xh' :
  commits_ticks dispatch_call commit begin_run last s xh c ts xh' →
  ∀ l, last = Some l → Forall (λ e : Z * StepTick, l < e.1)%Z ts.
Proof.
  induction 1 as [|last s xh c r run rc s' xh1 c' ts xh2 _ Hl _ _ _ IH]; intros l Hlast; [constructor|].
  apply List.Forall_cons; [by apply Hl|]. eapply Forall_impl; [by apply IH|]. cbn.
  intros e. specialize (Hl l Hlast). lia.
Qed.

Lemma ticks_send last s xh c ts xh' host schemas :
  sched_ok s → commits_ticks dispatch_call commit begin_run last s xh c ts xh' →
  (∀ n, n ∈ pl_order (sch_plan s) →
     bt_contains n schemas = true ↔ bt_get n (px_placement xh.1) = Some host) →
  ∃ inputs budget,
    sent_to host xh'.2.2 = sent_to host xh.2.2 ++
      (ts ≫= λ '(run, t), owner_calls (px_key xh.1) (pl_order (sch_plan s)) schemas (inputs run) (budget run) run t).
Proof.
  intros Hs Hts. revert Hs.
  induction Hts as [|last s xh c r run rc s' xh1 c' ts xh2 Hr Hl Hmax Ha Hts IH]; intros Hs Hplace.
  { exists (λ _ _ _, []), (λ _ _, 0%Z). cbn. by rewrite app_nil_r. }
  destruct (sch_fault s) as [f|] eqn:Ef.
  { by rewrite (advance_faulted dispatch_call commit s (begin_run run xh) c r f Ef) in Ha. }
  destruct (advance_spec dispatch_call commit s (begin_run run xh) c r Hs Hr (dispatch_typed Hanswers) Ef)
    as (a&?&?&?&Ha'&Hs'&Hplan&_&Hpost).
  rewrite Ha in Ha'. simplify_eq. cbn in Hpost. destruct Hpost as (_&Hcm&_).
  destruct (cm_calls _ _ _ _ _ _ _ Hcm) as (tr&Hnames&Hex&_).
  destruct (begin_run_spec run xh) as ([Hb1 Hb2]&Hb3&Hb4&deadline&Hb5).
  destruct (executes_sends _ _ _ _ run deadline 0 Hex Hb5 Hb4) as ([Hx1 Hx2]&Hall&inputs&budget&Hlog).
  rewrite Hnames in Hall, Hlog. rewrite Hb1 in Hall. rewrite Hplan in IH.
  destruct IH as (inputs'&budget'&IH); [done|by rewrite Hx1, Hb1|].
  rewrite Hx2, Hb2 in IH.
  exists (λ n, if (n =? run)%Z then inputs else inputs' n), (λ n, if (n =? run)%Z then budget else budget' n).
  rewrite IH, Hlog, Hb3, sent_to_app, <- app_assoc. cbn [mbind list_bind]. rewrite Z.eqb_refl.
  f_equal. rewrite <- Hb2. f_equal; [apply sent_to_calls; rewrite Hb1; done|].
  apply Forall_bind_ext.
  eapply Forall_impl; [by eapply ticks_increase|]. intros [run' t] Hlt. cbn in *.
  by rewrite (proj2 (Z.eqb_neq run' run)) by lia.
Qed.

(** A host that is bound to the session accepts every call it gets. *)
Lemma sent_accepted encode sha256_hex plan key time reports epoch s schemas host g xh c ts xh' :
  draft_typed plan → is_duration time → bound_from encode sha256_hex plan key time reports epoch s →
  bt_ok schemas → guard_start (os_bound s) schemas = Ok g → px_key xh.1 = bd_session (os_bound s) →
  (∀ n, n ∈ bd_order (os_bound s) →
     bt_contains n schemas = true ↔ bt_get n (px_placement xh.1) = Some host) →
  commits_ticks dispatch_call commit begin_run None (os_scheduler s) xh c ts xh' → xh.2.2 = [] →
  is_ok (reserve_all g (sent_to host xh'.2.2)) = true.
Proof.
  intros Ht Htime Hb Hok Hg Hkey Hplace Hts Hlog. pose proof Hb as [_ _ _ _ Hord _ _ _ _].
  rewrite Hord in Hplace.
  pose proof (bound_sched_ok _ _ _ _ _ _ _ _ Ht Htime Hb) as Hso.
  destruct (ticks_send None _ _ _ _ _ host schemas Hso Hts Hplace) as (inputs&budget&->).
  rewrite Hlog, Hkey, <- Hord. cbn [sent_to omap list_omap app].
  by eapply owner_calls_reserved; [..|apply (dispatch_typed Hanswers)|exact Hts].
Qed.
End ticks.
End dispatch_call.

(** C5: a host never rejects the owner: when the scheduler of a bound session
    commits any sequence of ticks through the process executor, with the run
    numbers increasing, whatever the channels answer, the calls that go out to a
    host are exactly those of its nodes, and the host's replay guard accepts them
    all. *)
Theorem owner_calls_accepted {H C : Type}
    (encode : WireGraph → WireDuration → result (list Z) ProcessError) (sha256_hex : list Z → str)
    (plan : ProcessStepPlan) (key : StepSessionKey) (time : Z) (reports : reports_t) (epoch : Z)
    (s : OwnerSession) (schemas : btree str StepSchema) (host : nat) (g : ReplayGuard)
    (answer : H → nat → InvokeStep → option (result HostMessage ProcessError) * H)
    (remaining : H → Z → Z) (channels : H → option bool)
    (commit : C → StepReceipt → ClockSnapshot → option StepFailureKind * C) (runs_of : Z → Run)
    (x x' : ProcessExecutor) (h h' : H) (log : list (nat * InvokeStep)) (c : C) (ts : list (Z * StepTick)) :
  draft_typed plan → is_duration time → bound_from encode sha256_hex plan key time reports epoch s →
  bt_ok schemas → guard_start (os_bound s) schemas = Ok g →
  px_key x = bd_session (os_bound s) →
  (∀ n, n ∈ bd_order (os_bound s) →
     bt_contains n schemas = true ↔ bt_get n (px_placement x) = Some host) →
  (∀ n, ri_sequence (run_id (runs_of n)) = n ∧ is_Some (run_deadline (runs_of n))) →
  answers_typed answer →
  commits_ticks (dispatch_call answer remaining channels) commit (begin_run runs_of) None (os_scheduler s)
    (x, (h, [])) c ts (x', (h', log)) →
  (∃ inputs budget,
     sent_to host log = ts ≫= λ '(run, t),
       owner_calls (px_key x) (bd_order (os_bound s)) schemas (inputs run) (budget run) run t) ∧
  is_ok (reserve_all g (sent_to host log)) = true.
Proof.
  intros Ht Htime Hb Hok Hg Hkey Hplace Hruns Hans Hts. split.
  - pose proof (bound_sched_ok _ _ _ _ _ _ _ _ Ht Htime Hb) as Hso. rewrite (bf_order _ _ _ _ _ _ _ _ Hb) in Hplace |- *.
    exact (ticks_send answer remaining channels commit runs_of Hruns Hans None _ _ _ _ _ host schemas Hso Hts Hplace).
  - change log with (x', (h', log)).2.2.
    by eapply (sent_accepted _ _ _ commit runs_of Hruns Hans _ _ _ _ _ _ _ s schemas host g (x, (h, []))).
Qed.

(** ** The loop over two hosts *)

(** Every host adds up the inputs of its node. *)
Definition adding_hosts (h : nat) (index : nat) (i : InvokeStep) :
  option (result HostMessage ProcessError) * nat :=
  let total := foldr Z.add 0%Z ((iv_inputs i).*2 ≫= wv_bytes) in
  (Some (Ok (HostSteps (StepResultMessage
      (mkStepResult (iv_call i) (Ok [(out_port, mkWireValue (export_type number) [total])]))))), S h).

Definition loop_executor : ProcessExecutor :=
  mkProcessExecutor [(controller, 0); (physics, 1)] (bd_session (os_bound loop_owner)) [] 1
    (mkAccounting 1000 0 None 0 0) None 0 None.

Definition loop_run_of (n : Z) : Run := mkRun (mkRunId 0 n) (mkStepId 0 0) (Some 9%Z) false None.

Definition loop_dispatch :=
  dispatch_call adding_hosts (λ (h : nat) d, (d - Z.of_nat h)%Z) (λ _, Some true).

(** One tick of run [n]. *)
Definition step_once (s : StepScheduler) (x : ProcessExecutor * (nat * list (nat * InvokeStep))) (n : Z)
    (r : StepRequest) :
  StepReceipt * StepScheduler * (ProcessExecutor * (nat * list (nat * InvokeStep))) :=
  match advance_controlled loop_dispatch direct_commit s (begin_run loop_run_of n x) tt r with
  | Some (Returned (Ok rc), s', x', _) => (rc, s', x')
  | _ => (mkReceipt (mkStepTick (mkStepId 0 0) 0 0 0) [], s, x)
  end.

(** Run 1 was cancelled before it was dispatched. *)
Definition first_tick := step_once (os_scheduler loop_owner) (loop_executor, (0, [])) 0 (target 2).
Definition second_tick := step_once first_tick.1.2 first_tick.2 2 (target 3).
Definition loop_runs : list (Z * StepTick) :=
  [(0%Z, rc_tick first_tick.1.1); (2%Z, rc_tick second_tick.1.1)].

Lemma loop_commits :
  commits_ticks loop_dispatch direct_commit (begin_run loop_run_of) None (os_scheduler loop_owner)
    (loop_executor, (0, [])) tt loop_runs second_tick.2.
Proof.
  apply (ticks_cons loop_dispatch direct_commit (begin_run loop_run_of) None _ _ _ (target 2) 0
           first_tick.1.1 first_tick.1.2 first_tick.2 tt);
    [apply target_typed|done|by vm_compute|by vm_compute|].
  apply (ticks_cons loop_dispatch direct_commit (begin_run loop_run_of) (Some 0%Z) _ _ _ (target 3) 2
           second_tick.1.1 second_tick.1.2 second_tick.2 tt);
    [apply target_typed|by intros ? [= <-]|by vm_compute|by vm_compute|].
  constructor.
Qed.

Lemma owner_calls_accepted_witness :
  is_ok (reserve_all right_guard (sent_to 1 second_tick.2.2.2)) = true ∧
  length (sent_to 1 second_tick.2.2.2) = 2.
Proof.
  split; [|by vm_compute].
  apply (owner_calls_accepted encode_any hash_any loop_plan loop_key 0 loop_reports 0 loop_owner
           [(physics, node_schema physics)] 1 right_guard adding_hosts (λ (h : nat) d, (d - Z.of_nat h)%Z)
           (λ _, Some true) direct_commit loop_run_of loop_executor second_tick.2.1 0 second_tick.2.2.1
           second_tick.2.2.2 tt loop_runs).
  - exact loop_plan_typed.
  - exact zero_duration.
  - exact (proj1 (owner_prepare_Ok _ _ _ _ _ _ _ _ _ _ loop_prepares)).
  - by repeat constructor.
  - by vm_compute.
  - done.
  - replace (bd_order (os_bound loop_owner)) with [controller; physics] by (by vm_compute).
    intros n [->|[->|[]%elem_of_nil]%elem_of_cons]%elem_of_cons; by vm_compute.
  - intros n. split; [done|by exists 9%Z].
  - intros h i call c values h' [= _ <- _]. by repeat constructor.
  - exact loop_commits.
Defined.
