(* ===== verification/LaunchTypes.v ===== *)
(** * LaunchTypes: the module language of the launcher and its checks
    ([crates/reiny-launch/src/modules/model.rs], [types.rs], [hosted.rs],
    [modules/validation.rs], [modules.rs], [crates/reiny-launch/src/artifacts.rs])

    Manifests as they are after YAML parsing, resolved modules and plans.  Paths
    are byte strings with the rules of Unix paths.  A map of the code is a
    [btree].  Serde attributes are not modelled, except the visitor that
    refuses duplicate keys and the conversion that checks caller ports.  The
    definition checks need nothing but the manifest; [validate_manifest] adds
    what depends on the place of the manifest in the tree. *)

From Stdlib Require Import ZArith Lia.
From S2P Require Import Prelude Text Btree Bindings.

(** ** Paths *)

Definition path : Type := str.

(** [Path::is_absolute] *)
Definition is_absolute (p : path) : bool :=
  match p with c :: _ => (c =? 47)%Z | [] => false end.

(** [Path::join] *)
Definition path_join (base p : path) : path :=
  if is_absolute p then p else
  match last base with
  | Some c => if (c =? 47)%Z then base ++ p else base ++ 47%Z :: p
  | None => p
  end.

Definition absolute (base p : path) : path :=
  if is_absolute p then p else path_join base p.

(** ** Builds *)

Record CargoBuild : Type := mkCargoBuild {
  cb_manifest : path;
  cb_package : option str;
  cb_profile : str;
  cb_features : list str;
  cb_default_features : bool;
  cb_locked : bool;
  cb_cwd : option path;
  cb_target : option str;
  cb_env : btree str str;
}.

Record CommandBuild : Type := mkCommandBuild {
  cm_argv : list str;
  cm_cwd : path;
  cm_env : btree str str;
  cm_outputs : btree str path;
  cm_files : btree path path;
}.

Inductive BuildSpec : Type :=
  | Cargo (build : CargoBuild)
  | Command (build : CommandBuild).

Definition resolve_paths (self : BuildSpec) (module_dir : path) : BuildSpec :=
  match self with
  | Cargo b =>
      Cargo (mkCargoBuild (path_join module_dir (cb_manifest b)) (cb_package b) (cb_profile b)
               (cb_features b) (cb_default_features b) (cb_locked b)
               (Some (path_join module_dir (default (bytes_of ".") (cb_cwd b))))
               (cb_target b) (cb_env b))
  | Command b =>
      Command (mkCommandBuild (cm_argv b) (path_join module_dir (cm_cwd b)) (cm_env b)
                 (cm_outputs b) (cm_files b))
  end.

(** ** Errors *)

(** The two sides of a type mismatch, before they are printed. *)
Inductive TypeText : Type :=
  | TypeNamed (type_name : str)
  | TypeContract (kind : PortKind) (type_name : str) (response : option str).

(** [IoError], [YamlError] and [AcquireError] are the errors of the file system,
    of the YAML parser and of Git. *)
Inductive ModuleError : Type :=
  | IoError (at_path : path) (source : str)
  | YamlError (at_path : path) (source : str)
  | Invalid (module message : str)
  | Reference (module reference message : str)
  | ModTypeMismatch (port : str) (expected actual : TypeText)
  | ModCycle (at_ : str)
  | Acquisition (error : str).

(** ** Declarations *)

Inductive PortSources : Type := One (source : str) | Many (sources : list str).

Definition sources_references (self : PortSources) : list str :=
  match self with One source => [source] | Many sources => sources end.

Record PortSpec : Type := mkPortSpec {
  ps_semantics : btree str str;
  ps_type_name : str;
  ps_from : option PortSources;
  ps_kind : PortKind;
  ps_response : option str;
  ps_qos : QosProfile;
  ps_retention : Retention;
  ps_replay : Replay;
  ps_buffer : ReceiveBuffer;
}.

(** [PortSpec::contract] *)
Definition port_contract (self : PortSpec) : EndpointContract :=
  mkContract (ps_semantics self) (ps_type_name self) (ps_kind self) (ps_response self)
    (ps_qos self) (ps_retention self) (ps_replay self) (ps_buffer self).

Record PortConnection : Type := mkConnection {
  pc_type_name : str;
  pc_from : option PortSources;
}.

Record GitSource : Type := mkGitSource { gs_git : str; gs_reference : str; gs_path : path }.

Inductive ModuleSource : Type := LocalDir (p : path) | Git (source : GitSource).

Record ModuleCall : Type := mkCall {
  mc_source : ModuleSource;
  mc_providers : btree str str;
  mc_inputs : btree str PortConnection;
  mc_outputs : btree str PortConnection;
  mc_config : option path;
  mc_config_assets : option (list path);
  mc_args : option (list str);
}.

Inductive ProviderKind : Type := Process | Artifact.
#[export] Instance ProviderKind_eq_dec : EqDecision ProviderKind.
Proof. solve_decision. Defined.

Record ProviderSpec : Type := mkProvider {
  pv_kind : ProviderKind;
  pv_bin_dir : path;
  pv_zenoh_config : option path;
  pv_connect : list str;
}.

Inductive RestartPolicy : Type := Manual | OnFailure | Always.
Inductive FailurePolicy : Type := FReport | SuspendDeployment.
Inductive RunKind : Type := KService | KTask.

Record RunSpec : Type := mkRun {
  rs_kind : RunKind;
  rs_provider : str;
  rs_bin : str;
  rs_companions : list str;
  rs_config : option path;
  rs_config_assets : list path;
  rs_args : list str;
  rs_restart : RestartPolicy;
  rs_on_failure : FailurePolicy;
}.

Record ResourceSpec : Type := mkResource {
  re_kind : str;
  re_provider : str;
  re_source : path;
  re_sha256 : option str;
}.

(** ** Hosted components *)

Record ComponentSpec : Type := mkComponentSpec {
  cs_factory : str;
  cs_factory_revision : str;
  cs_config : option path;
  cs_config_assets : list path;
}.

Inductive ComponentTransport : Type := RoutedZenoh | LocalOnly.
#[export] Instance ComponentTransport_eq_dec : EqDecision ComponentTransport.
Proof. solve_decision. Defined.

Record ComponentHostSpec : Type := mkHostSpec {
  hs_provider : str;
  hs_bin : str;
  hs_transport : ComponentTransport;
  hs_build : option BuildSpec;
  hs_restart : RestartPolicy;
  hs_on_failure : FailurePolicy;
}.

Record ComponentHost : Type := mkHost {
  ch_module_dir : path;
  ch_spec : ComponentHostSpec;
  ch_provider : ProviderSpec;
}.

Record ComponentModule : Type := mkComponent {
  cmp_namespace : str;
  cmp_module_dir : path;
  cmp_component : ComponentSpec;
  cmp_host : str;
  cmp_bindings : ModuleBindings;
}.

(** [unique_map]: the visitor of a mapping that must not repeat a key *)
Definition unique_map {V} (entries : list (str * V)) : result (btree str V) str :=
  for_fold (λ (values : btree str V) '(key, value),
              let '(old, values) := bt_insert key value values in
              match old with
              | Some _ => Err (bytes_of "duplicate assignment '" ++ key ++ bytes_of "'")
              | None => Ok values
              end) [] entries.

(** ** Manifests and plans *)

Record ModuleManifest : Type := mkManifest {
  mm_version : Z;
  mm_deployment : option str;
  mm_domain : option str;
  mm_providers : btree str ProviderSpec;
  mm_modules : btree str ModuleCall;
  mm_run : option RunSpec;
  mm_component : option ComponentSpec;
  mm_component_hosts : option (btree str ComponentHostSpec);
  mm_placement : option (btree str str);
  mm_build : option BuildSpec;
  mm_inputs : btree str PortSpec;
  mm_outputs : btree str PortSpec;
  mm_resources : btree str ResourceSpec;
  mm_owned_children : btree str PortDelegation;
}.

Record ExecutableModule : Type := mkExecutable {
  em_namespace : str;
  em_module_dir : path;
  em_run : RunSpec;
  em_build : option BuildSpec;
  em_provider : ProviderSpec;
  em_bindings : ModuleBindings;
}.

Record ArtifactResource : Type := mkArtifact {
  ar_address : str;
  ar_source : path;
  ar_sha256 : option str;
}.

Record PortAddress : Type := mkPortAddress {
  pa_namespace : str;
  pa_input : bool;
  pa_name : str;
}.

#[export] Instance PortAddress_eq_dec : EqDecision PortAddress.
Proof. solve_decision. Defined.
Definition port_address_key (a : PortAddress) : str * (bool * str) :=
  (pa_namespace a, (pa_input a, pa_name a)).
#[export] Instance Ord_PortAddress : Ord PortAddress := cmp_on port_address_key.
#[export] Instance OrdLaws_PortAddress : OrdLaws PortAddress.
Proof. apply OrdLaws_on. by intros [] [] [= -> -> ->]. Qed.

(** [impl Display for PortAddress] *)
Definition port_address_display (a : PortAddress) : str :=
  pa_namespace a ++ bytes_of "." ++ bytes_of (if pa_input a then "in" else "out")
  ++ bytes_of "." ++ pa_name a.

Record ResolvedRoute : Type := mkResolved {
  rr_source : PortAddress;
  rr_via : list PortAddress;
  rr_contract : EndpointContract;
}.

Record ResolvedConnection : Type := mkRConnection {
  rc_source : PortAddress;
  rc_destination : PortAddress;
  rc_via : list PortAddress;
  rc_contract : EndpointContract;
}.

Record DeploymentPlan : Type := mkDeployment {
  dp_root : path;
  dp_deployment : str;
  dp_domain : str;
  dp_module_sources : btree str path;
  dp_nodes : list ExecutableModule;
  dp_components : list ComponentModule;
  dp_component_hosts : btree str ComponentHost;
  dp_connections : list ResolvedConnection;
  dp_resources : list ArtifactResource;
}.

(** One instance of a module, and the loader that collects them.  The resolver
    of Git sources is a parameter type. *)
Record Instance_ : Type := mkInstance {
  in_dir : path;
  in_manifest : ModuleManifest;
  in_providers : btree str ProviderSpec;
}.

Record Loader (R : Type) : Type := mkLoader {
  ld_resolver : R;
  ld_instances : btree str Instance_;
  ld_source_stack : list path;
}.
Arguments mkLoader {R}.
Arguments ld_resolver {R}.
Arguments ld_instances {R}.
Arguments ld_source_stack {R}.

(** Decimal digits of a [u32] *)
Fixpoint digits (fuel : nat) (n : Z) (acc : str) : str :=
  match fuel with
  | 0 => acc
  | S fuel =>
      let acc := (48 + n `mod` 10)%Z :: acc in
      if (n <? 10)%Z then acc else digits fuel (n `div` 10) acc
  end.
Definition decimal (n : Z) : str := digits 10 n [].

(** [invalid(module, message)] *)
Definition invalid {A} (module message : str) : result A ModuleError := Err (Invalid module message).

Definition quoted (pre name : str) : str := pre ++ name ++ bytes_of "'".

Definition name_byte (b : Z) : bool :=
  is_ascii_alphanumeric b || (b =? 95)%Z || (b =? 45)%Z.

Definition validate_name (name kind : str) : result unit ModuleError :=
  if bool_decide (name = []) || bool_decide (name = bytes_of "in") || negb (forallb name_byte name)
  then invalid name (bytes_of "invalid " ++ kind ++ bytes_of " name; use letters, digits, '_' or '-'")
  else Ok tt.

Definition validate_port_names (ports : btree str PortSpec) : result unit ModuleError :=
  for_each (λ name, validate_name name (bytes_of "port")) ports.*1.

Definition check_type (port : str) (expected : PortSpec) (actual : PortConnection) :
  result unit ModuleError :=
  if bool_decide (pc_type_name actual = []) || bool_decide (ps_type_name expected = pc_type_name actual)
  then Ok tt
  else Err (ModTypeMismatch port (TypeNamed (ps_type_name expected)) (TypeNamed (pc_type_name actual))).

Definition validate_connection (namespace : str) (port : PortSpec) : result unit ModuleError :=
  if negb (bool_decide (ps_semantics port = []))
     || negb (bool_decide (ps_kind port = Stream))
     || negb (is_none (ps_response port))
     || negb (bool_decide (ps_qos port = QDefault))
     || negb (bool_decide (ps_retention port = Volatile))
     || negb (bool_decide (ps_replay port = Live))
     || negb (bool_decide (ps_buffer port = Fifo))
  then invalid namespace
         (bytes_of "callers connect app-owned endpoints; they cannot redefine endpoint policy")
  else Ok tt.

Definition validate_contract (namespace : str) (contract : EndpointContract) (input : bool) :
  result unit ModuleError :=
  map_err (λ error, Invalid namespace (be_message error)) (contract_validate contract input).

Definition check_contract (port : str) (expected actual : EndpointContract) :
  result unit ModuleError :=
  if negb (bool_decide (ec_type_name expected = []))
     && (negb (bool_decide (ec_type_name expected = ec_type_name actual))
         || negb (bool_decide (ec_kind expected = ec_kind actual))
         || negb (bool_decide (ec_response expected = ec_response actual)))
  then Err (ModTypeMismatch port
              (TypeContract (ec_kind expected) (ec_type_name expected) (ec_response expected))
              (TypeContract (ec_kind actual) (ec_type_name actual) (ec_response actual)))
  else Ok tt.

(** [PortConnection::try_from] *)
Definition connection_try_from (port : PortSpec) : result PortConnection ModuleError :=
  let? _ := validate_connection (bytes_of "connection") port in
  let? _ := if negb (bool_decide (ps_type_name port = []))
            then validate_contract (bytes_of "connection") (port_contract port) true
            else Ok tt in
  Ok (mkConnection (ps_type_name port) (ps_from port)).

(** ** Executables and components *)

(** [RunSpec::validate_names] *)
Definition run_validate_names (self : RunSpec) (namespace : str) : result unit ModuleError :=
  let? _ := validate_name (rs_bin self) (bytes_of "binary") in
  let? _ := for_fold (λ binaries companion,
                        let? _ := validate_name companion (bytes_of "companion binary") in
                        let '(fresh, binaries) := bs_insert companion binaries in
                        if negb fresh
                        then invalid namespace (bytes_of "duplicate executable in runtime bundle")
                        else Ok binaries) [(rs_bin self, tt)] (rs_companions self) in
  Ok tt.

(** [RunSpec::validate] *)
Definition run_validate (self : RunSpec) (namespace : str) : result unit ModuleError :=
  let? _ := run_validate_names self namespace in
  if is_none (rs_config self) && negb (bool_decide (rs_config_assets self = []))
  then invalid namespace (bytes_of "config_assets requires the selected instance config")
  else Ok tt.

(** [ComponentSpec::validate] *)
Definition component_validate (self : ComponentSpec) (namespace : str) : result unit ModuleError :=
  let? _ := validate_name (cs_factory self) (bytes_of "component factory") in
  if trim_empty (cs_factory_revision self)
  then invalid namespace (bytes_of "component factory_revision must not be empty")
  else if is_none (cs_config self) && negb (bool_decide (cs_config_assets self = []))
  then invalid namespace (bytes_of "config_assets requires the selected instance config")
  else Ok tt.

(** ** Manifests *)

Definition is_some {A} (o : option A) : bool := negb (is_none o).
Definition nonempty {A} (l : list A) : bool := match l with [] => false | _ => true end.

(** [format!("{namespace}/{name}")] *)
Definition child_namespace (namespace name : str) : str := namespace ++ 47%Z :: name.

Definition validate_call (namespace : str) (entry : str * ModuleCall) : result unit ModuleError :=
  let '(name, call) := entry in
  let? _ := validate_name name (bytes_of "module") in
  let child := child_namespace namespace name in
  let? _ := for_each (λ port, validate_name port (bytes_of "port"))
              ((mc_inputs call).*1 ++ (mc_outputs call).*1) in
  let? _ := for_each (λ input, if is_none (pc_from input)
                               then invalid child (bytes_of "caller inputs require from")
                               else Ok tt) (mc_inputs call).*2 in
  for_each (λ output, if is_some (pc_from output)
                      then invalid child (bytes_of "caller output contracts cannot contain from")
                      else Ok tt) (mc_outputs call).*2.

Definition validate_calls (namespace : str) (calls : btree str ModuleCall) : result unit ModuleError :=
  for_each (validate_call namespace) calls.

Definition validate_executable_outputs (namespace : str) (manifest : ModuleManifest) :
  result unit ModuleError :=
  for_each (λ port,
              let? _ := validate_contract namespace (port_contract port) false in
              if is_some (ps_from port)
              then invalid namespace (bytes_of "executable outputs cannot forward another module")
              else Ok tt) (mm_outputs manifest).*2.

(** The loop over the ports one child is given, with the set it fills. *)
Definition check_delegated {V} (namespace name : str) (ports : btree str V)
    (seen : btree str unit) (names : list str) : result (btree str unit) ModuleError :=
  for_fold (λ seen port,
              let undefined :=
                invalid namespace
                  (bytes_of "owned child '" ++ name
                   ++ bytes_of "' has undefined or multiply delegated port '" ++ port ++ bytes_of "'") in
              if negb (bt_contains port ports) then undefined else
              let '(fresh, seen) := bs_insert port seen in
              if negb fresh then undefined else Ok seen) seen names.

Definition check_owned (namespace : str) (manifest : ModuleManifest)
    (delegated : btree str unit * btree str unit) (entry : str * PortDelegation) :
  result (btree str unit * btree str unit) ModuleError :=
  let '(name, child) := entry in
  let? _ := validate_name name (bytes_of "owned child") in
  let? delegated_inputs :=
    check_delegated namespace name (mm_inputs manifest) delegated.1 (pd_inputs child) in
  let? delegated_outputs :=
    check_delegated namespace name (mm_outputs manifest) delegated.2 (pd_outputs child) in
  Ok (delegated_inputs, delegated_outputs).

(** The checks on the ports of a composite module. *)
Definition validate_composite (namespace : str) (manifest : ModuleManifest) :
  result unit ModuleError :=
  let? _ := for_each (λ port,
              if negb (bool_decide (ps_replay port = Live)) || negb (bool_decide (ps_buffer port = Fifo))
              then invalid namespace
                     (bytes_of "composite inputs forward contracts; receive policy belongs to the executable app")
              else Ok tt) (mm_inputs manifest).*2 in
  for_each (λ port,
              if is_none (ps_from port)
              then invalid namespace (bytes_of "composite outputs require from")
              else let? _ := connection_try_from port in Ok tt) (mm_outputs manifest).*2.

Definition validate_definition (namespace : str) (manifest : ModuleManifest) :
  result unit ModuleError :=
  if negb (mm_version manifest =? MODULE_MANIFEST_VERSION)%Z && negb (mm_version manifest =? 4)%Z
  then invalid namespace (bytes_of "unsupported module version " ++ decimal (mm_version manifest))
  else if (mm_version manifest =? MODULE_MANIFEST_VERSION)%Z
          && (is_some (mm_component manifest) || is_some (mm_component_hosts manifest)
              || is_some (mm_placement manifest))
  then invalid namespace (bytes_of "component, component_hosts and placement require version 4")
  else if negb (length (filter (λ present, present = true)
             [is_some (mm_run manifest); is_some (mm_component manifest);
              nonempty (mm_modules manifest)]) =? 1)
  then invalid namespace
         (bytes_of "module requires exactly one of run, component or nonempty modules")
  else if is_some (mm_build manifest) && is_none (mm_run manifest)
  then invalid namespace (bytes_of "build requires run")
  else
  let? _ := validate_calls namespace (mm_modules manifest) in
  let? _ := validate_port_names (mm_inputs manifest) in
  let? _ := validate_port_names (mm_outputs manifest) in
  let? _ := for_each (λ port,
              let? _ := validate_contract namespace (port_contract port) true in
              if is_some (ps_from port)
              then invalid namespace (bytes_of "module inputs are supplied by their caller, not by from")
              else Ok tt) (mm_inputs manifest).*2 in
  let? _ := match mm_run manifest with
            | Some run => run_validate_names run namespace
            | None => Ok tt
            end in
  let? _ := match mm_component manifest with
            | Some component => component_validate component namespace
            | None => Ok tt
            end in
  let? _ := if is_some (mm_run manifest) || is_some (mm_component manifest)
            then validate_executable_outputs namespace manifest
            else validate_composite namespace manifest in
  if nonempty (mm_owned_children manifest) && is_none (mm_run manifest)
  then invalid namespace (bytes_of "owned_children requires run")
  else
  let? _ := for_fold (check_owned namespace manifest) ([], []) (mm_owned_children manifest) in
  Ok tt.

(** [providers.get(name).filter(|p| p.kind == Process)] *)
Definition process_provider (providers : btree str ProviderSpec) (name : str) : option ProviderSpec :=
  match bt_get name providers with
  | Some p => if bool_decide (pv_kind p = Process) then Some p else None
  | None => None
  end.

Definition validate_manifest (namespace : str) (manifest : ModuleManifest)
    (providers : btree str ProviderSpec) (root : bool) : result unit ModuleError :=
  if negb root
     && (is_some (mm_deployment manifest) || is_some (mm_domain manifest)
         || nonempty (mm_providers manifest) || is_some (mm_component_hosts manifest)
         || is_some (mm_placement manifest))
  then invalid namespace
         (bytes_of "deployment, domain, providers, component_hosts and placement belong to the root")
  else
  let? _ := validate_definition namespace manifest in
  match mm_run manifest with
  | None => Ok tt
  | Some run =>
      let? _ := run_validate run namespace in
      match process_provider providers (rs_provider run) with
      | Some _ => Ok tt
      | None => invalid namespace (quoted (bytes_of "unknown process provider '") (rs_provider run))
      end
  end.
