(* ===== verification/LaunchLoad.v ===== *)
(** * LaunchLoad: instantiation of a module tree
    ([crates/reiny-launch/src/modules/load.rs])

    [visit] reads the manifests of a tree depth first.  The file system, the
    YAML parser and the Git resolver are parameters.  A failure abandons the
    whole resolution, so the loader is only kept when a visit succeeds.  The
    recursion carries fuel, one unit per level of the tree; [None] means that it
    ran out or that an index was out of range. *)

From Stdlib Require Import ZArith Lia.
From S2P Require Import Prelude Text Btree Bindings LaunchTypes.

(** What the loader uses of its environment. *)
Record Env (R : Type) : Type := mkEnv {
  (** [std::fs::canonicalize] *)
  env_canonicalize : path → result path str;
  (** [read_to_string] of [main.yaml] and [serde_yaml::from_str] *)
  env_read_manifest : path → result ModuleManifest ModuleError;
  (** [Path::is_file] *)
  env_is_file : path → bool;
  (** [SourceResolver::open], [resolve], [check_cancelled], [finish] *)
  env_open : path → result R ModuleError;
  env_resolve : R → str → path → GitSource → result (path * R) ModuleError;
  env_check_cancelled : R → result unit ModuleError;
  env_finish : R → result unit ModuleError;
}.
Arguments env_canonicalize {R}.
Arguments env_read_manifest {R}.
Arguments env_is_file {R}.
Arguments env_open {R}.
Arguments env_resolve {R}.
Arguments env_check_cancelled {R}.
Arguments env_finish {R}.

Definition set_run (m : ModuleManifest) (run : RunSpec) : ModuleManifest :=
  mkManifest (mm_version m) (mm_deployment m) (mm_domain m) (mm_providers m) (mm_modules m)
    (Some run) (mm_component m) (mm_component_hosts m) (mm_placement m) (mm_build m)
    (mm_inputs m) (mm_outputs m) (mm_resources m) (mm_owned_children m).

Definition set_component (m : ModuleManifest) (component : ComponentSpec) : ModuleManifest :=
  mkManifest (mm_version m) (mm_deployment m) (mm_domain m) (mm_providers m) (mm_modules m)
    (mm_run m) (Some component) (mm_component_hosts m) (mm_placement m) (mm_build m)
    (mm_inputs m) (mm_outputs m) (mm_resources m) (mm_owned_children m).

Definition set_build (m : ModuleManifest) (build : option BuildSpec) : ModuleManifest :=
  mkManifest (mm_version m) (mm_deployment m) (mm_domain m) (mm_providers m) (mm_modules m)
    (mm_run m) (mm_component m) (mm_component_hosts m) (mm_placement m) build
    (mm_inputs m) (mm_outputs m) (mm_resources m) (mm_owned_children m).

(** The configuration and assets an invocation selects. *)
Definition select_config (dir : path) (call : ModuleCall) (config : option path) : option path :=
  match mc_config call with Some selected => Some (absolute dir selected) | None => config end.
Definition select_assets (call : ModuleCall) (assets : list path) : list path :=
  default assets (mc_config_assets call).

(** The overrides of one invocation, applied to the manifest of the child. *)
Definition apply_overrides (dir : path) (child_ns : str) (call : ModuleCall)
    (child : ModuleManifest) : result ModuleManifest ModuleError :=
  if is_some (mc_config call) || is_some (mc_config_assets call) || is_some (mc_args call) then
    match mm_run child, mm_component child with
    | Some run, None =>
        Ok (set_run child
              (mkRun (rs_kind run) (rs_provider run) (rs_bin run) (rs_companions run)
                 (select_config dir call (rs_config run)) (select_assets call (rs_config_assets run))
                 (default (rs_args run) (mc_args call)) (rs_restart run) (rs_on_failure run)))
    | None, Some c =>
        if is_some (mc_args call)
        then invalid child_ns (bytes_of "component instances do not accept args")
        else Ok (set_component child
                   (mkComponentSpec (cs_factory c) (cs_factory_revision c)
                      (select_config dir call (cs_config c))
                      (select_assets call (cs_config_assets c))))
    | None, None | Some _, Some _ =>
        invalid child_ns
          (bytes_of "instance overrides require exactly one executable or component leaf")
    end
  else Ok child.

(** The provider slots a child sees. *)
Definition map_providers (namespace : str) (providers : btree str ProviderSpec) (call : ModuleCall) :
  result (btree str ProviderSpec) ModuleError :=
  for_fold (λ child_providers '(slot, name),
              let? _ := validate_name slot (bytes_of "provider slot") in
              match bt_get name providers with
              | None => invalid namespace (quoted (bytes_of "unknown provider mapping '") name)
              | Some provider => Ok (bt_insert slot provider child_providers).2
              end) providers (mc_providers call).

(** The connections of an invocation against the ports of the child. *)
Definition check_call_inputs (child_ns : str) (call : ModuleCall) (child : ModuleManifest) :
  option (result unit ModuleError) :=
  if negb (bool_decide ((mc_inputs call).*1 = (mm_inputs child).*1))
  then Some (invalid child_ns (bytes_of "caller must connect exactly the child's declared inputs"))
  else
  try_fold (λ _ '(name, port),
              match bt_get name (mm_inputs child) with
              | None => None
              | Some declared =>
                  Some (check_type (child_ns ++ bytes_of ".in." ++ name) declared port)
              end) tt (mc_inputs call).

Definition check_call_outputs (child_ns : str) (call : ModuleCall) (child : ModuleManifest) :
  result unit ModuleError :=
  for_each (λ '(name, port),
              match bt_get name (mm_outputs child) with
              | None => invalid child_ns (quoted (bytes_of "child has no output '") name)
              | Some declared => check_type (child_ns ++ bytes_of ".out." ++ name) declared port
              end) (mc_outputs call).

Section visit.
Context {R : Type} (env : Env R).

(** [match &call.source] *)
Definition child_source (self : Loader R) (dir : path) (child_ns : str) (source : ModuleSource) :
  result (path * Loader R) ModuleError :=
  match source with
  | LocalDir p => Ok (absolute dir p, self)
  | Git source =>
      let? (p, resolver) := env_resolve env (ld_resolver self) child_ns dir source in
      Ok (p, mkLoader resolver (ld_instances self) (ld_source_stack self))
  end.

(** The body of the loop over the invocations, with the recursive call [rec]. *)
Definition visit_call
    (rec : Loader R → str → path → ModuleManifest → btree str ProviderSpec → bool →
           option (result (Loader R) ModuleError))
    (namespace : str) (dir : path) (providers : btree str ProviderSpec)
    (self : Loader R) (entry : str * ModuleCall) : option (result (Loader R) ModuleError) :=
  let '(name, call) := entry in
  let child_ns := child_namespace namespace name in
  let?? (child_dir, self) := Some (child_source self dir child_ns (mc_source call)) in
  let?? child := Some (env_read_manifest env child_dir) in
  let?? _ := check_call_inputs child_ns call child in
  let?? _ := Some (check_call_outputs child_ns call child) in
  let?? child := Some (apply_overrides dir child_ns call child) in
  let?? child_providers := Some (map_providers namespace providers call) in
  rec self child_ns child_dir child child_providers false.

(** [Loader::visit] *)
Fixpoint visit (fuel : nat) (self : Loader R) (namespace : str) (dir : path)
    (manifest : ModuleManifest) (providers : btree str ProviderSpec) (root : bool) :
  option (result (Loader R) ModuleError) :=
  match fuel with
  | 0 => None
  | S fuel =>
      let?? dir := Some (map_err (IoError dir) (env_canonicalize env dir)) in
      if bool_decide (dir ∈ ld_source_stack self)
      then Some (Err (ModCycle (bytes_of "source " ++ dir))) else
      let?? _ := Some (validate_manifest namespace manifest providers root) in
      let?? _ := Some (env_check_cancelled env (ld_resolver self)) in
      let manifest := set_build manifest ((λ b, resolve_paths b dir) <$> mm_build manifest) in
      let pushed := mkLoader (ld_resolver self) (ld_instances self) (ld_source_stack self ++ [dir]) in
      let?? self := try_fold (visit_call (visit fuel) namespace dir providers) pushed
                      (mm_modules manifest) in
      Some (Ok (mkLoader (ld_resolver self)
                  (bt_insert namespace (mkInstance dir manifest providers) (ld_instances self)).2
                  (removelast (ld_source_stack self))))
  end.
End visit.

(** [str::split_once] on an ASCII character *)
Fixpoint split_once (sep : Z) (s : str) : option (str * str) :=
  match s with
  | [] => None
  | c :: s' =>
      if (c =? sep)%Z then Some ([], s')
      else match split_once sep s' with Some (a, b) => Some (c :: a, b) | None => None end
  end.

(** [Loader::reference] *)
Definition reference (instances : btree str Instance_) (namespace text : str) :
  result PortAddress ModuleError :=
  let error message := Err (Reference namespace text message) in
  match split_once 46 text with
  | None => error (bytes_of "use sibling.port or in.port")
  | Some (owner, name) =>
      if existsb (λ c, (c =? 46)%Z) name
      then error (bytes_of "module shared_types and absolute paths are not public references") else
      match bt_get namespace instances with
      | None => error (bytes_of "unknown module")
      | Some i =>
          if bool_decide (owner = bytes_of "in") then
            if negb (bt_contains name (mm_inputs (in_manifest i)))
            then error (bytes_of "input is not declared")
            else Ok (mkPortAddress namespace true name)
          else
            match bt_get owner (mm_modules (in_manifest i)) with
            | None => error (bytes_of "sibling module is not declared")
            | Some _ =>
                match bt_get (child_namespace namespace owner) instances with
                | None => error (bytes_of "sibling module is not resolved")
                | Some child =>
                    if negb (bt_contains name (mm_outputs (in_manifest child)))
                    then error (bytes_of "sibling output is not declared by its app")
                    else Ok (mkPortAddress (child_namespace namespace owner) false name)
                end
            end
      end
  end.
