(* ===== verification/LaunchPlan.v ===== *)
(** * LaunchPlan: endpoint resolution, bindings, placement and the plan
    ([crates/reiny-launch/src/modules.rs], [modules/connect.rs],
    [modules/bindings.rs], [modules/placement.rs], [modules/plan.rs])

    [resolve_endpoint] follows aliases to executable outputs, depth first, with
    the set of addresses on the current path and a memo of finished ones.  It
    carries fuel; [None] means that it ran out, or that an indexed map had no
    entry.  [resolve] is the whole resolution of a root manifest: the tree is
    loaded, components are placed on hosts, ports are connected, and routes
    across local-only hosts are refused. *)

From Stdlib Require Import ZArith Lia.
From S2P Require Import Prelude Text Btree Bindings LaunchTypes LaunchLoad.

Definition edges_t : Type := btree PortAddress (list PortAddress).
Definition terminals_t : Type := btree PortAddress EndpointContract.
Definition resolved_t : Type := btree PortAddress (list ResolvedRoute).

(** [BTreeSet::remove] *)
Definition bs_remove {K} `{Ord K} (k : K) (s : btree K unit) : btree K unit := (bt_remove k s).2.

(** A route seen through the alias [source]. *)
Definition relay (source : PortAddress) (route : ResolvedRoute) : ResolvedRoute :=
  if bool_decide (source = rr_source route) then route
  else mkResolved (rr_source route) (source :: rr_via route) (rr_contract route).

Fixpoint resolve_endpoint (fuel : nat) (edges : edges_t) (terminals : terminals_t)
    (address : PortAddress) (active : btree PortAddress unit) (resolved : resolved_t) :
  option (result (list ResolvedRoute * btree PortAddress unit * resolved_t) ModuleError) :=
  match fuel with
  | 0 => None
  | S fuel =>
      match bt_get address resolved with
      | Some routes => Some (Ok (routes, active, resolved))
      | None =>
          match bt_get address terminals with
          | Some contract =>
              let routes := [mkResolved address [] contract] in
              Some (Ok (routes, active, (bt_insert address routes resolved).2))
          | None =>
              let '(fresh, active) := bs_insert address active in
              if negb fresh then Some (Err (ModCycle (port_address_display address))) else
              match bt_get address edges with
              | None =>
                  Some (invalid (port_address_display address)
                          (bytes_of "port has no executable publisher"))
              | Some sources =>
                  let?? (routes, active, resolved) :=
                    try_fold (λ '(routes, active, resolved) source,
                                let?? (found, active, resolved) :=
                                  resolve_endpoint fuel edges terminals source active resolved in
                                Some (Ok (routes ++ (relay source <$> found), active, resolved)))
                      ([], active, resolved) sources in
                  let active := bs_remove address active in
                  Some (Ok (routes, active, (bt_insert address routes resolved).2))
              end
          end
      end
  end.

(** [Loader::references] *)
Definition references (instances : btree str Instance_) (namespace : str) (sources : PortSources) :
  result (list PortAddress) ModuleError :=
  if bool_decide (sources_references sources = [])
  then invalid namespace (bytes_of "fan-in requires at least one source") else
  let? locals := for_fold (λ '(unique, addresses) text,
                   let? address := reference instances namespace text in
                   let '(fresh, unique) := bs_insert address unique in
                   if negb fresh then invalid namespace (bytes_of "duplicate endpoint in fan-in")
                   else Ok (unique, addresses ++ [address]))
                 ([], []) (sources_references sources) in
  Ok locals.2.

(** The tables the first loop of [connect] fills. *)
Record Tables : Type := mkTables {
  tb_edges : edges_t;
  tb_port_types : btree PortAddress EndpointContract;
  tb_terminals : terminals_t;
}.

Definition add_port_type (a : PortAddress) (c : EndpointContract) (t : Tables) : Tables :=
  mkTables (tb_edges t) (bt_insert a c (tb_port_types t)).2 (tb_terminals t).
Definition add_terminal (a : PortAddress) (c : EndpointContract) (t : Tables) : Tables :=
  mkTables (tb_edges t) (tb_port_types t) (bt_insert a c (tb_terminals t)).2.
Definition add_edge (a : PortAddress) (l : list PortAddress) (t : Tables) : Tables :=
  mkTables (bt_insert a l (tb_edges t)).2 (tb_port_types t) (tb_terminals t).

Definition is_leaf (m : ModuleManifest) : bool := is_some (mm_run m) || is_some (mm_component m).

Definition collect_input (namespace : str) (t : Tables) (entry : str * PortSpec) : Tables :=
  add_port_type (mkPortAddress namespace true entry.1) (port_contract entry.2) t.

Definition collect_output (instances : btree str Instance_) (namespace : str) (m : ModuleManifest)
    (t : Tables) (entry : str * PortSpec) : result Tables ModuleError :=
  let '(name, port) := entry in
  let address := mkPortAddress namespace false name in
  let t := add_port_type address (port_contract port) t in
  if is_leaf m then Ok (add_terminal address (port_contract port) t) else
  match ps_from port with
  | None => Ok t
  | Some from => let? l := references instances namespace from in Ok (add_edge address l t)
  end.

Definition collect_call (instances : btree str Instance_) (namespace : str)
    (t : Tables) (entry : str * ModuleCall) : result Tables ModuleError :=
  let '(child, call) := entry in
  for_fold (λ t '(name, port),
              match pc_from port with
              | None => invalid namespace (bytes_of "missing input reference")
              | Some from =>
                  let? l := references instances namespace from in
                  Ok (add_edge (mkPortAddress (child_namespace namespace child) true name) l t)
              end) t (mc_inputs call).

Definition collect_instance (instances : btree str Instance_) (t : Tables)
    (entry : str * Instance_) : result Tables ModuleError :=
  let '(namespace, i) := entry in
  let m := in_manifest i in
  let t := foldl (collect_input namespace) t (mm_inputs m) in
  let? t := for_fold (collect_output instances namespace m) t (mm_outputs m) in
  for_fold (collect_call instances namespace) t (mm_modules m).

Definition collect_tables (instances : btree str Instance_) : result Tables ModuleError :=
  for_fold (collect_instance instances) (mkTables [] [] []) instances.

(** Fuel for one address: a path visits every alias at most once. *)
Definition endpoint_fuel (t : Tables) : nat := S (S (length (tb_edges t))).

Definition resolve_all (t : Tables) : option (result resolved_t ModuleError) :=
  try_fold (λ resolved address,
              let?? (_, _, resolved) :=
                resolve_endpoint (endpoint_fuel t) (tb_edges t) (tb_terminals t) address [] resolved in
              Some (Ok resolved)) [] (tb_port_types t).*1.

Definition check_route_contract (destination : PortAddress) (expected : EndpointContract)
    (route : ResolvedRoute) : result unit ModuleError :=
  let? _ := check_contract (port_address_display destination) expected (rr_contract route) in
  if pa_input destination
     && negb (bool_decide (ec_semantics expected = ec_semantics (rr_contract route)))
  then invalid (port_address_display destination) (bytes_of "source semantic assertions differ")
  else Ok tt.

Definition check_destination (t : Tables) (resolved : resolved_t) (destination : PortAddress) :
  option (result unit ModuleError) :=
  match bt_get destination (tb_port_types t) with
  | None => Some (invalid (port_address_display destination) (bytes_of "unknown destination"))
  | Some expected =>
      match bt_get destination resolved with
      | None => None
      | Some routes => Some (for_each (check_route_contract destination expected) routes)
      end
  end.

(** ** Bindings of one instance *)

(** The body of the loop over the routes of one input. *)
Definition bind_route (address : PortAddress) (contract : EndpointContract)
    (locals : list EndpointAddress * list ResolvedConnection) (route : ResolvedRoute) :
  result (list EndpointAddress * list ResolvedConnection) ModuleError :=
  let '(sources, connections) := locals in
  if bool_decide (ec_replay contract = ReplayLast)
     && negb (bool_decide (ec_retention (rr_contract route) = RetainLast))
  then invalid (port_address_display address) (bytes_of "replay last requires retained output") else
  let source := mkEndpoint (pa_namespace (rr_source route)) (pa_name (rr_source route)) in
  if bool_decide (source ∈ sources)
  then invalid (port_address_display address)
         (bytes_of "multiple aliases resolve to the same publisher")
  else Ok (sources ++ [source],
           connections ++ [mkRConnection (rr_source route) address (rr_via route) (rr_contract route)]).

Definition bind_input (namespace : str) (resolved : resolved_t)
    (locals : btree str InputBinding * list ResolvedConnection) (entry : str * PortSpec) :
  option (result (btree str InputBinding * list ResolvedConnection) ModuleError) :=
  let '(inputs, connections) := locals in
  let '(name, port) := entry in
  let address := mkPortAddress namespace true name in
  match bt_get address resolved with
  | None => None
  | Some endpoints =>
      let contract := port_contract port in
      if bool_decide (ec_kind contract = Rpc) && negb (length endpoints =? 1)
      then Some (invalid namespace (bytes_of "RPC inputs require exactly one endpoint")) else
      let?? (sources, connections) :=
        Some (for_fold (bind_route address contract) ([], connections) endpoints) in
      Some (Ok ((bt_insert name (mkInput contract sources) inputs).2, connections))
  end.

(** [Instance::bindings], returning the extended connections too *)
Definition bindings (self : Instance_) (namespace : str) (resolved : resolved_t)
    (connections : list ResolvedConnection) :
  option (result (ModuleBindings * list ResolvedConnection) ModuleError) :=
  let m := in_manifest self in
  let?? (inputs, connections) :=
    try_fold (bind_input namespace resolved) ([], connections) (mm_inputs m) in
  Some (Ok (mkBindings MODULE_BINDINGS_VERSION namespace namespace inputs
              (bt_collect ((λ '(name, port), (name, mkOutput (port_contract port))) <$> mm_outputs m))
              (mm_owned_children m)
              (match mm_run m with Some run => rs_bin run :: rs_companions run | None => [] end),
            connections)).

Section env.
Context {R : Type} (env : Env R).

(** [Instance::resolve_config] *)
Definition resolve_config (self : Instance_) (config : option path) (namespace : str) :
  result (option path) ModuleError :=
  match config with
  | None => Ok None
  | Some p =>
      let p := absolute (in_dir self) p in
      if negb (env_is_file env p)
      then invalid namespace (bytes_of "configuration file not found: " ++ p)
      else Ok (Some p)
  end.

Definition set_run_config (run : RunSpec) (config : option path) : RunSpec :=
  mkRun (rs_kind run) (rs_provider run) (rs_bin run) (rs_companions run) config
    (rs_config_assets run) (rs_args run) (rs_restart run) (rs_on_failure run).
Definition set_component_config (c : ComponentSpec) (config : option path) : ComponentSpec :=
  mkComponentSpec (cs_factory c) (cs_factory_revision c) config (cs_config_assets c).

(** [Instance::executable] *)
Definition executable (self : Instance_) (namespace : str) (resolved : resolved_t)
    (connections : list ResolvedConnection) :
  option (result (option ExecutableModule * list ResolvedConnection) ModuleError) :=
  match mm_run (in_manifest self) with
  | None => Some (Ok (None, connections))
  | Some run =>
      let?? config := Some (resolve_config self (rs_config run) namespace) in
      let run := set_run_config run config in
      match bt_get (rs_provider run) (in_providers self) with
      | None => Some (invalid namespace (bytes_of "unknown executable provider"))
      | Some provider =>
          let?? (b, connections) := bindings self namespace resolved connections in
          Some (Ok (Some (mkExecutable namespace (in_dir self) run (mm_build (in_manifest self))
                            provider b), connections))
      end
  end.

(** [Instance::resources] *)
Definition resources (self : Instance_) (namespace : str) :
  result (list ArtifactResource) ModuleError :=
  for_fold (λ l '(name, resource),
              let? _ := validate_name name (bytes_of "resource") in
              match bt_get (re_provider resource) (in_providers self) with
              | None =>
                  invalid namespace (quoted (bytes_of "unknown artifact provider '") (re_provider resource))
              | Some provider =>
                  if negb (bool_decide (re_kind resource = bytes_of "artifact.file"))
                     || negb (bool_decide (pv_kind provider = Artifact))
                  then invalid namespace
                         (bytes_of "file resources require type artifact.file and an artifact provider")
                  else Ok (l ++ [mkArtifact (child_namespace namespace name)
                                   (absolute (in_dir self) (re_source resource)) (re_sha256 resource)])
              end) [] (mm_resources (in_manifest self)).

(** ** The whole connection *)

Record Connected : Type := mkConnected {
  cn_nodes : list ExecutableModule;
  cn_components : list ComponentModule;
  cn_resources : list ArtifactResource;
  cn_connections : list ResolvedConnection;
}.

(** The body of the last loop of [connect]. *)
Definition connect_instance (placement : btree str str) (resolved : resolved_t) (c : Connected)
    (entry : str * Instance_) : option (result Connected ModuleError) :=
  let '(namespace, i) := entry in
  let?? more := Some (resources i namespace) in
  let?? (node, connections) := executable i namespace resolved (cn_connections c) in
  let nodes := cn_nodes c ++ match node with Some node => [node] | None => [] end in
  match mm_component (in_manifest i) with
  | None => Some (Ok (mkConnected nodes (cn_components c) (cn_resources c ++ more) connections))
  | Some spec =>
      let?? config := Some (resolve_config i (cs_config spec) namespace) in
      match bt_get namespace placement with
      | None => None
      | Some host =>
          let?? (b, connections) := bindings i namespace resolved connections in
          Some (Ok (mkConnected nodes
                      (cn_components c ++ [mkComponent namespace (in_dir i)
                                             (set_component_config spec config) host b])
                      (cn_resources c ++ more) connections))
      end
  end.

(** [Loader::connect] *)
Definition connect (instances : btree str Instance_) (placement : btree str str) :
  option (result Connected ModuleError) :=
  let?? t := Some (collect_tables instances) in
  let?? resolved := resolve_all t in
  let?? _ := try_fold (λ _ destination, check_destination t resolved destination) tt (tb_edges t).*1 in
  let?? c := try_fold (connect_instance placement resolved) (mkConnected [] [] [] []) instances in
  if bool_decide (cn_nodes c = []) && bool_decide (cn_components c = [])
  then Some (invalid (bytes_of "deployment") (bytes_of "no executable modules are declared"))
  else Some (Ok c).
End env.

Definition set_host_build (s : ComponentHostSpec) (build : option BuildSpec) : ComponentHostSpec :=
  mkHostSpec (hs_provider s) (hs_bin s) (hs_transport s) build (hs_restart s) (hs_on_failure s).

(** One declared host. *)
Definition component_host (root : Instance_) (hosts : btree str ComponentHost)
    (entry : str * ComponentHostSpec) : result (btree str ComponentHost) ModuleError :=
  let '(name, spec) := entry in
  let? _ := validate_name name (bytes_of "component host") in
  let? _ := validate_name (hs_bin spec) (bytes_of "host binary") in
  let? _ := validate_name (hs_provider spec) (bytes_of "host provider") in
  match hs_restart spec with
  | OnFailure | Always =>
      invalid name
        (bytes_of "hosted restart and rolling replacement are unsupported; use manual whole-graph recovery")
  | Manual =>
      match process_provider (in_providers root) (hs_provider spec) with
      | None => invalid name (quoted (bytes_of "unknown process provider '") (hs_provider spec))
      | Some provider =>
          if bool_decide (hs_transport spec = LocalOnly)
             && (negb (bool_decide (pv_connect provider = [])) || is_some (pv_zenoh_config provider))
          then invalid name (bytes_of "local host forbids Zenoh provider settings")
          else
            let spec := set_host_build spec ((λ b, resolve_paths b (in_dir root)) <$> hs_build spec) in
            Ok (bt_insert name (mkHost (in_dir root) spec provider) hosts).2
      end
  end.

(** [Loader::component_hosts]; [None] where [self.instances[deployment]] panics *)
Definition component_hosts (instances : btree str Instance_) (deployment : str) :
  option (result (btree str ComponentHost) ModuleError) :=
  match bt_get deployment instances with
  | None => None
  | Some root =>
      Some (for_fold (component_host root) []
              (default [] (mm_component_hosts (in_manifest root))))
  end.

(** The namespaces of the instances with a component. *)
Definition component_namespaces (instances : btree str Instance_) : list str :=
  (filter (λ e : str * Instance_, is_some (mm_component (in_manifest e.2)) = true)
     (instances : list (str * Instance_))).*1.

(** One assignment, with the set of used hosts. *)
Definition place (hosts : btree str ComponentHost) (used : btree str unit) (entry : str * str) :
  result (btree str unit) ModuleError :=
  let '(namespace, host) := entry in
  let? _ := map_err (λ error, Invalid namespace (be_message error)) (validate_namespace namespace) in
  if negb (bt_contains host hosts)
  then invalid namespace (quoted (bytes_of "unknown or empty component host '") host)
  else Ok (bs_insert host used).2.

(** [Loader::components] *)
Definition components (instances : btree str Instance_) (deployment : str)
    (hosts : btree str ComponentHost) : option (result (btree str str) ModuleError) :=
  match bt_get deployment instances with
  | None => None
  | Some root =>
      let expected := component_namespaces instances in
      let placement := default [] (mm_placement (in_manifest root)) in
      if negb (bool_decide (placement.*1 = expected))
      then Some (invalid deployment
             (bytes_of "placement must assign exactly every component's full canonical instance namespace"))
      else
      let?? used := Some (for_fold (place hosts) [] placement) in
      if negb (length used =? length hosts)
      then Some (invalid deployment (bytes_of "every component host must have at least one instance"))
      else if nonempty expected
              && existsb (λ i : Instance_, is_some (mm_run (in_manifest i))) instances.*2
      then Some (invalid deployment (bytes_of "mixed legacy run and hosted components are unsupported"))
      else Some (Ok placement)
  end.

(** ** Plans *)

(** The root's providers with absolute paths. *)
Definition root_providers (root : path) (providers : btree str ProviderSpec) :
  result (btree str ProviderSpec) ModuleError :=
  for_fold (λ l '(name, p),
              let? _ := validate_name name (bytes_of "provider") in
              Ok (l ++ [(name, mkProvider (pv_kind p) (absolute root (pv_bin_dir p))
                                 (absolute root <$> pv_zenoh_config p) (pv_connect p))]))
    [] providers.

(** One source of a hosted component against the hosts at its two ends. *)
Definition check_boundary (placement : btree str str) (hosts : btree str ComponentHost)
    (component : ComponentModule) (source : EndpointAddress) : option (result unit ModuleError) :=
  match bt_get (ea_namespace source) placement with
  | None => Some (invalid (cmp_namespace component) (bytes_of "hosted source outside placement"))
  | Some source_host =>
      if bool_decide (source_host = cmp_host component) then Some (Ok tt) else
      match bt_get source_host hosts with
      | None => None
      | Some h1 =>
          let crosses := Some (invalid (cmp_namespace component)
                                 (bytes_of "edge crosses a local-only host boundary")) in
          if bool_decide (hs_transport (ch_spec h1) = LocalOnly) then crosses else
          match bt_get (cmp_host component) hosts with
          | None => None
          | Some h2 =>
              if bool_decide (hs_transport (ch_spec h2) = LocalOnly) then crosses else Some (Ok tt)
          end
      end
  end.

Definition check_boundaries (placement : btree str str) (hosts : btree str ComponentHost)
    (component : ComponentModule) : option (result unit ModuleError) :=
  try_fold (λ _ source, check_boundary placement hosts component source) tt
    ((mb_inputs (cmp_bindings component)).*2 ≫= ib_sources).

Section env.
Context {R : Type} (env : Env R).

(** [DeploymentPlan::resolve]; the depth of the module tree is bounded by [fuel] *)
Definition resolve (fuel : nat) (root : path) (manifest : ModuleManifest) :
  option (result DeploymentPlan ModuleError) :=
  match mm_deployment manifest with
  | None => Some (invalid root (bytes_of "root main.yaml requires deployment"))
  | Some deployment =>
      let?? _ := Some (validate_name deployment (bytes_of "deployment")) in
      let domain := default deployment (mm_domain manifest) in
      let?? _ := Some (validate_name domain (bytes_of "domain")) in
      if nonempty (mm_inputs manifest)
      then Some (invalid deployment (bytes_of "root inputs have no supplying parent")) else
      let?? providers := Some (root_providers root (mm_providers manifest)) in
      let?? resolver := Some (env_open env root) in
      let?? loader := visit env fuel (mkLoader resolver [] []) deployment root manifest providers true in
      let instances := ld_instances loader in
      let?? hosts := component_hosts instances deployment in
      let?? placement := components instances deployment hosts in
      let?? connected := connect env instances placement in
      let?? _ := try_fold (λ _ component, check_boundaries placement hosts component) tt
                   (cn_components connected) in
      let?? _ := Some (env_finish env (ld_resolver loader)) in
      Some (Ok (mkDeployment root deployment domain (prod_map id in_dir <$> instances)
                  (cn_nodes connected) (cn_components connected) hosts
                  (cn_connections connected) (cn_resources connected)))
  end.

(** [check_manifest] after the manifest has been located and read *)
Definition check_manifest (fuel : nat) (root : path) (manifest : ModuleManifest) :
  option (result (option DeploymentPlan) ModuleError) :=
  if is_some (mm_deployment manifest) then
    let?? plan := resolve fuel root manifest in Some (Ok (Some plan))
  else if is_some (mm_domain manifest) || nonempty (mm_providers manifest)
          || is_some (mm_component_hosts manifest) || is_some (mm_placement manifest)
  then Some (invalid root (bytes_of "root settings require deployment"))
  else
    let?? _ := Some (validate_definition root manifest) in
    Some (Ok None).
End env.
