(* ===== verification/LaunchResolve.v ===== *)
(** * LaunchResolve: what endpoint resolution computes

    [denotes] gives the routes of an address without paths, memo or fuel;
    [resolve_endpoint] returns exactly those, or names an address that is
    reached and either lies on a cycle of aliases or has no publisher. *)

From Stdlib Require Import ZArith Lia.
From stdpp Require Import relations.
From S2P Require Import Prelude Text Btree Bindings LaunchTypes LaunchLoad LaunchPlan.

Lemma bt_remove_insert {K V} `{OrdLaws K} (k : K) (v : V) m :
  bt_ok m → bt_get k m = None → (bt_remove k (bt_insert k v m).2).2 = m.
Proof.
  induction m as [|[k' v'] m IH]; cbn; [by rewrite cmp_refl|]. intros [Hall Hok] Hn.
  destruct (cmp k k') eqn:E; cbn; [done|by rewrite cmp_refl|].
  specialize (IH Hok Hn). destruct (bt_insert k v m) as [old m2] eqn:Ei. cbn in *.
  rewrite E. destruct (bt_remove k m2) as [old' m3]. cbn in *. by subst.
Qed.

Lemma bs_remove_insert {K} `{OrdLaws K} (k : K) s :
  bt_ok s → (bs_insert k s).1 = true → bs_remove k (bs_insert k s).2 = s.
Proof.
  intros Hok. unfold bs_insert, bs_remove. pose proof (bt_insert_old k tt s) as Hold.
  pose proof (bt_remove_insert k tt s Hok) as Hr. destruct (bt_insert k tt s) as [old s'].
  cbn in *. subst old. destruct (bt_get k s); [done|]. intros _. by apply Hr.
Qed.

Lemma length_bs_insert {K} `{OrdLaws K} (k : K) s :
  (bs_insert k s).1 = true → length (bs_insert k s).2 = S (length s).
Proof.
  unfold bs_insert.
  assert (Hl : ∀ m : btree K unit, bt_get k m = None → length (bt_insert k tt m).2 = S (length m)).
  { induction m as [|[k' v'] m IH]; cbn; [done|]. destruct (cmp k k'); cbn; [done..|].
    intros Hn. specialize (IH Hn). destruct (bt_insert k tt m). cbn in *. lia. }
  specialize (Hl s). pose proof (bt_insert_old k tt s) as Hold.
  destruct (bt_insert k tt s) as [old s']. cbn in *. subst old.
  destruct (bt_get k s); [done|]. intros _. by apply Hl.
Qed.

Lemma bs_insert_fresh {K} `{OrdLaws K} (k : K) s :
  bt_ok s → (bs_insert k s).1 = true ↔ k ∉ s.*1.
Proof.
  intros Hok. unfold bs_insert. pose proof (bt_insert_old k tt s) as Hold.
  pose proof (bt_get_None k s Hok) as Hn.
  destruct (bt_insert k tt s) as [old s']. cbn in *. subst old.
  destruct (bt_get k s); cbn; naive_solver.
Qed.

(** Distinct keys of a map are no more than its entries. *)
Lemma bt_subset_length {K V W} `{OrdLaws K} (s : btree K V) (m : btree K W) :
  bt_ok s → (∀ k, k ∈ s.*1 → k ∈ m.*1) → length s ≤ length m.
Proof.
  intros Hok Hsub. rewrite <- (length_fmap fst s), <- (length_fmap fst m).
  apply submseteq_length, NoDup_submseteq; [by apply bt_ok_NoDup|]. intros k Hk. by apply Hsub.
Qed.

Section denotation.
Context (edges : edges_t) (terminals : terminals_t).

Inductive denotes : PortAddress → list ResolvedRoute → Prop :=
  | den_terminal a c :
      bt_get a terminals = Some c → denotes a [mkResolved a [] c]
  | den_alias a sources routes :
      bt_get a terminals = None → bt_get a edges = Some sources →
      denotes_all sources routes → denotes a routes
with denotes_all : list PortAddress → list ResolvedRoute → Prop :=
  | den_nil : denotes_all [] []
  | den_cons s l r1 r2 :
      denotes s r1 → denotes_all l r2 → denotes_all (s :: l) ((relay s <$> r1) ++ r2).

Scheme denotes_mut := Induction for denotes Sort Prop
  with denotes_all_mut := Induction for denotes_all Sort Prop.
Combined Scheme denotes_ind2 from denotes_mut, denotes_all_mut.

(** One step from an alias to an address it names. *)
Definition alias (a s : PortAddress) : Prop :=
  bt_get a terminals = None ∧ ∃ sources, bt_get a edges = Some sources ∧ s ∈ sources.

(** An address that neither publishes nor names a source. *)
Definition unpublished (a : PortAddress) : Prop :=
  bt_get a terminals = None ∧ bt_get a edges = None.

(** Why an address cannot be resolved. *)
Definition resolve_failure (a : PortAddress) (e : ModuleError) : Prop :=
  ∃ x, rtc alias a x ∧
    ((e = ModCycle (port_address_display x) ∧ tc alias x x) ∨
     (e = Invalid (port_address_display x) (bytes_of "port has no executable publisher") ∧
      unpublished x)).

Lemma denotes_functional :
  (∀ a r1, denotes a r1 → ∀ r2, denotes a r2 → r1 = r2) ∧
  (∀ l r1, denotes_all l r1 → ∀ r2, denotes_all l r2 → r1 = r2).
Proof.
  apply denotes_ind2.
  - intros a c Hc r2 H. inversion H; simplify_eq; congruence.
  - intros a sources routes Ht He _ IH r2 H. inversion H; simplify_eq.
    by apply IH.
  - intros r2 H. by inversion H.
  - intros s l r1 r2 _ IH1 _ IH2 r H. inversion H; simplify_eq.
    f_equal; [f_equal; by apply IH1|by apply IH2].
Qed.

Lemma denotes_all_elem l rs s : denotes_all l rs → s ∈ l → ∃ r, denotes s r.
Proof.
  induction 1 as [|x l r1 r2 Hd Hda IH]; [by intros ?%elem_of_nil|].
  intros [->|Hin]%elem_of_cons; [by exists r1|by apply IH].
Qed.

Lemma denotes_all_app l1 l2 r1 r2 :
  denotes_all l1 r1 → denotes_all l2 r2 → denotes_all (l1 ++ l2) (r1 ++ r2).
Proof.
  induction 1; intros H2; cbn; [done|]. rewrite <- app_assoc. constructor; [done|auto].
Qed.

Lemma denotes_alias a s r : denotes a r → alias a s → ∃ r', denotes s r'.
Proof.
  intros Hd (Ht&sources&He&Hin). inversion Hd; simplify_eq.
  by eapply denotes_all_elem.
Qed.

Lemma denotes_rtc a x r : denotes a r → rtc alias a x → ∃ r', denotes x r'.
Proof.
  intros Hd Hr. revert r Hd. induction Hr as [|a b c Hab _ IH]; intros r Hd; [by exists r|].
  destruct (denotes_alias _ _ _ Hd Hab) as [r' Hd']. by eapply IH.
Qed.

Lemma denotes_acc : (∀ a r, denotes a r → Acc (flip alias) a) ∧
  (∀ l r, denotes_all l r → ∀ s, s ∈ l → Acc (flip alias) s).
Proof.
  apply denotes_ind2.
  - intros a c Hc. constructor. intros s [Ht _]. congruence.
  - intros a sources routes Ht He _ IH. constructor. intros s (_&sources'&He'&Hin).
    apply IH. congruence.
  - by intros s ?%elem_of_nil.
  - intros s l r1 r2 _ IH1 _ IH2 x [->|Hin]%elem_of_cons; auto.
Qed.

Lemma acc_no_cycle a : Acc (flip alias) a → ¬ tc alias a a.
Proof.
  induction 1 as [a _ IH]. intros Hc.
  assert (∃ b, alias a b ∧ rtc alias b a) as (b&Hab&Hba).
  { inversion Hc as [? ? Hab|? b ? Hab Hba]; subst; [by exists a; split; [|constructor]|].
    exists b. split; [done|]. by apply tc_rtc. }
  apply (IH b Hab). eapply tc_rtc_l; [exact Hba|by constructor].
Qed.

(** An address with a failure has no routes. *)
Lemma failure_no_routes a e r : resolve_failure a e → ¬ denotes a r.
Proof.
  intros (x&Hax&Hx) Hd. destruct (denotes_rtc _ _ _ Hd Hax) as [r' Hd'].
  destruct Hx as [[_ Hc]|[_ [Ht He]]].
  - by eapply acc_no_cycle, Hc; eapply (proj1 denotes_acc).
  - by inversion Hd'; simplify_eq.
Qed.

(** ** Routes as walks *)

(** A walk from an alias over the aliases [via] to the executable output [src]. *)
Inductive walk : PortAddress → list PortAddress → PortAddress → EndpointContract → Prop :=
  | walk_last a s c : alias a s → bt_get s terminals = Some c → walk a [] s c
  | walk_step a s via src c : alias a s → walk s via src c → walk a (s :: via) src c.

Lemma denotes_terminal a r route :
  denotes a r → route ∈ r → bt_get (rr_source route) terminals = Some (rr_contract route).
Proof.
  cut ((∀ a r, denotes a r → ∀ route, route ∈ r →
          bt_get (rr_source route) terminals = Some (rr_contract route)) ∧
       (∀ l r, denotes_all l r → ∀ route, route ∈ r →
          bt_get (rr_source route) terminals = Some (rr_contract route))).
  { intros [H _] Hd. by eapply H. }
  apply denotes_ind2.
  - by intros ? c Hc route' ->%list_elem_of_singleton.
  - intros ? ? ? _ _ _ IH. exact IH.
  - by intros ? ?%elem_of_nil.
  - intros s l r1 r2 _ IH1 _ IH2 route' [(x&->&Hx)%list_elem_of_fmap|?]%elem_of_app; [|by apply IH2].
    unfold relay. case_bool_decide; cbn; by apply IH1.
Qed.

(** What [denotes_all] lists, element by element. *)
Lemma denotes_all_routes l rs route :
  denotes_all l rs →
  route ∈ rs ↔ ∃ s r x, s ∈ l ∧ denotes s r ∧ x ∈ r ∧ route = relay s x.
Proof.
  induction 1 as [|s l r1 r2 Hd Hda IH].
  - split; [by intros ?%elem_of_nil|]. by intros (?&?&?&?%elem_of_nil&_).
  - rewrite elem_of_app, IH, list_elem_of_fmap. split.
    + intros [(x&->&Hx)|(t&r&x&Ht&Hr&Hx&->)].
      * exists s, r1, x. split; [by left|done].
      * exists t, r, x. split; [by right|done].
    + intros (t&r&x&[->|Ht]%elem_of_cons&Hr&Hx&->).
      * left. exists x. split; [done|]. by rewrite (proj1 denotes_functional _ _ Hd _ Hr).
      * right. by exists t, r, x.
Qed.

Lemma relay_terminal s c : relay s (mkResolved s [] c) = mkResolved s [] c.
Proof. unfold relay. cbn. by rewrite bool_decide_eq_true_2. Qed.

Lemma relay_alias s r x :
  bt_get s terminals = None → denotes s r → x ∈ r →
  relay s x = mkResolved (rr_source x) (s :: rr_via x) (rr_contract x).
Proof.
  intros Hs Hd Hx. unfold relay. rewrite bool_decide_eq_false_2; [done|].
  intros Heq. apply (denotes_terminal _ _ _ Hd) in Hx. congruence.
Qed.

(** The routes of an alias are its walks. *)
Lemma denotes_walk a rs :
  denotes a rs → bt_get a terminals = None →
  ∀ src via c, mkResolved src via c ∈ rs ↔ walk a via src c.
Proof.
  intros Hd. induction (proj1 denotes_acc _ _ Hd) as [a _ IH] in rs, Hd |- *.
  intros Ht src via c. inversion Hd as [|? sources ? _ He Hall]; simplify_eq.
  rewrite (denotes_all_routes _ _ _ Hall). split.
  - intros (s&r&x&Hs&Hr&Hx&Heq).
    assert (Has : alias a s) by (split; [done|by exists sources]).
    destruct (bt_get s terminals) as [cs|] eqn:Es.
    + inversion Hr; simplify_eq. apply list_elem_of_singleton in Hx as ->.
      rewrite relay_terminal in Heq. injection Heq as -> -> ->.
      by apply (walk_last _ _ _ Has).
    + rewrite (relay_alias _ _ _ Es Hr Hx) in Heq. injection Heq as -> -> ->.
      apply (walk_step _ _ _ _ _ Has). apply (IH s Has r Hr Es). by destruct x.
  - inversion 1 as [? s ? Has Hs|? s via' ? ? Has Hw]; simplify_eq;
      destruct (denotes_alias _ _ _ Hd Has) as [r Hr];
      destruct Has as (_&sources'&He'&Hin); rewrite He in He'; injection He' as <-.
    + exists src, r, (mkResolved src [] c). rewrite relay_terminal. split_and!; try done.
      inversion Hr; simplify_eq. left.
    + assert (Hst : bt_get s terminals = None) by (inversion Hw as [? ? ? [] |? ? ? ? ? []]; done).
      assert (Has : alias a s) by (split; [done|by exists sources]).
      apply (IH s Has r Hr Hst) in Hw. exists s, r, (mkResolved src via' c).
      split_and!; try done. by rewrite (relay_alias _ _ _ Hst Hr Hw).
Qed.

(** ** The search *)

Hypothesis Hedges : bt_ok edges.

(** Every finished address holds its routes. *)
Definition memo_ok (resolved : resolved_t) : Prop :=
  bt_ok resolved ∧ ∀ a r, bt_get a resolved = Some r → denotes a r.

Definition memo_grows (m m' : resolved_t) : Prop :=
  ∀ a r, bt_get a m = Some r → bt_get a m' = Some r.

(** The current path: aliases with an edge, each leading to the address at hand. *)
Record path_ok (active : btree PortAddress unit) (a : PortAddress) : Prop := {
  po_ok : bt_ok active;
  po_edges x : x ∈ active.*1 → x ∈ edges.*1;
  po_reach x : x ∈ active.*1 → tc alias x a;
}.

Lemma memo_insert resolved a r :
  memo_ok resolved → denotes a r → memo_ok (bt_insert a r resolved).2.
Proof.
  intros [Hok Hm] Hd. split; [by apply bt_insert_ok|]. intros b rb.
  rewrite bt_get_insert by done. case_bool_decide as E; [|by apply Hm].
  apply cmp_eq in E as ->. by intros [= <-].
Qed.

Lemma memo_insert_grows resolved a r :
  bt_ok resolved → bt_get a resolved = None → memo_grows resolved (bt_insert a r resolved).2.
Proof. intros Hok Hn b rb Hb. rewrite bt_get_insert_ne; [done|done|]. congruence. Qed.

#[local] Instance memo_grows_preorder : PreOrder memo_grows.
Proof. split; [by intros m a r|]. intros m1 m2 m3 H1 H2 a r Ha. by apply H2, H1. Qed.

Definition found (a : PortAddress) (active : btree PortAddress unit) (resolved : resolved_t)
    (r : result (list ResolvedRoute * btree PortAddress unit * resolved_t) ModuleError) : Prop :=
  match r with
  | Ok (routes, active', resolved') =>
      denotes a routes ∧ active' = active ∧ memo_ok resolved' ∧
      memo_grows resolved resolved' ∧ bt_get a resolved' = Some routes
  | Err e => resolve_failure a e
  end.

Lemma path_extend active a s :
  path_ok active a → a ∉ active.*1 → a ∈ edges.*1 → alias a s →
  path_ok (bs_insert a active).2 s.
Proof.
  intros [Hok He Hr] Hna Hin Has. split; [by apply bs_insert_ok|..].
  - intros x [->|Hx]%bs_insert_elem; [done|by apply He|done].
  - intros x [->|Hx]%bs_insert_elem; [by constructor| |done].
    eapply tc_r; [by apply Hr|done].
Qed.

Lemma resolve_endpoint_spec fuel a active resolved :
  memo_ok resolved → path_ok active a → S (length edges) ≤ fuel + length active →
  ∃ r, resolve_endpoint fuel edges terminals a active resolved = Some r ∧
       found a active resolved r.
Proof.
  revert a active resolved. induction fuel as [|fuel IH]; intros a active resolved Hm Hp Hfuel.
  { pose proof (bt_subset_length active edges (po_ok _ _ Hp) (po_edges _ _ Hp)). lia. }
  cbn [resolve_endpoint]. destruct (bt_get a resolved) as [routes|] eqn:Er.
  { eexists. split; [done|]. split_and!; try done. by apply Hm. }
  destruct (bt_get a terminals) as [c|] eqn:Et.
  { eexists. split; [done|]. assert (Hd : denotes a [mkResolved a [] c]) by by constructor.
    split_and!; [done..|by apply memo_insert|by apply memo_insert_grows, Er; apply Hm|].
    by apply bt_get_insert_eq; apply Hm. }
  pose proof (bs_insert_fresh a active (po_ok _ _ Hp)) as Hfresh.
  pose proof (bs_remove_insert a active (po_ok _ _ Hp)) as Hrem.
  pose proof (length_bs_insert a active) as Hlen.
  pose proof (path_extend active a) as Hext.
  destruct (bs_insert a active) as [[] active'] eqn:Ei; cbn [fst snd negb] in *.
  2: { eexists. split; [done|]. exists a. split; [constructor|]. left. split; [done|].
       destruct (decide (a ∈ active.*1)) as [Hin|Hno]; [by apply Hp|by apply Hfresh in Hno]. }
  assert (Hna : a ∉ active.*1) by by apply Hfresh.
  destruct (bt_get a edges) as [sources|] eqn:Ee.
  2: { eexists. split; [done|]. exists a. split; [constructor|]. right. by split. }
  assert (Hin : a ∈ edges.*1).
  { apply bt_get_elem in Ee. by apply (list_elem_of_fmap_2 fst) in Ee. }
  destruct (try_fold_spec
    (λ '(routes, active, resolved) source,
       let?? (found, active, resolved) := resolve_endpoint fuel edges terminals source active resolved in
       Some (Ok (routes ++ (relay source <$> found), active, resolved)))
    (λ pre '(routes, act, res), denotes_all pre routes ∧ act = active' ∧ memo_ok res ∧
       memo_grows resolved res)
    (resolve_failure a) sources ([], active', resolved)) as (r&Hr&Hpost).
  - intros pre s post [[routes act] res] -> (Hda&->&Hmr&Hg).
    assert (Has : alias a s) by (split; [done|]; eexists; split; [done|set_solver]).
    destruct (IH s active' res) as ([[[fnd act'] res']|e]&Hres&Hf);
      [done|by apply Hext|rewrite Hlen by done; lia|..]; rewrite Hres.
    + destruct Hf as (Hd&->&Hm'&Hg'&_). eexists. split; [done|]. split_and!; try done.
      * apply denotes_all_app; [done|]. rewrite <- (app_nil_r (relay s <$> fnd)).
        constructor; [done|constructor].
      * by etrans.
    + eexists. split; [done|]. destruct Hf as (x&Hx&Hcase). exists x. split; [by eapply rtc_l|done].
  - split_and!; [constructor|done..].
  - rewrite Hr. destruct r as [[[routes act] res]|e]; [|by exists (Err e)].
    destruct Hpost as (Hda&->&Hmr&Hg). eexists. split; [done|].
    assert (Hd : denotes a routes) by by econstructor.
    split_and!; [done|by apply Hrem|by apply memo_insert| |by apply bt_get_insert_eq; apply Hmr].
    etrans; [exact Hg|]. intros b rb Hb. destruct (decide (b = a)) as [->|Hne].
    + apply Hmr in Hb. rewrite (proj1 denotes_functional _ _ Hb _ Hd).
      by apply bt_get_insert_eq; apply Hmr.
    + rewrite bt_get_insert_ne; [done|apply Hmr|done].
Qed.
End denotation.
