(* ===== verification/LaunchDefinition.v ===== *)
(** * LaunchDefinition: what a manifest must satisfy

    [definition_wf] states the module language's rules for one manifest without
    the order of the checks; [validate_definition] decides it. *)

From Stdlib Require Import ZArith Lia.
From S2P Require Import Prelude Text Btree Bindings BindingsSpec ReportSpec.
From S2P Require Import LaunchTypes.

(** ** Rules *)

Definition name_wf (name : str) : Prop :=
  name ≠ [] ∧ name ≠ bytes_of "in" ∧ Forall (λ b, name_byte b = true) name.

(** A caller's port says nothing but its type. *)
Record connection_wf (p : PortSpec) : Prop := {
  cn_semantics : ps_semantics p = [];
  cn_kind : ps_kind p = Stream;
  cn_response : ps_response p = None;
  cn_qos : ps_qos p = QDefault;
  cn_retention : ps_retention p = Volatile;
  cn_replay : ps_replay p = Live;
  cn_buffer : ps_buffer p = Fifo;
  cn_type : ps_type_name p = [] ∨ contract_wf true (port_contract p);
}.

Record call_wf (entry : str * ModuleCall) : Prop := {
  cl_name : name_wf entry.1;
  cl_inputs name c : (name, c) ∈ mc_inputs entry.2 → name_wf name ∧ pc_from c ≠ None;
  cl_outputs name c : (name, c) ∈ mc_outputs entry.2 → name_wf name ∧ pc_from c = None;
}.

Record run_wf (run : RunSpec) : Prop := {
  rn_names : Forall name_wf (rs_bin run :: rs_companions run);
  rn_distinct : NoDup (rs_bin run :: rs_companions run);
}.

Record component_wf (c : ComponentSpec) : Prop := {
  cf_factory : name_wf (cs_factory c);
  cf_revision : ¬ blank (cs_factory_revision c);
  cf_assets : cs_config c = None → cs_config_assets c = [];
}.

(** Executable, component or composite: exactly one. *)
Inductive shape (m : ModuleManifest) : Prop :=
  | shape_run run : mm_run m = Some run → mm_component m = None → mm_modules m = [] → shape m
  | shape_component c : mm_run m = None → mm_component m = Some c → mm_modules m = [] → shape m
  | shape_composite : mm_run m = None → mm_component m = None → mm_modules m ≠ [] → shape m.

Record definition_wf (m : ModuleManifest) : Prop := {
  dw_version : mm_version m = 4%Z ∨
    mm_version m = MODULE_MANIFEST_VERSION ∧ mm_component m = None ∧
    mm_component_hosts m = None ∧ mm_placement m = None;
  dw_shape : shape m;
  dw_build : mm_run m = None → mm_build m = None;
  dw_calls e : e ∈ mm_modules m → call_wf e;
  dw_inputs name p : (name, p) ∈ mm_inputs m →
    name_wf name ∧ contract_wf true (port_contract p) ∧ ps_from p = None;
  dw_outputs name p : (name, p) ∈ mm_outputs m → name_wf name;
  dw_run run : mm_run m = Some run → run_wf run;
  dw_component c : mm_component m = Some c → component_wf c;
  dw_leaf_outputs name p : mm_modules m = [] → (name, p) ∈ mm_outputs m →
    contract_wf false (port_contract p) ∧ ps_from p = None;
  dw_composite_inputs name p : mm_modules m ≠ [] → (name, p) ∈ mm_inputs m →
    ps_replay p = Live ∧ ps_buffer p = Fifo;
  dw_composite_outputs name p : mm_modules m ≠ [] → (name, p) ∈ mm_outputs m →
    ps_from p ≠ None ∧ connection_wf p;
  dw_owned : mm_run m = None → mm_owned_children m = [];
  dw_children name child : (name, child) ∈ mm_owned_children m →
    name_wf name ∧ (∀ p, p ∈ pd_inputs child → p ∈ (mm_inputs m).*1) ∧
    (∀ p, p ∈ pd_outputs child → p ∈ (mm_outputs m).*1);
  dw_exclusive_inputs : NoDup (mm_owned_children m ≫= λ e, pd_inputs e.2);
  dw_exclusive_outputs : NoDup (mm_owned_children m ≫= λ e, pd_outputs e.2);
}.

(** The maps of a manifest are maps. *)
Record manifest_typed (m : ModuleManifest) : Prop := {
  mt_modules : bt_ok (mm_modules m);
  mt_inputs : bt_ok (mm_inputs m);
  mt_outputs : bt_ok (mm_outputs m);
  mt_children : bt_ok (mm_owned_children m);
  mt_hosts hosts : mm_component_hosts m = Some hosts → bt_ok hosts;
  mt_placement placement : mm_placement m = Some placement → bt_ok placement;
}.

(** ** The checks *)

(** [if c { return Err(x) }; k] *)
Lemma reject_Ok {E} (c : bool) (x : E) (k : result unit E) :
  (if c then Err x else k) = Ok tt ↔ c = false ∧ k = Ok tt.
Proof. destruct c; cbn; split; [done|by intros []|done|by intros []]. Qed.

Lemma reject_last {E} (c : bool) (x : E) : (if c then Err x else Ok tt) = Ok tt ↔ c = false.
Proof. by destruct c. Qed.

Lemma is_some_false {A} (o : option A) : is_some o = false ↔ o = None.
Proof. by destruct o. Qed.
Lemma is_none_false {A} (o : option A) : is_none o = false ↔ o ≠ None.
Proof. by destruct o. Qed.
Lemma nonempty_false {A} (l : list A) : nonempty l = false ↔ l = [].
Proof. by destruct l. Qed.

Lemma for_each_snd {K V E} (f : V → result unit E) (m : btree K V) :
  for_each f m.*2 = Ok tt ↔ ∀ k v, (k, v) ∈ m → f v = Ok tt.
Proof.
  rewrite for_each_Ok, Forall_fmap, Forall_forall. split; [by intros H k v Hin; apply (H (k, v))|].
  intros H [k v] Hin. by eapply H.
Qed.

Lemma for_each_fst {K V E} (f : K → result unit E) (m : btree K V) :
  for_each f m.*1 = Ok tt ↔ ∀ k v, (k, v) ∈ m → f k = Ok tt.
Proof.
  rewrite for_each_Ok, Forall_fmap, Forall_forall. split; [by intros H k v Hin; apply (H (k, v))|].
  intros H [k v] Hin. by eapply H.
Qed.

Lemma validate_name_Ok name kind : validate_name name kind = Ok tt ↔ name_wf name.
Proof.
  unfold validate_name, name_wf, invalid. rewrite reject_last, !orb_false_iff.
  rewrite !bool_decide_eq_false, negb_false_iff, forallb_Forall. tauto.
Qed.

Lemma validate_contract_Ok ns c input : validate_contract ns c input = Ok tt ↔ contract_wf input c.
Proof.
  unfold validate_contract, map_err. rewrite <- contract_validate_Ok.
  by destruct (contract_validate c input) as [[]|].
Qed.

Lemma connection_try_from_Ok p : is_ok (connection_try_from p) = true ↔ connection_wf p.
Proof.
  unfold connection_try_from, validate_connection, invalid.
  destruct (_ || _) eqn:E; cbn.
  - split; [done|]. intros [H1 H2 H3 H4 H5 H6 H7 _].
    rewrite H1, H2, H3, H4, H5, H6, H7 in E. done.
  - breflect_in E. rewrite ?bool_decide_eq_true in E.
    destruct E as [[[[[[H1 H2] H3] H4] H5] H6] H7].
    case_bool_decide as Ht; cbn [negb].
    + split; [|done]. intros _. split; try done; [by destruct (ps_response p)|by left].
    + pose proof (validate_contract_Ok (bytes_of "connection") (port_contract p) true) as Hc.
      destruct (validate_contract _ _ _) as [[]|]; cbn.
      * split; [|done]. intros _. split; try done; [by destruct (ps_response p)|right; by apply Hc].
      * split; [done|]. intros [_ _ _ _ _ _ _ [?|?%Hc]]; done.
Qed.

(** ** Executables *)

Definition companion_good (before : list str) (x : str) : Prop := name_wf x ∧ x ∉ before.

Lemma run_validate_names_Ok run ns : run_validate_names run ns = Ok tt ↔ run_wf run.
Proof.
  unfold run_validate_names. rewrite seq_Ok, validate_name_Ok, seq_any_Ok.
  set (f := λ (binaries : btree str unit) companion, _).
  assert (Hf : ∀ before s x, seen id (rs_bin run :: before) s →
    match f s x with
    | Ok s' => companion_good (rs_bin run :: before) x ∧ seen id (rs_bin run :: before ++ [x]) s'
    | Err _ => ¬ companion_good (rs_bin run :: before) x
    end).
  { intros before s x Hs. unfold f, companion_good.
    pose proof (validate_name_Ok x (bytes_of "companion binary")) as Hn.
    destruct (validate_name _ _) as [[]|]; [|naive_solver].
    apply (seen_insert id _ _ x) in Hs as [Hfr Hs']. rewrite list_fmap_id in Hfr. cbn [id] in *.
    destruct (bs_insert x s) as [fresh s']. cbn in *. destruct fresh; cbn; naive_solver. }
  assert (Hstart : seen id [rs_bin run] [(rs_bin run, tt)]).
  { pose proof (seen_insert id [] [] (rs_bin run) (seen_nil id)) as [_ H]. exact H. }
  rewrite (for_fold_is_ok f (λ before s, seen id (rs_bin run :: before) s)
             (λ before x, companion_good (rs_bin run :: before) x) _ _ Hf Hstart).
  unfold companion_good. rewrite each_after_and.
  assert (Hshift : ∀ l before, each_after (λ b x, x ∉ rs_bin run :: b) before l ↔
            each_after (λ (b : list str) (x : str), x ∉ b) (rs_bin run :: before) l).
  { induction l as [|x l IH]; intros before; cbn; [done|]. by rewrite IH. }
  rewrite Hshift. pose proof (each_after_NoDup (id : str → str) [rs_bin run] (rs_companions run)) as He.
  assert (Hid : each_after (λ b x, id x ∉ id <$> b) [rs_bin run] (rs_companions run) ↔
                each_after (λ (b : list str) (x : str), x ∉ b) [rs_bin run] (rs_companions run)).
  { apply each_after_mono. intros b x. by rewrite list_fmap_id. }
  rewrite <- Hid, He, !list_fmap_id. cbn. split.
  - intros (?&(?&?&Hno)&_). split; [by constructor|]. constructor; [|done].
    apply Hno. by left.
  - intros [Hn Hd]. apply Forall_cons in Hn as [? ?]. apply NoDup_cons in Hd as [? ?].
    split_and!; try done. by intros x ->%list_elem_of_singleton.
Qed.

Lemma component_validate_Ok c ns : component_validate c ns = Ok tt ↔ component_wf c.
Proof.
  unfold component_validate, invalid.
  rewrite seq_Ok, validate_name_Ok, reject_Ok, reject_last, trim_empty_false.
  rewrite andb_false_iff, is_none_false, negb_false_iff, bool_decide_eq_true. split.
  - intros (?&?&Ha). split; [done..|]. intros Hn. by destruct Ha.
  - intros [? ? Ha]. split_and!; try done. destruct (cs_config c) eqn:E; [by left|right; by apply Ha].
Qed.

Lemma validate_call_Ok ns e : validate_call ns e = Ok tt ↔ call_wf e.
Proof.
  destruct e as [name call]. unfold validate_call, invalid.
  rewrite !seq_Ok, validate_name_Ok, !for_each_snd, for_each_Ok, Forall_app, !Forall_fmap, !Forall_forall.
  split.
  - intros (Hn&[Hi Ho]&Hfi&Hfo). split; [done|..]; cbn.
    + intros n c Hin. split; [by apply (Hi _), validate_name_Ok in Hin|].
      specialize (Hfi _ _ Hin). by apply reject_last, is_none_false in Hfi.
    + intros n c Hin. split; [by apply (Ho _), validate_name_Ok in Hin|].
      specialize (Hfo _ _ Hin). by apply reject_last, is_some_false in Hfo.
  - intros [Hn Hi Ho]. cbn in *. split_and!; [done|..].
    + intros [n c] Hin. apply validate_name_Ok. by eapply Hi.
    + intros [n c] Hin. apply validate_name_Ok. by eapply Ho.
    + intros n c Hin. apply reject_last, is_none_false. by eapply Hi.
    + intros n c Hin. apply reject_last, is_some_false. by eapply Ho.
Qed.

(** ** Owned children *)

(** Names given to one child, after those given before. *)
Definition delegated_good {V} (ports : btree str V) (before names : list str) : Prop :=
  (∀ p, p ∈ names → p ∈ ports.*1) ∧ NoDup names ∧ ∀ p, p ∈ before → p ∉ names.

Lemma check_delegated_exact {V} ns name (ports : btree str V) before s names :
  bt_ok ports → seen id before s →
  match check_delegated ns name ports s names with
  | Ok s' => delegated_good ports before names ∧ seen id (before ++ names) s'
  | Err _ => ¬ delegated_good ports before names
  end.
Proof.
  intros Hok Hs. unfold check_delegated.
  match goal with |- context [for_fold ?g _ _] => set (f := g) end.
  assert (Hf : ∀ b t x, seen id b t →
    match f t x with
    | Ok t' => (x ∈ ports.*1 ∧ id x ∉ id <$> b) ∧ seen id (b ++ [x]) t'
    | Err _ => ¬ (x ∈ ports.*1 ∧ id x ∉ id <$> b)
    end).
  { intros b t x Ht. unfold f, invalid. pose proof (bt_contains_true x ports Hok) as Hc.
    apply (seen_insert id _ _ x) in Ht as [Hfr Ht']. cbn [id] in *.
    destruct (bt_contains x ports); cbn; [|naive_solver].
    destruct (bs_insert x t) as [fresh t']. cbn in *. destruct fresh; cbn; naive_solver. }
  pose proof (for_fold_exact f (seen id) _ Hf names before s Hs) as Hl.
  assert (Hgood : each_after (λ b x, x ∈ ports.*1 ∧ id x ∉ id <$> b) before names ↔
                  delegated_good ports before names).
  { rewrite each_after_and, each_after_NoDup, !list_fmap_id, Forall_forall. done. }
  destruct (for_fold _ _ _); naive_solver.
Qed.

Section owned.
Context (ns : str) (m : ModuleManifest).
Hypothesis Htyped : manifest_typed m.

Definition owned_good (before : list (str * PortDelegation)) (e : str * PortDelegation) : Prop :=
  name_wf e.1 ∧
  delegated_good (mm_inputs m) (before ≫= λ e, pd_inputs e.2) (pd_inputs e.2) ∧
  delegated_good (mm_outputs m) (before ≫= λ e, pd_outputs e.2) (pd_outputs e.2).

Definition owned_seen (before : list (str * PortDelegation)) (s : btree str unit * btree str unit) : Prop :=
  seen id (before ≫= λ e, pd_inputs e.2) s.1 ∧ seen id (before ≫= λ e, pd_outputs e.2) s.2.

Lemma check_owned_exact before s e :
  owned_seen before s →
  match check_owned ns m s e with
  | Ok s' => owned_good before e ∧ owned_seen (before ++ [e]) s'
  | Err _ => ¬ owned_good before e
  end.
Proof.
  intros [Hi Ho]. destruct e as [name child]. unfold check_owned, owned_good, owned_seen.
  cbn [fst snd]. pose proof (validate_name_Ok name (bytes_of "owned child")) as Hn.
  destruct (validate_name _ _) as [[]|]; [|naive_solver].
  pose proof (check_delegated_exact ns name _ _ _ (pd_inputs child) (mt_inputs _ Htyped) Hi) as Hdi.
  destruct (check_delegated _ _ (mm_inputs m) _ _); [|naive_solver].
  pose proof (check_delegated_exact ns name _ _ _ (pd_outputs child) (mt_outputs _ Htyped) Ho) as Hdo.
  destruct (check_delegated _ _ (mm_outputs m) _ _); [|naive_solver].
  rewrite !bind_app. cbn. rewrite !app_nil_r. naive_solver.
Qed.

Lemma owned_all :
  each_after owned_good [] (mm_owned_children m) ↔
  (∀ name child, (name, child) ∈ mm_owned_children m →
     name_wf name ∧ (∀ p, p ∈ pd_inputs child → p ∈ (mm_inputs m).*1) ∧
     (∀ p, p ∈ pd_outputs child → p ∈ (mm_outputs m).*1)) ∧
  NoDup (mm_owned_children m ≫= λ e, pd_inputs e.2) ∧
  NoDup (mm_owned_children m ≫= λ e, pd_outputs e.2).
Proof.
  set (rule := λ e : str * PortDelegation,
    name_wf e.1 ∧ (∀ p, p ∈ pd_inputs e.2 → p ∈ (mm_inputs m).*1) ∧
    (∀ p, p ∈ pd_outputs e.2 → p ∈ (mm_outputs m).*1)).
  set (fresh := λ (g : str * PortDelegation → list str) (b : list (str * PortDelegation)) e,
    NoDup (g e) ∧ ∀ k, k ∈ b ≫= g → k ∉ g e).
  rewrite (each_after_mono owned_good
    (λ b e, rule e ∧ fresh (λ e, pd_inputs e.2) b e ∧ fresh (λ e, pd_outputs e.2) b e)).
  2: { intros b e. unfold owned_good, delegated_good, rule, fresh. tauto. }
  rewrite each_after_and, Forall_forall.
  assert (Hsplit : ∀ P Q (b l : list (str * PortDelegation)),
    each_after (λ b e, P b e ∧ Q b e) b l ↔ each_after P b l ∧ each_after Q b l).
  { intros P Q b l. revert b. induction l as [|x l IH]; intros b; cbn; [tauto|]. rewrite IH. tauto. }
  rewrite Hsplit. unfold fresh. rewrite !each_after_NoDup_bind. cbn. split.
  - intros (Hr&[Hi _]&[Ho _]). split; [|done]. intros name child Hin. apply (Hr (name, child) Hin).
  - intros (Hr&Hi&Ho). split; [by intros [] ?; apply Hr|].
    split; (split; [done|by intros ? ?%elem_of_nil]).
Qed.

Lemma owned_seen_nil : owned_seen [] ([], []).
Proof. by split; apply (seen_nil id). Qed.

Lemma shape_count :
  negb (length (filter (λ present, present = true)
     [is_some (mm_run m); is_some (mm_component m); nonempty (mm_modules m)]) =? 1) = false ↔ shape m.
Proof.
  destruct (mm_run m) as [run|] eqn:Er, (mm_component m) as [c|] eqn:Ec,
    (mm_modules m) as [|x l] eqn:Em; vm_compute (negb _); (split; [try done|]);
    try (intros _; econstructor; by rewrite ?Er, ?Ec, ?Em).
  all: intros [? Hr Hc Hm|? Hr Hc Hm|Hr Hc Hm]; congruence.
Qed.

Lemma shape_leaf : shape m → is_some (mm_run m) || is_some (mm_component m) = true ↔ mm_modules m = [].
Proof. intros [? Hr Hc Hm|? Hr Hc Hm|Hr Hc Hm]; rewrite Hr, Hc; cbn; done. Qed.

Lemma validate_executable_outputs_Ok :
  validate_executable_outputs ns m = Ok tt ↔
  ∀ name p, (name, p) ∈ mm_outputs m → contract_wf false (port_contract p) ∧ ps_from p = None.
Proof.
  unfold validate_executable_outputs, invalid. rewrite for_each_snd.
  setoid_rewrite seq_Ok. setoid_rewrite validate_contract_Ok. setoid_rewrite reject_last.
  by setoid_rewrite is_some_false.
Qed.

Lemma validate_composite_Ok :
  validate_composite ns m = Ok tt ↔
  (∀ name p, (name, p) ∈ mm_inputs m → ps_replay p = Live ∧ ps_buffer p = Fifo) ∧
  (∀ name p, (name, p) ∈ mm_outputs m → ps_from p ≠ None ∧ connection_wf p).
Proof.
  unfold validate_composite, invalid. rewrite seq_Ok, !for_each_snd.
  setoid_rewrite reject_Ok. setoid_rewrite seq_any_Ok. setoid_rewrite connection_try_from_Ok.
  setoid_rewrite is_none_false. setoid_rewrite orb_false_iff.
  setoid_rewrite negb_false_iff. setoid_rewrite bool_decide_eq_true. split.
  - intros [Hi Ho]. split; [by intros n p H; apply Hi in H as [H _]|by intros n p (?&?&_)%Ho].
  - intros [Hi Ho]. split; [by intros n p H; apply Hi in H|by intros n p (?&?)%Ho].
Qed.

(** The validator decides the rules. *)
Lemma validate_definition_Ok : validate_definition ns m = Ok tt ↔ definition_wf m.
Proof.
  unfold validate_definition, validate_calls, validate_port_names, invalid.
  rewrite !reject_Ok, !seq_Ok, reject_Ok, seq_any_Ok, shape_count.
  rewrite (for_fold_is_ok _ _ _ _ _ check_owned_exact owned_seen_nil), owned_all.
  rewrite for_each_Ok, Forall_forall, !for_each_fst, for_each_snd.
  setoid_rewrite validate_call_Ok. setoid_rewrite validate_name_Ok.
  setoid_rewrite seq_Ok. setoid_rewrite validate_contract_Ok. setoid_rewrite reject_last.
  setoid_rewrite is_some_false.
  rewrite !andb_false_iff, !orb_false_iff, !negb_false_iff, !is_some_false, !Z.eqb_eq, is_none_false,
    nonempty_false.
  split.
  - intros (Hv&Hv'&Hs&Hb&Hcalls&Hni&Hno&Hi&Hr&Hc&Hports&Hown&(Hch&Hxi&Hxo)&_).
    pose proof (shape_leaf Hs) as Hleaf. split; try done.
    + destruct Hv' as [Hv'|[[Hc1 Hc2] Hc3]].
      * apply Z.eqb_neq in Hv'. left. by destruct Hv.
      * destruct Hv; [right; done|by left].
    + by intros Hrun; destruct Hb.
    + intros name p Hin. split; [by eapply Hni|by eapply Hi].
    + intros run Hrun. rewrite Hrun in Hr. by eapply run_validate_names_Ok.
    + intros c Hcomp. rewrite Hcomp in Hc. by eapply component_validate_Ok.
    + intros name p Hm. rewrite (proj2 Hleaf Hm) in Hports.
      by apply validate_executable_outputs_Ok.
    + intros name p Hm. destruct (_ || _); [by destruct Hm; apply Hleaf|].
      by apply validate_composite_Ok in Hports as [Hpi _]; apply Hpi.
    + intros name p Hm. destruct (_ || _); [by destruct Hm; apply Hleaf|].
      by apply validate_composite_Ok in Hports as [_ Hpo]; apply Hpo.
    + by intros Hrun; destruct Hown.
  - intros [Hv Hs Hb Hcalls Hi Hno Hr Hc Hlo Hci Hco Hown Hch Hxi Hxo].
    pose proof (shape_leaf Hs) as Hleaf. split_and!; try done.
    + destruct Hv as [?|[? _]]; [by right|by left].
    + destruct Hv as [Hv|(_&?&?&?)]; [left; by rewrite Hv|by right].
    + destruct (mm_run m); [by right|left; by apply Hb].
    + intros name p Hin. by eapply Hi.
    + intros name p Hin. split; by eapply Hi.
    + destruct (mm_run m); [|done]. by apply run_validate_names_Ok, Hr.
    + destruct (mm_component m); [|done]. by apply component_validate_Ok, Hc.
    + destruct (_ || _).
      * apply validate_executable_outputs_Ok. intros name p Hin. eapply Hlo; [by apply Hleaf|done].
      * assert (Hm : mm_modules m ≠ []) by by intros ?%Hleaf.
        apply validate_composite_Ok. split; [by intros name p; apply Hci|by intros name p; apply Hco].
    + destruct (mm_run m); [by right|left; by apply Hown].
Qed.
End owned.
