(* ===== verification/LaunchTree.v ===== *)
(** * LaunchTree: the instances a visit creates

    A visit of a module tree returns (the depth is bounded by the number of
    directories, because a directory is never visited below itself), adds one
    valid instance per node of the tree under distinct namespaces, and leaves
    all other instances alone. *)

From Stdlib Require Import ZArith Lia.
From S2P Require Import Prelude Text Btree Bindings BindingsSpec ReportSpec.
From S2P Require Import LaunchTypes LaunchLoad LaunchPlan LaunchResolve LaunchDefinition.

(** ** Namespaces *)

Lemma chars_ascii s : Forall (λ b, between 0 127 b = true) s → chars s = s.
Proof. induction 1 as [|b s Hb _ IH]; cbn [chars]; [done|]. by rewrite Hb, IH. Qed.

(** Bytes of names are plain: ASCII, no separator, no white space, no dot. *)
Definition plain_byte (b : Z) : bool :=
  between 0 127 b && negb (is_whitespace b) && negb (bool_decide (b ∈ bytes_of "/*?#$@."%string)).

Lemma name_byte_plain b : name_byte b = true → plain_byte b = true.
Proof.
  intros Hb. assert (Hr : (0 ≤ b < 128)%Z).
  { unfold name_byte, is_ascii_alphanumeric, is_ascii_alphabetic, is_ascii_digit, between in Hb.
    rewrite !orb_true_iff, !andb_true_iff, !Z.leb_le, !Z.eqb_eq in Hb. lia. }
  assert (Hall : forallb (λ b, implb (name_byte b) (plain_byte b)) (Z.of_nat <$> seq 0 128) = true)
    by by vm_compute.
  rewrite forallb_Forall, Forall_forall in Hall. specialize (Hall b). cbn beta in Hall.
  rewrite Hb in Hall. apply Hall. apply list_elem_of_fmap. exists (Z.to_nat b).
  split; [lia|]. apply elem_of_seq. lia.
Qed.

Lemma name_plain name : name_wf name → Forall (λ b, plain_byte b = true) name.
Proof. intros (_&_&Hn). eapply Forall_impl; [exact Hn|]. apply name_byte_plain. Qed.

Lemma name_segment name : name_wf name → segment_wf name.
Proof.
  intros Hn. pose proof (name_plain _ Hn) as Hp. destruct Hn as (Hne&_&_).
  rewrite Forall_forall in Hp.
  assert (Hdot : 46%Z ∉ name) by (intros Hin; by apply Hp in Hin).
  split_and!; [done|by intros ->; apply Hdot; left|by intros ->; apply Hdot; left|].
  intros c. rewrite chars_ascii.
  - intros Hc%Hp. unfold plain_byte in Hc. rewrite !andb_true_iff, !negb_true_iff, bool_decide_eq_false in Hc.
    destruct Hc as [[_ Hw] Hs]. split; [|done]. intros Hin. apply Hs. change (bytes_of "/*?#$@.") with (bytes_of "/*?#$@" ++ bytes_of ".").
    apply elem_of_app. by left.
  - apply Forall_forall. intros b Hb%Hp. unfold plain_byte in Hb. rewrite !andb_true_iff in Hb. tauto.
Qed.

Lemma name_no_slash name : name_wf name → 47%Z ∉ name.
Proof.
  intros Hn%name_plain Hin. rewrite Forall_forall in Hn. specialize (Hn _ Hin).
  vm_compute in Hn. done.
Qed.

Lemma name_namespace name : name_wf name → namespace_wf name.
Proof.
  intros Hn. exists [name]. split_and!; [done| |done]. constructor; [|constructor].
  split; [by apply name_segment|by apply name_no_slash].
Qed.

Lemma join_snoc sep segs seg : segs ≠ [] → join_on sep (segs ++ [seg]) = join_on sep segs ++ sep :: seg.
Proof.
  induction segs as [|s segs IH]; [done|]. intros _. destruct segs as [|s' segs]; [done|].
  change (join_on sep ((s :: s' :: segs) ++ [seg])) with (s ++ sep :: join_on sep ((s' :: segs) ++ [seg])).
  rewrite IH by done. change (join_on sep (s :: s' :: segs)) with (s ++ sep :: join_on sep (s' :: segs)).
  by rewrite <- app_assoc.
Qed.

Lemma child_namespace_wf ns name : namespace_wf ns → name_wf name → namespace_wf (child_namespace ns name).
Proof.
  intros (segs&Hne&Hall&->) Hn. exists (segs ++ [name]). split_and!.
  - by destruct segs.
  - apply Forall_app. split; [done|]. constructor; [|constructor].
    split; [by apply name_segment|by apply name_no_slash].
  - unfold child_namespace. by rewrite join_snoc.
Qed.

(** The namespaces of a subtree. *)
Definition under (ns x : str) : Prop := x = ns ∨ ∃ rest, x = ns ++ 47%Z :: rest.

Lemma under_prefix ns x : under ns x ↔ x = ns ∨ take (S (length ns)) x = ns ++ [47%Z].
Proof.
  split; (intros [->|H]; [by left|right]).
  - destruct H as (rest&->). replace (ns ++ 47%Z :: rest) with ((ns ++ [47%Z]) ++ rest) by by rewrite <- app_assoc.
    rewrite take_app_length'; [done|]. rewrite length_app. cbn. lia.
  - exists (drop (S (length ns)) x). rewrite <- (take_drop (S (length ns)) x) at 1. rewrite H.
    by rewrite <- app_assoc.
Qed.

#[local] Instance under_dec ns x : Decision (under ns x).
Proof. refine (cast_if (decide (x = ns ∨ take (S (length ns)) x = ns ++ [47%Z]))); by rewrite under_prefix. Defined.

Lemma under_child ns name x : under (child_namespace ns name) x → under ns x.
Proof.
  unfold child_namespace. intros [->|(rest&->)]; right; [by eexists|].
  exists (name ++ 47%Z :: rest). by rewrite <- app_assoc.
Qed.

Lemma under_siblings ns a b x :
  47%Z ∉ a → 47%Z ∉ b → under (child_namespace ns a) x → under (child_namespace ns b) x → a = b.
Proof.
  unfold child_namespace. intros Ha Hb Hx Hy.
  assert (Hhd : ∀ c, 47%Z ∉ c → under (ns ++ 47%Z :: c) x →
            ∃ rest, x = ns ++ 47%Z :: rest ∧ head (split_on 47 rest) = Some c).
  { intros c Hc [->|(rest&->)].
    - exists c. split; [done|]. by rewrite split_on_none.
    - exists (c ++ 47%Z :: rest). split; [by rewrite <- app_assoc|]. by rewrite split_on_app. }
  destruct (Hhd a Ha Hx) as (r1&E1&H1), (Hhd b Hb Hy) as (r2&E2&H2).
  rewrite E1 in E2. apply (inj (ns ++.)) in E2. injection E2 as ->. congruence.
Qed.

Lemma under_not_parent ns name : ¬ under (child_namespace ns name) ns.
Proof.
  unfold child_namespace.
  intros [E|(rest&E)]; apply (f_equal length) in E; rewrite ?length_app in E; cbn in E; lia.
Qed.

(** ** Instances *)

(** What a visit has checked of one instance. *)
Record instance_wf (i : Instance_) : Prop := {
  iw_typed : manifest_typed (in_manifest i);
  iw_definition : definition_wf (in_manifest i);
  iw_provider run : mm_run (in_manifest i) = Some run →
    process_provider (in_providers i) (rs_provider run) ≠ None;
}.

(** The instance of a call has exactly the inputs the call connects. *)
Definition called (instances : btree str Instance_) (x : str) (e : str * ModuleCall) : Prop :=
  ∃ c, bt_get (child_namespace x e.1) instances = Some c ∧
       (mc_inputs e.2).*1 = (mm_inputs (in_manifest c)).*1.

(** Some instance calls [x]. *)
Definition has_caller (instances : btree str Instance_) (ns x : str) : Prop :=
  ∃ p ip e, under ns p ∧ bt_get p instances = Some ip ∧ e ∈ mm_modules (in_manifest ip) ∧
            x = child_namespace p e.1.

Definition tree_ok (instances : btree str Instance_) (ns : str) : Prop :=
  ∀ x i, under ns x → bt_get x instances = Some i →
    instance_wf i ∧ namespace_wf x ∧
    (∀ e, e ∈ mm_modules (in_manifest i) → called instances x e) ∧
    (x = ns ∨ has_caller instances ns x).

Lemma tree_ok_agree m1 m2 ns :
  (∀ x, under ns x → bt_get x m2 = bt_get x m1) → tree_ok m1 ns → tree_ok m2 ns.
Proof.
  intros Heq Ht x i Hu Hi. rewrite Heq in Hi by done.
  destruct (Ht x i Hu Hi) as (Hw&Hns&Hc&Hp). split_and!; [done|done|..].
  - intros e He. destruct (Hc e He) as (c&Hg&Hk). exists c. split; [|done].
    rewrite Heq; [done|]. destruct Hu as [->|(rest&->)].
    + right. by eexists.
    + right. exists (rest ++ 47%Z :: e.1). unfold child_namespace. by rewrite <- app_assoc.
  - destruct Hp as [->|(p&ip&e&Hup&Hg&He&->)]; [by left|]. right. exists p, ip, e.
    split_and!; try done. by rewrite Heq.
Qed.

Lemma definition_set_build m b :
  (b = None ↔ mm_build m = None) → definition_wf m → definition_wf (set_build m b).
Proof.
  intros Hb [Hv Hs Hbuild Hcalls Hi Hno Hr Hc Hlo Hci Hco Hown Hch Hxi Hxo].
  split; try done; cbn.
  - destruct Hs as [run ?? ?|c ?? ?|]; [by eapply shape_run|by eapply shape_component|by apply shape_composite].
  - intros Hn. apply Hb. by apply Hbuild.
Qed.

Lemma overrides_ports dir ns call child child' :
  apply_overrides dir ns call child = Ok child' →
  mm_inputs child' = mm_inputs child ∧ (manifest_typed child → manifest_typed child').
Proof.
  unfold apply_overrides, invalid. intros H. repeat case_match; simplify_eq; (split; [done|]);
    by intros [? ? ? ? ? ?].
Qed.

Lemma validate_manifest_Ok ns m ps root :
  manifest_typed m → validate_manifest ns m ps root = Ok tt →
  definition_wf m ∧
  ∀ run, mm_run m = Some run → process_provider ps (rs_provider run) ≠ None.
Proof.
  intros Ht. unfold validate_manifest, invalid. rewrite reject_Ok, seq_Ok.
  intros (_&Hd&Hr). split; [by apply (validate_definition_Ok ns)|]. intros run Hrun.
  rewrite Hrun, seq_Ok in Hr. destruct Hr as [_ Hr]. by destruct (process_provider _ _).
Qed.

(** ** The visit *)

Section visit.
Context {R : Type} (env : Env R) (dirs : list path).
Hypothesis Hcanon : ∀ p d, env_canonicalize env p = Ok d → d ∈ dirs.
Hypothesis Hread : ∀ d m, env_read_manifest env d = Ok m → manifest_typed m.

Record visited (self self' : Loader R) (ns : str) (m : ModuleManifest) : Prop := {
  vs_stack : ld_source_stack self' = ld_source_stack self;
  vs_ok : bt_ok (ld_instances self');
  vs_other x : ¬ under ns x → bt_get x (ld_instances self') = bt_get x (ld_instances self);
  vs_root : ∃ i b, bt_get ns (ld_instances self') = Some i ∧ in_manifest i = set_build m b;
  vs_tree : tree_ok (ld_instances self') ns;
}.

(** Before a visit: room on the stack, and nothing in the subtree yet. *)
Record visitable (fuel : nat) (self : Loader R) (ns : str) : Prop := {
  vb_ok : bt_ok (ld_instances self);
  vb_free x : under ns x → bt_get x (ld_instances self) = None;
  vb_namespace : namespace_wf ns;
  vb_stack : NoDup (ld_source_stack self);
  vb_dirs d : d ∈ ld_source_stack self → d ∈ dirs;
  vb_fuel : length dirs < fuel + length (ld_source_stack self);
}.

Definition visit_post (self : Loader R) (ns : str) (m : ModuleManifest)
    (r : result (Loader R) ModuleError) : Prop :=
  match r with Ok self' => visited self self' ns m | Err _ => True end.

Lemma check_call_inputs_spec ns call child :
  bt_ok (mm_inputs child) →
  ∃ r, check_call_inputs ns call child = Some r ∧
       match r with Ok _ => (mc_inputs call).*1 = (mm_inputs child).*1 | Err _ => True end.
Proof.
  intros Hok. unfold check_call_inputs. case_bool_decide as Hk; cbn [negb]; [|by eexists].
  match goal with |- context [try_fold ?f _ _] => set (body := f) end.
  destruct (try_fold_spec body (λ _ _, True) (λ _, True) (mc_inputs call) tt) as (r&Hr&_); [|done|].
  - intros pre [name port] post [] Heq _. unfold body.
    destruct (bt_get name (mm_inputs child)) as [p|] eqn:Eg.
    + eexists. split; [done|]. by destruct (check_type _ _ _).
    + exfalso. apply bt_get_None in Eg; [|done]. apply Eg. rewrite <- Hk, Heq.
      apply list_elem_of_fmap. exists (name, port). split; [done|set_solver].
  - exists r. split; [done|]. by destruct r.
Qed.

(** The loop over the calls of one instance. *)
Record calls_done (self0 : Loader R) (ns : str) (pre : list (str * ModuleCall))
    (self : Loader R) : Prop := {
  cd_ok : bt_ok (ld_instances self);
  cd_stack : ld_source_stack self = ld_source_stack self0;
  cd_other x : ¬ under ns x → bt_get x (ld_instances self) = bt_get x (ld_instances self0);
  cd_free x : under ns x → (∀ e, e ∈ pre → ¬ under (child_namespace ns e.1) x) →
    bt_get x (ld_instances self) = None;
  cd_calls e : e ∈ pre →
    tree_ok (ld_instances self) (child_namespace ns e.1) ∧ called (ld_instances self) ns e;
}.

Lemma visit_call_spec rec fuel ns dir ps self0 pre e post self modules :
  (∀ self ns dir m ps, visitable fuel self ns → manifest_typed m →
     ∃ r, rec self ns dir m ps false = Some r ∧ visit_post self ns m r) →
  modules = pre ++ e :: post → NoDup modules.*1 → (∀ e, e ∈ modules → name_wf e.1) →
  namespace_wf ns → NoDup (ld_source_stack self0) → (∀ d, d ∈ ld_source_stack self0 → d ∈ dirs) →
  length dirs < fuel + length (ld_source_stack self0) →
  calls_done self0 ns pre self →
  ∃ r, visit_call env rec ns dir ps self e = Some r ∧
       match r with Ok self' => calls_done self0 ns (pre ++ [e]) self' | Err _ => True end.
Proof.
  intros Hrec Heq Hnd Hnames Hns Hst Hdirs Hfuel [Hok Hstk Hother Hfree Hcalls].
  destruct e as [name call]. unfold visit_call.
  assert (Hname : name_wf name) by (apply (Hnames (name, call)); set_solver).
  destruct (child_source _ _ _ _ _) as [[child_dir self1]|] eqn:Esrc; [|by eexists].
  assert (Hself : ld_instances self1 = ld_instances self ∧ ld_source_stack self1 = ld_source_stack self).
  { unfold child_source in Esrc. destruct (mc_source call); [by simplify_eq|].
    destruct (env_resolve _ _ _ _ _) as [[]|]; by simplify_eq. }
  destruct Hself as [Hinst Hstk1].
  destruct (env_read_manifest env child_dir) as [child|] eqn:Erd; [|by eexists].
  pose proof (Hread _ _ Erd) as Hct.
  destruct (check_call_inputs_spec (child_namespace ns name) call child (mt_inputs _ Hct))
    as ([u|er]&->&Hkeys); [|by eexists].
  destruct (check_call_outputs _ _ _) as [u'|]; [|by eexists].
  destruct (apply_overrides _ _ _ _) as [child'|] eqn:Eo; [|by eexists].
  apply overrides_ports in Eo as [Hin Hty]. specialize (Hty Hct).
  destruct (map_providers _ _ _) as [cps|]; [|by eexists].
  assert (Hsib : ∀ e x, e ∈ pre → under (child_namespace ns e.1) x →
                        ¬ under (child_namespace ns name) x).
  { intros e x He Hx Hx'. assert (e.1 = name) as Heq1.
    { eapply under_siblings; [| |exact Hx|exact Hx']; apply name_no_slash; [|done].
      apply Hnames. set_solver. }
    rewrite Heq, fmap_app in Hnd. apply NoDup_app in Hnd as (_&Hdis&_).
    apply (Hdis name); [|by left]. rewrite <- Heq1. by apply (list_elem_of_fmap_2 fst). }
  destruct (Hrec self1 (child_namespace ns name) child_dir child' cps) as (r&->&Hpost); [|done|].
  { split.
    - by rewrite Hinst.
    - intros x Hx. rewrite Hinst. apply Hfree; [by eapply under_child|].
      intros e He Hx'. by eapply Hsib.
    - by apply child_namespace_wf.
    - by rewrite Hstk1, Hstk.
    - rewrite Hstk1, Hstk. exact Hdirs.
    - by rewrite Hstk1, Hstk. }
  exists r. split; [done|]. destruct r as [self'|]; [|done].
  destruct Hpost as [Hvs Hvok Hvo (i&b&Hvi&Hvm) Hvt]. rewrite Hinst in Hvo.
  split; [done|by rewrite Hvs, Hstk1| | |].
  - intros x Hx. rewrite Hvo; [by apply Hother|]. intros Hu. by apply Hx, (under_child _ name).
  - intros x Hx Hall. rewrite Hvo; [|apply (Hall (name, call)); set_solver].
    apply Hfree; [done|]. intros e He. apply Hall. set_solver.
  - intros e [He|He%list_elem_of_singleton]%elem_of_app.
    + destruct (Hcalls e He) as (Ht&c&Hc&Hk). split.
      * eapply tree_ok_agree, Ht. intros x Hx. apply Hvo. by eapply Hsib.
      * exists c. split; [|done]. rewrite Hvo; [done|]. eapply Hsib; [done|by left].
    + subst e. split; [done|]. exists i. split; [done|]. rewrite Hvm. cbn. by rewrite Hin.
Qed.

Lemma visit_finish self self' ns dir m ps :
  bt_ok (ld_instances self) → namespace_wf ns → instance_wf (mkInstance dir m ps) →
  calls_done (mkLoader (ld_resolver self) (ld_instances self) (ld_source_stack self ++ [dir])) ns
    (mm_modules m) self' →
  visited self
    (mkLoader (ld_resolver self') (bt_insert ns (mkInstance dir m ps) (ld_instances self')).2
       (removelast (ld_source_stack self'))) ns m.
Proof.
  intros Hok0 Hns Hwf [Hok Hstk Hother Hfree Hcalls]. cbn in *.
  assert (Hget : ∀ x, x ≠ ns → bt_get x (bt_insert ns (mkInstance dir m ps) (ld_instances self')).2
                              = bt_get x (ld_instances self')).
  { intros x Hx. by apply bt_get_insert_ne. }
  assert (Hgetns : bt_get ns (bt_insert ns (mkInstance dir m ps) (ld_instances self')).2
                   = Some (mkInstance dir m ps)) by by apply bt_get_insert_eq.
  assert (Hbelow : ∀ name x, under (child_namespace ns name) x → x ≠ ns).
  { intros name x Hx ->. by eapply under_not_parent. }
  split; cbn.
  - rewrite Hstk. apply removelast_last.
  - by apply bt_insert_ok.
  - intros x Hx. rewrite Hget; [by apply Hother|]. intros ->. apply Hx. by left.
  - exists (mkInstance dir m ps), (mm_build m). split; [done|]. by destruct m.
  - intros x i Hu Hi. destruct (decide (x = ns)) as [->|Hne].
    + rewrite Hgetns in Hi. injection Hi as <-. split_and!; [done|done| |by left].
      intros e He. destruct (Hcalls e He) as (_&c&Hc&Hk). exists c. split; [|done].
      rewrite Hget; [done|]. eapply Hbelow. by left.
    + rewrite Hget in Hi by done.
      destruct (decide (Exists (λ e, under (child_namespace ns e.1) x) (mm_modules m))) as [Hex|Hno].
      2: { exfalso. rewrite Hfree in Hi; [done|done|]. intros e He Hx. apply Hno, Exists_exists. by exists e. }
      apply Exists_exists in Hex as (e&He&Hxe). destruct (Hcalls e He) as (Ht&_).
      apply (tree_ok_agree _ (bt_insert ns (mkInstance dir m ps) (ld_instances self')).2) in Ht.
      2: { intros y Hy. apply Hget. by eapply Hbelow. }
      destruct (Ht x i Hxe) as (Hiw&Hxw&Hch&Hpar); [by rewrite Hget|].
      split_and!; [done..|]. right. destruct Hpar as [->|(p&ip&e'&Hup&Hpg&He'&->)].
      * exists ns, (mkInstance dir m ps), e. split_and!; try done. by left.
      * exists p, ip, e'. split_and!; try done. by eapply under_child.
Qed.

Lemma visit_spec fuel self ns dir m ps root :
  visitable fuel self ns → manifest_typed m →
  ∃ r, visit env fuel self ns dir m ps root = Some r ∧ visit_post self ns m r.
Proof.
  revert self ns dir m ps root. induction fuel as [|fuel IH]; intros self ns dir m ps root Hv Hm.
  { destruct Hv as [_ _ _ Hnd Hd Hf]. cbn in Hf.
    assert (length (ld_source_stack self) ≤ length dirs); [|lia].
    apply submseteq_length, NoDup_submseteq; [done|]. intros d. apply Hd. }
  cbn [visit]. unfold map_err. destruct (env_canonicalize env dir) as [d|] eqn:Ed; [|by eexists].
  apply Hcanon in Ed. case_bool_decide as Hin; [by eexists|].
  destruct (validate_manifest ns m ps root) as [[]|] eqn:Evm; [|by eexists].
  destruct (env_check_cancelled env _) as [u|]; [|by eexists].
  apply validate_manifest_Ok in Evm as [Hdef Hprov]; [|done].
  set (m' := set_build m _). destruct Hv as [Hok Hfree Hns Hnd Hdirs Hfuel].
  assert (Hwf : instance_wf (mkInstance d m' ps)).
  { split; cbn; [by destruct Hm| |done]. apply definition_set_build; [|done].
    by destruct (mm_build m). }
  set (pushed := mkLoader _ _ _).
  destruct (try_fold_spec (visit_call env (visit env fuel) ns d ps)
    (calls_done pushed ns) (λ _, True) (mm_modules m') pushed) as (r&Hr&Hpost).
  - intros pre e post self1 Heq Hdone.
    destruct (visit_call_spec (visit env fuel) fuel ns d ps pushed pre e post self1 (mm_modules m'))
      as (r&->&Hr); [|done|..|done|by exists r; split; [|destruct r]].
    + intros self2 ns2 dir2 m2 ps2 Hv2 Hm2. by apply IH.
    + apply bt_ok_NoDup, (mt_modules m), Hm.
    + intros e' He'. by apply (dw_calls _ Hdef).
    + done.
    + cbn. apply NoDup_app. split_and!; [done|set_solver|apply NoDup_singleton].
    + intros d'. cbn. set_solver.
    + cbn. rewrite length_app. cbn. lia.
  - split; cbn; try done; [by intros x Hx _; apply Hfree|by intros e ?%elem_of_nil].
  - rewrite Hr. destruct r as [self'|e]; [|by exists (Err e)].
    eexists. split; [done|]. unfold visit_post.
    pose proof (visit_finish self self' ns d m' ps Hok Hns Hwf Hpost) as [H1 H2 H3 (i&b&H4&H5) H6].
    split; try done. exists i, b. split; [done|]. rewrite H5. by destruct m.
Qed.
End visit.
