(* ===== verification/LaunchTables.v ===== *)
(** * LaunchTables: the tables of [connect] and the connected instances

    The port types, executable outputs and aliases that the first loop of
    [Loader::connect] collects, as relations on the instances; then, from the
    tables to the bindings: every declared port is resolved, every connected
    input agrees with its routes, and the bindings of a leaf satisfy the
    runtime's contract. *)

From Stdlib Require Import ZArith Lia.
From S2P Require Import Prelude Text Btree Bindings BindingsSpec ReportSpec LaunchTypes LaunchLoad LaunchPlan LaunchResolve LaunchDefinition LaunchTree.

Abbreviation port := (PortAddress * EndpointContract)%type.

Definition side_ports (ns : str) (input : bool) (ports : btree str PortSpec) : list port :=
  (λ '(name, p), (mkPortAddress ns input name, port_contract p)) <$> ports.

(** The ports of an instance, the outputs of a leaf, the inputs a call connects. *)
Definition ports_of (e : str * Instance_) : list port :=
  side_ports e.1 true (mm_inputs (in_manifest e.2)) ++
  side_ports e.1 false (mm_outputs (in_manifest e.2)).
Definition terminals_of (e : str * Instance_) : list port :=
  if is_leaf (in_manifest e.2) then side_ports e.1 false (mm_outputs (in_manifest e.2)) else [].
Definition call_keys (ns : str) (e : str * ModuleCall) : list PortAddress :=
  (λ name, mkPortAddress (child_namespace ns e.1) true name) <$> (mc_inputs e.2).*1.
Definition connected_of (e : str * Instance_) : list PortAddress :=
  mm_modules (in_manifest e.2) ≫= call_keys e.1.

(** The map holds entries of [l], and one for every key of [l]. *)
Definition table_for {V} (m : btree PortAddress V) (l : list (PortAddress * V)) : Prop :=
  bt_ok m ∧ (∀ a v, bt_get a m = Some v → (a, v) ∈ l) ∧ (∀ a, a ∈ l.*1 → bt_get a m ≠ None).

(** Aliases name at least one source, and every address of [keys] is one. *)
Definition edges_for (m : edges_t) (keys : list PortAddress) : Prop :=
  bt_ok m ∧ (∀ a l, bt_get a m = Some l → l ≠ []) ∧ (∀ a, a ∈ keys → bt_get a m ≠ None).

Record tables_for (ports terminals : list port) (keys : list PortAddress) (t : Tables) : Prop := {
  tf_ports : table_for (tb_port_types t) ports;
  tf_terminals : table_for (tb_terminals t) terminals;
  tf_edges : edges_for (tb_edges t) keys;
}.

Lemma bt_insert_not_None {K V} `{OrdLaws K} (k k' : K) (v : V) m :
  bt_ok m → k' = k ∨ bt_get k' m ≠ None → bt_get k' (bt_insert k v m).2 ≠ None.
Proof.
  intros Hok Hk. rewrite bt_get_insert by done. case_bool_decide as E; [done|].
  rewrite cmp_eq in E. by destruct Hk.
Qed.

Lemma table_insert {V} (m : btree PortAddress V) l a v :
  table_for m l → table_for (bt_insert a v m).2 (l ++ [(a, v)]).
Proof.
  intros (Hok&Hs&Hc). split_and!; [by apply bt_insert_ok|..].
  - intros b w. rewrite bt_get_insert, elem_of_app, list_elem_of_singleton by done.
    case_bool_decide as E; [|by intros ?%Hs; left]. apply cmp_eq in E as ->. intros [= ->]. by right.
  - intros b. rewrite fmap_app, elem_of_app. cbn. rewrite list_elem_of_singleton.
    intros Hb. apply bt_insert_not_None; [done|]. destruct Hb; [right; by apply Hc|by left].
Qed.

Lemma edges_insert m keys a l :
  edges_for m keys → l ≠ [] → edges_for (bt_insert a l m).2 (keys ++ [a]).
Proof.
  intros (Hok&Hs&Hc) Hl. split_and!; [by apply bt_insert_ok|..].
  - intros b w. rewrite bt_get_insert by done. case_bool_decide; [by intros [= <-]|by apply Hs].
  - intros b. rewrite elem_of_app, list_elem_of_singleton. intros Hb.
    apply bt_insert_not_None; [done|]. destruct Hb; [right; by apply Hc|by left].
Qed.

Lemma edges_weaken m keys keys' : (∀ a, a ∈ keys' → a ∈ keys) → edges_for m keys → edges_for m keys'.
Proof. intros Hsub (Hok&Hs&Hc). split_and!; [done..|]. intros a Ha. by apply Hc, Hsub. Qed.

Lemma references_nonempty instances ns sources l :
  references instances ns sources = Ok l → l ≠ [].
Proof.
  unfold references, invalid. case_bool_decide as Hne; [done|].
  match goal with |- context [for_fold ?f _ _] => set (body := f) end.
  destruct (for_fold body _ _) as [locals|] eqn:Ef; [|done]. intros [= <-].
  apply (for_fold_Ok body (λ pre s, length s.2 = length pre)) in Ef; [|clear Ef|done].
  - intros Hnil. rewrite Hnil in Ef. by apply Hne, nil_length_inv.
  - intros pre x post [u ad] [u' ad'] _ Hl. unfold body, invalid.
    destruct (reference _ _ _); [|done]. destruct (bs_insert _ _) as [[] ?]; [|done].
    intros [= <- <-]. cbn in *. rewrite !length_app, Hl. done.
Qed.

Lemma collect_inputs_ok ns l ports terminals keys t :
  tables_for ports terminals keys t →
  tables_for (ports ++ side_ports ns true l) terminals keys (foldl (collect_input ns) t l).
Proof.
  revert ports t. induction l as [|[name p] l IH]; intros ports t Ht; cbn.
  - by rewrite app_nil_r.
  - rewrite (cons_middle _ ports), app_assoc. apply IH. destruct Ht as [Hp Ht He].
    split; [|done..]. by apply table_insert.
Qed.

Lemma collect_outputs_ok instances ns m l ports terminals keys t t' :
  tables_for ports terminals keys t →
  for_fold (collect_output instances ns m) t l = Ok t' →
  tables_for (ports ++ side_ports ns false l)
    (terminals ++ if is_leaf m then side_ports ns false l else []) keys t'.
Proof.
  intros Ht. apply (for_fold_Ok _ (λ pre t, tables_for (ports ++ side_ports ns false pre)
    (terminals ++ if is_leaf m then side_ports ns false pre else []) keys t)).
  - intros pre [name p] post s s' _ [Hp Htm He]. unfold collect_output, side_ports.
    rewrite fmap_app. cbn. fold (side_ports ns false pre). rewrite app_assoc.
    destruct (is_leaf m).
    + intros [= <-]. rewrite app_assoc. split; [by apply table_insert|by apply table_insert|done].
    + destruct (ps_from p) as [from|]; [|intros [= <-]; split; [by apply table_insert|done..]].
      destruct (references _ _ _) as [r|] eqn:Er; [|done]. intros [= <-].
      split; [by apply table_insert|done|]. apply (edges_weaken _ (keys ++ [mkPortAddress ns false name])).
      * set_solver.
      * apply edges_insert; [done|by eapply references_nonempty].
  - cbn. rewrite app_nil_r. destruct (is_leaf m); by rewrite app_nil_r.
Qed.

Lemma collect_call_ok instances ns e ports terminals keys t t' :
  tables_for ports terminals keys t →
  collect_call instances ns t e = Ok t' →
  tables_for ports terminals (keys ++ call_keys ns e) t'.
Proof.
  destruct e as [child call]. intros Ht. unfold collect_call, call_keys. cbn [fst snd].
  apply (for_fold_Ok _ (λ pre t, tables_for ports terminals
    (keys ++ ((λ name, mkPortAddress (child_namespace ns child) true name) <$> pre.*1)) t)).
  - intros pre [name p] post s s' _ [Hp Htm He]. destruct (pc_from p) as [from|]; [|done].
    destruct (references _ _ _) as [r|] eqn:Er; [|done]. intros [= <-].
    rewrite !fmap_app, app_assoc. split; [done..|]. cbn.
    apply edges_insert; [done|by eapply references_nonempty].
  - cbn. by rewrite app_nil_r.
Qed.

Lemma collect_instance_ok instances e ports terminals keys t t' :
  tables_for ports terminals keys t →
  collect_instance instances t e = Ok t' →
  tables_for (ports ++ ports_of e) (terminals ++ terminals_of e) (keys ++ connected_of e) t'.
Proof.
  destruct e as [ns i]. intros Ht. unfold collect_instance. cbn [fst snd].
  destruct (for_fold (collect_output _ _ _) _ _) as [t1|] eqn:E1; [|done].
  apply (collect_outputs_ok _ _ _ _ (ports ++ side_ports ns true (mm_inputs (in_manifest i)))
           terminals keys) in E1; [|by apply collect_inputs_ok].
  rewrite <- app_assoc in E1. unfold connected_of. cbn [fst snd].
  apply (for_fold_Ok _ (λ pre t, tables_for (ports ++ ports_of (ns, i)) (terminals ++ terminals_of (ns, i))
           (keys ++ (pre ≫= call_keys ns)) t)).
  - intros pre x post s s' _ Hs Hc. rewrite bind_app. cbn. rewrite app_nil_r, app_assoc.
    by eapply collect_call_ok.
  - cbn. by rewrite app_nil_r.
Qed.

(** The tables describe the instances. *)
Lemma collect_tables_ok instances t :
  collect_tables instances = Ok t →
  tables_for (instances ≫= ports_of) (instances ≫= terminals_of) (instances ≫= connected_of) t.
Proof.
  unfold collect_tables.
  apply (for_fold_Ok _ (λ pre t, tables_for (pre ≫= ports_of) (pre ≫= terminals_of)
                                   (pre ≫= connected_of) t)).
  - intros pre e post s s' _ Hs Hc. rewrite !bind_app. cbn. rewrite !app_nil_r.
    by eapply collect_instance_ok.
  - split; [..|split_and!; [done|done|by intros a ?%elem_of_nil]];
      (split_and!; [done|done|by intros a ?%elem_of_nil]).
Qed.

Lemma side_ports_elem ns input l a c :
  (a, c) ∈ side_ports ns input l ↔
  ∃ name p, (name, p) ∈ l ∧ a = mkPortAddress ns input name ∧ c = port_contract p.
Proof.
  unfold side_ports. rewrite list_elem_of_fmap. split.
  - intros ([name p]&[= -> ->]&Hin). by exists name, p.
  - intros (name&p&Hin&->&->). by exists (name, p).
Qed.

(** Instances as a visit of a root leaves them. *)
Record instances_ok (instances : btree str Instance_) (root : str) : Prop := {
  io_ok : bt_ok instances;
  io_tree x i : bt_get x instances = Some i →
    instance_wf i ∧ namespace_wf x ∧
    (∀ e, e ∈ mm_modules (in_manifest i) → called instances x e) ∧
    (x = root ∨ has_caller instances root x);
  io_root : ∃ i, bt_get root instances = Some i ∧ mm_inputs (in_manifest i) = [];
}.

(** A module that runs: an executable or a component. *)
Definition leaf (instances : btree str Instance_) (x : str) (i : Instance_) : Prop :=
  bt_get x instances = Some i ∧ is_leaf (in_manifest i) = true.

Section connected.
Context (instances : btree str Instance_) (root : str).
Hypothesis Hinst : instances_ok instances root.
Context (t : Tables).
Hypothesis Htables : collect_tables instances = Ok t.

Lemma tables_ok :
  tables_for (instances ≫= ports_of) (instances ≫= terminals_of) (instances ≫= connected_of) t.
Proof. by apply collect_tables_ok. Qed.

(** What a port type or an executable output comes from. *)
Lemma port_type_declared a c :
  bt_get a (tb_port_types t) = Some c →
  ∃ i p, bt_get (pa_namespace a) instances = Some i ∧
    (pa_name a, p) ∈ (if pa_input a then mm_inputs (in_manifest i) else mm_outputs (in_manifest i)) ∧
    c = port_contract p.
Proof.
  intros Hg. destruct tables_ok as [(_&Hs&_) _ _]. apply Hs in Hg.
  apply list_elem_of_bind in Hg as ([ns i]&Hin&He). unfold ports_of in Hin. cbn in Hin.
  apply bt_get_Some in He; [|apply Hinst].
  apply elem_of_app in Hin as [Hin|Hin]; apply side_ports_elem in Hin as (name&p&Hp&->&->);
    by exists i, p.
Qed.

Lemma terminal_output a c :
  bt_get a (tb_terminals t) = Some c →
  ∃ i p, leaf instances (pa_namespace a) i ∧ pa_input a = false ∧
    (pa_name a, p) ∈ mm_outputs (in_manifest i) ∧ c = port_contract p.
Proof.
  intros Hg. destruct tables_ok as [_ (_&Hs&_) _]. apply Hs in Hg.
  apply list_elem_of_bind in Hg as ([ns i]&Hin&He). unfold terminals_of in Hin. cbn in Hin.
  apply bt_get_Some in He; [|apply Hinst].
  destruct (is_leaf (in_manifest i)) eqn:El; [|by apply elem_of_nil in Hin].
  apply side_ports_elem in Hin as (name&p&Hp&->&->). by exists i, p.
Qed.

Lemma input_declared x i name p :
  bt_get x instances = Some i → (name, p) ∈ mm_inputs (in_manifest i) →
  bt_get (mkPortAddress x true name) (tb_port_types t) = Some (port_contract p).
Proof.
  intros Hx Hp. destruct tables_ok as [(_&_&Hc) _ _].
  assert (Hin : (mkPortAddress x true name, port_contract p) ∈ instances ≫= ports_of).
  { apply list_elem_of_bind. exists (x, i). split; [|by apply bt_get_elem].
    apply elem_of_app. left. apply side_ports_elem. by exists name, p. }
  apply (list_elem_of_fmap_2 fst), Hc in Hin. cbn in Hin.
  destruct (bt_get _ (tb_port_types t)) as [c|] eqn:Eg; [|done].
  destruct (port_type_declared _ _ Eg) as (i'&p'&Hi'&Hp'&->). cbn in Hi', Hp'. rewrite Hx in Hi'.
  injection Hi' as <-. destruct (proj1 (io_tree _ _ Hinst _ _ Hx)) as [Ht _ _].
  by rewrite (bt_ok_functional _ _ _ _ (mt_inputs _ Ht) Hp Hp').
Qed.

(** Every input of an instance is connected by its caller. *)
Lemma input_connected x i name p :
  bt_get x instances = Some i → (name, p) ∈ mm_inputs (in_manifest i) →
  bt_get (mkPortAddress x true name) (tb_edges t) ≠ None.
Proof.
  intros Hx Hp. destruct tables_ok as [_ _ (_&_&Hc)]. apply Hc.
  destruct (io_tree _ _ Hinst x i Hx) as (_&_&_&[->|(q&iq&e&_&Hq&He&->)]).
  - destruct (io_root _ _ Hinst) as (ir&Hr&Hnil). rewrite Hx in Hr. injection Hr as <-.
    rewrite Hnil in Hp. by apply elem_of_nil in Hp.
  - destruct (io_tree _ _ Hinst q iq Hq) as (_&_&Hcall&_). destruct (Hcall e He) as (c&Hcc&Hk).
    rewrite Hx in Hcc. injection Hcc as <-.
    apply list_elem_of_bind. exists (q, iq). split; [|by apply bt_get_elem].
    apply list_elem_of_bind. exists e. split; [|done].
    unfold call_keys. apply list_elem_of_fmap. exists name. split; [done|]. rewrite Hk.
    by apply (list_elem_of_fmap_2 fst) in Hp.
Qed.

(** ** Resolution of all ports *)

Abbreviation den := (denotes (tb_edges t) (tb_terminals t)).

Definition all_resolved (resolved : resolved_t) : Prop :=
  memo_ok (tb_edges t) (tb_terminals t) resolved ∧
  ∀ a, a ∈ (tb_port_types t).*1 → bt_get a resolved ≠ None.

Lemma resolve_all_spec :
  ∃ r, resolve_all t = Some r ∧
    match r with
    | Ok resolved => all_resolved resolved
    | Err e => ∃ a, a ∈ (tb_port_types t).*1 ∧ resolve_failure (tb_edges t) (tb_terminals t) a e
    end.
Proof.
  unfold resolve_all, all_resolved. destruct tables_ok as [_ _ (Hok&_)].
  apply (try_fold_spec _ (λ pre resolved, memo_ok (tb_edges t) (tb_terminals t) resolved ∧
                            ∀ a, a ∈ pre → bt_get a resolved ≠ None)).
  - intros pre a post resolved Heq [Hm Hall].
    destruct (resolve_endpoint_spec (tb_edges t) (tb_terminals t) Hok (endpoint_fuel t) a [] resolved)
      as ([[[routes act] res]|e]&->&Hf); [done| |unfold endpoint_fuel; cbn; lia|..].
    { split; [done|by intros x ?%elem_of_nil..]. }
    + destruct Hf as (_&_&Hm'&Hg&Ha). eexists. split; [done|]. split; [done|].
      intros b [Hb|Hb%list_elem_of_singleton]%elem_of_app; [|subst; congruence].
      specialize (Hall b Hb). destruct (bt_get b resolved) eqn:Eb; [|done].
      by rewrite (Hg _ _ Eb).
    + eexists. split; [done|]. exists a. split; [|done]. rewrite Heq. set_solver.
  - split; [by split|by intros a ?%elem_of_nil].
Qed.

Lemma denotes_nonempty a r : den a r → r ≠ [].
Proof.
  cut ((∀ a r, den a r → r ≠ []) ∧
       (∀ l r, denotes_all (tb_edges t) (tb_terminals t) l r → l ≠ [] → r ≠ [])).
  { intros [H _]. apply H. }
  apply denotes_ind2; [done|..].
  - intros b sources routes _ He _ IH. apply IH. destruct tables_ok as [_ _ (_&Hne&_)]. by eapply Hne.
  - done.
  - intros s l r1 r2 _ IH _ _ _. by destruct r1.
Qed.

(** ** Contracts along routes *)

Definition route_agrees (input : EndpointContract) (route : ResolvedRoute) : Prop :=
  ec_type_name input = ec_type_name (rr_contract route) ∧
  ec_kind input = ec_kind (rr_contract route) ∧
  ec_response input = ec_response (rr_contract route) ∧
  ec_semantics input = ec_semantics (rr_contract route).

Lemma check_destination_total resolved a : all_resolved resolved → check_destination t resolved a ≠ None.
Proof.
  intros [_ Hall]. unfold check_destination. destruct (bt_get a (tb_port_types t)) as [c|] eqn:Eg; [|done].
  apply bt_get_elem, (list_elem_of_fmap_2 fst), Hall in Eg. cbn in Eg.
  by destruct (bt_get a resolved).
Qed.

Lemma type_wf_nonempty ty : type_wf ty → ty ≠ [].
Proof.
  intros (parts&Hne&Hall&->). destruct parts as [|p parts]; [done|].
  apply Forall_cons in Hall as [[Hp _] _]. destruct parts; cbn; [done|]. by destruct p.
Qed.

Lemma check_route_contract_Ok a c route :
  pa_input a = true → contract_wf true c →
  check_route_contract a c route = Ok tt → route_agrees c route.
Proof.
  intros Hin Hc. unfold check_route_contract, check_contract, invalid.
  rewrite seq_Ok, !reject_last, Hin. cbn [andb].
  rewrite andb_false_iff, !orb_false_iff, !negb_false_iff, !bool_decide_eq_true.
  intros [[Ht|((?&?)&?)] ?]; [|done]. by apply type_wf_nonempty in Ht; [|apply Hc].
Qed.

Definition destinations_checked (resolved : resolved_t) : Prop :=
  ∀ a, a ∈ (tb_edges t).*1 → check_destination t resolved a = Some (Ok tt).

Lemma check_destinations_spec resolved :
  all_resolved resolved →
  ∃ r, try_fold (λ _ destination, check_destination t resolved destination) tt (tb_edges t).*1 = Some r ∧
    match r with Ok _ => destinations_checked resolved | Err _ => True end.
Proof.
  intros Hall.
  destruct (try_fold_spec (λ (_ : unit) destination, check_destination t resolved destination)
    (λ pre _, ∀ a, a ∈ pre → check_destination t resolved a = Some (Ok tt)) (λ _, True)
    (tb_edges t).*1 tt) as (r&Hr&Hpost).
  - intros pre x post [] _ Hpre. pose proof (check_destination_total resolved x Hall) as Htot.
    destruct (check_destination t resolved x) as [r|] eqn:E; [|done].
    exists r. split; [done|]. destruct r as [[]|]; [|done].
    intros a [Ha|Ha%list_elem_of_singleton]%elem_of_app; [by apply Hpre|by subst].
  - by intros a ?%elem_of_nil.
  - exists r. split; [done|]. by destruct r.
Qed.

(** The routes of a declared input. *)
Lemma input_routes resolved x i name p :
  all_resolved resolved → destinations_checked resolved →
  bt_get x instances = Some i → (name, p) ∈ mm_inputs (in_manifest i) →
  ∃ routes, bt_get (mkPortAddress x true name) resolved = Some routes ∧
    den (mkPortAddress x true name) routes ∧ routes ≠ [] ∧
    ∀ route, route ∈ routes → route_agrees (port_contract p) route.
Proof.
  intros [Hm Hall] Hd Hx Hp. pose proof (input_declared _ _ _ _ Hx Hp) as Hty.
  assert (Hne : bt_get (mkPortAddress x true name) resolved ≠ None).
  { apply Hall. by apply bt_get_elem, (list_elem_of_fmap_2 fst) in Hty. }
  destruct (bt_get _ resolved) as [routes|] eqn:Er; [|done].
  exists routes. split; [done|]. apply Hm in Er as Hden. split; [done|].
  split; [by eapply denotes_nonempty|].
  assert (Hin : mkPortAddress x true name ∈ (tb_edges t).*1).
  { pose proof (input_connected _ _ _ _ Hx Hp) as He. destruct (bt_get _ (tb_edges t)) eqn:Ee; [|done].
    by apply bt_get_elem, (list_elem_of_fmap_2 fst) in Ee. }
  apply Hd in Hin. unfold check_destination in Hin. rewrite Hty, Er in Hin.
  injection Hin as Hin. rewrite for_each_Ok, Forall_forall in Hin. intros route Hroute.
  apply Hin in Hroute. apply check_route_contract_Ok in Hroute; [done|done|].
  destruct (proj1 (io_tree _ _ Hinst _ _ Hx)) as [_ Hdef _]. by eapply (dw_inputs _ Hdef).
Qed.

(** The source of a route is an output of a leaf. *)
Lemma route_source a routes route :
  den a routes → route ∈ routes →
  ∃ i p, leaf instances (pa_namespace (rr_source route)) i ∧
    pa_input (rr_source route) = false ∧
    (pa_name (rr_source route), p) ∈ mm_outputs (in_manifest i) ∧ rr_contract route = port_contract p.
Proof. intros Hd Hr. apply terminal_output. by eapply denotes_terminal. Qed.
End connected.
