(* ===== verification/LaunchBind.v ===== *)
(** * LaunchBind: the bindings of a leaf

    [Instance::bindings] of a connected leaf returns, and the bindings it
    returns satisfy the contract that the runtime validates; every source is an
    output of a leaf whose contract agrees. *)

From Stdlib Require Import ZArith Lia.
From S2P Require Import Prelude Text Btree Bindings BindingsSpec ReportSpec.
From S2P Require Import LaunchTypes LaunchLoad LaunchPlan LaunchResolve.
From S2P Require Import LaunchDefinition LaunchTree LaunchTables.

Definition route_endpoint (route : ResolvedRoute) : EndpointAddress :=
  mkEndpoint (pa_namespace (rr_source route)) (pa_name (rr_source route)).

(** The binding of one input against its routes. *)
Record input_bound (p : PortSpec) (routes : list ResolvedRoute) (b : InputBinding) : Prop := {
  ibd_contract : ib_contract b = port_contract p;
  ibd_sources : ib_sources b = route_endpoint <$> routes;
  ibd_distinct : NoDup (route_endpoint <$> routes);
  ibd_rpc : ps_kind p = Rpc → length routes = 1;
  ibd_replay route : route ∈ routes → ps_replay p = ReplayLast →
    ec_retention (rr_contract route) = RetainLast;
}.

Lemma bind_routes_Ok a c connections routes sources connections' :
  for_fold (bind_route a c) ([], connections) routes = Ok (sources, connections') →
  sources = route_endpoint <$> routes ∧ NoDup (route_endpoint <$> routes) ∧
  (∀ route, route ∈ routes → ec_replay c = ReplayLast → ec_retention (rr_contract route) = RetainLast) ∧
  connections' = connections ++
    ((λ r, mkRConnection (rr_source r) a (rr_via r) (rr_contract r)) <$> routes).
Proof.
  intros Hf.
  apply (for_fold_Ok _ (λ pre s, s.1 = route_endpoint <$> pre ∧ NoDup (route_endpoint <$> pre) ∧
    (∀ route, route ∈ pre → ec_replay c = ReplayLast → ec_retention (rr_contract route) = RetainLast) ∧
    s.2 = connections ++ ((λ r, mkRConnection (rr_source r) a (rr_via r) (rr_contract r)) <$> pre)))
    in Hf; [done|clear Hf|].
  - intros pre r post [s cs] [s' cs'] _ (Hs&Hnd&Hre&Hcs). cbn in Hs, Hcs. subst s cs.
    unfold bind_route, invalid. destruct (_ && _) eqn:E; [done|].
    destruct (bool_decide (_ ∈ _)) eqn:Hin; [done|]. apply bool_decide_eq_false in Hin.
    intros [= <- <-]. cbn [fst snd]. rewrite !fmap_app. split; [done|]. split.
    + apply NoDup_app. split_and!; [done| |apply NoDup_singleton].
      intros x Hx ->%list_elem_of_singleton. done.
    + split; [|by rewrite <- app_assoc].
      intros route [Hr|Hr%list_elem_of_singleton]%elem_of_app; [by apply Hre|]. subst route.
      intros Hl.
      rewrite andb_false_iff, bool_decide_eq_false, negb_false_iff, bool_decide_eq_true in E. by destruct E.
  - cbn. rewrite app_nil_r. split_and!; [done|constructor|by intros ? ?%elem_of_nil|done].
Qed.

(** Each declared input is bound to its routes, and nothing else is. *)
Record inputs_bound (resolved : resolved_t) (ns : str) (ports : list (str * PortSpec))
    (inputs : btree str InputBinding) : Prop := {
  inb_ok : bt_ok inputs;
  inb_keys name : name ∈ inputs.*1 ↔ name ∈ ports.*1;
  inb_bound name b : (name, b) ∈ inputs →
    ∃ p routes, (name, p) ∈ ports ∧ bt_get (mkPortAddress ns true name) resolved = Some routes ∧
      input_bound p routes b;
}.

Lemma inputs_bound_insert resolved ns pre name p routes b inputs :
  inputs_bound resolved ns pre inputs →
  bt_get (mkPortAddress ns true name) resolved = Some routes → input_bound p routes b →
  inputs_bound resolved ns (pre ++ [(name, p)]) (bt_insert name b inputs).2.
Proof.
  intros [Hok Hk Hb] Hr Hib. split; [by apply bt_insert_ok|..].
  - intros x. rewrite fmap_app, elem_of_app, <- Hk. cbn. rewrite list_elem_of_singleton.
    rewrite <- !bt_contains_true by (done || by apply bt_insert_ok). unfold bt_contains.
    rewrite bt_get_insert by done. case_bool_decide as E; [apply cmp_eq in E|rewrite cmp_eq in E]; naive_solver.
  - intros x bx Hx. apply bt_get_Some in Hx; [|by apply bt_insert_ok].
    rewrite bt_get_insert in Hx by done. case_bool_decide as E.
    + apply cmp_eq in E as ->. injection Hx as <-. exists p, routes. split; [|done]. set_solver.
    + apply bt_get_elem, Hb in Hx as (q&rs&Hq&?&?). exists q, rs. split; [|done]. set_solver.
Qed.

Lemma bind_inputs_spec resolved ns ports connections :
  (∀ name p, (name, p) ∈ ports → bt_get (mkPortAddress ns true name) resolved ≠ None) →
  ∃ r, try_fold (bind_input ns resolved) ([], connections) ports = Some r ∧
    match r with
    | Ok (inputs, connections') => inputs_bound resolved ns ports inputs
    | Err _ => True
    end.
Proof.
  intros Hres.
  destruct (try_fold_spec (bind_input ns resolved) (λ pre s, inputs_bound resolved ns pre s.1)
              (λ _, True) ports ([], connections)) as (r&Hr&Hpost).
  - intros pre [name p] post [inputs cs] -> Hin. unfold bind_input, invalid.
    pose proof (Hres name p) as Hn. destruct (bt_get _ resolved) as [routes|] eqn:Er.
    2: { by destruct Hn; [set_solver|]. }
    destruct (_ && _) eqn:E; [by eexists|].
    destruct (for_fold _ _ _) as [[sources cs']|] eqn:Ef; [|by eexists].
    eexists. split; [done|]. cbn [fst] in *.
    apply bind_routes_Ok in Ef as (->&Hnd&Hre&_).
    eapply inputs_bound_insert; [done|done|]. split; try done.
    intros Hk. rewrite andb_false_iff, bool_decide_eq_false, negb_false_iff, Nat.eqb_eq in E.
    by destruct E.
  - split; [done| |by intros ? ? ?%elem_of_nil]. done.
  - exists r. split; [done|]. by destruct r as [[]|].
Qed.

Lemma bt_collect_fmap {V W} (f : V → W) (m : btree str V) :
  bt_ok m → bt_ok (bt_collect (prod_map id f <$> m)) ∧
    (∀ name w, (name, w) ∈ bt_collect (prod_map id f <$> m) ↔ ∃ v, (name, v) ∈ m ∧ w = f v) ∧
    (∀ name, name ∈ (bt_collect (prod_map id f <$> m)).*1 ↔ name ∈ m.*1).
Proof.
  intros Hok. assert (Hc : bt_ok (bt_collect (prod_map id f <$> m))) by by apply bt_extend_ok.
  assert (Hk : (prod_map id f <$> m).*1 = m.*1).
  { rewrite <- list_fmap_compose. apply list_fmap_ext. by intros ? []. }
  assert (Hel : ∀ name w, (name, w) ∈ bt_collect (prod_map id f <$> m) ↔ ∃ v, (name, v) ∈ m ∧ w = f v).
  { intros name w. split.
    - intros Hin. assert (Hn : name ∈ m.*1).
      { apply (list_elem_of_fmap_2 fst), bt_extend_keys in Hin; [|done]. rewrite Hk in Hin.
        destruct Hin as [?%elem_of_nil|?]; done. }
      apply list_elem_of_fmap in Hn as ([n v]&->&Hv). cbn in *. exists v. split; [done|].
      eapply (bt_ok_functional n); [exact Hc|exact Hin|]. apply bt_get_elem, bt_get_extend; [done| |].
      + rewrite Hk. by apply bt_ok_NoDup.
      + apply list_elem_of_fmap. by exists (n, v).
    - intros (v&Hv&->). apply bt_get_elem, bt_get_extend; [done| |].
      + rewrite Hk. by apply bt_ok_NoDup.
      + apply list_elem_of_fmap. by exists (name, v). }
  split_and!; [done|done|]. intros name. split.
  - intros ([n w]&->&(v&Hv&_)%Hel)%list_elem_of_fmap. by apply (list_elem_of_fmap_2 fst) in Hv.
  - intros ([n v]&->&Hv)%list_elem_of_fmap. apply list_elem_of_fmap. exists (n, f v).
    split; [done|]. apply Hel. by exists v.
Qed.

Section bindings.
Context (instances : btree str Instance_) (root : str).
Hypothesis Hinst : instances_ok instances root.
Context (t : Tables).
Hypothesis Htables : collect_tables instances = Ok t.
Context (resolved : resolved_t).
Hypothesis Hall : all_resolved t resolved.
Hypothesis Hdest : destinations_checked t resolved.

(** What the bindings of an instance contain. *)
Record bound (x : str) (i : Instance_) (b : ModuleBindings) : Prop := {
  bo_version : mb_version b = MODULE_BINDINGS_VERSION;
  bo_namespace : mb_namespace b = x;
  bo_endpoint : mb_endpoint_namespace b = x;
  bo_inputs : inputs_bound resolved x (mm_inputs (in_manifest i)) (mb_inputs b);
  bo_outputs_ok : bt_ok (mb_outputs b);
  bo_outputs name o : (name, o) ∈ mb_outputs b ↔
    ∃ p, (name, p) ∈ mm_outputs (in_manifest i) ∧ o = mkOutput (port_contract p);
  bo_children : mb_children b = mm_owned_children (in_manifest i);
  bo_executables : mb_executables b =
    match mm_run (in_manifest i) with Some run => rs_bin run :: rs_companions run | None => [] end;
}.

Lemma bindings_spec x i connections :
  bt_get x instances = Some i →
  ∃ r, bindings i x resolved connections = Some r ∧
    match r with Ok (b, _) => bound x i b | Err _ => True end.
Proof.
  intros Hx. unfold bindings.
  destruct (bind_inputs_spec resolved x (mm_inputs (in_manifest i)) connections) as (r&->&Hr).
  { intros name p Hp. destruct (input_routes instances root Hinst t Htables resolved x i name p)
      as (routes&->&_); done. }
  destruct r as [[inputs cs]|]; [|by eexists]. eexists. split; [done|].
  destruct (proj1 (io_tree _ _ Hinst _ _ Hx)) as [Ht _ _].
  assert (Hf : (λ '(name, port), (name, mkOutput (port_contract port))) <$> mm_outputs (in_manifest i)
    = prod_map id (λ p, mkOutput (port_contract p)) <$> mm_outputs (in_manifest i)).
  { apply list_fmap_ext. by intros ? []. }
  rewrite Hf. destruct (bt_collect_fmap (λ p, mkOutput (port_contract p)) _ (mt_outputs _ Ht))
    as (Hok&Hel&_).
  by split.
Qed.

(** The sources of a bound input are outputs of leaves that agree with it. *)
Lemma bound_source x i b name ib a :
  bt_get x instances = Some i → bound x i b → (name, ib) ∈ mb_inputs b → a ∈ ib_sources ib →
  ∃ j q, leaf instances (ea_namespace a) j ∧ (ea_port a, q) ∈ mm_outputs (in_manifest j) ∧
    ec_type_name (ib_contract ib) = ps_type_name q ∧ ec_kind (ib_contract ib) = ps_kind q ∧
    ec_response (ib_contract ib) = ps_response q ∧ ec_semantics (ib_contract ib) = ps_semantics q ∧
    (ec_replay (ib_contract ib) = ReplayLast → ps_retention q = RetainLast).
Proof.
  intros Hx Hb Hin Ha. destruct (inb_bound _ _ _ _ (bo_inputs _ _ _ Hb) _ _ Hin) as (p&routes&Hp&Hr&Hib).
  destruct Hib as [Hc Hs _ _ Hre]. rewrite Hs in Ha. apply list_elem_of_fmap in Ha as (route&->&Hroute).
  destruct (input_routes instances root Hinst t Htables resolved x i name p Hall Hdest Hx Hp)
    as (routes'&Hr'&Hden&_&Hag). rewrite Hr in Hr'. injection Hr' as <-.
  destruct (route_source instances root Hinst t Htables _ _ _ Hden Hroute) as (j&q&Hj&_&Hq&Hcq).
  destruct (Hag _ Hroute) as (H1&H2&H3&H4). rewrite Hcq in *.
  exists j, q. rewrite Hc. cbn in *. split_and!; try done.
  intros Hrp. specialize (Hre _ Hroute Hrp). rewrite Hcq in Hre. exact Hre.
Qed.

Lemma leaf_no_modules i : instance_wf i → is_leaf (in_manifest i) = true → mm_modules (in_manifest i) = [].
Proof. intros [Ht Hd _] Hl. apply shape_leaf; [apply Hd|done]. Qed.

Lemma leaf_output x i name p :
  leaf instances x i → (name, p) ∈ mm_outputs (in_manifest i) →
  namespace_wf x ∧ segment_wf name ∧ contract_wf false (port_contract p).
Proof.
  intros [Hx Hl] Hp. destruct (io_tree _ _ Hinst _ _ Hx) as (Hw&Hns&_).
  pose proof (leaf_no_modules i Hw Hl) as Hm. destruct Hw as [_ Hd _].
  split_and!; [done|by eapply name_segment, (dw_outputs _ Hd)|by eapply (dw_leaf_outputs _ Hd)].
Qed.

Lemma bound_input_wf x i b name ib :
  bt_get x instances = Some i → bound x i b → (name, ib) ∈ mb_inputs b → input_wf name ib.
Proof.
  intros Hx Hb Hin. pose proof (λ a, bound_source x i b name ib a Hx Hb Hin) as Hsrc.
  destruct (inb_bound _ _ _ _ (bo_inputs _ _ _ Hb) _ _ Hin) as (p&routes&Hp&Hr&Hib).
  destruct Hib as [Hc Hs Hnd Hrpc _].
  destruct (input_routes instances root Hinst t Htables resolved x i name p Hall Hdest Hx Hp)
    as (routes'&Hr'&_&Hne&_). rewrite Hr in Hr'. injection Hr' as <-.
  destruct (proj1 (io_tree _ _ Hinst _ _ Hx)) as [_ Hd _].
  destruct (dw_inputs _ Hd _ _ Hp) as (Hname&Hcw&_). split.
  - by apply name_segment.
  - by rewrite Hc.
  - rewrite Hs. by destruct routes.
  - intros Hk. rewrite Hs, length_fmap. apply Hrpc. by rewrite Hc in Hk.
  - apply Forall_forall. intros a Ha. destruct (Hsrc a Ha) as (j&q&Hj&Hq&_).
    destruct (leaf_output _ _ _ _ Hj Hq) as (?&?&_). done.
  - by rewrite Hs.
Qed.

(** Two inputs from one source agree, because both agree with it. *)
Lemma bound_inputs_agree x i b e f :
  bt_get x instances = Some i → bound x i b → e ∈ mb_inputs b → f ∈ mb_inputs b → sources_agree e f.
Proof.
  intros Hx Hb He Hf a Hae Haf. destruct e as [n1 ib1], f as [n2 ib2]. cbn in *.
  destruct (bound_source _ _ _ _ _ _ Hx Hb He Hae) as (j1&q1&[Hj1 _]&Hq1&T1&K1&R1&S1&_).
  destruct (bound_source _ _ _ _ _ _ Hx Hb Hf Haf) as (j2&q2&[Hj2 _]&Hq2&T2&K2&R2&S2&_).
  rewrite Hj1 in Hj2. injection Hj2 as <-.
  destruct (proj1 (io_tree _ _ Hinst _ _ Hj1)) as [Ht _ _].
  rewrite (bt_ok_functional _ _ _ _ (mt_outputs _ Ht) Hq2 Hq1) in *.
  unfold contract_of. by rewrite T1, T2, K1, K2, R1, R2, S1, S2.
Qed.

Lemma delegated_nodup (l : list (str * PortDelegation)) :
  NoDup (l ≫= λ e, pd_inputs e.2) → NoDup (l ≫= λ e, pd_outputs e.2) →
  NoDup (l ≫= λ e, delegations e.2).
Proof.
  intros Hi Ho. induction l as [|[n d] l IH]; cbn in *; [constructor|].
  apply NoDup_app in Hi as (Hi1&Hi2&Hi3), Ho as (Ho1&Ho2&Ho3). apply NoDup_app. split_and!; [| |by apply IH].
  - unfold delegations. apply NoDup_app. split_and!.
    + by apply NoDup_fmap_2; [intros ? ? [=]|].
    + intros x (y&->&_)%list_elem_of_fmap. by intros (z&[=]&_)%list_elem_of_fmap.
    + by apply NoDup_fmap_2; [intros ? ? [=]|].
  - intros [p input] Hin (e&Hx&He)%list_elem_of_bind. unfold delegations in Hin, Hx.
    apply elem_of_app in Hin as [(y&[= -> ->]&Hy)%list_elem_of_fmap|(y&[= -> ->]&Hy)%list_elem_of_fmap];
    apply elem_of_app in Hx as [(z&[= E]&Hz)%list_elem_of_fmap|(z&[= E]&Hz)%list_elem_of_fmap]; subst; try done.
    + apply (Hi2 z Hy). apply list_elem_of_bind. by exists e.
    + apply (Ho2 z Hy). apply list_elem_of_bind. by exists e.
Qed.

(** The bindings of a leaf satisfy the contract of the runtime. *)
Lemma bound_wf x i b : leaf instances x i → bound x i b → bindings_wf b.
Proof.
  intros [Hx Hl] Hb. pose proof Hb as [Hv Hns Hens Hin Hook Hout Hch Hexe].
  destruct (io_tree _ _ Hinst _ _ Hx) as (Hw&Hnw&_). pose proof Hw as [Ht Hd _]. split.
  - done.
  - by rewrite Hns.
  - by rewrite Hens.
  - left. congruence.
  - rewrite Hexe. destruct (mm_run (in_manifest i)) as [run|] eqn:Er; [|by split; constructor].
    destruct (dw_run _ Hd _ Er) as [Hn Hnd]. split; [|done].
    eapply Forall_impl; [exact Hn|]. apply name_segment.
  - intros name ib. by eapply bound_input_wf.
  - intros e f. by eapply bound_inputs_agree.
  - intros name o (p&Hp&->)%Hout. cbn. by apply (leaf_output x i).
  - intros name child Hc. rewrite Hch in Hc. destruct (dw_children _ Hd _ _ Hc) as (Hn&Hi&Ho).
    split_and!; [by apply name_segment| |].
    + intros p Hp%Hi. by apply (inb_keys _ _ _ _ Hin).
    + intros p Hp%Ho. apply list_elem_of_fmap in Hp as ([n q]&->&Hq). cbn.
      assert (Ho' : (n, mkOutput (port_contract q)) ∈ mb_outputs b) by (apply Hout; by exists q).
      by apply (list_elem_of_fmap_2 fst) in Ho'.
  - unfold delegated_endpoints. rewrite Hch. by apply delegated_nodup; apply Hd.
Qed.
End bindings.
