(* ===== verification/LaunchAdmit.v ===== *)
(** * LaunchAdmit: resolved plans

    The resolution of a root manifest returns, and the modules of a plan it
    accepts carry bindings that the runtime's validators accept, alone and as a
    graph. *)

From Stdlib Require Import ZArith Lia.
From S2P Require Import Prelude Text Btree Core Bindings BindingsSpec Report ReportSpec.
From S2P Require Import LaunchTypes LaunchLoad LaunchPlan LaunchResolve.
From S2P Require Import LaunchDefinition LaunchTree LaunchTables LaunchBind.

Definition has_run (e : str * Instance_) : Prop := is_some (mm_run (in_manifest e.2)) = true.
Definition has_component (e : str * Instance_) : Prop := is_some (mm_component (in_manifest e.2)) = true.
#[local] Instance has_run_dec e : Decision (has_run e) := decide (_ = true).
#[local] Instance has_component_dec e : Decision (has_component e) := decide (_ = true).

Lemma Forall2_fmap_eq {A B C} (P : A → B → Prop) (f : A → C) (g : B → C) l k :
  Forall2 P l k → (∀ x y, P x y → f x = g y) → f <$> l = g <$> k.
Proof. induction 1; intros Hfg; cbn; [done|]. f_equal; auto. Qed.

(** The modules of the leaves seen so far, in order. *)
Record collected (resolved : resolved_t) (placement : btree str str) (pre : list (str * Instance_))
    (c : Connected) : Prop := {
  cc_nodes : Forall2 (λ (e : str * Instance_) n, em_namespace n = e.1 ∧ bound resolved e.1 e.2 (em_bindings n))
    (filter has_run pre) (cn_nodes c);
  cc_components : Forall2 (λ (e : str * Instance_) m, cmp_namespace m = e.1 ∧ bt_get e.1 placement = Some (cmp_host m) ∧
      bound resolved e.1 e.2 (cmp_bindings m))
    (filter has_component pre) (cn_components c);
}.

Section connect.
Context {R : Type} (env : Env R) (instances : btree str Instance_) (root : str).
Hypothesis Hinst : instances_ok instances root.
Context (placement : btree str str).
Hypothesis Hplace : ∀ x i, bt_get x instances = Some i → is_some (mm_component (in_manifest i)) = true →
  bt_get x placement ≠ None.

Section instance.
Context (t : Tables).
Hypothesis Htables : collect_tables instances = Ok t.
Context (resolved : resolved_t).
Hypothesis Hall : all_resolved t resolved.
Hypothesis Hdest : destinations_checked t resolved.

Lemma executable_spec x i connections :
  bt_get x instances = Some i →
  ∃ r, executable env i x resolved connections = Some r ∧
    match r with
    | Ok (Some n, _) => is_some (mm_run (in_manifest i)) = true ∧ em_namespace n = x ∧
                        bound resolved x i (em_bindings n)
    | Ok (None, _) => is_some (mm_run (in_manifest i)) = false
    | Err _ => True
    end.
Proof.
  intros Hx. unfold executable. destruct (mm_run (in_manifest i)) as [run|]; [|by eexists].
  destruct (resolve_config _ _ _ _); [|by eexists].
  destruct (bt_get _ (in_providers i)); [|by eexists].
  destruct (bindings_spec instances root Hinst t Htables resolved Hall Hdest x i connections Hx)
    as ([[b cs]|]&->&Hb); by eexists.
Qed.

Lemma connect_instance_spec pre e post c :
  instances = pre ++ e :: post → collected resolved placement pre c →
  ∃ r, connect_instance env placement resolved c e = Some r ∧
    match r with Ok c' => collected resolved placement (pre ++ [e]) c' | Err _ => True end.
Proof.
  intros Heq [Hn Hc]. destruct e as [x i]. unfold connect_instance.
  assert (Hx : bt_get x instances = Some i).
  { apply bt_get_Some; [apply Hinst|]. rewrite Heq. set_solver. }
  destruct (resources _ _); [|by eexists].
  destruct (executable_spec x i (cn_connections c) Hx) as ([[node cs]|]&->&Hnode); [|by eexists].
  assert (Hnodes : Forall2 (λ (e : str * Instance_) n, em_namespace n = e.1 ∧ bound resolved e.1 e.2 (em_bindings n))
    (filter has_run (pre ++ [(x, i)])) (cn_nodes c ++ match node with Some node => [node] | None => [] end)).
  { rewrite filter_app. apply Forall2_app; [done|]. unfold filter. cbn.
    destruct node as [n|]; [|by rewrite decide_False by (unfold has_run; cbn; congruence)].
    rewrite decide_True by apply Hnode. constructor; [apply Hnode|constructor]. }
  destruct (mm_component (in_manifest i)) as [spec|] eqn:Ec.
  - destruct (resolve_config _ _ _ _) as [config|]; [|by eexists].
    pose proof (Hplace x i Hx) as Hp. rewrite Ec in Hp.
    destruct (bt_get x placement) as [host|] eqn:Eh; [|by destruct Hp].
    destruct (bindings_spec instances root Hinst t Htables resolved Hall Hdest x i cs Hx)
      as ([[b cs']|]&->&Hb); [|by eexists].
    eexists. split; [done|]. split; [done|]. cbn. rewrite filter_app. apply Forall2_app; [done|].
    unfold filter. cbn. rewrite decide_True by (unfold has_component; cbn; by rewrite Ec).
    by constructor; [|constructor].
  - eexists. split; [done|]. split; [done|]. cbn. rewrite filter_app, <- (app_nil_r (cn_components c)).
    apply Forall2_app; [done|]. unfold filter. cbn.
    by rewrite decide_False by (unfold has_component; cbn; by rewrite Ec).
Qed.
End instance.

(** A connection that succeeded. *)
Definition connected_ok (c : Connected) : Prop :=
  ∃ t resolved, collect_tables instances = Ok t ∧ all_resolved t resolved ∧
    destinations_checked t resolved ∧ collected resolved placement instances c ∧
    (cn_nodes c ≠ [] ∨ cn_components c ≠ []).

Lemma connect_spec :
  ∃ r, connect env instances placement = Some r ∧
    match r with Ok c => connected_ok c | Err _ => True end.
Proof.
  unfold connect. destruct (collect_tables instances) as [t|] eqn:Et; [|by eexists].
  destruct (resolve_all_spec instances root Hinst t Et) as ([resolved|]&->&Hall); [|by eexists].
  destruct (check_destinations_spec t resolved Hall) as ([u|]&->&Hdest); [|by eexists].
  destruct (try_fold_spec (connect_instance env placement resolved) (collected resolved placement)
    (λ _, True) instances (mkConnected [] [] [] [])) as (r&->&Hr).
  - intros pre e post c Heq Hc.
    destruct (connect_instance_spec t Et resolved Hall Hdest pre e post c Heq Hc) as (r&->&Hr).
    exists r. split; [done|]. by destruct r.
  - by split; constructor.
  - destruct r as [c|]; [|by eexists]. destruct (_ && _) eqn:E; [by eexists|].
    eexists. split; [done|]. exists t, resolved. split_and!; try done.
    rewrite andb_false_iff, !bool_decide_eq_false in E. done.
Qed.
End connect.

(** ** Modules as a graph *)

Definition plan_bindings (nodes : list ExecutableModule) (components : list ComponentModule) :
  list ModuleBindings := (em_bindings <$> nodes) ++ (cmp_bindings <$> components).

(** The report of a module that registers exactly its declared ports; [fp] are
    the fingerprints of the compiled types. *)
Definition honest_port (fp : str → Z) (endpoint : PortEndpoint) (c : EndpointContract) : PortReport :=
  mkPortReport endpoint (ec_type_name c) (fp (ec_type_name c)) c
    (match ec_kind c with
     | Rpc => (λ r, mkResponseReport r (fp r)) <$> ec_response c
     | Stream => None
     end).

Definition honest_report (fp : str → Z) (b : ModuleBindings) : ModuleReport :=
  mkModuleReport MODULE_REPORT_VERSION SCHEMA_FINGERPRINT_VERSION (mb_namespace b)
    (mb_endpoint_namespace b)
    (prod_map id (λ i, honest_port fp (EndpointInput (ib_sources i)) (ib_contract i)) <$> mb_inputs b)
    ((λ '(name, o), (name, honest_port fp (EndpointOutput (mkEndpoint (mb_endpoint_namespace b) name))
                             (ob_contract o))) <$> mb_outputs b).

Definition honest_entries (fp : str → Z) (l : list ModuleBindings) : list ReportEntry :=
  (λ b, mkEntry b (honest_report fp b)) <$> l.

Lemma honest_response fp input c endpoint :
  contract_wf input c → response_wf c (pr_response (honest_port fp endpoint c)).
Proof.
  intros Hc. unfold response_wf, honest_port. cbn. destruct (ec_kind c) eqn:Ek.
  - split; [by apply Hc|done].
  - destruct (cw_rpc _ _ Hc Ek) as ((r&->&_)&_). by eexists.
Qed.

Lemma bt_ok_keyed {K V W} `{Ord K} (g : K → V → W) (m : btree K V) :
  bt_ok m → bt_ok ((λ '(k, v), (k, g k v)) <$> m).
Proof.
  induction m as [|[k v] m IH]; cbn; [done|]. intros [Hall Hok]. split; [|by apply IH].
  rewrite Forall_forall in Hall. apply Forall_forall. intros x ([k' v']&->&Hin)%list_elem_of_fmap.
  cbn. by apply (Hall (k', v')).
Qed.

Lemma honest_typed fp b :
  bt_ok (mb_inputs b) → bt_ok (mb_outputs b) → entry_typed (mkEntry b (honest_report fp b)).
Proof.
  intros Hi Ho. split; cbn; [done|done|by apply bt_ok_fmap|].
  apply (bt_ok_keyed (λ name o, honest_port fp (EndpointOutput (mkEndpoint (mb_endpoint_namespace b) name))
                             (ob_contract o))). done.
Qed.

Lemma honest_input fp b name p :
  (name, p) ∈ mr_inputs (honest_report fp b) ↔
  ∃ i, (name, i) ∈ mb_inputs b ∧ p = honest_port fp (EndpointInput (ib_sources i)) (ib_contract i).
Proof.
  cbn. rewrite list_elem_of_fmap. split; [intros ([n i]&[= -> ->]&Hin); by exists i|].
  intros (i&Hin&->). by exists (name, i).
Qed.

Lemma honest_output fp b name p :
  (name, p) ∈ mr_outputs (honest_report fp b) ↔
  ∃ o, (name, o) ∈ mb_outputs b ∧
       p = honest_port fp (EndpointOutput (mkEndpoint (mb_endpoint_namespace b) name)) (ob_contract o).
Proof.
  cbn. rewrite list_elem_of_fmap. split; [intros ([n o]&[= -> ->]&Hin); by exists o|].
  intros (o&Hin&->). by exists (name, o).
Qed.

Lemma honest_wf fp b :
  bt_ok (mb_inputs b) → bt_ok (mb_outputs b) → bindings_wf b → report_wf b (honest_report fp b).
Proof.
  intros Hi Ho Hb. split; try done.
  - intros name. cbn. rewrite <- list_fmap_compose. done.
  - intros name. cbn. rewrite <- list_fmap_compose.
    rewrite (list_fmap_ext (fst ∘ _) fst); [done|]. by intros ? [].
  - intros name i p Hin (i'&Hin'&->)%honest_input.
    rewrite (bt_ok_functional _ _ _ _ Hi Hin' Hin). split_and!; try done.
    eapply honest_response, (iw_contract name). by apply Hb.
  - intros name o p Hin (o'&Hin'&->)%honest_output.
    rewrite (bt_ok_functional _ _ _ _ Ho Hin' Hin). split_and!; try done.
    eapply honest_response. by eapply (bw_outputs _ Hb).
Qed.

Section graph.
Context (instances : btree str Instance_) (root : str).
Hypothesis Hinst : instances_ok instances root.
Context (placement : btree str str) (c : Connected).
Hypothesis Hconn : connected_ok instances placement c.

Abbreviation modules := (plan_bindings (cn_nodes c) (cn_components c)).

Lemma plan_module t resolved b :
  collected resolved placement instances c → collect_tables instances = Ok t →
  b ∈ modules → ∃ x i, leaf instances x i ∧ bound resolved x i b.
Proof.
  intros [Hn Hc] _. unfold plan_bindings. rewrite elem_of_app, !list_elem_of_fmap.
  assert (Hleaf : ∀ x i, (x, i) ∈ instances → has_run (x, i) ∨ has_component (x, i) → leaf instances x i).
  { intros x i Hin Hor. split; [by apply bt_get_Some; [apply Hinst|]|]. unfold is_leaf.
    apply orb_true_iff. exact Hor. }
  intros [(n&->&Hin)|(m&->&Hin)].
  - destruct (Forall2_member_r _ _ _ _ Hn Hin) as ([x i]&[Hr He]%list_elem_of_filter&_&Hb).
    exists x, i. split; [|done]. apply Hleaf; [done|by left].
  - destruct (Forall2_member_r _ _ _ _ Hc Hin) as ([x i]&[Hr He]%list_elem_of_filter&_&_&Hb).
    exists x, i. split; [|done]. apply Hleaf; [done|by right].
Qed.

Lemma leaf_module t resolved x i :
  collected resolved placement instances c → collect_tables instances = Ok t →
  leaf instances x i → ∃ b, b ∈ modules ∧ bound resolved x i b.
Proof.
  intros [Hn Hc] _ [Hx Hl]. apply bt_get_elem in Hx. unfold plan_bindings.
  unfold is_leaf in Hl. apply orb_true_iff in Hl as [Hr|Hr].
  - destruct (Forall2_member_l _ _ _ (x, i) Hn) as (n&Hin&_&Hb); [by apply list_elem_of_filter|].
    exists (em_bindings n). split; [|done]. apply elem_of_app. left. by apply list_elem_of_fmap_2.
  - destruct (Forall2_member_l _ _ _ (x, i) Hc) as (n&Hin&_&_&Hb); [by apply list_elem_of_filter|].
    exists (cmp_bindings n). split; [|done]. apply elem_of_app. right. by apply list_elem_of_fmap_2.
Qed.

Lemma modules_distinct resolved :
  collected resolved placement instances c → NoDup (mb_namespace <$> modules).
Proof.
  intros [Hn Hc]. unfold plan_bindings. rewrite fmap_app, <- !list_fmap_compose.
  assert (Hl1 : mb_namespace ∘ em_bindings <$> cn_nodes c = (filter has_run instances).*1).
  { symmetry. eapply Forall2_fmap_eq; [exact Hn|]. intros e n [_ Hb]. symmetry. apply Hb. }
  assert (Hl2 : mb_namespace ∘ cmp_bindings <$> cn_components c = (filter has_component instances).*1).
  { symmetry. eapply Forall2_fmap_eq; [exact Hc|]. intros e n (_&_&Hb). symmetry. apply Hb. }
  rewrite Hl1, Hl2. pose proof (bt_ok_NoDup _ (io_ok _ _ Hinst)) as Hnd.
  assert (Hsub : ∀ P `{∀ e, Decision (P e)}, NoDup (filter P instances).*1).
  { intros P ?. eapply sublist_NoDup; [exact Hnd|]. apply fmap_sublist, sublist_filter. }
  apply NoDup_app. split_and!; [apply Hsub| |apply Hsub].
  intros x ([x1 i1]&->&[Hr He1]%list_elem_of_filter)%list_elem_of_fmap
    ([x2 i2]&Heq&[Hcm He2]%list_elem_of_filter)%list_elem_of_fmap. cbn in Heq. subst x2.
  rewrite (bt_ok_functional _ _ _ _ (io_ok _ _ Hinst) He2 He1) in Hcm.
  apply bt_get_Some in He1; [|apply Hinst].
  destruct (io_tree _ _ Hinst _ _ He1) as ([_ Hd _]&_). unfold has_run, has_component in *. cbn in *.
  destruct (dw_shape _ Hd) as [? H1 H2 _|? H1 H2 _|H1 H2 _]; rewrite H1, H2 in *; done.
Qed.

(** Every source of a module is an output of a module, with a compatible port. *)
Lemma module_edge fp t resolved b name ib a :
  collected resolved placement instances c → collect_tables instances = Ok t →
  all_resolved t resolved → destinations_checked t resolved →
  b ∈ modules → (name, ib) ∈ mb_inputs b → a ∈ ib_sources ib →
  edge_wf (honest_entries fp modules) (honest_port fp (EndpointInput (ib_sources ib)) (ib_contract ib)) a.
Proof.
  intros Hcol Ht Hall Hdest Hb Hin Ha. destruct (plan_module t resolved b Hcol Ht Hb) as (x&i&[Hx _]&Hbd).
  destruct (bound_source instances root Hinst t Ht resolved Hall Hdest x i b name ib a Hx Hbd Hin Ha)
    as (j&q&Hj&Hq&Hty&Hk&Hr&Hsem&Hrep).
  destruct (leaf_module t resolved _ _ Hcol Ht Hj) as (b'&Hb'&Hbd').
  assert (Hout : (ea_port a, mkOutput (port_contract q)) ∈ mb_outputs b').
  { apply (bo_outputs _ _ _ _ Hbd'). by exists q. }
  exists (mkEntry b' (honest_report fp b')),
    (honest_port fp (EndpointOutput (mkEndpoint (mb_endpoint_namespace b') (ea_port a))) (port_contract q)).
  split_and!.
  - by apply (list_elem_of_fmap_2 (λ b, mkEntry b (honest_report fp b))).
  - apply Hbd'.
  - apply honest_output. by eexists.
  - split; cbn; [done|congruence|done|done| |done]. by rewrite Hk, Hr.
Qed.

(** The modules form a closed graph. *)
Lemma modules_graph fp : graph_wf (honest_entries fp modules) ∧
  (∀ e, e ∈ honest_entries fp modules → entry_typed e) ∧ Forall bindings_wf modules.
Proof.
  destruct Hconn as (t&resolved&Ht&Hall&Hdest&Hcol&Hne).
  assert (Hok : ∀ b, b ∈ modules → bindings_wf b ∧ bt_ok (mb_inputs b) ∧ bt_ok (mb_outputs b)).
  { intros b Hb. destruct (plan_module t resolved b Hcol Ht Hb) as (x&i&Hl&Hbd). split_and!.
    - by eapply (bound_wf instances root Hinst t Ht resolved Hall Hdest).
    - eapply inb_ok, Hbd.
    - apply Hbd. }
  split_and!.
  - split.
    + unfold honest_entries, plan_bindings. destruct (cn_nodes c); [|done]. by destruct (cn_components c); [destruct Hne|].
    + intros e (b&->&(?&?&?)%Hok)%list_elem_of_fmap. by apply honest_wf.
    + intros e (b&->&Hb)%list_elem_of_fmap. cbn.
      destruct (plan_module t resolved b Hcol Ht Hb) as (x&i&_&[_ -> -> _ _ _ _ _]). done.
    + unfold honest_entries. rewrite <- list_fmap_compose. cbn. by eapply modules_distinct.
    + intros e name binding input a (b&->&Hb)%list_elem_of_fmap Hin Hp Ha. cbn [re_bindings re_report] in *.
      apply honest_input in Hp as (i&Hi&->).
      rewrite (bt_ok_functional _ _ _ _ (proj1 (proj2 (Hok b Hb))) Hi Hin).
      by eapply module_edge.
  - intros e (b&->&(?&?&?)%Hok)%list_elem_of_fmap. by apply honest_typed.
  - apply Forall_forall. intros b Hb. by apply Hok.
Qed.
End graph.

(** ** The whole resolution *)

(** Each component is placed on a declared host. *)
Record placement_ok (instances : btree str Instance_) (hosts : btree str ComponentHost)
    (placement : btree str str) : Prop := {
  pk_ok : bt_ok placement;
  pk_keys x : x ∈ placement.*1 ↔ x ∈ component_namespaces instances;
  pk_hosts x h : (x, h) ∈ placement → bt_get h hosts ≠ None;
  pk_used h : h ∈ hosts.*1 → ∃ x, (x, h) ∈ placement;
}.

Lemma component_namespaces_elem instances x :
  bt_ok instances → x ∈ component_namespaces instances ↔
  ∃ i, bt_get x instances = Some i ∧ is_some (mm_component (in_manifest i)) = true.
Proof.
  intros Hok. unfold component_namespaces. rewrite list_elem_of_fmap. split.
  - intros ([y i]&->&[Hc Hin]%list_elem_of_filter). exists i. split; [|done]. by apply bt_get_Some.
  - intros (i&Hg&Hc). exists (x, i). split; [done|]. apply list_elem_of_filter. split; [done|].
    by apply bt_get_elem.
Qed.

Lemma component_hosts_spec instances root :
  instances_ok instances root →
  ∃ r, component_hosts instances root = Some r ∧ match r with Ok hosts => bt_ok hosts | Err _ => True end.
Proof.
  intros [_ _ (i&Hi&_)]. unfold component_hosts. rewrite Hi. eexists. split; [done|].
  destruct (for_fold _ _ _) as [hosts|] eqn:Ef; [|done].
  apply (for_fold_Ok _ (λ _ hosts, bt_ok hosts)) in Ef; [done| |done]. clear Ef.
  intros pre [name spec] post s s' _ Hs. unfold component_host, invalid.
  repeat case_match; intros; simplify_eq; by apply bt_insert_ok.
Qed.

Lemma place_all hosts placement used :
  for_fold (place hosts) [] placement = Ok used →
  (∀ x h, (x, h) ∈ placement → bt_get h hosts ≠ None) ∧ bt_ok used ∧
  ∀ h, h ∈ used.*1 ↔ h ∈ placement.*2.
Proof.
  apply (for_fold_Ok _ (λ pre used, (∀ x h, (x, h) ∈ pre → bt_get h hosts ≠ None) ∧ bt_ok used ∧
                                    ∀ h, h ∈ used.*1 ↔ h ∈ pre.*2)).
  - intros pre [x h] post s s' _ (Hh&Hok&Hu). unfold place, map_err, invalid.
    destruct (validate_namespace x); [|done]. unfold bt_contains.
    destruct (bt_get h hosts) as [v|] eqn:Eh; [|done]. intros [= <-]. split_and!.
    + intros y k [Hin|Hin%list_elem_of_singleton]%elem_of_app; [by eapply Hh|].
      injection Hin as -> ->. congruence.
    + by apply bs_insert_ok.
    + intros k. rewrite bs_insert_elem by done. rewrite Hu, fmap_app, elem_of_app. cbn.
      rewrite list_elem_of_singleton. tauto.
  - split_and!; [by intros ? ? ?%elem_of_nil|done|]. intros h. by rewrite !elem_of_nil.
Qed.

(** A subset as large as the whole is the whole. *)
Lemma keys_full {V W} (s : btree str V) (m : btree str W) k :
  bt_ok s → bt_ok m → (∀ k, k ∈ s.*1 → k ∈ m.*1) → length s = length m → k ∈ m.*1 → k ∈ s.*1.
Proof.
  intros Hs Hm Hsub Hlen. assert (Hp : s.*1 ≡ₚ m.*1).
  { apply submseteq_length_Permutation.
    - apply NoDup_submseteq; [by apply bt_ok_NoDup|]. exact Hsub.
    - rewrite !length_fmap. lia. }
  by rewrite Hp.
Qed.

Lemma components_spec instances root hosts :
  instances_ok instances root → bt_ok hosts →
  ∃ r, components instances root hosts = Some r ∧
    match r with Ok placement => placement_ok instances hosts placement | Err _ => True end.
Proof.
  intros Hinst Hhosts. pose proof Hinst as [Hok Htree (i&Hi&_)]. unfold components. rewrite Hi.
  destruct (Htree _ _ Hi) as ([Ht _ _]&_).
  set (placement := default [] (mm_placement (in_manifest i))).
  assert (Hpl : bt_ok placement).
  { unfold placement. destruct (mm_placement (in_manifest i)) eqn:E; [|done]. by apply Ht. }
  case_bool_decide as Hk; cbn [negb]; [|by eexists].
  destruct (for_fold (place hosts) [] placement) as [used|] eqn:Ep; [|by eexists].
  apply place_all in Ep as (Hh&Huok&Hu).
  destruct (length used =? length hosts) eqn:El; cbn [negb]; [|by eexists].
  destruct (_ && _); [by eexists|]. eexists. split; [done|]. apply Nat.eqb_eq in El.
  split; [done|by intros x; rewrite Hk|done|].
  intros h Hin. assert (Hin' : h ∈ used.*1).
  { apply (keys_full used hosts); try done. intros k Hku%Hu.
    apply list_elem_of_fmap in Hku as ([x k']&->&Hx). cbn. specialize (Hh _ _ Hx).
    destruct (bt_get k' hosts) eqn:E; [|done]. by apply bt_get_elem, (list_elem_of_fmap_2 fst) in E. }
  apply Hu, list_elem_of_fmap in Hin' as ([x h']&->&Hx). by exists x.
Qed.

(** No route of a component leaves or enters a local-only host. *)
Definition boundary_ok (placement : btree str str) (hosts : btree str ComponentHost)
    (m : ComponentModule) (a : EndpointAddress) : Prop :=
  ∃ h, bt_get (ea_namespace a) placement = Some h ∧
    (h = cmp_host m ∨
     ∃ h1 h2, bt_get h hosts = Some h1 ∧ bt_get (cmp_host m) hosts = Some h2 ∧
       hs_transport (ch_spec h1) ≠ LocalOnly ∧ hs_transport (ch_spec h2) ≠ LocalOnly).

Definition component_sources (m : ComponentModule) : list EndpointAddress :=
  (mb_inputs (cmp_bindings m)).*2 ≫= ib_sources.

Lemma check_boundary_spec instances hosts placement m a :
  placement_ok instances hosts placement → bt_get (cmp_namespace m) placement = Some (cmp_host m) →
  ∃ r, check_boundary placement hosts m a = Some r ∧
    match r with Ok _ => boundary_ok placement hosts m a | Err _ => True end.
Proof.
  intros [_ _ Hh _] Hm. unfold check_boundary, boundary_ok, invalid.
  destruct (bt_get (ea_namespace a) placement) as [h|] eqn:Ea; [|by eexists].
  case_bool_decide as Heq; [eexists; split; [done|]; exists h; split; [done|by left]|].
  apply bt_get_elem, Hh in Ea. destruct (bt_get h hosts) as [h1|] eqn:E1; [|done].
  cbv zeta. case_bool_decide as Hl1; [by eexists|].
  apply bt_get_elem, Hh in Hm. destruct (bt_get (cmp_host m) hosts) as [h2|]; [|done].
  case_bool_decide as Hl2; [by eexists|]. eexists. split; [done|]. exists h. split; [done|]. right.
  by exists h1, h2.
Qed.

Lemma check_boundaries_spec instances hosts placement m :
  placement_ok instances hosts placement → bt_get (cmp_namespace m) placement = Some (cmp_host m) →
  ∃ r, check_boundaries placement hosts m = Some r ∧
    match r with Ok _ => ∀ a, a ∈ component_sources m → boundary_ok placement hosts m a | Err _ => True end.
Proof.
  intros Hp Hm. unfold check_boundaries. fold (component_sources m).
  destruct (try_fold_spec (λ (_ : unit) source, check_boundary placement hosts m source)
    (λ pre _, ∀ a, a ∈ pre → boundary_ok placement hosts m a) (λ _, True) (component_sources m) tt)
    as (r&Hr&Hpost).
  - intros pre a post [] _ Hpre.
    destruct (check_boundary_spec instances hosts placement m a Hp Hm) as ([[]|]&->&Hb); [|by eexists].
    eexists. split; [done|].
    intros b [Hb'|Hb'%list_elem_of_singleton]%elem_of_app; [by apply Hpre|by subst].
  - by intros a ?%elem_of_nil.
  - exists r. split; [done|]. by destruct r.
Qed.

(** What a plan promises. *)
Record plan_ok (plan : DeploymentPlan) : Prop := {
  pn_graph fp : graph_wf (honest_entries fp (plan_bindings (dp_nodes plan) (dp_components plan)));
  pn_typed fp e : e ∈ honest_entries fp (plan_bindings (dp_nodes plan) (dp_components plan)) → entry_typed e;
  pn_bindings : Forall bindings_wf (plan_bindings (dp_nodes plan) (dp_components plan));
  pn_hosts h : h ∈ (dp_component_hosts plan).*1 → ∃ m, m ∈ dp_components plan ∧ cmp_host m = h;
  pn_boundary m a : m ∈ dp_components plan → a ∈ component_sources m →
    ∃ m', m' ∈ dp_components plan ∧ cmp_namespace m' = ea_namespace a ∧
      (cmp_host m' = cmp_host m ∨
       ∀ h, h ∈ [cmp_host m'; cmp_host m] →
         ∃ host, bt_get h (dp_component_hosts plan) = Some host ∧ hs_transport (ch_spec host) ≠ LocalOnly);
}.

Section resolve.
Context {R : Type} (env : Env R) (dirs : list path).
Hypothesis Hcanon : ∀ p d, env_canonicalize env p = Ok d → d ∈ dirs.
Hypothesis Hread : ∀ d m, env_read_manifest env d = Ok m → manifest_typed m.

Lemma visited_instances fuel r ns dir m ps self :
  visit env fuel (mkLoader r [] []) ns dir m ps true = Some (Ok self) →
  length dirs < fuel → manifest_typed m → name_wf ns → mm_inputs m = [] →
  instances_ok (ld_instances self) ns.
Proof.
  intros Hv Hf Hm Hns Hin.
  destruct (visit_spec env dirs Hcanon Hread fuel (mkLoader r [] []) ns dir m ps true)
    as (r'&Hr&Hpost); [|done|].
  { split; cbn; [done|done|by apply name_namespace|constructor|by intros d ?%elem_of_nil|lia]. }
  rewrite Hv in Hr. injection Hr as <-. destruct Hpost as [_ Hok Hother (i&b&Hi&Hmi) Htree].
  split; [done| |].
  - intros x i' Hx. destruct (under_dec ns x) as [Hu|Hu]; [by apply Htree|].
    rewrite Hother in Hx by done. done.
  - exists i. split; [done|]. rewrite Hmi. exact Hin.
Qed.

Lemma resolve_spec fuel root manifest :
  length dirs < fuel → manifest_typed manifest →
  ∃ r, resolve env fuel root manifest = Some r ∧
    match r with Ok plan => plan_ok plan | Err _ => True end.
Proof.
  intros Hfuel Hm. unfold resolve, invalid. destruct (mm_deployment manifest) as [dep|]; [|by eexists].
  destruct (validate_name dep _) as [[]|] eqn:En; [|by eexists]. apply validate_name_Ok in En.
  destruct (validate_name _ (bytes_of "domain")) as [[]|]; [|by eexists].
  destruct (nonempty (mm_inputs manifest)) eqn:Ein; [by eexists|]. apply nonempty_false in Ein.
  destruct (root_providers _ _) as [ps|]; [|by eexists].
  destruct (env_open env root) as [res|]; [|by eexists].
  destruct (visit_spec env dirs Hcanon Hread fuel (mkLoader res [] []) dep root manifest ps true)
    as ([self|]&Hv&_); [|done| |rewrite Hv; by eexists].
  { split; cbn; [done|done|by apply name_namespace|constructor|by intros d ?%elem_of_nil|lia]. }
  rewrite Hv. pose proof (visited_instances _ _ _ _ _ _ _ Hv Hfuel Hm En Ein) as Hinst.
  destruct (component_hosts_spec _ _ Hinst) as ([hosts|]&->&Hhosts); [|by eexists].
  destruct (components_spec _ _ hosts Hinst Hhosts) as ([placement|]&->&Hpl); [|by eexists].
  assert (Hcover : ∀ x i, bt_get x (ld_instances self) = Some i →
    is_some (mm_component (in_manifest i)) = true → bt_get x placement ≠ None).
  { intros x i Hx Hc. assert (Hin : x ∈ placement.*1).
    { apply (pk_keys _ _ _ Hpl), component_namespaces_elem; [apply Hinst|]. by exists i. }
    intros Hn%bt_get_None; [done|apply Hpl]. }
  destruct (connect_spec env (ld_instances self) dep Hinst placement Hcover) as ([c|]&->&Hc); [|by eexists].
  pose proof Hc as (t&resolved&_&_&_&[_ Hcomp]&_).
  assert (Hhost : ∀ m, m ∈ cn_components c → bt_get (cmp_namespace m) placement = Some (cmp_host m)).
  { intros m Hin. by destruct (Forall2_member_r _ _ _ _ Hcomp Hin) as (e&_&->&->&_). }
  destruct (try_fold_spec (λ (_ : unit) m, check_boundaries placement hosts m)
    (λ pre _, ∀ m a, m ∈ pre → a ∈ component_sources m → boundary_ok placement hosts m a) (λ _, True)
    (cn_components c) tt) as (r&->&Hb).
  { intros pre m post [] Heq Hpre.
    assert (Hmh : bt_get (cmp_namespace m) placement = Some (cmp_host m))
      by (apply Hhost; rewrite Heq; set_solver).
    destruct (check_boundaries_spec _ hosts placement m Hpl Hmh) as ([[]|]&->&Hbm); [|by eexists].
    eexists. split; [done|].
    intros m' a [Hin|Hin%list_elem_of_singleton]%elem_of_app; [by apply Hpre|]. subst m'. apply Hbm. }
  { by intros m a ?%elem_of_nil. }
  destruct r as [u|]; [|by eexists]. destruct (env_finish _ _); [|by eexists].
  eexists. split; [done|].
  assert (Hplaced : ∀ x h, (x, h) ∈ placement → ∃ m, m ∈ cn_components c ∧ cmp_namespace m = x ∧ cmp_host m = h).
  { intros x h Hin. assert (Hx : x ∈ component_namespaces (ld_instances self)).
    { apply (pk_keys _ _ _ Hpl). by apply (list_elem_of_fmap_2 fst) in Hin. }
    apply component_namespaces_elem in Hx as (i&Hi&Hci); [|apply Hinst].
    destruct (Forall2_member_l _ _ _ (x, i) Hcomp) as (m&Hm'&Hns&Hg&_).
    { apply list_elem_of_filter. split; [done|by apply bt_get_elem]. }
    exists m. split_and!; try done. apply bt_get_Some in Hin; [|apply Hpl]. cbn in Hg. congruence. }
  split; cbn.
  - intros fp. by apply (modules_graph _ dep Hinst placement c Hc).
  - intros fp e. by apply (modules_graph _ dep Hinst placement c Hc).
  - by apply (modules_graph _ dep Hinst placement c Hc (λ _, 0%Z)).
  - intros h (x&Hx)%(pk_used _ _ _ Hpl). destruct (Hplaced _ _ Hx) as (m&?&_&?). by exists m.
  - intros m src Hin Ha. destruct (Hb m src Hin Ha) as (h&Hh&Hcase).
    destruct (Hplaced _ _ (bt_get_elem _ _ _ Hh)) as (m'&Hm'&Hns&Hhm). exists m'. split_and!; try done.
    destruct Hcase as [->|(h1&h2&E1&E2&T1&T2)]; [by left|right].
    intros k [->|[->|?%elem_of_nil]%elem_of_cons]%elem_of_cons; [|by exists h2|done].
    exists h1. by subst h.
Qed.
End resolve.
