(* ===== verification/LaunchProps.v ===== *)
(** * LaunchProps: properties of the launcher's module language

    The witnesses use a small deployment: a root with a controller and a
    composite arm, whose output forwards the sensor inside it; and a hosted pair
    on two hosts.  The file system is a table of directories. *)

From Stdlib Require Import ZArith Lia.
From stdpp Require Import relations.
From S2P Require Import Prelude Text Btree Bindings LaunchTypes LaunchLoad LaunchPlan LaunchDefinition Core BindingsSpec Report ReportSpec LaunchResolve LaunchTree LaunchTables LaunchBind LaunchAdmit.

Definition state_port (from : option PortSources) (replay : Replay) (retention : Retention) : PortSpec :=
  mkPortSpec [] (bytes_of "robot.State") from Stream None QDefault retention replay Fifo.

Definition state_name : str := bytes_of "state".
Definition pose_name : str := bytes_of "pose".

Definition node_run (bin : str) : RunSpec :=
  mkRun KService (bytes_of "proc") bin [] None [] [] Manual FReport.

Definition leaf_manifest (run : RunSpec) (inputs outputs : btree str PortSpec) : ModuleManifest :=
  mkManifest 3 None None [] [] (Some run) None None None None inputs outputs [] [].

Definition local_call (p : path) (inputs : btree str PortConnection) : ModuleCall :=
  mkCall (LocalDir p) [] inputs [] None None None.

Definition sensor_manifest : ModuleManifest :=
  leaf_manifest (node_run (bytes_of "sensor")) [] [(state_name, state_port None Live RetainLast)].

Definition control_manifest : ModuleManifest :=
  leaf_manifest (node_run (bytes_of "control")) [(pose_name, state_port None ReplayLast Volatile)] [].

Definition arm_manifest : ModuleManifest :=
  mkManifest 3 None None [] [(bytes_of "sensor", local_call (bytes_of "/r/sensor") [])]
    None None None None None []
    [(state_name, state_port (Some (One (bytes_of "sensor.state"))) Live Volatile)] [] [].

Definition root_manifest (arm : path) : ModuleManifest :=
  mkManifest 3 (Some (bytes_of "robot")) None
    [(bytes_of "proc", mkProvider Process (bytes_of "bin") None [])]
    [(bytes_of "arm", local_call arm []);
     (bytes_of "control",
      local_call (bytes_of "/r/control")
        [(pose_name, mkConnection (bytes_of "robot.State") (Some (One (bytes_of "arm.state"))))])]
    None None None None None [] [] [] [].

(** Hosted components: a sensor that a viewer reads. *)
Definition component_manifest (inputs outputs : btree str PortSpec) : ModuleManifest :=
  mkManifest 4 None None [] [] None
    (Some (mkComponentSpec (bytes_of "factory") (bytes_of "1") None []))
    None None None inputs outputs [] [].

Definition hosted_sensor : ModuleManifest :=
  component_manifest [] [(state_name, state_port None Live RetainLast)].
Definition hosted_viewer : ModuleManifest :=
  component_manifest [(pose_name, state_port None ReplayLast Volatile)] [].

Definition host_spec (transport : ComponentTransport) : ComponentHostSpec :=
  mkHostSpec (bytes_of "proc") (bytes_of "host") transport None Manual FReport.

Definition hosted_root (t1 t2 : ComponentTransport) : ModuleManifest :=
  mkManifest 4 (Some (bytes_of "cell")) None
    [(bytes_of "proc", mkProvider Process (bytes_of "bin") None [])]
    [(bytes_of "eye", local_call (bytes_of "/h/eye") []);
     (bytes_of "view",
      local_call (bytes_of "/h/view") [(pose_name, mkConnection [] (Some (One (bytes_of "eye.state"))))])]
    None None
    (Some [(bytes_of "left", host_spec t1); (bytes_of "right", host_spec t2)])
    (Some [(bytes_of "cell/eye", bytes_of "left"); (bytes_of "cell/view", bytes_of "right")])
    None [] [] [] [].

Definition demo_files : btree path ModuleManifest :=
  [(bytes_of "/h/eye", hosted_sensor);
   (bytes_of "/h/view", hosted_viewer);
   (bytes_of "/r/arm", arm_manifest);
   (bytes_of "/r/control", control_manifest);
   (bytes_of "/r/sensor", sensor_manifest)].

Definition demo_dirs : list path := [bytes_of "/h"; bytes_of "/r"] ++ demo_files.*1.

Definition demo_env : Env unit := {|
  env_canonicalize p := if bool_decide (p ∈ demo_dirs) then Ok p else Err (bytes_of "not found");
  env_read_manifest p := ok_or (bt_get p demo_files) (IoError p (bytes_of "not found"));
  env_is_file _ := false;
  env_open _ := Ok tt;
  env_resolve _ _ _ _ := Err (Acquisition (bytes_of "no network"));
  env_check_cancelled _ := Ok tt;
  env_finish _ := Ok tt;
|}.

Lemma demo_canonical p d : env_canonicalize demo_env p = Ok d → d ∈ demo_dirs.
Proof. unfold demo_env. cbn [env_canonicalize]. case_bool_decide; [|done]. by intros [= <-]. Qed.

Ltac typed_manifest :=
  split; cbn; try done; try (by repeat constructor); intros ? [= <-]; by repeat constructor.

Lemma demo_read d m : env_read_manifest demo_env d = Ok m → manifest_typed m.
Proof.
  unfold demo_env, ok_or. cbn [env_read_manifest].
  destruct (bt_get d demo_files) as [m'|] eqn:E; [|done]. intros [= ->].
  apply bt_get_elem in E. unfold demo_files in E.
  repeat (apply elem_of_cons in E as [[= _ ->]|E]; [typed_manifest|]). by apply elem_of_nil in E.
Qed.

Lemma root_typed arm : manifest_typed (root_manifest arm).
Proof. typed_manifest. Qed.
Lemma hosted_typed t1 t2 : manifest_typed (hosted_root t1 t2).
Proof. typed_manifest. Qed.

Definition is_plan (r : option (result DeploymentPlan ModuleError)) : bool :=
  match r with Some (Ok _) => true | _ => false end.

Example robot_resolves :
  is_plan (resolve demo_env 8 (bytes_of "/r") (root_manifest (bytes_of "/r/arm"))) = true.
Proof. by vm_compute. Qed.
Example hosted_resolves : is_plan (resolve demo_env 8 (bytes_of "/h") (hosted_root RoutedZenoh RoutedZenoh)) = true.
Proof. by vm_compute. Qed.
Example hosted_local_refused : resolve demo_env 8 (bytes_of "/h") (hosted_root RoutedZenoh LocalOnly) =
  Some (Err (Invalid (bytes_of "cell/view") (bytes_of "edge crosses a local-only host boundary"))).
Proof. by vm_compute. Qed.
Example robot_via :
  match resolve demo_env 8 (bytes_of "/r") (root_manifest (bytes_of "/r/arm")) with
  | Some (Ok plan) => dp_connections plan
  | _ => []
  end =
  [mkRConnection (mkPortAddress (bytes_of "robot/arm/sensor") false state_name)
     (mkPortAddress (bytes_of "robot/control") true pose_name)
     [mkPortAddress (bytes_of "robot/arm") false state_name]
     (port_contract (state_port None Live RetainLast))].
Proof. by vm_compute. Qed.

(** ** More fuel changes nothing *)

Lemma try_fold_mono {A S E} (f g : S → A → option (result S E)) l s r :
  (∀ s x r, f s x = Some r → g s x = Some r) → try_fold f s l = Some r → try_fold g s l = Some r.
Proof.
  intros Hfg. revert s. induction l as [|x l IH]; intros s; cbn; [done|].
  destruct (f s x) as [q|] eqn:Ef; [|done]. rewrite (Hfg _ _ _ Ef). destruct q; [apply IH|done].
Qed.

Lemma visit_mono {R} (env : Env R) fuel fuel' self ns dir m ps root r :
  fuel ≤ fuel' → visit env fuel self ns dir m ps root = Some r →
  visit env fuel' self ns dir m ps root = Some r.
Proof.
  revert fuel' self ns dir m ps root r.
  induction fuel as [|fuel IH]; intros [|fuel'] self ns dir m ps root r Hle; [done|done|lia|].
  assert (Hcall : ∀ ns dir ps s x r, visit_call env (visit env fuel) ns dir ps s x = Some r →
                                     visit_call env (visit env fuel') ns dir ps s x = Some r).
  { intros ns0 dir0 ps0 s [name call] r0. unfold visit_call.
    destruct (child_source _ _ _ _ _) as [[d1 s1]|]; [|done].
    destruct (env_read_manifest _ _) as [c|]; [|done].
    destruct (check_call_inputs _ _ _) as [[u|]|]; [|done..].
    destruct (check_call_outputs _ _ _) as [u'|]; [|done].
    destruct (apply_overrides _ _ _ _); [|done]. destruct (map_providers _ _ _); [|done].
    apply IH. lia. }
  cbn [visit]. destruct (map_err _ _) as [d|]; [|done]. case_bool_decide; [done|].
  destruct (validate_manifest _ _ _ _); [|done]. destruct (env_check_cancelled _ _); [|done].
  destruct (try_fold (visit_call env (visit env fuel) _ _ _) _ _) as [q|] eqn:Et; [|done].
  erewrite try_fold_mono; [|intros ? ? ?; apply Hcall|exact Et]. done.
Qed.

Lemma resolve_mono {R} (env : Env R) fuel fuel' root m r :
  fuel ≤ fuel' → resolve env fuel root m = Some r → resolve env fuel' root m = Some r.
Proof.
  intros Hle. unfold resolve. destruct (mm_deployment m); [|done].
  destruct (validate_name _ (bytes_of "deployment")); [|done].
  destruct (validate_name _ (bytes_of "domain")); [|done]. destruct (nonempty _); [done|].
  destruct (root_providers _ _); [|done]. destruct (env_open _ _); [|done].
  destruct (visit env fuel _ _ _ _ _ _) as [q|] eqn:Ev; [|done].
  by rewrite (visit_mono _ _ _ _ _ _ _ _ _ _ Hle Ev).
Qed.

(** ** Claims *)

(** [resolve_endpoint], started with an empty path and memo, returns for
    every address of every table of aliases.  It yields the routes of the
    address in declaration order — for an alias, exactly one per walk over
    aliases to an executable output, with the aliases in between and the
    output's contract — or it names an address that is reached and either lies
    on a cycle of aliases or has no publisher, and then the address has no
    routes at all. *)
Theorem resolve_endpoint_exact (edges : edges_t) (terminals : terminals_t) (a : PortAddress) :
  bt_ok edges →
  ∃ r, resolve_endpoint (S (S (length edges))) edges terminals a [] [] = Some r ∧
    match r with
    | Ok (routes, _, _) =>
        denotes edges terminals a routes ∧
        (bt_get a terminals = None → ∀ src via c,
           mkResolved src via c ∈ routes ↔ walk edges terminals a via src c)
    | Err e => resolve_failure edges terminals a e ∧ ∀ routes, ¬ denotes edges terminals a routes
    end.
Proof.
  intros Hok.
  destruct (resolve_endpoint_spec edges terminals Hok (S (S (length edges))) a [] [])
    as (r&Hr&Hf); [by split|split; [done|by intros ? ?%elem_of_nil..]|cbn; lia|].
  exists r. split; [done|]. destruct r as [[[routes act] res]|e].
  - destruct Hf as (Hd&_). split; [done|]. intros Ht src via c. by apply denotes_walk.
  - split; [done|]. intros routes. by apply (failure_no_routes _ _ _ e).
Qed.

(** The tables of the demonstration deployment. *)
Definition demo_tables : Tables :=
  match visit demo_env 8 (mkLoader tt [] []) (bytes_of "robot") (bytes_of "/r")
          (root_manifest (bytes_of "/r/arm"))
          [(bytes_of "proc", mkProvider Process (bytes_of "bin") None [])] true with
  | Some (Ok l) => match collect_tables (ld_instances l) with Ok t => t | Err _ => mkTables [] [] [] end
  | _ => mkTables [] [] []
  end.

Lemma resolve_endpoint_exact_witness :
  ∃ r, resolve_endpoint (S (S (length (tb_edges demo_tables)))) (tb_edges demo_tables)
         (tb_terminals demo_tables) (mkPortAddress (bytes_of "robot/control") true pose_name) [] [] = Some r ∧
    match r with
    | Ok (routes, _, _) =>
        denotes (tb_edges demo_tables) (tb_terminals demo_tables)
          (mkPortAddress (bytes_of "robot/control") true pose_name) routes ∧
        (bt_get (mkPortAddress (bytes_of "robot/control") true pose_name) (tb_terminals demo_tables) = None →
         ∀ src via c, mkResolved src via c ∈ routes ↔
           walk (tb_edges demo_tables) (tb_terminals demo_tables)
             (mkPortAddress (bytes_of "robot/control") true pose_name) via src c)
    | Err e => resolve_failure (tb_edges demo_tables) (tb_terminals demo_tables)
                 (mkPortAddress (bytes_of "robot/control") true pose_name) e ∧
               ∀ routes, ¬ denotes (tb_edges demo_tables) (tb_terminals demo_tables)
                             (mkPortAddress (bytes_of "robot/control") true pose_name) routes
    end.
Proof.
  apply (resolve_endpoint_exact (tb_edges demo_tables) (tb_terminals demo_tables)).
  apply (bool_decide_unpack _). vm_compute. exact I.
Defined.

(** [validate_definition] accepts a manifest exactly when it satisfies the
    rules of the module language: a supported version, exactly one of
    executable, component and composite, valid names and contracts, caller
    ports that redefine nothing, and owned children that are given declared
    ports, each at most once. *)
Theorem validate_definition_exact (namespace : str) (m : ModuleManifest) :
  manifest_typed m → validate_definition namespace m = Ok tt ↔ definition_wf m.
Proof. intros Hm. by apply validate_definition_Ok. Qed.

Lemma validate_definition_exact_witness : definition_wf arm_manifest.
Proof.
  apply (validate_definition_exact (bytes_of "robot/arm")); [|by vm_compute].
  apply (demo_read (bytes_of "/r/arm")). by vm_compute.
Defined.

(** C4: a resolved deployment is admitted at run time: every module's bindings
    pass [ModuleBindings::validate], and when each module reports exactly its
    declared ports, with one fingerprint per type name, [validate_graph]
    accepts all of them together. *)
Theorem plan_is_admitted {R} (env : Env R) (dirs : list path) (fuel : nat) (root : path)
    (manifest : ModuleManifest) (plan : DeploymentPlan) :
  (∀ p d, env_canonicalize env p = Ok d → d ∈ dirs) →
  (∀ d m, env_read_manifest env d = Ok m → manifest_typed m) →
  length dirs < fuel → manifest_typed manifest →
  resolve env fuel root manifest = Some (Ok plan) →
  Forall (λ b, bindings_validate b = Ok tt) (plan_bindings (dp_nodes plan) (dp_components plan)) ∧
  ∀ fp, validate_graph (honest_entries fp (plan_bindings (dp_nodes plan) (dp_components plan))) =
        Some (Ok tt).
Proof.
  intros Hcanon Hread Hfuel Hm Hr.
  destruct (resolve_spec env dirs Hcanon Hread fuel root manifest Hfuel Hm) as (r&Hr'&Hplan).
  rewrite Hr in Hr'. injection Hr' as <-. destruct Hplan as [Hg Ht Hb _ _]. split.
  - rewrite Forall_forall in Hb. apply Forall_forall. intros b Hin.
    assert (Hty : entry_typed (mkEntry b (honest_report (λ _, 0%Z) b))).
    { apply (Ht (λ _, 0%Z)). by apply (list_elem_of_fmap_2 (λ b, mkEntry b (honest_report (λ _, 0%Z) b))). }
    destruct Hty as [Hi Ho _ _]. cbn in Hi, Ho. by apply bindings_validate_Ok, Hb.
  - intros fp. apply (validate_graph_spec _ (Ht fp)), Hg.
Qed.

Lemma plan_is_admitted_witness :
  ∃ plan, resolve demo_env 8 (bytes_of "/r") (root_manifest (bytes_of "/r/arm")) = Some (Ok plan) ∧
    Forall (λ b, bindings_validate b = Ok tt) (plan_bindings (dp_nodes plan) (dp_components plan)) ∧
    ∀ fp, validate_graph (honest_entries fp (plan_bindings (dp_nodes plan) (dp_components plan))) =
          Some (Ok tt).
Proof.
  destruct (resolve demo_env 8 (bytes_of "/r") (root_manifest (bytes_of "/r/arm"))) as [[plan|e]|] eqn:E.
  2,3: exfalso; pose proof robot_resolves as H; rewrite E in H; discriminate H.
  exists plan. split; [reflexivity|].
  apply (plan_is_admitted demo_env demo_dirs 8 (bytes_of "/r") (root_manifest (bytes_of "/r/arm")) plan).
  - exact demo_canonical.
  - exact demo_read.
  - vm_compute. lia.
  - apply root_typed.
  - exact E.
Defined.

(** C39: the resolution of a root manifest terminates without a panic on every
    file system whose canonical directories are finitely many, whatever the
    manifests in them contain: all depth bounds above their number give one and
    the same result. *)
Theorem resolution_terminates {R} (env : Env R) (dirs : list path) (root : path)
    (manifest : ModuleManifest) :
  (∀ p d, env_canonicalize env p = Ok d → d ∈ dirs) →
  (∀ d m, env_read_manifest env d = Ok m → manifest_typed m) → manifest_typed manifest →
  ∃ r, ∀ fuel, length dirs < fuel → resolve env fuel root manifest = Some r.
Proof.
  intros Hcanon Hread Hm.
  destruct (resolve_spec env dirs Hcanon Hread (S (length dirs)) root manifest) as (r&Hr&_); [lia|done|].
  exists r. intros fuel Hf. by apply (resolve_mono env (S (length dirs))); [lia|].
Qed.

(** A deployment whose arm contains itself. *)
Lemma resolution_terminates_witness :
  ∃ r, ∀ fuel, length demo_dirs < fuel →
    resolve demo_env fuel (bytes_of "/r") (root_manifest (bytes_of "/r")) = Some r.
Proof.
  apply (resolution_terminates demo_env demo_dirs); [exact demo_canonical|exact demo_read|apply root_typed].
Defined.

(** Placement of a resolved deployment: every declared host runs a
    component, and whenever a component reads from a component on another
    host, neither of the two hosts is local-only. *)
Theorem local_hosts_isolated {R} (env : Env R) (dirs : list path) (fuel : nat) (root : path)
    (manifest : ModuleManifest) (plan : DeploymentPlan) :
  (∀ p d, env_canonicalize env p = Ok d → d ∈ dirs) →
  (∀ d m, env_read_manifest env d = Ok m → manifest_typed m) →
  length dirs < fuel → manifest_typed manifest →
  resolve env fuel root manifest = Some (Ok plan) →
  (∀ h, h ∈ (dp_component_hosts plan).*1 → ∃ m, m ∈ dp_components plan ∧ cmp_host m = h) ∧
  ∀ m a, m ∈ dp_components plan → a ∈ component_sources m →
    ∃ m', m' ∈ dp_components plan ∧ cmp_namespace m' = ea_namespace a ∧
      (cmp_host m' = cmp_host m ∨
       ∀ h, h ∈ [cmp_host m'; cmp_host m] →
         ∃ host, bt_get h (dp_component_hosts plan) = Some host ∧ hs_transport (ch_spec host) ≠ LocalOnly).
Proof.
  intros Hcanon Hread Hfuel Hm Hr.
  destruct (resolve_spec env dirs Hcanon Hread fuel root manifest Hfuel Hm) as (r&Hr'&Hplan).
  rewrite Hr in Hr'. injection Hr' as <-. by destruct Hplan.
Qed.

Lemma local_hosts_isolated_witness :
  ∃ plan, resolve demo_env 8 (bytes_of "/h") (hosted_root RoutedZenoh RoutedZenoh) = Some (Ok plan) ∧
    (∀ h, h ∈ (dp_component_hosts plan).*1 → ∃ m, m ∈ dp_components plan ∧ cmp_host m = h) ∧
    ∀ m a, m ∈ dp_components plan → a ∈ component_sources m →
      ∃ m', m' ∈ dp_components plan ∧ cmp_namespace m' = ea_namespace a ∧
        (cmp_host m' = cmp_host m ∨
         ∀ h, h ∈ [cmp_host m'; cmp_host m] →
           ∃ host, bt_get h (dp_component_hosts plan) = Some host ∧ hs_transport (ch_spec host) ≠ LocalOnly).
Proof.
  destruct (resolve demo_env 8 (bytes_of "/h") (hosted_root RoutedZenoh RoutedZenoh)) as [[plan|e]|] eqn:E.
  2,3: exfalso; pose proof hosted_resolves as H; rewrite E in H; discriminate H.
  exists plan. split; [reflexivity|].
  apply (local_hosts_isolated demo_env demo_dirs 8 (bytes_of "/h") (hosted_root RoutedZenoh RoutedZenoh) plan).
  - exact demo_canonical.
  - exact demo_read.
  - vm_compute. lia.
  - apply hosted_typed.
  - exact E.
Defined.
