(* ===== verification/EngineKey.v ===== *)
(** * EngineKey: named endpoint addresses and patterns
    ([crates/reiny/src/engine/mod.rs], [crates/reiny/src/lib.rs])

    Keys with their textual form, validation, parsing and matching, and the
    selectors under which the Zenoh engine looks for a pattern
    ([crates/reiny/src/engine/zenoh.rs]).  An error is its message.  Then what a
    key is and what its text says: [key_wf] is the set of addresses and patterns
    that validation accepts, [key_segments] the text of a key as a list, and
    [key_expr] the meaning of such a list as a Zenoh key expression. *)

From Stdlib Require Import ZArith Lia.
From S2P Require Import Prelude Text Btree Bindings BindingsSpec.

Definition KEY_ROOT : str := bytes_of "reiny".
Definition SERVICE_CHUNK : str := bytes_of "@service".
Definition SUB_CHUNK : str := bytes_of "@sub".
Definition LAUNCH_CHUNK : str := bytes_of "@launch".
Definition READY_CHUNK : str := bytes_of "@ready".
Definition STOP_CHUNK : str := bytes_of "@stop".
Definition SCHEMA_CHUNK : str := bytes_of "@schema".

Inductive EndpointSlot : Type := OutputSlot (port : str) | InputSlot (port : str).

#[export] Instance EndpointSlot_eq_dec : EqDecision EndpointSlot.
Proof. solve_decision. Defined.

Record Key : Type := mkKey {
  k_domain : str;
  k_source : option str;
  k_endpoint : option EndpointSlot;
  k_ty : option str;
  k_chunk : option str;
}.

#[export] Instance Key_eq_dec : EqDecision Key.
Proof. solve_decision. Defined.

(** ** Constructors *)

Definition key_output (domain namespace port ty : str) : Key :=
  mkKey domain (Some namespace) (Some (OutputSlot port)) (Some ty) None.
Definition key_input (domain namespace port ty : str) : Key :=
  mkKey domain (Some namespace) (Some (InputSlot port)) (Some ty) None.

Definition control (ty : str) : bool :=
  bool_decide (ty = LAUNCH_CHUNK) || bool_decide (ty = READY_CHUNK) || bool_decide (ty = STOP_CHUNK).

(** [Key::module]; [None] is its panic *)
Definition key_module (domain : str) (namespace : option str) (ctl : str) : option Key :=
  if control ctl then Some (mkKey domain namespace None (Some ctl) None) else None.

Definition slot_port (slot : EndpointSlot) : str :=
  match slot with OutputSlot port | InputSlot port => port end.

(** [Key::port] *)
Definition key_port (k : Key) : option str := slot_port <$> k_endpoint k.

(** [Key::all], [Key::with_chunk] *)
Definition key_all (domain : str) : Key := mkKey domain None None None None.
Definition with_chunk (k : Key) (chunk : str) : Key :=
  mkKey (k_domain k) (k_source k) (k_endpoint k) (k_ty k) (Some chunk).

(** ** Validation *)

(** [s.starts_with(c)] for a character and for a string *)
Definition starts_with_char (c : Z) (s : str) : bool :=
  match s with b :: _ => (b =? c)%Z | [] => false end.
Definition verbatim (s : str) : bool := starts_with_char 64 s.

(** [Key::is_verbatim_type] *)
Definition is_verbatim_type (k : Key) : bool :=
  match k_ty k with Some t => verbatim t | None => false end.

(** [validate_segment] of [lib.rs], without its message *)
Definition validate_segment (value : str) : bool :=
  negb (bool_decide (value = []))
  && negb (existsb (λ c, bool_decide (c ∈ bytes_of "/*?#$@") || is_whitespace c) (chars value)).

(** [ordinary_segment] *)
Definition ordinary_segment (s : str) : bool := negb (is_dots s) && validate_segment s.

Definition ensure_key (condition : bool) (message : str) : result unit str :=
  if condition then Ok tt else Err message.

(** The name of [@schema/<name>] *)
Definition SCHEMA_PREFIX : str := bytes_of "@schema/".
Definition schema_name (chunk : str) : option str := strip_prefix SCHEMA_PREFIX chunk.

(** [Key::validate], on the facet *)
Definition validate_facet (k : Key) (chunk : str) : result unit str :=
  let? _ := ensure_key (bool_decide (chunk = SERVICE_CHUNK) || bool_decide (chunk = SUB_CHUNK)
                    || match schema_name chunk with
                       | Some name => bool_decide (name = bytes_of "*") || ordinary_segment name
                       | None => false
                       end)
              (bytes_of "invalid endpoint facet '" ++ chunk ++ bytes_of "'") in
  ensure_key (negb match k_endpoint k with
               | Some (OutputSlot _) => bool_decide (chunk = SUB_CHUNK)
               | Some (InputSlot _) => bool_decide (chunk = SERVICE_CHUNK)
               | None => false
               end)
    (bytes_of "endpoint facet has the wrong direction").

(** [Key::validate] *)
Definition key_validate (k : Key) : result unit str :=
  let? _ := ensure_key (ordinary_segment (k_domain k))
              (bytes_of "invalid key domain '" ++ k_domain k ++ bytes_of "'") in
  let? _ := match k_source k with
            | Some source =>
                ensure_key (forallb ordinary_segment (split_on 47 source))
                  (bytes_of "invalid key source '" ++ source ++
                   bytes_of "': expected a canonical namespace, not a pattern")
            | None => Ok tt
            end in
  let? _ := match k_ty k with
            | Some ty => ensure_key (ordinary_segment ty || control ty)
                           (bytes_of "invalid key type '" ++ ty ++ bytes_of "'")
            | None => Ok tt
            end in
  let? _ := match key_port k with
            | Some port =>
                let? _ := ensure_key (ordinary_segment port)
                            (bytes_of "invalid endpoint port '" ++ port ++ bytes_of "'") in
                ensure_key match k_ty k with Some ty => ordinary_segment ty | None => false end
                  (bytes_of "named endpoints require a payload type")
            | None => Ok tt
            end in
  let? _ := if is_verbatim_type k then
              ensure_key (is_none (k_endpoint k) && is_none (k_chunk k))
                (bytes_of "module controls cannot have endpoint slots or facets")
            else Ok tt in
  let? _ := match k_endpoint k with
            | Some (InputSlot _) =>
                ensure_key match k_chunk k with
                       | Some chunk => bool_decide (chunk = SUB_CHUNK) || negb (is_none (schema_name chunk))
                       | None => false
                       end
                  (bytes_of "input identities require a receiver-presence or schema facet")
            | _ => Ok tt
            end in
  match k_chunk k with Some chunk => validate_facet k chunk | None => Ok tt end.

(** ** Text *)

Definition OUT : str := bytes_of "@out".
Definition IN : str := bytes_of "@in".

(** The direction that [Display] writes *)
Definition direction (k : Key) : str :=
  match k_endpoint k with
  | Some (InputSlot _) => IN
  | _ => if bool_decide (k_chunk k = Some SUB_CHUNK) then IN else OUT
  end.

(** [Display for Key] *)
Definition key_display (k : Key) : str :=
  KEY_ROOT ++ bytes_of "/v3/" ++ k_domain k ++ bytes_of "/" ++ default (bytes_of "**") (k_source k) ++
  bytes_of "/" ++
  (if is_verbatim_type k then default [] (k_ty k)
   else direction k ++ bytes_of "/" ++ default (bytes_of "*") (key_port k) ++ bytes_of "/" ++
        default (bytes_of "*") (k_ty k)) ++
  match k_chunk k with Some chunk => bytes_of "/" ++ chunk | None => [] end.

Definition wildcard_to_none (segment : str) : option str :=
  if bool_decide (segment = bytes_of "*") then None else Some segment.

(** The endpoint, type and facet of [Key::parse], from the boundary on *)
Definition parse_tail (marker : str) (rest : list str) :
  option (option EndpointSlot * option str * option str) :=
  if control marker && (length rest =? 0) then Some (None, Some marker, None)
  else if bool_decide (marker = OUT) || bool_decide (marker = IN) then
    match rest with
    | port :: ty :: facets =>
        let out := bool_decide (marker = OUT) in
        if negb (bool_decide (port = bytes_of "*") || ordinary_segment port)
           || negb (bool_decide (ty = bytes_of "*") || ordinary_segment ty)
           || (out && bool_decide (head facets = Some SUB_CHUNK))
        then None
        else if negb out
                && negb (bool_decide (head facets = Some SUB_CHUNK)
                         || bool_decide (head facets = Some SCHEMA_CHUNK))
        then None
        else
          let endpoint := if bool_decide (port = bytes_of "*") then None
                          else if out then Some (OutputSlot port) else Some (InputSlot port) in
          Some (endpoint, wildcard_to_none ty,
                if 0 <? length facets then Some (join_on 47 facets) else None)
    | _ => None
    end
  else None.

(** [Key::parse] *)
Definition key_parse (key : str) : option Key :=
  match split_on 47 key with
  | root :: version :: domain :: tail =>
      if negb (bool_decide (root = KEY_ROOT)) || negb (bool_decide (version = bytes_of "v3")) then None
      else
        match position verbatim tail with
        | None | Some 0 => None
        | Some boundary =>
            let namespace := join_on 47 (take boundary tail) in
            let source := if bool_decide (namespace = bytes_of "**") then None else Some namespace in
            match drop boundary tail with
            | [] => None
            | marker :: rest =>
                match parse_tail marker rest with
                | None => None
                | Some (endpoint, ty, chunk) =>
                    let key := mkKey domain source endpoint ty chunk in
                    match key_validate key with Ok _ => Some key | Err _ => None end
                end
            end
        end
  | _ => None
  end.

(** ** Matching *)

(** [zip(..).all(..)] *)
Fixpoint zip_all {A B} (f : A → B → bool) (l : list A) (k : list B) : bool :=
  match l, k with
  | x :: l, y :: k => f x y && zip_all f l k
  | _, _ => true
  end.

Definition segment_matches (p c : str) : bool :=
  bool_decide (p = c) || (bool_decide (p = bytes_of "*") && negb (verbatim c)).

(** [Key::matches] *)
Definition matches (self key : Key) : bool :=
  let ty_ok := match k_ty self, k_ty key with
               | None, Some t => negb (verbatim t)
               | None, None => true
               | Some p, other => bool_decide (other = Some p)
               end in
  let chunk_ok := match k_chunk self, k_chunk key with
                  | None, None => true
                  | Some p, Some c =>
                      (length (split_on 47 p) =? length (split_on 47 c))
                      && zip_all segment_matches (split_on 47 p) (split_on 47 c)
                  | _, _ => false
                  end in
  bool_decide (k_domain self = k_domain key)
  && match k_source self with Some s => bool_decide (k_source key = Some s) | None => true end
  && ty_ok
  && match k_endpoint self with Some slot => bool_decide (k_endpoint key = Some slot) | None => true end
  && chunk_ok.

(** ** The selectors of the Zenoh engine *)

(** [str::replace] for a pattern that is not empty; [skip] counts the rest of a
    replaced occurrence *)
Fixpoint replace_from (skip : nat) (from to s : str) : str :=
  match s with
  | [] => []
  | b :: s' =>
      match skip with
      | S skip => replace_from skip from to s'
      | 0 =>
          match strip_prefix from (b :: s') with
          | Some _ => to ++ replace_from (length from - 1) from to s'
          | None => b :: replace_from 0 from to s'
          end
      end
  end.
Definition str_replace (s from to : str) : str := replace_from 0 from to s.

(** A schema pattern for both directions *)
Definition wildcard_schema (k : Key) : bool :=
  is_none (k_endpoint k)
  && match k_chunk k with Some chunk => negb (is_none (schema_name chunk)) | None => false end.

(** The selectors of [Zenoh::query]; the other operations use [key.to_string()] *)
Definition selectors (k : Key) : list str :=
  if wildcard_schema k
  then [key_display k; str_replace (key_display k) (bytes_of "/@out/") (bytes_of "/@in/")]
  else [key_display k].

(** ** Valid keys *)

(** Which facet an address may carry. *)
Inductive facet_wf : option EndpointSlot → option str → Prop :=
  | facet_none e : (∀ p, e ≠ Some (InputSlot p)) → facet_wf e None
  | facet_service e : (∀ p, e ≠ Some (InputSlot p)) → facet_wf e (Some SERVICE_CHUNK)
  | facet_sub e : (∀ p, e ≠ Some (OutputSlot p)) → facet_wf e (Some SUB_CHUNK)
  | facet_schema e name : name = bytes_of "*" ∨ segment_wf name →
      facet_wf e (Some (SCHEMA_PREFIX ++ name)).

Definition opt_wf (P : str → Prop) (o : option str) : Prop := ∀ s, o = Some s → P s.
Definition source_wf (s : str) : Prop := Forall segment_wf (split_on 47 s).

Inductive key_wf : Key → Prop :=
  | wf_control domain source ctl :
      segment_wf domain → opt_wf source_wf source → control ctl = true →
      key_wf (mkKey domain source None (Some ctl) None)
  | wf_endpoint domain source endpoint ty chunk :
      segment_wf domain → opt_wf source_wf source → opt_wf segment_wf ty →
      opt_wf segment_wf (slot_port <$> endpoint) → (is_Some endpoint → is_Some ty) →
      facet_wf endpoint chunk → key_wf (mkKey domain source endpoint ty chunk).

Lemma existsb_orb {A} (f g : A → bool) l : existsb (λ x, f x || g x) l = existsb f l || existsb g l.
Proof.
  induction l as [|x l IH]; cbn; [done|]. rewrite IH. by destruct (f x), (g x), (existsb f l), (existsb g l).
Qed.

Lemma ordinary_true s : ordinary_segment s = true ↔ segment_wf s.
Proof.
  rewrite <- segment_true. unfold ordinary_segment, validate_segment, segment. rewrite existsb_orb.
  destruct (is_dots s), (bool_decide (s = [])), (existsb _ (chars s)), (existsb is_whitespace _); done.
Qed.

(** An ordinary segment does not start with an ASCII sign that it excludes. *)
Lemma segment_head b s : (0 ≤ b ≤ 127)%Z → b ∈ bytes_of "/*?#$@" → ¬ segment_wf (b :: s).
Proof.
  intros Hb Hin (_&_&_&Hall). cbn [chars] in Hall.
  rewrite (proj2 (between_true 0 127 b) Hb) in Hall. by destruct (Hall b) as [? _]; [left|].
Qed.

Lemma segment_not_verbatim s : segment_wf s → verbatim s = false.
Proof.
  intros Hs. destruct s as [|b s]; [done|]. cbn. apply Z.eqb_neq. intros ->.
  revert Hs. apply segment_head; [lia|]. vm_compute. set_solver.
Qed.

Lemma segment_not_star s : segment_wf s → s ≠ bytes_of "*" ∧ s ≠ bytes_of "**".
Proof.
  intros Hs. split; intros ->; revert Hs; apply segment_head; first [lia|vm_compute; set_solver].
Qed.

Lemma control_cases c : control c = true → c = LAUNCH_CHUNK ∨ c = READY_CHUNK ∨ c = STOP_CHUNK.
Proof. unfold control. rewrite !orb_true_iff, !bool_decide_eq_true. tauto. Qed.

Lemma control_verbatim c : control c = true → verbatim c = true.
Proof. by intros [->|[->| ->]]%control_cases. Qed.

Lemma ensure_key_Ok c m : ensure_key c m = Ok tt ↔ c = true.
Proof. unfold ensure_key. by destruct c. Qed.

Lemma schema_name_Some chunk name : schema_name chunk = Some name ↔ chunk = SCHEMA_PREFIX ++ name.
Proof. apply strip_prefix_Some. Qed.

Lemma validate_facet_Ok k chunk :
  validate_facet k chunk = Ok tt ∧
  (∀ p, k_endpoint k = Some (InputSlot p) → chunk = SUB_CHUNK ∨ schema_name chunk ≠ None) ↔
  facet_wf (k_endpoint k) (Some chunk).
Proof.
  unfold validate_facet. rewrite seq_Ok, !ensure_key_Ok, !orb_true_iff, !bool_decide_eq_true, negb_true_iff.
  split.
  - intros [[[[->| ->]|Hn] Hd] Hin].
    + constructor. intros p Hp. by rewrite Hp in Hd.
    + constructor. intros p Hp. by rewrite Hp in Hd.
    + destruct (schema_name chunk) as [name|] eqn:E; [|done]. apply schema_name_Some in E as ->.
      constructor. rewrite orb_true_iff, bool_decide_eq_true, ordinary_true in Hn. done.
  - intros Hf. remember (k_endpoint k) as e eqn:Ee. remember (Some chunk) as oc eqn:Ec.
    destruct Hf as [|e He|e He|e name Hn]; [done|..].
    + assert (chunk = SERVICE_CHUNK) as -> by congruence.
      split; [|intros p Hp; by destruct (He p)]. split; [by left; left|].
      destruct e as [[]|]; [done| |done]. by destruct (He port).
    + assert (chunk = SUB_CHUNK) as -> by congruence.
      split; [|by left]. split; [by left; right|].
      destruct e as [[]|]; [|done..]. by destruct (He port).
    + assert (chunk = SCHEMA_PREFIX ++ name) as -> by congruence.
      assert (Hs : schema_name (SCHEMA_PREFIX ++ name) = Some name) by (by apply schema_name_Some).
      rewrite Hs. split; [|by right]. split.
      * right. by rewrite orb_true_iff, bool_decide_eq_true, ordinary_true.
      * by destruct e as [[]|].
Qed.

Lemma key_validate_Ok k : key_validate k = Ok tt ↔ key_wf k.
Proof.
  unfold key_validate. rewrite !seq_Ok.
  destruct k as [domain source endpoint ty chunk]. cbn [k_domain k_source k_endpoint k_ty k_chunk].
  rewrite ensure_key_Ok, ordinary_true.
  assert (Hsrc : match source with
                 | Some s => ensure_key (forallb ordinary_segment (split_on 47 s))
                     (bytes_of "invalid key source '" ++ s ++
                      bytes_of "': expected a canonical namespace, not a pattern")
                 | None => Ok tt end = Ok tt ↔ opt_wf source_wf source).
  { destruct source as [s|]; [|by split]. rewrite ensure_key_Ok, forallb_Forall. unfold opt_wf, source_wf.
    split; [intros Ha ? [= <-]|intros Ha; specialize (Ha s eq_refl)];
      (eapply Forall_impl; [exact Ha|]; intros x; by rewrite ordinary_true). }
  rewrite Hsrc. clear Hsrc. unfold is_verbatim_type, key_port. cbn [k_ty k_endpoint k_chunk].
  split.
  - intros (Hd&Hs&Hty&Hport&Hverb&Hin&Hfacet).
    destruct (match ty with Some t => verbatim t | None => false end) eqn:Ev.
    + destruct ty as [t|]; [|done]. rewrite ensure_key_Ok, orb_true_iff, ordinary_true in Hty.
      destruct Hty as [Hty|Hty]; [apply segment_not_verbatim in Hty; congruence|].
      apply ensure_key_Ok in Hverb. destruct endpoint, chunk; try done. by constructor.
    + constructor; try done.
      * intros t ->. rewrite ensure_key_Ok, orb_true_iff, ordinary_true in Hty.
        destruct Hty as [|Hty%control_verbatim]; [done|congruence].
      * destruct endpoint as [slot|]; [|done]. cbn in Hport |- *. intros p [= <-].
        rewrite seq_Ok, ensure_key_Ok in Hport. by apply ordinary_true, Hport.
      * intros [slot ->]. cbn in Hport. rewrite seq_Ok, !ensure_key_Ok in Hport. destruct ty; [done|].
        by destruct Hport.
      * destruct chunk as [chunk|].
        -- apply (validate_facet_Ok (mkKey domain source endpoint ty (Some chunk))). split; [done|]. cbn.
           intros p ->. rewrite ensure_key_Ok, orb_true_iff, bool_decide_eq_true, negb_true_iff in Hin.
           destruct Hin as [|Hin]; [by left|right]. by destruct (schema_name chunk).
        -- constructor. intros p ->. by rewrite ensure_key_Ok in Hin.
  - inversion 1 as [? ? ctl Hd Hs Hc|? ? ? ? ? Hd Hs Hty Hp Het Hf]; subst; clear H.
    + rewrite (control_verbatim _ Hc). cbn. by rewrite ensure_key_Ok, Hc, orb_true_r.
    + split_and!; [done|done|..].
      * destruct ty as [t|]; [|done]. by rewrite ensure_key_Ok, orb_true_iff, ordinary_true; left; apply Hty.
      * destruct endpoint as [slot|]; [|done]. cbn. rewrite seq_Ok, !ensure_key_Ok, ordinary_true.
        split; [by apply Hp|]. destruct Het as [t ->]; [done|]. by apply ordinary_true, Hty.
      * destruct ty as [t|]; [|done]. by rewrite segment_not_verbatim by by apply Hty.
      * destruct endpoint as [[]|]; [done| |done]. rewrite ensure_key_Ok.
        destruct chunk as [chunk|]; [|by inversion Hf as [? He| | |]; destruct (He port)].
        apply (validate_facet_Ok (mkKey domain source (Some (InputSlot port)) ty (Some chunk))) in Hf as [_ Hf].
        rewrite orb_true_iff, bool_decide_eq_true, negb_true_iff.
        destruct (Hf port eq_refl) as [|Hn]; [by left|right]. by destruct (schema_name chunk).
      * destruct chunk as [chunk|]; [|done].
        by apply (validate_facet_Ok (mkKey domain source endpoint ty (Some chunk))) in Hf as [Hf _].
Qed.

(** ** Keys as text *)

(** The fields of a key are Rust strings. *)
Record key_typed (k : Key) : Prop := {
  kt_domain : str_ok (k_domain k);
  kt_source : opt_wf (λ s, Forall str_ok (split_on 47 s)) (k_source k);
  kt_port : opt_wf str_ok (key_port k);
  kt_ty : opt_wf str_ok (k_ty k);
  kt_facet name : k_chunk k = Some (SCHEMA_PREFIX ++ name) → str_ok name;
}.

Lemma chars_byte s b : str_ok s → (0 ≤ b ≤ 127)%Z → b ∈ s → b ∈ chars s.
Proof.
  unfold str_ok. intros Hs Hb. revert Hs. remember (length s) as n eqn:Hn. revert s Hn.
  induction (lt_wf n) as [n _ IH]. intros s Hn Hs Hin.
  assert (IH' : ∀ s', length s' < length s → utf8_valid s' = true → b ∈ s' → b ∈ chars s').
  { intros s' Hl Hv Hin'. eapply IH; [|done|done|done]. lia. }
  clear IH Hn. destruct s as [|a l1]; [by apply elem_of_nil in Hin|]. cbn [utf8_valid chars] in *.
  destruct (between 0 127 a) eqn:E1.
  { apply elem_of_cons in Hin as [->|Hin]; [by left|right]. apply IH'; [cbn; lia|done|done]. }
  destruct l1 as [|c l2]; [done|].
  destruct (between 194 223 a && _) eqn:E2.
  { utf8_ranges. right. apply IH'; [cbn; lia|done|]. rewrite !elem_of_cons in Hin.
    destruct Hin as [->|[->|?]]; [lia|lia|done]. }
  destruct l2 as [|d l3]; [done|].
  destruct (utf8_lead3 a c && _) eqn:E3.
  { right. apply IH'; [cbn; lia|done|]. rewrite !elem_of_cons in Hin. clear E2.
    destruct Hin as [->|[->|[->|?]]]; [..|done]; exfalso; utf8_ranges; lia. }
  destruct l3 as [|e l4]; [done|].
  destruct (utf8_lead4 a c && _ && _) eqn:E4; [|done].
  right. apply IH'; [cbn; lia|done|]. rewrite !elem_of_cons in Hin. clear E2 E3.
  destruct Hin as [->|[->|[->|[->|?]]]]; [..|done]; exfalso; utf8_ranges; lia.
Qed.

(** The signs that no segment contains. *)
Lemma segment_free b s : segment_wf s → str_ok s → b ∈ bytes_of "/*?#$@" → b ∉ s.
Proof.
  intros (_&_&_&Hall) Hs Hb Hin.
  destruct (Hall b) as [Hno _]; [|done]. apply chars_byte; [done| |done].
  revert Hb. clear. vm_compute bytes_of. rewrite !elem_of_cons, elem_of_nil. lia.
Qed.

Lemma join_on_app sep a b : a ≠ [] → b ≠ [] → join_on sep (a ++ b) = join_on sep a ++ sep :: join_on sep b.
Proof.
  intros Ha Hb. induction a as [|x a IH]; [done|]. destruct a as [|y a].
  - cbn [app join_on]. by destruct b.
  - change ((x :: y :: a) ++ b) with (x :: (y :: a) ++ b).
    change (join_on sep (x :: (y :: a) ++ b)) with (x ++ sep :: join_on sep ((y :: a) ++ b)).
    change (join_on sep (x :: y :: a)) with (x ++ sep :: join_on sep (y :: a)).
    by rewrite IH, <- app_assoc.
Qed.

(** The text of a key with [marker] as its direction. *)
Definition source_segments (k : Key) : list str :=
  match k_source k with Some s => split_on 47 s | None => [bytes_of "**"] end.
Definition tail_segments (marker : str) (k : Key) : list str :=
  if is_verbatim_type k then [default [] (k_ty k)]
  else [marker; default (bytes_of "*") (key_port k); default (bytes_of "*") (k_ty k)].
Definition facet_segments (k : Key) : list str :=
  match k_chunk k with Some chunk => split_on 47 chunk | None => [] end.
Definition key_segments (marker : str) (k : Key) : list str :=
  [KEY_ROOT; bytes_of "v3"; k_domain k] ++ source_segments k ++ tail_segments marker k ++ facet_segments k.

Lemma key_display_segments k : key_display k = join_on 47 (key_segments (direction k) k).
Proof.
  assert (Hs : source_segments k ≠ []).
  { unfold source_segments. destruct (k_source k); [apply split_on_nonempty|done]. }
  assert (Ht : tail_segments (direction k) k ≠ []) by (unfold tail_segments; by destruct (is_verbatim_type k)).
  unfold key_segments. rewrite join_on_app; [|done|by destruct (source_segments k)].
  rewrite join_on_app; [|done|by destruct (tail_segments _ _)].
  assert (Hsrc : join_on 47 (source_segments k) = default (bytes_of "**") (k_source k)).
  { unfold source_segments. destruct (k_source k); [apply join_split|done]. }
  rewrite Hsrc.
  assert (Htail : join_on 47 (tail_segments (direction k) k ++ facet_segments k) =
    (if is_verbatim_type k then default [] (k_ty k)
     else direction k ++ bytes_of "/" ++ default (bytes_of "*") (key_port k) ++ bytes_of "/" ++
          default (bytes_of "*") (k_ty k)) ++
    match k_chunk k with Some chunk => bytes_of "/" ++ chunk | None => [] end).
  { assert (Hj : join_on 47 (tail_segments (direction k) k) =
      (if is_verbatim_type k then default [] (k_ty k)
       else direction k ++ bytes_of "/" ++ default (bytes_of "*") (key_port k) ++ bytes_of "/" ++
            default (bytes_of "*") (k_ty k))).
    { unfold tail_segments. by destruct (is_verbatim_type k). }
    unfold facet_segments. destruct (k_chunk k) as [chunk|].
    - rewrite join_on_app; [|done|apply split_on_nonempty]. by rewrite join_split, Hj.
    - by rewrite !app_nil_r, Hj. }
  rewrite Htail. unfold key_display. cbn [join_on]. by rewrite <- !app_assoc.
Qed.

Ltac in_signs := vm_compute bytes_of; set_solver.

(** The parts of the text of a valid key. *)
Record text_ok (k : Key) : Prop := {
  to_domain : 47%Z ∉ k_domain k;
  to_source : Forall (λ s, 47%Z ∉ s ∧ verbatim s = false) (source_segments k);
  to_tail marker : 47%Z ∉ marker → Forall (λ s, 47%Z ∉ s) (tail_segments marker k);
  to_facet : Forall (λ s, 47%Z ∉ s) (facet_segments k);
}.

Lemma opt_free b o : opt_wf segment_wf o → opt_wf str_ok o → b ∈ bytes_of "/?#$@" →
  b ∉ default (bytes_of "*") o.
Proof.
  intros Hw Ht Hb. destruct o as [s|]; cbn [default].
  - apply segment_free; [by apply Hw|by apply Ht|]. revert Hb. vm_compute bytes_of. set_solver.
  - revert Hb. vm_compute bytes_of. rewrite !elem_of_cons, elem_of_nil. lia.
Qed.

Lemma key_text_ok k : key_wf k → key_typed k → text_ok k.
Proof.
  intros Hk Ht. assert (Hdom : segment_wf (k_domain k)) by by destruct Hk.
  assert (Hsrc : opt_wf source_wf (k_source k)) by by destruct Hk. split.
  - apply segment_free; [done|apply Ht|in_signs].
  - unfold source_segments. destruct (k_source k) as [s|].
    + specialize (Hsrc s eq_refl). apply Forall_forall. intros seg Hin. split; [by eapply split_on_sep|].
      apply segment_not_verbatim. unfold source_wf in Hsrc. rewrite Forall_forall in Hsrc. by apply Hsrc.
    + repeat constructor. vm_compute. set_solver.
  - intros marker Hm. unfold tail_segments, is_verbatim_type. destruct Hk as [d s ctl _ _ Hc|d s e ty c _ _ Hty Hp Het Hf].
    + cbn. rewrite (control_verbatim _ Hc). repeat constructor.
      destruct (control_cases _ Hc) as [->|[->| ->]]; vm_compute; set_solver.
    + cbn [k_ty]. destruct ty as [t|]; [rewrite (segment_not_verbatim t) by by apply Hty|];
        (repeat constructor; [done|apply opt_free; [done|apply Ht|in_signs]|]).
      * apply (opt_free _ (Some t)); [done|apply Ht|in_signs].
      * apply (opt_free _ None); [done|done|in_signs].
  - unfold facet_segments. destruct (k_chunk k) as [c|]; [|constructor].
    apply Forall_forall. intros s. apply split_on_sep.
Qed.

Lemma key_segments_free marker k :
  key_wf k → key_typed k → 47%Z ∉ marker → Forall (λ s, 47%Z ∉ s) (key_segments marker k).
Proof.
  intros Hk Ht Hm. destruct (key_text_ok k Hk Ht) as [Hd Hs Htail Hf]. unfold key_segments.
  apply Forall_app. split; [repeat constructor; [vm_compute; set_solver..|done]|].
  apply Forall_app. split; [eapply Forall_impl; [exact Hs|]; by intros ? []|].
  apply Forall_app. split; [by apply Htail|done].
Qed.

Lemma split_key marker k :
  key_wf k → key_typed k → 47%Z ∉ marker → split_on 47 (join_on 47 (key_segments marker k)) = key_segments marker k.
Proof. intros. by apply split_join; [|apply key_segments_free]. Qed.

Lemma direction_cases k : direction k = OUT ∨ direction k = IN.
Proof. unfold direction. destruct (k_endpoint k) as [[]|]; [case_bool_decide| |case_bool_decide]; auto. Qed.

Lemma direction_free k : 47%Z ∉ direction k.
Proof. destruct (direction_cases k) as [->| ->]; vm_compute; set_solver. Qed.

(** ** Parsing *)

(** The markers under which the text of a key is read back as the key. *)
Definition markers (k : Key) : list str :=
  if is_verbatim_type k then [default [] (k_ty k)]
  else if wildcard_schema k then [OUT; IN] else [direction k].

Lemma wildcard_schema_direction k : key_wf k → wildcard_schema k = true → direction k = OUT.
Proof.
  unfold wildcard_schema, direction. intros _. destruct (k_endpoint k); [done|].
  destruct (k_chunk k) as [c|]; [|done]. cbn. intros Hs. rewrite bool_decide_eq_false_2; [done|].
  intros [= ->]. by vm_compute in Hs.
Qed.

(** What the facet of a key is, by its segments. *)
Lemma facet_list e chunk facets :
  facet_wf e chunk → Forall (λ s, 47%Z ∉ s) facets →
  chunk = (if 0 <? length facets then Some (join_on 47 facets) else None) →
  facets = match chunk with Some c => split_on 47 c | None => [] end.
Proof.
  intros Hf Hall ->. destruct facets as [|f facets]; [done|]. cbn [length Nat.ltb Nat.leb].
  by rewrite split_join.
Qed.

Lemma split_verbatim c : c ∈ [SERVICE_CHUNK; SUB_CHUNK] → split_on 47 c = [c].
Proof. intros [->|[->|[]%elem_of_nil]%elem_of_cons]%elem_of_cons; by vm_compute. Qed.

Lemma split_schema name : 47%Z ∉ name → split_on 47 (SCHEMA_PREFIX ++ name) = [SCHEMA_CHUNK; name].
Proof.
  intros Hn. change (SCHEMA_PREFIX ++ name) with (SCHEMA_CHUNK ++ 47%Z :: name).
  rewrite split_on_app by (vm_compute; set_solver). by rewrite split_on_none.
Qed.

(** The shapes of the facet of a valid key, with its segments. *)
Inductive facet_shape (e : option EndpointSlot) : option str → list str → Prop :=
  | shape_none : (∀ p, e ≠ Some (InputSlot p)) → facet_shape e None []
  | shape_service : (∀ p, e ≠ Some (InputSlot p)) → facet_shape e (Some SERVICE_CHUNK) [SERVICE_CHUNK]
  | shape_sub : (∀ p, e ≠ Some (OutputSlot p)) → facet_shape e (Some SUB_CHUNK) [SUB_CHUNK]
  | shape_schema name segs : hd_error segs = Some SCHEMA_CHUNK → (47%Z ∉ name → segs = [SCHEMA_CHUNK; name]) →
      (name = bytes_of "*" ∨ segment_wf name) →
      facet_shape e (Some (SCHEMA_PREFIX ++ name)) segs.

Lemma facet_shape_of e chunk :
  facet_wf e chunk → facet_shape e chunk match chunk with Some c => split_on 47 c | None => [] end.
Proof.
  intros [e' He|e' He|e' He|e' name Hn]; [by constructor|..].
  - rewrite split_verbatim by by left. by constructor.
  - rewrite split_verbatim by (right; by left). by constructor.
  - constructor; [|by apply split_schema|done].
    change (SCHEMA_PREFIX ++ name) with (SCHEMA_CHUNK ++ 47%Z :: name).
    by rewrite split_on_app by (vm_compute; set_solver).
Qed.

Lemma shape_schema_name e chunk segs :
  facet_shape e chunk segs →
  match chunk with Some c => negb (is_none (schema_name c)) | None => false end =
  bool_decide (head segs = Some SCHEMA_CHUNK) ∧
  bool_decide (chunk = Some SUB_CHUNK) = bool_decide (head segs = Some SUB_CHUNK).
Proof.
  intros [| | |name segs' Hh _ _]; [by split; vm_compute..|].
  assert (Hs : schema_name (SCHEMA_PREFIX ++ name) = Some name) by by apply schema_name_Some.
  rewrite Hs. split; cbn [is_none negb].
  - symmetry. apply bool_decide_eq_true. by destruct segs'.
  - assert (Hc : head segs' = Some SCHEMA_CHUNK) by by destruct segs'. rewrite Hc.
    rewrite !bool_decide_eq_false_2; [done| |]; intros [= He].
Qed.

Lemma endpoint_facet k :
  key_wf k → is_verbatim_type k = false → facet_wf (k_endpoint k) (k_chunk k).
Proof.
  intros [? ? ctl _ _ Hc|] Hv; [|done]. unfold is_verbatim_type in Hv. cbn in Hv.
  by rewrite (control_verbatim _ Hc) in Hv.
Qed.

(** Reading the tail back. *)
Lemma parse_tail_sound domain source marker rest e ty chunk :
  let k := mkKey domain source e ty chunk in
  key_wf k → Forall (λ s, 47%Z ∉ s) rest → parse_tail marker rest = Some (e, ty, chunk) →
  marker :: rest = tail_segments marker k ++ facet_segments k ∧ marker ∈ markers k.
Proof.
  intros k Hk Hfree. unfold parse_tail. destruct (control marker && (length rest =? 0)) eqn:Ec.
  { apply andb_true_iff in Ec as [Hc Hl]. apply Nat.eqb_eq, nil_length_inv in Hl as ->. intros [= <- <- <-].
    unfold tail_segments, facet_segments, markers, is_verbatim_type, k. cbn.
    rewrite (control_verbatim _ Hc). split; [done|by left]. }
  destruct (bool_decide (marker = OUT) || bool_decide (marker = IN)) eqn:Em; [|done].
  destruct rest as [|port [|ty' facets]]; [done..|]. apply List.Forall_cons_iff in Hfree as [_ Hfree].
  apply List.Forall_cons_iff in Hfree as [_ Hfree].
  destruct (_ || _ || _) eqn:E1; [done|]. destruct (negb (bool_decide (marker = OUT)) && _) eqn:E2; [done|].
  intros Heq.
  assert (He : (if bool_decide (port = bytes_of "*") then None
                else if bool_decide (marker = OUT) then Some (OutputSlot port) else Some (InputSlot port)) = e)
    by congruence.
  assert (Hty : wildcard_to_none ty' = ty) by congruence.
  assert (Hch : (if 0 <? length facets then Some (join_on 47 facets) else None) = chunk) by congruence.
  clear Heq.
  rewrite !orb_false_iff, !negb_false_iff, !orb_true_iff in E1. destruct E1 as [[Hp Ht] Hout].
  rewrite !bool_decide_eq_true, !ordinary_true in Hp, Ht.
  assert (Hnv : is_verbatim_type k = false).
  { unfold is_verbatim_type, k. cbn. rewrite <- Hty. unfold wildcard_to_none.
    destruct (bool_decide (ty' = bytes_of "*")) eqn:Et; breflect_in Et; [done|].
    destruct Ht as [Ht|Ht]; [done|]. by apply segment_not_verbatim. }
  pose proof (endpoint_facet k Hk Hnv) as Hf. cbn in Hf.
  assert (Hfs : facets = facet_segments k) by (symmetry in Hch; by apply (facet_list e chunk)).
  pose proof (facet_shape_of _ _ Hf) as Hshape. change (match chunk with Some c => split_on 47 c | None => [] end)
    with (facet_segments k) in Hshape. rewrite <- Hfs in Hshape.
  apply shape_schema_name in Hshape as [Hsch Hsub]. split.
  - unfold tail_segments. rewrite Hnv, <- Hfs. unfold key_port, k. cbn [k_ty k_endpoint].
    assert (default (bytes_of "*") ty = ty') as ->.
    { rewrite <- Hty. unfold wildcard_to_none.
      by destruct (bool_decide (ty' = bytes_of "*")) eqn:Et; breflect_in Et. }
    assert (default (bytes_of "*") (slot_port <$> e) = port) as ->; [|done].
    rewrite <- He. destruct (bool_decide (port = bytes_of "*")) eqn:Et; breflect_in Et; [done|].
    by destruct (bool_decide (marker = OUT)).
  - unfold markers. rewrite Hnv. unfold wildcard_schema, direction, k. cbn [k_endpoint k_chunk].
    rewrite Hsch, Hsub. apply orb_true_iff in Em.
    destruct (bool_decide (marker = OUT)) eqn:Eo; breflect_in Eo.
    + cbn [andb] in Hout. rewrite Hout, Eo. destruct (is_none e && _); [by left|].
      rewrite <- He. destruct (bool_decide (port = bytes_of "*")); cbn [is_none andb]; by left.
    + destruct Em as [|Em]; [done|]. breflect_in Em. rewrite Em in *. clear Eo. cbn [negb andb] in E2.
      rewrite negb_false_iff, orb_true_iff in E2.
      destruct (bool_decide (port = bytes_of "*")); [|subst e; cbn [is_none andb]; by left].
      subst e. cbn [is_none andb]. destruct E2 as [E2|E2].
      * rewrite E2. breflect_in E2. rewrite E2. cbn [negb]. by left.
      * rewrite E2. right. by left.
Qed.

Lemma markers_cases k marker :
  key_wf k → marker ∈ markers k →
  is_verbatim_type k = true ∧ control marker = true ∧ k_ty k = Some marker ∧ k_endpoint k = None ∧ k_chunk k = None ∨
  is_verbatim_type k = false ∧ (marker = direction k ∨ wildcard_schema k = true ∧ marker = IN).
Proof.
  intros Hk. unfold markers. destruct (is_verbatim_type k) eqn:Ev.
  - intros ->%list_elem_of_singleton. left. destruct Hk as [d s ctl _ _ Hc|d s e ty c _ _ Hty _ _ _].
    + by split_and!.
    + exfalso. unfold is_verbatim_type in Ev. cbn in Ev. destruct ty as [t|]; [|done].
      rewrite segment_not_verbatim in Ev; [done|]. by apply Hty.
  - intros Hin. right. split; [done|]. destruct (wildcard_schema k) eqn:Ew; [|by apply list_elem_of_singleton in Hin; left].
    apply elem_of_cons in Hin as [->|Hin]; [left; by rewrite wildcard_schema_direction|].
    right. by apply list_elem_of_singleton in Hin.
Qed.

Lemma wildcard_to_none_default o : opt_wf segment_wf o → wildcard_to_none (default (bytes_of "*") o) = o.
Proof.
  intros Ho. unfold wildcard_to_none. destruct o as [s|]; cbn [default]; [|done].
  rewrite bool_decide_eq_false_2; [done|]. apply segment_not_star. by apply Ho.
Qed.

Lemma slot_ordinary o :
  opt_wf segment_wf o →
  bool_decide (default (bytes_of "*") o = bytes_of "*") || ordinary_segment (default (bytes_of "*") o) = true.
Proof.
  intros Ho. destruct o as [s|]; cbn [default]; [|done]. apply orb_true_iff. right.
  apply ordinary_true. by apply Ho.
Qed.

Lemma shape_head e chunk segs :
  facet_shape e chunk segs →
  (head segs = Some SUB_CHUNK → ∀ p, e ≠ Some (OutputSlot p)) ∧
  (∀ p, e = Some (InputSlot p) → head segs = Some SUB_CHUNK ∨ head segs = Some SCHEMA_CHUNK).
Proof.
  intros [He|He|He|name segs' Hh _ _].
  - split; [done|]. intros p Hp. by destruct (He p).
  - split; [by intros Hs; vm_compute in Hs|]. intros p Hp. by destruct (He p).
  - split; [done|]. by left.
  - assert (Hc : head segs' = Some SCHEMA_CHUNK) by by destruct segs'. rewrite Hc.
    split; [by intros Hs; vm_compute in Hs|]. by right.
Qed.

(** The direction of a valid address, by its facet. *)
Lemma marker_facet k marker :
  key_wf k → is_verbatim_type k = false → marker = direction k ∨ wildcard_schema k = true ∧ marker = IN →
  (marker = OUT ∧ (∀ p, k_endpoint k ≠ Some (InputSlot p)) ∧ head (facet_segments k) ≠ Some SUB_CHUNK) ∨
  (marker = IN ∧ (∀ p, k_endpoint k ≠ Some (OutputSlot p)) ∧
   (head (facet_segments k) = Some SUB_CHUNK ∨ head (facet_segments k) = Some SCHEMA_CHUNK)).
Proof.
  intros Hk Hv Hm. pose proof (facet_shape_of _ _ (endpoint_facet k Hk Hv)) as Hs.
  change (match k_chunk k with Some c => split_on 47 c | None => [] end) with (facet_segments k) in Hs.
  destruct (shape_schema_name _ _ _ Hs) as [Hsch Hsub]. destruct (shape_head _ _ _ Hs) as [Hout Hin].
  unfold wildcard_schema, direction in Hm. rewrite Hsch, Hsub in Hm.
  destruct Hm as [->|[Hw ->]].
  - destruct (k_endpoint k) as [[p|p]|] eqn:Ee.
    + destruct (bool_decide (head (facet_segments k) = Some SUB_CHUNK)) eqn:E; breflect_in E; [|by left].
      by destruct (Hout E p).
    + right. split_and!; [done|done|by apply (Hin p)].
    + destruct (bool_decide (head (facet_segments k) = Some SUB_CHUNK)) eqn:E; breflect_in E.
      * right. split_and!; [done|done|by left].
      * left. by split_and!.
  - apply andb_true_iff in Hw as [He Hw]. breflect_in Hw. right. split; [done|].
    split; [by destruct (k_endpoint k)|by right].
Qed.

Lemma parse_tail_complete k marker :
  key_wf k → Forall (λ s, 47%Z ∉ s) (facet_segments k) → marker ∈ markers k →
  ∃ rest, tail_segments marker k ++ facet_segments k = marker :: rest ∧
          parse_tail marker rest = Some (k_endpoint k, k_ty k, k_chunk k).
Proof.
  intros Hk Hfree Hm. destruct (markers_cases k marker Hk Hm) as [(Hv&Hc&Ht&He&Hch)|[Hv Hm']].
  { exists []. unfold tail_segments, facet_segments, parse_tail. rewrite Hv, Ht, He, Hch, Hc. by split. }
  exists (default (bytes_of "*") (key_port k) :: default (bytes_of "*") (k_ty k) :: facet_segments k).
  unfold tail_segments. rewrite Hv. split; [done|]. unfold parse_tail.
  assert (Hnc : control marker = false).
  { destruct (marker_facet k marker Hk Hv Hm') as [(->&_)|(->&_)]; by vm_compute. }
  rewrite Hnc. cbn [andb].
  assert (opt_wf segment_wf (k_ty k) ∧ opt_wf segment_wf (key_port k)) as [Hty Hport].
  { destruct Hk as [? ? ctl _ _ Hctl|]; [|by split]. unfold is_verbatim_type in Hv. cbn in Hv.
    by rewrite (control_verbatim _ Hctl) in Hv. }
  rewrite (slot_ordinary _ Hty), (slot_ordinary _ Hport), (wildcard_to_none_default _ Hty). cbn [negb orb].
  assert (Hfs : (if 0 <? length (facet_segments k) then Some (join_on 47 (facet_segments k)) else None) = k_chunk k).
  { unfold facet_segments. destruct (k_chunk k) as [c|]; [|done]. rewrite join_split.
    by destruct (split_on 47 c) eqn:Es; [apply split_on_nonempty in Es|]. }
  rewrite Hfs.
  assert (Hend : ∀ (slot : str → EndpointSlot), (∀ p, k_endpoint k = Some p → p = slot (slot_port p)) →
    (if bool_decide (default (bytes_of "*") (key_port k) = bytes_of "*") then None
     else Some (slot (default (bytes_of "*") (key_port k)))) = k_endpoint k).
  { intros slot Hslot. unfold key_port in *. destruct (k_endpoint k) as [p|]; cbn [fmap option_fmap option_map default] in *.
    - rewrite bool_decide_eq_false_2 by (apply segment_not_star; by apply Hport).
      f_equal. symmetry. by apply Hslot.
    - by rewrite bool_decide_eq_true_2. }
  destruct (marker_facet k marker Hk Hv Hm') as [(->&Hin&Hsub)|(->&Hout&Hsub)].
  - rewrite bool_decide_eq_true_2 by done. cbn [orb andb negb]. rewrite (bool_decide_eq_false_2 _ Hsub).
    f_equal. f_equal. f_equal. apply Hend. intros [p|p] Hp; [done|by destruct (Hin p)].
  - rewrite (bool_decide_eq_false_2 (IN = OUT)) by (by vm_compute). rewrite (bool_decide_eq_true_2 (IN = IN)) by done.
    cbn [orb andb negb].
    assert (bool_decide (head (facet_segments k) = Some SUB_CHUNK) ||
            bool_decide (head (facet_segments k) = Some SCHEMA_CHUNK) = true) as ->.
    { rewrite orb_true_iff, !bool_decide_eq_true. done. }
    cbn [negb]. f_equal. f_equal. f_equal. apply Hend. intros [p|p] Hp; [by destruct (Hout p)|done].
Qed.

(** The text of a key under a marker. *)
Definition key_text (k : Key) (marker : str) : str := join_on 47 (key_segments marker k).

Lemma marker_verbatim k marker :
  key_wf k → marker ∈ markers k → verbatim marker = true ∧ 47%Z ∉ marker.
Proof.
  intros Hk [(_&Hc&_)|[_ [->|[_ ->]]]]%markers_cases; [| |by vm_compute; set_solver|done].
  - split; [by apply control_verbatim|].
    destruct (control_cases _ Hc) as [->|[->| ->]]; vm_compute; set_solver.
  - split; [|apply direction_free]. by destruct (direction_cases k) as [->| ->].
Qed.

Lemma source_segments_nonempty k : source_segments k ≠ [].
Proof. unfold source_segments. destruct (k_source k); [apply split_on_nonempty|done]. Qed.

Lemma source_of_segments k :
  opt_wf source_wf (k_source k) →
  (if bool_decide (join_on 47 (source_segments k) = bytes_of "**") then None
   else Some (join_on 47 (source_segments k))) = k_source k.
Proof.
  intros Hs. unfold source_segments. destruct (k_source k) as [s|]; [|done]. rewrite join_split.
  rewrite bool_decide_eq_false_2; [done|]. intros ->. specialize (Hs _ eq_refl).
  unfold source_wf in Hs. change (split_on 47 (bytes_of "**")) with [bytes_of "**"] in Hs.
  apply List.Forall_cons_iff in Hs as [Hs _]. by destruct (segment_not_star _ Hs).
Qed.

Lemma parse_text k marker :
  key_wf k → key_typed k → marker ∈ markers k → key_parse (key_text k marker) = Some k.
Proof.
  intros Hk Ht Hm. destruct (marker_verbatim k marker Hk Hm) as [Hv Hfree].
  destruct (key_text_ok k Hk Ht) as [_ Hs _ Hf].
  unfold key_parse, key_text. rewrite split_key by done. unfold key_segments. cbn [app].
  rewrite !bool_decide_eq_true_2 by done. cbn [negb orb].
  destruct (parse_tail_complete k marker Hk Hf Hm) as (rest&Htail&Hp). rewrite Htail.
  assert (Hpos : position verbatim (source_segments k ++ marker :: rest) = Some (length (source_segments k))).
  { apply position_Some. exists (source_segments k), marker, rest. split_and!; [done|done|done|].
    eapply Forall_impl; [exact Hs|]. by intros ? []. }
  rewrite Hpos. destruct (length (source_segments k)) as [|n] eqn:Hlen.
  { apply nil_length_inv in Hlen. by apply source_segments_nonempty in Hlen. }
  rewrite <- Hlen, take_app_length, drop_app_length, Hp.
  assert (Hsrc : opt_wf source_wf (k_source k)) by by destruct Hk. rewrite source_of_segments by done.
  destruct k as [d s e t c]. cbn [k_domain k_endpoint k_ty k_chunk k_source].
  by rewrite (proj2 (key_validate_Ok _) Hk).
Qed.

Lemma key_segments_tail marker rest k :
  marker :: rest = tail_segments marker k ++ facet_segments k →
  key_segments marker k = [KEY_ROOT; bytes_of "v3"; k_domain k] ++ source_segments k ++ marker :: rest.
Proof. intros Ht. rewrite Ht. done. Qed.

Lemma parse_sound t k :
  key_parse t = Some k → key_wf k ∧ ∃ marker, marker ∈ markers k ∧ t = key_text k marker.
Proof.
  unfold key_parse. destruct (split_on 47 t) as [|root [|version [|domain tail]]] eqn:Es; [done..|].
  assert (Hfree : Forall (λ s, 47%Z ∉ s) (root :: version :: domain :: tail)).
  { rewrite <- Es. apply Forall_forall. intros s. apply split_on_sep. }
  destruct (_ || _) eqn:Er; [done|]. apply orb_false_iff in Er as [Hroot Hver].
  apply negb_false_iff, bool_decide_eq_true in Hroot as ->. apply negb_false_iff, bool_decide_eq_true in Hver as ->.
  destruct (position verbatim tail) as [[|n]|] eqn:Hp; [done| |done].
  apply position_Some in Hp as (segs&marker&rest&->&Hlen&Hv&Hnv).
  rewrite <- Hlen, take_app_length, drop_app_length.
  destruct (parse_tail marker rest) as [[[e ty] chunk]|] eqn:Ep; [|done].
  remember (mkKey domain _ e ty chunk) as k' eqn:Hk'.
  destruct (key_validate k') as [[]|] eqn:Ev; [|done]. intros [= <-]. subst k'. apply key_validate_Ok in Ev.
  split; [done|].
  assert (Hrest : Forall (λ s, 47%Z ∉ s) rest ∧ Forall (λ s, 47%Z ∉ s) segs).
  { do 3 apply List.Forall_cons_iff, proj2 in Hfree. apply Forall_app in Hfree as [? Hfree].
    by apply List.Forall_cons_iff, proj2 in Hfree. }
  destruct Hrest as [Hrest Hsegs].
  destruct (parse_tail_sound _ _ _ _ _ _ _ Ev Hrest Ep) as [Htail Hmark].
  exists marker. split; [exact Hmark|]. unfold key_text. rewrite (key_segments_tail marker rest _ Htail).
  rewrite <- (join_split 47 t), Es. f_equal. cbn [app k_domain]. do 4 f_equal.
  unfold source_segments. cbn [k_source].
  assert (Hne : segs ≠ []) by (intros ->; cbn in Hlen; lia).
  destruct (bool_decide (join_on 47 segs = bytes_of "**")) eqn:E; breflect_in E.
  - rewrite <- (split_join 47 segs) by done. by rewrite E.
  - by rewrite split_join.
Qed.

(** ** The selectors *)

(** A string after a slash. *)
Definition slashed (segs : list str) : str := segs ≫= λ s, 47%Z :: s.

Lemma join_slashed s segs : join_on 47 (s :: segs) = s ++ slashed segs.
Proof.
  revert s. induction segs as [|x segs IH]; intros s; [by rewrite app_nil_r|].
  change (join_on 47 (s :: x :: segs)) with (s ++ 47%Z :: join_on 47 (x :: segs)). by rewrite IH.
Qed.

Lemma replace_skip n from to a s : n = length a → replace_from n from to (a ++ s) = replace_from 0 from to s.
Proof. intros ->. induction a as [|b a IH]; cbn; [done|]. exact IH. Qed.

(** A text without the first byte of the pattern. *)
Lemma replace_plain b from to a s :
  b ∉ a → replace_from 0 (b :: from) to (a ++ s) = a ++ replace_from 0 (b :: from) to s.
Proof.
  induction a as [|c a IH]; intros Hb; [done|]. apply not_elem_of_cons in Hb as [Hc Hb]. cbn [app replace_from].
  destruct (strip_prefix (b :: from) (c :: a ++ s)) as [rest|] eqn:E; [|by rewrite IH].
  apply strip_prefix_Some in E. by injection E as <- _.
Qed.

(** Every marker in the middle is replaced. *)
Fixpoint subst_out (segs : list str) : list str :=
  match segs with
  | s :: ((x :: rest) as tail) => if bool_decide (s = OUT) then IN :: x :: subst_out rest else s :: subst_out tail
  | _ => segs
  end.

Lemma subst_out_nil : subst_out [] = [].
Proof. done. Qed.

Lemma subst_out_cons s segs : s ≠ OUT → subst_out (s :: segs) = s :: subst_out segs.
Proof. intros Hs. destruct segs as [|x segs]; [done|]. cbn. by rewrite bool_decide_eq_false_2. Qed.

Lemma subst_out_hit x segs : subst_out (OUT :: x :: segs) = IN :: x :: subst_out segs.
Proof. cbn. by rewrite bool_decide_eq_true_2. Qed.

Lemma subst_out_app a b : OUT ∉ a → subst_out (a ++ b) = a ++ subst_out b.
Proof.
  induction a as [|s a IH]; intros Ha; [done|]. apply not_elem_of_cons in Ha as [Hs Ha].
  cbn [app]. rewrite subst_out_cons by done. by rewrite IH.
Qed.

Lemma subst_out_none segs : OUT ∉ segs → subst_out segs = segs.
Proof. intros Hs. rewrite <- (app_nil_r segs) at 1. by rewrite subst_out_app, app_nil_r. Qed.

(** A marker at the front of a text. *)
Lemma out_front s segs rest :
  47%Z ∉ s → s ++ slashed segs = OUT ++ 47%Z :: rest → s = OUT ∧ segs ≠ [].
Proof.
  intros Hs Heq. destruct segs as [|x segs].
  - cbn in Heq. rewrite app_nil_r in Heq. subst s. exfalso. apply Hs. set_solver.
  - split; [|done]. change (slashed (x :: segs)) with (47%Z :: x ++ slashed segs) in Heq.
    assert (Hsp : split_on 47 (s ++ 47%Z :: (x ++ slashed segs)) = split_on 47 (OUT ++ 47%Z :: rest)) by (by f_equal).
    rewrite split_on_app in Hsp by done. rewrite split_on_app in Hsp by (vm_compute; set_solver).
    by injection Hsp.
Qed.

Lemma replace_slashed segs :
  Forall (λ s, 47%Z ∉ s) segs →
  replace_from 0 (bytes_of "/@out/") (bytes_of "/@in/") (slashed segs) = slashed (subst_out segs).
Proof.
  remember (length segs) as n eqn:Hn. revert segs Hn.
  induction (lt_wf n) as [n _ IH]. intros segs -> Hall.
  destruct segs as [|s segs]; [done|]. apply List.Forall_cons_iff in Hall as [Hs Hall].
  change (slashed (s :: segs)) with ((47%Z :: s) ++ slashed segs). cbn [app replace_from].
  destruct (strip_prefix (bytes_of "/@out/") (47%Z :: s ++ slashed segs)) as [rest|] eqn:E.
  - apply strip_prefix_Some in E.
    assert (Heq : s ++ slashed segs = OUT ++ 47%Z :: rest) by (by injection E as ->).
    destruct (out_front s segs rest Hs Heq) as [-> Hne]. destruct segs as [|x segs]; [done|].
    apply List.Forall_cons_iff in Hall as [Hx Hall].
    cbn [subst_out]. rewrite bool_decide_eq_true_2 by done.
    assert (Hsl : slashed (x :: segs) = 47%Z :: x ++ slashed segs) by done.
    rewrite Hsl. change (OUT ++ 47%Z :: x ++ slashed segs) with (bytes_of "@out/" ++ x ++ slashed segs).
    rewrite replace_skip by done. change (bytes_of "/@out/") with (47%Z :: bytes_of "@out/").
    rewrite replace_plain by done. change (47%Z :: bytes_of "@out/") with (bytes_of "/@out/").
    rewrite (IH (length segs)); [done|cbn; lia|done|done].
  - assert (Hsub : subst_out (s :: segs) = s :: subst_out segs).
    { destruct segs as [|x segs]; [done|]. apply subst_out_cons. intros ->.
      assert (Hsome : strip_prefix (bytes_of "/@out/") (47%Z :: OUT ++ slashed (x :: segs)) = Some (x ++ slashed segs))
        by by apply strip_prefix_Some.
      congruence. }
    rewrite Hsub. change (slashed (s :: subst_out segs)) with (47%Z :: s ++ slashed (subst_out segs)). f_equal.
    change (bytes_of "/@out/") with (47%Z :: bytes_of "@out/"). rewrite replace_plain by done.
    change (47%Z :: bytes_of "@out/") with (bytes_of "/@out/"). by rewrite (IH (length segs)); [|cbn; lia|..].
Qed.

Lemma verbatim_out l : Forall (λ s, verbatim s = false) l → OUT ∉ l.
Proof. intros Hl Hin. rewrite Forall_forall in Hl. by specialize (Hl _ Hin). Qed.

Lemma schema_name_wf e name :
  facet_wf e (Some (SCHEMA_PREFIX ++ name)) → name = bytes_of "*" ∨ segment_wf name.
Proof.
  intros Hf. remember (Some (SCHEMA_PREFIX ++ name)) as chunk eqn:Ec.
  destruct Hf as [e He|e He|e He|e n Hn]; [done|..].
  - exfalso. assert (Hs : schema_name SERVICE_CHUNK = Some name) by (apply schema_name_Some; congruence).
    by vm_compute in Hs.
  - exfalso. assert (Hs : schema_name SUB_CHUNK = Some name) by (apply schema_name_Some; congruence).
    by vm_compute in Hs.
  - by assert (name = n) as -> by (apply (app_inv_head SCHEMA_PREFIX); congruence).
Qed.

Lemma schema_name_free e name :
  facet_wf e (Some (SCHEMA_PREFIX ++ name)) → str_ok name → 47%Z ∉ name.
Proof.
  intros [->|Hn]%schema_name_wf Ht; [vm_compute; set_solver|]. apply segment_free; [done|done|in_signs].
Qed.

(** The facet of a valid address, in full. *)
Lemma facet_split e chunk :
  facet_wf e chunk → (∀ name, chunk = Some (SCHEMA_PREFIX ++ name) → str_ok name) →
  match chunk with
  | Some c =>
      split_on 47 c = match schema_name c with Some name => [SCHEMA_CHUNK; name] | None => [c] end ∧
      (schema_name c = None → c = SERVICE_CHUNK ∨ c = SUB_CHUNK)
  | None => True
  end.
Proof.
  intros Hf Ht. destruct chunk as [c|]; [|done].
  destruct (schema_name c) as [name|] eqn:Es.
  - split; [|done]. apply schema_name_Some in Es as ->. apply split_schema.
    eapply schema_name_free; [done|]. by apply Ht.
  - assert (Hc : c = SERVICE_CHUNK ∨ c = SUB_CHUNK).
    { remember (Some c) as chunk eqn:Ec. destruct Hf as [|e He|e He|e n Hn]; [done|left; congruence|right; congruence|].
      assert (Hs : schema_name c = Some n) by (apply schema_name_Some; congruence). congruence. }
    split; [|done]. apply split_verbatim. destruct Hc as [->| ->]; set_solver.
Qed.

Lemma facet_no_out k : key_wf k → key_typed k → OUT ∉ facet_segments k.
Proof.
  intros Hk Ht. destruct (is_verbatim_type k) eqn:Hv.
  - destruct (markers_cases k (default [] (k_ty k)) Hk) as [(_&_&_&_&Hc)|[? _]]; [|unfold facet_segments; rewrite Hc; set_solver|congruence].
    unfold markers. rewrite Hv. by left.
  - pose proof (endpoint_facet k Hk Hv) as Hf. pose proof (facet_split _ _ Hf (kt_facet _ Ht)) as Hs.
    unfold facet_segments. destruct (k_chunk k) as [c|] eqn:Ec; [|set_solver]. destruct Hs as [-> Hn].
    destruct (schema_name c) as [name|] eqn:Es.
    + apply schema_name_Some in Es as ->.
      intros [Heq|[Heq|[]%elem_of_nil]%elem_of_cons]%elem_of_cons; [by vm_compute in Heq|]. subst name.
      destruct (schema_name_wf _ _ Hf) as [Hw|Hw]; [by vm_compute in Hw|by apply segment_not_verbatim in Hw].
    + intros Heq%list_elem_of_singleton. destruct (Hn eq_refl) as [->| ->]; by vm_compute in Heq.
Qed.

Lemma endpoint_wf k :
  key_wf k → is_verbatim_type k = false →
  opt_wf segment_wf (k_ty k) ∧ opt_wf segment_wf (key_port k) ∧ (is_Some (k_endpoint k) → is_Some (k_ty k)).
Proof.
  intros [? ? ctl _ _ Hc|] Hv; [|by split_and!]. unfold is_verbatim_type in Hv. cbn in Hv.
  by rewrite (control_verbatim _ Hc) in Hv.
Qed.

Lemma wildcard_schema_endpoint k : key_wf k → wildcard_schema k = true → is_verbatim_type k = false.
Proof.
  intros Hk Ew. destruct (is_verbatim_type k) eqn:Hv; [|done].
  destruct (markers_cases k (default [] (k_ty k)) Hk) as [(_&_&_&_&Hc)|[? _]]; [unfold markers; rewrite Hv; by left| |congruence].
  unfold wildcard_schema in Ew. rewrite Hc, andb_false_r in Ew. done.
Qed.

(** The selectors of a pattern are its texts under its markers. *)
Lemma selectors_markers k :
  key_wf k → key_typed k → selectors k = key_text k <$> markers k.
Proof.
  intros Hk Ht. unfold selectors, markers. rewrite key_display_segments.
  destruct (wildcard_schema k) eqn:Ew.
  - pose proof (wildcard_schema_endpoint k Hk Ew) as Hv.
    rewrite Hv, (wildcard_schema_direction k Hk Ew). cbn [fmap list_fmap]. do 2 f_equal.
    pose proof (key_segments_free OUT k Hk Ht ltac:(vm_compute; set_solver)) as Hfree.
    destruct (key_text_ok k Hk Ht) as [_ Hs _ _]. destruct (endpoint_wf k Hk Hv) as (Hty&_&_).
    unfold str_replace, key_text. unfold key_segments in *. cbn [app] in *. rewrite !join_slashed.
    apply List.Forall_cons_iff in Hfree as [Hroot Hfree].
    change (bytes_of "/@out/") with (47%Z :: bytes_of "@out/"). rewrite replace_plain by done.
    change (47%Z :: bytes_of "@out/") with (bytes_of "/@out/"). rewrite replace_slashed by done. f_equal. f_equal.
    rewrite subst_out_cons by by vm_compute. f_equal.
    assert (Hd : k_domain k ≠ OUT).
    { intros Hd. assert (Hw : segment_wf (k_domain k)) by by destruct Hk. apply segment_not_verbatim in Hw. by rewrite Hd in Hw. }
    rewrite subst_out_cons by done. f_equal.
    rewrite subst_out_app by (apply verbatim_out; eapply Forall_impl; [exact Hs|]; by intros ? []). f_equal.
    unfold tail_segments. rewrite Hv. cbn [app]. rewrite subst_out_hit. do 2 f_equal.
    apply subst_out_none. apply not_elem_of_cons. split; [|by apply facet_no_out].
    destruct (k_ty k) as [t|]; cbn [default]; [|by vm_compute].
    intros Heq. specialize (Hty t eq_refl). apply segment_not_verbatim in Hty. unfold id in Heq. by rewrite <- Heq in Hty.
  - destruct (is_verbatim_type k) eqn:Ev; [|done]. cbn [fmap list_fmap]. unfold key_text.
    unfold key_segments, tail_segments. by rewrite Ev.
Qed.
