(* ===== verification/EngineMatch.v ===== *)
(** * EngineMatch: matching is matching of key expressions

    [key_expr] is the documented meaning of Zenoh's key expressions on chunks:
    [*] is one chunk and [**] any number of chunks, and neither matches a chunk
    that starts with an at sign.  For valid keys, [matches] says the same as the
    selectors that the Zenoh engine declares. *)

From Stdlib Require Import ZArith Lia.
From S2P Require Import Prelude Text Btree Bindings BindingsSpec EngineKey.

Definition STAR : str := bytes_of "*".
Definition STARS : str := bytes_of "**".

Inductive key_expr : list str → list str → Prop :=
  | ke_nil : key_expr [] []
  | ke_same c p k : key_expr p k → key_expr (c :: p) (c :: k)
  | ke_one c p k : verbatim c = false → key_expr p k → key_expr (STAR :: p) (c :: k)
  | ke_zero p k : key_expr p k → key_expr (STARS :: p) k
  | ke_more c p k : verbatim c = false → key_expr (STARS :: p) k → key_expr (STARS :: p) (c :: k).

(** The matching of a key expression against a key without wildcards, as Zenoh
    promises it. *)
Class KeyExpr (intersects : str → str → bool) : Prop := {
  intersects_spec p k : 42%Z ∉ k → intersects p k = true ↔ key_expr (split_on 47 p) (split_on 47 k);
}.

(** An executable instance. *)
Fixpoint ke_match (p k : list str) {struct p} : bool :=
  match p with
  | [] => bool_decide (k = [])
  | c :: p' =>
      if bool_decide (c = STARS) then
        (fix skip (k : list str) : bool :=
           ke_match p' k || match k with
                            | d :: k' => negb (verbatim d) && skip k'
                            | [] => false
                            end) k
      else match k with
           | d :: k' => (bool_decide (c = d) || (bool_decide (c = STAR) && negb (verbatim d))) && ke_match p' k'
           | [] => false
           end
  end.

Lemma ke_match_spec p k : STARS ∉ k → ke_match p k = true ↔ key_expr p k.
Proof.
  revert k. induction p as [|c p IH]; intros k Hk.
  - cbn. rewrite bool_decide_eq_true. split; [intros ->; constructor|]. by inversion 1.
  - cbn [ke_match]. destruct (bool_decide (c = STARS)) eqn:Ec; breflect_in Ec.
    + subst c. induction k as [|d k IHk].
      * rewrite orb_false_r, (IH [] Hk). split; [by constructor|].
        intros H. remember (STARS :: p) as P eqn:EP. remember (@nil str) as K eqn:EK.
        destruct H; try done; by simplify_eq.
      * apply not_elem_of_cons in Hk as [Hd Hk]. rewrite orb_true_iff, andb_true_iff, negb_true_iff.
        rewrite (IH (d :: k)) by (by apply not_elem_of_cons). rewrite IHk by done. split.
        -- intros [H|[Hv H]]; [by constructor|by constructor].
        -- intros H. remember (STARS :: p) as P eqn:EP. remember (d :: k) as K eqn:EK.
           destruct H as [|c p' k' H|c p' k' Hv H|p' k' H|c p' k' Hv H]; try done.
           ++ congruence.
           ++ left. by assert (p = p') as -> by congruence.
           ++ right. assert (c = d ∧ k = k' ∧ p' = p) as (->&->&->) by (split_and!; congruence). done.
    + destruct k as [|d k].
      * split; [done|]. intros H. remember (c :: p) as P eqn:EP. remember (@nil str) as K eqn:EK.
        destruct H; try done; congruence.
      * apply not_elem_of_cons in Hk as [Hd Hk].
        rewrite andb_true_iff, orb_true_iff, andb_true_iff, negb_true_iff, !bool_decide_eq_true, IH by done. split.
        -- intros [[->|[-> Hv]] H]; by constructor.
        -- intros H. remember (c :: p) as P eqn:EP. remember (d :: k) as K eqn:EK.
           destruct H as [|c' p' k' H|c' p' k' Hv H|p' k' H|c' p' k' Hv H]; try congruence.
           ++ assert (c' = c ∧ c' = d ∧ p' = p ∧ k' = k) as (->&->&->&->) by (split_and!; congruence). auto.
           ++ assert (c = STAR ∧ c' = d ∧ p' = p ∧ k' = k) as (->&->&->&->) by (split_and!; congruence). auto.
Qed.

Lemma no_stars k : 42%Z ∉ k → STARS ∉ split_on 47 k.
Proof.
  intros Hk Hin. apply Hk. rewrite <- (join_split 47 k).
  induction (split_on 47 k) as [|s l IH]; [by apply elem_of_nil in Hin|].
  apply elem_of_cons in Hin as [<-|Hin].
  - rewrite join_slashed. apply elem_of_app. left. vm_compute. set_solver.
  - destruct l as [|x l]; [by apply elem_of_nil in Hin|].
    change (join_on 47 (s :: x :: l)) with (s ++ 47%Z :: join_on 47 (x :: l)). set_solver.
Qed.

#[export] Instance KeyExpr_ke_match : KeyExpr (λ p k, ke_match (split_on 47 p) (split_on 47 k)).
Proof. split. intros p k Hk. by apply ke_match_spec, no_stars. Qed.

(** ** Key expressions by their front *)

Lemma ke_literal c p d k :
  c ≠ STAR → c ≠ STARS → key_expr (c :: p) (d :: k) ↔ c = d ∧ key_expr p k.
Proof.
  intros H1 H2. split; [|intros [-> H]; by constructor]. intros H.
  remember (c :: p) as P eqn:EP. remember (d :: k) as K eqn:EK. destruct H; try congruence.
  assert (c0 = c ∧ c0 = d ∧ p0 = p ∧ k0 = k) as (->&->&->&->) by (split_and!; congruence). done.
Qed.

Lemma ke_star p d k : key_expr (STAR :: p) (d :: k) ↔ verbatim d = false ∧ key_expr p k.
Proof.
  split; [|intros [Hv H]; by constructor]. intros H.
  remember (STAR :: p) as P eqn:EP. remember (d :: k) as K eqn:EK. destruct H; try (exfalso; congruence).
  - assert (c = STAR ∧ c = d ∧ p0 = p ∧ k0 = k) as (->&<-&->&->) by (split_and!; congruence). done.
  - assert (c = d ∧ p0 = p ∧ k0 = k) as (->&->&->) by (split_and!; congruence). done.
  - exfalso. assert (STARS = STAR) as Hs by congruence. by vm_compute in Hs.
  - exfalso. assert (STARS = STAR) as Hs by congruence. by vm_compute in Hs.
Qed.

Lemma ke_nil_l k : key_expr [] k ↔ k = [].
Proof. split; [|intros ->; constructor]. by inversion 1. Qed.

Lemma ke_nil_r c p : c ≠ STARS → ¬ key_expr (c :: p) [].
Proof.
  intros Hc H. remember (c :: p) as P eqn:EP. remember (@nil str) as K eqn:EK.
  destruct H; try done; congruence.
Qed.

(** Chunks before a marker. *)
Lemma ke_stars p v ns w r :
  v ≠ STAR → v ≠ STARS → verbatim v = true → Forall (λ s, verbatim s = false) ns → verbatim w = true →
  key_expr (STARS :: v :: p) (ns ++ w :: r) ↔ v = w ∧ key_expr p r.
Proof.
  intros Hv1 Hv2 Hv Hns Hw. assert (Hss : STAR ≠ STARS) by by vm_compute.
  rewrite <- (ke_literal v p w r) by done. induction ns as [|s ns IH]; cbn [app].
  - split; [|by constructor]. intros H. remember (STARS :: v :: p) as P eqn:EP. remember (w :: r) as K eqn:EK.
    destruct H as [|c p' k H|c p' k Hc H|p' k H|c p' k Hc H]; try (exfalso; congruence).
    + exfalso. assert (c = STARS ∧ c = w) as [-> <-] by (split; congruence). done.
    + assert (p' = v :: p ∧ k = w :: r) as [-> ->] by (split; congruence). done.
  - apply List.Forall_cons_iff in Hns as [Hs Hns]. rewrite <- (IH Hns). split; [|by constructor].
    intros H. remember (STARS :: v :: p) as P eqn:EP. remember (s :: ns ++ w :: r) as K eqn:EK.
    destruct H as [|c p' k H|c p' k Hc H|p' k H|c p' k Hc H]; try (exfalso; congruence).
    + assert (c = STARS) as -> by congruence.
      assert (p' = v :: p ∧ k = ns ++ w :: r) as [-> ->] by (split; congruence). by apply ke_zero.
    + exfalso. assert (p' = v :: p ∧ k = s :: ns ++ w :: r) as [-> ->] by (split; congruence).
      apply ke_literal in H as [-> _]; [congruence|done|done].
    + assert (p' = v :: p ∧ k = ns ++ w :: r) as [-> ->] by (split; congruence). done.
Qed.

Lemma ke_literals segs p v ns w r :
  Forall (λ s, s ≠ STAR ∧ s ≠ STARS ∧ verbatim s = false) segs → v ≠ STAR → v ≠ STARS → verbatim v = true →
  Forall (λ s, verbatim s = false) ns → verbatim w = true →
  key_expr (segs ++ v :: p) (ns ++ w :: r) ↔ segs = ns ∧ v = w ∧ key_expr p r.
Proof.
  intros Hsegs Hv1 Hv2 Hv Hns Hw. revert ns Hns. induction Hsegs as [|s segs (H1&H2&H3) _ IH]; intros ns Hns.
  - destruct Hns as [|n ns Hn Hns]; cbn [app]; rewrite ke_literal by done; [naive_solver|].
    split; [intros [-> _]; congruence|]. by intros [? _].
  - destruct Hns as [|n ns Hn Hns]; cbn [app]; rewrite ke_literal by done.
    + split; [intros [-> _]; congruence|]. by intros [? _].
    + rewrite IH by done. naive_solver.
Qed.

(** Facets: lists without a double star. *)
Lemma ke_zip p k :
  STARS ∉ p → key_expr p k ↔ length p = length k ∧ zip_all segment_matches p k = true.
Proof.
  revert k. induction p as [|c p IH]; intros k Hp.
  - rewrite ke_nil_l. destruct k; cbn; naive_solver.
  - apply not_elem_of_cons in Hp as [Hc Hp]. destruct k as [|d k].
    + split; [intros H; by apply ke_nil_r in H|by intros [? _]].
    + cbn [length zip_all]. rewrite andb_true_iff. unfold segment_matches at 1.
      rewrite orb_true_iff, andb_true_iff, !bool_decide_eq_true, negb_true_iff.
      destruct (decide (c = STAR)) as [->|Hns].
      * rewrite ke_star, IH by done. split; [naive_solver|].
        intros [Hl [[<-|[_ Hv]] Hz]]; split_and!; first [done|lia].
      * rewrite ke_literal, IH by done. change (bytes_of "*") with STAR. split; [naive_solver|].
        intros [Hl [[->|[? _]] Hz]]; [|done]. split_and!; first [done|lia].
Qed.

(** ** Keys *)

(** An address without wildcards ([Routed::owned] asks this of a declaration). *)
Definition concrete (k : Key) : Prop := 42%Z ∉ key_display k.

Definition rest_segments (k : Key) : list str :=
  (if is_verbatim_type k then []
   else [default STAR (key_port k); default STAR (k_ty k)]) ++ facet_segments k.

Lemma tail_rest k m :
  key_wf k → m ∈ markers k → tail_segments m k ++ facet_segments k = m :: rest_segments k.
Proof.
  intros Hk Hm. unfold tail_segments, rest_segments.
  destruct (markers_cases k m Hk Hm) as [(Hv&_&Ht&_)|[Hv _]]; rewrite Hv; [|done]. by rewrite Ht.
Qed.

Lemma join_elem sep (segs : list str) s b : s ∈ segs → b ∈ s → b ∈ join_on sep segs.
Proof.
  induction segs as [|x segs IH]; [by intros ?%elem_of_nil|]. intros Hs Hb. destruct segs as [|y segs].
  - by apply list_elem_of_singleton in Hs as ->.
  - change (join_on sep (x :: y :: segs)) with (x ++ sep :: join_on sep (y :: segs)).
    apply elem_of_app. apply elem_of_cons in Hs as [->|Hs]; [by left|right]. right. by apply IH.
Qed.

(** A module control. *)
Lemma control_parts k :
  key_wf k → is_verbatim_type k = true →
  ∃ c, k_ty k = Some c ∧ control c = true ∧ k_endpoint k = None ∧ k_chunk k = None ∧ markers k = [c].
Proof.
  intros Hk Hv. assert (Hm : default [] (k_ty k) ∈ markers k) by (unfold markers; rewrite Hv; by left).
  destruct (markers_cases k _ Hk Hm) as [(_&Hc&Ht&?&?)|[? _]]; [|congruence].
  exists (default [] (k_ty k)). split_and!; try done. unfold markers. by rewrite Hv.
Qed.

(** What an address without wildcards has. *)
Record key_addressed (k : Key) : Prop := {
  ad_source : ∃ s, k_source k = Some s;
  ad_marker : ∃ m, markers k = [m];
  ad_slots : is_verbatim_type k = false →
    ∃ slot ty, k_endpoint k = Some slot ∧ k_ty k = Some ty ∧ segment_wf (slot_port slot) ∧ segment_wf ty;
  ad_control : is_verbatim_type k = true → k_endpoint k = None ∧ k_chunk k = None;
  ad_facet : STAR ∉ facet_segments k;
}.

Lemma concrete_addressed k : key_wf k → concrete k → key_addressed k.
Proof.
  intros Hk Hc. unfold concrete in Hc. rewrite key_display_segments in Hc.
  assert (Hno : ∀ s, s ∈ key_segments (direction k) k → 42%Z ∉ s).
  { intros s Hs Hb. apply Hc. by eapply join_elem. }
  clear Hc. unfold key_segments in Hno.
  assert (Hsrc : ∃ s, k_source k = Some s).
  { destruct (k_source k) as [s|] eqn:Es; [by exists s|]. exfalso. apply (Hno STARS); [|vm_compute; set_solver].
    unfold source_segments. rewrite Es. set_solver. }
  assert (Hslots : is_verbatim_type k = false →
    ∃ slot ty, k_endpoint k = Some slot ∧ k_ty k = Some ty ∧ segment_wf (slot_port slot) ∧ segment_wf ty).
  { intros Hv. destruct (endpoint_wf k Hk Hv) as (Hty&Hport&Het).
    assert (Htail : ∀ s, s ∈ tail_segments (direction k) k → 42%Z ∉ s) by (intros s Hs; apply Hno; set_solver).
    unfold tail_segments in Htail. rewrite Hv in Htail. unfold key_port in *.
    destruct (k_endpoint k) as [slot|]; cbn [fmap option_fmap option_map default] in *.
    - destruct (Het ltac:(done)) as [ty Ety]. rewrite Ety in *. exists slot, ty. split_and!; [done|done|by apply Hport|by apply Hty].
    - exfalso. apply (Htail STAR); [right; by left|vm_compute; set_solver]. }
  assert (Hctl : is_verbatim_type k = true → k_endpoint k = None ∧ k_chunk k = None).
  { intros Hv. by destruct (control_parts k Hk Hv) as (_&_&_&?&?&_). }
  split; [done| |done|done|].
  - unfold markers. destruct (is_verbatim_type k) eqn:Hv; [by eexists|].
    destruct (Hslots eq_refl) as (slot&ty&He&_). unfold wildcard_schema. rewrite He. by eexists.
  - intros Hin. apply (Hno STAR); [set_solver|vm_compute; set_solver].
Qed.

Lemma source_literals s :
  source_wf s → Forall (λ s, s ≠ STAR ∧ s ≠ STARS ∧ verbatim s = false) (split_on 47 s).
Proof.
  intros Hs. eapply Forall_impl; [exact Hs|]. intros seg Hseg.
  destruct (segment_not_star _ Hseg). split_and!; [done|done|by apply segment_not_verbatim].
Qed.

(** The address part of the two texts. *)
Lemma expr_address p k m n :
  key_wf p → key_wf k → is_Some (k_source k) → m ∈ markers p → n ∈ markers k →
  key_expr (key_segments m p) (key_segments n k) ↔
  k_domain p = k_domain k ∧ (k_source p = None ∨ k_source p = k_source k) ∧ m = n ∧
  key_expr (rest_segments p) (rest_segments k).
Proof.
  intros Hp Hk [sk Hsk] Hm Hn. destruct (marker_verbatim p m Hp Hm) as [Hvm _].
  destruct (marker_verbatim k n Hk Hn) as [Hvn _].
  assert (Hmm : m ≠ STAR ∧ m ≠ STARS) by (split; intros ->; by vm_compute in Hvm). destruct Hmm as [Hm1 Hm2].
  assert (Hdp : segment_wf (k_domain p)) by by destruct Hp.
  assert (Hsp : opt_wf source_wf (k_source p)) by by destruct Hp.
  assert (Hks : opt_wf source_wf (k_source k)) by by destruct Hk.
  destruct (segment_not_star _ Hdp) as [Hd1 Hd2].
  unfold key_segments. rewrite !tail_rest by done. cbn [app].
  rewrite ke_literal by (by vm_compute). rewrite ke_literal by (by vm_compute). rewrite ke_literal by done.
  assert (Hks' : Forall (λ s, verbatim s = false) (source_segments k)).
  { unfold source_segments. rewrite Hsk. eapply Forall_impl; [apply source_literals; by apply Hks|].
    by intros ? (?&?&?). }
  assert (Hsrc : key_expr (source_segments p ++ m :: rest_segments p) (source_segments k ++ n :: rest_segments k) ↔
    (k_source p = None ∨ k_source p = k_source k) ∧ m = n ∧ key_expr (rest_segments p) (rest_segments k)).
  { unfold source_segments at 1. destruct (k_source p) as [sp|].
    - rewrite ke_literals; [|by apply source_literals, Hsp|done..]. unfold source_segments. rewrite Hsk.
      assert (split_on 47 sp = split_on 47 sk ↔ sp = sk) as ->.
      { split; [|by intros ->]. intros Heq. rewrite <- (join_split 47 sp), <- (join_split 47 sk). by rewrite Heq. }
      naive_solver.
    - cbn [app]. rewrite ke_stars by done. naive_solver. }
  rewrite Hsrc. naive_solver.
Qed.

(** The facet test of [matches]. *)
Definition chunk_ok (p k : option str) : bool :=
  match p, k with
  | None, None => true
  | Some p, Some c =>
      (length (split_on 47 p) =? length (split_on 47 c))
      && zip_all segment_matches (split_on 47 p) (split_on 47 c)
  | _, _ => false
  end.

Lemma facet_no_stars k : key_wf k → key_typed k → STARS ∉ facet_segments k.
Proof.
  intros Hk Ht. destruct (is_verbatim_type k) eqn:Hv.
  { destruct (control_parts k Hk Hv) as (_&_&_&_&Hc&_). unfold facet_segments. rewrite Hc. set_solver. }
  pose proof (endpoint_facet k Hk Hv) as Hf. pose proof (facet_split _ _ Hf (kt_facet _ Ht)) as Hs.
  unfold facet_segments. destruct (k_chunk k) as [c|]; [|set_solver]. destruct Hs as [-> Hn].
  destruct (schema_name c) as [name|] eqn:Es.
  - apply schema_name_Some in Es as ->.
    intros [Heq|[Heq|[]%elem_of_nil]%elem_of_cons]%elem_of_cons; [by vm_compute in Heq|]. subst name.
    destruct (schema_name_wf _ _ Hf) as [Hw|Hw]; [by vm_compute in Hw|by destruct (segment_not_star _ Hw)].
  - intros Heq%list_elem_of_singleton. destruct (Hn eq_refl) as [->| ->]; by vm_compute in Heq.
Qed.

Lemma expr_facet p k :
  key_wf p → key_typed p → key_expr (facet_segments p) (facet_segments k) ↔ chunk_ok (k_chunk p) (k_chunk k) = true.
Proof.
  intros Hp Ht. pose proof (facet_no_stars p Hp Ht) as Hns. unfold facet_segments, chunk_ok in *.
  destruct (k_chunk p) as [cp|]; destruct (k_chunk k) as [ck|].
  - by rewrite ke_zip, andb_true_iff, Nat.eqb_eq.
  - rewrite ke_zip by done. destruct (split_on 47 cp) eqn:Es; [by apply split_on_nonempty in Es|]. naive_solver.
  - rewrite ke_nil_l. split; [|done]. intros Es. by apply split_on_nonempty in Es.
  - rewrite ke_nil_l. done.
Qed.

(** Matching facets are of one kind. *)
Lemma facet_heads p k :
  is_verbatim_type p = false → key_wf p → key_expr (facet_segments p) (facet_segments k) →
  head (facet_segments p) = head (facet_segments k).
Proof.
  intros Hv Hp. pose proof (facet_shape_of _ _ (endpoint_facet p Hp Hv)) as Hs.
  change (match k_chunk p with Some c => split_on 47 c | None => [] end) with (facet_segments p) in Hs.
  assert (Hlit : ∀ c l K, c = SERVICE_CHUNK ∨ c = SUB_CHUNK ∨ c = SCHEMA_CHUNK → key_expr (c :: l) K →
            Some c = head K).
  { intros c l K Hc. assert (c ≠ STAR ∧ c ≠ STARS) as [H1 H2].
    { split; intros ->; destruct Hc as [Hc|[Hc|Hc]]; by vm_compute in Hc. }
    destruct K as [|d K]; [by intros ?%ke_nil_r|]. by intros [-> _]%ke_literal. }
  destruct Hs as [_|_|_|name segs Hh _ _].
  - by intros ->%ke_nil_l.
  - apply Hlit. auto.
  - apply Hlit. auto.
  - destruct segs as [|c segs]; [done|]. injection Hh as ->. apply Hlit. auto.
Qed.

Lemma ke_slot o P d K :
  opt_wf segment_wf o → segment_wf d →
  key_expr (default STAR o :: P) (d :: K) ↔ (o = None ∨ o = Some d) ∧ key_expr P K.
Proof.
  intros Ho Hd. destruct o as [s|]; cbn [default]; unfold id.
  - destruct (segment_not_star s) as [H1 H2]; [by apply Ho|]. rewrite ke_literal by done. naive_solver.
  - rewrite ke_star. apply segment_not_verbatim in Hd. naive_solver.
Qed.

(** The direction of a named endpoint. *)
Lemma direction_slot k slot :
  key_wf k → is_verbatim_type k = false → k_endpoint k = Some slot →
  direction k = match slot with OutputSlot _ => OUT | InputSlot _ => IN end.
Proof.
  intros Hk Hv He. destruct (marker_facet k (direction k) Hk Hv) as [(Hd&Hno&_)|(Hd&Hno&_)]; [by left|..];
    rewrite Hd; destruct slot as [p|p]; [done|by destruct (Hno p)|by destruct (Hno p)|done].
Qed.

(** Which marker a matching pattern has. *)
Lemma marker_exists p k slot :
  key_wf p → key_wf k → is_verbatim_type p = false → is_verbatim_type k = false →
  k_endpoint k = Some slot → key_expr (facet_segments p) (facet_segments k) →
  (direction k ∈ markers p ∧ (key_port p = None ∨ key_port p = Some (slot_port slot)) ↔
   k_endpoint p = None ∨ k_endpoint p = Some slot).
Proof.
  intros Hp Hk Hvp Hvk He Hfac. pose proof (facet_heads p k Hvp Hp Hfac) as Hheads.
  unfold markers. rewrite Hvp. unfold key_port. destruct (k_endpoint p) as [ps|] eqn:Ep; cbn [fmap option_fmap option_map].
  - unfold wildcard_schema. rewrite Ep. cbn [is_none andb]. rewrite list_elem_of_singleton.
    rewrite (direction_slot k slot Hk Hvk He), (direction_slot p ps Hp Hvp Ep). split.
    + intros [Hd [?|Hport]]; [done|]. right. destruct slot, ps; cbn in Hport; try (by vm_compute in Hd); congruence.
    + intros [?|Heq]; [done|]. assert (ps = slot) as -> by congruence. split; [done|by right].
  - split; [by left|]. intros _. split; [|by left].
    destruct (wildcard_schema p) eqn:Ew.
    { destruct (direction_cases k) as [->| ->]; [by left|right; by left]. }
    apply list_elem_of_singleton.
    pose proof (facet_shape_of _ _ (endpoint_facet p Hp Hvp)) as Hs.
    change (match k_chunk p with Some c => split_on 47 c | None => [] end) with (facet_segments p) in Hs.
    apply shape_schema_name in Hs as [Hsch _]. unfold wildcard_schema in Ew. rewrite Ep, Hsch in Ew. cbn [is_none andb] in Ew.
    breflect_in Ew.
    destruct (marker_facet k (direction k) Hk Hvk) as [(->&_&Hk1)|(->&_&Hk1)]; [by left|..];
      (destruct (marker_facet p (direction p) Hp Hvp) as [(->&_&Hp1)|(->&_&Hp1)]; [by left|..]); [done| |..|done].
    + exfalso. rewrite Hheads in Hp1, Ew. tauto.
    + exfalso. rewrite Hheads in Hp1, Ew. tauto.
Qed.

Lemma matches_parts p k :
  matches p k = true ↔
  k_domain p = k_domain k ∧ (k_source p = None ∨ k_source p = k_source k) ∧
  match k_ty p, k_ty k with
  | None, Some t => verbatim t = false
  | None, None => True
  | Some t, o => o = Some t
  end ∧ (k_endpoint p = None ∨ k_endpoint p = k_endpoint k) ∧ chunk_ok (k_chunk p) (k_chunk k) = true.
Proof.
  unfold matches. fold (chunk_ok (k_chunk p) (k_chunk k)). rewrite !andb_true_iff, bool_decide_eq_true.
  assert (∀ {A} `{EqDecision A} (o o' : option A),
    match o with Some s => bool_decide (o' = Some s) | None => true end = true ↔ o = None ∨ o = o') as Hopt.
  { intros A ? [s|] o'; [rewrite bool_decide_eq_true|]; naive_solver. }
  rewrite !Hopt.
  assert (match k_ty p, k_ty k with
          | None, Some t => negb (verbatim t) | None, None => true
          | Some t, o => bool_decide (o = Some t) end = true ↔
          match k_ty p, k_ty k with
          | None, Some t => verbatim t = false | None, None => True | Some t, o => o = Some t end) as ->.
  { destruct (k_ty p), (k_ty k); rewrite ?bool_decide_eq_true, ?negb_true_iff; done. }
  naive_solver.
Qed.

(** [matches] is matching of the texts. *)
Lemma matches_expr p k :
  key_wf p → key_typed p → key_wf k → concrete k →
  matches p k = true ↔
  ∃ m n, m ∈ markers p ∧ n ∈ markers k ∧ key_expr (key_segments m p) (key_segments n k).
Proof.
  intros Hp Htp Hk Hc. destruct (concrete_addressed k Hk Hc) as [[sk Hsk] [mk Hmk] Hslots _ _].
  assert (Hex : (∃ m n, m ∈ markers p ∧ n ∈ markers k ∧ key_expr (key_segments m p) (key_segments n k)) ↔
    k_domain p = k_domain k ∧ (k_source p = None ∨ k_source p = k_source k) ∧ mk ∈ markers p ∧
    key_expr (rest_segments p) (rest_segments k)).
  { rewrite Hmk. split.
    - intros (m&n&Hm&->%list_elem_of_singleton&He). rewrite expr_address in He; [|done|done|by eexists|done|rewrite Hmk; by left].
      naive_solver.
    - intros (Hd&Hs&Hm&He). exists mk, mk. split_and!; [done|by left|].
      apply expr_address; [done|done|by eexists|done|rewrite Hmk; by left|]. done. }
  rewrite Hex, matches_parts. clear Hex.
  destruct (is_verbatim_type k) eqn:Hvk.
  - destruct (control_parts k Hk Hvk) as (ck&Htk&Hctk&Hek&Hck&Hmk'). rewrite Hmk' in Hmk. injection Hmk as <-.
    rewrite Htk, Hek, Hck. destruct (is_verbatim_type p) eqn:Hvp.
    + destruct (control_parts p Hp Hvp) as (cp&Htp'&_&Hep&Hcp&Hmp). rewrite Htp', Hep, Hcp, Hmp.
      unfold rest_segments, facet_segments. rewrite Hvp, Hvk, Hcp, Hck. cbn.
      rewrite list_elem_of_singleton, ke_nil_l. naive_solver.
    + destruct (endpoint_wf p Hp Hvp) as (Hty&_&_). split.
      * intros (_&_&Ht&_). exfalso. apply control_verbatim in Hctk. destruct (k_ty p) as [tp|]; [|congruence].
        injection Ht as ->. specialize (Hty tp eq_refl). apply segment_not_verbatim in Hty. congruence.
      * intros (_&_&Hm&_). exfalso. destruct (markers_cases p ck Hp Hm) as [[? _]|[_ Hm']]; [congruence|].
        destruct Hm' as [->|[_ ->]]; [destruct (direction_cases p) as [Hd|Hd]; rewrite Hd in Hctk|]; by vm_compute in Hctk.
  - destruct (Hslots eq_refl) as (slot&tk&Hek&Htk&Hport&Hty).
    assert (mk = direction k) as ->.
    { unfold markers in Hmk. rewrite Hvk in Hmk. unfold wildcard_schema in Hmk. rewrite Hek in Hmk. cbn in Hmk. congruence. }
    rewrite Hek, Htk. destruct (is_verbatim_type p) eqn:Hvp.
    + destruct (control_parts p Hp Hvp) as (cp&Htp'&Hcp&_&_&Hmp). rewrite Htp', Hmp. split.
      * intros (_&_&Ht&_). exfalso. injection Ht as ->. apply control_verbatim in Hcp.
        apply segment_not_verbatim in Hty. congruence.
      * intros (_&_&Hm&_). exfalso. apply list_elem_of_singleton in Hm. rewrite <- Hm in Hcp.
        destruct (direction_cases k) as [Hd|Hd]; rewrite Hd in Hcp; by vm_compute in Hcp.
    + destruct (endpoint_wf p Hp Hvp) as (Htyp&Hportp&_).
      assert (Hrest : key_expr (rest_segments p) (rest_segments k) ↔
        (key_port p = None ∨ key_port p = Some (slot_port slot)) ∧ (k_ty p = None ∨ k_ty p = Some tk) ∧
        chunk_ok (k_chunk p) (k_chunk k) = true).
      { assert (Hpk : key_port k = Some (slot_port slot)) by (unfold key_port; by rewrite Hek).
        unfold rest_segments. rewrite Hvp, Hvk, Hpk, Htk. cbn [default app]. unfold id. rewrite ke_slot, ke_slot by done. by rewrite expr_facet. }
      rewrite Hrest. clear Hrest.
      assert (Htyeq : match k_ty p with Some t => Some tk = Some t | None => verbatim tk = false end ↔
                      k_ty p = None ∨ k_ty p = Some tk).
      { apply segment_not_verbatim in Hty. destruct (k_ty p); naive_solver. }
      assert (Hmark : chunk_ok (k_chunk p) (k_chunk k) = true →
        (direction k ∈ markers p ∧ (key_port p = None ∨ key_port p = Some (slot_port slot)) ↔
         k_endpoint p = None ∨ k_endpoint p = Some slot)).
      { intros Hch. apply marker_exists; try done. by apply expr_facet. }
      split.
      * intros (?&?&?&?&Hch). specialize (Hmark Hch). naive_solver.
      * intros (?&?&?&?&?&Hch). specialize (Hmark Hch). naive_solver.
Qed.
