(* ===== verification/EngineLocal.v ===== *)
(** * EngineLocal: the in-process bus
    ([crates/reiny/src/engine/local.rs], [engine/delivery.rs],
    [crates/reiny-core/src/qos.rs])

    The bus thread handles the operations of one unbounded channel in order.  A
    callback is known by the number of its declaration, and a call of it is an
    effect that [handle] lists.  A reply stream is a channel with its items and
    the number of live senders.  Instants are nanoseconds.  The bytes of a shared
    payload are a function of its value; that they are encoded once and kept is
    not represented. *)

From Stdlib Require Import ZArith Lia.
From S2P Require Import Prelude Text Btree Bindings EngineKey.

(** ** Quality of service ([qos.rs]) *)

Inductive CongestionControl : Type := BackendDefault | DropCongested | BlockCongested.
Inductive Priority : Type := RealTime | HighPriority | NormalPriority | LowPriority | Background.
Inductive History : Type := KeepLast (n : Z) | KeepAll.
Inductive Durability : Type := VolatileHistory | TransientLocal.

#[export] Instance CongestionControl_eq_dec : EqDecision CongestionControl.
Proof. solve_decision. Defined.

Record Qos : Type := mkQos {
  qos_congestion_control : CongestionControl;
  qos_priority : Priority;
  qos_history : History;
  qos_durability : Durability;
  qos_express : bool;
}.

Definition qos_DEFAULT : Qos := mkQos BackendDefault NormalPriority KeepAll VolatileHistory false.
Definition qos_SENSOR : Qos := mkQos DropCongested NormalPriority (KeepLast 1) VolatileHistory false.
Definition qos_COMMAND : Qos := mkQos BlockCongested NormalPriority KeepAll VolatileHistory false.
Definition qos_STATE : Qos := mkQos BackendDefault NormalPriority (KeepLast 1) TransientLocal false.

(** [Caps] *)
Record Caps : Type := mkCaps {
  cap_wildcard_source : bool;
  cap_liveliness : bool;
  cap_query : bool;
  cap_attachment : bool;
  cap_congestion_control : bool;
}.
Definition caps_ALL : Caps := mkCaps true true true true true.
Definition local_caps : Caps := mkCaps true true true true false.

Inductive Presence : Type := Joined (key : Key) | Left (key : Key).

#[export] Instance Presence_eq_dec : EqDecision Presence.
Proof. solve_decision. Defined.

Inductive Slot : Type := SubscriberSlot | TokenSlot | WatcherSlot | ResponderSlot.

#[export] Instance Slot_eq_dec : EqDecision Slot.
Proof. solve_decision. Defined.

Section bus.
(** Shared protobuf values *)
Context {V : Type}.

(** ** Payloads ([delivery.rs]) *)

Inductive Payload : Type := PayloadBytes (bytes : list Z) | PayloadShared (value : V).

Record Delivery : Type := mkDelivery {
  dl_key : Key;
  dl_payload : Payload;
  dl_attachment : option (list Z);
  dl_timestamp : option Z;
}.

Record Sample : Type := mkSample {
  sa_key : Key;
  sa_payload : list Z;
  sa_attachment : option (list Z);
  sa_timestamp : option Z;
}.

(** [Payload::bytes], [Payload::into_bytes] *)
Definition payload_bytes (encode : V → list Z) (p : Payload) : list Z :=
  match p with PayloadBytes bytes => bytes | PayloadShared value => encode value end.

(** [From<Sample> for Delivery], [From<Delivery> for Sample] *)
Definition delivery_of (s : Sample) : Delivery :=
  mkDelivery (sa_key s) (PayloadBytes (sa_payload s)) (sa_attachment s) (sa_timestamp s).
Definition sample_of (encode : V → list Z) (d : Delivery) : Sample :=
  mkSample (dl_key d) (payload_bytes encode (dl_payload d)) (dl_attachment d) (dl_timestamp d).

(** ** The bus thread *)

(** A query as a responder gets it; [lq_reply] is the stream it answers on. *)
Record LocalQuery : Type := mkLocalQuery {
  lq_key : Key;
  lq_payload : option (list Z);
  lq_attachment : option (list Z);
  lq_reply : nat;
}.

Inductive BusOp : Type :=
  | OpSubscribe (id : Z) (key : Key)
  | OpPublish (sample : Delivery)
  | OpToken (id : Z) (key : Key)
  | OpWatch (id : Z) (key : Key)
  | OpRespond (id : Z) (key : Key)
  | OpQuery (key : Key) (payload attachment : option (list Z)) (reply : nat)
  | OpAlive (key : Key) (tx : nat)
  | OpRemove (slot : Slot) (id : Z).

Inductive Effect : Type :=
  | CallSubscriber (id : Z) (sample : Delivery)
  | CallWatcher (id : Z) (event : Presence)
  | CallResponder (id : Z) (query : LocalQuery)
  | SendAlive (tx : nat) (keys : list Key).

Record Bus : Type := mkBus {
  bus_subscribers : list (Z * Key);
  bus_tokens : list (Z * Key);
  bus_watchers : list (Z * Key);
  bus_responders : list (Z * Key);
}.

Definition bus_default : Bus := mkBus [] [] [] [].

Definition presence_key (event : Presence) : Key := match event with Joined k | Left k => k end.

(** [Bus::presence] *)
Definition presence (self : Bus) (event : Presence) : list Effect :=
  omap (λ '(id, pattern), if matches pattern (presence_key event) then Some (CallWatcher id event) else None)
    (bus_watchers self).

(** [retain(|(i, ..)| *i != id)] *)
Definition without (id : Z) (l : list (Z * Key)) : list (Z * Key) := filter (λ e, e.1 ≠ id) l.

(** [Bus::handle]: the calls it makes, in order *)
Definition handle (self : Bus) (op : BusOp) : list Effect * Bus :=
  match op with
  | OpSubscribe id key =>
      ([], mkBus (bus_subscribers self ++ [(id, key)]) (bus_tokens self) (bus_watchers self) (bus_responders self))
  | OpPublish sample =>
      (omap (λ '(id, pattern), if matches pattern (dl_key sample) then Some (CallSubscriber id sample) else None)
         (bus_subscribers self), self)
  | OpToken id key =>
      let self := mkBus (bus_subscribers self) (bus_tokens self ++ [(id, key)]) (bus_watchers self)
                    (bus_responders self) in
      (presence self (Joined key), self)
  | OpWatch id key =>
      (omap (λ '(_, token), if matches key token then Some (CallWatcher id (Joined token)) else None)
         (bus_tokens self),
       mkBus (bus_subscribers self) (bus_tokens self) (bus_watchers self ++ [(id, key)]) (bus_responders self))
  | OpRespond id key =>
      ([], mkBus (bus_subscribers self) (bus_tokens self) (bus_watchers self) (bus_responders self ++ [(id, key)]))
  | OpQuery key payload attachment reply =>
      (omap (λ '(id, responder),
               if matches key responder
               then Some (CallResponder id (mkLocalQuery key payload attachment reply)) else None)
         (bus_responders self), self)
  | OpAlive key tx =>
      ([SendAlive tx (omap (λ '(_, token), if matches key token then Some token else None) (bus_tokens self))], self)
  | OpRemove SubscriberSlot id =>
      ([], mkBus (without id (bus_subscribers self)) (bus_tokens self) (bus_watchers self) (bus_responders self))
  | OpRemove WatcherSlot id =>
      ([], mkBus (bus_subscribers self) (bus_tokens self) (without id (bus_watchers self)) (bus_responders self))
  | OpRemove ResponderSlot id =>
      ([], mkBus (bus_subscribers self) (bus_tokens self) (bus_watchers self) (without id (bus_responders self)))
  | OpRemove TokenSlot id =>
      match position (λ e : Z * Key, (e.1 =? id)%Z) (bus_tokens self) with
      | Some pos =>
          match bus_tokens self !! pos with
          | Some (_, key) =>
              let self := mkBus (bus_subscribers self) (delete pos (bus_tokens self)) (bus_watchers self)
                            (bus_responders self) in
              (presence self (Left key), self)
          | None => ([], self)
          end
      | None => ([], self)
      end
  end.

(** [Bus::run] over the operations of the channel *)
Fixpoint bus_run (self : Bus) (ops : list BusOp) : list Effect * Bus :=
  match ops with
  | [] => ([], self)
  | op :: ops =>
      let '(effects, self) := handle self op in
      let '(more, self) := bus_run self ops in
      (effects ++ more, self)
  end.

(** ** The engine's handles *)

(** One reply to a query: a delivery, or the bytes of an error. *)
Definition DeliveryResult : Type := result Delivery (list Z).

Record ReplyStream : Type := mkStream {
  rs_items : list DeliveryResult;
  rs_senders : nat;
  rs_open : bool;
  rs_deadline : Z;
}.

(** The bus with its channel, the counter of declarations, the reply streams,
    the queries that responders hold, and the calls that were made. *)
Record LocalWorld : Type := mkLocalWorld {
  lw_next_id : Z;
  lw_queue : list BusOp;
  lw_bus : Bus;
  lw_streams : list ReplyStream;
  lw_held : list LocalQuery;
  lw_calls : list Effect;
}.

Definition local_new (next_id : Z) : LocalWorld := mkLocalWorld next_id [] bus_default [] [] [].

(** [Local::register] *)
Definition bus_register (w : LocalWorld) (op : BusOp) : LocalWorld :=
  mkLocalWorld (lw_next_id w) (lw_queue w ++ [op]) (lw_bus w) (lw_streams w) (lw_held w) (lw_calls w).

(** [next_id] *)
Definition next_id (w : LocalWorld) : Z * LocalWorld :=
  (lw_next_id w,
   mkLocalWorld (wrapping_add 64 (lw_next_id w) 1) (lw_queue w) (lw_bus w) (lw_streams w) (lw_held w) (lw_calls w)).

Definition LocalGuard : Type := Slot * Z.

(** A declaration: the key is validated, the operation registered, the guard
    returned. *)
Definition declare_handle (w : LocalWorld) (key : Key) (slot : Slot) (op : Z → Key → BusOp) : result LocalGuard str * LocalWorld :=
  match key_validate key with
  | Err e => (Err e, w)
  | Ok _ => let '(id, w) := next_id w in (Ok (slot, id), bus_register w (op id key))
  end.

(** [subscribe_delivery], [declare_alive], [watch_alive] and [respond] *)
Definition subscribe_delivery (w : LocalWorld) (key : Key) := declare_handle w key SubscriberSlot OpSubscribe.
Definition declare_alive (w : LocalWorld) (key : Key) := declare_handle w key TokenSlot OpToken.
Definition watch_alive (w : LocalWorld) (key : Key) := declare_handle w key WatcherSlot OpWatch.
Definition respond (w : LocalWorld) (key : Key) := declare_handle w key ResponderSlot OpRespond.

(** [Drop for LocalGuard] *)
Definition drop_guard (w : LocalWorld) (guard : LocalGuard) : LocalWorld := bus_register w (OpRemove guard.1 guard.2).

(** [Local::publisher]: the key of the publisher *)
Definition publisher (key : Key) (qos : Qos) : result Key str :=
  let? _ := key_validate key in
  let? _ := ensure_key (bool_decide (qos_congestion_control qos = BackendDefault))
              (bytes_of "local engine: explicit congestion control is unsupported; its send queue is unbounded") in
  Ok key.

(** [LocalPublisher::put_payload] *)
Definition put_payload (w : LocalWorld) (key : Key) (payload : Payload) (attachment : option (list Z))
    (now_unix_ns : option Z) : LocalWorld :=
  bus_register w (OpPublish (mkDelivery key payload attachment now_unix_ns)).

(** [Local::alive]: the future waits for what is sent on [tx] *)
Definition alive (w : LocalWorld) (key : Key) (tx : nat) : result unit str * LocalWorld :=
  match key_validate key with
  | Err e => (Err e, w)
  | Ok _ => (Ok tt, bus_register w (OpAlive key tx))
  end.

(** [Local::query]: the number of the reply stream *)
Definition query (w : LocalWorld) (key : Key) (payload attachment : option (list Z)) (timeout now : Z) :
  result nat str * LocalWorld :=
  match key_validate key with
  | Err e => (Err e, w)
  | Ok _ =>
      let stream := length (lw_streams w) in
      let w := mkLocalWorld (lw_next_id w) (lw_queue w) (lw_bus w)
                 (lw_streams w ++ [mkStream [] 1 true (now + timeout)]) (lw_held w) (lw_calls w) in
      (Ok stream, bus_register w (OpQuery key payload attachment stream))
  end.

(** A sender of a stream is cloned, or dropped *)
Definition with_senders (n : nat) (s : ReplyStream) : ReplyStream :=
  mkStream (rs_items s) n (rs_open s) (rs_deadline s).
Definition clone_sender (stream : nat) (streams : list ReplyStream) : list ReplyStream :=
  alter (λ s, with_senders (S (rs_senders s)) s) stream streams.
Definition drop_sender (stream : nat) (streams : list ReplyStream) : list ReplyStream :=
  alter (λ s, with_senders (rs_senders s - 1) s) stream streams.

(** What a call of a responder adds: a query with a sender of its stream *)
Definition held_queries (effects : list Effect) : list LocalQuery :=
  omap (λ e, match e with CallResponder _ q => Some q | _ => None end) effects.

(** One turn of [Bus::run] *)
Definition bus_turn (w : LocalWorld) : option LocalWorld :=
  match lw_queue w with
  | [] => None
  | op :: queue =>
      let '(effects, bus) := handle (lw_bus w) op in
      let held := held_queries effects in
      let streams := foldl (λ streams q, clone_sender (lq_reply q) streams) (lw_streams w) held in
      let streams := match op with OpQuery _ _ _ reply => drop_sender reply streams | _ => streams end in
      Some (mkLocalWorld (lw_next_id w) queue bus streams (lw_held w ++ held) (lw_calls w ++ effects))
  end.

(** [reply.send(item)]: nothing happens when the receiver is gone *)
Definition send_reply (stream : nat) (item : DeliveryResult) (streams : list ReplyStream) : list ReplyStream :=
  alter (λ s, if rs_open s then mkStream (rs_items s ++ [item]) (rs_senders s) true (rs_deadline s) else s)
    stream streams.

(** A responder consumes the query at position [n] of those it holds: it replies
    ([LocalQuery::reply_payload]), answers with an error ([reply_err]), or drops
    it. *)
Definition consume (w : LocalWorld) (n : nat) (item : option DeliveryResult) : option LocalWorld :=
  match lw_held w !! n with
  | None => None
  | Some q =>
      let streams := match item with Some item => send_reply (lq_reply q) item (lw_streams w) | None => lw_streams w end in
      Some (mkLocalWorld (lw_next_id w) (lw_queue w) (lw_bus w) (drop_sender (lq_reply q) streams)
              (delete n (lw_held w)) (lw_calls w))
  end.

Definition reply_payload (w : LocalWorld) (n : nat) (key : Key) (payload : Payload) (attachment : option (list Z))
    (now_unix_ns : option Z) : option LocalWorld :=
  consume w n (Some (Ok (mkDelivery key payload attachment now_unix_ns))).
Definition query_reply_err (w : LocalWorld) (n : nat) (message : list Z) : option LocalWorld := consume w n (Some (Err message)).
Definition drop_query (w : LocalWorld) (n : nat) : option LocalWorld := consume w n None.

(** How a poll of [LocalReplies::next_delivery] ends *)
Inductive Polled : Type := ReplyReady (r : option DeliveryResult) | ReplyPending.

(** [LocalReplies::next_delivery], polled once: the channel first, then the deadline *)
Definition next_delivery (w : LocalWorld) (stream : nat) (now : Z) : option (Polled * LocalWorld) :=
  match lw_streams w !! stream with
  | None => None
  | Some s =>
      match rs_items s with
      | item :: items =>
          Some (ReplyReady (Some item),
                mkLocalWorld (lw_next_id w) (lw_queue w) (lw_bus w)
                  (<[stream := mkStream items (rs_senders s) (rs_open s) (rs_deadline s)]> (lw_streams w))
                  (lw_held w) (lw_calls w))
      | [] =>
          if (rs_senders s =? 0) || (rs_deadline s <=? now)%Z then Some (ReplyReady None, w)
          else Some (ReplyPending, w)
      end
  end.

(** The receiver of a stream is dropped *)
Definition drop_replies (w : LocalWorld) (stream : nat) : LocalWorld :=
  mkLocalWorld (lw_next_id w) (lw_queue w) (lw_bus w)
    (alter (λ s, mkStream [] (rs_senders s) false (rs_deadline s)) stream (lw_streams w)) (lw_held w) (lw_calls w).
End bus.

Arguments Payload : clear implicits.
Arguments Delivery : clear implicits.
Arguments BusOp : clear implicits.
Arguments Effect : clear implicits.
Arguments LocalWorld : clear implicits.
Arguments DeliveryResult : clear implicits.
Arguments ReplyStream : clear implicits.
