(* ===== verification/EngineProps.v ===== *)
(** * EngineProps: addresses and the in-process bus

    Any number of threads declare, publish, query and drop handles while the bus
    thread works off the channel.  Every subscriber gets what a view of its own
    says, watchers always know the tokens that stand, and a reply stream ends
    when its last query is consumed.  The second part has the actions of any
    number of threads on one bus, in the order they happen, and the invariants of
    what is reached: the numbers of declarations, the operations handled so far,
    the senders of every reply stream and the replies on it.  Then the properties
    of keys and of the reference engine. *)

From Stdlib Require Import ZArith Lia.
From S2P Require Import Prelude Text Btree Bindings EngineKey EngineLocal EngineMatch.

Section spec.
Context {V : Type}.
Implicit Types (ops : list (BusOp V)) (w : LocalWorld V) (b : Bus).

(** ** Views of one declaration *)

Definition declared_id (op : BusOp V) : option Z :=
  match op with
  | OpSubscribe id _ | OpToken id _ | OpWatch id _ | OpRespond id _ => Some id
  | _ => None
  end.
Definition declared_ids ops : list Z := omap declared_id ops.

(** What a subscriber gets: the publications that match while it stands. *)
Fixpoint subscriber_view (id : Z) (active : option Key) ops : list (Delivery V) :=
  match ops with
  | [] => []
  | OpSubscribe i key :: ops => subscriber_view id (if (i =? id)%Z then Some key else active) ops
  | OpRemove SubscriberSlot i :: ops => subscriber_view id (if (i =? id)%Z then None else active) ops
  | OpPublish d :: ops =>
      match active with
      | Some pattern => if matches pattern (dl_key d) then [d] else []
      | None => []
      end ++ subscriber_view id active ops
  | _ :: ops => subscriber_view id active ops
  end.

(** The calls of one subscriber, and of one watcher. *)
Definition deliveries (id : Z) (effects : list (Effect V)) : list (Delivery V) :=
  omap (λ e, match e with CallSubscriber i d => if (i =? id)%Z then Some d else None | _ => None end) effects.
Definition events (id : Z) (effects : list (Effect V)) : list Presence :=
  omap (λ e, match e with CallWatcher i p => if (i =? id)%Z then Some p else None | _ => None end) effects.

Lemma deliveries_app id a c : deliveries id (a ++ c) = deliveries id a ++ deliveries id c.
Proof. apply omap_app. Qed.
Lemma events_app id a c : events id (a ++ c) = events id a ++ events id c.
Proof. apply omap_app. Qed.

(** The entries of one number in a table. *)
Definition entries_of (id : Z) (l : list (Z * Key)) : list Key :=
  omap (λ '(i, k), if (i =? id)%Z then Some k else None) l.

Lemma entries_of_app id a c : entries_of id (a ++ c) = entries_of id a ++ entries_of id c.
Proof. apply omap_app. Qed.

Lemma entries_of_cons id i k l : entries_of id ((i, k) :: l) = (if (i =? id)%Z then [k] else []) ++ entries_of id l.
Proof. unfold entries_of. cbn. by destruct (i =? id)%Z. Qed.

Lemma entries_of_without id i l :
  entries_of id (without i l) = if (i =? id)%Z then [] else entries_of id l.
Proof.
  induction l as [|[j k] l IH]; [by destruct (i =? id)%Z|].
  rewrite entries_of_cons. unfold without in *. rewrite filter_cons. cbn [fst]. case_decide as Hd.
  - rewrite entries_of_cons, IH. destruct (i =? id)%Z eqn:E; [|done]. apply Z.eqb_eq in E as ->.
    by rewrite (proj2 (Z.eqb_neq j id)).
  - assert (j = i) as -> by (by destruct (decide (j = i))). rewrite IH. by destruct (i =? id)%Z.
Qed.

(** What the calls over a table mean for one number. *)
Lemma omap_table {A} (f : Key → option A) (sel : Z * Key → option (Effect V)) (view : Effect V → option A) id l :
  (∀ i k, (sel (i, k) ≫= view) = if (i =? id)%Z then f k else None) →
  omap view (omap sel l) = omap f (entries_of id l).
Proof.
  intros Hsel. induction l as [|[i k] l IH]; [done|]. rewrite entries_of_cons, omap_app, <- IH.
  change ((i, k) :: l) with ([(i, k)] ++ l). rewrite !omap_app. f_equal. specialize (Hsel i k). cbn.
  destruct (sel (i, k)) as [e|]; cbn in *; [rewrite Hsel|]; destruct (i =? id)%Z; try done; cbn.
  by rewrite <- Hsel.
Qed.

(** Calls of another kind. *)
Lemma omap_none {A B C} (sel : A → option B) (view : B → option C) l :
  (∀ x, sel x ≫= view = None) → omap view (omap sel l) = [].
Proof.
  intros Hs. induction l as [|x l IH]; [done|]. change (x :: l) with ([x] ++ l). rewrite !omap_app, IH, app_nil_r.
  specialize (Hs x). cbn. destruct (sel x); cbn in *; [by rewrite Hs|done].
Qed.

Definition op_deliveries (active : list Key) (op : BusOp V) : list (Delivery V) :=
  match op with
  | OpPublish d => omap (λ pattern, if matches pattern (dl_key d) then Some d else None) active
  | _ => []
  end.

Lemma presence_deliveries b id e : deliveries id (presence b e) = [].
Proof. apply omap_none. intros [i p]. by destruct (matches _ _). Qed.

Lemma handle_deliveries b op id :
  deliveries id (handle b op).1 = op_deliveries (entries_of id (bus_subscribers b)) op.
Proof.
  destruct op as [i k|d|i k|i k|i k|k p a r|k tx|[] i]; cbn [handle fst op_deliveries]; try done.
  - apply (omap_table (λ pattern, if matches pattern (dl_key d) then Some d else None)).
    intros i k. destruct (matches k (dl_key d)); cbn; by destruct (i =? id)%Z.
  - apply presence_deliveries.
  - apply omap_none. intros [j t]. by destruct (matches k t).
  - apply omap_none. intros [j t]. by destruct (matches k t).
  - destruct (position _ _) as [pos|]; [|done]. destruct (bus_tokens b !! pos) as [[j t]|]; [|done].
    apply presence_deliveries.
Qed.

(** The tables after one operation. *)
Lemma handle_subscribers b (op : BusOp V) :
  bus_subscribers (handle b op).2 =
  match op with
  | OpSubscribe i k => bus_subscribers b ++ [(i, k)]
  | OpRemove SubscriberSlot i => without i (bus_subscribers b)
  | _ => bus_subscribers b
  end.
Proof.
  destruct op as [i k|d|i k|i k|i k|k p a r|k tx|[] i]; cbn [handle snd]; try done.
  destruct (position _ _) as [pos|]; [|done]. by destruct (bus_tokens b !! pos) as [[j t]|].
Qed.

Lemma handle_watchers b (op : BusOp V) :
  bus_watchers (handle b op).2 =
  match op with
  | OpWatch i k => bus_watchers b ++ [(i, k)]
  | OpRemove WatcherSlot i => without i (bus_watchers b)
  | _ => bus_watchers b
  end.
Proof.
  destruct op as [i k|d|i k|i k|i k|k p a r|k tx|[] i]; cbn [handle snd]; try done.
  destruct (position _ _) as [pos|]; [|done]. by destruct (bus_tokens b !! pos) as [[j t]|].
Qed.

Lemma bus_run_cons b (op : BusOp V) ops :
  bus_run b (op :: ops) =
  ((handle b op).1 ++ (bus_run (handle b op).2 ops).1, (bus_run (handle b op).2 ops).2).
Proof. cbn. destruct (handle b op) as [e b']. cbn. by destruct (bus_run b' ops). Qed.

Lemma bus_run_app b ops1 ops2 :
  bus_run b (ops1 ++ ops2) =
  ((bus_run b ops1).1 ++ (bus_run (bus_run b ops1).2 ops2).1, (bus_run (bus_run b ops1).2 ops2).2).
Proof.
  revert b. induction ops1 as [|op ops1 IH]; intros b; [cbn; by destruct (bus_run b ops2)|].
  change ((op :: ops1) ++ ops2) with (op :: (ops1 ++ ops2)). rewrite !bus_run_cons, IH. cbn [fst snd].
  by rewrite app_assoc.
Qed.

(** Every subscriber gets exactly its view. *)
Lemma run_deliveries b ops id active :
  entries_of id (bus_subscribers b) = option_list active →
  (is_Some active → id ∉ declared_ids ops) → NoDup (declared_ids ops) →
  deliveries id (bus_run b ops).1 = subscriber_view id active ops.
Proof.
  revert b active. induction ops as [|op ops IH]; intros b active Hb Hact Hnd; [done|].
  rewrite bus_run_cons. cbn [fst]. rewrite deliveries_app, handle_deliveries, Hb.
  assert (Hrest : ∀ active', entries_of id (bus_subscribers (handle b op).2) = option_list active' →
            (is_Some active' → id ∉ declared_ids ops) →
            deliveries id (bus_run (handle b op).2 ops).1 = subscriber_view id active' ops).
  { intros active' H1 H2. apply IH; [done|done|]. unfold declared_ids in Hnd. cbn [omap list_omap] in Hnd.
    destruct (declared_id op); [by apply NoDup_cons in Hnd as [_ Hnd]|done]. }
  assert (Hkeep : is_Some active → id ∉ declared_ids ops).
  { intros Ha Hin. apply (Hact Ha). unfold declared_ids in *. cbn [omap list_omap].
    destruct (declared_id op); [by right|done]. }
  rewrite handle_subscribers in Hrest.
  destruct op as [i k|d|i k|i k|i k|k p a r|k tx|[] i]; cbn [op_deliveries subscriber_view app];
    try by apply Hrest.
  - apply Hrest.
    + rewrite entries_of_app, Hb. unfold entries_of. cbn [omap list_omap]. destruct (i =? id)%Z eqn:E.
      * apply Z.eqb_eq in E as ->. destruct active as [k'|]; [|done]. exfalso. apply Hact; [done|].
        unfold declared_ids. cbn. by left.
      * by rewrite app_nil_r.
    + destruct (i =? id)%Z eqn:E; [|done]. apply Z.eqb_eq in E as ->. intros _.
      unfold declared_ids in Hnd. cbn in Hnd. by apply NoDup_cons in Hnd as [? _].
  - rewrite Hrest with (active' := active) by done. f_equal. destruct active as [p|]; [|done]. cbn.
    by destruct (matches p (dl_key d)).
  - apply Hrest; [rewrite entries_of_without, Hb|]; by destruct (i =? id)%Z.
Qed.

(** ** Presence *)

(** How often a token is known to stand, by a sequence of events. *)
Definition event_weight (k : Key) (e : Presence) : Z :=
  match e with
  | Joined k' => if bool_decide (k' = k) then 1 else 0
  | Left k' => if bool_decide (k' = k) then -1 else 0
  end.
Definition balance (k : Key) (es : list Presence) : Z := foldr Z.add 0%Z (event_weight k <$> es).

(** How often a token stands. *)
Definition standing (k : Key) (tokens : list (Z * Key)) : Z :=
  Z.of_nat (length (filter (λ e : Z * Key, e.2 = k) tokens)).

Lemma balance_app k a c : balance k (a ++ c) = (balance k a + balance k c)%Z.
Proof.
  unfold balance. induction a as [|e a IH]; [done|]. cbn [app fmap list_fmap foldr]. rewrite IH. lia.
Qed.

Lemma standing_app k a c : standing k (a ++ c) = (standing k a + standing k c)%Z.
Proof. unfold standing. rewrite filter_app, length_app. lia. Qed.

Lemma standing_one k i k' : standing k [(i, k')] = if bool_decide (k' = k) then 1%Z else 0%Z.
Proof. unfold standing. rewrite filter_cons, filter_nil. cbn [snd]. case_decide; by case_bool_decide. Qed.

Lemma standing_delete k tokens pos i k' :
  tokens !! pos = Some (i, k') →
  standing k (delete pos tokens) = (standing k tokens - if bool_decide (k' = k) then 1 else 0)%Z.
Proof.
  intros Hpos. apply list_elem_of_split_length in Hpos as (l1&l2&->&->).
  rewrite delete_middle. change (l1 ++ (i, k') :: l2) with (l1 ++ [(i, k')] ++ l2).
  rewrite !standing_app, standing_one. lia.
Qed.

(** What one operation tells a watcher. *)
Definition op_events (b : Bus) (id : Z) (op : BusOp V) : list Presence :=
  match op with
  | OpToken _ key => omap (λ p, if matches p key then Some (Joined key) else None) (entries_of id (bus_watchers b))
  | OpWatch i key =>
      if (i =? id)%Z
      then omap (λ e : Z * Key, if matches key e.2 then Some (Joined e.2) else None) (bus_tokens b)
      else []
  | OpRemove TokenSlot i =>
      match position (λ e : Z * Key, (e.1 =? i)%Z) (bus_tokens b) with
      | Some pos =>
          match bus_tokens b !! pos with
          | Some (_, key) => omap (λ p, if matches p key then Some (Left key) else None) (entries_of id (bus_watchers b))
          | None => []
          end
      | None => []
      end
  | _ => []
  end.

Lemma presence_events b id e :
  events id (presence b e) =
  omap (λ p, if matches p (presence_key e) then Some e else None) (entries_of id (bus_watchers b)).
Proof. apply omap_table. intros i p. destruct (matches p (presence_key e)); cbn; by destruct (i =? id)%Z. Qed.

Lemma handle_events b op id : events id (handle b op).1 = op_events b id op.
Proof.
  destruct op as [i k|d|i k|i k|i k|k p a r|k tx|[] i]; cbn [handle fst op_events]; try done.
  - apply omap_none. intros [j t]. by destruct (matches t (dl_key d)).
  - apply (presence_events (mkBus _ _ (bus_watchers b) _)).
  - unfold events. induction (bus_tokens b) as [|[j t] l IH]; [by destruct (i =? id)%Z|].
    change ((j, t) :: l) with ([(j, t)] ++ l). rewrite !omap_app, IH. cbn.
    destruct (i =? id)%Z eqn:E, (matches k t); cbn; by rewrite ?E.
  - apply omap_none. intros [j t]. by destruct (matches k t).
  - destruct (position _ _) as [pos|]; [|done]. destruct (bus_tokens b !! pos) as [[j t]|]; [|done].
    apply (presence_events (mkBus _ _ (bus_watchers b) _)).
Qed.

(** What stands after one operation. *)
Definition op_weight (b : Bus) (k : Key) (op : BusOp V) : Z :=
  match op with
  | OpToken _ key => if bool_decide (key = k) then 1 else 0
  | OpRemove TokenSlot i =>
      match position (λ e : Z * Key, (e.1 =? i)%Z) (bus_tokens b) with
      | Some pos =>
          match bus_tokens b !! pos with
          | Some (_, key) => if bool_decide (key = k) then -1 else 0
          | None => 0
          end
      | None => 0
      end
  | _ => 0
  end.

Lemma handle_standing b op k :
  standing k (bus_tokens (handle b op).2) = (standing k (bus_tokens b) + op_weight b k op)%Z.
Proof.
  destruct op as [i key|d|i key|i key|i key|key p a r|key tx|[] i]; cbn [handle snd op_weight bus_tokens]; try lia.
  - by rewrite standing_app, standing_one.
  - destruct (position _ _) as [pos|]; [|cbn; lia]. destruct (bus_tokens b !! pos) as [[j t]|] eqn:E; [|cbn; lia].
    cbn [snd bus_tokens]. rewrite (standing_delete _ _ _ _ _ E). case_bool_decide; lia.
Qed.

Lemma balance_told k p e :
  balance k (omap (λ p, if matches p (presence_key e) then Some e else None) [p]) =
  if matches p k then event_weight k e else 0%Z.
Proof.
  assert (Hw : presence_key e ≠ k → event_weight k e = 0%Z).
  { intros He. destruct e; cbn in *; by rewrite bool_decide_eq_false_2. }
  unfold balance. cbn. destruct (decide (presence_key e = k)) as [<-|He].
  - destruct (matches p (presence_key e)); cbn; lia.
  - destruct (matches p (presence_key e)), (matches p k); cbn; rewrite ?(Hw He); lia.
Qed.

(** A watcher that stands keeps the balance. *)
Lemma op_events_balance b id op p k :
  entries_of id (bus_watchers b) = [p] → declared_id op ≠ Some id →
  balance k (op_events b id op) = if matches p k then op_weight b k op else 0%Z.
Proof.
  intros Hp Hd. destruct op as [i key|d|i key|i key|i key|key q a r|key tx|[] i]; cbn [op_events op_weight];
    try by destruct (matches p k).
  - rewrite Hp. apply (balance_told k p (Joined key)).
  - rewrite (proj2 (Z.eqb_neq i id)) by (intros ->; by cbn in Hd). by destruct (matches p k).
  - destruct (position _ _) as [pos|]; [|by destruct (matches p k)].
    destruct (bus_tokens b !! pos) as [[j t]|]; [|by destruct (matches p k)].
    rewrite Hp. apply (balance_told k p (Left t)).
Qed.

Lemma watch_balance p k tokens :
  balance k (omap (λ e : Z * Key, if matches p e.2 then Some (Joined e.2) else None) tokens) =
  if matches p k then standing k tokens else 0%Z.
Proof.
  induction tokens as [|[i t] l IH]; [by destruct (matches p k)|].
  change ((i, t) :: l) with ([(i, t)] ++ l). rewrite omap_app, balance_app, IH, standing_app, standing_one.
  cbn. case_bool_decide as Hk; [subst t; destruct (matches p k); cbn; rewrite ?bool_decide_eq_true_2 by done; lia|].
  destruct (matches p t), (matches p k); cbn; rewrite ?bool_decide_eq_false_2 by done; lia.
Qed.

(** The bus after the operations [ops]. *)
Record census ops (effects : list (Effect V)) b : Prop := {
  ce_new id : id ∉ declared_ids ops → events id effects = [] ∧ entries_of id (bus_watchers b) = [];
  ce_one id p : (id, p) ∈ bus_watchers b → entries_of id (bus_watchers b) = [p];
  ce_balance id p k : (id, p) ∈ bus_watchers b →
    balance k (events id effects) = if matches p k then standing k (bus_tokens b) else 0%Z;
}.

Lemma elem_entries id p l : (id, p) ∈ l ↔ p ∈ entries_of id l.
Proof.
  unfold entries_of. rewrite list_elem_of_omap. split.
  - intros Hin. exists (id, p). split; [done|]. by rewrite Z.eqb_refl.
  - intros ([i k]&Hin&He). destruct (i =? id)%Z eqn:E; [|done]. apply Z.eqb_eq in E as ->. by injection He as ->.
Qed.

Lemma census_step ops effects b op :
  census ops effects b → NoDup (declared_ids (ops ++ [op])) →
  census (ops ++ [op]) (effects ++ (handle b op).1) (handle b op).2.
Proof.
  intros [Hnew Hone Hbal] Hnd. unfold declared_ids in Hnd. rewrite omap_app in Hnd. fold (declared_ids ops) in Hnd.
  apply NoDup_app in Hnd as (_&Hfresh&_).
  assert (Hids : ∀ id, id ∉ declared_ids (ops ++ [op]) → id ∉ declared_ids ops ∧ declared_id op ≠ Some id).
  { intros id Hid. unfold declared_ids in *. rewrite omap_app in Hid. apply not_elem_of_app in Hid as [H1 H2].
    split; [done|]. intros Hd. cbn in H2. rewrite Hd in H2. set_solver. }
  assert (Hold : ∀ id, declared_id op = Some id → id ∉ declared_ids ops).
  { intros id Hd Hin. apply (Hfresh _ Hin). cbn. rewrite Hd. by left. }
  assert (Hent : ∀ id, entries_of id (bus_watchers (handle b op).2) =
    match op with
    | OpWatch i k => entries_of id (bus_watchers b) ++ if (i =? id)%Z then [k] else []
    | OpRemove WatcherSlot i => if (i =? id)%Z then [] else entries_of id (bus_watchers b)
    | _ => entries_of id (bus_watchers b)
    end).
  { intros id. rewrite handle_watchers. destruct op as [| | |i k| | | |[] i]; try done.
    - rewrite entries_of_app, entries_of_cons. by rewrite app_nil_r.
    - apply entries_of_without. }
  assert (Hstill : ∀ id p, p ∈ entries_of id (bus_watchers (handle b op).2) →
    (entries_of id (bus_watchers b) = [p] ∧ entries_of id (bus_watchers (handle b op).2) = [p] ∧ declared_id op ≠ Some id) ∨
    (op = OpWatch id p ∧ entries_of id (bus_watchers b) = [] ∧ events id effects = [] ∧
     entries_of id (bus_watchers (handle b op).2) = [p])).
  { intros id p. rewrite Hent. intros Hin.
    assert (Hcase : p ∈ entries_of id (bus_watchers b) ∨ op = OpWatch id p).
    { destruct op as [| | |i k| | | |[] i]; auto.
      - apply elem_of_app in Hin as [?|Hin]; [by left|right]. destruct (i =? id)%Z eqn:E; [|set_solver].
        apply Z.eqb_eq in E as ->. by apply list_elem_of_singleton in Hin as ->.
      - destruct (i =? id)%Z; [set_solver|by left]. }
    destruct Hcase as [Hp| ->].
    - left. assert (H1 : entries_of id (bus_watchers b) = [p]) by by apply Hone, elem_entries.
      assert (H2 : declared_id op ≠ Some id).
      { intros Hd. destruct (Hnew id (Hold id Hd)) as [_ He]. by rewrite He in H1. }
      split_and!; [done| |done]. rewrite H1 in Hin |- *. destruct op as [| | |i k| | | |[] i]; try done.
      + cbn in H2. by rewrite (proj2 (Z.eqb_neq i id)) by congruence.
      + destruct (i =? id)%Z; [set_solver|done].
    - right. destruct (Hnew id (Hold id eq_refl)) as [He Hw]. split_and!; [done|done|done|].
      by rewrite Hw, Z.eqb_refl. }
  split.
  - intros id [H1 H2]%Hids. destruct (Hnew id H1) as [He Hw]. rewrite events_app, He, handle_events. split.
    + destruct op as [| | |i k| | | |[] i]; cbn [op_events app]; try done; rewrite ?Hw; try done.
      * cbn in H2. by rewrite (proj2 (Z.eqb_neq i id)) by congruence.
      * destruct (position _ _) as [pos|]; [|done]. by destruct (bus_tokens b !! pos) as [[? ?]|].
    + rewrite Hent, Hw. destruct op as [| | |i k| | | |[] i]; try done.
      * cbn in H2. by rewrite (proj2 (Z.eqb_neq i id)) by congruence.
      * by destruct (i =? id)%Z.
  - intros id p Hin%elem_entries. destruct (Hstill id p Hin) as [(_&H&_)|(_&_&_&H)]; exact H.
  - intros id p k Hin%elem_entries. rewrite events_app, balance_app, handle_events, handle_standing.
    destruct (Hstill id p Hin) as [(H1&_&H2)|(->&_&He&_)].
    + rewrite (Hbal id p k) by (apply elem_entries; rewrite H1; by left).
      rewrite (op_events_balance b id op p k H1 H2). destruct (matches p k); lia.
    + rewrite He. cbn [op_events op_weight]. rewrite Z.eqb_refl, watch_balance. cbn. destruct (matches p k); lia.
Qed.

Lemma census_run ops : NoDup (declared_ids ops) → census ops (bus_run bus_default ops).1 (bus_run bus_default ops).2.
Proof.
  induction ops as [|op ops IH] using rev_ind; intros Hnd.
  { split; cbn; [done|set_solver|set_solver]. }
  assert (Hpre : NoDup (declared_ids ops)).
  { unfold declared_ids in *. rewrite omap_app in Hnd. by apply NoDup_app in Hnd as (?&_&_). }
  pose proof (census_step ops _ _ op (IH Hpre) Hnd) as Hc.
  rewrite bus_run_app. cbn [bus_run]. destruct (handle (bus_run bus_default ops).2 op) as [e b'] eqn:Eh.
  cbn [fst snd]. rewrite app_nil_r. exact Hc.
Qed.
End spec.

Section steps.
Context {V : Type}.
Implicit Types (w : LocalWorld V) (ops : list (BusOp V)).

(** ** Actions *)

Inductive LocalAct : Type :=
  | ActDeclare (slot : Slot) (key : Key)
  | ActElsewhere                      (* another bus takes a number *)
  | ActDrop (guard : LocalGuard)
  | ActPut (key : Key) (payload : Payload V) (attachment : option (list Z)) (now : option Z)
  | ActAlive (key : Key) (tx : nat)
  | ActQuery (key : Key) (payload attachment : option (list Z)) (timeout now : Z)
  | ActTurn
  | ActConsume (n : nat) (item : option (DeliveryResult V))
  | ActPoll (stream : nat) (now : Z)
  | ActDropReplies (stream : nat).

(** The operation of a declaration. *)
Definition declare_op (slot : Slot) : Z → Key → BusOp V :=
  match slot with
  | SubscriberSlot => OpSubscribe
  | TokenSlot => OpToken
  | WatcherSlot => OpWatch
  | ResponderSlot => OpRespond
  end.

Definition act w (a : LocalAct) : LocalWorld V :=
  match a with
  | ActDeclare SubscriberSlot key => (subscribe_delivery w key).2
  | ActDeclare TokenSlot key => (declare_alive w key).2
  | ActDeclare WatcherSlot key => (watch_alive w key).2
  | ActDeclare ResponderSlot key => (respond w key).2
  | ActElsewhere => (next_id w).2
  | ActDrop guard => drop_guard w guard
  | ActPut key payload attachment now => put_payload w key payload attachment now
  | ActAlive key tx => (alive w key tx).2
  | ActQuery key payload attachment timeout now => (query w key payload attachment timeout now).2
  | ActTurn => default w (bus_turn w)
  | ActConsume n item => default w (consume w n item)
  | ActPoll stream now => match next_delivery w stream now with Some (_, w) => w | None => w end
  | ActDropReplies stream => drop_replies w stream
  end.

Definition acts (l : list LocalAct) : LocalWorld V := foldl act (local_new 1) l.

(** ** What an action leaves on the channel *)

Definition act_op w (a : LocalAct) : option (BusOp V) :=
  match a with
  | ActDeclare slot key =>
      match key_validate key with Ok _ => Some (declare_op slot (lw_next_id w) key) | Err _ => None end
  | ActDrop guard => Some (OpRemove guard.1 guard.2)
  | ActPut key payload attachment now => Some (OpPublish (mkDelivery key payload attachment now))
  | ActAlive key tx => match key_validate key with Ok _ => Some (OpAlive key tx) | Err _ => None end
  | ActQuery key payload attachment timeout now =>
      match key_validate key with
      | Ok _ => Some (OpQuery key payload attachment (length (lw_streams w)))
      | Err _ => None
      end
  | _ => None
  end.

(** What a function of every action adds up to. *)
Fixpoint along {A} (f : LocalWorld V → LocalAct → list A) w (l : list LocalAct) : list A :=
  match l with [] => [] | a :: l => f w a ++ along f (act w a) l end.

(** All the operations that were sent. *)
Definition sent_ops : list LocalAct → list (BusOp V) := along (λ w a, option_list (act_op w a)) (local_new 1).

Lemma acts_snoc l a : acts (l ++ [a]) = act (acts l) a.
Proof. unfold acts. by rewrite foldl_app. Qed.

Lemma along_snoc {A} (f : LocalWorld V → LocalAct → list A) l a :
  along f (local_new 1) (l ++ [a]) = along f (local_new 1) l ++ f (acts l) a.
Proof.
  unfold acts. generalize (local_new (V := V) 1). induction l as [|b l IH]; intros w; cbn [app along foldl].
  - by rewrite app_nil_r.
  - by rewrite IH, app_assoc.
Qed.

Lemma sent_snoc l a : sent_ops (l ++ [a]) = sent_ops l ++ option_list (act_op (acts l) a).
Proof. apply (along_snoc (λ w a, option_list (act_op w a))). Qed.

Lemma act_queue w a : a ≠ ActTurn →
  lw_queue (act w a) = lw_queue w ++ option_list (act_op w a) ∧
  lw_bus (act w a) = lw_bus w ∧ lw_calls (act w a) = lw_calls w.
Proof.
  intros Ha. destruct a as [[] key| |g|key p at_ now|key tx|key p at_ t now| |n item|s now|s]; try done; cbn;
    try (unfold subscribe_delivery, declare_alive, watch_alive, respond, declare_handle);
    try (unfold alive); try (unfold query); try (destruct (key_validate key)); cbn; rewrite ?app_nil_r; try done.
  - unfold consume. by destruct (lw_held w !! n).
  - unfold next_delivery. destruct (lw_streams w !! s) as [st|]; [|done]. destruct (rs_items st); [|done].
    by destruct (_ || _).
Qed.

(** ** The operations handled *)

Definition handled_as w (done : list (BusOp V)) : Prop :=
  bus_run bus_default done = (lw_calls w, lw_bus w).

Lemma handled l : ∃ done, sent_ops l = done ++ lw_queue (acts l) ∧ handled_as (acts l) done.
Proof.
  induction l as [|a l (done&Hs&Hr)] using rev_ind; [by exists []|].
  rewrite sent_snoc, acts_snoc, Hs.
  assert (a = ActTurn ∨ a ≠ ActTurn) as [->|Ha] by (destruct a; auto).
  - cbn [act act_op option_list]. rewrite app_nil_r. unfold bus_turn, handled_as in *.
    destruct (lw_queue (acts l)) as [|op q] eqn:Eq; [exists done; cbn [default id from_option]; by rewrite Eq|].
    destruct (handle (lw_bus (acts l)) op) as [e b'] eqn:Eh. exists (done ++ [op]). cbn. split.
    + by rewrite <- app_assoc.
    + rewrite bus_run_app, Hr. cbn. rewrite Eh. cbn. by rewrite app_nil_r.
  - destruct (act_queue (acts l) a Ha) as (Hq&Hb&Hc). exists done. unfold handled_as. rewrite Hq, Hb, Hc.
    split; [by rewrite app_assoc|done].
Qed.

(** ** The numbers *)

Lemma act_next w a : (0 <= lw_next_id w < 2 ^ 64)%Z →
  (lw_next_id (act w a) = lw_next_id w ∧ omap declared_id (option_list (act_op w a)) = []) ∨
  (lw_next_id (act w a) = wrapping_add 64 (lw_next_id w) 1 ∧
   (omap declared_id (option_list (act_op w a)) = [] ∨
    omap declared_id (option_list (act_op w a)) = [lw_next_id w])).
Proof.
  intros Hn. destruct a as [[] key| |g|key p at_ now|key tx|key p at_ t now| |n item|s now|s]; cbn;
    try (unfold subscribe_delivery, declare_alive, watch_alive, respond, declare_handle);
    try (unfold alive); try (unfold query); try (destruct (key_validate key)); cbn; auto.
  - left. split; [|done]. unfold bus_turn. destruct (lw_queue w); [done|]. by destruct (handle _ _).
  - left. split; [|done]. unfold consume. by destruct (lw_held w !! n).
  - left. split; [|done]. unfold next_delivery. destruct (lw_streams w !! s) as [st|]; [|done].
    destruct (rs_items st); [|done]. by destruct (_ || _).
Qed.

(** Before the counter wraps, no number is given twice. *)
Lemma declared_fresh l : (Z.of_nat (length l) < 2 ^ 64 - 1)%Z →
  (1 <= lw_next_id (acts l) <= Z.of_nat (length l) + 1)%Z ∧
  NoDup (declared_ids (sent_ops l)) ∧ Forall (λ i, i < lw_next_id (acts l))%Z (declared_ids (sent_ops l)).
Proof.
  induction l as [|a l IH] using rev_ind; intros Hl; [cbn; split; [lia|split; constructor]|].
  rewrite length_app in *. cbn [length] in *. destruct IH as (Hn&Hnd&Hlt); [lia|].
  rewrite acts_snoc, sent_snoc. unfold declared_ids in *. rewrite omap_app.
  assert (Hw : wrapping_add 64 (lw_next_id (acts l)) 1 = (lw_next_id (acts l) + 1)%Z).
  { unfold wrapping_add. apply wrap_small. unfold is_u. lia. }
  assert (Hup : Forall (λ i, i < lw_next_id (acts l) + 1)%Z (omap declared_id (sent_ops l))).
  { eapply Forall_impl; [exact Hlt|]. intros i Hi. cbn in *. lia. }
  destruct (act_next (acts l) a) as [(->&->)|(->&[->| ->])]; [lia|..]; rewrite ?app_nil_r, ?Hw.
  - split; [lia|done].
  - split; [lia|done].
  - split; [lia|]. split.
    + apply NoDup_app. split; [done|]. split; [|by repeat constructor; set_solver].
      intros i Hi Hin. apply list_elem_of_singleton in Hin as ->. rewrite Forall_forall in Hlt. specialize (Hlt _ Hi). lia.
    + apply Forall_app. split; [done|]. repeat constructor; lia.
Qed.

(** ** The senders of a reply stream *)

(** The queries of a stream that wait on the channel, or that a responder holds. *)
Definition asks (stream : nat) (op : BusOp V) : Prop :=
  match op with OpQuery _ _ _ reply => reply = stream | _ => False end.
#[export] Instance asks_dec stream op : Decision (asks stream op).
Proof. destruct op; cbn; apply _. Defined.

Definition queued_queries (stream : nat) ops : nat := length (filter (asks stream) ops).
Definition held_of (stream : nat) (held : list LocalQuery) : nat :=
  length (filter (λ q, lq_reply q = stream) held).

Definition senders w (stream : nat) : nat := from_option rs_senders 0 (lw_streams w !! stream).

(** A stream has a sender for every query that can still answer on it. *)
Definition senders_counted w : Prop :=
  (∀ stream, stream < length (lw_streams w) →
     senders w stream = queued_queries stream (lw_queue w) + held_of stream (lw_held w)) ∧
  (∀ stream, length (lw_streams w) ≤ stream →
     queued_queries stream (lw_queue w) = 0 ∧ held_of stream (lw_held w) = 0).

Lemma queued_app stream ops1 ops2 :
  queued_queries stream (ops1 ++ ops2) = queued_queries stream ops1 + queued_queries stream ops2.
Proof. unfold queued_queries. by rewrite filter_app, length_app. Qed.

Lemma held_app stream l1 l2 : held_of stream (l1 ++ l2) = held_of stream l1 + held_of stream l2.
Proof. unfold held_of. by rewrite filter_app, length_app. Qed.

Lemma held_one stream q : held_of stream [q] = if decide (lq_reply q = stream) then 1 else 0.
Proof. unfold held_of. rewrite filter_cons, filter_nil. by case_decide. Qed.

Lemma held_delete stream held n q : held !! n = Some q →
  held_of stream held = held_of stream (delete n held) + if decide (lq_reply q = stream) then 1 else 0.
Proof.
  intros Hn. apply list_elem_of_split_length in Hn as (l1&l2&->&->). rewrite delete_middle.
  change (l1 ++ q :: l2) with (l1 ++ [q] ++ l2). rewrite !held_app, held_one. lia.
Qed.

(** A change of one stream, seen from any other or from itself. *)
Lemma alter_senders (f : ReplyStream V → ReplyStream V) g s i (streams : list (ReplyStream V)) :
  (∀ r, rs_senders (f r) = g (rs_senders r)) →
  from_option rs_senders 0 (alter f s streams !! i) =
  if decide (s = i ∧ i < length streams) then g (from_option rs_senders 0 (streams !! i))
  else from_option rs_senders 0 (streams !! i).
Proof.
  intros Hf. destruct (decide (s = i)) as [->|Hne].
  - rewrite list_lookup_alter_eq. case_decide as Hd.
    + destruct Hd as [_ Hlt]. apply lookup_lt_is_Some_2 in Hlt as [r Hr]. rewrite Hr. cbn. apply Hf.
    + rewrite lookup_ge_None_2; [done|]. destruct (decide (i < length streams)); [tauto|lia].
  - rewrite list_lookup_alter_ne by done. rewrite decide_False; [done|]. tauto.
Qed.

Lemma foldl_clone_length held (streams : list (ReplyStream V)) :
  length (foldl (λ streams q, clone_sender (lq_reply q) streams) streams held) = length streams.
Proof.
  revert streams. induction held as [|q held IH]; intros streams; [done|]. cbn. rewrite IH. apply length_alter.
Qed.

Lemma foldl_clone held i (streams : list (ReplyStream V)) : i < length streams →
  from_option rs_senders 0 (foldl (λ streams q, clone_sender (lq_reply q) streams) streams held !! i) =
  from_option rs_senders 0 (streams !! i) + held_of i held.
Proof.
  revert streams. induction held as [|q held IH]; intros streams Hi; [cbn; lia|]. cbn [foldl].
  rewrite IH by (unfold clone_sender; by rewrite length_alter). unfold clone_sender.
  rewrite (alter_senders _ S) by done. change (q :: held) with ([q] ++ held). rewrite held_app, held_one.
  destruct (decide (lq_reply q = i)); case_decide; try lia; tauto.
Qed.
(** The calls of responders come from a query, and answer on its stream. *)
Lemma held_queries_none b (op : BusOp V) : (∀ k p a r, op ≠ OpQuery k p a r) → held_queries (handle b op).1 = [].
Proof.
  intros Hop. unfold held_queries. destruct op as [i k|d|i k|i k|i k|k p a r|k tx|[] i]; cbn [handle fst]; try done.
  - apply omap_none. intros [j t]. by destruct (matches t (dl_key d)).
  - apply omap_none. intros [j t]. cbn. by destruct (matches t k).
  - apply omap_none. intros [j t]. by destruct (matches k t).
  - by destruct (Hop k p a r).
  - destruct (position _ _) as [pos|]; [|done]. destruct (bus_tokens b !! pos) as [[j t]|]; [|done].
    apply omap_none. intros [j' t']. cbn. by destruct (matches t' t).
Qed.

Lemma held_queries_reply b k p a r q :
  q ∈ held_queries (handle (V := V) b (OpQuery k p a r)).1 → lq_reply q = r.
Proof.
  unfold held_queries. cbn [handle fst]. rewrite list_elem_of_omap. intros (e&He&Hq).
  apply list_elem_of_omap in He as ([i t]&_&He). destruct (matches k t); [|done]. injection He as <-.
  by injection Hq as <-.
Qed.

Lemma held_of_other stream held : (∀ q, q ∈ held → lq_reply q ≠ stream) → held_of stream held = 0.
Proof.
  intros Hq. induction held as [|q held IH]; [done|]. change (q :: held) with ([q] ++ held).
  rewrite held_app, held_one, decide_False, IH; [done| |]; set_solver.
Qed.

Lemma queued_other stream ops op : ¬ asks stream op → queued_queries stream (ops ++ [op]) = queued_queries stream ops.
Proof. intros Hno. unfold queued_queries. rewrite filter_app, filter_cons, decide_False, app_nil_r; done. Qed.

Lemma queued_cons stream op ops :
  queued_queries stream (op :: ops) = (if decide (asks stream op) then 1 else 0) + queued_queries stream ops.
Proof. unfold queued_queries. rewrite filter_cons. by case_decide. Qed.

(** Actions that touch no stream keep the count. *)
Lemma counted_register w op : senders_counted w → (∀ i, ¬ asks i op) → senders_counted (bus_register w op).
Proof.
  intros [H1 H2] Hno. split; intros i Hi; cbn [bus_register lw_streams lw_queue lw_held] in *;
    rewrite queued_other by done; [by apply H1|by apply H2].
Qed.

Lemma counted_streams w w' :
  senders_counted w → lw_queue w' = lw_queue w → lw_held w' = lw_held w →
  length (lw_streams w') = length (lw_streams w) → (∀ i, senders w' i = senders w i) → senders_counted w'.
Proof.
  intros [H1 H2] Hq Hh Hl Hs. split; intros i Hi; rewrite Hq, Hh; [rewrite Hs; apply H1|apply H2]; lia.
Qed.

Lemma counted_query w key p a deadline :
  senders_counted w →
  senders_counted (bus_register (mkLocalWorld (lw_next_id w) (lw_queue w) (lw_bus w)
    (lw_streams w ++ [mkStream [] 1 true deadline]) (lw_held w) (lw_calls w))
    (OpQuery key p a (length (lw_streams w)))).
Proof.
  intros [H1 H2]. split; intros i Hi; unfold senders in *; cbn [bus_register lw_streams lw_queue lw_held] in *;
    rewrite length_app in Hi; cbn in Hi; rewrite queued_app, queued_cons; cbn [asks];
    change (queued_queries i []) with 0.
  - destruct (decide (i = length (lw_streams w))) as [->|Hne].
    + rewrite list_lookup_middle by done. rewrite decide_True by done. cbn.
      destruct (H2 (length (lw_streams w))) as [-> ->]; lia.
    + rewrite lookup_app_l by lia. rewrite H1 by lia. rewrite decide_False by done. lia.
  - rewrite decide_False by lia. destruct (H2 i); lia.
Qed.

Lemma counted_turn w w' : senders_counted w → bus_turn w = Some w' → senders_counted w'.
Proof.
  intros [H1 H2]. unfold bus_turn. destruct (lw_queue w) as [|op queue] eqn:Eq; [done|].
  destruct (handle (lw_bus w) op) as [e b'] eqn:Eh. intros [= <-].
  assert (Hheld : ∀ i, ¬ asks i op → held_of i (held_queries e) = 0).
  { intros i Hi. change e with ((e, b').1). rewrite <- Eh. destruct op as [| | | | |k p a r| |];
      try (by rewrite held_queries_none). apply held_of_other. intros q Hq. cbn in Hi.
    by rewrite (held_queries_reply _ _ _ _ _ _ Hq). }
  assert (Hrest : ∀ streams, (∀ i, i < length (lw_streams w) →
      from_option rs_senders 0 (streams !! i) =
      senders w i + held_of i (held_queries e) - if decide (asks i op) then 1 else 0) →
      length streams = length (lw_streams w) →
      senders_counted (mkLocalWorld (lw_next_id w) queue b' streams (lw_held w ++ held_queries e) (lw_calls w ++ e))).
  { intros streams Hs Hl. split; intros i Hi; cbn [lw_streams lw_queue lw_held] in *; rewrite Hl in Hi.
    - unfold senders at 1. cbn [lw_streams]. rewrite Hs, (H1 i Hi), held_app, queued_cons by done. case_decide; lia.
    - destruct (H2 i Hi) as [Hq Hh]. rewrite queued_cons in Hq. rewrite held_app.
      rewrite (Hheld i); [lia|]. case_decide; [lia|done]. }
  destruct op as [i k|d|i k|i k|i k|k p a r|k tx|slot i]; apply Hrest; try (apply foldl_clone_length);
    try (intros j Hj; rewrite foldl_clone by done; unfold senders; cbn [asks]; by rewrite decide_False, Nat.sub_0_r by tauto).
  - intros j Hj. unfold drop_sender. rewrite (alter_senders _ (λ n, n - 1)) by done.
    rewrite foldl_clone by done. rewrite foldl_clone_length. cbn [asks].
    destruct (decide (r = j)); case_decide; unfold senders; try lia; tauto.
  - unfold drop_sender. rewrite length_alter. apply foldl_clone_length.
Qed.

Lemma counted_consume w n item w' : senders_counted w → consume w n item = Some w' → senders_counted w'.
Proof.
  intros [H1 H2]. unfold consume. destruct (lw_held w !! n) as [q|] eqn:En; [|done]. intros [= <-].
  set (streams := match item with Some _ => _ | None => _ end).
  assert (Hst : ∀ i, from_option rs_senders 0 (streams !! i) = senders w i).
  { intros i. unfold streams, senders. destruct item as [item|]; [|done]. unfold send_reply.
    rewrite (alter_senders _ id); [by case_decide|]. intros r. by destruct (rs_open r) eqn:E; cbn. }
  assert (Hl : length streams = length (lw_streams w)).
  { unfold streams. destruct item; [apply length_alter|done]. }
  split; intros i Hi; cbn [lw_streams lw_queue lw_held] in *;
    unfold drop_sender in *; rewrite length_alter, Hl in Hi.
  - unfold senders at 1. cbn [lw_streams]. rewrite (alter_senders _ (λ n, n - 1)) by done. rewrite Hst, (H1 i Hi), (held_delete i _ _ _ En), Hl.
    destruct (decide (lq_reply q = i)); case_decide; try lia; tauto.
  - destruct (H2 i Hi) as [Hq Hh]. rewrite (held_delete i _ _ _ En) in Hh. lia.
Qed.

Lemma counted_act w a : senders_counted w → senders_counted (act w a).
Proof.
  intros Hw.
  assert (Hid : senders_counted (next_id w).2) by (eapply counted_streams; [exact Hw|done..]).
  destruct a as [slot key| |g|key p at_ now|key tx|key p at_ t now| |n item|s now|s]; cbn [act].
  - destruct slot; unfold subscribe_delivery, declare_alive, watch_alive, respond, declare_handle;
      destruct (key_validate key); try done; apply (counted_register _ _ Hid); intros i []. 
  - done.
  - apply counted_register; [done|]. intros i [].
  - apply counted_register; [done|]. intros i [].
  - unfold alive. destruct (key_validate key); [|done]. apply counted_register; [done|]. intros i [].
  - unfold query. destruct (key_validate key); [|done]. by apply counted_query.
  - destruct (bus_turn w) as [w'|] eqn:E; [|exact Hw]. exact (counted_turn _ _ Hw E).
  - destruct (consume w n item) as [w'|] eqn:E; [|exact Hw]. exact (counted_consume _ _ _ _ Hw E).
  - unfold next_delivery. destruct (lw_streams w !! s) as [st|] eqn:E; [|done].
    destruct (rs_items st); [by destruct (_ || _)|]. eapply counted_streams; [exact Hw|done|done|apply length_insert|].
    intros i. unfold senders. cbn [lw_streams]. destruct (decide (s = i)) as [->|Hne].
    + rewrite list_lookup_insert_eq, E; [done|]. by eapply lookup_lt_Some.
    + by rewrite list_lookup_insert_ne.
  - eapply counted_streams; [exact Hw|done|done|apply length_alter|]. intros i. unfold senders. cbn [drop_replies lw_streams].
    rewrite (alter_senders _ id); [by case_decide|done].
Qed.

Lemma counted_acts l : senders_counted (acts l).
Proof.
  induction l as [|a l IH] using rev_ind; [|rewrite acts_snoc; by apply counted_act].
  split; intros i Hi; cbn in *; [lia|done].
Qed.

(** ** The replies on a stream *)

(** The answers that are given on a stream, and those its reader takes. *)
Definition act_answers (stream : nat) w (a : LocalAct) : list (DeliveryResult V) :=
  match a with
  | ActConsume n (Some item) =>
      match lw_held w !! n with Some q => if decide (lq_reply q = stream) then [item] else [] | None => [] end
  | _ => []
  end.
Definition act_received (stream : nat) w (a : LocalAct) : list (DeliveryResult V) :=
  match a with
  | ActPoll s now =>
      match next_delivery w s now with
      | Some (ReplyReady (Some item), _) => if decide (s = stream) then [item] else []
      | _ => []
      end
  | _ => []
  end.
Definition answers (stream : nat) : list LocalAct → list (DeliveryResult V) := along (act_answers stream) (local_new 1).
Definition received (stream : nat) : list LocalAct → list (DeliveryResult V) := along (act_received stream) (local_new 1).

Lemma held_stream_exists w n q : senders_counted w → lw_held w !! n = Some q → lq_reply q < length (lw_streams w).
Proof.
  intros [_ H2] Hn. destruct (decide (lq_reply q < length (lw_streams w))) as [?|Hge]; [done|].
  destruct (H2 (lq_reply q)) as [_ Hh]; [lia|]. rewrite (held_delete _ _ _ _ Hn), decide_True in Hh by done. lia.
Qed.

Lemma alter_stream (f : ReplyStream V → ReplyStream V) s (streams : list (ReplyStream V)) (i : nat) r' :
  (∀ r, rs_items (f r) = rs_items r ∧ rs_open (f r) = rs_open r) → alter f s streams !! i = Some r' →
  ∃ r, streams !! i = Some r ∧ rs_items r' = rs_items r ∧ rs_open r' = rs_open r.
Proof.
  intros Hf. destruct (decide (s = i)) as [->|Hne].
  - rewrite list_lookup_alter_eq. destruct (streams !! i) as [r|]; [|done]. intros [= <-]. exists r.
    split; [done|apply Hf].
  - rewrite list_lookup_alter_ne by done. intros Hr. by exists r'.
Qed.

Lemma foldl_clone_stream held (streams : list (ReplyStream V)) (i : nat) (r' : ReplyStream V) :
  foldl (λ streams q, clone_sender (lq_reply q) streams) streams held !! i = Some r' →
  ∃ r, streams !! i = Some r ∧ rs_items r' = rs_items r ∧ rs_open r' = rs_open r.
Proof.
  revert streams. induction held as [|q held IH]; intros streams Hr; [by exists r'|].
  cbn in Hr. apply IH in Hr as (r1&Hr1&->&->). by apply alter_stream in Hr1.
Qed.

(** A stream holds what was answered and not yet taken. *)
Lemma act_stream w a stream r' :
  senders_counted w → lw_streams (act w a) !! stream = Some r' → rs_open r' = true →
  (∃ r, lw_streams w !! stream = Some r ∧ rs_open r = true ∧
        rs_items r ++ act_answers stream w a = act_received stream w a ++ rs_items r') ∨
  (stream = length (lw_streams w) ∧ rs_items r' = [] ∧ act_answers stream w a = [] ∧ act_received stream w a = []).
Proof.
  intros Hw Hr Ho.
  assert (Hsame : lw_streams (act w a) = lw_streams w → act_answers stream w a = [] → act_received stream w a = [] →
    ∃ r, lw_streams w !! stream = Some r ∧ rs_open r = true ∧
        rs_items r ++ act_answers stream w a = act_received stream w a ++ rs_items r').
  { intros Hs -> ->. rewrite Hs in Hr. exists r'. by rewrite app_nil_r. }
  destruct a as [slot key| |g|key p at_ now|key tx|key p at_ t now| |n item|s now|s]; try (left; by apply Hsame).
  - left. apply Hsame; [|done..]. destruct slot; cbn;
      unfold subscribe_delivery, declare_alive, watch_alive, respond, declare_handle; by destruct (key_validate key).
  - left. apply Hsame; [|done..]. cbn. unfold alive. by destruct (key_validate key).
  - cbn [act act_answers act_received] in *. unfold query in Hr. destruct (key_validate key);
      [|left; exists r'; by rewrite app_nil_r]. cbn in Hr. apply lookup_app_Some in Hr as [Hr|[Hge Hr]].
    + left. exists r'. by rewrite app_nil_r.
    + right. apply list_lookup_singleton_Some in Hr as [Hz <-]. split; [lia|done].
  - left. cbn [act act_answers act_received] in *. unfold bus_turn in *.
    destruct (lw_queue w) as [|op queue]; [by apply Hsame|]. destruct (handle (lw_bus w) op) as [e b'].
    cbn [default from_option id lw_streams] in Hr.
    assert (Hc : ∃ r, foldl (λ streams q, clone_sender (lq_reply q) streams) (lw_streams w) (held_queries e) !! stream = Some r
      ∧ rs_items r' = rs_items r ∧ rs_open r' = rs_open r).
    { destruct op; try (by exists r'). unfold drop_sender in Hr. by apply alter_stream in Hr. }
    destruct Hc as (r1&Hr1&->&Ho1). apply foldl_clone_stream in Hr1 as (r&Hr0&->&Ho0). exists r.
    rewrite app_nil_r. split_and!; [done|congruence|done].
  - left. cbn [act act_answers act_received] in *. unfold consume in Hr.
    destruct (lw_held w !! n) as [q|] eqn:En; cbn [default from_option id lw_streams] in Hr;
      [|exists r'; destruct item; by rewrite app_nil_r].
    unfold drop_sender in Hr. apply alter_stream in Hr; [|done]. destruct Hr as (r1&Hr1&->&Ho1). rewrite Ho in Ho1.
    destruct item as [item|]; [|exists r1; by rewrite app_nil_r]. unfold send_reply in Hr1.
    destruct (decide (lq_reply q = stream)) as [<-|Hne].
    + rewrite list_lookup_alter_eq in Hr1. destruct (lw_streams w !! lq_reply q) as [r|]; [|done].
      injection Hr1 as <-. exists r. destruct (rs_open r) eqn:E; [done|congruence].
    + rewrite list_lookup_alter_ne in Hr1 by done. exists r1. by rewrite app_nil_r.
  - left. cbn [act act_answers act_received] in *. unfold next_delivery in *.
    destruct (lw_streams w !! s) as [st|] eqn:Es; [|exists r'; by rewrite app_nil_r].
    destruct (rs_items st) as [|item items] eqn:Ei; [destruct (_ || _); exists r'; by rewrite app_nil_r|].
    cbn [lw_streams] in Hr. destruct (decide (s = stream)) as [->|Hne].
    + rewrite list_lookup_insert_eq in Hr by (by eapply lookup_lt_Some). injection Hr as <-. exists st.
      rewrite app_nil_r, Ei. by split_and!.
    + rewrite list_lookup_insert_ne in Hr by done. exists r'. by rewrite app_nil_r.
  - left. cbn [act act_answers act_received drop_replies lw_streams] in *. destruct (decide (s = stream)) as [->|Hne].
    + rewrite list_lookup_alter_eq in Hr. destruct (lw_streams w !! stream); [|done]. by injection Hr as <-.
    + rewrite list_lookup_alter_ne in Hr by done. exists r'. by rewrite app_nil_r.
Qed.

Lemma act_streams_grow w a : length (lw_streams w) ≤ length (lw_streams (act w a)).
Proof.
  destruct a as [slot key| |g|key p at_ now|key tx|key p at_ t now| |n item|s now|s]; cbn; try done.
  - destruct slot; unfold subscribe_delivery, declare_alive, watch_alive, respond, declare_handle; by destruct (key_validate key).
  - unfold alive. by destruct (key_validate key).
  - unfold query. destruct (key_validate key); cbn; [rewrite length_app|]; lia.
  - unfold bus_turn. destruct (lw_queue w) as [|op queue]; [done|]. destruct (handle (lw_bus w) op).
    cbn. destruct op; unfold drop_sender; by rewrite ?length_alter, foldl_clone_length.
  - unfold consume. destruct (lw_held w !! n); [|done]. cbn. unfold drop_sender, send_reply.
    destruct item; by rewrite ?length_alter.
  - unfold next_delivery. destruct (lw_streams w !! s) as [st|]; [|done]. destruct (rs_items st); [by destruct (_ || _)|].
    cbn. by rewrite length_insert.
  - by rewrite length_alter.
Qed.

Lemma nothing_yet l stream : length (lw_streams (acts l)) ≤ stream → answers stream l = [] ∧ received stream l = [].
Proof.
  induction l as [|a l IH] using rev_ind; [done|]. rewrite acts_snoc. unfold answers, received in *.
  rewrite !along_snoc. intros Hge. pose proof (act_streams_grow (acts l) a) as Hgrow.
  destruct IH as [-> ->]; [lia|]. destruct a as [slot key| |g|key p at_ now|key tx|key p at_ t now| |n item|s now|s]; try done; cbn.
  - split; [|done]. destruct item as [item|]; [|done]. destruct (lw_held (acts l) !! n) as [q|] eqn:En; [|done].
    rewrite decide_False; [done|]. apply (held_stream_exists _ _ _ (counted_acts l)) in En. lia.
  - split; [done|]. unfold next_delivery. destruct (lw_streams (acts l) !! s) as [st|] eqn:Es; [|done].
    apply lookup_lt_Some in Es. destruct (rs_items st); [by destruct (_ || _)|]. rewrite decide_False; [done|]. lia.
Qed.

(** Every answer is taken once, in order. *)
Lemma replies_in_order l stream r :
  lw_streams (acts l) !! stream = Some r → rs_open r = true → answers stream l = received stream l ++ rs_items r.
Proof.
  revert r. induction l as [|a l IH] using rev_ind; intros r; [done|]. rewrite acts_snoc. intros Hr Ho.
  unfold answers, received. rewrite !along_snoc. fold (answers stream l) (received stream l).
  destruct (act_stream _ _ _ _ (counted_acts l) Hr Ho) as [(r0&Hr0&Ho0&He)|(Hs&->&->&->)].
  - rewrite (IH r0 Hr0 Ho0), <- !app_assoc. by rewrite He.
  - destruct (nothing_yet l stream) as [-> ->]; [lia|done].
Qed.
End steps.

Arguments LocalAct : clear implicits.

(** ** Keys *)

(** C36: the text of an address and its address determine each other: what
    [Key::parse] gives is valid and has the text among its selectors, and every
    selector of a valid address parses to that address. *)
Theorem key_roundtrip k t :
  key_typed k → key_parse t = Some k ↔ key_validate k = Ok tt ∧ t ∈ selectors k.
Proof.
  intros Ht. rewrite key_validate_Ok. split.
  - intros (Hk&m&Hm&->)%parse_sound. split; [done|]. rewrite selectors_markers by done.
    apply list_elem_of_fmap. by exists m.
  - intros [Hk Hin]. rewrite selectors_markers in Hin by done. apply list_elem_of_fmap in Hin as (m&->&Hm).
    by apply parse_text.
Qed.

Definition example_key : Key :=
  mkKey (bytes_of "lab") (Some (bytes_of "arm/left")) None (Some (bytes_of "T")) (Some (bytes_of "@schema/*")).

Definition example_output : Key := key_output (bytes_of "lab") (bytes_of "arm/left") (bytes_of "pose") (bytes_of "T").

Lemma example_key_typed : key_typed example_key.
Proof.
  split; cbn; try (intros ? [= <-]).
  - by vm_compute.
  - repeat constructor; by vm_compute.
  - by vm_compute.
  - by vm_compute.
Qed.

Lemma key_roundtrip_witness :
  key_parse (bytes_of "reiny/v3/lab/arm/left/@in/*/T/@schema/*") = Some example_key.
Proof. apply key_roundtrip; [apply example_key_typed|]. split; [by vm_compute|].
  eapply bool_decide_eq_true_1. by vm_compute. Defined.

Lemma split_display k : key_wf k → key_typed k → split_on 47 (key_display k) = key_segments (direction k) k.
Proof.
  intros Hk Ht. rewrite key_display_segments. apply split_key; [done..|].
  destruct (direction_cases k) as [-> | ->]; vm_compute; set_solver.
Qed.

Lemma split_key_text k m : key_wf k → key_typed k → m ∈ markers k → split_on 47 (key_text k m) = key_segments m k.
Proof. intros Hk Ht Hm. apply split_key; [done..|]. by destruct (marker_verbatim k m Hk Hm). Qed.

Lemma markers_some k : ∃ m, m ∈ markers k.
Proof. unfold markers. destruct (is_verbatim_type k); [|destruct (wildcard_schema k)]; eexists; by left. Qed.

Lemma concrete_marker k m :
  key_wf k → concrete k → m ∈ markers k → key_segments m k = key_segments (direction k) k.
Proof.
  intros Hk Hc Hm. destruct (markers_cases k m Hk Hm) as [(Hv&_)|[Hv [->|[Hw _]]]]; [|done|].
  - unfold key_segments, tail_segments. by rewrite Hv.
  - exfalso. assert (He : k_endpoint k = None).
    { unfold wildcard_schema in Hw. by destruct (k_endpoint k). }
    apply Hc. unfold key_display, key_port. rewrite Hv, He. cbn [fmap option_fmap option_map default].
    rewrite !elem_of_app. do 6 right. left. right. right. left. by vm_compute; left.
Qed.

(** In-process matching is the matching of the network engine: a pattern
    matches an address exactly when one of the key expressions under which the
    Zenoh engine queries it intersects the address's key. *)
Theorem matches_selects intersects (Hke : KeyExpr intersects) p k :
  key_typed p → key_typed k → key_validate p = Ok tt → key_validate k = Ok tt → concrete k →
  matches p k = true ↔ ∃ s, s ∈ selectors p ∧ intersects s (key_display k) = true.
Proof.
  intros Htp Htk Hp%key_validate_Ok Hk%key_validate_Ok Hc. rewrite matches_expr by done.
  rewrite selectors_markers by done. split.
  - intros (m&n&Hmp&Hmk&He). rewrite (concrete_marker k n) in He by done.
    exists (key_text p m). split; [by apply list_elem_of_fmap; exists m|]. apply intersects_spec; [exact Hc|].
    by rewrite split_key_text, split_display.
  - intros (s&Hs&Hi). apply list_elem_of_fmap in Hs as (m&->&Hmp). apply intersects_spec in Hi; [|exact Hc].
    rewrite split_key_text, split_display in Hi by done. destruct (markers_some k) as [n Hn].
    exists m, n. by rewrite (concrete_marker k n).
Qed.

Lemma example_output_typed : key_typed example_output.
Proof.
  split; cbn; try (intros ? [= <-]).
  - by vm_compute.
  - repeat constructor; by vm_compute.
  - by vm_compute.
  - by vm_compute.
Qed.

Definition example_pattern : Key := mkKey (bytes_of "lab") None None (Some (bytes_of "T")) None.

Lemma example_pattern_typed : key_typed example_pattern.
Proof. split; cbn; try (intros ? [= <-]); try done; by vm_compute. Qed.

Lemma matches_selects_witness :
  ∃ s, s ∈ selectors example_pattern ∧
       ke_match (split_on 47 s) (split_on 47 (key_display example_output)) = true.
Proof.
  apply (matches_selects (λ p k, ke_match (split_on 47 p) (split_on 47 k)) KeyExpr_ke_match
           example_pattern example_output); [apply example_pattern_typed|apply example_output_typed|..].
  - by vm_compute.
  - by vm_compute.
  - eapply bool_decide_eq_true_1. by vm_compute.
  - by vm_compute.
Defined.

(** ** The in-process bus *)

Section bus.
Context {V : Type}.

(** C29: whatever any number of threads do with the bus, while fewer than 2^64
    numbers are taken: the operations sent are handled in order, each once;
    every subscriber is called with exactly the publications that match its key
    between its own declaration and the drop of its guard, in the order sent; a
    watcher's events always add up to the tokens that stand and match. *)
Theorem local_bus_exact (l : list (LocalAct V)) :
  (Z.of_nat (length l) < 2 ^ 64 - 1)%Z →
  ∃ done, sent_ops l = done ++ lw_queue (acts l) ∧
    (∀ id, deliveries id (lw_calls (acts l)) = subscriber_view id None done) ∧
    (∀ id p k, (id, p) ∈ bus_watchers (lw_bus (acts l)) →
       balance k (events id (lw_calls (acts l))) =
       if matches p k then standing k (bus_tokens (lw_bus (acts l))) else 0%Z).
Proof.
  intros Hl. destruct (handled l) as (done_&Hs&Hr). destruct (declared_fresh l Hl) as (_&Hnd&_).
  rewrite Hs in Hnd. unfold declared_ids in Hnd. rewrite omap_app in Hnd. apply NoDup_app in Hnd as (Hnd&_&_).
  exists done_. split; [exact Hs|]. unfold handled_as in Hr. split.
  - intros id. change (lw_calls (acts l)) with (lw_calls (acts l), lw_bus (acts l)).1. rewrite <- Hr.
    apply run_deliveries; [done| |exact Hnd]. by intros [].
  - pose proof (census_run done_ Hnd) as [_ _ Hbal]. rewrite Hr in Hbal. exact Hbal.
Qed.

(** C32: a reply stream loses, repeats and reorders nothing, and ends exactly
    when it must: what its reader took and what waits on it are the answers
    given, in order; before the deadline a poll reports the end exactly when
    every answer was taken and no query that could still answer waits on the
    channel or is held by a responder. *)
Theorem local_replies_exact (l : list (LocalAct V)) stream r now :
  lw_streams (acts l) !! stream = Some r → rs_open r = true →
  answers stream l = received stream l ++ rs_items r ∧
  ((now < rs_deadline r)%Z →
   (∃ w, next_delivery (acts l) stream now = Some (ReplyReady None, w)) ↔
   received stream l = answers stream l ∧ queued_queries stream (lw_queue (acts l)) = 0 ∧
   held_of stream (lw_held (acts l)) = 0).
Proof.
  intros Hr Ho. pose proof (replies_in_order l stream r Hr Ho) as Hitems. split; [exact Hitems|]. intros Hnow.
  assert (Hcount : rs_senders r = queued_queries stream (lw_queue (acts l)) + held_of stream (lw_held (acts l))).
  { destruct (counted_acts l) as [Hc _]. rewrite <- Hc; [unfold senders; by rewrite Hr|by eapply lookup_lt_Some]. }
  unfold next_delivery. rewrite Hr, Hitems. destruct (rs_items r) as [|item items].
  - rewrite app_nil_r, (proj2 (Z.leb_gt _ _)), orb_false_r by lia. destruct (rs_senders r =? 0) eqn:E.
    + apply Nat.eqb_eq in E. split; [intros _; split; [done|lia]|]. intros _. by eexists.
    + apply Nat.eqb_neq in E. split; [intros [? [=]]|]. intros (_&?&?). lia.
  - split; [intros [? [=]]|]. intros [He _]. apply (f_equal length) in He. rewrite length_app in He. cbn in He. lia.
Qed.
End bus.

(** A responder answers a query, and a watcher sees a token come and go. *)
Definition example_acts : list (LocalAct nat) :=
  [ActDeclare SubscriberSlot example_output; ActDeclare WatcherSlot example_pattern;
   ActDeclare TokenSlot example_output; ActDeclare ResponderSlot example_output;
   ActPut example_output (PayloadShared 7) None None;
   ActQuery example_pattern None None 1000 0; ActTurn; ActTurn; ActTurn; ActTurn; ActTurn; ActTurn;
   ActConsume 0 (Some (Ok (mkDelivery example_output (PayloadShared 9) None None)))].

Lemma local_bus_exact_witness :
  ∃ done, sent_ops example_acts = done ++ lw_queue (acts example_acts) ∧
    deliveries 1 (lw_calls (acts example_acts)) = subscriber_view 1 None done.
Proof.
  destruct (local_bus_exact example_acts) as (done_&H1&H2&_); [by vm_compute|]. exists done_. split; [exact H1|apply H2].
Defined.

Lemma local_replies_exact_witness :
  answers 0 example_acts = received 0 example_acts ++
    [Ok (mkDelivery example_output (PayloadShared 9) None None)].
Proof.
  apply (local_replies_exact example_acts 0
    (mkStream [Ok (mkDelivery example_output (PayloadShared 9) None None)] 0 true 1000) 5); by vm_compute.
Defined.
