(* ===== verification/EngineRouted.v ===== *)
(** * EngineRouted: the network engine and one host's placement routes
    ([crates/reiny/src/engine/zenoh.rs], [crates/reiny/src/engine/routed.rs])

    The Zenoh session is the parameter [Session]: what it answers to a
    declaration.  A future is the list of its polls that give nothing, with its
    result; a channel of replies is the list of what its polls give, and it is
    closed at the end of the list. *)

From Stdlib Require Import ZArith Lia.
From S2P Require Import Prelude Text Btree Bindings EngineKey EngineLocal.

(** ** The Zenoh engine *)

Inductive SampleKind : Type := SamplePut | SampleDelete.

(** A [zenoh::Sample]; [zs_time] is the system time of its timestamp in
    nanoseconds from the epoch. *)
Record ZSample : Type := mkZSample {
  zs_kind : SampleKind;
  zs_key_expr : str;
  zs_payload : list Z;
  zs_attachment : option (list Z);
  zs_time : option Z;
}.

(** [unix_ns] *)
Definition unix_ns (time : Z) : option Z :=
  if (time <? 0)%Z then None else if (time <=? u64_max)%Z then Some time else None.

(** [convert] *)
Definition zenoh_convert (sample : ZSample) : option Sample :=
  match key_parse (zs_key_expr sample) with
  | None => None
  | Some key => Some (mkSample key (zs_payload sample) (zs_attachment sample) (zs_time sample ≫= unix_ns))
  end.

(** The callback of [Zenoh::subscribe]: the sample it passes on *)
Definition zenoh_on_sample (pattern : Key) (sample : ZSample) : option Sample :=
  match zs_kind sample with
  | SampleDelete => None
  | SamplePut =>
      match zenoh_convert sample with
      | Some s => if matches pattern (sa_key s) then Some s else None
      | None => None
      end
  end.

(** The callback of [Zenoh::watch_alive] *)
Definition zenoh_on_event (pattern : Key) (sample : ZSample) : option Presence :=
  match key_parse (zs_key_expr sample) with
  | None => None
  | Some key =>
      if matches pattern key
      then Some match zs_kind sample with SamplePut => Joined key | SampleDelete => Left key end
      else None
  end.

(** The callback of [Zenoh::respond]: the key of the query it passes on *)
Definition zenoh_on_query (responder : Key) (key_expr : str) : option Key :=
  match key_parse key_expr with
  | None => None
  | Some key => if matches key responder then Some key else None
  end.

(** [Zenoh::alive], on the replies of the session *)
Definition zenoh_alive (pattern : Key) (replies : list (result ZSample (list Z))) : list Key :=
  omap (λ reply, match reply with
                 | Ok sample =>
                     match key_parse (zs_key_expr sample) with
                     | Some key => if matches pattern key then Some key else None
                     | None => None
                     end
                 | Err _ => None
                 end) replies.

(** zenoh's priorities that reiny uses *)
Inductive ZPriority : Type := ZRealTime | ZInteractiveHigh | ZData | ZDataLow | ZBackground.

Definition zenoh_priority (priority : Priority) : ZPriority :=
  match priority with
  | RealTime => ZRealTime | HighPriority => ZInteractiveHigh | NormalPriority => ZData
  | LowPriority => ZDataLow | Background => ZBackground
  end.

Inductive ZCongestionControl : Type := ZDrop | ZBlock.

Definition zenoh_congestion (congestion : CongestionControl) : option ZCongestionControl :=
  match congestion with
  | BackendDefault => None | DropCongested => Some ZDrop | BlockCongested => Some ZBlock
  end.

(** A channel of replies of the session *)
Definition ZReplies : Type := list (option (result ZSample (list Z))).

(** What [ZenohReplies::next] makes of a reply: its result, unless it is skipped *)
Definition zenoh_reply {V} (pattern : Key) (reply : result ZSample (list Z)) : option (DeliveryResult V) :=
  match reply with
  | Err message => Some (Err message)
  | Ok sample =>
      match zenoh_convert sample with
      | Some s => if matches pattern (sa_key s) then Some (Ok (delivery_of s)) else None
      | None => None
      end
  end.

(** [ZenohReplies::next], polled once: the channel at the front ... *)
Fixpoint poll_front {V} (pattern : Key) (front : ZReplies) : option (Polled (V := V) * ZReplies) :=
  match front with
  | [] => None
  | None :: front => Some (ReplyPending, front)
  | Some reply :: front =>
      match zenoh_reply pattern reply with
      | Some r => Some (ReplyReady (Some r), front)
      | None => poll_front pattern front
      end
  end.

(** ... and the next one when it is closed *)
Fixpoint zenoh_next {V} (pattern : Key) (replies : list ZReplies) : Polled (V := V) * list ZReplies :=
  match replies with
  | [] => (ReplyReady None, [])
  | front :: rest =>
      match poll_front pattern front with
      | Some (p, front) => (p, front :: rest)
      | None => zenoh_next pattern rest
      end
  end.

(** ** Routes *)

(** [Caps] of a routed engine *)
Definition caps_and (a b : Caps) : Caps :=
  mkCaps (cap_wildcard_source a && cap_wildcard_source b) (cap_liveliness a && cap_liveliness b)
    (cap_query a && cap_query b) (cap_attachment a && cap_attachment b)
    (cap_congestion_control a && cap_congestion_control b).
Definition routed_caps : Caps := caps_and local_caps caps_ALL.

Inductive Transport : Type := LocalTransport | RemoteTransport.

#[export] Instance Transport_eq_dec : EqDecision Transport.
Proof. solve_decision. Defined.

Definition Placement : Type := btree str str.

(** [Key { source: Some(source.clone()), ..key.clone() }] *)
Definition with_source (source : str) (k : Key) : Key :=
  mkKey (k_domain k) (Some source) (k_endpoint k) (k_ty k) (k_chunk k).

(** The checks of [Routed::new] *)
Definition routed_new_checks (host : str) (placement : Placement) : result unit str :=
  let? _ := ensure_key (negb (trim_empty host)) (bytes_of "routed: empty host") in
  let? _ := for_each (λ e : str * str,
              let? _ := key_validate (mkKey (bytes_of "placement") (Some e.1) None (Some LAUNCH_CHUNK) None) in
              ensure_key (negb (trim_empty e.2)) (bytes_of "routed: empty placement host")) placement in
  ensure_key (existsb (λ e : str * str, bool_decide (e.2 = host)) placement)
    (bytes_of "routed: host has no assigned namespaces").

(** [Routed::routes] *)
Definition routed_routes (host : str) (placement : Placement) (key : Key) (query : bool) :
  result (list (Transport * Key)) str :=
  let? _ := key_validate key in
  let? _ := ensure_key (query || negb (is_none (k_endpoint key))
                        || match k_chunk key with Some chunk => is_none (schema_name chunk) | None => true end)
              (bytes_of "routed: wildcard-direction schema streams are unsupported; use query") in
  let? namespaces := match k_source key with
                     | Some source =>
                         match bt_get source placement with
                         | Some owner => Ok [(source, owner)]
                         | None => Err (bytes_of "routed: unplaced namespace '" ++ source ++ bytes_of "'")
                         end
                     | None => Ok placement
                     end in
  Ok ((λ e : str * str, (if bool_decide (e.2 = host) then LocalTransport else RemoteTransport,
                         with_source e.1 key)) <$> namespaces).

(** [Routed::owned] *)
Definition routed_owned (host : str) (placement : Placement) (key : Key) : result unit str :=
  let? _ := key_validate key in
  let? _ := ensure_key match k_source key with
                       | Some source => bool_decide (bt_get source placement = Some host)
                       | None => false
                       end (bytes_of "routed: declaration requires a namespace assigned to this host") in
  ensure_key (negb (bool_decide (42%Z ∈ key_display key)))
    (bytes_of "routed: declarations require a concrete named address").

(** ** The routed engine *)

(** What a Zenoh session answers; a declaration is known by a number. *)
Class Session (R V : Type) : Type := {
  zn_declare : R → Slot → Key → result Z str * R;
  zn_undeclare : R → Slot → Z → R;
  zn_publisher : R → Key → Qos → result Z str * R;
  zn_put : R → Z → list Z → option (list Z) → result unit str * R;
  zn_get : R → str → option (list Z) → option (list Z) → Z → result Z str * R;
  encode_shared : V → list Z;
}.

Section routed.
Context {R V : Type} `{Session R V}.

Record Routed : Type := mkRouted {
  rd_host : str;
  rd_placement : Placement;
  rd_local : LocalWorld V;
  rd_remote : R;
}.

(** [Routed::new] *)
Definition routed_new (host : str) (placement : Placement) (remote : R) : result Routed str :=
  let? _ := routed_new_checks host placement in
  Ok (mkRouted host placement (local_new 1) remote).

Definition set_local (self : Routed) (w : LocalWorld V) : Routed :=
  mkRouted (rd_host self) (rd_placement self) w (rd_remote self).
Definition set_remote (self : Routed) (r : R) : Routed :=
  mkRouted (rd_host self) (rd_placement self) (rd_local self) r.

(** [subscribe], [declare_alive], [watch_alive] and [respond] of the two engines *)
Definition slot_op (slot : Slot) : Z → Key → BusOp V :=
  match slot with
  | SubscriberSlot => OpSubscribe | TokenSlot => OpToken | WatcherSlot => OpWatch | ResponderSlot => OpRespond
  end.

Definition RouteGuard : Type := Transport * LocalGuard.

Definition engine_declare (self : Routed) (t : Transport) (slot : Slot) (key : Key) : result RouteGuard str * Routed :=
  match t with
  | LocalTransport =>
      let '(r, w) := declare_handle (rd_local self) key slot (slot_op slot) in
      ((let? g := r in Ok (LocalTransport, g)), set_local self w)
  | RemoteTransport =>
      match key_validate key with
      | Err e => (Err e, self)
      | Ok _ =>
          let '(r, z) := zn_declare (rd_remote self) slot key in
          ((let? id := r in Ok (RemoteTransport, (slot, id))), set_remote self z)
      end
  end.

(** A guard of one of the engines is dropped *)
Definition engine_undeclare (self : Routed) (g : RouteGuard) : Routed :=
  match g with
  | (LocalTransport, g) => set_local self (drop_guard (rd_local self) g)
  | (RemoteTransport, (slot, id)) => set_remote self (zn_undeclare (rd_remote self) slot id)
  end.
Definition drop_guards (self : Routed) (guards : list RouteGuard) : Routed := foldl engine_undeclare self guards.

(** The loop of [subscribe_delivery] and [watch_alive]: an error drops the guards
    taken *)
Fixpoint declare_routes (self : Routed) (slot : Slot) (rs : list (Transport * Key)) (guards : list RouteGuard) :
  result (list RouteGuard) str * Routed :=
  match rs with
  | [] => (Ok guards, self)
  | (t, key) :: rs =>
      match engine_declare self t slot key with
      | (Ok g, self) => declare_routes self slot rs (guards ++ [g])
      | (Err e, self) => (Err e, drop_guards self guards)
      end
  end.

(** [subscribe_delivery] and [watch_alive] *)
Definition routed_declare (self : Routed) (slot : Slot) (key : Key) : result (list RouteGuard) str * Routed :=
  match routed_routes (rd_host self) (rd_placement self) key false with
  | Err e => (Err e, self)
  | Ok rs => declare_routes self slot rs []
  end.

(** [declare_alive] and [respond]: both transports *)
Definition routed_declare_owned (self : Routed) (slot : Slot) (key : Key) : result (list RouteGuard) str * Routed :=
  match routed_owned (rd_host self) (rd_placement self) key with
  | Err e => (Err e, self)
  | Ok _ => declare_routes self slot [(LocalTransport, key); (RemoteTransport, key)] []
  end.

(** [publisher]: the local key and the number of the remote publisher *)
Definition routed_publisher (self : Routed) (key : Key) (qos : Qos) : result (Key * Z) str * Routed :=
  match routed_owned (rd_host self) (rd_placement self) key with
  | Err e => (Err e, self)
  | Ok _ =>
      match publisher key qos with
      | Err e => (Err e, self)
      | Ok local =>
          let '(r, z) := zn_publisher (rd_remote self) key qos in
          ((let? remote := r in Ok (local, remote)), set_remote self z)
      end
  end.

(** [Publisher::put_payload]: both transports are tried; the message of the error
    holds both results *)
Definition routed_put (self : Routed) (p : Key * Z) (payload : Payload V) (attachment : option (list Z))
    (now_unix_ns : option Z) : result unit (result unit str) * Routed :=
  let self := set_local self (put_payload (rd_local self) p.1 payload attachment now_unix_ns) in
  let '(remote, z) := zn_put (rd_remote self) p.2 (payload_bytes encode_shared payload) attachment in
  (match remote with Ok _ => Ok tt | Err e => Err (Err e) end, set_remote self z).

(** [Zenoh::query]: a [get] for every selector; an error drops the ones sent *)
Fixpoint zenoh_gets (z : R) (selectors : list str) (payload attachment : option (list Z)) (timeout : Z)
    (gets : list Z) : result (list Z) str * R :=
  match selectors with
  | [] => (Ok gets, z)
  | selector :: selectors =>
      match zn_get z selector payload attachment timeout with
      | (Ok g, z) => zenoh_gets z selectors payload attachment timeout (gets ++ [g])
      | (Err e, z) => (Err e, z)
      end
  end.

(** The streams of [query], with the key that each of them is asked for *)
Inductive QueryStream : Type := LocalStream (stream : nat) | RemoteStream (gets : list Z).

(** Streams are dropped: the receivers of the local ones *)
Definition drop_stream (self : Routed) (s : Key * QueryStream) : Routed :=
  match s.2 with
  | LocalStream stream => set_local self (drop_replies (rd_local self) stream)
  | RemoteStream _ => self
  end.

Fixpoint query_routes (self : Routed) (rs : list (Transport * Key)) (payload attachment : option (list Z))
    (timeout now : Z) (streams : list (Key * QueryStream)) : result (list (Key * QueryStream)) str * Routed :=
  match rs with
  | [] => (Ok streams, self)
  | (LocalTransport, key) :: rs =>
      match query (rd_local self) key payload attachment timeout now with
      | (Ok stream, w) =>
          query_routes (set_local self w) rs payload attachment timeout now (streams ++ [(key, LocalStream stream)])
      | (Err e, w) => (Err e, foldl drop_stream (set_local self w) streams)
      end
  | (RemoteTransport, key) :: rs =>
      match key_validate key with
      | Err e => (Err e, foldl drop_stream self streams)
      | Ok _ =>
          match zenoh_gets (rd_remote self) (selectors key) payload attachment timeout [] with
          | (Ok gets, z) =>
              query_routes (set_remote self z) rs payload attachment timeout now
                (streams ++ [(key, RemoteStream gets)])
          | (Err e, z) => (Err e, foldl drop_stream (set_remote self z) streams)
          end
      end
  end.

Definition routed_query (self : Routed) (key : Key) (payload attachment : option (list Z)) (timeout now : Z) :
  result (list (Key * QueryStream)) str * Routed :=
  match routed_routes (rd_host self) (rd_placement self) key true with
  | Err e => (Err e, self)
  | Ok rs => query_routes self rs payload attachment timeout now []
  end.
End routed.
Arguments Routed : clear implicits.

(** ** Merging futures and streams *)

(** A future of [alive]: how many polls are pending, and its result *)
Definition AliveFuture : Type := nat * result (list Key) str.

Definition alive_poll (f : AliveFuture) : option (result (list Key) str) * AliveFuture :=
  match f with
  | (0, r) => (Some r, f)
  | (S n, r) => (None, (n, r))
  end.

(** [keys.extend(found)]; the order of a hash set is not specified *)
Definition hs_extend (keys found : list Key) : list Key :=
  foldl (λ keys k, if bool_decide (k ∈ keys) then keys else keys ++ [k]) keys found.

(** The loop of [Routed::alive] in one poll *)
Fixpoint alive_round (pending : list (option AliveFuture)) (keys : list Key) :
  result (list (option AliveFuture) * list Key) str :=
  match pending with
  | [] => Ok ([], keys)
  | None :: pending =>
      let? r := alive_round pending keys in Ok (None :: r.1, r.2)
  | Some f :: pending =>
      match alive_poll f with
      | (Some (Ok found), _) => let? r := alive_round pending (hs_extend keys found) in Ok (None :: r.1, r.2)
      | (Some (Err e), _) => Err e
      | (None, f) => let? r := alive_round pending keys in Ok (Some f :: r.1, r.2)
      end
  end.

(** One poll of [Routed::alive]: its result, or the state in which it waits *)
Definition routed_alive_poll (pending : list (option AliveFuture)) (keys : list Key) :
  result (list Key) str + (list (option AliveFuture) * list Key) :=
  match alive_round pending keys with
  | Err e => inl (Err e)
  | Ok (pending, keys) => if forallb is_none pending then inl (Ok keys) else inr (pending, keys)
  end.

(** Polled until it is ready *)
Fixpoint routed_alive (fuel : nat) (pending : list (option AliveFuture)) (keys : list Key) :
  option (result (list Key) str) :=
  match fuel with
  | 0 => None
  | S fuel =>
      match routed_alive_poll pending keys with
      | inl r => Some r
      | inr (pending, keys) => routed_alive fuel pending keys
      end
  end.

(** [Routed::alive] of a key, with the future of each route *)
Definition routed_alive_of (fuel : nat) (host : str) (placement : Placement) (key : Key)
    (future : Transport → Key → AliveFuture) : option (result (list Key) str) :=
  match routed_routes host placement key false with
  | Err e => Some (Err e)
  | Ok rs => routed_alive fuel ((λ r : Transport * Key, Some (future r.1 r.2)) <$> rs) []
  end.

(** A stream of replies, as the engines promise it: its polls give the elements
    of a list, then the end. *)
Class RawReplies (V S : Type) : Type := {
  raw_poll : S → Polled (V := V) * S;
  script : S → list (option (DeliveryResult V));
  raw_poll_script s :
    match script s with
    | [] => (raw_poll s).1 = ReplyReady None
    | None :: r => (raw_poll s).1 = ReplyPending ∧ script (raw_poll s).2 = r
    | Some d :: r => (raw_poll s).1 = ReplyReady (Some d) ∧ script (raw_poll s).2 = r
    end;
}.

Section replies.
Context {V S : Type} `{RawReplies V S}.

(** The [poll_fn] of [Replies::next_delivery]: the first stream that is ready *)
Fixpoint scan (index : nat) (streams : list (Key * S)) :
  option (nat * option (DeliveryResult V)) * list (Key * S) :=
  match streams with
  | [] => (None, [])
  | (key, s) :: rest =>
      match raw_poll s with
      | (ReplyReady r, s) => (Some (index, r), (key, s) :: rest)
      | (ReplyPending, s) => let '(found, rest) := scan (1 + index) rest in (found, (key, s) :: rest)
      end
  end.

(** Whether the key of a stream covers a reply *)
Definition reply_fits (key : Key) (r : DeliveryResult V) : bool :=
  match r with Ok delivery => matches key (dl_key delivery) | Err _ => true end.

(** [Replies::next_delivery], polled once *)
Fixpoint routed_next (fuel : nat) (streams : list (Key * S)) : option (Polled (V := V) * list (Key * S)) :=
  match streams with
  | [] => Some (ReplyReady None, [])
  | _ =>
      match fuel with
      | 0 => None
      | Datatypes.S fuel =>
          match scan 0 streams with
          | (None, streams) => Some (ReplyPending, streams)
          | (Some (index, Some r), streams) =>
              match streams !! index with
              | None => None
              | Some (key, _) =>
                  if reply_fits key r then Some (ReplyReady (Some r), streams) else routed_next fuel streams
              end
          | (Some (index, None), streams) => routed_next fuel (delete index streams)
          end
      end
  end.

(** The replies that a caller gets when it polls to the end *)
Fixpoint routed_replies (fuel : nat) (streams : list (Key * S)) : option (list (DeliveryResult V)) :=
  match fuel with
  | 0 => None
  | Datatypes.S fuel' =>
      match routed_next fuel streams with
      | None => None
      | Some (ReplyReady None, _) => Some []
      | Some (ReplyReady (Some r), streams) => cons r <$> routed_replies fuel' streams
      | Some (ReplyPending, streams) => routed_replies fuel' streams
      end
  end.
End replies.
