(* ===== verification/EngineRoutedProps.v ===== *)
(** * EngineRoutedProps: one host's placement routes

    A reader covers the placed namespaces once; a declaration is made on every
    route or on none; presence censuses and reply streams of several engines are
    merged without loss. *)

From Stdlib Require Import ZArith Lia.
From S2P Require Import Prelude Text Btree Bindings EngineKey EngineLocal EngineProps EngineRouted.

(** ** Reads cover the placement once *)

(** Whether a publication of the host [owner] is seen on a transport of [host]:
    the owner publishes on its own bus and on the network. *)
Definition sees (host owner : str) (t : Transport) : bool :=
  match t with LocalTransport => bool_decide (host = owner) | RemoteTransport => true end.

(** The routes by which a publication reaches a reader. *)
Definition reached (host owner : str) (key : Key) (rs : list (Transport * Key)) : list (Transport * Key) :=
  filter (λ r, sees host owner r.1 && matches r.2 key = true) rs.

Lemma matches_source p key source :
  k_source key = Some source →
  matches p key = match k_source p with Some s => bool_decide (s = source) | None => true end
                  && matches (with_source source p) key.
Proof.
  intros Hk. unfold matches. cbn [k_source k_domain k_ty k_endpoint k_chunk with_source]. rewrite Hk.
  rewrite (bool_decide_eq_true_2 (Some source = Some source)) by done. rewrite andb_true_r.
  destruct (k_source p) as [s|]; [|by rewrite andb_true_r].
  assert (bool_decide (Some source = Some s) = bool_decide (s = source)) as ->.
  { apply bool_decide_ext. naive_solver. }
  by destruct (bool_decide (k_domain p = k_domain key)), (bool_decide (s = source)).
Qed.

Lemma matches_other p key source s : k_source key = Some source → s ≠ source → matches (with_source s p) key = false.
Proof.
  intros Hk Hs. rewrite (matches_source _ _ _ Hk). cbn [k_source with_source].
  by rewrite bool_decide_eq_false_2.
Qed.

Lemma with_source_twice s s' k : with_source s (with_source s' k) = with_source s k.
Proof. done. Qed.

(** The route of a namespace *)
Definition route_of (host : str) (key : Key) (e : str * str) : Transport * Key :=
  (if bool_decide (e.2 = host) then LocalTransport else RemoteTransport, with_source e.1 key).

Lemma routes_Ok host placement key q rs :
  routed_routes host placement key q = Ok rs →
  rs = route_of host key <$> match k_source key with
                             | Some source => match bt_get source placement with
                                              | Some owner => [(source, owner)] | None => [] end
                             | None => placement
                             end
  ∧ key_validate key = Ok tt
  ∧ (∀ source, k_source key = Some source → is_Some (bt_get source placement)).
Proof.
  unfold routed_routes. intros Hr. destruct (key_validate key) as [[]|]; [|done]. cbn [ensure_key] in Hr.
  destruct (ensure_key _ _) as [[]|]; [|done]. destruct (k_source key) as [source|].
  - destruct (bt_get source placement) as [owner|] eqn:E; [|done]. injection Hr as <-. split_and!; [done..|].
    intros ? [= <-]. by rewrite E.
  - injection Hr as <-. split_and!; done.
Qed.

Lemma reached_route host owner key e pattern :
  sees host owner (route_of host pattern e).1 && matches (route_of host pattern e).2 key =
  (if bool_decide (e.2 = host) then bool_decide (host = owner) else true) && matches (with_source e.1 pattern) key.
Proof. unfold route_of. cbn [fst snd]. by destruct (bool_decide _). Qed.

Lemma reached_fmap host owner key pattern (l : list (str * str)) source :
  k_source key = Some source → (source, owner) ∈ l → NoDup l.*1 →
  length (reached host owner key (route_of host pattern <$> l)) =
  if matches (with_source source pattern) key then 1 else 0.
Proof.
  intros Hk Hin Hnd. unfold reached. induction l as [|[s o] l IH]; [by apply elem_of_nil in Hin|].
  cbn [fmap list_fmap]. rewrite filter_cons. cbn [fmap list_fmap fst] in Hnd. apply NoDup_cons in Hnd as [Hs Hnd].
  pose proof (reached_route host owner key (s, o) pattern) as E. cbn [fst snd] in E.
  apply elem_of_cons in Hin as [[= <- <-]|Hin].
  - assert (Hrest : filter (λ r, sees host owner r.1 && matches r.2 key = true) (route_of host pattern <$> l) = []).
    { clear -Hk Hs. induction l as [|[s' o'] l IH]; [done|]. cbn [fmap list_fmap fst] in Hs.
      apply not_elem_of_cons in Hs as [Hne Hs]. cbn [fmap list_fmap]. rewrite filter_cons, decide_False; [by apply IH|].
      rewrite reached_route. cbn [fst snd]. rewrite (matches_other _ _ _ _ Hk) by done. by rewrite andb_false_r. }
    rewrite Hrest. destruct (matches (with_source source pattern) key) eqn:Em.
    + rewrite decide_True; [done|]. rewrite E. destruct (bool_decide (owner = host)) eqn:Eo; [|done].
      breflect_in Eo. by rewrite bool_decide_eq_true_2.
    + rewrite decide_False; [done|]. rewrite E. by rewrite andb_false_r.
  - assert (s ≠ source). { intros ->. apply Hs, list_elem_of_fmap. by exists (source, owner). }
    rewrite decide_False; [by apply IH|]. rewrite E, (matches_other _ _ _ _ Hk) by done. by rewrite andb_false_r.
Qed.

(** C30: a reader gets each publication once: when its pattern is routed, a
    publication under a placed namespace, which its owner sends on its own bus
    and on the network, reaches the reader on exactly one of its routes if the
    pattern matches the address, and on none otherwise. *)
Theorem routed_reads_once host placement pattern q rs key source owner :
  bt_ok placement → routed_routes host placement pattern q = Ok rs →
  k_source key = Some source → bt_get source placement = Some owner →
  length (reached host owner key rs) = if matches pattern key then 1 else 0.
Proof.
  intros Hok (->&_&Hplaced)%routes_Ok Hk Ho. rewrite (matches_source _ _ _ Hk).
  destruct (k_source pattern) as [s|] eqn:Es.
  - destruct (Hplaced s eq_refl) as [o Hs]. rewrite Hs. destruct (bool_decide (s = source)) eqn:E; breflect_in E.
    + subst s. assert (o = owner) as -> by congruence. rewrite (reached_fmap _ _ _ _ _ source); [done|done|..].
      * by apply list_elem_of_singleton.
      * apply NoDup_singleton.
    + cbn [andb]. unfold reached. cbn [fmap list_fmap]. rewrite filter_cons, decide_False; [done|].
      rewrite reached_route. cbn [fst snd]. rewrite (matches_other _ _ _ _ Hk) by done. by rewrite andb_false_r.
  - cbn [andb]. apply (reached_fmap _ _ _ _ _ source); [done|by apply bt_get_elem|by apply bt_ok_NoDup].
Qed.

(** ** A declaration is made on every route or on none *)

Section declare.
Context {R V : Type} `{Session R V}.
Implicit Types (w : LocalWorld V) (self : Routed R V).

(** The bus when its channel is handled. *)
Definition settled w : Bus := (bus_run (lw_bus w) (lw_queue w)).2.

Lemma settled_register w op : settled (bus_register w op) = (handle (settled w) op).2.
Proof.
  unfold settled. cbn [lw_bus lw_queue bus_register]. rewrite bus_run_app. cbn [bus_run].
  destruct (bus_run (lw_bus w) (lw_queue w)) as [e b]. cbn [snd]. by destruct (handle b op).
Qed.

Definition table (slot : Slot) (b : Bus) : list (Z * Key) :=
  match slot with
  | SubscriberSlot => bus_subscribers b | TokenSlot => bus_tokens b
  | WatcherSlot => bus_watchers b | ResponderSlot => bus_responders b
  end.
Definition set_table (slot : Slot) (t : list (Z * Key)) (b : Bus) : Bus :=
  match slot with
  | SubscriberSlot => mkBus t (bus_tokens b) (bus_watchers b) (bus_responders b)
  | TokenSlot => mkBus (bus_subscribers b) t (bus_watchers b) (bus_responders b)
  | WatcherSlot => mkBus (bus_subscribers b) (bus_tokens b) t (bus_responders b)
  | ResponderSlot => mkBus (bus_subscribers b) (bus_tokens b) (bus_watchers b) t
  end.

Lemma set_table_table slot b : set_table slot (table slot b) b = b.
Proof. by destruct slot, b. Qed.
Lemma table_set slot t b : table slot (set_table slot t b) = t.
Proof. by destruct slot. Qed.
Lemma set_table_twice slot t t' b : set_table slot t (set_table slot t' b) = set_table slot t b.
Proof. by destruct slot. Qed.

Lemma handle_declared slot id key b :
  (handle b (slot_op (V := V) slot id key)).2 = set_table slot (table slot b ++ [(id, key)]) b.
Proof. by destruct slot. Qed.

Lemma without_fresh id (l : list (Z * Key)) : id ∉ l.*1 → without id l = l.
Proof.
  intros Hid. unfold without. induction l as [|[i k] l IH]; [done|]. cbn [fmap list_fmap fst] in Hid.
  apply not_elem_of_cons in Hid as [Hne Hid]. rewrite filter_cons, decide_True by (cbn; congruence).
  by rewrite IH.
Qed.

Lemma handle_removed slot id key pre post b :
  table slot b = pre ++ (id, key) :: post → id ∉ pre.*1 → id ∉ post.*1 →
  (handle b (OpRemove (V := V) slot id)).2 = set_table slot (pre ++ post) b.
Proof.
  intros Ht Hpre Hpost.
  assert (Hw : without id (table slot b) = pre ++ post).
  { rewrite Ht. unfold without. rewrite filter_app, filter_cons, decide_False by (cbn; tauto).
    fold (without id pre) (without id post). by rewrite !without_fresh. }
  destruct slot; cbn [table] in *; cbn [handle snd set_table]; try by rewrite Hw.
  assert (Hp : position (λ e : Z * Key, (e.1 =? id)%Z) (bus_tokens b) = Some (length pre)).
  { rewrite Ht. clear -Hpre. induction pre as [|[i k] pre IH]; cbn [app position fst length].
    - by rewrite Z.eqb_refl.
    - cbn [fmap list_fmap fst] in Hpre. apply not_elem_of_cons in Hpre as [Hne Hpre].
      rewrite (proj2 (Z.eqb_neq i id)) by congruence. by rewrite IH. }
  rewrite Hp, Ht, list_lookup_middle by done. cbn [snd]. by rewrite delete_middle.
Qed.

(** The guards of the routes taken, with their local entries. *)
Definition guard_fits (slot : Slot) (g : RouteGuard) (r : Transport * Key) : Prop :=
  g.1 = r.1 ∧ (g.1 = LocalTransport → g.2.1 = slot).

Fixpoint local_entries (guards : list RouteGuard) (rs : list (Transport * Key)) : list (Z * Key) :=
  match guards, rs with
  | (LocalTransport, (_, id)) :: guards, (_, key) :: rs => (id, key) :: local_entries guards rs
  | _ :: guards, _ :: rs => local_entries guards rs
  | _, _ => []
  end.

Lemma local_entries_app guards rs guards' rs' :
  length guards = length rs → local_entries (guards ++ guards') (rs ++ rs') = local_entries guards rs ++ local_entries guards' rs'.
Proof.
  revert rs. induction guards as [|[[] [s id]] guards IH]; intros [|[t k] rs]; cbn [length app local_entries]; try done;
    intros [= Hl]; rewrite IH by done; done.
Qed.

Lemma local_entries_length guards rs : length (local_entries guards rs) ≤ length guards.
Proof.
  revert rs. induction guards as [|[[] [s id]] guards IH]; intros [|[t k] rs]; cbn [length local_entries]; try lia;
    specialize (IH rs); lia.
Qed.

(** Dropping the guards takes the entries out. *)
Lemma drop_guards_settled slot guards rs self pre :
  Forall2 (guard_fits slot) guards rs →
  NoDup (pre ++ local_entries guards rs).*1 →
  table slot (settled (rd_local self)) = pre ++ local_entries guards rs →
  settled (rd_local (drop_guards self guards)) = set_table slot pre (settled (rd_local self)).
Proof.
  intros Hf. revert self. induction Hf as [|[t [s id]] [t' key] guards rs [Ht Hs] _ IH]; intros self Hnd Htab.
  - cbn [local_entries drop_guards foldl] in *. rewrite app_nil_r in Htab. by rewrite <- Htab, set_table_table.
  - cbn [fst snd] in *. subst t'. cbn [drop_guards foldl]. fold (drop_guards (R := R) (V := V)).
    destruct t; cbn [local_entries engine_undeclare] in *.
    + rewrite (Hs eq_refl). rewrite fmap_app in Hnd. cbn [fmap list_fmap fst] in Hnd.
      apply NoDup_app in Hnd as (Hnd1&Hdis&Hnd2). apply NoDup_cons in Hnd2 as [Hid Hnd2].
      assert (Hpre : id ∉ pre.*1) by (intros Hin; apply (Hdis _ Hin); by left).
      assert (Hset : settled (rd_local (set_local self (drop_guard (rd_local self) (slot, id)))) =
                     set_table slot (pre ++ local_entries guards rs) (settled (rd_local self))).
      { cbn [set_local rd_local]. unfold drop_guard. cbn [fst snd]. rewrite settled_register. by eapply handle_removed. }
      change (foldl engine_undeclare ?x guards) with (drop_guards x guards).
      rewrite IH.
      * by rewrite Hset, set_table_twice.
      * rewrite fmap_app. apply NoDup_app. split_and!; [done| |done]. intros x Hx Hx2. apply (Hdis _ Hx). by right.
      * by rewrite Hset, table_set.
    + change (foldl engine_undeclare ?x guards) with (drop_guards x guards). rewrite IH; [done|done|done].
Qed.

(** The numbers that the next declarations take are new. *)
Definition ids_fresh (slot : Slot) w : Prop :=
  (0 ≤ lw_next_id w)%Z ∧ NoDup (table slot (settled w)).*1 ∧
  Forall (λ e : Z * Key, e.1 < lw_next_id w)%Z (table slot (settled w)).

Lemma engine_declare_local self slot key g self' :
  ids_fresh slot (rd_local self) → (lw_next_id (rd_local self) + 1 < 2 ^ 64)%Z →
  engine_declare self LocalTransport slot key = (Ok g, self') →
  g = (LocalTransport, (slot, lw_next_id (rd_local self))) ∧
  lw_next_id (rd_local self') = (lw_next_id (rd_local self) + 1)%Z ∧
  settled (rd_local self') =
    set_table slot (table slot (settled (rd_local self)) ++ [(lw_next_id (rd_local self), key)]) (settled (rd_local self)).
Proof.
  intros (H0&_&_) Hn. unfold engine_declare, declare_handle. destruct (key_validate key); [|done].
  cbn [next_id]. intros [= <- <-]. split; [done|]. cbn [set_local rd_local bus_register lw_next_id].
  split; [unfold wrapping_add; apply wrap_small; unfold is_u; lia|].
  rewrite settled_register, handle_declared. done.
Qed.

Lemma engine_declare_err self t slot key e self' :
  engine_declare self t slot key = (Err e, self') → rd_local self' = rd_local self.
Proof.
  unfold engine_declare, declare_handle. destruct t.
  - destruct (key_validate key); cbn; by intros [= _ <-].
  - destruct (key_validate key); [|by intros [= _ <-]]. destruct (zn_declare _ _ _) as [[]]; cbn; by intros [= _ <-].
Qed.

Lemma engine_declare_remote self slot key g self' :
  engine_declare self RemoteTransport slot key = (Ok g, self') →
  g.1 = RemoteTransport ∧ rd_local self' = rd_local self.
Proof.
  unfold engine_declare. destruct (key_validate key); [|done].
  destruct (zn_declare _ _ _) as [[]]; cbn; by intros [= <- <-].
Qed.

Lemma ids_fresh_next slot w w' key :
  ids_fresh slot w → lw_next_id w' = (lw_next_id w + 1)%Z →
  settled w' = set_table slot (table slot (settled w) ++ [(lw_next_id w, key)]) (settled w) → ids_fresh slot w'.
Proof.
  intros (H0&Hnd&Hlt) Hn Hs. unfold ids_fresh. rewrite Hn, Hs, table_set, fmap_app. split_and!; [lia|..].
  - apply NoDup_app. split_and!; [done| |apply NoDup_singleton]. intros x Hx Hx2.
    apply list_elem_of_singleton in Hx2 as ->. apply list_elem_of_fmap in Hx as (e&He1&He).
    pose proof (proj1 (Forall_forall _ _) Hlt e He) as Hlt'. cbn in Hlt'. cbn [fst] in He1. lia.
  - apply Forall_app. split; [|repeat constructor; cbn; lia]. eapply Forall_impl; [exact Hlt|]. cbn. lia.
Qed.

Lemma declare_routes_settled slot rs self guards taken pre b :
  Forall2 (guard_fits slot) guards taken →
  ids_fresh slot (rd_local self) → (lw_next_id (rd_local self) + Z.of_nat (length rs) < 2 ^ 64)%Z →
  settled (rd_local self) = set_table slot (pre ++ local_entries guards taken) b →
  match declare_routes self slot rs guards with
  | (Err _, self') => settled (rd_local self') = set_table slot pre b
  | (Ok guards', self') =>
      Forall2 (guard_fits slot) guards' (taken ++ rs) ∧
      settled (rd_local self') = set_table slot (pre ++ local_entries guards' (taken ++ rs)) b
  end.
Proof.
  revert self guards taken. induction rs as [|[t key] rs IH]; intros self guards taken Hf Hfr Hn Hs; cbn [declare_routes].
  - by rewrite app_nil_r.
  - destruct (engine_declare self t slot key) as [[g|e] self'] eqn:E.
    + cbn [length] in Hn. rewrite (cons_middle (t, key) taken rs), (assoc_L (++)).
      destruct t.
      * apply engine_declare_local in E as (->&Hn'&Hs'); [|done|lia]. rewrite Hs, table_set in Hs'.
        apply IH; [|by eapply ids_fresh_next; [exact Hfr|exact Hn'|rewrite Hs, table_set; exact Hs']|lia|].
        -- apply Forall2_app; [done|]. by repeat constructor.
        -- rewrite Hs', set_table_twice, local_entries_app by (by eapply Forall2_length).
           by rewrite (assoc_L (++)).
      * apply engine_declare_remote in E as [Hg Hl]. apply IH; rewrite ?Hl; [|done|lia|].
        -- apply Forall2_app; [done|]. repeat constructor; [done|]. intros Hc. congruence.
        -- rewrite local_entries_app by (by eapply Forall2_length). destruct g as [? [? ?]]. cbn in Hg. subst.
           cbn [local_entries]. by rewrite app_nil_r.
    + apply engine_declare_err in E. assert (Ht : table slot (settled (rd_local self')) = pre ++ local_entries guards taken).
      { by rewrite E, Hs, table_set. }
      rewrite (drop_guards_settled slot guards taken self' pre); [|done| |done].
      * by rewrite E, Hs, set_table_twice.
      * rewrite <- Ht, E. apply Hfr.
Qed.

(** A declaration is made on every route or on none: [Routed] subscribes and
    watches by declaring each route of the pattern, and when one of them is
    refused, the in-process bus handles the operations that were sent back to
    the tables it had; when all are taken, the bus gains exactly the entries of
    the local routes. *)
Theorem routed_declare_all_or_none self slot key :
  ids_fresh slot (rd_local self) →
  (lw_next_id (rd_local self) + Z.of_nat (length (rd_placement self)) + 1 < 2 ^ 64)%Z →
  match routed_declare self slot key with
  | (Err _, self') => settled (rd_local self') = settled (rd_local self)
  | (Ok guards, self') =>
      ∃ rs, routed_routes (rd_host self) (rd_placement self) key false = Ok rs ∧
        Forall2 (guard_fits slot) guards rs ∧
        settled (rd_local self') =
          set_table slot (table slot (settled (rd_local self)) ++ local_entries guards rs) (settled (rd_local self))
  end.
Proof.
  intros Hfr Hn. unfold routed_declare. destruct (routed_routes _ _ key false) as [rs|] eqn:Hr; [|done].
  pose proof (declare_routes_settled slot rs self [] [] (table slot (settled (rd_local self)))
                (settled (rd_local self))) as Hd.
  cbn [local_entries app] in Hd. rewrite app_nil_r, set_table_table in Hd.
  assert (Hlen : length rs ≤ length (rd_placement self) + 1).
  { apply routes_Ok in Hr as (->&_). rewrite length_fmap. destruct (k_source key) as [s|]; [|lia].
    destruct (bt_get s _); cbn; lia. }
  specialize (Hd ltac:(constructor) Hfr ltac:(lia) eq_refl).
  destruct (declare_routes self slot rs []) as [[guards|] self']; [|done]. exists rs. destruct Hd. done.
Qed.
End declare.

(** ** Streams of replies *)

(** [merges ls r]: [r] is an interleaving of the lists [ls]. *)
Inductive merges {A} : list (list A) → list A → Prop :=
  | merges_nil ls : Forall (λ l, l = []) ls → merges ls []
  | merges_step ls i x l r : ls !! i = Some (x :: l) → merges (<[i := l]> ls) r → merges ls (x :: r).

Lemma merges_delete {A} (ls : list (list A)) i r : ls !! i = Some [] → merges (delete i ls) r → merges ls r.
Proof.
  intros Hi Hm. remember (delete i ls) as ks eqn:Ek. revert ls i Hi Ek.
  induction Hm as [ks Hks|ks j x l r Hj _ IH]; intros ls i Hi ->.
  - constructor. apply Forall_lookup. intros n l Hn. destruct (decide (n = i)) as [->|Hne]; [congruence|].
    apply (proj1 (Forall_forall _ _) Hks). apply list_elem_of_lookup. destruct (decide (n < i)).
    + exists n. by rewrite list_lookup_delete_lt.
    + exists (n - 1). rewrite list_lookup_delete_ge by lia. by replace (S (n - 1)) with n by lia.
  - destruct (decide (j < i)) as [Hlt|Hge].
    + rewrite list_lookup_delete_lt in Hj by done. apply (merges_step _ j x l); [done|].
      apply (IH _ i); [by rewrite list_lookup_insert_ne by lia|].
      apply list_eq. intros n. destruct (decide (n = j)) as [->|Hne].
      * rewrite list_lookup_insert_eq; [|by apply lookup_lt_Some in Hj; rewrite length_delete by eauto; 
          pose proof (lookup_lt_Some _ _ _ Hi); lia].
        rewrite list_lookup_delete_lt by done. rewrite list_lookup_insert_eq; [done|by eapply lookup_lt_Some].
      * rewrite list_lookup_insert_ne by done. destruct (decide (n < i)).
        -- rewrite !list_lookup_delete_lt by done. by rewrite list_lookup_insert_ne.
        -- rewrite !list_lookup_delete_ge by lia. by rewrite list_lookup_insert_ne by lia.
    + rewrite list_lookup_delete_ge in Hj by lia. apply (merges_step _ (S j) x l); [done|].
      apply (IH _ i); [by rewrite list_lookup_insert_ne by lia|].
      pose proof (lookup_lt_Some _ _ _ Hj). pose proof (lookup_lt_Some _ _ _ Hi).
      apply list_eq. intros n. destruct (decide (n = j)) as [->|Hne].
      * rewrite list_lookup_insert_eq by (rewrite length_delete by eauto; lia).
        rewrite list_lookup_delete_ge by lia. by rewrite list_lookup_insert_eq by lia.
      * rewrite list_lookup_insert_ne by done. destruct (decide (n < i)).
        -- rewrite !list_lookup_delete_lt by done. by rewrite list_lookup_insert_ne by lia.
        -- rewrite !list_lookup_delete_ge by lia. by rewrite list_lookup_insert_ne by lia.
Qed.

Section replies.
Context {V S : Type} `{RawReplies V S}.

(** What a stream still gives that fits its key. *)
Definition fitting (e : Key * S) : list (DeliveryResult V) :=
  filter (λ r, reply_fits e.1 r = true) (omap id (script e.2)).

Definition weight (streams : list (Key * S)) : nat :=
  sum_list_with (λ e : Key * S, Datatypes.S (length (script e.2))) streams.

(** A poll that was pending. *)
Definition quiet (e e' : Key * S) : Prop := e'.1 = e.1 ∧ script e.2 = None :: script e'.2.

Lemma quiet_fitting l l' : Forall2 quiet l l' → fitting <$> l' = fitting <$> l.
Proof.
  induction 1 as [|[k s] [k' s'] l l' [Hk Hs] _ IH]; [done|]. cbn [fst snd] in *. subst k'.
  cbn [fmap list_fmap]. rewrite IH. unfold fitting. cbn [fst snd]. by rewrite Hs.
Qed.

Lemma quiet_weight l l' : Forall2 quiet l l' → weight l = weight l' + length l'.
Proof.
  unfold weight. induction 1 as [|e e' l l' [Hk Hs] _ IH]; [done|]. cbn [sum_list_with length]. rewrite Hs. cbn [length].
  lia.
Qed.

Lemma weight_app l l' : weight (l ++ l') = weight l + weight l'.
Proof. unfold weight. by rewrite sum_list_with_app. Qed.

Lemma scan_spec index streams :
  match scan index streams with
  | (None, streams') => Forall2 quiet streams streams'
  | (Some (i, r), streams') =>
      ∃ pre pre' key s s' rest, streams = pre ++ (key, s) :: rest ∧ streams' = pre' ++ (key, s') :: rest ∧
        Forall2 quiet pre pre' ∧ i = index + length pre' ∧ raw_poll s = (ReplyReady r, s')
  end.
Proof.
  revert index. induction streams as [|[key s] rest IH]; intros index; cbn [scan]; [constructor|].
  pose proof (raw_poll_script s) as Hp. destruct (raw_poll s) as [[r|] s'] eqn:Es; cbn [fst snd] in Hp.
  - exists [], [], key, s, s', rest. split_and!; [done..|constructor|cbn; lia|done].
  - assert (Hq : quiet (key, s) (key, s')).
    { split; [done|]. cbn [snd]. destruct (script s) as [|[d|] items]; [done|by destruct Hp|]. destruct Hp as [_ ->]. done. }
    specialize (IH (1 + index)). destruct (scan (1 + index) rest) as [[[i r]|] rest'].
    + destruct IH as (pre&pre'&k&t&t'&rest0&->&->&Hf&->&Ht).
      exists ((key, s) :: pre), ((key, s') :: pre'), k, t, t', rest0.
      split_and!; [done|done|by constructor|cbn [length]; lia|done].
    + by constructor.
Qed.

Lemma middle {A} (a b : list A) x i : i = length a → (a ++ x :: b) !! i = Some x.
Proof. intros ->. by apply list_lookup_middle. Qed.

(** One poll of the merged stream, and what is left. *)
Lemma routed_next_spec fuel streams :
  weight streams < fuel →
  match routed_next fuel streams with
  | None => False
  | Some (ReplyReady None, _) => merges (fitting <$> streams) []
  | Some (ReplyReady (Some r), streams') =>
      weight streams' < weight streams ∧
      ∀ rs, merges (fitting <$> streams') rs → merges (fitting <$> streams) (r :: rs)
  | Some (ReplyPending, streams') =>
      weight streams' < weight streams ∧
      ∀ rs, merges (fitting <$> streams') rs → merges (fitting <$> streams) rs
  end.
Proof.
  revert streams. induction fuel as [|fuel IH]; intros streams Hw; [lia|]. cbn [routed_next].
  destruct streams as [|e streams]; [by constructor|]. remember (e :: streams) as l eqn:El.
  pose proof (scan_spec 0 l) as Hs. destruct (scan 0 l) as [[[i r]|] l'].
  2: { split; [|by rewrite (quiet_fitting _ _ Hs)]. pose proof (quiet_weight _ _ Hs). subst l.
       apply Forall2_length in Hs. cbn [length] in Hs. lia. }
  destruct Hs as (pre&pre'&key&s&s'&rest&->&->&Hf&->&Hp). cbn [plus].
  pose proof (raw_poll_script s) as Hscr. rewrite Hp in Hscr. cbn [fst snd] in Hscr. clear El e streams Hp.
  pose proof (quiet_fitting _ _ Hf) as Hfit. pose proof (quiet_weight _ _ Hf) as Hwt.
  rewrite weight_app in Hw. unfold weight in Hw at 2. cbn [sum_list_with snd] in Hw. fold (weight rest) in Hw.
  rewrite fmap_app. cbn [fmap list_fmap].
  assert (Hone : ∀ t, weight ((key, t) :: rest) = Datatypes.S (length (script t) + weight rest)) by done.
  destruct r as [r|].
  - destruct (script s) as [|[d|] items] eqn:Ei; [done| |by destruct Hscr].
    destruct Hscr as [[= <-] Hs']. rewrite (middle pre' rest (key, s')) by done.
    assert (Hlt : weight (pre' ++ (key, s') :: rest) < weight (pre ++ (key, s) :: rest)).
    { rewrite !weight_app, !Hone, Hs', Ei. cbn [length]. lia. }
    assert (Hfs : fitting (key, s) = (if reply_fits key r then [r] else []) ++ fitting (key, s')).
    { unfold fitting. cbn [fst snd]. rewrite Ei, Hs'. cbn [omap list_omap id]. rewrite filter_cons.
      destruct (reply_fits key r) eqn:Er; [by rewrite decide_True|by rewrite decide_False by congruence]. }
    destruct (reply_fits key r) eqn:Er.
    + split; [done|]. intros rs Hm.
      apply (merges_step _ (length (fitting <$> pre)) r (fitting (key, s'))).
      * rewrite middle by done. by rewrite Hfs.
      * rewrite insert_app_r_alt, Nat.sub_diag by done. cbn. by rewrite fmap_app, Hfit in Hm.
    + assert (Heq : (fitting <$> pre' ++ (key, s') :: rest) = (fitting <$> pre) ++ fitting (key, s) :: (fitting <$> rest)).
      { rewrite fmap_app, Hfit. cbn [fmap list_fmap]. by rewrite Hfs. }
      assert (Hlt2 : weight (pre' ++ (key, s') :: rest) < fuel) by (rewrite weight_app, Hone, Hs'; cbn [length] in Hw; lia).
      specialize (IH (pre' ++ (key, s') :: rest) Hlt2). rewrite Heq in IH.
      destruct (routed_next fuel (pre' ++ (key, s') :: rest)) as [[[[r'|]|] st]|]; [|done|..|done];
        (split; [destruct IH as [IH _]; lia|apply IH]).
  - destruct (script s) as [|[d|] items] eqn:Ei; [|by destruct Hscr as [[=] _]..].
    assert (Hfs : fitting (key, s) = []) by (unfold fitting; cbn [snd]; by rewrite Ei).
    rewrite delete_middle. rewrite Hfs.
    assert (Hlt : weight (pre' ++ rest) < weight (pre ++ (key, s) :: rest)) by (rewrite !weight_app, Hone; lia).
    assert (Hm : ∀ rs, merges (fitting <$> pre' ++ rest) rs → merges ((fitting <$> pre) ++ [] :: (fitting <$> rest)) rs).
    { intros rs Hm. rewrite fmap_app, Hfit in Hm. eapply (merges_delete _ (length (fitting <$> pre))).
      - by rewrite middle.
      - by rewrite delete_middle. }
    assert (Hlt2 : weight (pre' ++ rest) < fuel) by (rewrite weight_app; cbn [length] in Hw; lia).
    specialize (IH (pre' ++ rest) Hlt2).
    destruct (routed_next fuel (pre' ++ rest)) as [[[[r'|]|] st]|]; [|by apply Hm|..|done].
    + destruct IH as [IHw IHm]. split; [lia|]. intros rs Hrs. apply Hm, IHm, Hrs.
    + destruct IH as [IHw IHm]. split; [lia|]. intros rs Hrs. apply Hm, IHm, Hrs.
Qed.

(** The merged reply stream of several engines ends and loses nothing: polled
    to its end it gives an interleaving of what each stream gives, each in its
    order and each reply once, without the deliveries whose key the route of
    the stream does not cover. *)
Theorem routed_replies_merge streams :
  ∃ rs, routed_replies (Datatypes.S (weight streams)) streams = Some rs ∧ merges (fitting <$> streams) rs.
Proof.
  assert (Hg : ∀ fuel streams, weight streams < fuel →
    ∃ rs, routed_replies fuel streams = Some rs ∧ merges (fitting <$> streams) rs); [|apply Hg; lia].
  clear streams. induction fuel as [|fuel IH]; intros streams Hw; [lia|].
  pose proof (routed_next_spec (Datatypes.S fuel) streams Hw) as Hn. cbn [routed_replies].
  destruct (routed_next (Datatypes.S fuel) streams) as [[[[r|]|] streams']|]; [..|done].
  - destruct Hn as [Hlt Hm]. destruct (IH streams') as (rs&->&Hrs); [lia|]. exists (r :: rs). split; [done|by apply Hm].
  - by exists [].
  - destruct Hn as [Hlt Hm]. destruct (IH streams') as (rs&->&Hrs); [lia|]. exists rs. split; [done|by apply Hm].
Qed.
End replies.

(** The replies of the network engine are such streams. *)
Definition zenoh_script {V} (pattern : Key) (replies : list ZReplies) : list (option (DeliveryResult V)) :=
  omap (λ poll, match poll with
                | None => Some None
                | Some reply => Some <$> zenoh_reply pattern reply
                end) (concat replies).

Lemma poll_front_script {V} pattern front rest :
  match poll_front (V := V) pattern front with
  | None => zenoh_script (V := V) pattern (front :: rest) = zenoh_script pattern rest
  | Some (p, front') =>
      match p with
      | ReplyReady None => False
      | ReplyReady (Some d) => zenoh_script pattern (front :: rest) = Some d :: zenoh_script pattern (front' :: rest)
      | ReplyPending => zenoh_script (V := V) pattern (front :: rest) = None :: zenoh_script pattern (front' :: rest)
      end
  end.
Proof.
  induction front as [|[reply|] front IH]; cbn [poll_front]; [done| |done].
  unfold zenoh_script in *. cbn [concat app omap list_omap] in *.
  destruct (zenoh_reply (V := V) pattern reply) as [r|] eqn:E; cbn [fmap option_fmap option_map]; [done|].
  destruct (poll_front pattern front) as [[[[d|]|] front']|]; exact IH.
Qed.

#[export] Program Instance RawReplies_zenoh {V} : RawReplies V (Key * list ZReplies) := {|
  raw_poll s := let '(p, replies) := zenoh_next s.1 s.2 in (p, (s.1, replies));
  script s := zenoh_script s.1 s.2;
|}.
Next Obligation.
  intros V [pattern replies]. cbn [fst snd]. induction replies as [|front rest IH]; [done|]. cbn [zenoh_next].
  pose proof (poll_front_script (V := V) pattern front rest) as Hf.
  destruct (poll_front pattern front) as [[p front']|].
  - destruct p as [[d|]|]; [|done|]; rewrite Hf; done.
  - rewrite Hf. exact IH.
Qed.

(** ** Presence *)

Lemma hs_extend_spec found keys :
  NoDup keys → NoDup (hs_extend keys found) ∧ ∀ k, k ∈ hs_extend keys found ↔ k ∈ keys ∨ k ∈ found.
Proof.
  revert keys. unfold hs_extend. induction found as [|x found IH]; intros keys Hnd; cbn [foldl]; [set_solver|].
  destruct (bool_decide (x ∈ keys)) eqn:E; breflect_in E.
  - destruct (IH keys Hnd) as [H1 H2]. split; [done|]. intros k. rewrite H2. set_solver.
  - destruct (IH (keys ++ [x])) as [H1 H2].
    { apply NoDup_app. split_and!; [done|set_solver|apply NoDup_singleton]. }
    split; [done|]. intros k. rewrite H2. set_solver.
Qed.

(** A future after a poll. *)
Definition polled (o : option AliveFuture) : option AliveFuture :=
  match o with Some (S n, r) => Some (n, r) | _ => None end.

Lemma alive_round_spec pending keys :
  NoDup keys →
  match alive_round pending keys with
  | Err e => Some (0, Err e) ∈ pending
  | Ok (pending', keys') =>
      pending' = polled <$> pending ∧ (∀ e, Some (0, Err e) ∉ pending) ∧ NoDup keys' ∧
      ∀ k, k ∈ keys' ↔ k ∈ keys ∨ ∃ found, Some (0, Ok found) ∈ pending ∧ k ∈ found
  end.
Proof.
  revert keys. induction pending as [|[[[|n] [found|e]]|] pending IH]; intros keys Hnd; cbn [alive_round alive_poll].
  - split_and!; [done|set_solver|done|set_solver].
  - destruct (hs_extend_spec found keys Hnd) as [Hnd' Hin]. specialize (IH _ Hnd').
    destruct (alive_round pending _) as [[p ks]|e]; [|by right]. destruct IH as (->&He&Hk&Hks).
    split_and!; [done|set_solver|done|]. intros k. cbn [snd]. rewrite Hks, Hin. set_solver.
  - by left.
  - specialize (IH _ Hnd). destruct (alive_round pending _) as [[p ks]|e]; [|by right].
    destruct IH as (->&He&Hk&Hks). split_and!; [done|set_solver|done|set_solver].
  - specialize (IH _ Hnd). destruct (alive_round pending _) as [[p ks]|e']; [|by right].
    destruct IH as (->&He&Hk&Hks). split_and!; [done|set_solver|done|set_solver].
  - specialize (IH _ Hnd). destruct (alive_round pending _) as [[p ks]|e']; [|by right].
    destruct IH as (->&He&Hk&Hks). split_and!; [done|set_solver|done|set_solver].
Qed.

Lemma polled_elem (pending : list (option AliveFuture)) n r : Some (n, r) ∈ polled <$> pending ↔ Some (S n, r) ∈ pending.
Proof.
  rewrite list_elem_of_fmap. split.
  - intros ([[[|m] r']|]&Hp&Hin); cbn in Hp; simplify_eq. done.
  - intros Hin. by exists (Some (S n, r)).
Qed.

Lemma routed_alive_spec fuel pending keys :
  (∀ n r, Some (n, r) ∈ pending → n ≤ fuel) → NoDup keys →
  match routed_alive (S fuel) pending keys with
  | None => False
  | Some (Err e) => ∃ n, Some (n, Err e) ∈ pending ∧ ∀ m e', Some (m, Err e') ∈ pending → n ≤ m
  | Some (Ok ks) =>
      NoDup ks ∧ (∀ n e, Some (n, Err e) ∉ pending) ∧
      ∀ k, k ∈ ks ↔ k ∈ keys ∨ ∃ n found, Some (n, Ok found) ∈ pending ∧ k ∈ found
  end.
Proof.
  revert pending keys. induction fuel as [|fuel IH]; intros pending keys Hf Hnd;
    cbn [routed_alive]; unfold routed_alive_poll; pose proof (alive_round_spec pending keys Hnd) as Hr;
    (destruct (alive_round pending keys) as [[p ks]|e]; [|by exists 0; split; [done|intros; lia]]);
    destruct Hr as (->&He&Hk&Hks).
  all: assert (Hnone : forallb is_none (polled <$> pending) = true → ∀ n r, Some (S n, r) ∉ pending).
  1, 3: intros Hall n r Hin%polled_elem; rewrite forallb_Forall in Hall;
        by pose proof (proj1 (Forall_forall _ _) Hall _ Hin).
  - assert (Hall : forallb is_none (polled <$> pending) = true).
    { apply forallb_Forall, Forall_forall. intros [[n r]|] Hin; [|done]. apply polled_elem, Hf in Hin. lia. }
    rewrite Hall. split_and!; [done| |].
    + intros [|n] e Hin; [by eapply He|by eapply Hnone].
    + intros k. rewrite Hks. split; intros [?|H]; [by left|naive_solver|by left|].
      destruct H as ([|n]&found&H&?); [naive_solver|by apply Hnone in H].
  - destruct (forallb is_none (polled <$> pending)) eqn:Hall.
    + split_and!; [done| |].
      * intros [|n] e Hin; [by eapply He|by eapply Hnone].
      * intros k. rewrite Hks. split; intros [?|H]; [by left|naive_solver|by left|].
        destruct H as ([|n]&found&H&?); [naive_solver|by apply Hnone in H].
    + specialize (IH (polled <$> pending) ks).
      change (match routed_alive (S fuel) (polled <$> pending) ks with
              | None => False
              | Some (Err e) => ∃ n, Some (n, Err e) ∈ pending ∧ ∀ m e', Some (m, Err e') ∈ pending → n ≤ m
              | Some (Ok ks') =>
                  NoDup ks' ∧ (∀ n e, Some (n, Err e) ∉ pending) ∧
                  ∀ k, k ∈ ks' ↔ k ∈ keys ∨ ∃ n found, Some (n, Ok found) ∈ pending ∧ k ∈ found
              end).
      assert (Hle : ∀ n r, Some (n, r) ∈ polled <$> pending → n ≤ fuel).
      { intros n r Hin%polled_elem%Hf. lia. }
      specialize (IH Hle Hk). destruct (routed_alive (S fuel) (polled <$> pending) ks) as [[ks'|e]|]; [| |done].
      * destruct IH as (H1&H2&H3). split_and!; [done| |].
        -- intros [|n] e Hin; [by eapply He|]. apply polled_elem in Hin. by eapply H2.
        -- intros k. rewrite H3, Hks. split.
           ++ intros [[?|?]|(n&found&Hin%polled_elem&?)]; naive_solver.
           ++ intros [?|([|n]&found&Hin&?)]; [naive_solver..|]. right. exists n, found. by rewrite polled_elem.
      * destruct IH as (n&Hn&Hmin). exists (S n). split; [by apply polled_elem|].
        intros [|m] e' Hin; [by eapply He in Hin|]. apply polled_elem, Hmin in Hin. lia.
Qed.

(** A routed presence census is the union of the engines' ones: once every
    route's future has been polled to its end, the result is a duplicate-free
    list of exactly the keys that some route found, unless a route failed; then
    it is the error of a route that no other route failed before. *)
Theorem routed_alive_union fuel host placement key future rs :
  routed_routes host placement key false = Ok rs →
  Forall (λ r : Transport * Key, (future r.1 r.2).1 ≤ fuel) rs →
  match routed_alive_of (S fuel) host placement key future with
  | None => False
  | Some (Err e) =>
      ∃ r, r ∈ rs ∧ (future r.1 r.2).2 = Err e ∧
        ∀ r' e', r' ∈ rs → (future r'.1 r'.2).2 = Err e' → (future r.1 r.2).1 ≤ (future r'.1 r'.2).1
  | Some (Ok keys) =>
      NoDup keys ∧ ∀ k, k ∈ keys ↔ ∃ r found, r ∈ rs ∧ (future r.1 r.2).2 = Ok found ∧ k ∈ found
  end.
Proof.
  intros Hrs Hf. unfold routed_alive_of. rewrite Hrs.
  pose proof (routed_alive_spec fuel ((λ r : Transport * Key, Some (future r.1 r.2)) <$> rs) []) as Hs.
  assert (Hin : ∀ n r, Some (n, r) ∈ (λ r : Transport * Key, Some (future r.1 r.2)) <$> rs ↔
                       ∃ x, x ∈ rs ∧ future x.1 x.2 = (n, r)).
  { intros n r. rewrite list_elem_of_fmap. split; [intros (x&Hx&?)|intros (x&?&Hx)]; exists x; [|rewrite Hx; done].
    split; [done|congruence]. }
  assert (Hle : ∀ n r, Some (n, r) ∈ (λ r : Transport * Key, Some (future r.1 r.2)) <$> rs → n ≤ fuel).
  { intros n r Hn. apply Hin in Hn as (x&Hx&He). pose proof (proj1 (Forall_forall _ _) Hf x Hx) as Hle.
    cbn beta in Hle. rewrite He in Hle. exact Hle. }
  specialize (Hs Hle NoDup_nil_2).
  destruct (routed_alive _ _ _) as [[keys|e]|]; [| |done].
  - destruct Hs as (Hnd&_&Hk). split; [done|]. intros k. rewrite Hk. split.
    + intros [Hc|(n&found&(x&Hx&He)%Hin&?)]; [by apply elem_of_nil in Hc|]. exists x, found. by rewrite He.
    + intros (x&found&Hx&He&?). right. exists (future x.1 x.2).1, found. split; [|done]. apply Hin. exists x.
      split; [done|]. rewrite <- He. by destruct (future x.1 x.2).
  - destruct Hs as (n&(x&Hx&He)%Hin&Hmin). exists x. rewrite He. split_and!; [done..|]. intros r' e' Hr' He'.
    cbn [fst]. apply (Hmin _ e'), Hin. exists r'. split; [done|]. rewrite <- He'. by destruct (future r'.1 r'.2).
Qed.

(** ** Witnesses *)

Definition arm : str := bytes_of "arm/left".
Definition cart : str := bytes_of "cart".
Definition host_a : str := bytes_of "a".
Definition host_b : str := bytes_of "b".
Definition example_placement : Placement := [(arm, host_a); (cart, host_b)].
Definition all_poses : Key := mkKey (bytes_of "lab") None None (Some (bytes_of "T")) None.
Definition cart_pose : Key := key_output (bytes_of "lab") cart (bytes_of "pose") (bytes_of "T").

Definition example_routes : list (Transport * Key) :=
  [(LocalTransport, with_source arm all_poses); (RemoteTransport, with_source cart all_poses)].

Lemma routed_reads_once_witness : length (reached host_a host_b cart_pose example_routes) = 1.
Proof.
  rewrite (routed_reads_once host_a example_placement all_poses false example_routes cart_pose cart host_b);
    try by vm_compute.
  eapply bool_decide_eq_true_1. by vm_compute.
Defined.

(** A session that refuses the declarations on [cart]. *)
#[export] Instance Session_refusing : Session unit nat := {|
  zn_declare z _ key := (if bool_decide (k_source key = Some cart) then Err (bytes_of "no") else Ok 0%Z, z);
  zn_undeclare z _ _ := z;
  zn_publisher z _ _ := (Ok 0%Z, z);
  zn_put z _ _ _ := (Ok tt, z);
  zn_get z _ _ _ _ := (Ok 0%Z, z);
  encode_shared _ := [];
|}.

Definition example_routed : Routed unit nat :=
  mkRouted host_a example_placement (bus_register (local_new 5) (OpSubscribe 3 all_poses)) tt.

Lemma routed_declare_all_or_none_witness :
  ∃ e self, routed_declare example_routed SubscriberSlot all_poses = (Err e, self) ∧
            lw_queue (rd_local self) ≠ lw_queue (rd_local example_routed) ∧
            settled (rd_local self) = settled (rd_local example_routed).
Proof.
  pose proof (routed_declare_all_or_none example_routed SubscriberSlot all_poses) as H.
  eexists _, _. split; [by vm_compute|]. split; [by vm_compute|].
  assert (E : ids_fresh SubscriberSlot (rd_local example_routed)).
  { split_and!; [by vm_compute|by eapply bool_decide_eq_true_1; vm_compute|by repeat constructor]. }
  specialize (H E ltac:(by vm_compute)). by vm_compute in H |- *.
Defined.

Definition slow_future (t : Transport) (key : Key) : AliveFuture :=
  match t with LocalTransport => (0, Ok [with_source arm cart_pose]) | RemoteTransport => (2, Ok [cart_pose]) end.

Lemma routed_alive_union_witness :
  ∃ keys, routed_alive_of 3 host_a example_placement all_poses slow_future = Some (Ok keys) ∧ NoDup keys ∧
          cart_pose ∈ keys.
Proof.
  pose proof (routed_alive_union 2 host_a example_placement all_poses slow_future example_routes) as H.
  specialize (H ltac:(by vm_compute) ltac:(repeat constructor)).
  exists [with_source arm cart_pose; cart_pose]. split; [by vm_compute|].
  destruct (routed_alive_of 3 host_a example_placement all_poses slow_future) as [r|] eqn:E; [|done].
  assert (r = Ok [with_source arm cart_pose; cart_pose]) as ->.
  { assert (Some r = Some (Ok [with_source arm cart_pose; cart_pose])) as [= ->]; [|done]. rewrite <- E. by vm_compute. }
  split; [apply H|]. right. by left.
Defined.

(** A sample on another key is skipped. *)
Definition example_channel (key_expr : str) : ZReplies :=
  [None; Some (Ok (mkZSample SamplePut key_expr [1%Z] None None))].

Definition example_streams : list (Key * (Key * list ZReplies)) :=
  [(with_source arm all_poses, (with_source arm all_poses, [example_channel (key_display (with_source arm cart_pose))]));
   (with_source cart all_poses, (all_poses, [example_channel (bytes_of "other"); example_channel (key_display cart_pose)]))].

Lemma routed_replies_merge_witness :
  ∃ rs, routed_replies (V := nat) (S (weight (V := nat) example_streams)) example_streams = Some rs ∧
        length rs = 2 ∧ merges (fitting (V := nat) <$> example_streams) rs.
Proof.
  destruct (routed_replies_merge (V := nat) example_streams) as (rs&Hr&Hm). exists rs. split; [exact Hr|].
  split; [|exact Hm]. assert (length <$> Some rs = Some 2) as [= E]; [|exact E]. rewrite <- Hr. by vm_compute.
Defined.
