(* ===== verification/PubSub.v ===== *)
(** * PubSub: typed and encoded publishers, subscribers and callers
    ([crates/reiny/src/pubsub.rs], [pubsub/shared.rs], [service.rs],
    [service/raw.rs])

    What an engine promises its handles is the interface [EngineOps].  A
    subscriber is a state with the actions of the engine's callbacks and the turns
    of its receive loop; a stream of replies is the list of what its polls give.
    The bounded channel is the interface [BoundedChan].  Counters are 64-bit.
    Hash sets are lists without an order. *)

From Stdlib Require Import ZArith Lia.
From S2P Require Import Prelude Text Btree Bindings EngineKey EngineLocal.

Definition FIFO_CAPACITY : nat := 256.
Definition LATCHED_TIMEOUT : Z := 10000000000.

(** [fingerprint], [attachment_fingerprint] *)
Definition schema_attachment (schema : option Z) : option (list Z) := le_bytes 8 <$> schema.
Definition attachment_fingerprint (attachment : option (list Z)) : option Z :=
  match attachment with
  | Some raw => if length raw =? 8 then Some (from_le raw) else None
  | None => None
  end.

#[export] Instance Durability_eq_dec : EqDecision Durability.
Proof. solve_decision. Defined.

(** The errors of a declaration. *)
Inductive DeclareError : Type :=
  | KeepLastUnsupported (n : Z) | NoLiveliness | NoQuery | NoCongestionControl | PointToPoint
  | BadNamespace (e : BindingError) | BadSourcePort | EngineError (message : str).

Definition ensure_that (condition : bool) (e : DeclareError) : result unit DeclareError :=
  if condition then Ok tt else Err e.

(** ** What an engine offers its handles: [trait Engine] *)

Class EngineOps (V E : Type) : Type := {
  eo_Publisher : Type;
  eo_Guard : Type;
  eo_Replies : Type;
  eo_caps : E → Caps;
  eo_publisher : E → Key → Qos → result eo_Publisher str * E;
  eo_put : E → eo_Publisher → Payload V → option (list Z) → result unit str * E;
  eo_declare : E → Slot → Key → result eo_Guard str * E;
  eo_drop : E → eo_Guard → E;
  eo_query : E → Key → option (list Z) → option (list Z) → Z → result eo_Replies str * E;
}.

(** The in-process engine, with the system time and the time of the process. *)
Definition LocalEngine (V : Type) : Type := option Z * Z * LocalWorld V.

#[export] Instance EngineOps_local {V} : EngineOps V (LocalEngine V) := {|
  eo_Publisher := Key;
  eo_Guard := LocalGuard;
  eo_Replies := nat;
  eo_caps _ := local_caps;
  eo_publisher e key qos := (publisher key qos, e);
  eo_put e key payload attachment := (Ok tt, (e.1, put_payload e.2 key payload attachment e.1.1));
  eo_declare e slot key :=
    let '(r, w) := match slot with
                   | SubscriberSlot => subscribe_delivery e.2 key
                   | TokenSlot => declare_alive e.2 key
                   | WatcherSlot => watch_alive e.2 key
                   | ResponderSlot => respond e.2 key
                   end in (r, (e.1, w));
  eo_drop e guard := (e.1, drop_guard e.2 guard);
  eo_query e key payload attachment timeout :=
    let '(r, w) := query e.2 key payload attachment timeout e.1.2 in (r, (e.1, w));
|}.

Section declare.
Context {V E : Type} `{EngineOps V E}.

(** Handles of several keys; an error drops those taken *)
Fixpoint declare_all (e : E) (slot : Slot) (keys : list Key) (guards : list eo_Guard) :
  result (list eo_Guard) DeclareError * E :=
  match keys with
  | [] => (Ok guards, e)
  | key :: keys =>
      match eo_declare e slot key with
      | (Ok g, e) => declare_all e slot keys (guards ++ [g])
      | (Err m, e) => (Err (EngineError m), foldl eo_drop e guards)
      end
  end.

(** ** Publishers *)

Record PublisherCore : Type := mkPublisherCore {
  pc_raw : eo_Publisher;
  pc_token : eo_Guard;
  pc_queryable : option eo_Guard;
  pc_last : option (Payload V);
  pc_schema : Z;
}.

(** [PublisherCore::declare]: the latch before the presence token *)
Definition publisher_declare (e : E) (key : Key) (qos : Qos) (schema : Z) :
  result PublisherCore DeclareError * E :=
  if negb (bool_decide (qos_congestion_control qos = BackendDefault) || cap_congestion_control (eo_caps e))
  then (Err NoCongestionControl, e)
  else
    match eo_publisher e key qos with
    | (Err m, e) => (Err (EngineError m), e)
    | (Ok raw, e) =>
        let latch := match qos_durability qos with
                     | TransientLocal => let '(r, e) := eo_declare e ResponderSlot key in ((let? g := r in Ok (Some g)), e)
                     | VolatileHistory => (Ok None, e)
                     end in
        match latch with
        | (Err m, e) => (Err (EngineError m), e)
        | (Ok queryable, e) =>
            match eo_declare e TokenSlot key with
            | (Err m, e) => (Err (EngineError m), from_option (eo_drop e) e queryable)
            | (Ok token, e) => (Ok (mkPublisherCore raw token queryable None schema), e)
            end
        end
    end.

(** [PublisherCore::send_payload] *)
Definition send_payload (self : PublisherCore) (payload : Payload V) (e : E) : result unit str * PublisherCore * E :=
  let self := mkPublisherCore (pc_raw self) (pc_token self) (pc_queryable self)
                (if is_none (pc_queryable self) then pc_last self else Some payload) (pc_schema self) in
  let '(r, e) := eo_put e (pc_raw self) payload (schema_attachment (Some (pc_schema self))) in
  (r, self, e).

(** The handles of a publisher are dropped in the order of the fields *)
Definition drop_core (self : PublisherCore) (e : E) : E :=
  let e := eo_drop e (pc_token self) in from_option (eo_drop e) e (pc_queryable self).

(** The callback of [declare_latch]: what it replies, if it does *)
Definition latch_answer (last : option (Payload V)) (schema : option Z) (query_payload : option (list Z)) :
  option (Payload V * option (list Z)) :=
  match query_payload with
  | Some _ => None
  | None => match last with Some payload => Some (payload, schema_attachment schema) | None => None end
  end.

(** The checks of [PublisherBuilder::build_named] *)
Definition publisher_checks (qos : Qos) (caps : Caps) : result unit DeclareError :=
  let? _ := match qos_history qos with
            | KeepLast n => ensure_that (n =? 1)%Z (KeepLastUnsupported n)
            | KeepAll => Ok tt
            end in
  let? _ := ensure_that (cap_liveliness caps) NoLiveliness in
  ensure_that (negb (bool_decide (qos_durability qos = TransientLocal)) || cap_query caps) NoQuery.

(** [PublisherBuilder::build_named]; [descriptor] is the message name of the type's descriptor *)
Definition publisher_build (e : E) (domain namespace name ty : str) (schema : Z) (descriptor : option str)
    (qos : Qos) : result (PublisherCore * option eo_Guard) DeclareError * E :=
  match publisher_checks qos (eo_caps e) with
  | Err er => (Err er, e)
  | Ok _ =>
      let key := key_output domain namespace name ty in
      match publisher_declare e key qos schema with
      | (Err er, e) => (Err er, e)
      | (Ok core, e) =>
          match descriptor with
          | Some message =>
              if cap_query (eo_caps e) then
                match eo_declare e ResponderSlot (with_chunk key (SCHEMA_PREFIX ++ message)) with
                | (Ok g, e) => (Ok (core, Some g), e)
                | (Err m, e) => (Err (EngineError m), drop_core core e)
                end
              else (Ok (core, None), e)
          | None => (Ok (core, None), e)
          end
      end
  end.
End declare.
Arguments PublisherCore V E {_}.

(** ** Receive buffers *)

(** [Counters]: atomic 64-bit counters and the flag of the one warning *)
Record Counters : Type := mkCounters {
  ct_received : Z;
  ct_dropped : Z;
  ct_blocked : Z;
  ct_warned : bool;
}.
Definition counters_default : Counters := mkCounters 0 0 0 false.

(** [SubscriberStats], [Counters::snapshot] *)
Definition counters_snapshot (c : Counters) : Z * Z * Z := (ct_received c, ct_dropped c, ct_blocked c).

(** The callback's count of what the engine hands over *)
Definition note_received (c : Counters) : Counters :=
  mkCounters (wrapping_add 64 (ct_received c) 1) (ct_dropped c) (ct_blocked c) (ct_warned c).

(** [Counters::note_full]: whether it warns, and the counters *)
Definition note_full (c : Counters) (dropping : bool) : bool * Counters :=
  (negb (ct_warned c),
   if dropping
   then mkCounters (ct_received c) (wrapping_add 64 (ct_dropped c) 1) (ct_blocked c) true
   else mkCounters (ct_received c) (ct_dropped c) (wrapping_add 64 (ct_blocked c) 1) true).

Record Ring (A : Type) : Type := mkRing { ring_queue : list A; ring_capacity : nat }.
Arguments mkRing {A}.
Arguments ring_queue {A}.
Arguments ring_capacity {A}.

(** [Ring::push]: whether the oldest was thrown away *)
Definition ring_push {A} (self : Ring A) (sample : A) : bool * Ring A :=
  let evicted := length (ring_queue self) =? ring_capacity self in
  let queue := if evicted then tail (ring_queue self) else ring_queue self in
  (evicted, mkRing (queue ++ [sample]) (ring_capacity self)).

(** [Ring::pop], polled once *)
Definition ring_pop {A} (self : Ring A) : option (A * Ring A) :=
  match ring_queue self with
  | [] => None
  | sample :: queue => Some (sample, mkRing queue (ring_capacity self))
  end.

(** [flume::bounded], as it documents: what was sent waits in order, also the
    items of senders that are blocked; a send without blocking succeeds while
    fewer items than the capacity wait. *)
Class BoundedChan (C A : Type) : Type := {
  bc_new : nat → C;
  bc_try_send : C → A → bool * C;
  bc_send : C → A → C;
  bc_recv : C → option (A * C);
  bc_items : C → list A;
  bc_capacity : C → nat;
  bc_new_spec n : bc_items (bc_new n) = [] ∧ bc_capacity (bc_new n) = n;
  bc_try_spec c a :
    let '(ok, c') := bc_try_send c a in
    bc_capacity c' = bc_capacity c ∧ ok = (length (bc_items c) <? bc_capacity c) ∧
    bc_items c' = if ok then bc_items c ++ [a] else bc_items c;
  bc_send_spec c a : bc_items (bc_send c a) = bc_items c ++ [a] ∧ bc_capacity (bc_send c a) = bc_capacity c;
  bc_recv_spec c :
    match bc_recv c with
    | None => bc_items c = []
    | Some (a, c') => bc_items c = a :: bc_items c' ∧ bc_capacity c' = bc_capacity c
    end;
}.

(** An executable instance. *)
#[export] Program Instance BoundedChan_list {A} : BoundedChan (list A * nat) A := {|
  bc_new n := ([], n);
  bc_try_send c a := if length c.1 <? c.2 then (true, (c.1 ++ [a], c.2)) else (false, c);
  bc_send c a := (c.1 ++ [a], c.2);
  bc_recv c := match c.1 with [] => None | a :: l => Some (a, (l, c.2)) end;
  bc_items c := c.1;
  bc_capacity c := c.2;
|}.
Next Obligation. done. Qed.
Next Obligation. intros A [l n] a. cbn [fst snd]. destruct (length l <? n) eqn:E; done. Qed.
Next Obligation. done. Qed.
Next Obligation. intros A [[|a l] n]; done. Qed.

(** ** The subscriber *)

Section subscriber.
Context {V C : Type} `{BoundedChan C (Delivery V)}.

Inductive Chan : Type := ChanFifo (rx : C) | ChanRing (ring : Ring (Delivery V)).

(** The callback of [Core::declare]; the last component is whether the engine's
    thread waits for room *)
Definition on_sample (chan : Chan) (counters : Counters) (s : Delivery V) : Chan * Counters * bool :=
  let counters := note_received counters in
  match chan with
  | ChanRing ring =>
      let '(evicted, ring) := ring_push ring s in
      (ChanRing ring, if evicted then (note_full counters true).2 else counters, false)
  | ChanFifo tx =>
      match bc_try_send tx s with
      | (true, tx) => (ChanFifo tx, counters, false)
      | (false, tx) => (ChanFifo (bc_send tx s), (note_full counters false).2, true)
      end
  end.

(** [Chan::recv], polled once while the senders live *)
Definition chan_recv (chan : Chan) : option (Delivery V * Chan) :=
  match chan with
  | ChanFifo rx => match bc_recv rx with Some (s, rx) => Some (s, ChanFifo rx) | None => None end
  | ChanRing ring => match ring_pop ring with Some (s, ring) => Some (s, ChanRing ring) | None => None end
  end.

(** What the polls of a stream of replies give; the end is the end of the stream *)
Definition ReplyScript : Type := list (option (DeliveryResult V)).

(** [Core], with the presence events that wait and whether their channel is closed *)
Record SubscriberCore : Type := mkSubscriberCore {
  sc_chan : Chan;
  sc_counters : Counters;
  sc_latched : list ReplyScript;
  sc_latched_done : bool;
  sc_presence : list Presence;
  sc_presence_closed : bool;
  sc_presence_done : bool;
  sc_queried : list Key;
  sc_seen : list Key;
  sc_keys : list Key;
  sc_shutdown : bool;
}.

Definition chan_new (latest : option nat) : Chan :=
  match latest with Some n => ChanRing (mkRing [] n) | None => ChanFifo (bc_new FIFO_CAPACITY) end.

Definition core_new (keys : list Key) (latched : bool) (latest : option nat) : SubscriberCore :=
  mkSubscriberCore (chan_new latest) counters_default [] true [] false (negb latched) [] [] keys false.

(** The keys of [Core::declare]; [None] is every source *)
Definition core_keys (domain ty : str) (from : list (option EndpointAddress)) : list Key :=
  (λ source, match source with
             | Some source => key_output domain (ea_namespace source) (ea_port source) ty
             | None => mkKey domain None None (Some ty) None
             end) <$> from.

(** The checks of [Core::declare] *)
Definition core_checks (from : list (option EndpointAddress)) (latched : bool) (caps : Caps) : result unit DeclareError :=
  let? _ := for_each (λ source,
              match source with
              | Some source =>
                  let? _ := map_err BadNamespace (validate_namespace (ea_namespace source)) in
                  ensure_that (validate_segment (ea_port source)) BadSourcePort
              | None => Ok tt
              end) from in
  let? _ := ensure_that (negb (existsb is_none from) || cap_wildcard_source caps) PointToPoint in
  ensure_that (negb latched || (cap_query caps && cap_liveliness caps)) NoQuery.

(** [Core::declare]: the subscriptions before the watch *)
Definition core_declare {E} `{EngineOps V E} (e : E) (domain ty : str) (from : list (option EndpointAddress))
    (latched : bool) (latest : option nat) : result (SubscriberCore * list eo_Guard) DeclareError * E :=
  match core_checks from latched (eo_caps e) with
  | Err er => (Err er, e)
  | Ok _ =>
      let keys := core_keys domain ty from in
      match declare_all e SubscriberSlot keys [] with
      | (Err er, e) => (Err er, e)
      | (Ok guards, e) =>
          if latched then
            match declare_all e WatcherSlot keys [] with
            | (Err er, e) => (Err er, foldl eo_drop e guards)
            | (Ok watches, e) => (Ok (core_new keys latched latest, guards ++ watches), e)
            end
          else (Ok (core_new keys latched latest, guards), e)
      end
  end.

(** A handle on one more key, if it is wanted; an error drops those
    taken, the last one first *)
Definition declare_more {E} `{EngineOps V E} (e : E) (slot : Slot) (key : option Key) (guards : list eo_Guard) :
  result (list eo_Guard) DeclareError * E :=
  match key with
  | None => (Ok guards, e)
  | Some key =>
      match eo_declare e slot key with
      | (Ok g, e) => (Ok (g :: guards), e)
      | (Err m, e) => (Err (EngineError m), foldl eo_drop e guards)
      end
  end.

(** [SubscriberBuilder::build_named] *)
Definition subscriber_build {E} `{EngineOps V E} (e : E) (domain namespace name ty : str) (descriptor : option str)
    (from : list (option EndpointAddress)) (latched : bool) (latest : option nat) :
  result (SubscriberCore * list eo_Guard) DeclareError * E :=
  match core_declare e domain ty from latched latest with
  | (Err er, e) => (Err er, e)
  | (Ok (core, guards), e) =>
      let mine := key_input domain namespace name ty in
      match declare_more e TokenSlot
              (if cap_liveliness (eo_caps e) then Some (with_chunk mine SUB_CHUNK) else None) guards with
      | (Err er, e) => (Err er, e)
      | (Ok guards, e) =>
          match declare_more e ResponderSlot
                  (match descriptor with
                   | Some message =>
                       if cap_query (eo_caps e) then Some (with_chunk mine (SCHEMA_PREFIX ++ message)) else None
                   | None => None
                   end) guards with
          | (Err er, e) => (Err er, e)
          | (Ok guards, e) => (Ok (core, guards), e)
          end
      end
  end.

Definition hash_insert (k : Key) (s : list Key) : bool * list Key :=
  if bool_decide (k ∈ s) then (false, s) else (true, s ++ [k]).
Definition hash_remove (k : Key) (s : list Key) : list Key := filter (λ k', k' ≠ k) s.

(** Whether one of the subscriber's keys covers a sample *)
Definition covered (self : SubscriberCore) (k : Key) : bool := existsb (λ key, matches key k) (sc_keys self).

(** How a turn of the loop of [Core::recv] ends *)
Inductive Turn : Type :=
  | TurnReturn (sample : option (Delivery V)) (live : bool)
  | TurnAgain
  | TurnPending.

(** The presence branch; [answer] is what [engine.query] gives, if it is called *)
Definition on_presence (self : SubscriberCore) (event : option Presence) (answer : result ReplyScript str) :
  SubscriberCore :=
  match event with
  | Some (Joined k) =>
      if is_none (k_chunk k) then
        match hash_insert k (sc_queried self) with
        | (true, queried) =>
            match answer with
            | Ok replies =>
                mkSubscriberCore (sc_chan self) (sc_counters self) (sc_latched self ++ [replies]) false
                  (sc_presence self) (sc_presence_closed self) (sc_presence_done self) queried (sc_seen self)
                  (sc_keys self) (sc_shutdown self)
            | Err _ =>
                mkSubscriberCore (sc_chan self) (sc_counters self) (sc_latched self) (sc_latched_done self)
                  (sc_presence self) (sc_presence_closed self) (sc_presence_done self) queried (sc_seen self)
                  (sc_keys self) (sc_shutdown self)
            end
        | (false, _) => self
        end
      else self
  | Some (Left k) =>
      mkSubscriberCore (sc_chan self) (sc_counters self) (sc_latched self) (sc_latched_done self)
        (sc_presence self) (sc_presence_closed self) (sc_presence_done self)
        (hash_remove k (sc_queried self)) (hash_remove k (sc_seen self)) (sc_keys self) (sc_shutdown self)
  | None =>
      mkSubscriberCore (sc_chan self) (sc_counters self) (sc_latched self) (sc_latched_done self)
        (sc_presence self) (sc_presence_closed self) true (sc_queried self) (sc_seen self) (sc_keys self)
        (sc_shutdown self)
  end.

Definition set_latched (self : SubscriberCore) (latched : list ReplyScript) (done : bool) : SubscriberCore :=
  mkSubscriberCore (sc_chan self) (sc_counters self) latched done (sc_presence self) (sc_presence_closed self)
    (sc_presence_done self) (sc_queried self) (sc_seen self) (sc_keys self) (sc_shutdown self).

Definition set_presence (self : SubscriberCore) (presence : list Presence) : SubscriberCore :=
  mkSubscriberCore (sc_chan self) (sc_counters self) (sc_latched self) (sc_latched_done self) presence
    (sc_presence_closed self) (sc_presence_done self) (sc_queried self) (sc_seen self) (sc_keys self)
    (sc_shutdown self).

(** The branch of a latched reply *)
Definition on_reply (self : SubscriberCore) (reply : option (DeliveryResult V)) : Turn * SubscriberCore :=
  match reply with
  | None =>
      let latched := tail (sc_latched self) in
      (TurnAgain, set_latched self latched (bool_decide (length latched = 0)))
  | Some (Err _) => (TurnAgain, self)
  | Some (Ok sample) =>
      if negb (covered self (dl_key sample)) || negb (is_none (k_chunk (dl_key sample)))
         || bool_decide (dl_key sample ∈ sc_seen self)
      then (TurnAgain, self)
      else (TurnReturn (Some sample) false, self)
  end.

(** The branch of a live sample *)
Definition on_live (self : SubscriberCore) (sample : Delivery V) : Turn * SubscriberCore :=
  if negb (is_none (k_chunk (dl_key sample))) || negb (covered self (dl_key sample))
  then (TurnAgain, self)
  else
    let seen := if sc_presence_done self then sc_seen self else (hash_insert (dl_key sample) (sc_seen self)).2 in
    (TurnReturn (Some sample) true,
     mkSubscriberCore (sc_chan self) (sc_counters self) (sc_latched self) (sc_latched_done self)
       (sc_presence self) (sc_presence_closed self) (sc_presence_done self) (sc_queried self) seen (sc_keys self)
       (sc_shutdown self)).

(** The last branch of the [select]: [chan.recv] *)
Definition poll_live (self : SubscriberCore) : Turn * SubscriberCore :=
  match chan_recv (sc_chan self) with
  | None => (TurnPending, self)
  | Some (sample, chan) =>
      on_live (mkSubscriberCore chan (sc_counters self) (sc_latched self) (sc_latched_done self)
                 (sc_presence self) (sc_presence_closed self) (sc_presence_done self) (sc_queried self)
                 (sc_seen self) (sc_keys self) (sc_shutdown self)) sample
  end.

(** The branch of the latched replies, then the last one *)
Definition poll_reply (self : SubscriberCore) : Turn * SubscriberCore :=
  if sc_latched_done self then poll_live self
  else
    match sc_latched self with
    | [] => poll_live self
    | [] :: _ => on_reply self None
    | (Some reply :: script) :: rest => on_reply (set_latched self (script :: rest) false) (Some reply)
    | (None :: script) :: rest => poll_live (set_latched self (script :: rest) false)
    end.

(** One turn of the loop of [Core::recv]: the biased [select] *)
Definition recv_turn (self : SubscriberCore) (answer : result ReplyScript str) : Turn * SubscriberCore :=
  if sc_shutdown self then (TurnReturn None false, self)
  else if sc_presence_done self then poll_reply self
  else
    match sc_presence self with
    | event :: events => (TurnAgain, on_presence (set_presence self events) (Some event) answer)
    | [] => if sc_presence_closed self then (TurnAgain, on_presence self None answer) else poll_reply self
    end.

(** What the engine's callbacks, the process and the receiving task do. *)
Inductive SubAct : Type :=
  | SubPush (s : Delivery V)
  | SubPresence (event : Presence)
  | SubPresenceClosed
  | SubShutdown
  | SubTurn (answer : result ReplyScript str).

(** An action, with the turn it makes *)
Definition sub_act (self : SubscriberCore) (a : SubAct) : option Turn * SubscriberCore :=
  match a with
  | SubPush s =>
      let '(chan, counters, _) := on_sample (sc_chan self) (sc_counters self) s in
      (None, mkSubscriberCore chan counters (sc_latched self) (sc_latched_done self) (sc_presence self)
               (sc_presence_closed self) (sc_presence_done self) (sc_queried self) (sc_seen self) (sc_keys self)
               (sc_shutdown self))
  | SubPresence event => (None, set_presence self (sc_presence self ++ [event]))
  | SubPresenceClosed =>
      (None, mkSubscriberCore (sc_chan self) (sc_counters self) (sc_latched self) (sc_latched_done self)
               (sc_presence self) true (sc_presence_done self) (sc_queried self) (sc_seen self) (sc_keys self)
               (sc_shutdown self))
  | SubShutdown =>
      (None, mkSubscriberCore (sc_chan self) (sc_counters self) (sc_latched self) (sc_latched_done self)
               (sc_presence self) (sc_presence_closed self) (sc_presence_done self) (sc_queried self) (sc_seen self)
               (sc_keys self) true)
  | SubTurn answer => let '(t, self) := recv_turn self answer in (Some t, self)
  end.

Fixpoint sub_run (self : SubscriberCore) (l : list SubAct) : list (option Turn) * SubscriberCore :=
  match l with
  | [] => ([], self)
  | a :: l =>
      let '(t, self) := sub_act self a in
      let '(ts, self) := sub_run self l in (t :: ts, self)
  end.
End subscriber.
Arguments SubAct : clear implicits.
Arguments SubscriberCore : clear implicits.
Arguments Chan : clear implicits.
Arguments Turn : clear implicits.

(** ** Typed and encoded receives *)

Record SampleEnvelope (T : Type) : Type := mkEnvelope {
  ev_value : T;
  ev_source : str;
  ev_source_port : str;
  ev_timestamp : option Z;
}.
Arguments mkEnvelope {T}.
Arguments ev_value {T}.
Arguments ev_source {T}.
Arguments ev_source_port {T}.
Arguments ev_timestamp {T}.

Record RawEnvelope : Type := mkRawEnvelope {
  re_payload : list Z;
  re_source : str;
  re_source_port : str;
  re_schema : option Z;
  re_timestamp : option Z;
}.

(** A message type: its fingerprint and its protobuf codec. *)
Section typed.
Context {V T : Type}.
Variable schema_fingerprint : Z.
Variable decode_message : list Z → option T.
Variable encode_shared_value : V → list Z.
(** [Payload::downcast] *)
Variable downcast : V → option T.

(** [schema_matches]: whether the sample fits, and the sources warned about *)
Definition schema_matches (sample : Delivery V) (warned : list str) : bool * list str :=
  if bool_decide (attachment_fingerprint (dl_attachment sample) = Some schema_fingerprint) then (true, warned)
  else (false, if bool_decide (key_display (dl_key sample) ∈ warned) then warned
               else warned ++ [key_display (dl_key sample)]).

Definition source_of (sample : Delivery V) : str := default [] (k_source (dl_key sample)).

Definition envelope_of (sample : Delivery V) (value : T) : option (SampleEnvelope T) :=
  match key_port (dl_key sample) with
  | Some port => Some (mkEnvelope value (source_of sample) port (dl_timestamp sample))
  | None => None
  end.

(** [unwrap_sample] *)
Definition unwrap_sample (sample : Delivery V) (warned : list str) : option (SampleEnvelope T) * list str :=
  let '(fits, warned) := schema_matches sample warned in
  if negb fits then (None, warned)
  else match decode_message (payload_bytes encode_shared_value (dl_payload sample)) with
       | None => (None, warned)
       | Some value => (envelope_of sample value, warned)
       end.

(** [Subscriber::recv_envelope] over what [Core::recv] returns: the envelope, the
    samples that are left, and the sources warned about; [None] when more samples
    are needed *)
Fixpoint recv_envelope (managed : bool) (samples : list (Delivery V)) (warned : list str) :
  option (SampleEnvelope T) * list (Delivery V) * list str :=
  match samples with
  | [] => (None, [], warned)
  | sample :: samples =>
      if managed && negb (bool_decide (attachment_fingerprint (dl_attachment sample) = Some schema_fingerprint))
      then recv_envelope managed samples warned
      else
        match unwrap_sample sample warned with
        | (Some envelope, warned) => (Some envelope, samples, warned)
        | (None, warned) => recv_envelope managed samples warned
        end
  end.

(** What a loop of receives yields *)
Fixpoint receive_all (managed : bool) (fuel : nat) (samples : list (Delivery V)) (warned : list str) :
  list (SampleEnvelope T) * list str :=
  match fuel with
  | 0 => ([], warned)
  | S fuel =>
      match recv_envelope managed samples warned with
      | (Some envelope, samples, warned) =>
          let '(more, warned) := receive_all managed fuel samples warned in (envelope :: more, warned)
      | (None, _, warned) => ([], warned)
      end
  end.

(** One turn of [Subscriber::recv_shared_envelope] *)
Definition unwrap_shared (sample : Delivery V) (warned : list str) : option (SampleEnvelope T) * list str :=
  let '(fits, warned) := schema_matches sample warned in
  if negb fits then (None, warned)
  else
    let value := match dl_payload sample with PayloadShared v => downcast v | PayloadBytes _ => None end in
    match match value with
          | Some value => Some value
          | None => decode_message (payload_bytes encode_shared_value (dl_payload sample))
          end with
    | None => (None, warned)
    | Some value => (envelope_of sample value, warned)
    end.

(** One turn of [RawSubscriber::recv]: [inl] skips the sample, [inr None] ends the
    stream *)
Definition raw_recv (expected_schema : option Z) (sample : Delivery V) : unit + option RawEnvelope :=
  let schema := attachment_fingerprint (dl_attachment sample) in
  if negb (is_none expected_schema) && negb (bool_decide (schema = expected_schema)) then inl tt
  else inr match key_port (dl_key sample) with
           | None => None
           | Some port =>
               Some (mkRawEnvelope (payload_bytes encode_shared_value (dl_payload sample)) (source_of sample) port
                       schema (dl_timestamp sample))
           end.
End typed.

(** ** Presence of publishers *)

Inductive PresenceEvent : Type := EndpointJoined (a : EndpointAddress) | EndpointLeft (a : EndpointAddress).

(** One turn of [Presence::recv] *)
Definition presence_event (event : Presence) : option PresenceEvent :=
  let key := presence_key event in
  match key_port key with
  | None => None
  | Some port =>
      match k_source key with
      | None => None
      | Some namespace =>
          let address := mkEndpoint namespace port in
          Some match event with Joined _ => EndpointJoined address | Left _ => EndpointLeft address end
      end
  end.

(** ** Services *)

Definition ENGINE_TIMEOUT_MARGIN : Z := 1000000000.
Definition QUERY_CAPACITY : nat := 256.
(** [Duration::MAX] in nanoseconds *)
Definition DURATION_MAX : Z := u64_max * 1000000000 + 999999999.

Inductive CallError : Type :=
  | NoReply
  | CallTimeout
  | Remote (message : list Z)
  | SchemaMismatch (expected received : Z)
  | MissingSchema
  | Undecodable
  | TimeoutTooLong
  | UndeclaredTarget
  | CallEngine (message : str).

Section rpc.
Context {V : Type}.
Variable encode_shared_value : V → list Z.

(** [ClientCore] *)
Record ClientCore : Type := mkClientCore {
  cc_key : Key;
  cc_request_schema : Z;
  cc_response_schema : Z;
}.

(** [ClientCore::call], up to the query: its deadline and the reply stream *)
Definition call_start {E} `{EngineOps V E} (self : ClientCore) (payload : list Z) (timeout : Z) (now : Z) (e : E) :
  result (Z * eo_Replies) CallError * E :=
  if (DURATION_MAX <? timeout + ENGINE_TIMEOUT_MARGIN)%Z then (Err TimeoutTooLong, e)
  else
    match eo_query e (cc_key self) (Some payload) (schema_attachment (Some (cc_request_schema self)))
            (timeout + ENGINE_TIMEOUT_MARGIN) with
    | (Err m, e) => (Err (CallEngine m), e)
    | (Ok replies, e) => (Ok ((now + timeout)%Z, replies), e)
    end.

(** ... what it makes of the first reply ... *)
Definition call_reply (self : ClientCore) (exact_target : bool) (reply : option (DeliveryResult V)) :
  result Sample CallError :=
  match reply with
  | None => Err NoReply
  | Some (Err message) => Err (Remote message)
  | Some (Ok delivery) =>
      let sample := sample_of encode_shared_value delivery in
      if exact_target && negb (bool_decide (cc_key self = sa_key sample)) then Err UndeclaredTarget
      else match attachment_fingerprint (sa_attachment sample) with
           | None => Err MissingSchema
           | Some received =>
               if (cc_response_schema self =? received)%Z then Ok sample
               else Err (SchemaMismatch (cc_response_schema self) received)
           end
  end.

(** ... and one poll of the wait: the reply stream before the deadline *)
Definition call_poll (self : ClientCore) (exact_target : bool) (deadline now : Z) (polled : Polled (V := V)) :
  option (result Sample CallError) :=
  match polled with
  | ReplyReady reply => Some (call_reply self exact_target reply)
  | ReplyPending => if (deadline <=? now)%Z then Some (Err CallTimeout) else None
  end.

(** [RpcClient::call_with_timeout], on the sample *)
Definition call_decode {T} (decode_message : list Z → option T) (r : result Sample CallError) : result T CallError :=
  let? sample := r in ok_or (decode_message (sa_payload sample)) Undecodable.

(** What a server does with a query *)
Inductive Served : Type :=
  | ServedSkip
  | ServedError (message : str)
  | ServedRequest (payload : list Z).

(** One turn of [ServerCore::recv] *)
Definition server_turn (request_schema : Z) (payload attachment : option (list Z)) : Served :=
  match payload with
  | None => ServedSkip
  | Some payload =>
      if negb (bool_decide (attachment_fingerprint attachment = Some request_schema))
      then ServedError (bytes_of "missing or mismatching request schema fingerprint")
      else ServedRequest payload
  end.

(** [DeclaredRequest::reply]: the delivery that answers *)
Definition request_reply (key : Key) (response_schema : Z) (payload : list Z) (timestamp : option Z) : Delivery V :=
  mkDelivery key (PayloadBytes payload) (schema_attachment (Some response_schema)) timestamp.

(** [ServerCore::declare] *)
Definition server_declare {E} `{EngineOps V E} (e : E) (domain namespace name request_type : str) :
  result (Key * eo_Guard * eo_Guard) DeclareError * E :=
  if negb (cap_query (eo_caps e) && cap_liveliness (eo_caps e)) then (Err NoQuery, e)
  else
    let key := key_output domain namespace name request_type in
    match eo_declare e ResponderSlot key with
    | (Err m, e) => (Err (EngineError m), e)
    | (Ok guard, e) =>
        match eo_declare e TokenSlot (with_chunk key SERVICE_CHUNK) with
        | (Err m, e) => (Err (EngineError m), eo_drop e guard)
        | (Ok token, e) => (Ok (key, guard, token), e)
        end
    end.

(** [RpcServer::declare]: also a responder for each descriptor *)
Definition rpc_server_declare {E} `{EngineOps V E} (e : E) (domain namespace name request_type : str)
    (descriptors : list (option str)) : result (Key * list eo_Guard) DeclareError * E :=
  match server_declare e domain namespace name request_type with
  | (Err er, e) => (Err er, e)
  | (Ok (key, guard, token), e) =>
      match declare_all e ResponderSlot
              ((λ message, with_chunk key (SCHEMA_PREFIX ++ message)) <$> omap id descriptors) [] with
      | (Ok schemas, e) => (Ok (key, guard :: token :: schemas), e)
      | (Err er, e) => (Err er, eo_drop (eo_drop e guard) token)
      end
  end.

(** One turn of [RpcServer::recv] *)
Definition rpc_server_turn {T} (decode_message : list Z → result T str) (request_schema : Z)
    (payload attachment : option (list Z)) : Served + T :=
  match server_turn request_schema payload attachment with
  | ServedRequest payload =>
      match decode_message payload with
      | Ok value => inr value
      | Err e => inl (ServedError (bytes_of "undecodable request: " ++ e))
      end
  | served => inl served
  end.

(** [RpcClientBuilder::build_named] *)
Definition rpc_client_build (domain ty : str) (to : option EndpointAddress) (request_schema response_schema : Z) :
  ClientCore :=
  mkClientCore match to with
               | Some target => key_output domain (ea_namespace target) (ea_port target) ty
               | None => mkKey domain None None (Some ty) None
               end request_schema response_schema.
End rpc.
