(* ===== verification/PubSubProps.v ===== *)
(** * PubSubProps: what the handles guarantee

    Retained values never follow live ones, receive buffers lose nothing that
    they do not count, a receiving task gets every sample, and calls are answered
    before their deadline or time out. *)

From Stdlib Require Import ZArith Lia.
From S2P Require Import Prelude Text Btree Bindings EngineKey EngineLocal EngineProps PubSub.

Section subscriber.
Context {V C : Type} `{BoundedChan C (Delivery V)}.
Implicit Types (self : SubscriberCore V C) (l : list (SubAct V)).

(** ** What can be seen of a subscriber *)

Inductive SubStep : Type :=
  | LiveGiven (d : Delivery V)
  | LatchedGiven (d : Delivery V)
  | PublisherLeft (k : Key)
  | PresenceEnded
  | NothingSeen.

Definition step_of self (a : SubAct V) : SubStep :=
  match a with
  | SubTurn answer =>
      match (recv_turn self answer).1 with
      | TurnReturn (Some d) true => LiveGiven d
      | TurnReturn (Some d) false => LatchedGiven d
      | _ =>
          if sc_shutdown self || sc_presence_done self then NothingSeen
          else match sc_presence self with
               | Left k :: _ => PublisherLeft k
               | [] => if sc_presence_closed self then PresenceEnded else NothingSeen
               | _ => NothingSeen
               end
      end
  | _ => NothingSeen
  end.

Fixpoint sub_trace self l : list SubStep :=
  match l with
  | [] => []
  | a :: l => step_of self a :: sub_trace (sub_act self a).2 l
  end.

Fixpoint sub_end self l : SubscriberCore V C :=
  match l with [] => self | a :: l => sub_end (sub_act self a).2 l end.

Lemma sub_run_end self l : (sub_run self l).2 = sub_end self l.
Proof.
  revert self. induction l as [|a l IH]; intros self; cbn [sub_run sub_end]; [done|].
  destruct (sub_act self a) as [t self']. cbn [snd]. rewrite <- IH. by destruct (sub_run self' l).
Qed.

(** ** The turns by what they do *)

(** A sample that is live on one of the subscriber's keys *)
Definition admits self (d : Delivery V) : bool := is_none (k_chunk (dl_key d)) && covered self (dl_key d).

(** The parts of the state that a turn without a presence event leaves alone. *)
Definition same_parts self self' : Prop :=
  sc_presence self' = sc_presence self ∧ sc_presence_closed self' = sc_presence_closed self ∧
  sc_presence_done self' = sc_presence_done self ∧ sc_queried self' = sc_queried self ∧
  sc_keys self' = sc_keys self ∧ sc_shutdown self' = sc_shutdown self ∧ sc_counters self' = sc_counters self.

(** The turns: nothing came, a live sample was taken, or a latched stream was polled. *)
Inductive turn_spec self : Turn V → SubscriberCore V C → Prop :=
  | ts_pending self' : same_parts self self' → sc_chan self' = sc_chan self → sc_seen self' = sc_seen self →
      chan_recv (sc_chan self) = None → turn_spec self TurnPending self'
  | ts_live d chan self' : same_parts self self' → chan_recv (sc_chan self) = Some (d, chan) → sc_chan self' = chan →
      admits self d = true →
      sc_seen self' = (if sc_presence_done self then sc_seen self else (hash_insert (dl_key d) (sc_seen self)).2) →
      turn_spec self (TurnReturn (Some d) true) self'
  | ts_foreign d chan self' : same_parts self self' → chan_recv (sc_chan self) = Some (d, chan) → sc_chan self' = chan →
      admits self d = false → sc_seen self' = sc_seen self → turn_spec self TurnAgain self'
  | ts_latched d self' : same_parts self self' → sc_chan self' = sc_chan self → sc_seen self' = sc_seen self →
      dl_key d ∉ sc_seen self → admits self d = true → turn_spec self (TurnReturn (Some d) false) self'
  | ts_skip self' : same_parts self self' → sc_chan self' = sc_chan self → sc_seen self' = sc_seen self →
      turn_spec self TurnAgain self'.

Lemma on_live_spec self d chan :
  chan_recv (sc_chan self) = Some (d, chan) →
  turn_spec self (poll_live self).1 (poll_live self).2.
Proof.
  intros Hc. unfold poll_live. rewrite Hc. unfold on_live. cbn [sc_keys].
  assert (Hadm : negb (is_none (k_chunk (dl_key d))) || negb (covered self (dl_key d)) = negb (admits self d)).
  { unfold admits. by destruct (is_none _), (covered _ _). }
  unfold covered in *. cbn [sc_keys] in *. rewrite Hadm. destruct (admits self d) eqn:E; cbn [negb fst snd].
  - eapply ts_live; [done..|]. by cbn [sc_seen sc_presence_done].
  - eapply ts_foreign; done.
Qed.

Lemma poll_live_spec self : turn_spec self (poll_live self).1 (poll_live self).2.
Proof.
  destruct (chan_recv (sc_chan self)) as [[d chan]|] eqn:E; [by eapply on_live_spec|].
  unfold poll_live. rewrite E. by apply ts_pending.
Qed.

Lemma turn_spec_latched self self0 latched done t self' :
  self0 = set_latched self latched done → turn_spec self0 t self' → turn_spec self t self'.
Proof.
  intros -> Ht. destruct Ht as [self' Hp|d c self' Hp|d c self' Hp|d self' Hp|self' Hp].
  - by apply ts_pending.
  - by eapply ts_live.
  - by eapply ts_foreign.
  - by apply ts_latched.
  - by apply ts_skip.
Qed.

Lemma on_reply_spec self reply : turn_spec self (on_reply self reply).1 (on_reply self reply).2.
Proof.
  destruct reply as [[d|m]|]; cbn [on_reply]; [|by apply ts_skip..].
  destruct (negb (covered self (dl_key d)) || negb (is_none (k_chunk (dl_key d))) ||
            bool_decide (dl_key d ∈ sc_seen self)) eqn:E; cbn [fst snd]; [by apply ts_skip|].
  apply orb_false_iff in E as [E Hs]. breflect_in Hs. apply ts_latched; [done..|].
  unfold admits. by destruct (covered _ _), (is_none _).
Qed.

Lemma poll_reply_spec self : turn_spec self (poll_reply self).1 (poll_reply self).2.
Proof.
  unfold poll_reply. destruct (sc_latched_done self); [apply poll_live_spec|].
  destruct (sc_latched self) as [|[|[reply|] script] rest]; [apply poll_live_spec|apply on_reply_spec|..].
  - eapply turn_spec_latched; [done|apply on_reply_spec].
  - eapply turn_spec_latched; [done|apply poll_live_spec].
Qed.

Inductive recv_spec self (answer : result (ReplyScript (V := V)) str) : Turn V → SubscriberCore V C → Prop :=
  | rs_shutdown : sc_shutdown self = true → recv_spec self answer (TurnReturn None false) self
  | rs_event event events : sc_shutdown self = false → sc_presence_done self = false →
      sc_presence self = event :: events →
      recv_spec self answer TurnAgain (on_presence (set_presence self events) (Some event) answer)
  | rs_ended : sc_shutdown self = false → sc_presence_done self = false → sc_presence self = [] →
      sc_presence_closed self = true → recv_spec self answer TurnAgain (on_presence self None answer)
  | rs_turn t self' : sc_shutdown self = false →
      sc_presence_done self = true ∨ sc_presence self = [] ∧ sc_presence_closed self = false →
      turn_spec self t self' → recv_spec self answer t self'.

Lemma recv_turn_spec self answer : recv_spec self answer (recv_turn self answer).1 (recv_turn self answer).2.
Proof.
  unfold recv_turn. destruct (sc_shutdown self) eqn:Es; [by constructor|].
  destruct (sc_presence_done self) eqn:Ed; [apply rs_turn; [done|by left|apply poll_reply_spec]|].
  destruct (sc_presence self) as [|event events] eqn:Ep.
  - destruct (sc_presence_closed self) eqn:Ec; [by apply rs_ended|].
    apply rs_turn; [done|by right|apply poll_reply_spec].
  - by apply rs_event.
Qed.

(** A presence event touches neither the channel nor the keys, and only a leave
    forgets what was seen. *)
Lemma on_presence_parts self event answer :
  sc_chan (on_presence self event answer) = sc_chan self ∧ sc_keys (on_presence self event answer) = sc_keys self ∧
  sc_shutdown (on_presence self event answer) = sc_shutdown self ∧
  sc_counters (on_presence self event answer) = sc_counters self ∧
  sc_presence (on_presence self event answer) = sc_presence self ∧
  sc_presence_closed (on_presence self event answer) = sc_presence_closed self ∧
  sc_presence_done (on_presence self event answer) = (is_none event || sc_presence_done self) ∧
  sc_seen (on_presence self event answer) =
    match event with Some (Left k) => hash_remove k (sc_seen self) | _ => sc_seen self end.
Proof.
  destruct event as [[k|k]|]; cbn [on_presence]; [|done..].
  destruct (is_none (k_chunk k)); [|done]. unfold hash_insert. destruct (bool_decide (k ∈ sc_queried self)); [done|].
  by destruct answer.
Qed.

Lemma elem_of_hash_remove k k' s : k ∈ hash_remove k' s ↔ k ∈ s ∧ k ≠ k'.
Proof. unfold hash_remove. rewrite list_elem_of_filter. tauto. Qed.

Lemma elem_of_hash_insert k k' s : k ∈ (hash_insert k' s).2 ↔ k = k' ∨ k ∈ s.
Proof. unfold hash_insert. destruct (bool_decide (k' ∈ s)) eqn:E; breflect_in E; cbn [snd]; set_solver. Qed.

(** ** Latest wins *)

(** What a step shows, and how it changes what was seen live. *)
Lemma step_seen self a k :
  match step_of self a with
  | LiveGiven d => admits self d = true ∧ (sc_presence_done self = false → dl_key d ∈ sc_seen (sub_act self a).2)
  | LatchedGiven d => admits self d = true ∧ dl_key d ∉ sc_seen self
  | _ => True
  end ∧
  (k ∈ sc_seen self → step_of self a ≠ PublisherLeft k → k ∈ sc_seen (sub_act self a).2) ∧
  (sc_presence_done self = false → step_of self a ≠ PresenceEnded → sc_presence_done (sub_act self a).2 = false).
Proof.
  destruct a as [s|e| | |answer]; cbn [step_of sub_act].
  1: destruct (on_sample _ _ _) as [[c n] b]. 1-4: cbn; split_and!; auto.
  pose proof (recv_turn_spec self answer) as Hr. destruct (recv_turn self answer) as [t self']. cbn [fst snd] in *.
  destruct Hr as [Hs|event events Hs Hd Hp|Hs Hd Hp Hc|t self' Hs Hor Ht].
  - rewrite Hs. cbn. auto.
  - rewrite Hs, Hd, Hp. cbn [orb].
    destruct (on_presence_parts (set_presence self events) (Some event) answer) as (_&_&_&_&_&_&Hdone&Hseen).
    rewrite Hdone, Hseen. destruct event as [k'|k']; cbn [is_none orb set_presence sc_presence_done sc_seen].
    + auto.
    + split_and!; [done| |auto]. intros Hk Hne. apply elem_of_hash_remove. split; [done|congruence].
  - rewrite Hs, Hd, Hp, Hc. cbn [orb]. split_and!; [done|auto|by intros _ []].
  - assert (Hdone : sc_presence_done self' = sc_presence_done self).
    { destruct Ht as [? H0|? ? ? H0|? ? ? H0|? ? H0|? H0]; apply H0. }
    destruct Ht as [self' _ _ Hseen _|d c self' _ _ _ Ha Hseen|d c self' _ _ _ _ Hseen|d self' _ _ Hseen Hn Ha|self' _ _ Hseen];
      rewrite ?Hdone, ?Hseen.
    + split_and!; [by repeat case_match|auto|auto].
    + split; [split; [done|]|split; [intros Hk _|auto]].
      * intros ->. apply elem_of_hash_insert. by left.
      * destruct (sc_presence_done self); [done|]. apply elem_of_hash_insert. by right.
    + split_and!; [by repeat case_match|auto|auto].
    + split_and!; [done|done|auto|auto].
    + split_and!; [by repeat case_match|auto|auto].
Qed.

Lemma latched_after_seen self l k b d c :
  k ∈ sc_seen self → sub_trace self l = b ++ LatchedGiven d :: c → dl_key d = k → PublisherLeft k ∈ b.
Proof.
  revert self l. induction b as [|s b IH]; intros self [|a l] Hk Ht He; try done; cbn [sub_trace app] in Ht;
    injection Ht as Hs Ht; pose proof (step_seen self a k) as (H1&H2&_).
  - rewrite Hs in H1. destruct H1. congruence.
  - rewrite Hs in H2. assert (Hdec : s = PublisherLeft k ∨ s ≠ PublisherLeft k).
    { destruct s as [?|?|k'| |]; try by right. destruct (decide (k' = k)) as [->|]; [by left|right; congruence]. }
    destruct Hdec as [->|Hne]; [by left|]. right. eapply IH; [by apply H2|done|done].
Qed.

Lemma live_seen self l a d rest :
  sc_presence_done self = false → sub_trace self l = a ++ LiveGiven d :: rest → PresenceEnded ∉ a →
  ∃ self' l', dl_key d ∈ sc_seen self' ∧ sub_trace self' l' = rest.
Proof.
  revert self l. induction a as [|s a IH]; intros self [|x l] Hd Ht Hn; try done; cbn [sub_trace app] in Ht;
    injection Ht as Hs Ht; pose proof (step_seen self x (dl_key d)) as (H1&_&H3); rewrite Hs in H1, H3.
  - exists (sub_act self x).2, l. split; [by apply H1|done].
  - apply not_elem_of_cons in Hn as [Hn1 Hn]. apply (IH (sub_act self x).2 l); [apply H3; [done|congruence]|done|done].
Qed.

(** C28: latest wins, while presence is watched: whatever the engine's callbacks
    and the receiving task do in any order, once a subscriber that replays
    retained values has given out a live sample of a publisher before the end of
    its presence stream, it gives out no retained value of this publisher - at
    any later time - before it was told that the publisher left.  (Samples given
    out after the presence stream ended are not remembered, and a reply still in
    flight may follow them: [stale_reply_after_end].) *)
Theorem latest_wins keys latest l a d b d' c :
  sub_trace (core_new keys true latest) l = a ++ LiveGiven d :: b ++ LatchedGiven d' :: c →
  PresenceEnded ∉ a → dl_key d' = dl_key d → PublisherLeft (dl_key d) ∈ b.
Proof.
  intros Ht Hn He. destruct (live_seen (core_new keys true latest) l a d _ eq_refl Ht Hn) as (self'&l'&Hk&Ht').
  by eapply latched_after_seen.
Qed.

(** ** Live samples *)

Definition lives (t : list SubStep) : list (Delivery V) :=
  omap (λ s, match s with LiveGiven d => Some d | _ => None end) t.
Definition pushed l : list (Delivery V) := omap (λ a, match a with SubPush d => Some d | _ => None end) l.

(** What waits in a buffer *)
Definition chan_items (c : Chan V C) : list (Delivery V) :=
  match c with ChanFifo rx => bc_items rx | ChanRing ring => ring_queue ring end.
Definition is_fifo (c : Chan V C) : bool := match c with ChanFifo _ => true | ChanRing _ => false end.

Lemma chan_recv_items c :
  match chan_recv c with
  | None => chan_items c = []
  | Some (d, c') => chan_items c = d :: chan_items c' ∧ is_fifo c' = is_fifo c
  end.
Proof.
  destruct c as [rx|[q n]]; cbn [chan_recv chan_items].
  - pose proof (bc_recv_spec rx) as Hr. destruct (bc_recv rx) as [[d rx']|]; [|done]. by destruct Hr.
  - unfold ring_pop. cbn [ring_queue]. by destruct q.
Qed.

Lemma on_sample_fifo c n s :
  is_fifo c = true → is_fifo (on_sample c n s).1.1 = true ∧ chan_items (on_sample c n s).1.1 = chan_items c ++ [s].
Proof.
  destruct c as [rx|]; [intros _|done]. unfold on_sample. pose proof (bc_try_spec rx s) as Ht.
  destruct (bc_try_send rx s) as [[] rx']; cbn [fst snd chan_items is_fifo].
  - by destruct Ht as (_&_&->).
  - destruct Ht as (_&_&E). by rewrite (proj1 (bc_send_spec rx' s)), E.
Qed.

(** The next state of the channel, and the keys. *)
Lemma step_chan self a :
  is_fifo (sc_chan self) = true →
  is_fifo (sc_chan (sub_act self a).2) = true ∧ sc_keys (sub_act self a).2 = sc_keys self ∧
  filter (λ d, admits self d = true) (chan_items (sc_chan self) ++ pushed [a]) =
  lives [step_of self a] ++ filter (λ d, admits self d = true) (chan_items (sc_chan (sub_act self a).2)).
Proof.
  intros Hf. destruct a as [s|e| | |answer]; cbn [step_of sub_act].
  1: pose proof (on_sample_fifo (sc_chan self) (sc_counters self) s Hf) as [H1 H2];
     destruct (on_sample _ _ _) as [[c n] b]; cbn in *; split_and!; [done|done|by rewrite H2].
  1-3: cbn; rewrite app_nil_r; done.
  pose proof (recv_turn_spec self answer) as Hr. destruct (recv_turn self answer) as [t self']. cbn [fst snd] in *.
  cbn [pushed omap list_omap]. rewrite app_nil_r.
  destruct Hr as [Hs|event events Hs Hd Hp|Hs Hd Hp Hc|t self' Hs Hor Ht].
  - rewrite Hs. done.
  - destruct (on_presence_parts (set_presence self events) (Some event) answer) as (->&->&_).
    cbn [set_presence sc_chan sc_keys]. split_and!; [done..|]. rewrite Hs, Hd, Hp. by destruct event.
  - destruct (on_presence_parts self None answer) as (->&->&_). split_and!; [done..|]. by rewrite Hs, Hd, Hp, Hc.
  - destruct Ht as [self' Hsame Hchan _ _|d c self' Hsame Hrecv <- Ha _|d c self' Hsame Hrecv <- Ha _|d self' Hsame Hchan _ _ _|self' Hsame Hchan _];
      destruct Hsame as (_&_&_&_&Hk&_&_); rewrite ?Hchan.
    + split_and!; [done..|]. by repeat case_match.
    + pose proof (chan_recv_items (sc_chan self)) as Hi. rewrite Hrecv in Hi. destruct Hi as [Hi Hf'].
      split_and!; [congruence|done|]. rewrite Hi, filter_cons, decide_True by done. done.
    + pose proof (chan_recv_items (sc_chan self)) as Hi. rewrite Hrecv in Hi. destruct Hi as [Hi Hf'].
      split_and!; [congruence|done|]. rewrite Hi, filter_cons, decide_False by congruence. by repeat case_match.
    + done.
    + split_and!; [done..|]. by repeat case_match.
Qed.

Lemma admits_keys self self' d : sc_keys self' = sc_keys self → admits self' d = admits self d.
Proof. intros Hk. unfold admits, covered. by rewrite Hk. Qed.

Lemma run_chan self l :
  is_fifo (sc_chan self) = true →
  filter (λ d, admits self d = true) (chan_items (sc_chan self) ++ pushed l) =
  lives (sub_trace self l) ++ filter (λ d, admits self d = true) (chan_items (sc_chan (sub_end self l))).
Proof.
  revert self. induction l as [|a l IH]; intros self Hf; cbn [sub_trace sub_end].
  - cbn. by rewrite app_nil_r.
  - destruct (step_chan self a Hf) as (Hf'&Hk&He). specialize (IH _ Hf').
    assert (Hadm : ∀ x : list (Delivery V), filter (λ d, admits (sub_act self a).2 d = true) x = filter (λ d, admits self d = true) x).
    { intros x. apply list_filter_iff. intros d. by rewrite (admits_keys self). }
    rewrite !Hadm in IH. change (pushed (a :: l)) with (pushed ([a] ++ l)). unfold pushed in *.
    rewrite omap_app, (assoc_L (++)), filter_app, He, <- (assoc_L (++)), <- filter_app, IH.
    unfold lives. rewrite (assoc_L (++)), <- omap_app. done.
Qed.

(** ** Progress *)

(** What waits for the receiving task. *)
Definition streams_weight self : nat := sum_list_with (λ script, S (length script)) (sc_latched self).
Definition presence_weight self : nat :=
  if sc_presence_done self then 0 else length (sc_presence self) + (if sc_presence_closed self then 1 else 0).
Definition backlog self : nat := presence_weight self + streams_weight self + length (chan_items (sc_chan self)).

Lemma poll_live_backlog self :
  streams_weight (poll_live self).2 = streams_weight self ∧
  (chan_items (sc_chan self) ≠ [] →
   length (chan_items (sc_chan (poll_live self).2)) < length (chan_items (sc_chan self))).
Proof.
  unfold poll_live. pose proof (chan_recv_items (sc_chan self)) as Hi.
  destruct (chan_recv (sc_chan self)) as [[d c]|]; [|done]. destruct Hi as [-> _].
  unfold on_live. cbn [sc_keys sc_chan]. destruct (_ || _); cbn [snd sc_chan length]; (split; [done|lia]).
Qed.

Lemma on_reply_backlog self reply :
  sc_chan (on_reply self reply).2 = sc_chan self ∧
  sc_latched (on_reply self reply).2 = match reply with None => tail (sc_latched self) | _ => sc_latched self end.
Proof. destruct reply as [[d|m]|]; cbn [on_reply]; [|done..]. by destruct (_ || _). Qed.

Lemma poll_reply_backlog self :
  chan_items (sc_chan self) ≠ [] →
  streams_weight (poll_reply self).2 + length (chan_items (sc_chan (poll_reply self).2)) <
  streams_weight self + length (chan_items (sc_chan self)).
Proof.
  intros Hne. unfold poll_reply.
  assert (Hlive : ∀ (ls : list (ReplyScript (V := V))) (d : bool), streams_weight (poll_live (set_latched self ls d)).2 +
            length (chan_items (sc_chan (poll_live (set_latched self ls d)).2)) <
            sum_list_with (λ script, S (length script)) ls + length (chan_items (sc_chan self))).
  { intros ls d. destruct (poll_live_backlog (set_latched self ls d)) as [-> Hlt]. specialize (Hlt Hne).
    unfold streams_weight. cbn [set_latched sc_latched sc_chan] in *. lia. }
  destruct (poll_live_backlog self) as [Hw Hlt]. specialize (Hlt Hne). unfold streams_weight at 2.
  destruct (sc_latched_done self); [fold (streams_weight self); lia|].
  destruct (sc_latched self) as [|[|[reply|] script] rest] eqn:El; cbn [sum_list_with length].
  - unfold streams_weight in Hw at 2. rewrite El in Hw. cbn [sum_list_with] in Hw. lia.
  - destruct (on_reply_backlog self None) as [-> Hl]. unfold streams_weight. rewrite Hl, El. cbn [tail]. lia.
  - destruct (on_reply_backlog (set_latched self (script :: rest) false) (Some reply)) as [-> Hl].
    unfold streams_weight. rewrite Hl. cbn [set_latched sc_latched sc_chan sum_list_with]. lia.
  - specialize (Hlive (script :: rest) false). cbn [sum_list_with] in Hlive. lia.
Qed.

(** What the answer to a query adds to what waits, and the queries still to be made *)
Definition answer_weight (answer : result (ReplyScript (V := V)) str) : nat :=
  match answer with Ok script => S (length script) | Err _ => 0 end.
Definition due self : nat := if sc_presence_done self then 0 else length (sc_presence self).
Definition answers_weight self (answers : list (result (ReplyScript (V := V)) str)) : nat :=
  sum_list_with answer_weight (take (due self) answers).
Definition turns (answers : list (result (ReplyScript (V := V)) str)) : list (SubAct V) := SubTurn <$> answers.

Lemma presence_weights self event answer :
  streams_weight (on_presence self event answer) ≤ streams_weight self + answer_weight answer.
Proof.
  unfold streams_weight. destruct event as [[k|k]|]; cbn [on_presence]; [|cbn; lia..].
  destruct (is_none (k_chunk k)); [|lia]. unfold hash_insert. destruct (bool_decide _); cbn [negb]; [cbn; lia|].
  destruct answer as [script|e]; cbn [sc_latched answer_weight]; [|cbn; lia]. rewrite sum_list_with_app. cbn. lia.
Qed.

Lemma turn_backlog self answer :
  sc_shutdown self = false → chan_items (sc_chan self) ≠ [] →
  let self' := (recv_turn self answer).2 in
  sc_shutdown self' = false ∧ due self' = pred (due self) ∧
  backlog self' < backlog self + (if due self =? 0 then 0 else answer_weight answer).
Proof.
  intros Hs Hne. cbn zeta. unfold recv_turn. rewrite Hs.
  assert (Hreply : ∀ w, presence_weight self = w → due self = 0 →
            sc_shutdown (poll_reply self).2 = false ∧ due (poll_reply self).2 = pred (due self) ∧
            backlog (poll_reply self).2 <
            w + streams_weight self + length (chan_items (sc_chan self)) + (if due self =? 0 then 0 else answer_weight answer)).
  { intros w Hw Hdue. pose proof (poll_reply_spec self) as Hsp. pose proof (poll_reply_backlog self Hne) as Hlt.
    assert (Hsame : same_parts self (poll_reply self).2) by (destruct Hsp; done).
    destruct Hsame as (Hp&Hc&Hd&_&_&Hsh&_). split; [congruence|].
    assert (Hdue' : due (poll_reply self).2 = due self) by (unfold due; by rewrite Hp, Hd).
    split; [by rewrite Hdue', Hdue|]. rewrite Hdue. unfold backlog, presence_weight in *. rewrite Hp, Hc, Hd. cbn. lia. }
  unfold backlog at 2. destruct (sc_presence_done self) eqn:Ed.
  - apply Hreply; unfold presence_weight, due; by rewrite Ed.
  - assert (Hpw : presence_weight self = length (sc_presence self) + (if sc_presence_closed self then 1 else 0))
      by (unfold presence_weight; by rewrite Ed).
    assert (Hdue : due self = length (sc_presence self)) by (unfold due; by rewrite Ed).
    rewrite Hpw. destruct (sc_presence self) as [|event events] eqn:Ep.
    + destruct (sc_presence_closed self) eqn:Ec.
      * cbn [snd on_presence]. split_and!; [done|by rewrite Hdue|]. rewrite Hdue. unfold backlog, presence_weight, streams_weight.
        cbn [sc_presence_done sc_latched sc_chan length]. cbn. lia.
      * apply Hreply; unfold presence_weight, due; by rewrite Ed, Ep, ?Ec.
    + cbn [snd]. destruct (on_presence_parts (set_presence self events) (Some event) answer)
        as (Hch&_&Hsh&_&Hpr&Hcl&Hdn&_). split; [by rewrite Hsh|].
      pose proof (presence_weights (set_presence self events) (Some event) answer) as Hw.
      change (streams_weight (set_presence self events)) with (streams_weight self) in Hw.
      unfold due in *. rewrite Ed in *. rewrite Hdn, Hpr, Ep. cbn [is_none orb set_presence sc_presence_done sc_presence].
      rewrite Ed. split; [done|]. unfold backlog, presence_weight. rewrite Hch, Hpr, Hcl, Hdn. cbn [is_none orb set_presence sc_presence_done
        sc_presence sc_presence_closed sc_chan]. rewrite Ed. cbn [length Nat.eqb]. lia.
Qed.

Lemma drained_stays answers self :
  sc_shutdown self = false → chan_items (sc_chan self) = [] → chan_items (sc_chan (sub_end self (turns answers))) = [].
Proof.
  revert self. induction answers as [|answer answers IH]; intros self Hs Hn; cbn [turns fmap list_fmap sub_end sub_act]; [done|].
  pose proof (recv_turn_spec self answer) as Hr. destruct (recv_turn self answer) as [t self']. cbn [fst snd] in *.
  assert (Hboth : sc_shutdown self' = false ∧ chan_items (sc_chan self') = []); [|destruct Hboth; by apply IH].
  destruct Hr as [Hs'|ev evs Hs' Hd Hp|Hs' Hd Hp Hc|t self' Hs' Hor Ht]; [congruence|..].
  - destruct (on_presence_parts (set_presence self evs) (Some ev) answer) as (->&_&->&_). done.
  - destruct (on_presence_parts self None answer) as (->&_&->&_). done.
  - pose proof (chan_recv_items (sc_chan self)) as Hi. rewrite Hn in Hi.
    destruct Ht as [self' Hp Hc _ _|? ? ? _ Hrc _ _ _|? ? ? _ Hrc _ _ _|? ? Hp Hc _ _ _|? Hp Hc _];
      try (rewrite Hrc in Hi; by destruct Hi); rewrite Hc; destruct Hp as (_&_&_&_&_&->&_); done.
Qed.

Lemma turns_drain answers self :
  sc_shutdown self = false → is_fifo (sc_chan self) = true → backlog self + answers_weight self answers ≤ length answers →
  chan_items (sc_chan (sub_end self (turns answers))) = [].
Proof.
  revert self. induction answers as [|answer answers IH]; intros self Hs Hf Hb.
  - cbn [turns fmap list_fmap sub_end length] in *. unfold backlog in Hb. apply nil_length_inv. lia.
  - destruct (decide (chan_items (sc_chan self) = [])) as [Hnil|Hne]; [by apply drained_stays|].
    destruct (step_chan self (SubTurn answer) Hf) as (Hf'&_&_). destruct (turn_backlog self answer Hs Hne) as (Hs'&Hd&Hlt).
    cbn [turns fmap list_fmap sub_end sub_act] in *. destruct (recv_turn self answer) as [t self']. cbn [snd] in *.
    apply IH; [done|done|]. unfold answers_weight in *. rewrite Hd. cbn [length] in Hb.
    destruct (due self) as [|d]; cbn in Hlt, Hb |- *; [rewrite !take_0 in *; cbn; lia|lia].
Qed.

Lemma trace_app self l k : sub_trace self (l ++ k) = sub_trace self l ++ sub_trace (sub_end self l) k.
Proof. revert self. induction l as [|a l IH]; intros self; cbn [app sub_trace sub_end]; [done|]. by rewrite IH. Qed.

Lemma end_app self l k : sub_end self (l ++ k) = sub_end (sub_end self l) k.
Proof. revert self. induction l as [|a l IH]; intros self; cbn [app sub_end]; [done|]. by rewrite IH. Qed.


(** ** Receive buffers *)

Inductive BufOp : Type := BufPush (d : Delivery V) | BufPop.

(** What was taken out, and the buffer with its counters. *)
Fixpoint buf_run (c : Chan V C) (n : Counters) (ops : list BufOp) : list (Delivery V) * (Chan V C * Counters) :=
  match ops with
  | [] => ([], (c, n))
  | BufPush d :: ops => let '(c, n, _) := on_sample c n d in buf_run c n ops
  | BufPop :: ops =>
      match chan_recv c with
      | Some (d, c) => let '(taken, r) := buf_run c n ops in (d :: taken, r)
      | None => buf_run c n ops
      end
  end.

Definition handed (ops : list BufOp) : list (Delivery V) :=
  omap (λ op, match op with BufPush d => Some d | BufPop => None end) ops.

(** The accounts of a ring of [n], after [given] was handed over and [taken] was
    taken out. *)
Record ring_ok (n : nat) (given taken : list (Delivery V)) (q : list (Delivery V)) (c : Counters) : Prop := {
  ro_length : length q ≤ n;
  ro_suffix : q `suffix_of` given;
  ro_sublist : sublist (taken ++ q) given;
  ro_received : ct_received c = Z.of_nat (length given);
  ro_total : Z.of_nat (length given) = (ct_dropped c + Z.of_nat (length taken) + Z.of_nat (length q))%Z;
  ro_dropped : (0 ≤ ct_dropped c)%Z;
  ro_blocked : ct_blocked c = 0%Z;
  ro_warned : ct_warned c = true ↔ (0 < ct_dropped c)%Z;
}.

Lemma ring_ok_push n given taken q c d :
  0 < n → (Z.of_nat (length given) + 1 < 2 ^ 64)%Z → ring_ok n given taken q c →
  let '(evicted, ring) := ring_push (mkRing q n) d in
  ring_ok n (given ++ [d]) taken (ring_queue ring) (if evicted then (note_full (note_received c) true).2 else note_received c)
  ∧ ring_capacity ring = n.
Proof.
  intros Hn Hb [H1 H2 H3 H4 H5 H6 H7 H8]. unfold ring_push. cbn [ring_queue ring_capacity].
  assert (Hr : wrapping_add 64 (ct_received c) 1 = Z.of_nat (length (given ++ [d]))).
  { rewrite H4, length_app. cbn [length]. unfold wrapping_add. rewrite wrap_small; [lia|unfold is_u; lia]. }
  destruct (length q =? n) eqn:E; (split; [|done]).
  - apply Nat.eqb_eq in E. destruct q as [|x q]; [cbn in E; lia|]. cbn [tail].
    assert (Hd : wrapping_add 64 (ct_dropped c) 1 = (ct_dropped c + 1)%Z).
    { unfold wrapping_add. apply wrap_small. unfold is_u. cbn [length] in *. lia. }
    constructor; cbn [note_full note_received ct_received ct_dropped ct_blocked ct_warned snd]; rewrite ?Hd.
    + rewrite length_app. cbn [length] in *. lia.
    + destruct H2 as [k ->]. exists (k ++ [x]). by rewrite <- !(assoc_L (++)).
    + rewrite (assoc_L (++)). apply sublist_app; [|done]. etrans; [|exact H3].
      apply sublist_app; [done|]. by apply sublist_cons.
    + exact Hr.
    + rewrite !length_app in *. cbn [length] in *. lia.
    + lia.
    + done.
    + split; [lia|done].
  - apply Nat.eqb_neq in E. constructor; cbn [note_received ct_received ct_dropped ct_blocked ct_warned].
    + rewrite length_app. cbn [length]. lia.
    + destruct H2 as [k ->]. exists k. by rewrite (assoc_L (++)).
    + rewrite (assoc_L (++)). by apply sublist_app.
    + exact Hr.
    + rewrite !length_app. cbn [length]. lia.
    + done.
    + done.
    + done.
Qed.

Lemma ring_run_ok n ops given taken q c :
  0 < n → (Z.of_nat (length given) + Z.of_nat (length ops) < 2 ^ 64)%Z → ring_ok n given taken q c →
  ∃ more q' c', buf_run (ChanRing (mkRing q n)) c ops = (more, (ChanRing (mkRing q' n), c')) ∧
    ring_ok n (given ++ handed ops) (taken ++ more) q' c'.
Proof.
  intros Hn. revert given taken q c. induction ops as [|[d|] ops IH]; intros given taken q c Hb Hok; cbn [buf_run].
  - exists [], q, c. cbn. by rewrite !app_nil_r.
  - cbn [length] in Hb. pose proof (ring_ok_push n given taken q c d Hn ltac:(lia) Hok) as Hp. unfold on_sample.
    destruct (ring_push (mkRing q n) d) as [ev [q' n']]. cbn [ring_queue ring_capacity] in Hp. destruct Hp as [Hok' ->].
    destruct (IH (given ++ [d]) taken q' (if ev then (note_full (note_received c) true).2 else note_received c))
      as (more&q2&c2&Hr&Hok2); [rewrite length_app; cbn [length]; lia|done|]. exists more, q2, c2. split; [done|].
    change (handed (BufPush d :: ops)) with ([d] ++ handed ops). by rewrite (assoc_L (++)).
  - cbn [length] in Hb. cbn [chan_recv ring_pop ring_queue ring_capacity]. destruct q as [|x q].
    + destruct (IH given taken [] c) as (more&q2&c2&Hr&Hok2); [lia|done|]. by exists more, q2, c2.
    + destruct (IH given (taken ++ [x]) q c) as (more&q2&c2&Hr&Hok2); [lia| |].
      * destruct Hok as [H1 H2 H3 H4 H5 H6 H7 H8]. constructor; try done.
        -- cbn [length] in H1. lia.
        -- destruct H2 as [k ->]. exists (k ++ [x]). by rewrite <- (assoc_L (++)).
        -- by rewrite <- (assoc_L (++)).
        -- rewrite length_app. cbn [length] in *. lia.
      * unfold ring_pop. cbn [ring_queue ring_capacity]. rewrite Hr. exists (x :: more), q2, c2. split; [done|].
        by rewrite <- (assoc_L (++)) in Hok2.
Qed.

(** A ring of the latest [n] samples never holds more, holds the newest
    samples handed over, gives them out in order and none twice; its counters
    account for every sample: what was received was dropped, taken or waits, and
    the warning has been given exactly when something was dropped. *)
Theorem ring_accounts n ops :
  0 < n → (Z.of_nat (length ops) < 2 ^ 64)%Z →
  ∃ taken q c, buf_run (chan_new (Some n)) counters_default ops = (taken, (ChanRing (mkRing q n), c)) ∧
    ring_ok n (handed ops) taken q c.
Proof.
  intros Hn Hb. destruct (ring_run_ok n ops [] [] [] counters_default) as (more&q&c&Hr&Hok); [done|cbn; lia|..].
  - constructor; cbn; try lia; try done.
  - exists more, q, c. split; [exact Hr|exact Hok].
Qed.
End subscriber.

(** ** Typed receives *)

Section typed.
Context {V T : Type}.
Variable schema_fingerprint : Z.
Variable decode_message : list Z → option T.
Variable encode_shared_value : V → list Z.
Variable downcast : V → option T.

Notation unwrap := (unwrap_sample schema_fingerprint decode_message encode_shared_value).

Definition fits (sample : Delivery V) : bool :=
  bool_decide (attachment_fingerprint (dl_attachment sample) = Some schema_fingerprint).

(** The envelope of a sample that the type accepts. *)
Definition opened (sample : Delivery V) : option (SampleEnvelope T) :=
  if fits sample
  then decode_message (payload_bytes encode_shared_value (dl_payload sample)) ≫= envelope_of sample
  else None.

Lemma unwrap_opened sample warned : (unwrap sample warned).1 = opened sample.
Proof.
  unfold unwrap_sample, schema_matches, opened, fits. destruct (bool_decide _); cbn [negb]; [|done].
  by destruct (decode_message _).
Qed.

Lemma unwrap_warned sample warned :
  (unwrap sample warned).2 =
  if fits sample || bool_decide (key_display (dl_key sample) ∈ warned) then warned
  else warned ++ [key_display (dl_key sample)].
Proof.
  unfold unwrap_sample, schema_matches, fits.
  destruct (bool_decide (attachment_fingerprint _ = _)); cbn [negb orb]; [by destruct (decode_message _)|].
  by destruct (bool_decide _).
Qed.

(** The sources warned about, in order *)
Definition misfits (samples : list (Delivery V)) : list str :=
  (λ s, key_display (dl_key s)) <$> filter (λ s, fits s = false) samples.

Lemma recv_envelope_spec managed samples warned :
  NoDup warned →
  match recv_envelope schema_fingerprint decode_message encode_shared_value managed samples warned with
  | (r, rest, warned') =>
      NoDup warned' ∧
      ∃ before, samples = before ++ rest ∧
        omap opened before = option_list r ∧
        (managed = false → ∀ k, k ∈ warned' ↔ k ∈ warned ∨ k ∈ misfits before) ∧ (managed = true → warned' = warned) ∧
        (r = None → rest = []) ∧ (is_Some r → 0 < length before)
  end.
Proof.
  revert warned. induction samples as [|s samples IH]; intros warned Hnd; cbn [recv_envelope].
  - split; [done|]. exists []. cbn. split_and!; try done; set_solver.
  - fold (fits s). destruct (managed && negb (fits s)) eqn:Em.
    + apply andb_true_iff in Em as [-> Hf%negb_true_iff]. specialize (IH warned Hnd).
      destruct (recv_envelope _ _ _ true samples warned) as [[r rest] w]. destruct IH as [Hw (before&->&Ho&_&Hw2&Hr&Hl)].
      split; [done|]. exists (s :: before). unfold opened at 1. cbn [omap list_omap]. fold (opened s).
      assert (opened s = None) as -> by (unfold opened; by rewrite Hf). split_and!; try done. cbn [length]. lia.
    + pose proof (unwrap_opened s warned) as H1. pose proof (unwrap_warned s warned) as H2.
      destruct (unwrap s warned) as [o w]. cbn [fst snd] in H1, H2. subst o.
      assert (Hw : NoDup w ∧ (managed = true → w = warned) ∧
                   (∀ k, k ∈ w ↔ k ∈ warned ∨ k ∈ misfits [s])).
      { subst w. unfold misfits. destruct (fits s) eqn:Hf; cbn [orb].
        - split_and!; [done|done|]. intros k. rewrite filter_cons, decide_False by congruence. set_solver.
        - rewrite andb_true_r in Em. subst managed. rewrite filter_cons, decide_True by done. cbn [fmap list_fmap filter list_filter].
          destruct (bool_decide (key_display (dl_key s) ∈ warned)) eqn:Hin; breflect_in Hin.
          + split_and!; [done|done|set_solver].
          + split_and!; [|done|set_solver]. apply NoDup_app. split_and!; [done|set_solver|apply NoDup_singleton]. }
      destruct Hw as (Hw1&Hw2&Hw3). destruct (opened s) as [env|] eqn:Eo.
      * split; [done|]. exists [s]. cbn [omap list_omap app option_list]. rewrite Eo. split_and!; try done. cbn. lia.
      * specialize (IH w Hw1). destruct (recv_envelope _ _ _ managed samples w) as [[r rest] w'].
        destruct IH as [Hnd' (before&->&Ho&Hm&Hm2&Hr&Hl)]. split; [done|]. exists (s :: before).
        cbn [omap list_omap]. rewrite Eo. split_and!; try done.
        -- intros Hma k. rewrite (Hm Hma), Hw3. unfold misfits. rewrite !filter_cons.
           destruct (decide (fits s = false)); cbn [filter list_filter fmap list_fmap]; set_solver.
        -- intros Hma. rewrite (Hm2 Hma). auto.
        -- cbn [length]. lia.
Qed.

Lemma receive_all_spec managed fuel samples warned :
  NoDup warned → length samples < fuel →
  match receive_all schema_fingerprint decode_message encode_shared_value managed fuel samples warned with
  | (envelopes, warned') =>
      envelopes = omap opened samples ∧ NoDup warned' ∧
      (managed = false → ∀ k, k ∈ warned' ↔ k ∈ warned ∨ k ∈ misfits samples) ∧ (managed = true → warned' = warned)
  end.
Proof.
  revert samples warned. induction fuel as [|fuel IH]; intros samples warned Hnd Hl; [lia|]. cbn [receive_all].
  pose proof (recv_envelope_spec managed samples warned Hnd) as Hr.
  destruct (recv_envelope _ _ _ managed samples warned) as [[[env|] rest] w]; destruct Hr as [Hw (before&->&Ho&Hm&Hm2&Hn&Hp)].
  - rewrite length_app in Hl. specialize (Hp ltac:(by eexists)). specialize (IH rest w Hw ltac:(lia)).
    destruct (receive_all _ _ _ managed fuel rest w) as [more w']. destruct IH as (->&Hnd'&Hk&Hk2).
    rewrite omap_app, Ho. split_and!; [done|done| |].
    + intros Hma k. rewrite (Hk Hma), (Hm Hma). unfold misfits. rewrite filter_app, fmap_app. set_solver.
    + intros Hma. by rewrite (Hk2 Hma), (Hm2 Hma).
  - rewrite (Hn eq_refl), app_nil_r in *. rewrite Ho. split_and!; try done.
Qed.

(** A typed subscriber yields exactly the samples of its schema that decode,
    in order, with their sources; an unmanaged one warns once about each address
    that sent another schema, and about no other. *)
Theorem receive_exact managed samples :
  let '(envelopes, warned) :=
    receive_all schema_fingerprint decode_message encode_shared_value managed (S (length samples)) samples [] in
  envelopes = omap opened samples ∧ NoDup warned ∧
  ∀ k, k ∈ warned ↔ managed = false ∧ ∃ s, s ∈ samples ∧ fits s = false ∧ k = key_display (dl_key s).
Proof.
  pose proof (receive_all_spec managed (S (length samples)) samples [] (NoDup_nil_2) ltac:(lia)) as Hr.
  destruct (receive_all _ _ _ managed _ samples []) as [envelopes warned]. destruct Hr as (->&Hnd&Hk&Hk2).
  split_and!; [done|done|]. intros k. destruct managed.
  - rewrite (Hk2 eq_refl). split; [by intros ?%elem_of_nil|by intros [? _]].
  - rewrite (Hk eq_refl). unfold misfits. rewrite list_elem_of_fmap. split.
    + intros [?%elem_of_nil|(s&->&[? ?]%list_elem_of_filter)]; [done|]. split; [done|]. by exists s.
    + intros [_ (s&Hs&Hf&->)]. right. exists s. split; [done|]. by apply list_elem_of_filter.
Qed.

(** A shared receive gives what an owned one gives, when a shared value decodes
    from its own bytes. *)
Lemma shared_receive_agrees sample warned :
  (∀ v t, downcast v = Some t → decode_message (encode_shared_value v) = Some t) →
  unwrap_shared schema_fingerprint decode_message encode_shared_value downcast sample warned = unwrap sample warned.
Proof.
  intros Hc. unfold unwrap_shared, unwrap_sample. destruct (schema_matches _ sample warned) as [[] w]; [|done]. cbn [negb].
  destruct (dl_payload sample) as [bytes|v]; cbn [payload_bytes]; [done|].
  destruct (downcast v) as [t|] eqn:E; [by rewrite (Hc _ _ E)|done].
Qed.
End typed.

(** ** Calls over the in-process engine *)

Section rpc.
Context {V : Type}.
Variable encode_shared_value : V → list Z.

(** Whether a query that could still answer a stream waits or is held. *)
Definition answerable (stream : nat) (w : LocalWorld V) : Prop :=
  0 < queued_queries stream (lw_queue w) + held_of stream (lw_held w).

(** The answer that a caller takes next. *)
Definition next_answer (stream : nat) (l : list (LocalAct V)) : option (DeliveryResult V) :=
  answers stream l !! length (received stream l).

(** A reply that a caller may return. *)
Definition acceptable (core : ClientCore) (exact : bool) (d : Delivery V) : Prop :=
  (exact = true → cc_key core = dl_key d) ∧
  attachment_fingerprint (dl_attachment d) = Some (cc_response_schema core).

(** What a call over the in-process bus reports is what happened: polled
    before the engine's deadline, which lies behind its own, it returns a reply
    exactly when the next answer on its stream is from the declared target and of
    the declared schema; it reports no reply only when every answer was taken and
    no query is left that could answer, and a timeout only at its deadline while
    one is; otherwise it waits. *)
Theorem call_reports_truth (l : list (LocalAct V)) stream r core exact started timeout now polled w :
  lw_streams (acts l) !! stream = Some r → rs_open r = true →
  rs_deadline r = (started + (timeout + ENGINE_TIMEOUT_MARGIN))%Z → (now < rs_deadline r)%Z →
  next_delivery (acts l) stream now = Some (polled, w) →
  match call_poll encode_shared_value core exact (started + timeout) now polled with
  | None => next_answer stream l = None ∧ answerable stream (acts l) ∧ (now < started + timeout)%Z
  | Some (Err CallTimeout) =>
      next_answer stream l = None ∧ answerable stream (acts l) ∧ (started + timeout <= now)%Z
  | Some (Err NoReply) => next_answer stream l = None ∧ ¬ answerable stream (acts l)
  | Some (Err (Remote m)) => next_answer stream l = Some (Err m)
  | Some (Err _) => ∃ d, next_answer stream l = Some (Ok d) ∧ ¬ acceptable core exact d
  | Some (Ok s) =>
      ∃ d, next_answer stream l = Some (Ok d) ∧ acceptable core exact d ∧ s = sample_of encode_shared_value d
  end.
Proof.
  intros Hr Ho Hd Hnow. pose proof (replies_in_order l stream r Hr Ho) as Hitems.
  assert (Hcount : rs_senders r = queued_queries stream (lw_queue (acts l)) + held_of stream (lw_held (acts l))).
  { destruct (counted_acts l) as [Hc _]. rewrite <- Hc; [unfold senders; by rewrite Hr|by eapply lookup_lt_Some]. }
  unfold next_delivery, next_answer, answerable. rewrite Hr, Hitems, <- Hcount.
  rewrite lookup_app_r, Nat.sub_diag by lia. destruct (rs_items r) as [|item items].
  - cbn [lookup list_lookup]. rewrite (proj2 (Z.leb_gt _ _)), orb_false_r by lia.
    destruct (rs_senders r =? 0) eqn:E; intros [= <- <-]; cbn [call_poll call_reply].
    + apply Nat.eqb_eq in E. split; [done|lia].
    + apply Nat.eqb_neq in E. destruct (started + timeout <=? now)%Z eqn:El.
      * apply Z.leb_le in El. split_and!; [done|lia|done].
      * apply Z.leb_gt in El. split_and!; [done|lia|done].
  - intros [= <- <-]. cbn [lookup list_lookup call_poll call_reply]. destruct item as [d|m]; [|done].
    destruct d as [k p a t]. unfold acceptable. cbn [sample_of sa_key sa_attachment dl_key dl_attachment dl_payload dl_timestamp].
    destruct (exact && negb (bool_decide (cc_key core = k))) eqn:Ex.
    + apply andb_true_iff in Ex as [-> Hk%negb_true_iff]. breflect_in Hk. eexists. split; [done|]. cbn. intros [H _]. auto.
    + destruct (attachment_fingerprint a) as [f|] eqn:Ef.
      * destruct (cc_response_schema core =? f)%Z eqn:Es.
        -- apply Z.eqb_eq in Es. subst f. eexists. split_and!; [done| |exact Ef|done]. cbn. intros ->.
           cbn [andb] in Ex. apply negb_false_iff in Ex. by breflect_in Ex.
        -- apply Z.eqb_neq in Es. eexists. split; [done|]. cbn. intros [_ H]. congruence.
      * eexists. split; [done|]. cbn. intros [_ H]. congruence.
Qed.
End rpc.

(** ** Witnesses *)

Definition pose_key : Key := key_output (bytes_of "lab") (bytes_of "arm") (bytes_of "pose") (bytes_of "T").
Definition pose (b : Z) : Delivery nat := mkDelivery pose_key (PayloadBytes [b]) (schema_attachment (Some 7%Z)) None.
Definition no_answer : result (ReplyScript (V := nat)) str := Err [].

(** A live sample overtakes the retained one; the publisher leaves and comes back. *)
Definition example_sub : list (SubAct nat) :=
  [SubPresence (Joined pose_key); SubTurn (Ok [None; Some (Ok (pose 1))]); SubPush (pose 2); SubTurn no_answer;
   SubTurn no_answer; SubPresence (Left pose_key); SubPresence (Joined pose_key); SubTurn no_answer;
   SubTurn (Ok [Some (Ok (pose 3))]); SubTurn no_answer; SubTurn no_answer; SubPush (pose 4)].

Definition example_core : SubscriberCore nat (list (Delivery nat) * nat) := core_new [pose_key] true None.

Lemma latest_wins_witness :
  sub_trace example_core example_sub =
    [NothingSeen; NothingSeen; NothingSeen] ++ LiveGiven (pose 2) ::
    [NothingSeen; NothingSeen; NothingSeen; PublisherLeft pose_key; NothingSeen; NothingSeen] ++
    LatchedGiven (pose 3) :: [NothingSeen] ∧
  PublisherLeft (V := nat) pose_key ∈
    [NothingSeen; NothingSeen; NothingSeen; PublisherLeft pose_key; NothingSeen; NothingSeen].
Proof.
  assert (Ht : sub_trace example_core example_sub =
    [NothingSeen; NothingSeen; NothingSeen] ++ LiveGiven (pose 2) ::
    [NothingSeen; NothingSeen; NothingSeen; PublisherLeft pose_key; NothingSeen; NothingSeen] ++
    LatchedGiven (pose 3) :: [NothingSeen]) by by vm_compute.
  split; [exact Ht|].
  change (PublisherLeft (V := nat) pose_key) with (PublisherLeft (V := nat) (dl_key (pose 2))).
  eapply (latest_wins [pose_key] None example_sub _ (pose 2) _ (pose 3)); [exact Ht| |done].
  intros Hin. repeat (apply elem_of_cons in Hin as [[=]|Hin]). by apply elem_of_nil in Hin.
Defined.

(** The waiting event of presence causes a query that is answered with a reply *)
Definition joining_sub : list (SubAct nat) := example_sub ++ [SubPresence (Left pose_key); SubPresence (Joined pose_key)].
Definition joining_answers : list (result (ReplyScript (V := nat)) str) :=
  [no_answer; Ok [Some (Ok (pose 5)); None]; no_answer; no_answer; no_answer; no_answer; no_answer; no_answer].


Lemma ring_accounts_witness :
  ∃ q c, buf_run (C := list (Delivery nat) * nat) (chan_new (Some 2)) counters_default
           [BufPush (pose 1); BufPush (pose 2); BufPush (pose 3); BufPop] = ([pose 2], (ChanRing (mkRing q 2), c)) ∧
         ring_ok 2 [pose 1; pose 2; pose 3] [pose 2] q c.
Proof.
  destruct (ring_accounts (C := list (Delivery nat) * nat) 2
              [BufPush (pose 1); BufPush (pose 2); BufPush (pose 3); BufPop]) as (taken&q&c&Hr&Hok); [lia|by vm_compute|].
  exists q, c. assert (taken = [pose 2]) as ->; [|split; [exact Hr|exact Hok]].
  cbn in Hr. by injection Hr as <- _ _.
Defined.

Definition example_call : ClientCore := mkClientCore pose_key 5 7.
Definition example_calls : list (LocalAct nat) :=
  [ActDeclare ResponderSlot pose_key;
   ActQuery pose_key (Some [1%Z]) (schema_attachment (Some 5%Z)) (20 + ENGINE_TIMEOUT_MARGIN) 0; ActTurn; ActTurn;
   ActConsume 0 (Some (Ok (request_reply pose_key 7 [2%Z] None)))].

Lemma call_reports_truth_witness :
  ∃ d, next_answer 0 example_calls = Some (Ok d) ∧ acceptable example_call true d ∧
       mkSample pose_key [2%Z] (schema_attachment (Some 7%Z)) None = sample_of (λ _, []) d.
Proof.
  pose proof (call_reports_truth (λ _, []) example_calls 0
    (mkStream [Ok (request_reply pose_key 7 [2%Z] None)] 0 true (0 + (20 + ENGINE_TIMEOUT_MARGIN)))
    example_call true 0 20 5 (ReplyReady (Some (Ok (request_reply pose_key 7 [2%Z] None))))) as H.
  eapply H; by vm_compute.
Defined.

(** A reply to the query of a publisher that has left is still given out, also
    after a newer live sample: what was seen is forgotten with the leave. *)
Lemma stale_reply_after_leave :
  sub_trace example_core
    [SubPresence (Joined pose_key); SubTurn (Ok [None; Some (Ok (pose 1))]); SubPush (pose 2); SubTurn no_answer;
     SubPresence (Left pose_key); SubTurn no_answer; SubTurn no_answer] =
  [NothingSeen; NothingSeen; NothingSeen; LiveGiven (pose 2); NothingSeen; PublisherLeft pose_key;
   LatchedGiven (pose 1)].
Proof. by vm_compute. Qed.

(** Nor is a live sample remembered that is given out once the presence stream
    has ended: the reply to an earlier query follows it. *)
Lemma stale_reply_after_end :
  sub_trace example_core
    [SubPresence (Joined pose_key); SubTurn (Ok [None; Some (Ok (pose 1))]); SubPresenceClosed; SubTurn no_answer;
     SubPush (pose 2); SubTurn no_answer; SubTurn no_answer] =
  [NothingSeen; NothingSeen; NothingSeen; PresenceEnded; NothingSeen; LiveGiven (pose 2); LatchedGiven (pose 1)].
Proof. by vm_compute. Qed.
