(* ===== verification/Managed.v ===== *)
(** * Managed: named ports of a module, its readiness and its admission
    ([crates/reiny/src/managed.rs], [managed/admission.rs], [managed/bridging.rs],
    [managed/config.rs], [managed/dynamic.rs], [managed/owned.rs],
    [managed/ports.rs], [managed/report.rs], [crates/reiny/src/shutdown.rs])

    Every operation holds the lock of the port registry, so a module is a state
    with a function for each operation.  An [Arc] is its number, a [Weak] the
    number and whether the handle is alive.  What the engine and the file system
    answer is an argument; the processes of owned children are not modelled
    beyond what their watches and supervisors report. *)

From Stdlib Require Import ZArith Lia.
From S2P Require Import Prelude Text Btree Core Bindings Report EngineKey EngineLocal.

(** ** State *)

Record Registration : Type := mkRegistration {
  rg_contract : PortReport;
  rg_transport_type : str;
  rg_live : nat;
}.

Record ChildState : Type := mkChildState {
  cs_ready : bool;
  cs_exited : bool;
  cs_report : option ModuleReport;
}.

(** [Ports]; [po_ready] is whether the presence token of readiness stands *)
Record Ports : Type := mkPorts {
  po_inputs : btree str Registration;
  po_outputs : btree str Registration;
  po_children : btree str ChildState;
  po_ready : bool;
  po_admission : option nat;
}.
Definition ports_default : Ports := mkPorts [] [] [] false None.

Inductive HostedEvent : Type := StopRequested | ReadinessLost.

(** [Shutdown]: the flag, whether there are hosted events and the first of them,
    and whether an attached step gate was told to stop *)
Record Shutdown : Type := mkShutdown {
  sd_flag : bool;
  sd_hosted : bool;
  sd_event : option HostedEvent;
  sd_gate : option bool;
}.

(** The parts of [ModuleContext] and [ModuleRuntime] that the registry uses; its
    own number identifies it to tickets. *)
Record Module_ : Type := mkModule {
  mo_self : nat;
  mo_id : str;
  mo_liveliness : bool;
  mo_bindings : option ModuleBindings;
  mo_ports : Ports;
  mo_alive : list nat;
  mo_next : nat;
  mo_shutdown : Shutdown;
}.

Definition with_ports (self : Module_) (ports : Ports) : Module_ :=
  mkModule (mo_self self) (mo_id self) (mo_liveliness self) (mo_bindings self) ports (mo_alive self) (mo_next self)
    (mo_shutdown self).
Definition with_shutdown (self : Module_) (shutdown : Shutdown) : Module_ :=
  mkModule (mo_self self) (mo_id self) (mo_liveliness self) (mo_bindings self) (mo_ports self) (mo_alive self)
    (mo_next self) shutdown.

Definition set_readiness (ports : Ports) (ready : bool) : Ports :=
  mkPorts (po_inputs ports) (po_outputs ports) (po_children ports) ready (po_admission ports).
Definition set_admission (ports : Ports) (admission : option nat) : Ports :=
  mkPorts (po_inputs ports) (po_outputs ports) (po_children ports) (po_ready ports) admission.
Definition set_children (ports : Ports) (children : btree str ChildState) : Ports :=
  mkPorts (po_inputs ports) (po_outputs ports) children (po_ready ports) (po_admission ports).

(** ** Shutdown *)

Definition mark_gate (self : Shutdown) : Shutdown :=
  mkShutdown (sd_flag self) (sd_hosted self) (sd_event self) (match sd_gate self with Some _ => Some true | None => None end).

(** [Shutdown::hosted_event] *)
Definition hosted_event (self : Shutdown) (event : HostedEvent) : Shutdown :=
  let self := mark_gate self in
  mkShutdown (sd_flag self) (sd_hosted self)
    (if sd_hosted self then match sd_event self with Some e => Some e | None => Some event end else sd_event self)
    (sd_gate self).

(** [Shutdown::trigger] *)
Definition trigger (self : Shutdown) : Shutdown :=
  hosted_event (mkShutdown true (sd_hosted self) (sd_event self) (sd_gate self)) StopRequested.

(** [Shutdown::attach_step_gate]: the first gate is kept *)
Definition attach_step_gate (self : Shutdown) : Shutdown :=
  let self := mkShutdown (sd_flag self) (sd_hosted self) (sd_event self)
                (match sd_gate self with Some g => Some g | None => Some false end) in
  if sd_flag self || (sd_hosted self && negb (is_none (sd_event self))) then mark_gate self else self.

(** ** Contracts and registrations *)

(** [ModuleContext::endpoint_namespace] *)
Definition endpoint_namespace (self : Module_) : str :=
  match mo_bindings self with Some b => mb_endpoint_namespace b | None => mo_id self end.

Definition anyhow_ensure (condition : bool) (message : str) : result unit str :=
  if condition then Ok tt else Err message.

Definition quoting (before name after : str) : str := before ++ bytes_of "'" ++ name ++ bytes_of "'" ++ after.

(** The contract that bindings give a port *)
Definition bound_contract (b : ModuleBindings) (name : str) (input : bool) : option EndpointContract :=
  if input then ib_contract <$> bt_get name (mb_inputs b) else ob_contract <$> bt_get name (mb_outputs b).

Definition delegated (b : ModuleBindings) (name : str) (input : bool) : bool :=
  existsb (λ child : str * PortDelegation,
             bool_decide (name ∈ if input then pd_inputs child.2 else pd_outputs child.2)) (mb_children b).

(** [ModuleContext::named_contract] *)
Definition named_contract (self : Module_) (name : str) (input : bool) (kind : PortKind) : result EndpointContract str :=
  let? b := ok_or (mo_bindings self) (quoting (bytes_of "named endpoint ") name (bytes_of " requires module bindings")) in
  let? _ := anyhow_ensure (negb (delegated b name input))
              (quoting (bytes_of "port ") name (bytes_of " is exclusively delegated to an owned child")) in
  let? contract := ok_or (bound_contract b name input) (quoting (bytes_of "undefined endpoint ") name []) in
  let? _ := anyhow_ensure (bool_decide (ec_kind contract = kind))
              (quoting (bytes_of "wrong endpoint operation for ") name []) in
  Ok contract.

(** [ModuleContext::port_endpoint] *)
Definition port_endpoint (self : Module_) (name : str) (input : bool) : result PortEndpoint str :=
  let? b := ok_or (mo_bindings self) (bytes_of "module bindings are required") in
  if input then
    let? port := ok_or (bt_get name (mb_inputs b)) (quoting (bytes_of "undefined input ") name []) in
    Ok (EndpointInput (ib_sources port))
  else Ok (EndpointOutput (mkEndpoint (mb_endpoint_namespace b) name)).

(** [ModuleContext::lock_ports], its checks *)
Definition lock_ports (self : Module_) (name : str) (input : bool) : result unit str :=
  let ports := mo_ports self in
  let? _ := anyhow_ensure (negb (sd_flag (mo_shutdown self))) (bytes_of "module is shutting down") in
  let? _ := anyhow_ensure (negb (po_ready ports)) (bytes_of "cannot create a port after ready()") in
  let? _ := anyhow_ensure (is_none (po_admission ports)) (bytes_of "cannot create a port during admission") in
  anyhow_ensure (negb (bt_contains name (if input then po_inputs ports else po_outputs ports)))
    (quoting (bytes_of "port ") name (bytes_of " already created")).

(** [compiled_type] of a type with this name and fingerprint; the message of
    [validate_segment] is shortened *)
Definition compiled_type (type_name : str) (schema : Z) (declared : str) : result ResponseReport str :=
  let? _ := anyhow_ensure (validate_segment type_name) (bytes_of "invalid transport type") in
  let? _ := anyhow_ensure (bool_decide (declared = type_name))
              (quoting (bytes_of "declared port type ") declared (quoting (bytes_of " differs from actual type ") type_name [])) in
  Ok (mkResponseReport type_name schema).

(** [Registration::of], [Registration::rpc] *)
Definition registration_of (contract : EndpointContract) (type_name : str) (schema : Z) (endpoint : PortEndpoint)
    (live : nat) : result Registration str :=
  let? compiled := compiled_type type_name schema (ec_type_name contract) in
  Ok (mkRegistration (mkPortReport endpoint (rr_type_name compiled) (rr_schema compiled) contract None) type_name live).

Definition with_response (r : Registration) (response : ResponseReport) : Registration :=
  mkRegistration (mkPortReport (pr_endpoint (rg_contract r)) (pr_type_name (rg_contract r)) (pr_schema (rg_contract r))
                    (pr_contract (rg_contract r)) (Some response)) (rg_transport_type r) (rg_live r).

Definition registration_rpc (contract : EndpointContract) (type_name : str) (schema : Z)
    (response_name : str) (response_schema : Z) (endpoint : PortEndpoint) (live : nat) : result Registration str :=
  let? registration := registration_of contract type_name schema endpoint live in
  let? response := ok_or (ec_response contract) (bytes_of "RPC requires a response type") in
  let? compiled := compiled_type response_name response_schema response in
  Ok (with_response registration compiled).

(** [registration] and [rpc_registration] of [dynamic.rs] *)
Definition declared_registration (contract : EndpointContract) (type_name : str) (schema : Z) (endpoint : PortEndpoint)
    (live : nat) : result Registration str :=
  let? _ := anyhow_ensure (bool_decide (type_name = ec_type_name contract))
              (quoting (bytes_of "declared port type ") (ec_type_name contract)
                 (quoting (bytes_of " differs from actual type ") type_name [])) in
  let? _ := anyhow_ensure (validate_segment type_name) (bytes_of "invalid transport type") in
  Ok (mkRegistration (mkPortReport endpoint type_name schema contract None) type_name live).

Definition declared_rpc_registration (contract : EndpointContract) (type_name : str) (schema : Z)
    (response_name : str) (response_schema : Z) (endpoint : PortEndpoint) (live : nat) : result Registration str :=
  let? registration := declared_registration contract type_name schema endpoint live in
  let? _ := anyhow_ensure (bool_decide (ec_response contract = Some response_name))
              (quoting (bytes_of "declared response type differs from actual type ") response_name []) in
  Ok (with_response registration (mkResponseReport response_name response_schema)).

(** The registration of [bridge_rpc_port] *)
Definition bridge_registration (contract : EndpointContract) (schema response_schema : Z) (endpoint : PortEndpoint)
    (live : nat) : result Registration str :=
  let? _ := anyhow_ensure (validate_segment (ec_type_name contract)) (bytes_of "invalid transport type") in
  let? response := ok_or (ec_response contract) (bytes_of "RPC requires response type") in
  Ok (mkRegistration (mkPortReport endpoint (ec_type_name contract) schema contract
                        (Some (mkResponseReport response response_schema))) (ec_type_name contract) live).

(** ** Opening ports *)

(** What a program opens: a typed stream, a typed service, or their encoded
    counterparts and the bridge's, each with the compiled names and fingerprints. *)
Inductive OpenSpec : Type :=
  | TypedStream (type_name : str) (schema : Z)
  | TypedRpc (type_name : str) (schema : Z) (response_name : str) (response_schema : Z)
  | EncodedStream (type_name : str) (schema : Z)
  | EncodedRpc (type_name : str) (schema : Z) (response_name : str) (response_schema : Z)
  | BridgeRpc (schema response_schema : Z).

Definition spec_kind (spec : OpenSpec) : PortKind :=
  match spec with TypedStream _ _ | EncodedStream _ _ => Stream | _ => Rpc end.

Definition register_port (spec : OpenSpec) (contract : EndpointContract) (endpoint : PortEndpoint) (live : nat) :
  result Registration str :=
  match spec with
  | TypedStream t s => registration_of contract t s endpoint live
  | TypedRpc t s rt rs => registration_rpc contract t s rt rs endpoint live
  | EncodedStream t s => declared_registration contract t s endpoint live
  | EncodedRpc t s rt rs => declared_rpc_registration contract t s rt rs endpoint live
  | BridgeRpc s rs => bridge_registration contract s rs endpoint live
  end.

(** A client needs exactly one target; the bridge does not ask *)
Definition needs_target (spec : OpenSpec) (input : bool) : bool :=
  match spec with TypedRpc _ _ _ _ | EncodedRpc _ _ _ _ => input | _ => false end.

Definition insert_port (ports : Ports) (name : str) (input : bool) (r : Registration) : Ports :=
  if input
  then mkPorts (bt_insert name r (po_inputs ports)).2 (po_outputs ports) (po_children ports) (po_ready ports) (po_admission ports)
  else mkPorts (po_inputs ports) (bt_insert name r (po_outputs ports)).2 (po_children ports) (po_ready ports) (po_admission ports).

(** [input], [output], [rpc_client], [rpc_server], their raw forms and
    [bridge_rpc_port]; [built] is what the engine answers to the declarations *)
Definition open_port (self : Module_) (name : str) (input : bool) (spec : OpenSpec) (built : result unit str) :
  result nat str * Module_ :=
  match (let? contract := named_contract self name input (spec_kind spec) in
         let? _ := lock_ports self name input in
         let? endpoint := port_endpoint self name input in
         let? registration := register_port spec contract endpoint (mo_next self) in
         let? _ := if needs_target spec input
                   then match endpoint with
                        | EndpointInput sources =>
                            anyhow_ensure (length sources =? 1) (bytes_of "RPC requires exactly one target")
                        | EndpointOutput _ => Ok tt
                        end
                   else Ok tt in
         let? _ := built in Ok registration) with
  | Err e => (Err e, self)
  | Ok registration =>
      (Ok (mo_next self),
       mkModule (mo_self self) (mo_id self) (mo_liveliness self) (mo_bindings self)
         (insert_port (mo_ports self) name input registration) (mo_next self :: mo_alive self) (S (mo_next self))
         (mo_shutdown self))
  end.

(** [Drop for ManagedPort] *)
Definition drop_port (self : Module_) (live : nat) : Module_ :=
  let ports := mo_ports self in
  let admitted := negb (is_none (po_admission ports)) in
  let ready := po_ready ports in
  let shutdown := mo_shutdown self in
  let shutdown := if admitted then hosted_event shutdown ReadinessLost else shutdown in
  let shutdown := if admitted || ready then trigger shutdown else shutdown in
  mkModule (mo_self self) (mo_id self) (mo_liveliness self) (mo_bindings self)
    (set_readiness (set_admission ports None) false) (filter (λ n, n ≠ live) (mo_alive self)) (mo_next self) shutdown.

(** The transport policy of an output ([ModuleContext::output], [raw_output]) *)
Definition output_qos (contract : EndpointContract) : Qos :=
  let qos := match ec_qos contract with
             | QDefault => qos_DEFAULT | QCommand => qos_COMMAND | QSensor => qos_SENSOR
             end in
  mkQos (qos_congestion_control qos) (qos_priority qos) (qos_history qos)
    (match ec_retention contract with Volatile => VolatileHistory | RetainLast => TransientLocal end)
    (qos_express qos).

(** ** Reports *)

(** [AdmissionError]; [Transport] holds the text of any error of another type *)
Inductive AdmissionError : Type :=
  | InvalidIdentity (detail : str) | InvalidHostedBindings (detail : str)
  | UnsupportedHostedBindings | MissingBindings | ShuttingDown | AlreadyPrepared | AlreadyReady
  | PortUnavailable (input : bool) (name : str) | NoLiveliness | ForeignTicket | StaleTicket
  | Transport (detail : str).

(** [Display for AdmissionError] *)
Definition admission_display (e : AdmissionError) : str :=
  match e with
  | InvalidIdentity detail => bytes_of "invalid hosted identity: " ++ detail
  | InvalidHostedBindings detail => bytes_of "invalid hosted bindings: " ++ detail
  | UnsupportedHostedBindings => bytes_of "hosted children and executables are unsupported"
  | MissingBindings => bytes_of "module bindings are required"
  | ShuttingDown => bytes_of "module is shutting down"
  | AlreadyPrepared => bytes_of "module admission is already prepared"
  | AlreadyReady => bytes_of "module is already ready"
  | PortUnavailable input name =>
      bytes_of "declared " ++ (if input then bytes_of "input" else bytes_of "output")
      ++ quoting (bytes_of " port ") name (bytes_of " has no live handle")
  | NoLiveliness => bytes_of "admission requires liveliness"
  | ForeignTicket => bytes_of "admission ticket belongs to another context"
  | StaleTicket => bytes_of "admission ticket is no longer current"
  | Transport detail => bytes_of "admission transport: " ++ detail
  end.

Definition admit_ensure (condition : bool) (e : AdmissionError) : result unit AdmissionError :=
  if condition then Ok tt else Err e.

(** The registered ports of one side *)
Definition report_ports (alive : list nat) (input : bool) (reported : btree str PortReport)
    (registered : btree str Registration) : result (btree str PortReport) AdmissionError :=
  for_fold (λ reported e,
              let? _ := admit_ensure (bool_decide (rg_live e.2 ∈ alive)) (PortUnavailable input e.1) in
              Ok (bt_insert e.1 (rg_contract e.2) reported).2) reported registered.

(** A child's part of the report *)
Definition report_child (children : btree str ChildState) (report : btree str PortReport * btree str PortReport)
    (name : str) : result (btree str PortReport * btree str PortReport) AdmissionError :=
  let? child := ok_or (bt_get name children)
                  (Transport (quoting (bytes_of "owned child ") name (bytes_of " has not been spawned"))) in
  let? _ := admit_ensure (cs_ready child && negb (cs_exited child))
              (Transport (quoting (bytes_of "owned child ") name (bytes_of " is not live and ready"))) in
  let? r := ok_or (cs_report child)
              (Transport (quoting (bytes_of "owned child ") name (bytes_of " has no validated report"))) in
  Ok (bt_extend report.1 (mr_inputs r), bt_extend report.2 (mr_outputs r)).

(** Every declared name is reported *)
Definition report_complete (input : bool) (declared : list str) (reported : btree str PortReport) :
  result unit AdmissionError :=
  for_each (λ name, admit_ensure (bt_contains name reported) (PortUnavailable input name)) declared.

(** [ModuleContext::build_report] *)
Definition build_report (self : Module_) : result ModuleReport AdmissionError :=
  let ports := mo_ports self in
  let report inputs outputs :=
    mkModuleReport MODULE_REPORT_VERSION SCHEMA_FINGERPRINT_VERSION (mo_id self) (endpoint_namespace self) inputs outputs in
  let? inputs := report_ports (mo_alive self) true [] (po_inputs ports) in
  let? outputs := report_ports (mo_alive self) false [] (po_outputs ports) in
  match mo_bindings self with
  | None => Ok (report inputs outputs)
  | Some b =>
      let? r := for_fold (report_child (po_children ports)) (inputs, outputs) (mb_children b).*1 in
      let? _ := report_complete true (mb_inputs b).*1 r.1 in
      let? _ := report_complete false (mb_outputs b).*1 r.2 in
      Ok (report r.1 r.2)
  end.

(** [ModuleContext::ready]; [written] and [declared] are what the report file and
    the engine answer *)
Definition module_ready (self : Module_) (written declared : result unit str) : result unit AdmissionError * Module_ :=
  let ports := mo_ports self in
  if sd_flag (mo_shutdown self) then (Err (Transport (bytes_of "module is shutting down")), self)
  else if po_ready ports then (Ok tt, self)
  else
    match (let? _ := admit_ensure (is_none (po_admission ports)) (Transport (bytes_of "module admission is prepared")) in
           let? _ := admit_ensure (mo_liveliness self) (Transport (bytes_of "ready() requires liveliness")) in
           let? _ := build_report self in
           let? _ := map_err Transport written in
           map_err Transport declared) with
    | Err e => (Err e, self)
    | Ok _ => (Ok tt, with_ports self (set_readiness ports true))
    end.

(** ** Admission *)

(** [PreparedAdmission]: the number of the registry, the generation and the report *)
Record Ticket : Type := mkTicket { tk_ports : nat; tk_generation : nat; tk_report : ModuleReport }.

(** [ModuleContext::prepare_admission] *)
Definition prepare_admission (self : Module_) : result Ticket AdmissionError * Module_ :=
  let ports := mo_ports self in
  match (let? b := ok_or (mo_bindings self) MissingBindings in
         let? _ := admit_ensure (bool_decide (length (mb_children b) = 0) && bool_decide (length (mb_executables b) = 0))
                     UnsupportedHostedBindings in
         let? _ := admit_ensure (negb (sd_flag (mo_shutdown self))) ShuttingDown in
         let? _ := admit_ensure (negb (po_ready ports)) AlreadyReady in
         let? _ := admit_ensure (is_none (po_admission ports)) AlreadyPrepared in
         let? _ := admit_ensure (mo_liveliness self) NoLiveliness in
         build_report self) with
  | Err e => (Err e, self)
  | Ok report =>
      let generation := mo_next self in
      (Ok (mkTicket (mo_self self) generation report),
       mkModule (mo_self self) (mo_id self) (mo_liveliness self) (mo_bindings self)
         (set_admission ports (Some generation)) (mo_alive self) (S generation) (mo_shutdown self))
  end.

(** [Drop for PreparedAdmission] *)
Definition drop_ticket (self : Module_) (t : Ticket) : Module_ :=
  if bool_decide (tk_ports t = mo_self self) && bool_decide (po_admission (mo_ports self) = Some (tk_generation t))
  then with_ports self (set_readiness (set_admission (mo_ports self) None) false)
  else self.

(** [ModuleContext::commit_admission]; an error drops the ticket *)
Definition commit_admission (self : Module_) (t : Ticket) (declared : result unit str) :
  result Ticket AdmissionError * Module_ :=
  let ports := mo_ports self in
  match (let? _ := admit_ensure (bool_decide (tk_ports t = mo_self self)) ForeignTicket in
         let? _ := admit_ensure (bool_decide (po_admission ports = Some (tk_generation t))) StaleTicket in
         let? _ := admit_ensure (negb (sd_flag (mo_shutdown self))) ShuttingDown in
         let? report := build_report self in
         let? _ := admit_ensure (bool_decide (report = tk_report t)) StaleTicket in
         map_err Transport declared) with
  | Err e => (Err e, drop_ticket self t)
  | Ok _ => (Ok t, with_ports self (set_readiness ports true))
  end.

(** ** Owned children *)

(** The ports a child is given, in the order of the maps *)
Definition delegated_ports {A} (names : list str) (all : btree str A) : option (btree str A) :=
  bt_collect <$> mapM (λ name, pair name <$> bt_get name all) names.

(** [delegated_bindings]; [None] is the panic of an index that is missing *)
Definition delegated_bindings (b : ModuleBindings) (name : str) : option (result ModuleBindings str) :=
  match bt_get name (mb_children b) with
  | None => Some (Err (quoting (bytes_of "undeclared owned child ") name []))
  | Some delegation =>
      match delegated_ports (pd_inputs delegation) (mb_inputs b), delegated_ports (pd_outputs delegation) (mb_outputs b) with
      | Some inputs, Some outputs =>
          let child := mkBindings MODULE_BINDINGS_VERSION (mb_namespace b ++ bytes_of "/owned/" ++ name)
                         (mb_endpoint_namespace b) inputs outputs [] (mb_executables b) in
          Some (let? _ := map_err be_message (bindings_validate child) in Ok child)
      | _, _ => None
      end
  end.

(** [ModuleContext::spawn_owned_child], on the registry; [located] is whether the
    child's executable is a staged artifact, [started] whether its directory,
    watch and process could be made *)
Definition spawn_child (self : Module_) (name : str) (located started : result unit str) : option (result ModuleBindings str * Module_) :=
  match mo_bindings self with
  | None => Some (Err (bytes_of "owned children require module bindings"), self)
  | Some b =>
      match delegated_bindings b name with
      | None => None
      | Some child =>
          Some match (let? child := child in
                      let? _ := located in
                      let? _ := anyhow_ensure (negb (sd_flag (mo_shutdown self)) && negb (po_ready (mo_ports self)))
                                  (bytes_of "cannot spawn a child after readiness or shutdown") in
                      let? _ := anyhow_ensure (negb (bt_contains name (po_children (mo_ports self))))
                                  (quoting (bytes_of "owned child ") name (bytes_of " already spawned")) in
                      let? _ := started in Ok child) with
               | Err e => (Err e, self)
               | Ok child =>
                   (Ok child,
                    with_ports self (set_children (mo_ports self)
                      (bt_insert name (mkChildState false false None) (po_children (mo_ports self))).2))
               end
      end
  end.

(** The callback of [watch_owned_child]: the child's readiness joins or leaves *)
Definition child_presence (self : Module_) (name : str) (is_ready : bool) : Module_ :=
  let ports := mo_ports self in
  match bt_get name (po_children ports) with
  | None => self
  | Some child =>
      let lost := cs_ready child && negb is_ready in
      let child := mkChildState (is_ready && negb (cs_exited child)) (cs_exited child)
                     (if lost then None else cs_report child) in
      let ports := set_children ports (bt_insert name child (po_children ports)).2 in
      if lost
      then with_shutdown (with_ports self (set_readiness ports false)) (trigger (mo_shutdown self))
      else with_ports self ports
  end.

(** The end of the task of [supervise_child] *)
Definition child_exited (self : Module_) (name : str) : Module_ :=
  let ports := mo_ports self in
  let ports := match bt_get name (po_children ports) with
               | None => ports
               | Some child =>
                   set_children ports (bt_insert name (mkChildState false true None) (po_children ports)).2
               end in
  with_shutdown (with_ports self (set_readiness ports false)) (trigger (mo_shutdown self)).

(** The end of [OwnedChild::wait_ready]: the report that the child wrote *)
Definition child_reported (self : Module_) (name : str) (child_bindings : ModuleBindings) (report : ModuleReport) :
  option (result unit str * Module_) :=
  match validate_report child_bindings report with
  | None => None
  | Some (Err _) => Some (Err (bytes_of "invalid owned child report"), self)
  | Some (Ok _) =>
      let ports := mo_ports self in
      Some match bt_get name (po_children ports) with
           | None => (Err (bytes_of "owned child registration disappeared"), self)
           | Some child =>
               if cs_ready child && negb (cs_exited child)
               then (Ok tt, with_ports self (set_children ports
                       (bt_insert name (mkChildState true false (Some report)) (po_children ports)).2))
               else (Err (bytes_of "owned child lost readiness"), self)
           end
  end.

(** ** Hosted contexts ([reiny/src/runtime/startup.rs]) *)

(** A context as [ModuleContext::new] makes it, with its bindings. *)
Definition module_new (number : nat) (b : ModuleBindings) (liveliness hosted : bool) : Module_ :=
  mkModule number (mb_namespace b) liveliness (Some b) ports_default [] 0 (mkShutdown false hosted None None).

(** [ModuleContext::open_hosted]; [started] is what the engine answers while the
    context and its stop handler are made *)
Definition open_hosted (number : nat) (domain : str) (b : ModuleBindings) (liveliness : bool) (started : result unit str) :
  result Module_ AdmissionError :=
  let? _ := admit_ensure (validate_segment domain) (InvalidIdentity (bytes_of "invalid hosted domain")) in
  let? _ := map_err (λ e, InvalidIdentity (be_message e)) (validate_namespace (mb_namespace b)) in
  let? _ := map_err (λ e, InvalidHostedBindings (be_message e)) (bindings_validate b) in
  let? _ := admit_ensure (bool_decide (length (mb_children b) = 0) && bool_decide (length (mb_executables b) = 0))
              UnsupportedHostedBindings in
  let? _ := admit_ensure liveliness NoLiveliness in
  let? _ := map_err Transport started in
  Ok (module_new number b liveliness true).
