(* ===== verification/ManagedProps.v ===== *)
(** * ManagedProps: readiness and admission of a module

    Readiness stands only while every declared port is live and the report that
    the module would give is the one its bindings demand; an admission commits
    what it prepared; the bindings of an owned child are valid. *)

From Stdlib Require Import ZArith Lia.
From S2P Require Import Prelude Text Btree Core Bindings BindingsSpec Report ReportSpec EngineKey.
From S2P Require Import EngineLocal Managed.

(** ** What a module's ports must be *)

(** The contract and the endpoint that bindings give a port. *)
Definition expect (b : ModuleBindings) (name : str) (input : bool) : option (EndpointContract * PortEndpoint) :=
  if input
  then (λ i, (ib_contract i, EndpointInput (ib_sources i))) <$> bt_get name (mb_inputs b)
  else (λ o, (ob_contract o, EndpointOutput (mkEndpoint (mb_endpoint_namespace b) name))) <$> bt_get name (mb_outputs b).

Definition expected_port (b : ModuleBindings) (input : bool) (name : str) (p : PortReport) : Prop :=
  ∃ c e, expect b name input = Some (c, e) ∧ port_wf c e p.

Definition side_names (b : ModuleBindings) (input : bool) : list str :=
  if input then (mb_inputs b).*1 else (mb_outputs b).*1.
Definition side_registry (ports : Ports) (input : bool) : btree str Registration :=
  if input then po_inputs ports else po_outputs ports.
Definition child_names (d : PortDelegation) (input : bool) : list str := if input then pd_inputs d else pd_outputs d.
Definition report_side (r : ModuleReport) (input : bool) : btree str PortReport :=
  if input then mr_inputs r else mr_outputs r.

(** The maps of bindings and reports are maps. *)
Record bindings_typed (b : ModuleBindings) : Prop := {
  bt_inputs : bt_ok (mb_inputs b);
  bt_outputs : bt_ok (mb_outputs b);
  bt_children : bt_ok (mb_children b);
  bt_names name : name ∈ (mb_children b).*1 → str_ok name;
}.
Definition report_typed (r : ModuleReport) : Prop := bt_ok (mr_inputs r) ∧ bt_ok (mr_outputs r).

Lemma expect_names b input name :
  bindings_typed b → name ∈ side_names b input ↔ is_Some (expect b name input).
Proof.
  intros [Hi Ho _ _]. unfold expect. destruct input; cbn [side_names]; rewrite bt_key_get by done;
    rewrite fmap_is_Some; done.
Qed.

(** ** The bindings of a child *)

Lemma mapM_pairs {A} (names : list str) (all : btree str A) l :
  bt_ok all → mapM (λ name, pair name <$> bt_get name all) names = Some l → l.*1 = names ∧ ∀ e, e ∈ l → e ∈ all.
Proof.
  intros Hok. revert l. induction names as [|n names IH]; intros l; cbn.
  - intros [= <-]. split; [done|]. by intros ? ?%elem_of_nil.
  - destruct (bt_get n all) as [a|] eqn:E; [|done]. cbn. destruct (mapM _ names) as [l'|]; [|done].
    intros [= <-]. destruct (IH l' eq_refl) as [H1 H2]. cbn. split; [by rewrite H1|].
    intros e [->|He]%elem_of_cons; [|by apply H2]. by apply bt_get_Some.
Qed.

Lemma delegated_ports_spec {A} names (all m : btree str A) :
  bt_ok all → delegated_ports names all = Some m →
  bt_ok m ∧ (∀ n, n ∈ m.*1 ↔ n ∈ names) ∧ ∀ e, e ∈ m → e ∈ all.
Proof.
  intros Hok. unfold delegated_ports. destruct (mapM _ names) as [l|] eqn:E; [|done]. intros [= <-].
  apply mapM_pairs in E as [Hk Hin]; [|done]. assert (Hnil : bt_ok (@nil (str * A))) by done. split_and!.
  - by apply bt_extend_ok.
  - intros n. unfold bt_collect. rewrite bt_extend_keys_iff by done. rewrite Hk. set_solver.
  - intros e [?|?]%bt_extend_elem; [set_solver|by apply Hin].
Qed.

Lemma delegated_ports_total {A} names (all : btree str A) :
  bt_ok all → (∀ n, n ∈ names → n ∈ all.*1) → is_Some (delegated_ports names all).
Proof.
  intros Hok Hin. unfold delegated_ports. rewrite fmap_is_Some. apply mapM_is_Some. apply Forall_forall.
  intros n Hn. apply fmap_is_Some, bt_key_get; [done|by apply Hin].
Qed.

Lemma delegated_spec b name child :
  bindings_typed b → delegated_bindings b name = Some (Ok child) →
  ∃ d, (name, d) ∈ mb_children b ∧ bindings_typed child ∧ bindings_wf child ∧
    mb_endpoint_namespace child = mb_endpoint_namespace b ∧
    (∀ input n, n ∈ side_names child input ↔ n ∈ child_names d input) ∧
    ∀ input n c e, expect child n input = Some (c, e) → expect b n input = Some (c, e).
Proof.
  intros [Hi Ho Hc Hn]. unfold delegated_bindings. destruct (bt_get name (mb_children b)) as [d|] eqn:Ed; [|done].
  destruct (delegated_ports (pd_inputs d) (mb_inputs b)) as [inputs|] eqn:Ei; [|done].
  destruct (delegated_ports (pd_outputs d) (mb_outputs b)) as [outputs|] eqn:Eo; [|done].
  destruct (delegated_ports_spec _ _ _ Hi Ei) as (Hok1&Hk1&Hin1).
  destruct (delegated_ports_spec _ _ _ Ho Eo) as (Hok2&Hk2&Hin2).
  destruct (map_err be_message (bindings_validate _)) as [[]|] eqn:Ev; [|done]. cbn. intros [= <-].
  exists d. split_and!.
  - by apply bt_get_Some.
  - split; cbn; [done|done|done|]. intros ? ?%elem_of_nil. done.
  - apply bindings_validate_Ok; [done|done|]. unfold map_err in Ev. by destruct (bindings_validate _) as [[]|].
  - done.
  - intros [] n; cbn; [apply Hk1|apply Hk2].
  - intros input n c e. unfold expect. destruct input; cbn [mb_inputs mb_outputs mb_endpoint_namespace].
    + destruct (bt_get n inputs) as [i|] eqn:E; [|done]. apply bt_get_Some, Hin1, bt_get_Some in E; [|done..].
      by rewrite E.
    + destruct (bt_get n outputs) as [o|] eqn:E; [|done]. apply bt_get_Some, Hin2, bt_get_Some in E; [|done..].
      by rewrite E.
Qed.

Lemma owned_namespace_wf ns name :
  namespace_wf ns → segment_wf name → str_ok name → namespace_wf (ns ++ bytes_of "/owned/" ++ name).
Proof.
  intros (segs&Hne&Hall&->) Hs Hok. exists (segs ++ [bytes_of "owned"; name]). split_and!.
  - by destruct segs.
  - apply Forall_app. split; [done|]. repeat apply List.Forall_cons; [|..|apply List.Forall_nil].
    + split; [apply segment_true; by vm_compute|by vm_compute; set_solver].
    + split; [done|]. apply segment_free; [done|done|]. vm_compute. by left.
  - rewrite join_on_app by done. done.
Qed.

Lemma delegation_exists b name :
  bindings_typed b → bindings_wf b → name ∈ (mb_children b).*1 →
  ∃ child, delegated_bindings b name = Some (Ok child).
Proof.
  intros Ht Hwf Hin. pose proof Ht as [Hi Ho Hc Hn]. apply bt_key_get in Hin as [d Hd]; [|done].
  assert (Hmem : (name, d) ∈ mb_children b) by by apply bt_get_Some.
  destruct (bw_children _ Hwf _ _ Hmem) as (Hseg&Hdi&Hdo).
  destruct (delegated_ports_total _ _ Hi Hdi) as [inputs Ei]. destruct (delegated_ports_total _ _ Ho Hdo) as [outputs Eo].
  destruct (delegated_ports_spec _ _ _ Hi Ei) as (Hok1&_&Hin1).
  destruct (delegated_ports_spec _ _ _ Ho Eo) as (Hok2&_&Hin2).
  assert (Hstr : str_ok name) by (apply Hn; by apply (list_elem_of_fmap_2 fst) in Hmem).
  assert (Hown : mb_namespace b = mb_endpoint_namespace b).
  { destruct (bw_owner _ Hwf) as [?|(?&?&?&?&Hnil)]; [done|]. rewrite Hnil in Hmem. by apply elem_of_nil in Hmem. }
  unfold delegated_bindings. rewrite Hd, Ei, Eo.
  set (child := mkBindings _ _ _ _ _ _ _).
  assert (Hv : bindings_validate child = Ok tt).
  { apply bindings_validate_Ok; [done|done|]. split; cbn [child mb_version mb_namespace mb_endpoint_namespace mb_inputs
      mb_outputs mb_children mb_executables]; try done.
    - apply owned_namespace_wf; [apply Hwf|done|done].
    - apply Hwf.
    - right. exists name. cbn. rewrite Hown. split_and!; [done|apply Hseg| |done].
      intros Hc47. apply Hseg in Hc47 as [Hx _]. apply Hx. vm_compute. by left.
    - apply Hwf.
    - intros n p Hp. apply (bw_inputs _ Hwf). by apply Hin1.
    - intros e f He Hf. apply (bw_agree _ Hwf); by apply Hin1.
    - intros n p Hp. apply (bw_outputs _ Hwf). by apply Hin2.
    - intros n c Hcn. by apply elem_of_nil in Hcn.
    - constructor. }
  rewrite Hv. by exists child.
Qed.

(** Delegation is well-typed: every owned child that valid bindings declare
    is given valid bindings of its own, which hold exactly the ports delegated
    to it, each with the contract and the endpoint it has in the module. *)
Theorem delegation_valid b name :
  bindings_typed b → bindings_wf b → name ∈ (mb_children b).*1 →
  ∃ child d, delegated_bindings b name = Some (Ok child) ∧ (name, d) ∈ mb_children b ∧ bindings_wf child ∧
    (∀ input n, n ∈ side_names child input ↔ n ∈ child_names d input) ∧
    ∀ input n c e, expect child n input = Some (c, e) → expect b n input = Some (c, e).
Proof.
  intros Ht Hwf Hin. destruct (delegation_exists b name Ht Hwf Hin) as [child Hc].
  destruct (delegated_spec b name child Ht Hc) as (d&Hd&_&Hcw&_&Hn&He). by exists child, d.
Qed.

(** ** Reports *)

(** What holds of the registry of a module with the bindings [b]. *)
Record registry_ok (b : ModuleBindings) (self : Module_) : Prop := {
  ro_bindings : mo_bindings self = Some b;
  ro_id : mo_id self = mb_namespace b;
  ro_typed : bindings_typed b;
  ro_wf : bindings_wf b;
  ro_maps input : bt_ok (side_registry (mo_ports self) input);
  ro_children_map : bt_ok (po_children (mo_ports self));
  ro_ports input name r : (name, r) ∈ side_registry (mo_ports self) input → expected_port b input name (rg_contract r);
  ro_children name cs : (name, cs) ∈ po_children (mo_ports self) →
    ∃ child, delegated_bindings b name = Some (Ok child) ∧
      ∀ r, cs_report cs = Some r → report_wf child r ∧ report_typed r;
}.

Definition reported_keys (keys : list str) (m : btree str PortReport) : Prop :=
  bt_ok m ∧ ∀ n, n ∈ m.*1 ↔ n ∈ keys.

Lemma admit_ensure_Ok c e : admit_ensure c e = Ok tt ↔ c = true.
Proof. unfold admit_ensure. destruct c; naive_solver. Qed.

Lemma report_ports_spec alive input regs :
  match report_ports alive input [] regs with
  | Ok m => Forall (λ e : str * Registration, rg_live e.2 ∈ alive) regs ∧ reported_keys regs.*1 m
  | Err _ => ¬ Forall (λ e : str * Registration, rg_live e.2 ∈ alive) regs
  end.
Proof.
  unfold report_ports. pose proof (for_fold_exact (λ (reported : btree str PortReport) (e : str * Registration),
      let? _ := admit_ensure (bool_decide (rg_live e.2 ∈ alive)) (PortUnavailable input e.1) in
      Ok (bt_insert e.1 (rg_contract e.2) reported).2)
    (λ before m, reported_keys before.*1 m) (λ _ e, rg_live e.2 ∈ alive)) as Hf.
  specialize (Hf ltac:(
    intros before s [n r] [Hok Hk]; unfold admit_ensure; cbn [fst snd];
    destruct (bool_decide (rg_live r ∈ alive)) eqn:E; breflect_in E; cbn; [|done];
    split; [done|]; split; [by apply bt_insert_ok|]; intros n'; rewrite bt_insert_keys by done;
    rewrite Hk, fmap_app; cbn; set_solver) regs [] [] ltac:(split; [done|cbn; set_solver])).
  assert (He : each_after (λ _ e, rg_live e.2 ∈ alive) [] regs ↔
               Forall (λ e : str * Registration, rg_live e.2 ∈ alive) regs) by apply each_after_Forall.
  destruct (for_fold _ _ _); rewrite He in Hf; cbn [app] in Hf; exact Hf.
Qed.

Lemma report_ports_good b alive input regs m :
  (∀ name r, (name, r) ∈ regs → expected_port b input name (rg_contract r)) →
  report_ports alive input [] regs = Ok m → ∀ n p, (n, p) ∈ m → expected_port b input n p.
Proof.
  intros Hreg Hr. unfold report_ports in Hr. revert Hr.
  apply (for_fold_Ok _ (λ _ m, ∀ n p, (n, p) ∈ m → expected_port b input n p)).
  - intros pre [n r] post s s' Heq HI. cbn [fst snd]. destruct (admit_ensure _ _); [|done]. cbn. intros [= <-] n' p'.
    intros [[= -> ->]|Hin]%bt_insert_elem; [|by apply HI]. apply Hreg. rewrite Heq. apply elem_of_app. right. by left.
  - intros n p ?%elem_of_nil. done.
Qed.
(** A child that a report can include. *)
Definition child_live (children : btree str ChildState) (name : str) : Prop :=
  ∃ cs r, bt_get name children = Some cs ∧ cs_ready cs = true ∧ cs_exited cs = false ∧ cs_report cs = Some r.

(** The names delegated to some children. *)
Definition delegated_key (b : ModuleBindings) (children : list str) (input : bool) (n : str) : Prop :=
  ∃ name d, name ∈ children ∧ (name, d) ∈ mb_children b ∧ n ∈ child_names d input.

Lemma report_wf_keys child r input n :
  report_wf child r → n ∈ (report_side r input).*1 ↔ n ∈ side_names child input.
Proof. intros [_ _ _ _ _ Hi Ho _ _]. destruct input; [apply Hi|apply Ho]. Qed.

Lemma report_wf_ports child r input n p :
  bindings_typed child → report_wf child r → (n, p) ∈ report_side r input →
  ∃ c e, expect child n input = Some (c, e) ∧ port_wf c e p.
Proof.
  intros Ht Hr Hin. assert (Hn : n ∈ side_names child input).
  { apply (report_wf_keys child r); [done|]. by apply (list_elem_of_fmap_2 fst) in Hin. }
  apply expect_names in Hn as [[c e] He]; [|done]. exists c, e. split; [done|]. destruct Ht as [Hi Ho _ _].
  destruct input; unfold expect in He.
  - destruct (bt_get n (mb_inputs child)) as [i|] eqn:E; [|done]. injection He as <- <-.
    by eapply rw_inputs; [done|apply bt_get_Some|].
  - destruct (bt_get n (mb_outputs child)) as [o|] eqn:E; [|done]. injection He as <- <-.
    by eapply rw_outputs; [done|apply bt_get_Some|].
Qed.

Section report.
Context (b : ModuleBindings) (self : Module_).
Hypothesis Hreg : registry_ok b self.
Let children := po_children (mo_ports self).

(** What a registered child's report holds. *)
Lemma child_report name cs r :
  bt_get name children = Some cs → cs_report cs = Some r →
  ∃ d, (name, d) ∈ mb_children b ∧ report_typed r ∧
    (∀ input n, n ∈ (report_side r input).*1 ↔ n ∈ child_names d input) ∧
    ∀ input n p, (n, p) ∈ report_side r input → expected_port b input n p.
Proof.
  intros Hget Hr. destruct (ro_children _ _ Hreg name cs) as (child&Hc&Hall).
  { apply bt_get_Some; [apply Hreg|done]. }
  destruct (Hall r Hr) as [Hwf Htr]. destruct (delegated_spec b name child (ro_typed _ _ Hreg) Hc) as (d&Hd&Ht&_&_&Hn&He).
  exists d. split_and!; [done|done|..].
  - intros input n. by rewrite (report_wf_keys child r), Hn.
  - intros input n p Hp. destruct (report_wf_ports child r input n p Ht Hwf Hp) as (c&e&He'&Hpw).
    exists c, e. split; [by apply He|done].
Qed.

Definition sides (m : btree str PortReport * btree str PortReport) (input : bool) : btree str PortReport :=
  if input then m.1 else m.2.

Lemma report_children_spec start names :
  (∀ input, bt_ok (sides start input)) →
  match for_fold (report_child children) start names with
  | Ok m => Forall (child_live children) names ∧
      ∀ input, bt_ok (sides m input) ∧
        ∀ n, n ∈ (sides m input).*1 ↔ n ∈ (sides start input).*1 ∨ delegated_key b names input n
  | Err _ => ¬ Forall (child_live children) names
  end.
Proof.
  intros Hstart.
  pose proof (for_fold_exact (report_child children)
    (λ before m, ∀ input, bt_ok (sides m input) ∧
        ∀ n, n ∈ (sides m input).*1 ↔ n ∈ (sides start input).*1 ∨ delegated_key b before input n)
    (λ _ name, child_live children name)) as Hf.
  assert (Hstep : ∀ before m name,
    (∀ input, bt_ok (sides m input) ∧
        ∀ n, n ∈ (sides m input).*1 ↔ n ∈ (sides start input).*1 ∨ delegated_key b before input n) →
    match report_child children m name with
    | Ok m' => child_live children name ∧ ∀ input, bt_ok (sides m' input) ∧
        ∀ n, n ∈ (sides m' input).*1 ↔ n ∈ (sides start input).*1 ∨ delegated_key b (before ++ [name]) input n
    | Err _ => ¬ child_live children name
    end).
  { intros before m name HR. unfold report_child, child_live, admit_ensure.
    destruct (bt_get name children) as [cs|] eqn:Hget; cbn; [|naive_solver].
    destruct (cs_ready cs && negb (cs_exited cs)) eqn:Hlive; cbn.
    2: { intros (?&?&[= <-]&H1&H2&_). by rewrite H1, H2 in Hlive. }
    apply andb_true_iff in Hlive as [H1 H2%negb_true_iff].
    destruct (cs_report cs) as [r|] eqn:Hr; cbn; [|naive_solver].
    destruct (child_report name cs r Hget Hr) as (d&Hd&[Ht1 Ht2]&Hk&_).
    split; [by exists cs, r|]. intros input. destruct (HR input) as [Hok Hkeys].
    assert (Hside : sides (bt_extend m.1 (mr_inputs r), bt_extend m.2 (mr_outputs r)) input =
                    bt_extend (sides m input) (report_side r input)) by by destruct input.
    rewrite Hside. split; [by apply bt_extend_ok|]. intros n. rewrite bt_extend_keys_iff by done. rewrite Hkeys, Hk.
    unfold delegated_key. split.
    - intros [[?|(x&dx&?&?&?)]|?]; [by left|right; exists x, dx; set_solver|right; exists name, d; set_solver].
    - intros [?|(x&dx&Hx&Hdx&?)]; [by left; left|].
      apply elem_of_app in Hx as [Hx|Hx%list_elem_of_singleton]; [left; right; by exists x, dx|right; subst x].
      pose proof (bt_children _ (ro_typed _ _ Hreg)) as Hbc.
      assert (dx = d) as -> by exact (bt_ok_functional name dx d _ Hbc Hdx Hd). done. }
  specialize (Hf Hstep names [] start). cbn [app] in Hf. specialize (Hf ltac:(
    intros input; split; [apply Hstart|]; intros n; split; [by left|];
    intros [?|(?&?&Hn&_)]; [done|by apply elem_of_nil in Hn])).
  assert (He : each_after (λ _ name, child_live children name) [] names ↔ Forall (child_live children) names)
    by apply each_after_Forall.
  destruct (for_fold _ _ _); rewrite He in Hf; exact Hf.
Qed.

Lemma report_children_good start names m :
  (∀ input n p, (n, p) ∈ sides start input → expected_port b input n p) →
  for_fold (report_child children) start names = Ok m →
  ∀ input n p, (n, p) ∈ sides m input → expected_port b input n p.
Proof.
  intros Hstart. apply (for_fold_Ok _ (λ _ m, ∀ input n p, (n, p) ∈ sides m input → expected_port b input n p)); [|done].
  intros pre name post s s' _ HI. unfold report_child. destruct (bt_get name children) as [cs|] eqn:Hget; [|done]. cbn.
  destruct (admit_ensure _ _); [|done]. destruct (cs_report cs) as [r|] eqn:Hr; [|done]. cbn. intros [= <-] input n p Hin.
  destruct (child_report name cs r Hget Hr) as (d&_&_&_&Hp).
  assert (Hside : (n, p) ∈ bt_extend (sides s input) (report_side r input)) by by destruct input.
  apply bt_extend_elem in Hside as [?|?]; [by apply HI|by apply Hp].
Qed.

(** Everything a report needs is live. *)
Record all_live : Prop := {
  al_ports input : Forall (λ e : str * Registration, rg_live e.2 ∈ mo_alive self) (side_registry (mo_ports self) input);
  al_children : Forall (child_live children) (mb_children b).*1;
  al_covered input n : n ∈ side_names b input →
    n ∈ (side_registry (mo_ports self) input).*1 ∨ delegated_key b (mb_children b).*1 input n;
}.

Lemma report_complete_Ok input names m :
  bt_ok m → report_complete input names m = Ok tt ↔ ∀ n, n ∈ names → n ∈ m.*1.
Proof.
  intros Hok. unfold report_complete. rewrite for_each_Ok, Forall_forall.
  split; intros Hall n Hn; [apply (bt_contains_true n m Hok)|]; specialize (Hall n Hn).
  - by apply admit_ensure_Ok in Hall.
  - apply admit_ensure_Ok. by apply bt_contains_true.
Qed.

(** The report can be built exactly when everything is live, and then it is the
    one that the bindings demand. *)
Lemma build_report_spec :
  match build_report self with
  | Ok r => all_live ∧ report_wf b r ∧ report_typed r
  | Err _ => ¬ all_live
  end.
Proof.
  unfold build_report. rewrite (ro_bindings _ _ Hreg).
  pose proof (report_ports_spec (mo_alive self) true (po_inputs (mo_ports self))) as Hi.
  destruct (report_ports _ true _ _) as [inputs|] eqn:Ei; cbn; [|intros [H _ _]; by specialize (H true)].
  pose proof (report_ports_spec (mo_alive self) false (po_outputs (mo_ports self))) as Ho.
  destruct (report_ports _ false _ _) as [outputs|] eqn:Eo; cbn; [|intros [H _ _]; by specialize (H false)].
  destruct Hi as [Hi [Hiok Hik]], Ho as [Ho [Hook Hok]].
  pose proof (report_children_spec (inputs, outputs) (mb_children b).*1 ltac:(intros []; done)) as Hc.
  pose proof (report_children_good (inputs, outputs) (mb_children b).*1) as Hg.
  fold children. destruct (for_fold _ _ _) as [m|]; [|intros [_ H _]; done]. destruct Hc as [Hc Hm].
  destruct (Hm true) as [Hm1 Hk1], (Hm false) as [Hm2 Hk2]. cbn [sides fst snd] in Hm1, Hm2, Hk1, Hk2.
  assert (Hall : all_live ↔ (∀ n, n ∈ (mb_inputs b).*1 → n ∈ m.1.*1) ∧ (∀ n, n ∈ (mb_outputs b).*1 → n ∈ m.2.*1)).
  { split.
    - intros [_ _ Hcov]. split; intros n Hn.
      + apply Hk1. rewrite Hik. by apply (Hcov true).
      + apply Hk2. rewrite Hok. by apply (Hcov false).
    - intros [Hci Hco]. split; [by intros []|done|]. intros [] n Hn; [rewrite <- Hik, <- Hk1; by apply Hci|].
      cbn [side_registry]. rewrite <- Hok, <- Hk2. by apply Hco. }
  pose proof (report_complete_Ok true (mb_inputs b).*1 m.1 Hm1) as Hci.
  pose proof (report_complete_Ok false (mb_outputs b).*1 m.2 Hm2) as Hco.
  destruct (report_complete true _ _) as [[]|]; [|rewrite Hall; naive_solver].
  destruct (report_complete false _ _) as [[]|]; [|rewrite Hall; naive_solver].
  split; [apply Hall; naive_solver|]. split; [|done].
  specialize (Hg m). assert (Hports : ∀ input n p, (n, p) ∈ sides m input → expected_port b input n p).
  { apply Hg; [|done]. intros [] n p Hp; cbn [sides fst snd] in Hp.
    - eapply (report_ports_good b _ true); [intros ? ?; apply (ro_ports _ _ Hreg true)|exact Ei|done].
    - eapply (report_ports_good b _ false); [intros ? ?; apply (ro_ports _ _ Hreg false)|exact Eo|done]. }
  assert (Hdecl : ∀ input n, n ∈ (sides m input).*1 → n ∈ side_names b input).
  { intros input n ([n' p]&->&Hp)%list_elem_of_fmap. apply Hports in Hp as (c&e&He&_).
    apply expect_names; [apply Hreg|by eexists]. }
  pose proof (ro_typed _ _ Hreg) as [Hti Hto _ _].
  split; cbn [mr_version mr_fingerprint_version mr_namespace mr_endpoint_namespace mr_inputs mr_outputs].
  - apply Hreg.
  - done.
  - done.
  - apply Hreg.
  - unfold endpoint_namespace. by rewrite (ro_bindings _ _ Hreg).
  - intros n. split; [apply (Hdecl true)|]. by apply Hci.
  - intros n. split; [apply (Hdecl false)|]. by apply Hco.
  - intros n i p Hb Hp. destruct (Hports true n p Hp) as (c&e&He&Hw). unfold expect in He.
    apply bt_get_Some in Hb; [|done]. rewrite Hb in He. cbn in He. by injection He as <- <-.
  - intros n o p Hb Hp. destruct (Hports false n p Hp) as (c&e&He&Hw). unfold expect in He.
    apply bt_get_Some in Hb; [|done]. rewrite Hb in He. cbn in He. by injection He as <- <-.
Qed.
End report.

(** ** What can happen to a module *)

Inductive ModAct : Type :=
  | MOpen (name : str) (input : bool) (spec : OpenSpec) (built : result unit str)
  | MDrop (live : nat)
  | MReady (written declared : result unit str)
  | MPrepare
  | MCommit (t : Ticket) (declared : result unit str)
  | MDropTicket (t : Ticket)
  | MSpawn (name : str) (located started : result unit str)
  | MPresence (name : str) (is_ready : bool)
  | MExited (name : str)
  | MReported (name : str) (report : ModuleReport)
  | MTrigger
  | MAttachGate.

(** The state after an action; [None] is a panic. *)
Definition mod_act (self : Module_) (a : ModAct) : option Module_ :=
  match a with
  | MOpen name input spec built => Some (open_port self name input spec built).2
  | MDrop live => Some (if bool_decide (live ∈ mo_alive self) then drop_port self live else self)
  | MReady written declared => Some (module_ready self written declared).2
  | MPrepare => Some (prepare_admission self).2
  | MCommit t declared => Some (commit_admission self t declared).2
  | MDropTicket t => Some (drop_ticket self t)
  | MSpawn name located started => snd <$> spawn_child self name located started
  | MPresence name is_ready => Some (child_presence self name is_ready)
  | MExited name => Some (child_exited self name)
  | MReported name report =>
      match mo_bindings self with
      | None => Some self
      | Some b => match delegated_bindings b name with
                  | Some (Ok child) => snd <$> child_reported self name child report
                  | Some (Err _) => Some self
                  | None => None
                  end
      end
  | MTrigger => Some (with_shutdown self (trigger (mo_shutdown self)))
  | MAttachGate => Some (with_shutdown self (attach_step_gate (mo_shutdown self)))
  end.

Fixpoint mod_acts (self : Module_) (l : list ModAct) : option Module_ :=
  match l with
  | [] => Some self
  | a :: l => self ← mod_act self a; mod_acts self l
  end.

(** A report that a child wrote is read into maps. *)
Definition act_typed (a : ModAct) : Prop :=
  match a with MReported _ report => report_typed report | _ => True end.

(** ** Opening a port *)

Lemma open_port_cases self name input spec built :
  (open_port self name input spec built).2 = self ∨
  ∃ contract endpoint r, named_contract self name input (spec_kind spec) = Ok contract ∧
    lock_ports self name input = Ok tt ∧ port_endpoint self name input = Ok endpoint ∧
    register_port spec contract endpoint (mo_next self) = Ok r ∧
    (open_port self name input spec built).2 =
      mkModule (mo_self self) (mo_id self) (mo_liveliness self) (mo_bindings self)
        (insert_port (mo_ports self) name input r) (mo_next self :: mo_alive self) (S (mo_next self)) (mo_shutdown self).
Proof.
  unfold open_port. destruct (named_contract _ _ _ _) as [contract|]; [|by left]. cbn.
  destruct (lock_ports _ _ _) as [[]|]; [|by left]. cbn. destruct (port_endpoint _ _ _) as [endpoint|]; [|by left]. cbn.
  destruct (register_port _ _ _ _) as [r|] eqn:Er; [|by left]. cbn.
  destruct (if needs_target spec input then _ else _) as [[]|]; [|by left]. cbn.
  destruct built as [[]|]; [|by left]. right. by exists contract, endpoint, r.
Qed.

Lemma anyhow_ensure_Ok c m : anyhow_ensure c m = Ok tt ↔ c = true.
Proof. unfold anyhow_ensure. destruct c; naive_solver. Qed.

Lemma named_contract_Ok b self name input kind contract :
  mo_bindings self = Some b → named_contract self name input kind = Ok contract →
  bound_contract b name input = Some contract ∧ ec_kind contract = kind.
Proof.
  intros Hb. unfold named_contract. rewrite Hb. cbn. destruct (anyhow_ensure _ _); [|done]. cbn.
  destruct (bound_contract b name input) as [c|]; [|done]. cbn.
  destruct (anyhow_ensure (bool_decide (ec_kind c = kind)) _) as [[]|] eqn:E; [|done]. cbn. intros [= <-].
  split; [done|]. apply anyhow_ensure_Ok in E. by apply bool_decide_eq_true in E.
Qed.

Lemma expect_port b self name input contract endpoint :
  mo_bindings self = Some b → bound_contract b name input = Some contract →
  port_endpoint self name input = Ok endpoint → expect b name input = Some (contract, endpoint).
Proof.
  intros Hb Hc. unfold port_endpoint, expect, bound_contract in *. rewrite Hb. cbn. destruct input.
  - destruct (bt_get name (mb_inputs b)) as [i|]; [|done]. cbn in *. by intros [= <-]; injection Hc as <-.
  - destruct (bt_get name (mb_outputs b)) as [o|]; [|done]. cbn in *. by intros [= <-]; injection Hc as <-.
Qed.

Lemma compiled_type_Ok t s declared c : compiled_type t s declared = Ok c → declared = t ∧ c = mkResponseReport t s.
Proof.
  intros (_&_&([]&E&[= <-])%bind_Ok)%bind_Ok. apply anyhow_ensure_Ok, bool_decide_eq_true in E. done.
Qed.

Lemma registration_of_Ok contract t s endpoint live r :
  registration_of contract t s endpoint live = Ok r →
  ec_type_name contract = t ∧ r = mkRegistration (mkPortReport endpoint t s contract None) t live.
Proof. intros (c&[E ->]%compiled_type_Ok&[= <-])%bind_Ok. done. Qed.

Lemma declared_registration_Ok contract t s endpoint live r :
  declared_registration contract t s endpoint live = Ok r →
  ec_type_name contract = t ∧ r = mkRegistration (mkPortReport endpoint t s contract None) t live.
Proof.
  intros ([]&E&(_&_&[= <-])%bind_Ok)%bind_Ok. apply anyhow_ensure_Ok, bool_decide_eq_true in E. done.
Qed.

Lemma register_port_wf input spec contract endpoint live r :
  contract_wf input contract → ec_kind contract = spec_kind spec →
  register_port spec contract endpoint live = Ok r → port_wf contract endpoint (rg_contract r) ∧ rg_live r = live.
Proof.
  intros [_ _ _ _ Hs _] Hk. unfold port_wf, response_wf. rewrite Hk. intros Hr. destruct spec; cbn [spec_kind register_port] in *.
  - apply registration_of_Ok in Hr as [E ->]. cbn. split_and!; auto.
  - apply bind_Ok in Hr as (r0&[E ->]%registration_of_Ok&(rn&Hrn%ok_or_Ok&(c&[E2 ->]%compiled_type_Ok&[= <-])%bind_Ok)%bind_Ok).
    cbn. split_and!; [done..| |done]. eexists. split; [done|]. cbn. congruence.
  - apply declared_registration_Ok in Hr as [E ->]. cbn. split_and!; auto.
  - apply bind_Ok in Hr as (r0&[E ->]%declared_registration_Ok&([]&E2&[= <-])%bind_Ok).
    apply anyhow_ensure_Ok, bool_decide_eq_true in E2. cbn. split_and!; [done..| |done]. by eexists.
  - apply bind_Ok in Hr as (_&_&(rn&Hrn%ok_or_Ok&[= <-])%bind_Ok). cbn. split_and!; [done..| |done]. by eexists.
Qed.

(** ** The invariant *)

Definition module_ok (b : ModuleBindings) (self : Module_) : Prop :=
  registry_ok b self ∧ (po_ready (mo_ports self) = true → all_live b self).

(** What an operation that touches only readiness and admission keeps. *)
Lemma registry_flags b self ports shutdown next :
  registry_ok b self → po_inputs ports = po_inputs (mo_ports self) → po_outputs ports = po_outputs (mo_ports self) →
  po_children ports = po_children (mo_ports self) →
  ∀ alive, registry_ok b (mkModule (mo_self self) (mo_id self) (mo_liveliness self) (mo_bindings self) ports alive next shutdown).
Proof.
  intros [H1 H2 H3 H4 H5 H6 H7 H8] Hi Ho Hc alive. split; cbn [mo_bindings mo_id mo_ports]; try done.
  - intros input. specialize (H5 input). destruct input; cbn [side_registry] in *; congruence.
  - congruence.
  - intros input n r. specialize (H7 input n r). destruct input; cbn [side_registry] in *; rewrite ?Hi, ?Ho; exact H7.
  - rewrite Hc. exact H8.
Qed.

Lemma live_flags b self ports shutdown next :
  all_live b self → po_inputs ports = po_inputs (mo_ports self) → po_outputs ports = po_outputs (mo_ports self) →
  po_children ports = po_children (mo_ports self) →
  all_live b (mkModule (mo_self self) (mo_id self) (mo_liveliness self) (mo_bindings self) ports (mo_alive self) next shutdown).
Proof.
  intros [H1 H2 H3] Hi Ho Hc. split; cbn [mo_ports mo_alive].
  - intros input. specialize (H1 input). destruct input; cbn [side_registry] in *; congruence.
  - by rewrite Hc.
  - intros input n Hn. specialize (H3 input n Hn). destruct input; cbn [side_registry] in *; by rewrite ?Hi, ?Ho.
Qed.

Lemma open_port_ok b self name input spec built :
  module_ok b self → module_ok b (open_port self name input spec built).2.
Proof.
  intros [Hreg Hlive]. destruct (open_port_cases self name input spec built) as [->|(c&e&r&Hc&Hl&He&Hr&->)]; [done|].
  destruct (named_contract_Ok b self name input _ c (ro_bindings _ _ Hreg) Hc) as [Hpc Hk].
  assert (Hex : expect b name input = Some (c, e)) by (eapply expect_port; [apply Hreg|done..]).
  assert (Hcw : contract_wf input c).
  { pose proof (ro_typed _ _ Hreg) as [Hi Ho _ _]. unfold bound_contract in Hpc. destruct input.
    - destruct (bt_get name (mb_inputs b)) as [i|] eqn:E; [|done]. injection Hpc as <-.
      by eapply (bw_inputs _ (ro_wf _ _ Hreg)), bt_get_Some.
    - destruct (bt_get name (mb_outputs b)) as [o|] eqn:E; [|done]. injection Hpc as <-.
      by eapply (bw_outputs _ (ro_wf _ _ Hreg)), bt_get_Some. }
  destruct (register_port_wf input spec c e _ r Hcw Hk Hr) as [Hw _].
  assert (Hready : po_ready (mo_ports self) = false).
  { unfold lock_ports in Hl. destruct (anyhow_ensure _ _); [|done]. cbn in Hl.
    destruct (anyhow_ensure (negb (po_ready _)) _) as [[]|] eqn:E; [|done]. apply anyhow_ensure_Ok in E.
    by apply negb_true_iff in E. }
  split.
  - destruct Hreg as [H1 H2 H3 H4 H5 H6 H7 H8]. split; cbn [mo_bindings mo_id mo_ports]; try done.
    + intros input'. specialize (H5 input'). destruct input, input'; cbn [insert_port side_registry po_inputs po_outputs] in *;
        try done; by apply bt_insert_ok.
    + by destruct input.
    + assert (Hnew : expected_port b input name (rg_contract r)) by by exists c, e.
      intros input' n r' Hin. specialize (H7 input' n r').
      destruct input, input'; cbn [insert_port side_registry po_inputs po_outputs] in *; auto;
        apply bt_insert_elem in Hin as [[= -> ->]|Hin]; auto.
    + intros n cs Hin. apply (H8 n cs). by destruct input.
  - cbn [mo_ports]. intros Hrd. exfalso. by destruct input; cbn in Hrd; rewrite Hready in Hrd.
Qed.

Lemma build_ready b self r :
  registry_ok b self → build_report self = Ok r → all_live b self.
Proof. intros Hreg Hr. pose proof (build_report_spec b self Hreg) as Hs. rewrite Hr in Hs. apply Hs. Qed.

(** The result that an operation's outermost [match] is on. *)
Ltac outcome E :=
  match goal with
  | |- context [snd (match ?x with Ok _ => _ | Err _ => _ end)] => destruct x as [?|?] eqn:E
  end.

Lemma ready_ok b self written declared : module_ok b self → module_ok b (module_ready self written declared).2.
Proof.
  intros Hok. pose proof Hok as [Hreg Hlive]. unfold module_ready. destruct (sd_flag _); [done|]. destruct (po_ready (mo_ports self)) eqn:Er; [done|].
  outcome E; [|done]. apply bind_Ok in E as (_&_&(_&_&(r&Eb&_)%bind_Ok)%bind_Ok).
  split; [by apply registry_flags|]. intros _. apply live_flags; [by eapply build_ready|done..].
Qed.

Lemma drop_ticket_ok b self t : module_ok b self → module_ok b (drop_ticket self t).
Proof.
  intros Hok. pose proof Hok as [Hreg Hlive]. unfold drop_ticket. destruct (_ && _); [|done]. by split; [apply registry_flags|].
Qed.

Lemma prepare_ok b self : module_ok b self → module_ok b (prepare_admission self).2.
Proof.
  intros Hok. pose proof Hok as [Hreg Hlive]. unfold prepare_admission. outcome E; [|done].
  cbn [snd]. split; [by apply registry_flags|]. intros Hrd. apply live_flags; [by apply Hlive|done..].
Qed.

Lemma commit_ok b self t declared : module_ok b self → module_ok b (commit_admission self t declared).2.
Proof.
  intros Hok. pose proof Hok as [Hreg Hlive]. unfold commit_admission. outcome E; [|by apply drop_ticket_ok].
  apply bind_Ok in E as (_&_&(_&_&(_&_&(r&Eb&_)%bind_Ok)%bind_Ok)%bind_Ok).
  split; [by apply registry_flags|]. intros _. apply live_flags; [by eapply build_ready|done..].
Qed.

(** Neither part looks at the shutdown flag. *)
Lemma registry_shutdown b self : registry_ok b (with_shutdown self (mo_shutdown self)) → registry_ok b self.
Proof. by destruct self. Qed.
Lemma live_shutdown b self shutdown : all_live b (with_shutdown self shutdown) → all_live b self.
Proof. intros [H1 H2 H3]. by split. Qed.
Lemma set_readiness_same ports : set_readiness ports (po_ready ports) = ports.
Proof. by destruct ports. Qed.

(** A change of one child's state. *)
Lemma set_child_ok b self name cs ready shutdown :
  registry_ok b self → (∃ child, delegated_bindings b name = Some (Ok child) ∧
      ∀ r, cs_report cs = Some r → report_wf child r ∧ report_typed r) →
  registry_ok b (with_shutdown (with_ports self (set_readiness (set_children (mo_ports self)
    (bt_insert name cs (po_children (mo_ports self))).2) ready)) shutdown).
Proof.
  intros [H1 H2 H3 H4 H5 H6 H7 H8] Hc. split; cbn [with_shutdown with_ports mo_bindings mo_id mo_ports set_readiness set_children
    po_children]; try done.
  - by apply bt_insert_ok.
  - intros n cs' [[= -> ->]|Hin]%bt_insert_elem; [done|by apply H8].
Qed.

Lemma set_child_live b self name cs shutdown :
  registry_ok b self → all_live b self → (child_live (po_children (mo_ports self)) name →
    cs_ready cs = true ∧ cs_exited cs = false ∧ is_Some (cs_report cs)) →
  all_live b (with_shutdown (with_ports self (set_children (mo_ports self)
    (bt_insert name cs (po_children (mo_ports self))).2)) shutdown).
Proof.
  intros Hreg [H1 H2 H3] Hc. split; cbn [with_shutdown with_ports mo_ports mo_alive]; [done| |done].
  apply Forall_forall. intros n Hn. pose proof (proj1 (Forall_forall _ _) H2 n Hn) as Hl. cbn [po_children set_children].
  pose proof (ro_children_map _ _ Hreg) as Hm. destruct (decide (n = name)) as [->|Hne].
  - destruct (Hc Hl) as (Hr&He&[r Hrep]). exists cs, r. by rewrite bt_get_insert_eq.
  - destruct Hl as (cs'&r&Hg&?&?&?). exists cs', r. by rewrite bt_get_insert_ne.
Qed.

Lemma presence_ok b self name is_ready : module_ok b self → module_ok b (child_presence self name is_ready).
Proof.
  intros Hok. pose proof Hok as [Hreg Hlive]. unfold child_presence. destruct (bt_get name (po_children (mo_ports self))) as [cs|] eqn:Hg; [|done].
  destruct (ro_children _ _ Hreg name cs) as (child&Hc&Hall); [by apply bt_get_Some; [apply Hreg|]|].
  destruct (cs_ready cs && negb is_ready) eqn:El.
  - split; [|done]. apply set_child_ok; [done|]. by exists child.
  - split.
    + apply registry_shutdown. rewrite <- (set_readiness_same (set_children _ _)). apply set_child_ok; [done|]. exists child. split; [done|]. exact Hall.
    + cbn [with_ports mo_ports set_children po_ready]. intros Hrd.
      apply (live_shutdown b _ (mo_shutdown self)), set_child_live; [done|by apply Hlive|]. intros (cs'&r&Hg'&Hr1&He&Hrep). cbn.
      assert (cs' = cs) as -> by congruence. rewrite Hr1 in El. cbn in El. apply negb_false_iff in El. subst is_ready.
      rewrite He. split_and!; [done|done|by rewrite Hrep].
Qed.

Lemma exited_ok b self name : module_ok b self → module_ok b (child_exited self name).
Proof.
  intros [Hreg Hlive]. unfold child_exited. destruct (bt_get name (po_children (mo_ports self))) as [cs|] eqn:Hg.
  - destruct (ro_children _ _ Hreg name cs) as (child&Hc&Hall); [by apply bt_get_Some; [apply Hreg|]|].
    split; [|done]. apply set_child_ok; [done|]. by exists child.
  - split; [by apply (registry_flags b self)|done].
Qed.

Lemma spawn_ok b self name located started :
  module_ok b self → ∃ self', snd <$> spawn_child self name located started = Some self' ∧ module_ok b self'.
Proof.
  intros Hok. pose proof Hok as [Hreg Hlive]. unfold spawn_child. rewrite (ro_bindings _ _ Hreg).
  assert (Hd : is_Some (delegated_bindings b name)).
  { destruct (decide (name ∈ (mb_children b).*1)) as [Hin|Hno].
    - destruct (delegation_exists b name (ro_typed _ _ Hreg) (ro_wf _ _ Hreg) Hin) as [c ->]. by eexists.
    - unfold delegated_bindings. destruct (bt_get name (mb_children b)) as [d|] eqn:E; [|by eexists].
      destruct Hno. apply bt_key_get; [apply Hreg|by eexists]. }
  destruct Hd as [child Hchild]. rewrite Hchild. eexists. split; [done|].
  outcome Eo; [|exact Hok]. apply bind_Ok in Eo as (c&->&([]&_&([]&E&([]&_&([]&_&[= ->])%bind_Ok)%bind_Ok)%bind_Ok)%bind_Ok).
  apply anyhow_ensure_Ok, andb_true_iff in E as [_ Hrd%negb_true_iff]. split.
  - apply registry_shutdown. rewrite <- (set_readiness_same (set_children _ _)). apply set_child_ok; [done|]. eexists. by split; [exact Hchild|].
  - cbn. by rewrite Hrd.
Qed.

Lemma reported_ok b self name child report :
  module_ok b self → report_typed report → delegated_bindings b name = Some (Ok child) →
  ∃ self', snd <$> child_reported self name child report = Some self' ∧ module_ok b self'.
Proof.
  intros Hok Hty Hc. pose proof Hok as [Hreg Hlive]. unfold child_reported.
  destruct (delegated_spec b name child (ro_typed _ _ Hreg) Hc) as (d&_&Hct&_).
  destruct (validate_report_spec (mkEntry child report)) as [Htot Hval].
  { destruct Hct as [Hi Ho _ _], Hty as [Hri Hro]. by split. }
  cbn [re_bindings re_report] in *. destruct (validate_report child report) as [[[]|e]|]; [| |done].
  2: { eexists. split; [done|]. exact Hok. }
  destruct (bt_get name (po_children (mo_ports self))) as [cs|] eqn:Hg; [|eexists; split; [done|exact Hok]].
  destruct (cs_ready cs && negb (cs_exited cs)) eqn:El; [|eexists; split; [done|exact Hok]].
  eexists. split; [done|]. cbn [snd]. split.
  - apply registry_shutdown. rewrite <- (set_readiness_same (set_children _ _)). apply set_child_ok; [done|]. exists child. split; [done|]. cbn.
    intros r [= <-]. split; [by apply Hval|done].
  - cbn [with_ports mo_ports set_children po_ready]. intros Hrd.
    apply (live_shutdown b _ (mo_shutdown self)), set_child_live; [done|by apply Hlive|]. intros _. cbn. by split_and!.
Qed.

Lemma act_ok b self a : module_ok b self → act_typed a → ∃ self', mod_act self a = Some self' ∧ module_ok b self'.
Proof.
  intros Hok Hty. destruct a; cbn [mod_act].
  - eexists. split; [done|]. by apply open_port_ok.
  - eexists. split; [done|]. destruct (bool_decide _); [|done]. destruct Hok as [Hreg _]. unfold drop_port.
    split; [by apply registry_flags|done].
  - eexists. split; [done|]. by apply ready_ok.
  - eexists. split; [done|]. by apply prepare_ok.
  - eexists. split; [done|]. by apply commit_ok.
  - eexists. split; [done|]. by apply drop_ticket_ok.
  - by apply spawn_ok.
  - eexists. split; [done|]. by apply presence_ok.
  - eexists. split; [done|]. by apply exited_ok.
  - pose proof Hok as [Hreg _]. rewrite (ro_bindings _ _ Hreg).
    destruct (delegated_bindings b name) as [[child|]|] eqn:E.
    + by apply (reported_ok b).
    + by eexists.
    + destruct (spawn_ok b self name (Ok tt) (Ok tt) Hok) as (?&Hs&_). unfold spawn_child in Hs.
      by rewrite (ro_bindings _ _ Hreg), E in Hs.
  - eexists. split; [done|]. destruct Hok as [Hreg Hlive]. split; [by apply registry_flags|]. intros Hrd.
    apply live_flags; [by apply Hlive|done..].
  - eexists. split; [done|]. destruct Hok as [Hreg Hlive]. split; [by apply registry_flags|]. intros Hrd.
    apply live_flags; [by apply Hlive|done..].
Qed.

Lemma acts_ok b self l :
  module_ok b self → Forall act_typed l → ∃ self', mod_acts self l = Some self' ∧ module_ok b self'.
Proof.
  intros Hok Hl. revert self Hok. induction Hl as [|a l Ha _ IH]; intros self Hok; [by exists self|].
  destruct (act_ok b self a Hok Ha) as (self'&Hs&Hok'). cbn. rewrite Hs. by apply IH.
Qed.

Lemma module_new_ok number b liveliness hosted :
  bindings_typed b → bindings_wf b → module_ok b (module_new number b liveliness hosted).
Proof.
  intros Ht Hwf. split; [|done]. split; cbn; try done.
  - by intros [].
  - intros [] n r Hin; by apply elem_of_nil in Hin.
  - intros n cs Hin. by apply elem_of_nil in Hin.
Qed.

(** C34: readiness is true: whatever a program opens, drops and announces, whatever
    its children and the engine do and in whatever order, no operation on the
    port registry panics, and whenever readiness stands the module's report can
    be built and is the one its bindings demand: every declared port has a live
    handle of the declared contract, or is reported by a live child that it is
    delegated to. *)
Theorem readiness_is_true number b liveliness hosted l :
  bindings_typed b → bindings_wf b → Forall act_typed l →
  ∃ self, mod_acts (module_new number b liveliness hosted) l = Some self ∧
    (po_ready (mo_ports self) = true → ∃ r, build_report self = Ok r ∧ validate_report b r = Some (Ok tt)).
Proof.
  intros Ht Hwf Hl. destruct (acts_ok b _ l (module_new_ok number b liveliness hosted Ht Hwf) Hl) as (self&Hs&Hreg&Hlive).
  exists self. split; [done|]. intros Hr. specialize (Hlive Hr). pose proof (build_report_spec b self Hreg) as Hb.
  destruct (build_report self) as [r|]; [|done]. destruct Hb as (_&Hrw&[Hri Hro]). exists r. split; [done|].
  apply (validate_report_spec (mkEntry b r)); [|done]. destruct Ht. by split.
Qed.

(** ** Admission *)

(** A generation that is not current never becomes current again, and while it
    is, no port is opened or lost. *)
Definition keeps (self self' : Module_) : Prop :=
  mo_next self ≤ mo_next self' ∧ mo_self self' = mo_self self ∧
  ∀ g, g < mo_next self → po_admission (mo_ports self') = Some g →
    po_admission (mo_ports self) = Some g ∧ mo_alive self' = mo_alive self ∧
    ∀ input, side_registry (mo_ports self') input = side_registry (mo_ports self) input.

Lemma keeps_refl self : keeps self self.
Proof. split_and!; [done|done|]. auto. Qed.

Lemma keeps_trans self1 self2 self3 : keeps self1 self2 → keeps self2 self3 → keeps self1 self3.
Proof.
  intros (H1&H2&H3) (H4&H5&H6). split_and!; [lia|congruence|]. intros g Hg Ha.
  destruct (H6 g ltac:(lia) Ha) as (Hb&Hc&Hd). destruct (H3 g Hg Hb) as (He&Hf&Hh).
  split_and!; [done|congruence|]. intros input. by rewrite Hd, Hh.
Qed.

(** An operation that leaves the handles and the tables alone, and may clear the
    admission. *)
Lemma keeps_flags self ports shutdown :
  po_inputs ports = po_inputs (mo_ports self) → po_outputs ports = po_outputs (mo_ports self) →
  po_admission ports = po_admission (mo_ports self) ∨ po_admission ports = None →
  keeps self (mkModule (mo_self self) (mo_id self) (mo_liveliness self) (mo_bindings self) ports (mo_alive self)
                (mo_next self) shutdown).
Proof.
  intros Hi Ho Ha. split_and!; [done|done|]. cbn. intros g _ Hg. destruct Ha as [Ha|Ha]; [|congruence].
  split_and!; [congruence|done|]. by intros [].
Qed.

Lemma keeps_drop_ticket self t : keeps self (drop_ticket self t).
Proof. unfold drop_ticket. destruct (_ && _); [|apply keeps_refl]. apply keeps_flags; auto. Qed.

Lemma act_keeps self a self' : mod_act self a = Some self' → keeps self self'.
Proof.
  destruct a; cbn [mod_act].
  - intros [= <-]. destruct (open_port_cases self name input spec built) as [->|(c&e&r&_&Hl&_&_&->)]; [apply keeps_refl|].
    split_and!; [cbn; lia|done|]. cbn. intros g _ Hg. exfalso.
    assert (Hnone : po_admission (mo_ports self) = None).
    { apply bind_Ok in Hl as (_&_&(_&_&([]&E&_)%bind_Ok)%bind_Ok). apply anyhow_ensure_Ok in E.
      by destruct (po_admission (mo_ports self)). }
    destruct input; cbn in Hg; congruence.
  - intros [= <-]. destruct (bool_decide _); [|apply keeps_refl]. unfold drop_port. by split_and!.
  - intros [= <-]. unfold module_ready. destruct (sd_flag _); [apply keeps_refl|]. destruct (po_ready (mo_ports self)); [apply keeps_refl|].
    outcome E; [|apply keeps_refl]. apply keeps_flags; auto.
  - intros [= <-]. unfold prepare_admission. outcome E; [|apply keeps_refl]. split_and!; [cbn; lia|done|]. cbn. intros g Hg [= <-]. lia.
  - intros [= <-]. unfold commit_admission. outcome E; [|apply keeps_drop_ticket]. apply keeps_flags; auto.
  - intros [= <-]. apply keeps_drop_ticket.
  - unfold spawn_child. destruct (mo_bindings self) as [b|]; [|intros [= <-]; apply keeps_refl].
    destruct (delegated_bindings b name) as [child|]; [|done]. intros [= <-]. outcome E; [|apply keeps_refl].
    apply keeps_flags; auto.
  - intros [= <-]. unfold child_presence. destruct (bt_get _ _); [|apply keeps_refl].
    destruct (_ && _); apply (keeps_flags self); auto.
  - intros [= <-]. unfold child_exited. destruct (bt_get _ _); apply (keeps_flags self); auto.
  - destruct (mo_bindings self) as [b|]; [|intros [= <-]; apply keeps_refl].
    destruct (delegated_bindings b name) as [[child|]|]; [|intros [= <-]; apply keeps_refl|done].
    unfold child_reported. destruct (validate_report child report) as [[|]|]; [|intros [= <-]; apply keeps_refl|done].
    intros [= <-]. destruct (bt_get _ _); [|apply keeps_refl]. destruct (_ && _); [|apply keeps_refl].
    apply keeps_flags; auto.
  - intros [= <-]. apply (keeps_flags self); auto.
  - intros [= <-]. apply (keeps_flags self); auto.
Qed.

Lemma acts_keep self l self' : mod_acts self l = Some self' → keeps self self'.
Proof.
  revert self. induction l as [|a l IH]; intros self; cbn; [intros [= <-]; apply keeps_refl|].
  destruct (mod_act self a) as [s|] eqn:E; [|done]. cbn. intros Hl. eapply keeps_trans; [by eapply act_keeps|by apply IH].
Qed.

(** C35: an admission commits what it prepared: if the ticket of a preparation is
    committed, whatever happened in between, the module was not stopped, no port
    was opened or lost since, and the report that the host was given is still
    the module's report and the one its bindings demand. *)
Theorem committed_is_prepared number b liveliness hosted l self t self0 l' self1 declared t' self2 :
  bindings_typed b → bindings_wf b → Forall act_typed l →
  mod_acts (module_new number b liveliness hosted) l = Some self →
  prepare_admission self = (Ok t, self0) → mod_acts self0 l' = Some self1 →
  commit_admission self1 t declared = (Ok t', self2) →
  mo_alive self1 = mo_alive self ∧ (∀ input, side_registry (mo_ports self1) input = side_registry (mo_ports self) input) ∧
  sd_flag (mo_shutdown self1) = false ∧ po_ready (mo_ports self2) = true ∧
  build_report self1 = Ok (tk_report t) ∧ validate_report b (tk_report t) = Some (Ok tt).
Proof.
  intros Ht Hwf Hl Hs Hp Hl' Hc.
  destruct (acts_ok b _ l (module_new_ok number b liveliness hosted Ht Hwf) Hl) as (self'&Hs'&Hreg&_).
  assert (self' = self) as -> by congruence. clear Hs'.
  unfold prepare_admission in Hp.
  destruct (let? _ := ok_or (mo_bindings self) MissingBindings in _) as [report|] eqn:Ep; [|done].
  injection Hp as <- <-. assert (Hrep : build_report self = Ok report).
  { by apply bind_Ok in Ep as (?&_&(_&_&(_&_&(_&_&(_&_&(_&_&?)%bind_Ok)%bind_Ok)%bind_Ok)%bind_Ok)%bind_Ok). }
  pose proof (acts_keep _ _ _ Hl') as (_&_&Hk). unfold commit_admission in Hc.
  destruct (let? _ := admit_ensure (bool_decide (tk_ports _ = _)) ForeignTicket in _) as [[]|] eqn:Ec; [|done].
  injection Hc as <- <-. cbn [tk_report tk_generation] in *.
  apply bind_Ok in Ec as (_&_&([]&Hg&([]&Hf&(r&Hr&([]&Heq&_)%bind_Ok)%bind_Ok)%bind_Ok)%bind_Ok).
  apply admit_ensure_Ok, bool_decide_eq_true in Hg, Heq. apply admit_ensure_Ok, negb_true_iff in Hf. subst r.
  destruct (Hk (mo_next self) ltac:(cbn; lia) Hg) as (_&Ha&Hi). split_and!; [done| |done|done|done|].
  - intros input. rewrite Hi. by destruct input.
  - pose proof (build_report_spec b self Hreg) as Hb. rewrite Hrep in Hb. destruct Hb as (_&Hrw&[Hri Hro]).
    apply (validate_report_spec (mkEntry b report)); [|done]. destruct Ht. by split.
Qed.

(** ** An arm with an input, an output and an owned child *)

Definition arm_contract : EndpointContract :=
  mkContract [] (bytes_of "robot.State") Stream None QDefault Volatile Live Fifo.

Definition arm_module : ModuleBindings :=
  mkBindings 3 (bytes_of "robot/arm_module") (bytes_of "robot/arm_module")
    [(bytes_of "pose", mkInput arm_contract [mkEndpoint (bytes_of "robot/sensor") (bytes_of "state")])]
    [(bytes_of "state", mkOutput arm_contract)] [] [].

Definition gripper : str := bytes_of "gripper".

(** The arm with an owned child that is given the output. *)
Definition arm_owning : ModuleBindings :=
  mkBindings 3 (bytes_of "robot/arm_module") (bytes_of "robot/arm_module") (mb_inputs arm_module) (mb_outputs arm_module)
    [(gripper, mkDelegation [] [bytes_of "state"])] [].

Definition open_pose : ModAct := MOpen (bytes_of "pose") true (TypedStream (bytes_of "robot.State") 17) (Ok tt).
Definition open_state : ModAct := MOpen (bytes_of "state") false (TypedStream (bytes_of "robot.State") 17) (Ok tt).

Definition gripper_report : ModuleReport :=
  mkModuleReport 3 2 (bytes_of "robot/arm_module/owned/gripper") (bytes_of "robot/arm_module") []
    [(bytes_of "state",
      mkPortReport (EndpointOutput (mkEndpoint (bytes_of "robot/arm_module") (bytes_of "state"))) (bytes_of "robot.State") 17
        arm_contract None)].

(** The child is spawned, is ready and reports; the module opens its own input
    and is ready. *)
Definition arm_run : list ModAct :=
  [MSpawn gripper (Ok tt) (Ok tt); MPresence gripper true; MReported gripper gripper_report; open_pose; MReady (Ok tt) (Ok tt)].

Lemma arm_typed b : b = arm_module ∨ b = arm_owning → bindings_typed b ∧ bindings_wf b.
Proof.
  intros Hb. split.
  - destruct Hb as [-> | ->]; split; try (by repeat constructor); cbn [arm_module arm_owning mb_children fmap list_fmap fst]; intros n.
    + intros ?%elem_of_nil. done.
    + intros ->%list_elem_of_singleton. by vm_compute.
  - apply bindings_validate_Ok; [by destruct Hb as [-> | ->]; repeat constructor..|]. destruct Hb as [-> | ->]; by vm_compute.
Qed.

Lemma delegation_valid_witness :
  ∃ child d, delegated_bindings arm_owning gripper = Some (Ok child) ∧ (gripper, d) ∈ mb_children arm_owning ∧
    bindings_wf child ∧ (∀ input n, n ∈ side_names child input ↔ n ∈ child_names d input) ∧
    ∀ input n c e, expect child n input = Some (c, e) → expect arm_owning n input = Some (c, e).
Proof.
  destruct (arm_typed arm_owning) as [Ht Hw]; [by right|]. apply (delegation_valid arm_owning gripper Ht Hw). by left.
Defined.

Lemma readiness_is_true_witness :
  (∃ self, mod_acts (module_new 0 arm_owning true false) arm_run = Some self ∧
    (po_ready (mo_ports self) = true → ∃ r, build_report self = Ok r ∧ validate_report arm_owning r = Some (Ok tt))) ∧
  po_ready ∘ mo_ports <$> mod_acts (module_new 0 arm_owning true false) arm_run = Some true.
Proof.
  destruct (arm_typed arm_owning) as [Ht Hw]; [by right|]. split; [|by vm_compute].
  apply (readiness_is_true 0 arm_owning true false arm_run Ht Hw). by repeat constructor.
Defined.

Definition arm_opened : Module_ := default (module_new 0 arm_module true true) (mod_acts (module_new 0 arm_module true true) [open_pose; open_state]).
Definition arm_ticket : Ticket :=
  match (prepare_admission arm_opened).1 with
  | Ok t => t
  | Err _ => mkTicket 0 0 gripper_report
  end.
Definition arm_prepared : Module_ := (prepare_admission arm_opened).2.
Definition arm_attached : Module_ := default arm_prepared (mod_acts arm_prepared [MAttachGate]).

Lemma committed_is_prepared_witness :
  po_ready (mo_ports (commit_admission arm_attached arm_ticket (Ok tt)).2) = true ∧
  validate_report arm_module (tk_report arm_ticket) = Some (Ok tt).
Proof.
  destruct (arm_typed arm_module) as [Ht Hw]; [by left|].
  destruct (committed_is_prepared 0 arm_module true true [open_pose; open_state] arm_opened arm_ticket arm_prepared [MAttachGate]
    arm_attached (Ok tt) arm_ticket (commit_admission arm_attached arm_ticket (Ok tt)).2 Ht Hw)
    as (_&_&_&Hr&_&Hv); [by repeat constructor|by vm_compute..|by split].
Defined.
