(* ===== verification/Group.v ===== *)
(** * Group: a supervised group of components
    ([crates/reiny/src/component/host.rs], [coordinator.rs], [coordinator/*.rs],
    [worker.rs], [worker/control.rs], [staged.rs], [handle.rs], [status.rs],
    [options.rs], [mod.rs])

    A task is a state that says where it waits, and a function for one turn: from
    one wait to the next.  Tasks interleave by turns; the channels they share are
    part of the state.  What a hook, the engine or a timer does is an argument of
    a turn.  Task ids are positions in the list of instances.  Component code, the
    handle, the step driver and a controller outside this crate are steps of
    their own.  A step gate is known by the calls made on it. *)

From Stdlib Require Import ZArith Lia.
From S2P Require Import Prelude Text Btree Core Bindings Report EngineKey HostMessages EngineLocal LaunchTypes Managed.

(** ** Status *)

Inductive GroupPhase : Type :=
  | GStarting | GPrepared | GCommitted | GRunning | GStopping | GStopped | GFailed | GUnresponsive.

Inductive ComponentPhase : Type :=
  | CStarting | CPreparing | CPrepared | CReady | CRunning | CStopping | CStopped | CFailed | CUnresponsive.
#[export] Instance ComponentPhase_eq_dec : EqDecision ComponentPhase.
Proof. solve_decision. Defined.

Record ComponentStatus : Type := mkComponentStatus { cst_phase : ComponentPhase; cst_error : option HostError }.

Record GroupStatus : Type := mkGroupStatus {
  gs_phase : GroupPhase;
  gs_components : btree str ComponentStatus;
}.

Definition with_group_phase (p : GroupPhase) (status : GroupStatus) : GroupStatus :=
  mkGroupStatus p (gs_components status).

(** An entry of the map changed in place *)
Definition update_component (id : str) (f : ComponentStatus → ComponentStatus) (status : GroupStatus) : GroupStatus :=
  match bt_get id (gs_components status) with
  | Some c => mkGroupStatus (gs_phase status) (bt_insert id (f c) (gs_components status)).2
  | None => status
  end.

Definition terminal_phase (p : GroupPhase) : bool :=
  match p with GStopped | GFailed | GUnresponsive => true | _ => false end.

(** [phase] *)
Definition component_phase (id : str) (p : ComponentPhase) (status : GroupStatus) : GroupStatus :=
  if terminal_phase (gs_phase status) then status
  else update_component id
         (λ c, if bool_decide (cst_phase c = CUnresponsive) then c else mkComponentStatus p (cst_error c)) status.

(** ** Messages *)

Inductive GroupStop : Type := SRequested | SStartupFailure | SComponentFailure.
Inductive Command : Type := CmdPrepare | CmdRun | CmdStop (reason : GroupStop).

(** [Event]; a context is its id and the number of its instance *)
Inductive WorkerEvent : Type :=
  | EvOpened (id : str) (context : nat)
  | EvPrepared (id : str) (ticket : Ticket)
  | EvFailure (e : HostError)
  | EvStopRequested.

Inductive Stage : Type := StageCommit | StageActivate.
#[export] Instance Stage_eq_dec : EqDecision Stage.
Proof. solve_decision. Defined.

(** [Request]; the reply of a stage is sent to the one controller *)
Inductive Request : Type := Advance (stage : Stage) | AbortWith (e : HostError).

(** How a task ended: with its result, or by a panic outside the guarded hooks *)
Inductive TaskEnd : Type := TaskReturned (e : option HostError) | TaskPanicked (message : str).

(** The step driver's task *)
Inductive DriverTask : Type := DriverRunning | DriverEnded (r : result unit str).

Inductive GateCall : Type := GateActivate | GateStop.

(** Where a worker waits *)
Inductive WorkerAt : Type :=
  | AtOpen              (* [open_hosted] *)
  | AtOpenFailed        (* a stop, after a context that did not open *)
  | AtCreate            (* the factory *)
  | AtCreateFailed      (* a stop, after a factory that did not succeed *)
  | AtPrepare           (* the preparation hook *)
  | AtAdmit             (* [prepare_admission] *)
  | AtActivation        (* the group's activation *)
  | AtRun               (* the run hook *)
  | AtFinish (panicked : bool)  (* a stop, after an interruption *)
  | AtStop (reason : GroupStop) (* the stop hook *)
  | AtExit (e : TaskEnd).

(** Where the coordinator waits *)
Inductive CoordinatorAt : Type :=
  | CoCollect                         (* the prepared tickets *)
  | CoWait (stage : Stage)
  | CoCommit (rest : list ModuleBindings)  (* about to commit the next ticket *)
  | CoServe (controller_open : bool)
  | CoClean (primary : option HostError) (cleanup : list HostError) (events_open : bool)
  | CoDriver (primary : option HostError) (cleanup : list HostError)
  | CoDone.

(** Where the controller of a local launch waits; [KExternal] is a controller
    outside this crate, [KGone] one that was dropped *)
Inductive Controller : Type :=
  | KReports | KSend (r : Request) | KAwait (stage : Stage) | KExternal | KGone.

(** ** State *)

(** What a launch fixes *)
Record Launch : Type := mkLaunch {
  la_bindings : list ModuleBindings;
  la_domain : str;
  la_liveliness : bool;
  la_startup : option Z;
  la_stopping : option Z;
  la_gated : bool;
}.

(** The channels; [sh_acks] are the stages acknowledged, [sh_calls] the calls on
    the step gate *)
Record Shared : Type := mkShared {
  sh_status : GroupStatus;
  sh_stop : bool;
  sh_terminal : option LocalOutcome;
  sh_command : Command;
  sh_events : list WorkerEvent;
  sh_control : list Request;
  sh_reports : option (list ModuleReport);
  sh_acks : list Stage;
  sh_calls : list GateCall;
}.

(** [Coordinator]: its own fields; [co_tasks] are the tasks of the set that are
    not joined, [co_joined] those of them that have ended, in that order *)
Record Coordinator : Type := mkCoordinator {
  co_tasks : list nat;
  co_joined : list (nat * TaskEnd);
  co_pending : btree nat str;
  co_contexts : btree str nat;
  co_prepared : btree str Ticket;
  co_ready : list Ticket;
  co_driver : option DriverTask;
  co_aborted : bool;
  co_at : CoordinatorAt;
}.

Record Group : Type := mkGroup {
  gr_launch : Launch;
  gr_shared : Shared;
  gr_own : Coordinator;
  gr_workers : list WorkerAt;
  gr_modules : list (option Module_);
  gr_controller : Controller;
}.

(** Field updates *)
Definition put_status (x : GroupStatus) (g : Group) : Group := let s := gr_shared g in mkGroup (gr_launch g) (mkShared
  x (sh_stop s) (sh_terminal s) (sh_command s) (sh_events s) (sh_control s) (sh_reports s) (sh_acks s) (sh_calls s))
  (gr_own g) (gr_workers g) (gr_modules g) (gr_controller g).
Definition put_stop (x : bool) (g : Group) : Group := let s := gr_shared g in mkGroup (gr_launch g) (mkShared
  (sh_status s) x (sh_terminal s) (sh_command s) (sh_events s) (sh_control s) (sh_reports s) (sh_acks s) (sh_calls s))
  (gr_own g) (gr_workers g) (gr_modules g) (gr_controller g).
Definition put_terminal (x : option LocalOutcome) (g : Group) : Group := let s := gr_shared g in mkGroup (gr_launch g)
  (mkShared (sh_status s) (sh_stop s) x (sh_command s) (sh_events s) (sh_control s) (sh_reports s) (sh_acks s)
  (sh_calls s)) (gr_own g) (gr_workers g) (gr_modules g) (gr_controller g).
Definition put_command (x : Command) (g : Group) : Group := let s := gr_shared g in mkGroup (gr_launch g) (mkShared
  (sh_status s) (sh_stop s) (sh_terminal s) x (sh_events s) (sh_control s) (sh_reports s) (sh_acks s) (sh_calls s))
  (gr_own g) (gr_workers g) (gr_modules g) (gr_controller g).
Definition put_events (x : list WorkerEvent) (g : Group) : Group := let s := gr_shared g in mkGroup (gr_launch g)
  (mkShared (sh_status s) (sh_stop s) (sh_terminal s) (sh_command s) x (sh_control s) (sh_reports s) (sh_acks s)
  (sh_calls s)) (gr_own g) (gr_workers g) (gr_modules g) (gr_controller g).
Definition put_control (x : list Request) (g : Group) : Group := let s := gr_shared g in mkGroup (gr_launch g)
  (mkShared (sh_status s) (sh_stop s) (sh_terminal s) (sh_command s) (sh_events s) x (sh_reports s) (sh_acks s)
  (sh_calls s)) (gr_own g) (gr_workers g) (gr_modules g) (gr_controller g).
Definition put_reports (x : option (list ModuleReport)) (g : Group) : Group := let s := gr_shared g in mkGroup
  (gr_launch g) (mkShared (sh_status s) (sh_stop s) (sh_terminal s) (sh_command s) (sh_events s) (sh_control s) x
  (sh_acks s) (sh_calls s)) (gr_own g) (gr_workers g) (gr_modules g) (gr_controller g).
Definition put_acks (x : list Stage) (g : Group) : Group := let s := gr_shared g in mkGroup (gr_launch g) (mkShared
  (sh_status s) (sh_stop s) (sh_terminal s) (sh_command s) (sh_events s) (sh_control s) (sh_reports s) x (sh_calls s))
  (gr_own g) (gr_workers g) (gr_modules g) (gr_controller g).
Definition put_calls (x : list GateCall) (g : Group) : Group := let s := gr_shared g in mkGroup (gr_launch g)
  (mkShared (sh_status s) (sh_stop s) (sh_terminal s) (sh_command s) (sh_events s) (sh_control s) (sh_reports s)
  (sh_acks s) x) (gr_own g) (gr_workers g) (gr_modules g) (gr_controller g).
Definition put_tasks (x : list nat) (g : Group) : Group := let s := gr_own g in mkGroup (gr_launch g) (gr_shared g)
  (mkCoordinator x (co_joined s) (co_pending s) (co_contexts s) (co_prepared s) (co_ready s) (co_driver s)
  (co_aborted s) (co_at s)) (gr_workers g) (gr_modules g) (gr_controller g).
Definition put_joined (x : list (nat * TaskEnd)) (g : Group) : Group := let s := gr_own g in mkGroup (gr_launch g)
  (gr_shared g) (mkCoordinator (co_tasks s) x (co_pending s) (co_contexts s) (co_prepared s) (co_ready s)
  (co_driver s) (co_aborted s) (co_at s)) (gr_workers g) (gr_modules g) (gr_controller g).
Definition put_pending (x : btree nat str) (g : Group) : Group := let s := gr_own g in mkGroup (gr_launch g)
  (gr_shared g) (mkCoordinator (co_tasks s) (co_joined s) x (co_contexts s) (co_prepared s) (co_ready s) (co_driver s)
  (co_aborted s) (co_at s)) (gr_workers g) (gr_modules g) (gr_controller g).
Definition put_contexts (x : btree str nat) (g : Group) : Group := let s := gr_own g in mkGroup (gr_launch g)
  (gr_shared g) (mkCoordinator (co_tasks s) (co_joined s) (co_pending s) x (co_prepared s) (co_ready s) (co_driver s)
  (co_aborted s) (co_at s)) (gr_workers g) (gr_modules g) (gr_controller g).
Definition put_prepared (x : btree str Ticket) (g : Group) : Group := let s := gr_own g in mkGroup (gr_launch g)
  (gr_shared g) (mkCoordinator (co_tasks s) (co_joined s) (co_pending s) (co_contexts s) x (co_ready s) (co_driver s)
  (co_aborted s) (co_at s)) (gr_workers g) (gr_modules g) (gr_controller g).
Definition put_ready (x : list Ticket) (g : Group) : Group := let s := gr_own g in mkGroup (gr_launch g) (gr_shared g)
  (mkCoordinator (co_tasks s) (co_joined s) (co_pending s) (co_contexts s) (co_prepared s) x (co_driver s)
  (co_aborted s) (co_at s)) (gr_workers g) (gr_modules g) (gr_controller g).
Definition put_driver (x : option DriverTask) (g : Group) : Group := let s := gr_own g in mkGroup (gr_launch g)
  (gr_shared g) (mkCoordinator (co_tasks s) (co_joined s) (co_pending s) (co_contexts s) (co_prepared s) (co_ready s)
  x (co_aborted s) (co_at s)) (gr_workers g) (gr_modules g) (gr_controller g).
Definition put_aborted (x : bool) (g : Group) : Group := let s := gr_own g in mkGroup (gr_launch g) (gr_shared g)
  (mkCoordinator (co_tasks s) (co_joined s) (co_pending s) (co_contexts s) (co_prepared s) (co_ready s) (co_driver s)
  x (co_at s)) (gr_workers g) (gr_modules g) (gr_controller g).
Definition put_at (x : CoordinatorAt) (g : Group) : Group := let s := gr_own g in mkGroup (gr_launch g) (gr_shared g)
  (mkCoordinator (co_tasks s) (co_joined s) (co_pending s) (co_contexts s) (co_prepared s) (co_ready s) (co_driver s)
  (co_aborted s) x) (gr_workers g) (gr_modules g) (gr_controller g).
Definition put_workers (x : list WorkerAt) (g : Group) : Group := mkGroup (gr_launch g) (gr_shared g) (gr_own g) x
  (gr_modules g) (gr_controller g).
Definition put_modules (x : list (option Module_)) (g : Group) : Group := mkGroup (gr_launch g) (gr_shared g)
  (gr_own g) (gr_workers g) x (gr_controller g).
Definition put_controller (x : Controller) (g : Group) : Group := mkGroup (gr_launch g) (gr_shared g) (gr_own g)
  (gr_workers g) (gr_modules g) x.

(** ** Operations on what tasks share *)

Definition note_status (f : GroupStatus → GroupStatus) (g : Group) : Group := put_status (f (sh_status (gr_shared g))) g.

(** A call on the step gate, where there is one *)
Definition gate_call (c : GateCall) (g : Group) : Group :=
  if la_gated (gr_launch g) then put_calls (sh_calls (gr_shared g) ++ [c]) g else g.

Definition context (g : Group) (i : nat) : option Module_ :=
  match gr_modules g !! i with Some m => m | None => None end.
Definition on_context (i : nat) (f : Module_ → Module_) (g : Group) : Group :=
  match context g i with
  | Some m => put_modules (<[i := Some (f m)]> (gr_modules g)) g
  | None => g
  end.
(** [ModuleContext::shutdown_now] *)
Definition shutdown_context (i : nat) : Group → Group :=
  on_context i (λ m, with_shutdown m (trigger (mo_shutdown m))).
(** A ticket that goes out of scope *)
Definition release_ticket (t : Ticket) : Group → Group := on_context (tk_ports t) (λ m, drop_ticket m t).
Definition release_tickets (l : list Ticket) (g : Group) : Group := foldl (λ g t, release_ticket t g) g l.

Definition worker_at (g : Group) (i : nat) : option WorkerAt := gr_workers g !! i.
Definition exited (w : WorkerAt) : bool := match w with AtExit _ => true | _ => false end.
Definition done (g : Group) : bool := match co_at (gr_own g) with CoDone => true | _ => false end.

(** ** Observations of the coordinator *)

(** [Coordinator::record] *)
Definition record_error (e : HostError) (g : Group) : Group :=
  match he_instance e with
  | Some id =>
      note_status (update_component id (λ c,
        mkComponentStatus CFailed (match cst_error c with Some first => Some first | None => Some e end))) g
  | None => g
  end.

(** [Coordinator::observe] *)
Definition observe (event : option WorkerEvent) (g : Group) : result bool HostError * Group :=
  match event with
  | Some (EvOpened id i) => (Ok false, put_contexts (bt_insert id i (co_contexts (gr_own g))).2 g)
  | Some (EvPrepared id ticket) =>
      let '(old, prepared) := bt_insert id ticket (co_prepared (gr_own g)) in
      let g := put_prepared prepared g in
      (Ok false, match old with Some t => release_ticket t g | None => g end)
  | Some (EvFailure e) => (Err e, g)
  | Some EvStopRequested => (Ok true, g)
  | None => (Err (host_error_new EUnexpectedExit None (bytes_of "all component event senders exited")), g)
  end.

(** A task leaves the set *)
Definition join_task (i : nat) (g : Group) : Group :=
  put_tasks (filter (λ n, n ≠ i) (co_tasks (gr_own g))) (put_joined (tail (co_joined (gr_own g))) g).

(** [Coordinator::early_exit] *)
Definition early_exit (i : nat) (e : TaskEnd) (g : Group) : HostError * Group :=
  let '(instance, pending) := bt_remove i (co_pending (gr_own g)) in
  let error :=
    match e with
    | TaskReturned (Some error) => error
    | TaskReturned None => host_error_new EUnexpectedExit instance (bytes_of "component task exited")
    | TaskPanicked message => host_error_new EPanic instance message
    end in
  (error, record_error error (put_pending pending g)).

(** [events.recv()]: [None] is pending; a worker that has not ended holds a sender *)
Definition recv_event (g : Group) : option (option WorkerEvent) * Group :=
  match sh_events (gr_shared g) with
  | event :: rest => (Some (Some event), put_events rest g)
  | [] => (if existsb (λ w, negb (exited w)) (gr_workers g) then None else Some None, g)
  end.

(** [tasks.join_next_with_id()] *)
Definition join_next (g : Group) : option (nat * TaskEnd) * Group :=
  match co_joined (gr_own g) with
  | (i, e) :: _ => (Some (i, e), join_task i g)
  | [] => (None, g)
  end.

(** The senders of the control channel: the controller and the step driver *)
Definition control_senders (g : Group) : bool :=
  match gr_controller g with KGone => false | _ => true end
  || match co_driver (gr_own g) with Some DriverRunning => true | _ => false end.

(** [control.recv()] *)
Definition recv_request (g : Group) : option (option Request) * Group :=
  match sh_control (gr_shared g) with
  | r :: rest => (Some (Some r), put_control rest g)
  | [] => (if control_senders g then None else Some None, g)
  end.

(** ** The coordinator's waits *)

Inductive Selected : Type :=
  | SelStop | SelEvent (r : result bool HostError) | SelJoined (e : HostError)
  | SelRequest (r : option Request) | SelPending.

(** The biased [select!] of [start], [wait_stage] and [serve] *)
Definition select (controller_open : bool) (g : Group) : Selected * Group :=
  if sh_stop (gr_shared g) then (SelStop, g) else
  match recv_event g with
  | (Some event, g) => let '(r, g) := observe event g in (SelEvent r, g)
  | (None, g) =>
      match join_next g with
      | (Some (i, e), g) => let '(error, g) := early_exit i e g in (SelJoined error, g)
      | (None, g) =>
          if controller_open then
            match recv_request g with
            | (Some r, g) => (SelRequest r, g)
            | (None, g) => (SelPending, g)
            end
          else (SelPending, g)
      end
  end.

(** [reject] *)
Definition reject (request : option Request) : result bool HostError :=
  match request with
  | Some (AbortWith e) => Err e
  | Some (Advance _) => Err (host_error_new EAdmission None (bytes_of "out-of-order host admission command"))
  | None => Ok false
  end.

(** The contexts' retained events, in the order of the map *)
Fixpoint context_events (contexts : btree str nat) (g : Group) : result bool HostError :=
  match contexts with
  | [] => Ok true
  | (id, i) :: rest =>
      match context g i with
      | Some m =>
          match sd_event (mo_shutdown m) with
          | Some ReadinessLost =>
              Err (host_error_new EReadinessLost (Some id) (bytes_of "readiness was lost before group activation"))
          | Some Managed.StopRequested => Ok false
          | None => context_events rest g
          end
      | None => context_events rest g
      end
  end.

(** The events that are in the channel *)
Fixpoint drain_events (events : list WorkerEvent) (g : Group) : result bool HostError * Group :=
  match events with
  | [] => (Ok true, g)
  | event :: rest =>
      match observe (Some event) (put_events rest g) with
      | (Ok false, g) => drain_events rest g
      | (Ok true, g) => (Ok false, g)
      | (Err e, g) => (Err e, g)
      end
  end.

(** [Coordinator::check_admission] *)
Definition check_admission (g : Group) : result bool HostError * Group :=
  if sh_stop (gr_shared g) then (Ok false, g) else
  match context_events (co_contexts (gr_own g)) g with
  | Ok true =>
      match drain_events (sh_events (gr_shared g)) g with
      | (Ok true, g) =>
          match join_next g with
          | (Some (i, e), g) => let '(error, g) := early_exit i e g in (Err error, g)
          | (None, g) => (Ok true, g)
          end
      | (r, g) => (r, g)
      end
  | r => (r, g)
  end.

(** ** Cleanup ([coordinator/cleanup.rs]) *)

Definition reason_of (primary : option HostError) (reason : GroupStop) : GroupStop :=
  match primary with None => SRequested | Some _ => reason end.

(** The beginning of [Coordinator::cleanup], after [run] has chosen the reason *)
Definition begin_cleanup (primary : option HostError) (reason : GroupStop) (g : Group) : Group :=
  let g := gate_call GateStop g in
  let g := match primary with Some e => record_error e g | None => g end in
  let g := note_status (with_group_phase GStopping) g in
  let g := put_ready [] (release_tickets (co_ready (gr_own g)) g) in
  let g := put_prepared [] (release_tickets (co_prepared (gr_own g)).*2 g) in
  let g := put_command (CmdStop (reason_of primary reason)) g in
  let g := foldl (λ g i, shutdown_context i g) g (co_contexts (gr_own g)).*2 in
  put_at (CoClean primary [] true) g.

(** The end of [start] without the group running *)
Definition end_startup (r : result bool HostError) (g : Group) : Group :=
  match r with
  | Ok _ => begin_cleanup None SRequested g
  | Err e => begin_cleanup (Some e) SStartupFailure g
  end.

Definition same_as_primary (primary : option HostError) (e : HostError) : bool :=
  match primary with
  | Some first => bool_decide (he_code first = he_code e) && bool_decide (he_instance first = he_instance e)
  | None => false
  end.

(** An event that arrives while tasks are joined *)
Definition clean_event (primary : option HostError) (cleanup : list HostError) (event : option WorkerEvent) (g : Group) :
  Group :=
  match event with
  | Some (EvOpened _ i) => shutdown_context i g
  | Some (EvPrepared _ ticket) => release_ticket ticket g
  | Some (EvFailure e) =>
      put_at (CoClean primary (if same_as_primary primary e then cleanup else cleanup ++ [e]) true) (record_error e g)
  | Some EvStopRequested => g
  | None => put_at (CoClean primary cleanup false) g
  end.

(** A task that ends while tasks are joined *)
Definition clean_join (primary : option HostError) (cleanup : list HostError) (open : bool) (i : nat) (e : TaskEnd)
    (g : Group) : Group :=
  let error :=
    match e with
    | TaskReturned error => error
    | TaskPanicked message => Some (host_error_new EPanic (bt_get i (co_pending (gr_own g))) message)
    end in
  let g := match error with
           | Some error => put_at (CoClean primary (cleanup ++ [error]) open) (record_error error g)
           | None => g
           end in
  match bt_remove i (co_pending (gr_own g)) with
  | (Some id, pending) =>
      note_status (update_component id (λ c,
        mkComponentStatus (match cst_error c with Some _ => CFailed | None => CStopped end) (cst_error c)))
        (put_pending pending g)
  | (None, pending) => put_pending pending g
  end.

Definition final_phase (o : LocalOutcome) : GroupPhase :=
  match o with LocalStopped => GStopped | LocalFailed _ _ => GFailed | LocalUnresponsive _ _ _ => GUnresponsive end.

(** The tickets of events that are dropped with their channel *)
Definition event_tickets (events : list WorkerEvent) : list Ticket :=
  omap (λ e, match e with EvPrepared _ t => Some t | _ => None end) events.

(** The end of [Coordinator::run], and what is dropped with the coordinator: the
    gate is stopped, the driver and the tasks are aborted, the channels close *)
Definition conclude (o : LocalOutcome) (g : Group) : Group :=
  let g := put_contexts [] g in
  let g := note_status (with_group_phase (final_phase o)) g in
  let g := gate_call GateStop (put_terminal (Some o) g) in
  let g := put_events [] (release_tickets (event_tickets (sh_events (gr_shared g))) g) in
  put_at CoDone (put_aborted true (put_control [] g)).

(** The end of [cleanup], after the step driver was joined *)
Definition finish_cleanup (primary : option HostError) (cleanup : list HostError) (g : Group) : Group :=
  match co_pending (gr_own g) with
  | [] =>
      conclude match primary, cleanup with
               | Some primary, _ => LocalFailed primary cleanup
               | None, [] => LocalStopped
               | None, primary :: cleanup => LocalFailed primary cleanup
               end g
  | pending =>
      let instances := sort_by_key id pending.*2 in
      let g := foldl (λ g id, note_status (component_phase id CUnresponsive) g) g instances in
      conclude (LocalUnresponsive primary cleanup instances) g
  end.

(** One turn while tasks are joined; [late] is whether the deadline has passed *)
Definition clean_turn (primary : option HostError) (cleanup : list HostError) (open late : bool) (g : Group) : Group :=
  match co_tasks (gr_own g) with
  | [] => put_at (CoDriver primary cleanup) g
  | _ =>
      if late then put_at (CoDriver primary cleanup) g else
      match (if open then recv_event g else (None, g)) with
      | (Some event, g) => clean_event primary cleanup event g
      | (None, g) =>
          match join_next g with
          | (Some (i, e), g) => clean_join primary cleanup open i e g
          | (None, g) => g
          end
      end
  end.

(** [join_step_driver] and what follows it *)
Definition driver_turn (primary : option HostError) (cleanup : list HostError) (late : bool) (g : Group) : Group :=
  match co_driver (gr_own g) with
  | None => finish_cleanup primary cleanup g
  | Some (DriverEnded r) =>
      let cleanup := match r with
                     | Ok _ => cleanup
                     | Err message => cleanup ++ [host_error_new EStep None message]
                     end in
      finish_cleanup primary cleanup (put_driver None g)
  | Some DriverRunning =>
      if late
      then conclude (LocalUnresponsive primary cleanup (mb_namespace <$> la_bindings (gr_launch g))) (put_driver None g)
      else g
  end.

(** ** One turn of the coordinator *)

(** The deadline of [start] *)
Definition startup_late (elapsed : bool) (g : Group) : bool := elapsed && negb (is_none (la_startup (gr_launch g))).
Definition stopping_late (elapsed : bool) (g : Group) : bool := elapsed && negb (is_none (la_stopping (gr_launch g))).

Definition startup_pending (elapsed : bool) (g : Group) : Group :=
  if startup_late elapsed g
  then begin_cleanup (Some (host_error_new ETimeout None (bytes_of "startup deadline expired"))) SStartupFailure g
  else g.

(** What [start] does with anything but the request it waits for *)
Definition startup_selected (s : Selected) (elapsed : bool) (g : Group) : Group :=
  match s with
  | SelStop => end_startup (Ok false) g
  | SelEvent (Ok false) => g
  | SelEvent r => end_startup r g
  | SelJoined e => end_startup (Err e) g
  | SelRequest r => end_startup (reject r) g
  | SelPending => startup_pending elapsed g
  end.

(** [start]: every ticket is there *)
Definition publish_reports (g : Group) : Group :=
  match check_admission g with
  | (Ok true, g) =>
      let g := put_reports (Some (tk_report <$> (co_prepared (gr_own g)).*2)) g in
      put_at (CoWait StageCommit) (note_status (with_group_phase GPrepared) g)
  | (r, g) => end_startup r g
  end.

(** [start]: one turn of the loop that commits; [declared] is what the engine
    answers to the declaration of readiness *)
Definition commit_next (b : ModuleBindings) (rest : list ModuleBindings) (declared : result unit str) (g : Group) :
  Group :=
  if sh_stop (gr_shared g) then end_startup (Ok false) g else
  let id := mb_namespace b in
  match bt_get id (co_contexts (gr_own g)) with
  | None => end_startup (Err (host_error_new EAdmission (Some id) (bytes_of "missing hosted context"))) g
  | Some i =>
      match bt_remove id (co_prepared (gr_own g)) with
      | (None, _) => end_startup (Err (host_error_new EAdmission (Some id) (bytes_of "missing prepared ticket"))) g
      | (Some ticket, prepared) =>
          let g := put_prepared prepared g in
          match context g i with
          | None => g
          | Some m =>
              match commit_admission m ticket declared with
              | (Err e, m) =>
                  end_startup (Err (host_error_new EActivate (Some id) (admission_display e))) (on_context i (λ _, m) g)
              | (Ok ready, m) =>
                  let g := put_ready (co_ready (gr_own g) ++ [ready]) (on_context i (λ _, m) g) in
                  put_at (CoCommit rest) (note_status (component_phase id CReady) g)
              end
          end
      end
  end.

(** [start]: every ticket is committed *)
Definition finish_commit (g : Group) : Group :=
  match check_admission g with
  | (Ok true, g) =>
      let g := note_status (with_group_phase GCommitted) g in
      put_at (CoWait StageActivate) (put_acks (sh_acks (gr_shared g) ++ [StageCommit]) g)
  | (r, g) => end_startup r g
  end.

(** [start]: the group is released *)
Definition activate_group (g : Group) : Group :=
  match check_admission g with
  | (Ok true, g) =>
      let g := gate_call GateActivate g in
      let g := put_command CmdRun (note_status (with_group_phase GRunning) g) in
      put_at (CoServe true) (put_acks (sh_acks (gr_shared g) ++ [StageActivate]) g)
  | (r, g) => end_startup r g
  end.

(** [wait_stage] *)
Definition wait_turn (stage : Stage) (elapsed : bool) (g : Group) : Group :=
  match select true g with
  | (SelRequest (Some (Advance s)), g) =>
      if bool_decide (s = stage)
      then match stage with
           | StageCommit => put_at (CoCommit (la_bindings (gr_launch g))) g
           | StageActivate => activate_group g
           end
      else end_startup (reject (Some (Advance s))) g
  | (s, g) => startup_selected s elapsed g
  end.

(** [serve] *)
Definition serve_turn (controller_open : bool) (g : Group) : Group :=
  match select controller_open g with
  | (SelStop, g) => begin_cleanup None SRequested g
  | (SelEvent (Ok false), g) => g
  | (SelEvent (Ok true), g) => begin_cleanup None SRequested g
  | (SelEvent (Err e), g) => begin_cleanup (Some e) SComponentFailure g
  | (SelJoined e, g) => begin_cleanup (Some e) SComponentFailure g
  | (SelRequest (Some (AbortWith e)), g) => begin_cleanup (Some e) SComponentFailure g
  | (SelRequest (Some (Advance _)), g) =>
      begin_cleanup (Some (host_error_new EAdmission None (bytes_of "host is already running"))) SComponentFailure g
  | (SelRequest None, g) => put_at (CoServe false) g
  | (SelPending, g) => g
  end.

Definition coordinator_turn (elapsed : bool) (declared : result unit str) (g : Group) : Group :=
  match co_at (gr_own g) with
  | CoCollect =>
      if length (co_prepared (gr_own g)) <? length (la_bindings (gr_launch g))
      then let '(s, g) := select true g in startup_selected s elapsed g
      else publish_reports g
  | CoWait stage => wait_turn stage elapsed g
  | CoCommit [] => finish_commit g
  | CoCommit (b :: rest) => commit_next b rest declared g
  | CoServe controller_open => serve_turn controller_open g
  | CoClean primary cleanup open => clean_turn primary cleanup open (stopping_late elapsed g) g
  | CoDriver primary cleanup => driver_turn primary cleanup (stopping_late elapsed g) g
  | CoDone => g
  end.

(** ** Workers ([worker.rs], [worker/control.rs]) *)

(** What a hook does by the next turn *)
Inductive HookReply : Type := HookPending | HookOk | HookErr (message : str) | HookPanics.

(** [guarded] *)
Definition guarded (id : str) (c : HostErrorCode) (reply : HookReply) : option (result unit HostError) :=
  match reply with
  | HookPending => None
  | HookOk => Some (Ok tt)
  | HookErr message => Some (Err (host_error_new c (Some id) message))
  | HookPanics => Some (Err (host_error_new EPanic (Some id) (bytes_of "component operation panicked")))
  end.

Inductive Interrupted : Type :=
  | IStop (reason : GroupStop) | IHosted (event : HostedEvent) | IFailure (e : HostError).

Definition stop_command (g : Group) : option GroupStop :=
  match sh_command (gr_shared g) with CmdStop reason => Some reason | _ => None end.

Definition hosted (i : nat) (g : Group) : option HostedEvent :=
  match context g i with Some m => sd_event (mo_shutdown m) | None => None end.

(** [Monitor::during]: [None] is pending *)
Definition during {A} (i : nat) (reply : option (result A HostError)) (g : Group) : option (result A Interrupted) * Group :=
  match stop_command g, hosted i g, reply with
  | Some reason, _, _ => (Some (Err (IStop reason)), gate_call GateStop g)
  | None, Some event, _ => (Some (Err (IHosted event)), gate_call GateStop g)
  | None, None, None => (None, g)
  | None, None, Some (Ok a) => (Some (Ok a), g)
  | None, None, Some (Err e) => (Some (Err (IFailure e)), gate_call GateStop g)
  end.

Definition move_worker (i : nat) (at_ : WorkerAt) (g : Group) : Group := put_workers (<[i := at_]> (gr_workers g)) g.

(** A task that ends: it leaves its handle in the set *)
Definition end_worker (i : nat) (e : TaskEnd) (g : Group) : Group :=
  put_joined (co_joined (gr_own g) ++ [(i, e)]) (move_worker i (AtExit e) g).

(** [mpsc::channel(instances.len().saturating_mul(3))] *)
Definition event_capacity (g : Group) : nat := length (la_bindings (gr_launch g)) * 3.

(** [events.send(event)]: whether the channel took it; [None] waits for room *)
Definition send_event (event : WorkerEvent) (g : Group) : option (bool * Group) :=
  if done g then Some (false, release_tickets (event_tickets [event]) g)
  else if length (sh_events (gr_shared g)) <? event_capacity g
       then Some (true, put_events (sh_events (gr_shared g) ++ [event]) g)
       else None.

(** [finish_interruption], up to its wait: [Some] is a reason that is known *)
Definition finish_interruption (id : str) (i : Interrupted) (g : Group) : option (option GroupStop * Group) :=
  let send event :=
    match send_event event g with
    | Some (true, g) => Some (None, g)
    | Some (false, g) => Some (Some SRequested, g)
    | None => None
    end in
  match i with
  | IStop reason => Some (Some reason, g)
  | IHosted Managed.StopRequested => send EvStopRequested
  | IHosted ReadinessLost =>
      send (EvFailure (host_error_new EReadinessLost (Some id) (bytes_of "a prepared or ready endpoint was dropped")))
  | IFailure e => send (EvFailure e)
  end.

(** [Lifecycle::run] after a stop reason is known *)
Definition stop_worker (i : nat) (id : str) (reason : GroupStop) (panicked : bool) (g : Group) : Group :=
  let g := shutdown_context i g in
  if panicked then end_worker i (TaskReturned None) g
  else move_worker i (AtStop reason) (note_status (component_phase id CStopping) g).

(** [Lifecycle::run] after an interruption *)
Definition interrupt_worker (i : nat) (id : str) (interrupted : Interrupted) (g : Group) : option Group :=
  let panicked := match interrupted with IFailure e => bool_decide (he_code e = EPanic) | _ => false end in
  match finish_interruption id interrupted g with
  | Some (Some reason, g) => Some (stop_worker i id reason panicked g)
  | Some (None, g) => Some (move_worker i (AtFinish panicked) g)
  | None => None
  end.

(** [Worker::run] after an interruption of the factory *)
Definition abandon_worker (i : nat) (id : str) (interrupted : Interrupted) (g : Group) : option Group :=
  match finish_interruption id interrupted g with
  | Some (Some _, g) => Some (end_worker i (TaskReturned None) (shutdown_context i g))
  | Some (None, g) => Some (move_worker i AtCreateFailed g)
  | None => None
  end.

(** [Worker::run]: the context opens *)
Definition opened_worker (i : nat) (id : str) (m : Module_) (g : Group) : option Group :=
  let m := if la_gated (gr_launch g) then with_shutdown m (attach_step_gate (mo_shutdown m)) else m in
  let g := put_modules (<[i := Some m]> (gr_modules g)) g in
  match send_event (EvOpened id i) g with
  | Some (true, g) => Some (move_worker i AtCreate g)
  | Some (false, g) => Some (end_worker i (TaskReturned None) (shutdown_context i g))
  | None => None
  end.

(** [Worker::run]: the context does not open *)
Definition unopened_worker (i : nat) (e : HostError) (g : Group) : option Group :=
  match send_event (EvFailure e) g with
  | Some (true, g) => Some (move_worker i AtOpenFailed g)
  | Some (false, g) => Some (end_worker i (TaskReturned None) g)
  | None => None
  end.

Definition open_turn (i : nat) (b : ModuleBindings) (reply : HookReply) (g : Group) : option Group :=
  let id := mb_namespace b in
  let open started := open_hosted i (la_domain (gr_launch g)) b (la_liveliness (gr_launch g)) started in
  match stop_command g with
  | Some _ => Some (end_worker i (TaskReturned None) g)
  | None =>
      match reply with
      | HookPending => Some g
      | HookPanics => unopened_worker i (host_error_new EPanic (Some id) (bytes_of "component operation panicked")) g
      | HookOk | HookErr _ =>
          match open (match reply with HookErr message => Err message | _ => Ok tt end) with
          | Ok m => opened_worker i id m g
          | Err e => unopened_worker i (host_error_new EContextOpen (Some id) (admission_display e)) g
          end
      end
  end.

(** [Lifecycle::run]: the ticket *)
Definition admit_turn (i : nat) (id : str) (g : Group) : option Group :=
  match context g i with
  | None => Some g
  | Some m =>
      let '(r, m) := prepare_admission m in
      match during i (Some (map_err (λ e, host_error_new EAdmission (Some id) (admission_display e)) r)) g with
      | (Some (Ok ticket), g) =>
          let g := note_status (component_phase id CPrepared) (on_context i (λ _, m) g) in
          match send_event (EvPrepared id ticket) g with
          | Some (true, g) => Some (move_worker i AtActivation g)
          | Some (false, g) => interrupt_worker i id (IStop SRequested) g
          | None => None
          end
      | (Some (Err interrupted), g) => interrupt_worker i id interrupted g
      | (None, g) => Some g
      end
  end.

(** [Monitor::activation] *)
Definition activation_turn (i : nat) (id : str) (g : Group) : option Group :=
  match hosted i g, sh_command (gr_shared g) with
  | Some event, _ => interrupt_worker i id (IHosted event) g
  | None, CmdPrepare => Some g
  | None, CmdRun => Some (move_worker i AtRun (note_status (component_phase id CRunning) g))
  | None, CmdStop reason => interrupt_worker i id (IStop reason) g
  end.

(** A hook under the monitor, and what follows when it succeeds *)
Definition hook_turn (i : nat) (id : str) (c : HostErrorCode) (reply : HookReply) (next : Group → option Group) (g : Group) :
  option Group :=
  match during i (guarded id c reply) g with
  | (Some (Ok _), g) => next g
  | (Some (Err interrupted), g) => interrupt_worker i id interrupted g
  | (None, g) => Some g
  end.

(** One turn of worker [i]; [None] would be a wait for room in the channel *)
Definition worker_turn (i : nat) (reply : HookReply) (g : Group) : option Group :=
  match la_bindings (gr_launch g) !! i, worker_at g i with
  | Some b, Some at_ =>
      let id := mb_namespace b in
      if co_aborted (gr_own g) then Some g else
      match at_ with
      | AtOpen => open_turn i b reply g
      | AtOpenFailed =>
          match stop_command g with Some _ => Some (end_worker i (TaskReturned None) g) | None => Some g end
      | AtCreate =>
          match during i (guarded id EFactory reply) g with
          | (Some (Ok _), g) => Some (move_worker i AtPrepare (note_status (component_phase id CPreparing) g))
          | (Some (Err interrupted), g) => abandon_worker i id interrupted g
          | (None, g) => Some g
          end
      | AtCreateFailed =>
          match stop_command g with
          | Some _ => Some (end_worker i (TaskReturned None) (shutdown_context i g))
          | None => Some g
          end
      | AtPrepare => hook_turn i id EPrepare reply (λ g, Some (move_worker i AtAdmit g)) g
      | AtAdmit => admit_turn i id g
      | AtActivation => activation_turn i id g
      | AtRun =>
          hook_turn i id ERun reply (λ g,
            interrupt_worker i id (IFailure (host_error_new EUnexpectedExit (Some id)
              (bytes_of "run returned before shutdown"))) g) g
      | AtFinish panicked =>
          match stop_command g with Some reason => Some (stop_worker i id reason panicked g) | None => Some g end
      | AtStop _ =>
          match guarded id EStopHook reply with
          | Some r => Some (end_worker i (TaskReturned (match r with Ok _ => None | Err e => Some e end)) g)
          | None => Some g
          end
      | AtExit _ => Some g
      end
  | _, _ => Some g
  end.

(** ** The controller of a local launch ([staged.rs]) *)

(** The error in a terminal outcome, as [terminal_error] and [wait_running] give it *)
Definition outcome_error (o : LocalOutcome) (stopped : str) : HostError :=
  match o with
  | LocalFailed primary _ | LocalUnresponsive (Some primary) _ _ => primary
  | LocalStopped => host_error_new ECancelled None stopped
  | LocalUnresponsive None _ _ =>
      host_error_new ETimeout None (bytes_of "host did not join before its stop deadline")
  end.

(** The entries of [admit_local] *)
Definition graph_entry (reports : list ModuleReport) (b : ModuleBindings) : result ReportEntry HostError :=
  match find (λ r, bool_decide (mr_namespace r = mb_namespace b)) reports with
  | Some r => Ok (mkEntry b r)
  | None => Err (host_error_new EAdmission (Some (mb_namespace b)) (bytes_of "missing prepared report"))
  end.

Definition graph_entries (bindings : list ModuleBindings) (reports : list ModuleReport) :
  result (list ReportEntry) HostError :=
  for_fold (λ entries b, let? e := graph_entry reports b in Ok (entries ++ [e])) [] bindings.

(** The validation of [admit_local]; [display] is the text of a report error.
    [None] is a panic of the validator. *)
Definition admit_graph (display : ReportError → str) (bindings : list ModuleBindings) (reports : list ModuleReport) :
  option (result unit HostError) :=
  match graph_entries bindings reports with
  | Err e => Some (Err e)
  | Ok entries =>
      match validate_graph entries with
      | None => None
      | Some r => Some (map_err (λ e, mkHostError EGraph (er_module e) (display e) (Some e)) r)
      end
  end.

(** [requests.send]: a channel of one; [None] waits, [Some false] is a closed one *)
Definition send_request (r : Request) (g : Group) : option (bool * Group) :=
  if done g then Some (false, g)
  else match sh_control (gr_shared g) with
       | [] => Some (true, put_control [r] g)
       | _ => None
       end.

(** One turn of [admit_local] *)
Definition controller_turn (display : ReportError → str) (g : Group) : Group :=
  match gr_controller g with
  | KReports =>
      match sh_terminal (gr_shared g), sh_reports (gr_shared g) with
      | Some _, _ => put_controller KGone g
      | None, Some reports =>
          match admit_graph display (la_bindings (gr_launch g)) reports with
          | Some (Ok _) => put_controller (KSend (Advance StageCommit)) g
          | Some (Err e) => put_controller (KSend (AbortWith e)) g
          | None => put_controller KGone g
          end
      | None, None => g
      end
  | KSend r =>
      match send_request r g with
      | Some (true, g) => put_controller match r with Advance stage => KAwait stage | AbortWith _ => KGone end g
      | Some (false, g) => put_controller KGone g
      | None => g
      end
  | KAwait stage =>
      match sh_terminal (gr_shared g) with
      | Some _ => put_controller KGone g
      | None =>
          if bool_decide (stage ∈ sh_acks (gr_shared g))
          then put_controller match stage with StageCommit => KSend (Advance StageActivate) | StageActivate => KGone end g
          else g
      end
  | KExternal | KGone => g
  end.

(** ** The handle ([handle.rs]) *)

(** [HostHandle::stop] without its wait, and [Drop] *)
Definition handle_stop (g : Group) : Group := put_stop true (gate_call GateStop g).

(** What [HostHandle::wait_running] gives at the current status; [None] waits *)
Definition wait_running (g : Group) : option (result unit HostError) :=
  match gs_phase (sh_status (gr_shared g)) with
  | GRunning => Some (Ok tt)
  | GStarting | GPrepared | GCommitted => None
  | _ => (λ o, Err (outcome_error o (bytes_of "host stopped before running"))) <$> sh_terminal (gr_shared g)
  end.

(** ** Launching ([host.rs], [mod.rs]) *)

Record ComponentRegistry : Type := mkComponentRegistry {
  cr_factories : btree str unit;
  cr_step_factories : btree str unit;
}.

Definition duplicate_factory (message : str) : HostError := host_error_new EDuplicateFactory None message.

(** [ComponentRegistry::register], [register_step] *)
Definition register_component (self : ComponentRegistry) (id : str) : result unit HostError * ComponentRegistry :=
  if bt_contains id (cr_step_factories self) then (Err (duplicate_factory (bytes_of "factory is already registered")), self)
  else match bt_insert id tt (cr_factories self) with
       | (None, factories) => (Ok tt, mkComponentRegistry factories (cr_step_factories self))
       | (Some _, _) =>
           (Err (duplicate_factory (quoting (bytes_of "factory ") id (bytes_of " is already registered"))), self)
       end.
Definition register_step_component (self : ComponentRegistry) (id : str) : result unit HostError * ComponentRegistry :=
  if bt_contains id (cr_factories self) || bt_contains id (cr_step_factories self)
  then (Err (duplicate_factory (bytes_of "factory is already registered")), self)
  else (Ok tt, mkComponentRegistry (cr_factories self) (bt_insert id tt (cr_step_factories self)).2).

Record InstanceSpec : Type := mkInstanceSpec {
  in_factory : str;
  in_bindings : ModuleBindings;
  in_config_origin : option path;
}.

Definition host_ensure (condition : bool) (e : HostError) : result unit HostError := if condition then Ok tt else Err e.

(** One instance of [validate]; [ids] are the namespaces before it *)
Definition validate_instance (registry : ComponentRegistry) (ids : btree str unit) (x : InstanceSpec) :
  result (btree str unit) HostError :=
  let b := in_bindings x in
  let id := mb_namespace b in
  let? _ := host_ensure (match in_config_origin x with Some p => is_absolute p | None => true end)
              (host_error_new EInvalidOptions (Some id) (bytes_of "config origin must be absolute")) in
  let '(new, ids) := bs_insert id ids in
  let? _ := host_ensure new (host_error_new EDuplicateInstance (Some id) (bytes_of "duplicate namespace")) in
  let? _ := host_ensure (bt_contains (in_factory x) (cr_factories registry))
              (host_error_new EUnknownFactory (Some id) (in_factory x)) in
  let? _ := map_err (λ e, host_error_new EInvalidBindings (Some id) (be_message e)) (bindings_validate b) in
  let? _ := host_ensure (bool_decide (mb_namespace b = mb_endpoint_namespace b)
                         && bool_decide (length (mb_children b) = 0) && bool_decide (length (mb_executables b) = 0))
              (host_error_new EInvalidBindings (Some id)
                 (bytes_of "hosted instances must be top-level modules without children or executables")) in
  Ok ids.

(** A deadline that can be used; [limit] is the greatest instant *)
Definition deadline_ok (limit now : Z) (timeout : option Z) : bool :=
  match timeout with Some t => negb (t =? 0)%Z && (now + t <=? limit)%Z | None => true end.

(** [validate] *)
Definition group_validate (limit now : Z) (registry : ComponentRegistry) (domain : str) (startup stopping : option Z)
    (instances : list InstanceSpec) : result unit HostError :=
  let? _ := host_ensure (negb (bool_decide (length instances = 0)))
              (host_error_new EEmptyGraph None (bytes_of "empty component graph")) in
  let? _ := host_ensure (validate_segment domain) (host_error_new EInvalidOptions None (bytes_of "invalid domain")) in
  let? _ := host_ensure (deadline_ok limit now startup && deadline_ok limit now stopping)
              (host_error_new EInvalidOptions None (bytes_of "deadlines must be positive and representable")) in
  let? _ := for_fold (validate_instance registry) [] instances in
  Ok tt.

(** The group as [prepare_steps] spawns it *)
Definition group_new (l : Launch) (driver : bool) (controller : Controller) : Group :=
  let ids := mb_namespace <$> la_bindings l in
  let n := length (la_bindings l) in
  mkGroup l
    (mkShared (mkGroupStatus GStarting (bt_collect ((λ id, (id, mkComponentStatus CStarting None)) <$> ids)))
       false None CmdPrepare [] [] None [] [])
    (mkCoordinator (seq 0 n) [] (bt_collect (zip (seq 0 n) ids)) [] [] []
       (if driver then Some DriverRunning else None) false CoCollect)
    (replicate n AtOpen) (replicate n None) controller.

(** [prepare_steps], and [launch] with its controller; [runtime] is whether there is
    a runtime *)
Definition launch_group (limit now : Z) (registry : ComponentRegistry) (domain : str) (liveliness : bool)
    (startup stopping : option Z) (instances : list InstanceSpec) (driver : bool) (runtime : result unit str)
    (controller : Controller) : result Group HostError :=
  let? _ := group_validate limit now registry domain startup stopping instances in
  let? _ := map_err (host_error_new ENoRuntime None) runtime in
  Ok (group_new (mkLaunch (in_bindings <$> instances) domain liveliness startup stopping driver) driver controller).

(** ** Steps of the group *)

(** What component code and the network do to a context *)
Inductive ContextAct : Type :=
  | ActOpen (name : str) (input : bool) (spec : OpenSpec) (built : result unit str)
  | ActDrop (live : nat)
  | ActStop.

Definition context_act (a : ContextAct) (m : Module_) : Module_ :=
  match a with
  | ActOpen name input spec built => (open_port m name input spec built).2
  | ActDrop live => if bool_decide (live ∈ mo_alive m) then drop_port m live else m
  | ActStop => with_shutdown m (trigger (mo_shutdown m))
  end.

Inductive GroupStep : Type :=
  | TCoordinator (elapsed : bool) (declared : result unit str)
  | TWorker (i : nat) (reply : HookReply)
  | TWorkerPanics (i : nat) (message : str)
  | TContext (i : nat) (a : ContextAct)
  | TController
  | TRequest (r : Request)     (* a controller outside this crate *)
  | TAbandon                   (* and its end *)
  | TDriverAborts (e : HostError)
  | TDriverEnds (r : result unit str)
  | TStop.

Definition worker_live (g : Group) (i : nat) : bool :=
  match worker_at g i with Some w => negb (exited w) && negb (co_aborted (gr_own g)) | None => false end.

Definition driver_live (g : Group) : bool :=
  match co_driver (gr_own g) with Some DriverRunning => true | _ => false end.

Definition send_or_wait (r : Request) (g : Group) : Group :=
  match send_request r g with Some (_, g) => g | None => g end.

Definition group_step (display : ReportError → str) (g : Group) (s : GroupStep) : Group :=
  match s with
  | TCoordinator elapsed declared => coordinator_turn elapsed declared g
  | TWorker i reply => default g (worker_turn i reply g)
  | TWorkerPanics i message => if worker_live g i then end_worker i (TaskPanicked message) g else g
  | TContext i a => on_context i (context_act a) g
  | TController => controller_turn display g
  | TRequest r => match gr_controller g with KExternal => send_or_wait r g | _ => g end
  | TAbandon => match gr_controller g with KExternal => put_controller KGone g | _ => g end
  | TDriverAborts e => if driver_live g then send_or_wait (AbortWith e) g else g
  | TDriverEnds r => if driver_live g then put_driver (Some (DriverEnded r)) g else g
  | TStop => handle_stop g
  end.

Definition group_run (display : ReportError → str) (g : Group) (l : list GroupStep) : Group :=
  foldl (group_step display) g l.
