(* ===== verification/GroupSteps.v ===== *)
(** * GroupSteps: what one turn of a task does to a group

    The operations in a normal form, a field of the state at a time; the moves of
    a worker as a relation between the places where it waits; and the effect of a
    turn of the coordinator on its own fields. *)

From Stdlib Require Import ZArith Lia.
From S2P Require Import Prelude Text Btree Core Bindings Report EngineKey HostMessages EngineLocal LaunchTypes Managed Group.

(** ** Normal forms *)

Lemma put_modules_id g : put_modules (gr_modules g) g = g.
Proof. by destruct g. Qed.
Lemma put_status_id g : put_status (sh_status (gr_shared g)) g = g.
Proof. by destruct g as [? [] ]. Qed.
Lemma put_calls_id g : put_calls (sh_calls (gr_shared g)) g = g.
Proof. by destruct g as [? [] ]. Qed.
Lemma put_modules_twice x y g : put_modules x (put_modules y g) = put_modules x g.
Proof. done. Qed.

Lemma gate_call_put c g : ∃ calls, gate_call c g = put_calls calls g.
Proof. unfold gate_call. destruct (la_gated _); [by eexists|]. exists (sh_calls (gr_shared g)). by rewrite put_calls_id. Qed.

Lemma on_context_put i f g :
  ∃ ms, on_context i f g = put_modules ms g ∧ length ms = length (gr_modules g) ∧
    ∀ j, j ≠ i → ms !! j = gr_modules g !! j.
Proof.
  unfold on_context. destruct (context g i) as [m|].
  - eexists. split; [done|]. split; [by rewrite length_insert|]. intros j Hj. by rewrite list_lookup_insert_ne.
  - exists (gr_modules g). by rewrite put_modules_id.
Qed.

Lemma on_context_put' i f g : ∃ ms, on_context i f g = put_modules ms g ∧ length ms = length (gr_modules g).
Proof. destruct (on_context_put i f g) as (ms&?&?&_). by exists ms. Qed.

Lemma release_tickets_put l g : ∃ ms, release_tickets l g = put_modules ms g ∧ length ms = length (gr_modules g).
Proof.
  revert g. induction l as [|t l IH]; intros g; [exists (gr_modules g); by rewrite put_modules_id|].
  change (release_tickets (t :: l) g) with (release_tickets l (release_ticket t g)).
  destruct (on_context_put' (tk_ports t) (λ m, drop_ticket m t) g) as (ms&E&Hl). unfold release_ticket. rewrite E.
  destruct (IH (put_modules ms g)) as (ms'&E'&Hl'). rewrite E'. exists ms'. split; [done|]. cbn in Hl'. lia.
Qed.

Lemma shutdown_all_put l g :
  ∃ ms, foldl (λ g i, shutdown_context i g) g l = put_modules ms g ∧ length ms = length (gr_modules g).
Proof.
  revert g. induction l as [|i l IH]; intros g; [exists (gr_modules g); by rewrite put_modules_id|].
  cbn [foldl]. unfold shutdown_context at 2. destruct (on_context_put' i (λ m, with_shutdown m (trigger (mo_shutdown m))) g) as (ms&E&Hl).
  rewrite E. destruct (IH (put_modules ms g)) as (ms'&E'&Hl'). rewrite E'. exists ms'. split; [done|]. cbn in Hl'. lia.
Qed.

(** ** The moves of a worker *)

(** An event that is not about a context or a ticket *)
Definition plain (e : WorkerEvent) : Prop :=
  match e with EvFailure _ | EvStopRequested => True | _ => False end.

(** In the lifecycle of a component *)
Definition in_life (a : WorkerAt) : bool :=
  match a with AtPrepare | AtAdmit | AtActivation | AtRun => true | _ => false end.

(** The move of worker [i] with id [id] in the group [g]: where it waited, where
    it waits next and the events it would send. *)
Inductive moves (g : Group) (i : nat) (id : str) : WorkerAt → WorkerAt → list WorkerEvent → Prop :=
  | mv_open : moves g i id AtOpen AtCreate [EvOpened id i]
  | mv_unopened e : moves g i id AtOpen AtOpenFailed [EvFailure e]
  | mv_create : moves g i id AtCreate AtPrepare []
  | mv_abandon ev : plain ev → moves g i id AtCreate AtCreateFailed [ev]
  | mv_prepare : moves g i id AtPrepare AtAdmit []
  | mv_admit t m m' :
      context g i = Some m → prepare_admission m = (Ok t, m') → moves g i id AtAdmit AtActivation [EvPrepared id t]
  | mv_run : sh_command (gr_shared g) = CmdRun → moves g i id AtActivation AtRun []
  | mv_finish a ev p : in_life a = true → plain ev → moves g i id a (AtFinish p) [ev]
  | mv_stop a r : in_life a = true ∨ (∃ p, a = AtFinish p) → moves g i id a (AtStop r) []
  | mv_exit a : exited a = false → moves g i id a (AtExit (TaskReturned None)) []
  | mv_stop_fails e r : moves g i id (AtStop r) (AtExit (TaskReturned (Some e))) [].

(** What a turn of worker [i] does to its context *)
Inductive context_moves (l : Launch) (i : nat) (b : ModuleBindings) : option Module_ → option Module_ → Prop :=
  | cm_same o : context_moves l i b o o
  | cm_open o m started :
      open_hosted i (la_domain l) b (la_liveliness l) started = Ok m →
      context_moves l i b o (Some (if la_gated l then with_shutdown m (attach_step_gate (mo_shutdown m)) else m))
  | cm_trigger m : context_moves l i b (Some m) (Some (with_shutdown m (trigger (mo_shutdown m))))
  | cm_admit m t m' : prepare_admission m = (Ok t, m') → context_moves l i b (Some m) (Some m').

(** Phases noted in a status *)
Definition note_phases (l : list (str * ComponentPhase)) (s : GroupStatus) : GroupStatus :=
  foldl (λ s e, component_phase e.1 e.2 s) s l.

(** What else a turn of a worker changes *)
Record effect (i : nat) (b : ModuleBindings) (a a' : WorkerAt) (sent : list WorkerEvent) (g g' : Group) : Prop := {
  ef_sent : sent ≠ [] → done g = false ∧ length (sh_events (gr_shared g)) < event_capacity g;
  ef_launch : gr_launch g' = gr_launch g;
  ef_workers : gr_workers g' = <[i := a']> (gr_workers g);
  ef_controller : gr_controller g' = gr_controller g;
  ef_own : gr_own g' =
    gr_own (put_joined (co_joined (gr_own g) ++ match a' with AtExit e => [(i, e)] | _ => [] end) g);
  ef_shared : ∃ l calls, gr_shared g' =
    gr_shared (put_calls calls (put_status (note_phases l (sh_status (gr_shared g)))
      (put_events (sh_events (gr_shared g) ++ sent) g)));
  ef_modules : length (gr_modules g') = length (gr_modules g);
  ef_others j : done g = false → j ≠ i → gr_modules g' !! j = gr_modules g !! j;
  ef_context : done g = false → i < length (gr_modules g) →
    context_moves (gr_launch g) i b (context g i) (context g' i) ∧
    (a ≠ AtOpen → is_Some (context g i) → is_Some (context g' i));
}.

(** The state of a turn before the worker moves *)
Record partial (i : nat) (b : ModuleBindings) (a : WorkerAt) (sent : list WorkerEvent) (g g' : Group) : Prop := {
  pa_sent : sent ≠ [] → done g = false ∧ length (sh_events (gr_shared g)) < event_capacity g;
  pa_launch : gr_launch g' = gr_launch g;
  pa_workers : gr_workers g' = gr_workers g;
  pa_controller : gr_controller g' = gr_controller g;
  pa_own : gr_own g' = gr_own g;
  pa_shared : ∃ l calls, gr_shared g' =
    gr_shared (put_calls calls (put_status (note_phases l (sh_status (gr_shared g)))
      (put_events (sh_events (gr_shared g) ++ sent) g)));
  pa_modules : length (gr_modules g') = length (gr_modules g);
  pa_others j : done g = false → j ≠ i → gr_modules g' !! j = gr_modules g !! j;
  pa_context : done g = false → i < length (gr_modules g) →
    context_moves (gr_launch g) i b (context g i) (context g' i) ∧
    (a ≠ AtOpen → is_Some (context g i) → is_Some (context g' i));
}.

Lemma note_phases_app l c p s : note_phases (l ++ [(c, p)]) s = component_phase c p (note_phases l s).
Proof. unfold note_phases. by rewrite foldl_app. Qed.

Section turn.
Context (i : nat) (b : ModuleBindings) (a : WorkerAt) (g : Group).

Lemma partial_refl : partial i b a [] g g.
Proof.
  split; try done.
  - exists [], (sh_calls (gr_shared g)). cbn. rewrite app_nil_r. by destruct g as [? [] ].
  - intros _ _. split; [constructor|done].
Qed.

Lemma partial_gate c sent g' : partial i b a sent g g' → partial i b a sent g (gate_call c g').
Proof.
  intros [H1 H2 H3 H4 H5 (l&calls&H6) H7 H8 H9]. destruct (gate_call_put c g') as [calls' ->]. split; try done.
  exists l, calls'. cbn. rewrite H6. done.
Qed.

Lemma partial_phase c p sent g' :
  partial i b a sent g g' → partial i b a sent g (note_status (component_phase c p) g').
Proof.
  intros [H1 H2 H3 H4 H5 (l&calls&H6) H7 H8 H9]. split; try done.
  exists (l ++ [(c, p)]), calls. cbn. rewrite note_phases_app, H6. done.
Qed.

(** The context, which the turn has not touched so far, changes. *)
Lemma partial_context f sent g' :
  partial i b a sent g g' → (done g = false → gr_modules g' = gr_modules g) →
  (∀ m, context_moves (gr_launch g) i b (Some m) (Some (f m))) →
  partial i b a sent g (on_context i f g').
Proof.
  intros [H1 H2 H3 H4 H5 H6 H7 H8 H9] Hsame Hf. destruct (on_context_put i f g') as (ms&E&Hl&Ho).
  split; rewrite ?E; try done.
  - cbn. lia.
  - cbn. intros j Hd Hj. rewrite Ho by done. by apply H8.
  - intros Hd Hi. rewrite <- E. specialize (Hsame Hd). unfold on_context, context in *. rewrite Hsame.
    destruct (gr_modules g !! i) as [[m|]|] eqn:Em.
    + cbn. rewrite list_lookup_insert_eq by (by eapply lookup_lt_Some). split; [apply Hf|done].
    + rewrite Hsame, Em. split; [constructor|done].
    + rewrite Hsame, Em. split; [constructor|done].
Qed.

Lemma partial_shutdown sent g' :
  partial i b a sent g g' → (done g = false → gr_modules g' = gr_modules g) →
  partial i b a sent g (shutdown_context i g').
Proof. intros Hp Hs. apply partial_context; [done|done|]. constructor. Qed.

Lemma partial_closed ts g' : partial i b a [] g g' → done g = true → partial i b a [] g (release_tickets ts g').
Proof.
  intros [H1 H2 H3 H4 H5 H6 H7 H8 H9] Hd. destruct (release_tickets_put ts g') as (ms&->&Hl).
  split; try done; try congruence. cbn. lia.
Qed.

Lemma partial_move sent g' a' :
  partial i b a sent g g' → exited a' = false → effect i b a a' sent g (move_worker i a' g').
Proof.
  intros [H1 H2 H3 H4 H5 H6 H7 H8 H9] He. split; try done; cbn.
  - by rewrite H3.
  - rewrite H5. destruct a'; try done; rewrite app_nil_r; by destruct (gr_own g).
Qed.

Lemma partial_end sent g' e : partial i b a sent g g' → effect i b a (AtExit e) sent g (end_worker i e g').
Proof.
  intros [H1 H2 H3 H4 H5 H6 H7 H8 H9]. split; try done; cbn.
  - by rewrite H3.
  - by rewrite H5.
Qed.

Lemma partial_send event g' ok g'' :
  partial i b a [] g g' → send_event event g' = Some (ok, g'') →
  if ok then partial i b a [event] g g'' ∧ gr_modules g'' = gr_modules g'
  else done g = true ∧ partial i b a [] g g''.
Proof.
  intros Hp. pose proof Hp as [H1 H2 H3 H4 H5 (l&calls&H6) H7 H8 H9]. unfold send_event.
  assert (Hdone : done g' = done g) by (unfold done; by rewrite H5).
  rewrite Hdone. destruct (done g) eqn:Ed.
  - intros [= <- <-]. split; [done|]. by apply partial_closed.
  - assert (Hev : sh_events (gr_shared g') = sh_events (gr_shared g)) by (rewrite H6; cbn; apply app_nil_r).
    assert (Hcap : event_capacity g' = event_capacity g) by (unfold event_capacity; by rewrite H2).
    rewrite Hev, Hcap. destruct (Nat.ltb_spec (length (sh_events (gr_shared g))) (event_capacity g)) as [Hlt|]; [|done].
    intros [= <- <-]. split; [|done]. split; try done.
    + exists l, calls. cbn. rewrite H6. done.
    + intros j _. by apply H8.
    + intros _. by apply H9.
Qed.
End turn.

Create HintDb group.
#[local] Hint Resolve partial_refl partial_gate partial_phase partial_shutdown : group.

(** A reply under the monitor, and the state after it *)
Lemma during_partial {A} i b a (reply : option (result A HostError)) g g' r :
  during i reply g = (r, g') → partial i b a [] g g' ∧ gr_modules g' = gr_modules g ∧
    (r = None → g' = g) ∧ (∀ x, r = Some (Ok x) → g' = g ∧ reply = Some (Ok x)).
Proof.
  assert (Hg : partial i b a [] g (gate_call GateStop g) ∧ gr_modules (gate_call GateStop g) = gr_modules g).
  { split; [auto with group|]. by destruct (gate_call_put GateStop g) as [? ->]. }
  destruct Hg as [Hp Hm]. unfold during.
  destruct (stop_command g), (hosted i g), reply as [[]|]; intros [= <- <-]; split_and!; try done; try apply partial_refl;
    by intros ? [= ->].
Qed.

Section worker.
Context (i : nat) (b : ModuleBindings) (a : WorkerAt) (g : Group).
Let id := mb_namespace b.

(** The result of a turn: nothing, or a move with its effect *)
Definition turned (g' : Group) : Prop := g' = g ∨ ∃ a' sent, moves g i id a a' sent ∧ effect i b a a' sent g g'.

Lemma finish_partial interrupted g' r g'' :
  partial i b a [] g g' → gr_modules g' = gr_modules g → finish_interruption id interrupted g' = Some (r, g'') →
  match r with
  | Some _ => partial i b a [] g g'' ∧ (done g = false → gr_modules g'' = gr_modules g)
  | None => ∃ ev, plain ev ∧ partial i b a [ev] g g'' ∧ gr_modules g'' = gr_modules g
  end.
Proof.
  intros Hp Hm. assert (Hs : ∀ ev, plain ev →
    match send_event ev g' with
    | Some (true, g) => Some (None, g)
    | Some (false, g) => Some (Some SRequested, g)
    | None => None
    end = Some (r, g'') →
    match r with
    | Some _ => partial i b a [] g g'' ∧ (done g = false → gr_modules g'' = gr_modules g)
    | None => ∃ ev, plain ev ∧ partial i b a [ev] g g'' ∧ gr_modules g'' = gr_modules g
    end).
  { intros ev Hev. destruct (send_event ev g') as [[[] h]|] eqn:E; [..|done]; intros [= <- <-];
      pose proof (partial_send i b a g ev g' _ _ Hp E) as Hsend; cbn in Hsend.
    - destruct Hsend as [? Hh]. exists ev. by rewrite Hh.
    - destruct Hsend as [Hd ?]. split; [done|]. by rewrite Hd. }
  destruct interrupted as [reason|[]|e]; cbn [finish_interruption]; [intros [= <- <-]; auto|by apply Hs..].
Qed.

Lemma stop_partial reason p g' :
  in_life a = true ∨ (∃ q, a = AtFinish q) → partial i b a [] g g' → (done g = false → gr_modules g' = gr_modules g) →
  turned (stop_worker i id reason p g').
Proof.
  intros Ha Hp Hm. unfold stop_worker. right. destruct p.
  - eexists _, []. split; [apply mv_exit; destruct a; naive_solver|]. apply partial_end. auto with group.
  - eexists _, []. split; [by apply mv_stop|]. apply partial_move; [|done]. auto with group.
Qed.

Lemma interrupt_partial interrupted g' g'' :
  in_life a = true → partial i b a [] g g' → gr_modules g' = gr_modules g →
  interrupt_worker i id interrupted g' = Some g'' → turned g''.
Proof.
  intros Ha Hp Hm. unfold interrupt_worker. destruct (finish_interruption _ _ _) as [[r h]|] eqn:E; [|done].
  pose proof (finish_partial _ _ _ _ Hp Hm E) as Hf. destruct r as [reason|]; intros [= <-].
  - destruct Hf. apply stop_partial; auto.
  - destruct Hf as (ev&Hev&Hpe&_). right. eexists _, [ev]. split; [by apply mv_finish|]. by apply partial_move.
Qed.

Lemma abandon_partial interrupted g' g'' :
  a = AtCreate → partial i b a [] g g' → gr_modules g' = gr_modules g →
  abandon_worker i id interrupted g' = Some g'' → turned g''.
Proof.
  intros Ha Hp Hm. unfold abandon_worker. destruct (finish_interruption _ _ _) as [[r h]|] eqn:E; [|done].
  pose proof (finish_partial _ _ _ _ Hp Hm E) as Hf. destruct r as [reason|]; intros [= <-].
  - destruct Hf. right. eexists _, []. split; [apply mv_exit; by rewrite Ha|]. apply partial_end. auto with group.
  - destruct Hf as (ev&Hev&Hpe&_). right. rewrite Ha. eexists _, [ev]. split; [by apply mv_abandon|].
    rewrite <- Ha. by apply partial_move.
Qed.
End worker.

(** A turn of a worker is a move with its effect, or nothing. *)
Lemma opened_effect i b m started g g' :
  open_hosted i (la_domain (gr_launch g)) b (la_liveliness (gr_launch g)) started = Ok m →
  opened_worker i (mb_namespace b) m g = Some g' → turned i b AtOpen g g'.
Proof.
  intros Hm. unfold opened_worker.
  set (h := put_modules _ g). assert (Hp : partial i b AtOpen [] g h).
  { split; try done; cbn.
    - exists [], (sh_calls (gr_shared g)). cbn. rewrite app_nil_r. by destruct g as [? [] ].
    - by rewrite length_insert.
    - intros j _ Hj. by rewrite list_lookup_insert_ne.
    - intros _ Hi. split; [|done]. unfold context at 2. cbn. rewrite list_lookup_insert_eq by done. by eapply cm_open. }
  destruct (send_event _ h) as [[[] k]|] eqn:E; [..|done]; intros [= <-]; pose proof (partial_send i b AtOpen g _ _ _ _ Hp E) as Hs; cbn in Hs.
  - destruct Hs as [Hpe _]. right. eexists _, _. split; [apply mv_open|]. by apply partial_move.
  - destruct Hs as [Hd Hpe]. right. eexists _, []. split; [by apply mv_exit|]. apply partial_end, partial_shutdown; [done|].
    by rewrite Hd.
Qed.

Lemma unopened_effect i b e g g' : unopened_worker i e g = Some g' → turned i b AtOpen g g'.
Proof.
  unfold unopened_worker. destruct (send_event _ g) as [[[] k]|] eqn:E; [..|done]; intros [= <-];
    pose proof (partial_send i b AtOpen g _ _ _ _ (partial_refl i b AtOpen g) E) as Hs; cbn in Hs; right.
  - destruct Hs as [Hpe _]. eexists _, _. split; [apply mv_unopened|]. by apply partial_move.
  - destruct Hs as [Hd Hpe]. eexists _, []. split; [by apply mv_exit|]. by apply partial_end.
Qed.

Lemma admit_effect i b g g' : admit_turn i (mb_namespace b) g = Some g' → turned i b AtAdmit g g'.
Proof.
  unfold admit_turn. destruct (context g i) as [m|] eqn:Em; [|by intros [= <-]; left].
  destruct (prepare_admission m) as [r m'] eqn:Ep. destruct (during i _ g) as [d h] eqn:E.
  apply (during_partial i b AtAdmit) in E as (Hp&Hm&Hpend&Hok). destruct d as [[t|interrupted]|].
  - destruct (Hok t eq_refl) as [-> [= Hr]]. unfold map_err in Hr. destruct r as [t'|]; [|done]. injection Hr as ->.
    set (k := note_status _ _). assert (Hk : partial i b AtAdmit [] g k).
    { apply partial_phase. pose proof (partial_refl i b AtAdmit g) as Hr. destruct (on_context_put i (λ _, m') g) as (ms&E&Hl&Ho).
      split; rewrite ?E; try done.
      - cbn. exists [], (sh_calls (gr_shared g)). cbn. rewrite app_nil_r. by destruct g as [? [] ].
      - cbn. intros j _. apply Ho.
      - intros _ Hi. rewrite <- E. assert (Hc : context (on_context i (λ _, m') g) i = Some m').
        { unfold on_context. rewrite Em. unfold context. cbn. by rewrite list_lookup_insert_eq. }
        rewrite Hc, Em. split; [by eapply cm_admit|done]. }
    destruct (send_event _ k) as [[[] n]|] eqn:Es; [..|done]; pose proof (partial_send i b AtAdmit g _ _ _ _ Hk Es) as Hs; cbn in Hs.
    + destruct Hs as [Hs _]. intros [= <-]. right. eexists _, _. split; [by eapply mv_admit|]. by apply partial_move.
    + destruct Hs as [Hd Hs]. cbn [interrupt_worker finish_interruption]. intros [= <-].
      apply (stop_partial i b AtAdmit g SRequested false); [by left|done|by rewrite Hd].
  - by apply interrupt_partial.
  - intros [= <-]. left. by apply Hpend.
Qed.

Lemma hook_effect i b a c reply next g g' :
  in_life a = true → (∀ h, next g = Some h → turned i b a g h) →
  hook_turn i (mb_namespace b) c reply next g = Some g' → turned i b a g g'.
Proof.
  intros Ha Hnext. unfold hook_turn. destruct (during i _ g) as [d h] eqn:E.
  apply (during_partial i b a) in E as (Hp&Hm&Hpend&Hok). destruct d as [[[]|interrupted]|].
  - destruct (Hok tt eq_refl) as [-> _]. apply Hnext.
  - by apply interrupt_partial.
  - intros [= <-]. left. by apply Hpend.
Qed.

Lemma activation_effect i b g g' : activation_turn i (mb_namespace b) g = Some g' → turned i b AtActivation g g'.
Proof.
  unfold activation_turn. pose proof (partial_refl i b AtActivation g) as Hp.
  destruct (hosted i g) as [event|]; [by apply interrupt_partial|]. destruct (sh_command (gr_shared g)) as [| |reason] eqn:Ec.
  - intros [= <-]. by left.
  - intros [= <-]. right. eexists _, []. split; [by apply mv_run|]. apply partial_move; [|done]. by apply partial_phase.
  - by apply interrupt_partial.
Qed.

Lemma open_effect i b reply g g' : open_turn i b reply g = Some g' → turned i b AtOpen g g'.
Proof.
  unfold open_turn. destruct (stop_command g).
  - intros [= <-]. right. eexists _, []. split; [by apply mv_exit|]. apply partial_end, partial_refl.
  - destruct reply as [| |message|]; [by intros [= <-]; left| | |by apply unopened_effect];
      (destruct (open_hosted _ _ _ _ _) as [m|e] eqn:E; [by eapply opened_effect|by apply unopened_effect]).
Qed.

Lemma worker_turn_effect i reply g g' :
  worker_turn i reply g = Some g' →
  g' = g ∨ ∃ b a a' sent, la_bindings (gr_launch g) !! i = Some b ∧ worker_at g i = Some a ∧
    co_aborted (gr_own g) = false ∧ moves g i (mb_namespace b) a a' sent ∧ effect i b a a' sent g g'.
Proof.
  unfold worker_turn. destruct (la_bindings _ !! i) as [b|]; [|by intros [= <-]; left].
  destruct (worker_at g i) as [a|] eqn:Ea; [|by intros [= <-]; left].
  destruct (co_aborted _); [by intros [= <-]; left|].
  assert (Hend : ∀ h e, exited a = false → partial i b a [] g h → e = None ∨ (∃ r, a = AtStop r) →
      turned i b a g (end_worker i (TaskReturned e) h)).
  { intros h e Hex Hp He. right. eexists _, []. split; [|by apply partial_end].
    destruct e as [e|]; [|by apply mv_exit]. destruct He as [|[r ->]]; [done|]. apply mv_stop_fails. }
  intros Ht. assert (Hturn : turned i b a g g'); [|destruct Hturn as [|(a'&sent&?&?)]; [by left|right; eauto 10]].
  pose proof (partial_refl i b a g) as Hp. destruct a; cbn in Ht.
  - by eapply open_effect.
  - destruct (stop_command g); injection Ht as <-; [apply Hend; auto|by left].
  - destruct (during i _ g) as [d h] eqn:E. apply (during_partial i b AtCreate) in E as (Hpd&Hm&Hpend&Hok).
    destruct d as [[[]|interrupted]|].
    + destruct (Hok tt eq_refl) as [-> _]. injection Ht as <-. right. eexists _, []. split; [apply mv_create|].
      apply partial_move; [|done]. by apply partial_phase.
    + by eapply (abandon_partial i b AtCreate g interrupted h).
    + injection Ht as <-. left. by apply Hpend.
  - destruct (stop_command g); injection Ht as <-; [apply Hend; auto with group|by left].
  - eapply hook_effect; [done| |exact Ht]. intros h [= <-]. right. eexists _, []. split; [apply mv_prepare|]. by apply partial_move.
  - by apply admit_effect.
  - by apply activation_effect.
  - eapply hook_effect; [done| |exact Ht]. intros h Hh. by eapply (interrupt_partial i b AtRun g _ g).
  - destruct (stop_command g); injection Ht as <-; [eapply stop_partial; [right; by eexists|done|done]|by left].
  - destruct (guarded _ _ _) as [r|]; injection Ht as <-; [apply Hend; eauto|by left].
  - injection Ht as <-. by left.
Qed.

(** ** Turns of the coordinator *)

(** What the waits of the coordinator keep: everything but the channels they read
    from, what they learn, and the modules whose tickets they drop. *)
Record quiet (g g' : Group) : Prop := {
  qu_launch : gr_launch g' = gr_launch g;
  qu_workers : gr_workers g' = gr_workers g;
  qu_controller : gr_controller g' = gr_controller g;
  qu_modules : length (gr_modules g') = length (gr_modules g);
  qu_at : co_at (gr_own g') = co_at (gr_own g);
  qu_ready : co_ready (gr_own g') = co_ready (gr_own g);
  qu_driver : co_driver (gr_own g') = co_driver (gr_own g);
  qu_aborted : co_aborted (gr_own g') = co_aborted (gr_own g);
  qu_stop : sh_stop (gr_shared g') = sh_stop (gr_shared g);
  qu_terminal : sh_terminal (gr_shared g') = sh_terminal (gr_shared g);
  qu_command : sh_command (gr_shared g') = sh_command (gr_shared g);
  qu_reports : sh_reports (gr_shared g') = sh_reports (gr_shared g);
  qu_acks : sh_acks (gr_shared g') = sh_acks (gr_shared g);
  qu_calls : sh_calls (gr_shared g') = sh_calls (gr_shared g);
  qu_phase : gs_phase (sh_status (gr_shared g')) = gs_phase (sh_status (gr_shared g));
  qu_events : sh_events (gr_shared g') `suffix_of` sh_events (gr_shared g);
  qu_control : sh_control (gr_shared g') `suffix_of` sh_control (gr_shared g);
}.

Lemma quiet_refl g : quiet g g.
Proof. by split. Qed.

Lemma quiet_trans g1 g2 g3 : quiet g1 g2 → quiet g2 g3 → quiet g1 g3.
Proof. intros [] []. split; try congruence; by etrans. Qed.

(** ... and, while no task is joined, the tasks and the status. *)
Record still (g g' : Group) : Prop := {
  sl_quiet : quiet g g';
  sl_tasks : co_tasks (gr_own g') = co_tasks (gr_own g);
  sl_joined : co_joined (gr_own g') = co_joined (gr_own g);
  sl_pending : co_pending (gr_own g') = co_pending (gr_own g);
  sl_status : sh_status (gr_shared g') = sh_status (gr_shared g);
}.

Lemma still_refl g : still g g.
Proof. split; [apply quiet_refl|done..]. Qed.

Lemma still_trans g1 g2 g3 : still g1 g2 → still g2 g3 → still g1 g3.
Proof. intros [] []. split; try congruence. by eapply quiet_trans. Qed.

(** A task was joined early. *)
Definition left_early (g g' : Group) (error : HostError) : Prop :=
  ∃ i e l h, still g h ∧ co_joined (gr_own g) = (i, e) :: l ∧ early_exit i e (join_task i h) = (error, g').

Ltac quiet_done := repeat (split; cbn; try done; try reflexivity).

Lemma update_component_phase id f s : gs_phase (update_component id f s) = gs_phase s.
Proof. unfold update_component. by destruct (bt_get _ _). Qed.

Lemma record_put e g : ∃ st, record_error e g = put_status st g ∧ gs_phase st = gs_phase (sh_status (gr_shared g)).
Proof.
  unfold record_error. destruct (he_instance e).
  - eexists. split; [done|]. apply update_component_phase.
  - exists (sh_status (gr_shared g)). by rewrite put_status_id.
Qed.

Lemma recv_event_quiet g r g' :
  recv_event g = (r, g') → still g g' ∧ gr_own g' = gr_own g ∧ gr_modules g' = gr_modules g ∧
    match r with
    | Some (Some e) => sh_events (gr_shared g) = e :: sh_events (gr_shared g')
    | Some None => sh_events (gr_shared g) = [] ∧ g' = g ∧ Forall (λ w, exited w = true) (gr_workers g)
    | None => sh_events (gr_shared g) = [] ∧ g' = g
    end.
Proof.
  unfold recv_event. destruct (sh_events (gr_shared g)) as [|e rest] eqn:E.
  - destruct (existsb _ _) eqn:Ew; intros [= <- <-]; split_and!; try done; try by apply still_refl.
    apply Forall_forall. intros w Hw. destruct (exited w) eqn:Ex; [done|]. exfalso.
    assert (Ht : existsb (λ w, negb (exited w)) (gr_workers g) = true); [|congruence].
    apply existsb_exists. exists w. split; [by apply list_elem_of_In|by rewrite Ex].
  - intros [= <- <-]. split_and!; try done. split; try done. quiet_done. rewrite E. by exists [e].
Qed.

Lemma observe_quiet e g r g' : observe e g = (r, g') → still g g'.
Proof.
  destruct e as [[id i|id t|e|]|]; cbn [observe].
  - intros [= <- <-]. quiet_done.
  - destruct (bt_insert _ _ _) as [old prepared]. intros [= <- <-]. destruct old as [t'|]; [|quiet_done].
    unfold release_ticket. destruct (on_context_put' (tk_ports t') (λ m, drop_ticket m t') (put_prepared prepared g)) as (ms&->&?).
    quiet_done.
  - intros [= <- <-]. apply still_refl.
  - intros [= <- <-]. apply still_refl.
  - intros [= <- <-]. apply still_refl.
Qed.

Lemma early_exit_quiet i e g error g' : early_exit i e g = (error, g') → quiet g g'.
Proof.
  unfold early_exit. destruct (bt_remove _ _) as [instance pending]. intros [= <- <-].
  match goal with |- quiet _ (record_error ?e ?g) => destruct (record_put e g) as (st&->&Hs) end. quiet_done.
Qed.

Lemma join_next_quiet g r g' :
  join_next g = (r, g') → quiet g g' ∧
    match r with
    | Some (i, e) => ∃ l, co_joined (gr_own g) = (i, e) :: l ∧ g' = join_task i g
    | None => g' = g ∧ co_joined (gr_own g) = []
    end.
Proof.
  unfold join_next. destruct (co_joined (gr_own g)) as [|[i e] l]; intros [= <- <-].
  - split; [apply quiet_refl|done].
  - split; [quiet_done|by eexists].
Qed.

Lemma recv_request_quiet g r g' :
  recv_request g = (r, g') → still g g' ∧ ∀ q, r = Some (Some q) → q ∈ sh_control (gr_shared g).
Proof.
  unfold recv_request. destruct (sh_control (gr_shared g)) as [|q l] eqn:E; intros [= <- <-].
  - split; [apply still_refl|]. by destruct (control_senders g).
  - split; [split; try done; quiet_done; rewrite E; by exists [q]|]. intros q' [= ->]. by left.
Qed.

Lemma left_early_quiet g g' error : left_early g g' error → quiet g g'.
Proof.
  intros (i&e&l&h&Hs&_&He). apply early_exit_quiet in He. eapply quiet_trans; [apply Hs|].
  eapply quiet_trans; [|exact He]. quiet_done.
Qed.

(** What a wait leaves: a state with the same tasks, or the error of a task *)
Definition waited (g g' : Group) (error : option HostError) : Prop :=
  still g g' ∨ ∃ e, error = Some e ∧ left_early g g' e.

Lemma waited_quiet g g' error : waited g g' error → quiet g g'.
Proof. intros [[]|(e&_&?)]; [done|by eapply left_early_quiet]. Qed.

Lemma select_waited open g s g' :
  select open g = (s, g') → waited g g' (match s with SelJoined e => Some e | _ => None end) ∧
    (∀ q, s = SelRequest (Some q) → q ∈ sh_control (gr_shared g)) ∧ (∀ q, s = SelRequest q → open = true) ∧
    (s = SelStop ↔ sh_stop (gr_shared g) = true).
Proof.
  unfold select. destruct (sh_stop (gr_shared g)) eqn:Es.
  { intros [= <- <-]. split_and!; try done. left. apply still_refl. }
  destruct (recv_event g) as [[e|] g1] eqn:E1; apply recv_event_quiet in E1 as (Hq1&_&_&Hr1).
  { destruct (observe e g1) as [r g2] eqn:E2. intros [= <- <-]. apply observe_quiet in E2.
    split_and!; try done. left. by eapply still_trans. }
  destruct Hr1 as [_ ->]. destruct (join_next g) as [[[i e]|] g2] eqn:E2; apply join_next_quiet in E2 as [_ Hj].
  { destruct Hj as (l&Hl&->). destruct (early_exit i e (join_task i g)) as [error g3] eqn:E3. intros [= <- <-].
    split_and!; try done. right. eexists. split; [done|]. by exists i, e, l, g. }
  destruct Hj as [-> _]. destruct open; [|intros [= <- <-]; split_and!; try done; left; apply still_refl].
  destruct (recv_request g) as [[r|] g3] eqn:E3; apply recv_request_quiet in E3 as [Hq3 Hin]; intros [= <- <-].
  - split_and!; try done; [by left|]. intros q [= ->]. by apply Hin.
  - split_and!; try done. by left.
Qed.

Lemma drain_still l g r g' :
  sh_events (gr_shared g) = l → drain_events l g = (r, g') → still g g'.
Proof.
  revert g. induction l as [|e l IH]; intros g Hl; cbn [drain_events]; [intros [= <- <-]; apply still_refl|].
  assert (Hq : still g (put_events l g)) by (split; try done; quiet_done; rewrite Hl; by exists [e]).
  destruct (observe (Some e) (put_events l g)) as [[[]|x] h] eqn:E; pose proof (observe_quiet _ _ _ _ E) as Ho.
  - intros [= <- <-]. by eapply still_trans.
  - intros Hd. assert (He : sh_events (gr_shared h) = l).
    { destruct e as [id i|id t|e|]; cbn [observe] in E.
      - injection E as <-. done.
      - destruct (bt_insert _ _ _) as [old prepared]. injection E as <-. destruct old as [t'|]; [|done].
        unfold release_ticket.
        by destruct (on_context_put' (tk_ports t') (λ m, drop_ticket m t') (put_prepared prepared (put_events l g))) as (ms&->&?).
      - done.
      - done. }
    eapply still_trans; [exact Hq|]. eapply still_trans; [exact Ho|]. by apply (IH h).
  - intros [= <- <-]. by eapply still_trans.
Qed.

Lemma check_admission_waited g r g' :
  check_admission g = (r, g') → waited g g' (match r with Err e => Some e | _ => None end) ∧
    (r = Ok true → sh_stop (gr_shared g) = false).
Proof.
  unfold check_admission. destruct (sh_stop (gr_shared g)) eqn:Es.
  { intros [= <- <-]. split; [left; apply still_refl|done]. }
  intros H. split; [|done]. revert H.
  destruct (context_events _ g) as [[]|]; [|intros [= <- <-]; left; apply still_refl..].
  destruct (drain_events _ g) as [[[]|] g1] eqn:E1; apply drain_still in E1; try done; [|intros [= <- <-]; by left..].
  destruct (join_next g1) as [[[i e]|] g2] eqn:E2; apply join_next_quiet in E2 as [_ Hj].
  - destruct Hj as (l&Hl&->). destruct (early_exit i e (join_task i g1)) as [error g3] eqn:E3. intros [= <- <-].
    right. eexists. split; [done|]. exists i, e, l, g1. split_and!; [done| |done]. by rewrite <- (sl_joined _ _ E1).
  - destruct Hj as [-> _]. intros [= <- <-]. by left.
Qed.

Lemma begin_cleanup_put p r g :
  ∃ ms st calls, begin_cleanup p r g =
    put_at (CoClean p [] true) (put_command (CmdStop (reason_of p r)) (put_prepared [] (put_ready []
      (put_modules ms (put_status st (put_calls calls g)))))) ∧
    length ms = length (gr_modules g) ∧ gs_phase st = GStopping.
Proof.
  unfold begin_cleanup. destruct (gate_call_put GateStop g) as [calls ->].
  assert (He : ∃ st, match p with Some e => record_error e (put_calls calls g) | None => put_calls calls g end =
                     put_status st (put_calls calls g)).
  { destruct p as [e|]; [destruct (record_put e (put_calls calls g)) as (st&->&_); by exists st|].
    exists (sh_status (gr_shared g)). by destruct g as [? [] ]. }
  destruct He as [st ->]. unfold note_status.
  match goal with |- context[release_tickets (co_ready ?o) ?g] =>
    destruct (release_tickets_put (co_ready o) g) as (ms1&->&Hl1) end.
  match goal with |- context[release_tickets ?l ?g] => destruct (release_tickets_put l g) as (ms2&->&Hl2) end.
  match goal with |- context[foldl ?f ?g ?l] => destruct (shutdown_all_put l g) as (ms3&->&Hl3) end.
  cbn in *. eexists ms3, _, calls. split; [done|]. split; [lia|done].
Qed.

(** The end of the coordinator *)
Record concluded (o : LocalOutcome) (g g' : Group) : Prop := {
  cd_launch : gr_launch g' = gr_launch g;
  cd_workers : gr_workers g' = gr_workers g;
  cd_controller : gr_controller g' = gr_controller g;
  cd_modules : length (gr_modules g') = length (gr_modules g);
  cd_at : co_at (gr_own g') = CoDone;
  cd_tasks : co_tasks (gr_own g') = co_tasks (gr_own g);
  cd_joined : co_joined (gr_own g') = co_joined (gr_own g);
  cd_pending : co_pending (gr_own g') = co_pending (gr_own g);
  cd_ready : co_ready (gr_own g') = co_ready (gr_own g);
  cd_prepared : co_prepared (gr_own g') = co_prepared (gr_own g);
  cd_aborted : co_aborted (gr_own g') = true;
  cd_stop : sh_stop (gr_shared g') = sh_stop (gr_shared g);
  cd_terminal : sh_terminal (gr_shared g') = Some o;
  cd_command : sh_command (gr_shared g') = sh_command (gr_shared g);
  cd_reports : sh_reports (gr_shared g') = sh_reports (gr_shared g);
  cd_phase : gs_phase (sh_status (gr_shared g')) = final_phase o;
  cd_events : sh_events (gr_shared g') = [];
  cd_control : sh_control (gr_shared g') = [];
}.

Lemma conclude_concluded o g st driver :
  concluded o g (conclude o (put_status st (put_driver driver g))).
Proof.
  unfold conclude, note_status.
  match goal with |- context[gate_call ?c ?g] => destruct (gate_call_put c g) as [calls ->] end.
  match goal with |- context[release_tickets ?l ?g] => destruct (release_tickets_put l g) as (ms&->&Hl) end.
  by split.
Qed.

Lemma note_phases_fold l g :
  foldl (λ g id, note_status (component_phase id CUnresponsive) g) g l =
  put_status (note_phases ((λ id, (id, CUnresponsive)) <$> l) (sh_status (gr_shared g))) g.
Proof.
  revert g. induction l as [|id l IH]; intros g; cbn; [by rewrite put_status_id|]. by rewrite IH.
Qed.

(** The outcome of a cleanup whose driver was joined *)
Definition cleanup_outcome (primary : option HostError) (cleanup : list HostError) (pending : btree nat str) : LocalOutcome :=
  match pending with
  | [] => match primary, cleanup with
          | Some primary, _ => LocalFailed primary cleanup
          | None, [] => LocalStopped
          | None, primary :: cleanup => LocalFailed primary cleanup
          end
  | _ => LocalUnresponsive primary cleanup (sort_by_key id pending.*2)
  end.

Lemma finish_concluded p c g driver :
  concluded (cleanup_outcome p c (co_pending (gr_own g))) g (finish_cleanup p c (put_driver driver g)) ∧
  ∃ l, gs_components (sh_status (gr_shared (finish_cleanup p c (put_driver driver g)))) =
       gs_components (note_phases l (sh_status (gr_shared g))).
Proof.
  unfold finish_cleanup, cleanup_outcome. cbn [put_driver gr_own co_pending].
  destruct (co_pending (gr_own g)) as [|e pending] eqn:E.
  - match goal with |- concluded ?o _ _ ∧ _ =>
      pose proof (conclude_concluded o g (sh_status (gr_shared g)) driver) as Hc;
      replace (put_status (sh_status (gr_shared g)) (put_driver driver g)) with (put_driver driver g) in Hc
        by (by destruct g as [? [] ]) end.
    split; [exact Hc|]. exists []. unfold conclude, note_status.
    match goal with |- context[gate_call ?c ?g] => destruct (gate_call_put c g) as [calls ->] end.
    match goal with |- context[release_tickets ?l ?g] => destruct (release_tickets_put l g) as (ms&->&Hl) end. done.
  - cbv zeta. rewrite note_phases_fold. split; [apply conclude_concluded|]. eexists. unfold conclude, note_status.
    match goal with |- context[gate_call ?c ?g] => destruct (gate_call_put c g) as [calls ->] end.
    match goal with |- context[release_tickets ?l ?g] => destruct (release_tickets_put l g) as (ms&->&Hl) end. done.
Qed.

Definition before_clean (a : CoordinatorAt) : bool :=
  match a with CoCollect | CoWait _ | CoCommit _ | CoServe _ => true | _ => false end.

(** The turns of the coordinator, by where they lead *)
Inductive co_moves (g : Group) : Group → Prop :=
  | com_quiet g' : still g g' → co_moves g g'
  | com_clean g1 p r : before_clean (co_at (gr_own g)) = true → waited g g1 p → co_moves g (begin_cleanup p r g1)
  | com_publish g1 :
      co_at (gr_own g) = CoCollect → length (la_bindings (gr_launch g)) ≤ length (co_prepared (gr_own g)) →
      check_admission g = (Ok true, g1) → co_moves g
        (put_at (CoWait StageCommit) (note_status (with_group_phase GPrepared)
          (put_reports (Some (tk_report <$> (co_prepared (gr_own g1)).*2)) g1)))
  | com_commit g1 :
      co_at (gr_own g) = CoWait StageCommit → still g g1 → Advance StageCommit ∈ sh_control (gr_shared g) →
      co_moves g (put_at (CoCommit (la_bindings (gr_launch g))) g1)
  | com_ticket b rest i t prepared m m' ready declared :
      co_at (gr_own g) = CoCommit (b :: rest) → bt_get (mb_namespace b) (co_contexts (gr_own g)) = Some i →
      bt_remove (mb_namespace b) (co_prepared (gr_own g)) = (Some t, prepared) →
      context g i = Some m → commit_admission m t declared = (Ok ready, m') →
      co_moves g (put_at (CoCommit rest) (note_status (component_phase (mb_namespace b) CReady)
        (put_ready (co_ready (gr_own g) ++ [ready]) (put_modules (<[i := Some m']> (gr_modules g)) (put_prepared prepared g)))))
  | com_committed g1 :
      co_at (gr_own g) = CoCommit [] → check_admission g = (Ok true, g1) →
      co_moves g (put_at (CoWait StageActivate) (put_acks (sh_acks (gr_shared g1) ++ [StageCommit])
        (note_status (with_group_phase GCommitted) g1)))
  | com_activate g1 g2 calls :
      co_at (gr_own g) = CoWait StageActivate → still g g1 → select true g = (SelRequest (Some (Advance StageActivate)), g1) →
      check_admission g1 = (Ok true, g2) →
      co_moves g (put_at (CoServe true) (put_acks (sh_acks (gr_shared g2) ++ [StageActivate])
        (put_command CmdRun (note_status (with_group_phase GRunning) (put_calls calls g2)))))
  | com_alone g1 : co_at (gr_own g) = CoServe true → still g g1 → co_moves g (put_at (CoServe false) g1)
  | com_failure p c o e g1 :
      co_at (gr_own g) = CoClean p c o → still g g1 →
      co_moves g (put_at (CoClean p (if same_as_primary p e then c else c ++ [e]) true) (record_error e g1))
  | com_unsent p c o g1 :
      co_at (gr_own g) = CoClean p c o → still g g1 → co_moves g (put_at (CoClean p c false) g1)
  | com_joined p c o i e l g1 :
      co_at (gr_own g) = CoClean p c o → still g g1 → co_joined (gr_own g) = (i, e) :: l →
      co_moves g (clean_join p c o i e (join_task i g1))
  | com_cleaned p c o late :
      co_at (gr_own g) = CoClean p c o → (co_tasks (gr_own g) = [] ∨ late = true) → co_moves g (put_at (CoDriver p c) g)
  | com_concluded p c late g' o :
      co_at (gr_own g) = CoDriver p c → g' = driver_turn p c late g → concluded o g g' → co_moves g g'.

Lemma end_startup_moves r g g1 :
  before_clean (co_at (gr_own g)) = true → waited g g1 (match r with Err e => Some e | _ => None end) →
  co_moves g (end_startup r g1).
Proof. intros Hb Hq. destruct r; by apply com_clean. Qed.

Lemma still_end r g g1 : before_clean (co_at (gr_own g)) = true → still g g1 → co_moves g (end_startup r g1).
Proof. intros Hb Hs. apply end_startup_moves; [done|by left]. Qed.

Lemma startup_selected_moves s elapsed g g1 :
  before_clean (co_at (gr_own g)) = true → waited g g1 (match s with SelJoined e => Some e | _ => None end) →
  co_moves g (startup_selected s elapsed g1).
Proof.
  intros Hb Hq. destruct s as [|[[]|e]|e|q|]; cbn [startup_selected]; try by apply end_startup_moves.
  all: destruct Hq as [Hs|(?&?&?)]; [|done].
  - by apply com_quiet.
  - by apply still_end.
  - by apply still_end.
  - unfold startup_pending. destruct (startup_late _ _); [apply com_clean; [done|by left]|by apply com_quiet].
Qed.

Lemma on_context_still i f g : still g (on_context i f g).
Proof. destruct (on_context_put' i f g) as (ms&->&?). quiet_done. Qed.

Lemma commit_next_moves b rest declared g :
  co_at (gr_own g) = CoCommit (b :: rest) → co_moves g (commit_next b rest declared g).
Proof.
  intros Hat. assert (Hb : before_clean (co_at (gr_own g)) = true) by by rewrite Hat. unfold commit_next.
  destruct (sh_stop _); [apply still_end; [done|apply still_refl]|].
  destruct (bt_get _ _) as [i|] eqn:Ei; [|apply still_end; [done|apply still_refl]].
  destruct (bt_remove _ _) as [[t|] prepared] eqn:Et; [|apply still_end; [done|apply still_refl]].
  assert (Hq : still g (put_prepared prepared g)) by quiet_done.
  destruct (context _ i) as [m|] eqn:Em; [|by apply com_quiet].
  destruct (commit_admission m t declared) as [[ready|e] m'] eqn:Ec.
  - unfold on_context. rewrite Em. by apply (com_ticket g b rest i t prepared m m' ready declared).
  - apply still_end; [done|]. eapply still_trans; [exact Hq|apply on_context_still].
Qed.

Lemma checked_moves g g0 (f : Group → Group) :
  before_clean (co_at (gr_own g)) = true → still g g0 →
  (∀ g1, check_admission g0 = (Ok true, g1) → co_moves g (f g1)) →
  co_moves g (match check_admission g0 with (Ok true, g1) => f g1 | (r, g1) => end_startup r g1 end).
Proof.
  intros Hb Hs Hf. destruct (check_admission g0) as [r g1] eqn:E. pose proof (check_admission_waited _ _ _ E) as [Hq _].
  assert (Hw : waited g g1 (match r with Err e => Some e | _ => None end)).
  { destruct Hq as [?|(e&He&(i&x&l&h&Hh&Hj&Hx))]; [left; by eapply still_trans|]. right. exists e. split; [done|].
    exists i, x, l, h. split_and!; [by eapply still_trans|by rewrite <- (sl_joined _ _ Hs)|done]. }
  destruct r as [[]|]; [by apply Hf|by apply end_startup_moves..].
Qed.

Lemma wait_turn_moves stage elapsed g :
  co_at (gr_own g) = CoWait stage → co_moves g (wait_turn stage elapsed g).
Proof.
  intros Hat. assert (Hb : before_clean (co_at (gr_own g)) = true) by by rewrite Hat. unfold wait_turn.
  destruct (select true g) as [s g1] eqn:E. pose proof (select_waited _ _ _ _ E) as (Hq&Hin&_).
  destruct s as [|r|e|[[s|e]|]|]; try by apply startup_selected_moves.
  destruct Hq as [Hq|(?&?&?)]; [|done].
  case_bool_decide as Hs; [|by apply still_end]. subst s. destruct stage.
  - rewrite (qu_launch _ _ (sl_quiet _ _ Hq)). apply com_commit; [done|done|]. by apply Hin.
  - unfold activate_group. apply checked_moves; [done|done|]. intros g2 E2.
    destruct (gate_call_put GateActivate g2) as [calls ->]. by apply (com_activate g g1 g2 calls).
Qed.

Lemma serve_turn_moves open g : co_at (gr_own g) = CoServe open → co_moves g (serve_turn open g).
Proof.
  intros Hat. assert (Hb : before_clean (co_at (gr_own g)) = true) by by rewrite Hat. unfold serve_turn.
  destruct (select open g) as [s g1] eqn:E. pose proof (select_waited _ _ _ _ E) as (Hq&_&Hopen&_).
  destruct s as [|[[]|e]|e|[[s|e]|]|]; try (by apply com_clean);
    (destruct Hq as [Hq|(?&?&?)]; [|done]); try (apply com_clean; [done|by left]); try by apply com_quiet.
  specialize (Hopen _ eq_refl). subst open. by apply com_alone.
Qed.

Lemma clean_turn_moves p c o late g : co_at (gr_own g) = CoClean p c o → co_moves g (clean_turn p c o late g).
Proof.
  intros Hat. unfold clean_turn. destruct (co_tasks (gr_own g)) as [|t ts] eqn:Et.
  { apply (com_cleaned g p c o false); [done|by left]. }
  destruct late; [apply (com_cleaned g p c o true); [done|by right]|].
  destruct (if o then recv_event g else (None, g)) as [r g1] eqn:E. assert (Hq : still g g1).
  { destruct o; [by eapply recv_event_quiet|]. injection E as _ <-. apply still_refl. }
  destruct r as [[[id i|id t'|e|]|]|]; cbn [clean_event].
  - apply com_quiet. eapply still_trans; [exact Hq|apply on_context_still].
  - apply com_quiet. eapply still_trans; [exact Hq|apply on_context_still].
  - by eapply com_failure.
  - by apply com_quiet.
  - by eapply com_unsent.
  - destruct (join_next g1) as [[[i e]|] g2] eqn:E2; apply join_next_quiet in E2 as [_ Hj].
    + destruct Hj as (l&Hl&->). eapply com_joined; [done|done|]. by rewrite <- (sl_joined _ _ Hq).
    + destruct Hj as [-> _]. by apply com_quiet.
Qed.

Lemma driver_turn_moves p c late g : co_at (gr_own g) = CoDriver p c → co_moves g (driver_turn p c late g).
Proof.
  intros Hat. unfold driver_turn. destruct (co_driver (gr_own g)) as [[|r]|] eqn:Ed.
  - destruct late; [|apply com_quiet, still_refl].
    replace (put_driver None g) with (put_status (sh_status (gr_shared g)) (put_driver None g)) by (by destruct g as [? [] ]).
    eapply (com_concluded g p c true); [done| |apply conclude_concluded].
    unfold driver_turn. rewrite Ed. by destruct g as [? [] ].
  - eapply (com_concluded g p c late); [done| |apply finish_concluded]. unfold driver_turn. by rewrite Ed.
  - replace g with (put_driver None g) at 2 by (destruct g as [? ? []]; cbn in Ed; by subst).
    eapply (com_concluded g p c late); [done| |apply finish_concluded]. unfold driver_turn. rewrite Ed.
    destruct g as [? ? []]; cbn in Ed; by subst.
Qed.

Lemma coordinator_turn_moves elapsed declared g : co_moves g (coordinator_turn elapsed declared g).
Proof.
  unfold coordinator_turn. destruct (co_at (gr_own g)) as [|stage|[|b rest]|open|p c o|p c|] eqn:Hat.
  - destruct (Nat.ltb_spec (length (co_prepared (gr_own g))) (length (la_bindings (gr_launch g)))) as [Hl|Hl].
    + destruct (select true g) as [s g1] eqn:E. pose proof (select_waited _ _ _ _ E) as (Hq&_).
      apply startup_selected_moves; [by rewrite Hat|done].
    + apply checked_moves; [by rewrite Hat|apply still_refl|]. intros g1 Hc. by apply (com_publish g g1).
  - by apply wait_turn_moves.
  - apply checked_moves; [by rewrite Hat|apply still_refl|]. intros g1 Hc. by apply (com_committed g g1).
  - by apply commit_next_moves.
  - by apply serve_turn_moves.
  - by apply clean_turn_moves.
  - by apply driver_turn_moves.
  - apply com_quiet, still_refl.
Qed.

(** ** The other steps *)

Lemma put_control_id g : put_control (sh_control (gr_shared g)) g = g.
Proof. by destruct g as [? [] ]. Qed.
Lemma put_controller_id g : put_controller (gr_controller g) g = g.
Proof. by destruct g. Qed.

Lemma send_request_put r g ok g' : send_request r g = Some (ok, g') → ∃ c, g' = put_control c g.
Proof.
  unfold send_request. destruct (done g); [intros [= <- <-]; exists (sh_control (gr_shared g)); by rewrite put_control_id|].
  destruct (sh_control (gr_shared g)); [|done]. intros [= <- <-]. by eexists.
Qed.

Lemma send_or_wait_put r g : ∃ c, send_or_wait r g = put_control c g.
Proof.
  unfold send_or_wait. destruct (send_request r g) as [[ok g']|] eqn:E; [by eapply send_request_put|].
  exists (sh_control (gr_shared g)). by rewrite put_control_id.
Qed.

Lemma controller_turn_put display g : ∃ k c, controller_turn display g = put_controller k (put_control c g).
Proof.
  assert (Hk : ∀ k, ∃ k' c, put_controller k g = put_controller k' (put_control c g)).
  { intros k. exists k, (sh_control (gr_shared g)). by rewrite put_control_id. }
  assert (Hid : ∃ k' c, g = put_controller k' (put_control c g)).
  { exists (gr_controller g), (sh_control (gr_shared g)). by rewrite put_control_id, put_controller_id. }
  unfold controller_turn. destruct (gr_controller g) as [|r|stage| |]; try exact Hid.
  - destruct (sh_terminal _); [apply Hk|]. destruct (sh_reports _) as [rs|]; [|exact Hid].
    destruct (admit_graph _ _ rs) as [[|]|]; apply Hk.
  - destruct (send_request r g) as [[[] g']|] eqn:E; [..|exact Hid]; apply send_request_put in E as [c ->]; by eexists _, c.
  - destruct (sh_terminal _); [apply Hk|]. case_bool_decide; [apply Hk|exact Hid].
Qed.

(** Who changes the controller or the channel of requests *)
Definition controls (display : ReportError → str) (g : Group) (k : Controller) (c : list Request) : Prop :=
  gr_controller g = KExternal ∨
  (k = gr_controller g ∧ ∀ s, Advance s ∈ c → Advance s ∈ sh_control (gr_shared g)) ∨
  controller_turn display g = put_controller k (put_control c g).

(** The steps that no task of the group takes by itself, and the controller's *)
Inductive side_moves (display : ReportError → str) (g : Group) : Group → Prop :=
  | sm_controller k c : controls display g k c → side_moves display g (put_controller k (put_control c g))
  | sm_context i a : side_moves display g (on_context i (context_act a) g)
  | sm_driver r : co_driver (gr_own g) = Some DriverRunning → side_moves display g (put_driver (Some (DriverEnded r)) g)
  | sm_stop calls : side_moves display g (put_stop true (put_calls calls g)).

(** A step of the group, by what takes it *)
Inductive step_moves (display : ReportError → str) (g : Group) : Group → Prop :=
  | st_same : step_moves display g g
  | st_coordinator g' : co_moves g g' → step_moves display g g'
  | st_worker i b a a' sent g' :
      la_bindings (gr_launch g) !! i = Some b → worker_at g i = Some a → co_aborted (gr_own g) = false →
      moves g i (mb_namespace b) a a' sent → effect i b a a' sent g g' → step_moves display g g'
  | st_panic i a m :
      worker_at g i = Some a → exited a = false → co_aborted (gr_own g) = false →
      step_moves display g (end_worker i (TaskPanicked m) g)
  | st_side g' : side_moves display g g' → step_moves display g g'.

Lemma group_step_moves display g s : step_moves display g (group_step display g s).
Proof.
  destruct s as [elapsed declared|i reply|i message|i a| |r| |e|r|]; cbn [group_step].
  - apply st_coordinator, coordinator_turn_moves.
  - destruct (worker_turn i reply g) as [g'|] eqn:E; [|apply st_same]. cbn.
    apply worker_turn_effect in E as [->|(b&a&a'&sent&Hb&Ha&Hab&Hm&He)]; [apply st_same|by eapply st_worker].
  - unfold worker_live. destruct (worker_at g i) as [a|] eqn:Ea; [|apply st_same].
    destruct (exited a) eqn:Ex, (co_aborted (gr_own g)) eqn:Eb; cbn; try apply st_same. by eapply st_panic.
  - apply st_side, sm_context.
  - destruct (controller_turn_put display g) as (k&c&E). rewrite E. apply st_side, sm_controller. by right; right.
  - destruct (gr_controller g) eqn:Ek; try apply st_same. destruct (send_or_wait_put r g) as (c&->). apply st_side.
    replace (put_control c g) with (put_controller (gr_controller g) (put_control c g)) by (by destruct g).
    apply sm_controller. by left.
  - destruct (gr_controller g) eqn:Ek; try apply st_same. apply st_side.
    replace (put_controller KGone g) with (put_controller KGone (put_control (sh_control (gr_shared g)) g))
      by (by rewrite put_control_id). apply sm_controller. by left.
  - destruct (driver_live g); [|apply st_same]. apply st_side.
    assert (Hc : ∃ c, send_or_wait (AbortWith e) g = put_control c g ∧ ∀ s, Advance s ∈ c → Advance s ∈ sh_control (gr_shared g)).
    { unfold send_or_wait, send_request. destruct (done g); [exists (sh_control (gr_shared g)); by rewrite put_control_id|].
      destruct (sh_control (gr_shared g)) as [|q l] eqn:E; cbn.
      - exists [AbortWith e]. split; [done|]. by intros s [[=]|[]%elem_of_nil]%elem_of_cons.
      - exists (q :: l). split; [|done]. rewrite <- E. by rewrite put_control_id. }
    destruct Hc as (c&->&Hc). replace (put_control c g) with (put_controller (gr_controller g) (put_control c g)) by (by destruct g).
    apply sm_controller. right. by left.
  - unfold driver_live. destruct (co_driver (gr_own g)) as [[|]|] eqn:Ed; try apply st_same. by apply st_side, sm_driver.
  - unfold handle_stop. destruct (gate_call_put GateStop g) as [calls ->]. apply st_side, sm_stop.
Qed.
