(* ===== verification/GroupProps.v ===== *)
(** * GroupProps: what a supervised group promises

    Over every interleaving of the tasks, the component code, the handle, the step
    driver and the controller: components run only in a graph that was validated,
    the terminal outcome is true, a stop ends the group, and no worker waits for
    room to report. *)

From Stdlib Require Import ZArith Lia Permutation Sorted.
From S2P Require Import Prelude Text Btree Core Bindings BindingsSpec Report ReportSpec EngineKey HostMessages EngineLocal.
From S2P Require Import ReportSpec LaunchTypes Managed ManagedProps Group GroupSteps.

(** ** Launching *)

Lemma host_ensure_Ok c e : host_ensure c e = Ok tt ↔ c = true.
Proof. unfold host_ensure. destruct c; naive_solver. Qed.

(** A binding of a hosted instance *)
Definition hosted_wf (b : ModuleBindings) : Prop :=
  bindings_validate b = Ok tt ∧ mb_namespace b = mb_endpoint_namespace b ∧ mb_children b = [] ∧ mb_executables b = [].

Lemma validate_instance_Ok registry ids x ids' :
  bt_ok ids → validate_instance registry ids x = Ok ids' →
  mb_namespace (in_bindings x) ∉ ids.*1 ∧ bt_ok ids' ∧ (∀ k, k ∈ ids'.*1 ↔ k = mb_namespace (in_bindings x) ∨ k ∈ ids.*1) ∧
  hosted_wf (in_bindings x).
Proof.
  intros Hok ([]&_&Hx)%bind_Ok. unfold bs_insert in Hx. destruct (bt_insert _ tt ids) as [old ids1] eqn:Ei.
  apply bind_Ok in Hx as ([]&Hnew&([]&_&([]&Hv&([]&Hh&[= <-])%bind_Ok)%bind_Ok)%bind_Ok).
  apply host_ensure_Ok in Hnew, Hh. assert (Hids : ids1 = (bt_insert (mb_namespace (in_bindings x)) tt ids).2) by by rewrite Ei.
  assert (Hold : old = bt_get (mb_namespace (in_bindings x)) ids) by (by rewrite <- (bt_insert_old _ tt), Ei).
  split_and!.
  - rewrite bt_key_get by done. rewrite <- Hold. destruct old; [done|]. intros [? ?]. done.
  - rewrite Hids. by apply bt_insert_ok.
  - intros k. rewrite Hids. by apply bt_insert_keys.
  - unfold map_err in Hv. split; [by destruct (bindings_validate _) as [[]|]|].
    apply andb_true_iff in Hh as [[H1 H2]%andb_true_iff H3]. apply bool_decide_eq_true in H1, H2, H3.
    split_and!; [done|by apply nil_length_inv..].
Qed.

Lemma validate_instances_Ok registry l ids :
  bt_ok ids → ∀ ids', for_fold (validate_instance registry) ids l = Ok ids' →
  NoDup (ids.*1) → (∀ k, k ∈ ids.*1 → k ∉ (λ x, mb_namespace (in_bindings x)) <$> l) ∧
  NoDup ((λ x, mb_namespace (in_bindings x)) <$> l) ∧ Forall (λ x, hosted_wf (in_bindings x)) l.
Proof.
  revert ids. induction l as [|x l IH]; intros ids Hok ids'; cbn.
  - intros _ _. split_and!; [by intros ? ? ?%elem_of_nil|constructor|constructor].
  - destruct (validate_instance registry ids x) as [ids1|] eqn:E; [|done]. intros Hf Hnd.
    apply validate_instance_Ok in E as (Hnew&Hok1&Hk&Hwf); [|done].
    destruct (IH ids1 Hok1 ids' Hf (bt_ok_NoDup _ Hok1)) as (H1&H2&H3). split_and!.
    + intros k Hin [->|Hl]%elem_of_cons; [done|]. by apply (H1 k); [apply Hk; right|].
    + constructor; [|done]. apply H1, Hk. by left.
    + by constructor.
Qed.

(** What holds of a group that was launched *)
Record launched (g : Group) (controller : Controller) : Prop := {
  ln_new : ∃ driver, g = group_new (gr_launch g) driver controller;
  ln_nonempty : la_bindings (gr_launch g) ≠ [];
  ln_ids : NoDup (mb_namespace <$> la_bindings (gr_launch g));
  ln_bindings : Forall hosted_wf (la_bindings (gr_launch g));
}.

Lemma launch_launched limit now registry domain liveliness startup stopping instances driver runtime controller g :
  launch_group limit now registry domain liveliness startup stopping instances driver runtime controller = Ok g →
  launched g controller ∧ la_startup (gr_launch g) = startup ∧ la_stopping (gr_launch g) = stopping ∧
  la_bindings (gr_launch g) = in_bindings <$> instances.
Proof.
  intros ([]&Hv&([]&_&[= <-])%bind_Ok)%bind_Ok. cbn. split; [|done].
  apply bind_Ok in Hv as ([]&Hne&([]&_&([]&_&(ids&Hids&_)%bind_Ok)%bind_Ok)%bind_Ok).
  apply host_ensure_Ok, negb_true_iff, bool_decide_eq_false in Hne.
  apply validate_instances_Ok in Hids as (_&Hnd&Hwf); [|done|constructor]. split; cbn.
  - by eexists.
  - by destruct instances.
  - by rewrite <- list_fmap_compose.
  - by apply Forall_fmap.
Qed.

Lemma run_app display g l l' : group_run display g (l ++ l') = group_run display (group_run display g l) l'.
Proof. unfold group_run. by rewrite foldl_app. Qed.

(** An invariant of the group holds after every run. *)
Lemma run_invariant display (P : Group → Prop) g l :
  P g → (∀ h s, P h → P (group_step display h s)) → P (group_run display g l).
Proof. intros Hg Hs. revert g Hg. induction l as [|s l IH]; intros g Hg; [done|]. cbn. by apply IH, Hs. Qed.

(** ** Room for events *)

(** How many events a worker may have sent by the time it waits there *)
Definition weight (a : WorkerAt) : nat :=
  match a with
  | AtOpen => 0
  | AtOpenFailed | AtCreate | AtPrepare | AtAdmit => 1
  | AtCreateFailed | AtActivation | AtRun => 2
  | AtFinish _ | AtStop _ | AtExit _ => 3
  end.

Fixpoint weights (l : list WorkerAt) : nat :=
  match l with [] => 0 | a :: l => weight a + weights l end.

Record roomy (g : Group) : Prop := {
  rm_length : length (gr_workers g) = length (la_bindings (gr_launch g));
  rm_events : length (sh_events (gr_shared g)) ≤ weights (gr_workers g);
}.

Lemma weights_insert l i a a' : l !! i = Some a → weights (<[i := a']> l) + weight a = weights l + weight a'.
Proof.
  revert i. induction l as [|x l IH]; intros [|i] Hi; try done.
  - injection Hi as ->. cbn. lia.
  - specialize (IH i Hi). change (<[S i := a']> (x :: l)) with (x :: <[i := a']> l). cbn [weights]. lia.
Qed.

Lemma weights_bound l : weights l ≤ 3 * length l.
Proof. induction l as [|[] l IH]; cbn [weights weight length]; lia. Qed.

Lemma moves_weight g i id a a' sent : moves g i id a a' sent → weight a + length sent ≤ weight a'.
Proof.
  destruct 1 as [| | | | | | |a ev p Ha _|a r Ha|a Ha|]; cbn; try lia.
  - destruct a; try done; cbn; lia.
  - destruct Ha as [Ha|[p ->]]; [destruct a; try done; cbn; lia|cbn; lia].
  - destruct a; cbn; try done; lia.
Qed.

Lemma quiet_roomy g g' : quiet g g' → roomy g → roomy g'.
Proof.
  intros Hq [H1 H2]. split; rewrite (qu_workers _ _ Hq), ?(qu_launch _ _ Hq); [done|].
  destruct (qu_events _ _ Hq) as [k Hk]. rewrite Hk, length_app in H2. lia.
Qed.

(** The coordinator leaves the workers alone, and their channel has room. *)
Lemma co_moves_workers g g' : co_moves g g' →
  gr_launch g' = gr_launch g ∧ gr_workers g' = gr_workers g ∧ gr_controller g' = gr_controller g ∧
  length (gr_modules g') = length (gr_modules g) ∧ sh_stop (gr_shared g') = sh_stop (gr_shared g) ∧
  length (sh_events (gr_shared g')) ≤ length (sh_events (gr_shared g)).
Proof.
  assert (Hq : ∀ h, quiet g h → gr_launch h = gr_launch g ∧ gr_workers h = gr_workers g ∧ gr_controller h = gr_controller g ∧
    length (gr_modules h) = length (gr_modules g) ∧ sh_stop (gr_shared h) = sh_stop (gr_shared g) ∧
    length (sh_events (gr_shared h)) ≤ length (sh_events (gr_shared g))).
  { intros h []. split_and!; try done. destruct qu_events as [k ->]. rewrite length_app. lia. }
  intros Hm. destruct Hm as [g' Hs|g1 p r _ Hw|g1 _ _ Hc|g1 _ Hs _|b rest i t prepared m m' ready declared _ _ _ _ _|g1 _ Hc|
    g1 g2 calls _ Hs _ Hc|g1 _ Hs|p c o e g1 _ Hs|p c o g1 _ Hs|p c o i e l g1 _ Hs _|p c o late _ _|p c late g' o _ _ Hd].
  - apply Hq, Hs.
  - destruct (begin_cleanup_put p r g1) as (ms&st&calls&->&Hl&_). apply waited_quiet, Hq in Hw. cbn. rewrite Hl. exact Hw.
  - apply check_admission_waited in Hc as [[Hs|(?&?&?)] _]; [|done]. apply (Hq g1), Hs.
  - apply (Hq g1), Hs.
  - cbn. rewrite length_insert. split_and!; done.
  - apply check_admission_waited in Hc as [[Hs|(?&?&?)] _]; [|done]. apply (Hq g1), Hs.
  - apply check_admission_waited in Hc as [[Hs2|(?&?&?)] _]; [|done]. apply (Hq g2). eapply quiet_trans; [apply Hs|apply Hs2].
  - apply (Hq g1), Hs.
  - destruct (record_put e g1) as (st&->&_). apply (Hq g1), Hs.
  - apply (Hq g1), Hs.
  - assert (Hj : ∃ st pending at_, clean_join p c o i e (join_task i g1) =
                   put_at at_ (put_status st (put_pending pending (join_task i g1)))).
    { unfold clean_join. set (error := match e with TaskReturned error => error | _ => _ end).
      set (h := match error with Some error => _ | None => _ end).
      assert (Hh : ∃ st at_, h = put_at at_ (put_status st (join_task i g1))).
      { unfold h. destruct error as [er|].
        - destruct (record_put er (join_task i g1)) as (st&->&_). by eexists _, _.
        - eexists (sh_status (gr_shared g1)), (co_at (gr_own g1)). by destruct g1 as [? [] []]. }
      destruct Hh as (st&at_&->). destruct (bt_remove _ _) as [[id|] pending]; [by eexists _, _, _|].
      by exists st, pending, at_. }
    destruct Hj as (st&pending&at_&->). apply (Hq g1), Hs.
  - by split_and!.
  - destruct Hd. split_and!; try done. rewrite cd_events. cbn. lia.
Qed.

Lemma step_roomy display g s : roomy g → roomy (group_step display g s).
Proof.
  intros [H1 H2]. destruct (group_step_moves display g s) as [|g' Hc|i b a a' sent g' Hb Ha _ Hm He|i a m Ha Hex _|g' Hs].
  - done.
  - destruct (co_moves_workers _ _ Hc) as (El&Ew&_&_&_&Hev). split; rewrite ?El, Ew; [done|lia].
  - pose proof (moves_weight _ _ _ _ _ _ Hm) as Hw. destruct He as [_ El Ew _ _ (l&calls&Es) _ _ _].
    split; rewrite ?El, Ew; [by rewrite length_insert|]. pose proof (weights_insert _ _ _ a' Ha). rewrite Es. cbn.
    rewrite length_app. lia.
  - split; cbn; [by rewrite length_insert|]. pose proof (weights_insert _ _ _ (AtExit (TaskPanicked m)) Ha).
    assert (weight a ≤ 3) by (destruct a; cbn; lia). cbn in *. lia.
  - destruct Hs as [k c _|i act|r _|calls]; try (by split). destruct (on_context_put' i (context_act act) g) as (ms&->&_). by split.
Qed.

Lemma launched_roomy g k : launched g k → roomy g.
Proof. intros [[d ->] _ _ _]. split; cbn; [apply length_replicate|lia]. Qed.

Section room.
Context (i : nat) (b : ModuleBindings) (a : WorkerAt) (g : Group).
Hypothesis Hroom : ∀ ev h, partial i b a [] g h → send_event ev h ≠ None.

Lemma finish_room id interrupted h : partial i b a [] g h → finish_interruption id interrupted h ≠ None.
Proof.
  intros Hp. assert (Hs : ∀ ev, match send_event ev h with
    | Some (true, g) => Some (None, g)
    | Some (false, g) => Some (Some SRequested, g)
    | None => None
    end ≠ None).
  { intros ev. pose proof (Hroom ev h Hp). by destruct (send_event ev h) as [[[] ?]|]. }
  destruct interrupted as [|[]|]; [done|apply Hs..].
Qed.

Lemma interrupt_room id interrupted h : partial i b a [] g h → interrupt_worker i id interrupted h ≠ None.
Proof.
  intros Hp. unfold interrupt_worker. pose proof (finish_room id interrupted h Hp).
  by destruct (finish_interruption _ _ _) as [[[] ?]|].
Qed.

Lemma abandon_room id interrupted h : partial i b a [] g h → abandon_worker i id interrupted h ≠ None.
Proof.
  intros Hp. unfold abandon_worker. pose proof (finish_room id interrupted h Hp).
  by destruct (finish_interruption _ _ _) as [[[] ?]|].
Qed.

Lemma hook_room id c reply next :
  next g ≠ None →
  hook_turn i id c reply next g ≠ None.
Proof.
  intros Hn. unfold hook_turn. destruct (during i _ g) as [d h] eqn:E.
  apply (during_partial i b a) in E as (Hp&_&_&Hok). destruct d as [[[]|interrupted]|]; [|by apply interrupt_room|done].
  by destruct (Hok tt eq_refl) as [-> _].
Qed.
End room.

Lemma send_None ev g :
  send_event ev g = None ↔ done g = false ∧ event_capacity g ≤ length (sh_events (gr_shared g)).
Proof.
  unfold send_event. destruct (done g); [naive_solver|].
  destruct (Nat.ltb_spec (length (sh_events (gr_shared g))) (event_capacity g)); naive_solver lia.
Qed.

(** Sending depends on few fields. *)
Lemma send_same ev ev' g h :
  gr_launch h = gr_launch g → co_at (gr_own h) = co_at (gr_own g) → sh_events (gr_shared h) = sh_events (gr_shared g) →
  send_event ev g ≠ None → send_event ev' h ≠ None.
Proof. intros El Ea Ee. rewrite !send_None. unfold done, event_capacity. by rewrite El, Ea, Ee. Qed.

Lemma roomy_send i b a g ev h :
  roomy g → worker_at g i = Some a → weight a ≤ 2 → partial i b a [] g h → send_event ev h ≠ None.
Proof.
  intros [H1 H2] Ha Hw [_ El Ew _ Eo (l&calls&Es) _ _ _]. apply (send_same ev ev g h); [done|by rewrite Eo| |].
  - rewrite Es. cbn. apply app_nil_r.
  - rewrite send_None. intros [_ Hcap]. unfold event_capacity in Hcap.
    pose proof (weights_insert _ _ _ (AtExit (TaskReturned None)) Ha) as Hi.
    pose proof (weights_bound (<[i := AtExit (TaskReturned None)]> (gr_workers g))) as Hb.
    rewrite length_insert in Hb; cbn [weight] in Hi; lia.
Qed.

Lemma worker_turn_room i reply g : roomy g → worker_turn i reply g ≠ None.
Proof.
  intros Hr. unfold worker_turn. destruct (la_bindings _ !! i) as [b|]; [|done].
  destruct (worker_at g i) as [a|] eqn:Ea; [|done]. destruct (co_aborted _); [done|].
  assert (Hroom : weight a ≤ 2 → ∀ ev h, partial i b a [] g h → send_event ev h ≠ None).
  { intros Hw ev h. by apply roomy_send. }
  pose proof (partial_refl i b a g) as Hp. destruct a; cbn [weight] in Hroom; try specialize (Hroom ltac:(lia)).
  - unfold open_turn, opened_worker, unopened_worker. destruct (stop_command g); [done|].
    assert (Hu : ∀ e, match send_event (EvFailure e) g with
      | Some (true, g) => Some (move_worker i AtOpenFailed g)
      | Some (false, g) => Some (end_worker i (TaskReturned None) g)
      | None => None end ≠ None).
    { intros e. pose proof (Hroom (EvFailure e) g Hp). by destruct (send_event _ g) as [[[] ?]|]. }
    assert (Ho : ∀ m, match send_event (EvOpened (mb_namespace b) i) (put_modules (<[i := Some m]> (gr_modules g)) g) with
      | Some (true, g) => Some (move_worker i AtCreate g)
      | Some (false, g) => Some (end_worker i (TaskReturned None) (shutdown_context i g))
      | None => None end ≠ None).
    { intros m. set (h := put_modules _ g).
      pose proof (send_same (EvOpened (mb_namespace b) i) (EvOpened (mb_namespace b) i) g h eq_refl eq_refl eq_refl (Hroom _ g Hp)).
      by destruct (send_event _ h) as [[[] ?]|]. }
    destruct reply; [done| | |apply Hu]; (destruct (open_hosted _ _ _ _ _); [apply Ho|apply Hu]).
  - by destruct (stop_command g).
  - destruct (during i _ g) as [d h] eqn:E. apply (during_partial i b AtCreate) in E as (Hpd&_).
    destruct d as [[[]|interrupted]|]; [done|by eapply abandon_room|done].
  - by destruct (stop_command g).
  - eapply hook_room; [exact Hroom|done].
  - unfold admit_turn. destruct (context g i) as [m|] eqn:Em; [|done]. destruct (prepare_admission m) as [r m'] eqn:Ep.
    destruct (during i _ g) as [d h] eqn:E. apply (during_partial i b AtAdmit) in E as (Hpd&_&_&Hok).
    destruct d as [[t|interrupted]|]; [|by eapply interrupt_room|done]. destruct (Hok t eq_refl) as [-> _].
    set (k := note_status _ _). destruct (on_context_put' i (λ _, m') g) as (ms&Ek&_).
    assert (Hs : send_event (EvPrepared (mb_namespace b) t) k ≠ None).
    { unfold k. rewrite Ek. by apply (send_same (EvPrepared (mb_namespace b) t) _ g); [..|apply (Hroom _ g Hp)]. }
    by destruct (send_event _ k) as [[[] ?]|].
  - unfold activation_turn. destruct (hosted i g); [by eapply interrupt_room|].
    destruct (sh_command _); [done|done|by eapply interrupt_room].
  - eapply hook_room; [exact Hroom|by eapply interrupt_room].
  - by destruct (stop_command g).
  - by destruct (guarded _ _ _).
  - done.
Qed.

(** C40: the channel of events is large enough: in every reachable state a worker
    that has something to report can, so no turn of a worker waits for room. *)
Theorem reports_never_wait limit now registry domain liveliness startup stopping instances driver runtime controller
    display g l i reply :
  launch_group limit now registry domain liveliness startup stopping instances driver runtime controller = Ok g →
  worker_turn i reply (group_run display g l) ≠ None.
Proof.
  intros Hl. apply launch_launched in Hl as [Hl _]. apply worker_turn_room.
  apply run_invariant; [by eapply launched_roomy|]. intros. by apply step_roomy.
Qed.

(** ** A stop ends the group *)

(** How many turns of the coordinator are left after a stop, at deadlines *)
Definition rank (a : CoordinatorAt) : nat :=
  match a with CoDone => 0 | CoDriver _ _ => 1 | CoClean _ _ _ => 2 | _ => 3 end.

Lemma before_clean_rank a : before_clean a = true ↔ rank a = 3.
Proof. by destruct a. Qed.

Lemma clean_join_put p c o i e h :
  co_at (gr_own h) = CoClean p c o →
  ∃ c' st, clean_join p c o i e h =
    put_at (CoClean p c' o) (put_status st (put_pending (bt_remove i (co_pending (gr_own h))).2 h)).
Proof.
  intros Hat. unfold clean_join. set (error := match e with TaskReturned error => error | _ => _ end).
  set (k := match error with Some error => _ | None => _ end).
  assert (Hk : ∃ c' st, k = put_at (CoClean p c' o) (put_status st h)).
  { unfold k. destruct error as [er|].
    - destruct (record_put er h) as (st&->&_). by eexists _, _.
    - exists c, (sh_status (gr_shared h)). destruct h as [? [] []]; cbn in *. by subst. }
  destruct Hk as (c'&st&->). cbn. exists c'. destruct (bt_remove _ _) as [[id|] pending]; [by eexists|]. by exists st.
Qed.

Lemma co_moves_rank g g' : co_moves g g' → rank (co_at (gr_own g')) ≤ rank (co_at (gr_own g)).
Proof.
  intros Hm. destruct Hm as [g' Hs|g1 p r Hb _|g1 Ha _ _|g1 Ha _ _|b rest i t prepared m m' ready declared Ha _ _ _ _|g1 Ha _|
    g1 g2 calls Ha _ _ _|g1 Ha _|p c o e g1 Ha Hs|p c o g1 Ha Hs|p c o i e l g1 Ha Hs _|p c o late Ha _|p c late g' o Ha _ Hd].
  - by rewrite (qu_at _ _ (sl_quiet _ _ Hs)).
  - apply before_clean_rank in Hb. rewrite Hb. destruct (begin_cleanup_put p r g1) as (?&?&?&->&_). cbn. lia.
  - by rewrite Ha.
  - by rewrite Ha.
  - by rewrite Ha.
  - by rewrite Ha.
  - by rewrite Ha.
  - by rewrite Ha.
  - by rewrite Ha.
  - by rewrite Ha.
  - assert (Hj : co_at (gr_own (join_task i g1)) = CoClean p c o) by (cbn; by rewrite (qu_at _ _ (sl_quiet _ _ Hs))).
    destruct (clean_join_put _ _ _ i e _ Hj) as (c'&st&->). by rewrite Ha.
  - rewrite Ha. cbn. lia.
  - rewrite (cd_at _ _ _ Hd). cbn. lia.
Qed.

Lemma stopped_select open g : sh_stop (gr_shared g) = true → select open g = (SelStop, g).
Proof. intros Hs. unfold select. by rewrite Hs. Qed.
Lemma stopped_check g : sh_stop (gr_shared g) = true → check_admission g = (Ok false, g).
Proof. intros Hs. unfold check_admission. by rewrite Hs. Qed.

(** A turn at a deadline, after a stop, is a step towards the end. *)
Lemma late_turn declared g :
  sh_stop (gr_shared g) = true → is_Some (la_stopping (gr_launch g)) →
  co_at (gr_own g) = CoDone ∨ rank (co_at (gr_own (coordinator_turn true declared g))) < rank (co_at (gr_own g)).
Proof.
  intros Hs [t Ht]. assert (Hclean : ∀ p r, rank (co_at (gr_own (begin_cleanup p r g))) < 3).
  { intros p r. destruct (begin_cleanup_put p r g) as (?&?&?&->&_). cbn. lia. }
  assert (Hlate : stopping_late true g = true) by (unfold stopping_late; by rewrite Ht).
  unfold coordinator_turn. destruct (co_at (gr_own g)) as [|stage|[|b rest]|open|p c o|p c|] eqn:Ha; [right..|by left]; cbn [rank].
  - destruct (_ <? _); [rewrite stopped_select by done; apply Hclean|].
    unfold publish_reports. rewrite stopped_check by done. apply Hclean.
  - unfold wait_turn. rewrite stopped_select by done. apply Hclean.
  - unfold finish_commit. rewrite stopped_check by done. apply Hclean.
  - unfold commit_next. rewrite Hs. apply Hclean.
  - unfold serve_turn. rewrite stopped_select by done. apply Hclean.
  - unfold clean_turn. rewrite Hlate. destruct (co_tasks (gr_own g)); cbn; lia.
  - unfold driver_turn. rewrite Hlate. destruct (co_driver (gr_own g)) as [[|r]|] eqn:Ed.
    + pose proof (conclude_concluded (LocalUnresponsive p c (mb_namespace <$> la_bindings (gr_launch g))) g
        (sh_status (gr_shared g)) None) as Hc. replace (put_status (sh_status (gr_shared g)) (put_driver None g))
        with (put_driver None g) in Hc by (by destruct g as [? [] ]). rewrite (cd_at _ _ _ Hc). cbn. lia.
    + match goal with |- context[finish_cleanup p ?c _] => pose proof (proj1 (finish_concluded p c g None)) as Hc end.
      rewrite (cd_at _ _ _ Hc). cbn. lia.
    + pose proof (proj1 (finish_concluded p c g None)) as Hc.
      replace (put_driver None g) with g in Hc by (destruct g as [? ? []]; cbn in Ed; by subst).
      rewrite (cd_at _ _ _ Hc). cbn. lia.
Qed.

(** What no step changes, or only in one direction *)
Lemma step_constant display g s :
  gr_launch (group_step display g s) = gr_launch g ∧
  (sh_stop (gr_shared g) = true → sh_stop (gr_shared (group_step display g s)) = true) ∧
  rank (co_at (gr_own (group_step display g s))) ≤ rank (co_at (gr_own g)).
Proof.
  destruct (group_step_moves display g s) as [|g' Hc|i b a a' sent g' _ _ _ _ He|i a m _ _ _|g' Hs].
  - done.
  - destruct (co_moves_workers _ _ Hc) as (El&_&_&_&Es&_). split_and!; [done|by rewrite Es|by apply co_moves_rank].
  - destruct He as [_ El _ _ Eo (l&calls&Es) _ _ _]. split_and!; [done|by rewrite Es|by rewrite Eo].
  - done.
  - destruct Hs as [k c _|i act|r _|calls]; try done. by destruct (on_context_put' i (context_act act) g) as (ms&->&_).
Qed.

Lemma run_constant display g l :
  gr_launch (group_run display g l) = gr_launch g ∧
  (sh_stop (gr_shared g) = true → sh_stop (gr_shared (group_run display g l)) = true) ∧
  rank (co_at (gr_own (group_run display g l))) ≤ rank (co_at (gr_own g)).
Proof.
  revert g. induction l as [|s l IH]; intros g; [done|].
  change (group_run display g (s :: l)) with (group_run display (group_step display g s) l).
  destruct (step_constant display g s) as (H1&H2&H3).
  destruct (IH (group_step display g s)) as (H4&H5&H6). split_and!; [congruence|auto|lia].
Qed.

(** The turns of the coordinator at deadlines *)
Definition late_step (s : GroupStep) : nat := match s with TCoordinator true _ => 1 | _ => 0 end.
Fixpoint late_turns (l : list GroupStep) : nat := match l with [] => 0 | s :: l => late_step s + late_turns l end.

Lemma run_late display g l :
  sh_stop (gr_shared g) = true → is_Some (la_stopping (gr_launch g)) →
  rank (co_at (gr_own (group_run display g l))) ≤ rank (co_at (gr_own g)) - late_turns l.
Proof.
  revert g. induction l as [|s l IH]; intros g Hs Ht; [cbn; lia|].
  change (group_run display g (s :: l)) with (group_run display (group_step display g s) l).
  destruct (step_constant display g s) as (H1&H2&H3). specialize (IH (group_step display g s) (H2 Hs)).
  rewrite H1 in IH. specialize (IH Ht). etrans; [exact IH|]. cbn [late_turns].
  assert (Hl : rank (co_at (gr_own (group_step display g s))) ≤ rank (co_at (gr_own g)) - late_step s); [|lia].
  destruct s as [[] declared| | | | | | | | |]; cbn [late_step]; try lia.
  destruct (late_turn declared g Hs Ht) as [Hd|Hlt]; [|cbn [group_step] in *; lia].
  rewrite Hd in H3. cbn in *. lia.
Qed.

Definition concluded_ok (g : Group) : Prop :=
  match sh_terminal (gr_shared g) with
  | Some o => co_at (gr_own g) = CoDone ∧ gs_phase (sh_status (gr_shared g)) = final_phase o
  | None => co_at (gr_own g) ≠ CoDone ∧ terminal_phase (gs_phase (sh_status (gr_shared g))) = false
  end.

Lemma component_phase_group id p s : gs_phase (component_phase id p s) = gs_phase s.
Proof. unfold component_phase. destruct (terminal_phase _); [done|apply update_component_phase]. Qed.

Lemma note_phases_group l s : gs_phase (note_phases l s) = gs_phase s.
Proof. revert s. induction l as [|e l IH]; intros s; [done|]. cbn. fold (note_phases l (component_phase e.1 e.2 s)).
  rewrite IH. apply component_phase_group. Qed.

Lemma clean_join_phase p c o i e h :
  gs_phase (sh_status (gr_shared (clean_join p c o i e h))) = gs_phase (sh_status (gr_shared h)).
Proof.
  unfold clean_join. set (error := match e with TaskReturned error => error | _ => _ end).
  set (k := match error with Some error => _ | None => _ end).
  assert (Hk : gs_phase (sh_status (gr_shared k)) = gs_phase (sh_status (gr_shared h))).
  { unfold k. destruct error as [er|]; [|done]. by destruct (record_put er h) as (st&->&Hs). }
  destruct (bt_remove _ _) as [[id|] pending]; [|exact Hk]. cbn. by rewrite update_component_phase.
Qed.

Lemma not_done_ok a g :
  co_at (gr_own g) = a → a ≠ CoDone → sh_terminal (gr_shared g) = None →
  terminal_phase (gs_phase (sh_status (gr_shared g))) = false → concluded_ok g.
Proof. intros Ha Hn Ht Hp. unfold concluded_ok. rewrite Ht, Ha. done. Qed.

Lemma co_moves_concluded g g' : co_moves g g' → concluded_ok g → concluded_ok g'.
Proof.
  assert (Hq : ∀ h, quiet g h → concluded_ok g → sh_terminal (gr_shared h) = sh_terminal (gr_shared g) ∧
    gs_phase (sh_status (gr_shared h)) = gs_phase (sh_status (gr_shared g)) ∧ co_at (gr_own h) = co_at (gr_own g)) by by intros h [].
  assert (Hopen : concluded_ok g → co_at (gr_own g) ≠ CoDone →
    sh_terminal (gr_shared g) = None ∧ terminal_phase (gs_phase (sh_status (gr_shared g))) = false).
  { unfold concluded_ok. intros Hok Hn. destruct (sh_terminal (gr_shared g)); [by destruct Hok|]. by destruct Hok. }
  intros Hm Hok. destruct Hm as [g' Hs|g1 p r Hb Hw|g1 Ha _ Hc|g1 Ha Hs _|b rest i t prepared m m' ready declared Ha _ _ _ _|g1 Ha Hc|
    g1 g2 calls Ha Hs _ Hc|g1 Ha Hs|p c o e g1 Ha Hs|p c o g1 Ha Hs|p c o i e l g1 Ha Hs _|p c o late Ha _|p c late g' o Ha _ Hd].
  1: { destruct (Hq g' (sl_quiet _ _ Hs) Hok) as (E1&E2&E3). unfold concluded_ok in *. by rewrite E1, E2, E3. }
  12: { unfold concluded_ok. by rewrite (cd_terminal _ _ _ Hd), (cd_at _ _ _ Hd), (cd_phase _ _ _ Hd). }
  all: destruct (Hopen Hok) as [Ht Hp]; [try by rewrite Ha; by destruct (co_at (gr_own g))|].
  - destruct (co_at (gr_own g)); done.
  - destruct (begin_cleanup_put p r g1) as (?&?&?&->&_&Hst). apply waited_quiet in Hw. destruct (Hq g1 Hw Hok) as (E1&_&_).
    eapply not_done_ok; cbn; [done|done|by rewrite E1|by rewrite Hst].
  - apply check_admission_waited in Hc as [[Hs|(?&?&?)] _]; [|done]. destruct (Hq g1 (sl_quiet _ _ Hs) Hok) as (E1&_&_).
    eapply not_done_ok; cbn; [done|done|by rewrite E1|done].
  - destruct (Hq g1 (sl_quiet _ _ Hs) Hok) as (E1&E2&_). eapply not_done_ok; cbn; [done|done|by rewrite E1|by rewrite E2].
  - eapply not_done_ok; cbn; [done|done|done|by rewrite component_phase_group].
  - apply check_admission_waited in Hc as [[Hs|(?&?&?)] _]; [|done]. destruct (Hq g1 (sl_quiet _ _ Hs) Hok) as (E1&_&_).
    eapply not_done_ok; cbn; [done|done|by rewrite E1|done].
  - apply check_admission_waited in Hc as [[Hs2|(?&?&?)] _]; [|done].
    destruct (Hq g2 (quiet_trans _ _ _ (sl_quiet _ _ Hs) (sl_quiet _ _ Hs2)) Hok) as (E1&_&_).
    eapply not_done_ok; cbn; [done|done|by rewrite E1|done].
  - destruct (Hq g1 (sl_quiet _ _ Hs) Hok) as (E1&E2&_). eapply not_done_ok; cbn; [done|done|by rewrite E1|by rewrite E2].
  - destruct (Hq g1 (sl_quiet _ _ Hs) Hok) as (E1&E2&_). destruct (record_put e g1) as (st&->&Hst).
    eapply not_done_ok; cbn; [done|done|by rewrite E1|by rewrite Hst, E2].
  - destruct (Hq g1 (sl_quiet _ _ Hs) Hok) as (E1&E2&_). eapply not_done_ok; cbn; [done|done|by rewrite E1|by rewrite E2].
  - destruct (Hq g1 (sl_quiet _ _ Hs) Hok) as (E1&E2&E3).
    assert (Hj : co_at (gr_own (join_task i g1)) = CoClean p c o) by (cbn; by rewrite E3).
    pose proof (clean_join_phase p c o i e (join_task i g1)) as Hph.
    destruct (clean_join_put _ _ _ i e _ Hj) as (c'&st&Ej). rewrite Ej in *.
    eapply not_done_ok; cbn; [done|done|by rewrite E1|]. cbn in Hph. by rewrite Hph, E2.
  - eapply not_done_ok; cbn; [done|done|done|done].
Qed.

Lemma step_concluded display g s : concluded_ok g → concluded_ok (group_step display g s).
Proof.
  intros Hok. destruct (group_step_moves display g s) as [|g' Hc|i b a a' sent g' _ _ _ _ He|i a m _ _ _|g' Hs]; try done.
  - by eapply co_moves_concluded.
  - destruct He as [_ _ _ _ Eo (l&calls&Es) _ _ _]. unfold concluded_ok in *. rewrite Eo, Es. cbn. by rewrite note_phases_group.
  - destruct Hs as [k c _|i act|r _|calls]; try done. by destruct (on_context_put' i (context_act act) g) as (ms&->&_).
Qed.

Lemma launched_concluded g k : launched g k → concluded_ok g.
Proof. intros [[d ->] _ _ _]. done. Qed.

(** C33: a stop ends the group: with a deadline for stopping, three turns of the
    coordinator at deadlines after a stop was requested give the terminal
    outcome, whatever the components, the engine and the other tasks do. *)
Theorem stop_ends_group limit now registry domain liveliness startup stopping instances driver runtime controller
    display g l l' :
  launch_group limit now registry domain liveliness startup (Some stopping) instances driver runtime controller = Ok g →
  sh_stop (gr_shared (group_run display g l)) = true → 3 ≤ late_turns l' →
  is_Some (sh_terminal (gr_shared (group_run display g (l ++ l')))).
Proof.
  intros Hl Hs Hn. apply launch_launched in Hl as (Hl&_&Hst&_). rewrite run_app. set (h := group_run display g l) in *.
  assert (Hh : gr_launch h = gr_launch g) by apply (run_constant display g l).
  assert (Ht : is_Some (la_stopping (gr_launch h))) by (rewrite Hh, Hst; by eexists).
  pose proof (run_late display h l' Hs Ht) as Hr.
  assert (Hok : concluded_ok (group_run display h l')).
  { unfold h. rewrite <- run_app. apply run_invariant; [by eapply launched_concluded|]. intros. by apply step_concluded. }
  assert (Hrank : rank (co_at (gr_own h)) ≤ 3) by (destruct (co_at (gr_own h)); cbn; lia).
  unfold concluded_ok in Hok. destruct (sh_terminal _); [by eexists|]. destruct Hok as [Hok _]. exfalso.
  destruct (co_at (gr_own (group_run display h l'))); cbn in Hr; try lia. done.
Qed.

(** ** Components run in a validated graph *)

Section graph.
Context (display : ReportError → str).

(** The reports are there, and with the bindings they are a closed graph. *)
Definition graph_ok (g : Group) : Prop :=
  ∃ reports, sh_reports (gr_shared g) = Some reports ∧
    admit_graph display (la_bindings (gr_launch g)) reports = Some (Ok tt).

(** Whatever comes after the local controller's validation *)
Definition past_validation (g : Group) : Prop :=
  (∃ s, gr_controller g = KSend (Advance s) ∨ gr_controller g = KAwait s) ∨
  (∃ s, Advance s ∈ sh_control (gr_shared g)) ∨
  match co_at (gr_own g) with CoCommit _ | CoWait StageActivate | CoServe _ => True | _ => False end ∨
  sh_command (gr_shared g) = CmdRun ∨ ∃ i, worker_at g i = Some AtRun.

Record graph_inv (g : Group) : Prop := {
  gi_reports : co_at (gr_own g) = CoCollect → sh_reports (gr_shared g) = None;
  gi_local : gr_controller g ≠ KExternal;
  gi_past : past_validation g → graph_ok g;
}.

Lemma graph_inv_step g g' :
  graph_inv g → gr_launch g' = gr_launch g → sh_reports (gr_shared g') = sh_reports (gr_shared g) →
  gr_controller g' ≠ KExternal → (co_at (gr_own g') = CoCollect → co_at (gr_own g) = CoCollect) →
  (past_validation g' → past_validation g) → graph_inv g'.
Proof.
  intros [H1 H2 H3] El Er Hk Ha Hp. split; [|done|].
  - rewrite Er. auto.
  - intros (rs&Hr&Hok)%Hp%H3. exists rs. by rewrite Er, El.
Qed.

Lemma quiet_past g g' : quiet g g' → past_validation g' → past_validation g.
Proof.
  intros [] [(s&Hs)|[(s&Hs)|[Ha|[Hc|(i&Hi)]]]].
  - left. exists s. by rewrite <- qu_controller.
  - right; left. exists s. destruct qu_control as [k ->]. apply elem_of_app. by right.
  - right; right; left. by rewrite <- qu_at.
  - do 3 right; left. congruence.
  - do 4 right. exists i. unfold worker_at in *. by rewrite <- qu_workers.
Qed.

Lemma quiet_graph g g' : quiet g g' → graph_inv g → graph_inv g'.
Proof.
  intros Hq Hg. pose proof Hq as []. apply (graph_inv_step g); [done|done|done| |by rewrite qu_at|by apply quiet_past].
  rewrite qu_controller. apply Hg.
Qed.

(** The coordinator moves on, or sends a command that does not run. *)
Lemma moved_past g at_ command :
  command ≠ CmdRun → match at_ with CoCommit _ | CoWait StageActivate | CoServe _ => False | _ => True end →
  past_validation (put_at at_ (put_command command g)) → past_validation g.
Proof.
  intros Hn Hat [Hs|[Hs|[Ha|[Hc|Hi]]]]; [by left|by right; left| |done|by do 4 right].
  cbn in Ha. destruct at_ as [|[]| | | | |]; done.
Qed.

Lemma co_moves_graph g g' : co_moves g g' → graph_inv g → graph_inv g'.
Proof.
  intros Hm Hg. destruct Hm as [g' Hs|g1 p r Hb Hw|g1 Ha _ Hc|g1 Ha Hs Hin|b rest i t prepared m m' ready declared Ha _ _ _ _|g1 Ha Hc|
    g1 g2 calls Ha Hs _ Hc|g1 Ha Hs|p c o e g1 Ha Hs|p c o g1 Ha Hs|p c o i e l g1 Ha Hs _|p c o late Ha _|p c late g' o Ha _ Hd].
  - by apply (quiet_graph g); [apply Hs|].
  - apply waited_quiet in Hw. pose proof (quiet_graph _ _ Hw Hg) as Hg1.
    destruct (begin_cleanup_put p r g1) as (ms&st&calls&->&_). apply (graph_inv_step g1); try done; [apply Hg1|].
    intros Hp. apply (moved_past (put_prepared [] (put_ready [] (put_modules ms (put_status st (put_calls calls g1)))))
      (CoClean p [] true) (CmdStop (reason_of p r))); done.
  - apply check_admission_waited in Hc as [[Hs|(?&?&?)] _]; [|done]. pose proof (quiet_graph _ _ (sl_quiet _ _ Hs) Hg) as Hg1.
    destruct Hg1 as [H1 H2 H3]. rewrite (qu_at _ _ (sl_quiet _ _ Hs)), Ha in H1. specialize (H1 eq_refl).
    split; [done|done|]. intros Hp. exfalso. assert (Hp1 : past_validation g1).
    { destruct Hp as [Hx|[Hx|[Hx|[Hx|Hx]]]]; [by left|by right; left|done|by do 3 right; left|by do 4 right]. }
    destruct (H3 Hp1) as (rs&Hr&_). congruence.
  - pose proof (sl_quiet _ _ Hs) as []. apply (graph_inv_step g); try done.
    + cbn. rewrite qu_controller. apply Hg.
    + intros _. right; left. by exists StageCommit.
  - apply (graph_inv_step g); try done; [apply Hg|]. intros _. right; right; left. by rewrite Ha.
  - apply check_admission_waited in Hc as [[Hs|(?&?&?)] _]; [|done]. pose proof (quiet_graph _ _ (sl_quiet _ _ Hs) Hg) as Hg1.
    apply (graph_inv_step g1); try done; [apply Hg1|]. intros _. right; right; left. by rewrite (qu_at _ _ (sl_quiet _ _ Hs)), Ha.
  - apply check_admission_waited in Hc as [[Hs2|(?&?&?)] _]; [|done].
    pose proof (quiet_trans _ _ _ (sl_quiet _ _ Hs) (sl_quiet _ _ Hs2)) as Hq. pose proof (quiet_graph _ _ Hq Hg) as Hg1.
    apply (graph_inv_step g2); try done; [apply Hg1|]. intros _. right; right; left. by rewrite (qu_at _ _ Hq), Ha.
  - pose proof (quiet_graph _ _ (sl_quiet _ _ Hs) Hg) as Hg1. apply (graph_inv_step g1); try done; [apply Hg1|].
    intros _. right; right; left. by rewrite (qu_at _ _ (sl_quiet _ _ Hs)), Ha.
  - pose proof (quiet_graph _ _ (sl_quiet _ _ Hs) Hg) as Hg1. destruct (record_put e g1) as (st&->&_).
    apply (graph_inv_step g1); try done; [apply Hg1|]. intros [Hx|[Hx|[Hx|[Hx|Hx]]]]; [by left|by right; left|done|by do 3 right; left|by do 4 right].
  - pose proof (quiet_graph _ _ (sl_quiet _ _ Hs) Hg) as Hg1. apply (graph_inv_step g1); try done; [apply Hg1|].
    intros [Hx|[Hx|[Hx|[Hx|Hx]]]]; [by left|by right; left|done|by do 3 right; left|by do 4 right].
  - pose proof (quiet_graph _ _ (sl_quiet _ _ Hs) Hg) as Hg1.
    assert (Hj : co_at (gr_own (join_task i g1)) = CoClean p c o) by (cbn; by rewrite (qu_at _ _ (sl_quiet _ _ Hs))).
    destruct (clean_join_put _ _ _ i e _ Hj) as (c'&st&->). apply (graph_inv_step g1); try done; [apply Hg1|].
    intros [Hx|[Hx|[Hx|[Hx|Hx]]]]; [by left|by right; left|done|by do 3 right; left|by do 4 right].
  - apply (graph_inv_step g); try done; [apply Hg|].
    intros [Hx|[Hx|[Hx|[Hx|Hx]]]]; [by left|by right; left|done|by do 3 right; left|by do 4 right].
  - destruct Hd. apply (graph_inv_step g); try done.
    + rewrite cd_controller. apply Hg.
    + by rewrite cd_at.
    + intros [Hx|[Hx|[Hx|[Hx|(i&Hi)]]]].
      * left. by rewrite <- cd_controller.
      * rewrite cd_control in Hx. destruct Hx as [s []%elem_of_nil].
      * by rewrite cd_at in Hx.
      * do 3 right; left. congruence.
      * do 4 right. exists i. unfold worker_at in *. by rewrite <- cd_workers.
Qed.

Lemma worker_past g g' i b a a' sent :
  worker_at g i = Some a → moves g i (mb_namespace b) a a' sent → effect i b a a' sent g g' →
  past_validation g' → past_validation g.
Proof.
  intros Ha Hm [_ _ Ew Ek Eo (l&calls&Es) _ _ _] [(s&Hs)|[(s&Hs)|[Hx|[Hc|(j&Hj)]]]].
  - left. exists s. by rewrite <- Ek.
  - right; left. exists s. by rewrite Es in Hs.
  - right; right; left. by rewrite Eo in Hx.
  - do 3 right; left. by rewrite Es in Hc.
  - unfold worker_at in Hj. rewrite Ew in Hj. destruct (decide (j = i)) as [->|Hne].
    + rewrite list_lookup_insert_eq in Hj by (by eapply lookup_lt_Some). injection Hj as ->. inversion Hm; subst.
      do 3 right. by left.
    + rewrite list_lookup_insert_ne in Hj by done. do 4 right. by exists j.
Qed.

(** The local controller sends [Advance] only after its validation. *)
Lemma controller_graph g : graph_inv g → graph_inv (controller_turn display g).
Proof.
  intros Hg. assert (Hgone : ∀ k, (∀ s, k ≠ KSend (Advance s) ∧ k ≠ KAwait s) → k ≠ KExternal → graph_inv (put_controller k g)).
  { intros k Hk Hne. apply (graph_inv_step g); try done. intros [(s&[Hs|Hs])|Hx]; [by destruct (Hk s)..|by right]. }
  assert (Hsend : ∀ k c, past_validation g → k ≠ KExternal → graph_inv (put_controller k (put_control c g))).
  { intros k c Hp Hne. by apply (graph_inv_step g). }
  unfold controller_turn. destruct (gr_controller g) as [|r|stage| |] eqn:Ek; try done.
  - destruct (sh_terminal _); [by apply Hgone|]. destruct (sh_reports (gr_shared g)) as [rs|] eqn:Er; [|done].
    destruct (admit_graph display _ rs) as [[[]|e]|] eqn:Ea; [|by apply Hgone..].
    split; cbn; [apply Hg|done|]. intros _. by exists rs.
  - unfold send_request. destruct (done g); [by apply Hgone|]. destruct (sh_control (gr_shared g)) as [|q l] eqn:Ec; [|done].
    destruct r as [s|e].
    + apply Hsend; [|done]. left. exists s. by left.
    + apply (graph_inv_step g); try done. intros [(s&[Hs|Hs])|[(s&Hs)|Hx]]; [done|done| |by right; right].
      apply list_elem_of_singleton in Hs. done.
  - destruct (sh_terminal _); [by apply Hgone|]. case_bool_decide; [|done].
    assert (Hp : past_validation g) by (left; exists stage; by right).
    rewrite <- (put_control_id g) at 1. destruct stage; by apply Hsend.
Qed.

Lemma step_graph g s : graph_inv g → graph_inv (group_step display g s).
Proof.
  intros Hg. destruct (group_step_moves display g s) as [|g' Hc|i b a a' sent g' _ Ha _ Hm He|i a m Ha Hex _|g' Hs]; try done.
  - by eapply co_moves_graph.
  - pose proof He as [_ El Ew Ek Eo (l&calls&Es) _ _ _]. apply (graph_inv_step g); try done; try (by rewrite ?Es, ?Eo).
    + rewrite Ek. apply Hg.
    + by eapply worker_past.
  - apply (graph_inv_step g); try done; [apply Hg|].
    intros [Hx|[Hx|[Hx|[Hx|(j&Hj)]]]]; [by left|by right; left|by right; right; left|by do 3 right; left|].
    do 4 right. exists j. unfold worker_at in *. cbn in Hj. destruct (decide (j = i)) as [->|Hne].
    + by rewrite list_lookup_insert_eq in Hj by (by eapply lookup_lt_Some).
    + by rewrite list_lookup_insert_ne in Hj.
  - destruct Hs as [k c Hk|i act|r _|calls].
    + destruct Hk as [Hk|[[-> Hk]|<-]]; [by destruct (gi_local _ Hg)| |by apply controller_graph].
      apply (graph_inv_step g); try done; [apply Hg|].
      intros [Hx|[(s'&Hs')|Hx]]; [by left| |by right; right]. right; left. exists s'. by apply Hk.
    + destruct (on_context_put' i (context_act act) g) as (ms&->&_). apply (graph_inv_step g); try done. apply Hg.
    + apply (graph_inv_step g); try done. apply Hg.
    + apply (graph_inv_step g); try done. apply Hg.
Qed.

Lemma launched_graph g : launched g KReports → graph_inv g.
Proof.
  intros [[d ->] _ _ _]. split; cbn; try done. intros [(s&[|])|[(s&Hs)|[|[|(i&Hi)]]]]; try done.
  - by apply elem_of_nil in Hs.
  - unfold worker_at in Hi. cbn in Hi. by apply lookup_replicate in Hi as [? _].
Qed.

(** What the local controller validated *)
Lemma admit_graph_Ok bindings reports :
  admit_graph display bindings reports = Some (Ok tt) →
  ∃ entries, re_bindings <$> entries = bindings ∧ Forall (λ e, re_report e ∈ reports) entries ∧
    validate_graph entries = Some (Ok tt).
Proof.
  unfold admit_graph. destruct (graph_entries bindings reports) as [entries|] eqn:E; [|done].
  destruct (validate_graph entries) as [[[]|]|] eqn:Ev; [|done..]. intros _. exists entries.
  cut (re_bindings <$> entries = bindings ∧ Forall (λ e, re_report e ∈ reports) entries); [naive_solver|].
  clear Ev. unfold graph_entries in E.
  apply (for_fold_Ok _ (λ pre s, re_bindings <$> s = pre ∧ Forall (λ e, re_report e ∈ reports) s)) in E.
  - exact E.
  - intros pre b post s s' _ [H1 H2] (e&He&[= <-])%bind_Ok. unfold graph_entry in He.
    destruct (find _ reports) as [r|] eqn:Ef; [|done]. injection He as <-. split.
    + rewrite fmap_app. cbn. by rewrite H1.
    + apply Forall_app. split; [done|]. constructor; [|done]. by apply find_Some in Ef as [? _].
  - done.
Qed.
End graph.

(** C8: components run in a closed graph: in a group launched with the local
    controller, whatever the tasks, the component code, the step driver and the
    handle do and in whatever order, a component's run hook is entered only
    after every component's report was published and the reports, with the
    bindings of all instances in order, passed [validate_graph]. *)
Theorem runs_validated_graph limit now registry domain liveliness startup stopping instances driver runtime display g l i :
  launch_group limit now registry domain liveliness startup stopping instances driver runtime KReports = Ok g →
  worker_at (group_run display g l) i = Some AtRun →
  ∃ reports entries, sh_reports (gr_shared (group_run display g l)) = Some reports ∧
    re_bindings <$> entries = in_bindings <$> instances ∧ Forall (λ e, re_report e ∈ reports) entries ∧
    validate_graph entries = Some (Ok tt).
Proof.
  intros Hl Hw. apply launch_launched in Hl as (Hl&_&_&Hb).
  assert (Hg : graph_inv display (group_run display g l)).
  { apply run_invariant; [by apply launched_graph|]. intros. by apply step_graph. }
  destruct (gi_past _ _ Hg) as (rs&Hr&Ha); [by do 4 right; exists i|].
  apply admit_graph_Ok in Ha as (entries&He&Hrep&Hv). exists rs, entries. split_and!; try done.
  by rewrite He, (proj1 (run_constant display g l)).
Qed.

(** ** The outcome is true *)

Definition has_error (s : GroupStatus) : Prop := ∃ id c, (id, c) ∈ gs_components s ∧ is_Some (cst_error c).

Lemma update_error id f s (P : Prop) :
  (∀ c, is_Some (cst_error (f c)) → is_Some (cst_error c) ∨ P) →
  has_error (update_component id f s) → has_error s ∨ P.
Proof.
  intros Hf (id'&c'&Hin&He). unfold update_component in Hin. destruct (bt_get id (gs_components s)) as [c|] eqn:E.
  - cbn in Hin. apply bt_insert_elem in Hin as [[= -> ->]|Hin].
    + destruct (Hf c He) as [Hc|]; [|by right]. left. exists id, c. split; [by apply bt_get_elem|done].
    + left. by exists id', c'.
  - left. by exists id', c'.
Qed.

Lemma component_phase_error id p s : has_error (component_phase id p s) → has_error s.
Proof.
  unfold component_phase. destruct (terminal_phase _); [done|]. intros H.
  apply (update_error _ _ _ False) in H as [|[]]; [done|]. intros c. case_bool_decide; cbn; auto.
Qed.

Lemma note_phases_error l s : has_error (note_phases l s) → has_error s.
Proof.
  revert s. induction l as [|e l IH]; intros s; [done|]. cbn. intros H. fold (note_phases l (component_phase e.1 e.2 s)) in H.
  by apply IH, component_phase_error in H.
Qed.

(** A failure that the coordinator knows *)
Definition failed (g : Group) : Prop :=
  match co_at (gr_own g) with
  | CoClean p c _ | CoDriver p c => p ≠ None ∨ c ≠ []
  | CoDone => sh_terminal (gr_shared g) ≠ Some LocalStopped
  | _ => False
  end.

(** What a terminal outcome says of the tasks that were not joined *)
Definition outcome_ok (g : Group) (o : LocalOutcome) : Prop :=
  match o with
  | LocalStopped | LocalFailed _ _ => co_pending (gr_own g) = []
  | LocalUnresponsive _ _ ids =>
      ids = mb_namespace <$> la_bindings (gr_launch g) ∨
      (co_pending (gr_own g) ≠ [] ∧ ids = sort_by_key id (co_pending (gr_own g)).*2)
  end.

Record tasks_inv (g : Group) : Prop := {
  ti_length : length (gr_workers g) = length (la_bindings (gr_launch g));
  ti_ok : bt_ok (co_pending (gr_own g));
  ti_keys i : i ∈ co_tasks (gr_own g) ↔ i ∈ (co_pending (gr_own g)).*1;
  ti_ids i id : (i, id) ∈ co_pending (gr_own g) → mb_namespace <$> la_bindings (gr_launch g) !! i = Some id;
  ti_joined i e : (i, e) ∈ co_joined (gr_own g) → i ∈ co_tasks (gr_own g) ∧ worker_at g i = Some (AtExit e);
  ti_once : NoDup (co_joined (gr_own g)).*1;
  ti_exit i e : i ∈ co_tasks (gr_own g) → worker_at g i = Some (AtExit e) → (i, e) ∈ co_joined (gr_own g);
  ti_left i : i < length (gr_workers g) → i ∉ co_tasks (gr_own g) →
    ∃ e, worker_at g i = Some (AtExit e) ∧ (e = TaskReturned None ∨ failed g);
  ti_all : before_clean (co_at (gr_own g)) = true → ∀ i, i < length (gr_workers g) → i ∈ co_tasks (gr_own g);
  ti_errors : has_error (sh_status (gr_shared g)) → failed g;
  ti_outcome : co_at (gr_own g) = CoDone → ∃ o, sh_terminal (gr_shared g) = Some o ∧ outcome_ok g o;
}.

(** A step that leaves the tasks as they are *)
Lemma tasks_same g g' :
  tasks_inv g → gr_launch g' = gr_launch g → gr_workers g' = gr_workers g →
  co_tasks (gr_own g') = co_tasks (gr_own g) → co_joined (gr_own g') = co_joined (gr_own g) →
  co_pending (gr_own g') = co_pending (gr_own g) → (failed g → failed g') →
  (before_clean (co_at (gr_own g')) = true → before_clean (co_at (gr_own g)) = true) →
  (has_error (sh_status (gr_shared g')) → has_error (sh_status (gr_shared g)) ∨ failed g') →
  (co_at (gr_own g') = CoDone → ∃ o, sh_terminal (gr_shared g') = Some o ∧ outcome_ok g' o) → tasks_inv g'.
Proof.
  intros [H1 H2 H3 H4 H5 H6 H7 H8 H9 H10 H11] El Ew Et Ej Ep Hf Hb He Ho. unfold worker_at in *.
  split; unfold worker_at; rewrite ?El, ?Ew, ?Et, ?Ej, ?Ep; try done.
  - intros i Hi Hn. destruct (H8 i Hi Hn) as (e&Hw&[|]); exists e; auto.
  - auto.
  - intros [?%H10|?]%He; auto.
Qed.

Lemma still_tasks g g' : still g g' → tasks_inv g → tasks_inv g'.
Proof.
  intros [[] Et Ej Ep Es] Ht. apply (tasks_same g); try done.
  - unfold failed. by rewrite qu_at, qu_terminal.
  - by rewrite qu_at.
  - rewrite Es. by left.
  - rewrite qu_at, qu_terminal. intros Hd. destruct (ti_outcome _ Ht Hd) as (o&Ho&Hok). exists o. split; [done|].
    unfold outcome_ok in *. by rewrite qu_launch, Ep.
Qed.

(** A step that joins the task that ended first *)
Lemma tasks_join g g' i e l :
  tasks_inv g → co_joined (gr_own g) = (i, e) :: l →
  gr_launch g' = gr_launch g → gr_workers g' = gr_workers g →
  co_tasks (gr_own g') = filter (λ n, n ≠ i) (co_tasks (gr_own g)) → co_joined (gr_own g') = l →
  co_pending (gr_own g') = (bt_remove i (co_pending (gr_own g))).2 →
  (e = TaskReturned None ∨ failed g') → (failed g → failed g') → before_clean (co_at (gr_own g')) = false →
  (has_error (sh_status (gr_shared g')) → failed g') → co_at (gr_own g') ≠ CoDone → tasks_inv g'.
Proof.
  intros [H1 H2 H3 H4 H5 H6 H7 H8 H9 H10 H11] Hj El Ew Et Ej Ep He Hf Hb Herr Hd. rewrite Hj in *.
  destruct (H5 i e) as [Hi Hwi]; [by left|]. apply NoDup_cons in H6 as [Hnew Hnd]. unfold worker_at in *.
  split; unfold worker_at; rewrite ?El, ?Ew, ?Et, ?Ej, ?Ep; try done.
  - by apply bt_remove_ok.
  - intros k. rewrite list_elem_of_filter, H3, !list_elem_of_fmap. split.
    + intros [Hk ([k' v]&->&Hin)]. exists (k', v). split; [done|]. by apply bt_remove_elem.
    + intros ([k' v]&->&[Hin Hk]%bt_remove_elem); [|done]. split; [done|]. by exists (k', v).
  - intros k id [Hin _]%bt_remove_elem; [|done]. by apply H4.
  - intros k x Hin. destruct (H5 k x) as [Hk Hw]; [by right|]. split; [|done]. apply list_elem_of_filter. split; [|done].
    intros ->. apply Hnew. by apply (list_elem_of_fmap_2 fst) in Hin.
  - intros k x [Hk Hin]%list_elem_of_filter Hw. specialize (H7 k x Hin Hw). apply elem_of_cons in H7 as [[= -> ->]|?]; done.
  - intros k Hk Hn. destruct (decide (k = i)) as [->|Hne]; [by exists e|].
    destruct (H8 k Hk) as (x&Hw&[|]); [intros Hin; apply Hn; by apply list_elem_of_filter|exists x; auto..].
  - by rewrite Hb.
Qed.

Lemma begin_cleanup_errors p r g :
  has_error (sh_status (gr_shared (begin_cleanup p r g))) → has_error (sh_status (gr_shared g)) ∨ p ≠ None.
Proof.
  destruct p as [e|]; [by right|]. unfold begin_cleanup. destruct (gate_call_put GateStop g) as [calls ->]. unfold note_status.
  match goal with |- context[release_tickets (co_ready ?o) ?g] =>
    destruct (release_tickets_put (co_ready o) g) as (ms1&->&_) end.
  match goal with |- context[release_tickets ?l ?g] => destruct (release_tickets_put l g) as (ms2&->&_) end.
  match goal with |- context[foldl ?f ?g ?l] => destruct (shutdown_all_put l g) as (ms3&->&_) end.
  by left.
Qed.

Lemma early_exit_tasks i e g error g' :
  early_exit i e g = (error, g') →
  gr_launch g' = gr_launch g ∧ gr_workers g' = gr_workers g ∧ co_tasks (gr_own g') = co_tasks (gr_own g) ∧
  co_joined (gr_own g') = co_joined (gr_own g) ∧ co_pending (gr_own g') = (bt_remove i (co_pending (gr_own g))).2.
Proof.
  unfold early_exit. destruct (bt_remove _ _) as [instance pending]. intros [= _ <-].
  match goal with |- context[record_error ?e ?g] => destruct (record_put e g) as (st&->&Hs) end. done.
Qed.

Lemma clean_tasks g g1 p r :
  before_clean (co_at (gr_own g)) = true → waited g g1 p → tasks_inv g → tasks_inv (begin_cleanup p r g1).
Proof.
  intros Hb Hw Ht. assert (Hnf : ¬ failed g) by (unfold failed; destruct (co_at (gr_own g)); naive_solver).
  pose proof (begin_cleanup_errors p r g1) as Herr. destruct (begin_cleanup_put p r g1) as (ms&st&calls&E&_). rewrite E in *.
  destruct Hw as [Hs|(e&->&i&x&l&h&Hs&Hj&Hx)].
  - pose proof (still_tasks _ _ Hs Ht) as Ht1. assert (Hnf1 : ¬ failed g1).
    { unfold failed. by rewrite (qu_at _ _ (sl_quiet _ _ Hs)), (qu_terminal _ _ (sl_quiet _ _ Hs)). }
    apply (tasks_same g1); try done.
    intros [?|?]%Herr; [by left|]. right. by left.
  - assert (Hj' : co_joined (gr_own h) = (i, x) :: l) by by rewrite (sl_joined _ _ Hs).
    pose proof (still_tasks _ _ Hs Ht) as Hth. apply early_exit_tasks in Hx as (E1&E2&E3&E4&E5). cbn in E3, E4, E5.
    apply (tasks_join h _ i x l); try done; cbn.
    + by rewrite E4, Hj'.
    + right. by left.
    + intros _. by left.
    + intros _. by left.
Qed.

(** What a task's end says when it is joined in the cleanup *)
Definition task_error (i : nat) (e : TaskEnd) (pending : btree nat str) : option HostError :=
  match e with
  | TaskReturned error => error
  | TaskPanicked message => Some (host_error_new EPanic (bt_get i pending) message)
  end.

Lemma clean_join_full p c o i e h :
  co_at (gr_own h) = CoClean p c o →
  ∃ st, clean_join p c o i e h =
    put_at (CoClean p (c ++ option_list (task_error i e (co_pending (gr_own h)))) o)
      (put_status st (put_pending (bt_remove i (co_pending (gr_own h))).2 h)) ∧
    (has_error st → has_error (sh_status (gr_shared h)) ∨ task_error i e (co_pending (gr_own h)) ≠ None).
Proof.
  intros Hat. unfold clean_join. change (match e with TaskReturned error => error | _ => _ end) with
    (task_error i e (co_pending (gr_own h))). set (error := task_error i e (co_pending (gr_own h))).
  set (k := match error with Some error => _ | None => _ end).
  assert (Hk : ∃ st, k = put_at (CoClean p (c ++ option_list error) o) (put_status st h) ∧
                     (has_error st → has_error (sh_status (gr_shared h)) ∨ error ≠ None)).
  { unfold k. destruct error as [er|].
    - destruct (record_put er h) as (st&->&_). exists st. split; [done|]. by right.
    - exists (sh_status (gr_shared h)). split; [|by left]. cbn. rewrite app_nil_r. destruct h as [? [] []]; cbn in *. by subst. }
  destruct Hk as (st&->&Hst). cbn. destruct (bt_remove _ _) as [[id|] pending].
  - eexists. split; [done|]. intros H. apply (update_error _ _ _ False) in H as [|[]]; [by apply Hst|]. intros c'. cbn. by left.
  - by exists st.
Qed.

(** The turn that concludes *)
Lemma conclude_status o g :
  sh_status (gr_shared (conclude o g)) = with_group_phase (final_phase o) (sh_status (gr_shared g)).
Proof.
  unfold conclude, note_status.
  match goal with |- context[gate_call ?c ?g] => destruct (gate_call_put c g) as [calls ->] end.
  by match goal with |- context[release_tickets ?l ?g] => destruct (release_tickets_put l g) as (ms&->&Hl) end.
Qed.

Lemma driver_turn_outcome p c late g :
  co_at (gr_own g) = CoDriver p c → co_at (gr_own (driver_turn p c late g)) = CoDone →
  ∃ o, concluded o g (driver_turn p c late g) ∧
    (o = LocalUnresponsive p c (mb_namespace <$> la_bindings (gr_launch g)) ∨
     ∃ c', o = cleanup_outcome p (c ++ c') (co_pending (gr_own g))) ∧
    (has_error (sh_status (gr_shared (driver_turn p c late g))) → has_error (sh_status (gr_shared g))).
Proof.
  intros Hat Hd. unfold driver_turn in *.
  assert (Hfin : ∀ c' driver, ∃ o, concluded o g (finish_cleanup p (c ++ c') (put_driver driver g)) ∧
    (o = LocalUnresponsive p c (mb_namespace <$> la_bindings (gr_launch g)) ∨
     ∃ c', o = cleanup_outcome p (c ++ c') (co_pending (gr_own g))) ∧
    (has_error (sh_status (gr_shared (finish_cleanup p (c ++ c') (put_driver driver g)))) → has_error (sh_status (gr_shared g)))).
  { intros c' driver. destruct (finish_concluded p (c ++ c') g driver) as [Hc (l&Hl)]. eexists. split; [exact Hc|].
    split; [right; by exists c'|]. intros (id'&x&Hin&He). rewrite Hl in Hin. apply (note_phases_error l). by exists id', x. }
  destruct (co_driver (gr_own g)) as [[|r]|] eqn:Ed.
  - destruct late; [|by rewrite Hat in Hd]. eexists. split; [|split; [by left|]].
    + replace (put_driver None g) with (put_status (sh_status (gr_shared g)) (put_driver None g)) by (by destruct g as [? [] ]).
      apply conclude_concluded.
    + rewrite conclude_status. done.
  - destruct r as [|message]; [|apply Hfin]. specialize (Hfin [] None). by rewrite app_nil_r in Hfin.
  - specialize (Hfin [] None). rewrite app_nil_r in Hfin.
    by replace (put_driver None g) with g in Hfin by (destruct g as [? ? []]; cbn in Ed; by subst).
Qed.

Lemma co_moves_tasks g g' : co_moves g g' → tasks_inv g → tasks_inv g'.
Proof.
  intros Hm Ht. destruct Hm as [g' Hs|g1 p r Hb Hw|g1 Ha _ Hc|g1 Ha Hs _|b rest i t prepared m m' ready declared Ha _ _ _ _|g1 Ha Hc|
    g1 g2 calls Ha Hs _ Hc|g1 Ha Hs|p c o e g1 Ha Hs|p c o g1 Ha Hs|p c o i e l g1 Ha Hs Hj|p c o late Ha _|p c late g' o Ha Hg' Hd].
  - by eapply still_tasks.
  - by eapply clean_tasks.
  - apply check_admission_waited in Hc as [[Hs|(?&?&?)] _]; [|done]. pose proof (still_tasks _ _ Hs Ht) as Ht1.
    pose proof (qu_at _ _ (sl_quiet _ _ Hs)) as Ha1. rewrite Ha in Ha1.
    apply (tasks_same g1); try done; [unfold failed; by rewrite Ha1|by rewrite Ha1|by left].
  - pose proof (still_tasks _ _ Hs Ht) as Ht1. pose proof (qu_at _ _ (sl_quiet _ _ Hs)) as Ha1. rewrite Ha in Ha1.
    apply (tasks_same g1); try done; [unfold failed; by rewrite Ha1|by rewrite Ha1|by left].
  - apply (tasks_same g); try done; [unfold failed; by rewrite Ha|by rewrite Ha|]. cbn. intros ?%component_phase_error. by left.
  - apply check_admission_waited in Hc as [[Hs|(?&?&?)] _]; [|done]. pose proof (still_tasks _ _ Hs Ht) as Ht1.
    pose proof (qu_at _ _ (sl_quiet _ _ Hs)) as Ha1. rewrite Ha in Ha1.
    apply (tasks_same g1); try done; [unfold failed; by rewrite Ha1|by rewrite Ha1|by left].
  - apply check_admission_waited in Hc as [[Hs2|(?&?&?)] _]; [|done].
    pose proof (still_trans _ _ _ Hs Hs2) as Hs3. pose proof (still_tasks _ _ Hs3 Ht) as Ht1.
    pose proof (qu_at _ _ (sl_quiet _ _ Hs3)) as Ha1. rewrite Ha in Ha1.
    apply (tasks_same g2); try done; [unfold failed; by rewrite Ha1|by rewrite Ha1|by left].
  - pose proof (still_tasks _ _ Hs Ht) as Ht1. pose proof (qu_at _ _ (sl_quiet _ _ Hs)) as Ha1. rewrite Ha in Ha1.
    apply (tasks_same g1); try done; [unfold failed; by rewrite Ha1|by rewrite Ha1|by left].
  - pose proof (still_tasks _ _ Hs Ht) as Ht1. pose proof (qu_at _ _ (sl_quiet _ _ Hs)) as Ha1. rewrite Ha in Ha1.
    assert (Hf : p ≠ None ∨ (if same_as_primary p e then c else c ++ [e]) ≠ []).
    { destruct p as [first|]; [by left|]. right. cbn. by destruct c. }
    destruct (record_put e g1) as (st&->&_). apply (tasks_same g1); try done. by right.
  - pose proof (still_tasks _ _ Hs Ht) as Ht1. pose proof (qu_at _ _ (sl_quiet _ _ Hs)) as Ha1. rewrite Ha in Ha1.
    apply (tasks_same g1); try done; [unfold failed; by rewrite Ha1|by left].
  - pose proof (still_tasks _ _ Hs Ht) as Ht1. pose proof (qu_at _ _ (sl_quiet _ _ Hs)) as Ha1. rewrite Ha in Ha1.
    assert (Hat : co_at (gr_own (join_task i g1)) = CoClean p c o) by exact Ha1.
    destruct (clean_join_full _ _ _ i e _ Hat) as (st&->&Hst). cbn [join_task put_tasks put_joined gr_own co_pending] in *.
    rewrite (sl_pending _ _ Hs) in *. set (err := task_error i e (co_pending (gr_own g))) in *.
    assert (Hf : failed g → p ≠ None ∨ c ++ option_list err ≠ []).
    { unfold failed. rewrite Ha. intros [?|?]; [by left|right]. by destruct c. }
    assert (Hf' : err ≠ None → p ≠ None ∨ c ++ option_list err ≠ []).
    { intros Hn. right. destruct err; [|done]. by destruct c. }
    apply (tasks_join g _ i e l); try done; cbn.
    + apply Hs. + apply Hs. + by rewrite (sl_tasks _ _ Hs). + by rewrite (sl_joined _ _ Hs), Hj.
    + destruct err eqn:Ee; [right; by apply Hf'|left]. unfold err, task_error in Ee. by destruct e as [[|]|].
    + intros [He|He]%Hst; [|by apply Hf']. apply Hf. cbn in He. rewrite (sl_status _ _ Hs) in He. by apply Ht.
  - apply (tasks_same g); try done; [unfold failed; by rewrite Ha|by left].
  - pose proof (cd_at _ _ _ Hd) as Hdone. rewrite Hg' in Hdone.
    destruct (driver_turn_outcome p c late g Ha Hdone) as (o'&Hd'&Ho&Herr). rewrite <- Hg' in *.
    assert (Hne : failed g → failed g').
    { unfold failed. rewrite (cd_at _ _ _ Hd'), (cd_terminal _ _ _ Hd'), Ha. intros Hpc. destruct Ho as [->|(c'&->)]; [done|].
      unfold cleanup_outcome. destruct (co_pending (gr_own g)); [|done]. destruct p; [done|]. destruct c; [|done].
      by destruct Hpc. }
    destruct Hd'. apply (tasks_same g); try done.
    + by rewrite cd_at.
    + intros ?%Herr. by left.
    + intros _. exists o'. split; [done|]. unfold outcome_ok. destruct Ho as [->|(c'&->)].
      * left. by rewrite cd_launch.
      * unfold cleanup_outcome. rewrite cd_pending. destruct (co_pending (gr_own g)) eqn:Ep; [|by right].
        destruct p; [done|]. by destruct (c ++ c').
Qed.

(** A worker moves, or ends. *)
Lemma tasks_moved g g' i a a' :
  tasks_inv g → worker_at g i = Some a → exited a = false →
  gr_launch g' = gr_launch g → gr_workers g' = <[i := a']> (gr_workers g) →
  gr_own g' = gr_own (put_joined (co_joined (gr_own g) ++ match a' with AtExit e => [(i, e)] | _ => [] end) g) →
  sh_terminal (gr_shared g') = sh_terminal (gr_shared g) →
  (has_error (sh_status (gr_shared g')) → has_error (sh_status (gr_shared g))) → tasks_inv g'.
Proof.
  intros [H1 H2 H3 H4 H5 H6 H7 H8 H9 H10 H11] Ha Hex El Ew Eo Et Herr. unfold worker_at in *.
  assert (Hi : i < length (gr_workers g)) by by eapply lookup_lt_Some.
  assert (Hin : i ∈ co_tasks (gr_own g)).
  { destruct (decide (i ∈ co_tasks (gr_own g))) as [|Hn]; [done|]. destruct (H8 i Hi Hn) as (e&He&_). rewrite Ha in He.
    injection He as ->. done. }
  assert (Hfresh : ∀ e, (i, e) ∉ co_joined (gr_own g)).
  { intros e [_ He]%H5. rewrite Ha in He. injection He as ->. done. }
  assert (Hf : failed g ↔ failed g') by (unfold failed; by rewrite Eo, Et).
  set (new := match a' with AtExit e => [(i, e)] | _ => [] end) in *.
  assert (Hnew : ∀ k e, (k, e) ∈ new → k = i ∧ a' = AtExit e).
  { unfold new. intros k e Hke. destruct a'; try by apply elem_of_nil in Hke. by apply list_elem_of_singleton in Hke as [= -> ->]. }
  split; unfold worker_at; rewrite ?El, ?Ew, ?Eo; cbn [put_joined gr_own co_pending co_tasks co_joined co_at]; try done.
  - by rewrite length_insert.
  - intros k e [Hk|Hk]%elem_of_app.
    + destruct (H5 k e Hk) as [Hkt Hkw]. split; [done|]. rewrite list_lookup_insert_ne; [done|]. intros ->. by destruct (Hfresh e).
    + destruct (Hnew k e Hk) as [-> ->]. split; [done|]. by apply list_lookup_insert_eq.
  - rewrite fmap_app. apply NoDup_app. split_and!; [done| |].
    + intros k Hk Hk'. assert (k = i) as -> by (apply list_elem_of_fmap in Hk' as ([k2 e]&->&Hx); by apply Hnew in Hx as [-> _]).
      apply list_elem_of_fmap in Hk as ([k3 e3]&Hk3&Hin3). cbn in Hk3. subst k3. by destruct (Hfresh e3).
    + unfold new. destruct a'; try constructor; [by intros ?%elem_of_nil|constructor].
  - intros k e Hk Hw. apply elem_of_app. destruct (decide (k = i)) as [->|Hne].
    + rewrite list_lookup_insert_eq in Hw by done. injection Hw as ->. right. unfold new. by left.
    + rewrite list_lookup_insert_ne in Hw by done. left. auto.
  - rewrite length_insert. intros k Hk Hn. destruct (H8 k Hk Hn) as (e&He&Hor). exists e. split.
    + rewrite list_lookup_insert_ne; [done|]. by intros ->.
    + rewrite <- Hf. done.
  - rewrite length_insert. done.
  - rewrite <- Hf. auto.
  - intros Hd. destruct (H11 Hd) as (o&Ho&Hok). exists o. rewrite Et. split; [done|]. unfold outcome_ok in *. by rewrite Eo, El.
Qed.

Lemma step_tasks display g s : tasks_inv g → tasks_inv (group_step display g s).
Proof.
  intros Ht. destruct (group_step_moves display g s) as [|g' Hc|i b a a' sent g' _ Ha _ Hm He|i a m Ha Hex _|g' Hs]; try done.
  - by eapply co_moves_tasks.
  - destruct He as [_ El Ew _ Eo (l&calls&Es) _ _ _]. eapply (tasks_moved g g' i a a'); try done.
    + destruct Hm as [| | | | | | |a ev p Hl _|a r Hl|a Hl|]; try done; [by destruct a|]. destruct Hl as [Hl|[p ->]]; [by destruct a|done].
    + by rewrite Es.
    + rewrite Es. cbn. apply note_phases_error.
  - by apply (tasks_moved g _ i a (AtExit (TaskPanicked m))).
  - assert (Hsame : ∀ h, gr_launch h = gr_launch g → gr_workers h = gr_workers g → co_tasks (gr_own h) = co_tasks (gr_own g) →
      co_joined (gr_own h) = co_joined (gr_own g) → co_pending (gr_own h) = co_pending (gr_own g) →
      co_at (gr_own h) = co_at (gr_own g) → sh_status (gr_shared h) = sh_status (gr_shared g) →
      sh_terminal (gr_shared h) = sh_terminal (gr_shared g) → tasks_inv h).
    { intros h E1 E2 E3 E4 E5 E6 E7 E8. apply (tasks_same g); try done.
      - unfold failed. by rewrite E6, E8.
      - by rewrite E6.
      - rewrite E7. by left.
      - rewrite E6, E8. intros Hd. destruct (ti_outcome _ Ht Hd) as (o&Ho&Hok). exists o. split; [done|].
        unfold outcome_ok in *. by rewrite E1, E5. }
    destruct Hs as [k c _|i act|r _|calls]; try by apply Hsame.
    destruct (on_context_put' i (context_act act) g) as (ms&->&_). by apply Hsame.
Qed.

Lemma lookup_zip_seq {A} (l : list A) n i x : (i, x) ∈ zip (seq n (length l)) l ↔ n ≤ i ∧ l !! (i - n) = Some x.
Proof.
  revert n. induction l as [|y l IH]; intros n; cbn.
  - split; [by intros ?%elem_of_nil|]. intros [_ ?]. done.
  - rewrite elem_of_cons, IH. split.
    + intros [[= -> ->]|[Hle Hl]]; [split; [lia|by rewrite Nat.sub_diag]|]. split; [lia|].
      by replace (i - n) with (S (i - S n)) by lia.
    + intros [Hle Hl]. destruct (decide (i = n)) as [->|Hne].
      * rewrite Nat.sub_diag in Hl. left. by injection Hl as ->.
      * right. split; [lia|]. by replace (i - n) with (S (i - S n)) in Hl by lia.
Qed.

Lemma launched_tasks g k : launched g k → tasks_inv g.
Proof.
  intros [[d Hg] _ _ _]. set (ids := mb_namespace <$> la_bindings (gr_launch g)).
  set (n := length (la_bindings (gr_launch g))).
  assert (Hn : length ids = n) by apply length_fmap.
  assert (Hp : co_pending (gr_own g) = bt_collect (zip (seq 0 n) ids)) by by rewrite Hg.
  assert (Hkeys : ∀ i, i ∈ (co_pending (gr_own g)).*1 ↔ i < n).
  { intros i. rewrite Hp. unfold bt_collect. rewrite bt_extend_keys_iff by done. cbn.
    rewrite fst_zip by (rewrite length_seq, Hn; lia). rewrite elem_of_seq. split; [intros [[]%elem_of_nil|?]; lia|right; lia]. }
  assert (Ht : ∀ i, i ∈ co_tasks (gr_own g) ↔ i < n) by (intros i; rewrite Hg; cbn; rewrite elem_of_seq; lia).
  assert (Hw : ∀ i a, worker_at g i = Some a → a = AtOpen).
  { intros i a. unfold worker_at. rewrite Hg. cbn. by intros [-> _]%lookup_replicate. }
  assert (Hlen : length (gr_workers g) = n) by (rewrite Hg; cbn; apply length_replicate).
  assert (Hj : co_joined (gr_own g) = []) by by rewrite Hg.
  split; rewrite ?Hlen, ?Hj; try done.
  - rewrite Hp. by apply bt_extend_ok.
  - intros i. by rewrite Hkeys, Ht.
  - intros i id. rewrite Hp. unfold bt_collect. intros [?%elem_of_nil|Hz]%bt_extend_elem; [done|]. rewrite <- Hn in Hz.
    apply lookup_zip_seq in Hz as [_ Hl]. rewrite Nat.sub_0_r in Hl. unfold ids in Hl. by rewrite list_lookup_fmap in Hl.
  - intros i e ?%elem_of_nil. done.
  - constructor.
  - intros i e _ He%Hw. done.
  - intros i Hi Hni. by rewrite Ht in Hni.
  - intros _ i Hi. by apply Ht.
  - intros (id&c&Hin&He). exfalso. rewrite Hg in Hin. cbn in Hin. unfold bt_collect in Hin.
    apply bt_extend_elem in Hin as [?%elem_of_nil|Hin]; [done|]. apply list_elem_of_fmap in Hin as (x&[= -> ->]&_). by destruct He.
  - by rewrite Hg.
Qed.

(** C9: the terminal outcome is true, whatever the tasks, the components, the
    driver and the handle do and in whatever order: the final phase is its own;
    [Stopped] means that every component's task ended without an error and none
    was recorded; [Failed], that every task ended; and [Unresponsive] names,
    sorted, exactly instances that include every one whose task did not end, or
    all of them if the step driver did not end. *)
Theorem outcome_is_true limit now registry domain liveliness startup stopping instances driver runtime controller
    display g l o :
  launch_group limit now registry domain liveliness startup stopping instances driver runtime controller = Ok g →
  let h := group_run display g l in
  sh_terminal (gr_shared h) = Some o →
  gs_phase (sh_status (gr_shared h)) = final_phase o ∧
  match o with
  | LocalStopped =>
      (∀ i, i < length instances → worker_at h i = Some (AtExit (TaskReturned None))) ∧
      ∀ id c, (id, c) ∈ gs_components (sh_status (gr_shared h)) → cst_error c = None
  | LocalFailed _ _ => ∀ i, i < length instances → ∃ e, worker_at h i = Some (AtExit e)
  | LocalUnresponsive _ _ ids =>
      ids = mb_namespace ∘ in_bindings <$> instances ∨
      ids ≠ [] ∧ StronglySorted (le_on id) ids ∧
      (∀ x, x ∈ ids → ∃ i, mb_namespace ∘ in_bindings <$> instances !! i = Some x) ∧
      ∀ i x, instances !! i = Some x → mb_namespace (in_bindings x) ∉ ids → ∃ e, worker_at h i = Some (AtExit e)
  end.
Proof.
  intros Hl h Ho. apply launch_launched in Hl as (Hl&_&_&Hb).
  assert (Hc : concluded_ok h) by (apply run_invariant; [by eapply launched_concluded|intros; by apply step_concluded]).
  assert (Ht : tasks_inv h) by (apply run_invariant; [by eapply launched_tasks|intros; by apply step_tasks]).
  assert (Hlh : la_bindings (gr_launch h) = in_bindings <$> instances) by (unfold h; by rewrite (proj1 (run_constant display g l))).
  unfold concluded_ok in Hc. rewrite Ho in Hc. destruct Hc as [Hd Hp]. split; [done|].
  destruct (ti_outcome _ Ht Hd) as (o'&Ho'&Hok). assert (o' = o) as -> by congruence.
  assert (Hn : length (gr_workers h) = length instances) by by rewrite (ti_length _ Ht), Hlh, length_fmap.
  assert (Hleft : ∀ i, i < length instances → i ∉ (co_pending (gr_own h)).*1 →
    ∃ e, worker_at h i = Some (AtExit e) ∧ (e = TaskReturned None ∨ failed h)).
  { intros i Hi Hni. apply (ti_left _ Ht); [by rewrite Hn|]. by rewrite (ti_keys _ Ht). }
  destruct o as [|p c|p c ids]; cbn [outcome_ok] in Hok.
  - assert (Hnf : ¬ failed h) by (unfold failed; rewrite Hd, Ho; naive_solver). split.
    + intros i Hi. destruct (Hleft i Hi) as (e&He&[->|]); [rewrite Hok; by intros ?%elem_of_nil|done|done].
    + intros id x Hin. destruct (cst_error x) as [e|] eqn:Ex; [|done]. destruct Hnf. apply (ti_errors _ Ht). exists id, x.
      split; [done|]. by rewrite Ex.
  - intros i Hi. destruct (Hleft i Hi) as (e&He&_); [rewrite Hok; by intros ?%elem_of_nil|by exists e].
  - destruct Hok as [->|[Hne ->]]; [left; by rewrite Hlh, <- list_fmap_compose|]. right. split_and!.
    + intros Hnil. apply Hne. pose proof (sort_perm id (co_pending (gr_own h)).*2) as Hs. rewrite Hnil in Hs.
      apply Permutation_nil in Hs. by apply fmap_nil_inv in Hs.
    + apply sort_sorted.
    + intros x. rewrite sort_perm. intros ([i y]&->&Hin)%list_elem_of_fmap. exists i. apply (ti_ids _ Ht) in Hin. rewrite Hlh in Hin.
      rewrite list_lookup_fmap in Hin. by destruct (instances !! i).
    + intros i x Hx Hni. destruct (Hleft i) as (e&He&_); [by eapply lookup_lt_Some| |by exists e].
      intros ([k y]&->&Hin)%list_elem_of_fmap. apply Hni. rewrite sort_perm. apply list_elem_of_fmap. exists (k, y). split; [|done]. cbn [fst] in Hx.
      apply (ti_ids _ Ht) in Hin. rewrite Hlh, list_lookup_fmap, Hx in Hin. by injection Hin.
Qed.

(** ** A sensor and a controller in one group *)

Definition sensor_module : ModuleBindings :=
  mkBindings 3 (bytes_of "robot/sensor") (bytes_of "robot/sensor") []
    [(bytes_of "state", mkOutput (stream_contract Live RetainLast))] [] [].

Definition pair_registry : ComponentRegistry := mkComponentRegistry [(bytes_of "factory", tt)] [].
Definition pair_instances : list InstanceSpec :=
  [mkInstanceSpec (bytes_of "factory") sensor_module None;
   mkInstanceSpec (bytes_of "factory") (re_bindings robot_control) None].

Definition pair_launch : result Group HostError :=
  launch_group 100 0 pair_registry (bytes_of "domain") true (Some 5%Z) (Some 5%Z) pair_instances false (Ok tt) KReports.
Definition pair_group : Group :=
  match pair_launch with Ok g => g | Err _ => group_new (mkLaunch [] [] true None None false) false KReports end.

Lemma pair_launched : pair_launch = Ok pair_group.
Proof. by vm_compute. Qed.

Definition co_turn : GroupStep := TCoordinator false (Ok tt).
Definition late : GroupStep := TCoordinator true (Ok tt).
Definition both : list GroupStep := [TWorker 0 HookOk; TWorker 1 HookOk].
Definition open_ports : list GroupStep :=
  [TContext 0 (ActOpen (bytes_of "state") false (TypedStream (bytes_of "robot.State") 17) (Ok tt));
   TContext 1 (ActOpen (bytes_of "pose") true (TypedStream (bytes_of "robot.State") 17) (Ok tt))].

(** Both components prepare, the graph is validated, committed and released. *)
Definition pair_start : list GroupStep :=
  both ++ both ++ [co_turn; co_turn] ++ open_ports ++ both ++ both ++ [co_turn; co_turn; co_turn; TController; TController]
  ++ [co_turn; co_turn; co_turn; co_turn; TController; TController; co_turn; TController] ++ both.

(** The handle stops the group, and both components stop. *)
Definition pair_stop : list GroupStep := [TStop; co_turn] ++ both ++ both ++ [co_turn; co_turn; co_turn; co_turn; co_turn; co_turn].

Lemma runs_validated_graph_witness :
  worker_at (group_run er_detail pair_group pair_start) 0 = Some AtRun ∧
  ∃ reports entries, sh_reports (gr_shared (group_run er_detail pair_group pair_start)) = Some reports ∧
    re_bindings <$> entries = in_bindings <$> pair_instances ∧ Forall (λ e, re_report e ∈ reports) entries ∧
    validate_graph entries = Some (Ok tt).
Proof.
  assert (Hw : worker_at (group_run er_detail pair_group pair_start) 0 = Some AtRun) by by vm_compute.
  split; [exact Hw|]. exact (runs_validated_graph _ _ _ _ _ _ _ _ _ _ er_detail pair_group pair_start 0 pair_launched Hw).
Defined.

Lemma reports_never_wait_witness : worker_turn 0 HookOk (group_run er_detail pair_group pair_start) ≠ None.
Proof. exact (reports_never_wait _ _ _ _ _ _ _ _ _ _ _ er_detail pair_group pair_start 0 HookOk pair_launched). Defined.

(** Neither component answers after the stop. *)
Lemma stop_ends_group_witness :
  is_Some (sh_terminal (gr_shared (group_run er_detail pair_group ((pair_start ++ [TStop]) ++ [late; late; late])))).
Proof.
  apply (stop_ends_group _ _ _ _ _ _ 5%Z _ _ _ _ er_detail pair_group (pair_start ++ [TStop]) [late; late; late] pair_launched);
    [by vm_compute|cbn; lia].
Defined.

Lemma outcome_is_true_witness :
  sh_terminal (gr_shared (group_run er_detail pair_group (pair_start ++ pair_stop))) = Some LocalStopped ∧
  ∀ i, i < 2 → worker_at (group_run er_detail pair_group (pair_start ++ pair_stop)) i = Some (AtExit (TaskReturned None)).
Proof.
  assert (Ho : sh_terminal (gr_shared (group_run er_detail pair_group (pair_start ++ pair_stop))) = Some LocalStopped)
    by by vm_compute.
  split; [exact Ho|].
  apply (outcome_is_true _ _ _ _ _ _ _ _ _ _ _ er_detail pair_group (pair_start ++ pair_stop) LocalStopped pair_launched Ho).
Defined.
