(* ===== verification/HostChannel.v ===== *)
(** * HostChannel: the deployment owner's end of a host's control channel
    ([crates/reiny-launch/src/deployment/hosted/channel.rs], [hosted/codec.rs])

    The owner polls: a turn writes what the socket takes and reads what has
    arrived, 64 KiB at most.  A socket is what has arrived on it, how it ends, the
    room for writing and what was written.  The JSON codec is a parameter.  What
    is read is what the waiting reader of [Connection] would deliver; what is
    written are the frames of the queued bodies, numbered from zero. *)

From Stdlib Require Import ZArith Lia.
From S2P Require Import Prelude Text Btree Core Bindings Step HostProtocol Connection LaunchTypes.

(** ** Sockets *)

(** [sk_end] is how reading ends once nothing is left: open, at the end of the
    stream, or with an error; [sk_broken] is the error of a write *)
Record Socket : Type := mkSocket {
  sk_in : list Z;
  sk_end : option (option str);
  sk_room : nat;
  sk_broken : option str;
  sk_out : list Z;
}.

Inductive SocketRead : Type := ReadGot (bytes : list Z) | ReadClosed | ReadBlocks | ReadError (message : str).

(** A nonblocking [read] into a buffer of [n] bytes *)
Definition sock_read (n : nat) (s : Socket) : SocketRead * Socket :=
  match take n (sk_in s) with
  | [] =>
      (if n =? 0 then ReadClosed else
       match sk_end s with None => ReadBlocks | Some None => ReadClosed | Some (Some e) => ReadError e end, s)
  | bytes => (ReadGot bytes, mkSocket (drop n (sk_in s)) (sk_end s) (sk_room s) (sk_broken s) (sk_out s))
  end.

Inductive SocketWrite : Type := Wrote (count : nat) | WriteBlocks | WriteError (message : str).

(** A nonblocking [write] *)
Definition sock_write (bytes : list Z) (s : Socket) : SocketWrite * Socket :=
  match sk_broken s with
  | Some e => (WriteError e, s)
  | None =>
      if sk_room s =? 0 then (WriteBlocks, s) else
      let count := Nat.min (length bytes) (sk_room s) in
      (Wrote count, mkSocket (sk_in s) (sk_end s) (sk_room s - count) None (sk_out s ++ take count bytes))
  end.

(** ** Errors and constants *)

Definition frame_error_text (e : FrameError) : str :=
  match e with
  | Length n => bytes_of "invalid host frame payload length " ++ decimal n
  | Truncated => bytes_of "truncated host frame"
  | TrailingBytes => bytes_of "trailing host frame bytes"
  end.

Definition envelope_error_text (e : EnvelopeError) : str :=
  match e with
  | Version v => bytes_of "unsupported host protocol version " ++ decimal v
  | Identity => bytes_of "host protocol identity mismatch"
  | SequenceError => bytes_of "host protocol sequence mismatch"
  end.

Definition ensure_text (b : bool) (message : str) : result unit str := if b then Ok tt else Err message.

(** Nanoseconds *)
Definition SECOND : Z := 1000000000.
Definition IO_TIMEOUT : Z := 5 * SECOND.
Definition CHANNEL_BUDGET : nat := 64 * 1024.

(** [codec::frame] of what was serialized; a payload over the limit fails in the writer *)
Definition codec_framed (payload : list Z) : result (list Z) str :=
  let? _ := ensure_text (Z.of_nat (length payload) <=? MAX_FRAME_BYTES)%Z (bytes_of "host frame exceeds limit") in
  let? _ := ensure_text (negb (bool_decide (payload = []))) (bytes_of "empty host frame") in
  let? header := map_err frame_error_text (frame_header payload) in
  Ok (header ++ payload).

Section channel.
Context {M B : Type}.
(** [serde_json::to_writer] of an envelope; whether the keys of every object are
    unique; [serde_json::from_slice] *)
Context (serialize : Envelope M → result (list Z) str).
Context (unique : list Z → bool) (parse : list Z → option (Envelope B)).

(** [codec::frame] *)
Definition codec_frame (e : Envelope M) : result (list Z) str := let? payload := serialize e in codec_framed payload.

(** [codec::decode] *)
Definition codec_decode (bytes : list Z) : result (Envelope B) str :=
  let? _ := map_err frame_error_text (frame_header bytes) in
  let? _ := ensure_text (unique bytes) (bytes_of "invalid or duplicate host JSON field") in
  ok_or (parse bytes) (bytes_of "invalid host message schema").

(** ** State *)

(** [Pending] *)
Record PendingFrame : Type := mkPending { pf_bytes : list Z; pf_written : nat; pf_deadline : Z }.

(** [Channel]; [hc_bodies] are the bodies queued so far, kept for statements *)
Record HostChannel : Type := mkHostChannel {
  hc_socket : Socket;
  hc_identity : SessionIdentity;
  hc_previous : option Z;
  hc_next : Z;
  hc_header : list Z;
  hc_header_used : nat;
  hc_payload : list Z;
  hc_payload_used : nat;
  hc_read_deadline : option Z;
  hc_outgoing : list PendingFrame;
  hc_bodies : list M;
}.

(** [Channel::new]; setting the options of the socket is not modelled *)
Definition host_channel_new (socket : Socket) (identity : SessionIdentity) : HostChannel :=
  mkHostChannel socket identity None 0 (replicate 4 0%Z) 0 [] 0 None [] [].

Definition hc_write (c : HostChannel) (socket : Socket) (outgoing : list PendingFrame) : HostChannel :=
  mkHostChannel socket (hc_identity c) (hc_previous c) (hc_next c) (hc_header c) (hc_header_used c)
    (hc_payload c) (hc_payload_used c) (hc_read_deadline c) outgoing (hc_bodies c).

Definition hc_read (c : HostChannel) (socket : Socket) (header : list Z) (header_used : nat) (payload : list Z)
    (payload_used : nat) (deadline : option Z) : HostChannel :=
  mkHostChannel socket (hc_identity c) (hc_previous c) (hc_next c) header header_used payload payload_used deadline
    (hc_outgoing c) (hc_bodies c).

(** ** Writing *)

(** The loop of [Channel::flush]; every write takes at least one byte *)
Fixpoint flush_loop (fuel budget : nat) (now : Z) (c : HostChannel) : result unit str * HostChannel :=
  match fuel with
  | 0 => (Ok tt, c)
  | S fuel =>
      if budget =? 0 then (Ok tt, c) else
      match hc_outgoing c with
      | [] => (Ok tt, c)
      | pending :: rest =>
          if negb (now <? pf_deadline pending)%Z then (Err (bytes_of "host write timed out"), c) else
          let stop := Nat.min (length (pf_bytes pending)) (pf_written pending + budget) in
          let chunk := take (stop - pf_written pending) (drop (pf_written pending) (pf_bytes pending)) in
          match sock_write chunk (hc_socket c) with
          | (Wrote 0, _) => (Err (bytes_of "host control disconnected"), c)
          | (Wrote count, socket) =>
              let written := pf_written pending + count in
              let outgoing := if written =? length (pf_bytes pending) then rest
                              else mkPending (pf_bytes pending) written (pf_deadline pending) :: rest in
              flush_loop fuel (budget - count) now (hc_write c socket outgoing)
          | (WriteBlocks, _) => (Ok tt, c)
          | (WriteError e, _) => (Err e, c)
          end
      end
  end.

(** [Channel::flush] *)
Definition host_flush (now : Z) (c : HostChannel) : result unit str * HostChannel :=
  flush_loop CHANNEL_BUDGET CHANNEL_BUDGET now c.

(** [Channel::queue] *)
Definition host_queue (now : Z) (body : M) (c : HostChannel) : result unit str * HostChannel :=
  if negb (length (hc_outgoing c) <? 2) then (Err (bytes_of "host outbound queue exhausted"), c) else
  match codec_frame (mkEnvelope (hc_identity c) (hc_next c) body) with
  | Err e => (Err e, c)
  | Ok bytes =>
      match checked_add 64 (hc_next c) 1 with
      | None => (Err (bytes_of "host sequence exhausted"), c)
      | Some next =>
          host_flush now
            (mkHostChannel (hc_socket c) (hc_identity c) (hc_previous c) next (hc_header c) (hc_header_used c)
               (hc_payload c) (hc_payload_used c) (hc_read_deadline c)
               (hc_outgoing c ++ [mkPending bytes 0 (now + IO_TIMEOUT)]) (hc_bodies c ++ [body]))
      end
  end.

(** ** Reading *)

(** A frame is complete *)
Definition host_finish (c : HostChannel) : result B str * HostChannel :=
  match codec_decode (hc_payload c) with
  | Err e => (Err e, c)
  | Ok envelope =>
      match envelope_check envelope (hc_identity c) (hc_previous c) with
      | Err e => (Err (envelope_error_text e), c)
      | Ok _ =>
          (Ok (ev_body envelope),
           mkHostChannel (hc_socket c) (hc_identity c) (Some (ev_sequence envelope)) (hc_next c) (hc_header c) 0 [] 0
             None (hc_outgoing c) (hc_bodies c))
      end
  end.

(** The loop of [Channel::next]; a read takes at least one byte.  The outer
    [option] is a panic: an index or a budget out of range. *)
Fixpoint next_loop (fuel budget : nat) (now : Z) (c : HostChannel) :
  option (result (option B) str * HostChannel) :=
  match fuel with
  | 0 => Some (Ok None, c)
  | S fuel =>
      if budget =? 0 then Some (Ok None, c) else
      let reading_header := hc_header_used c <? length (hc_header c) in
      let room := if reading_header then length (hc_header c) - hc_header_used c
                  else Nat.min (length (hc_payload c)) (hc_payload_used c + budget) - hc_payload_used c in
      match sock_read room (hc_socket c) with
      | (ReadClosed, _) => Some (Err (bytes_of "host control disconnected"), c)
      | (ReadBlocks, _) => Some (Ok None, c)
      | (ReadError e, _) => Some (Err e, c)
      | (ReadGot bytes, socket) =>
          match usub budget (length bytes) with
          | None => None
          | Some budget =>
              let deadline := match hc_read_deadline c with Some d => Some d | None => Some (now + IO_TIMEOUT)%Z end in
              if reading_header then
                match copy_at (hc_header_used c) bytes (hc_header c) with
                | None => None
                | Some header =>
                    let used := hc_header_used c + length bytes in
                    let c := hc_read c socket header used (hc_payload c) (hc_payload_used c) deadline in
                    if used =? length header then
                      match payload_length header with
                      | Err e => Some (Err (frame_error_text e), c)
                      | Ok len =>
                          next_loop fuel budget now
                            (hc_read c socket header used
                               (take len (hc_payload c) ++ replicate (len - length (hc_payload c)) 0%Z)
                               (hc_payload_used c) deadline)
                      end
                    else next_loop fuel budget now c
                end
              else
                match copy_at (hc_payload_used c) bytes (hc_payload c) with
                | None => None
                | Some payload =>
                    let used := hc_payload_used c + length bytes in
                    let c := hc_read c socket (hc_header c) (hc_header_used c) payload used deadline in
                    if used =? length payload
                    then let '(r, c) := host_finish c in
                         Some (match r with Ok body => Ok (Some body) | Err e => Err e end, c)
                    else next_loop fuel budget now c
                end
          end
      end
  end.

(** [Channel::next] *)
Definition host_next (now : Z) (c : HostChannel) : option (result (option B) str * HostChannel) :=
  if match hc_read_deadline c with Some d => negb (now <? d)%Z | None => false end
  then Some (Err (bytes_of "host partial frame timed out"), c)
  else next_loop CHANNEL_BUDGET CHANNEL_BUDGET now c.
End channel.

(** ** Reading is what the waiting reader does *)

Lemma sock_read_cases n sk :
  match sock_read n sk with
  | (ReadGot bytes, sk') =>
      bytes ≠ [] ∧ length bytes ≤ n ∧ sk_in sk = bytes ++ sk_in sk' ∧ sk_out sk' = sk_out sk ∧ sk_end sk' = sk_end sk
  | (ReadBlocks, sk') => sk' = sk ∧ sk_in sk = [] ∧ sk_end sk = None
  | (_, sk') => sk' = sk ∧ (n = 0 ∨ (sk_in sk = [] ∧ sk_end sk ≠ None))
  end.
Proof.
  unfold sock_read. destruct (take n (sk_in sk)) as [|b bytes] eqn:Et.
  - destruct n as [|n]; [cbn; auto|]. destruct (sk_in sk) eqn:Ei; [|done]. cbn. destruct (sk_end sk) as [[e|]|] eqn:Ee; naive_solver.
  - cbn [sk_in sk_out sk_end]. split_and!; try done; [rewrite <- Et, length_take; lia|by rewrite <- Et, take_drop].
Qed.

Section reading.
Context {M B : Type}.
Context (serialize : Envelope M → result (list Z) str).
Context (unique : list Z → bool) (parse : list Z → option (Envelope B)).
Implicit Types c : HostChannel (M := M).

(** The decoder, with the error codes of [Connection] *)
Definition channel_decode (bytes : list Z) : result (Envelope B) ProcessError :=
  map_err (λ _, mkProcessError MalformedMessage) (codec_decode unique parse bytes).

(** The reading half of a channel *)
Definition reading_half c : Reader :=
  mkReader (hc_identity c) (hc_previous c) (hc_header c) (hc_header_used c) (hc_payload c) (hc_payload_used c)
    (negb (is_none (hc_read_deadline c))).

(** What reading leaves as it is *)
Record same_writing c c' : Prop := {
  sw_identity : hc_identity c' = hc_identity c;
  sw_next : hc_next c' = hc_next c;
  sw_outgoing : hc_outgoing c' = hc_outgoing c;
  sw_bodies : hc_bodies c' = hc_bodies c;
  sw_out : sk_out (hc_socket c') = sk_out (hc_socket c);
  sw_end : sk_end (hc_socket c') = sk_end (hc_socket c);
}.

Lemma same_writing_refl c : same_writing c c.
Proof. by constructor. Qed.
Lemma same_writing_trans c1 c2 c3 : same_writing c1 c2 → same_writing c2 c3 → same_writing c1 c3.
Proof. intros [] []. constructor; congruence. Qed.

(** The buffers are in range. *)
Record buffers_ok c : Prop := {
  bk_header : length (hc_header c) = 4;
  bk_header_used : hc_header_used c ≤ 4;
  bk_payload_used : hc_payload_used c ≤ length (hc_payload c);
  bk_fresh : hc_header_used c < 4 → hc_payload_used c = 0;
}.

Definition channel_room (budget : nat) c : nat :=
  if hc_header_used c <? length (hc_header c) then length (hc_header c) - hc_header_used c
  else Nat.min (length (hc_payload c)) (hc_payload_used c + budget) - hc_payload_used c.

Lemma channel_room_le budget c : channel_room budget c ≤ room (reading_half c).
Proof.
  unfold channel_room, room. cbn [reading_half rd_header_used rd_header rd_payload rd_payload_used].
  destruct (hc_header_used c <? _); lia.
Qed.

(** One read is one turn of the reader. *)
Lemma next_loop_read fuel budget now c bytes socket :
  sock_read (channel_room budget c) (hc_socket c) = (ReadGot bytes, socket) → bytes ≠ [] →
  budget ≠ 0 → length bytes ≤ budget →
  match reader_turn channel_decode (reading_half c) (ReadBytes bytes) with
  | None => next_loop unique parse (S fuel) budget now c = None
  | Some (None, s) => ∃ c', next_loop unique parse (S fuel) budget now c =
      next_loop unique parse fuel (budget - length bytes) now c' ∧
      reading_half c' = s ∧ hc_socket c' = socket ∧ hc_outgoing c' = hc_outgoing c ∧
      hc_bodies c' = hc_bodies c ∧ hc_next c' = hc_next c ∧
      hc_header_used c' = if hc_header_used c <? length (hc_header c) then hc_header_used c + length bytes
                          else hc_header_used c
  | Some (Some r, s) => ∃ c' r', next_loop unique parse (S fuel) budget now c = Some (r', c') ∧
      match r with Ok b => r' = Ok (Some b) | Err _ => ∃ e, r' = Err e end ∧
      reading_half c' = s ∧ hc_socket c' = socket ∧ hc_outgoing c' = hc_outgoing c ∧
      hc_bodies c' = hc_bodies c ∧ hc_next c' = hc_next c
  end.
Proof.
  intros Hs Hne Hb Hlen. cbn [next_loop]. rewrite (proj2 (Nat.eqb_neq budget 0)) by done.
  unfold channel_room in Hs. rewrite Hs, usub_eq by done.
  unfold reader_turn, reading_half.
  cbn [rd_identity rd_previous rd_header rd_header_used rd_payload rd_payload_used rd_frame_deadline].
  rewrite (proj2 (Nat.eqb_neq (length bytes) 0)) by (by destruct bytes).
  assert (Hd : ∀ o : option Z, negb (is_none match o with Some d => Some d | None => Some (now + IO_TIMEOUT)%Z end) = true)
    by by intros [].
  destruct (hc_header_used c <? length (hc_header c)) eqn:E4.
  - destruct (copy_at _ bytes (hc_header c)) as [header|] eqn:Hcopy; [|done].
    destruct (_ =? length header).
    + destruct (payload_length header) as [len|e] eqn:Hp.
      * eexists. split; [reflexivity|]. cbn. by rewrite Hd.
      * do 2 eexists. split; [reflexivity|]. cbn. rewrite Hd. split_and!; try done. by eexists.
    + eexists. split; [reflexivity|]. cbn. by rewrite Hd.
  - destruct (copy_at _ bytes (hc_payload c)) as [payload|] eqn:Hcopy; [|done]. cbn [rd_payload_used].
    destruct (_ =? length payload).
    + unfold reader_finish, host_finish, channel_decode, hc_read.
      cbn [rd_payload rd_identity rd_previous hc_payload hc_identity hc_previous].
      destruct (codec_decode unique parse payload) as [envelope|e]; cbn [map_err].
      * destruct (envelope_check _ _ _) as [[]|e].
        -- do 2 eexists. split; [reflexivity|]. by cbn.
        -- do 2 eexists. split; [reflexivity|]. cbn. rewrite Hd. split_and!; try done. by eexists.
      * do 2 eexists. split; [reflexivity|]. cbn. rewrite Hd. split_and!; try done. by eexists.
    + eexists. split; [reflexivity|]. cbn. by rewrite Hd.
Qed.

(** Whatever arrives, reading does not panic and leaves the writing half alone. *)
Lemma next_loop_safe fuel budget now c :
  buffers_ok c → (hc_header_used c < 4 → 4 ≤ budget + hc_header_used c) →
  ∃ r c', next_loop unique parse fuel budget now c = Some (r, c') ∧ buffers_ok c' ∧ same_writing c c'.
Proof.
  revert budget c. induction fuel as [|fuel IH]; intros budget c Hok Hbud.
  { do 2 eexists. split; [done|]. split; [done|apply same_writing_refl]. }
  destruct (budget =? 0) eqn:Eb.
  { cbn [next_loop]. rewrite Eb. do 2 eexists. split; [done|]. split; [done|apply same_writing_refl]. }
  apply Nat.eqb_neq in Eb. destruct Hok as [Hh Hhu Hpu Hfr].
  pose proof (sock_read_cases (channel_room budget c) (hc_socket c)) as Hr.
  destruct (sock_read (channel_room budget c) (hc_socket c)) as [[bytes| | |e] socket] eqn:Es.
  2-4: cbn [next_loop]; rewrite (proj2 (Nat.eqb_neq budget 0)) by done; unfold channel_room in Es; rewrite Es;
    do 2 eexists; (split; [done|]); (split; [by constructor|apply same_writing_refl]).
  destruct Hr as (Hne&Hlen&_&Hout&Hend). cbn [next_loop]. rewrite (proj2 (Nat.eqb_neq budget 0)) by done.
  unfold channel_room in Hlen. unfold channel_room in Es. rewrite Es. rewrite Hh in Hlen |- *.
  destruct (hc_header_used c <? 4) eqn:E4; breflect_in E4.
  - rewrite usub_eq by lia. rewrite copy_at_eq by lia. set (header := _ ++ bytes ++ _).
    assert (Hl : length header = 4) by (unfold header; rewrite !length_app, length_take, length_drop; lia).
    rewrite Hl. destruct (_ =? 4) eqn:Ef; [destruct (payload_length header) as [len|e]|].
    + apply Nat.eqb_eq in Ef. edestruct IH as (r&c'&He&Hok'&Hsw); [..|do 2 eexists; split; [exact He|]; split; [done|]].
      * constructor; cbn; lia.
      * cbn. lia.
      * eapply same_writing_trans; [|exact Hsw]. by constructor.
    + apply Nat.eqb_eq in Ef. do 2 eexists. split; [done|]. split; [constructor; cbn; lia|by constructor].
    + apply Nat.eqb_neq in Ef. edestruct IH as (r&c'&He&Hok'&Hsw); [..|do 2 eexists; split; [exact He|]; split; [done|]].
      * constructor; cbn; lia.
      * cbn. lia.
      * eapply same_writing_trans; [|exact Hsw]. by constructor.
  - rewrite usub_eq by lia. rewrite copy_at_eq by lia. set (payload := _ ++ bytes ++ _).
    assert (Hl : length payload = length (hc_payload c))
      by (unfold payload; rewrite !length_app, length_take, length_drop; lia).
    rewrite Hl. destruct (_ =? length (hc_payload c)) eqn:Ef.
    + unfold host_finish. cbn [hc_payload hc_read hc_identity hc_previous].
      destruct (codec_decode _ _ _); [destruct (envelope_check _ _ _) as [[]|]|]; do 2 eexists; (split; [done|]);
        (split; [constructor; cbn; lia|by constructor]).
    + apply Nat.eqb_neq in Ef. edestruct IH as (r&c'&He&Hok'&Hsw); [..|do 2 eexists; split; [exact He|]; split; [done|]].
      * constructor; cbn; lia.
      * cbn. lia.
      * eapply same_writing_trans; [|exact Hsw]. by constructor.
Qed.

Lemma host_next_safe now c :
  buffers_ok c →
  ∃ r c', host_next unique parse now c = Some (r, c') ∧ buffers_ok c' ∧ same_writing c c'.
Proof.
  intros Hok. unfold host_next. destruct (match hc_read_deadline c with Some _ => _ | None => _ end).
  - do 2 eexists. split; [done|]. split; [done|apply same_writing_refl].
  - apply next_loop_safe; [done|]. unfold CHANNEL_BUDGET. destruct Hok. lia.
Qed.
End reading.

(** ** What is written are the frames of the queued bodies *)

Section writing.
Context {M : Type} (serialize : Envelope M → result (list Z) str) (id : SessionIdentity).
Implicit Types c : HostChannel (M := M).

Definition channel_encode (e : Envelope M) : result (list Z) ProcessError :=
  map_err (λ _, mkProcessError MalformedMessage) (serialize e).

Definition unsent (l : list PendingFrame) : list Z := concat ((λ p, drop (pf_written p) (pf_bytes p)) <$> l).
Definition frame_open (p : PendingFrame) : Prop := pf_written p < length (pf_bytes p).

Record writing_ok c : Prop := {
  wk_identity : hc_identity c = id;
  wk_next : hc_next c = Z.of_nat (length (hc_bodies c));
  wk_open : Forall frame_open (hc_outgoing c);
  wk_few : length (hc_outgoing c) ≤ 2;
  wk_wire : wire channel_encode id 0 (hc_bodies c) (sk_out (hc_socket c) ++ unsent (hc_outgoing c));
}.

(** What writing leaves as it is *)
Record same_reading c c' : Prop := {
  sr_half : reading_half c' = reading_half c;
  sr_in : sk_in (hc_socket c') = sk_in (hc_socket c);
  sr_end : sk_end (hc_socket c') = sk_end (hc_socket c);
}.

Lemma wire_app n bodies w b payload header :
  wire channel_encode id n bodies w → (0 ≤ n)%Z →
  channel_encode (mkEnvelope id (n + Z.of_nat (length bodies)) b) = Ok payload → frame_header payload = Ok header →
  wire channel_encode id n (bodies ++ [b]) (w ++ header ++ payload).
Proof.
  intros Hw Hn. induction Hw as [n|n b' bodies p h rest _ He Hh Hw IH]; intros Hb Hf.
  - cbn in Hb. rewrite Z.add_0_r in Hb. rewrite app_nil_l, <- (app_nil_r (header ++ payload)). by econstructor; [..|constructor].
  - cbn [app]. rewrite <- app_assoc. econstructor; [done|done|done|]. apply IH; [lia| |done].
    rewrite <- Hb. do 2 f_equal. cbn [length]. lia.
Qed.

Lemma flush_loop_spec fuel budget now c :
  writing_ok c →
  ∃ r c', flush_loop fuel budget now c = (r, c') ∧ writing_ok c' ∧ same_reading c c' ∧ hc_bodies c' = hc_bodies c.
Proof.
  revert budget c. induction fuel as [|fuel IH]; intros budget c Hw; cbn [flush_loop].
  { do 2 eexists. split; [done|]. by split_and!. }
  destruct (budget =? 0) eqn:Eb; [do 2 eexists; split; [done|]; by split_and!|]. apply Nat.eqb_neq in Eb.
  destruct (hc_outgoing c) as [|p rest] eqn:Eo; [do 2 eexists; split; [done|]; by split_and!|].
  destruct (negb _); [do 2 eexists; split; [done|]; by split_and!|].
  set (chunk := take _ _). unfold sock_write.
  destruct (sk_broken (hc_socket c)) as [e|]; [do 2 eexists; split; [done|]; by split_and!|].
  destruct (sk_room (hc_socket c) =? 0); [do 2 eexists; split; [done|]; by split_and!|].
  destruct (Nat.min (length chunk) _) as [|k] eqn:Ek; [do 2 eexists; split; [done|]; by split_and!|].
  rewrite <- Ek. set (count := Nat.min (length chunk) _) in *. destruct Hw as [Hid Hn Hop Hfew Hwire].
  rewrite Eo in Hop, Hfew, Hwire. apply List.Forall_cons_iff in Hop as [Hp Hop]. unfold frame_open in Hp.
  assert (Hc : count ≤ length (pf_bytes p) - pf_written p ∧ take count chunk = take count (drop (pf_written p) (pf_bytes p))).
  { assert (Hcl : length chunk ≤ length (pf_bytes p) - pf_written p) by (unfold chunk; rewrite length_take, length_drop; lia).
    assert (Hcs : length chunk ≤ Nat.min (length (pf_bytes p)) (pf_written p + budget) - pf_written p)
      by (unfold chunk; rewrite length_take; lia).
    split; [lia|]. unfold chunk. rewrite take_take. f_equal. lia. }
  destruct Hc as [Hc Htk]. rewrite Htk.
  edestruct (IH (budget - count)) as (r&c'&He&Hw'&[Hr1 Hr2 Hr3]&Hb); [|do 2 eexists; split; [exact He|]; split_and!; [done| |done]].
  - constructor; cbn [hc_write hc_identity hc_next hc_bodies hc_outgoing hc_socket sk_out]; try done.
    + destruct (_ =? _) eqn:E; [done|]. apply Nat.eqb_neq in E. constructor; [|done]. unfold frame_open. cbn. lia.
    + destruct (_ =? _); cbn in *; lia.
    + revert Hwire. unfold unsent. cbn [fmap list_fmap concat]. intros Hwire. rewrite <- app_assoc. refine (eq_rect _ (wire _ _ _ _) Hwire _ _).
      f_equal. rewrite <- (take_drop count (drop (pf_written p) (pf_bytes p))) at 1. rewrite <- app_assoc, drop_drop.
      f_equal. destruct (_ =? _) eqn:E; [|done]. apply Nat.eqb_eq in E. by rewrite drop_ge by lia.
  - by constructor; [rewrite Hr1|rewrite Hr2|rewrite Hr3].
Qed.

Lemma codec_frame_Ok e bytes :
  codec_frame serialize e = Ok bytes →
  ∃ payload header, channel_encode e = Ok payload ∧ frame_header payload = Ok header ∧ bytes = header ++ payload.
Proof.
  unfold codec_frame, codec_framed, channel_encode. intros H. apply bind_Ok in H as (payload&Hs&H). apply bind_Ok in H as ([]&_&H).
  apply bind_Ok in H as ([]&_&H). apply bind_Ok in H as (header&Hh&H). rewrite Hs.
  exists payload, header. destruct (frame_header payload); naive_solver.
Qed.

Lemma host_queue_spec now b c :
  writing_ok c →
  ∃ r c', host_queue serialize now b c = (r, c') ∧ writing_ok c' ∧ same_reading c c' ∧
    (hc_bodies c' = hc_bodies c ++ [b] ∨ hc_bodies c' = hc_bodies c ∧ is_ok r = false).
Proof.
  intros Hw. unfold host_queue. destruct (negb _) eqn:El.
  { do 2 eexists. split; [done|]. split_and!; [done|done|by right]. }
  destruct (codec_frame _ _) as [bytes|e] eqn:Ef; [|do 2 eexists; split; [done|]; split_and!; [done|done|by right]].
  destruct (checked_add _ _ _) as [next|] eqn:Ec; [|do 2 eexists; split; [done|]; split_and!; [done|done|by right]].
  apply codec_frame_Ok in Ef as (payload&header&He&Hh&->). destruct Hw as [Hid Hn Hop Hfew Hwire].
  unfold checked_add in Ec. destruct (_ <? _)%Z; [|done]. injection Ec as <-. apply negb_false_iff, Nat.ltb_lt in El.
  edestruct (flush_loop_spec CHANNEL_BUDGET CHANNEL_BUDGET now) as (r&c'&Hf&Hw'&[? ? ?]&Hb);
    [|do 2 eexists; split; [exact Hf|]; split_and!; [done|by constructor|left; exact Hb]].
  constructor; cbn; try done.
  - rewrite length_app, Hn. cbn. lia.
  - apply Forall_app. split; [done|]. constructor; [|done]. unfold frame_open. cbn. rewrite length_app.
    apply frame_header_Ok in Hh as [_ ->]. rewrite length_be_bytes. lia.
  - rewrite length_app. cbn. lia.
  - unfold unsent. rewrite fmap_app, concat_app. cbn [fmap list_fmap concat pf_written pf_bytes]. rewrite drop_0, app_nil_r, app_assoc.
    apply wire_app; [done|lia| |done]. by rewrite <- Hid, Z.add_0_l, <- Hn.
Qed.
(** ** Writing goes on *)

(** No frame waits for longer than it may, and writes do not fail *)
Definition writable (now : Z) c : Prop :=
  sk_broken (hc_socket c) = None ∧ ∀ p, p ∈ hc_outgoing c → (now < pf_deadline p)%Z.

(** A flush writes all that waits, as far as the kernel takes it and 64 KiB reach *)
Record flushed c c' : Prop := {
  fl_bodies : hc_bodies c' = hc_bodies c;
  fl_bytes : sk_out (hc_socket c') ++ unsent (hc_outgoing c') = sk_out (hc_socket c) ++ unsent (hc_outgoing c);
  fl_count : length (sk_out (hc_socket c')) =
    length (sk_out (hc_socket c)) + Nat.min (length (unsent (hc_outgoing c))) (Nat.min (sk_room (hc_socket c)) (64 * 1024));
}.

Lemma unsent_open l : Forall frame_open l → length (unsent l) = 0 → l = [].
Proof.
  destruct l as [|p l]; [done|]. intros [Hp _]%List.Forall_cons_iff. unfold frame_open in Hp.
  unfold unsent. cbn [fmap list_fmap concat]. rewrite length_app, length_drop. lia.
Qed.

Lemma flush_loop_progress fuel budget now c :
  Forall frame_open (hc_outgoing c) → writable now c → budget ≤ fuel →
  ∃ c', flush_loop fuel budget now c = (Ok tt, c') ∧
    sk_out (hc_socket c') ++ unsent (hc_outgoing c') = sk_out (hc_socket c) ++ unsent (hc_outgoing c) ∧
    length (sk_out (hc_socket c')) =
      length (sk_out (hc_socket c)) + Nat.min (length (unsent (hc_outgoing c))) (Nat.min (sk_room (hc_socket c)) budget).
Proof.
  revert budget c. induction fuel as [|fuel IH]; intros budget c Hop [Hbr Hd] Hle; cbn [flush_loop].
  { exists c. split_and!; [done..|lia]. }
  destruct (budget =? 0) eqn:Eb; [apply Nat.eqb_eq in Eb; exists c; split_and!; [done..|lia]|]. apply Nat.eqb_neq in Eb.
  destruct (hc_outgoing c) as [|p rest] eqn:Eo; [exists c; rewrite Eo; split_and!; [done..|cbn; lia]|].
  assert (Hdp : (now < pf_deadline p)%Z) by (apply Hd; by left). apply Z.ltb_lt in Hdp as ->. cbn [negb].
  apply List.Forall_cons_iff in Hop as [Hp Hop]. unfold frame_open in Hp.
  set (chunk := take _ _). assert (Hcl : length chunk = Nat.min (length (pf_bytes p) - pf_written p) budget).
  { unfold chunk. rewrite length_take, length_drop. lia. }
  assert (Hun : unsent (p :: rest) = drop (pf_written p) (pf_bytes p) ++ unsent rest) by done.
  unfold sock_write. rewrite Hbr. destruct (sk_room (hc_socket c) =? 0) eqn:Er.
  { apply Nat.eqb_eq in Er. exists c. rewrite Eo, Er. split_and!; [done..|lia]. }
  apply Nat.eqb_neq in Er. destruct (Nat.min (length chunk) _) as [|k] eqn:Ek; [lia|]. rewrite <- Ek.
  set (count := Nat.min (length chunk) _) in *.
  assert (Htk : take count chunk = take count (drop (pf_written p) (pf_bytes p))) by (unfold chunk; rewrite take_take; f_equal; lia).
  set (outgoing := if _ =? _ then rest else _).
  assert (Hout : drop (pf_written p) (pf_bytes p) ++ unsent rest = take count chunk ++ unsent outgoing).
  { rewrite Htk. rewrite <- (take_drop count (drop (pf_written p) (pf_bytes p))) at 1. rewrite drop_drop, <- app_assoc. f_equal.
    unfold outgoing. destruct (_ =? _) eqn:E; [|done]. apply Nat.eqb_eq in E. by rewrite drop_ge by lia. }
  assert (Hct : length (take count chunk) = count) by (rewrite length_take; lia).
  destruct (IH (budget - count) (hc_write c (mkSocket (sk_in (hc_socket c)) (sk_end (hc_socket c)) (sk_room (hc_socket c) - count) None
    (sk_out (hc_socket c) ++ take count chunk)) outgoing)) as (c'&He&Hb&Hl).
  - cbn. unfold outgoing. destruct (_ =? _) eqn:E; [done|]. apply Nat.eqb_neq in E. constructor; [|done]. unfold frame_open. cbn. lia.
  - split; [done|]. cbn. intros q Hq. unfold outgoing in Hq. destruct (_ =? _); [apply Hd; by right|].
    apply elem_of_cons in Hq as [->|Hq]; [apply (Hd p); by left|apply Hd; by right].
  - lia.
  - exists c'. split; [exact He|]. cbn [hc_write hc_socket hc_outgoing sk_out sk_room] in Hb, Hl. split; [by rewrite Hb, Hun, <- app_assoc, Hout|].
    assert (Hle' : count ≤ budget ∧ count ≤ sk_room (hc_socket c)) by (unfold count; lia). clearbody count.
    apply (f_equal length) in Hout. rewrite !length_app in Hout. rewrite Hl, Hun, !length_app. lia.
Qed.

Lemma host_flush_progress now c :
  writing_ok c → writable now c →
  ∃ c', host_flush now c = (Ok tt, c') ∧ flushed c c' ∧
    (length (unsent (hc_outgoing c)) ≤ sk_room (hc_socket c) → length (unsent (hc_outgoing c)) ≤ 64 * 1024 → hc_outgoing c' = []).
Proof.
  intros Hw Hwr. unfold host_flush. set (budget := CHANNEL_BUDGET) at 2.
  destruct (flush_loop_progress CHANNEL_BUDGET budget now c (wk_open _ Hw) Hwr) as (c'&He&Hb&Hl); [done|].
  destruct (flush_loop_spec CHANNEL_BUDGET budget now c Hw) as (r&c1&He'&Hw'&_&Hbo). rewrite He in He'. injection He' as <- <-.
  exists c'. split; [exact He|]. split; [by constructor|]. intros Hroom Hbud. apply (unsent_open _ (wk_open _ Hw')).
  apply (f_equal length) in Hb. rewrite !length_app in Hb. unfold budget, CHANNEL_BUDGET in Hl. lia.
Qed.

Lemma flush_loop_bodies fuel budget now c : hc_bodies (flush_loop fuel budget now c).2 = hc_bodies c.
Proof.
  revert budget c. induction fuel as [|fuel IH]; intros budget c; cbn [flush_loop]; [done|].
  destruct (budget =? 0); [done|]. destruct (hc_outgoing c) as [|p rest]; [done|]. destruct (negb _); [done|].
  destruct (sock_write _ _) as [[[|k]| |e] socket]; [done| |done..]. by rewrite IH.
Qed.

(** A body is queued when fewer than two frames wait, its envelope can be
    serialized to a payload within the limit, and the sequence is not at its end *)
Definition accepts now c : Prop := ∀ b payload,
  length (hc_outgoing c) < 2 → serialize (mkEnvelope id (Z.of_nat (length (hc_bodies c))) b) = Ok payload →
  payload ≠ [] → (Z.of_nat (length payload) ≤ 8 * 1024 * 1024)%Z → (Z.of_nat (length (hc_bodies c)) < u64_max)%Z →
  hc_bodies (host_queue serialize now b c).2 = hc_bodies c ++ [b].

Lemma host_queue_accepts now c : writing_ok c → accepts now c.
Proof.
  intros Hw b payload Hlen Hs Hne Hle Hmax.
  unfold host_queue. apply Nat.ltb_lt in Hlen as ->. cbn [negb].
  rewrite (wk_identity _ Hw), (wk_next _ Hw). unfold codec_frame, codec_framed, ensure_text. rewrite Hs.
  assert (Hfit : fits_frame payload) by (split; [destruct payload; cbn in *; [done|lia]|done]).
  apply (Z.leb_le _ MAX_FRAME_BYTES) in Hle as ->. rewrite bool_decide_eq_false_2 by done.
  rewrite (proj2 (frame_header_Ok payload _) (conj Hfit eq_refl)). cbn [negb map_err].
  unfold checked_add. rewrite (proj2 (Z.ltb_lt _ _)) by (unfold u64_max in Hmax; lia).
  unfold host_flush. by rewrite flush_loop_bodies.
Qed.
End writing.

(** ** Both directions *)

Section delivery.
Context {M B : Type}.
Context (serialize : Envelope M → result (list Z) str).
Context (unique : list Z → bool) (parse : list Z → option (Envelope B)).
Context (host_encode : Envelope B → result (list Z) ProcessError) (id : SessionIdentity).
Implicit Types c : HostChannel (M := M).

Lemma reading_buffers prev c got :
  reading id prev (reading_half c) got → buffers_ok c ∧ (∀ budget, budget ≠ 0 → channel_room budget c ≠ 0).
Proof.
  unfold reading_half, channel_room. intros Hr. inversion Hr as [h u d Hh Hu|h p u d Hh Hp Hu]; subst.
  - split; [constructor; cbn; lia|]. intros budget _. rewrite (proj2 (Nat.ltb_lt _ _)); lia.
  - split; [constructor; cbn; lia|]. intros budget Hb. rewrite (proj2 (Nat.ltb_ge _ _)); lia.
Qed.

Lemma next_loop_delivers fuel budget now c n bodies w :
  codec_law host_encode (channel_decode unique parse) →
  carries host_encode id n bodies (reading_half c) (sk_in (hc_socket c) ++ w) → budget ≤ fuel →
  (hc_header_used c < 4 → 4 ≤ budget + hc_header_used c) →
  ∀ r c', next_loop unique parse fuel budget now c = Some (r, c') →
  match r with
  | Ok None => carries host_encode id n bodies (reading_half c') (sk_in (hc_socket c') ++ w) ∧
      (sk_in (hc_socket c') = [] ∨ budget + length (sk_in (hc_socket c')) ≤ length (sk_in (hc_socket c)))
  | Ok (Some b) => ∃ rest, bodies = b :: rest ∧
      carries host_encode id (n + 1) rest (reading_half c') (sk_in (hc_socket c') ++ w)
  | Err _ => carries host_encode id n bodies (reading_half c') (sk_in (hc_socket c') ++ w) ∧
      sk_in (hc_socket c') = [] ∧ sk_end (hc_socket c') ≠ None
  end.
Proof.
  intros Hlaw. revert budget c. induction fuel as [|fuel IH]; intros budget c Hc Hfuel Hbud r c'.
  { cbn [next_loop]. intros [= <- <-]. split; [done|]. right. lia. }
  destruct (budget =? 0) eqn:Eb.
  { cbn [next_loop]. rewrite Eb. apply Nat.eqb_eq in Eb as ->. intros [= <- <-]. split; [done|]. right. lia. }
  apply Nat.eqb_neq in Eb. pose proof Hc as (got&Hr&_). apply reading_buffers in Hr as [Hok Hroom].
  specialize (Hroom budget Eb). pose proof (sock_read_cases (channel_room budget c) (hc_socket c)) as Hs.
  destruct (sock_read (channel_room budget c) (hc_socket c)) as [[bytes| | |e] socket] eqn:Es.
  - destruct Hs as (Hne&Hlen&Hin&_&_). rewrite Hin, <- app_assoc in Hc.
    assert (Hle : length bytes ≤ budget).
    { pose proof Hok as [? ? ? ?]. revert Hlen. unfold channel_room. destruct (_ <? _) eqn:E4; breflect_in E4; lia. }
    assert (Hlr : length bytes ≤ room (reading_half c)) by (pose proof (channel_room_le budget c); lia).
    pose proof (next_loop_read unique parse fuel budget now c bytes socket Es Hne Eb Hle) as Hstep.
    destruct (carries_turn host_encode (channel_decode unique parse) id n bodies _ bytes _ Hlaw Hc Hne Hlr)
      as [(s'&Ht&Hc')|(b&rest&s'&->&Ht&Hc')]; rewrite Ht in Hstep.
    + destruct Hstep as (c1&He&Hh&Hsk&_&_&_&Hused). rewrite He. rewrite <- Hh, <- Hsk in Hc'. intros Hrun.
      pose proof Hc' as (got'&Hr'&_). apply reading_buffers in Hr' as [Hok' _].
      assert (Hbud' : hc_header_used c1 < 4 → 4 ≤ budget - length bytes + hc_header_used c1).
      { rewrite Hused. destruct Hok. unfold channel_room in Hlen. destruct (_ <? _) eqn:E4; breflect_in E4; lia. }
      specialize (IH (budget - length bytes) c1 Hc' ltac:(destruct bytes; cbn in *; [done|lia]) Hbud' r c' Hrun). rewrite Hsk in IH.
      destruct r as [[b|]|e]; [done| |done]. destruct IH as [? Hor]. split; [done|]. rewrite Hin, length_app.
      destruct Hor; [by left|right; lia].
    + destruct Hstep as (c1&r1&He&->&Hh&Hsk&_). rewrite He. intros [= <- <-]. exists rest. rewrite Hh, Hsk. done.
  - cbn [next_loop]. rewrite (proj2 (Nat.eqb_neq budget 0)) by done. unfold channel_room in Es. rewrite Es.
    intros [= <- <-]. destruct Hs as (_&[Hz|[Hi He]]); [done|by split_and!].
  - cbn [next_loop]. rewrite (proj2 (Nat.eqb_neq budget 0)) by done. unfold channel_room in Es. rewrite Es.
    intros [= <- <-]. destruct Hs as (_&Hi&_). split; [done|by left].
  - cbn [next_loop]. rewrite (proj2 (Nat.eqb_neq budget 0)) by done. unfold channel_room in Es. rewrite Es.
    intros [= <- <-]. destruct Hs as (_&[Hz|[Hi He]]); [done|by split_and!].
Qed.

(** No partial frame waits for longer than it may *)
Definition timely now c : Prop := match hc_read_deadline c with Some d => (now < d)%Z | None => True end.

(** A poll hands out the next body, or reads all that has arrived or 64 KiB of
    it; it fails only at the end of the stream *)
Definition polls (next : list B) now c : Prop := ∃ r c', host_next unique parse now c = Some (r, c') ∧
  match r with
  | Ok (Some b) => ∃ more, next = b :: more
  | Ok None => sk_in (hc_socket c') = [] ∨ 64 * 1024 + length (sk_in (hc_socket c')) ≤ length (sk_in (hc_socket c))
  | Err _ => sk_in (hc_socket c') = [] ∧ sk_end (hc_socket c) ≠ None
  end.

Lemma host_next_polls now c n bodies w :
  codec_law host_encode (channel_decode unique parse) →
  carries host_encode id n bodies (reading_half c) (sk_in (hc_socket c) ++ w) → timely now c → polls bodies now c.
Proof.
  intros Hlaw Hc Ht. pose proof Hc as (got&Hr&_). apply reading_buffers in Hr as [Hok _].
  destruct (host_next_safe unique parse now c Hok) as (r&c1&Hn&_&Hsame). exists r, c1. split; [done|].
  unfold host_next in Hn. replace (match hc_read_deadline c with Some d => negb (now <? d)%Z | None => false end) with false in Hn
    by (unfold timely in Ht; destruct (hc_read_deadline c); [by rewrite (proj2 (Z.ltb_lt _ _) Ht)|done]).
  assert (Hb : hc_header_used c < 4 → 4 ≤ CHANNEL_BUDGET + hc_header_used c) by (unfold CHANNEL_BUDGET; lia).
  pose proof (next_loop_delivers _ _ now c n bodies w Hlaw Hc (Nat.le_refl _) Hb r c1 Hn) as Hd.
  destruct r as [[b|]|e].
  - destruct Hd as (rest&->&_). by eexists.
  - exact (proj2 Hd).
  - rewrite <- (sw_end _ _ Hsame). exact (proj2 Hd).
Qed.

(** What happens to a channel: the owner's calls, and the peer and the kernel *)
Inductive ChannelAct : Type :=
  | CaQueue (now : Z) (body : M)
  | CaFlush (now : Z)
  | CaNext (now : Z)
  | CaArrive (bytes : list Z)
  | CaEnd (e : option str)
  | CaRoom (n : nat)
  | CaBreak (e : str).

Definition on_socket (f : Socket → Socket) c : HostChannel :=
  mkHostChannel (f (hc_socket c)) (hc_identity c) (hc_previous c) (hc_next c) (hc_header c) (hc_header_used c)
    (hc_payload c) (hc_payload_used c) (hc_read_deadline c) (hc_outgoing c) (hc_bodies c).

(** One act, and the bodies it hands out; [None] is a panic *)
Definition channel_act (a : ChannelAct) c : option (list B * HostChannel) :=
  match a with
  | CaQueue now body => Some ([], (host_queue serialize now body c).2)
  | CaFlush now => Some ([], (host_flush now c).2)
  | CaNext now =>
      match host_next unique parse now c with
      | Some (Ok (Some body), c) => Some ([body], c)
      | Some (_, c) => Some ([], c)
      | None => None
      end
  | CaArrive bytes => Some ([], on_socket (λ s, mkSocket (sk_in s ++ bytes) (sk_end s) (sk_room s) (sk_broken s) (sk_out s)) c)
  | CaEnd e => Some ([], on_socket (λ s, mkSocket (sk_in s) (Some e) (sk_room s) (sk_broken s) (sk_out s)) c)
  | CaRoom n => Some ([], on_socket (λ s, mkSocket (sk_in s) (sk_end s) n (sk_broken s) (sk_out s)) c)
  | CaBreak e => Some ([], on_socket (λ s, mkSocket (sk_in s) (sk_end s) (sk_room s) (Some e) (sk_out s)) c)
  end.

Fixpoint channel_run (l : list ChannelAct) c : option (list B * HostChannel) :=
  match l with
  | [] => Some ([], c)
  | a :: l =>
      match channel_act a c with
      | Some (ms, c) => match channel_run l c with Some (ms', c) => Some (ms ++ ms', c) | None => None end
      | None => None
      end
  end.

Definition arrivals (l : list ChannelAct) : list Z :=
  concat (omap (λ a, match a with CaArrive bytes => Some bytes | _ => None end) l).

Lemma channel_run_carries l c n bodies later :
  codec_law host_encode (channel_decode unique parse) → writing_ok serialize id c →
  carries host_encode id n bodies (reading_half c) (sk_in (hc_socket c) ++ arrivals l ++ later) →
  ∃ ms c' n' rest, channel_run l c = Some (ms, c') ∧ writing_ok serialize id c' ∧ bodies = ms ++ rest ∧
    carries host_encode id n' rest (reading_half c') (sk_in (hc_socket c') ++ later).
Proof.
  intros Hlaw. revert c n bodies. induction l as [|a l IH]; intros c n bodies Hw Hc.
  { exists [], c, n, bodies. by rewrite app_nil_l in Hc. }
  assert (Hact : ∃ ms c1 n1 rest, channel_act a c = Some (ms, c1) ∧ writing_ok serialize id c1 ∧ bodies = ms ++ rest ∧
    carries host_encode id n1 rest (reading_half c1) (sk_in (hc_socket c1) ++ arrivals l ++ later)).
  { destruct a as [now body|now|now|bytes|e|k|e]; cbn [channel_act].
    - destruct (host_queue_spec serialize id now body c Hw) as (r&c1&->&Hw1&[Hh Hi _]&_).
      exists [], c1, n, bodies. by rewrite Hh, Hi.
    - destruct (flush_loop_spec serialize id CHANNEL_BUDGET CHANNEL_BUDGET now c Hw) as (r&c1&Hf&Hw1&[Hh Hi _]&_).
      unfold host_flush. rewrite Hf. exists [], c1, n, bodies. by rewrite Hh, Hi.
    - pose proof Hc as (got&Hr&_). apply reading_buffers in Hr as [Hok _].
      destruct (host_next_safe unique parse now c Hok) as (r&c1&Hn&_&[S1 S2 S3 S4 S5 _]). rewrite Hn.
      assert (Hw1 : writing_ok serialize id c1) by (destruct Hw; constructor; by rewrite ?S1, ?S2, ?S3, ?S4, ?S5).
      unfold host_next in Hn. destruct (match hc_read_deadline c with Some _ => _ | None => _ end).
      { injection Hn as <- <-. by exists [], c, n, bodies. }
      assert (Hb : hc_header_used c < 4 → 4 ≤ CHANNEL_BUDGET + hc_header_used c) by (unfold CHANNEL_BUDGET; lia).
      pose proof (next_loop_delivers _ _ now c n bodies _ Hlaw Hc (Nat.le_refl _) Hb r c1 Hn) as Hd.
      destruct r as [[b|]|e]; [|by exists [], c1, n, bodies; destruct Hd..].
      destruct Hd as (rest&->&Hd). by exists [b], c1, (n + 1)%Z, rest.
    - exists [], (on_socket (λ s, mkSocket (sk_in s ++ bytes) (sk_end s) (sk_room s) (sk_broken s) (sk_out s)) c), n, bodies.
      split_and!; [done|by destruct Hw; constructor|done|]. cbn [hc_socket on_socket sk_in].
      change (arrivals (CaArrive bytes :: l)) with (bytes ++ arrivals l) in Hc. by rewrite <- !app_assoc in Hc |- *.
    - do 4 eexists. split_and!; [done|by destruct Hw; constructor|by rewrite app_nil_l|exact Hc].
    - do 4 eexists. split_and!; [done|by destruct Hw; constructor|by rewrite app_nil_l|exact Hc].
    - do 4 eexists. split_and!; [done|by destruct Hw; constructor|by rewrite app_nil_l|exact Hc]. }
  destruct Hact as (ms&c1&n1&rest&Ha&Hw1&->&Hc1). destruct (IH c1 n1 rest Hw1 Hc1) as (ms'&c'&n'&rest'&Hr&Hw'&->&Hc').
  exists (ms ++ ms'), c', n', rest'. cbn [channel_run]. rewrite Ha, Hr, app_assoc. by split_and!.
Qed.

Lemma carries_end {A} (encode : Envelope A → result (list Z) ProcessError) n bodies s :
  carries encode id n bodies s [] → bodies = [].
Proof.
  intros (got&Hr&Hb). destruct bodies as [|b bodies]; [done|].
  destruct Hb as (payload&header&more&_&_&Hh&Hpre&Heq&_). rewrite app_nil_r in Heq.
  destruct (reading_room id _ s got header payload Hr Hpre Hh) as [Hpos Hle].
  apply (f_equal length) in Heq. rewrite length_app in Heq. lia.
Qed.

(** The host reports bodies one after the other, all successfully. *)
Fixpoint report_all (wt : Writer) (bodies : list B) : option (Writer * list Z) :=
  match bodies with
  | [] => Some (wt, [])
  | b :: bodies =>
      match writer_send host_encode wt b Written with
      | (Ok _, wt, bytes) =>
          match report_all wt bodies with Some (wt, more) => Some (wt, bytes ++ more) | None => None end
      | _ => None
      end
  end.

Lemma report_all_wire wt bodies wt' w :
  wt_identity wt = id → (0 ≤ wt_sequence wt)%Z → report_all wt bodies = Some (wt', w) →
  wire host_encode id (wt_sequence wt) bodies w.
Proof.
  revert wt wt' w. induction bodies as [|b bodies IH]; intros wt wt' w Hid Hn; cbn [report_all].
  - intros [= <- <-]. constructor.
  - unfold writer_send. destruct (negb _); [done|]. rewrite Hid. destruct (host_encode _) as [payload|] eqn:He; [|done].
    destruct (frame_header payload) as [header|] eqn:Hh; [|done].
    unfold checked_add. destruct (_ <? _)%Z; [|done].
    destruct (report_all _ bodies) as [[wt2 w2]|] eqn:Hs; [|done]. intros [= <- <-].
    apply IH in Hs; [|done|cbn; lia]. by econstructor.
Qed.

Lemma delivers_app {A} (decode : list Z → result (Envelope A) ProcessError) s w ms s' w' k :
  delivers decode s w ms s' w' → delivers decode s (w ++ k) ms s' (w' ++ k).
Proof. induction 1; rewrite <- ?app_assoc; by econstructor. Qed.

(** What a reader at the other end delivers was queued, in that order *)
Lemma written_delivers host_decode c got s rest :
  codec_law (channel_encode serialize) host_decode → writing_ok serialize id c →
  delivers host_decode (reader_new id) (sk_out (hc_socket c)) got s rest →
  ∃ more, hc_bodies c = got ++ more ∧ (hc_outgoing c = [] → rest = [] → more = []).
Proof.
  intros Hlaw [_ _ _ _ Hwire] Hd. apply (delivers_app host_decode _ _ _ _ _ (unsent (hc_outgoing c))) in Hd.
  pose proof (carries_start (channel_encode serialize) id 0 _ (replicate 4 0%Z) false _ eq_refl Hwire) as Hcs.
  destruct (delivers_carries _ host_decode id 0 _ _ _ _ _ _ Hlaw Hcs Hd) as (n'&more&->&Hc'). exists more. split; [done|].
  intros Ho ->. rewrite Ho in Hc'. by apply carries_end in Hc'.
Qed.
End delivery.

(** C25: the owner's end of a control channel is exact in both directions,
    however its polls interleave with arriving bytes, full buffers, failing
    writes and the end of the stream: it never panics; what it hands out is a
    prefix of the bodies whose frames the host sent, and all of them once all
    their bytes arrived and were read; while no partial frame is overdue, a poll
    hands out the next of them or reads all that has arrived or 64 KiB of it, and
    fails only at the end of the stream; at most two frames wait, and a body is
    taken into the queue whenever fewer do and its envelope fits a frame.  What
    the host's reader delivers of the bytes that were written is a prefix of the
    bodies that were queued, and all of them once nothing waits and the reader
    consumed its bytes.  While no frame is overdue and writes do not fail, a
    flush writes, in order, all that waits as far as the kernel takes it and
    64 KiB reach, so that nothing waits any more where both suffice. *)
Theorem owner_channel_exact {M B : Type} (serialize : Envelope M → result (list Z) str) (unique : list Z → bool)
    (parse : list Z → option (Envelope B)) (host_encode : Envelope B → result (list Z) ProcessError)
    (host_decode : list Z → result (Envelope M) ProcessError) (id : SessionIdentity) (room : nat)
    (sent : list B) (wt : Writer) (later : list Z) (l : list (ChannelAct (M := M))) :
  codec_law host_encode (channel_decode unique parse) → codec_law (channel_encode serialize) host_decode →
  report_all host_encode (mkWriter id 0 true) sent = Some (wt, arrivals l ++ later) →
  ∃ ms c, channel_run serialize unique parse l (host_channel_new (mkSocket [] None room None []) id) = Some (ms, c) ∧
    length (hc_outgoing c) ≤ 2 ∧
    (∃ rest, sent = ms ++ rest ∧ (later = [] → sk_in (hc_socket c) = [] → rest = []) ∧
      ∀ now, timely now c → polls unique parse rest now c) ∧
    (∀ now, accepts serialize id now c) ∧
    (∀ got s rest, delivers host_decode (reader_new id) (sk_out (hc_socket c)) got s rest →
      ∃ more, hc_bodies c = got ++ more ∧ (hc_outgoing c = [] → rest = [] → more = [])) ∧
    (∀ now, writable now c → ∃ c', host_flush now c = (Ok tt, c') ∧ flushed c c' ∧
      (length (unsent (hc_outgoing c)) ≤ sk_room (hc_socket c) → length (unsent (hc_outgoing c)) ≤ 64 * 1024 →
       hc_outgoing c' = [])).
Proof.
  intros Hlaw Hlaw' Hsend. apply (report_all_wire host_encode id) in Hsend; [|done|done]. cbn in Hsend.
  set (c0 := host_channel_new (M := M) _ id).
  assert (Hw : writing_ok serialize id c0) by (constructor; cbn; try done; [lia|constructor]).
  assert (Hc : carries host_encode id 0 sent (reading_half c0) (sk_in (hc_socket c0) ++ arrivals l ++ later)).
  { by apply (carries_start host_encode id 0 sent (replicate 4 0%Z) false). }
  destruct (channel_run_carries serialize unique parse host_encode id l c0 0 sent later Hlaw Hw Hc)
    as (ms&c&n&rest&Hr&Hw'&->&Hc').
  exists ms, c. split_and!; [done|apply Hw'| | | |].
  - exists rest. split_and!; [done| |].
    + intros -> Hin. rewrite Hin in Hc'. by apply carries_end in Hc'.
    + intros now. by apply (host_next_polls unique parse host_encode id now c n rest later).
  - intros now. by apply host_queue_accepts.
  - intros got s rest'. by apply (written_delivers serialize).
  - intros now. by apply (host_flush_progress serialize id).
Qed.

(** Two polls while two of the host's bodies arrive in three pieces, and two
    commands of which the kernel takes four bytes at first *)
Definition demo_acts : list (ChannelAct (M := Z)) :=
  [CaQueue 0 5; CaArrive [0; 0; 0]; CaNext 1; CaArrive [2; 0; 7; 0]; CaNext 2; CaQueue 3 6; CaRoom 20; CaFlush 4;
   CaArrive [0; 0; 2; 1; 8]; CaNext 5]%Z.
Definition byte_parse (l : list Z) : option (Envelope Z) := result_ok (byte_decode l).
Definition byte_serialize (e : Envelope Z) : result (list Z) str := map_err (λ _, []) (byte_encode e).

Lemma owner_channel_exact_witness :
  ∃ ms c, channel_run byte_serialize (λ _, true) byte_parse demo_acts
            (host_channel_new (mkSocket [] None 4 None []) demo_session) = Some (ms, c) ∧
    length (hc_outgoing c) ≤ 2 ∧
    (∃ rest, [7; 8]%Z = ms ++ rest ∧ (@nil Z = [] → sk_in (hc_socket c) = [] → rest = []) ∧
      ∀ now, timely now c → polls (λ _, true) byte_parse rest now c) ∧
    (∀ now, accepts byte_serialize demo_session now c) ∧
    (∀ got s rest, delivers byte_decode (reader_new demo_session) (sk_out (hc_socket c)) got s rest →
      ∃ more, hc_bodies c = got ++ more ∧ (hc_outgoing c = [] → rest = [] → more = [])) ∧
    (∀ now, writable now c → ∃ c', host_flush now c = (Ok tt, c') ∧ flushed c c' ∧
      (length (unsent (hc_outgoing c)) ≤ sk_room (hc_socket c) → length (unsent (hc_outgoing c)) ≤ 64 * 1024 →
       hc_outgoing c' = [])).
Proof.
  apply (owner_channel_exact byte_serialize (λ _, true) byte_parse byte_encode byte_decode demo_session 4 [7; 8]%Z
           (mkWriter demo_session 2 true) [] demo_acts).
  - intros [session n b] payload. unfold byte_encode, channel_decode, codec_decode, byte_parse. cbn. case_bool_decide as E; [|done].
    intros [= <-]. vm_compute in E. vm_compute. by rewrite E.
  - intros [session n b] payload. unfold channel_encode, byte_serialize, byte_encode. cbn. case_bool_decide as E; [|done].
    intros [= <-]. cbn. by rewrite E.
  - by vm_compute.
Defined.
