(* ===== verification/Deploy.v ===== *)
(** * Deploy: the owner of a hosted deployment
    ([crates/reiny-launch/src/deployment.rs], [deployment/hosted/*.rs],
    [deployment/status.rs], [deployment/remote/*.rs], [prepared.rs])

    The owner polls: a turn goes over the processes it owns, reads what their
    hosts report, observes exits, and moves the admission of the whole graph.
    What the operating system and the clock answer in a turn is an argument; the
    clock is read once a turn.  Errors are the text the code prints.  A session
    works on its own state and the owner's, the graph on all sessions and the
    owner's; [None] is a panic. *)

From Stdlib Require Import ZArith Lia.
From S2P Require Import Prelude Text Btree Core Bindings Report Step HostProtocol Connection ProcessWire HostMessages ProcessAdmit LaunchTypes HostChannel.

(** ** What was prepared ([prepared.rs], [prepared/hosted.rs]) *)

Record PreparedModule : Type := mkPreparedModule {
  prm_namespace : str;
  prm_module_dir : path;
  prm_executable : path;
  prm_bundle_dir : path;
  prm_config_dir : option path;
  prm_config_bundle_dir : option path;
  prm_run : RunSpec;
  prm_provider : ProviderSpec;
  prm_bindings : ModuleBindings;
  prm_fingerprint : str;
}.

Record PreparedComponent : Type := mkPreparedComponent {
  prc_namespace : str;
  prc_module_dir : path;
  prc_component : ComponentSpec;
  prc_host : str;
  prc_config_dir : option path;
  prc_config_bundle_dir : option path;
  prc_bindings : ModuleBindings;
  prc_fingerprint : str;
}.

Record PreparedHost : Type := mkPreparedHost {
  prh_module_dir : path;
  prh_executable : path;
  prh_bundle_dir : path;
  prh_spec : ComponentHostSpec;
  prh_provider : ProviderSpec;
  prh_instances : list str;
  prh_fingerprint : str;
}.

Record PreparedDeployment : Type := mkPrepared {
  pd_root : path;
  pd_deployment : str;
  pd_domain : str;
  pd_nodes : list PreparedModule;
  pd_components : list PreparedComponent;
  pd_component_hosts : btree str PreparedHost;
  pd_resources : btree str path;
}.

(** ** Status ([deployment/status.rs], [hosted/status.rs]) *)

Inductive DeploymentPhase : Type :=
  | DpStarting | DpReady | DpStopping | DpDegraded | DpSuspended | DpStopped | DpCompleted | DpFailed.
#[export] Instance DeploymentPhase_eq_dec : EqDecision DeploymentPhase.
Proof. solve_decision. Defined.

Record ModuleStatus : Type := mkModuleStatus {
  ms_desired_fingerprint : str;
  ms_actual_fingerprint : option str;
  ms_pid : option Z;
  ms_generation : Z;
  ms_phase : DeploymentPhase;
  ms_error : option str;
  ms_report : option ModuleReport;
}.

(** [ComponentHostStatus] *)
Record HostObservation : Type := mkHostObservation {
  ho_pid : option Z;
  ho_generation : Z;
  ho_graph_generation : Z;
  ho_desired_fingerprint : str;
  ho_phase : HostPhase;
  ho_error : option str;
  ho_failure : option HostFailure;
  ho_outcome : option HostOutcome;
  ho_exit : option str;
  ho_cleanup_errors : list str;
}.

(** [ComponentStatus] *)
Record InstanceObservation : Type := mkInstanceObservation {
  io_host : str;
  io_desired_fingerprint : str;
  io_phase : HostPhase;
  io_report : option ModuleReport;
  io_error : option str;
}.

Record DeploymentStatus : Type := mkDeploymentStatus {
  ds_version : Z;
  ds_root : path;
  ds_deployment : str;
  ds_domain : str;
  ds_owner_generation : str;
  ds_owner_pid : Z;
  ds_owner_alive : bool;
  ds_revision : Z;
  ds_phase : DeploymentPhase;
  ds_modules : btree str ModuleStatus;
  ds_component_hosts : btree str HostObservation;
  ds_components : btree str InstanceObservation;
  ds_resources : btree str path;
  ds_error : option str;
}.

#[export] Instance HostFailure_eq_dec : EqDecision HostFailure.
Proof. assert (EqDecision FailureCode) by solve_decision. solve_decision. Defined.
#[export] Instance HostOutcome_eq_dec : EqDecision HostOutcome.
Proof. solve_decision. Defined.
#[export] Instance DeploymentStatus_eq_dec : EqDecision DeploymentStatus.
Proof.
  assert (EqDecision ModuleStatus) by solve_decision. assert (EqDecision HostObservation) by solve_decision.
  assert (EqDecision InstanceObservation) by solve_decision. solve_decision.
Defined.

(** ** Remote hosts ([deployment/remote/ownership.rs], [execution.rs]) *)

(** [RemoteOwnership]; [tree_cleanup] has one value *)
Record RemoteOwnership : Type := mkRemoteOwnership {
  ro_identity : SessionIdentity;
  ro_target_digest : str;
  ro_local_client_reaped : bool;
  ro_cooperative_outcome : option HostOutcome;
  ro_remote_command_exit : option Z;
  ro_reconciliation : option str;
}.

(** [Gate]: whether the bootstrap is still held back *)
Record RemoteGate : Type := mkGate { rg_held : bool; rg_verified : bool }.

(** ** Sessions ([hosted/mod.rs]) *)

Inductive SessionPhase : Type :=
  | SpAuthenticating | SpPreparing | SpPrepared | SpCommitting | SpCommitted | SpActivating | SpRunning | SpStopping
  | SpTerminal.
#[export] Instance SessionPhase_eq_dec : EqDecision SessionPhase.
Proof. solve_decision. Defined.

Inductive GraphAdmission : Type :=
  | AdPreparing | AdCommitting | AdActivating | AdActive | AdAborting (final : DeploymentPhase) | AdFinished.

(** [Session]; a listener is there or not; [ss_heard] are the messages handled so
    far, kept for statements *)
Record HostSession : Type := mkHostSession {
  ss_listening : bool;
  ss_channel : option (HostChannel (M := OwnerMessage));
  ss_identity : SessionIdentity;
  ss_nonce : option (list Z);
  ss_assignments : list ComponentAssignment;
  ss_transport : TransportSettings;
  ss_phase : SessionPhase;
  ss_reports : btree str unit;
  ss_startup_deadline : Z;
  ss_stop_deadline : option Z;
  ss_stop_reason : option StopReason;
  ss_failure : option str;
  ss_remote : option RemoteOwnership;
  ss_gate : option RemoteGate;
  ss_heard : list HostMessage;
}.

Record Hosted : Type := mkHosted {
  hd_sessions : btree str HostSession;
  hd_admission : GraphAdmission;
  hd_deadline : Z;
  hd_digest : str;
}.

(** ** The owner ([deployment.rs]) *)

(** [Action] *)
Inductive OwnerAction : Type :=
  | OaStatus
  | OaApply (prepared : PreparedDeployment)
  | OaStop
  | OaWaitStopped
  | OaWaitTerminal
  | OaWaitReady (timeout_ms : Z)
  | OaWaitRevision (revision timeout_ms : Z).

(** [Waiter]; a stream is known by a number *)
Record Waiter : Type := mkWaiter { wa_stream : nat; wa_action : OwnerAction; wa_deadline : option Z }.

(** How a child is observed: by its report, since it was started, or as a host *)
Inductive ProcessObservation : Type := ObserveModule (started : Z) | ObserveHosted.

(** [Owner]; [ow_number] is the number at the head of its generation,
    [ow_remote] the control ports of the SSH targets, [ow_ledger] the records of
    remote ownership on disk, by key, [ow_replies] what was sent on which stream *)
Record DeploymentOwner : Type := mkOwner {
  ow_desired : PreparedDeployment;
  ow_status : DeploymentStatus;
  ow_published : option DeploymentStatus;
  ow_children : btree str ProcessObservation;
  ow_retries : btree str Z;
  ow_attempts : btree str Z;
  ow_next_generation : Z;
  ow_graph_generation : Z;
  ow_number : result Z str;
  ow_remote : btree str Z;
  ow_ledger : btree str RemoteOwnership;
  ow_waiters : list Waiter;
  ow_replies : list (nat * result DeploymentStatus str);
}.

Definition put_desired (x : PreparedDeployment) (o : DeploymentOwner) : DeploymentOwner :=
  mkOwner x (ow_status o) (ow_published o) (ow_children o) (ow_retries o) (ow_attempts o) (ow_next_generation o)
    (ow_graph_generation o) (ow_number o) (ow_remote o) (ow_ledger o) (ow_waiters o) (ow_replies o).
Definition put_deployment (x : DeploymentStatus) (o : DeploymentOwner) : DeploymentOwner :=
  mkOwner (ow_desired o) x (ow_published o) (ow_children o) (ow_retries o) (ow_attempts o) (ow_next_generation o)
    (ow_graph_generation o) (ow_number o) (ow_remote o) (ow_ledger o) (ow_waiters o) (ow_replies o).
Definition put_published (x : option DeploymentStatus) (o : DeploymentOwner) : DeploymentOwner :=
  mkOwner (ow_desired o) (ow_status o) x (ow_children o) (ow_retries o) (ow_attempts o) (ow_next_generation o)
    (ow_graph_generation o) (ow_number o) (ow_remote o) (ow_ledger o) (ow_waiters o) (ow_replies o).
Definition put_children (x : btree str ProcessObservation) (o : DeploymentOwner) : DeploymentOwner :=
  mkOwner (ow_desired o) (ow_status o) (ow_published o) x (ow_retries o) (ow_attempts o) (ow_next_generation o)
    (ow_graph_generation o) (ow_number o) (ow_remote o) (ow_ledger o) (ow_waiters o) (ow_replies o).
Definition put_retries (x : btree str Z) (o : DeploymentOwner) : DeploymentOwner :=
  mkOwner (ow_desired o) (ow_status o) (ow_published o) (ow_children o) x (ow_attempts o) (ow_next_generation o)
    (ow_graph_generation o) (ow_number o) (ow_remote o) (ow_ledger o) (ow_waiters o) (ow_replies o).
Definition put_attempts (x : btree str Z) (o : DeploymentOwner) : DeploymentOwner :=
  mkOwner (ow_desired o) (ow_status o) (ow_published o) (ow_children o) (ow_retries o) x (ow_next_generation o)
    (ow_graph_generation o) (ow_number o) (ow_remote o) (ow_ledger o) (ow_waiters o) (ow_replies o).
Definition put_next_generation (x : Z) (o : DeploymentOwner) : DeploymentOwner :=
  mkOwner (ow_desired o) (ow_status o) (ow_published o) (ow_children o) (ow_retries o) (ow_attempts o) x
    (ow_graph_generation o) (ow_number o) (ow_remote o) (ow_ledger o) (ow_waiters o) (ow_replies o).
Definition put_graph_generation (x : Z) (o : DeploymentOwner) : DeploymentOwner :=
  mkOwner (ow_desired o) (ow_status o) (ow_published o) (ow_children o) (ow_retries o) (ow_attempts o)
    (ow_next_generation o) x (ow_number o) (ow_remote o) (ow_ledger o) (ow_waiters o) (ow_replies o).
Definition put_ledger (x : btree str RemoteOwnership) (o : DeploymentOwner) : DeploymentOwner :=
  mkOwner (ow_desired o) (ow_status o) (ow_published o) (ow_children o) (ow_retries o) (ow_attempts o)
    (ow_next_generation o) (ow_graph_generation o) (ow_number o) (ow_remote o) x (ow_waiters o) (ow_replies o).
Definition put_waiters (x : list Waiter) (o : DeploymentOwner) : DeploymentOwner :=
  mkOwner (ow_desired o) (ow_status o) (ow_published o) (ow_children o) (ow_retries o) (ow_attempts o)
    (ow_next_generation o) (ow_graph_generation o) (ow_number o) (ow_remote o) (ow_ledger o) x (ow_replies o).
Definition put_replies (x : list (nat * result DeploymentStatus str)) (o : DeploymentOwner) : DeploymentOwner :=
  mkOwner (ow_desired o) (ow_status o) (ow_published o) (ow_children o) (ow_retries o) (ow_attempts o)
    (ow_next_generation o) (ow_graph_generation o) (ow_number o) (ow_remote o) (ow_ledger o) (ow_waiters o) x.

(** An entry of a map changed in place *)
Definition bt_update {K V} `{Ord K} (k : K) (f : V → V) (m : btree K V) : btree K V :=
  match bt_get k m with Some v => (bt_insert k (f v) m).2 | None => m end.

Definition with_phase (p : DeploymentPhase) (o : DeploymentOwner) : DeploymentOwner :=
  let s := ow_status o in
  put_deployment (mkDeploymentStatus (ds_version s) (ds_root s) (ds_deployment s) (ds_domain s)
    (ds_owner_generation s) (ds_owner_pid s) (ds_owner_alive s) (ds_revision s) p (ds_modules s)
    (ds_component_hosts s) (ds_components s) (ds_resources s) (ds_error s)) o.
Definition with_error (e : option str) (o : DeploymentOwner) : DeploymentOwner :=
  let s := ow_status o in
  put_deployment (mkDeploymentStatus (ds_version s) (ds_root s) (ds_deployment s) (ds_domain s)
    (ds_owner_generation s) (ds_owner_pid s) (ds_owner_alive s) (ds_revision s) (ds_phase s) (ds_modules s)
    (ds_component_hosts s) (ds_components s) (ds_resources s) e) o.
(** [get_or_insert] *)
Definition first_error (e : str) (o : DeploymentOwner) : DeploymentOwner :=
  match ds_error (ow_status o) with Some _ => o | None => with_error (Some e) o end.
Definition with_modules (f : btree str ModuleStatus → btree str ModuleStatus) (o : DeploymentOwner) : DeploymentOwner :=
  let s := ow_status o in
  put_deployment (mkDeploymentStatus (ds_version s) (ds_root s) (ds_deployment s) (ds_domain s)
    (ds_owner_generation s) (ds_owner_pid s) (ds_owner_alive s) (ds_revision s) (ds_phase s) (f (ds_modules s))
    (ds_component_hosts s) (ds_components s) (ds_resources s) (ds_error s)) o.
Definition with_hosts (f : btree str HostObservation → btree str HostObservation) (o : DeploymentOwner) :
  DeploymentOwner :=
  let s := ow_status o in
  put_deployment (mkDeploymentStatus (ds_version s) (ds_root s) (ds_deployment s) (ds_domain s)
    (ds_owner_generation s) (ds_owner_pid s) (ds_owner_alive s) (ds_revision s) (ds_phase s) (ds_modules s)
    (f (ds_component_hosts s)) (ds_components s) (ds_resources s) (ds_error s)) o.
Definition with_components (f : btree str InstanceObservation → btree str InstanceObservation) (o : DeploymentOwner) :
  DeploymentOwner :=
  let s := ow_status o in
  put_deployment (mkDeploymentStatus (ds_version s) (ds_root s) (ds_deployment s) (ds_domain s)
    (ds_owner_generation s) (ds_owner_pid s) (ds_owner_alive s) (ds_revision s) (ds_phase s) (ds_modules s)
    (ds_component_hosts s) (f (ds_components s)) (ds_resources s) (ds_error s)) o.

Definition on_host (name : str) (f : HostObservation → HostObservation) : DeploymentOwner → DeploymentOwner :=
  with_hosts (bt_update name f).
Definition host_of (name : str) (o : DeploymentOwner) : option HostObservation := bt_get name (ds_component_hosts (ow_status o)).

Definition ho_with_phase (p : HostPhase) (h : HostObservation) : HostObservation :=
  mkHostObservation (ho_pid h) (ho_generation h) (ho_graph_generation h) (ho_desired_fingerprint h) p (ho_error h)
    (ho_failure h) (ho_outcome h) (ho_exit h) (ho_cleanup_errors h).
Definition ho_with_error (e : option str) (h : HostObservation) : HostObservation :=
  mkHostObservation (ho_pid h) (ho_generation h) (ho_graph_generation h) (ho_desired_fingerprint h) (ho_phase h) e
    (ho_failure h) (ho_outcome h) (ho_exit h) (ho_cleanup_errors h).
Definition ho_with_failure (f : option HostFailure) (h : HostObservation) : HostObservation :=
  mkHostObservation (ho_pid h) (ho_generation h) (ho_graph_generation h) (ho_desired_fingerprint h) (ho_phase h)
    (ho_error h) f (ho_outcome h) (ho_exit h) (ho_cleanup_errors h).
Definition ho_with_outcome (x : option HostOutcome) (h : HostObservation) : HostObservation :=
  mkHostObservation (ho_pid h) (ho_generation h) (ho_graph_generation h) (ho_desired_fingerprint h) (ho_phase h)
    (ho_error h) (ho_failure h) x (ho_exit h) (ho_cleanup_errors h).
Definition ho_with_cleanup (l : list str) (h : HostObservation) : HostObservation :=
  mkHostObservation (ho_pid h) (ho_generation h) (ho_graph_generation h) (ho_desired_fingerprint h) (ho_phase h)
    (ho_error h) (ho_failure h) (ho_outcome h) (ho_exit h) l.

(** ** Sessions and their turns *)

Definition ss_put_listening (x : bool) (s : HostSession) : HostSession :=
  mkHostSession x (ss_channel s) (ss_identity s) (ss_nonce s) (ss_assignments s) (ss_transport s) (ss_phase s)
    (ss_reports s) (ss_startup_deadline s) (ss_stop_deadline s) (ss_stop_reason s) (ss_failure s) (ss_remote s)
    (ss_gate s) (ss_heard s).
Definition ss_put_channel (x : option (HostChannel (M := OwnerMessage))) (s : HostSession) : HostSession :=
  mkHostSession (ss_listening s) x (ss_identity s) (ss_nonce s) (ss_assignments s) (ss_transport s) (ss_phase s)
    (ss_reports s) (ss_startup_deadline s) (ss_stop_deadline s) (ss_stop_reason s) (ss_failure s) (ss_remote s)
    (ss_gate s) (ss_heard s).
Definition ss_put_nonce (x : option (list Z)) (s : HostSession) : HostSession :=
  mkHostSession (ss_listening s) (ss_channel s) (ss_identity s) x (ss_assignments s) (ss_transport s) (ss_phase s)
    (ss_reports s) (ss_startup_deadline s) (ss_stop_deadline s) (ss_stop_reason s) (ss_failure s) (ss_remote s)
    (ss_gate s) (ss_heard s).
Definition ss_put_phase (x : SessionPhase) (s : HostSession) : HostSession :=
  mkHostSession (ss_listening s) (ss_channel s) (ss_identity s) (ss_nonce s) (ss_assignments s) (ss_transport s) x
    (ss_reports s) (ss_startup_deadline s) (ss_stop_deadline s) (ss_stop_reason s) (ss_failure s) (ss_remote s)
    (ss_gate s) (ss_heard s).
Definition ss_put_reports (x : btree str unit) (s : HostSession) : HostSession :=
  mkHostSession (ss_listening s) (ss_channel s) (ss_identity s) (ss_nonce s) (ss_assignments s) (ss_transport s)
    (ss_phase s) x (ss_startup_deadline s) (ss_stop_deadline s) (ss_stop_reason s) (ss_failure s) (ss_remote s)
    (ss_gate s) (ss_heard s).
Definition ss_put_stop_deadline (x : option Z) (s : HostSession) : HostSession :=
  mkHostSession (ss_listening s) (ss_channel s) (ss_identity s) (ss_nonce s) (ss_assignments s) (ss_transport s)
    (ss_phase s) (ss_reports s) (ss_startup_deadline s) x (ss_stop_reason s) (ss_failure s) (ss_remote s)
    (ss_gate s) (ss_heard s).
Definition ss_put_stop_reason (x : option StopReason) (s : HostSession) : HostSession :=
  mkHostSession (ss_listening s) (ss_channel s) (ss_identity s) (ss_nonce s) (ss_assignments s) (ss_transport s)
    (ss_phase s) (ss_reports s) (ss_startup_deadline s) (ss_stop_deadline s) x (ss_failure s) (ss_remote s)
    (ss_gate s) (ss_heard s).
Definition ss_put_failure (x : option str) (s : HostSession) : HostSession :=
  mkHostSession (ss_listening s) (ss_channel s) (ss_identity s) (ss_nonce s) (ss_assignments s) (ss_transport s)
    (ss_phase s) (ss_reports s) (ss_startup_deadline s) (ss_stop_deadline s) (ss_stop_reason s) x (ss_remote s)
    (ss_gate s) (ss_heard s).
Definition ss_put_remote (x : option RemoteOwnership) (s : HostSession) : HostSession :=
  mkHostSession (ss_listening s) (ss_channel s) (ss_identity s) (ss_nonce s) (ss_assignments s) (ss_transport s)
    (ss_phase s) (ss_reports s) (ss_startup_deadline s) (ss_stop_deadline s) (ss_stop_reason s) (ss_failure s) x
    (ss_gate s) (ss_heard s).
Definition ss_put_gate (x : option RemoteGate) (s : HostSession) : HostSession :=
  mkHostSession (ss_listening s) (ss_channel s) (ss_identity s) (ss_nonce s) (ss_assignments s) (ss_transport s)
    (ss_phase s) (ss_reports s) (ss_startup_deadline s) (ss_stop_deadline s) (ss_stop_reason s) (ss_failure s)
    (ss_remote s) x (ss_heard s).
Definition ss_hear (m : HostMessage) (s : HostSession) : HostSession :=
  mkHostSession (ss_listening s) (ss_channel s) (ss_identity s) (ss_nonce s) (ss_assignments s) (ss_transport s)
    (ss_phase s) (ss_reports s) (ss_startup_deadline s) (ss_stop_deadline s) (ss_stop_reason s) (ss_failure s)
    (ss_remote s) (ss_gate s) (ss_heard s ++ [m]).

Inductive AcceptAnswer : Type := NoConnection | Accepted (loopback : bool) (socket : Socket) | AcceptFails (e : str).
Inductive GateAnswer : Type := GateWaits | GateReads (verified written : result unit str) | GateLost.
(** A write that fails leaves the old file, or the new one unsynced *)
Inductive PersistAnswer : Type := Persisted | PersistFails (e : str) | Unsynced (e : str).
Record ExitStatus : Type := mkExitStatus { ex_success : bool; ex_code : option Z; ex_text : str }.

(** What the clock and the system answer in a turn, by host *)
Record Answers : Type := mkAnswers {
  an_now : Z;
  an_accept : str → AcceptAnswer;
  an_gate : str → GateAnswer;
  an_exit : str → result (option ExitStatus) str;
  an_kill : str → result unit str;
  an_persist : str → PersistAnswer;
  an_publish : result unit str;
}.

Definition START_GRACE : Z := 30 * SECOND.
Definition STOP_GRACE : Z := 2 * SECOND.

(** [anyhow]: [ensure!] and [Context] on an [Option] *)
Definition check {S} (b : bool) (message : str) : ST S (result unit str) := ret (ensure_text b message).
Definition present {S A} (o : option A) (message : str) : ST S (result A str) := ret (ok_or o message).
Definition done {S} : ST S (result unit str) := ret (Ok tt).

(** [Session::observed_phase] *)
Definition observed_phase (p : SessionPhase) : HostPhase :=
  match p with
  | SpAuthenticating => PAuthenticating
  | SpPreparing => PPreparing
  | SpPrepared | SpCommitting => PPrepared
  | SpCommitted | SpActivating => PCommitted
  | SpRunning => PRunning
  | SpStopping | SpTerminal => PStopping
  end.

Definition io_with_phase (p : HostPhase) (i : InstanceObservation) : InstanceObservation :=
  mkInstanceObservation (io_host i) (io_desired_fingerprint i) p (io_report i) (io_error i).
Definition io_with_error (e : str) (i : InstanceObservation) : InstanceObservation :=
  mkInstanceObservation (io_host i) (io_desired_fingerprint i) (io_phase i) (io_report i)
    (match io_error i with Some first => Some first | None => Some e end).
Definition io_with_report (r : ModuleReport) (i : InstanceObservation) : InstanceObservation :=
  mkInstanceObservation (io_host i) (io_desired_fingerprint i) (io_phase i) (Some r) (io_error i).

(** The instances of one host, changed in place *)
Definition on_instances (host : str) (f : InstanceObservation → InstanceObservation) : DeploymentOwner → DeploymentOwner :=
  with_components (fmap (λ '(k, i), (k, if bool_decide (io_host i = host) then f i else i))).

(** [status::phase] *)
Definition status_phase (host : str) (p : HostPhase) (o : DeploymentOwner) : DeploymentOwner :=
  on_instances host (io_with_phase p) (on_host host (ho_with_phase p) o).

Definition phase_debug (p : HostPhase) : str :=
  match p with
  | PAuthenticating => bytes_of "Authenticating" | PPreparing => bytes_of "Preparing" | PPrepared => bytes_of "Prepared"
  | PCommitted => bytes_of "Committed" | PRunning => bytes_of "Running" | PStopping => bytes_of "Stopping"
  | PStopped => bytes_of "Stopped" | PFailed => bytes_of "Failed" | PUnresponsive => bytes_of "Unresponsive"
  end.

(** ** Publication and waiters ([deployment/setup.rs], [deployment/events.rs]) *)

Definition deployment_phase_debug (p : DeploymentPhase) : str :=
  match p with
  | DpStarting => bytes_of "Starting" | DpReady => bytes_of "Ready" | DpStopping => bytes_of "Stopping"
  | DpDegraded => bytes_of "Degraded" | DpSuspended => bytes_of "Suspended" | DpStopped => bytes_of "Stopped"
  | DpCompleted => bytes_of "Completed" | DpFailed => bytes_of "Failed"
  end.

(** [Owner::wait_outcome] *)
Definition wait_outcome (now : Z) (s : DeploymentStatus) (w : Waiter) : option (result DeploymentStatus str) :=
  let timed_out := if match wa_deadline w with Some d => (d <=? now)%Z | None => false end
                   then Some (Err (bytes_of "deployment wait timed out")) else None in
  match wa_action w with
  | OaWaitReady _ =>
      match ds_phase s with
      | DpReady | DpCompleted => Some (Ok s)
      | DpFailed | DpSuspended | DpStopped | DpStopping =>
          Some (Err (bytes_of "deployment " ++ deployment_phase_debug (ds_phase s) ++ bytes_of ": "
                     ++ default (bytes_of "not ready") (ds_error s)))
      | DpStarting | DpDegraded => timed_out
      end
  | OaWaitRevision revision _ => if (revision <? ds_revision s)%Z then Some (Ok s) else timed_out
  | OaWaitTerminal => match ds_phase s with DpStopped | DpCompleted => Some (Ok s) | _ => timed_out end
  | OaWaitStopped => timed_out
  | OaStatus | OaApply _ | OaStop => Some (Err (bytes_of "invalid wait request"))
  end.

(** [Vec::swap_remove] *)
Definition swap_remove {A} (i : nat) (l : list A) : list A :=
  match last l with Some x => take (length l - 1) (<[i := x]> l) | None => l end.

Definition reply (stream : nat) (r : result DeploymentStatus str) (o : DeploymentOwner) : DeploymentOwner :=
  put_replies (ow_replies o ++ [(stream, r)]) o.

(** The loop of [Owner::notify_waiters] *)
Fixpoint notify_loop (fuel : nat) (now : Z) (index : nat) (o : DeploymentOwner) : DeploymentOwner :=
  match fuel with
  | 0 => o
  | S fuel =>
      match ow_waiters o !! index with
      | None => o
      | Some w =>
          match wait_outcome now (ow_status o) w with
          | Some r => notify_loop fuel now index (reply (wa_stream w) r (put_waiters (swap_remove index (ow_waiters o)) o))
          | None => notify_loop fuel now (S index) o
          end
      end
  end.

(** [Owner::notify_waiters] *)
Definition notify_waiters (now : Z) (o : DeploymentOwner) : DeploymentOwner := notify_loop (length (ow_waiters o)) now 0 o.

Definition with_revision (n : Z) (o : DeploymentOwner) : DeploymentOwner :=
  let s := ow_status o in
  put_deployment (mkDeploymentStatus (ds_version s) (ds_root s) (ds_deployment s) (ds_domain s)
    (ds_owner_generation s) (ds_owner_pid s) (ds_owner_alive s) n (ds_phase s) (ds_modules s)
    (ds_component_hosts s) (ds_components s) (ds_resources s) (ds_error s)) o.

(** [Owner::publish]; [written] is how writing the state file ends *)
Definition publish (now : Z) (written : result unit str) (o : DeploymentOwner) : result unit str * DeploymentOwner :=
  if bool_decide (ow_published o = Some (ow_status o)) then (Ok tt, o) else
  match checked_add 64 (ds_revision (ow_status o)) 1 with
  | None => (Err (bytes_of "state revision exhausted"), o)
  | Some n =>
      let o := with_revision n o in
      match written with
      | Err e => (Err e, o)
      | Ok _ => (Ok tt, notify_waiters now (put_published (Some (ow_status o)) o))
      end
  end.

Section deploy.
(** The JSON codec of the control channel, the contracts of this build, the text of
    a report error, and the key of a session in the ledger *)
Context (serialize : Envelope OwnerMessage → result (list Z) str).
Context (unique : list Z → bool) (parse : list Z → option (Envelope HostMessage)).
Context (compatibility : Compatibility) (display : ReportError → str) (key : SessionIdentity → str).

(** [remote::persist] *)
Definition persist (answer : PersistAnswer) (record : RemoteOwnership) (new : bool) (o : DeploymentOwner) :
  result unit str * DeploymentOwner :=
  match answer with
  | PersistFails e => (Err e, o)
  | _ =>
      let k := key (ro_identity record) in
      let checked :=
        if new then ensure_text (is_none (bt_get k (ow_ledger o))) (bytes_of "remote generation already reserved")
        else match bt_get k (ow_ledger o) with
             | None => Err (bytes_of "missing remote ownership record")
             | Some old => ensure_text (bool_decide (ro_identity old = ro_identity record) &&
                             bool_decide (ro_target_digest old = ro_target_digest record))
                             (bytes_of "remote ownership replacement mismatch")
             end in
      match checked with
      | Err e => (Err e, o)
      | Ok _ =>
          (match answer with Unsynced e => Err e | _ => Ok tt end, put_ledger (bt_insert k record (ow_ledger o)).2 o)
      end
  end.

(** ** One session ([hosted/events.rs], [tick.rs]) *)

Definition Turn : Type := HostSession * DeploymentOwner.
Definition session : ST Turn HostSession := gets fst.
Definition owner : ST Turn DeploymentOwner := gets snd.
Definition set_session (f : HostSession → HostSession) : ST Turn unit := modify (λ '(s, o), (f s, o)).
Definition set_owner (f : DeploymentOwner → DeploymentOwner) : ST Turn unit := modify (λ '(s, o), (s, f o)).
Definition host_name (s : HostSession) : str := host_id (ss_identity s).

(** [Channel::queue] on the session's channel *)
Definition queue_message (now : Z) (missing : str) (body : OwnerMessage) : ST Turn (result unit str) :=
  let* s := session in
  match ss_channel s with
  | None => ret (Err missing)
  | Some c => let '(r, c) := host_queue serialize now body c in set_session (ss_put_channel (Some c)) ;;; ret r
  end.

Definition assigned (s : HostSession) (namespace : str) : bool :=
  existsb (λ a, bool_decide (mb_namespace (ca_bindings a) = namespace)) (ss_assignments s).

Definition persist_record (answer : PersistAnswer) (record : RemoteOwnership) : ST Turn (result unit str) :=
  let* o := owner in
  let '(r, o) := persist answer record false o in set_owner (λ _, o) ;;; ret r.

Definition ro_with_outcome (x : HostOutcome) (r : RemoteOwnership) : RemoteOwnership :=
  mkRemoteOwnership (ro_identity r) (ro_target_digest r) (ro_local_client_reaped r) (Some x) (ro_remote_command_exit r)
    (ro_reconciliation r).

(** The instances of an unresponsive outcome are distinct and assigned *)
Definition outcome_valid (s : HostSession) (x : HostOutcome) : bool :=
  match x with
  | OutcomeUnresponsive _ _ instances => bool_decide (NoDup instances) && forallb (assigned s) instances
  | _ => true
  end.

(** [Session::outcome] *)
Definition take_outcome (a : Answers) (x : HostOutcome) : ST Turn (result unit str) :=
  let* s := session in
  let* o := owner in
  let name := host_name s in
  try* status := present (host_of name o) (bytes_of "missing host status") in
  try* _ := check (is_none (ho_outcome status)) (bytes_of "duplicate terminal host outcome") in
  try* _ := check (outcome_valid s x) (bytes_of "invalid unresponsive instance set") in
  set_owner (on_host name (ho_with_outcome (Some x))) ;;;
  try* _ := match ss_remote s with
            | Some record =>
                let record := ro_with_outcome x record in
                set_session (ss_put_remote (Some record)) ;;; persist_record (an_persist a name) record
            | None => done
            end in
  set_session (ss_put_phase SpTerminal) ;;;
  (if is_none (ss_remote s) then ret tt else set_session (ss_put_channel None)) ;;;
  (if is_none (ss_stop_deadline s) then set_session (ss_put_stop_deadline (Some (an_now a + STOP_GRACE)%Z)) else ret tt) ;;;
  (if bool_decide (ss_phase s = SpStopping) || negb (is_none (ss_failure s)) then ret tt
   else set_session (ss_put_failure (Some (bytes_of "unexpected host terminal outcome")))) ;;;
  done.

(** A failure that an aborted admission is expected to cause *)
Definition expected_cancellation (s : HostSession) (f : HostFailure) : bool :=
  bool_decide (ss_phase s = SpStopping)
  && match ss_stop_reason s with Some AdmissionAborted => true | _ => false end
  && match hf_code f with FCancelled => true | _ => false end
  && match hf_phase f with PPreparing | PPrepared | PCommitted => true | _ => false end.

(** [Session::record_failure] *)
Definition record_failure (f : HostFailure) : ST Turn (result unit str) :=
  let* s := session in
  try* _ := check (match hf_instance f with Some namespace => assigned s namespace | None => true end)
              (bytes_of "failure outside host assignment") in
  (if expected_cancellation s f || negb (is_none (ss_failure s)) then ret tt
   else set_session (ss_put_failure (Some (bytes_of "host failure " ++ code_debug (hf_code f) ++ bytes_of " in "
          ++ phase_debug (hf_phase f))))) ;;;
  let* o := owner in
  try* status := present (host_of (host_name s) o) (bytes_of "missing failed host status") in
  try* _ := check (is_none (ho_failure status)) (bytes_of "duplicate host failure event") in
  set_owner (on_host (host_name s) (ho_with_failure (Some f))) ;;; done.

(** Comparison without an early end *)
Definition nonce_difference (left right : list Z) : Z :=
  foldl (λ difference '(l, r), Z.lor difference (Z.lxor l r)) 0%Z (zip left right).

(** [windows(2)] in strictly increasing order of the factory *)
Fixpoint factories_increase (l : list FactoryRegistration) : bool :=
  match l with
  | x :: (y :: _) as rest =>
      match cmp (fr_factory x) (fr_factory y) with Lt => factories_increase rest | _ => false end
  | _ => true
  end.

Definition required_factories (s : HostSession) : list FactoryRegistration :=
  (bt_collect ((λ a, (ca_implementation a, tt)) <$> ss_assignments s)).*1.

(** [Session::authenticate]; in a list in order a binary search finds what is there *)
Definition authenticate (a : Answers) (proof : Authenticate) : ST Turn (result unit str) :=
  let* s := session in
  try* _ := check (bool_decide (ss_phase s = SpAuthenticating)) (bytes_of "duplicate host authentication") in
  set_session (ss_put_nonce None) ;;;
  try* nonce := present (ss_nonce s) (bytes_of "consumed host nonce") in
  try* _ := check (nonce_difference nonce (au_nonce proof) =? 0)%Z (bytes_of "host authentication rejected") in
  try* _ := check (bool_decide (au_compatibility proof = compatibility)) (bytes_of "host compatibility mismatch") in
  try* _ := check ((length (au_registrations proof) <=? 1024) && factories_increase (au_registrations proof))
              (bytes_of "host factory registrations must be sorted and unique") in
  try* _ := check (forallb (λ f, existsb (λ g, bool_decide (g = f)) (au_registrations proof)) (required_factories s))
              (bytes_of "required host factory revision missing") in
  let missing := bytes_of "authenticated host has no channel" in
  try* _ := queue_message (an_now a) missing (Authenticated compatibility (required_factories s)) in
  let budget := (Z.max 0 (ss_startup_deadline s - an_now a) / 1000000)%Z in
  try* _ := check (budget <=? u64_max)%Z (bytes_of "out of range integral type conversion attempted") in
  try* _ := queue_message (an_now a) missing (OwnerPrepare (mkPrepare (ss_assignments s) (ss_transport s) budget)) in
  set_session (ss_put_phase SpPreparing) ;;; done.

(** A report *)
Definition take_report (report : ModuleReport) : ST Turn (result unit str) :=
  let* s := session in
  try* _ := check (bool_decide (ss_phase s = SpPreparing)) (bytes_of "report outside preparation") in
  try* expected := present (ss_assignments s !! length (ss_reports s)) (bytes_of "excess host report") in
  try* _ := check (bool_decide (mr_namespace report = mb_namespace (ca_bindings expected)))
              (bytes_of "unexpected, duplicate or unordered host report") in
  let* valid := lift (validate_report (ca_bindings expected) report) in
  try* _ := ret (map_err display valid) in
  set_session (ss_put_reports (bs_insert (mr_namespace report) (ss_reports s)).2) ;;;
  let* o := owner in
  try* _ := present (bt_get (mr_namespace report) (ds_components (ow_status o))) (bytes_of "unknown report namespace") in
  set_owner (with_components (bt_update (mr_namespace report) (io_with_report report))) ;;; done.

(** A snapshot is compared, never adopted *)
Fixpoint check_snapshot (instances : list (str * InstanceStatus)) (o : DeploymentOwner) : result unit str :=
  match instances with
  | [] => Ok tt
  | (namespace, instance) :: rest =>
      let? known := ok_or (bt_get namespace (ds_components (ow_status o))) (bytes_of "unknown status namespace") in
      let? _ := ensure_text (bool_decide (is_report instance = io_report known))
                  (bytes_of "host status altered admitted report") in
      check_snapshot rest o
  end.

Definition take_status (snapshot : HostStatus) : ST Turn (result unit str) :=
  let* s := session in
  let* o := owner in
  try* _ := check (bool_decide (hs_phase snapshot = observed_phase (ss_phase s))) (bytes_of "host status stage mismatch") in
  let expected := (bt_collect ((λ a, (mb_namespace (ca_bindings a), tt)) <$> ss_assignments s)).*1 in
  try* _ := check (bool_decide ((hs_instances snapshot).*1 = expected)) (bytes_of "host status namespace mismatch") in
  ret (check_snapshot (hs_instances snapshot) o).

(** An acknowledgement *)
Definition acknowledge (from to : SessionPhase) (message : str) : ST Turn (result unit str) :=
  let* s := session in
  try* _ := check (bool_decide (ss_phase s = from)) message in
  set_session (ss_put_phase to) ;;; done.

Definition prepared_complete : ST Turn (result unit str) :=
  let* s := session in
  try* _ := check (bool_decide (ss_phase s = SpPreparing) && (length (ss_reports s) =? length (ss_assignments s)))
              (bytes_of "incomplete host report set") in
  set_session (ss_put_phase SpPrepared) ;;; done.

(** [Session::message] *)
Definition take_message (a : Answers) (m : HostMessage) : ST Turn (result unit str) :=
  let* s := session in
  let name := host_name s in
  try* _ := check (negb (bool_decide (ss_phase s = SpAuthenticating))
                   || match m with HostAuthenticate _ => true | _ => false end)
              (bytes_of "first host message must authenticate") in
  try* _ := match m with
            | HostSteps _ => ret (Err (bytes_of "step extension was not negotiated"))
            | HostAuthenticate proof => authenticate a proof
            | HostReport report => take_report report
            | HostPreparedComplete => prepared_complete
            | HostCommitted => acknowledge SpCommitting SpCommitted (bytes_of "unexpected commit acknowledgement")
            | HostRunning => acknowledge SpActivating SpRunning (bytes_of "unexpected running acknowledgement")
            | HostStatusMessage snapshot => take_status snapshot
            | HostFailureMessage f => record_failure f
            | HostOutcomeMessage x => take_outcome a x
            end in
  let* s := session in
  set_owner (status_phase name (observed_phase (ss_phase s))) ;;; set_session (ss_hear m) ;;; done.

(** [Gate::poll] *)
Definition gate_poll (answer : GateAnswer) (g : RemoteGate) : result unit str * RemoteGate :=
  if negb (rg_held g) then (Ok tt, g) else
  match answer with
  | GateWaits => (Ok tt, g)
  | GateLost => (Err (bytes_of "SSH verification reader disappeared"), g)
  | GateReads verified written =>
      match verified with
      | Err e => (Err e, g)
      | Ok _ => match written with
                | Err e => (Err e, mkGate false (rg_verified g))
                | Ok _ => (Ok tt, mkGate false true)
                end
      end
  end.

(** The loop of [Session::poll] *)
Fixpoint poll_messages (n : nat) (a : Answers) : ST Turn (result unit str) :=
  match n with
  | 0 => done
  | S n =>
      let* s := session in
      try* c := present (ss_channel s) (bytes_of "missing host channel") in
      let* next := lift (host_next unique parse (an_now a) c) in
      let '(r, c) := next in
      set_session (ss_put_channel (Some c)) ;;;
      try* body := ret r in
      match body with
      | None => done
      | Some m =>
          try* _ := take_message a m in
          let* s := session in
          if bool_decide (ss_phase s = SpTerminal) then done else poll_messages n a
      end
  end.

(** The end of [Session::poll], once there is no listener *)
Definition poll_channel (a : Answers) : ST Turn (result unit str) :=
  let* s := session in
  if bool_decide (ss_phase s = SpTerminal) then done else
  match ss_channel s with
  | None => done
  | Some c =>
      let '(r, c) := host_flush (an_now a) c in
      set_session (ss_put_channel (Some c)) ;;;
      try* _ := ret r in
      poll_messages 32 a
  end.

(** [Session::poll] *)
Definition session_poll (a : Answers) : ST Turn (result unit str) :=
  let* s := session in
  try* _ := match ss_gate s with
            | Some g =>
                if bool_decide (ss_phase s = SpAuthenticating)
                then let '(r, g) := gate_poll (an_gate a (host_name s)) g in set_session (ss_put_gate (Some g)) ;;; ret r
                else done
            | None => done
            end in
  if ss_listening s then
    match an_accept a (host_name s) with
    | NoConnection => done
    | AcceptFails e => ret (Err e)
    | Accepted loopback socket =>
        try* _ := check loopback (bytes_of "non-loopback host connection") in
        set_session (ss_put_channel (Some (host_channel_new socket (ss_identity s)))) ;;;
        set_session (ss_put_listening false) ;;;
        poll_channel a
    end
  else poll_channel a.

(** ** The whole graph ([hosted/shutdown.rs], [tick.rs]) *)

Definition Scope : Type := Hosted * DeploymentOwner.
Definition hosted : ST Scope Hosted := gets fst.
Definition holder : ST Scope DeploymentOwner := gets snd.
Definition set_holder (f : DeploymentOwner → DeploymentOwner) : ST Scope unit := modify (λ '(h, o), (h, f o)).
Definition put_sessions (x : btree str HostSession) (h : Hosted) : Hosted :=
  mkHosted x (hd_admission h) (hd_deadline h) (hd_digest h).
Definition put_admission (x : GraphAdmission) (h : Hosted) : Hosted :=
  mkHosted (hd_sessions h) x (hd_deadline h) (hd_digest h).
Definition set_hosted (f : Hosted → Hosted) : ST Scope unit := modify (λ '(h, o), (f h, o)).

(** Work on the session of [name] *)
Definition on_session {A} (name missing : str) (m : ST Turn A) : ST Scope (result A str) := λ '(h, o),
  match bt_get name (hd_sessions h) with
  | None => Some (Err missing, (h, o))
  | Some s =>
      match m (s, o) with
      | Some (x, (s, o)) => Some (Ok x, (put_sessions (bt_insert name s (hd_sessions h)).2 h, o))
      | None => None
      end
  end.

(** [for] with [?] *)
Fixpoint try_each {S A} (f : A → ST S (result unit str)) (l : list A) : ST S (result unit str) :=
  match l with
  | [] => done
  | x :: l => try* _ := f x in try_each f l
  end.

(** [Hosted::request_stop], with a session *)
Definition stop_session (now deadline : Z) (reason : StopReason) (name : str) : ST Turn (result unit str) :=
  let* s := session in
  if negb (is_none (ss_stop_deadline s)) then done else
  set_session (λ s, ss_put_phase SpStopping (ss_put_nonce None (ss_put_listening false
    (ss_put_stop_deadline (Some deadline) s)))) ;;;
  set_owner (status_phase name PStopping) ;;;
  match ss_channel s with
  | None => done
  | Some c =>
      let budget := (Z.max 0 (deadline - now) / 1000000)%Z in
      try* _ := check (budget <=? u64_max)%Z (bytes_of "out of range integral type conversion attempted") in
      let '(r, c) := host_queue serialize now (OwnerStop reason budget) c in
      set_session (ss_put_channel (Some c)) ;;;
      match r with
      | Err e =>
          let* o := owner in
          try* _ := present (host_of name o) (bytes_of "stopping host status missing") in
          set_owner (on_host name (λ h, ho_with_cleanup (ho_cleanup_errors h ++ [bytes_of "stop delivery failed: " ++ e]) h)) ;;;
          set_session (ss_put_channel None) ;;; done
      | Ok _ => set_session (ss_put_stop_reason (Some reason)) ;;; done
      end
  end.

(** [Hosted::request_stop] *)
Definition request_stop (now deadline : Z) (reason : StopReason) (name : str) : ST Scope (result unit str) :=
  let* h := hosted in
  match bt_get name (hd_sessions h) with
  | None => set_holder (status_phase name PStopped) ;;; done
  | Some _ => try* r := on_session name [] (stop_session now deadline reason name) in ret r
  end.

(** [Hosted::stop_all] *)
Definition stop_all_hosts (now : Z) (reason : StopReason) (final : DeploymentPhase) : ST Scope (result unit str) :=
  set_hosted (put_admission (AdAborting final)) ;;;
  set_holder (with_phase DpStopping) ;;;
  let* o := holder in
  try_each (request_stop now (now + STOP_GRACE) reason) (pd_component_hosts (ow_desired o)).*1.

(** The error of a host: the first one is kept, others are errors of its cleanup *)
Definition add_error (e : str) (h : HostObservation) : HostObservation :=
  match ho_error h with
  | None => ho_with_error (Some e) h
  | Some _ => if bool_decide (e ∈ ho_cleanup_errors h) then h else ho_with_cleanup (ho_cleanup_errors h ++ [e]) h
  end.

(** [Hosted::fail] *)
Definition fail_host (now : Z) (name e : str) : ST Scope (result unit str) :=
  let* o := holder in
  try* _ := present (host_of name o) (bytes_of "failed host status missing") in
  set_holder (λ o, first_error (name ++ bytes_of ": " ++ e) (on_instances name (io_with_error e) (on_host name (add_error e) o))) ;;;
  let* h := hosted in
  match hd_admission h with
  | AdPreparing | AdCommitting | AdActivating => stop_all_hosts now AdmissionAborted DpFailed
  | AdActive =>
      try* host := present (bt_get name (pd_component_hosts (ow_desired o))) (bytes_of "failed host missing") in
      match hs_on_failure (prh_spec host) with
      | FReport => set_holder (with_phase DpDegraded) ;;; request_stop now (now + STOP_GRACE) DeploymentFailure name
      | SuspendDeployment => stop_all_hosts now DeploymentFailure DpSuspended
      end
  | AdAborting _ | AdFinished => done
  end.

Definition ro_with_exit (code : option Z) (r : RemoteOwnership) : RemoteOwnership :=
  mkRemoteOwnership (ro_identity r) (ro_target_digest r) true (ro_cooperative_outcome r) code (ro_reconciliation r).

(** The phase of a host whose process is gone *)
Definition exit_phase (status : HostObservation) (exit : option ExitStatus) : HostPhase :=
  match ho_outcome status with
  | Some OutcomeStopped =>
      if is_none (ho_error status) && match exit with Some x => ex_success x | None => false end then PStopped else PFailed
  | Some (OutcomeFailed _ _) => PFailed
  | Some (OutcomeUnresponsive _ _ _) | None => PUnresponsive
  end.

(** The status of a host whose process is gone *)
Definition exited_status (remote : bool) (description : str) (h : HostObservation) : HostObservation :=
  let h := mkHostObservation None (ho_generation h) (ho_graph_generation h) (ho_desired_fingerprint h) (ho_phase h)
             (ho_error h) (ho_failure h) (ho_outcome h)
             (Some (if remote then bytes_of "local SSH client: " ++ description ++ bytes_of "; remote tree cleanup Unknown"
                    else description)) (ho_cleanup_errors h) in
  let h := match ho_outcome h, ho_error h with
           | None, None => ho_with_error (Some (if remote
               then bytes_of "remote task cleanup unconfirmed; only local SSH client tree reaped"
               else bytes_of "local task cleanup unconfirmed; owned process tree reaped")) h
           | _, _ => h
           end in
  if remote then ho_with_cleanup (ho_cleanup_errors h ++
    [bytes_of "remote tree cleanup Unknown; SSH exit is not descendant containment"]) h else h.

(** The end of the process is recorded; 255 is the SSH client's own failure *)
Definition record_exit (a : Answers) (name : str) (exit : option ExitStatus) (s : HostSession) : ST Turn (result unit str) :=
  let verified := match ss_gate s with Some g => rg_verified g | None => false end in
  match ss_remote s with
  | Some record =>
      let code := match exit with
                  | Some x => match ex_code x with
                              | Some c => if verified && negb (c =? 255)%Z then Some c else None
                              | None => None
                              end
                  | None => None
                  end in
      let record := ro_with_exit code record in
      set_session (ss_put_remote (Some record)) ;;; persist_record (an_persist a name) record
  | None => done
  end.

(** What is shown of a host whose process is gone, and the end of its session *)
Definition finish_exit (name : str) (remote : bool) (exit : option ExitStatus) (description : str) : ST Scope (result unit str) :=
  let* o := holder in
  try* status := present (host_of name o) (bytes_of "missing exited host status") in
  let phase := exit_phase status exit in
  set_holder (on_host name (exited_status remote description)) ;;;
  set_holder (status_phase name (if remote then PUnresponsive else phase)) ;;;
  try* _ := on_session name (bytes_of "missing reaped host session")
              (set_session (λ s, ss_put_phase SpTerminal (ss_put_gate None (ss_put_listening false (ss_put_channel None s))))) in
  done.

(** [Hosted::observe_exit]: what follows once the process tree was killed and reaped *)
Definition reap_host (a : Answers) (name : str) (exit : option ExitStatus) (s : HostSession) : ST Scope (result unit str) :=
  let description := match exit with
                     | Some x => bytes_of "process exited: " ++ ex_text x
                     | None => bytes_of "owned process tree killed after shutdown deadline"
                     end in
  set_holder (λ o, put_children (bt_remove name (ow_children o)).2 o) ;;;
  try* r := on_session name [] (record_exit a name exit s) in
  try* _ := ret r in
  try* _ := if is_none (ss_stop_deadline s) then fail_host (an_now a) name description else done in
  finish_exit name (negb (is_none (ss_remote s))) exit description.

(** [Hosted::observe_exit] *)
Definition observe_exit (a : Answers) (name : str) : ST Scope (result unit str) :=
  let* h := hosted in
  let* o := holder in
  try* s := present (bt_get name (hd_sessions h)) (bytes_of "missing host session") in
  try* _ := present (bt_get name (ow_children o)) (bytes_of "missing owned host") in
  try* exit := ret (an_exit a name) in
  let expired := match ss_stop_deadline s with Some d => (d <=? an_now a)%Z | None => false end in
  if is_none exit && negb expired then done else
  try* _ := ret (an_kill a name) in
  reap_host a name exit s.

(** [Hosted::send_all] *)
Definition send_all_hosts (now : Z) (body : OwnerMessage) : ST Scope (result unit str) :=
  let* h := hosted in
  try_each (λ name, try* r := on_session name [] (queue_message now (bytes_of "host channel lost before admission") body) in ret r)
    (hd_sessions h).*1.

Definition all_phase (p : SessionPhase) (h : Hosted) : bool :=
  forallb (λ e : str * HostSession, bool_decide (ss_phase e.2 = p)) (hd_sessions h).
Definition put_phases (p : SessionPhase) (h : Hosted) : Hosted :=
  put_sessions (prod_map id (ss_put_phase p) <$> hd_sessions h) h.

(** The entries whose graph is validated *)
Fixpoint graph_members (o : DeploymentOwner) (l : list PreparedComponent) : result (list ReportEntry) str :=
  match l with
  | [] => Ok []
  | c :: l =>
      let? report := ok_or (s ← bt_get (prc_namespace c) (ds_components (ow_status o)); io_report s)
                       (bytes_of "missing assigned report") in
      let? rest := graph_members o l in
      Ok (mkEntry (prc_bindings c) report :: rest)
  end.

(** [Hosted::advance] *)
Definition advance (now : Z) : ST Scope (result unit str) :=
  let* h := hosted in
  let* o := holder in
  try* _ := check (negb (bool_decide (length (hd_sessions h) = 0))) (bytes_of "empty hosted deployment") in
  match hd_admission h with
  | AdPreparing =>
      if all_phase SpPrepared h then
        try* _ := check (length (hd_sessions h) =? length (pd_component_hosts (ow_desired o))) (bytes_of "incomplete host set") in
        try* entries := ret (graph_members o (pd_components (ow_desired o))) in
        let* valid := lift (validate_graph entries) in
        try* _ := ret (map_err display valid) in
        try* _ := send_all_hosts now OwnerCommit in
        set_hosted (λ h, put_phases SpCommitting (put_admission AdCommitting h)) ;;; done
      else done
  | AdCommitting =>
      if all_phase SpCommitted h then
        try* _ := send_all_hosts now OwnerRun in
        set_hosted (λ h, put_phases SpActivating (put_admission AdActivating h)) ;;; done
      else done
  | AdActivating =>
      if all_phase SpRunning h then set_hosted (put_admission AdActive) ;;; set_holder (with_phase DpReady) ;;; done
      else done
  | AdActive | AdAborting _ | AdFinished => done
  end.

(** One host of [Hosted::tick] *)
Definition tick_host (a : Answers) (name : str) : ST Scope (result unit str) :=
  let* o := holder in
  if negb (bt_contains name (ow_children o)) then done else
  let missing := bytes_of "missing host session" in
  try* polled := on_session name missing (session_poll a) in
  try* failure := on_session name missing (let* s := session in set_session (ss_put_failure None) ;;; ret (ss_failure s)) in
  try* _ := match failure with Some e => fail_host (an_now a) name e | None => done end in
  try* _ := match polled with
            | Err e =>
                try* _ := on_session name missing (set_session (ss_put_channel None)) in
                fail_host (an_now a) name e
            | Ok _ => done
            end in
  observe_exit a name.

(** The first host takes the blame for an admission that fails as a whole *)
Definition fail_first (now : Z) (e : str) : ST Scope (result unit str) :=
  let* h := hosted in
  try* name := present (head (hd_sessions h).*1) (bytes_of "empty hosted admission") in
  fail_host now name e.

(** The end of an aborted admission *)
Definition finish_abort (final : DeploymentPhase) : ST Scope (result unit str) :=
  let* h := hosted in
  (if existsb (λ e : str * HostSession, negb (is_none (ss_remote e.2))) (hd_sessions h)
   then set_holder (λ o, first_error (bytes_of "remote tree cleanup Unknown; exact-generation operator reconciliation required")
                           (with_phase DpFailed o))
   else set_holder (with_phase final)) ;;;
  set_hosted (put_admission AdFinished) ;;; done.

(** [Hosted::tick] *)
Definition hosted_tick (a : Answers) : ST Scope (result unit str) :=
  let* h := hosted in
  try* _ := try_each (tick_host a) (hd_sessions h).*1 in
  let* h := hosted in
  let* o := holder in
  match hd_admission h with
  | AdPreparing | AdCommitting | AdActivating =>
      if (hd_deadline h <=? an_now a)%Z then fail_first (an_now a) (bytes_of "whole hosted admission timed out")
      else let* r := advance (an_now a) in
           match r with Ok _ => done | Err e => fail_first (an_now a) e end
  | AdAborting final => if bool_decide (length (ow_children o) = 0) then finish_abort final else done
  | AdActive | AdFinished => done
  end.

(** ** Starting ([hosted/spawn.rs], [assignment.rs], [hosted/mod.rs]) *)

Context (bootstrap : Z → SessionIdentity → list Z → result (list Z) str).
Context (digest : PreparedDeployment → result str str).

(** What the system answers while a host is spawned: the Zenoh configuration, a
    nonce, the port that listens, the pipe and the directory, the verified SSH
    command, the log files, the process with its id, and writing the bootstrap *)
Record SpawnAnswers : Type := mkSpawnAnswers {
  sp_now : Z;
  sp_transport : str → result (list str * list str * bool) str;
  sp_nonce : str → result (list Z) str;
  sp_listen : str → result Z str;
  sp_directory : str → result unit str;
  sp_command : str → result (list ComponentAssignment * str) str;
  sp_persist : str → PersistAnswer;
  sp_files : str → result unit str;
  sp_spawn : str → result (option Z) str;
  sp_write : str → result unit str;
}.

(** [assignment::instance]; paths are text, so the origin always is *)
Definition assignment_of (c : PreparedComponent) : ComponentAssignment :=
  mkAssignment (mkFactory (cs_factory (prc_component c)) (cs_factory_revision (prc_component c))) (prc_bindings c)
    ((λ directory, mkConfigOrigin directory (cs_config (prc_component c))) <$> prc_config_dir c).

Definition placement_of (d : PreparedDeployment) : btree str str :=
  bt_collect ((λ c, (prc_namespace c, prc_host c)) <$> pd_components d).

(** [assignment::transport]; [config] is the parsed Zenoh configuration *)
Definition transport_of (config : result (list str * list str * bool) str) (host : PreparedHost) (d : PreparedDeployment) :
  result TransportSettings str :=
  if bool_decide (hs_transport (prh_spec host) = LocalOnly) then Ok (TransportLocal (pd_domain d) (placement_of d)) else
  let? (connect, listen, multicast) := match pv_zenoh_config (prh_provider host) with Some _ => config | None => Ok ([], [], false) end in
  let connect := match pv_connect (prh_provider host) with [] => connect | l => l end in
  let? _ := ensure_text ((length connect <=? 1024) && (length listen <=? 1024)) (bytes_of "too many hosted transport endpoints") in
  Ok (TransportRoutedZenoh (pd_domain d) connect listen multicast (placement_of d)).

Definition assignments_of (d : PreparedDeployment) (name : str) : list ComponentAssignment :=
  sort_by_key (λ a, mb_namespace (ca_bindings a))
    (assignment_of <$> filter (λ c, prc_host c = name) (pd_components d)).

Definition ho_spawned (pid generation graph : Z) (h : HostObservation) : HostObservation :=
  mkHostObservation (Some pid) generation graph (ho_desired_fingerprint h) (ho_phase h) (ho_error h) (ho_failure h)
    (ho_outcome h) (ho_exit h) (ho_cleanup_errors h).

(** The SSH command of a remote host, and the reservation that precedes its effects *)
Definition reserve_remote (a : SpawnAnswers) (name : str) (identity : SessionIdentity)
    (assignments : list ComponentAssignment) :
  ST Scope (result (list ComponentAssignment * option RemoteOwnership) str) :=
  let* o := holder in
  match bt_get name (ow_remote o) with
  | None => ret (Ok (assignments, None))
  | Some _ =>
      try* command := ret (sp_command a name) in
      let record := mkRemoteOwnership identity command.2 false None None None in
      let '(r, o) := persist (sp_persist a name) record true o in
      set_holder (λ _, o) ;;;
      try* _ := ret r in
      ret (Ok (command.1, Some record))
  end.

(** [Hosted::spawn_one] *)
Definition spawn_host (a : SpawnAnswers) (name : str) : ST Scope (result unit str) :=
  let* h := hosted in
  let* o := holder in
  try* host := present (bt_get name (pd_component_hosts (ow_desired o))) (bytes_of "missing prepared host") in
  let assignments := assignments_of (ow_desired o) name in
  try* transport := ret (transport_of (sp_transport a name) host (ow_desired o)) in
  try* generation := present (checked_add 64 (ow_next_generation o) 1) (bytes_of "host generation exhausted") in
  set_holder (put_next_generation generation) ;;;
  try* number := ret (ow_number o) in
  let identity := mkSession number (ow_graph_generation o) name generation (hd_digest h) (prh_fingerprint host) in
  try* nonce := ret (sp_nonce a name) in
  try* port := ret (sp_listen a name) in
  try* payload := ret (bootstrap (default port (bt_get name (ow_remote o))) identity nonce) in
  try* bytes := ret (codec_framed payload) in
  try* _ := check (length bytes <=? 4096) (bytes_of "host bootstrap exceeds pipe bound") in
  try* _ := ret (sp_directory a name) in
  try* reserved := reserve_remote a name identity assignments in
  let '(assignments, remote) := reserved in
  try* _ := ret (sp_files a name) in
  try* pid := ret (map_err (λ e, bytes_of "spawning component host " ++ name ++ bytes_of ": " ++ e) (sp_spawn a name)) in
  try* pid := present pid (bytes_of "spawned host has no PID") in
  set_holder (λ o, put_children (bt_insert name ObserveHosted (ow_children o)).2 o) ;;;
  set_hosted (λ h, put_sessions (bt_insert name (mkHostSession true None identity (Some nonce) assignments transport
    SpAuthenticating [] (hd_deadline h) None None None remote
    (match remote with Some _ => Some (mkGate true false) | None => None end) []) (hd_sessions h)).2 h) ;;;
  let* o := holder in
  try* _ := present (host_of name o) (bytes_of "missing host status") in
  set_holder (on_host name (ho_spawned pid generation (ow_graph_generation o))) ;;;
  match remote with Some _ => done | None => ret (sp_write a name) end.

(** [Hosted::spawn] *)
Fixpoint spawn_hosts (a : SpawnAnswers) (names : list str) : ST Scope (result unit str) :=
  match names with
  | [] => done
  | name :: names =>
      let* r := spawn_host a name in
      match r with Ok _ => spawn_hosts a names | Err e => fail_host (sp_now a) name e end
  end.

(** [Owner::start_hosted]: the graph that is started *)
Definition start_hosted (a : SpawnAnswers) (o : DeploymentOwner) : option (result unit str * (option Hosted * DeploymentOwner)) :=
  match checked_add 64 (ow_graph_generation o) 1 with
  | None => Some (Err (bytes_of "graph generation exhausted"), (None, o))
  | Some generation =>
      let o := put_graph_generation generation o in
      match digest (ow_desired o) with
      | Err e => Some (Err e, (None, o))
      | Ok d =>
          match spawn_hosts a (pd_component_hosts (ow_desired o)).*1 (mkHosted [] AdPreparing (sp_now a + START_GRACE) d, o) with
          | Some (r, (h, o)) => Some (r, (Some h, o))
          | None => None
          end
      end
  end.

(** [Owner::identical_hosted] *)
Definition identical_hosted (h : option Hosted) (o : DeploymentOwner) (prepared : PreparedDeployment) : result bool str :=
  let? d := digest prepared in
  Ok match h with
     | Some h =>
         match hd_admission h with AdPreparing | AdCommitting | AdActivating | AdActive => true | AdAborting _ | AdFinished => false end
         && is_none (ds_error (ow_status o)) && bool_decide (hd_digest h = d)
     | None => false
     end.

(** [hosted::validate]; [verified] is how verifying the files ends *)
Definition validate_hosted (verified : result unit str) (config : str → result (list str * list str * bool) str)
    (d : PreparedDeployment) : result unit str :=
  let? _ := verified in
  let? _ := ensure_text (length (pd_component_hosts d) <=? 64) (bytes_of "too many component hosts") in
  let? _ := ensure_text (length (pd_components d) <=? 1024) (bytes_of "too many hosted component instances") in
  foldr (λ '(name, host) rest, let? _ := transport_of (config name) host d in rest) (Ok tt) (pd_component_hosts d).

(** [status::install] *)
Definition install_hosted (o : DeploymentOwner) : DeploymentOwner :=
  let d := ow_desired o in
  with_components (λ _, bt_collect ((λ c, (prc_namespace c,
      mkInstanceObservation (prc_host c) (prc_fingerprint c) PAuthenticating None None)) <$> pd_components d))
    (with_hosts (λ _, prod_map id (λ h, mkHostObservation None 0 0 (prh_fingerprint h) PAuthenticating None None None None [])
      <$> pd_component_hosts d) o).

(** [Owner::stop_hosted] over the turns it takes; the last state if they run out *)
Fixpoint stop_turns (turns : list Answers) : ST Scope (result bool str) :=
  let* o := holder in
  if bool_decide (length (ow_children o) = 0) then ret (Ok true) else
  match turns with
  | [] => ret (Ok false)
  | a :: turns =>
      try* _ := hosted_tick a in
      let* o := holder in
      let '(r, o) := publish (an_now a) (an_publish a) o in
      set_holder (λ _, o) ;;;
      try* _ := ret r in
      stop_turns turns
  end.
Definition stop_hosted (now : Z) (turns : list Answers) : ST Scope (result bool str) :=
  try* _ := stop_all_hosts now StopRequested DpStopped in stop_turns turns.
End deploy.
