(* ===== verification/DeploySteps.v ===== *)
(** * DeploySteps: what a turn of the owner does to a hosted graph
    ([crates/reiny-launch/src/deployment/hosted/events.rs], [tick.rs],
    [shutdown.rs])

    First failures, reports and records are kept by every operation
    ([owner_kept]); what a session does in its turn ([turn_rel]) and the facts
    about it that hold after every turn ([session_ok], [session_exact]). *)

From Stdlib Require Import ZArith Lia.
From S2P Require Import Prelude Text Btree Core Bindings BindingsSpec Report ReportSpec Step HostProtocol Connection ProcessWire HostMessages ProcessAdmit LaunchTypes HostChannel Deploy.

(** ** Maps *)

Section updates.
Context {K V : Type} `{OrdLaws K, EqDecision K}.
Implicit Types m : btree K V.

Lemma bt_update_ok k f m : bt_ok m → bt_ok (bt_update k f m).
Proof. unfold bt_update. destruct (bt_get k m); [apply bt_insert_ok|done]. Qed.

Lemma bt_get_update k f m k' :
  bt_ok m → bt_get k' (bt_update k f m) = if bool_decide (k' = k) then f <$> bt_get k m else bt_get k' m.
Proof.
  intros Hok. unfold bt_update. case_bool_decide as E.
  - subst. destruct (bt_get k m) as [v|] eqn:Hk; [by apply bt_get_insert_eq|by rewrite Hk].
  - destruct (bt_get k m); [by rewrite bt_get_insert_ne|done].
Qed.

Lemma bt_insert_same_keys k v w m : bt_get k m = Some w → (bt_insert k v m).2.*1 = m.*1.
Proof.
  induction m as [|[k' v'] m IH]; cbn; [done|]. destruct (cmp k k') eqn:E; cbn; [done|done|].
  intros Hk. specialize (IH Hk). destruct (bt_insert k v m). cbn in *. by rewrite IH.
Qed.

Lemma bt_update_keys k f m : (bt_update k f m).*1 = m.*1.
Proof. unfold bt_update. destruct (bt_get k m) eqn:E; [by eapply bt_insert_same_keys|done]. Qed.

Lemma bt_get_remove k m k' : bt_ok m → bt_get k' (bt_remove k m).2 = if bool_decide (k' = k) then None else bt_get k' m.
Proof.
  intros Hok. pose proof (bt_remove_ok k m Hok) as Hok'. case_bool_decide as E.
  - subst. apply bt_get_None; [done|]. intros ([k' v]&->&Hin)%list_elem_of_fmap. by apply bt_remove_elem in Hin as [_ ?].
  - apply option_eq. intros v. rewrite !bt_get_Some, bt_remove_elem by done. naive_solver.
Qed.

(** Values changed in place, with the key at hand *)
Lemma bt_ok_map (f : K → V → V) m : bt_ok m → bt_ok ((λ '(k, v), (k, f k v)) <$> m).
Proof.
  induction m as [|[k v] m IH]; cbn; [done|]. intros [Hall Hok]. split; [|by apply IH].
  apply Forall_fmap. eapply Forall_impl; [exact Hall|]. by intros [k' v'].
Qed.
Lemma bt_get_map (f : K → V → V) k m : bt_get k ((λ '(k, v), (k, f k v)) <$> m) = f k <$> bt_get k m.
Proof.
  induction m as [|[k' v] m IH]; cbn; [done|]. destruct (cmp k k') eqn:E; [|done..]. by apply cmp_eq in E as ->.
Qed.
End updates.

(** Two optional values, both there or both not *)
Lemma option_Forall2_fmap_r {A} (R : A → A → Prop) (f : A → A) (o : option A) :
  (∀ x, o = Some x → R x (f x)) → option_Forall2 R o (f <$> o).
Proof. intros HR. destruct o as [x|]; cbn; constructor. by apply HR. Qed.
Lemma option_Forall2_refl' {A} (R : A → A → Prop) (o : option A) : (∀ x, R x x) → option_Forall2 R o o.
Proof. intros HR. destruct o; by constructor. Qed.

(** ** Computations whose failure is not the question

    What holds of the result and the state if the computation does not panic *)
Definition pw {S A} (m : ST S A) (Q : A → S → Prop) (s : S) : Prop :=
  match m s with Some (a, s') => Q a s' | None => True end.

(** The steps of a computation on a session or on the graph *)
Ltac turn_steps :=
  unfold session, owner, set_session, set_owner, hosted, holder, set_hosted, set_holder, check, present, Deploy.done, ensure_text;
  wp_steps; cbn [fst snd].

(** ** What is kept *)

Definition inst_of (namespace : str) (o : DeploymentOwner) : option InstanceObservation :=
  bt_get namespace (ds_components (ow_status o)).

Record owner_wf (o : DeploymentOwner) : Prop := {
  wf_hosts : bt_ok (ds_component_hosts (ow_status o));
  wf_insts : bt_ok (ds_components (ow_status o));
  wf_children : bt_ok (ow_children o);
  wf_ledger : bt_ok (ow_ledger o);
}.

Definition keeps {A} (x y : option A) : Prop := ∀ v, x = Some v → y = Some v.

Record host_kept (h h' : HostObservation) : Prop := {
  hk_fingerprint : ho_desired_fingerprint h' = ho_desired_fingerprint h;
  hk_error : keeps (ho_error h) (ho_error h');
  hk_failure : keeps (ho_failure h) (ho_failure h');
  hk_outcome : keeps (ho_outcome h) (ho_outcome h');
  hk_cleanup : ∃ more, ho_cleanup_errors h' = ho_cleanup_errors h ++ more;
}.

Record inst_kept (i i' : InstanceObservation) : Prop := {
  ik_host : io_host i' = io_host i;
  ik_fingerprint : io_desired_fingerprint i' = io_desired_fingerprint i;
  ik_error : keeps (io_error i) (io_error i');
}.

Definition record_kept (r r' : RemoteOwnership) : Prop :=
  ro_identity r' = ro_identity r ∧ ro_target_digest r' = ro_target_digest r.

Record facts_kept (o o' : DeploymentOwner) : Prop := {
  fk_desired : ow_desired o' = ow_desired o;
  fk_remote : ow_remote o' = ow_remote o;
  fk_hosts k : option_Forall2 host_kept (host_of k o) (host_of k o');
  fk_insts k : option_Forall2 inst_kept (inst_of k o) (inst_of k o');
  fk_error : keeps (ds_error (ow_status o)) (ds_error (ow_status o'));
  fk_ledger k r : bt_get k (ow_ledger o) = Some r → ∃ r', bt_get k (ow_ledger o') = Some r' ∧ record_kept r r';
  fk_replies : ∃ more, ow_replies o' = ow_replies o ++ more;
}.

Definition owner_kept (o o' : DeploymentOwner) : Prop := owner_wf o → owner_wf o' ∧ facts_kept o o'.

Lemma kept_first_refl {A} (x : option A) : keeps x x.
Proof. by intros v. Qed.
Lemma kept_first_trans {A} (x y z : option A) : keeps x y → keeps y z → keeps x z.
Proof. intros H1 H2 v Hv. by apply H2, H1. Qed.
Lemma host_kept_refl h : host_kept h h.
Proof. constructor; try (done || apply kept_first_refl). exists []. by rewrite app_nil_r. Qed.
Lemma host_kept_trans h1 h2 h3 : host_kept h1 h2 → host_kept h2 h3 → host_kept h1 h3.
Proof.
  intros [? ? ? ? [m1 E1]] [? ? ? ? [m2 E2]]. constructor; [congruence|by eapply kept_first_trans..|].
  exists (m1 ++ m2). by rewrite E2, E1, app_assoc.
Qed.
Lemma inst_kept_refl i : inst_kept i i.
Proof. constructor; done || apply kept_first_refl. Qed.
Lemma inst_kept_trans i1 i2 i3 : inst_kept i1 i2 → inst_kept i2 i3 → inst_kept i1 i3.
Proof. intros [] []. constructor; [congruence..|by eapply kept_first_trans]. Qed.
#[export] Hint Resolve kept_first_refl host_kept_refl inst_kept_refl : reiny.

Lemma option_Forall2_trans' {A} (R : A → A → Prop) (x y z : option A) :
  (∀ a b c, R a b → R b c → R a c) → option_Forall2 R x y → option_Forall2 R y z → option_Forall2 R x z.
Proof. intros HR H1 H2. destruct H1; inversion H2; subst; constructor. by eapply HR. Qed.

Lemma owner_kept_refl o : owner_kept o o.
Proof.
  intros Hwf. split; [done|]. constructor; try (done || apply kept_first_refl).
  - intros k. apply option_Forall2_refl'; exact host_kept_refl.
  - intros k. apply option_Forall2_refl'; exact inst_kept_refl.
  - intros k r Hr. exists r. by split.
  - exists []. by rewrite app_nil_r.
Qed.
Lemma owner_kept_trans o1 o2 o3 : owner_kept o1 o2 → owner_kept o2 o3 → owner_kept o1 o3.
Proof.
  intros H1 H2 Hwf1. destruct (H1 Hwf1) as [Hwf2 [A1 A2 A3 A4 A5 A6 [m1 A7]]].
  destruct (H2 Hwf2) as [Hwf3 [B1 B2 B3 B4 B5 B6 [m2 B7]]]. split; [done|]. constructor; [congruence..| | | | |].
  - intros k. eapply option_Forall2_trans'; [apply host_kept_trans|done..].
  - intros k. eapply option_Forall2_trans'; [apply inst_kept_trans|done..].
  - by eapply kept_first_trans.
  - intros k r Hr. apply A6 in Hr as (r'&Hr&Hk). apply B6 in Hr as (r''&Hr&Hk'). exists r''. split; [done|].
    unfold record_kept in *. intuition congruence.
  - exists (m1 ++ m2). by rewrite B7, A7, app_assoc.
Qed.
#[export] Instance owner_kept_preorder : PreOrder owner_kept.
Proof. split; [exact owner_kept_refl|exact owner_kept_trans]. Qed.

(** Changes of the status and of the records *)
Lemma owner_kept_status o f g e s :
  ds_component_hosts s = f (ds_component_hosts (ow_status o)) → ds_components s = g (ds_components (ow_status o)) →
  ds_error s = e → keeps (ds_error (ow_status o)) e →
  (owner_wf o → bt_ok (f (ds_component_hosts (ow_status o))) ∧ bt_ok (g (ds_components (ow_status o))) ∧
    (∀ k, option_Forall2 host_kept (host_of k o) (bt_get k (f (ds_component_hosts (ow_status o))))) ∧
    (∀ k, option_Forall2 inst_kept (inst_of k o) (bt_get k (g (ds_components (ow_status o)))))) →
  owner_kept o (put_deployment s o).
Proof.
  intros Hf Hg He Hk Hok Hwf. destruct (Hok Hwf) as (Hf'&Hg'&Hh&Hi). destruct Hwf as [W1 W2 W3 W4]. split.
  - constructor; cbn; congruence.
  - constructor; cbn; try (done || apply kept_first_refl).
    + intros k. unfold host_of. cbn. rewrite Hf. apply Hh.
    + intros k. unfold inst_of. cbn. rewrite Hg. apply Hi.
    + by rewrite He.
    + intros k r Hr. exists r. by split.
    + exists []. by rewrite app_nil_r.
Qed.

Lemma with_phase_kept p o : owner_kept o (with_phase p o).
Proof.
  apply (owner_kept_status o id id (ds_error (ow_status o))); try (done || apply kept_first_refl). intros [? ? ? ?]. split_and!; [done..| |]; intros k.
  - apply option_Forall2_refl'; exact host_kept_refl.
  - apply option_Forall2_refl'; exact inst_kept_refl.
Qed.
Lemma first_error_kept e o : owner_kept o (first_error e o).
Proof.
  unfold first_error. destruct (ds_error (ow_status o)) eqn:E; [reflexivity|].
  apply (owner_kept_status o id id (Some e)); [done..|by intros v; rewrite E|]. intros [? ? ? ?]. split_and!; [done..| |]; intros k.
  - apply option_Forall2_refl'; exact host_kept_refl.
  - apply option_Forall2_refl'; exact inst_kept_refl.
Qed.
Lemma with_revision_kept n o : owner_kept o (with_revision n o).
Proof.
  apply (owner_kept_status o id id (ds_error (ow_status o))); try (done || apply kept_first_refl). intros [? ? ? ?]. split_and!; [done..| |]; intros k.
  - apply option_Forall2_refl'; exact host_kept_refl.
  - apply option_Forall2_refl'; exact inst_kept_refl.
Qed.

Lemma on_host_kept name f o :
  (∀ h, host_of name o = Some h → host_kept h (f h)) → owner_kept o (on_host name f o).
Proof.
  intros Hf. apply (owner_kept_status o (bt_update name f) id (ds_error (ow_status o))); try (done || apply kept_first_refl).
  intros [? ? ? ?]. split_and!; [by apply bt_update_ok|done| |]; intros k.
  - rewrite bt_get_update by done. case_bool_decide; [subst; by apply option_Forall2_fmap_r|].
    apply option_Forall2_refl'; exact host_kept_refl.
  - apply option_Forall2_refl'; exact inst_kept_refl.
Qed.

Lemma with_components_kept f o :
  (owner_wf o → bt_ok (f (ds_components (ow_status o))) ∧
    ∀ k, option_Forall2 inst_kept (inst_of k o) (bt_get k (f (ds_components (ow_status o))))) →
  owner_kept o (with_components f o).
Proof.
  intros Hf. apply (owner_kept_status o id f (ds_error (ow_status o))); try (done || apply kept_first_refl). intros Hwf.
  destruct (Hf Hwf) as [Ho Hk]. destruct Hwf. split_and!; [done..| |done]. intros k. apply option_Forall2_refl'; exact host_kept_refl.
Qed.

Lemma on_instances_kept host f o : (∀ i, inst_kept i (f i)) → owner_kept o (on_instances host f o).
Proof.
  intros Hf. apply with_components_kept. intros [? Hi ? ?].
  split; [by apply (bt_ok_map (λ _ i, if bool_decide (io_host i = host) then f i else i))|]. intros k.
  rewrite (bt_get_map (λ _ i, if bool_decide (io_host i = host) then f i else i)). apply option_Forall2_fmap_r.
  intros i _. case_bool_decide; [apply Hf|apply inst_kept_refl].
Qed.

Lemma status_phase_kept name p o : owner_kept o (status_phase name p o).
Proof.
  unfold status_phase. etrans; [apply (on_host_kept name (ho_with_phase p))|apply on_instances_kept].
  - intros h _. constructor; cbn; [done|apply kept_first_refl..|]. exists []. by rewrite app_nil_r.
  - intros i. constructor; done || apply kept_first_refl.
Qed.

Lemma put_children_kept f o : (bt_ok (ow_children o) → bt_ok (f (ow_children o))) → owner_kept o (put_children (f (ow_children o)) o).
Proof.
  intros Hf [W1 W2 W3 W4]. split; [constructor; cbn; auto|]. constructor; cbn; try (done || apply kept_first_refl).
  - intros k. apply option_Forall2_refl'; exact host_kept_refl.
  - intros k. apply option_Forall2_refl'; exact inst_kept_refl.
  - intros k r Hr. exists r. by split.
  - exists []. by rewrite app_nil_r.
Qed.

(** ** Sessions *)

Section sessions.
Context (serialize : Envelope OwnerMessage → result (list Z) str).
Context (unique : list Z → bool) (parse : list Z → option (Envelope HostMessage)).
Context (compatibility : Compatibility) (display : ReportError → str) (key : SessionIdentity → str).

Lemma persist_kept answer record new o r o' :
  persist key answer record new o = (r, o') →
  ow_status o' = ow_status o ∧ ow_children o' = ow_children o ∧ owner_kept o o' ∧
  (r = Ok tt → bt_ok (ow_ledger o) → bt_get (key (ro_identity record)) (ow_ledger o') = Some record).
Proof.
  assert (Hput : ∀ x : result unit str, bt_get (key (ro_identity record)) (ow_ledger o) = None ∨
      (∃ old, bt_get (key (ro_identity record)) (ow_ledger o) = Some old ∧ record_kept old record) →
    let o2 := put_ledger (bt_insert (key (ro_identity record)) record (ow_ledger o)).2 o in
    ow_status o2 = ow_status o ∧ ow_children o2 = ow_children o ∧ owner_kept o o2 ∧
    (x = Ok tt → bt_ok (ow_ledger o) → bt_get (key (ro_identity record)) (ow_ledger o2) = Some record)).
  { intros x Hold o2. split_and!; try done.
    - intros [W1 W2 W3 W4]. split; [constructor; cbn; try done; by apply bt_insert_ok|].
      constructor; cbn; try (done || apply kept_first_refl).
      + intros k. apply option_Forall2_refl'; exact host_kept_refl.
      + intros k. apply option_Forall2_refl'; exact inst_kept_refl.
      + intros k rk Hk. destruct (decide (k = key (ro_identity record))) as [->|Hne].
        * exists record. rewrite bt_get_insert_eq by done. split; [done|]. destruct Hold as [Hn|(old&Ho&Hr)]; congruence.
        * exists rk. rewrite bt_get_insert_ne by done. by split.
      + exists []. by rewrite app_nil_r.
    - intros _ Hl. cbn. by apply bt_get_insert_eq. }
  assert (Hsame : ∀ e : str, (Err e, o) = (r, o') → ow_status o' = ow_status o ∧ ow_children o' = ow_children o ∧
    owner_kept o o' ∧
    (r = Ok tt → bt_ok (ow_ledger o) → bt_get (key (ro_identity record)) (ow_ledger o') = Some record))
    by (intros e E; apply pair_eq in E as [<- <-]; split_and!; done || reflexivity).
  unfold persist, ensure_text. intros Hp.
  destruct answer as [|e|e]; [|by apply Hsame in Hp|]; destruct new;
    destruct (bt_get (key (ro_identity record)) (ow_ledger o)) as [old|] eqn:Eo; cbn [is_none] in Hp;
    try (by apply Hsame in Hp); try (apply pair_eq in Hp as [<- <-]; apply Hput; by left);
    (match type of Hp with context [if ?b then Ok _ else _] => destruct b eqn:Eb end;
      [apply pair_eq in Hp as [<- <-]|by apply Hsame in Hp]);
    apply andb_true_iff in Eb as [Ei%bool_decide_eq_true Ed%bool_decide_eq_true]; apply Hput; right;
    exists old; split; done.
Qed.

(** A record is replaced by one for the same session. *)
Lemma persist_Ok answer record o old :
  answer = Persisted → bt_get (key (ro_identity record)) (ow_ledger o) = Some old → record_kept old record →
  ∃ o', persist key answer record false o = (Ok tt, o').
Proof.
  intros -> Hold [Hi Hd]. unfold persist, ensure_text. rewrite Hold, Hi, Hd, !bool_decide_eq_true_2 by done. by eexists.
Qed.

(** The bodies queued on a channel, by their place in the protocol *)
Definition tag (m : OwnerMessage) : nat :=
  match m with
  | Authenticated _ _ => 0 | OwnerPrepare _ => 1 | OwnerCommit => 2 | OwnerRun => 3 | OwnerStop _ _ => 4 | OwnerSteps _ => 5
  end.
Definition log (c : HostChannel (M := OwnerMessage)) : list nat := tag <$> hc_bodies c.
Definition lifecycle (n : nat) : list nat := seq 0 n.

(** What a log may be *)
Definition log_ordered (stopping : bool) (l : list nat) : Prop :=
  ∃ n, n ≤ 4 ∧ (l = lifecycle n ∨ stopping = true ∧ l = lifecycle n ++ [4]).
(** What it is, outside a step *)
Definition log_exact (p : SessionPhase) (l : list nat) : Prop :=
  match p with
  | SpAuthenticating => l = lifecycle 0
  | SpPreparing | SpPrepared => l = lifecycle 2
  | SpCommitting | SpCommitted => l = lifecycle 3
  | SpActivating | SpRunning => l = lifecycle 4
  | SpStopping | SpTerminal => True
  end.

Definition ending (p : SessionPhase) : bool := match p with SpStopping | SpTerminal => true | _ => false end.

(** What a host said before its session got where it is *)
Definition proof_ok (s : HostSession) (proof : Authenticate) : Prop :=
  au_compatibility proof = compatibility ∧ factories_increase (au_registrations proof) = true ∧
  ∀ f, f ∈ required_factories s → f ∈ au_registrations proof.
Definition was_prepared (s : HostSession) : Prop := HostPreparedComplete ∈ ss_heard s.
Definition heard_exact (s : HostSession) : Prop :=
  (ss_phase s = SpAuthenticating → ss_heard s = []) ∧
  (ss_phase s ≠ SpAuthenticating → ending (ss_phase s) = false →
     ∃ proof rest, ss_heard s = HostAuthenticate proof :: rest ∧ proof_ok s proof) ∧
  (ss_phase s ∈ [SpPrepared; SpCommitting; SpCommitted; SpActivating; SpRunning] → was_prepared s) ∧
  (ss_phase s ∈ [SpCommitted; SpActivating; SpRunning] → HostCommitted ∈ ss_heard s) ∧
  (ss_phase s = SpRunning → HostRunning ∈ ss_heard s).

Definition assignments_typed (s : HostSession) : Prop :=
  ∀ a, a ∈ ss_assignments s → bt_ok (mb_inputs (ca_bindings a)) ∧ bt_ok (mb_outputs (ca_bindings a)).

(** A session at any time *)
Record session_base (s : HostSession) : Prop := {
  so_channel c : ss_channel s = Some c →
    writing_ok serialize (ss_identity s) c ∧ buffers_ok c ∧ log_ordered (negb (is_none (ss_stop_deadline s))) (log c);
  so_listen : ss_listening s = true → ss_channel s = None ∧ ss_phase s = SpAuthenticating;
  so_stop : ending (ss_phase s) = negb (is_none (ss_stop_deadline s));
  so_typed : assignments_typed s;
}.
Definition session_ok (s : HostSession) : Prop := session_base s ∧ heard_exact s.
(** A session between steps *)
Definition session_exact (s : HostSession) : Prop := ∀ c, ss_channel s = Some c → log_exact (ss_phase s) (log c).

(** ** What a turn of a session does *)

(** The phases a session may take in its turn *)
Definition moves (p p' : SessionPhase) : Prop :=
  p' = p ∨ p' = SpTerminal ∨ (p ∈ [SpAuthenticating; SpPreparing] ∧ p' ∈ [SpPreparing; SpPrepared]) ∨
  (p = SpCommitting ∧ p' = SpCommitted) ∨ (p = SpActivating ∧ p' = SpRunning).

Definition same_record (x y : option RemoteOwnership) : Prop := option_Forall2 record_kept x y.

Record session_rel (s s' : HostSession) : Prop := {
  sl_identity : ss_identity s' = ss_identity s;
  sl_assignments : ss_assignments s' = ss_assignments s;
  sl_remote : same_record (ss_remote s) (ss_remote s');
  sl_deadline : keeps (ss_stop_deadline s) (ss_stop_deadline s');
  sl_heard : ∃ more, ss_heard s' = ss_heard s ++ more;
  sl_failure : is_Some (ss_failure s) → is_Some (ss_failure s');
  sl_moves : moves (ss_phase s) (ss_phase s');
  sl_terminal : ss_phase s' = SpTerminal → ending (ss_phase s) = false → is_Some (ss_failure s');
  sl_log c' t : ss_channel s' = Some c' → t ∈ log c' → 2 ≤ t → ∃ c, ss_channel s = Some c ∧ t ∈ log c;
}.

(** The phases on display *)
Definition same_phases (o o' : DeploymentOwner) : Prop :=
  (∀ k, ho_phase <$> host_of k o' = ho_phase <$> host_of k o) ∧ (∀ k, io_phase <$> inst_of k o' = io_phase <$> inst_of k o).
Definition same_reports (o o' : DeploymentOwner) : Prop :=
  ∀ k, (i ← inst_of k o'; io_report i) = (i ← inst_of k o; io_report i).
Definition reports_typed (o : DeploymentOwner) : Prop :=
  ∀ k i r, inst_of k o = Some i → io_report i = Some r → bt_ok (mr_inputs r) ∧ bt_ok (mr_outputs r).

Record owner_rel (s : HostSession) (o o' : DeploymentOwner) : Prop := {
  or_kept : owner_kept o o';
  or_children : ow_children o' = ow_children o;
  or_phase : ds_phase (ow_status o') = ds_phase (ow_status o);
  or_typed : owner_wf o → reports_typed o → reports_typed o';
  or_reports : ss_phase s ∉ [SpAuthenticating; SpPreparing] → owner_wf o → same_reports o o';
  or_hosts k : owner_wf o → k ≠ host_name s → host_of k o' = host_of k o;
}.

Lemma moves_refl p : moves p p.
Proof. by left. Qed.
Lemma moves_trans p1 p2 p3 : moves p1 p2 → moves p2 p3 → moves p1 p3.
Proof.
  unfold moves. intros H1 H2. destruct H1 as [->|[->|[[H1 H1']|[[-> ->]|[-> ->]]]]]; [done|..];
    destruct H2 as [->|[->|[[H2 H2']|[[? ->]|[? ->]]]]]; set_solver.
Qed.
Lemma moves_ending p p' : moves p p' → ending p = true → ending p' = true.
Proof. intros [->|[->|[[H _]|[[-> _]|[-> _]]]]]; [done..| |done|done]. repeat apply elem_of_cons in H as [->|H]; done || by apply elem_of_nil in H. Qed.
Lemma moves_early p p' :
  moves p p' → p ∉ [SpAuthenticating; SpPreparing] → p' ∉ [SpAuthenticating; SpPreparing].
Proof. intros [->|[->|[[H _]|[[-> ->]|[-> ->]]]]]; set_solver. Qed.

Lemma same_record_refl x : same_record x x.
Proof. by apply option_Forall2_refl'. Qed.
Lemma session_rel_refl s : session_rel s s.
Proof.
  constructor; try (done || apply kept_first_refl || apply same_record_refl || apply moves_refl).
  - exists []. by rewrite app_nil_r.
  - intros ->. done.
  - intros c t Hc Ht _. by exists c.
Qed.
Lemma session_rel_trans s1 s2 s3 : session_rel s1 s2 → session_rel s2 s3 → session_rel s1 s3.
Proof.
  intros [A1 A2 A3 A4 [m1 A5] A6 A7 A8 A9] [B1 B2 B3 B4 [m2 B5] B6 B7 B8 B9]. constructor; [congruence..| | | | | | |].
  - eapply option_Forall2_trans'; [|done..]. unfold record_kept. intuition congruence.
  - by eapply kept_first_trans.
  - exists (m1 ++ m2). by rewrite B5, A5, app_assoc.
  - auto.
  - by eapply moves_trans.
  - intros Ht He. destruct (ending (ss_phase s2)) eqn:E2; [|by apply B8]. apply B6.
    destruct (ss_phase s2) eqn:E; try done; [|by apply A8]. exfalso. clear -A7 E He.
    destruct A7 as [Hp|[Hp|[[_ Hp]|[[_ Hp]|[_ Hp]]]]]; [by rewrite <- Hp in He|done| |done|done]. set_solver.
  - intros c t Hc Ht Hle. destruct (B9 c t Hc Ht Hle) as (c2&Hc2&Ht2). by apply (A9 c2).
Qed.

Lemma same_phases_refl o : same_phases o o.
Proof. done. Qed.
Lemma same_phases_trans o1 o2 o3 : same_phases o1 o2 → same_phases o2 o3 → same_phases o1 o3.
Proof. intros [A B] [C D]. split; intros k; [by rewrite C|by rewrite D]. Qed.

Lemma owner_rel_refl s o : owner_rel s o o.
Proof. constructor; done || reflexivity. Qed.
Lemma owner_rel_trans s s2 o1 o2 o3 :
  ss_identity s2 = ss_identity s →
  (ss_phase s ∉ [SpAuthenticating; SpPreparing] → ss_phase s2 ∉ [SpAuthenticating; SpPreparing]) →
  owner_rel s o1 o2 → owner_rel s2 o2 o3 → owner_rel s o1 o3.
Proof.
  intros Hid Hs [A1 A2 A3 A4 A5 A6] [B1 B2 B3 B4 B5 B6]. constructor; [by etrans|congruence..| | |].
  - intros Hw Ht. apply B4; [by apply A1|auto].
  - intros Hp Hw k. destruct (A1 Hw) as [Hw2 _]. by rewrite (B5 (Hs Hp) Hw2), (A5 Hp Hw).
  - intros k Hw Hk. destruct (A1 Hw) as [Hw2 _]. rewrite B6, A6; [done..|]. unfold host_name in *. by rewrite Hid.
Qed.

(** A change that leaves the reports alone *)
Lemma owner_rel_plain s o o' :
  owner_kept o o' → ow_children o' = ow_children o → ds_phase (ow_status o') = ds_phase (ow_status o) →
  (owner_wf o → ∀ k, io_report <$> inst_of k o' = io_report <$> inst_of k o) →
  (∀ k, owner_wf o → k ≠ host_name s → host_of k o' = host_of k o) → owner_rel s o o'.
Proof.
  intros Hk Hc Hp Hr Ho. constructor; [done..| | |done].
  - intros Hw Ht k i r Hi Hr'. specialize (Hr Hw k). rewrite Hi in Hr. cbn in Hr.
    destruct (inst_of k o) as [i0|] eqn:E; [|done]. injection Hr as Hr. apply (Ht k i0 r E). congruence.
  - intros _ Hw k. specialize (Hr Hw k). destruct (inst_of k o), (inst_of k o'); cbn in *; congruence.
Qed.

(** How a handler of a message leaves things: the phases on display come after *)
Definition handled (m : HostMessage) (st : Turn) (r : result unit str) (st' : Turn) : Prop :=
  session_base st'.1 ∧ session_rel st.1 st'.1 ∧ owner_rel st.1 st.2 st'.2 ∧ (owner_wf st.2 → same_phases st.2 st'.2) ∧
  match r with
  | Ok _ => session_exact st'.1 ∧ heard_exact (ss_hear m st'.1)
  | Err _ => heard_exact st'.1 ∧ ss_phase st'.1 = ss_phase st.1
  end.

Lemma handled_nothing m s o e : session_ok s → handled m (s, o) (Err e) (s, o).
Proof. intros [? ?]. split_and!; done || apply session_rel_refl || apply owner_rel_refl || apply same_phases_refl. Qed.

(** Only the phase changes *)
Lemma phase_handled m s o p :
  session_ok s → ss_phase s ≠ SpAuthenticating → ending (ss_phase s) = false → ending p = false →
  moves (ss_phase s) p → session_exact (ss_put_phase p s) → heard_exact (ss_hear m (ss_put_phase p s)) →
  handled m (s, o) (Ok tt) (ss_put_phase p s, o).
Proof.
  intros [[B1 B2 B3 B4] Hh] Ha He Hp Hm Hx Hh'. split_and!; [| |apply owner_rel_refl|done|done|done].
  - constructor; cbn; [done| |congruence|done]. intros Hl. destruct (B2 Hl) as [_ ?]. done.
  - constructor; cbn; try (done || apply kept_first_refl || apply same_record_refl).
    + exists []. by rewrite app_nil_r.
    + intros ->. done.
    + intros c t Hc Ht _. by exists c.
Qed.

Lemma acknowledge_handled m from to message s o :
  session_ok s → session_exact s →
  (from = SpCommitting ∧ to = SpCommitted ∧ m = HostCommitted ∨ from = SpActivating ∧ to = SpRunning ∧ m = HostRunning) →
  wp (acknowledge from to message) (handled m (s, o)) (s, o).
Proof.
  intros Hs Hx Hcase. unfold acknowledge. turn_steps.
  case_bool_decide as Hp; [|by apply handled_nothing]. turn_steps.
  destruct Hs as [Hb (H1&H2&H3&H4&H5)].
  destruct Hcase as [(->&->&->)|(->&->&->)]; (apply phase_handled; [by split_and!|by rewrite Hp|by rewrite Hp|done|..]).
  all: rewrite Hp in H2, H3, H4, H5; destruct H2 as (proof&rest&H2&?); [done..|]; unfold was_prepared in H3; specialize (H3 ltac:(set_solver)).
  all: unfold moves, session_exact, heard_exact, was_prepared; cbn; rewrite ?Hp.
  1,4: naive_solver.
  1,3: intros c Hc; specialize (Hx c Hc); by rewrite Hp in Hx.
  all: split_and!; [done| |set_solver..]; intros _ _; rewrite H2; by exists proof; eexists.
Qed.

Lemma hear_exact m s : heard_exact s → ss_phase s ≠ SpAuthenticating → heard_exact (ss_hear m s).
Proof.
  intros (H1&H2&H3&H4&H5) Ha. unfold heard_exact, was_prepared. cbn. split_and!; [done|..].
  - intros Hn He. destruct H2 as (proof&rest&->&?); [done..|]. by exists proof, (rest ++ [m]).
  - intros Hp. apply elem_of_app. left. by apply H3.
  - intros Hp. apply elem_of_app. left. by apply H4.
  - intros Hp. apply elem_of_app. left. by apply H5.
Qed.

Lemma handled_heard m s o o' :
  session_ok s → session_exact s → ss_phase s ≠ SpAuthenticating → owner_rel s o o' → (owner_wf o → same_phases o o') →
  handled m (s, o) (Ok tt) (s, o').
Proof. intros [? ?] ? ? ? ?. split_and!; done || apply session_rel_refl || by apply hear_exact. Qed.

Lemma prepared_complete_handled s o :
  session_ok s → session_exact s → wp prepared_complete (handled HostPreparedComplete (s, o)) (s, o).
Proof.
  intros Hs Hx. unfold prepared_complete. turn_steps. destruct (_ && _) eqn:E; [|by apply handled_nothing].
  apply andb_true_iff in E as [Hp%bool_decide_eq_true Hl%Nat.eqb_eq]. turn_steps.
  destruct Hs as [Hb (H1&H2&H3&H4&H5)]. apply phase_handled; [by split_and!|by rewrite Hp|by rewrite Hp|done|..].
  all: rewrite Hp in H2; destruct H2 as (proof&rest&H2&?); [done..|].
  all: unfold moves, session_exact, heard_exact, was_prepared; cbn; rewrite ?Hp.
  - right. right. left. set_solver.
  - intros c Hc. specialize (Hx c Hc). by rewrite Hp in Hx.
  - split_and!; [done| |set_solver..]. intros _ _. rewrite H2. by exists proof; eexists.
Qed.

Lemma take_status_handled snapshot s o :
  session_ok s → session_exact s → ss_phase s ≠ SpAuthenticating →
  wp (take_status snapshot) (handled (HostStatusMessage snapshot) (s, o)) (s, o).
Proof.
  intros Hs Hx Ha. unfold take_status. turn_steps. case_bool_decide; [|by apply handled_nothing].
  turn_steps. case_bool_decide; [|by apply handled_nothing]. turn_steps.
  destruct (check_snapshot _ _) as [[]|e]; [|by apply handled_nothing].
  by apply handled_heard; [..|apply owner_rel_refl|].
Qed.

(** Changes of the status that show on no phase *)
Lemma same_phases_host name f o :
  (∀ h, ho_phase (f h) = ho_phase h) → owner_wf o → same_phases o (on_host name f o).
Proof.
  intros Hf [Hh _ _ _]. split; [|done]. intros k. unfold host_of, on_host. cbn. rewrite bt_get_update by done.
  case_bool_decide; [|done]. subst. destruct (bt_get name _); [cbn; by rewrite Hf|done].
Qed.
Lemma same_phases_insts f o :
  owner_wf o → (∀ k, io_phase <$> bt_get k (f (ds_components (ow_status o))) = io_phase <$> inst_of k o) →
  same_phases o (with_components f o).
Proof. by intros Hw Hf; split. Qed.

Lemma on_host_other name f o k : owner_wf o → k ≠ name → host_of k (on_host name f o) = host_of k o.
Proof. intros [Hh _ _ _] Hn. unfold host_of. cbn. by rewrite bt_get_update, bool_decide_eq_false_2. Qed.

Lemma session_change s s' :
  session_base s → ss_channel s' = ss_channel s → ss_listening s' = ss_listening s → ss_identity s' = ss_identity s →
  ss_assignments s' = ss_assignments s → ss_phase s' = ss_phase s → ss_stop_deadline s' = ss_stop_deadline s →
  ss_heard s' = ss_heard s → same_record (ss_remote s) (ss_remote s') → (is_Some (ss_failure s) → is_Some (ss_failure s')) →
  session_base s' ∧ session_rel s s' ∧ (session_exact s → session_exact s') ∧
  (heard_exact s → heard_exact s').
Proof.
  intros [B1 B2 B3 B4] E1 E2 E3 E4 E5 E6 E7 E8 E9. split_and!.
  - constructor; rewrite ?E1, ?E2, ?E3, ?E5, ?E6; try done. unfold assignments_typed. by rewrite E4.
  - constructor; rewrite ?E4, ?E5, ?E6; try (done || apply kept_first_refl).
    + exists []. by rewrite app_nil_r.
    + apply moves_refl.
    + by intros ->.
    + intros c t. rewrite E1. intros Hc Ht _. by exists c.
  - unfold session_exact. by rewrite E1, E5.
  - unfold heard_exact, was_prepared, proof_ok, required_factories. by rewrite E4, E5, E7.
Qed.

Lemma take_report_handled report s o :
  session_ok s → session_exact s → bt_ok (mr_inputs report) ∧ bt_ok (mr_outputs report) →
  wp (take_report display report) (handled (HostReport report) (s, o)) (s, o).
Proof.
  intros Hs Hx Ht. unfold take_report. turn_steps. case_bool_decide as Hp; [|by apply handled_nothing].
  turn_steps. destruct (ss_assignments s !! _) as [a|] eqn:Ea; cbn [ok_or]; [|by apply handled_nothing].
  turn_steps. case_bool_decide as En; [|by apply handled_nothing]. turn_steps.
  destruct Hs as [Hb Hh]. destruct (so_typed s Hb a) as [Hi Ho]; [by apply list_elem_of_lookup_2 in Ea|].
  destruct (validate_report_spec (mkEntry (ca_bindings a) report)) as [Hv _]; [by constructor; cbn; naive_solver|].
  cbn in Hv. destruct (validate_report (ca_bindings a) report) as [v|]; [|done].
  turn_steps. destruct (map_err display v) as [[]|e]; [|by apply handled_nothing]. turn_steps.
  set (s' := ss_put_reports _ s).
  destruct (session_change s s') as (Hb'&Hr'&Hx'&Hh'); try done; [apply same_record_refl|].
  assert (Hha : heard_exact s') by (by apply Hh').
  destruct (bt_get _ _) as [i|] eqn:Ei; cbn [ok_or]; [|split_and!; done || apply owner_rel_refl].
  turn_steps. set (o' := with_components _ o).
  assert (Hget : owner_wf o → ∀ k, inst_of k o' = if bool_decide (k = mr_namespace report)
                   then io_with_report report <$> inst_of k o else inst_of k o).
  { intros [_ Hw _ _] k. unfold inst_of, o'. cbn. rewrite bt_get_update by done. case_bool_decide; by subst. }
  split_and!; cbn [fst snd]; [done|done| | |by apply Hx'|].
  - constructor; try done.
    + apply with_components_kept. intros Hw. split; [destruct Hw; by apply bt_update_ok|]. intros k.
      change (bt_get k _) with (inst_of k o'). rewrite Hget by done. case_bool_decide; [|by apply option_Forall2_refl'; exact inst_kept_refl].
      apply option_Forall2_fmap_r. intros j _. constructor; done || apply kept_first_refl.
    + intros Hw Hty k j r. rewrite Hget by done. case_bool_decide; [|apply Hty].
      destruct (inst_of k o); [|done]. cbn. intros [= <-]. cbn. by intros [= <-].
    + rewrite Hp. set_solver.
  - intros Hw. split; [done|]. intros k. rewrite Hget by done. case_bool_decide; [|done]. by destruct (inst_of k o).
  - apply hear_exact; [done|]. unfold s'. cbn. by rewrite Hp.
Qed.

Lemma record_failure_handled f s o :
  session_ok s → session_exact s → ss_phase s ≠ SpAuthenticating →
  wp (record_failure f) (handled (HostFailureMessage f) (s, o)) (s, o).
Proof.
  intros [Hb Hh] Hx Ha. unfold record_failure. turn_steps. destruct (match hf_instance f with Some _ => _ | None => _ end); [|by apply handled_nothing].
  assert (Hk : ∀ s', ss_channel s' = ss_channel s → ss_listening s' = ss_listening s → ss_identity s' = ss_identity s →
    ss_assignments s' = ss_assignments s → ss_phase s' = ss_phase s → ss_stop_deadline s' = ss_stop_deadline s →
    ss_heard s' = ss_heard s → ss_remote s' = ss_remote s → ss_reports s' = ss_reports s → (is_Some (ss_failure s) → is_Some (ss_failure s')) →
    wp (let* o := owner in
        try* status := present (host_of (host_name s) o) (bytes_of "missing failed host status") in
        try* _ := check (is_none (ho_failure status)) (bytes_of "duplicate host failure event") in
        set_owner (on_host (host_name s) (ho_with_failure (Some f))) ;;; Deploy.done)
      (handled (HostFailureMessage f) (s, o)) (s', o)).
  { intros s' E1 E2 E3 E4 E5 E6 E7 E8 E9 E10.
    destruct (session_change s s') as (Hb'&Hr'&Hx'&Hh'); try done; [rewrite E8; apply same_record_refl|].
    assert (Hha : heard_exact s') by (by apply Hh').
    turn_steps. destruct (host_of (host_name s) o) as [h|] eqn:Eh; cbn [ok_or]; [|split_and!; done || apply owner_rel_refl].
    turn_steps. destruct (ho_failure h) eqn:Ef; cbn [is_none]; [split_and!; done || apply owner_rel_refl|]. turn_steps.
    split_and!; cbn [fst snd]; [done|done| | |by apply Hx'|apply hear_exact; [done|by rewrite E5]].
    - apply owner_rel_plain; [|done..|intros; by apply on_host_other]. apply on_host_kept. rewrite Eh. intros ? [= <-].
      constructor; cbn; try (done || apply kept_first_refl); [by rewrite Ef|]. exists []. by rewrite app_nil_r.
    - by apply same_phases_host. }
  destruct (_ || _) eqn:Ee; rewrite wp_bind; [rewrite wp_ret|rewrite wp_modify]; by apply Hk.
Qed.

Lemma log_ordered_stop b l : log_ordered b l → log_ordered true l.
Proof. intros (n&Hn&[?|[_ ?]]); exists n; split; auto. Qed.

(** The record of a remote host is replaced by one for the same session. *)
Lemma persist_record_spec answer record s o :
  wp (persist_record key answer record)
    (λ r st', ∃ o', st' = (s, o') ∧ ow_status o' = ow_status o ∧ ow_children o' = ow_children o ∧ owner_kept o o' ∧
      (r = Ok tt → bt_ok (ow_ledger o) → bt_get (key (ro_identity record)) (ow_ledger o') = Some record)) (s, o).
Proof.
  unfold persist_record. turn_steps. destruct (persist key answer record false o) as [r o'] eqn:E. turn_steps.
  exists o'. split; [done|]. by apply (persist_kept answer record false).
Qed.

(** A session that ends *)
Lemma terminal_change m s s' :
  session_base s → ss_phase s ≠ SpAuthenticating → (ss_channel s' = ss_channel s ∨ ss_channel s' = None) →
  ss_listening s' = ss_listening s → ss_identity s' = ss_identity s → ss_assignments s' = ss_assignments s →
  ss_phase s' = SpTerminal → is_Some (ss_stop_deadline s') → keeps (ss_stop_deadline s) (ss_stop_deadline s') →
  ss_heard s' = ss_heard s → same_record (ss_remote s) (ss_remote s') →
  (is_Some (ss_failure s) ∨ ending (ss_phase s) = false → is_Some (ss_failure s')) →
  session_base s' ∧ session_rel s s' ∧ session_exact s' ∧ heard_exact (ss_hear m s').
Proof.
  intros [B1 B2 B3 B4] Ha E1 E2 E3 E4 E5 [d E6] E7 E8 E9 E10. split_and!.
  - constructor.
    + intros c Hc. destruct E1 as [E1|E1]; [|congruence]. rewrite E1 in Hc. destruct (B1 c Hc) as (?&?&Hl).
      rewrite E3, E6. split_and!; [done..|]. by eapply log_ordered_stop.
    + rewrite E2. intros Hl. by destruct (B2 Hl).
    + by rewrite E5, E6.
    + unfold assignments_typed. by rewrite E4.
  - constructor; rewrite ?E5; try done.
    + exists []. by rewrite app_nil_r.
    + auto.
    + right. by left.
    + auto.
    + intros c t Hc Ht _. destruct E1 as [E1|E1]; [|congruence]. exists c. by rewrite <- E1.
  - intros c _. by rewrite E5.
  - unfold heard_exact. cbn. rewrite E5. split_and!; [done|done|set_solver..].
Qed.

Lemma take_outcome_handled a x s o :
  session_ok s → session_exact s → ss_phase s ≠ SpAuthenticating →
  wp (take_outcome key a x) (handled (HostOutcomeMessage x) (s, o)) (s, o).
Proof.
  intros [Hb Hh] Hx Ha. unfold take_outcome. turn_steps.
  destruct (host_of (host_name s) o) as [h|] eqn:Eh; cbn [ok_or]; [|by apply handled_nothing]. turn_steps.
  destruct (ho_outcome h) eqn:Eo; cbn [is_none]; [by apply handled_nothing|]. turn_steps.
  destruct (outcome_valid s x); [|by apply handled_nothing]. turn_steps.
  set (o1 := on_host _ _ o).
  assert (Hk1 : owner_kept o o1).
  { apply on_host_kept. rewrite Eh. intros ? [= <-]. constructor; cbn; try (done || apply kept_first_refl); [by rewrite Eo|].
    exists []. by rewrite app_nil_r. }
  assert (Hor : ∀ o', ow_status o' = ow_status o1 → ow_children o' = ow_children o1 → owner_kept o1 o' →
      owner_rel s o o' ∧ (owner_wf o → same_phases o o')).
  { intros o' E1 E2 Hk. split.
    - apply owner_rel_plain; [by etrans|done|by rewrite E1| |]; [intros _ k; unfold inst_of; by rewrite E1|].
      intros k Hw Hn. unfold host_of. rewrite E1. by apply on_host_other.
    - intros Hw. pose proof (same_phases_host (host_name s) (ho_with_outcome (Some x)) o (λ _, eq_refl) Hw) as [P1 P2].
      split; intros k; [rewrite <- P1|rewrite <- P2]; unfold host_of, inst_of; by rewrite E1. }
  set (good := λ (r : result unit str) (st' : Turn), ∃ rr o1', st' = (ss_put_remote rr s, o1') ∧
    ow_status o1' = ow_status o1 ∧ ow_children o1' = ow_children o1 ∧ owner_kept o1 o1' ∧ same_record (ss_remote s) rr).
  apply (wp_mono _ good).
  { destruct (ss_remote s) as [record|] eqn:Er; turn_steps.
    - eapply wp_mono; [apply persist_record_spec|]. intros r st' (o'&->&E1&E2&Hk&_).
      exists (Some (ro_with_outcome x record)), o'. split_and!; try done. by constructor.
    - exists None, o1. split_and!; try (done || reflexivity || constructor). rewrite <- Er. by destruct s. }
  intros r st' (rr&o'&->&E1&E2&Hk&Hr). destruct (Hor o' E1 E2 Hk) as [Ho Hp]. clearbody o1. clear Hor good.
  destruct r as [[]|e].
  2:{ destruct (session_change s (ss_put_remote rr s)) as (Hb'&Hr'&Hx'&Hh'); [done..|].
      split_and!; cbn [fst snd]; [done|done|done|done| |done]. by apply Hh'. }
  repeat (match goal with |- context [if ?b then _ else _] => destruct b eqn:? end; turn_steps).
  all: match goal with |- handled _ _ _ (?s2, _) => destruct (terminal_change (HostOutcomeMessage x) s s2) as (?&?&?&?) end;
    [done|done|cbn; auto|done|done|done|done| | |done|done| |split_and!; done].
  all: cbn; destruct (ss_stop_deadline s) eqn:Ed; cbn in *; try (done || apply kept_first_refl || by eexists); try (by intros v ?).
  all: intros [Hf|He]; [done|].
  all: match goal with H : _ || _ = true |- _ => apply orb_true_iff in H as [H|H] end;
    [apply bool_decide_eq_true in Heqb1; by rewrite Heqb1 in He|destruct (ss_failure s); [by eexists|done]].
Qed.

Lemma buffers_same (c c' : HostChannel (M := OwnerMessage)) : same_reading c c' → buffers_ok c → buffers_ok c'.
Proof.
  intros [Hh _ _] [B1 B2 B3 B4]. unfold reading_half in Hh. injection Hh as _ _ E1 E2 E3 E4 _.
  constructor; rewrite ?E1, ?E2, ?E3, ?E4; done.
Qed.

(** A body is queued, or refused; a write that fails says so. *)
Definition queued (s : HostSession) (body : OwnerMessage) (r : result unit str) (ch : option (HostChannel (M := OwnerMessage))) : Prop :=
  match ss_channel s with
  | None => ch = None ∧ is_ok r = false
  | Some c => ∃ c', ch = Some c' ∧ writing_ok serialize (ss_identity s) c' ∧ buffers_ok c' ∧
      (log c' = log c ++ [tag body] ∨ log c' = log c ∧ is_ok r = false)
  end.

Lemma host_queue_log now body s c :
  session_base s → ss_channel s = Some c →
  ∃ r c', host_queue serialize now body c = (r, c') ∧ queued s body r (Some c').
Proof.
  intros Hb Hc. destruct (so_channel s Hb c Hc) as (Hw&Hbuf&_).
  destruct (host_queue_spec serialize (ss_identity s) now body c Hw) as (r&c'&Hq&Hw'&Hr&Hl). exists r, c'. split; [done|].
  unfold queued. rewrite Hc. exists c'. split_and!; [done|done|by eapply buffers_same|]. unfold log.
  destruct Hl as [->|[-> ?]]; [left; by rewrite fmap_app|by right].
Qed.

Lemma queue_message_spec now missing body s o :
  session_base s →
  wp (queue_message serialize now missing body)
    (λ r st', ∃ ch, st' = (ss_put_channel ch s, o) ∧ queued s body r ch) (s, o).
Proof.
  intros Hb. unfold queue_message. turn_steps. destruct (ss_channel s) as [c|] eqn:Hc.
  - destruct (host_queue_log now body s c Hb Hc) as (r&c'&Hq&Hl). rewrite Hq. turn_steps. by exists (Some c').
  - turn_steps. exists None. split; [by destruct s; cbn in *; subst|]. unfold queued. by rewrite Hc.
Qed.

(** A session whose channel takes another body *)
Lemma queued_base s body r ch :
  session_base s → ss_listening s = false → queued s body r ch →
  (∀ c, ss_channel s = Some c → log_ordered (negb (is_none (ss_stop_deadline s))) (log c ++ [tag body])) →
  session_base (ss_put_channel ch s).
Proof.
  intros [B1 B2 B3 B4] Hl Hq Ho. constructor; cbn; [|by rewrite Hl|done|done]. intros c' ->. unfold queued in Hq.
  destruct (ss_channel s) as [c|]; [|by destruct Hq]. destruct Hq as (?&[= <-]&Hw&Hb&Hlog).
  destruct (B1 c eq_refl) as (_&_&Hlo). split_and!; [done..|]. destruct Hlog as [->|[-> _]]; [by apply Ho|done].
Qed.

Lemma authenticate_handled a proof s o :
  session_ok s → session_exact s →
  wp (authenticate serialize compatibility a proof) (handled (HostAuthenticate proof) (s, o)) (s, o).
Proof.
  intros [Hb Hh] Hx. unfold authenticate. turn_steps. case_bool_decide as Hp; [|by apply handled_nothing]. turn_steps.
  set (s0 := ss_put_nonce None s).
  destruct (session_change s s0) as (Hb0&Hr0&Hx0&Hh0); try done; [apply same_record_refl|].
  assert (Herr : ∀ e, handled (HostAuthenticate proof) (s, o) (Err e) (s0, o)).
  { intros e. split_and!; try (done || apply owner_rel_refl). }
  destruct (ss_nonce s) as [nonce|]; cbn [ok_or]; [|done]. turn_steps.
  destruct (_ =? 0)%Z; [|done]. turn_steps. case_bool_decide as Hc; [|done]. turn_steps.
  destruct (_ && _) eqn:Ef; [|done]. apply andb_true_iff in Ef as [_ Ef]. turn_steps.
  destruct (forallb _ _) eqn:Er; [|done]. turn_steps.
  assert (Hproof : proof_ok s proof).
  { split_and!; [done..|]. intros f Hf. rewrite forallb_forall in Er.
    apply list_elem_of_In, Er, existsb_exists in Hf as (g&Hg&Hfg%bool_decide_eq_true). subst. by apply list_elem_of_In. }
  destruct (ss_channel s) as [c|] eqn:Ec.
  2:{ eapply wp_mono; [by apply queue_message_spec|]. intros r st' (ch&->&Hq). unfold queued in Hq. cbn in Hq. rewrite Ec in Hq.
      destruct Hq as [-> Hr]. destruct r; [done|]. replace (ss_put_channel None s0) with s0; [done|].
      unfold s0. destruct s; cbn in *. by subst. }
  assert (Hlog : log c = []) by (specialize (Hx c Ec); by rewrite Hp in Hx).
  assert (Hlis : ss_listening s = false).
  { destruct (ss_listening s) eqn:E; [|done]. destruct (so_listen s Hb E). congruence. }
  assert (Hstop : ss_stop_deadline s = None).
  { pose proof (so_stop s Hb) as E. rewrite Hp in E. by destruct (ss_stop_deadline s). }
  (** what the channel may hold on the way *)
  assert (Hmid : ∀ s1 e, session_base s1 → s1 = ss_put_channel (ss_channel s1) s0 →
    (∀ c1 t, ss_channel s1 = Some c1 → t ∈ log c1 → t < 2) → handled (HostAuthenticate proof) (s, o) (Err e) (s1, o)).
  { intros s1 e Hb1 Es Ht. split_and!; cbn [fst snd]; [done| |apply owner_rel_refl|done| |by rewrite Es].
    - constructor; rewrite Es; cbn; try (done || apply kept_first_refl || apply same_record_refl || apply moves_refl).
      + exists []. by rewrite app_nil_r.
      + by intros ->.
      + intros c1 t Hc1 Hin Hle. specialize (Ht c1 t Hc1 Hin). lia.
    - rewrite Es. destruct Hh as (H1&H2&H3&H4&H5). unfold heard_exact, was_prepared, proof_ok, required_factories. cbn. by split_and!. }
  eapply wp_mono; [by apply queue_message_spec|]. intros r st' (ch&->&Hq).
  assert (Hb1 : session_base (ss_put_channel ch s0)).
  { eapply queued_base; [done|done|exact Hq|]. cbn. rewrite Ec, Hstop. intros ? [= <-]. rewrite Hlog. exists 1. split; [lia|by left]. }
  unfold queued in Hq. cbn in Hq. rewrite Ec in Hq. destruct Hq as (c1&->&_&_&Hl1). rewrite Hlog in Hl1.
  assert (Ht1 : ∀ t, t ∈ log c1 → t < 2) by (destruct Hl1 as [-> |[-> _]]; set_solver by lia).
  destruct r as [[]|e]; [|by apply Hmid; [..|intros ? ? [= <-]; apply Ht1]].
  destruct Hl1 as [Hl1|[_ ?]]; [|done]. turn_steps.
  destruct (_ <=? u64_max)%Z; [|by apply Hmid; [..|intros ? ? [= <-]; apply Ht1]]. turn_steps.
  eapply wp_mono; [by apply queue_message_spec|]. intros r st' (ch&->&Hq).
  assert (Hb2 : session_base (ss_put_channel ch (ss_put_channel (Some c1) s0))).
  { eapply queued_base; [done|done|exact Hq|]. cbn. rewrite Hstop. intros ? [= <-]. rewrite Hl1. exists 2. split; [lia|by left]. }
  unfold queued in Hq. cbn in Hq. destruct Hq as (c2&->&_&_&Hl2). rewrite Hl1 in Hl2. cbn in Hl2.
  assert (Ht2 : ∀ t, t ∈ log c2 → t < 2) by (destruct Hl2 as [-> |[-> _]]; set_solver by lia).
  destruct r as [[]|e]; [|by apply Hmid; [..|intros ? ? [= <-]; apply Ht2]].
  destruct Hl2 as [Hl2|[_ ?]]; [|done]. turn_steps. destruct Hb2 as [C1 C2 C3 C4]. split_and!; cbn [fst snd].
  - constructor; cbn in *; [done|by rewrite Hlis|by rewrite Hstop|done].
  - constructor; cbn; try (done || apply kept_first_refl || apply same_record_refl).
    + exists []. by rewrite app_nil_r.
    + right. right. left. rewrite Hp. set_solver.
    + intros ? t [= <-] Hin Hle. specialize (Ht2 t Hin). lia.
  - apply owner_rel_refl.
  - done.
  - intros ? [= <-]. done.
  - destruct Hh as (H1&_). unfold heard_exact. cbn. rewrite H1 by done. split_and!; [done| |set_solver..].
    intros _ _. by exists proof, [].
Qed.

(** ** Phases on display *)

Definition shows (name : str) (p : HostPhase) (o : DeploymentOwner) : Prop :=
  (∀ h, host_of name o = Some h → ho_phase h = p) ∧
  (∀ k i, inst_of k o = Some i → io_host i = name → io_phase i = p).
Definition others_same (name : str) (o o' : DeploymentOwner) : Prop :=
  (∀ k, k ≠ name → ho_phase <$> host_of k o' = ho_phase <$> host_of k o) ∧
  (∀ k i i', inst_of k o = Some i → inst_of k o' = Some i' → io_host i ≠ name → io_phase i' = io_phase i).

Lemma others_same_refl name o : others_same name o o.
Proof. split; [done|]. intros k i i' H1 H2. congruence. Qed.
Lemma others_same_trans name o1 o2 o3 :
  (owner_wf o1 → owner_kept o1 o2) → owner_wf o1 → others_same name o1 o2 → others_same name o2 o3 → others_same name o1 o3.
Proof.
  intros Hk Hw [A B] [C D]. split; [intros k Hn; by rewrite C, A|]. intros k i i3 H1 H3 Hn.
  destruct (Hk Hw Hw) as [_ Hf]. pose proof (fk_insts _ _ Hf k) as H2. rewrite H1 in H2. inversion H2 as [? i2 Hi E1 E2|]; subst.
  rewrite (D k i2 i3); [by apply (B k)|done|done|]. by rewrite (ik_host _ _ Hi).
Qed.

Lemma status_phase_host name p o k :
  owner_wf o → host_of k (status_phase name p o) = if bool_decide (k = name) then ho_with_phase p <$> host_of k o else host_of k o.
Proof.
  intros [Hh _ _ _]. unfold host_of, status_phase, on_host. cbn. rewrite bt_get_update by done.
  case_bool_decide; by subst.
Qed.
Lemma status_phase_inst name p o k :
  inst_of k (status_phase name p o) = (λ i, if bool_decide (io_host i = name) then io_with_phase p i else i) <$> inst_of k o.
Proof. unfold inst_of. cbn. by rewrite (bt_get_map (λ _ i, if bool_decide (io_host i = name) then io_with_phase p i else i)). Qed.

Lemma status_phase_shows name p o : owner_wf o → shows name p (status_phase name p o).
Proof.
  intros Hw. split.
  - intros h. rewrite status_phase_host, bool_decide_eq_true_2 by done. destruct (host_of name o); [|done]. by intros [= <-].
  - intros k i. rewrite status_phase_inst. destruct (inst_of k o) as [j|]; [|done]. cbn. intros [= <-].
    case_bool_decide; [done|]. intros Hn. done.
Qed.
Lemma status_phase_others name p o : owner_wf o → others_same name o (status_phase name p o).
Proof.
  intros Hw. split.
  - intros k Hn. by rewrite status_phase_host, bool_decide_eq_false_2.
  - intros k i i' Hi. rewrite status_phase_inst, Hi. cbn. intros [= <-] Hn. by rewrite bool_decide_eq_false_2.
Qed.
Lemma status_phase_owner s p o : owner_rel s o (status_phase (host_name s) p o).
Proof.
  apply owner_rel_plain; [apply status_phase_kept|done..| |].
  - intros _ k. rewrite status_phase_inst. destruct (inst_of k o); [|done]. cbn. by case_bool_decide.
  - intros k Hw Hn. by rewrite status_phase_host, bool_decide_eq_false_2.
Qed.

Lemma same_phases_shows name p o o' :
  owner_wf o → owner_kept o o' → same_phases o o' → shows name p o → shows name p o'.
Proof.
  intros Hw Hk [P1 P2] [S1 S2]. destruct (Hk Hw) as [_ Hf]. split.
  - intros h Hh. specialize (P1 name). rewrite Hh in P1. destruct (host_of name o) as [h0|] eqn:E; [|done].
    injection P1 as ->. by apply S1.
  - intros k i Hi Hn. specialize (P2 k). rewrite Hi in P2. pose proof (fk_insts _ _ Hf k) as Hik.
    destruct (inst_of k o) as [i0|] eqn:E; [|done]. injection P2 as ->. rewrite Hi in Hik.
    inversion Hik as [? ? Hi0|]; subst. apply (S2 k); [done|]. by rewrite <- (ik_host _ _ Hi0).
Qed.
Lemma same_phases_others name o o' : same_phases o o' → others_same name o o'.
Proof.
  intros [P1 P2]. split; [intros; apply P1|]. intros k i i' H1 H2 _. specialize (P2 k). rewrite H1, H2 in P2. by injection P2.
Qed.

(** ** A turn *)

Record turn_ok (st : Turn) : Prop := {
  to_session : session_ok st.1;
  to_owner : owner_wf st.2;
  to_typed : reports_typed st.2;
  to_shows : shows (host_name st.1) (observed_phase (ss_phase st.1)) st.2;
}.
Record turn_rel (st st' : Turn) : Prop := {
  tr_session : session_rel st.1 st'.1;
  tr_owner : owner_rel st.1 st.2 st'.2;
  tr_others : others_same (host_name st.1) st.2 st'.2;
}.

Lemma turn_rel_refl st : turn_rel st st.
Proof. constructor; [apply session_rel_refl|apply owner_rel_refl|apply others_same_refl]. Qed.
Lemma turn_rel_trans st1 st2 st3 : owner_wf st1.2 → turn_rel st1 st2 → turn_rel st2 st3 → turn_rel st1 st3.
Proof.
  intros Hw [A1 A2 A3] [B1 B2 B3]. constructor; [by eapply session_rel_trans| |].
  - eapply owner_rel_trans; [apply A1| |done..]. apply moves_early, (sl_moves _ _ A1).
  - eapply others_same_trans; [intros _; apply A2|done..|]. unfold host_name in *. by rewrite <- (sl_identity _ _ A1).
Qed.

Definition message_typed (m : HostMessage) : Prop :=
  match m with HostReport r => bt_ok (mr_inputs r) ∧ bt_ok (mr_outputs r) | _ => True end.

(** What a step of a session's turn leaves *)
Definition turn_step (st : Turn) (r : result unit str) (st' : Turn) : Prop :=
  turn_ok st' ∧ turn_rel st st' ∧ (r = Ok tt → session_exact st'.1).

Lemma turn_step_refl st r : turn_ok st → session_exact st.1 → turn_step st r st.
Proof. intros Hok Hx. split_and!; [done|apply turn_rel_refl|done]. Qed.

Lemma take_message_spec a m st :
  turn_ok st → session_exact st.1 → message_typed m →
  wp (take_message serialize compatibility display key a m) (turn_step st) st.
Proof.
  destruct st as [s o]. intros [Hs Hw Ht Hsh] Hx Hm. cbn in *. unfold take_message. turn_steps.
  destruct (negb _ || _) eqn:Ea.
  2:{ turn_steps. split_and!; cbn; [done|apply turn_rel_refl|done]. }
  wp_steps. apply (wp_mono _ (handled m (s, o))).
  - assert (Hn : (∀ p, m ≠ HostAuthenticate p) → ss_phase s ≠ SpAuthenticating).
    { intros Hm'. apply orb_true_iff in Ea as [Ea|Ea]; [by apply negb_true_iff, bool_decide_eq_false in Ea|].
      destruct m; try done. by destruct (Hm' proof). }
    destruct m; cbn [message_typed] in Hm.
    + turn_steps. by apply handled_nothing.
    + by apply authenticate_handled.
    + by apply take_report_handled.
    + by apply prepared_complete_handled.
    + apply acknowledge_handled; [done..|]. by left.
    + apply acknowledge_handled; [done..|]. by right.
    + apply take_status_handled; [done..|]. by apply Hn.
    + apply record_failure_handled; [done..|]. by apply Hn.
    + apply take_outcome_handled; [done..|]. by apply Hn.
  - intros r [s' o'] (Hb&Hr&Ho&Hp&Hend). cbn [fst snd] in *. specialize (Hp Hw).
    destruct (or_kept _ _ _ Ho Hw) as [Hw' Hf]. assert (Hname : host_name s' = host_name s) by (unfold host_name; by rewrite (sl_identity _ _ Hr)).
    destruct r as [[]|e].
    + destruct Hend as [Hx' Hh]. turn_steps. set (p := observed_phase (ss_phase s')).
      assert (Hrel : session_rel s' (ss_hear m s')).
      { constructor; cbn; try (done || apply kept_first_refl || apply same_record_refl || apply moves_refl).
        - by eexists.
        - by intros ->.
        - intros c t Hc ? ?. by exists c. }
      split_and!.
      * constructor; cbn; [split; [destruct Hb; by constructor|done]| | |].
        -- by apply (status_phase_kept _ _ o' Hw').
        -- rewrite <- Hname. apply (or_typed s' o' _ (status_phase_owner s' _ _)); [done|by apply (or_typed s o o')].
        -- rewrite <- Hname. by apply status_phase_shows.
      * constructor; cbn; [by eapply session_rel_trans| |].
        -- rewrite <- Hname. eapply owner_rel_trans; [apply Hr|apply moves_early, (sl_moves _ _ Hr)|done|apply status_phase_owner].
        -- eapply others_same_trans; [intros _; apply Ho|done|by apply same_phases_others|]. by apply status_phase_others.
      * intros _ c Hc. by apply (Hx' c).
    + destruct Hend as [Hh Hph]. split_and!; [|constructor; cbn; [done|done|by apply same_phases_others]|done].
      constructor; cbn; [done|done|by apply (or_typed s o o')|]. rewrite Hname, Hph.
      eapply same_phases_shows; [|apply Ho|..]; done.
Qed.

(** ** Polls of a session *)

Lemma next_loop_parsed fuel budget now (c : HostChannel (M := OwnerMessage)) b c' :
  next_loop unique parse fuel budget now c = Some (Ok (Some b), c') → ∃ bytes e, parse bytes = Some e ∧ ev_body e = b.
Proof.
  revert budget c. induction fuel as [|fuel IH]; intros budget c; cbn [next_loop]; [done|].
  destruct (budget =? 0); [done|]. destruct (sock_read _ _) as [[bytes| | |e] sk]; try done.
  destruct (usub _ _) as [budget'|]; [|done]. destruct (hc_header_used c <? _).
  - destruct (copy_at _ _ _) as [header|]; [|done]. destruct (_ =? _); [|apply IH].
    destruct (payload_length header); [apply IH|done].
  - destruct (copy_at _ _ _) as [payload|]; [|done]. destruct (_ =? _); [|apply IH].
    unfold host_finish, codec_decode. cbn [hc_payload hc_read].
    destruct (map_err _ _) as [h|]; [|done]. destruct (ensure_text _ _); [|done].
    destruct (parse payload) as [e|] eqn:Ep; cbn [ok_or]; [|done]. destruct (envelope_check _ _ _); [|done].
    intros [= <- _]. by exists payload, e.
Qed.

Hypothesis Hparse : ∀ bytes e, parse bytes = Some e → message_typed (ev_body e).

Lemma host_next_typed now (c : HostChannel (M := OwnerMessage)) m c' :
  host_next unique parse now c = Some (Ok (Some m), c') → message_typed m.
Proof.
  unfold host_next. destruct (match hc_read_deadline c with Some _ => _ | None => _ end); [done|].
  intros (bytes&e&He&<-)%next_loop_parsed. by eapply Hparse.
Qed.

(** The channel moves on and its log stays *)
Lemma channel_change s o c c' :
  turn_ok (s, o) → ss_channel s = Some c → writing_ok serialize (ss_identity s) c' → buffers_ok c' →
  hc_bodies c' = hc_bodies c →
  turn_ok (ss_put_channel (Some c') s, o) ∧ turn_rel (s, o) (ss_put_channel (Some c') s, o) ∧
  (session_exact s → session_exact (ss_put_channel (Some c') s)).
Proof.
  intros [[[B1 B2 B3 B4] Hh] Hw Ht Hsh] Hc Hwr Hbf Hl. cbn [fst snd] in *. destruct (B1 c Hc) as (_&_&Hlo). split_and!.
  - constructor; cbn; [|done..]. split; [|done]. constructor; cbn; try done.
    + intros ? [= <-]. split_and!; [done..|]. unfold log. by rewrite Hl.
    + intros Hli. destruct (B2 Hli). congruence.
  - constructor; cbn; [|apply owner_rel_refl|apply others_same_refl].
    constructor; cbn; try (done || apply kept_first_refl || apply same_record_refl || apply moves_refl).
    + exists []. by rewrite app_nil_r.
    + by intros ->.
    + intros ? t [= <-] Hin _. exists c. split; [done|]. unfold log in *. by rewrite <- Hl.
  - intros Hx ? [= <-]. cbn. unfold log. rewrite Hl. by apply Hx.
Qed.

Lemma writing_same id (c c' : HostChannel (M := OwnerMessage)) :
  same_writing c c' → writing_ok serialize id c → writing_ok serialize id c'.
Proof. intros [E1 E2 E3 E4 E5 _] []. constructor; by rewrite ?E1, ?E2, ?E3, ?E4, ?E5. Qed.

Lemma turn_step_after st st1 r st2 :
  owner_wf st.2 → turn_rel st st1 → turn_step st1 r st2 → turn_step st r st2.
Proof. intros Hw H1 (?&?&?). split_and!; [done|by eapply turn_rel_trans|done]. Qed.

Lemma poll_messages_spec n a st :
  turn_ok st → session_exact st.1 →
  wp (poll_messages serialize unique parse compatibility display key n a) (turn_step st) st.
Proof.
  revert st. induction n as [|n IH]; intros [s o] Hok Hx; cbn [poll_messages].
  { turn_steps. split_and!; [done|apply turn_rel_refl|done]. }
  turn_steps. destruct (ss_channel s) as [c|] eqn:Hc; cbn [ok_or].
  2:{ split_and!; [done|apply turn_rel_refl|done]. }
  turn_steps. pose proof Hok as [[Hb _] Hw _ _]. destruct (so_channel s Hb c Hc) as (Hwr&Hbf&_). cbn [fst snd] in *.
  destruct (host_next_safe unique parse (an_now a) c Hbf) as (r&c'&Hn&Hbf'&Hsw). rewrite Hn. turn_steps.
  destruct (channel_change s o c c' Hok Hc (writing_same _ _ _ Hsw Hwr) Hbf') as (Hok'&Hrel&Hx'); [by destruct Hsw|].
  specialize (Hx' Hx). destruct r as [[m|]|e]; turn_steps.
  2,3: by split_and!.
  eapply wp_mono; [apply take_message_spec; [done|done|by eapply host_next_typed]|].
  intros r st2 Hst. pose proof (turn_step_after (s, o) _ _ _ Hw Hrel Hst) as Hst'. destruct r as [[]|e]; [|done].
  destruct st2 as [s2 o2]. turn_steps. case_bool_decide; [by turn_steps|]. destruct Hst' as (Hok2&Hrel2&Hx2).
  eapply wp_mono; [apply IH; [done|by apply Hx2]|]. intros r st3 Hst3. by eapply turn_step_after.
Qed.

Lemma poll_channel_spec a st :
  turn_ok st → session_exact st.1 →
  wp (poll_channel serialize unique parse compatibility display key a) (turn_step st) st.
Proof.
  destruct st as [s o]. intros Hok Hx. unfold poll_channel. turn_steps.
  assert (Hnothing : turn_step (s, o) (Ok tt) (s, o)) by (split_and!; [done|apply turn_rel_refl|done]).
  case_bool_decide; [by turn_steps|]. destruct (ss_channel s) as [c|] eqn:Hc; [|by turn_steps].
  pose proof Hok as [[Hb _] Hw _ _]. destruct (so_channel s Hb c Hc) as (Hwr&Hbf&_). cbn [fst snd] in *.
  destruct (flush_loop_spec serialize (ss_identity s) CHANNEL_BUDGET CHANNEL_BUDGET (an_now a) c Hwr) as (r&c'&Hf&Hwr'&Hsr&Hl).
  unfold host_flush. rewrite Hf. turn_steps.
  destruct (channel_change s o c c' Hok Hc Hwr' (buffers_same _ _ Hsr Hbf) Hl) as (Hok'&Hrel&Hx'). specialize (Hx' Hx).
  destruct r as [[]|e]; [|by split_and!]. eapply wp_mono; [by apply poll_messages_spec|].
  intros r st2 Hst. by eapply turn_step_after.
Qed.

(** Sockets are fresh when they are accepted. *)
Definition answers_ok (a : Answers) : Prop :=
  ∀ name loopback socket, an_accept a name = Accepted loopback socket → sk_out socket = [].

Lemma session_poll_spec a st :
  answers_ok a → turn_ok st → session_exact st.1 →
  wp (session_poll serialize unique parse compatibility display key a) (turn_step st) st.
Proof.
  intros Ha Hok Hx. unfold session_poll. destruct st as [s o]. turn_steps.
  assert (Hgate : ∀ g, turn_ok (ss_put_gate (Some g) s, o) ∧ turn_rel (s, o) (ss_put_gate (Some g) s, o) ∧ session_exact (ss_put_gate (Some g) s)).
  { intros g. destruct Hok as [[Hb Hh] Hw Ht Hsh]. cbn [fst snd] in *.
    destruct (session_change s (ss_put_gate (Some g) s)) as (Hb'&Hr'&Hx'&Hh'); try (done || apply same_record_refl).
    split_and!; [|constructor; cbn; [done|apply owner_rel_refl|apply others_same_refl]|by apply Hx'].
    constructor; cbn; [split; [done|]|done..]. by apply Hh'. }
  apply (wp_mono _ (λ r st, turn_step (s, o) r st ∧ session_exact st.1 ∧ ss_listening st.1 = ss_listening s)).
  { destruct (ss_gate s) as [g|]; [|turn_steps; split_and!; [by apply turn_step_refl|done..]].
    case_bool_decide; [|turn_steps; split_and!; [by apply turn_step_refl|done..]].
    destruct (gate_poll _ g) as [r g']. turn_steps. destruct (Hgate g') as (?&?&?). split_and!; done || by split_and!. }
  clear Hgate. intros r st ((Hok'&Hrel&_)&Hx'&Hlis). destruct r as [[]|e]; [|by split_and!].
  pose proof (to_owner _ Hok) as Hw. cbn [snd] in Hw.
  assert (Hpoll : ∀ st1, turn_ok st1 → turn_rel st st1 → session_exact st1.1 →
      wp (poll_channel serialize unique parse compatibility display key a) (turn_step (s, o)) st1).
  { intros st1 H1 H2 H3. eapply wp_mono; [by apply poll_channel_spec|]. intros r st2 Hst.
    eapply (turn_step_after (s, o)); [done| |exact Hst]. by eapply turn_rel_trans. }
  destruct (ss_listening s) eqn:Hl; [|by apply Hpoll; [..|apply turn_rel_refl|]].
  destruct (an_accept a (host_name s)) as [|loopback socket|e] eqn:Eacc; [by turn_steps| |by turn_steps; split_and!].
  destruct loopback; turn_steps; [|by split_and!]. destruct st as [s1 o1]. turn_steps.
  destruct Hok' as [[[B1 B2 B3 B4] Hh] Hw1 Ht Hsh]. cbn [fst snd] in *. destruct (B2 Hlis) as [Hn Hp].
  assert (Hid : ss_identity s1 = ss_identity s) by apply Hrel. set (c := host_channel_new socket (ss_identity s)).
  apply Hpoll; cbn.
  - constructor; cbn; [split; [|done]|done..]. constructor; cbn; [|done..]. intros ? [= <-]. split_and!.
    + rewrite Hid. constructor; cbn; try done; [lia|]. rewrite (Ha _ _ _ Eacc). constructor.
    + constructor; cbn; lia.
    + exists 0. split; [lia|by left].
  - constructor; cbn; [|apply owner_rel_refl|apply others_same_refl].
    constructor; cbn; try (done || apply kept_first_refl || apply same_record_refl || apply moves_refl).
    + exists []. by rewrite app_nil_r.
    + by intros ->.
    + intros ? t [= <-] Hin. by apply elem_of_nil in Hin.
  - intros ? [= <-]. cbn. by rewrite Hp.
Qed.
End sessions.
