(* ===== verification/DeployGraph.v ===== *)
(** * DeployGraph: a hosted graph under its owner
    ([crates/reiny-launch/src/deployment/hosted/tick.rs], [shutdown.rs])

    What holds of all sessions together ([graph_base], and [graph_exact] between
    steps), and that every operation of the owner keeps it: stopping and failing
    a host, its turn and its exit, the steps of the admission, and the tick. *)

From Stdlib Require Import ZArith Lia.
From S2P Require Import Prelude Text Btree Core Bindings BindingsSpec Report ReportSpec Step HostProtocol Connection ProcessWire HostMessages ProcessAdmit LaunchTypes HostChannel Deploy DeploySteps.

(** ** The whole graph *)

Definition session_in (h : Hosted) (n : str) : option HostSession := bt_get n (hd_sessions h).
Definition everyone (h : Hosted) (P : HostSession → Prop) : Prop := ∀ n s, session_in h n = Some s → P s.

(** A body of this kind was sent on a channel that is open *)
Definition sent (h : Hosted) (t : nat) : Prop :=
  ∃ n s c, session_in h n = Some s ∧ ss_channel s = Some c ∧ t ∈ log c.

(** The reports on display are those of the whole graph, and it is valid *)
Definition graph_valid (o : DeploymentOwner) : Prop :=
  ∃ entries, graph_members o (pd_components (ow_desired o)) = Ok entries ∧ validate_graph entries = Some (Ok tt).

Definition known (o : DeploymentOwner) (n : str) : Prop := n ∈ (pd_component_hosts (ow_desired o)).*1.
Definition owned (o : DeploymentOwner) (n : str) : bool := bt_contains n (ow_children o).

(** Every host has a session, and said that it runs *)
Definition all_ran (h : Hosted) (o : DeploymentOwner) : Prop :=
  everyone h (λ s, HostRunning ∈ ss_heard s) ∧ ∀ n, known o n → is_Some (session_in h n).

(** A host that runs by all its owner knows *)
Record host_runs (o : DeploymentOwner) (n : str) (s : HostSession) : Prop := {
  hr_said : HostRunning ∈ ss_heard s;
  hr_phase : ss_phase s = SpRunning;
  hr_stop : ss_stop_deadline s = None;
  hr_owned : owned o n = true ∧ shows n PRunning o ∨ owned o n = false ∧ is_Some (ss_remote s);
}.

(** The whole graph is active, and every host runs *)
Definition all_running (h : Hosted) (o : DeploymentOwner) : Prop :=
  hd_admission h = AdActive ∧ ∀ n, known o n → ∃ s, session_in h n = Some s ∧ host_runs o n s.

(** The phases are of hosts that run *)
Definition in_running (h : Hosted) : Prop := everyone h (λ s, ss_phase s = SpRunning).

(** The prepared deployment is made of maps. *)
Record desired_ok (d : PreparedDeployment) : Prop := {
  do_hosts : bt_ok (pd_component_hosts d);
  do_members c : c ∈ pd_components d → bt_ok (mb_inputs (prc_bindings c)) ∧ bt_ok (mb_outputs (prc_bindings c));
}.

(** What ["Stopped"] says of a host: it was never started, or its processes are
    reaped after it reported that it stopped, without an error and with success *)
Definition stopped_truly (h : Hosted) (n : str) (x : HostObservation) : Prop :=
  match session_in h n with
  | None => True
  | Some s =>
      ss_phase s = SpTerminal ∧ ss_remote s = None ∧ ho_outcome x = Some OutcomeStopped ∧ ho_error x = None ∧
      ∃ e, ex_success e = true ∧ ho_exit x = Some (bytes_of "process exited: " ++ ex_text e)
  end.

Definition gone (p : HostPhase) : bool := match p with PStopped | PFailed | PUnresponsive => true | _ => false end.

(** Instances show the phase of their host. *)
Definition follows (o : DeploymentOwner) : Prop :=
  ∀ k i x, inst_of k o = Some i → host_of (io_host i) o = Some x → io_phase i = ho_phase x.

Section graph.
Context (serialize : Envelope OwnerMessage → result (list Z) str) (compatibility : Compatibility) (key : SessionIdentity → str).

Notation session_ok := (session_ok serialize compatibility).

(** The record of a remote session is reserved *)
Definition reserved (o : DeploymentOwner) (s : HostSession) : Prop :=
  ∀ rec, ss_remote s = Some rec → ro_identity rec = ss_identity s ∧
    ∃ old, bt_get (key (ss_identity s)) (ow_ledger o) = Some old ∧ record_kept old rec.

(** At any time *)
Record graph_base (h : Hosted) (o : DeploymentOwner) : Prop := {
  gb_wf : owner_wf o;
  gb_typed : reports_typed o;
  gb_desired : desired_ok (ow_desired o);
  gb_map : bt_ok (hd_sessions h);
  gb_session n s : session_in h n = Some s → known o n ∧ host_name s = n ∧ session_ok s ∧ reserved o s;
  gb_host n : known o n → is_Some (host_of n o);
  gb_children n : owned o n = true → is_Some (session_in h n);
  gb_commit : sent h 2 → graph_valid o ∧ everyone h was_prepared;
  gb_run : sent h 3 → everyone h (λ s, HostCommitted ∈ ss_heard s);
  gb_ready : ds_phase (ow_status o) = DpReady → all_ran h o;
  gb_final : ds_phase (ow_status o) ∈ [DpStopped; DpFailed; DpSuspended] → ow_children o = [];
  gb_shows n s : session_in h n = Some s → owned o n = true → shows n (observed_phase (ss_phase s)) o;
  gb_follows : follows o;
  gb_gone n x : host_of n o = Some x → gone (ho_phase x) = true → owned o n = false;
  gb_stopped n x : host_of n o = Some x → ho_phase x = PStopped → stopped_truly h n x;
}.

(** The phases an admission allows *)
Definition admits (adm : GraphAdmission) (p : SessionPhase) : bool :=
  match adm, p with
  | AdPreparing, (SpAuthenticating | SpPreparing | SpPrepared) => true
  | AdCommitting, (SpCommitting | SpCommitted) => true
  | AdActivating, (SpActivating | SpRunning) => true
  | AdActive, (SpRunning | SpStopping | SpTerminal) => true
  | (AdAborting _ | AdFinished), (SpStopping | SpTerminal) => true
  | _, _ => false
  end.

Definition settled (h : Hosted) (s : HostSession) : Prop :=
  session_exact s ∧ admits (hd_admission h) (ss_phase s) = true.

(** Between steps *)
Record graph_exact (h : Hosted) (o : DeploymentOwner) : Prop := {
  ge_base : graph_base h o;
  ge_settled : everyone h (settled h);
  ge_valid : match hd_admission h with AdCommitting | AdActivating | AdActive => graph_valid o | _ => True end;
  ge_active : hd_admission h = AdActive → everyone h (λ s, was_prepared s ∧ HostCommitted ∈ ss_heard s ∧ HostRunning ∈ ss_heard s);
  ge_whole : match hd_admission h with AdCommitting | AdActivating | AdActive => ∀ n, known o n → is_Some (session_in h n) | _ => True end;
  ge_finished : hd_admission h = AdFinished → ow_children o = [];
  ge_final f : hd_admission h = AdAborting f → f ≠ DpReady;
  ge_ready : ds_phase (ow_status o) = DpReady → hd_admission h = AdActive ∧ in_running h;
}.

(** What a session never loses *)
Record session_kept (s s' : HostSession) : Prop := {
  sf_identity : ss_identity s' = ss_identity s;
  sf_assignments : ss_assignments s' = ss_assignments s;
  sf_remote : same_record (ss_remote s) (ss_remote s');
  sf_deadline : keeps (ss_stop_deadline s) (ss_stop_deadline s');
  sf_heard : ∃ more, ss_heard s' = ss_heard s ++ more;
}.
(** A commit or a run is not sent *)
Record session_fixed (s s' : HostSession) : Prop := {
  sf_kept : session_kept s s';
  sf_log c' t : ss_channel s' = Some c' → t ∈ log c' → 2 ≤ t → t < 4 → ∃ c, ss_channel s = Some c ∧ t ∈ log c;
}.

#[local] Hint Immediate sf_kept : core.

Lemma session_kept_refl s : session_kept s s.
Proof. constructor; try (done || apply kept_first_refl || apply same_record_refl). exists []. by rewrite app_nil_r. Qed.
Lemma session_fixed_refl s : session_fixed s s.
Proof. constructor; [apply session_kept_refl|]. intros c t Hc Ht _ _. by exists c. Qed.
Lemma session_kept_trans s1 s2 s3 : session_kept s1 s2 → session_kept s2 s3 → session_kept s1 s3.
Proof.
  intros [A1 A2 A3 A4 [m1 A5]] [B1 B2 B3 B4 [m2 B5]]. constructor; [congruence..| | |].
  - eapply option_Forall2_trans'; [|done..]. unfold record_kept. intuition congruence.
  - by eapply kept_first_trans.
  - exists (m1 ++ m2). by rewrite B5, A5, app_assoc.
Qed.
Lemma session_rel_fixed s s' : session_rel s s' → session_fixed s s'.
Proof. intros [A1 A2 A3 A4 A5 _ _ _ A9]. constructor; [done|]. intros c t Hc Ht Hle _. by apply (A9 c). Qed.

Lemma heard_ending s : ending (ss_phase s) = true → heard_exact compatibility s.
Proof.
  intros He. destruct (ss_phase s) eqn:Hp; try done; unfold heard_exact; rewrite Hp; (split_and!; [done|done|set_solver..]).
Qed.
Lemma settled_ending h s :
  ending (ss_phase s) = true → match hd_admission h with AdActive | AdAborting _ | AdFinished => True | _ => False end →
  settled h s.
Proof.
  intros He Ha. unfold settled, session_exact. by destruct (ss_phase s), (hd_admission h).
Qed.

(** ** Stopping one session *)

Record stopped_post (s : HostSession) (o : DeploymentOwner) (s' : HostSession) (o' : DeploymentOwner) : Prop := {
  sp_ok : session_ok s';
  sp_ending : ending (ss_phase s') = true;
  sp_fixed : session_fixed s s';
  sp_owner : owner_rel s o o';
  sp_others : others_same (host_name s) o o';
  sp_reports : same_reports o o';
  sp_shows : (s', o') = (s, o) ∨ shows (host_name s) PStopping o' ∧ ss_phase s' = SpStopping;
}.

Lemma stop_session_spec now reason s o :
  session_ok s → owner_wf o → is_Some (host_of (host_name s) o) →
  wp (stop_session serialize now (now + STOP_GRACE) reason (host_name s))
    (λ r st', r = Ok tt ∧ stopped_post s o st'.1 st'.2) (s, o).
Proof.
  intros [Hb Hh] Hw [x Hx]. unfold stop_session. turn_steps.
  destruct (ss_stop_deadline s) as [d|] eqn:Ed; cbn [is_none negb]; turn_steps.
  { split; [done|]. constructor; cbn; [done|by rewrite (so_stop _ _ Hb), Ed|apply session_fixed_refl|apply owner_rel_refl|apply others_same_refl|done|by left]. }
  set (o1 := status_phase (host_name s) PStopping o).
  assert (Hw1 : owner_wf o1) by by apply status_phase_kept.
  assert (Hr1 : same_reports o o1).
  { intros k. unfold o1. rewrite status_phase_inst. destruct (inst_of k o); [|done]. cbn. by case_bool_decide. }
  set (s1 := ss_put_phase SpStopping _).
  assert (Hend : ∀ ch o2,
    (∀ c', ch = Some c' → ∃ c, ss_channel s = Some c ∧ writing_ok serialize (ss_identity s) c' ∧ buffers_ok c' ∧
      (log c' = log c ++ [4] ∨ log c' = log c)) →
    (o2 = o1 ∨ ∃ f, o2 = on_host (host_name s) f o1 ∧ (∀ h, host_kept h (f h) ∧ ho_phase (f h) = ho_phase h)) → ∀ s2,
    s2 = ss_put_channel ch s1 ∨ s2 = ss_put_stop_reason (Some reason) (ss_put_channel ch s1) → stopped_post s o s2 o2).
  { intros ch o2 Hch Ho2 s2 Es2.
    assert (Hs2 : ss_channel s2 = ch ∧ ss_listening s2 = false ∧ ss_phase s2 = SpStopping ∧ ss_identity s2 = ss_identity s ∧
      ss_assignments s2 = ss_assignments s ∧ ss_remote s2 = ss_remote s ∧ ss_heard s2 = ss_heard s ∧
      ss_stop_deadline s2 = Some (now + STOP_GRACE)%Z) by by destruct Es2; subst.
    destruct Hs2 as (E1&E2&E3&E4&E5&E6&E7&E8). clear Es2.
    assert (Hlog : ∀ c', ch = Some c' → ∃ c, ss_channel s = Some c ∧ writing_ok serialize (ss_identity s) c' ∧ buffers_ok c' ∧
      log_ordered true (log c') ∧ ∀ t, t < 4 → t ∈ log c' → t ∈ log c).
    { intros c' Hc'. destruct (Hch c' Hc') as (c&Hc&Hwr&Hbf&Hl). exists c. split_and!; [done..| |].
      - destruct (so_channel _ _ Hb c Hc) as (_&_&n&Hn&Hl'). rewrite Ed in Hl'. destruct Hl' as [Hl'|[? _]]; [|done].
        exists n. split; [done|]. destruct Hl as [->| ->]; rewrite Hl'; [by right|by left].
      - intros t Ht. destruct Hl as [->| ->]; [|done]. rewrite elem_of_app, list_elem_of_singleton. intros [?| ->]; [done|lia]. }
    constructor; cbn.
    - split; [|apply heard_ending; by rewrite E3]. constructor; rewrite ?E1, ?E2, ?E3, ?E4, ?E8; try done.
      + intros c Hc. destruct (Hlog c Hc) as (?&_&?&?&?&_). done.
      + unfold assignments_typed. rewrite E5. apply (so_typed _ _ Hb).
    - by rewrite E3.
    - constructor; [constructor; rewrite ?E5, ?E6, ?E7, ?E8; try (done || apply same_record_refl); [by rewrite Ed|exists []; by rewrite app_nil_r]|].
      intros c' t. rewrite E1. intros Hc' Ht _ H4. destruct (Hlog c' Hc') as (c&Hc&_&_&_&Hin). exists c. auto.
    - destruct Ho2 as [->|(f&->&Hf)]; [apply status_phase_owner|].
      eapply (owner_rel_trans s s); [done|done|apply status_phase_owner|]. apply owner_rel_plain; [|done..|intros; by apply on_host_other].
      apply on_host_kept. intros h _. apply Hf.
    - assert (Ho : others_same (host_name s) o o1) by by apply status_phase_others.
      destruct Ho2 as [->|(f&->&Hf)]; [done|]. destruct Ho as [Ha Hi]. split; [|done]. intros k Hk. rewrite on_host_other by done. by apply Ha.
    - destruct Ho2 as [->|(f&->&Hf)]; done.
    - right. split; [|done]. pose proof (status_phase_shows (host_name s) PStopping o Hw) as [S1 S2].
      destruct Ho2 as [->|(f&->&Hf)]; [done|]. split; [|done]. intros h. unfold host_of. cbn -[status_phase].
      rewrite bt_get_update, bool_decide_eq_true_2 by (done || apply Hw1). change (bt_get _ _) with (host_of (host_name s) o1).
      destruct (host_of (host_name s) o1) as [h1|] eqn:E; [|done]. intros [= <-]. rewrite (proj2 (Hf h1)). by apply S1. }
  destruct (ss_channel s) as [c|] eqn:Ec; turn_steps.
  2:{ split; [done|]. apply (Hend None o1); [done|by left|left]. unfold s1. destruct s; cbn in *; by subst. }
  replace (now + STOP_GRACE - now)%Z with STOP_GRACE by lia. change (_ <=? u64_max)%Z with true. cbn iota. turn_steps.
  destruct (so_channel _ _ Hb c Ec) as (Hwr&Hbf&_).
  destruct (host_queue_spec serialize (ss_identity s) now (OwnerStop reason 2000) c Hwr) as (r&c'&Hq&Hwr'&Hsr&Hl).
  change (Z.max 0 STOP_GRACE / 1000000)%Z with 2000%Z. rewrite Hq. turn_steps.
  destruct r as [[]|e]; turn_steps.
  - split; [done|]. apply (Hend (Some c') o1); [|by left|right].
    + intros ? [= <-]. exists c. split_and!; [done|done|by eapply buffers_same|]. unfold log.
      destruct Hl as [->|[-> ?]]; [left; by rewrite fmap_app|by right].
    + done.
  - assert (Hx1 : is_Some (host_of (host_name s) o1)) by (unfold o1; rewrite status_phase_host, bool_decide_eq_true_2 by done; rewrite Hx; by eexists).
    destruct Hx1 as [x1 Hx1]. fold o1. rewrite Hx1. cbn [ok_or]. turn_steps. split; [done|]. apply (Hend None); [done| |left; done].
    right. eexists. split; [done|]. intros h. split; [|done]. constructor; cbn; try (done || apply kept_first_refl). by eexists.
Qed.

(** ** One session among all *)

Definition with_session (n : str) (s : HostSession) (h : Hosted) : Hosted := put_sessions (bt_insert n s (hd_sessions h)).2 h.

Lemma session_in_with n s h k :
  bt_ok (hd_sessions h) → session_in (with_session n s h) k = if bool_decide (k = n) then Some s else session_in h k.
Proof.
  intros Hm. unfold session_in, with_session. cbn. case_bool_decide; subst; [by apply bt_get_insert_eq|by apply bt_get_insert_ne].
Qed.

Lemma wp_on_session {A} n missing (m : ST Turn A) Q h o s :
  session_in h n = Some s →
  wp (on_session n missing m) Q (h, o) ↔ wp m (λ x st, Q (Ok x) (with_session n st.1 h, st.2)) (s, o).
Proof.
  unfold session_in, on_session, wp. intros ->. by destruct (m (s, o)) as [[x [s' o']]|].
Qed.

Lemma graph_members_same o o' l : same_reports o o' → graph_members o' l = graph_members o l.
Proof.
  intros Hr. induction l as [|c l IH]; cbn; [done|]. specialize (Hr (prc_namespace c)). unfold inst_of in Hr.
  by rewrite Hr, IH.
Qed.
Lemma graph_valid_same o o' : same_reports o o' → ow_desired o' = ow_desired o → graph_valid o → graph_valid o'.
Proof. intros Hr Hd (entries&Hm&Hv). exists entries. split; [|done]. by rewrite Hd, (graph_members_same o o'). Qed.

Lemma fixed_heard s s' m : session_kept s s' → m ∈ ss_heard s → m ∈ ss_heard s'.
Proof. intros Hf Hm. destruct (sf_heard _ _ Hf) as [more ->]. apply elem_of_app. by left. Qed.

Lemma reserved_kept o o' s s' :
  owner_wf o → owner_kept o o' → session_kept s s' → reserved o s → reserved o' s'.
Proof.
  intros Hw Hk Hf Hr rec' Hrec. destruct (Hk Hw) as [_ Hfk]. pose proof (sf_remote _ _ Hf) as Hs. rewrite Hrec in Hs.
  inversion Hs as [rec ? Hrk E1 E2|]; subst. destruct (Hr rec) as (Hid&old&Hold&Hok); [done|]. rewrite (sf_identity _ _ Hf).
  destruct (fk_ledger _ _ Hfk _ _ Hold) as (old'&Hold'&Hok'). unfold record_kept in *.
  split; [intuition congruence|]. exists old'. split; [done|]. intuition congruence.
Qed.

Lemma sent_with h n s s' t :
  bt_ok (hd_sessions h) → session_in h n = Some s → session_fixed s s' → 2 ≤ t → t < 4 → sent (with_session n s' h) t → sent h t.
Proof.
  intros Hm Hs Hf H2 H4 (k&sk&c&Hk&Hc&Ht). rewrite session_in_with in Hk by done. case_bool_decide; [|by exists k, sk, c].
  injection Hk as <-. destruct (sf_log _ _ Hf c t Hc Ht H2 H4) as (c0&Hc0&Ht0). by exists n, s, c0.
Qed.

Lemma everyone_with h n s s' (P : HostSession → Prop) :
  bt_ok (hd_sessions h) → session_in h n = Some s → (P s → P s') → everyone h P → everyone (with_session n s' h) P.
Proof.
  intros Hm Hs HP He k sk. rewrite session_in_with by done. case_bool_decide; [|apply He]. intros [= <-]. apply HP. by apply (He n).
Qed.

Lemma inst_kept_l o o' k i' :
  owner_wf o → owner_kept o o' → inst_of k o' = Some i' → ∃ i, inst_of k o = Some i ∧ io_host i' = io_host i.
Proof.
  intros Hw Hk Hi. destruct (Hk Hw) as [_ Hf]. pose proof (fk_insts _ _ Hf k) as H. rewrite Hi in H.
  inversion H as [i ? Hki E1 E2|]; subst. exists i. split; [done|]. by apply Hki.
Qed.

Lemma follows_shows o o' n p :
  owner_wf o → owner_kept o o' → others_same n o o' → (∀ k, k ≠ n → ho_phase <$> host_of k o' = ho_phase <$> host_of k o) → shows n p o' →
  follows o → follows o'.
Proof.
  intros Hw Hk [_ Ho] Hh [S1 S2] Hf k i' x' Hi' Hx'. destruct (inst_kept_l _ _ _ _ Hw Hk Hi') as (i&Hi&He).
  destruct (decide (io_host i' = n)) as [En|Hn].
  - rewrite En in Hx'. by rewrite (S1 _ Hx'), (S2 k i' Hi' En).
  - rewrite (Ho k i i' Hi Hi') by congruence. specialize (Hh (io_host i') Hn). rewrite Hx' in Hh. rewrite He in *.
    destruct (host_of (io_host i) o) as [x|] eqn:Ex; [|done]. injection Hh as ->. by apply (Hf k).
Qed.

Lemma graph_update_gen h o n s s' o' :
  graph_base h o → session_in h n = Some s → session_ok s' → session_kept s s' → owner_rel s o o' → others_same n o o' →
  (shows n (observed_phase (ss_phase s')) o' ∨
    (ow_status o' = ow_status o ∧ (ss_phase s' = ss_phase s ∨ owned o n = false ∧ ss_phase s' = SpTerminal))) →
  (sent (with_session n s' h) 2 → graph_valid o' ∧ everyone h was_prepared) →
  (sent (with_session n s' h) 3 → everyone h (λ s, HostCommitted ∈ ss_heard s)) → graph_base (with_session n s' h) o'.
Proof.
  intros [G1 G2 G3 G4 G5 G6 G7 G8 G9 G10 G11 G12 G13 G14 G15] Hs Hok Hf Ho Hoth Hsh Hsent2 Hsent3.
  destruct (G5 n s Hs) as (Hkn&Hnm&_&Hres). destruct (or_kept _ _ _ Ho G1) as [Hw' Hfk]. pose proof (or_kept _ _ _ Ho) as Hk.
  assert (Hd : ow_desired o' = ow_desired o) by apply Hfk.
  assert (Hhosts : ∀ k, k ≠ n → host_of k o' = host_of k o) by (intros k Hk'; apply (or_hosts _ _ _ Ho); [done|by rewrite Hnm]).
  assert (Hown : ∀ k, owned o' k = owned o k) by (intros k; unfold owned; by rewrite (or_children _ _ _ Ho)).
  assert (Hgone : ∀ p, gone (observed_phase p) = false) by by intros [].
  constructor.
  - done.
  - by apply (or_typed _ _ _ Ho).
  - by rewrite Hd.
  - unfold with_session. cbn. by apply bt_insert_ok.
  - intros k sk. rewrite session_in_with by done. unfold known. rewrite Hd. case_bool_decide as E.
    + intros [= <-]. subst k. split_and!; [done| |done|by apply (reserved_kept o o' s s')]. unfold host_name in *. by rewrite (sf_identity _ _ Hf).
    + intros Hk'. destruct (G5 k sk Hk') as (?&?&?&?). split_and!; [done..|]. apply (reserved_kept o o' sk sk); [done..|apply session_kept_refl|done].
  - intros k. unfold known. rewrite Hd. intros Hk'. destruct (G6 k Hk') as [x Hx]. pose proof (fk_hosts _ _ Hfk k) as Hh. rewrite Hx in Hh.
    inversion Hh. by eexists.
  - intros k. rewrite Hown, session_in_with by done. case_bool_decide; [by eexists|apply G7].
  - intros Hsent. destruct (Hsent2 Hsent) as [Hv He]. split; [done|]. eapply everyone_with; [done..| |done]. by apply fixed_heard.
  - intros Hsent. eapply everyone_with; [done..| |by apply Hsent3]. by apply fixed_heard.
  - rewrite (or_phase _ _ _ Ho). intros Hr. destruct (G10 Hr) as [Hrun Hall]. split; [eapply everyone_with; [done..| |exact Hrun]; by apply fixed_heard|].
    unfold known. rewrite Hd. intros k Hk'. rewrite session_in_with by done. case_bool_decide; [by eexists|by apply Hall].
  - rewrite (or_phase _ _ _ Ho), (or_children _ _ _ Ho). done.
  - intros k sk. rewrite session_in_with, Hown by done. case_bool_decide as E.
    + intros [= <-]. subst k. intros Hon. destruct Hsh as [Hsh|[Hst [Hph|[Hoff _]]]]; [done| |congruence]. rewrite Hph.
      destruct (G12 n s Hs Hon) as [S1 S2]. split; [intros x|intros k i]; unfold host_of, inst_of; rewrite Hst; [apply S1|apply S2].
    + intros Hk' Hon. destruct (G12 k sk Hk' Hon) as [S1 S2]. split; [intros x; rewrite Hhosts by done; apply S1|].
      intros j i' Hi' Hih. destruct (inst_kept_l _ _ _ _ G1 Hk Hi') as (i&Hi&He). destruct Hoth as [_ Hoth].
      rewrite (Hoth j i i' Hi Hi') by congruence. apply (S2 j i Hi). congruence.
  - destruct Hsh as [Hsh|[Hst _]].
    + eapply (follows_shows o o' n); [done|exact Hk|exact Hoth| |exact Hsh|done]. intros k Hk'. by rewrite Hhosts.
    + intros k i x. unfold host_of, inst_of. rewrite Hst. apply G13.
  - intros k x. rewrite Hown. destruct (decide (k = n)) as [->|Hk']; [|rewrite Hhosts by done; apply G14].
    intros Hx Hg. destruct Hsh as [[S1 _]|[Hst _]]; [by rewrite (S1 x Hx), Hgone in Hg|]. unfold host_of in Hx. rewrite Hst in Hx. by apply (G14 n x).
  - intros k x Hx Hp. unfold stopped_truly. rewrite session_in_with by done. case_bool_decide as E.
    + subst k. destruct Hsh as [[S1 _]|[Hst Hph]].
      * rewrite (S1 x Hx) in Hp. pose proof (Hgone (ss_phase s')) as Hg. by rewrite Hp in Hg.
      * unfold host_of in Hx. rewrite Hst in Hx. pose proof (G15 n x Hx Hp) as Ht. unfold stopped_truly in Ht. rewrite Hs in Ht.
        destruct Ht as (?&Hrem&?&?&?). split_and!; try done; [destruct Hph as [->|[_ ->]]; done|]. pose proof (sf_remote _ _ Hf) as Hr. rewrite Hrem in Hr. by inversion Hr.
    + rewrite Hhosts in Hx by done. by apply (G15 k x).
Qed.

Lemma graph_update h o n s s' o' :
  graph_base h o → session_in h n = Some s → session_ok s' → session_fixed s s' → owner_rel s o o' → others_same n o o' →
  (shows n (observed_phase (ss_phase s')) o' ∨
    (ow_status o' = ow_status o ∧ (ss_phase s' = ss_phase s ∨ owned o n = false ∧ ss_phase s' = SpTerminal))) →
  (sent h 2 → same_reports o o') → graph_base (with_session n s' h) o'.
Proof.
  intros G Hs Hok Hf Ho Hoth Hsh Hrep. pose proof (gb_map _ _ G) as Hm. apply (graph_update_gen h o n s); try done; [apply Hf| |].
  - intros Hsent. apply (sent_with h n s s') in Hsent; [|done..|lia|lia]. destruct (gb_commit _ _ G Hsent) as [Hv He]. split; [|done].
    eapply graph_valid_same; [by apply Hrep| |done]. apply (or_kept _ _ _ Ho), G.
  - intros Hsent. apply (sent_with h n s s') in Hsent; [|done..|lia|lia]. by apply (gb_run _ _ G).
Qed.

(** The owner changes, the sessions stay *)
Lemma graph_owner_change h o o' :
  graph_base h o → owner_kept o o' → (∀ n, owned o' n = true → owned o n = true) → reports_typed o' →
  (sent h 2 → same_reports o o') →
  (ds_phase (ow_status o') = DpReady → all_ran h o) →
  (ds_phase (ow_status o') ∈ [DpStopped; DpFailed; DpSuspended] → ow_children o' = []) →
  (∀ n s, session_in h n = Some s → owned o' n = true → shows n (observed_phase (ss_phase s)) o') → follows o' →
  (∀ n x, host_of n o' = Some x → gone (ho_phase x) = true → owned o' n = false) →
  (∀ n x, host_of n o' = Some x → ho_phase x = PStopped → stopped_truly h n x) → graph_base h o'.
Proof.
  intros [G1 G2 G3 G4 G5 G6 G7 G8 G9 G10 G11 G12 G13 G14 G15] Hk Hown Hty Hrep Hready Hfinal Hsh Hfol Hgone Hst.
  destruct (Hk G1) as [Hw' Hf]. pose proof (fk_desired _ _ Hf) as Hd. constructor; try done.
  - by rewrite Hd.
  - intros n s Hs. unfold known. rewrite Hd. destruct (G5 n s Hs) as (?&?&?&?). split_and!; [done..|].
    apply (reserved_kept o o' s s); [done..|apply session_kept_refl|done].
  - intros n. unfold known. rewrite Hd. intros Hkn. destruct (G6 n Hkn) as [x Hx]. pose proof (fk_hosts _ _ Hf n) as Hh.
    rewrite Hx in Hh. inversion Hh. by eexists.
  - intros n Hn. by apply G7, Hown.
  - intros Hs. destruct (G8 Hs). split; [|done]. by eapply graph_valid_same; [by apply Hrep|..].
  - intros Hr. unfold all_ran, known. rewrite Hd. by apply Hready.
Qed.

(** ** Stopping *)

Record scope_rel (h : Hosted) (o : DeploymentOwner) (h' : Hosted) (o' : DeploymentOwner) : Prop := {
  sc_owner : owner_kept o o';
  sc_children n : owned o' n = true → owned o n = true;
  sc_sessions n : option_Forall2 session_kept (session_in h n) (session_in h' n);
  sc_deadline : hd_deadline h' = hd_deadline h;
}.
Lemma scope_rel_refl h o : scope_rel h o h o.
Proof. constructor; try done. intros n. apply option_Forall2_refl', session_kept_refl. Qed.
Lemma scope_rel_trans h1 o1 h2 o2 h3 o3 : scope_rel h1 o1 h2 o2 → scope_rel h2 o2 h3 o3 → scope_rel h1 o1 h3 o3.
Proof.
  intros [A1 A2 A3 A4] [B1 B2 B3 B4]. constructor; [by etrans|auto| |congruence].
  intros n. eapply option_Forall2_trans'; [apply session_kept_trans|apply A3|apply B3].
Qed.
Lemma scope_rel_get h o h' o' n s :
  scope_rel h o h' o' → session_in h n = Some s → ∃ s', session_in h' n = Some s' ∧ session_kept s s'.
Proof.
  intros Hr Hs. pose proof (sc_sessions _ _ _ _ Hr n) as Hf. rewrite Hs in Hf. inversion Hf as [? s' Hfx E1 E2|]. by exists s'.
Qed.
Lemma scope_rel_old h o h' o' n s' :
  scope_rel h o h' o' → session_in h' n = Some s' → ∃ s, session_in h n = Some s ∧ session_kept s s'.
Proof.
  intros Hr Hs. pose proof (sc_sessions _ _ _ _ Hr n) as Hf. rewrite Hs in Hf. inversion Hf as [s ? Hfx E1 E2|]. by exists s.
Qed.
Lemma scope_rel_with h o n s s' o' :
  bt_ok (hd_sessions h) → session_in h n = Some s → session_kept s s' → owner_kept o o' → ow_children o' = ow_children o →
  scope_rel h o (with_session n s' h) o'.
Proof.
  intros Hm Hs Hf Hk Hc. constructor; [done| | |done].
  - intros k. unfold owned. by rewrite Hc.
  - intros k. rewrite session_in_with by done. case_bool_decide; [subst; rewrite Hs; by constructor|].
    apply option_Forall2_refl', session_kept_refl.
Qed.
Lemma scope_rel_owner h o o' :
  owner_kept o o' → (∀ n, owned o' n = true → owned o n = true) → scope_rel h o h o'.
Proof. intros Hk Hc. constructor; try done. intros n. apply option_Forall2_refl', session_kept_refl. Qed.

Lemma status_phase_same_reports n p o : same_reports o (status_phase n p o).
Proof. intros k. rewrite status_phase_inst. destruct (inst_of k o); [|done]. cbn. by case_bool_decide. Qed.
Lemma same_reports_typed o o' : same_reports o o' → reports_typed o → reports_typed o'.
Proof.
  intros Hr Ht k i r Hi Hir. specialize (Hr k). rewrite Hi in Hr. cbn in Hr. rewrite Hir in Hr.
  destruct (inst_of k o) as [i0|] eqn:E; [|done]. by apply (Ht k i0 r E).
Qed.
Lemma same_reports_trans o1 o2 o3 : same_reports o1 o2 → same_reports o2 o3 → same_reports o1 o3.
Proof. intros H1 H2 k. by rewrite H2, H1. Qed.

(** A host whose process is gone, or was never there, is shown otherwise *)
Lemma graph_show h o n p :
  graph_base h o → owned o n = false →
  (∀ x, host_of n o = Some x → p = PStopped → stopped_truly h n x) → graph_base h (status_phase n p o).
Proof.
  intros G Hown Hst. pose proof G as [G1 G2 G3 G4 G5 G6 G7 G8 G9 G10 G11 G12 G13 G14 G15].
  apply (graph_owner_change h o); try done.
  - apply status_phase_kept.
  - apply (same_reports_typed o); [apply status_phase_same_reports|done].
  - intros _. apply status_phase_same_reports.
  - intros k s Hs Hk. change (owned o k = true) in Hk. assert (Hn : k ≠ n) by congruence. destruct (G12 k s Hs Hk) as [S1 S2]. split.
    + intros x. rewrite status_phase_host, bool_decide_eq_false_2 by done. apply S1.
    + intros j i'. rewrite status_phase_inst. destruct (inst_of j o) as [i|] eqn:Ei; [|done]. cbn. intros [= <-].
      case_bool_decide as E; [cbn; congruence|]. by apply (S2 j).
  - eapply (follows_shows o _ n p); [done|apply status_phase_kept|by apply status_phase_others| |by apply status_phase_shows|done].
    intros k Hk. by rewrite status_phase_host, bool_decide_eq_false_2.
  - intros k x. rewrite status_phase_host by done. case_bool_decide; [by subst|]. apply G14.
  - intros k x. rewrite status_phase_host by done. case_bool_decide; [|apply G15]. subst. destruct (host_of n o) as [x0|] eqn:Ex; [|done].
    intros [= <-] Hp. cbn in Hp. specialize (Hst x0 eq_refl Hp). unfold stopped_truly in *. by destruct (session_in h n).
Qed.

Record request_post (n : str) (h : Hosted) (o : DeploymentOwner) (h' : Hosted) (o' : DeploymentOwner) : Prop := {
  rp_base : graph_base h' o';
  rp_rel : scope_rel h o h' o';
  rp_children : ow_children o' = ow_children o;
  rp_admission : hd_admission h' = hd_admission h;
  rp_phase : ds_phase (ow_status o') = ds_phase (ow_status o);
  rp_ending s : session_in h' n = Some s → ending (ss_phase s) = true;
  rp_others k : k ≠ n → session_in h' k = session_in h k;
  rp_reports : same_reports o o';
}.

Lemma request_stop_spec now reason n h o :
  graph_base h o → known o n →
  wp (request_stop serialize now (now + STOP_GRACE) reason n) (λ r st, r = Ok tt ∧ request_post n h o st.1 st.2) (h, o).
Proof.
  intros G Hkn. unfold request_stop. turn_steps. change (bt_get n (hd_sessions h)) with (session_in h n).
  destruct (session_in h n) as [s|] eqn:Hs.
  - destruct (gb_session _ _ G n s Hs) as (_&Hnm&Hok&_). rewrite wp_bind_try, wp_on_session by done.
    destruct (gb_host _ _ G n Hkn) as [x Hx]. rewrite <- Hnm at 1.
    eapply wp_mono; [apply stop_session_spec; [done|by apply G|by rewrite Hnm, Hx; eexists]|].
    intros r [s' o'] (->&[P1 P2 P3 P4 P5 P6 P7]). cbn [fst snd] in *. turn_steps. split; [done|]. pose proof (gb_map _ _ G) as Hm.
    rewrite Hnm in *. constructor; cbn [fst snd].
    + destruct P7 as [E|[Hsh Hph]].
      * apply pair_eq in E as [-> ->]. eapply graph_update; try done. right. by auto.
      * eapply graph_update; try done. left. by rewrite Hph.
    + by apply (scope_rel_with h o n s); [..|apply P3|apply P4|apply P4].
    + apply P4.
    + done.
    + apply P4.
    + intros s2. rewrite session_in_with, bool_decide_eq_true_2 by done. by intros [= <-].
    + intros k Hk. by rewrite session_in_with, bool_decide_eq_false_2.
    + done.
  - assert (Hown : owned o n = false).
    { destruct (owned o n) eqn:E; [|done]. apply (gb_children _ _ G) in E as [? ?]. congruence. }
    turn_steps. split; [done|]. constructor; try done.
    + apply graph_show; [done..|]. intros x _ _. unfold stopped_truly. by rewrite Hs.
    + apply scope_rel_owner; [apply status_phase_kept|done].
    + cbn. by rewrite Hs.
    + apply status_phase_same_reports.
Qed.

Lemma graph_base_admission a h o : graph_base h o → graph_base (put_admission a h) o.
Proof. by intros [? ? ? ? ? ? ? ? ? ? ? ? ? ? ?]; constructor. Qed.

Lemma graph_phase p h o :
  graph_base h o → (p = DpReady → all_ran h o) →
  (p ∈ [DpStopped; DpFailed; DpSuspended] → ow_children o = []) → graph_base h (with_phase p o).
Proof.
  intros G Hr Hf. destruct G as [G1 G2 G3 G4 G5 G6 G7 G8 G9 G10 G11 G12 G13 G14 G15].
  apply (graph_owner_change h o); try done. apply with_phase_kept.
Qed.

Record stops_post (l : list str) (h : Hosted) (o : DeploymentOwner) (h' : Hosted) (o' : DeploymentOwner) : Prop := {
  st_base : graph_base h' o';
  st_rel : scope_rel h o h' o';
  st_children : ow_children o' = ow_children o;
  st_admission : hd_admission h' = hd_admission h;
  st_phase : ds_phase (ow_status o') = ds_phase (ow_status o);
  st_ending n s : session_in h' n = Some s → ending (ss_phase s) = true ∨ (n ∉ l ∧ session_in h n = Some s);
  st_reports : same_reports o o';
}.

Lemma try_each_stops now reason l h o :
  graph_base h o → (∀ n, n ∈ l → known o n) →
  wp (try_each (request_stop serialize now (now + STOP_GRACE) reason) l) (λ r st, r = Ok tt ∧ stops_post l h o st.1 st.2) (h, o).
Proof.
  revert h o. induction l as [|n l IH]; intros h o G Hkn; cbn [try_each].
  { turn_steps. split; [done|]. constructor; try done; [apply scope_rel_refl|]. intros n s Hs. right. split; [set_solver|done]. }
  rewrite wp_bind_try. eapply wp_mono; [apply request_stop_spec; [done|apply Hkn; by left]|].
  intros r [h1 o1] (->&[R1 R2 R3 R4 R5 R6 R7 R8]). cbn [fst snd] in *.
  assert (Hd : ow_desired o1 = ow_desired o) by apply (sc_owner _ _ _ _ R2), G.
  eapply wp_mono; [apply IH; [done|]|].
  { intros k Hk. unfold known. rewrite Hd. apply Hkn. by right. }
  intros r [h2 o2] (->&[S1 S2 S3 S4 S5 S6 S7]). cbn [fst snd] in *. split; [done|].
  constructor; [done| |by rewrite S3, R3|by rewrite S4, R4|by rewrite S5, R5| |by eapply same_reports_trans].
  - by eapply scope_rel_trans.
  - intros k s Hs. destruct (S6 k s Hs) as [?|[Hkl Hs1]]; [by left|]. destruct (decide (k = n)) as [->|Hne]; [left; by apply R6|].
    right. rewrite <- R7 by done. split; [|done]. by apply not_elem_of_cons.
Qed.

Record aborted (final : DeploymentPhase) (h : Hosted) (o : DeploymentOwner) (h' : Hosted) (o' : DeploymentOwner) : Prop := {
  ab_exact : graph_exact h' o';
  ab_rel : scope_rel h o h' o';
  ab_children : ow_children o' = ow_children o;
  ab_admission : hd_admission h' = AdAborting final;
  ab_ending : everyone h' (λ s, ending (ss_phase s) = true);
}.

Lemma stop_all_spec now reason final h o :
  graph_base h o → final ≠ DpReady → wp (stop_all_hosts serialize now reason final) (λ r st, r = Ok tt ∧ aborted final h o st.1 st.2) (h, o).
Proof.
  intros G Hfin. unfold stop_all_hosts. turn_steps. set (h0 := put_admission _ h). set (o0 := with_phase _ o).
  assert (G0 : graph_base h0 o0) by (apply graph_phase; [by apply graph_base_admission|done|set_solver]).
  eapply wp_mono; [apply try_each_stops; [done|by intros n Hn]|].
  intros r [h1 o1] (->&[S1 S2 S3 S4 S5 S6 S7]). cbn [fst snd] in *. split; [done|].
  assert (He : everyone h1 (λ s, ending (ss_phase s) = true)).
  { intros n s Hs. destruct (S6 n s Hs) as [?|[Hn Hs0]]; [done|]. destruct Hn. by apply (gb_session _ _ G n s). }
  constructor; try done.
  - constructor; try done; [|by rewrite S4..|rewrite S4; by intros f [= <-]|by rewrite S5]. intros n s Hs. apply settled_ending; [by apply (He n)|by rewrite S4].
  - eapply scope_rel_trans; [|exact S2]. destruct (scope_rel_owner h o o0) as [A1 A2 A3 A4]; [apply with_phase_kept|done|]. by constructor.
Qed.

(** ** A host fails *)

Definition set_error (n e : str) (o : DeploymentOwner) : DeploymentOwner :=
  first_error (n ++ bytes_of ": " ++ e) (on_instances n (io_with_error e) (on_host n (add_error e) o)).

Lemma add_error_kept e x : host_kept x (add_error e x) ∧ ho_phase (add_error e x) = ho_phase x.
Proof.
  unfold add_error. destruct (ho_error x) as [e0|] eqn:E.
  - case_bool_decide; (split; [|done]); constructor; cbn; try (done || apply kept_first_refl); [exists []; by rewrite app_nil_r|by eexists].
  - split; [|done]. constructor; cbn; try (done || apply kept_first_refl); [by rewrite E|exists []; by rewrite app_nil_r].
Qed.

Lemma set_error_kept n e o : owner_kept o (set_error n e o).
Proof.
  unfold set_error. etrans; [|apply first_error_kept]. etrans; [|apply on_instances_kept].
  - apply on_host_kept. intros x _. apply add_error_kept.
  - intros i. constructor; try done. cbn. intros v. by intros ->.
Qed.

Lemma set_error_status n e o :
  ds_component_hosts (ow_status (set_error n e o)) = bt_update n (add_error e) (ds_component_hosts (ow_status o)) ∧
  ds_components (ow_status (set_error n e o)) =
    (λ '(k, i), (k, if bool_decide (io_host i = n) then io_with_error e i else i)) <$> ds_components (ow_status o) ∧
  ds_phase (ow_status (set_error n e o)) = ds_phase (ow_status o) ∧ ow_children (set_error n e o) = ow_children o.
Proof. unfold set_error, first_error. by destruct (ds_error _). Qed.

Lemma set_error_host n e o k :
  owner_wf o → host_of k (set_error n e o) = if bool_decide (k = n) then add_error e <$> host_of k o else host_of k o.
Proof.
  intros [Hh _ _ _]. unfold host_of. destruct (set_error_status n e o) as (->&_). rewrite bt_get_update by done. case_bool_decide; by subst.
Qed.
Lemma set_error_inst n e o k :
  inst_of k (set_error n e o) = (λ i, if bool_decide (io_host i = n) then io_with_error e i else i) <$> inst_of k o.
Proof.
  unfold inst_of. destruct (set_error_status n e o) as (_&->&_). by rewrite (bt_get_map (λ _ i, if bool_decide (io_host i = n) then io_with_error e i else i)).
Qed.
Lemma set_error_phases n e o : owner_wf o → same_phases o (set_error n e o).
Proof.
  intros Hw. split; intros k.
  - rewrite set_error_host by done. case_bool_decide; [|done]. destruct (host_of k o) as [x|]; [|done]. cbn. by rewrite (proj2 (add_error_kept e x)).
  - rewrite set_error_inst. destruct (inst_of k o); [|done]. cbn. by case_bool_decide.
Qed.
Lemma set_error_reports n e o : same_reports o (set_error n e o).
Proof. intros k. rewrite set_error_inst. destruct (inst_of k o); [|done]. cbn. by case_bool_decide. Qed.

Lemma graph_error h o n e :
  graph_base h o → (∀ x, host_of n o = Some x → ho_phase x ≠ PStopped) → graph_base h (set_error n e o).
Proof.
  intros G Hns. pose proof G as [G1 G2 G3 G4 G5 G6 G7 G8 G9 G10 G11 G12 G13 G14 G15].
  destruct (set_error_status n e o) as (_&_&Hp&Hc). pose proof (set_error_phases n e o G1) as Hph.
  pose proof (set_error_kept n e o) as Hk. destruct (Hk G1) as [_ Hfk].
  assert (Hhp : ∀ k x, host_of k (set_error n e o) = Some x → ∃ x0, host_of k o = Some x0 ∧ ho_phase x = ho_phase x0).
  { intros k x Hx. destruct Hph as [Hph _]. specialize (Hph k). rewrite Hx in Hph. destruct (host_of k o) as [x0|]; [|done].
    injection Hph as ->. by exists x0. }
  apply (graph_owner_change h o); rewrite ?Hp, ?Hc; try done.
  - unfold owned. by rewrite Hc.
  - by apply (same_reports_typed o); [apply set_error_reports|].
  - intros _. apply set_error_reports.
  - intros k s Hs Hown. eapply same_phases_shows; [done|exact Hk|done|]. apply G12; [done|]. unfold owned in *. by rewrite Hc in Hown.
  - intros k i x Hi Hx. destruct (inst_kept_l _ _ _ _ G1 Hk Hi) as (i0&Hi0&Hih). destruct (Hhp _ _ Hx) as (x0&Hx0&->).
    rewrite Hih in Hx0. rewrite <- (G13 k i0 x0 Hi0 Hx0). destruct Hph as [_ Hph]. specialize (Hph k). rewrite Hi, Hi0 in Hph. by injection Hph.
  - intros k x Hx Hg. destruct (Hhp _ _ Hx) as (x0&Hx0&E). unfold owned. rewrite Hc. apply (G14 k x0); [done|]. by rewrite <- E.
  - intros k x. rewrite set_error_host by done. case_bool_decide as E; [|apply G15]. subst k. intros Hx Hps.
    destruct (host_of n o) as [x0|] eqn:Ex; [|done]. injection Hx as <-. rewrite (proj2 (add_error_kept e x0)) in Hps. by destruct (Hns x0).
Qed.

(** What must hold for a failure of [n] to be handled *)
Definition fail_pre (n : str) (h : Hosted) (o : DeploymentOwner) : Prop :=
  match hd_admission h with
  | AdPreparing | AdCommitting | AdActivating => True
  | AdActive => (∀ k s, k ≠ n → session_in h k = Some s → settled h s) ∧ graph_valid o ∧
      everyone h (λ s, was_prepared s ∧ HostCommitted ∈ ss_heard s ∧ HostRunning ∈ ss_heard s) ∧ (∀ k, known o k → is_Some (session_in h k))
  | AdAborting f => everyone h (λ s, ending (ss_phase s) = true) ∧ f ≠ DpReady ∧ ds_phase (ow_status o) ≠ DpReady
  | AdFinished => everyone h (λ s, ending (ss_phase s) = true) ∧ ow_children o = [] ∧ ds_phase (ow_status o) ≠ DpReady
  end.

Record fail_post (n : str) (h : Hosted) (o : DeploymentOwner) (h' : Hosted) (o' : DeploymentOwner) : Prop := {
  fp_exact : graph_exact h' o';
  fp_rel : scope_rel h o h' o';
  fp_children : ow_children o' = ow_children o;
  fp_ending s : session_in h' n = Some s → ending (ss_phase s) = true;
  fp_aborting f : hd_admission h = AdAborting f → h' = h ∧ hd_admission h' = AdAborting f;
}.

Lemma fail_host_spec now n e h o :
  graph_base h o → known o n → (∀ x, host_of n o = Some x → ho_phase x ≠ PStopped) → fail_pre n h o →
  wp (fail_host serialize now n e) (λ r st, r = Ok tt ∧ fail_post n h o st.1 st.2) (h, o).
Proof.
  intros G Hkn Hns Hpre. unfold fail_host. turn_steps. destruct (gb_host _ _ G n Hkn) as [x Hx]. rewrite Hx. cbn [ok_or]. turn_steps.
  fold (set_error n e o). set (o1 := set_error n e o).
  assert (G1 : graph_base h o1) by by apply graph_error.
  assert (Hk1 : owner_kept o o1) by apply set_error_kept.
  assert (Hr1 : same_reports o o1) by apply set_error_reports.
  destruct (set_error_status n e o) as (_&_&Hp1&Hc1). fold o1 in Hp1, Hc1.
  assert (Hd1 : ow_desired o1 = ow_desired o) by apply Hk1, G.
  assert (Hrel1 : scope_rel h o h o1) by (apply scope_rel_owner; [done|]; unfold owned; by rewrite Hc1).
  unfold fail_pre in Hpre.
  assert (Hstop : ∀ reason final, match hd_admission h with AdAborting _ | AdFinished => False | _ => True end →
    final ≠ DpReady → wp (stop_all_hosts serialize now reason final) (λ r st, r = Ok tt ∧ fail_post n h o st.1 st.2) (h, o1)).
  { intros reason final Ha Hfin. eapply wp_mono; [by apply stop_all_spec|]. intros r [h2 o2] (->&[A1 A2 A3 A4 A5]). split; [done|]. constructor; try done.
    - by eapply scope_rel_trans.
    - by rewrite A3.
    - intros s Hs. by apply (A5 n).
    - intros f E. by rewrite E in Ha. }
  destruct (hd_admission h) eqn:Ea; try (by apply Hstop); turn_steps.
  - destruct Hpre as (Hset&Hval&Hheard&Hwhole).
    destruct (proj1 (bt_key_get n _ (do_hosts _ (gb_desired _ _ G))) Hkn) as [host Hhost]. rewrite Hhost. cbn [ok_or]. turn_steps.
    destruct (hs_on_failure _); [|by apply Hstop]. turn_steps. set (o2 := with_phase DpDegraded o1).
    assert (G2 : graph_base h o2) by (apply graph_phase; [done|done|set_solver]).
    eapply wp_mono; [apply request_stop_spec; [done|]|].
    { unfold known. cbn. by rewrite Hd1. }
    intros r [h3 o3] (->&[R1 R2 R3 R4 R5 R6 R7 R8]). cbn [fst snd] in *. split; [done|].
    assert (Hrep : same_reports o o3) by (eapply same_reports_trans; [exact Hr1|by eapply same_reports_trans]).
    assert (Hd3 : ow_desired o3 = ow_desired o) by (transitivity (ow_desired o2); [apply (sc_owner _ _ _ _ R2), G2|done]).
    constructor.
    + constructor; rewrite ?R4, ?Ea; try done.
      * intros k s Hs. destruct (decide (k = n)) as [->|Hne].
        -- apply settled_ending; [by apply R6|by rewrite R4, Ea].
        -- rewrite R7 in Hs by done. destruct (Hset k s Hne Hs) as [? ?]. split; [done|]. by rewrite R4.
      * by eapply graph_valid_same.
      * intros _ k s Hs. pose proof (sc_sessions _ _ _ _ R2 k) as Hf. rewrite Hs in Hf. inversion Hf as [s0 ? Hfx E1 E2|]; subst.
        destruct (Hheard k s0) as (?&?&?); [done|]. split_and!; by eapply fixed_heard.
      * intros k. unfold known. rewrite Hd3. intros Hk. destruct (Hwhole k Hk) as [s0 Hs0].
        pose proof (sc_sessions _ _ _ _ R2 k) as Hf. rewrite Hs0 in Hf. inversion Hf. by eexists.
      * by rewrite R5.
    + eapply scope_rel_trans; [exact Hrel1|]. eapply scope_rel_trans; [|exact R2]. apply scope_rel_owner; [apply with_phase_kept|done].
    + by rewrite R3.
    + done.
    + by rewrite Ea.
  - split; [done|]. destruct Hpre as (Hpre&Hfin&Hnr). constructor; try done.
    + constructor; rewrite ?Ea, ?Hp1; try done; [|by intros f [= <-]]. intros k s Hs. apply settled_ending; [by apply (Hpre k)|by rewrite Ea].
    + intros s Hs. by apply (Hpre n).
  - split; [done|]. destruct Hpre as (Hpre&Hch&Hnr). constructor; try done.
    + constructor; rewrite ?Ea, ?Hp1; try done; [|by rewrite Hc1]. intros k s Hs. apply settled_ending; [by apply (Hpre k)|by rewrite Ea].
    + intros s Hs. by apply (Hpre n).
Qed.

Lemma owned_none o : owner_wf o → (∀ n, owned o n = false) → ow_children o = [].
Proof.
  intros [_ _ Hc _] Hn. destruct (ow_children o) as [|[k v] m] eqn:E; [done|]. specialize (Hn k).
  unfold owned in Hn. rewrite E in Hn. by rewrite (proj2 (bt_contains_true k _ Hc)) in Hn by (by left).
Qed.
Lemma owned_empty o : ow_children o = [] → ∀ n, owned o n = false.
Proof. intros E n. unfold owned. by rewrite E. Qed.

Lemma everyone_fixed h o h' o' (P : HostSession → Prop) :
  scope_rel h o h' o' → (∀ s s', session_kept s s' → P s → P s') → everyone h P → everyone h' P.
Proof.
  intros Hr HP He n s' Hs'. pose proof (sc_sessions _ _ _ _ Hr n) as Hf. rewrite Hs' in Hf.
  inversion Hf as [s ? Hfx E1 E2|]; subst. apply (HP s); [done|]. by apply (He n).
Qed.

(** What is between steps stays, when no phase becomes inexact *)
Lemma graph_exact_rel h o h' o' :
  graph_exact h o → graph_base h' o' → scope_rel h o h' o' → hd_admission h' = hd_admission h → everyone h' (settled h') →
  match hd_admission h with AdCommitting | AdActivating | AdActive => same_reports o o' | _ => True end →
  (ds_phase (ow_status o') = DpReady → ds_phase (ow_status o) = DpReady ∧ (in_running h → in_running h')) → graph_exact h' o'.
Proof.
  intros [E1 E2 E3 E4 E5 E6 E7 E8] G Hrel Ha Hs Hrep Hready. destruct (sc_owner _ _ _ _ Hrel (gb_wf _ _ E1)) as [_ Hf].
  pose proof (fk_desired _ _ Hf) as Hd. constructor; rewrite ?Ha; try done.
  - destruct (hd_admission h); try done; by eapply graph_valid_same.
  - intros Hact. eapply everyone_fixed; [exact Hrel| |by apply E4]. intros s s' Hfx (?&?&?). split_and!; by eapply fixed_heard.
  - assert (Hw : (∀ n, known o n → is_Some (session_in h n)) → ∀ n, known o' n → is_Some (session_in h' n)).
    { intros Hw n. unfold known. rewrite Hd. intros Hn. destruct (Hw n Hn) as [s Hsn].
      pose proof (sc_sessions _ _ _ _ Hrel n) as Hfx. rewrite Hsn in Hfx. inversion Hfx. by eexists. }
    destruct (hd_admission h); auto.
  - intros Hfin. apply owned_none; [apply G|]. intros n. destruct (owned o' n) eqn:E; [|done].
    apply (sc_children _ _ _ _ Hrel) in E. by rewrite (owned_empty o (E6 Hfin)) in E.
  - intros [Hr Hrun]%Hready. destruct (E8 Hr) as [? ?]. auto.
Qed.

(** A host whose process was reaped *)
Lemma exited_kept remote d x : host_kept x (exited_status remote d x).
Proof.
  constructor; unfold exited_status; cbn; destruct (ho_outcome x) eqn:Eo, (ho_error x) eqn:Ee, remote; cbn;
    rewrite ?Eo, ?Ee; try (done || apply kept_first_refl || (exists []; by rewrite app_nil_r) || by eexists).
Qed.

Lemma graph_exit h o n s p remote d :
  graph_base h o → session_in h n = Some s → owned o n = false →
  (∀ x, host_of n o = Some x → p = PStopped → stopped_truly h n (exited_status remote d x)) →
  graph_base h (status_phase n p (on_host n (exited_status remote d) o)).
Proof.
  intros G Hs Hown Hst. pose proof G as [G1 G2 G3 G4 G5 G6 G7 G8 G9 G10 G11 G12 G13 G14 G15].
  set (o1 := on_host n _ o). assert (Hk1 : owner_kept o o1) by (apply on_host_kept; intros x _; apply exited_kept).
  assert (Hw1 : owner_wf o1) by by apply Hk1.
  assert (Hk : owner_kept o (status_phase n p o1)) by (etrans; [exact Hk1|apply status_phase_kept]).
  assert (Hhost : ∀ k, host_of k (status_phase n p o1) = if bool_decide (k = n) then (λ x, ho_with_phase p (exited_status remote d x)) <$> host_of k o else host_of k o).
  { intros k. rewrite status_phase_host by done. case_bool_decide as E; [|by apply on_host_other]. subst k.
    unfold host_of, o1. cbn. rewrite bt_get_update, bool_decide_eq_true_2 by (done || apply G1). by destruct (bt_get n _). }
  assert (Hrep : same_reports o (status_phase n p o1)) by apply (status_phase_same_reports n p o1).
  apply (graph_owner_change h o); try done.
  - by eapply same_reports_typed.
  - intros k sk Hsk Hk'. change (owned o k = true) in Hk'. assert (Hn : k ≠ n) by congruence. destruct (G12 k sk Hsk Hk') as [S1 S2]. split.
    + intros x. rewrite Hhost, bool_decide_eq_false_2 by done. apply S1.
    + intros j i'. rewrite status_phase_inst. change (inst_of j o1) with (inst_of j o). destruct (inst_of j o) as [i|] eqn:Ei; [|done].
      cbn. intros [= <-]. case_bool_decide as E; [cbn; congruence|]. by apply (S2 j).
  - eapply (follows_shows o _ n p); [done|done| | |by apply status_phase_shows|done].
    { split; [|apply (status_phase_others n p o1 Hw1)]. intros k Hk'. by rewrite Hhost, bool_decide_eq_false_2. }
    intros k Hk'. by rewrite Hhost, bool_decide_eq_false_2.
  - intros k x. rewrite Hhost. case_bool_decide; [by subst|]. apply G14.
  - intros k x. rewrite Hhost. case_bool_decide; [|apply G15]. subst. destruct (host_of n o) as [x0|] eqn:Ex; [|done].
    intros [= <-] Hp. cbn in Hp. specialize (Hst x0 eq_refl Hp). unfold stopped_truly in *. by rewrite Hs in Hst |- *.
Qed.

(** The process of a host that was not asked to stop is owned; the record of a
    remote host may fail after its client was reaped *)
Definition in_hand (h : Hosted) (o : DeploymentOwner) : Prop :=
  ∀ n s, session_in h n = Some s → ss_stop_deadline s = None → owned o n = true ∨ is_Some (ss_remote s).

Lemma in_hand_but n h o h' o' :
  scope_rel h o h' o' → (∀ k, k ≠ n → owned o' k = owned o k) →
  (∀ s, session_in h' n = Some s → ss_stop_deadline s = None → owned o' n = true ∨ is_Some (ss_remote s)) →
  in_hand h o → in_hand h' o'.
Proof.
  intros Hr Hc Hn Hh k s' Hs' Hd'. destruct (decide (k = n)) as [->|Hne]; [by apply Hn|].
  destruct (scope_rel_old _ _ _ _ k s' Hr Hs') as (s&Hs&Hk). rewrite Hc by done.
  destruct (Hh k s Hs) as [?|Hrem]; [|by left|right; by destruct (sf_remote _ _ Hk)].
  pose proof (sf_deadline _ _ Hk) as Hkd. destruct (ss_stop_deadline s) as [d|]; [|done]. by rewrite (Hkd d) in Hd'.
Qed.
Lemma in_hand_rel h o h' o' : scope_rel h o h' o' → (∀ k, owned o' k = owned o k) → in_hand h o → in_hand h' o'.
Proof.
  intros Hr Hc Hh k s' Hs' Hd'. destruct (scope_rel_old _ _ _ _ k s' Hr Hs') as (s&Hs&Hk). rewrite Hc.
  destruct (Hh k s Hs) as [?|Hrem]; [|by left|right; by destruct (sf_remote _ _ Hk)].
  pose proof (sf_deadline _ _ Hk) as Hkd. destruct (ss_stop_deadline s) as [d|]; [|done]. by rewrite (Hkd d) in Hd'.
Qed.
Lemma in_hand_same h o h' o' : scope_rel h o h' o' → ow_children o' = ow_children o → in_hand h o → in_hand h' o'.
Proof. intros Hr Hc. apply in_hand_rel; [done|]. intros k. unfold owned. by rewrite Hc. Qed.

Record stepped (h : Hosted) (o : DeploymentOwner) (h' : Hosted) (o' : DeploymentOwner) : Prop := {
  rr_exact : graph_exact h' o';
  rr_rel : scope_rel h o h' o';
  rr_aborting f : hd_admission h = AdAborting f → hd_admission h' = AdAborting f;
  rr_hand : in_hand h o → in_hand h' o';
}.

Lemma stepped_refl h o : graph_exact h o → stepped h o h o.
Proof. intros. constructor; [done|apply scope_rel_refl|done..]. Qed.

(** The process leaves the owned ones *)
Lemma graph_release n h o :
  graph_exact h o → owned o n = true → let o' := put_children (bt_remove n (ow_children o)).2 o in
  graph_exact h o' ∧ scope_rel h o h o' ∧ owned o' n = false ∧ ∀ k, k ≠ n → owned o' k = owned o k.
Proof.
  intros E Hn o'. pose proof (ge_base _ _ E) as G. pose proof G as [G1 G2 G3 G4 G5 G6 G7 G8 G9 G10 G11 G12 G13 G14 G15].
  assert (Hown : ∀ k, owned o' k = if bool_decide (k = n) then false else owned o k).
  { intros k. unfold owned, bt_contains, o'. cbn. rewrite bt_get_remove by apply G1. by case_bool_decide. }
  assert (Hsub : ∀ k, owned o' k = true → owned o k = true) by (intros k; rewrite Hown; by case_bool_decide).
  assert (Hk : owner_kept o o') by (apply (put_children_kept (λ m, (bt_remove n m).2)); apply bt_remove_ok).
  assert (Hrel : scope_rel h o h o') by by apply scope_rel_owner.
  split_and!; [|done|by rewrite Hown, bool_decide_eq_true_2|intros k Hk'; by rewrite Hown, bool_decide_eq_false_2].
  eapply graph_exact_rel; [exact E| |exact Hrel|done|apply E|by destruct (hd_admission h)|intros Hr; by split].
  apply (graph_owner_change h o); try done.
  - intros Hf. specialize (G11 Hf). unfold o'. cbn. by rewrite G11.
  - intros k s Hs Hok. by apply (G12 k s); [|apply Hsub].
  - intros k x Hx Hg. specialize (G14 k x Hx Hg). destruct (owned o' k) eqn:Eo; [|done]. apply Hsub in Eo. congruence.
Qed.

Lemma fail_pre_exact n h o : graph_exact h o → fail_pre n h o.
Proof.
  intros [E1 E2 E3 E4 E5 E6 E7 E8]. unfold fail_pre. destruct (hd_admission h) eqn:Ha; try done.
  - split_and!; [by intros k s _; apply E2|done|by apply E4|done].
  - split_and!; [|by apply E7|by intros [? _]%E8]. intros k s Hs. destruct (E2 k s Hs) as [_ Had]. rewrite Ha in Had. by destruct (ss_phase s).
  - split_and!; [|by apply E6|by intros [? _]%E8]. intros k s Hs. destruct (E2 k s Hs) as [_ Had]. rewrite Ha in Had. by destruct (ss_phase s).
Qed.

Lemma same_record_none s s' : same_record (ss_remote s) (ss_remote s') → is_none (ss_remote s') = is_none (ss_remote s).
Proof. by destruct 1. Qed.

Lemma record_exit_spec a n exit s o :
  reserved o s →
  wp (record_exit key a n exit s)
    (λ r st, ∃ rr o', st = (ss_put_remote rr s, o') ∧ same_record (ss_remote s) rr ∧ ow_status o' = ow_status o ∧
      ow_children o' = ow_children o ∧ owner_kept o o' ∧ (an_persist a n = Persisted → r = Ok tt) ∧
      (is_ok r = false → is_Some rr)) (s, o).
Proof.
  intros Hres. unfold record_exit. destruct (ss_remote s) as [record|] eqn:Er; turn_steps.
  - unfold persist_record. turn_steps. set (record' := ro_with_exit _ record).
    destruct (persist key (an_persist a n) record' false o) as [r o2] eqn:Ep. turn_steps.
    destruct (persist_kept key _ _ _ _ _ _ Ep) as (Hst&Hch&Hk&_). exists (Some record'), o2. split_and!; try done; [by constructor|intros Hp].
    clear Hst Hch Hk. destruct (Hres record Er) as (Hid&old&Hold&Hrk). destruct (persist_Ok key (an_persist a n) record' o old) as (o2'&Ho2); [done| | |congruence].
    + cbn. rewrite Hid. exact Hold.
    + exact Hrk.
  - exists None, o. split_and!; try (done || reflexivity || constructor). rewrite <- Er. by destruct s.
Qed.

(** The session ends *)
Definition reaped (s : HostSession) : HostSession :=
  ss_put_phase SpTerminal (ss_put_gate None (ss_put_listening false (ss_put_channel None s))).

Lemma reaped_exact n h o s :
  graph_exact h o → session_in h n = Some s → ending (ss_phase s) = true → owned o n = false →
  graph_exact (with_session n (reaped s) h) o ∧ scope_rel h o (with_session n (reaped s) h) o.
Proof.
  intros E Hs Hend Hoff. pose proof (ge_base _ _ E) as G. pose proof (gb_map _ _ G) as Hm. set (sT := reaped s).
  destruct (gb_session _ _ G n s Hs) as (_&_&[Hb Hh]&_).
  assert (Hok : session_ok sT).
  { split; [|by apply heard_ending]. constructor; try done; [|apply (so_typed _ _ Hb)]. cbn. by rewrite <- (so_stop _ _ Hb), Hend. }
  assert (Hfix : session_fixed s sT).
  { constructor; [|done]. constructor; try (done || apply kept_first_refl || apply same_record_refl). exists []. by rewrite app_nil_r. }
  assert (Hadm : admits (hd_admission h) SpTerminal = true).
  { destruct (ge_settled _ _ E n s Hs) as [_ Had]. by destruct (hd_admission h), (ss_phase s). }
  assert (Hrel : scope_rel h o (with_session n sT h) o) by (apply (scope_rel_with h o n s); (done || by apply sf_kept)).
  split; [|done]. eapply graph_exact_rel; [exact E| |done|done| |by destruct (hd_admission h)|].
  - eapply graph_update; [exact G|exact Hs|done|done|apply owner_rel_refl|apply others_same_refl| |done].
    right. split; [done|]. right. done.
  - eapply (everyone_with h n s sT); [done..| |apply E]. done.
  - intros Hr. split; [done|]. intros Hrun. by rewrite (Hrun n s Hs) in Hend.
Qed.

(** ["Stopped"] is shown of a local host that said so and exited with success *)
Lemma exit_stopped n h s x remote exit :
  let description := match exit with
    | Some e => bytes_of "process exited: " ++ ex_text e
    | None => bytes_of "owned process tree killed after shutdown deadline" end in
  session_in h n = Some s → ss_phase s = SpTerminal → is_none (ss_remote s) = negb remote →
  (if remote then PUnresponsive else exit_phase x exit) = PStopped → stopped_truly h n (exited_status remote description x).
Proof.
  intros description Hs Hph Hrem Hp. unfold stopped_truly. rewrite Hs. destruct remote; [done|].
  assert (Hnone : ss_remote s = None) by by destruct (ss_remote s).
  unfold exit_phase in Hp. destruct (ho_outcome x) as [[| |]|] eqn:Eo; try done.
  destruct (ho_error x) as [e|] eqn:Ee; [done|]. destruct exit as [e|]; [|done]. cbn in Hp. destruct (ex_success e) eqn:Es; [|done].
  unfold exited_status. cbn. rewrite ?Eo, ?Ee. cbn. rewrite ?Eo, ?Ee. split_and!; try done. by exists e.
Qed.

Lemma finish_exit_spec n remote exit h o s :
  let description := match exit with
    | Some e => bytes_of "process exited: " ++ ex_text e
    | None => bytes_of "owned process tree killed after shutdown deadline" end in
  graph_exact h o → known o n → session_in h n = Some s → ending (ss_phase s) = true → owned o n = false →
  is_none (ss_remote s) = negb remote →
  wp (finish_exit n remote exit description)
    (λ r st, r = Ok tt ∧ graph_exact st.1 st.2 ∧ scope_rel h o st.1 st.2 ∧ hd_admission st.1 = hd_admission h ∧
      ow_children st.2 = ow_children o) (h, o).
Proof.
  intros description E Hkn Hs Hend Hoff Hrem. pose proof (ge_base _ _ E) as G. pose proof (gb_map _ _ G) as Hm.
  unfold finish_exit. turn_steps. destruct (gb_host _ _ G n Hkn) as [x Hx]. rewrite Hx. cbn [ok_or]. turn_steps.
  destruct (reaped_exact n h o s E Hs Hend Hoff) as [ET RT]. rewrite wp_on_session by exact Hs. turn_steps. fold (reaped s).
  set (p := if remote then PUnresponsive else exit_phase x exit). set (o4 := status_phase n p (on_host n _ o)).
  assert (G4 : graph_base (with_session n (reaped s) h) o4).
  { apply (graph_exit _ _ n (reaped s)); [apply ET|by rewrite session_in_with, bool_decide_eq_true_2|done|].
    rewrite Hx. intros ? [= <-] Hp. apply (exit_stopped n _ (reaped s)); try done. by rewrite session_in_with, bool_decide_eq_true_2. }
  assert (Hk4 : owner_kept o o4) by (etrans; [apply on_host_kept; intros ? _; apply exited_kept|apply status_phase_kept]).
  assert (R4 : scope_rel h o (with_session n (reaped s) h) o4) by (eapply scope_rel_trans; [exact RT|by apply scope_rel_owner]).
  split_and!; try done. eapply graph_exact_rel; [exact ET|done|by apply scope_rel_owner|done|apply ET| |intros Hr; by split].
  destruct (hd_admission _); try done; intros k; apply (status_phase_same_reports n p (on_host n (exited_status remote description) o)).
Qed.

(** The record of a host whose process is gone *)
Lemma graph_record n h o s rr o' :
  graph_exact h o → session_in h n = Some s → same_record (ss_remote s) rr → ow_status o' = ow_status o →
  ow_children o' = ow_children o → owner_kept o o' →
  graph_exact (with_session n (ss_put_remote rr s) h) o' ∧ scope_rel h o (with_session n (ss_put_remote rr s) h) o'.
Proof.
  intros E Hs Hrr Hst Hch Hk. pose proof (ge_base _ _ E) as G. pose proof (gb_map _ _ G) as Hm.
  destruct (gb_session _ _ G n s Hs) as (_&_&[Hb Hh]&_). set (s1 := ss_put_remote rr s).
  destruct (session_change serialize compatibility s s1) as (Hb1&Hr1&_&Hh1); try done.
  assert (Hf1 : session_fixed s s1) by by apply session_rel_fixed.
  assert (Hrep : same_reports o o') by (intros k; unfold inst_of; by rewrite Hst).
  assert (Hrel : scope_rel h o (with_session n s1 h) o') by (apply (scope_rel_with h o n s); try done; by apply sf_kept).
  split; [|done]. eapply graph_exact_rel; [exact E| |done|done| |by destruct (hd_admission h)|].
  - eapply graph_update; [exact G|exact Hs|by split; [|apply Hh1]|done| | |right; split; [done|by left]|done].
    + apply owner_rel_plain; [done|done|by rewrite Hst|..]; intros; unfold inst_of, host_of; by rewrite Hst.
    + apply same_phases_others. split; intros k; unfold host_of, inst_of; by rewrite Hst.
  - pose proof (ge_settled _ _ E n s Hs) as Hset. eapply (everyone_with h n s s1); [done..| |apply E]. done.
  - rewrite Hst. intros Hr. split; [done|]. by apply (everyone_with h n s s1).
Qed.

Lemma reap_host_spec a n exit h o s :
  graph_exact h o → session_in h n = Some s → owned o n = true →
  wp (reap_host serialize key a n exit s)
    (λ r st, stepped h o st.1 st.2 ∧ owned st.2 n = false ∧ (∀ k, k ≠ n → owned st.2 k = owned o k) ∧
      (an_persist a n = Persisted → r = Ok tt)) (h, o).
Proof.
  intros E Hs Hown. pose proof (ge_base _ _ E) as G. destruct (gb_session _ _ G n s Hs) as (Hkn&_&[Hb _]&Hres).
  unfold reap_host. turn_steps. destruct (graph_release n h o E Hown) as (E1&Hrel1&Hoff1&Hothers1).
  set (o1 := put_children _ o) in *. rewrite wp_on_session by done.
  eapply wp_mono; [by apply (record_exit_spec a n exit s o1)|]. intros r st (rr&o2&->&Hrr&Hst2&Hch2&Hk2&Hpr&Hrem). cbn [fst snd]. turn_steps.
  set (s1 := ss_put_remote rr s). destruct (graph_record n h o1 s rr o2 E1 Hs Hrr Hst2 Hch2 Hk2) as [E2 R2]. fold s1 in E2, R2.
  set (h1 := with_session n s1 h) in *. assert (Hs1 : session_in h1 n = Some s1) by (unfold h1; rewrite session_in_with by apply G; by rewrite bool_decide_eq_true_2).
  assert (Hrel : scope_rel h o h1 o2) by by eapply scope_rel_trans.
  assert (Hown2 : ∀ o3, ow_children o3 = ow_children o2 → owned o3 n = false ∧ ∀ k, k ≠ n → owned o3 k = owned o k).
  { intros o3 Hc. unfold owned in *. rewrite Hc, Hch2. by split. }
  destruct r as [[]|e].
  2:{ turn_steps. destruct (Hown2 o2 eq_refl). split_and!; [constructor; try done|done..]. apply (in_hand_but n h o); [done..|].
      intros s2. rewrite Hs1. intros [= <-] _. right. by apply Hrem. }
  clear Hpr. turn_steps.
  assert (Hfinish : ∀ h3 o3 description, description = match exit with
      | Some x => bytes_of "process exited: " ++ ex_text x
      | None => bytes_of "owned process tree killed after shutdown deadline" end →
    graph_exact h3 o3 → scope_rel h1 o2 h3 o3 → ow_children o3 = ow_children o2 →
    (∀ s3, session_in h3 n = Some s3 → ending (ss_phase s3) = true) →
    (∀ f, hd_admission h = AdAborting f → hd_admission h3 = AdAborting f) →
    wp (finish_exit n (negb (is_none (ss_remote s))) exit description)
    (λ r st, stepped h o st.1 st.2 ∧ owned st.2 n = false ∧ (∀ k, k ≠ n → owned st.2 k = owned o k) ∧ (an_persist a n = Persisted → r = Ok tt)) (h3, o3)).
  { intros h3 o3 ? -> E3 R3 Hch3 Hend Hab. destruct (scope_rel_get _ _ _ _ n s1 R3 Hs1) as (s3&Hs3&Hfx3).
    assert (R03 : scope_rel h o h3 o3) by by eapply scope_rel_trans. destruct (Hown2 o3 Hch3) as [Hoff3 Hoth3].
    eapply wp_mono; [apply (finish_exit_spec n _ exit h3 o3 s3); try done|].
    - unfold known. destruct (sc_owner _ _ _ _ R03 (gb_wf _ _ G)) as [_ Hfk]. by rewrite (fk_desired _ _ Hfk).
    - by apply Hend.
    - rewrite negb_involutive. rewrite (same_record_none s1 s3) by apply Hfx3. by rewrite (same_record_none s s1) by done.
    - intros r [h4 o4] (->&E4&R4&Ha4&Hc4). cbn [fst snd] in *. rewrite Hch3 in Hc4. destruct (Hown2 o4 Hc4) as [Hoff4 Hoth4].
      assert (R04 : scope_rel h o h4 o4) by by eapply scope_rel_trans.
      split_and!; try done. constructor; [done..|intros f Hf; rewrite Ha4; by apply Hab|]. apply (in_hand_but n h o); [done..|].
      intros s4 Hs4 Hd4. exfalso. destruct (scope_rel_old _ _ _ _ n s4 R4 Hs4) as (s3'&Hs3'&Hk4). pose proof (Hend _ Hs3') as He3.
      destruct (gb_session _ _ (ge_base _ _ E3) n s3' Hs3') as (_&_&[Hb3 _]&_). rewrite (so_stop _ _ Hb3) in He3.
      pose proof (sf_deadline _ _ Hk4) as Hkd. destruct (ss_stop_deadline s3') as [d3|]; [|done]. by rewrite (Hkd d3) in Hd4. }
  destruct (ss_stop_deadline s) as [d|] eqn:Ed; cbn [is_none].
  - rewrite wp_ret. apply Hfinish; [done|done|apply scope_rel_refl|done| |done]. intros s3. rewrite Hs1. intros [= <-].
    cbn. by rewrite (so_stop _ _ Hb), Ed.
  - eapply wp_mono; [apply fail_host_spec; [apply E2| | |by apply fail_pre_exact]|].
    + unfold known. destruct (sc_owner _ _ _ _ Hrel (gb_wf _ _ G)) as [_ Hfk]. by rewrite (fk_desired _ _ Hfk).
    + intros x. unfold host_of. rewrite Hst2. intros Hx. destruct (gb_shows _ _ G n s Hs Hown) as [S1 _]. rewrite (S1 x Hx). by destruct (ss_phase s).
    + intros r [h3 o3] (->&[F1 F2 F3 F4 F5]). cbn [fst snd] in *. apply Hfinish; try done. intros f Hf. by apply F5.
Qed.

(** The system answers, and stopping needs no more *)
Record answers_fine (a : Answers) (n : str) : Prop := {
  af_exit : is_ok (an_exit a n) = true;
  af_kill : an_kill a n = Ok tt;
  af_persist : an_persist a n = Persisted;
}.
Definition expired (a : Answers) (s : HostSession) : Prop := ∃ d, ss_stop_deadline s = Some d ∧ (d ≤ an_now a)%Z.

Lemma observe_exit_spec a n h o s :
  graph_exact h o → session_in h n = Some s → owned o n = true →
  wp (observe_exit serialize key a n)
    (λ r st, stepped h o st.1 st.2 ∧ (∀ k, k ≠ n → owned st.2 k = owned o k) ∧
      (answers_fine a n → r = Ok tt ∧ (expired a s → owned st.2 n = false))) (h, o).
Proof.
  intros E Hs Hown. unfold observe_exit. turn_steps. change (bt_get n (hd_sessions h)) with (session_in h n). rewrite Hs. cbn [ok_or].
  turn_steps. pose proof Hown as Hget. unfold owned, bt_contains in Hget. destruct (bt_get n (ow_children o)) as [c|]; [|done].
  cbn [ok_or]. turn_steps.
  assert (Hnone : ∀ r : result unit str, (answers_fine a n → r = Ok tt ∧ (expired a s → False)) → stepped h o h o ∧ (∀ k, k ≠ n → owned o k = owned o k) ∧
      (answers_fine a n → r = Ok tt ∧ (expired a s → owned o n = false))).
  { intros r Hr. split_and!; [by apply stepped_refl|done|]. intros Hf. destruct (Hr Hf) as [? Hx]. split; [done|]. intros He. by destruct Hx. }
  destruct (an_exit a n) as [exit|e] eqn:Eexit; turn_steps.
  2:{ apply Hnone. intros [Hx _ _]. by rewrite Eexit in Hx. }
  destruct (is_none exit && _) eqn:Ew; turn_steps.
  - apply Hnone. intros _. split; [done|]. intros (d&Hd&Hle). rewrite Hd in Ew.
    apply andb_true_iff in Ew as [_ Ew]. apply negb_true_iff, Z.leb_gt in Ew. lia.
  - destruct (an_kill a n) as [[]|e] eqn:Ekill; turn_steps; [|apply Hnone; intros [_ Hk _]; congruence].
    eapply wp_mono; [by apply reap_host_spec|]. intros r st (H1&H2&H3&H4). split_and!; [done|done|].
    intros [_ _ Hp]. split; [by apply H4|done].
Qed.

(** ** The turn of one host *)

Lemma owned_not_stopped n h o x :
  graph_base h o → owned o n = true → host_of n o = Some x → ho_phase x ≠ PStopped.
Proof. intros G Hown Hx Hp. pose proof (gb_gone _ _ G n x Hx) as Hg. rewrite Hp in Hg. by rewrite Hg in Hown. Qed.

(** A failure of [n] is handled however [n] changes *)
Lemma fail_pre_update n h o s s' o' :
  bt_ok (hd_sessions h) → session_in h n = Some s → fail_pre n h o → session_kept s s' →
  (ending (ss_phase s) = true → ending (ss_phase s') = true) → ow_desired o' = ow_desired o → ow_children o' = ow_children o →
  ds_phase (ow_status o') = ds_phase (ow_status o) →
  (match hd_admission h with AdActive => same_reports o o' | _ => True end) → fail_pre n (with_session n s' h) o'.
Proof.
  intros Hm Hs Hpre Hf He Hd Hc Hph Hr. unfold fail_pre in *. change (hd_admission (with_session n s' h)) with (hd_admission h). destruct (hd_admission h) eqn:Ha; try done.
  - destruct Hpre as (H1&H2&H3&H4). split_and!.
    + intros k sk Hk. rewrite session_in_with, bool_decide_eq_false_2 by done. intros Hsk. destruct (H1 k sk Hk Hsk) as [? ?]. by split.
    + by eapply graph_valid_same.
    + eapply everyone_with; [done..| |done]. intros (?&?&?). split_and!; by eapply fixed_heard.
    + intros k. unfold known. rewrite Hd. intros Hk. rewrite session_in_with by done. case_bool_decide; [by eexists|by apply H4].
  - destruct Hpre as (Hpre&?&?). rewrite Hph. split_and!; [by eapply everyone_with|done..].
  - destruct Hpre as (Hpre&?&?). rewrite Hph, Hc. split_and!; [by eapply everyone_with|done..].
Qed.

(** A session alone changes, and no phase *)
Lemma graph_session h o n s s' :
  graph_base h o → session_in h n = Some s → session_ok s' → session_fixed s s' → ss_phase s' = ss_phase s →
  graph_base (with_session n s' h) o.
Proof.
  intros G Hs Hok Hf Hp. eapply graph_update; [exact G|exact Hs|done|done|apply owner_rel_refl|apply others_same_refl| |done].
  right. split; [done|by left].
Qed.

Lemma unsent_early h o n s :
  graph_exact h o → session_in h n = Some s → sent h 2 → ss_phase s ∉ [SpAuthenticating; SpPreparing].
Proof.
  intros E Hs (k&sk&c&Hk&Hc&Ht) Hp. destruct (ge_settled _ _ E n s Hs) as [_ Ha]. destruct (ge_settled _ _ E k sk Hk) as [Hx Ha'].
  specialize (Hx c Hc). assert (Had : hd_admission h = AdPreparing) by (destruct (hd_admission h), (ss_phase s); set_solver).
  rewrite Had in Ha'. destruct (ss_phase sk); try done; cbn in Hx; rewrite Hx in Ht; set_solver.
Qed.

Lemma settled_after_poll h s s' :
  settled h s → session_exact s' → moves (ss_phase s) (ss_phase s') →
  (ss_phase s' = SpTerminal → ending (ss_phase s) = true) → settled h s'.
Proof.
  intros [_ Ha] Hx Hm Ht. split; [done|]. unfold moves in Hm. destruct (hd_admission h), (ss_phase s); try done;
    destruct (ss_phase s'); try done; (discriminate (Ht eq_refl) || (exfalso; clear -Hm; set_solver)).
Qed.

Record turned (n : str) (h : Hosted) (o : DeploymentOwner) (h' : Hosted) (o' : DeploymentOwner) : Prop := {
  tu_base : graph_base h' o';
  tu_pre : fail_pre n h' o';
  tu_rel : scope_rel h o h' o';
  tu_children : ow_children o' = ow_children o;
  tu_admission : ∀ f, hd_admission h = AdAborting f → hd_admission h' = AdAborting f;
}.

(** The codec gives typed messages. *)
Context (unique : list Z → bool) (parse : list Z → option (Envelope HostMessage)) (display : ReportError → str).
Hypothesis Hparse : ∀ bytes e, parse bytes = Some e → message_typed (ev_body e).

Lemma poll_turned a n h o s :
  answers_ok a → graph_exact h o → session_in h n = Some s → owned o n = true →
  wp (on_session n (bytes_of "missing host session") (session_poll serialize unique parse compatibility display key a))
    (λ r st, ∃ polled s', r = Ok polled ∧ turned n h o st.1 st.2 ∧ session_in st.1 n = Some s' ∧
      (polled = Ok tt → ss_failure s' = None → graph_exact st.1 st.2)) (h, o).
Proof.
  intros Ha E Hs Hown. pose proof (ge_base _ _ E) as G. destruct (gb_session _ _ G n s Hs) as (Hkn&Hnm&Hok&_).
  rewrite wp_on_session by done. eapply wp_mono.
  { apply (session_poll_spec serialize unique parse compatibility display key Hparse); [done| |].
    - constructor; cbn; [done|apply G|apply G|]. rewrite Hnm. by apply (gb_shows _ _ G).
    - by apply (ge_settled _ _ E n). }
  intros r [s' o'] (Hok'&[Hrel Hor Hoth]&Hx). cbn [fst snd] in *. pose proof (gb_map _ _ G) as Hm.
  destruct Hok' as [Hs' Hw' Ht' Hsh']. cbn [fst snd] in *. pose proof (session_rel_fixed _ _ Hrel) as Hfx.
  assert (Hnm' : host_name s' = n) by (unfold host_name; rewrite (sl_identity _ _ Hrel); apply Hnm). rewrite Hnm, Hnm' in *.
  assert (Hrep : ss_phase s ∉ [SpAuthenticating; SpPreparing] → same_reports o o') by (intros Hp; by apply (or_reports _ _ _ Hor); [|apply G]).
  assert (G' : graph_base (with_session n s' h) o').
  { eapply graph_update; try done; [by left|]. intros Hsent. apply Hrep. by eapply unsent_early. }
  assert (Hrel' : scope_rel h o (with_session n s' h) o') by (apply (scope_rel_with h o n s); (done || apply Hor || by apply sf_kept)).
  exists r, s'. split_and!; [done| |by rewrite session_in_with, bool_decide_eq_true_2|].
  - constructor; try done; [|apply Hor]. eapply fail_pre_update; [done|exact Hs|by apply fail_pre_exact|by apply sf_kept| | |apply Hor|apply Hor|].
    + apply moves_ending, Hrel.
    + apply (or_kept _ _ _ Hor), G.
    + destruct (hd_admission h) eqn:Had; try done. apply Hrep. destruct (ge_settled _ _ E n s Hs) as [_ Hadm].
      rewrite Had in Hadm. destruct (ss_phase s); try done; set_solver.
  - intros -> Hfail. eapply graph_exact_rel; [exact E|done|done|done| | |].
    + intros k sk. rewrite session_in_with by done. case_bool_decide; [|apply E]. intros [= <-].
      apply (settled_after_poll h s s'); [by apply (ge_settled _ _ E n)|by apply Hx|apply Hrel|]. intros Hp.
      destruct (ending (ss_phase s)) eqn:Ee; [done|]. destruct (sl_terminal _ _ Hrel Hp Ee) as [? ?]. congruence.
    + destruct (hd_admission h) eqn:Had; try done; apply Hrep; destruct (ge_settled _ _ E n s Hs) as [_ Hadm];
        rewrite Had in Hadm; destruct (ss_phase s); try done; set_solver.
    + rewrite (or_phase _ _ _ Hor). intros Hr. split; [done|]. intros Hrun. apply (everyone_with h n s s'); try done. intros Hp.
      destruct (sl_moves _ _ Hrel) as [->|[Ht|[[Hin _]|[[Ht _]|[Ht _]]]]]; [done| |rewrite Hp in Hin; set_solver|congruence..].
      destruct (sl_terminal _ _ Hrel Ht); [by rewrite Hp|congruence].
Qed.

Lemma turned_session n h o h1 o1 s s' :
  turned n h o h1 o1 → session_in h1 n = Some s → session_ok s' → session_fixed s s' → ss_phase s' = ss_phase s →
  turned n h o (with_session n s' h1) o1 ∧
  (session_exact s' → graph_exact h1 o1 → graph_exact (with_session n s' h1) o1).
Proof.
  intros [T1 T2 T3 T4 T5] Hs Hok Hf Hp. pose proof (gb_map _ _ T1) as Hm.
  assert (G : graph_base (with_session n s' h1) o1) by by eapply graph_session.
  assert (Hr : scope_rel h1 o1 (with_session n s' h1) o1) by (apply (scope_rel_with h1 o1 n s); (done || by apply sf_kept)).
  split; [constructor; try done|].
  - eapply fail_pre_update; [done|exact Hs|done|by apply sf_kept|by rewrite Hp|done|done|done|by destruct (hd_admission h1)].
  - by eapply scope_rel_trans.
  - intros Hx E. eapply graph_exact_rel; [exact E|done|done|done| |by destruct (hd_admission h1)|].
    2:{ intros Hrdy. split; [done|]. apply (everyone_with h1 n s s'); try done. by rewrite Hp. }
    intros k sk. rewrite session_in_with by done. case_bool_decide; [|apply E]. intros [= <-].
    destruct (ge_settled _ _ E n s Hs) as [_ Ha]. split; [done|]. by rewrite Hp.
Qed.

Lemma fail_turned now n e h o h1 o1 :
  turned n h o h1 o1 → owned o n = true →
  wp (fail_host serialize now n e) (λ r st, r = Ok tt ∧ turned n h o st.1 st.2 ∧ graph_exact st.1 st.2) (h1, o1).
Proof.
  intros [T1 T2 T3 T4 T5] Hown. assert (Hown1 : owned o1 n = true) by (unfold owned in *; by rewrite T4).
  destruct (gb_children _ _ T1 n Hown1) as [s1 Hs1]. destruct (gb_session _ _ T1 n s1 Hs1) as (Hkn&_).
  eapply wp_mono; [apply fail_host_spec; [done|done| |done]|].
  { intros x Hx. by eapply owned_not_stopped. }
  intros r [h2 o2] (->&[F1 F2 F3 F4 F5]). cbn [fst snd] in *. split_and!; [done| |done]. constructor.
  - apply F1.
  - by apply fail_pre_exact.
  - by eapply scope_rel_trans.
  - by rewrite F3.
  - intros f Hf. by apply F5, T5.
Qed.

Lemma failure_taken n h o h1 o1 s :
  turned n h o h1 o1 → session_in h1 n = Some s →
  wp (on_session n (bytes_of "missing host session") (let* s := session in set_session (ss_put_failure None) ;;; ret (ss_failure s)))
    (λ r st, r = Ok (ss_failure s) ∧ turned n h o st.1 st.2 ∧ (graph_exact h1 o1 → graph_exact st.1 st.2)) (h1, o1).
Proof.
  intros T Hs. rewrite wp_on_session by done. turn_steps. split; [done|].
  destruct (gb_session _ _ (tu_base _ _ _ _ _ T) n s Hs) as (_&_&[[B1 B2 B3 B4] Hh]&_).
  destruct (turned_session n h o h1 o1 s (ss_put_failure None s) T Hs) as [T' E']; [split; [by constructor|done]|destruct (session_fixed_refl s) as [[] ?]; constructor; [by constructor|done]|done|].
  split; [done|]. intros E. apply E'; [|done]. destruct (ge_settled _ _ E n s Hs) as [Hx _]. exact Hx.
Qed.

Lemma channel_dropped n h o h1 o1 s :
  turned n h o h1 o1 → session_in h1 n = Some s →
  wp (on_session n (bytes_of "missing host session") (set_session (ss_put_channel None)))
    (λ r st, r = Ok tt ∧ turned n h o st.1 st.2) (h1, o1).
Proof.
  intros T Hs. rewrite wp_on_session by done. turn_steps. split; [done|].
  destruct (gb_session _ _ (tu_base _ _ _ _ _ T) n s Hs) as (_&_&[[B1 B2 B3 B4] Hh]&_).
  apply (turned_session n h o h1 o1 s (ss_put_channel None s) T Hs); [split; [|done]|  |done].
  - constructor; try done. intros Hl. destruct (B2 Hl). by split.
  - constructor; [|done]. constructor; try (done || apply kept_first_refl || apply same_record_refl). exists []. by rewrite app_nil_r.
Qed.

(** What "Ready" says between steps *)
Lemma ready_runs h o : graph_exact h o → in_hand h o → ds_phase (ow_status o) = DpReady → all_running h o.
Proof.
  intros E Hh Hr. pose proof (ge_base _ _ E) as G. destruct (ge_ready _ _ E Hr) as [Ha Hrun]. split; [done|]. intros n Hkn.
  destruct (gb_ready _ _ G Hr) as [Hsaid Hall]. destruct (Hall n Hkn) as [s Hs]. exists s. split; [done|].
  pose proof (Hrun n s Hs) as Hp. destruct (gb_session _ _ G n s Hs) as (_&_&[Hb _]&_).
  assert (Hd : ss_stop_deadline s = None).
  { pose proof (so_stop _ _ Hb) as Hstop. rewrite Hp in Hstop. by destruct (ss_stop_deadline s). }
  constructor; [by apply (Hsaid n)|done|done|]. destruct (owned o n) eqn:Ho.
  - left. split; [done|]. pose proof (gb_shows _ _ G n s Hs Ho) as Hsh. by rewrite Hp in Hsh.
  - right. split; [done|]. destruct (Hh n s Hs Hd); [congruence|done].
Qed.

Lemma tick_host_spec a n h o :
  answers_ok a → graph_exact h o →
  wp (tick_host serialize unique parse compatibility display key a n)
    (λ r st, stepped h o st.1 st.2 ∧ (∀ k, k ≠ n → owned st.2 k = owned o k) ∧
      (answers_fine a n → r = Ok tt ∧ ((∀ s, session_in h n = Some s → expired a s) → owned st.2 n = false))) (h, o).
Proof.
  intros Ha E. unfold tick_host. turn_steps. change (bt_contains n (ow_children o)) with (owned o n).
  destruct (owned o n) eqn:Hown; cbn [negb]; turn_steps.
  2:{ split_and!; [by apply stepped_refl|done|]. intros _. by split. }
  destruct (gb_children _ _ (ge_base _ _ E) n Hown) as [s Hs].
  eapply wp_mono; [by apply (poll_turned a n h o s)|]. intros r [h1 o1] (polled&s1&->&T1&Hs1&Hx1). cbn [fst snd] in *.
  rewrite wp_bind_try. eapply wp_mono; [by apply (failure_taken n h o h1 o1 s1)|]. intros r [h2 o2] (->&T2&Hx2). cbn [fst snd] in *.
  rewrite wp_bind_try. apply (wp_mono _ (λ r st, r = Ok tt ∧ turned n h o st.1 st.2 ∧ (polled = Ok tt → graph_exact st.1 st.2))).
  { destruct (ss_failure s1) as [e|] eqn:Ef.
    - eapply wp_mono; [by apply fail_turned|]. intros r st (->&?&?). by split_and!.
    - turn_steps. split_and!; [done|done|]. intros Hp. auto. }
  intros r [h3 o3] (->&T3&Hx3). cbn [fst snd] in *.
  assert (Hown3 : ∀ h4 o4, turned n h o h4 o4 → owned o4 n = true) by (intros h4 o4 T; unfold owned in *; by rewrite (tu_children _ _ _ _ _ T)).
  rewrite wp_bind_try. apply (wp_mono _ (λ r st, r = Ok tt ∧ turned n h o st.1 st.2 ∧ graph_exact st.1 st.2)).
  { destruct polled as [[]|e]; [turn_steps; split_and!; auto|].
    destruct (gb_children _ _ (tu_base _ _ _ _ _ T3) n (Hown3 _ _ T3)) as [s3 Hs3].
    rewrite wp_bind_try. eapply wp_mono; [by apply (channel_dropped n h o h3 o3 s3)|]. intros r [h4 o4] (->&T4). by apply fail_turned. }
  intros r [h4 o4] (->&[T4 _ T6 T7 T8]&E4). cbn [fst snd] in *.
  assert (Hown4 : owned o4 n = true) by (unfold owned in *; by rewrite T7).
  destruct (scope_rel_get _ _ _ _ n s T6 Hs) as (s4&Hs4&Hf4).
  eapply wp_mono; [by apply (observe_exit_spec a n h4 o4 s4)|]. intros r [h5 o5] ([R1 R2 R3 R5]&Hk&Hfine). cbn [fst snd] in *. split_and!.
  - constructor; [done|by eapply scope_rel_trans|auto|]. intros Hh. apply R5. by apply (in_hand_same h o).
  - intros k Hne. rewrite Hk by done. unfold owned. by rewrite T7.
  - intros Haf. destruct (Hfine Haf) as [-> Hgone]. split; [done|]. intros Hexp. apply Hgone.
    destruct (Hexp s Hs) as (d&Hd&Hle). exists d. split; [|done]. by apply (sf_deadline _ _ Hf4).
Qed.

(** ** The admission moves on *)

(** What a commit or a run promises *)
Definition promised (body : OwnerMessage) (h : Hosted) (o : DeploymentOwner) : Prop :=
  match body with
  | OwnerCommit => graph_valid o ∧ everyone h was_prepared
  | OwnerRun => everyone h (λ s, HostCommitted ∈ ss_heard s)
  | _ => False
  end.
(** A session that is ready for it *)
Definition ready_for (body : OwnerMessage) (s : HostSession) : Prop :=
  ss_stop_deadline s = None ∧ ss_listening s = false ∧ ∀ c, ss_channel s = Some c → log c = lifecycle (tag body).

Lemma promised_tag body h o : promised body h o → (body = OwnerCommit ∧ tag body = 2) ∨ (body = OwnerRun ∧ tag body = 3).
Proof. destruct body; try done; [by left|by right]. Qed.

Lemma queue_host_spec now body n h o s :
  graph_base h o → session_in h n = Some s → promised body h o → ready_for body s →
  wp (try* r := on_session n [] (queue_message serialize now (bytes_of "host channel lost before admission") body) in ret r)
    (λ r st, ∃ s', st = (with_session n s' h, o) ∧ graph_base (with_session n s' h) o ∧ session_kept s s' ∧
      ss_phase s' = ss_phase s ∧ (r = Ok tt → ∀ c, ss_channel s' = Some c → log c = lifecycle (S (tag body)))) (h, o).
Proof.
  intros G Hs Hpr (Hd&Hl&Hlog). destruct (gb_session _ _ G n s Hs) as (Hkn&Hnm&[Hb Hh]&_). pose proof (gb_map _ _ G) as Hm.
  rewrite wp_bind_try, wp_on_session by done. eapply wp_mono; [by apply (queue_message_spec serialize)|].
  intros r st (ch&->&Hq). cbn [fst snd]. turn_steps. set (s' := ss_put_channel ch s).
  assert (Hk : session_kept s s').
  { constructor; try (done || apply kept_first_refl || apply same_record_refl). exists []. by rewrite app_nil_r. }
  pose proof (promised_tag _ _ _ Hpr) as Htag.
  assert (Hok : session_ok s').
  { split; [|done]. eapply queued_base; [done|done|exact Hq|]. intros c Hc. rewrite Hd, (Hlog c Hc). exists (S (tag body)).
    split; [destruct Htag as [[_ ->]|[_ ->]]; lia|left]. unfold lifecycle. by rewrite seq_S. }
  assert (Hsub : ∀ c', ch = Some c' → ∃ c, ss_channel s = Some c ∧ log c = lifecycle (tag body) ∧
      (log c' = lifecycle (S (tag body)) ∨ log c' = log c ∧ is_ok r = false)).
  { intros c' ->. unfold queued in Hq. destruct (ss_channel s) as [c|]; [|by destruct Hq]. destruct Hq as (?&[= <-]&_&_&Hlc).
    exists c. split; [done|]. specialize (Hlog c eq_refl). split; [done|]. destruct Hlc as [->|?]; [left|by right].
    rewrite Hlog. unfold lifecycle. by rewrite seq_S. }
  assert (Hsent : ∀ t, sent (with_session n s' h) t → sent h t ∨ t = tag body).
  { intros t (k&sk&c'&Hk'&Hc'&Ht). rewrite session_in_with in Hk' by done. case_bool_decide; [|by left; exists k, sk, c'].
    injection Hk' as <-. destruct (Hsub c' Hc') as (c&Hc&Hlc&Hor). assert (Hin : t ∈ log c ∨ t = tag body).
    { destruct Hor as [E|[E _]]; rewrite E in Ht; [|by left]. unfold lifecycle in Ht. rewrite seq_S, elem_of_app, list_elem_of_singleton in Ht.
      by rewrite Hlc. }
    destruct Hin; [left; by exists n, s, c|by right]. }
  assert (Hprom : (body = OwnerCommit → graph_valid o ∧ everyone h was_prepared) ∧ (body = OwnerRun → everyone h (λ s, HostCommitted ∈ ss_heard s))).
  { by split; intros ->. }
  destruct Hprom as [Hp2 Hp3]. exists s'. split_and!; try done.
  - apply (graph_update_gen h o n s); try (done || apply owner_rel_refl || apply others_same_refl); [right; split; [done|by left]| |].
    + intros [Hst|E]%Hsent; [by apply (gb_commit _ _ G)|]. apply Hp2. destruct Htag as [[? _]|[_ E']]; [done|]. rewrite E' in E. lia.
    + intros [Hst|E]%Hsent; [by apply (gb_run _ _ G)|]. apply Hp3. destruct Htag as [[_ E']|[? _]]; [|done]. rewrite E' in E. lia.
  - intros -> c' Hc'. destruct (Hsub c' Hc') as (c&_&_&[?|[_ ?]]); done.
Qed.

Record sent_post (l : list str) (body : OwnerMessage) (h : Hosted) (o : DeploymentOwner) (r : result unit str) (h' : Hosted) : Prop := {
  sn_base : graph_base h' o;
  sn_rel : scope_rel h o h' o;
  sn_admission : hd_admission h' = hd_admission h;
  sn_phases n s' : session_in h' n = Some s' → ∃ s, session_in h n = Some s ∧ ss_phase s' = ss_phase s;
  sn_others n : n ∉ l → session_in h' n = session_in h n;
  sn_logs n s' c : r = Ok tt → n ∈ l → session_in h' n = Some s' → ss_channel s' = Some c → log c = lifecycle (S (tag body));
}.

Lemma promised_kept body h o h' : scope_rel h o h' o → promised body h o → promised body h' o.
Proof.
  intros Hr. destruct body; try done.
  - intros [? He]. split; [done|]. eapply everyone_fixed; [exact Hr| |exact He]. intros s s'. apply fixed_heard.
  - intros He. eapply everyone_fixed; [exact Hr| |exact He]. intros s s'. apply fixed_heard.
Qed.

Lemma send_hosts_spec now body l h o :
  graph_base h o → NoDup l → (∀ n, n ∈ l → ∃ s, session_in h n = Some s ∧ ready_for body s) → promised body h o →
  wp (try_each (λ name, try* r := on_session name [] (queue_message serialize now (bytes_of "host channel lost before admission") body) in ret r) l)
    (λ r st, st.2 = o ∧ sent_post l body h o r st.1) (h, o).
Proof.
  revert h. induction l as [|n l IH]; intros h G Hnd Hall Hpr; cbn [try_each].
  { turn_steps. split; [done|]. constructor; try done; [apply scope_rel_refl|intros n s Hs; by exists s|]. intros n ? ? _ Hn. by apply elem_of_nil in Hn. }
  apply NoDup_cons in Hnd as [Hn Hnd]. destruct (Hall n) as (s&Hs&Hrd); [by left|]. pose proof (gb_map _ _ G) as Hm.
  rewrite wp_bind_try. eapply wp_mono; [by apply queue_host_spec|]. intros r st (s'&->&G'&Hk&Hph&Hl').
  assert (Hrel : scope_rel h o (with_session n s' h) o) by by apply (scope_rel_with h o n s).
  assert (Hpost : ∀ r0, r0 ≠ Ok tt → sent_post (n :: l) body h o r0 (with_session n s' h)).
  { intros r0 Hr0. constructor; try done.
    - intros k sk. rewrite session_in_with by done. case_bool_decide; [|intros ?; by exists sk]. intros [= <-]. subst. by exists s.
    - intros k Hk'. rewrite session_in_with by done. case_bool_decide; set_solver. }
  destruct r as [[]|e]; [|split; [done|by apply Hpost]].
  eapply wp_mono; [apply IH; [done|done| |by eapply promised_kept]|].
  { intros k Hkl. assert (k ≠ n) by (intros ->; done). rewrite session_in_with, bool_decide_eq_false_2 by done. apply Hall. by right. }
  intros r [h2 o2] (E&[S1 S2 S3 S4 S5 S6]). cbn [fst snd] in *. subst o2. split; [done|]. constructor; try done.
  - by eapply scope_rel_trans.
  - intros k sk Hsk. destruct (S4 k sk Hsk) as (s0&Hs0&E0). rewrite session_in_with in Hs0 by done. case_bool_decide; [|by exists s0].
    injection Hs0 as <-. subst. exists s. split; [done|congruence].
  - intros k Hk'. rewrite S5 by set_solver. rewrite session_in_with by done. case_bool_decide; set_solver.
  - intros k sk c Hr Hin Hsk Hc. destruct (decide (k ∈ l)) as [Hkl|Hkl]; [by eapply S6|]. assert (k = n) as -> by set_solver.
    rewrite S5 in Hsk by done. rewrite session_in_with, bool_decide_eq_true_2 in Hsk by done. injection Hsk as <-. by apply Hl'.
Qed.

Lemma session_in_phases p h n : session_in (put_phases p h) n = ss_put_phase p <$> session_in h n.
Proof. unfold session_in, put_phases. cbn. apply (bt_get_fmap (ss_put_phase p)). Qed.

(** All sessions take the next phase, which looks the same *)
Definition next_phase (q p : SessionPhase) : Prop := q = SpPrepared ∧ p = SpCommitting ∨ q = SpCommitted ∧ p = SpActivating.

Lemma next_phase_ok q p s :
  next_phase q p → ss_phase s = q → session_ok s → session_ok (ss_put_phase p s).
Proof.
  intros Hn Hq [[B1 B2 B3 B4] (H1&H2&H3&H4&H5)].
  assert (Hf : q ≠ SpAuthenticating ∧ ending q = false ∧ ending p = false ∧ p ≠ SpAuthenticating) by by destruct Hn as [[-> ->]|[-> ->]].
  destruct Hf as (F1&F2&F3&F4). split.
  - constructor; cbn; [done| |by rewrite F3, <- B3, Hq|done]. intros Hl. destruct (B2 Hl). congruence.
  - rewrite Hq in *. unfold heard_exact. cbn. split_and!; [done|intros _ _; by apply H2|..]; intros Hin.
    + apply H3. destruct Hn as [[-> _]|[-> _]]; set_solver.
    + apply H4. destruct Hn as [[_ ->]|[-> _]]; set_solver.
    + by destruct Hn as [[_ ->]|[_ ->]].
Qed.

Lemma graph_phases q p h o :
  next_phase q p → graph_base h o → everyone h (λ s, ss_phase s = q) → graph_base (put_phases p h) o.
Proof.
  intros Hn [G1 G2 G3 G4 G5 G6 G7 G8 G9 G10 G11 G12 G13 G14 G15] Hq.
  assert (Hold : ∀ n s', session_in (put_phases p h) n = Some s' → ∃ s, session_in h n = Some s ∧ s' = ss_put_phase p s).
  { intros n s'. rewrite session_in_phases. destruct (session_in h n) as [s|]; [|done]. intros [= <-]. by exists s. }
  assert (Hsent : ∀ t, sent (put_phases p h) t → sent h t).
  { intros t (n&s'&c&(s&Hs&->)%Hold&Hc&Ht). by exists n, s, c. }
  assert (He : ∀ P : HostSession → Prop, (∀ s, P s → P (ss_put_phase p s)) → everyone h P → everyone (put_phases p h) P).
  { intros P HP Hev n s' (s&Hs&->)%Hold. by apply HP, (Hev n). }
  constructor; try done.
  - by apply bt_ok_fmap.
  - intros n s' (s&Hs&->)%Hold. destruct (G5 n s Hs) as (?&?&?&?). split_and!; [done|done| |done].
    apply (next_phase_ok q p); [done|by apply (Hq n)|done].
  - intros n Hown. rewrite session_in_phases. destruct (G7 n Hown) as [s ->]. by eexists.
  - intros Hs. apply Hsent, G8 in Hs as [? ?]. split; [done|]. by apply He.
  - intros Hs. apply Hsent, G9 in Hs. by apply He.
  - intros Hr. destruct (G10 Hr) as [Hrun Hall]. split; [by apply He|]. intros k Hk'.
    rewrite session_in_phases. destruct (Hall k Hk') as [s ->]. by eexists.
  - intros n s' (s&Hs&->)%Hold Hown. cbn. pose proof (G12 n s Hs Hown) as Hsh. rewrite (Hq n s Hs) in Hsh.
    by destruct Hn as [[-> ->]|[-> ->]].
  - intros n x Hx Hp. pose proof (G15 n x Hx Hp) as Ht. unfold stopped_truly in *. rewrite session_in_phases.
    destruct (session_in h n) as [s|] eqn:Hs; [|done]. destruct Ht as (Ht&_). rewrite (Hq n s Hs) in Ht. by destruct Hn as [[-> _]|[-> _]].
Qed.

Lemma scope_rel_phases p h o : scope_rel h o (put_phases p h) o.
Proof.
  constructor; try done. intros n. rewrite session_in_phases. apply option_Forall2_fmap_r. intros s _.
  constructor; try (done || apply kept_first_refl || apply same_record_refl). exists []. by rewrite app_nil_r.
Qed.
Lemma scope_rel_admission h o a h' o' : scope_rel h o h' o' → scope_rel h o (put_admission a h') o'.
Proof. intros [? ? ? ?]. by constructor. Qed.

Lemma all_phase_true p h : bt_ok (hd_sessions h) → all_phase p h = true ↔ everyone h (λ s, ss_phase s = p).
Proof.
  intros Hm. unfold all_phase, everyone, session_in. rewrite forallb_forall. split.
  - intros Ha n s Hs. apply bt_get_elem in Hs. apply list_elem_of_In in Hs. specialize (Ha _ Hs). by apply bool_decide_eq_true in Ha.
  - intros He [n s] Hin. apply list_elem_of_In in Hin. apply bool_decide_eq_true. apply (He n). by apply bt_get_Some.
Qed.

Lemma graph_members_typed o l entries :
  (∀ c, c ∈ l → bt_ok (mb_inputs (prc_bindings c)) ∧ bt_ok (mb_outputs (prc_bindings c))) → reports_typed o →
  graph_members o l = Ok entries → ∀ e, e ∈ entries → entry_typed e.
Proof.
  intros Hl Ht. revert entries. induction l as [|c l IH]; cbn; intros entries; [intros [= <-] e He; by apply elem_of_nil in He|].
  intros Hb. apply bind_Ok in Hb as (report&Hr&Hb). apply bind_Ok in Hb as (rest&Hrest&[= <-]).
  intros e [->|He]%elem_of_cons; [|by eapply IH; [intros; apply Hl; by right|..]].
  destruct (bt_get (prc_namespace c) (ds_components (ow_status o))) as [i|] eqn:Ei; [|done]. cbn in Hr.
  destruct (io_report i) as [r|] eqn:Er; [|done]. injection Hr as ->. destruct (Hl c) as [? ?]; [by left|].
  destruct (Ht (prc_namespace c) i report Ei Er). by constructor.
Qed.

(** What [advance] leaves, when it fails too *)
Record advanced (h : Hosted) (o : DeploymentOwner) (r : result unit str) (h' : Hosted) (o' : DeploymentOwner) : Prop := {
  av_base : graph_base h' o';
  av_rel : scope_rel h o h' o';
  av_exact : r = Ok tt → graph_exact h' o';
  av_children : ow_children o' = ow_children o;
  av_failed : is_ok r = false → hd_admission h' = hd_admission h ∧ o' = o;
}.

(** A step of the admission *)
Definition admission_step (h : Hosted) (body : OwnerMessage) (q p : SessionPhase) (adm : GraphAdmission) : Prop :=
  hd_admission h = AdPreparing ∧ body = OwnerCommit ∧ q = SpPrepared ∧ p = SpCommitting ∧ adm = AdCommitting ∨
  hd_admission h = AdCommitting ∧ body = OwnerRun ∧ q = SpCommitted ∧ p = SpActivating ∧ adm = AdActivating.

Lemma admission_ready h o body q p adm n s :
  graph_exact h o → admission_step h body q p adm → session_in h n = Some s → ss_phase s = q → ready_for body s.
Proof.
  intros E Hstep Hs Hp. destruct (gb_session _ _ (ge_base _ _ E) n s Hs) as (_&_&[[B1 B2 B3 B4] _]&_).
  assert (Hf : q ≠ SpAuthenticating ∧ ending q = false ∧ log_exact q = λ l, l = lifecycle (tag body))
    by by destruct Hstep as [(_&->&->&_)|(_&->&->&_)].
  destruct Hf as (Hna&Hne&Hx). split_and!.
  - rewrite Hp, Hne in B3. by destruct (ss_stop_deadline s).
  - destruct (ss_listening s); [|done]. destruct (B2 eq_refl). congruence.
  - intros c Hc. destruct (ge_settled _ _ E n s Hs) as [He _]. specialize (He c Hc). by rewrite Hp, Hx in He.
Qed.

Lemma advance_sends now body q p adm h o :
  graph_exact h o → everyone h (λ s, ss_phase s = q) → promised body h o → graph_valid o → admission_step h body q p adm →
  (∀ n, known o n → is_Some (session_in h n)) →
  wp (send_all_hosts serialize now body)
    (λ r st, advanced h o r (match r with Ok _ => put_phases p (put_admission adm st.1) | Err _ => st.1 end) st.2) (h, o).
Proof.
  intros E Hq Hpr Hval Hstep Hwhole. pose proof (ge_base _ _ E) as G. pose proof (gb_map _ _ G) as Hm.
  unfold send_all_hosts. turn_steps. eapply wp_mono; [apply send_hosts_spec; [done|by apply bt_ok_NoDup| |done]|].
  { intros n Hin. apply bt_key_get in Hin as [s Hs]; [|done]. exists s. split; [done|].
    by apply (admission_ready h o body q p adm n s); [..|apply (Hq n)]. }
  intros r [h1 o1] (Eo&[S1 S2 S3 S4 S5 S6]). cbn [fst snd] in *. subst o1.
  assert (Hq1 : everyone h1 (λ s, ss_phase s = q)).
  { intros n s' Hs'. destruct (S4 n s' Hs') as (s&Hs&->). by apply (Hq n). }
  destruct r as [[]|e]; [|by constructor]. set (h2 := put_phases p (put_admission adm h1)).
  assert (Hnext : next_phase q p) by (destruct Hstep as [(_&_&?&?&_)|(_&_&?&?&_)]; [by left|by right]).
  assert (G2 : graph_base h2 o) by (apply (graph_phases q p); [done|by apply graph_base_admission|done]).
  assert (Hrel : scope_rel h o h2 o).
  { eapply scope_rel_trans; [exact S2|]. eapply scope_rel_trans; [|apply scope_rel_phases]. apply scope_rel_admission, scope_rel_refl. }
  constructor; try done. intros _.
  assert (Hw2 : ∀ n, known o n → is_Some (session_in h2 n)).
  { intros n Hkn. destruct (Hwhole n Hkn) as [s Hs]. destruct (scope_rel_get _ _ _ _ n s Hrel Hs) as (s'&?&_). by exists s'. }
  constructor; [done| |by destruct Hstep as [(_&_&_&_&->)|(_&_&_&_&->)]..|].
  2:{ intros [Hact _]%(ge_ready _ _ E). by destruct Hstep as [(?&_)|(?&_)]; congruence. }
  intros n s'. unfold h2. rewrite session_in_phases. change (session_in (put_admission adm h1) n) with (session_in h1 n).
  destruct (session_in h1 n) as [s|] eqn:Hs; [|done]. intros [= <-].
  split; [|by destruct Hstep as [(_&_&_&->&->)|(_&_&_&->&->)]]. intros c Hc.
  assert (Hin : n ∈ (hd_sessions h).*1).
  { apply bt_key_get; [done|]. destruct (scope_rel_old _ _ _ _ n s S2 Hs) as (s0&Hs0&_). by exists s0. }
  pose proof (S6 n s c eq_refl Hin Hs Hc) as Hlc. by destruct Hstep as [(_&->&_&->&_)|(_&->&_&->&_)].
Qed.

(** As many sessions as hosts, and all of them known: none is missing *)
Lemma all_hosts_there h o :
  graph_base h o → length (hd_sessions h) = length (pd_component_hosts (ow_desired o)) →
  ∀ n, known o n → is_Some (session_in h n).
Proof.
  intros G Hlen n Hkn. pose proof (gb_map _ _ G) as Hm. apply bt_key_get; [done|].
  assert (Hp : (hd_sessions h).*1 ≡ₚ (pd_component_hosts (ow_desired o)).*1).
  { apply submseteq_length_Permutation; [|by rewrite !length_fmap, Hlen].
    apply NoDup_submseteq; [by apply bt_ok_NoDup|]. intros k Hk. apply bt_key_get in Hk as [s Hs]; [|done].
    by destruct (gb_session _ _ G k s Hs) as (?&_). }
  by rewrite Hp.
Qed.

Lemma graph_advance_spec now h o :
  graph_exact h o → hd_admission h ∈ [AdPreparing; AdCommitting; AdActivating] →
  wp (advance serialize display now) (λ r st, advanced h o r st.1 st.2) (h, o).
Proof.
  intros E Hadm. pose proof (ge_base _ _ E) as G. pose proof (gb_map _ _ G) as Hm.
  assert (Hstay : ∀ r, advanced h o r h o) by (intros r; constructor; try done; apply scope_rel_refl).
  unfold advance. turn_steps. destruct (negb _); turn_steps; [|apply Hstay].
  destruct (hd_admission h) eqn:Ha; try (by exfalso; clear -Hadm; set_solver).
  - destruct (all_phase SpPrepared h) eqn:Hall; turn_steps; [|apply Hstay]. apply all_phase_true in Hall; [|done].
    destruct (length (hd_sessions h) =? _) eqn:Hlen; turn_steps; [|apply Hstay]. apply Nat.eqb_eq in Hlen.
    destruct (graph_members o _) as [entries|e] eqn:Em; turn_steps; [|apply Hstay].
    destruct (validate_graph_spec entries) as [Hv _].
    { eapply graph_members_typed; [|apply G|exact Em]. intros c Hc. by apply (do_members _ (gb_desired _ _ G)). }
    destruct (validate_graph entries) as [v|] eqn:Ev; [|done]. destruct v as [[]|e]; cbn [map_err]; turn_steps; [|apply Hstay].
    eapply wp_mono; [apply (advance_sends now OwnerCommit SpPrepared SpCommitting AdCommitting); try done|].
    + split; [by exists entries|]. intros n s Hs. destruct (gb_session _ _ G n s Hs) as (_&_&[_ (_&_&Hw&_)]&_).
      apply Hw. rewrite (Hall n s Hs). set_solver.
    + by exists entries.
    + by left.
    + by apply all_hosts_there.
    + intros [[]|e] [h1 o1] Hadv; turn_steps; exact Hadv.
  - destruct (all_phase SpCommitted h) eqn:Hall; turn_steps; [|apply Hstay]. apply all_phase_true in Hall; [|done].
    pose proof (ge_valid _ _ E) as Hval. pose proof (ge_whole _ _ E) as Hwhole. rewrite Ha in Hval, Hwhole.
    eapply wp_mono; [apply (advance_sends now OwnerRun SpCommitted SpActivating AdActivating); try done|].
    + intros n s Hs. destruct (gb_session _ _ G n s Hs) as (_&_&[_ (_&_&_&Hw&_)]&_). apply Hw. rewrite (Hall n s Hs). set_solver.
    + by right.
    + intros [[]|e] [h1 o1] Hadv; turn_steps; exact Hadv.
  - destruct (all_phase SpRunning h) eqn:Hall; turn_steps; [|apply Hstay]. apply all_phase_true in Hall; [|done].
    pose proof (ge_valid _ _ E) as Hval. pose proof (ge_whole _ _ E) as Hwhole. rewrite Ha in Hval, Hwhole.
    assert (Hheard : everyone h (λ s, was_prepared s ∧ HostCommitted ∈ ss_heard s ∧ HostRunning ∈ ss_heard s)).
    { intros n s Hs. destruct (gb_session _ _ G n s Hs) as (_&_&[_ (_&_&H3&H4&H5)]&_). rewrite (Hall n s Hs) in H3, H4, H5.
      split_and!; [apply H3|apply H4|by apply H5]; set_solver. }
    assert (Gr : graph_base (put_admission AdActive h) (with_phase DpReady o)).
    { apply graph_phase; [by apply graph_base_admission| |set_solver]. intros _. split; [|done]. intros n s Hs. by destruct (Hheard n s Hs) as (_&_&?). }
    assert (Hrel : scope_rel h o (put_admission AdActive h) (with_phase DpReady o)).
    { apply scope_rel_admission, scope_rel_owner; [apply with_phase_kept|done]. }
    constructor; try done. intros _. constructor; try done; [|by apply (graph_valid_same o)]. intros n s Hs. destruct (ge_settled _ _ E n s Hs) as [Hx _].
    split; [done|]. cbn. by rewrite (Hall n s Hs).
Qed.

(** ** A tick of the owner *)

Lemma ticks_spec a l h o :
  answers_ok a → graph_exact h o →
  wp (try_each (tick_host serialize unique parse compatibility display key a) l)
    (λ r st, stepped h o st.1 st.2 ∧
      ((∀ n, n ∈ l → answers_fine a n) → r = Ok tt ∧ (everyone h (expired a) → ∀ n, n ∈ l → owned st.2 n = false))) (h, o).
Proof.
  intros Ha. revert h o. induction l as [|n l IH]; intros h o E; cbn [try_each].
  { turn_steps. split; [by apply stepped_refl|]. intros _. split; [done|]. intros _ n Hn. by apply elem_of_nil in Hn. }
  rewrite wp_bind_try. eapply wp_mono; [by apply tick_host_spec|]. intros r [h1 o1] (St1&_&Hfine). cbn [fst snd] in *.
  destruct r as [[]|e].
  2:{ split; [done|]. intros Hall. destruct Hfine as [? _]; [apply Hall; by left|done]. }
  pose proof St1 as [E1 R1 A1 H1]. eapply wp_mono; [by apply IH|]. intros r [h2 o2] ([E2 R2 A2 H2]&Hf2). cbn [fst snd] in *. split.
  - constructor; [done|by eapply scope_rel_trans|auto..].
  - intros Hall. destruct Hfine as [_ Hoff]; [apply Hall; by left|]. destruct Hf2 as [-> Hoff2]; [intros; apply Hall; by right|].
    split; [done|]. intros Hexp. intros k [->|Hk]%elem_of_cons.
    + destruct (owned o2 n) eqn:Eo; [|done]. apply (sc_children _ _ _ _ R2) in Eo. rewrite Hoff in Eo; [done|]. intros s Hs. by apply (Hexp n).
    + apply Hoff2; [|done]. intros m s' Hs'. destruct (scope_rel_old _ _ _ _ m s' R1 Hs') as (s&Hs&Hkept).
      destruct (Hexp m s Hs) as (d&Hd&Hle). exists d. split; [|done]. by apply (sf_deadline _ _ Hkept).
Qed.

Definition admitting (adm : GraphAdmission) : Prop := match adm with AdPreparing | AdCommitting | AdActivating => True | _ => False end.

Lemma fail_first_spec now e h o h1 :
  graph_exact h o → admitting (hd_admission h) → graph_base h1 o → scope_rel h o h1 o → hd_admission h1 = hd_admission h →
  wp (fail_first serialize now e) (λ r st, stepped h o st.1 st.2) (h1, o).
Proof.
  intros E Hadm G1 R1 Ha1. unfold fail_first. turn_steps. pose proof (gb_map _ _ G1) as Hm.
  destruct (hd_sessions h1) as [|[n s1] m] eqn:Em; cbn [fmap list_fmap head ok_or fst]; turn_steps.
  - assert (Eh : graph_exact h1 o).
    { eapply graph_exact_rel; [exact E|done|done|done| |by destruct (hd_admission h)|]; [|intros Hr; split; [done|intros _]];
        intros n s; unfold session_in; by rewrite Em. }
    constructor; [done|done|by rewrite Ha1|by apply in_hand_same].
  - assert (Hs1 : session_in h1 n = Some s1) by (unfold session_in; rewrite Em; apply bt_get_Some; [done|by left]).
    destruct (gb_session _ _ G1 n s1 Hs1) as (Hkn&_). destruct (scope_rel_old _ _ _ _ n s1 R1 Hs1) as (s&Hs&_).
    eapply wp_mono; [apply fail_host_spec; [done|done| |]|].
    + intros x Hx Hp. pose proof (gb_stopped _ _ (ge_base _ _ E) n x Hx Hp) as Ht. unfold stopped_truly in Ht. rewrite Hs in Ht.
      destruct Ht as (Ht&_). destruct (ge_settled _ _ E n s Hs) as [_ Had]. rewrite Ht in Had. by destruct (hd_admission h).
    + unfold fail_pre. rewrite Ha1. by destruct (hd_admission h).
    + intros r [h2 o2] (->&[F1 F2 F3 F4 F5]). cbn [fst snd] in *. constructor; [done|by eapply scope_rel_trans| |].
      { intros f Hf. by rewrite Hf in Hadm. }
      apply in_hand_same; [by eapply scope_rel_trans|done].
Qed.

Lemma graph_first_error h o e : graph_base h o → graph_base h (first_error e o).
Proof.
  intros G. pose proof (first_error_kept e o) as Hk. unfold first_error in *. destruct (ds_error (ow_status o)); [done|].
  destruct G. by apply (graph_owner_change h o).
Qed.

Lemma finish_abort_spec f h o :
  graph_exact h o → hd_admission h = AdAborting f → ow_children o = [] →
  wp (finish_abort f) (λ r st, r = Ok tt ∧ graph_exact st.1 st.2 ∧ scope_rel h o st.1 st.2 ∧ ow_children st.2 = []) (h, o).
Proof.
  intros E Ha Hc. pose proof (ge_base _ _ E) as G. pose proof (ge_final _ _ E f Ha) as Hf.
  assert (Hdone : ∀ o', graph_base h o' → owner_kept o o' → ow_children o' = [] → ds_phase (ow_status o') ≠ DpReady →
    graph_exact (put_admission AdFinished h) o' ∧ scope_rel h o (put_admission AdFinished h) o' ∧ ow_children o' = []).
  { intros o' G' Hk Hc' Hnr. split_and!; [|apply scope_rel_admission, scope_rel_owner; [done|]|done].
    - constructor; try done; [by apply graph_base_admission|]. intros n s Hs. destruct (ge_settled _ _ E n s Hs) as [Hx Had].
      split; [done|]. rewrite Ha in Had. by destruct (ss_phase s).
    - intros n. unfold owned. by rewrite Hc'. }
  unfold finish_abort. turn_steps. destruct (existsb _ _); turn_steps; (split; [done|]); apply Hdone; cbn; try done.
  - by apply graph_first_error, graph_phase.
  - etrans; [apply with_phase_kept|apply first_error_kept].
  - unfold first_error. by destruct (ds_error _).
  - unfold first_error. by destruct (ds_error _).
  - by apply graph_phase.
  - apply with_phase_kept.
Qed.

Record ticked (h : Hosted) (o : DeploymentOwner) (h' : Hosted) (o' : DeploymentOwner) : Prop := {
  tk_exact : graph_exact h' o';
  tk_rel : scope_rel h o h' o';
  tk_aborting f : hd_admission h = AdAborting f → hd_admission h' = AdAborting f ∨ ow_children o' = [];
  tk_hand : in_hand h o → in_hand h' o';
}.

Lemma hosted_tick_spec a h o :
  answers_ok a → graph_exact h o →
  wp (hosted_tick serialize unique parse compatibility display key a)
    (λ r st, ticked h o st.1 st.2 ∧
      (∀ f, hd_admission h = AdAborting f → (∀ n, answers_fine a n) → r = Ok tt ∧ (everyone h (expired a) → ow_children st.2 = []))) (h, o).
Proof.
  intros Ha E. unfold hosted_tick. turn_steps. eapply wp_mono; [by apply ticks_spec|]. intros r [h1 o1] ([E1 R1 A1 H1]&Hfine). cbn [fst snd] in *.
  destruct r as [[]|e].
  2:{ split; [constructor; [done|done| |done]|]; intros f Hf; [left; by apply A1|]. intros Hall. by destruct Hfine. }
  assert (Hnone : (∀ n, answers_fine a n) → everyone h (expired a) → ow_children o1 = []).
  { intros Hall Hexp. destruct Hfine as [_ Hoff]; [done|]. apply owned_none; [apply E1|]. intros n. destruct (owned o1 n) eqn:Eo; [|done].
    rewrite <- Eo. apply Hoff; [done|]. pose proof (gb_map _ _ (ge_base _ _ E)) as Hm. apply bt_key_get; [done|].
    apply (gb_children _ _ (ge_base _ _ E)). by apply (sc_children _ _ _ _ R1). }
  turn_steps. destruct (hd_admission h1) eqn:Ha1.
  1-3: assert (Hadm : admitting (hd_admission h1)) by (by rewrite Ha1);
    assert (Hpost : ∀ (r : result unit str) h2 o2, stepped h1 o1 h2 o2 → ticked h o h2 o2 ∧
      (∀ f, hd_admission h = AdAborting f → (∀ n, answers_fine a n) → r = Ok tt ∧ (everyone h (expired a) → ow_children o2 = [])))
      by (intros r h2 o2 [E2 R2 A2 H2]; split; [constructor; [done|by eapply scope_rel_trans| |auto]|]; intros f Hf; pose proof (A1 f Hf); congruence);
    destruct (hd_deadline h1 <=? an_now a)%Z; turn_steps;
      [eapply wp_mono; [by apply (fail_first_spec _ _ h1 o1 h1); [..|apply E1|apply scope_rel_refl|]|]; intros r [h2 o2] Hst; by apply Hpost|];
    (eapply wp_mono; [apply graph_advance_spec; [done|rewrite Ha1; clear; set_solver]|]); intros r [h2 o2] [V1 V2 V3 V4 V5]; cbn [fst snd] in *;
    (destruct r as [[]|e]; [turn_steps; apply Hpost; constructor; [by apply V3|done|by rewrite Ha1|by apply in_hand_same]|]);
    destruct V5 as [V5 ->]; [done|]; (eapply wp_mono; [by apply (fail_first_spec _ _ h1 o1 h2)|]); intros r [h3 o3] Hst; by apply Hpost.
  - turn_steps. split; [constructor; try done|]; intros f Hf; pose proof (A1 f Hf); congruence.
  - case_bool_decide as Hc; turn_steps.
    + apply nil_length_inv in Hc. eapply wp_mono; [by apply finish_abort_spec|]. intros r [h2 o2] (->&E2&R2&Hc2). cbn [fst snd] in *.
      split; [constructor; [done|by eapply scope_rel_trans| |]|]; [intros f Hf; by right| |intros f Hf; by intros _].
      intros Hh. apply (in_hand_same h1 o1); [done|congruence|auto].
    + split; [constructor; try done|]; intros f Hf; [left; pose proof (A1 f Hf); congruence|]. intros Hall. split; [done|]. auto.
  - turn_steps. split; [constructor; try done|]; intros f Hf; pose proof (A1 f Hf); congruence.
Qed.
End graph.
