(* ===== verification/DeployProps.v ===== *)
(** * DeployProps: properties of hosted deployments
    ([crates/reiny-launch/src/deployment/hosted/*.rs])

    A deployment from its start through any sequence of ticks, stops, changes of
    the sockets and publications: the order of admission, what the published
    status says, what is retained, and that stopping ends. *)

From Stdlib Require Import ZArith Lia.
From S2P Require Import Prelude Text Btree Core Bindings BindingsSpec Report ReportSpec Step HostProtocol Connection ProcessWire HostMessages ProcessAdmit LaunchTypes HostChannel Deploy DeploySteps DeployGraph.

(** ** What is published *)

(** The owner changes, and neither what it shows nor the processes *)
Record quiet (o o' : DeploymentOwner) : Prop := {
  qu_kept : owner_kept o o';
  qu_children : ow_children o' = ow_children o;
  qu_hosts : ds_component_hosts (ow_status o') = ds_component_hosts (ow_status o);
  qu_insts : ds_components (ow_status o') = ds_components (ow_status o);
  qu_phase : ds_phase (ow_status o') = ds_phase (ow_status o);
}.
Lemma aside_refl o : quiet o o.
Proof. by constructor. Qed.
Lemma aside_trans o1 o2 o3 : quiet o1 o2 → quiet o2 o3 → quiet o1 o3.
Proof. intros [A1 A2 A3 A4 A5] [B1 B2 B3 B4 B5]. constructor; [by etrans|congruence..]. Qed.
Lemma quiet_status o o' : owner_kept o o' → ow_children o' = ow_children o → ow_status o' = ow_status o → quiet o o'.
Proof. intros Hk Hc Hs. by constructor; rewrite ?Hs. Qed.

(** Neither the status nor the records change *)
Lemma aside_kept o o' :
  ow_status o' = ow_status o → ow_desired o' = ow_desired o → ow_remote o' = ow_remote o → ow_children o' = ow_children o →
  ow_ledger o' = ow_ledger o → (∃ more, ow_replies o' = ow_replies o ++ more) → owner_kept o o'.
Proof.
  intros Hs Hd Hr Hc Hl Hm [W1 W2 W3 W4]. split; [by constructor; rewrite ?Hs, ?Hc, ?Hl|].
  constructor; unfold host_of, inst_of; rewrite ?Hs, ?Hl; try (done || apply kept_first_refl).
  - intros k. apply option_Forall2_refl'; exact host_kept_refl.
  - intros k. apply option_Forall2_refl'; exact inst_kept_refl.
  - intros k r Hk. exists r. by split.
Qed.

Lemma shows_quiet o o' n p : quiet o o' → shows n p o → shows n p o'.
Proof.
  intros [_ _ Hh Hi _] [A B]. split; [intros x|intros k i]; unfold host_of, inst_of; [rewrite Hh|rewrite Hi]; [apply A|apply B].
Qed.

Section removing.
Context {A : Type}.
Implicit Types l : list A.

Lemma swap_remove_perm i l x : l !! i = Some x → l ≡ₚ x :: swap_remove i l.
Proof.
  intros Hi. destruct l as [|y l0 _] using rev_ind; [done|]. unfold swap_remove. rewrite last_snoc, length_app. cbn.
  replace (length l0 + 1 - 1) with (length l0) by lia. destruct (decide (i < length l0)) as [Hlt|Hge].
  - rewrite lookup_app_l in Hi by done. rewrite insert_app_l by done. rewrite take_app_length' by (by rewrite length_insert).
    apply take_drop_middle in Hi as Hl0. rewrite (insert_take_drop l0 i y) by done. rewrite <- Hl0 at 1.
    rewrite <- app_assoc. cbn. rewrite <- Permutation_middle. constructor. apply Permutation_app_head. by rewrite Permutation_app_comm.
  - assert (i = length l0) as ->. { apply lookup_lt_Some in Hi. rewrite length_app in Hi. cbn in Hi. lia. }
    rewrite lookup_app_r, Nat.sub_diag in Hi by done. injection Hi as ->.
    rewrite insert_app_r_alt, Nat.sub_diag by done. cbn. rewrite take_app_length. by rewrite Permutation_app_comm.
Qed.

Lemma swap_remove_before i l x : l !! i = Some x → take i (swap_remove i l) = take i l.
Proof.
  intros Hi. pose proof (lookup_lt_Some _ _ _ Hi) as Hlt. unfold swap_remove. destruct l as [|y l0 _] using rev_ind; [done|].
  rewrite last_snoc, take_take, take_insert_ge by lia. rewrite length_app in *. cbn in *. f_equal. lia.
Qed.

Lemma length_swap_remove i l x : l !! i = Some x → S (length (swap_remove i l)) = length l.
Proof. intros Hi. by rewrite (swap_remove_perm i l x Hi) at 2. Qed.
End removing.

(** What a status decides for a client that waits for [action]: it is ready, or
    will not be; a later revision is there; it is over; or there is no such wait *)
Inductive decided (s : DeploymentStatus) : OwnerAction → result DeploymentStatus str → Prop :=
  | decided_ready timeout : ds_phase s = DpReady ∨ ds_phase s = DpCompleted → decided s (OaWaitReady timeout) (Ok s)
  | decided_never timeout e :
      ds_phase s ∈ [DpFailed; DpSuspended; DpStopped; DpStopping] → e = default (bytes_of "not ready") (ds_error s) →
      decided s (OaWaitReady timeout)
        (Err (bytes_of "deployment " ++ deployment_phase_debug (ds_phase s) ++ bytes_of ": " ++ e))
  | decided_revision revision timeout : (revision < ds_revision s)%Z → decided s (OaWaitRevision revision timeout) (Ok s)
  | decided_over : ds_phase s = DpStopped ∨ ds_phase s = DpCompleted → decided s OaWaitTerminal (Ok s)
  | decided_status : decided s OaStatus (Err (bytes_of "invalid wait request"))
  | decided_apply prepared : decided s (OaApply prepared) (Err (bytes_of "invalid wait request"))
  | decided_stop : decided s OaStop (Err (bytes_of "invalid wait request")).

(** The answer to a waiter at the time [now] *)
Inductive answer_to (now : Z) (s : DeploymentStatus) (w : Waiter) : result DeploymentStatus str → Prop :=
  | answered_status r : decided s (wa_action w) r → answer_to now s w r
  | answered_late deadline :
      (∀ r, ¬ decided s (wa_action w) r) → wa_deadline w = Some deadline → (deadline ≤ now)%Z →
      answer_to now s w (Err (bytes_of "deployment wait timed out")).

Definition waits_on (now : Z) (s : DeploymentStatus) (w : Waiter) : Prop := ∀ r, ¬ answer_to now s w r.
Definition answers_truly (now : Z) (s : DeploymentStatus) (w : Waiter) (sent : nat * result DeploymentStatus str) : Prop :=
  sent.1 = wa_stream w ∧ answer_to now s w sent.2.

Lemma late_answered now s w r :
  (∀ r, ¬ decided s (wa_action w) r) →
  (if match wa_deadline w with Some d => (d <=? now)%Z | None => false end
   then Some (Err (bytes_of "deployment wait timed out")) else None) = Some r ↔ answer_to now s w r.
Proof.
  intros Hno. split.
  - destruct (wa_deadline w) as [d|] eqn:Ed; [|done]. destruct (d <=? now)%Z eqn:El; [|done]. apply Z.leb_le in El.
    intros [= <-]. by apply (answered_late now s w d).
  - intros [r' Hr|d _ Hd Hle]; [by destruct (Hno r')|]. rewrite Hd. by apply Z.leb_le in Hle as ->.
Qed.

Lemma decided_answered now s w r0 r :
  decided s (wa_action w) r0 → (∀ r, decided s (wa_action w) r → r = r0) → Some r0 = Some r ↔ answer_to now s w r.
Proof.
  intros H0 Hall. split; [intros [= <-]; by constructor|]. intros [r' Hr|d Hno _ _]; [by rewrite (Hall r')|by destruct (Hno r0)].
Qed.

(** What is decided for a client that waits until the deployment is ready *)
Lemma decided_ready_inv s timeout r :
  decided s (OaWaitReady timeout) r ↔
  match ds_phase s with
  | DpReady | DpCompleted => r = Ok s
  | DpFailed | DpSuspended | DpStopped | DpStopping =>
      r = Err (bytes_of "deployment " ++ deployment_phase_debug (ds_phase s) ++ bytes_of ": "
               ++ default (bytes_of "not ready") (ds_error s))
  | DpStarting | DpDegraded => False
  end.
Proof.
  split.
  - inversion 1 as [? Hp|? e Hp| | | | |]; subst; [by destruct Hp as [->| ->]|].
    repeat apply elem_of_cons in Hp as [Hp|Hp]; [..|by apply elem_of_nil in Hp]; by rewrite Hp.
  - destruct (ds_phase s) eqn:Ep; try done; intros ->; try (apply decided_ready; by auto);
      rewrite <- Ep; apply decided_never; try done; rewrite Ep; clear; set_solver.
Qed.

Lemma wait_outcome_answered now s w r : wait_outcome now s w = Some r ↔ answer_to now s w r.
Proof.
  unfold wait_outcome. destruct (wa_action w) as [|prepared| | | |timeout|revision timeout] eqn:Ea.
  1-3: apply decided_answered; rewrite Ea; [constructor|by inversion 1].
  - apply late_answered. rewrite Ea. by inversion 1.
  - destruct (ds_phase s) eqn:Ep; try (apply late_answered; rewrite Ea; inversion 1; intuition congruence);
      (apply decided_answered; rewrite Ea; [constructor; by auto|by inversion 1]).
  - pose proof (decided_ready_inv s timeout) as Hinv. rewrite <- Ea in Hinv. destruct (ds_phase s) eqn:Ep; rewrite ?Ep in Hinv.
    1, 4: apply late_answered; by intros r' ?%Hinv.
    all: apply decided_answered; [by apply Hinv|by intros r' ?%Hinv].
  - destruct (revision <? ds_revision s)%Z eqn:El; [apply Z.ltb_lt in El|apply Z.ltb_ge in El].
    + apply decided_answered; rewrite Ea; [by constructor|by inversion 1].
    + apply late_answered. rewrite Ea. inversion 1. lia.
Qed.

Lemma wait_outcome_waits now s w : wait_outcome now s w = None ↔ waits_on now s w.
Proof.
  unfold waits_on. setoid_rewrite <- wait_outcome_answered. destruct (wait_outcome now s w) as [r|]; [|by split].
  split; [done|]. intros Hno. by destruct (Hno r).
Qed.

Lemma notify_loop_spec fuel now index o :
  length (ow_waiters o) ≤ index + fuel → Forall (waits_on now (ow_status o)) (take index (ow_waiters o)) →
  ∃ left answered more, notify_loop fuel now index o = put_replies (ow_replies o ++ more) (put_waiters left o) ∧
    ow_waiters o ≡ₚ left ++ answered ∧ Forall (waits_on now (ow_status o)) left ∧
    Forall2 (answers_truly now (ow_status o)) answered more.
Proof.
  assert (Hstop : ∀ o, Forall (waits_on now (ow_status o)) (ow_waiters o) →
    ∃ left answered more, o = put_replies (ow_replies o ++ more) (put_waiters left o) ∧
      ow_waiters o ≡ₚ left ++ answered ∧ Forall (waits_on now (ow_status o)) left ∧
      Forall2 (answers_truly now (ow_status o)) answered more).
  { intros o' Hall. exists (ow_waiters o'), [], []. rewrite !app_nil_r. split_and!; [by destruct o'|done..]. }
  revert index o. induction fuel as [|fuel IH]; intros index o Hlen Hall; cbn [notify_loop].
  { apply Hstop. by rewrite take_ge in Hall by lia. }
  destruct (ow_waiters o !! index) as [w|] eqn:Hw.
  2:{ apply Hstop. apply lookup_ge_None in Hw. by rewrite take_ge in Hall. }
  destruct (wait_outcome now (ow_status o) w) as [r|] eqn:Hout.
  - apply wait_outcome_answered in Hout. pose proof (length_swap_remove _ _ _ Hw) as Hl. pose proof (swap_remove_perm _ _ _ Hw) as Hp.
    destruct (IH index (reply (wa_stream w) r (put_waiters (swap_remove index (ow_waiters o)) o))) as (left&answered&more&E&Hperm&Hnone&Hans).
    { cbn. lia. }
    { cbn. by rewrite (swap_remove_before _ _ _ Hw). }
    exists left, (w :: answered), ((wa_stream w, r) :: more). split_and!; [|cbn in Hperm|done|by constructor].
    + rewrite E. unfold reply, put_replies, put_waiters. cbn. by rewrite <- app_assoc.
    + rewrite Hp, Hperm. by rewrite Permutation_middle.
  - apply wait_outcome_waits in Hout. apply IH; [lia|]. rewrite (take_S_r _ _ w) by done. by apply Forall_app_2; [|constructor].
Qed.

Lemma put_replies_quiet more left o : quiet o (put_replies (ow_replies o ++ more) (put_waiters left o)).
Proof. constructor; try done. apply aside_kept; try done. by exists more. Qed.
Lemma put_published_quiet s o : quiet o (put_published s o).
Proof. constructor; try done. apply aside_kept; try done. exists []. by rewrite app_nil_r. Qed.
Lemma with_revision_quiet n o : quiet o (with_revision n o).
Proof. constructor; try done. apply with_revision_kept. Qed.

Lemma notify_quiet now o : quiet o (notify_waiters now o).
Proof.
  destruct (notify_loop_spec (length (ow_waiters o)) now 0 o) as (left&answered&more&E&_); [lia|by constructor|].
  unfold notify_waiters. rewrite E. apply put_replies_quiet.
Qed.

Lemma publish_aside now written o : quiet o (publish now written o).2.
Proof.
  unfold publish. case_bool_decide; [apply aside_refl|]. destruct (checked_add _ _ _) as [n|]; [|apply aside_refl].
  destruct written; cbn [snd]; [|apply with_revision_quiet].
  eapply aside_trans; [apply with_revision_quiet|]. eapply aside_trans; [apply put_published_quiet|apply notify_quiet].
Qed.

(** ** Starting *)

Section runs.
Context (serialize : Envelope OwnerMessage → result (list Z) str) (compatibility : Compatibility) (key : SessionIdentity → str).
Context (bootstrap : Z → SessionIdentity → list Z → result (list Z) str) (digest : PreparedDeployment → result str str).

Notation graph_base := (graph_base serialize compatibility key).
Notation graph_exact := (graph_exact serialize compatibility key).

(** The assignments that a verified command hands over are made of maps. *)
Definition spawn_ok (a : SpawnAnswers) : Prop :=
  ∀ n l d, sp_command a n = Ok (l, d) → ∀ x, x ∈ l → bt_ok (mb_inputs (ca_bindings x)) ∧ bt_ok (mb_outputs (ca_bindings x)).

(** While hosts are started: those that are not look as if they were to be *)
Record spawning (h : Hosted) (o : DeploymentOwner) : Prop := {
  sw_exact : graph_exact h o;
  sw_admission : hd_admission h = AdPreparing;
  sw_phase : ds_phase (ow_status o) = DpStarting;
  sw_later n : session_in h n = None → shows n PAuthenticating o;
  sw_hand : in_hand h o;
}.

Lemma assignments_typed_of o n :
  desired_ok (ow_desired o) → ∀ x, x ∈ assignments_of (ow_desired o) n → bt_ok (mb_inputs (ca_bindings x)) ∧ bt_ok (mb_outputs (ca_bindings x)).
Proof.
  intros Hd x. unfold assignments_of. rewrite sort_perm. intros (c&->&Hc)%list_elem_of_fmap.
  apply list_elem_of_filter in Hc as [_ Hc]. by apply (do_members _ Hd).
Qed.

Lemma graph_exact_quiet h o o' : graph_exact h o → quiet o o' → graph_exact h o'.
Proof.
  intros E Q. pose proof Q as [Hk Hc Hh Hi Hp]. pose proof (ge_base _ _ _ _ _ E) as G.
  assert (Hr : same_reports o o') by (intros k; unfold inst_of; by rewrite Hi).
  assert (Hown : ∀ n, owned o' n = owned o n) by (intros n; unfold owned; by rewrite Hc).
  assert (G' : graph_base h o').
  { destruct G as [G1 G2 G3 G4 G5 G6 G7 G8 G9 G10 G11 G12 G13 G14 G15].
    apply (graph_owner_change serialize compatibility key h o); try done; try (by rewrite Hp).
    - intros n. by rewrite Hown.
    - by apply (same_reports_typed o).
    - rewrite Hp, Hc. done.
    - intros n s Hs Hn. rewrite Hown in Hn. by apply (shows_quiet o), (G12 n s).
    - intros k i x. unfold host_of, inst_of. rewrite Hh, Hi. apply G13.
    - intros n x. unfold host_of. rewrite Hh, Hown. apply G14.
    - intros n x. unfold host_of. rewrite Hh. apply G15. }
  eapply (graph_exact_rel serialize compatibility key h o h o'); try done.
  - apply scope_rel_owner; [done|]. intros n. by rewrite Hown.
  - apply E.
  - by destruct (hd_admission h).
  - by rewrite Hp.
Qed.

Lemma spawning_quiet h o o' : spawning h o → quiet o o' → spawning h o'.
Proof.
  intros [S1 S2 S3 S4 S5] Q. constructor; [by apply (graph_exact_quiet h o)|done|by rewrite (qu_phase _ _ Q)| |].
  - intros n Hn. by apply (shows_quiet o), S4.
  - intros n s Hs Hd. unfold owned. rewrite (qu_children _ _ Q). by apply (S5 n s).
Qed.

Lemma put_next_generation_kept g o : owner_kept o (put_next_generation g o).
Proof. apply aside_kept; try done. exists []. by rewrite app_nil_r. Qed.

(** A session that was just started *)
Record fresh_session (n : str) (s : HostSession) (o : DeploymentOwner) : Prop := {
  fs_name : host_name s = n;
  fs_channel : ss_channel s = None;
  fs_phase : ss_phase s = SpAuthenticating;
  fs_deadline : ss_stop_deadline s = None;
  fs_heard : ss_heard s = [];
  fs_typed : assignments_typed s;
  fs_reserved : reserved key o s;
}.

Definition with_child (n : str) (o : DeploymentOwner) : DeploymentOwner :=
  put_children (bt_insert n ObserveHosted (ow_children o)).2 o.

Lemma spawning_session n s pid generation h o :
  spawning h o → known o n → session_in h n = None → fresh_session n s o →
  spawning (with_session n s h) (on_host n (ho_spawned pid generation (ow_graph_generation o)) (with_child n o)) ∧
  owner_kept o (on_host n (ho_spawned pid generation (ow_graph_generation o)) (with_child n o)).
Proof.
  intros [E Hadm Hstart Hlater Hhand] Hkn Hnone [F1 F2 F3 F4 F5 F6 F7]. pose proof (ge_base _ _ _ _ _ E) as G. pose proof (gb_map _ _ _ _ _ G) as Hm.
  set (f := ho_spawned pid generation (ow_graph_generation o)). set (o' := on_host n f (with_child n o)).
  assert (Hk : owner_kept o o').
  { etrans; [apply (put_children_kept (λ m, (bt_insert n ObserveHosted m).2)); apply bt_insert_ok|]. apply on_host_kept.
    intros x _. constructor; cbn; try (done || apply kept_first_refl). exists []. by rewrite app_nil_r. }
  split; [|done]. destruct (Hk (gb_wf _ _ _ _ _ G)) as [Hw' Hfk].
  destruct G as [G1 G2 G3 G4 G5 G6 G7 G8 G9 G10 G11 G12 G13 G14 G15].
  assert (Hhost : ∀ k, host_of k o' = if bool_decide (k = n) then f <$> host_of k o else host_of k o).
  { intros k. unfold host_of, o'. cbn. rewrite bt_get_update by apply G1. case_bool_decide; by subst. }
  assert (Hph : ∀ k x', host_of k o' = Some x' → ∃ x, host_of k o = Some x ∧ ho_phase x' = ho_phase x).
  { intros k x'. rewrite Hhost. case_bool_decide; [|intros Hx; by exists x']. destruct (host_of k o) as [x|]; [|done]. intros [= <-]. by exists x. }
  assert (Hown : ∀ k, owned o' k = if bool_decide (k = n) then true else owned o k).
  { intros k. unfold owned, bt_contains, o'. cbn. case_bool_decide; subst; [by rewrite bt_get_insert_eq by apply G1|by rewrite bt_get_insert_ne by (done || apply G1)]. }
  assert (Hshow : ∀ k p, shows k p o → shows k p o').
  { intros k p [A B]. split; [|done]. intros x' Hx'. destruct (Hph k x' Hx') as (x&Hx&->). by apply A. }
  assert (Hin : ∀ k, session_in (with_session n s h) k = if bool_decide (k = n) then Some s else session_in h k) by (intros k; by apply session_in_with).
  assert (Hsent : ∀ t, sent (with_session n s h) t → sent h t).
  { intros t (k&sk&c&Hk'&Hc&Ht). rewrite Hin in Hk'. case_bool_decide; [|by exists k, sk, c]. injection Hk' as <-. congruence. }
  assert (Hno : ∀ t, 2 ≤ t → ¬ sent h t).
  { intros t Ht (k&sk&c&Hk'&Hc&Hin'). destruct (ge_settled _ _ _ _ _ E k sk Hk') as [Hx Ha]. specialize (Hx c Hc). rewrite Hadm in Ha.
    destruct (ss_phase sk); try done; cbn in Hx; rewrite Hx in Hin'; [by apply elem_of_nil in Hin'|..];
      repeat apply elem_of_cons in Hin' as [->|Hin']; try lia; by apply elem_of_nil in Hin'. }
  assert (Hnots : ∀ k x', host_of k o' = Some x' → gone (ho_phase x') = true → k ≠ n).
  { intros k x' Hx' Hg ->. destruct (Hph n x' Hx') as (x&Hx&Hp). destruct (Hlater n Hnone) as [A _]. by rewrite Hp, (A x Hx) in Hg. }
  assert (Gn : graph_base (with_session n s h) o').
  { constructor; try done.
    - by apply bt_insert_ok.
    - intros k sk. rewrite Hin. case_bool_decide as Ek.
      + intros [= <-]. subst k. split_and!; [done|done| |].
        * split; [constructor; rewrite ?F2, ?F3, ?F4; done|]. unfold heard_exact. rewrite F3, F5. split_and!; [done|done|set_solver..].
        * by apply (reserved_kept key o o' s s); [..|apply session_kept_refl|].
      + intros Hs. destruct (G5 k sk Hs) as (?&?&?&?). split_and!; [done..|]. by apply (reserved_kept key o o' sk sk); [..|apply session_kept_refl|].
    - intros k Hk'. destruct (G6 k Hk') as [x Hx]. rewrite Hhost, Hx. case_bool_decide; by eexists.
    - intros k. rewrite Hown, Hin. case_bool_decide; [by eexists|apply G7].
    - intros Hs. apply Hsent in Hs. by destruct (Hno 2).
    - intros Hs. apply Hsent in Hs. by destruct (Hno 3); [lia|].
    - change (ds_phase (ow_status o')) with (ds_phase (ow_status o)). by rewrite Hstart.
    - change (ds_phase (ow_status o')) with (ds_phase (ow_status o)). rewrite Hstart. set_solver.
    - intros k sk. rewrite Hin, Hown. case_bool_decide as Ek; [|intros Hs Ho; by apply Hshow, (G12 k sk)].
      intros [= <-] _. subst k. rewrite F3. by apply Hshow, Hlater.
    - intros k i x' Hi Hx'. destruct (Hph _ _ Hx') as (x&Hx&->). by apply (G13 k).
    - intros k x' Hx' Hg. pose proof (Hnots k x' Hx' Hg) as Hne. rewrite Hown, bool_decide_eq_false_2 by done.
      rewrite Hhost, bool_decide_eq_false_2 in Hx' by done. by apply (G14 k x').
    - intros k x' Hx' Hp. assert (Hne : k ≠ n) by (apply (Hnots k x' Hx'); by rewrite Hp).
      rewrite Hhost, bool_decide_eq_false_2 in Hx' by done. pose proof (G15 k x' Hx' Hp) as Ht.
      unfold stopped_truly in *. by rewrite Hin, bool_decide_eq_false_2. }
  constructor; [|done|done| |].
  - constructor; try done; try (by cbn; rewrite Hadm).
    + intros k sk. rewrite Hin. case_bool_decide; [|apply E].
      intros [= <-]. split; [intros c; by rewrite F2|]. cbn. by rewrite Hadm, F3.
    + change (ds_phase (ow_status o')) with (ds_phase (ow_status o)). by rewrite Hstart.
  - intros k. rewrite Hin. case_bool_decide; [done|]. intros Hs. by apply Hshow, Hlater.
  - intros k sk. rewrite Hin, Hown. case_bool_decide; [by left|apply Hhand].
Qed.

Record spawned (n : str) (h : Hosted) (o : DeploymentOwner) (h' : Hosted) (o' : DeploymentOwner) : Prop := {
  sd_spawning : spawning h' o';
  sd_kept : owner_kept o o';
  sd_others k : k ≠ n → session_in h' k = session_in h k;
}.

Lemma reserve_remote_spec a n identity assignments h o :
  spawn_ok a → spawning h o → (∀ x, x ∈ assignments → bt_ok (mb_inputs (ca_bindings x)) ∧ bt_ok (mb_outputs (ca_bindings x))) →
  wp (reserve_remote key a n identity assignments)
    (λ r st, ∃ o', st = (h, o') ∧ owner_kept o o' ∧ ow_children o' = ow_children o ∧ ow_status o' = ow_status o ∧
      ∀ l remote, r = Ok (l, remote) →
        (∀ x, x ∈ l → bt_ok (mb_inputs (ca_bindings x)) ∧ bt_ok (mb_outputs (ca_bindings x))) ∧
        ∀ rec, remote = Some rec → ro_identity rec = identity ∧ bt_get (key identity) (ow_ledger o') = Some rec) (h, o).
Proof.
  intros Ha [E _ _ _ _] Hty. unfold reserve_remote. turn_steps. destruct (bt_get n (ow_remote o)); turn_steps.
  2:{ exists o. split_and!; try (done || reflexivity). intros l remote [= <- <-]. by split. }
  destruct (sp_command a n) as [[l d]|e] eqn:Ec; turn_steps.
  2:{ exists o. by split_and!; try (done || reflexivity). }
  set (rec := mkRemoteOwnership identity d false None None None).
  destruct (persist key (sp_persist a n) rec true o) as [r o'] eqn:Ep. turn_steps.
  destruct (persist_kept key _ _ _ _ _ _ Ep) as (Hst&Hch&Hk&Hled). destruct r as [[]|e]; turn_steps; exists o'; split_and!; try done.
  intros l' remote [= <- <-]. split; [by apply (Ha n l d)|]. intros ? [= <-]. split; [done|]. apply Hled; [done|].
  apply (gb_wf _ _ _ _ _ (ge_base _ _ _ _ _ E)).
Qed.

Lemma spawn_host_spec a n h o :
  spawn_ok a → spawning h o → known o n → session_in h n = None →
  wp (spawn_host key bootstrap a n) (λ r st, spawned n h o st.1 st.2) (h, o).
Proof.
  intros Ha S Hkn Hnone. pose proof (ge_base _ _ _ _ _ (sw_exact _ _ S)) as G.
  assert (Hquiet : ∀ o', owner_kept o o' → ow_children o' = ow_children o → ow_status o' = ow_status o → spawned n h o h o').
  { intros o' Hk Hc Hst. constructor; [by apply (spawning_quiet h o), quiet_status|done|done]. }
  assert (Hsame : spawned n h o h o) by by apply Hquiet.
  unfold spawn_host. turn_steps.
  destruct (bt_get n (pd_component_hosts (ow_desired o))) as [host|]; cbn [ok_or]; [|done]. turn_steps.
  destruct (transport_of _ _ _) as [transport|e]; turn_steps; [|done].
  destruct (checked_add 64 (ow_next_generation o) 1) as [generation|]; cbn [ok_or]; turn_steps; [|done].
  set (o1 := put_next_generation generation o).
  assert (Hk1 : owner_kept o o1) by apply put_next_generation_kept.
  assert (H1 : spawned n h o h o1) by by apply Hquiet.
  destruct (ow_number o) as [number|e]; turn_steps; [|done].
  set (identity := mkSession _ _ _ _ _ _).
  destruct (sp_nonce a n) as [nonce|e]; turn_steps; [|done]. destruct (sp_listen a n) as [port|e]; turn_steps; [|done].
  destruct (bootstrap _ _ _) as [payload|e]; turn_steps; [|done]. destruct (codec_framed payload) as [bytes|e]; turn_steps; [|done].
  destruct (length bytes <=? 4096); turn_steps; [|done]. destruct (sp_directory a n) as [[]|e]; turn_steps; [|done].
  eapply wp_mono; [apply (reserve_remote_spec a n identity); [done|by apply sd_spawning in H1|]|].
  { change (ow_desired o1) with (ow_desired o). apply assignments_typed_of, (gb_desired _ _ _ _ _ G). }
  intros r st (o2&->&Hk2&Hc2&Hst2&Hr).
  assert (Hk : owner_kept o o2) by by etrans.
  assert (H2 : spawned n h o h o2) by (apply Hquiet; [done|by rewrite Hc2|by rewrite Hst2]).
  destruct r as [[l remote]|e]; turn_steps; [|done]. destruct (Hr l remote eq_refl) as [Hl Hrem].
  destruct (sp_files a n) as [[]|e]; turn_steps; [|done]. destruct (sp_spawn a n) as [pid|e]; cbn [map_err]; turn_steps; [|done].
  destruct pid as [pid|]; cbn [ok_or]; turn_steps; [|done].
  set (s := mkHostSession true None identity (Some nonce) l transport SpAuthenticating [] (hd_deadline h) None None None remote _ []).
  assert (Hkn2 : known o2 n) by (unfold known; rewrite (fk_desired _ _ (proj2 (Hk (gb_wf _ _ _ _ _ G)))); done).
  pose proof (sd_spawning _ _ _ _ _ H2) as S2.
  destruct (gb_host _ _ _ _ _ (ge_base _ _ _ _ _ (sw_exact _ _ S2)) n Hkn2) as [x Hx].
  fold (with_child n o2). change (host_of n (with_child n o2)) with (host_of n o2). rewrite Hx. cbn [ok_or]. turn_steps.
  fold (with_session n s h).
  assert (Hfresh : fresh_session n s o2).
  { constructor; try done. intros rec Hrec. destruct (Hrem rec Hrec) as [Hid Hget]. split; [done|]. exists rec. by split. }
  destruct (spawning_session n s pid generation h o2 S2 Hkn2 Hnone Hfresh) as [S3 Hk3].
  change (ow_graph_generation (with_child n o2)) with (ow_graph_generation o2).
  assert (Hend : spawned n h o (with_session n s h) (on_host n (ho_spawned pid generation (ow_graph_generation o2)) (with_child n o2))).
  { constructor; [done|by etrans|]. intros k Hne. rewrite session_in_with by apply G. by rewrite bool_decide_eq_false_2. }
  destruct remote; turn_steps; [done|]. by destruct (sp_write a n).
Qed.

Lemma spawn_hosts_spec a l h o :
  spawn_ok a → spawning h o → NoDup l → (∀ n, n ∈ l → known o n ∧ session_in h n = None) →
  wp (spawn_hosts serialize key bootstrap a l) (λ r st, r = Ok tt ∧ graph_exact st.1 st.2 ∧ owner_kept o st.2 ∧ in_hand st.1 st.2) (h, o).
Proof.
  intros Ha. revert h o. induction l as [|n l IH]; intros h o S Hnd Hall; cbn [spawn_hosts].
  { turn_steps. split_and!; [done|by apply sw_exact|reflexivity|by apply sw_hand]. }
  apply NoDup_cons in Hnd as [Hn Hnd]. destruct (Hall n) as [Hkn Hnone]; [by left|].
  rewrite wp_bind. eapply wp_mono; [by apply spawn_host_spec|]. intros r [h1 o1] [S1 Hk Hothers]. cbn [fst snd] in *.
  pose proof (ge_base _ _ _ _ _ (sw_exact _ _ S)) as G. pose proof (ge_base _ _ _ _ _ (sw_exact _ _ S1)) as G1.
  assert (Hd : ow_desired o1 = ow_desired o) by apply (proj2 (Hk (gb_wf _ _ _ _ _ G))).
  destruct r as [[]|e].
  - eapply wp_mono; [apply IH; [done|done|]|].
    + intros k Hkl. destruct (Hall k) as [Hkk Hkn']; [by right|]. unfold known. rewrite Hd. split; [done|]. rewrite Hothers; [done|]. by intros ->.
    + intros r [h2 o2] (->&E2&Hk2&Hh2). cbn [fst snd] in *. split_and!; [done|done|by etrans|done].
  - eapply wp_mono; [apply (fail_host_spec serialize compatibility key); [done|by unfold known; rewrite Hd| |]|].
    + intros x Hx Hp. pose proof (gb_stopped _ _ _ _ _ G1 n x Hx Hp) as Ht. unfold stopped_truly in Ht.
      destruct (session_in h1 n) as [s|] eqn:Hs.
      * destruct Ht as (Ht&_). destruct (ge_settled _ _ _ _ _ (sw_exact _ _ S1) n s Hs) as [_ Had]. by rewrite (sw_admission _ _ S1), Ht in Had.
      * destruct (sw_later _ _ S1 n Hs) as [A _]. by rewrite (A x Hx) in Hp.
    + unfold fail_pre. by rewrite (sw_admission _ _ S1).
    + intros r [h2 o2] (->&[F1 F2 F3 F4 F5]). cbn [fst snd] in *. split_and!; [done|done| |by apply (in_hand_same h1 o1), S1]. etrans; [exact Hk|apply F2].
Qed.

(** ** Runs *)

(** A deployment before it starts *)
Record startable (o : DeploymentOwner) : Prop := {
  su_desired : desired_ok (ow_desired o);
  su_children : ow_children o = [];
  su_ledger : bt_ok (ow_ledger o);
  su_phase : ds_phase (ow_status o) = DpStarting;
}.

Lemma install_spawning o g deadline d :
  startable o → spawning (mkHosted [] AdPreparing deadline d) (put_graph_generation g (install_hosted o)).
Proof.
  intros [Hd Hc Hl Hp]. set (o' := put_graph_generation g _).
  assert (Hi : ∀ k i, inst_of k o' = Some i → io_phase i = PAuthenticating ∧ io_report i = None).
  { intros k i Hi. apply bt_get_elem, bt_extend_elem in Hi as [Hi|Hi]; [by apply elem_of_nil in Hi|].
    by apply list_elem_of_fmap in Hi as (c&[= -> ->]&_). }
  assert (Hh : ∀ k x, host_of k o' = Some x → ho_phase x = PAuthenticating).
  { intros k x. unfold host_of, o'. cbn. rewrite bt_get_fmap. destruct (bt_get k _); [|done]. by intros [= <-]. }
  assert (Hw : owner_wf o').
  { constructor; cbn; [apply bt_ok_fmap, Hd|by apply bt_extend_ok|by rewrite Hc|done]. }
  assert (Hown : ∀ n, owned o' n = false) by (intros n; unfold owned; cbn; by rewrite Hc).
  assert (Hs : ∀ t, ¬ sent (mkHosted [] AdPreparing deadline d) t) by by intros t (n&s&c&Hs&_).
  constructor; [constructor|done|done| |]; try done.
  - constructor; try done.
    + intros k i r Hk Hr. destruct (Hi k i Hk). congruence.
    + intros n Hn. unfold host_of. cbn. rewrite bt_get_fmap. apply bt_key_get in Hn as [x Hx]; [|apply Hd].
      unfold install_hosted in *; cbn in *. rewrite Hx. by eexists.
    + intros n. by rewrite Hown.
    + intros Hst. by destruct (Hs 2).
    + change (ds_phase (ow_status o')) with (ds_phase (ow_status o)). by rewrite Hp.
    + intros k i x Hk Hx. rewrite (Hh _ _ Hx). by apply (Hi k).
  - change (ds_phase (ow_status o')) with (ds_phase (ow_status o)). by rewrite Hp.
  - intros n _. split; [apply Hh|]. intros k i Hk _. by apply (Hi k).
Qed.

Lemma start_hosted_spec a o :
  startable o → spawn_ok a →
  ∃ r hd o', start_hosted serialize key bootstrap digest a (install_hosted o) = Some (r, (hd, o')) ∧
    ∀ h, hd = Some h → r = Ok tt ∧ graph_exact h o' ∧ in_hand h o'.
Proof.
  intros Hst Ha. unfold start_hosted. destruct (checked_add _ _ _) as [g|]; [|by do 3 eexists].
  set (o1 := put_graph_generation g (install_hosted o)). destruct (digest (ow_desired o1)) as [d|e]; [|by do 3 eexists].
  set (h0 := mkHosted [] AdPreparing _ d). pose proof (install_spawning o g (sp_now a + START_GRACE)%Z d Hst) as S. fold o1 h0 in S.
  pose proof (spawn_hosts_spec a (pd_component_hosts (ow_desired o1)).*1 h0 o1 Ha S) as Hsp.
  apply wp_exists in Hsp as (r&[h o2]&Hrun&->&E&_&Hh).
  - rewrite Hrun. do 3 eexists. split; [done|]. by intros ? [= <-].
  - apply bt_ok_NoDup, (su_desired _ Hst).
  - by intros n Hn.
Qed.

(** What happens to a deployment that was started: turns, requests to stop, what
    the peers and the kernel do to the sockets, publications, clients that wait *)
Inductive DeployEvent : Type :=
  | DvTick (a : Answers)
  | DvStop (now : Z)
  | DvSocket (name : str) (input : list Z) (ends : option (option str)) (room : nat) (broken : option str)
  | DvPublish (now : Z) (written : result unit str)
  | DvWait (w : Waiter).

Definition put_socket (input : list Z) (ends : option (option str)) (room : nat) (broken : option str) (s : HostSession) : HostSession :=
  match ss_channel s with
  | Some c => ss_put_channel (Some (on_socket (λ k, mkSocket input ends room broken (sk_out k)) c)) s
  | None => s
  end.

Context (unique : list Z → bool) (parse : list Z → option (Envelope HostMessage)) (display : ReportError → str).

Definition deploy_event (e : DeployEvent) : ST Scope (result unit str) :=
  match e with
  | DvTick a => hosted_tick serialize unique parse compatibility display key a
  | DvStop now => stop_all_hosts serialize now StopRequested DpStopped
  | DvSocket name input ends room broken =>
      let* r := on_session name (bytes_of "no session") (set_session (put_socket input ends room broken)) in Deploy.done
  | DvPublish now written =>
      let* o := holder in let '(r, o) := publish now written o in set_holder (λ _, o) ;;; ret r
  | DvWait w => set_holder (λ o, put_waiters (ow_waiters o ++ [w]) o) ;;; Deploy.done
  end.

(** Errors are reported and the owner goes on *)
Fixpoint deploy_run (l : list DeployEvent) (st : Scope) : option Scope :=
  match l with
  | [] => Some st
  | e :: l => match deploy_event e st with Some (_, st) => deploy_run l st | None => None end
  end.

Definition event_ok (e : DeployEvent) : Prop := match e with DvTick a => answers_ok a | _ => True end.

Hypothesis Hparse : ∀ bytes e, parse bytes = Some e → message_typed (ev_body e).

(** What an event leaves of the graph *)
Record evolved (h : Hosted) (o : DeploymentOwner) (h' : Hosted) (o' : DeploymentOwner) : Prop := {
  ev_exact : graph_exact h' o';
  ev_scope : scope_rel h o h' o';
  ev_hand : in_hand h o → in_hand h' o';
}.

Lemma evolved_quiet h o o' : graph_exact h o → quiet o o' → evolved h o h o'.
Proof.
  intros E Q. assert (R : scope_rel h o h o').
  { apply scope_rel_owner; [by apply qu_kept|]. intros n. unfold owned. by rewrite (qu_children _ _ Q). }
  constructor; [by apply (graph_exact_quiet h o)|done|]. apply in_hand_same; [done|apply (qu_children _ _ Q)].
Qed.

Lemma put_socket_ok input ends room broken s :
  session_ok serialize compatibility s → session_ok serialize compatibility (put_socket input ends room broken s).
Proof.
  intros [Hb Hh]. unfold put_socket. destruct (ss_channel s) as [c|] eqn:Hc; [|done].
  split; [|exact Hh]. destruct Hb as [B1 B2 B3 B4]. destruct (B1 c Hc) as ([W1 W2 W3 W4 W5]&[K1 K2 K3 K4]&Hl). constructor; cbn; try done.
  - intros c' [= <-]. split_and!; [by constructor..|done].
  - intros Hls. destruct (B2 Hls) as [Hn _]. congruence.
Qed.

Lemma put_socket_fixed input ends room broken s : session_fixed s (put_socket input ends room broken s).
Proof.
  unfold put_socket. destruct (ss_channel s) as [c|] eqn:Hc; [|apply session_fixed_refl]. constructor.
  - constructor; try (done || apply kept_first_refl || apply same_record_refl). exists []. by rewrite app_nil_r.
  - intros c' t [= <-] Ht _ _. exists c. by split.
Qed.

Lemma put_socket_evolves name input ends room broken h o s :
  graph_exact h o → session_in h name = Some s →
  evolved h o (with_session name (put_socket input ends room broken s) h) o.
Proof.
  intros E Hs. pose proof (ge_base _ _ _ _ _ E) as G. pose proof (gb_map _ _ _ _ _ G) as Hm.
  destruct (gb_session _ _ _ _ _ G name s Hs) as (_&_&Hok&_). set (s' := put_socket input ends room broken s).
  assert (Hfix : session_fixed s s') by apply put_socket_fixed.
  assert (Hph : ss_phase s' = ss_phase s) by (unfold s', put_socket; by destruct (ss_channel s)).
  assert (Hrel : scope_rel h o (with_session name s' h) o) by (apply (scope_rel_with h o name s); [done..|apply Hfix|done|done]).
  constructor; [|done|by apply in_hand_same]. eapply (graph_exact_rel serialize compatibility key h o); [done| |done|done| | |].
  - eapply (graph_update serialize compatibility key h o name s s'); try done; [by apply put_socket_ok|by apply others_same_refl|right; by auto].
  - intros n sn. rewrite session_in_with by done. case_bool_decide; [|apply E]. intros [= <-].
    destruct (ge_settled _ _ _ _ _ E name s Hs) as [Hx Had]. split; [|by rewrite Hph]. unfold s', session_exact, put_socket.
    destruct (ss_channel s) as [c|] eqn:Hc; [|by rewrite Hc]. intros c' [= <-]. by apply (Hx c).
  - by destruct (hd_admission h).
  - intros Hr. split; [done|]. apply (everyone_with h name s s'); [done..|]. by rewrite Hph.
Qed.

Lemma deploy_event_spec e h o :
  event_ok e → graph_exact h o → wp (deploy_event e) (λ _ st, evolved h o st.1 st.2) (h, o).
Proof.
  intros He E. destruct e as [a|now|name input ends room broken|now written|w]; unfold deploy_event.
  - eapply wp_mono; [by apply hosted_tick_spec|]. intros r [h' o'] ([T1 T2 _ T3]&_). by constructor.
  - eapply wp_mono; [apply stop_all_spec; [apply E|done]|]. intros r [h' o'] (_&[A1 A2 A3 _ _]). constructor; [done..|]. by apply in_hand_same.
  - turn_steps. destruct (session_in h name) as [s|] eqn:Hs.
    + rewrite wp_on_session by done. turn_steps. by apply put_socket_evolves.
    + unfold on_session, wp. fold (session_in h name). rewrite Hs. by apply evolved_quiet, aside_refl.
  - turn_steps. destruct (publish now written o) as [r o'] eqn:Ep. turn_steps. apply evolved_quiet; [done|].
    pose proof (publish_aside now written o) as Hq. by rewrite Ep in Hq.
  - turn_steps. apply evolved_quiet; [done|]. constructor; try done. apply aside_kept; try done. exists []. by rewrite app_nil_r.
Qed.

Lemma deploy_run_spec l h o :
  Forall event_ok l → graph_exact h o → ∃ h' o', deploy_run l (h, o) = Some (h', o') ∧ evolved h o h' o'.
Proof.
  revert h o. induction l as [|e l IH]; intros h o Hall E; cbn [deploy_run].
  { exists h, o. split; [done|]. by apply evolved_quiet, aside_refl. }
  apply List.Forall_cons_iff in Hall as [He Hall]. pose proof (deploy_event_spec e h o He E) as Hsp.
  apply wp_exists in Hsp as (r&[h1 o1]&->&[E1 R1 H1]). destruct (IH h1 o1 Hall E1) as (h2&o2&Hr&[E2 R2 H2]).
  exists h2, o2. split; [done|]. constructor; [done|by eapply scope_rel_trans|auto].
Qed.
End runs.

(** ** Stopping *)

Section stopping.
Context (serialize : Envelope OwnerMessage → result (list Z) str).

(** Every deadline of a session is at most [t] *)
Definition within (t : Z) (s : HostSession) : Prop := ∀ d, ss_stop_deadline s = Some d → (d ≤ t)%Z.

Lemma within_unset t h :
  forallb (λ e : str * HostSession, is_none (ss_stop_deadline e.2)) (hd_sessions h) = true → everyone h (within t).
Proof.
  intros Hall n s Hs%bt_get_elem d Hd. rewrite forallb_forall in Hall. apply list_elem_of_In, Hall in Hs. cbn [snd] in Hs. by rewrite Hd in Hs.
Qed.

Lemma stop_session_within t now deadline reason name s o :
  (deadline ≤ t)%Z → within t s → wp (stop_session serialize now deadline reason name) (λ _ st, within t st.1) (s, o).
Proof.
  intros Hle Hs. unfold stop_session. turn_steps. destruct (negb (is_none _)); turn_steps; [done|].
  assert (Hset : within t (ss_put_stop_deadline (Some deadline) s)) by by intros d [= <-].
  destruct (ss_channel _) as [c|]; turn_steps; [|done]. destruct (_ <=? u64_max)%Z; turn_steps; [|done].
  destruct (host_queue _ _ _ _) as [[[]|e] c'] eqn:Eq; turn_steps; [done|].
  destruct (host_of _ _); cbn [ok_or]; turn_steps; done.
Qed.

Lemma request_stop_within t now deadline reason n h o :
  (deadline ≤ t)%Z → bt_ok (hd_sessions h) → everyone h (within t) →
  wp (request_stop serialize now deadline reason n) (λ _ st, bt_ok (hd_sessions st.1) ∧ everyone st.1 (within t)) (h, o).
Proof.
  intros Hle Hm Hall. unfold request_stop. turn_steps. fold (session_in h n). destruct (session_in h n) as [s|] eqn:Hs; turn_steps; [|done].
  rewrite wp_on_session by done. eapply wp_mono; [by apply (stop_session_within t); [|by apply (Hall n)]|].
  intros r [s' o'] Hs'. cbn [fst snd] in *. split; [by apply bt_insert_ok|].
  intros k sk. cbn [fst]. rewrite session_in_with by done. case_bool_decide; [by intros [= <-]|apply Hall].
Qed.

Lemma stop_all_within t now reason final h o :
  (now + STOP_GRACE ≤ t)%Z → bt_ok (hd_sessions h) → everyone h (within t) →
  wp (stop_all_hosts serialize now reason final) (λ _ st, everyone st.1 (within t)) (h, o).
Proof.
  intros Hle Hm Hall. unfold stop_all_hosts. turn_steps. set (h0 := put_admission _ h).
  assert (H0 : bt_ok (hd_sessions h0) ∧ everyone h0 (within t)) by done. clearbody h0. clear Hm Hall.
  generalize (with_phase DpStopping o) as o0, (pd_component_hosts (ow_desired (with_phase DpStopping o))).*1 as l. intros o0 l.
  revert h0 o0 H0. induction l as [|n l IH]; intros h0 o0 [Hm Hall]; cbn [try_each]; turn_steps; [done|].
  eapply wp_mono; [by apply (request_stop_within t)|]. intros r [h1 o1] H1. cbn [fst snd] in *.
  destruct r as [[]|e]; [|by apply H1]. by apply IH.
Qed.
End stopping.

(** ** What holds of every deployment *)

Section deployments.
Context (serialize : Envelope OwnerMessage → result (list Z) str) (compatibility : Compatibility) (key : SessionIdentity → str).
Context (bootstrap : Z → SessionIdentity → list Z → result (list Z) str) (digest : PreparedDeployment → result str str).
Context (unique : list Z → bool) (parse : list Z → option (Envelope HostMessage)) (display : ReportError → str).

Notation graph_exact := (graph_exact serialize compatibility key).
Notation run := (deploy_run serialize compatibility key unique parse display).
Notation tick := (hosted_tick serialize unique parse compatibility display key).

(** The decoder of reports makes maps *)
Definition parse_typed : Prop := ∀ bytes e, parse bytes = Some e → message_typed (ev_body e).

(** A deployment that was started *)
Definition started (a : SpawnAnswers) (o : DeploymentOwner) (h0 : Hosted) (o0 : DeploymentOwner) : Prop :=
  startable o ∧ spawn_ok a ∧
  ∃ r, start_hosted serialize key bootstrap digest a (install_hosted o) = Some (r, (Some h0, o0)).

Lemma started_run a o h0 o0 l :
  parse_typed → started a o h0 o0 → Forall event_ok l →
  ∃ h o', run l (h0, o0) = Some (h, o') ∧ graph_exact h o' ∧ scope_rel h0 o0 h o' ∧ owner_wf o0 ∧ in_hand h o'.
Proof.
  intros Hparse (Hst&Ha&r&Hrun) Hl.
  destruct (start_hosted_spec serialize compatibility key bootstrap digest a o Hst Ha) as (r'&hd&o1&E&Hex).
  rewrite E in Hrun. injection Hrun as -> -> ->. destruct (Hex h0 eq_refl) as (_&E0&H0).
  destruct (deploy_run_spec serialize compatibility key unique parse display Hparse l h0 o0 Hl E0) as (h&o'&Hr&[E1 R1 H1]).
  exists h, o'. split_and!; [done..|apply E0|auto].
Qed.

(** What the host at the other end of an open channel was given so far *)
Definition told (host_decode : list Z → result (Envelope OwnerMessage) ProcessError) (s : HostSession) (got : list OwnerMessage) : Prop :=
  ∃ c rd rest, ss_channel s = Some c ∧ delivers host_decode (reader_new (ss_identity s)) (sk_out (hc_socket c)) got rd rest.

Lemma lifecycle_prefix n got more : lifecycle n = got ++ more → ∃ k, k ≤ n ∧ got = lifecycle k.
Proof.
  intros E. exists (length got). assert (Hl : length got ≤ n) by (apply (f_equal length) in E; rewrite length_app in E; unfold lifecycle in E; rewrite length_seq in E; lia).
  split; [done|]. apply (f_equal (take (length got))) in E. rewrite take_app_length in E.
  unfold lifecycle in *. rewrite take_seq in E. by rewrite Nat.min_l in E.
Qed.

Lemma ordered_prefix stopping l got more :
  log_ordered stopping l → l = got ++ more →
  ∃ k, k ≤ 4 ∧ (got = lifecycle k ∨ got = lifecycle k ++ [4] ∧ stopping = true).
Proof.
  intros (n&Hn&[->|[-> ->]]) E.
  - destruct (lifecycle_prefix _ _ _ E) as (k&?&->). exists k. split; [lia|by left].
  - destruct more as [|x more _] using rev_ind; [exists n; rewrite app_nil_r in E; by auto|].
    rewrite app_assoc in E. apply app_inj_tail in E as [E _]. destruct (lifecycle_prefix _ _ _ E) as (k&?&->). exists k. split; [lia|by left].
Qed.

Lemma told_sent host_decode h o n s got :
  codec_law (channel_encode serialize) host_decode → graph_exact h o → session_in h n = Some s → told host_decode s got →
  (∃ k, k ≤ 4 ∧ (tag <$> got = lifecycle k ∨ tag <$> got = lifecycle k ++ [4] ∧ is_Some (ss_stop_deadline s))) ∧
  ∀ m, m ∈ got → sent h (tag m).
Proof.
  intros Hlaw E Hs (c&rd&rest&Hc&Hd). destruct (gb_session _ _ _ _ _ (ge_base _ _ _ _ _ E) n s Hs) as (_&_&[Hb _]&_).
  destruct (so_channel _ _ Hb c Hc) as (Hw&_&Hlog).
  destruct (written_delivers serialize (ss_identity s) host_decode c got rd rest Hlaw Hw Hd) as (more&Hm&_).
  assert (Hlm : log c = (tag <$> got) ++ (tag <$> more)) by (unfold log; by rewrite Hm, fmap_app).
  split.
  - destruct (ordered_prefix _ _ _ _ Hlog Hlm) as (k&Hk&Hg). exists k. split; [done|]. destruct Hg as [?|[? Hst]]; [by left|right].
    split; [done|]. by destruct (ss_stop_deadline s).
  - intros m Hin. exists n, s, c. split_and!; [done..|]. rewrite Hlm. apply elem_of_app. left. by apply list_elem_of_fmap_2.
Qed.

(** The turns of a stop: the system answers, and what is published is written *)
Record turn_fine (a : Answers) : Prop := {
  tf_ok : answers_ok a;
  tf_fine n : answers_fine a n;
  tf_publish : an_publish a = Ok tt;
}.

Lemma publish_error now o e o' :
  publish now (Ok tt) o = (Err e, o') → e = bytes_of "state revision exhausted".
Proof.
  unfold publish. case_bool_decide; [intros E; by apply pair_eq in E as [? _]|]. destruct (checked_add _ _ _); intros E;
    apply pair_eq in E as [E _]; [done|]. congruence.
Qed.

Lemma stop_turns_spec f turns h o :
  parse_typed → graph_exact h o → hd_admission h = AdAborting f ∨ ow_children o = [] → Forall turn_fine turns →
  Exists (λ a, everyone h (expired a)) turns ∨ ow_children o = [] →
  wp (stop_turns serialize unique parse compatibility display key turns)
    (λ r st, graph_exact st.1 st.2 ∧ scope_rel h o st.1 st.2 ∧
      (r = Err (bytes_of "state revision exhausted") ∨ r = Ok true ∧ ow_children st.2 = [])) (h, o).
Proof.
  intros Hparse. revert h o. induction turns as [|a turns IH]; intros h o E Ha Hfine Hex; cbn [stop_turns]; turn_steps.
  { case_bool_decide as Hc; turn_steps.
    - apply nil_length_inv in Hc. split_and!; [done|apply scope_rel_refl|by right].
    - destruct Hex as [Hex|Hex]; [by inversion Hex|by rewrite Hex in Hc]. }
  case_bool_decide as Hc; turn_steps.
  { apply nil_length_inv in Hc. split_and!; [done|apply scope_rel_refl|by right]. }
  destruct Ha as [Ha|Ha]; [|by rewrite Ha in Hc]. destruct Hex as [Hex|Hex]; [|by rewrite Hex in Hc].
  apply List.Forall_cons_iff in Hfine as [[Hok Hans Hpub] Hfine].
  eapply wp_mono; [by apply (hosted_tick_spec serialize compatibility key unique parse display Hparse)|].
  intros r [h1 o1] ([E1 R1 A1 _]&Hr). cbn [fst snd] in *. destruct (Hr f Ha Hans) as [-> Hoff]. turn_steps.
  pose proof (publish_aside (an_now a) (an_publish a) o1) as Q. destruct (publish _ _ o1) as [rp o2] eqn:Ep. cbn [snd] in Q. turn_steps.
  assert (E2 : graph_exact h1 o2) by by apply (graph_exact_quiet serialize compatibility key h1 o1).
  assert (R2 : scope_rel h o h1 o2).
  { eapply scope_rel_trans; [exact R1|]. apply scope_rel_owner; [by apply qu_kept|]. unfold owned. by rewrite (qu_children _ _ Q). }
  destruct rp as [[]|e]; turn_steps.
  2:{ split_and!; [done..|left]. rewrite Hpub in Ep. by apply publish_error in Ep as ->. }
  eapply wp_mono; [apply IH; try done|].
  - destruct (A1 f Ha) as [?|Hnone]; [by left|right]. by rewrite (qu_children _ _ Q).
  - rewrite (qu_children _ _ Q). apply List.Exists_cons in Hex as [Hex|Hex]; [right; by apply Hoff|left].
    eapply Exists_impl; [exact Hex|]. cbn. intros a' Hex' n s' Hs'. destruct (scope_rel_old _ _ _ _ n s' R1 Hs') as (s&Hs&[_ _ _ Hd _]).
    destruct (Hex' n s Hs) as (d&Hsd&?). exists d. split; [by apply Hd|done].
  - intros r [h3 o3] (E3&R3&H3). cbn [fst snd] in *. split_and!; [done|by eapply scope_rel_trans|done].
Qed.

Lemma stop_hosted_spec now t turns h o :
  parse_typed → graph_exact h o → everyone h (within t) → (now + STOP_GRACE ≤ t)%Z → Forall turn_fine turns →
  Exists (λ a, (t ≤ an_now a)%Z) turns →
  wp (stop_hosted serialize unique parse compatibility display key now turns)
    (λ r st, graph_exact st.1 st.2 ∧ scope_rel h o st.1 st.2 ∧
      (r = Err (bytes_of "state revision exhausted") ∨ r = Ok true ∧ ow_children st.2 = [])) (h, o).
Proof.
  intros Hparse E Hin Hle Hfine Hex. unfold stop_hosted. rewrite wp_bind_try. pose proof (ge_base _ _ _ _ _ E) as G.
  eapply wp_mono; [apply wp_conj; [by apply (stop_all_spec serialize compatibility key now StopRequested DpStopped h o G)|
    by apply (stop_all_within serialize t now StopRequested DpStopped h o Hle (gb_map _ _ _ _ _ G))]|].
  intros r [h1 o1] [(->&[B1 B2 B3 B4 B5]) Hin1]. cbn [fst snd] in *.
  eapply wp_mono; [apply (stop_turns_spec DpStopped); try done; [by left|left]|].
  - eapply Exists_impl; [exact Hex|]. cbn. intros a Hta n s Hs. pose proof (B5 n s Hs) as He.
    destruct (gb_session _ _ _ _ _ (ge_base _ _ _ _ _ B1) n s Hs) as (_&_&[Hb _]&_). cbn in He. rewrite (so_stop _ _ Hb) in He.
    destruct (ss_stop_deadline s) as [d|] eqn:Ed; [|done]. exists d. split; [done|]. pose proof (Hin1 n s Hs d Ed). lia.
  - intros r [h2 o2] (E2&R2&H2). split_and!; [done| |done]. by eapply scope_rel_trans.
Qed.
End deployments.

(** ** A small deployment *)

Definition demo_release : Compatibility := compatibility_current (bytes_of "0.1.0") 1.
Definition demo_factory : FactoryRegistration := mkFactory (bytes_of "camera") (bytes_of "1").
Definition demo_bindings : ModuleBindings := mkBindings MODULE_BINDINGS_VERSION (bytes_of "eye") (bytes_of "eye") [] [] [] [].
Definition demo_report : ModuleReport :=
  mkModuleReport MODULE_REPORT_VERSION SCHEMA_FINGERPRINT_VERSION (bytes_of "eye") (bytes_of "eye") [] [].
Definition demo_prepare : Prepare :=
  mkPrepare [mkAssignment demo_factory demo_bindings None] (TransportLocal (bytes_of "lab") [(bytes_of "eye", bytes_of "front")]) 29999.

Definition demo_prepared : PreparedDeployment :=
  mkPrepared [] (bytes_of "demo") (bytes_of "lab") []
    [mkPreparedComponent (bytes_of "eye") [] (mkComponentSpec (bytes_of "camera") (bytes_of "1") None []) (bytes_of "front")
       None None demo_bindings (bytes_of "f")]
    [(bytes_of "front", mkPreparedHost [] [] [] (mkHostSpec [] [] LocalOnly None Manual FReport) (mkProvider Process [] None [])
       [bytes_of "eye"] (bytes_of "b"))] [].

Definition demo_deployment : DeploymentOwner :=
  mkOwner demo_prepared (mkDeploymentStatus 3 (bytes_of "/r") (bytes_of "demo") (bytes_of "lab") (bytes_of "g") 41 true 0 DpStarting [] [] [] [] None) None [] [] [] 0 0 (Ok 7%Z) [] [] [] [].
Definition demo_identity : SessionIdentity := mkSession 7 1 (bytes_of "front") 1 (bytes_of "d") (bytes_of "b").

#[export] Instance Prepare_eq_dec : EqDecision Prepare.
Proof.
  assert (EqDecision InputBinding) by solve_decision. assert (EqDecision OutputBinding) by solve_decision.
  assert (EqDecision PortDelegation) by solve_decision. assert (EqDecision ModuleBindings) by solve_decision.
  assert (EqDecision ConfigOrigin) by solve_decision. assert (EqDecision ComponentAssignment) by solve_decision.
  assert (EqDecision TransportSettings) by solve_decision. solve_decision.
Defined.

(** One byte for the sequence, one for the body *)
Definition demo_serialize (e : Envelope OwnerMessage) : result (list Z) str :=
  if bool_decide (ev_session e = demo_identity) then
    match ev_body e with
    | Authenticated c fs => if bool_decide (c = demo_release ∧ fs = [demo_factory]) then Ok [ev_sequence e; 0]%Z else Err []
    | OwnerPrepare p => if bool_decide (p = demo_prepare) then Ok [ev_sequence e; 1]%Z else Err []
    | OwnerCommit => Ok [ev_sequence e; 2]%Z
    | OwnerRun => Ok [ev_sequence e; 3]%Z
    | OwnerStop StopRequested 2000 => Ok [ev_sequence e; 4]%Z
    | _ => Err []
    end
  else Err [].
Definition demo_tell (payload : list Z) : result (Envelope OwnerMessage) ProcessError :=
  match payload with
  | [n; t]%Z =>
      Ok (mkEnvelope demo_identity n
        (if (t =? 0)%Z then Authenticated demo_release [demo_factory] else if (t =? 1)%Z then OwnerPrepare demo_prepare
         else if (t =? 2)%Z then OwnerCommit else if (t =? 3)%Z then OwnerRun else OwnerStop StopRequested 2000))
  | _ => Err (mkProcessError MalformedMessage)
  end.
Definition demo_parse (payload : list Z) : option (Envelope HostMessage) :=
  match payload with
  | [n; t]%Z =>
      Some (mkEnvelope demo_identity n
        (if (t =? 0)%Z then HostAuthenticate (mkAuthenticate [5; 6]%Z demo_release [demo_factory])
         else if (t =? 1)%Z then HostReport demo_report else if (t =? 2)%Z then HostPreparedComplete
         else if (t =? 3)%Z then HostCommitted else if (t =? 4)%Z then HostRunning else HostOutcomeMessage OutcomeStopped))
  | _ => None
  end.

Definition demo_spawn : SpawnAnswers :=
  mkSpawnAnswers 0 (λ _, Ok ([], [], false)) (λ _, Ok [5; 6]%Z) (λ _, Ok 4000%Z) (λ _, Ok tt) (λ _, Err []) (λ _, Persisted)
    (λ _, Ok tt) (λ _, Ok (Some 99%Z)) (λ _, Ok tt).
Definition demo_bootstrap (port : Z) (identity : SessionIdentity) (nonce : list Z) : result (list Z) str := Ok nonce.
Definition demo_digest (d : PreparedDeployment) : result str str := Ok (bytes_of "d").
Definition demo_key (identity : SessionIdentity) : str := host_id identity.

Definition demo_unique (l : list Z) : bool := true.
Definition demo_display (e : ReportError) : str := [].

(** The host connects and says what is asked of it; it ends in three seconds *)
Definition demo_frame (n t : Z) : list Z := [0; 0; 0; 2; n; t]%Z.
Definition demo_turn (now : Z) : Answers :=
  mkAnswers now (λ _, Accepted true (mkSocket (demo_frame 0 0 ++ demo_frame 1 1 ++ demo_frame 2 2) None 100 None []))
    (λ _, GateWaits) (λ _, Ok (if (now <? 3 * SECOND)%Z then None else Some (mkExitStatus true (Some 0%Z) (bytes_of "exit status: 0"))))
    (λ _, Ok tt) (λ _, Persisted) (Ok tt).
Definition demo_arrives (n t : Z) : DeployEvent := DvSocket (bytes_of "front") (demo_frame n t) None 100 None.
Definition demo_events : list DeployEvent :=
  [DvTick (demo_turn 1); DvTick (demo_turn 2); demo_arrives 3 3; DvTick (demo_turn 3); demo_arrives 4 4; DvTick (demo_turn 4); DvPublish 5 (Ok tt)].

Definition demo_started : option (result unit str * (option Hosted * DeploymentOwner)) :=
  start_hosted demo_serialize demo_key demo_bootstrap demo_digest demo_spawn (install_hosted demo_deployment).
Definition demo_running (l : list DeployEvent) : option Scope :=
  match demo_started with
  | Some (_, (Some h, o)) => deploy_run demo_serialize demo_release demo_key demo_unique demo_parse demo_display l (h, o)
  | _ => None
  end.

(** ** Authentication *)

(** [ensure!] that no two nonces differ *)
Lemma nonce_difference_zero left right :
  length left = length right → nonce_difference left right = 0%Z ↔ left = right.
Proof.
  unfold nonce_difference.
  assert (Hgen : ∀ l r acc, length l = length r →
    foldl (λ d '(x, y), Z.lor d (Z.lxor x y)) acc (zip l r) = 0%Z ↔ acc = 0%Z ∧ l = r).
  { induction l as [|x l IH]; intros [|y r] acc; cbn; try done; [by intros _; split; [|intros [? _]]|].
    intros [= Hl]. rewrite IH by done. rewrite Z.lor_eq_0_iff, Z.lxor_eq_0_iff. split; [intros [[-> ->] ->]|intros [-> [= -> ->]]]; done. }
  intros Hl. rewrite Hgen by done. split; [by intros [_ ?]|by intros ->].
Qed.

(** Registrations in order are a map from factories *)
Definition registry (l : list FactoryRegistration) : btree str str := (λ r, (fr_factory r, fr_revision r)) <$> l.
Lemma factories_increase_ok l : factories_increase l = true ↔ bt_ok (registry l).
Proof.
  induction l as [|x [|y l] IH]; cbn [factories_increase registry fmap list_fmap bt_ok]; [done|by split; [repeat constructor|]|].
  destruct (cmp (fr_factory x) (fr_factory y)) eqn:E.
  - split; [done|]. intros [Hall _]. apply List.Forall_cons_iff in Hall as [Hxy _]. cbn in Hxy. congruence.
  - rewrite IH. cbn. split; [|by intros [_ ?]]. intros [Hall Hok]. split; [|by split]. constructor; [done|].
    eapply Forall_impl; [exact Hall|]. cbn. intros e He. by apply (cmp_trans _ (fr_factory y)).
  - split; [done|]. intros [Hall _]. apply List.Forall_cons_iff in Hall as [Hxy _]. cbn in Hxy. congruence.
Qed.

Section authentication.
Context (serialize : Envelope OwnerMessage → result (list Z) str) (compatibility : Compatibility).

(** What a host has to prove *)
Record acceptable (s : HostSession) (proof : Authenticate) : Prop := {
  ac_nonce : ss_nonce s = Some (au_nonce proof);
  ac_compatibility : au_compatibility proof = compatibility;
  ac_few : length (au_registrations proof) ≤ 1024;
  ac_sorted : bt_ok (registry (au_registrations proof));
  ac_complete x : x ∈ ss_assignments s → ca_implementation x ∈ au_registrations proof;
}.

Lemma required_factories_elem s f : f ∈ required_factories s ↔ ∃ x, x ∈ ss_assignments s ∧ f = ca_implementation x.
Proof.
  unfold required_factories, bt_collect. rewrite bt_extend_keys_iff, <- list_fmap_compose by done.
  split; [intros [Hn|(x&->&?)%list_elem_of_fmap]; [by apply elem_of_nil in Hn|by exists x]|].
  intros (x&?&->). right. apply list_elem_of_fmap. by exists x.
Qed.

Lemma factories_present s proof :
  forallb (λ f, existsb (λ g, bool_decide (g = f)) (au_registrations proof)) (required_factories s) = true ↔
  ∀ x, x ∈ ss_assignments s → ca_implementation x ∈ au_registrations proof.
Proof.
  rewrite forallb_forall. setoid_rewrite <- list_elem_of_In. setoid_rewrite existsb_exists. split.
  - intros Hall x Hx. destruct (Hall (ca_implementation x)) as (g&Hg%list_elem_of_In&Heq%bool_decide_eq_true); [|by subst].
    apply required_factories_elem. by exists x.
  - intros Hall f (x&Hx&->)%required_factories_elem. exists (ca_implementation x).
    split; [by apply list_elem_of_In, Hall|by apply bool_decide_eq_true_2].
Qed.

Definition prepare_of (now : Z) (s : HostSession) : Prepare :=
  mkPrepare (ss_assignments s) (ss_transport s) (Z.max 0 (ss_startup_deadline s - now) / 1000000).

Lemma authenticate_spec a proof s o :
  ss_phase s = SpAuthenticating → (∀ nonce, ss_nonce s = Some nonce → length nonce = length (au_nonce proof)) →
  wp (authenticate serialize compatibility a proof)
    (λ r st, st.2 = o ∧ ss_nonce st.1 = None ∧
      (¬ acceptable s proof → (∃ e, r = Err e) ∧ st.1 = ss_put_nonce None s) ∧
      (r = Ok tt → acceptable s proof ∧ ss_phase st.1 = SpPreparing) ∧
      (acceptable s proof → ∀ c c1 c2, ss_channel s = Some c → (pp_remaining_budget (prepare_of (an_now a) s) ≤ u64_max)%Z →
         host_queue serialize (an_now a) (Authenticated compatibility (required_factories s)) c = (Ok tt, c1) →
         host_queue serialize (an_now a) (OwnerPrepare (prepare_of (an_now a) s)) c1 = (Ok tt, c2) →
         r = Ok tt ∧ st.1 = ss_put_phase SpPreparing (ss_put_channel (Some c2) (ss_put_nonce None s)))) (s, o).
Proof.
  intros Hp Hlen. unfold authenticate. turn_steps. rewrite bool_decide_eq_true_2 by done. turn_steps.
  set (s0 := ss_put_nonce None s).
  assert (Hrefused : ∀ e : str, ¬ acceptable s proof →
    o = o ∧ ss_nonce s0 = None ∧ (¬ acceptable s proof → (∃ e', (Err e : result unit str) = Err e') ∧ s0 = s0) ∧
    ((Err e : result unit str) = Ok tt → acceptable s proof ∧ ss_phase s0 = SpPreparing) ∧
    (acceptable s proof → ∀ c c1 c2, ss_channel s = Some c → (pp_remaining_budget (prepare_of (an_now a) s) ≤ u64_max)%Z →
         host_queue serialize (an_now a) (Authenticated compatibility (required_factories s)) c = (Ok tt, c1) →
         host_queue serialize (an_now a) (OwnerPrepare (prepare_of (an_now a) s)) c1 = (Ok tt, c2) →
         (Err e : result unit str) = Ok tt ∧ s0 = ss_put_phase SpPreparing (ss_put_channel (Some c2) s0))).
  { intros e Hn. split_and!; [done|done|intros _; by split; [eexists|]|done|by intros ?]. }
  destruct (ss_nonce s) as [nonce|] eqn:En; cbn [ok_or]; turn_steps.
  2:{ apply Hrefused. intros [Hac _ _ _ _]. congruence. }
  destruct (nonce_difference nonce (au_nonce proof) =? 0)%Z eqn:Ed; turn_steps.
  2:{ apply Hrefused. intros [Hac _ _ _ _]. apply Z.eqb_neq in Ed. rewrite En in Hac. injection Hac as ->. apply Ed. by apply nonce_difference_zero. }
  apply Z.eqb_eq, nonce_difference_zero in Ed as ->; [|by apply Hlen].
  case_bool_decide as Hcomp; turn_steps; [|by apply Hrefused; intros []].
  destruct ((length (au_registrations proof) <=? 1024) && factories_increase (au_registrations proof)) eqn:Er; turn_steps.
  2:{ apply Hrefused. intros [_ _ Hf Hok _]. apply factories_increase_ok in Hok. rewrite Hok, andb_true_r in Er. by apply Nat.leb_gt in Er; lia. }
  apply andb_true_iff in Er as [Hfew%Nat.leb_le Hinc%factories_increase_ok].
  change (required_factories s0) with (required_factories s). pose proof (factories_present s proof) as Hpres.
  destruct (forallb _ (required_factories s)); turn_steps; [|by apply Hrefused; intros [_ _ _ _ Hall%Hpres]].
  assert (Hacc : acceptable s proof) by (constructor; try done; by apply Hpres). clear Hrefused Hpres.
  unfold queue_message. turn_steps. change (ss_channel s0) with (ss_channel s).
  destruct (ss_channel s) as [c|] eqn:Ec; turn_steps.
  2:{ split_and!; [done|done|by intros ?|done|done]. }
  destruct (host_queue serialize (an_now a) (Authenticated _ _) c) as [[[]|e] c1] eqn:Eq1; turn_steps.
  2:{ split_and!; [done|done|by intros ?|done|]. intros _ c' c1' c2 [= <-] _. congruence. }
  fold (prepare_of (an_now a) s). change (Z.max 0 (ss_startup_deadline s - an_now a) / 1000000)%Z with (pp_remaining_budget (prepare_of (an_now a) s)).
  destruct (_ <=? u64_max)%Z eqn:Eb; turn_steps.
  2:{ split_and!; [done|done|by intros ?|done|]. intros _ c' c1' c2 [= <-] Hb. lia. }
  change (mkPrepare _ _ _) with (prepare_of (an_now a) s). change (ss_channel (ss_put_channel (Some c1) s0)) with (Some c1). cbn beta iota.
  destruct (host_queue serialize (an_now a) (OwnerPrepare (prepare_of (an_now a) s)) c1) as [[[]|e] c2] eqn:Eq2; turn_steps.
  2:{ split_and!; [done|done|by intros ?|done|]. intros _ c' c1' c2' [= <-] _. congruence. }
  split_and!; [done|done|by intros ?|done|]. intros _ c' c1' c2' [= <-] _ Hq1 Hq2. split; [done|].
  rewrite Eq1 in Hq1. apply pair_eq in Hq1 as [_ <-]. rewrite Eq2 in Hq2. by apply pair_eq in Hq2 as [_ <-].
Qed.
End authentication.

(** C26: a host is admitted exactly when it proves what it has to: the nonce of
    its bootstrap, the contracts of this build, and factories in strict order, at
    most 1024 of them, among which are all its assignments need.  The nonce is
    gone after the first attempt, whatever its outcome; a refused peer is sent
    nothing; an accepted one is sent the acknowledgement and its preparation with
    the time that is left, and the session prepares.  The owner is not touched. *)
Theorem authenticate_exact (serialize : Envelope OwnerMessage → result (list Z) str) (compatibility : Compatibility)
    (a : Answers) (proof : Authenticate) (s : HostSession) (o : DeploymentOwner) :
  ss_phase s = SpAuthenticating → (∀ nonce, ss_nonce s = Some nonce → length nonce = length (au_nonce proof)) →
  ∃ r s', authenticate serialize compatibility a proof (s, o) = Some (r, (s', o)) ∧ ss_nonce s' = None ∧
    (¬ acceptable compatibility s proof → (∃ e, r = Err e) ∧ s' = ss_put_nonce None s) ∧
    (r = Ok tt → acceptable compatibility s proof ∧ ss_phase s' = SpPreparing) ∧
    (acceptable compatibility s proof → ∀ c c1 c2,
       ss_channel s = Some c → (pp_remaining_budget (prepare_of (an_now a) s) ≤ u64_max)%Z →
       host_queue serialize (an_now a) (Authenticated compatibility (required_factories s)) c = (Ok tt, c1) →
       host_queue serialize (an_now a) (OwnerPrepare (prepare_of (an_now a) s)) c1 = (Ok tt, c2) →
       r = Ok tt ∧ s' = ss_put_phase SpPreparing (ss_put_channel (Some c2) (ss_put_nonce None s))).
Proof.
  intros Hp Hlen. pose proof (authenticate_spec serialize compatibility a proof s o Hp Hlen) as Hsp.
  apply wp_exists in Hsp as (r&[s' o']&E&Ho&Hn&H1&H2&H3). cbn [fst snd] in *. subst. exists r, s'. by split_and!.
Qed.

Section claims.
Context (serialize : Envelope OwnerMessage → result (list Z) str) (compatibility : Compatibility) (key : SessionIdentity → str).
Context (bootstrap : Z → SessionIdentity → list Z → result (list Z) str) (digest : PreparedDeployment → result str str).
Context (unique : list Z → bool) (parse : list Z → option (Envelope HostMessage)) (display : ReportError → str).
Context (host_decode : list Z → result (Envelope OwnerMessage) ProcessError).

Notation started := (started serialize key bootstrap digest).
Notation run := (deploy_run serialize compatibility key unique parse display).

(** C10: admission is in order.  Whatever happens to a deployment after it was
    started - turns, lost and refused connections, bytes the peers send, exits,
    deadlines, a stop - a turn never panics, and what an open channel gave its
    host is a prefix of authenticated, prepare, commit, run, possibly cut short by
    one stop.  No host is told to commit before all hosts said that they are
    prepared and their reports make a valid graph together, and none is told to
    run before all acknowledged the commit. *)
Theorem admission_in_order (a : SpawnAnswers) (o : DeploymentOwner) (h0 : Hosted) (o0 : DeploymentOwner) (l : list DeployEvent) :
  parse_typed parse → codec_law (channel_encode serialize) host_decode → started a o h0 o0 → Forall event_ok l →
  ∃ h o', run l (h0, o0) = Some (h, o') ∧ ∀ n s got, session_in h n = Some s → told host_decode s got →
    (∃ k, k ≤ 4 ∧ (tag <$> got = lifecycle k ∨ tag <$> got = lifecycle k ++ [4] ∧ is_Some (ss_stop_deadline s))) ∧
    (OwnerCommit ∈ got → graph_valid o' ∧ everyone h was_prepared) ∧
    (OwnerRun ∈ got → everyone h (λ s, HostCommitted ∈ ss_heard s)).
Proof.
  intros Hparse Hlaw Hst Hl. destruct (started_run serialize compatibility key bootstrap digest unique parse display a o h0 o0 l Hparse Hst Hl)
    as (h&o'&Hr&E&_). exists h, o'. split; [done|]. intros n s got Hs Htold.
  destruct (told_sent serialize compatibility key host_decode h o' n s got Hlaw E Hs Htold) as [Hk Hsent]. pose proof (ge_base _ _ _ _ _ E) as G.
  split_and!; [done|by intros Hin%Hsent; apply (gb_commit _ _ _ _ _ G)|by intros Hin%Hsent; apply (gb_run _ _ _ _ _ G)].
Qed.


(** C23: nothing is forgotten.  From the start on, the first error, failure and
    outcome of every host, the first error of every instance and of the
    deployment, the errors of cleanup and the answers to clients stay; a
    session keeps its identity, its assignments and the deadline of its stop, the
    record of its remote host keeps identity and target; and no process is owned
    that was not. *)
Theorem nothing_is_forgotten (a : SpawnAnswers) (o : DeploymentOwner) (h0 : Hosted) (o0 : DeploymentOwner) (l : list DeployEvent) :
  parse_typed parse → started a o h0 o0 → Forall event_ok l →
  ∃ h o', run l (h0, o0) = Some (h, o') ∧ facts_kept o0 o' ∧ (∀ n, owned o' n = true → owned o0 n = true) ∧
    ∀ n, option_Forall2 session_kept (session_in h0 n) (session_in h n).
Proof.
  intros Hparse Hst Hl. destruct (started_run serialize compatibility key bootstrap digest unique parse display a o h0 o0 l Hparse Hst Hl)
    as (h&o'&Hr&_&[Hk Hc Hs _]&Hw&_). exists h, o'. split_and!; try done. by apply Hk.
Qed.

(** C22: stopping ends.  Whatever happened to a deployment before, a stop whose
    turns find the processes, can kill and record them, and reach the time [t]
    that is past every deadline set so far and the grace of this stop, returns
    with no process left, whether or not the hosts answer; the only error is that
    the revision counter is exhausted. *)
Theorem stopping_ends (a : SpawnAnswers) (o : DeploymentOwner) (h0 : Hosted) (o0 : DeploymentOwner) (l : list DeployEvent)
    (now t : Z) (turns : list Answers) (h : Hosted) (o' : DeploymentOwner) :
  parse_typed parse → started a o h0 o0 → Forall event_ok l → run l (h0, o0) = Some (h, o') →
  everyone h (within t) → (now + STOP_GRACE ≤ t)%Z → Forall turn_fine turns → Exists (λ a, (t ≤ an_now a)%Z) turns →
  ∃ r h2 o2, stop_hosted serialize unique parse compatibility display key now turns (h, o') = Some (r, (h2, o2)) ∧
    (r = Ok true ∧ ow_children o2 = [] ∨ r = Err (bytes_of "state revision exhausted")).
Proof.
  intros Hparse Hst Hl Hr Hin Hle Hfine Hex.
  destruct (started_run serialize compatibility key bootstrap digest unique parse display a o h0 o0 l Hparse Hst Hl) as (h1&o1&Hr1&E&_).
  rewrite Hr in Hr1. injection Hr1 as <- <-.
  pose proof (stop_hosted_spec serialize compatibility key unique parse display now t turns h o' Hparse E Hin Hle Hfine Hex) as Hsp.
  apply wp_exists in Hsp as (r&[h2 o2]&Hrun&_&_&Hend). exists r, h2, o2. split; [done|]. destruct Hend; auto.
Qed.
End claims.

(** The status with the next revision *)
Definition next_status (s : DeploymentStatus) : DeploymentStatus :=
  mkDeploymentStatus (ds_version s) (ds_root s) (ds_deployment s) (ds_domain s) (ds_owner_generation s) (ds_owner_pid s)
    (ds_owner_alive s) (ds_revision s + 1) (ds_phase s) (ds_modules s) (ds_component_hosts s) (ds_components s)
    (ds_resources s) (ds_error s).

(** C27: a publication answers the waiters it settles and no others.  A status
    that changed gets the next revision and is written; then every waiter for
    which the new status decides ([decided]: ready or never ready, a later
    revision, over, or no such wait), or whose time is over, is sent that answer
    once, the others wait on, none is lost, and no answer sent before changes.
    Nothing is answered when the status did not change, the revision is
    exhausted, or the write failed. *)
Theorem publish_exact (now : Z) (written : result unit str) (o o' : DeploymentOwner) (r : result unit str) :
  publish now written o = (r, o') →
  (ow_published o = Some (ow_status o) → r = Ok tt ∧ o' = o) ∧
  (ow_published o ≠ Some (ow_status o) → r = Ok tt →
     ow_status o' = next_status (ow_status o) ∧ ow_published o' = Some (ow_status o') ∧
     ∃ answered more, ow_waiters o ≡ₚ ow_waiters o' ++ answered ∧ ow_replies o' = ow_replies o ++ more ∧
       Forall (waits_on now (ow_status o')) (ow_waiters o') ∧ Forall2 (answers_truly now (ow_status o')) answered more) ∧
  (r ≠ Ok tt → ow_published o' = ow_published o ∧ ow_waiters o' = ow_waiters o ∧ ow_replies o' = ow_replies o) ∧
  (written = Ok tt → (ds_revision (ow_status o) < u64_max)%Z → r = Ok tt).
Proof.
  unfold publish. case_bool_decide as Hp; [intros E; apply pair_eq in E as [<- <-]; by split_and!|].
  destruct (checked_add 64 (ds_revision (ow_status o)) 1) as [n|] eqn:Ec.
  2:{ intros E; apply pair_eq in E as [<- <-]. split_and!; try done. intros _ Hlt. unfold checked_add in Ec.
      destruct (_ <? _)%Z eqn:El; [done|]. apply Z.ltb_ge in El. unfold u64_max in Hlt. lia. }
  assert (Hn : n = (ds_revision (ow_status o) + 1)%Z) by (unfold checked_add in Ec; destruct (_ <? _)%Z; congruence). subst n.
  destruct written as [[]|e]; intros E; apply pair_eq in E as [<- <-]; [|by split_and!]. split_and!; try done. intros _ _.
  set (o1 := put_published _ _). destruct (notify_loop_spec (length (ow_waiters o1)) now 0 o1) as (left&answered&more&E&Hperm&Hnone&Hans); [lia|by constructor|].
  unfold notify_waiters. rewrite E. split_and!; [done|done|]. exists answered, more. by split_and!.
Qed.

(** ** The small deployment *)

Definition demo_scope : Scope :=
  match demo_started with Some (_, (Some h, o)) => (h, o) | _ => (mkHosted [] AdFinished 0 [], demo_deployment) end.

Lemma demo_law : codec_law (channel_encode demo_serialize) demo_tell.
Proof.
  intros [session n b] payload. unfold channel_encode, demo_serialize. cbn. case_bool_decide as E; [|done]. cbn in E. subst.
  destruct b as [|c fs|p| | |reason budget]; cbn; try (by intros [= <-]); try done.
  - case_bool_decide as E; [|done]. destruct E as [-> ->]. by intros [= <-].
  - case_bool_decide as E; [|done]. subst. by intros [= <-].
  - destruct reason; try done. destruct (decide (budget = 2000%Z)) as [->|Hne]; [by intros [= <-]|].
    intros Hx. exfalso. revert Hx Hne. clear. destruct budget as [|p|p]; try done. do 11 (destruct p as [p|p|]; try done).
Qed.

Lemma demo_typed : parse_typed demo_parse.
Proof.
  intros [|n [|t [|]]] e; try done. cbn. intros [= <-]. cbn.
  repeat match goal with |- context [(?x =? ?y)%Z] => destruct (x =? y)%Z end; done.
Qed.

Lemma demo_is_started : DeployProps.started demo_serialize demo_key demo_bootstrap demo_digest demo_spawn demo_deployment demo_scope.1 demo_scope.2.
Proof.
  split; [|split].
  - constructor; try done. constructor; [by repeat constructor|]. intros c Hc. apply list_elem_of_singleton in Hc as ->. done.
  - by intros n l d.
  - exists (Ok tt). by vm_compute.
Qed.

Lemma demo_events_ok : Forall event_ok demo_events.
Proof. repeat constructor; intros name loopback socket [= <- <-]; done. Qed.

Definition demo_end : Scope := match demo_running demo_events with Some st => st | None => demo_scope end.

Lemma demo_run_end :
  deploy_run demo_serialize demo_release demo_key demo_unique demo_parse demo_display demo_events (demo_scope.1, demo_scope.2) = Some (demo_end.1, demo_end.2).
Proof. by vm_compute. Qed.

Lemma demo_no_deadline : forallb (λ e : str * HostSession, is_none (ss_stop_deadline e.2)) (hd_sessions demo_end.1) = true.
Proof. by vm_compute. Qed.
Lemma demo_end_within : everyone demo_end.1 (within (4 * SECOND)).
Proof. exact (within_unset _ _ demo_no_deadline). Qed.

Lemma demo_turns_fine : Forall turn_fine [demo_turn SECOND; demo_turn (5 * SECOND)].
Proof. repeat constructor; intros name loopback socket [= <- <-]; done. Qed.

Definition demo_fresh : HostSession :=
  mkHostSession false (Some (host_channel_new (mkSocket [] None 100 None []) demo_identity)) demo_identity (Some [5; 6]%Z)
    (pp_assignments demo_prepare) (pp_transport demo_prepare) SpAuthenticating [] (30 * SECOND) None None None None None [].
Definition demo_proof : Authenticate := mkAuthenticate [5; 6]%Z demo_release [demo_factory].

Lemma authenticate_exact_witness :
  acceptable demo_release demo_fresh demo_proof ∧
  ∃ r s', authenticate demo_serialize demo_release (demo_turn 1) demo_proof (demo_fresh, demo_deployment) = Some (r, (s', demo_deployment)) ∧
    ss_nonce s' = None ∧
    (¬ acceptable demo_release demo_fresh demo_proof → (∃ e, r = Err e) ∧ s' = ss_put_nonce None demo_fresh) ∧
    (r = Ok tt → acceptable demo_release demo_fresh demo_proof ∧ ss_phase s' = SpPreparing) ∧
    (acceptable demo_release demo_fresh demo_proof → ∀ c c1 c2,
       ss_channel demo_fresh = Some c → (pp_remaining_budget (prepare_of (an_now (demo_turn 1)) demo_fresh) ≤ u64_max)%Z →
       host_queue demo_serialize (an_now (demo_turn 1)) (Authenticated demo_release (required_factories demo_fresh)) c = (Ok tt, c1) →
       host_queue demo_serialize (an_now (demo_turn 1)) (OwnerPrepare (prepare_of (an_now (demo_turn 1)) demo_fresh)) c1 = (Ok tt, c2) →
       r = Ok tt ∧ s' = ss_put_phase SpPreparing (ss_put_channel (Some c2) (ss_put_nonce None demo_fresh))).
Proof.
  split.
  - constructor; [done|done|cbn; lia|by repeat constructor|]. intros x Hx. apply list_elem_of_singleton in Hx as ->. by left.
  - apply (authenticate_exact demo_serialize demo_release (demo_turn 1) demo_proof demo_fresh demo_deployment); [done|]. by intros nonce [= <-].
Defined.

Lemma admission_in_order_witness :
  ∃ h o', deploy_run demo_serialize demo_release demo_key demo_unique demo_parse demo_display demo_events (demo_scope.1, demo_scope.2) = Some (h, o') ∧
    ∀ n s got, session_in h n = Some s → told demo_tell s got →
    (∃ k, k ≤ 4 ∧ (tag <$> got = lifecycle k ∨ tag <$> got = lifecycle k ++ [4] ∧ is_Some (ss_stop_deadline s))) ∧
    (OwnerCommit ∈ got → graph_valid o' ∧ everyone h was_prepared) ∧
    (OwnerRun ∈ got → everyone h (λ s, HostCommitted ∈ ss_heard s)).
Proof.
  apply (admission_in_order demo_serialize demo_release demo_key demo_bootstrap demo_digest demo_unique demo_parse demo_display demo_tell
           demo_spawn demo_deployment demo_scope.1 demo_scope.2 demo_events demo_typed demo_law demo_is_started demo_events_ok).
Defined.


Lemma nothing_is_forgotten_witness :
  ∃ h o', deploy_run demo_serialize demo_release demo_key demo_unique demo_parse demo_display demo_events (demo_scope.1, demo_scope.2) = Some (h, o') ∧
    facts_kept demo_scope.2 o' ∧ (∀ n, owned o' n = true → owned demo_scope.2 n = true) ∧
    ∀ n, option_Forall2 session_kept (session_in demo_scope.1 n) (session_in h n).
Proof.
  apply (nothing_is_forgotten demo_serialize demo_release demo_key demo_bootstrap demo_digest demo_unique demo_parse demo_display
           demo_spawn demo_deployment demo_scope.1 demo_scope.2 demo_events demo_typed demo_is_started demo_events_ok).
Defined.

Lemma stopping_ends_witness :
  ds_phase (ow_status demo_end.2) = DpReady ∧
  ∃ r h2 o2, stop_hosted demo_serialize demo_unique demo_parse demo_release demo_display demo_key SECOND [demo_turn SECOND; demo_turn (5 * SECOND)]
      (demo_end.1, demo_end.2) = Some (r, (h2, o2)) ∧
    (r = Ok true ∧ ow_children o2 = [] ∨ r = Err (bytes_of "state revision exhausted")).
Proof.
  split; [by vm_compute|].
  apply (stopping_ends demo_serialize demo_release demo_key demo_bootstrap demo_digest demo_unique demo_parse demo_display
           demo_spawn demo_deployment demo_scope.1 demo_scope.2 demo_events SECOND (4 * SECOND) [demo_turn SECOND; demo_turn (5 * SECOND)]
           demo_end.1 demo_end.2 demo_typed demo_is_started demo_events_ok demo_run_end demo_end_within).
  - done.
  - exact demo_turns_fine.
  - right. left. done.
Defined.

Definition demo_waiting : DeploymentOwner :=
  with_phase DpReady (put_waiters [mkWaiter 1 OaWaitStopped (Some 9%Z); mkWaiter 2 (OaWaitReady 5) None; mkWaiter 3 OaWaitTerminal None] demo_deployment).

Lemma publish_exact_witness :
  let r := (publish 4 (Ok tt) demo_waiting).1 in
  let o' := (publish 4 (Ok tt) demo_waiting).2 in
  (ow_published demo_waiting = Some (ow_status demo_waiting) → r = Ok tt ∧ o' = demo_waiting) ∧
  (ow_published demo_waiting ≠ Some (ow_status demo_waiting) → r = Ok tt →
     ow_status o' = next_status (ow_status demo_waiting) ∧ ow_published o' = Some (ow_status o') ∧
     ∃ answered more, ow_waiters demo_waiting ≡ₚ ow_waiters o' ++ answered ∧ ow_replies o' = ow_replies demo_waiting ++ more ∧
       Forall (waits_on 4 (ow_status o')) (ow_waiters o') ∧ Forall2 (answers_truly 4 (ow_status o')) answered more) ∧
  (r ≠ Ok tt → ow_published o' = ow_published demo_waiting ∧ ow_waiters o' = ow_waiters demo_waiting ∧ ow_replies o' = ow_replies demo_waiting) ∧
  ((Ok tt : result unit str) = Ok tt → (ds_revision (ow_status demo_waiting) < u64_max)%Z → r = Ok tt).
Proof. intros r o'. apply (publish_exact 4 (Ok tt) demo_waiting o' r). by destruct (publish 4 (Ok tt) demo_waiting). Defined.

(** A peer that never authenticated is believed once a stop was requested: its
    first message may be a terminal outcome, which is retained. *)
Definition demo_quiet (now : Z) : Answers :=
  mkAnswers now (λ _, Accepted true (mkSocket [] None 100 None [])) (λ _, GateWaits) (λ _, Ok None) (λ _, Ok tt) (λ _, Persisted) (Ok tt).
Example outcome_without_authentication :
  ∃ h o s x,
    demo_running [DvTick (demo_quiet 1); DvStop 2; demo_arrives 0 5; DvTick (demo_quiet 3)] = Some (h, o) ∧
    session_in h (bytes_of "front") = Some s ∧ ss_heard s = [HostOutcomeMessage OutcomeStopped] ∧ ss_phase s = SpTerminal ∧
    host_of (bytes_of "front") o = Some x ∧ ho_outcome x = Some OutcomeStopped.
Proof. do 4 eexists. by vm_compute. Qed.
