(* ===== verification/Fingerprint.v ===== *)
(** * Fingerprint: schema fingerprints of protobuf messages
    ([crates/reiny-build/src/fingerprint.rs], [crates/reiny-build/src/lib.rs])

    The descriptors are the fields that the code reads, through prost's accessors
    where it uses them.  A writer of [Canonical] is the list of bytes that it
    appends.  An error is a constructor with what its message quotes; the context
    that [with_context] adds is a constructor around it.  [None] is a panic (an
    indexed name that is not defined) or fuel that ran out. *)

From Stdlib Require Import ZArith Lia.
From S2P Require Import Prelude Text Btree Core.

(** ** Descriptors *)

Record EnumValue : Type := mkEnumValue { ev_name : str; ev_number : Z }.

Record EnumDescriptor : Type := mkEnumDescriptor {
  ed_name : str;
  ed_value : list EnumValue;
  ed_allow_alias : bool;
  ed_reserved_range : list (Z * Z);
  ed_reserved_name : list str;
}.

Record FieldDescriptor : Type := mkFieldDescriptor {
  fd_name : str;
  fd_number : Z;
  fd_label : option Z;
  fd_type : option Z;
  fd_type_name : option str;
  fd_extendee : option str;
  fd_default_value : option str;
  fd_oneof_index : option Z;
  fd_json_name : option str;
  fd_packed : option bool;
  fd_proto3_optional : bool;
}.

(** What a message says about itself. *)
Record MessageBody : Type := mkMessageBody {
  mb_field : list FieldDescriptor;
  mb_oneof_decl : list str;
  mb_map_entry : bool;
  mb_message_set : bool;
  mb_reserved_range : list (Z * Z);
  mb_reserved_name : list str;
  mb_extended : bool;                (* an extension, or an extension range *)
}.

Inductive Descriptor : Type :=
  | mkDescriptor (name : str) (body : MessageBody) (nested_type : list Descriptor)
      (enum_type : list EnumDescriptor).
Definition d_name (d : Descriptor) : str := let '(mkDescriptor name _ _ _) := d in name.
Definition d_body (d : Descriptor) : MessageBody := let '(mkDescriptor _ body _ _) := d in body.

Record FileDescriptor : Type := mkFileDescriptor {
  fl_name : str;
  fl_package : str;
  fl_dependency : list str;
  fl_syntax : str;
  fl_message_type : list Descriptor;
  fl_enum_type : list EnumDescriptor;
}.

Inductive Definition_ : Type := DMessage (message : Descriptor) | DEnum (enumeration : EnumDescriptor).

(** ** Errors *)

Inductive FpError : Type :=
  | UnnamedDefinition (scope : str)
  | DuplicateDefinition (name : str)
  | UnsupportedSyntax (syntax name : str)
  | UnresolvedIn (reference scope : str)
  | MissingReference (scope : str)
  | UnresolvedReference (reference : str)
  | UnsupportedExtensions (name : str)
  | BadOneofName (name : str)
  | BadFieldNumber (name : str)
  | BadFieldName (name : str)
  | InField (name field : str) (e : FpError)
  | InvalidFieldType
  | MissingFieldType
  | WrongReference (field : str)
  | ScalarReference
  | ExtensionField
  | InvalidLabel
  | InvalidOneofIndex (index : Z)
  | InvalidProto3Optional
  | SharedProto3Oneof
  | OneofNotOptional
  | Proto3Required
  | BadPacked
  | EmptyEnum (name : str)
  | BadEnumValueName (name : str)
  | MissingFingerprint (name : str).

(** [anyhow::ensure!] *)
Definition fp_ensure (b : bool) (e : FpError) : result unit FpError := if b then Ok tt else Err e.

(** ** The index of definitions *)

Definition Index : Type := btree str (FileDescriptor * Definition_).

Definition qualified (scope name : str) : str :=
  match scope with [] => name | _ => scope ++ bytes_of "." ++ name end.

(** [Index::insert] *)
Definition index_insert (self : Index) (file : FileDescriptor) (scope name : str) (definition : Definition_) :
  result (str * Index) FpError :=
  let? _ := fp_ensure (negb (bool_decide (name = []))) (UnnamedDefinition scope) in
  let name := qualified scope name in
  let '(old, self) := bt_insert name (file, definition) self in
  let? _ := fp_ensure (is_none old) (DuplicateDefinition name) in
  Ok (name, self).

Definition insert_enum (file : FileDescriptor) (scope : str) (self : Index) (enumeration : EnumDescriptor) :
  result Index FpError :=
  let? (_, self) := index_insert self file scope (ed_name enumeration) (DEnum enumeration) in Ok self.

(** One turn of the first loop of [Index::insert_scope], with the scope inside the message *)
Fixpoint insert_message (file : FileDescriptor) (scope : str) (self : Index) (message : Descriptor) :
  result Index FpError :=
  let '(mkDescriptor own _ nested enums) := message in
  let? (name, self) := index_insert self file scope own (DMessage message) in
  let? self := (fix go self nested :=
    match nested with
    | [] => Ok self
    | m :: nested => let? self := insert_message file name self m in go self nested
    end) self nested in
  for_fold (insert_enum file name) self enums.

(** [Index::insert_scope] *)
Definition insert_scope (self : Index) (file : FileDescriptor) (scope : str) (messages : list Descriptor)
    (enums : list EnumDescriptor) : result Index FpError :=
  let? self := for_fold (insert_message file scope) self messages in
  for_fold (insert_enum file scope) self enums.

(** [Index::new] *)
Definition index_new (set_ : list FileDescriptor) : result Index FpError :=
  for_fold (λ index file, insert_scope index file (fl_package file) (fl_message_type file) (fl_enum_type file))
    [] set_.

(** ** Canonical bytes *)

Definition cn_byte (value : Z) : list Z := [value].
Definition cn_boolean (value : bool) : list Z := cn_byte (if value then 1 else 0)%Z.
Definition cn_integer (value : Z) : list Z := le_bytes 4 (wrap 32 value).
Definition cn_count (value : nat) : list Z := le_bytes 8 (Z.of_nat value).
Definition cn_bytes (value : list Z) : list Z := cn_count (length value) ++ value.
Definition cn_string (value : str) : list Z := cn_bytes value.
Definition cn_optional (value : option str) : list Z :=
  cn_boolean (negb (is_none value)) ++ match value with Some value => cn_string value | None => [] end.

Definition cn_strings (values : list str) : list Z :=
  let values := sort_by_key id values in
  cn_count (length values) ++ (values ≫= cn_string).
Definition cn_ranges (values : list (Z * Z)) : list Z :=
  let values := sort_by_key id values in
  cn_count (length values) ++ (values ≫= λ '(start, end_), cn_integer start ++ cn_integer end_).

(** ** References *)

(** [str::rsplit_once('.')], the part before it *)
Definition parent_scope (scope : str) : str :=
  match position (Z.eqb 46) (rev scope) with
  | Some at_ => take (length scope - at_ - 1) scope
  | None => []
  end.

(** The loop of [Index::resolve], from a scope outwards *)
Fixpoint resolve_from (fuel : nat) (self : Index) (scope reference : str) : option (result str FpError) :=
  match fuel with
  | 0 => None
  | S fuel =>
      let candidate := qualified scope reference in
      if bt_contains candidate self then Some (Ok candidate)
      else match scope with
           | [] => Some (Err (UnresolvedReference reference))
           | _ => resolve_from fuel self (parent_scope scope) reference
           end
  end.

(** [Index::resolve] *)
Definition fp_resolve (self : Index) (scope reference : str) : option (result str FpError) :=
  match reference with
  | 46%Z :: absolute =>
      Some (if bt_contains absolute self then Ok absolute else Err (UnresolvedIn reference scope))
  | [] => Some (Err (MissingReference scope))
  | _ => resolve_from (S (length scope)) self scope reference
  end.

(** ** Fields *)

(** [Type] and [Label] of prost, by their numbers *)
Definition TYPE_STRING : Z := 9.
Definition TYPE_GROUP : Z := 10.
Definition TYPE_MESSAGE : Z := 11.
Definition TYPE_BYTES : Z := 12.
Definition TYPE_ENUM : Z := 14.
Definition LABEL_OPTIONAL : Z := 1.
Definition LABEL_REQUIRED : Z := 2.
Definition LABEL_REPEATED : Z := 3.
Definition type_try_from (v : Z) : option Z := if (1 <=? v)%Z && (v <=? 18)%Z then Some v else None.
Definition label_try_from (v : Z) : option Z := if (1 <=? v)%Z && (v <=? 3)%Z then Some v else None.

(** [value.map(try_from).transpose().context(error)] *)
Definition try_enum (convert : Z → option Z) (value : option Z) (e : FpError) : result (option Z) FpError :=
  match value with
  | None => Ok None
  | Some v => match convert v with Some v => Ok (Some v) | None => Err e end
  end.

Definition definition_type (definition : Definition_) : Z :=
  match definition with DMessage _ => TYPE_MESSAGE | DEnum _ => TYPE_ENUM end.

(** [Index::field_type] *)
Definition field_type (self : Index) (name : str) (field : FieldDescriptor) :
  option (result (Z * option str) FpError) :=
  let?? reference := match fd_type_name field with
                     | None => Some (Ok None)
                     | Some reference =>
                         match fp_resolve self name reference with
                         | None => None
                         | Some (Err e) => Some (Err e)
                         | Some (Ok reference) => Some (Ok (Some reference))
                         end
                     end in
  match (match reference with
         | None => Some None
         | Some reference => (λ '(_, definition), Some (definition_type definition)) <$> bt_get reference self
         end) with
  | None => None
  | Some inferred =>
      Some (
        let? declared := try_enum type_try_from (fd_type field) InvalidFieldType in
        let? kind := ok_or (match declared with Some kind => Some kind | None => inferred end) MissingFieldType in
        let? _ :=
          if bool_decide (kind ∈ [TYPE_MESSAGE; TYPE_GROUP; TYPE_ENUM])
          then fp_ensure (bool_decide (inferred = Some (if (kind =? TYPE_GROUP)%Z then TYPE_MESSAGE else kind)))
                 (WrongReference (fd_name field))
          else fp_ensure (is_none reference) ScalarReference in
        Ok (kind, reference))
  end.

(** The closure over the characters of a name: ['_'] is dropped, and the
    character after it is in upper case *)
Fixpoint json_name (uppercase : bool) (name : str) : str :=
  match name with
  | [] => []
  | b :: name =>
      if (b =? 95)%Z then json_name true name
      else (if uppercase && between 97 122 b then b - 32 else b)%Z :: json_name false name
  end.

(** What [encode_field] writes. *)
Record FieldForm : Type := mkFieldForm {
  ff_number : Z;
  ff_name : str;
  ff_kind : Z;
  ff_label : Z;
  ff_reference : option str;
  ff_oneof : option str;
  ff_proto3_optional : bool;
  ff_presence : bool;
  ff_packed : bool;
  ff_default : option str;
  ff_json_name : str;
}.

Definition field_bytes (f : FieldForm) : list Z :=
  cn_integer (ff_number f) ++ cn_string (ff_name f) ++ cn_integer (ff_kind f) ++ cn_integer (ff_label f) ++
  cn_optional (ff_reference f) ++ cn_optional (ff_oneof f) ++ cn_boolean (ff_proto3_optional f) ++
  cn_boolean (ff_presence f) ++ cn_boolean (ff_packed f) ++ cn_optional (ff_default f) ++
  cn_string (ff_json_name f).

Definition find_oneof (message : MessageBody) (index : Z) : option str :=
  if (0 <=? index)%Z then mb_oneof_decl message !! Z.to_nat index else None.

(** [Index::encode_field] up to the writes *)
Definition field_form (self : Index) (name syntax : str) (message : MessageBody) (field : FieldDescriptor) :
  option (result FieldForm FpError) :=
  let?? _ := Some (fp_ensure (is_none (fd_extendee field)) ExtensionField) in
  let?? (kind, reference) := field_type self name field in
  Some (
    let? label := try_enum label_try_from (fd_label field) InvalidLabel in
    let label := default LABEL_OPTIONAL label in
    let? oneof := match fd_oneof_index field with
                  | None => Ok None
                  | Some index =>
                      match find_oneof message index with
                      | Some oneof => Ok (Some oneof)
                      | None => Err (InvalidOneofIndex index)
                      end
                  end in
    let proto3 := bool_decide (syntax = bytes_of "proto3") in
    let? _ := if fd_proto3_optional field then
                let? _ := fp_ensure (proto3 && (label =? LABEL_OPTIONAL)%Z && negb (is_none oneof))
                            InvalidProto3Optional in
                fp_ensure (length (filter (λ other, fd_oneof_index other = fd_oneof_index field)
                                   (mb_field message)) =? 1) SharedProto3Oneof
              else Ok tt in
    let? _ := fp_ensure (is_none oneof || (label =? LABEL_OPTIONAL)%Z) OneofNotOptional in
    let? _ := fp_ensure (negb proto3 || negb (label =? LABEL_REQUIRED)%Z) Proto3Required in
    let packable := negb (bool_decide (kind ∈ [TYPE_STRING; TYPE_BYTES; TYPE_MESSAGE; TYPE_GROUP])) in
    let repeated := (label =? LABEL_REPEATED)%Z in
    let? _ := fp_ensure (negb (bool_decide (fd_packed field = Some true)) || packable && repeated) BadPacked in
    Ok (mkFieldForm (fd_number field) (fd_name field) kind label reference oneof (fd_proto3_optional field)
          (negb repeated && (bool_decide (syntax = bytes_of "proto2") || negb (is_none oneof)
                             || bool_decide (kind ∈ [TYPE_MESSAGE; TYPE_GROUP])))
          (packable && repeated && default proto3 (fd_packed field))
          (fd_default_value field)
          (default (json_name false (fd_name field)) (fd_json_name field)))).

(** [Index::encode_field]: the bytes, and the reference that is pushed *)
Definition encode_field (self : Index) (name syntax : str) (message : MessageBody) (field : FieldDescriptor) :
  option (result (list Z * list str) FpError) :=
  let?? form := field_form self name syntax message field in
  Some (Ok (field_bytes form, option_list (ff_reference form))).

(** ** Definitions *)

(** The state of the loop over the fields: numbers, names, bytes and references *)
Definition fields_state : Type := btree Z unit * btree str unit * list Z * list str.

Definition encode_fields_step (self : Index) (name syntax : str) (message : MessageBody) (s : fields_state)
    (field : FieldDescriptor) : option (result fields_state FpError) :=
  let '(numbers, names, out, pending) := s in
  let '(new_number, numbers) := bs_insert (fd_number field) numbers in
  let?? _ := Some (fp_ensure ((0 <? fd_number field)%Z && new_number) (BadFieldNumber name)) in
  let '(new_name, names) := bs_insert (fd_name field) names in
  let?? _ := Some (fp_ensure (negb (bool_decide (fd_name field = [])) && new_name) (BadFieldName name)) in
  match encode_field self name syntax message field with
  | None => None
  | Some (Err e) => Some (Err (InField name (fd_name field) e))
  | Some (Ok (bytes, references)) => Some (Ok (numbers, names, out ++ bytes, pending ++ references))
  end.

(** [Index::encode_message] *)
Definition encode_message (self : Index) (name syntax : str) (message : MessageBody) :
  option (result (list Z * list str) FpError) :=
  let?? _ := Some (fp_ensure (negb (mb_extended message)) (UnsupportedExtensions name)) in
  let oneofs := (bt_collect ((λ o, (o, tt)) <$> mb_oneof_decl message)).*1 in
  let?? _ := Some (fp_ensure ((length oneofs =? length (mb_oneof_decl message)) && negb (bool_decide ([] ∈ oneofs)))
                     (BadOneofName name)) in
  let fields := sort_by_key fd_number (mb_field message) in
  let out := cn_boolean (mb_map_entry message) ++ cn_boolean (mb_message_set message) ++
             cn_ranges (mb_reserved_range message) ++ cn_strings (mb_reserved_name message) ++
             cn_strings oneofs ++ cn_count (length fields) in
  let?? (_, _, out, pending) := try_fold (encode_fields_step self name syntax message) ([], [], out, []) fields in
  Some (Ok (out, pending)).

(** One value of an enumeration: the names so far, and the bytes *)
Definition encode_value_step (name : str) (s : btree str unit * list Z) (v : EnumValue) :
  result (btree str unit * list Z) FpError :=
  let '(names, out) := s in
  let '(new, names) := bs_insert (ev_name v) names in
  let? _ := fp_ensure (negb (bool_decide (ev_name v = [])) && new) (BadEnumValueName name) in
  Ok (names, out ++ cn_integer (ev_number v) ++ cn_string (ev_name v)).

(** [encode_enum] *)
Definition encode_enum (name : str) (enumeration : EnumDescriptor) : result (list Z) FpError :=
  match ed_value enumeration with
  | [] => Err (EmptyEnum name)
  | value :: _ =>
      let values := sort_by_key (λ v, (ev_number v, ev_name v)) (ed_value enumeration) in
      let out := cn_integer (ev_number value) ++ cn_boolean (ed_allow_alias enumeration) ++
                 cn_ranges (ed_reserved_range enumeration) ++ cn_strings (ed_reserved_name enumeration) ++
                 cn_count (length values) in
      let? (_, out) := for_fold (encode_value_step name) ([], out) values in
      Ok out
  end.

(** The syntax of a file *)
Definition canonical_syntax (syntax name : str) : result str FpError :=
  if bool_decide (syntax = []) || bool_decide (syntax = bytes_of "proto2") then Ok (bytes_of "proto2")
  else if bool_decide (syntax = bytes_of "proto3") then Ok (bytes_of "proto3")
  else Err (UnsupportedSyntax syntax name).

(** One record of [Index::message]: its bytes, and the names it refers to *)
Definition encode_record (self : Index) (name : str) (file : FileDescriptor) (definition : Definition_) :
  option (result (list Z * list str) FpError) :=
  let?? syntax := Some (canonical_syntax (fl_syntax file) name) in
  let out := cn_string name ++ cn_string syntax in
  match definition with
  | DMessage message =>
      let?? (bytes, pending) := encode_message self name syntax (d_body message) in
      Some (Ok (out ++ cn_byte 1 ++ bytes, pending))
  | DEnum enumeration =>
      Some (let? bytes := encode_enum name enumeration in Ok (out ++ cn_byte 2 ++ bytes, []))
  end.

(** The loop of [Index::message]; the end of the vector is the head of [pending] *)
Fixpoint record_loop (fuel : nat) (self : Index) (pending : list str) (records : btree str (list Z)) :
  option (result (btree str (list Z)) FpError) :=
  match fuel with
  | 0 => None
  | S fuel =>
      match pending with
      | [] => Some (Ok records)
      | name :: pending =>
          if bt_contains name records then record_loop fuel self pending records
          else
            match bt_get name self with
            | None => None
            | Some (file, definition) =>
                let?? (bytes, references) := encode_record self name file definition in
                record_loop fuel self (rev references ++ pending) (bt_insert name bytes records).2
            end
      end
  end.

(** [FNV-1a], 64 bits *)
Definition FNV64_OFFSET : Z := 14695981039346656037.
Definition FNV64_PRIME : Z := 1099511628211.
Definition fnv64 (l : list Z) : Z :=
  foldl (λ hash byte, wrapping_mul 64 (Z.lxor hash byte) FNV64_PRIME) FNV64_OFFSET l.

(** The bytes that are hashed *)
Definition canonical_bytes (root : str) (records : btree str (list Z)) : list Z :=
  cn_string (bytes_of "reiny.schema-fingerprint") ++ le_bytes 2 SCHEMA_FINGERPRINT_VERSION ++ cn_string root ++
  cn_count (length records) ++ (records.*2 ≫= cn_bytes).

(** [Index::message] *)
Definition index_message (fuel : nat) (self : Index) (root : str) : option (result (option Z) FpError) :=
  match bt_get root self with
  | Some (_, DMessage _) =>
      let?? records := record_loop fuel self [root] [] in
      Some (Ok (Some (fnv64 (canonical_bytes root records))))
  | _ => Some (Ok None)
  end.

(** Fuel for the loop: every definition is recorded once, and pushes one name
    for each field that refers to another. *)
Definition references_of (definition : Definition_) : nat :=
  match definition with DMessage m => length (mb_field (d_body m)) | DEnum _ => 0 end.
Definition record_fuel (self : Index) : nat :=
  2 + foldr (λ e n, references_of e.2.2 + n) 0 self.

(** [message_fingerprint] of [lib.rs], on a decoded set *)
Definition message_fingerprint (set_ : list FileDescriptor) (message : str) : option (result (option Z) FpError) :=
  let?? index := Some (index_new set_) in index_message (record_fuel index) index message.
