(* ===== verification/FieldSpec.v ===== *)
(** * FieldSpec: what a field of a message stands for

    The contract of [Index::encode_field], [Index::field_type] and
    [Index::resolve] in the terms of a descriptor: names by their scopes,
    types by what is defined, legality by the rules of protobuf.  Nothing here
    uses the functions of the model; the lemmas at the end show that the
    functions compute what is described. *)

From Stdlib Require Import ZArith Lia.
From S2P Require Import Prelude Text Btree Core Fingerprint.

(** ** Names *)

(** A name inside a scope; a file without a package has the empty scope. *)
Definition dotted (scope name : str) : str := if bool_decide (scope = []) then name else scope ++ 46%Z :: name.

(** The scopes around a scope: itself, what precedes one of its dots, and the
    empty one. *)
Definition is_outer (scope outer : str) : Prop :=
  outer = scope ∨ outer = [] ∨ ∃ rest, scope = outer ++ 46%Z :: rest.

Definition defines (self : Index) (name : str) : Prop := is_Some (bt_get name self).

(** A reference with a leading dot is a full name; any other is looked for in
    the scopes around the message, and the innermost definition is meant. *)
Definition resolves (self : Index) (scope reference full : str) : Prop :=
  defines self full ∧
  (reference = 46%Z :: full ∨
   reference ≠ [] ∧ head reference ≠ Some 46%Z ∧ ∃ outer, is_outer scope outer ∧ full = dotted outer reference ∧
     ∀ inner, is_outer scope inner → length outer < length inner → ¬ defines self (dotted inner reference)).

(** ** Types *)

Definition message_at (self : Index) (name : str) : Prop := ∃ file m, bt_get name self = Some (file, DMessage m).
Definition enum_at (self : Index) (name : str) : Prop := ∃ file e, bt_get name self = Some (file, DEnum e).

(** 10, 11 and 14 are a group, a message and an enumeration. *)
Record has_type (self : Index) (scope : str) (field : FieldDescriptor) (kind : Z) (reference : option str) : Prop := {
  ty_reference : match fd_type_name field with
                 | None => reference = None
                 | Some written => ∃ full, reference = Some full ∧ resolves self scope written full
                 end;
  ty_kind : match fd_type field with
            | Some declared => kind = declared ∧ (1 ≤ declared ≤ 18)%Z
            | None => ∃ full, reference = Some full ∧ (kind = 11 ∧ message_at self full ∨ kind = 14 ∧ enum_at self full)%Z
            end;
  ty_refers : match reference with
              | Some full => ((kind = 10 ∨ kind = 11) ∧ message_at self full ∨ kind = 14 ∧ enum_at self full)%Z
              | None => kind ∉ [10; 11; 14]%Z
              end;
}.

(** ** JSON names *)

(** The letters a to z, at the head of a word *)
Definition capitalised (word : str) : str :=
  match word with b :: word => (if (97 <=? b)%Z && (b <=? 122)%Z then b - 32 else b)%Z :: word | [] => [] end.

(** The words of a name, between its underscores, joined with capitals. *)
Definition camel_case (name json : str) : Prop :=
  ∃ word words, 95%Z ∉ word ∧ Forall (λ w, 95%Z ∉ w) words ∧
    name = word ++ (words ≫= λ w, 95%Z :: w) ∧ json = word ++ (words ≫= capitalised).

(** ** Fields *)

(** Everything but strings, bytes, groups and messages *)
Definition packable (kind : Z) : Prop := kind ∉ [9; 10; 11; 12]%Z.

(** Labels: 1 is optional, 2 required, 3 repeated. *)
Record has_field_form (self : Index) (scope syntax : str) (m : MessageBody) (field : FieldDescriptor)
    (form : FieldForm) : Prop := {
  fo_extendee : fd_extendee field = None;
  fo_number : ff_number form = fd_number field;
  fo_name : ff_name form = fd_name field;
  fo_type : has_type self scope field (ff_kind form) (ff_reference form);
  fo_label : match fd_label field with
             | Some label => ff_label form = label ∧ (1 ≤ label ≤ 3)%Z
             | None => ff_label form = 1%Z
             end;
  fo_oneof : match fd_oneof_index field with
             | Some i => (0 ≤ i)%Z ∧ is_Some (ff_oneof form) ∧ mb_oneof_decl m !! Z.to_nat i = ff_oneof form
             | None => ff_oneof form = None
             end;
  fo_proto3_optional : ff_proto3_optional form = fd_proto3_optional field;
  fo_optional_legal : fd_proto3_optional field = true →
    syntax = bytes_of "proto3" ∧ ff_label form = 1%Z ∧ ff_oneof form ≠ None ∧
    length (filter (λ other, fd_oneof_index other = fd_oneof_index field) (mb_field m)) = 1;
  fo_oneof_legal : ff_oneof form ≠ None → ff_label form = 1%Z;
  fo_required_legal : syntax = bytes_of "proto3" → ff_label form ≠ 2%Z;
  fo_packed_legal : fd_packed field = Some true → packable (ff_kind form) ∧ ff_label form = 3%Z;
  fo_presence : ff_presence form = true ↔ ff_label form ≠ 3%Z ∧
    (syntax = bytes_of "proto2" ∨ ff_oneof form ≠ None ∨ ff_kind form = 11%Z ∨ ff_kind form = 10%Z);
  fo_packed : ff_packed form = true ↔ packable (ff_kind form) ∧ ff_label form = 3%Z ∧
    (fd_packed field = Some true ∨ fd_packed field = None ∧ syntax = bytes_of "proto3");
  fo_default : ff_default form = fd_default_value field;
  fo_json : match fd_json_name field with
            | Some json => ff_json_name form = json
            | None => camel_case (fd_name field) (ff_json_name form)
            end;
}.

(** ** The functions compute what is described *)

Lemma qualified_dotted scope name : qualified scope name = dotted scope name.
Proof. by destruct scope. Qed.

Lemma bt_contains_defines (self : Index) name : bt_contains name self = true ↔ defines self name.
Proof. unfold bt_contains, defines. destruct (bt_get name self); split; [by eexists|done|done|by intros []]. Qed.

Lemma bt_contains_undefined (self : Index) name : bt_contains name self = false ↔ ¬ defines self name.
Proof. rewrite <- bt_contains_defines. by destruct (bt_contains name self). Qed.

Lemma is_outer_empty outer : is_outer [] outer ↔ outer = [].
Proof. split; [intros [->|[->|(rest&Hr)]]; [done..|by destruct outer]|by left]. Qed.

Lemma no_dot (l : list Z) : Forall (λ y, Z.eqb 46 y = false) l → 46%Z ∉ l.
Proof. rewrite Forall_forall. intros Hl Hin. by specialize (Hl _ Hin). Qed.

(** The last dot of a scope *)
Lemma parent_scope_cases scope :
  46%Z ∉ scope ∧ parent_scope scope = [] ∨
  ∃ rest, scope = parent_scope scope ++ 46%Z :: rest ∧ 46%Z ∉ rest.
Proof.
  unfold parent_scope. destruct (position (Z.eqb 46) (rev scope)) as [i|] eqn:Ep.
  - right. apply position_Some in Ep as (l1&x&l2&Hrev&<-&Hx&Hl1). apply Z.eqb_eq in Hx as <-.
    assert (Hs : scope = rev l2 ++ 46%Z :: rev l1).
    { rewrite <- (rev_involutive scope), Hrev, rev_app_distr. cbn. by rewrite <- app_assoc. }
    exists (rev l1). split; [|intros Hin%list_elem_of_In%in_rev%list_elem_of_In; by apply (no_dot l1)].
    assert (Ht : take (length scope - length l1 - 1) scope = rev l2); [|by rewrite Ht].
    assert (Hlen : length scope - length l1 - 1 = length (rev l2)) by (rewrite Hs, length_app; cbn; rewrite !length_rev; lia).
    rewrite Hlen, Hs. apply take_app_length.
  - left. split; [|done]. apply position_None, no_dot in Ep. intros Hin. apply Ep.
    apply list_elem_of_In. rewrite <- in_rev. by apply list_elem_of_In.
Qed.

(** The scopes around a scope are itself and those around its parent. *)
Lemma is_outer_parent scope outer :
  scope ≠ [] → is_outer scope outer ↔ outer = scope ∨ is_outer (parent_scope scope) outer.
Proof.
  intros Hne. destruct (parent_scope_cases scope) as [[Hno ->]|(rest&Hs&Hrest)].
  - rewrite is_outer_empty. unfold is_outer. split; [|tauto]. intros [?|[?|(rest&->)]]; [tauto..|]. set_solver.
  - unfold is_outer. split.
    + intros [->|[->|(rest'&Hs')]]; [by left|by right; right; left|]. right. rewrite Hs in Hs' at 1.
      apply app_eq_inv in Hs' as [(k&Hp&Hk)|(k&Ho&Hk)]; (destruct k as [|b k]; [left; by rewrite ?Ho, ?Hp, app_nil_r|]).
      * injection Hk as <- Hk. rewrite Hp. right; right. by exists k.
      * injection Hk as <- Hk. exfalso. rewrite Hk in Hrest. set_solver.
    + intros [->|[->|[->|(rest'&Hp)]]]; [by left| |by right; left|].
      * right; right. by exists rest.
      * right; right. exists (rest' ++ 46%Z :: rest). rewrite Hs, Hp at 1. by rewrite <- app_assoc.
Qed.

Lemma parent_shorter scope : scope ≠ [] → length (parent_scope scope) < length scope.
Proof.
  intros Hne. destruct (parent_scope_cases scope) as [[_ ->]|(rest&Hs&_)]; [by destruct scope; cbn; [|lia]|].
  rewrite Hs at 2. rewrite length_app. cbn. lia.
Qed.

Lemma outer_length scope outer : is_outer scope outer → length outer ≤ length scope.
Proof. intros [->|[->|(rest&->)]]; [done|cbn; lia|]. rewrite length_app. lia. Qed.

(** The loop finds the innermost definition. *)
Lemma resolve_from_exact fuel self scope reference full :
  length scope < fuel →
  resolve_from fuel self scope reference = Some (Ok full) ↔
  ∃ outer, is_outer scope outer ∧ full = dotted outer reference ∧ defines self full ∧
    ∀ inner, is_outer scope inner → length outer < length inner → ¬ defines self (dotted inner reference).
Proof.
  revert scope. induction fuel as [|fuel IH]; intros scope Hl; [lia|]. cbn [resolve_from]. rewrite qualified_dotted.
  destruct (bt_contains (dotted scope reference) self) eqn:Ec.
  - apply bt_contains_defines in Ec. split.
    + intros [= <-]. exists scope. split_and!; [by left|done|done|]. intros inner Hi%outer_length. lia.
    + intros (outer&Ho&->&Hd&Hinner). destruct (decide (length outer < length scope)) as [Hlt|Hge].
      * by destruct (Hinner scope (or_introl eq_refl) Hlt).
      * destruct Ho as [->|[->|(rest&Hr)]]; [done| |].
        -- by destruct scope; [|cbn in Hge; lia].
        -- rewrite Hr, length_app in Hge. cbn in Hge. lia.
  - apply bt_contains_undefined in Ec. destruct (decide (scope = [])) as [->|Hne].
    + split; [done|]. intros (outer&->%is_outer_empty&->&Hd&_). done.
    + replace (match scope with [] => Some (Err (UnresolvedReference reference)) | _ :: _ => _ end)
        with (resolve_from fuel self (parent_scope scope) reference) by by destruct scope.
      rewrite IH by (pose proof (parent_shorter scope Hne); lia). apply exist_proper. intros outer. split.
      * intros (Ho&->&Hd&Hinner). split_and!; [by apply is_outer_parent; [|right]|done|done|].
        intros inner [->|Hi]%is_outer_parent Hlt; [done|by apply Hinner|done].
      * intros ([->|Ho]%is_outer_parent&->&Hd&Hinner); [done| |done]. split_and!; try done.
        intros inner Hi Hlt. apply Hinner; [by apply is_outer_parent; [|right]|done].
Qed.

Lemma fp_resolve_exact self scope reference full :
  fp_resolve self scope reference = Some (Ok full) ↔ resolves self scope reference full.
Proof.
  unfold resolves. destruct reference as [|b reference]; [split; [done|naive_solver]|].
  destruct (decide (b = 46%Z)) as [->|Hb].
  - cbn [fp_resolve]. destruct (bt_contains reference self) eqn:Ec.
    + apply bt_contains_defines in Ec. split; [intros [= <-]; by split; [|left]|].
      intros [_ [[= <-]|(_&Hh&_)]]; [done|by destruct Hh].
    + apply bt_contains_undefined in Ec. split; [done|]. intros [Hd [[= <-]|(_&Hh&_)]]; [done|by destruct Hh].
  - replace (fp_resolve self scope (b :: reference))
      with (resolve_from (S (length scope)) self scope (b :: reference)).
    2:{ unfold fp_resolve. destruct b as [|p|p]; try done. by do 6 (destruct p; try done). }
    rewrite resolve_from_exact by lia. split.
    + intros (outer&Ho&->&Hd&Hi). split; [done|]. right. split; [done|]. split; [by intros [= ->]|]. by exists outer.
    + intros [Hd [[= ->]|(_&_&outer&Ho&->&Hi)]]; [done|]. by exists outer.
Qed.

(** Capitals are put as the walk over the characters puts them. *)
Lemma json_name_words uppercase word words :
  95%Z ∉ word → Forall (λ w, 95%Z ∉ w) words →
  json_name uppercase (word ++ (words ≫= λ w, 95%Z :: w)) =
  (if uppercase then capitalised word else word) ++ (words ≫= capitalised).
Proof.
  intros Hw Hws. revert uppercase word Hw. induction Hws as [|w words Hword _ IH]; intros uppercase word Hw.
  - rewrite !app_nil_r. revert uppercase. induction word as [|b word IHw]; intros uppercase; [by destruct uppercase|].
    apply not_elem_of_cons in Hw as [Hb Hw]. cbn [json_name]. rewrite (proj2 (Z.eqb_neq b 95)) by done.
    rewrite IHw by done. by destruct uppercase.
  - revert uppercase. induction word as [|b word IHw]; intros uppercase.
    + cbn [app mbind list_bind json_name]. rewrite Z.eqb_refl, IH by done. by destruct uppercase.
    + apply not_elem_of_cons in Hw as [Hb Hw]. cbn [json_name app]. rewrite (proj2 (Z.eqb_neq b 95)) by done.
      rewrite IHw by done. by destruct uppercase.
Qed.

Lemma words_exist name :
  ∃ word words, 95%Z ∉ word ∧ Forall (λ w, 95%Z ∉ w) words ∧ name = word ++ (words ≫= λ w, 95%Z :: w).
Proof.
  induction name as [|b name (word&words&Hw&Hws&->)].
  - exists [], []. split_and!; [apply not_elem_of_nil|constructor|done].
  - destruct (decide (b = 95%Z)) as [->|Hb].
    + exists [], (word :: words). split_and!; [apply not_elem_of_nil|by constructor|done].
    + exists (b :: word), words. split_and!; [by apply not_elem_of_cons|done|done].
Qed.

Lemma camel_case_exact name json : json_name false name = json ↔ camel_case name json.
Proof.
  split.
  - intros <-. destruct (words_exist name) as (word&words&Hw&Hws&->). exists word, words. split_and!; try done.
    by apply (json_name_words false).
  - intros (word&words&Hw&Hws&->&->). by apply (json_name_words false).
Qed.

(** What a reference says about its type *)
Definition inferred_from (self : Index) (reference : option str) (inferred : option Z) : Prop :=
  match reference with
  | Some full => message_at self full ∧ inferred = Some 11%Z ∨ enum_at self full ∧ inferred = Some 14%Z
  | None => inferred = None
  end.

Lemma at_exclusive self full : message_at self full → enum_at self full → False.
Proof. intros (?&?&Hm) (?&?&He). congruence. Qed.

Lemma type_try_from_exact v k : type_try_from v = Some k ↔ k = v ∧ (1 ≤ v ≤ 18)%Z.
Proof.
  unfold type_try_from. destruct (_ && _) eqn:E; breflect_in E; (split; [by intros [= <-]|]); [by intros [-> _]|lia].
Qed.

Lemma label_try_from_exact v k : label_try_from v = Some k ↔ k = v ∧ (1 ≤ v ≤ 3)%Z.
Proof.
  unfold label_try_from. destruct (_ && _) eqn:E; breflect_in E; (split; [by intros [= <-]|]); [by intros [-> _]|lia].
Qed.

Lemma elem_of_members (k a b c : Z) : k ∈ [a; b; c] ↔ k = a ∨ k = b ∨ k = c.
Proof. by rewrite !elem_of_cons, elem_of_nil, (right_id False _). Qed.

(** The checks of [Index::field_type] once the reference is resolved *)
Lemma kind_exact self field reference inferred kind :
  inferred_from self reference inferred →
  (let? declared := try_enum type_try_from (fd_type field) InvalidFieldType in
   let? kind := ok_or (match declared with Some kind => Some kind | None => inferred end) MissingFieldType in
   let? _ := if bool_decide (kind ∈ [TYPE_MESSAGE; TYPE_GROUP; TYPE_ENUM])
             then fp_ensure (bool_decide (inferred = Some (if (kind =? TYPE_GROUP)%Z then TYPE_MESSAGE else kind)))
                    (WrongReference (fd_name field))
             else fp_ensure (is_none reference) ScalarReference in
   Ok (kind, reference)) = Ok (kind, reference) ↔
  match fd_type field with
  | Some declared => kind = declared ∧ (1 ≤ declared ≤ 18)%Z
  | None => ∃ full, reference = Some full ∧ (kind = 11 ∧ message_at self full ∨ kind = 14 ∧ enum_at self full)%Z
  end ∧
  match reference with
  | Some full => ((kind = 10 ∨ kind = 11) ∧ message_at self full ∨ kind = 14 ∧ enum_at self full)%Z
  | None => kind ∉ [10; 11; 14]%Z
  end.
Proof.
  intros Hinf.
  assert (Hchecks : ∀ k, (let? _ := if bool_decide (k ∈ [TYPE_MESSAGE; TYPE_GROUP; TYPE_ENUM])
             then fp_ensure (bool_decide (inferred = Some (if (k =? TYPE_GROUP)%Z then TYPE_MESSAGE else k)))
                    (WrongReference (fd_name field))
             else fp_ensure (is_none reference) ScalarReference in
             Ok (k, reference)) = Ok (kind, reference) ↔
    k = kind ∧ match reference with
               | Some full => ((kind = 10 ∨ kind = 11) ∧ message_at self full ∨ kind = 14 ∧ enum_at self full)%Z
               | None => kind ∉ [10; 11; 14]%Z
               end).
  { intros k. unfold TYPE_MESSAGE, TYPE_GROUP, TYPE_ENUM in *.
    case_bool_decide as Hk; rewrite elem_of_members in Hk.
    - case_bool_decide as Hi; cbn [fp_ensure].
      + split; [intros [= <-]|by intros [<- _]]. split; [done|]. destruct reference as [full|]; cbn in Hinf; subst.
        * destruct (k =? 10)%Z eqn:E; breflect_in E; destruct Hinf as [[Hm Hv]|[He Hv]]; simplify_eq; try lia; auto.
        * done.
      + split; [done|]. intros [<- Hr]. destruct Hi. destruct reference as [full|]; cbn in Hinf.
        * destruct Hr as [[[->| ->] Hm]|[-> He]], Hinf as [[Hm' ->]|[He' ->]]; try done;
            by destruct (at_exclusive self full).
        * subst. rewrite elem_of_members in Hr. destruct Hk as [->|[->| ->]]; tauto.
    - destruct reference as [full|]; cbn [is_none fp_ensure].
      + split; [done|]. intros [<- Hr]. destruct Hk. destruct Hr as [[[->| ->] _]|[-> _]]; tauto.
      + split; [intros [= <-]|by intros [<- _]]. split; [done|]. rewrite elem_of_members. tauto. }
  destruct (fd_type field) as [v|]; cbn [try_enum].
  - destruct (type_try_from v) as [k|] eqn:Ev.
    + apply type_try_from_exact in Ev as [-> Hv]. cbn [ok_or]. rewrite Hchecks. naive_solver.
    + split; [done|]. intros [[-> Hv] _]. rewrite (proj2 (type_try_from_exact v v)) in Ev by done. done.
  - destruct inferred as [i|]; cbn [ok_or].
    + rewrite Hchecks. destruct reference as [full|]; cbn in Hinf; [|done]. split.
      * intros [<- Hr]. split; [|done]. exists full. split; [done|]. destruct Hinf as [[? [= ->]]|[? [= ->]]]; auto.
      * intros [(full'&[= <-]&Hk) Hr]. split; [|done].
        destruct Hinf as [[? [= ->]]|[? [= ->]]], Hk as [[-> ?]|[-> ?]]; try done; by destruct (at_exclusive self full).
    + split; [done|]. intros [(full&->&Hk) _]. cbn in Hinf. by destruct Hinf as [[_ ?]|[_ ?]].
Qed.

Lemma definition_type_inferred (self : Index) full file d :
  bt_get full self = Some (file, d) → inferred_from self (Some full) (Some (definition_type d)).
Proof. intros Hget. destruct d as [m|e]; [left|right]; (split; [|done]); by eexists _, _. Qed.

Lemma field_type_exact self scope field kind reference :
  field_type self scope field = Some (Ok (kind, reference)) ↔ has_type self scope field kind reference.
Proof.
  assert (Hsplit : has_type self scope field kind reference ↔
    match fd_type_name field with
    | None => reference = None
    | Some written => ∃ full, reference = Some full ∧ resolves self scope written full
    end ∧ ∀ inferred, inferred_from self reference inferred →
      (let? declared := try_enum type_try_from (fd_type field) InvalidFieldType in
       let? kind := ok_or (match declared with Some kind => Some kind | None => inferred end) MissingFieldType in
       let? _ := if bool_decide (kind ∈ [TYPE_MESSAGE; TYPE_GROUP; TYPE_ENUM])
                 then fp_ensure (bool_decide (inferred = Some (if (kind =? TYPE_GROUP)%Z then TYPE_MESSAGE else kind)))
                        (WrongReference (fd_name field))
                 else fp_ensure (is_none reference) ScalarReference in
       Ok (kind, reference)) = Ok (kind, reference)).
  { split.
    - intros [Hr Hk Hf]. split; [done|]. intros inferred Hinf. by apply (kind_exact self).
    - intros [Hr Hall].
      assert (∃ inferred, inferred_from self reference inferred) as [inferred Hinf].
      { destruct reference as [full|]; [|by exists None]. destruct (fd_type_name field); [|done].
        destruct Hr as (?&[= <-]&Hd&_). destruct Hd as [[file d] Hd]. eexists. by eapply definition_type_inferred. }
      specialize (Hall inferred Hinf). apply (kind_exact self) in Hall as [Hk Hf]; [|done]. by split. }
  rewrite Hsplit. clear Hsplit. unfold field_type. destruct (fd_type_name field) as [written|].
  - destruct (fp_resolve self scope written) as [[full|e]|] eqn:Er.
    + pose proof Er as Hres. apply fp_resolve_exact in Hres. pose proof (proj1 Hres) as [[file d] Hd]. rewrite Hd.
      cbn [fmap option_fmap option_map]. pose proof (definition_type_inferred self full file d Hd) as Hinf. split.
      * intros [= Hrun].
        assert (reference = Some full) as ->.
        { revert Hrun. destruct (try_enum _ _ _); [|done]. cbn. destruct (ok_or _ _); [|done].
          destruct (if bool_decide _ then _ else _); [|done]. by intros [= _ <-]. }
        split; [by exists full|]. intros inferred Hinf'.
        assert (inferred = Some (definition_type d)) as ->; [|exact Hrun].
        cbn in Hinf, Hinf'. destruct Hinf as [[? ->]|[? ->]], Hinf' as [[? ->]|[? ->]]; try done;
          by destruct (at_exclusive self full).
      * intros [(full'&->&Hres') Hall]. apply fp_resolve_exact in Hres'. rewrite Er in Hres'. injection Hres' as <-.
        f_equal. by apply Hall.
    + split; [done|]. intros [(full&_&Hres%fp_resolve_exact) _]. congruence.
    + split; [done|]. intros [(full&_&Hres%fp_resolve_exact) _]. congruence.
  - cbn. split.
    + intros [= Hrun].
      assert (reference = None) as ->.
      { revert Hrun. destruct (try_enum _ _ _); [|done]. cbn. destruct (ok_or _ _); [|done].
        destruct (if bool_decide _ then _ else _); [|done]. by intros [= _ <-]. }
      split; [done|]. intros inferred ->. exact Hrun.
    + intros [-> Hall]. f_equal. by apply Hall.
Qed.

Lemma label_exact field :
  let spec label := match fd_label field with
                    | Some l => label = l ∧ (1 ≤ l ≤ 3)%Z
                    | None => label = 1%Z
                    end in
  match try_enum label_try_from (fd_label field) InvalidLabel with
  | Ok label => ∀ l, spec l ↔ l = default LABEL_OPTIONAL label
  | Err _ => ∀ l, ¬ spec l
  end.
Proof.
  cbn. destruct (fd_label field) as [v|]; cbn [try_enum]; [|done].
  destruct (label_try_from v) as [k|] eqn:E.
  - apply label_try_from_exact in E as [-> Hv]. cbn. intros l. by split; [intros [? _]|].
  - intros l [_ Hv]. rewrite (proj2 (label_try_from_exact v v)) in E by done. done.
Qed.

Lemma oneof_exact m field :
  let spec oneof := match fd_oneof_index field with
                    | Some i => (0 ≤ i)%Z ∧ is_Some oneof ∧ mb_oneof_decl m !! Z.to_nat i = oneof
                    | None => oneof = None
                    end in
  match (match fd_oneof_index field with
         | None => Ok None
         | Some index =>
             match find_oneof m index with Some oneof => Ok (Some oneof) | None => Err (InvalidOneofIndex index) end
         end) with
  | Ok oneof => ∀ o, spec o ↔ o = oneof
  | Err _ => ∀ o, ¬ spec o
  end.
Proof.
  cbn. destruct (fd_oneof_index field) as [i|]; [|done]. unfold find_oneof. destruct (0 <=? i)%Z eqn:E; breflect_in E.
  - destruct (mb_oneof_decl m !! Z.to_nat i) as [o|].
    + intros o'. split; [by intros (_&_&<-)|]. intros ->. split_and!; [done|by eexists|done].
    + intros o' (_&Hs&<-). by destruct Hs.
  - intros o' (?&_). lia.
Qed.

(** A boolean is a condition. *)
Lemma flag_exact (b flag : bool) (P : Prop) : (b = true ↔ P) → flag = b ↔ (flag = true ↔ P).
Proof.
  intros Hb. split; [by intros ->|]. intros Hf. destruct flag, b; try done; [|by apply Hf, Hb].
  symmetry. by apply Hb, Hf.
Qed.

Lemma ensure_exact {A} (b : bool) (P : Prop) (e : FpError) (r : result A FpError) a :
  (b = true ↔ P) → (let? _ := fp_ensure b e in r) = Ok a ↔ P ∧ r = Ok a.
Proof. intros Hb. destruct b; cbn; [tauto|]. split; [done|]. intros [HP _]. by apply Hb in HP. Qed.

Lemma some_result {A E} (r : result A E) a : Some r = Some (Ok a) ↔ r = Ok a.
Proof. split; [by intros [= ->]|by intros ->]. Qed.

Lemma is_none_neq {A} (o : option A) : negb (is_none o) = true ↔ o ≠ None.
Proof. by destruct o. Qed.

(** The legality of [optional] in proto3 *)
Lemma optional_exact (field : FieldDescriptor) m (proto3 : bool) label (oneof : option str) (P : Prop) {A}
    (r : result A FpError) a :
  (proto3 = true ↔ P) →
  (let? _ := if fd_proto3_optional field then
               let? _ := fp_ensure (proto3 && (label =? LABEL_OPTIONAL)%Z && negb (is_none oneof)) InvalidProto3Optional in
               fp_ensure (length (filter (λ other, fd_oneof_index other = fd_oneof_index field) (mb_field m)) =? 1)
                 SharedProto3Oneof
             else Ok tt in r) = Ok a ↔
  (fd_proto3_optional field = true → P ∧ label = 1%Z ∧ oneof ≠ None ∧
     length (filter (λ other, fd_oneof_index other = fd_oneof_index field) (mb_field m)) = 1) ∧ r = Ok a.
Proof.
  intros HP. destruct (fd_proto3_optional field); [|by split; [|intros [_ ?]]].
  rewrite <- HP, <- (is_none_neq oneof), <- (Nat.eqb_eq (length _)).
  change LABEL_OPTIONAL with 1%Z. rewrite <- (Z.eqb_eq label 1).
  destruct proto3, (label =? 1)%Z, (negb (is_none oneof)), (length _ =? 1); cbn; naive_solver.
Qed.

Lemma packable_exact kind :
  negb (bool_decide (kind ∈ [TYPE_STRING; TYPE_BYTES; TYPE_MESSAGE; TYPE_GROUP])) = true ↔ packable kind.
Proof.
  unfold packable, TYPE_STRING, TYPE_BYTES, TYPE_MESSAGE, TYPE_GROUP.
  rewrite negb_true_iff, bool_decide_eq_false, !elem_of_cons, elem_of_nil. tauto.
Qed.

Lemma presence_exact syntax kind label (oneof : option str) :
  negb (label =? LABEL_REPEATED)%Z && (bool_decide (syntax = bytes_of "proto2") || negb (is_none oneof)
    || bool_decide (kind ∈ [TYPE_MESSAGE; TYPE_GROUP])) = true ↔
  label ≠ 3%Z ∧ (syntax = bytes_of "proto2" ∨ oneof ≠ None ∨ kind = 11%Z ∨ kind = 10%Z).
Proof.
  unfold LABEL_REPEATED, TYPE_MESSAGE, TYPE_GROUP.
  rewrite andb_true_iff, negb_true_iff, Z.eqb_neq, !orb_true_iff, is_none_neq, !bool_decide_eq_true,
    !elem_of_cons, elem_of_nil. tauto.
Qed.

Lemma packed_exact syntax kind label packed :
  negb (bool_decide (kind ∈ [TYPE_STRING; TYPE_BYTES; TYPE_MESSAGE; TYPE_GROUP])) && (label =? LABEL_REPEATED)%Z
    && default (bool_decide (syntax = bytes_of "proto3")) packed = true ↔
  packable kind ∧ label = 3%Z ∧ (packed = Some true ∨ packed = None ∧ syntax = bytes_of "proto3").
Proof.
  rewrite !andb_true_iff, packable_exact, Z.eqb_eq. unfold LABEL_REPEATED.
  assert (default (bool_decide (syntax = bytes_of "proto3")) packed = true ↔
    packed = Some true ∨ packed = None ∧ syntax = bytes_of "proto3") as ->; [|tauto].
  destruct packed as [[]|]; cbn; [naive_solver..|]. rewrite bool_decide_eq_true. naive_solver.
Qed.

(** The form of a field is the one described, and there is one exactly when the
    field is legal. *)
Lemma field_form_exact self scope syntax m field form :
  field_form self scope syntax m field = Some (Ok form) ↔ has_field_form self scope syntax m field form.
Proof.
  unfold field_form. destruct (fd_extendee field) as [x|] eqn:Ex; cbn [is_none fp_ensure].
  { split; [done|]. intros []. congruence. }
  destruct (field_type self scope field) as [[[kind reference]|e]|] eqn:Et;
    [|by split; [|intros [_ _ _ Ht%field_type_exact]]; congruence..].
  pose proof (label_exact field) as Hl. cbn zeta in Hl.
  destruct (try_enum label_try_from _ _) as [label|e]; [|by split; [|intros []; destruct (Hl (ff_label form))]].
  pose proof (oneof_exact m field) as Ho. cbn zeta in Ho.
  destruct (match fd_oneof_index field with Some _ => _ | None => _ end) as [oneof|e];
    [|by split; [|intros []; destruct (Ho (ff_oneof form))]].
  rewrite some_result. cbv beta iota zeta. set (l := default LABEL_OPTIONAL label) in *.
  pose proof (bool_decide_eq_true (syntax = bytes_of "proto3")) as H3.
  rewrite (optional_exact field m _ l oneof _ _ _ H3).
  rewrite (ensure_exact _ (oneof ≠ None → l = 1%Z)) by (change LABEL_OPTIONAL with 1%Z; destruct oneof; cbn;
    rewrite ?orb_true_l, ?Z.eqb_eq; naive_solver).
  rewrite (ensure_exact _ (syntax = bytes_of "proto3" → l ≠ 2%Z)) by (rewrite orb_true_iff, !negb_true_iff, Z.eqb_neq,
    bool_decide_eq_false; change LABEL_REQUIRED with 2%Z; destruct (decide (syntax = bytes_of "proto3")); tauto).
  rewrite (ensure_exact _ (fd_packed field = Some true → packable kind ∧ l = 3%Z)) by (rewrite orb_true_iff, negb_true_iff,
    bool_decide_eq_false, andb_true_iff, packable_exact, Z.eqb_eq; change LABEL_REPEATED with 3%Z;
    destruct (decide (fd_packed field = Some true)); tauto).
  split.
  - intros (Hopt&H1&H2&Hp&[= <-]). split; cbn; try done.
    + by apply field_type_exact.
    + by apply Hl.
    + by apply Ho.
    + apply presence_exact.
    + apply packed_exact.
    + destruct (fd_json_name field); [done|]. by apply camel_case_exact.
  - intros []. apply field_type_exact in fo_type0. rewrite Et in fo_type0. injection fo_type0 as Hk Hr.
    apply Hl in fo_label0. apply Ho in fo_oneof0. rewrite <- Hk, fo_label0, ?fo_oneof0 in *.
    split_and!; try done.
    apply (flag_exact _ _ _ (presence_exact _ _ _ _)) in fo_presence0.
    apply (flag_exact _ _ _ (packed_exact _ _ _ _)) in fo_packed0.
    destruct form; cbn in *. f_equal. subst. f_equal.
    destruct (fd_json_name field); cbn; [done|]. by apply camel_case_exact.
Qed.
