(* ===== verification/FingerprintSpec.v ===== *)
(** * FingerprintSpec: normal forms of schemas and their bytes

    A definition's normal form ([NodeForm]) is what of it counts for
    compatibility.  The canonical bytes of a form determine it, because every
    writer is prefix-free; a record of [Index::message] is the bytes of the
    definition's form. *)

From Stdlib Require Import ZArith Lia Permutation Sorted.
From stdpp Require Import sorting.
From S2P Require Import Prelude Text Btree Core Fingerprint FieldSpec.

(** ** Prefix-free writers *)

(** What is written can be told from whatever follows. *)
Definition prefix_free {A} (P : A → Prop) (enc : A → list Z) : Prop :=
  ∀ x y r s, P x → P y → enc x ++ r = enc y ++ s → x = y ∧ r = s.

Definition in_memory {A} (l : list A) : Prop := (Z.of_nat (length l) < 2 ^ 64)%Z.
Definition is_i32 (z : Z) : Prop := (- 2 ^ 31 ≤ z < 2 ^ 31)%Z.

Lemma pf_fixed {A} (P : A → Prop) (enc : A → list Z) n :
  (∀ x, P x → length (enc x) = n) → (∀ x y, P x → P y → enc x = enc y → x = y) → prefix_free P enc.
Proof.
  intros Hl Hinj x y r s Hx Hy Heq. apply app_inj_1 in Heq as [He ->]; [|by rewrite !Hl].
  split; [by apply Hinj|done].
Qed.

Lemma pf_boolean : prefix_free (λ _, True) cn_boolean.
Proof. apply (pf_fixed _ _ 1); [done|]. by intros [] []. Qed.

Lemma pf_integer : prefix_free is_i32 cn_integer.
Proof.
  apply (pf_fixed _ _ 4); [intros; apply length_le_bytes|]. intros x y Hx Hy Heq. unfold cn_integer in Heq.
  apply (f_equal from_le) in Heq. rewrite !from_le_bytes in Heq by (apply wrap_range; lia).
  unfold wrap, is_i32 in *. change (2 ^ 32)%Z with 4294967296%Z in Heq. change (2 ^ 31)%Z with 2147483648%Z in *.
  pose proof (Z.div_mod x 4294967296). pose proof (Z.div_mod y 4294967296). lia.
Qed.

Lemma pf_count : prefix_free (λ n, Z.of_nat n < 2 ^ 64)%Z cn_count.
Proof.
  apply (pf_fixed _ _ 8); [intros; apply length_le_bytes|]. intros x y Hx Hy Heq. unfold cn_count in Heq.
  apply (f_equal from_le) in Heq. rewrite !from_le_bytes in Heq by (unfold is_u; lia). lia.
Qed.

Lemma pf_bytes : prefix_free in_memory cn_bytes.
Proof.
  intros x y r s Hx Hy Heq. unfold cn_bytes in Heq. rewrite <- !app_assoc in Heq.
  apply pf_count in Heq as [Hl Heq]; [|done..]. by apply app_inj_1 in Heq.
Qed.

Lemma pf_string : prefix_free in_memory cn_string.
Proof. exact pf_bytes. Qed.

Definition opt_fits (o : option str) : Prop := match o with Some s => in_memory s | None => True end.

Lemma pf_optional : prefix_free opt_fits cn_optional.
Proof.
  intros x y r s Hx Hy Heq. unfold cn_optional in Heq. rewrite <- !app_assoc in Heq.
  apply pf_boolean in Heq as [Hb Heq]; [|done..]. destruct x as [x|], y as [y|]; try done.
  apply pf_string in Heq as [-> ->]; done.
Qed.

(** A list after its count. *)
Lemma pf_many {A} (P : A → Prop) (enc : A → list Z) x y r s :
  prefix_free P enc → Forall P x → Forall P y → length x = length y →
  (x ≫= enc) ++ r = (y ≫= enc) ++ s → x = y ∧ r = s.
Proof.
  intros Hpf. revert y. induction x as [|a x IH]; intros [|b y] Hx Hy Hl Heq; try done.
  apply List.Forall_cons_iff in Hx as [Ha Hx]. apply List.Forall_cons_iff in Hy as [Hb Hy].
  cbn [mbind list_bind] in Heq. rewrite <- !app_assoc in Heq. apply Hpf in Heq as [-> Heq]; [|done..].
  apply IH in Heq as [-> ->]; [done..|]. by injection Hl.
Qed.

Definition cn_list {A} (enc : A → list Z) (l : list A) : list Z := cn_count (length l) ++ (l ≫= enc).

Lemma pf_list {A} (P : A → Prop) (enc : A → list Z) :
  prefix_free P enc → prefix_free (λ l, in_memory l ∧ Forall P l) (cn_list enc).
Proof.
  intros Hpf x y r s [Hx HPx] [Hy HPy] Heq. unfold cn_list in Heq. rewrite <- !app_assoc in Heq.
  apply pf_count in Heq as [Hl Heq]; [|done..]. by eapply pf_many.
Qed.

Lemma pf_pair {A B} (P : A → Prop) (Q : B → Prop) f g :
  prefix_free P f → prefix_free Q g → prefix_free (λ x, P x.1 ∧ Q x.2) (λ x : A * B, f x.1 ++ g x.2).
Proof.
  intros Hf Hg [a b] [c d] r s [Ha Hb] [Hc Hd] Heq. cbn in *. rewrite <- !app_assoc in Heq.
  apply Hf in Heq as [-> Heq]; [|done..]. apply Hg in Heq as [-> ->]; done.
Qed.

Definition i32_pair (x : Z * Z) : Prop := is_i32 x.1 ∧ is_i32 x.2.

(** ** Normal forms *)

Record MessageForm : Type := mkMessageForm {
  mf_map_entry : bool;
  mf_message_set : bool;
  mf_ranges : list (Z * Z);
  mf_reserved : list str;
  mf_oneofs : list str;
  mf_fields : list FieldForm;
}.

Record EnumForm : Type := mkEnumForm {
  ef_default : Z;
  ef_allow_alias : bool;
  ef_ranges : list (Z * Z);
  ef_reserved : list str;
  ef_values : list (Z * str);
}.

Inductive NodeContent : Type := MessageNode (m : MessageForm) | EnumNode (e : EnumForm).

Record NodeForm : Type := mkNodeForm { nf_name : str; nf_syntax : str; nf_content : NodeContent }.

Definition range_bytes (x : Z * Z) : list Z := cn_integer x.1 ++ cn_integer x.2.
Definition value_bytes (x : Z * str) : list Z := cn_integer x.1 ++ cn_string x.2.

Definition message_form_bytes (m : MessageForm) : list Z :=
  cn_boolean (mf_map_entry m) ++ cn_boolean (mf_message_set m) ++ cn_list range_bytes (mf_ranges m) ++
  cn_list cn_string (mf_reserved m) ++ cn_list cn_string (mf_oneofs m) ++ cn_list field_bytes (mf_fields m).

Definition enum_bytes (e : EnumForm) : list Z :=
  cn_integer (ef_default e) ++ cn_boolean (ef_allow_alias e) ++ cn_list range_bytes (ef_ranges e) ++
  cn_list cn_string (ef_reserved e) ++ cn_list value_bytes (ef_values e).

Definition content_bytes (c : NodeContent) : list Z :=
  match c with MessageNode m => cn_byte 1 ++ message_form_bytes m | EnumNode e => cn_byte 2 ++ enum_bytes e end.

Definition node_bytes (n : NodeForm) : list Z :=
  cn_string (nf_name n) ++ cn_string (nf_syntax n) ++ content_bytes (nf_content n).

(** The values that the types of the code can hold. *)
Record field_typed (f : FieldForm) : Prop := {
  ft_number : is_i32 (ff_number f);
  ft_name : in_memory (ff_name f);
  ft_kind : is_i32 (ff_kind f);
  ft_label : is_i32 (ff_label f);
  ft_reference : opt_fits (ff_reference f);
  ft_oneof : opt_fits (ff_oneof f);
  ft_default : opt_fits (ff_default f);
  ft_json_name : in_memory (ff_json_name f);
}.

Definition list_typed {A} (P : A → Prop) (l : list A) : Prop := in_memory l ∧ Forall P l.

Definition message_typed (m : MessageForm) : Prop :=
  list_typed i32_pair (mf_ranges m) ∧ list_typed in_memory (mf_reserved m) ∧ list_typed in_memory (mf_oneofs m) ∧
  list_typed field_typed (mf_fields m).

Definition enum_typed (e : EnumForm) : Prop :=
  is_i32 (ef_default e) ∧ list_typed i32_pair (ef_ranges e) ∧ list_typed in_memory (ef_reserved e) ∧
  list_typed (λ v, is_i32 v.1 ∧ in_memory v.2) (ef_values e).

Definition content_typed (c : NodeContent) : Prop :=
  match c with MessageNode m => message_typed m | EnumNode e => enum_typed e end.

Definition node_typed (n : NodeForm) : Prop :=
  in_memory (nf_name n) ∧ in_memory (nf_syntax n) ∧ content_typed (nf_content n).

(** One writer after another: what comes first is equal, and so is the rest. *)
Ltac peel H L := let E := fresh "E" in apply L in H as [E H]; [|try done..].

Lemma pf_field : prefix_free field_typed field_bytes.
Proof.
  intros x y r s [] [] Heq. unfold field_bytes in Heq. rewrite <- !app_assoc in Heq.
  peel Heq pf_integer. peel Heq pf_string. peel Heq pf_integer. peel Heq pf_integer. peel Heq pf_optional.
  peel Heq pf_optional. peel Heq pf_boolean. peel Heq pf_boolean. peel Heq pf_boolean. peel Heq pf_optional.
  peel Heq pf_string. split; [|done]. destruct x, y; cbn in *; congruence.
Qed.

Lemma pf_range : prefix_free i32_pair range_bytes.
Proof. apply (pf_pair _ _ _ _ pf_integer pf_integer). Qed.

Lemma pf_value : prefix_free (λ v, is_i32 v.1 ∧ in_memory v.2) value_bytes.
Proof. apply (pf_pair _ _ _ _ pf_integer pf_string). Qed.

Lemma pf_message : prefix_free message_typed message_form_bytes.
Proof.
  intros x y r s (?&?&?&?) (?&?&?&?) Heq. unfold message_form_bytes in Heq. rewrite <- !app_assoc in Heq.
  peel Heq pf_boolean. peel Heq pf_boolean. peel Heq (pf_list _ _ pf_range). peel Heq (pf_list _ _ pf_string).
  peel Heq (pf_list _ _ pf_string). peel Heq (pf_list _ _ pf_field). split; [|done].
  destruct x, y; cbn in *; congruence.
Qed.

Lemma pf_enum : prefix_free enum_typed enum_bytes.
Proof.
  intros x y r s (?&?&?&?) (?&?&?&?) Heq. unfold enum_bytes in Heq. rewrite <- !app_assoc in Heq.
  peel Heq pf_integer. peel Heq pf_boolean. peel Heq (pf_list _ _ pf_range). peel Heq (pf_list _ _ pf_string).
  peel Heq (pf_list _ _ pf_value). split; [|done]. destruct x, y; cbn in *; congruence.
Qed.

Lemma pf_content : prefix_free content_typed content_bytes.
Proof.
  intros [m|e] [m'|e'] r s Hx Hy Heq; cbn [content_bytes content_typed] in *; rewrite <- !app_assoc in Heq; try done.
  - apply app_inj_1 in Heq as [_ Heq]; [|done]. peel Heq pf_message. by subst.
  - apply app_inj_1 in Heq as [_ Heq]; [|done]. peel Heq pf_enum. by subst.
Qed.

Lemma pf_node : prefix_free node_typed node_bytes.
Proof.
  intros x y r s (?&?&?) (?&?&?) Heq. unfold node_bytes in Heq. rewrite <- !app_assoc in Heq.
  peel Heq pf_string. peel Heq pf_string. peel Heq pf_content. split; [|done]. destruct x, y; cbn in *; congruence.
Qed.

Lemma bt_ok_sorted {K V} `{OrdLaws K} (m : btree K V) : bt_ok m → StronglySorted (lt_on id) m.*1.
Proof.
  induction m as [|[k v] m IH]; [constructor|]. cbn. intros [Hlt Hok]. constructor; [by apply IH|].
  rewrite Forall_forall. intros x Hx. apply list_elem_of_fmap in Hx as (e&->&He).
  exact (proj1 (Forall_forall _ _) Hlt e He).
Qed.

(** ** The normal form of a definition *)

Record has_message_form (self : Index) (name syntax : str) (m : MessageBody) (f : MessageForm) : Prop := {
  hm_extended : mb_extended m = false;
  hm_oneofs : NoDup (mb_oneof_decl m) ∧ [] ∉ mb_oneof_decl m;
  hm_numbers : NoDup (fd_number <$> mb_field m) ∧ Forall (λ field, 0 < fd_number field)%Z (mb_field m);
  hm_names : NoDup (fd_name <$> mb_field m) ∧ [] ∉ fd_name <$> mb_field m;
  hm_map_entry : mf_map_entry f = mb_map_entry m;
  hm_message_set : mf_message_set f = mb_message_set m;
  hm_ranges : mf_ranges f = sort_by_key id (mb_reserved_range m);
  hm_reserved : mf_reserved f = sort_by_key id (mb_reserved_name m);
  hm_oneof_names : mf_oneofs f = sort_by_key id (mb_oneof_decl m);
  hm_fields : Forall2 (has_field_form self name syntax m) (sort_by_key fd_number (mb_field m)) (mf_fields f);
}.

Definition value_key (v : EnumValue) : Z * str := (ev_number v, ev_name v).

Record has_enum_form (e : EnumDescriptor) (f : EnumForm) : Prop := {
  he_default : Some (ef_default f) = ev_number <$> head (ed_value e);
  he_names : NoDup (ev_name <$> ed_value e) ∧ [] ∉ ev_name <$> ed_value e;
  he_allow_alias : ef_allow_alias f = ed_allow_alias e;
  he_ranges : ef_ranges f = sort_by_key id (ed_reserved_range e);
  he_reserved : ef_reserved f = sort_by_key id (ed_reserved_name e);
  he_values : ef_values f = sort_by_key id (value_key <$> ed_value e);
}.

Definition has_content (self : Index) (name syntax : str) (d : Definition_) (c : NodeContent) : Prop :=
  match d, c with
  | DMessage m, MessageNode f => has_message_form self name syntax (d_body m) f
  | DEnum e, EnumNode f => has_enum_form e f
  | _, _ => False
  end.

(** A file without a syntax is proto2. *)
Definition has_syntax (written syntax : str) : Prop :=
  (written = [] ∨ written = bytes_of "proto2") ∧ syntax = bytes_of "proto2" ∨
  written = bytes_of "proto3" ∧ syntax = bytes_of "proto3".

(** A defined name and its form. *)
Record has_form (self : Index) (name : str) (f : NodeForm) : Prop := {
  hf_entry : ∃ file d, bt_get name self = Some (file, d) ∧
    has_syntax (fl_syntax file) (nf_syntax f) ∧
    has_content self name (nf_syntax f) d (nf_content f);
  hf_name : nf_name f = name;
}.

(** The names that a form refers to. *)
Definition content_refs (c : NodeContent) : list str :=
  match c with MessageNode m => mf_fields m ≫= λ f, option_list (ff_reference f) | EnumNode _ => [] end.
Definition node_refs (f : NodeForm) : list str := content_refs (nf_content f).

Lemma canonical_syntax_exact written name syntax :
  canonical_syntax written name = Ok syntax ↔ has_syntax written syntax.
Proof.
  unfold canonical_syntax, has_syntax. repeat case_bool_decide; subst; cbn [orb]; naive_solver.
Qed.

(** ** References exist *)

Lemma fp_resolve_total self scope reference :
  ∃ r, fp_resolve self scope reference = Some r ∧ ∀ name, r = Ok name → is_Some (bt_get name self).
Proof.
  assert (Hc : ∀ name, bt_contains name self = true → is_Some (bt_get name self)).
  { intros name. unfold bt_contains. by destruct (bt_get name self). }
  assert (Hloop : ∀ fuel scope, length scope < fuel →
    ∃ r, resolve_from fuel self scope reference = Some r ∧ ∀ name, r = Ok name → is_Some (bt_get name self)).
  { intros fuel. induction fuel as [|fuel IH]; intros sc Hl; [lia|]. cbn.
    destruct (bt_contains (qualified sc reference) self) eqn:E; [eexists; split; [done|]; intros ? [= <-]; by apply Hc|].
    destruct sc as [|b sc]; [by eexists|]. apply IH. unfold parent_scope.
    destruct (position _ _) as [i|]; [|cbn in *; lia]. rewrite length_take. cbn in *. lia. }
  unfold fp_resolve. destruct reference as [|b reference]; [by eexists|].
  assert (Hdot : ∀ (P : option (result str FpError) → Prop), P (Some (if bt_contains reference self then Ok reference
      else Err (UnresolvedIn (b :: reference) scope))) → P (resolve_from (S (length scope)) self scope (b :: reference)) →
      P (match b :: reference with 46%Z :: absolute => Some (if bt_contains absolute self then Ok absolute
           else Err (UnresolvedIn (b :: reference) scope)) | [] => Some (Err (MissingReference scope))
         | _ => resolve_from (S (length scope)) self scope (b :: reference) end)).
  { intros P H1 H2. destruct b as [|p|p]; try exact H2. do 6 (destruct p; try exact H2). exact H1. }
  apply (Hdot (λ o, ∃ r, o = Some r ∧ ∀ name, r = Ok name → is_Some (bt_get name self))).
  - destruct (bt_contains reference self) eqn:E; [|by eexists]. eexists. split; [done|]. intros ? [= <-]. by apply Hc.
  - apply Hloop. lia.
Qed.

Lemma field_type_total self name field :
  ∃ r, field_type self name field = Some r ∧
    ∀ kind reference, r = Ok (kind, Some reference) → is_Some (bt_get reference self).
Proof.
  unfold field_type. destruct (fd_type_name field) as [reference|]; cbn.
  - destruct (fp_resolve_total self name reference) as (r&->&Hr). destruct r as [target|e]; [|by eexists].
    destruct (Hr target eq_refl) as [[file d] Ht]. rewrite Ht. cbn. eexists. split; [done|].
    intros kind reference'. destruct (try_enum _ _ _); [|done]. cbn. destruct (ok_or _ _); [|done].
    destruct (if bool_decide _ then _ else _); [|done]. intros [= _ <-]. by eexists.
  - eexists. split; [done|]. intros kind reference. destruct (try_enum _ _ _); [|done]. cbn. destruct (ok_or _ _); [|done].
    by destruct (if bool_decide _ then _ else _).
Qed.

Lemma field_form_total self name syntax m field :
  ∃ r, field_form self name syntax m field = Some r ∧
    ∀ form reference, r = Ok form → ff_reference form = Some reference → is_Some (bt_get reference self).
Proof.
  unfold field_form. destruct (fp_ensure _ _); [|by eexists]. destruct (field_type_total self name field) as (r&->&Hr).
  destruct r as [[kind reference]|e]; [|by eexists]. eexists. split; [done|].
  intros form target. destruct (try_enum _ _ _); [|done]. cbn.
  destruct (match fd_oneof_index field with Some _ => _ | None => _ end) as [oneof|]; [|done]. cbn.
  destruct (if fd_proto3_optional field then _ else _); [|done].
  destruct (fp_ensure _ _); [|done]. destruct (fp_ensure _ _); [|done]. destruct (fp_ensure _ _); [|done].
  intros [= <-] Ht. cbn in Ht. subst. by eapply Hr.
Qed.

(** ** The loop over the fields *)

Section fields.
Context (self : Index) (name syntax : str) (m : MessageBody).

Definition form_of (field : FieldDescriptor) (form : FieldForm) : Prop :=
  field_form self name syntax m field = Some (Ok form).

Lemma forms_exact l forms : Forall2 (has_field_form self name syntax m) l forms ↔ Forall2 form_of l forms.
Proof. split; intros Hl; (eapply Forall2_impl; [exact Hl|]); intros; by apply field_form_exact. Qed.

Lemma form_names field form : form_of field form → ff_number form = fd_number field ∧ ff_name form = fd_name field.
Proof.
  unfold form_of, field_form. destruct (fp_ensure _ _); [|done].
  destruct (field_type self name field) as [[[kind reference]|]|]; [|done..]. intros [= Hf]. revert Hf.
  destruct (try_enum _ _ _); [|done]. cbn.
  destruct (match fd_oneof_index field with Some _ => _ | None => _ end) as [oneof|]; [|done]. cbn.
  destruct (if fd_proto3_optional field then _ else _); [|done].
  destruct (fp_ensure _ _); [|done]. destruct (fp_ensure _ _); [|done]. destruct (fp_ensure _ _); [|done]. by intros [= <-].
Qed.

(** The names and numbers of the fields are new. *)
Definition fields_fresh (numbers : btree Z unit) (names : btree str unit) (l : list FieldDescriptor) : Prop :=
  NoDup (fd_number <$> l) ∧ NoDup (fd_name <$> l) ∧
  Forall (λ f, 0 < fd_number f ∧ fd_number f ∉ numbers.*1 ∧ fd_name f ≠ [] ∧ fd_name f ∉ names.*1)%Z l.

Lemma bs_insert_new {K} `{OrdLaws K} (k : K) (s : btree K unit) : bt_ok s → (bs_insert k s).1 = true ↔ k ∉ s.*1.
Proof.
  intros Hok. unfold bs_insert. pose proof (bt_insert_old k tt s) as Hold. destruct (bt_insert k tt s) as [o s'].
  cbn in *. subst o. rewrite <- bt_get_None by done. destruct (bt_get k s); naive_solver.
Qed.

Lemma fields_fresh_cons numbers names f l :
  bt_ok numbers → bt_ok names →
  fields_fresh numbers names (f :: l) ↔
  (0 < fd_number f)%Z ∧ fd_number f ∉ numbers.*1 ∧ fd_name f ≠ [] ∧ fd_name f ∉ names.*1 ∧
  fields_fresh (bs_insert (fd_number f) numbers).2 (bs_insert (fd_name f) names).2 l.
Proof.
  intros Hn Hm. unfold fields_fresh. cbn [fmap list_fmap]. rewrite !NoDup_cons, List.Forall_cons_iff, !Forall_forall.
  setoid_rewrite bs_insert_elem; [|done..]. setoid_rewrite list_elem_of_fmap. split.
  - intros ((Hi&Hd1)&(Hj&Hd2)&(?&?&?&?)&Hd3). split_and!; try done. intros x Hx. destruct (Hd3 x Hx) as (?&?&?&?).
    split_and!; try done; intros [He|?]; try done; [apply Hi|apply Hj]; eauto.
  - intros (?&?&?&?&Hd1&Hd2&Hd3). split_and!; try done.
    + intros (y&He&Hy). destruct (Hd3 y Hy) as (_&Hc&_). apply Hc. by left.
    + intros (y&He&Hy). destruct (Hd3 y Hy) as (_&_&_&Hc). apply Hc. by left.
    + intros x Hx. destruct (Hd3 x Hx) as (?&?&?&?). split_and!; try done; intros ?; naive_solver.
Qed.

Lemma fields_fold l numbers names out pend :
  bt_ok numbers → bt_ok names →
  ∃ r, try_fold (encode_fields_step self name syntax m) (numbers, names, out, pend) l = Some r ∧
  match r with
  | Ok s => fields_fresh numbers names l ∧ ∃ forms, Forall2 form_of l forms ∧
      s.1.2 = out ++ (forms ≫= field_bytes) ∧ s.2 = pend ++ (forms ≫= λ f, option_list (ff_reference f))
  | Err _ => ¬ (fields_fresh numbers names l ∧ ∃ forms, Forall2 form_of l forms)
  end.
Proof.
  revert numbers names out pend. induction l as [|f l IH]; intros numbers names out pend Hn Hm; cbn [try_fold].
  { eexists. split; [done|]. split; [by repeat constructor|]. exists []. by rewrite !app_nil_r. }
  pose proof (fields_fresh_cons numbers names f l Hn Hm) as Hcons.
  pose proof (bs_insert_new (fd_number f) numbers Hn) as Hnew. pose proof (bs_insert_new (fd_name f) names Hm) as Hnew'.
  pose proof (bs_insert_ok (fd_number f) numbers Hn) as Hn'. pose proof (bs_insert_ok (fd_name f) names Hm) as Hm'.
  unfold encode_fields_step at 1. destruct (bs_insert (fd_number f) numbers) as [b numbers'].
  destruct (bs_insert (fd_name f) names) as [b' names']. cbn [fst snd] in *.
  destruct ((0 <? fd_number f)%Z && b) eqn:E1; cbn [fp_ensure]; breflect_in E1;
    [|eexists; split; [done|]; intros [(?&?&_)%Hcons _]; destruct E1; [lia|naive_solver]].
  destruct (negb (bool_decide (fd_name f = [])) && b') eqn:E2; cbn [fp_ensure]; breflect_in E2;
    [|eexists; split; [done|]; intros [(?&?&?&?&_)%Hcons _]; destruct E2; [by eauto|naive_solver]].
  destruct E1 as [? Hb], E2 as [? Hb']. apply Hnew in Hb. apply Hnew' in Hb'.
  unfold encode_field. destruct (field_form_total self name syntax m f) as (r&Hr&_). rewrite Hr.
  destruct r as [form|e].
  - destruct (IH numbers' names' (out ++ field_bytes form) (pend ++ option_list (ff_reference form)) Hn' Hm') as (r&->&Hfold).
    eexists. split; [done|]. destruct r as [s|e].
    + destruct Hfold as (Hf&forms&H2&Ho&Hp). split; [by apply Hcons|]. exists (form :: forms). split; [by constructor|].
      split; [rewrite Ho|rewrite Hp]; cbn [mbind list_bind]; by rewrite app_assoc.
    + intros [Hf (forms&H2)]. apply Hcons in Hf as (_&_&_&_&Hf). apply Hfold. split; [done|].
      inversion H2; subst. by eexists.
  - eexists. split; [done|]. intros [_ (forms&H2)]. inversion H2 as [|? ? ? ? Hform]; subst. unfold form_of in Hform.
    congruence.
Qed.
End fields.

(** ** The records of definitions *)

Lemma cn_ranges_list l : cn_ranges l = cn_list range_bytes (sort_by_key id l).
Proof. unfold cn_ranges, cn_list. f_equal. apply list_bind_ext; [|done]. by intros [a b]. Qed.

Lemma collected_keys {K} `{OrdLaws K} (l : list K) :
  let keys := (bt_collect ((λ o, (o, tt)) <$> l)).*1 in
  StronglySorted (lt_on id) keys ∧ (∀ x, x ∈ keys ↔ x ∈ l).
Proof.
  cbn. set (m := bt_collect _). assert (Hok : bt_ok m) by (by apply bt_extend_ok). split; [by apply bt_ok_sorted|].
  intros x. unfold m, bt_collect. rewrite bt_extend_keys_iff by done. rewrite <- list_fmap_compose.
  rewrite (list_fmap_ext _ id) by done. rewrite list_fmap_id. set_solver.
Qed.

Lemma strict_NoDup {K} `{OrdLaws K} (l : list K) : StronglySorted (lt_on id) l → NoDup l.
Proof.
  induction 1 as [|x l Hl IH Hx]; constructor; [|done]. intros Hin. rewrite Forall_forall in Hx.
  specialize (Hx x Hin). unfold lt_on, id in Hx. by rewrite cmp_refl in Hx.
Qed.

(** The names of the oneofs, deduplicated and counted, and then sorted again. *)
Lemma oneof_names (l : list str) :
  let names := (bt_collect ((λ o, (o, tt)) <$> l)).*1 in
  (length names = length l ↔ NoDup l) ∧ (NoDup l → names = sort_by_key id l) ∧ sort_by_key id names = names ∧
  ([] ∈ names ↔ [] ∈ l).
Proof.
  cbn. destruct (collected_keys l) as [Hs Hin]. set (names := _.*1) in *.
  pose proof (strict_NoDup _ Hs) as Hnd. split_and!; [| |by apply sort_strict_id|by apply Hin].
  - split; intros Hl.
    + apply NoDup_ListNoDup, (List.NoDup_incl_NoDup (l := names)); [by apply NoDup_ListNoDup|by rewrite Hl|].
      intros x Hx. apply list_elem_of_In. by apply Hin, list_elem_of_In.
    + apply Permutation_length, NoDup_Permutation; [done|done|exact Hin].
  - intros Hl. transitivity (sort_by_key id names); [symmetry; by apply sort_strict_id|].
    apply sort_id_unique, NoDup_Permutation; done.
Qed.

Lemma fields_fresh_sorted (l : list FieldDescriptor) :
  fields_fresh [] [] (sort_by_key fd_number l) ↔
  (NoDup (fd_number <$> l) ∧ Forall (λ f, 0 < fd_number f)%Z l) ∧ NoDup (fd_name <$> l) ∧ [] ∉ fd_name <$> l.
Proof.
  unfold fields_fresh. rewrite (sort_perm fd_number l). rewrite list_elem_of_fmap, !Forall_forall.
  split.
  - intros (?&?&Hf). split_and!; try done; [by intros x Hx; apply (Hf x Hx)|]. intros (x&He&Hx). destruct (Hf x Hx) as (_&_&Hn&_). done.
  - intros ((?&Hf)&?&Hn). split_and!; try done. intros x Hx. split_and!; [by apply Hf|set_solver| |set_solver].
    intros He. apply Hn. by exists x.
Qed.

Lemma has_message_form_iff self name syntax m :
  (∃ f, has_message_form self name syntax m f) ↔
  mb_extended m = false ∧ (NoDup (mb_oneof_decl m) ∧ [] ∉ mb_oneof_decl m) ∧
  fields_fresh [] [] (sort_by_key fd_number (mb_field m)) ∧
  ∃ forms, Forall2 (form_of self name syntax m) (sort_by_key fd_number (mb_field m)) forms.
Proof.
  rewrite fields_fresh_sorted. split.
  - intros [f []]. split_and!; try done; try tauto. eexists. by apply forms_exact.
  - intros (?&?&(?&?)&forms&?).
    exists (mkMessageForm (mb_map_entry m) (mb_message_set m) (sort_by_key id (mb_reserved_range m))
      (sort_by_key id (mb_reserved_name m)) (sort_by_key id (mb_oneof_decl m)) forms).
    split; try done. by apply forms_exact.
Qed.

Lemma encode_message_exact self name syntax m :
  ∃ r, encode_message self name syntax m = Some r ∧
  match r with
  | Ok (bytes, refs) => ∃ f, has_message_form self name syntax m f ∧ bytes = message_form_bytes f ∧
      refs = content_refs (MessageNode f)
  | Err _ => ¬ ∃ f, has_message_form self name syntax m f
  end.
Proof.
  unfold encode_message. destruct (oneof_names (mb_oneof_decl m)) as (Hlen&Hnames&Hsort&Hempty).
  destruct (negb (mb_extended m)) eqn:E1; cbn [fp_ensure]; breflect_in E1.
  2:{ eexists. split; [done|]. intros (?&_)%has_message_form_iff. congruence. }
  set (names := (bt_collect ((λ o, (o, tt)) <$> mb_oneof_decl m)).*1) in *.
  destruct ((length names =? length (mb_oneof_decl m)) && negb (bool_decide ([] ∈ names))) eqn:E2; cbn [fp_ensure];
    breflect_in E2.
  2:{ eexists. split; [done|]. intros (_&(Hn&He)&_)%has_message_form_iff. destruct E2 as [Hl|Hin].
      - apply Hl. by apply Hlen.
      - apply He. by apply Hempty. }
  destruct E2 as [Hl Hin]. assert (Hnd : NoDup (mb_oneof_decl m)) by by apply Hlen.
  match goal with |- context [try_fold ?f (?n, ?k, ?o, ?p) ?l] =>
    destruct (fields_fold self name syntax m l n k o p I I) as (r&Hrun&Hr);
    replace (try_fold f (n, k, o, p) l) with (Some r) by (symmetry; exact Hrun) end.
  destruct r as [[[[numbers names'] out] pend]|e]; eexists; (split; [done|]).
  - destruct Hr as (Hfresh&forms&Hf&Hout&Hpend). cbn [fst snd] in Hout, Hpend. apply fields_fresh_sorted in Hfresh as (?&?&?).
    exists (mkMessageForm (mb_map_entry m) (mb_message_set m) (sort_by_key id (mb_reserved_range m))
      (sort_by_key id (mb_reserved_name m)) (sort_by_key id (mb_oneof_decl m)) forms). split_and!; [|rewrite Hout|done].
    + split; try done; [split; [done|]; by rewrite <- Hempty|by apply forms_exact].
    + unfold message_form_bytes. cbn [mf_map_entry mf_message_set mf_ranges mf_reserved mf_oneofs mf_fields].
      rewrite cn_ranges_list. unfold cn_strings. rewrite Hsort, (Hnames Hnd).
      rewrite (Forall2_length _ _ _ Hf). unfold cn_list. by rewrite <- !app_assoc.
  - intros (_&_&?&?)%has_message_form_iff. by apply Hr.
Qed.

(** The names of the values are new. *)
Definition values_fresh (names : btree str unit) (l : list EnumValue) : Prop :=
  NoDup (ev_name <$> l) ∧ Forall (λ v, ev_name v ≠ [] ∧ ev_name v ∉ names.*1) l.

Lemma values_fresh_cons names v l :
  bt_ok names →
  values_fresh names (v :: l) ↔ ev_name v ≠ [] ∧ ev_name v ∉ names.*1 ∧ values_fresh (bs_insert (ev_name v) names).2 l.
Proof.
  intros Hok. unfold values_fresh. cbn [fmap list_fmap]. rewrite NoDup_cons, List.Forall_cons_iff, !Forall_forall.
  setoid_rewrite bs_insert_elem; [|done]. setoid_rewrite list_elem_of_fmap. split.
  - intros ((Hi&Hd1)&(?&?)&Hd2). split_and!; try done. intros x Hx. destruct (Hd2 x Hx). split; [done|].
    intros [He|?]; [apply Hi; eauto|done].
  - intros (?&?&Hd1&Hd2). split_and!; try done.
    + intros (y&He&Hy). destruct (Hd2 y Hy) as (_&Hc). apply Hc. by left.
    + intros x Hx. destruct (Hd2 x Hx). split; [done|]. naive_solver.
Qed.

Lemma values_fold name l names out :
  bt_ok names →
  match for_fold (encode_value_step name) (names, out) l with
  | Ok s => values_fresh names l ∧ s.2 = out ++ ((value_key <$> l) ≫= value_bytes)
  | Err _ => ¬ values_fresh names l
  end.
Proof.
  revert names out. induction l as [|v l IH]; intros names out Hok; cbn [for_fold].
  { split; [by repeat constructor|]. by rewrite app_nil_r. }
  pose proof (values_fresh_cons names v l Hok) as Hcons. pose proof (bs_insert_new (ev_name v) names Hok) as Hnew.
  pose proof (bs_insert_ok (ev_name v) names Hok) as Hok'. unfold encode_value_step at 1.
  destruct (bs_insert (ev_name v) names) as [b names']. cbn [fst snd] in *.
  destruct (negb (bool_decide (ev_name v = [])) && b) eqn:E; cbn [fp_ensure]; breflect_in E.
  2:{ intros (?&?&_)%Hcons. destruct E; [done|naive_solver]. }
  destruct E as [? Hb]. apply Hnew in Hb. specialize (IH names' (out ++ cn_integer (ev_number v) ++ cn_string (ev_name v)) Hok').
  destruct (for_fold _ _ l) as [s|e].
  - destruct IH as [Hf Ho]. split; [by apply Hcons|]. rewrite Ho. cbn [fmap list_fmap mbind list_bind].
    by rewrite <- app_assoc.
  - intros (_&_&Hf)%Hcons. by apply IH.
Qed.

Lemma sort_fmap {A K} `{Ord K} (key : A → K) l : sort_by_key id (key <$> l) = key <$> sort_by_key key l.
Proof.
  induction l as [|x l IH]; [done|]. cbn [fmap list_fmap sort_by_key foldr]. unfold sort_by_key, fmap in *. rewrite IH.
  generalize (foldr (insert_by key) [] l) as k. induction k as [|y k IHk]; [done|]. cbn. change (cmp (id (key x)) (id (key y))) with (cmp (key x) (key y)).
  destruct (cmp (key x) (key y)); cbn; [done|done|]. by rewrite <- IHk.
Qed.

Lemma values_fresh_sorted l :
  values_fresh [] (sort_by_key value_key l) ↔ NoDup (ev_name <$> l) ∧ [] ∉ ev_name <$> l.
Proof.
  unfold values_fresh. rewrite (sort_perm value_key l), list_elem_of_fmap, Forall_forall. split.
  - intros [? Hf]. split; [done|]. intros (x&He&Hx). by destruct (Hf x Hx).
  - intros [? Hf]. split; [done|]. intros x Hx. split; [|set_solver]. intros He. apply Hf. by exists x.
Qed.

Lemma encode_enum_exact name e :
  match encode_enum name e with
  | Ok bytes => ∃ f, has_enum_form e f ∧ bytes = enum_bytes f
  | Err _ => ¬ ∃ f, has_enum_form e f
  end.
Proof.
  unfold encode_enum. destruct (ed_value e) as [|v0 vs] eqn:Ev; [intros [f [He _ _ _ _ _]]; by rewrite Ev in He|].
  rewrite <- Ev. set (out := cn_integer (ev_number v0) ++ _).
  change (λ v, (ev_number v, ev_name v)) with value_key in *.
  pose proof (values_fold name (sort_by_key value_key (ed_value e)) [] out I) as Hf.
  destruct (for_fold _ _ _) as [[names bytes]|err].
  - destruct Hf as [Hfresh Hb]. apply values_fresh_sorted in Hfresh. cbn [snd] in Hb.
    exists (mkEnumForm (ev_number v0) (ed_allow_alias e) (sort_by_key id (ed_reserved_range e))
      (sort_by_key id (ed_reserved_name e)) (sort_by_key id (value_key <$> ed_value e))). split.
    + split; try done. by rewrite Ev.
    + rewrite Hb. unfold out, enum_bytes.
      cbn [ef_default ef_allow_alias ef_ranges ef_reserved ef_values]. rewrite cn_ranges_list, sort_fmap.
      unfold cn_strings, cn_list. rewrite (length_fmap value_key). by rewrite <- !app_assoc.
  - intros [f [_ Hn _ _ _ _]]. by apply Hf, values_fresh_sorted.
Qed.

(** ** The bytes, described

    What is written is a sequence of items; the description is independent of
    the writers of the code, and [schema_bytes_items] shows that they follow it. *)

Inductive item : Type :=
  | IByte (b : Z)                      (* a byte *)
  | IShort (z : Z)                     (* 16 bits, little-endian *)
  | IInt (z : Z)                       (* 32 bits, in two's complement, little-endian *)
  | ICount (n : nat)                   (* 64 bits, little-endian *)
  | IText (s : list Z).                (* bytes after their count *)

Definition item_bytes (i : item) : list Z :=
  match i with
  | IByte b => [b]
  | IShort z => le_bytes 2 z
  | IInt z => le_bytes 4 (z mod 2 ^ 32)
  | ICount n => le_bytes 8 (Z.of_nat n)
  | IText s => le_bytes 8 (Z.of_nat (length s)) ++ s
  end.

Definition spelled (items : list item) : list Z := items ≫= item_bytes.

Definition flag_item (b : bool) : item := IByte (if b then 1 else 0)%Z.
Definition optional_items (o : option str) : list item :=
  match o with Some s => [flag_item true; IText s] | None => [flag_item false] end.
Definition list_items {A} (f : A → list item) (l : list A) : list item := ICount (length l) :: (l ≫= f).

(** A field: its number and name, its type and label, what it refers to, its
    oneof, its presence and packing, its default and its JSON name. *)
Definition field_items (f : FieldForm) : list item :=
  [IInt (ff_number f); IText (ff_name f); IInt (ff_kind f); IInt (ff_label f)] ++
  optional_items (ff_reference f) ++ optional_items (ff_oneof f) ++
  [flag_item (ff_proto3_optional f); flag_item (ff_presence f); flag_item (ff_packed f)] ++
  optional_items (ff_default f) ++ [IText (ff_json_name f)].

Definition range_items (x : Z * Z) : list item := [IInt x.1; IInt x.2].

Definition message_items (m : MessageForm) : list item :=
  [flag_item (mf_map_entry m); flag_item (mf_message_set m)] ++ list_items range_items (mf_ranges m) ++
  list_items (λ s, [IText s]) (mf_reserved m) ++ list_items (λ s, [IText s]) (mf_oneofs m) ++
  list_items field_items (mf_fields m).

Definition enum_items (e : EnumForm) : list item :=
  [IInt (ef_default e); flag_item (ef_allow_alias e)] ++ list_items range_items (ef_ranges e) ++
  list_items (λ s, [IText s]) (ef_reserved e) ++ list_items (λ v, [IInt v.1; IText v.2]) (ef_values e).

Definition node_items (n : NodeForm) : list item :=
  [IText (nf_name n); IText (nf_syntax n)] ++
  match nf_content n with MessageNode m => IByte 1 :: message_items m | EnumNode e => IByte 2 :: enum_items e end.

(** The version, the root, and a record for each form. *)
Definition schema_items (root : str) (forms : list NodeForm) : list item :=
  [IText (bytes_of "reiny.schema-fingerprint"); IShort SCHEMA_FINGERPRINT_VERSION; IText root] ++
  list_items (λ f, [IText (spelled (node_items f))]) forms.

(** FNV-1a over 64 bits, byte by byte from the left *)
Inductive fnv1a : list Z → Z → Prop :=
  | fnv1a_offset : fnv1a [] 14695981039346656037
  | fnv1a_byte l h b : fnv1a l h → fnv1a (l ++ [b]) ((Z.lxor h b * 1099511628211) mod 2 ^ 64).

Lemma fnv64_exact l h : fnv64 l = h ↔ fnv1a l h.
Proof.
  split.
  - intros <-. induction l as [|b l IH] using rev_ind; [constructor|]. unfold fnv64 in *. rewrite foldl_snoc.
    by apply fnv1a_byte.
  - induction 1 as [|l h b _ IH]; [done|]. unfold fnv64 in *. by rewrite foldl_snoc, IH.
Qed.

Lemma spelled_app a b : spelled (a ++ b) = spelled a ++ spelled b.
Proof. apply bind_app. Qed.

Lemma spelled_cons i l : spelled (i :: l) = item_bytes i ++ spelled l.
Proof. done. Qed.

Lemma spelled_list {A} (f : A → list item) (enc : A → list Z) l :
  (∀ x, spelled (f x) = enc x) → spelled (list_items f l) = cn_list enc l.
Proof.
  intros Hf. unfold list_items, cn_list. rewrite spelled_cons. f_equal. induction l as [|x l IH]; [done|].
  by rewrite !bind_cons, spelled_app, Hf, IH.
Qed.

Lemma spelled_optional o : spelled (optional_items o) = cn_optional o.
Proof. destruct o as [s|]; [|done]. unfold spelled. cbn. by rewrite app_nil_r. Qed.

Lemma field_items_bytes f : spelled (field_items f) = field_bytes f.
Proof.
  unfold field_items, field_bytes. rewrite !spelled_app, !spelled_optional. unfold spelled. cbn [mbind list_bind item_bytes].
  rewrite ?app_nil_r, <- ?app_assoc. reflexivity.
Qed.

Lemma range_items_bytes x : spelled (range_items x) = range_bytes x.
Proof. reflexivity. Qed.

Lemma text_item_bytes s : spelled [IText s] = cn_string s.
Proof. unfold spelled. cbn. by rewrite app_nil_r. Qed.

Lemma value_items_bytes (v : Z * str) : spelled [IInt v.1; IText v.2] = value_bytes v.
Proof. unfold spelled. cbn. by rewrite app_nil_r. Qed.

Lemma message_items_bytes m : spelled (message_items m) = message_form_bytes m.
Proof.
  unfold message_items, message_form_bytes. rewrite !spelled_app, (spelled_list _ range_bytes _ range_items_bytes),
    !(spelled_list _ cn_string _ text_item_bytes), (spelled_list _ field_bytes _ field_items_bytes).
  unfold spelled. cbn [mbind list_bind item_bytes flag_item]. by rewrite <- !app_assoc.
Qed.

Lemma enum_items_bytes e : spelled (enum_items e) = enum_bytes e.
Proof.
  unfold enum_items, enum_bytes. rewrite !spelled_app, (spelled_list _ range_bytes _ range_items_bytes),
    (spelled_list _ cn_string _ text_item_bytes), (spelled_list _ value_bytes _ value_items_bytes).
  unfold spelled. cbn [mbind list_bind item_bytes flag_item]. by rewrite <- !app_assoc.
Qed.

Lemma node_items_bytes n : spelled (node_items n) = node_bytes n.
Proof.
  unfold node_items, node_bytes, content_bytes. rewrite spelled_app. destruct (nf_content n) as [m|e].
  - rewrite (spelled_cons (IByte 1)), message_items_bytes. unfold spelled. cbn [mbind list_bind item_bytes].
    by rewrite app_nil_r, <- !app_assoc.
  - rewrite (spelled_cons (IByte 2)), enum_items_bytes. unfold spelled. cbn [mbind list_bind item_bytes].
    by rewrite app_nil_r, <- !app_assoc.
Qed.
