(* ===== verification/FingerprintProps.v ===== *)
(** * FingerprintProps: what a schema fingerprint stands for

    The fingerprint of a message is the hash of bytes that determine the message's
    name and the normal forms of everything it refers to, directly or not. *)

From Stdlib Require Import ZArith Lia Permutation Sorted.
From S2P Require Import Prelude Text Btree Core Fingerprint FieldSpec FingerprintSpec.

(** ** Forms *)

Lemma Forall2_functional {A B} (R : A → B → Prop) l k1 k2 :
  (∀ x y z, R x y → R x z → y = z) → Forall2 R l k1 → Forall2 R l k2 → k1 = k2.
Proof.
  intros HR H1. revert k2. induction H1 as [|x y l k Hxy _ IH]; intros k2 H2; inversion H2; subst; [done|].
  f_equal; [by eapply HR|by apply IH].
Qed.

Lemma has_message_form_functional self name syntax m f g :
  has_message_form self name syntax m f → has_message_form self name syntax m g → f = g.
Proof.
  intros [_ _ _ _ ? ? ? ? ? Hf] [_ _ _ _ ? ? ? ? ? Hg].
  assert (mf_fields f = mf_fields g).
  { apply forms_exact in Hf, Hg. eapply Forall2_functional; [|exact Hf|exact Hg]. unfold form_of. intros x y z Hy Hz.
    congruence. }
  destruct f, g; cbn in *. congruence.
Qed.

Lemma has_enum_form_functional e f g : has_enum_form e f → has_enum_form e g → f = g.
Proof. intros [? _ ? ? ? ?] [? _ ? ? ? ?]. destruct f, g; cbn in *. congruence. Qed.

Lemma has_form_functional self name f g : has_form self name f → has_form self name g → f = g.
Proof.
  intros [(file&d&Hd&Hs&Hc) Hn] [(file'&d'&Hd'&Hs'&Hc') Hn']. rewrite Hd in Hd'. injection Hd' as <- <-.
  apply (canonical_syntax_exact _ name) in Hs, Hs'. rewrite Hs in Hs'. injection Hs' as Hs'. rewrite <- Hs' in Hc'.
  assert (nf_content f = nf_content g).
  { destruct d as [m|e], (nf_content f) as [x|x], (nf_content g) as [y|y]; cbn in *; try done; f_equal.
    - by eapply has_message_form_functional.
    - by eapply has_enum_form_functional. }
  destruct f, g; cbn in *. congruence.
Qed.

Lemma encode_record_exact self name file d :
  bt_get name self = Some (file, d) →
  ∃ r, encode_record self name file d = Some r ∧
  match r with
  | Ok (bytes, refs) => ∃ f, has_form self name f ∧ bytes = node_bytes f ∧ refs = node_refs f
  | Err _ => ¬ ∃ f, has_form self name f
  end.
Proof.
  intros Hget. unfold encode_record.
  assert (Hform : ∀ f, has_form self name f ↔ canonical_syntax (fl_syntax file) name = Ok (nf_syntax f) ∧
            has_content self name (nf_syntax f) d (nf_content f) ∧ nf_name f = name).
  { intros f. split.
    - intros [(file'&d'&Hd&Hs&Hc) Hn]. rewrite Hget in Hd. injection Hd as <- <-. by rewrite canonical_syntax_exact.
    - intros (?%canonical_syntax_exact&?&?). split; [by exists file, d|done]. }
  destruct (canonical_syntax (fl_syntax file) name) as [syntax|e].
  2:{ eexists. split; [done|]. by intros [f (?&_)%Hform]. }
  destruct d as [m|e].
  - destruct (encode_message_exact self name syntax (d_body m)) as (r&->&Hr).
    destruct r as [[bytes refs]|e]; (eexists; split; [done|]).
    + destruct Hr as (f&Hf&->&->). exists (mkNodeForm name syntax (MessageNode f)). split_and!; [by apply Hform| |done].
      unfold node_bytes. cbn [nf_name nf_syntax nf_content content_bytes]. by rewrite <- !app_assoc.
    + intros [f (Hs&Hc&_)%Hform]. injection Hs as Hs. rewrite <- Hs in Hc.
      destruct (nf_content f) as [x|x]; [|by cbn in Hc]. apply Hr. by exists x.
  - pose proof (encode_enum_exact name e) as He. destruct (encode_enum name e) as [bytes|err]; eexists; (split; [done|]).
    + destruct He as (f&Hf&->). exists (mkNodeForm name syntax (EnumNode f)). split_and!; [by apply Hform| |done].
      unfold node_bytes. cbn [nf_name nf_syntax nf_content content_bytes]. by rewrite <- !app_assoc.
    + intros [f (Hs&Hc&_)%Hform]. destruct (nf_content f) as [x|x]; [by cbn in Hc|].
      apply He. by exists x.
Qed.

Lemma refs_length (l : list FieldForm) : length (l ≫= λ f, option_list (ff_reference f)) ≤ length l.
Proof.
  induction l as [|x l IH]; [done|]. cbn [mbind list_bind]. rewrite length_app. cbn [length].
  destruct (ff_reference x); cbn; lia.
Qed.

Lemma form_refs self name f : has_form self name f →
  (∀ r, r ∈ node_refs f → is_Some (bt_get r self)) ∧
  ∀ file d, bt_get name self = Some (file, d) → length (node_refs f) ≤ references_of d.
Proof.
  intros [(file&d&Hd&Hs&Hc) _]. unfold node_refs, content_refs.
  destruct (nf_content f) as [m|e], d as [b|b]; cbn in Hc; try done.
  2:{ split; [intros r Hr; by apply elem_of_nil in Hr|intros; cbn; lia]. }
  destruct Hc as [_ _ _ _ _ _ _ _ _ Hfields%forms_exact]. split.
  - intros r Hr. apply list_elem_of_bind in Hr as (ff&Hr&Hff). destruct (Forall2_member_r _ _ _ _ Hfields Hff) as (field&_&Hform).
    unfold form_of in Hform.
    destruct (field_form_total self name (nf_syntax f) (d_body b) field) as (r0&Hr0&Hsome). rewrite Hform in Hr0.
    injection Hr0 as <-. apply (Hsome ff r eq_refl).
    destruct (ff_reference ff) as [r'|]; cbn in Hr; [by apply list_elem_of_singleton in Hr as ->|by apply elem_of_nil in Hr].
  - intros file' d' Hd'. rewrite Hd in Hd'. injection Hd' as <- <-. cbn.
    rewrite <- (Permutation_length (sort_perm fd_number (mb_field (d_body b)))), (Forall2_length _ _ _ Hfields).
    apply refs_length.
Qed.

(** ** Everything a message refers to *)

Inductive reaches (self : Index) (root : str) : str → Prop :=
  | reaches_root : reaches self root root
  | reaches_step name f r : reaches self root name → has_form self name f → r ∈ node_refs f → reaches self root r.

(** The schema of a message: the normal forms of what it reaches, by name. *)
Record schema_of (self : Index) (root : str) (forms : list NodeForm) : Prop := {
  so_sorted : StronglySorted (lt_on nf_name) forms;
  so_forms f : f ∈ forms → reaches self root (nf_name f) ∧ has_form self (nf_name f) f;
  so_all name : reaches self root name → name ∈ nf_name <$> forms;
}.

Definition schema_bytes (root : str) (forms : list NodeForm) : list Z :=
  cn_string (bytes_of "reiny.schema-fingerprint") ++ le_bytes 2 SCHEMA_FINGERPRINT_VERSION ++ cn_string root ++
  cn_list (λ f, cn_bytes (node_bytes f)) forms.

Lemma reaches_defined self root name :
  is_Some (bt_get root self) → reaches self root name → is_Some (bt_get name self).
Proof. intros Hroot. induction 1 as [|name f r _ _ Hf Hr]; [done|]. by apply (form_refs _ _ _ Hf). Qed.

(** ** The loop *)

Section loop.
Context (self : Index) (root : str).
Hypothesis self_ok : bt_ok self.
Hypothesis root_defined : is_Some (bt_get root self).

Definition known (pending : list str) (records : btree str (list Z)) (name : str) : Prop :=
  name ∈ pending ∨ bt_contains name records = true.

Record loop_inv (pending : list str) (records : btree str (list Z)) : Prop := {
  li_ok : bt_ok records;
  li_root : known pending records root;
  li_pending name : name ∈ pending → reaches self root name;
  li_record name bytes : bt_get name records = Some bytes →
    reaches self root name ∧ ∃ f, has_form self name f ∧ bytes = node_bytes f ∧
      ∀ r, r ∈ node_refs f → known pending records r;
}.

(** The names that may still be pushed. *)
Definition weight (records : btree str (list Z)) (l : Index) : nat :=
  foldr (λ e n, (if bt_contains e.1 records then 0 else references_of e.2.2) + n) 0 l.

Lemma weight_record records name bytes file d (l : Index) :
  bt_ok records → bt_ok l → bt_get name l = Some (file, d) → bt_contains name records = false →
  weight (bt_insert name bytes records).2 l + references_of d = weight records l.
Proof.
  intros Hok Hl%bt_ok_NoDup Hget%bt_get_elem Hn. unfold weight.
  assert (Hins : ∀ k, bt_contains k (bt_insert name bytes records).2 = bool_decide (k = name) || bt_contains k records).
  { intros k. unfold bt_contains. rewrite bt_get_insert by done. rewrite (bool_decide_ext _ _ (cmp_eq k name)).
    by case_bool_decide. }
  assert (Hrest : ∀ l : Index, name ∉ l.*1 → weight (bt_insert name bytes records).2 l = weight records l).
  { unfold weight. intros k. induction k as [|[n e] k IH]; [done|]. cbn [foldr fmap list_fmap fst snd]. intros [Hne Hk]%not_elem_of_cons. rewrite Hins.
    rewrite bool_decide_eq_false_2 by done. cbn [orb]. by rewrite IH. }
  unfold weight in Hrest.
  induction l as [|[n e] l IH]; [by apply elem_of_nil in Hget|].
  cbn [foldr fmap list_fmap fst snd] in *. apply NoDup_cons in Hl as [Hnl Hl].
  rewrite Hins. apply elem_of_cons in Hget as [[= <- <-]|Hget].
  - rewrite bool_decide_eq_true_2 by done. cbn [orb]. rewrite Hn, Hrest by done. cbn [snd]. lia.
  - assert (n ≠ name) by (intros ->; apply Hnl; by apply (list_elem_of_fmap_2 fst) in Hget).
    rewrite bool_decide_eq_false_2 by done. cbn [orb]. specialize (IH Hl Hget). lia.
Qed.

Lemma known_insert pending refs records name bytes k :
  bt_ok records → known (name :: pending) records k → known (rev refs ++ pending) (bt_insert name bytes records).2 k.
Proof.
  intros Hok Hk. unfold known, bt_contains in *. rewrite bt_get_insert by done.
  case_bool_decide as E; [by right|]. destruct Hk as [[->|Hk]%elem_of_cons|Hk]; [by rewrite cmp_refl in E| |by right].
  left. apply elem_of_app. by right.
Qed.

Lemma loop_inv_record pending records name f :
  loop_inv (name :: pending) records → has_form self name f →
  loop_inv (rev (node_refs f) ++ pending) (bt_insert name (node_bytes f) records).2.
Proof.
  intros [Hok Hroot Hpend Hrec] Hf. split.
  - by apply bt_insert_ok.
  - by apply known_insert.
  - intros n [Hn|Hn]%elem_of_app; [|apply Hpend; by right]. apply (reaches_step _ _ name f); [apply Hpend; by left|done|].
    by apply list_elem_of_In, in_rev, list_elem_of_In.
  - intros n bytes. rewrite bt_get_insert by done. case_bool_decide as E.
    + apply cmp_eq in E as ->. intros [= <-]. split; [apply Hpend; by left|]. exists f. split_and!; [done|done|].
      intros r Hr. left. apply elem_of_app. left. by apply list_elem_of_In, in_rev; rewrite rev_involutive; apply list_elem_of_In.
    + intros Hn. destruct (Hrec _ _ Hn) as (?&g&?&?&Hg). split; [done|]. exists g. split_and!; [done|done|].
      intros r Hr. by apply known_insert, Hg.
Qed.

Lemma record_loop_spec fuel pending records :
  length pending + weight records self < fuel → loop_inv pending records →
  ∃ r, record_loop fuel self pending records = Some r ∧
  match r with
  | Ok records => loop_inv [] records
  | Err _ => ∃ name, reaches self root name ∧ ¬ ∃ f, has_form self name f
  end.
Proof.
  revert pending records. induction fuel as [|fuel IH]; intros pending records Hfuel Hinv; [lia|].
  destruct pending as [|name pending]; [by eexists|]. cbn [record_loop length] in *.
  destruct (bt_contains name records) eqn:Hc.
  - apply IH; [lia|]. destruct Hinv as [Hok Hroot Hpend Hrec].
    assert (Hk : ∀ k, known (name :: pending) records k → known pending records k).
    { intros k [[->|Hk]%elem_of_cons|Hk]; [by right|by left|by right]. }
    split; [done|by apply Hk|intros n Hn; apply Hpend; by right|]. intros n bytes Hn.
    destruct (Hrec _ _ Hn) as (?&g&?&?&Hg). split; [done|]. exists g. split_and!; [done|done|]. intros r Hr. by apply Hk, Hg.
  - assert (Hreach : reaches self root name) by (apply (li_pending _ _ Hinv); by left).
    destruct (reaches_defined self root name root_defined Hreach) as [[file d] Hget]. rewrite Hget.
    destruct (encode_record_exact self name file d Hget) as (r&->&Hr). destruct r as [[bytes refs]|e];
      [|exists (Err e); split; [done|by exists name]].
    destruct Hr as (f&Hf&->&->). apply IH; [|by apply loop_inv_record].
    pose proof (weight_record records name (node_bytes f) file d self (li_ok _ _ Hinv) self_ok Hget Hc).
    pose proof (proj2 (form_refs self name f Hf) file d Hget). rewrite length_app, length_rev. lia.
Qed.

(** At the end, the records are the forms of what is reached. *)
Lemma records_schema records :
  loop_inv [] records →
  ∃ forms, schema_of self root forms ∧ length records = length forms ∧
    (records.*2 ≫= cn_bytes) = (forms ≫= λ f, cn_bytes (node_bytes f)).
Proof.
  intros [Hok Hroot _ Hrec].
  assert (Hforms : ∃ forms, Forall2 (λ e f, nf_name f = e.1 ∧ has_form self e.1 f ∧ e.2 = node_bytes f) records forms).
  { assert (Hall : Forall (λ e, ∃ f, nf_name f = e.1 ∧ has_form self e.1 f ∧ e.2 = node_bytes f) records).
    { rewrite Forall_forall. intros [n bytes] Hin. apply bt_get_Some in Hin; [|done].
      destruct (Hrec _ _ Hin) as (_&f&Hf&Hb&_). exists f. split_and!; [by destruct Hf|done|done]. }
    clear -Hall. induction Hall as [|e l (f&Hf) _ (forms&IH)]; [by exists []|]. exists (f :: forms). by constructor. }
  destruct Hforms as [forms Hforms].
  assert (Hnames : nf_name <$> forms = records.*1).
  { clear -Hforms. induction Hforms as [|e f l k (He&_) _ IH]; [done|]. cbn. by rewrite He, IH. }
  assert (Hreach : ∀ name, reaches self root name → bt_contains name records = true).
  { induction 1 as [|name f r _ IH Hf Hr]; [by destruct Hroot as [Hr%elem_of_nil|]|].
    unfold bt_contains in IH. destruct (bt_get name records) as [bytes|] eqn:E; [|done].
    destruct (Hrec _ _ E) as (_&g&Hg&_&Hrefs). rewrite (has_form_functional _ _ _ _ Hf Hg) in Hr.
    by destruct (Hrefs r Hr) as [Hn%elem_of_nil|]. }
  exists forms. split; [split|split].
  - pose proof (bt_ok_sorted _ Hok) as Hs. rewrite <- Hnames in Hs. clear -Hs. induction forms as [|f l IH]; [constructor|].
    cbn in Hs. apply StronglySorted_inv in Hs as [Hs Hf]. constructor; [by apply IH|]. by rewrite Forall_fmap in Hf.
  - intros f Hf. destruct (Forall2_member_r _ _ _ _ Hforms Hf) as ([n bytes]&Hin&Hn&Hform&_). cbn in *.
    rewrite Hn. split; [|done]. apply bt_get_Some in Hin; [|done]. by destruct (Hrec _ _ Hin).
  - intros name Hname%Hreach. rewrite Hnames. by apply bt_contains_true.
  - by apply Forall2_length in Hforms.
  - clear -Hforms. induction Hforms as [|e f l k (_&_&He) _ IH]; [done|].
    by rewrite fmap_cons, !bind_cons, IH, He.
Qed.
End loop.

(** ** The index *)

Section descriptor_ind.
Context (P : Descriptor → Prop) (step : ∀ name body nested enums, Forall P nested → P (mkDescriptor name body nested enums)).

(** Induction over the messages nested in a message. *)
Fixpoint Descriptor_rec' (d : Descriptor) : P d :=
  let '(mkDescriptor name body nested enums) := d in
  step name body nested enums
    ((fix go l : Forall P l := match l with [] => List.Forall_nil P | x :: l => @List.Forall_cons _ P x l (Descriptor_rec' x) (go l) end)
       nested).
End descriptor_ind.

(** A definition as it is inserted: its scope, its own name, its file. *)
Definition Entry : Type := str * str * (FileDescriptor * Definition_).
Definition entry_name (e : Entry) : str := dotted e.1.1 e.1.2.

Definition enum_entry (file : FileDescriptor) (scope : str) (e : EnumDescriptor) : Entry :=
  (scope, ed_name e, (file, DEnum e)).
Fixpoint message_entries (file : FileDescriptor) (scope : str) (m : Descriptor) : list Entry :=
  let '(mkDescriptor own _ nested enums) := m in
  (scope, own, (file, DMessage m)) ::
  (nested ≫= message_entries file (dotted scope own)) ++ (enum_entry file (dotted scope own) <$> enums).
Definition file_entries (file : FileDescriptor) : list Entry :=
  (fl_message_type file ≫= message_entries file (fl_package file)) ++
  (enum_entry file (fl_package file) <$> fl_enum_type file).
Definition entries (set_ : list FileDescriptor) : list Entry := set_ ≫= file_entries.

Definition insert_entry (self : Index) (e : Entry) : result Index FpError :=
  let? (_, self) := index_insert self e.2.1 e.1.1 e.1.2 e.2.2 in Ok self.

Lemma for_fold_app {A S E} (f : S → A → result S E) s l k :
  for_fold f s (l ++ k) = match for_fold f s l with Ok s => for_fold f s k | Err e => Err e end.
Proof. revert s. induction l as [|x l IH]; intros s; [done|]. cbn. destruct (f s x); [apply IH|done]. Qed.

Lemma for_fold_bind {A B S E} (f : S → A → result S E) (g : S → B → result S E) (h : A → list B) l s :
  (∀ x s, x ∈ l → f s x = for_fold g s (h x)) → for_fold f s l = for_fold g s (l ≫= h).
Proof.
  revert s. induction l as [|x l IH]; intros s Hf; [done|]. rewrite bind_cons, for_fold_app. cbn [for_fold].
  rewrite Hf by by left. destruct (for_fold g s (h x)); [|done]. apply IH. intros y s' Hy. apply Hf. by right.
Qed.

Lemma for_fold_enums file scope s enums :
  for_fold (insert_enum file scope) s enums = for_fold insert_entry s (enum_entry file scope <$> enums).
Proof.
  rewrite (for_fold_bind _ insert_entry (λ e, [enum_entry file scope e])).
  - done.
  - intros e s' _. cbn. unfold insert_enum, insert_entry. cbn. by destruct (index_insert _ _ _ _ _) as [[? ?]|].
Qed.

Lemma insert_message_entries file m scope s :
  insert_message file scope s m = for_fold insert_entry s (message_entries file scope m).
Proof.
  revert scope s. induction m as [own body nested enums IH] using Descriptor_rec'. intros scope s.
  cbn [insert_message message_entries for_fold]. unfold insert_entry at 1. cbn [fst snd].
  unfold index_insert. destruct (fp_ensure _ _); [|done]. rewrite qualified_dotted.
  destruct (bt_insert _ _ s) as [old s1]. destruct (fp_ensure _ _); [|done]. rewrite for_fold_app.
  assert (Hgo : ∀ s, (fix go self nested := match nested with [] => Ok self
     | m :: nested => let? self := insert_message file (dotted scope own) self m in go self nested end) s nested =
     for_fold insert_entry s (nested ≫= message_entries file (dotted scope own))).
  { clear s s1. induction IH as [|m l Hm _ IH]; intros s; [done|]. rewrite bind_cons, for_fold_app, Hm.
    destruct (for_fold _ _ _); [apply IH|done]. }
  rewrite Hgo. destruct (for_fold insert_entry s1 _); [apply for_fold_enums|done].
Qed.

Lemma index_new_entries set_ : index_new set_ = for_fold insert_entry [] (entries set_).
Proof.
  unfold index_new, entries. apply for_fold_bind. intros file s _. unfold insert_scope, file_entries.
  rewrite for_fold_app.
  rewrite (for_fold_bind _ insert_entry (message_entries file (fl_package file)));
    [destruct (for_fold _ _ _); [apply for_fold_enums|done]|].
  intros m s' _. apply insert_message_entries.
Qed.

(** Every definition is in the index, once, and has a name. *)
Record index_of (set_ : list FileDescriptor) (index : Index) : Prop := {
  io_named e : e ∈ entries set_ → e.1.2 ≠ [];
  io_distinct : NoDup (entry_name <$> entries set_);
  io_index : index = bt_collect ((λ e, (entry_name e, e.2)) <$> entries set_);
}.

Lemma index_new_exact set_ :
  match index_new set_ with
  | Ok index => bt_ok index ∧ index_of set_ index
  | Err _ => ∀ index, ¬ index_of set_ index
  end.
Proof.
  rewrite index_new_entries.
  assert (Hgen : ∀ l s, bt_ok s →
    match for_fold insert_entry s l with
    | Ok index => index = bt_extend s ((λ e, (entry_name e, e.2)) <$> l) ∧
        Forall (λ e, e.1.2 ≠ [] ∧ entry_name e ∉ s.*1) l ∧ NoDup (entry_name <$> l)
    | Err _ => ¬ (Forall (λ e, e.1.2 ≠ [] ∧ entry_name e ∉ s.*1) l ∧ NoDup (entry_name <$> l))
    end).
  { induction l as [|e l IH]; intros s Hs; cbn [for_fold]; [by repeat constructor|].
    unfold insert_entry at 1, index_insert. rewrite qualified_dotted.
    case_bool_decide as He; cbn [negb fp_ensure]; [intros [[[Hn _] _]%List.Forall_cons_iff _]; done|].
    pose proof (bt_insert_old (dotted e.1.1 e.1.2) e.2 s) as Hold.
    pose proof (bt_insert_ok (dotted e.1.1 e.1.2) e.2 s Hs) as Hok.
    assert (Hkeys : ∀ k, k ∈ (bt_insert (dotted e.1.1 e.1.2) e.2 s).2.*1 ↔ k = entry_name e ∨ k ∈ s.*1).
    { intros k. pose proof (bt_extend_keys_iff s [(entry_name e, e.2)] k Hs) as Hk.
      change (bt_extend s [(entry_name e, e.2)]) with (bt_insert (entry_name e) e.2 s).2 in Hk. unfold entry_name in *.
      rewrite Hk. set_solver. }
    change (bt_extend s ((λ e, (entry_name e, e.2)) <$> e :: l))
      with (bt_extend (bt_insert (dotted e.1.1 e.1.2) e.2 s).2 ((λ e, (entry_name e, e.2)) <$> l)).
    destruct e as [[scope own] [file d]]. cbn [fst snd] in *. destruct (bt_insert _ _ s) as [old s'] eqn:Ei. cbn [fst snd] in *.
    subst old. destruct (bt_get (dotted scope own) s) as [v|] eqn:Eg; cbn [is_none fp_ensure].
    { intros [[[_ Hn] _]%List.Forall_cons_iff _]. apply Hn. apply bt_contains_true; [done|]. unfold bt_contains.
      unfold entry_name. cbn. by rewrite Eg. }
    apply bt_get_None in Eg; [|done]. specialize (IH s' Hok). destruct (for_fold insert_entry s' l) as [index|err].
    - destruct IH as (->&Hall&Hnd). split; [done|]. rewrite Forall_forall in Hall. split.
      + constructor; [done|]. rewrite Forall_forall. intros x Hx. destruct (Hall x Hx) as [? Hx']. split; [done|].
        intros Hs'. apply Hx', Hkeys. by right.
      + apply NoDup_cons. split; [|done]. intros (x&Hx&Hin)%list_elem_of_fmap. destruct (Hall x Hin) as [_ Hx']. apply Hx', Hkeys. by left.
    - intros [[_ Hall]%List.Forall_cons_iff [Hx Hnd]%NoDup_cons]. apply IH. split; [|done]. rewrite Forall_forall in *.
      intros y Hy. destruct (Hall y Hy). split; [done|]. intros [Hk|Hk]%Hkeys; [|done]. apply Hx.
      rewrite <- Hk. by apply list_elem_of_fmap_2. }
  specialize (Hgen (entries set_) [] I). destruct (for_fold _ _ _) as [index|e].
  - destruct Hgen as (->&Hall&Hnd). split; [by apply bt_extend_ok|]. rewrite Forall_forall in Hall.
    split; [intros e He; by destruct (Hall e He)|done|done].
  - intros index [Hn Hd _]. apply Hgen. split; [|done]. rewrite Forall_forall. intros x Hx. split; [by apply Hn|set_solver].
Qed.

(** ** Bytes that fit in memory come from values of their types *)

(** Numbers are [i32]. *)
Definition definition_typed (d : Definition_) : Prop :=
  match d with
  | DMessage m => Forall (λ f, is_i32 (fd_number f)) (mb_field (d_body m)) ∧ Forall i32_pair (mb_reserved_range (d_body m))
  | DEnum e => Forall (λ v, is_i32 (ev_number v)) (ed_value e) ∧ Forall i32_pair (ed_reserved_range e)
  end.
Definition index_typed (self : Index) : Prop :=
  ∀ name file d, bt_get name self = Some (file, d) → definition_typed d.

Lemma fits_app {A} (a b : list A) : in_memory (a ++ b) → in_memory a ∧ in_memory b.
Proof. unfold in_memory. rewrite length_app. lia. Qed.

Lemma fits_bytes s : in_memory (cn_bytes s) → in_memory s.
Proof. by intros [_ ?]%fits_app. Qed.

Lemma fits_optional o : in_memory (cn_optional o) → opt_fits o.
Proof. intros [_ Ho]%fits_app. destruct o; [by apply fits_bytes|done]. Qed.

Lemma fits_list {A} (enc : A → list Z) l :
  (∀ x, 0 < length (enc x)) → in_memory (cn_list enc l) → in_memory l ∧ Forall (λ x, in_memory (enc x)) l.
Proof.
  intros Henc [_ Hl]%fits_app. split.
  - assert (Hlen : length l ≤ length (l ≫= enc)).
    { induction l as [|x l IH]; [done|]. rewrite bind_cons, length_app in *. apply fits_app in Hl as [_ Hl].
      specialize (IH Hl). specialize (Henc x). cbn. lia. }
    unfold in_memory in *. lia.
  - induction l as [|x l IH]; constructor; rewrite bind_cons in Hl; apply fits_app in Hl as [? ?]; [done|by apply IH].
Qed.

Lemma length_integer z : length (cn_integer z) = 4.
Proof. apply length_le_bytes. Qed.
Lemma length_count n : length (cn_count n) = 8.
Proof. apply length_le_bytes. Qed.
Lemma string_nonempty s : 0 < length (cn_string s).
Proof. unfold cn_string, cn_bytes. rewrite length_app, length_count. lia. Qed.
Lemma range_nonempty x : 0 < length (range_bytes x).
Proof. unfold range_bytes. rewrite length_app, length_integer. lia. Qed.
Lemma value_nonempty x : 0 < length (value_bytes x).
Proof. unfold value_bytes. rewrite length_app, length_integer. lia. Qed.
Lemma field_nonempty x : 0 < length (field_bytes x).
Proof. unfold field_bytes. rewrite length_app, length_integer. lia. Qed.

Lemma fits_strings l : in_memory (cn_list cn_string l) → list_typed in_memory l.
Proof.
  intros [Hl Hall]%fits_list; [|apply string_nonempty]. split; [done|]. eapply Forall_impl; [exact Hall|]. intros s. apply fits_bytes.
Qed.

Lemma Forall_sorted {A K} `{OrdLaws K} (key : A → K) (P : A → Prop) l : Forall P l → Forall P (sort_by_key key l).
Proof. by rewrite sort_perm. Qed.

Lemma fits_ranges l k : l = sort_by_key id k → in_memory (cn_list range_bytes l) → Forall i32_pair k → list_typed i32_pair l.
Proof.
  intros -> [Hl _]%fits_list Hk; [|apply range_nonempty]. split; [done|]. by apply Forall_sorted.
Qed.

Lemma form_kind self name syntax m field form :
  form_of self name syntax m field form → (1 ≤ ff_kind form ≤ 18)%Z ∧ (1 ≤ ff_label form ≤ 3)%Z.
Proof.
  unfold form_of, field_form. destruct (fp_ensure _ _); [|done].
  destruct (field_type self name field) as [[[kind reference]|]|] eqn:Et; [|done..]. intros [= Hf]. revert Hf.
  assert (Hkind : (1 ≤ kind ≤ 18)%Z).
  { revert Et. unfold field_type. destruct (match fd_type_name field with Some _ => _ | None => _ end) as [[ref|]|]; [|done..].
    destruct (match ref with Some _ => _ | None => _ end) as [inferred|] eqn:Ei; [|done]. intros [= Hk]. revert Hk.
    assert (Hinf : ∀ i, inferred = Some i → (1 ≤ i ≤ 18)%Z).
    { intros i ->. destruct ref as [r|]; [|done]. destruct (bt_get r self) as [[file d]|]; [|done]. injection Ei as <-.
      by destruct d. }
    destruct (try_enum _ _ _) as [declared|] eqn:Ed; [|done]. cbn. destruct declared as [k|]; cbn.
    - destruct (if bool_decide _ then _ else _); [|done]. intros [= <- _]. unfold try_enum, type_try_from in Ed.
      destruct (fd_type field) as [v|]; [|done]. destruct (_ && _) eqn:E; [|done]. breflect_in E.
      assert (k = v) as -> by congruence. done.
    - destruct inferred as [i|]; [|done]. cbn. destruct (if bool_decide _ then _ else _); [|done].
      intros [= <- _]. by apply Hinf. }
  destruct (try_enum label_try_from _ _) as [label|] eqn:El; [|done]. cbn.
  destruct (match fd_oneof_index field with Some _ => _ | None => _ end) as [oneof|]; [|done]. cbn.
  destruct (if fd_proto3_optional field then _ else _); [|done].
  destruct (fp_ensure _ _); [|done]. destruct (fp_ensure _ _); [|done]. destruct (fp_ensure _ _); [|done]. intros [= <-].
  cbn. split; [done|]. unfold try_enum, label_try_from in El. destruct (fd_label field) as [v|]; [|by injection El as <-].
  destruct (_ && _) eqn:E; [|done]. breflect_in E. injection El as <-. done.
Qed.

Lemma form_typed self name f : index_typed self → has_form self name f → in_memory (node_bytes f) → node_typed f.
Proof.
  intros Hidx [(file&d&Hd&Hs&Hc) _] (Hn&(Hsy&Hb)%fits_app)%fits_app. split; [by apply fits_bytes|].
  split; [by apply fits_bytes|]. specialize (Hidx _ _ _ Hd).
  destruct (nf_content f) as [m|e], d as [b|b]; cbn in Hc, Hidx; try done; cbn [content_bytes content_typed] in *;
    apply fits_app in Hb as [_ Hb].
  - destruct Hidx as [Hnum Hran]. destruct Hc as [_ _ _ _ _ _ Hr Hres Ho Hf%forms_exact].
    apply fits_app in Hb as [_ Hb]. apply fits_app in Hb as [_ Hb].
    apply fits_app in Hb as [H1 Hb]. apply fits_app in Hb as [H2 Hb]. apply fits_app in Hb as [H3 H4].
    split; [by eapply fits_ranges|]. split; [by apply fits_strings|]. split; [by apply fits_strings|].
    apply fits_list in H4 as [H4 H5]; [|apply field_nonempty]. split; [done|]. rewrite Forall_forall.
    intros ff Hff. pose proof (proj1 (Forall_forall _ _) H5 ff Hff) as Hbytes. clear H5. rename Hbytes into H5. change (in_memory (field_bytes ff)) in H5. destruct (Forall2_member_r _ _ _ _ Hf Hff) as (field&Hin&Hform).
    rewrite sort_perm in Hin. destruct (form_kind _ _ _ _ _ _ Hform). destruct (form_names _ _ _ _ _ _ Hform) as [En _].
    unfold field_bytes in H5. repeat (let E := fresh "F" in apply fits_app in H5 as [E H5]).
    split; first [done|by apply fits_bytes|by apply fits_optional|unfold is_i32 in *; lia|idtac].
    rewrite En. exact (proj1 (Forall_forall _ _) Hnum field Hin).
  - destruct Hidx as [Hnum Hran]. destruct Hc as [Hdef _ _ Hr Hres Hv].
    apply fits_app in Hb as [_ Hb]. apply fits_app in Hb as [_ Hb].
    apply fits_app in Hb as [H1 Hb]. apply fits_app in Hb as [H2 H3].
    split; [|split; [by eapply fits_ranges|split; [by apply fits_strings|]]].
    + destruct (ed_value b) as [|v vs]; [done|]. injection Hdef as ->. by apply List.Forall_cons_iff in Hnum as [? _].
    + apply fits_list in H3 as [H3 H4]; [|apply value_nonempty]. split; [done|]. rewrite Forall_forall.
      intros x Hx. pose proof (proj1 (Forall_forall _ _) H4 x Hx) as Hbytes. apply fits_app in Hbytes as [_ Hbytes]. split; [|by apply fits_bytes].
      rewrite Hv, sort_perm in Hx. apply list_elem_of_fmap in Hx as (v&->&Hin).
      exact (proj1 (Forall_forall _ _) Hnum v Hin).
Qed.

Lemma pf_node_bytes :
  prefix_free (λ f, node_typed f ∧ in_memory (node_bytes f)) (λ f, cn_bytes (node_bytes f)).
Proof.
  intros x y r s [Hx Hfx] [Hy Hfy] Heq. apply pf_bytes in Heq as [Heq ->]; [|done..]. split; [|done].
  apply (pf_node x y [] []); [done|done|]. by rewrite Heq.
Qed.

Lemma schema_typed self root forms :
  index_typed self → schema_of self root forms → in_memory (schema_bytes root forms) →
  in_memory root ∧ list_typed (λ f, node_typed f ∧ in_memory (node_bytes f)) forms.
Proof.
  intros Hidx [_ Hforms _] Hfit. unfold schema_bytes in Hfit. apply fits_app in Hfit as [_ Hfit].
  apply fits_app in Hfit as [_ Hfit]. apply fits_app in Hfit as [Hroot Hlist]. split; [by apply fits_bytes|].
  apply fits_list in Hlist as [Hl Hall]; [|intros f; apply string_nonempty]. split; [done|]. rewrite Forall_forall in *.
  intros f Hf. specialize (Hall f Hf). cbn in Hall. apply fits_bytes in Hall. split; [|done].
  destruct (Hforms f Hf) as [_ Hform]. by eapply form_typed.
Qed.

(** ** Definitions that differ in order only *)

Record body_permuted (m m' : MessageBody) : Prop := {
  bp_field : mb_field m ≡ₚ mb_field m';
  bp_oneof : mb_oneof_decl m = mb_oneof_decl m';
  bp_map_entry : mb_map_entry m = mb_map_entry m';
  bp_message_set : mb_message_set m = mb_message_set m';
  bp_range : mb_reserved_range m ≡ₚ mb_reserved_range m';
  bp_name : mb_reserved_name m ≡ₚ mb_reserved_name m';
  bp_extended : mb_extended m = mb_extended m';
}.

(** The first value of an enumeration is its default, and stays. *)
Record enum_permuted (e e' : EnumDescriptor) : Prop := {
  ep_value : ed_value e ≡ₚ ed_value e';
  ep_default : ev_number <$> head (ed_value e) = ev_number <$> head (ed_value e');
  ep_allow_alias : ed_allow_alias e = ed_allow_alias e';
  ep_range : ed_reserved_range e ≡ₚ ed_reserved_range e';
  ep_name : ed_reserved_name e ≡ₚ ed_reserved_name e';
}.

Definition definition_permuted (d d' : Definition_) : Prop :=
  match d, d' with
  | DMessage m, DMessage m' => body_permuted (d_body m) (d_body m')
  | DEnum e, DEnum e' => enum_permuted e e'
  | _, _ => False
  end.

(** The same names, defined alike up to order, in files of the same syntax. *)
Definition index_permuted : Index → Index → Prop :=
  Forall2 (λ e e', e.1 = e'.1 ∧ (∀ name, canonical_syntax (fl_syntax e.2.1) name = canonical_syntax (fl_syntax e'.2.1) name) ∧
    definition_permuted e.2.2 e'.2.2).

Definition same_entry (o o' : option (FileDescriptor * Definition_)) : Prop :=
  match o, o' with
  | Some (file, d), Some (file', d') =>
      (∀ name, canonical_syntax (fl_syntax file) name = canonical_syntax (fl_syntax file') name) ∧ definition_permuted d d'
  | None, None => True
  | _, _ => False
  end.

Lemma permuted_get self self' name :
  index_permuted self self' → same_entry (bt_get name self) (bt_get name self').
Proof.
  induction 1 as [|[k [file d]] [k' [file' d']] l l' (Hk&Hs&Hd) _ IH]; [done|]. cbn in *. subst k'.
  by destruct (cmp name k).
Qed.

Section permuted.
Context (self self' : Index) (Hperm : ∀ name, same_entry (bt_get name self) (bt_get name self')).

Lemma permuted_contains name : bt_contains name self = bt_contains name self'.
Proof.
  specialize (Hperm name). unfold bt_contains. by destruct (bt_get name self) as [[? ?]|], (bt_get name self') as [[? ?]|].
Qed.

Lemma permuted_resolve_from fuel scope reference :
  resolve_from fuel self scope reference = resolve_from fuel self' scope reference.
Proof.
  revert scope. induction fuel as [|fuel IH]; intros scope; [done|]. cbn. rewrite permuted_contains.
  destruct (bt_contains _ self'); [done|]. by destruct scope.
Qed.

Lemma permuted_resolve scope reference : fp_resolve self scope reference = fp_resolve self' scope reference.
Proof.
  unfold fp_resolve. destruct reference as [|b reference]; [done|]. rewrite permuted_resolve_from, permuted_contains.
  done.
Qed.

Lemma permuted_type name field : field_type self name field = field_type self' name field.
Proof.
  unfold field_type. destruct (fd_type_name field) as [reference|]; [|done]. rewrite permuted_resolve.
  destruct (fp_resolve self' name reference) as [[target|]|]; [|done..]. cbn.
  pose proof (Hperm target) as Ht.
  destruct (bt_get target self) as [[file d]|], (bt_get target self') as [[file' d']|]; try done. cbn.
  destruct Ht as [_ Hd]. by destruct d, d'.
Qed.

Lemma permuted_form name syntax m m' field :
  body_permuted m m' → field_form self name syntax m field = field_form self' name syntax m' field.
Proof.
  intros []. unfold field_form, find_oneof. rewrite permuted_type, bp_oneof0.
  assert (Hc : length (filter (λ other, fd_oneof_index other = fd_oneof_index field) (mb_field m)) =
               length (filter (λ other, fd_oneof_index other = fd_oneof_index field) (mb_field m'))) by by rewrite bp_field0.
  by rewrite Hc.
Qed.

Lemma permuted_content name syntax d d' c :
  definition_permuted d d' → has_content self name syntax d c → has_content self' name syntax d' c.
Proof.
  destruct d as [m|e], d' as [m'|e'], c as [f|f]; try done; cbn.
  - intros Hp [? Ho Hnum Hn ? ? Hr Hres Hon Hf]. pose proof Hp as []. split; try congruence.
    + by rewrite <- bp_field0.
    + by rewrite <- bp_field0.
    + rewrite Hr. by apply sort_id_unique.
    + rewrite Hres. by apply sort_id_unique.
    + rewrite <- (sort_unique fd_number (mb_field (d_body m))); [|by destruct Hnum|done].
      apply forms_exact in Hf. apply forms_exact. eapply Forall2_impl; [exact Hf|]. intros x y Hxy. unfold form_of in *.
      by rewrite <- (permuted_form _ _ _ _ _ Hp).
  - intros [] [Hd Hn ? Hr Hres Hv]. split; try congruence.
    + by rewrite <- ep_value0.
    + rewrite Hr. by apply sort_id_unique.
    + rewrite Hres. by apply sort_id_unique.
    + rewrite Hv. apply sort_id_unique. by rewrite ep_value0.
Qed.

Lemma permuted_has_form name f : has_form self name f → has_form self' name f.
Proof.
  intros [(file&d&Hd&Hs&Hc) Hn]. split; [|done]. pose proof (Hperm name) as He. rewrite Hd in He.
  destruct (bt_get name self') as [[file' d']|]; [|done]. destruct He as [Hsyn Hp]. exists file', d'. split; [done|].
  split; [|by eapply permuted_content]. apply (canonical_syntax_exact _ name). rewrite <- Hsyn.
  by apply canonical_syntax_exact.
Qed.
End permuted.

Lemma same_entry_sym o o' : same_entry o o' → same_entry o' o.
Proof.
  destruct o as [[file d]|], o' as [[file' d']|]; try done. intros [Hs Hd]. split; [done|].
  destruct d, d'; try done; destruct Hd; by split.
Qed.

Lemma permuted_schema self self' root forms :
  (∀ name, same_entry (bt_get name self) (bt_get name self')) → schema_of self root forms → schema_of self' root forms.
Proof.
  intros Hp [Hs Hf Ha].
  assert (Hback : ∀ name f, has_form self' name f → has_form self name f).
  { intros name f. apply permuted_has_form. intros n. by apply same_entry_sym. }
  assert (Hr : ∀ name, reaches self' root name ↔ reaches self root name).
  { intros name. split.
    - induction 1 as [|n f r _ IH Hform Hin]; [constructor|]. eapply reaches_step; [exact IH|by apply Hback|done].
    - induction 1 as [|n f r _ IH Hform Hin]; [constructor|].
      eapply reaches_step; [exact IH|by eapply permuted_has_form|done]. }
  split; [done|..].
  - intros f Hin. destruct (Hf f Hin) as [Hreach Hform]. split; [by apply Hr|by eapply permuted_has_form].
  - intros name Hn%Hr. by apply Ha.
Qed.

(** A schema is unique. *)
Lemma schema_functional self root f g : schema_of self root f → schema_of self root g → f = g.
Proof.
  assert (Hsub : ∀ f g, schema_of self root f → schema_of self root g → ∀ x, x ∈ f → x ∈ g).
  { intros f' g' [_ Hf _] [_ Hg Ha] x Hx. destruct (Hf x Hx) as [Hr Hform]. specialize (Ha _ Hr).
    apply list_elem_of_fmap in Ha as (y&Hn&Hy). destruct (Hg y Hy) as [_ Hform'].
    rewrite <- Hn in Hform'. by rewrite (has_form_functional _ _ _ _ Hform Hform'). }
  intros Hf Hg. pose proof (so_sorted _ _ _ Hf) as Hsf. pose proof (so_sorted _ _ _ Hg) as Hsg.
  assert (Hnd : ∀ l, StronglySorted (lt_on nf_name) l → NoDup l).
  { induction 1 as [|x l Hl IH Hx]; constructor; [|done]. intros Hin. rewrite Forall_forall in Hx. specialize (Hx x Hin).
    unfold lt_on in Hx. by rewrite cmp_refl in Hx. }
  apply (strict_unique nf_name); [done|done|]. apply NoDup_Permutation; [by apply Hnd|by apply Hnd|]. split; by apply Hsub.
Qed.

(** ** Fingerprints *)

Lemma index_message_exact index message :
  bt_ok index →
  ∃ r, index_message (record_fuel index) index message = Some r ∧
  match r with
  | Ok None => ∀ file m, bt_get message index ≠ Some (file, DMessage m)
  | Ok (Some h) => (∃ file m, bt_get message index = Some (file, DMessage m)) ∧
      ∃ forms, schema_of index message forms ∧ h = fnv64 (schema_bytes message forms)
  | Err _ => (∃ file m, bt_get message index = Some (file, DMessage m)) ∧ ∀ forms, ¬ schema_of index message forms
  end.
Proof.
  intros Hok. unfold index_message.
  destruct (bt_get message index) as [[file [m|en]]|] eqn:Eg; [|eexists; split; [done|]; intros ? ? [=]..].
  assert (Hdef : is_Some (bt_get message index)) by (rewrite Eg; by eexists).
  destruct (record_loop_spec index message Hok Hdef (record_fuel index) [message] []) as (r&->&Hr).
  - assert (Hw : weight [] index = foldr (λ e n, references_of e.2.2 + n) 0 index) by (unfold weight; done).
    rewrite Hw. unfold record_fuel. cbn. lia.
  - split; [done|by left; left| |done]. intros n Hn. apply list_elem_of_singleton in Hn as ->. constructor.
  - destruct r as [records|e].
    + destruct (records_schema index message records Hr) as (forms&Hforms&Hl&Hb). eexists. split; [done|].
      split; [by exists file, m|]. exists forms. split; [done|]. unfold canonical_bytes, schema_bytes, cn_list.
      by rewrite Hl, Hb.
    + eexists. split; [done|]. split; [by exists file, m|]. intros forms [_ Hf Ha].
      destruct Hr as (name&Hreach&Hno). apply Hno. apply Ha, list_elem_of_fmap in Hreach as (f&->&Hin).
      exists f. by apply Hf.
Qed.

(** Equal bytes are the bytes of one schema. *)
Lemma schema_bytes_separate self self' root root' forms forms' :
  index_typed self → index_typed self' → schema_of self root forms → schema_of self' root' forms' →
  in_memory (schema_bytes root forms) → in_memory (schema_bytes root' forms') →
  schema_bytes root forms = schema_bytes root' forms' → root = root' ∧ forms = forms'.
Proof.
  intros Hi Hi' Hs Hs' Hf Hf' Heq. destruct (schema_typed _ _ _ Hi Hs Hf) as [Hr Hl].
  destruct (schema_typed _ _ _ Hi' Hs' Hf') as [Hr' Hl']. unfold schema_bytes in Heq.
  apply app_inv_head in Heq. apply app_inv_head in Heq. apply pf_string in Heq as [-> Heq]; [|done..].
  split; [done|]. apply (pf_list _ _ pf_node_bytes forms forms' [] []); [done|done|]. by rewrite Heq.
Qed.

Lemma schema_items_bytes root forms : spelled (schema_items root forms) = schema_bytes root forms.
Proof.
  unfold schema_items, schema_bytes. rewrite spelled_app, (spelled_list _ (λ f, cn_bytes (node_bytes f))).
  - unfold spelled. cbn [mbind list_bind item_bytes]. by rewrite app_nil_r, <- !app_assoc.
  - intros f. rewrite text_item_bytes. by rewrite node_items_bytes.
Qed.

Lemma index_of_functional set_ index index' : index_of set_ index → index_of set_ index' → index = index'.
Proof. by intros [_ _ ->] [_ _ ->]. Qed.

(** The bytes of a computed schema. *)
Lemma computed_schema self root records :
  bt_ok self → record_loop (record_fuel self) self [root] [] = Some (Ok records) →
  ∃ forms, schema_of self root forms ∧ schema_bytes root forms = canonical_bytes root records.
Proof.
  intros Hok Hrun.
  assert (Hdef : is_Some (bt_get root self)).
  { unfold record_fuel in Hrun. cbn [plus record_loop] in Hrun. change (bt_contains root []) with false in Hrun.
    cbv iota in Hrun. by destruct (bt_get root self). }
  destruct (record_loop_spec self root Hok Hdef (record_fuel self) [root] []) as (r&Hr&Hinv).
  - unfold record_fuel, weight. cbn. lia.
  - split; [done|by left; left| |done]. intros n Hn. apply list_elem_of_singleton in Hn as ->. constructor.
  - rewrite Hrun in Hr. injection Hr as <-. destruct (records_schema self root records Hinv) as (forms&Hforms&Hl&Hb).
    exists forms. split; [done|]. unfold schema_bytes, canonical_bytes, cn_list. by rewrite Hl, Hb.
Qed.

(** C37: the fingerprint of a message, in any set of files: the computation
    returns.  It gives a fingerprint exactly when every definition of the set has
    a name and no two have the same, the set defines a message of this name, and
    everything the message refers to, directly or not, is legal: the syntax, the
    names, the numbers, and of each field its type, label, reference, oneof and
    options ([has_field_form]).  The fingerprint is then the 64-bit FNV-1a hash
    of the items that describe the root and, in the order of names, the
    normal form of each definition reached.  It finds none exactly when the
    set, well named, has no message of this name, and fails otherwise. *)
Theorem fingerprint_exact set_ message :
  ∃ r, message_fingerprint set_ message = Some r ∧
  match r with
  | Ok (Some h) => ∃ index forms, index_of set_ index ∧ message_at index message ∧ schema_of index message forms ∧
      fnv1a (spelled (schema_items message forms)) h
  | Ok None => ∃ index, index_of set_ index ∧ ¬ message_at index message
  | Err _ => ∀ index, index_of set_ index → message_at index message ∧ ∀ forms, ¬ schema_of index message forms
  end.
Proof.
  unfold message_fingerprint. pose proof (index_new_exact set_) as Hnew. destruct (index_new set_) as [index|e].
  2:{ eexists. split; [done|]. intros index Hidx. by destruct (Hnew index). }
  destruct Hnew as [Hok Hidx]. destruct (index_message_exact index message Hok) as (r&->&Hr). exists r. split; [done|].
  destruct r as [[h|]|e].
  - destruct Hr as [Hm (forms&Hforms&->)]. exists index, forms. rewrite schema_items_bytes. by rewrite <- fnv64_exact.
  - exists index. split; [done|]. intros (file&m&Hm). by apply (Hr file m).
  - intros index' Hidx'. by rewrite <- (index_of_functional _ _ _ Hidx Hidx').
Qed.

(** C38: what [Index::message] hashes tells schemas apart.  Take the records of
    two messages, of any two sets of files whose numbers are 32-bit: their
    canonical bytes, when they fit in memory, are equal exactly when the messages
    have the same name and everything they refer to, directly or not, has the
    same normal form.  So a change of a field's number, name, type, label,
    reference, oneof, presence, packing, default or JSON name, of an
    enumeration's values, or of a reservation, changes the bytes, and a change
    of order does not. *)
Theorem fingerprint_separates set_ set' self self' root root' records records' :
  index_new set_ = Ok self → index_new set' = Ok self' → index_typed self → index_typed self' →
  record_loop (record_fuel self) self [root] [] = Some (Ok records) →
  record_loop (record_fuel self') self' [root'] [] = Some (Ok records') →
  in_memory (canonical_bytes root records) → in_memory (canonical_bytes root' records') →
  canonical_bytes root records = canonical_bytes root' records' ↔
  root = root' ∧ ∃ forms, schema_of self root forms ∧ schema_of self' root' forms.
Proof.
  intros Hnew Hnew' Hi Hi' Hrun Hrun' Hf Hf'.
  pose proof (index_new_exact set_) as Hok. rewrite Hnew in Hok. destruct Hok as [Hok _].
  pose proof (index_new_exact set') as Hok'. rewrite Hnew' in Hok'. destruct Hok' as [Hok' _].
  destruct (computed_schema self root records Hok Hrun) as (forms&Hs&Hb).
  destruct (computed_schema self' root' records' Hok' Hrun') as (forms'&Hs'&Hb').
  rewrite <- Hb, <- Hb' in *. split.
  - intros Heq. destruct (schema_bytes_separate self self' root root' forms forms') as [-> ->]; try done.
    split; [done|]. by exists forms'.
  - intros [-> (k&Hk&Hk')]. by rewrite (schema_functional _ _ _ _ Hs Hk), (schema_functional _ _ _ _ Hs' Hk').
Qed.

(** The order of declarations does not count: sets of files that define the
    same names, up to the order of fields, of enumeration values after the
    default, and of reservations, have the same fingerprints. *)
Theorem fingerprint_order_free set_ set' index index' message h :
  index_new set_ = Ok index → index_new set' = Ok index' → index_permuted index index' →
  message_fingerprint set_ message = Some (Ok (Some h)) → message_fingerprint set' message = Some (Ok (Some h)).
Proof.
  intros Hnew Hnew' Hperm Hfp. pose proof (permuted_get _ _ message Hperm) as Hm.
  assert (Hs : ∀ forms, schema_of index message forms ↔ schema_of index' message forms).
  { intros forms. split; apply permuted_schema; intros name; [|apply same_entry_sym]; by apply permuted_get. }
  revert Hfp. unfold message_fingerprint. rewrite Hnew, Hnew'. intros Hfp.
  pose proof (index_new_exact set_) as Hok. rewrite Hnew in Hok. destruct Hok as [Hok _].
  pose proof (index_new_exact set') as Hok'. rewrite Hnew' in Hok'. destruct Hok' as [Hok' _].
  destruct (index_message_exact index message Hok) as (r&Hr&Hcase). rewrite Hfp in Hr. injection Hr as <-.
  destruct Hcase as ((file&m&Hmsg)&forms&Hforms&->). rewrite Hmsg in Hm. cbn in Hm.
  destruct (index_message_exact index' message Hok') as (r'&->&Hcase').
  pose proof (proj1 (Hs forms) Hforms) as Hforms'. destruct r' as [[h'|]|e].
  - destruct Hcase' as (_&forms'&Hforms2&->). by rewrite (schema_functional _ _ _ _ Hforms' Hforms2).
  - exfalso. destruct (bt_get message index') as [[file' [m'|e']]|]; try done; [by apply (Hcase' file' m')|by destruct Hm].
  - by destruct (proj2 Hcase' forms).
Qed.

(** ** A small schema *)

Definition example_field (name : str) (number kind : Z) (reference : option str) : FieldDescriptor :=
  mkFieldDescriptor name number (Some LABEL_OPTIONAL) (Some kind) reference None None None None None false.

Definition example_message (name : str) (fields : list FieldDescriptor) : Descriptor :=
  mkDescriptor name (mkMessageBody fields [] false false [] [] false) [] [].

Definition example_kind : EnumDescriptor :=
  mkEnumDescriptor (bytes_of "Kind") [mkEnumValue (bytes_of "ZERO") 0; mkEnumValue (bytes_of "ONE") 1] false [] [].

(** [Root] refers to itself and to [Child], [Child] to [Kind]. *)
Definition root_fields : list FieldDescriptor :=
  [example_field (bytes_of "child") 1 TYPE_MESSAGE (Some (bytes_of ".qa.Child"));
   example_field (bytes_of "self") 2 TYPE_MESSAGE (Some (bytes_of "Root"))].
Definition child_fields : list FieldDescriptor :=
  [example_field (bytes_of "some_value") 1 5 None;
   example_field (bytes_of "kind") 2 TYPE_ENUM (Some (bytes_of "Kind"))].

Definition example_file (root child : list FieldDescriptor) : FileDescriptor :=
  mkFileDescriptor (bytes_of "a.proto") (bytes_of "qa") [] (bytes_of "proto3")
    [example_message (bytes_of "Root") root; example_message (bytes_of "Child") child] [example_kind].

Definition qa_Root : str := bytes_of "qa.Root".

Definition example_index (root child : list FieldDescriptor) : Index :=
  (λ '(name, d), (name, (example_file root child, d))) <$>
  [(bytes_of "qa.Child", DMessage (example_message (bytes_of "Child") child)); (bytes_of "qa.Kind", DEnum example_kind);
   (qa_Root, DMessage (example_message (bytes_of "Root") root))].

Lemma example_index_new root child : index_new [example_file root child] = Ok (example_index root child).
Proof. by vm_compute. Qed.

Lemma example_permuted root child : index_permuted (example_index root child) (example_index (rev root) (rev child)).
Proof.
  unfold example_index. repeat apply List.Forall2_cons; [..|constructor]; (split; [done|]); (split; [done|]);
    split; cbn [snd d_body example_message mb_field]; done || apply Permutation_rev.
Qed.

Lemma fingerprint_order_free_witness :
  message_fingerprint [example_file (rev root_fields) (rev child_fields)] qa_Root =
  message_fingerprint [example_file root_fields child_fields] qa_Root.
Proof.
  destruct (message_fingerprint [example_file root_fields child_fields] qa_Root) as [[[h|]|]|] eqn:E;
    try (exfalso; revert E; vm_compute; discriminate).
  exact (fingerprint_order_free _ _ _ _ _ _ (example_index_new _ _) (example_index_new _ _) (example_permuted _ _) E).
Defined.

Definition example_records (root child : list FieldDescriptor) : btree str (list Z) :=
  match record_loop (record_fuel (example_index root child)) (example_index root child) [qa_Root] [] with
  | Some (Ok records) => records
  | _ => []
  end.

Ltac i32s := repeat first [apply List.Forall_nil | apply List.Forall_cons; [split; by vm_compute|]].

Lemma example_typed root child :
  Forall (λ f, is_i32 (fd_number f)) root → Forall (λ f, is_i32 (fd_number f)) child →
  index_typed (example_index root child).
Proof.
  intros Hr Hc name file d Hin%bt_get_elem. unfold example_index in Hin. cbn [fmap list_fmap] in Hin.
  rewrite !elem_of_cons in Hin. destruct Hin as [[= _ _ ->]|[[= _ _ ->]|[[= _ _ ->]|Hn%elem_of_nil]]]; [..|done];
    (split; [|constructor]); [exact Hc|i32s|exact Hr].
Qed.

(** [Child] with a default for [some_value]. *)
Definition defaulted_fields : list FieldDescriptor :=
  [mkFieldDescriptor (bytes_of "some_value") 1 (Some LABEL_OPTIONAL) (Some 5%Z) None None (Some (bytes_of "7")) None None None false;
   example_field (bytes_of "kind") 2 TYPE_ENUM (Some (bytes_of "Kind"))].

(** The order of the fields does not count, and a default two definitions away does. *)
Lemma fingerprint_separates_witness :
  (∃ forms, schema_of (example_index root_fields child_fields) qa_Root forms ∧
    schema_of (example_index (rev root_fields) (rev child_fields)) qa_Root forms) ∧
  ¬ ∃ forms, schema_of (example_index root_fields child_fields) qa_Root forms ∧
    schema_of (example_index root_fields defaulted_fields) qa_Root forms.
Proof.
  split.
  - apply (fingerprint_separates [example_file root_fields child_fields] [example_file (rev root_fields) (rev child_fields)]
      (example_index root_fields child_fields) (example_index (rev root_fields) (rev child_fields)) qa_Root qa_Root
      (example_records root_fields child_fields) (example_records (rev root_fields) (rev child_fields)));
      [apply example_index_new|apply example_index_new|apply example_typed; i32s|apply example_typed; i32s|by vm_compute..].
  - intros Hforms.
    assert (Heq : canonical_bytes qa_Root (example_records root_fields child_fields) =
                  canonical_bytes qa_Root (example_records root_fields defaulted_fields)); [|by vm_compute in Heq].
    apply (fingerprint_separates [example_file root_fields child_fields] [example_file root_fields defaulted_fields]
      (example_index root_fields child_fields) (example_index root_fields defaulted_fields) qa_Root qa_Root);
      [apply example_index_new|apply example_index_new|apply example_typed; i32s|apply example_typed; i32s|by vm_compute..|].
    by split.
Defined.
