(* ===== verification/DescriptorSet.v ===== *)
(** * DescriptorSet: pruning a descriptor set to what a message needs
    ([crates/reiny-build/src/lib.rs], from [descriptor_subset] on)

    A bag records, with every message type, the files that define it and their
    transitive imports.  The loop over the imports carries fuel, one unit per
    import; [None] means that it ran out.  The encoding of a set is prost's. *)

From Stdlib Require Import ZArith Lia Permutation Sorted.
From S2P Require Import Prelude Text Btree Core Bindings BindingsSpec Fingerprint FieldSpec FingerprintSpec FingerprintProps.

(** [find_map] *)
Fixpoint first_found {A B} (f : A → option B) (l : list A) : option B :=
  match l with
  | [] => None
  | x :: l => match f x with Some y => Some y | None => first_found f l end
  end.

Definition named (name : str) (d : Descriptor) : bool := bool_decide (d_name d = name).
Definition d_nested (d : Descriptor) : list Descriptor := let '(mkDescriptor _ _ nested _) := d in nested.

(** The loop over the remaining segments *)
Fixpoint descend (segs : list str) (cur : Descriptor) : option Descriptor :=
  match segs with
  | [] => Some cur
  | seg :: segs => match find (named seg) (d_nested cur) with Some cur => descend segs cur | None => None end
  end.

(** The closure of [find_message] on one file *)
Definition find_in_file (message : str) (file : FileDescriptor) : option (FileDescriptor * Descriptor) :=
  match (match fl_package file with
         | [] => Some message
         | package =>
             match strip_prefix package message with Some rest => strip_prefix (bytes_of ".") rest | None => None end
         end) with
  | None => None
  | Some rest =>
      match split_on 46 rest with
      | [] => None
      | first :: segs =>
          match find (named first) (fl_message_type file) with
          | None => None
          | Some cur => match descend segs cur with Some cur => Some (file, cur) | None => None end
          end
      end
  end.

(** [find_message] *)
Definition find_message (fds : list FileDescriptor) (message : str) : option (FileDescriptor * Descriptor) :=
  first_found (find_in_file message) fds.

(** Adding the imports of a file *)
Definition want (wanted : list str) (dep : str) : list str :=
  if bool_decide (dep ∈ wanted) then wanted else wanted ++ [dep].

Definition file_named (name : str) (file : FileDescriptor) : bool := bool_decide (fl_name file = name).

(** The loop of [descriptor_subset] *)
Fixpoint wanted_loop (fuel : nat) (fds : list FileDescriptor) (cursor : nat) (wanted : list str) : option (list str) :=
  match fuel with
  | 0 => None
  | S fuel =>
      match wanted !! cursor with
      | None => Some wanted
      | Some name =>
          wanted_loop fuel fds (S cursor)
            (match find (file_named name) fds with
             | Some file => foldl want wanted (fl_dependency file)
             | None => wanted
             end)
      end
  end.

Definition import_fuel (fds : list FileDescriptor) : nat :=
  2 + length (fds ≫= fl_dependency).

(** [descriptor_subset], on decoded sets *)
Definition descriptor_subset (fds : list FileDescriptor) (message : str) : option (option (list FileDescriptor)) :=
  match find_message fds message with
  | None => Some None
  | Some (root, _) =>
      match wanted_loop (import_fuel fds) fds 0 [fl_name root] with
      | None => None
      | Some wanted => Some (Some (filter (λ f, fl_name f ∈ wanted) fds))
      end
  end.

(** ** What is wanted *)

Inductive imports (fds : list FileDescriptor) (root : str) : str → Prop :=
  | imports_root : imports fds root root
  | imports_step name file dep :
      imports fds root name → find (file_named name) fds = Some file → dep ∈ fl_dependency file → imports fds root dep.

Lemma imports_trans fds a b c : imports fds a b → imports fds b c → imports fds a c.
Proof. intros Hab. induction 1 as [|name file dep _ IH Hf Hd]; [done|]. by eapply imports_step. Qed.

Lemma foldl_want wanted deps :
  NoDup wanted → NoDup (foldl want wanted deps) ∧ (∀ x, x ∈ foldl want wanted deps ↔ x ∈ wanted ∨ x ∈ deps) ∧
  wanted `prefix_of` foldl want wanted deps.
Proof.
  revert wanted. induction deps as [|d deps IH]; intros wanted Hnd; [set_solver|]. cbn [foldl].
  assert (Hw : NoDup (want wanted d) ∧ (∀ x, x ∈ want wanted d ↔ x ∈ wanted ∨ x = d) ∧ wanted `prefix_of` want wanted d).
  { unfold want. case_bool_decide as Hd; [set_solver|]. split; [|split; [set_solver|by eexists]].
    apply NoDup_app. split; [done|]. split; [set_solver|]. apply NoDup_singleton. }
  destruct Hw as (H1&H2&H3). destruct (IH _ H1) as (I1&I2&I3). split; [done|]. split; [set_solver|by etransitivity].
Qed.

Section wanted.
Context (fds : list FileDescriptor) (root : str).

Record wanted_inv (cursor : nat) (wanted : list str) : Prop := {
  wi_cursor : cursor ≤ length wanted;
  wi_NoDup : NoDup wanted;
  wi_root : root ∈ wanted;
  wi_imports name : name ∈ wanted → imports fds root name;
  wi_names name : name ∈ wanted → name ∈ root :: (fds ≫= fl_dependency);
  wi_done i name file dep : i < cursor → wanted !! i = Some name → find (file_named name) fds = Some file →
    dep ∈ fl_dependency file → dep ∈ wanted;
}.

Lemma wanted_length cursor wanted : wanted_inv cursor wanted → length wanted ≤ S (length (fds ≫= fl_dependency)).
Proof.
  intros [_ Hnd _ _ Hn _]. apply (List.NoDup_incl_length (l' := root :: (fds ≫= fl_dependency))).
  - by apply NoDup_ListNoDup.
  - intros x Hx. apply list_elem_of_In, Hn. by apply list_elem_of_In.
Qed.

Lemma wanted_step cursor wanted name :
  wanted_inv cursor wanted → wanted !! cursor = Some name →
  wanted_inv (S cursor) (match find (file_named name) fds with
                         | Some file => foldl want wanted (fl_dependency file) | None => wanted end).
Proof.
  intros [Hc Hnd Hroot Himp Hnames Hdone] Hname. pose proof (lookup_lt_Some _ _ _ Hname) as Hlt.
  destruct (find (file_named name) fds) as [file|] eqn:Ef.
  - destruct (foldl_want wanted (fl_dependency file) Hnd) as (Hnd'&Hin&Hpre). split.
    + apply prefix_length in Hpre. lia.
    + done.
    + apply Hin. by left.
    + intros n [Hn|Hn]%Hin; [by apply Himp|]. eapply imports_step; [|exact Ef|done].
      apply Himp. by eapply list_elem_of_lookup_2.
    + intros n [Hn|Hn]%Hin; [by apply Hnames|]. right. apply list_elem_of_bind. exists file. split; [done|].
      by apply find_Some in Ef as [? _].
    + intros i n f dep Hi Hn Hfind Hdep. apply Hin. destruct (decide (i = cursor)) as [->|Hne].
      * rewrite (prefix_lookup_Some _ _ _ _ Hname Hpre) in Hn. right. congruence.
      * assert (Hi' : i < length wanted) by lia. apply lookup_lt_is_Some_2 in Hi' as [n' Hn'].
        rewrite (prefix_lookup_Some _ _ _ _ Hn' Hpre) in Hn. left. eapply (Hdone i n f); [lia|congruence|done|done].
  - split; try done. intros i n f dep Hi Hn Hfind Hdep. destruct (decide (i = cursor)) as [->|Hne]; [congruence|].
    eapply (Hdone i n f); [lia|done..].
Qed.

Lemma wanted_loop_exact fuel cursor wanted :
  wanted_inv cursor wanted → S (S (length (fds ≫= fl_dependency))) ≤ fuel + cursor →
  ∃ w, wanted_loop fuel fds cursor wanted = Some w ∧ ∀ name, name ∈ w ↔ imports fds root name.
Proof.
  revert cursor wanted. induction fuel as [|fuel IH]; intros cursor wanted Hinv Hfuel;
    pose proof (wanted_length _ _ Hinv) as Hl; [destruct Hinv; lia|].
  cbn [wanted_loop]. destruct (wanted !! cursor) as [name|] eqn:En.
  - apply IH; [by apply wanted_step|lia].
  - exists wanted. split; [done|]. apply lookup_ge_None_1 in En. destruct Hinv as [Hc _ Hroot Himp _ Hdone].
    intros n. split; [apply Himp|]. induction 1 as [|m file dep _ Hm Hf Hd]; [done|].
    apply list_elem_of_lookup in Hm as [i Hi]. pose proof (lookup_lt_Some _ _ _ Hi).
    eapply (Hdone i m file); [lia|done..].
Qed.
End wanted.

Lemma wanted_exact fds root :
  ∃ w, wanted_loop (import_fuel fds) fds 0 [root] = Some w ∧ ∀ name, name ∈ w ↔ imports fds root name.
Proof.
  apply wanted_loop_exact; [|unfold import_fuel; lia]. split; cbn; try lia; [apply NoDup_singleton|by left|..].
  - intros n ->%list_elem_of_singleton. constructor.
  - intros n ->%list_elem_of_singleton. by left.
Qed.

(** Pruning: it returns for every set, fails to find a message exactly when
    [find_message] does, and otherwise keeps, in order, exactly the files whose
    names the root's file imports, directly or not, cycles included. *)
Theorem descriptor_subset_exact fds message :
  ∃ r, descriptor_subset fds message = Some r ∧
  match find_message fds message with
  | None => r = None
  | Some (root, _) => ∃ files, r = Some files ∧ files `sublist_of` fds ∧
      ∀ f, f ∈ files ↔ f ∈ fds ∧ imports fds (fl_name root) (fl_name f)
  end.
Proof.
  unfold descriptor_subset. destruct (find_message fds message) as [[root m]|]; [|by eexists].
  destruct (wanted_exact fds (fl_name root)) as (w&->&Hw). eexists. split; [done|]. eexists. split; [done|].
  split; [apply sublist_filter|]. intros f. rewrite list_elem_of_filter, Hw. tauto.
Qed.

(** ** Found messages are defined *)

Lemma first_found_Some {A B} (f : A → option B) l y : first_found f l = Some y → ∃ x, x ∈ l ∧ f x = Some y.
Proof.
  induction l as [|x l IH]; [done|]. cbn. destruct (f x) as [z|] eqn:E.
  - intros [= ->]. exists x. split; [by left|done].
  - intros (x'&?&?)%IH. exists x'. split; [by right|done].
Qed.

Lemma descend_entry file segs cur m scope :
  descend segs cur = Some m → d_name cur ≠ [] →
  Forall (λ e, e.1.2 ≠ []) (message_entries file scope cur) →
  ∃ e, e ∈ message_entries file scope cur ∧ e.2 = (file, DMessage m) ∧
       entry_name e = join_on 46 (dotted scope (d_name cur) :: segs).
Proof.
  revert cur scope. induction segs as [|seg segs IH]; intros cur scope Hd Hcur Hall; destruct cur as [own body nested enums].
  - injection Hd as <-. eexists. split; [by left|]. done.
  - cbn [descend d_nested] in Hd. destruct (find (named seg) nested) as [next|] eqn:Ef; [|done].
    apply find_Some in Ef as [Hin Hname]. unfold named in Hname. apply bool_decide_eq_true in Hname.
    cbn [message_entries] in Hall. apply List.Forall_cons_iff in Hall as [_ Hall]. apply Forall_app in Hall as [Hall _].
    rewrite Forall_bind in Hall. rewrite Forall_forall in Hall. specialize (Hall next Hin).
    assert (Hn : d_name next ≠ []).
    { destruct next. cbn in *. by apply List.Forall_cons_iff in Hall as [? _]. }
    destruct (IH next (dotted scope own) Hd Hn Hall) as (e&He&Hv&Hen). exists e. split.
    + cbn [message_entries]. right. apply elem_of_app. left. apply list_elem_of_bind. by exists next.
    + split; [done|]. rewrite Hen. cbn [d_name]. rewrite Hname.
      assert (Hq : dotted scope own ≠ []) by (unfold dotted; by destruct scope, own).
      rewrite <- (qualified_dotted (dotted scope own)). unfold qualified. destruct (dotted scope own) as [|b q] eqn:Eq; [done|]. 
      destruct segs; cbn [join_on]; by rewrite <- ?app_assoc.
Qed.

Lemma find_message_entry fds message root m :
  Forall (λ e, e.1.2 ≠ []) (entries fds) → find_message fds message = Some (root, m) →
  root ∈ fds ∧ ∃ e, e ∈ file_entries root ∧ entry_name e = message ∧ e.2 = (root, DMessage m).
Proof.
  intros Hall (file&Hin&Hf)%first_found_Some. unfold find_in_file in Hf.
  destruct (match fl_package file with [] => Some message | _ => _ end) as [rest|] eqn:Er; [|done].
  destruct (split_on 46 rest) as [|first segs] eqn:Es; [done|].
  destruct (find (named first) (fl_message_type file)) as [cur|] eqn:Ef; [|done].
  destruct (descend segs cur) as [m'|] eqn:Ed; [|done]. injection Hf as -> ->. split; [done|].
  apply find_Some in Ef as [Hcur Hname]. unfold named in Hname. apply bool_decide_eq_true in Hname.
  unfold entries in Hall. rewrite Forall_bind in Hall. rewrite Forall_forall in Hall. specialize (Hall root Hin).
  unfold file_entries in Hall. apply Forall_app in Hall as [Hall _]. rewrite Forall_bind in Hall.
  rewrite Forall_forall in Hall. specialize (Hall cur Hcur).
  assert (Hn : d_name cur ≠ []). { destruct cur. cbn in *. by apply List.Forall_cons_iff in Hall as [? _]. }
  destruct (descend_entry root segs cur m (fl_package root) Ed Hn Hall) as (e&He&Hv&Hen). exists e. split.
  { unfold file_entries. apply elem_of_app. left. apply list_elem_of_bind. by exists cur. }
  split; [|done]. rewrite Hen, Hname, <- qualified_dotted. unfold qualified. destruct (fl_package root) as [|b p] eqn:Ep.
  - injection Er as ->. rewrite <- Es. apply join_split.
  - destruct (strip_prefix (b :: p) message) as [r1|] eqn:E1; [|done].
    apply strip_prefix_Some in E1, Er. subst message r1. rewrite <- (join_split 46 rest), Es.
    destruct segs; cbn [join_on]; by rewrite <- ?app_assoc.
Qed.

(** ** The fingerprint of a pruned set *)

(** What [protoc] writes: references are absolute, to a definition of the same
    file or of one it imports. *)
Definition linked (fds : list FileDescriptor) (index : Index) : Prop :=
  ∀ name file m field reference,
    bt_get name index = Some (file, DMessage m) → field ∈ mb_field (d_body m) → fd_type_name field = Some reference →
    ∃ (target : str) file' d, reference = 46%Z :: target ∧ bt_get target index = Some (file', d) ∧
      imports fds (fl_name file) (fl_name file').

Lemma index_of_get set_ index name v :
  index_of set_ index → bt_get name index = Some v ↔ ∃ e, e ∈ entries set_ ∧ entry_name e = name ∧ e.2 = v.
Proof.
  intros [_ Hnd ->]. unfold bt_collect.
  assert (Hkeys : ((λ e, (entry_name e, e.2)) <$> entries set_).*1 = entry_name <$> entries set_) by by rewrite <- list_fmap_compose.
  split.
  - intros Hg. apply bt_get_Some in Hg; [|by apply bt_extend_ok]. pose proof Hg as Hin.
    apply (list_elem_of_fmap_2 fst), bt_extend_keys in Hin; [|done]. destruct Hin as [Hn%elem_of_nil|Hin]; [done|].
    apply list_elem_of_fmap in Hin as ([k w]&Hk&Hin). cbn in Hk. subst k.
    apply bt_get_Some in Hg; [|by apply bt_extend_ok].
    rewrite (bt_get_extend [] _ name w) in Hg; [|done|by rewrite Hkeys|done]. injection Hg as ->.
    apply list_elem_of_fmap in Hin as (e&[= -> ->]&He). by exists e.
  - intros (e&He&<-&<-). apply bt_get_extend; [done|by rewrite Hkeys|]. apply list_elem_of_fmap. by exists e.
Qed.

Lemma message_entries_file file scope m e : e ∈ message_entries file scope m → e.2.1 = file.
Proof.
  revert scope e. induction m as [own body nested enums IH] using Descriptor_rec'. intros scope e.
  cbn [message_entries]. intros [->|[Hin|Hin]%elem_of_app]%elem_of_cons; [done| |].
  - apply list_elem_of_bind in Hin as (x&Hx&Hin). rewrite Forall_forall in IH. by eapply IH.
  - by apply list_elem_of_fmap in Hin as (?&->&_).
Qed.

Lemma file_entries_file file e : e ∈ file_entries file → e.2.1 = file.
Proof.
  intros [Hin|Hin]%elem_of_app.
  - apply list_elem_of_bind in Hin as (m&Hm&_). by eapply message_entries_file.
  - by apply list_elem_of_fmap in Hin as (?&->&_).
Qed.

Lemma entries_sublist a b : a `sublist_of` b → entries a `sublist_of` entries b.
Proof.
  induction 1 as [|x l k _ IH|x l k _ IH]; [done| |]; unfold entries in *; cbn [mbind list_bind].
  - by apply sublist_app.
  - by apply sublist_inserts_l.
Qed.

Lemma resolve_absolute (self : Index) scope (target : str) :
  fp_resolve self scope (46%Z :: target) =
  Some (if bt_contains target self then Ok target else Err (UnresolvedIn (46%Z :: target) scope)).
Proof. done. Qed.

Section pruned.
Context (fds files : list FileDescriptor) (index index' : Index) (root : str).
Context (Hindex : index_of fds index) (Hindex' : index_of files index') (Hlinked : linked fds index).
Context (Hfiles : ∀ f, f ∈ files ↔ f ∈ fds ∧ imports fds root (fl_name f)).

(** The names defined in the files that are kept. *)
Definition kept (name : str) : Prop :=
  ∃ file d, bt_get name index = Some (file, d) ∧ imports fds root (fl_name file).

Lemma kept_get name : kept name → bt_get name index' = bt_get name index.
Proof.
  intros (file&d&Hget&Himp). rewrite Hget. apply (index_of_get files); [done|].
  apply (index_of_get fds) in Hget; [|done]. destruct Hget as (e&He&Hn&Hv). exists e. split; [|done].
  unfold entries in *. apply list_elem_of_bind in He as (f&He&Hf). apply list_elem_of_bind. exists f. split; [done|].
  apply Hfiles. split; [done|]. apply file_entries_file in He. rewrite Hv in He. cbn in He. by subst f.
Qed.

Lemma kept_resolve name file m field reference :
  kept name → bt_get name index = Some (file, DMessage m) → field ∈ mb_field (d_body m) →
  fd_type_name field = Some reference →
  ∃ target, kept target ∧ fp_resolve index name reference = Some (Ok target) ∧
            fp_resolve index' name reference = Some (Ok target).
Proof.
  intros (file0&d0&Hget0&Himp) Hget Hin Hty. rewrite Hget in Hget0. injection Hget0 as <- <-.
  destruct (Hlinked name file m field reference Hget Hin Hty) as (target&file'&d&->&Htarget&Himp').
  assert (Hk : kept target) by (exists file', d; split; [done|by eapply imports_trans]).
  exists target. split; [done|]. rewrite !resolve_absolute. unfold bt_contains.
  by rewrite (kept_get target Hk), Htarget.
Qed.

Lemma kept_type name file m field :
  kept name → bt_get name index = Some (file, DMessage m) → field ∈ mb_field (d_body m) →
  field_type index' name field = field_type index name field.
Proof.
  intros Hk Hget Hin. unfold field_type. destruct (fd_type_name field) as [reference|] eqn:Et; [|done].
  destruct (kept_resolve name file m field reference Hk Hget Hin Et) as (target&Hkt&Hr&Hr'). rewrite Hr, Hr'.
  by rewrite (kept_get target Hkt).
Qed.

Lemma kept_form name f : kept name → has_form index name f ↔ has_form index' name f.
Proof.
  intros Hk. pose proof (kept_get name Hk) as Hget.
  assert (Hform : ∀ file m syntax field, bt_get name index = Some (file, DMessage m) → field ∈ mb_field (d_body m) →
    field_form index' name syntax (d_body m) field = field_form index name syntax (d_body m) field).
  { intros file m syntax field Hm Hin. unfold field_form. by rewrite (kept_type name file m field Hk Hm Hin). }
  assert (Hfields : ∀ file m syntax forms, bt_get name index = Some (file, DMessage m) →
    Forall2 (form_of index name syntax (d_body m)) (sort_by_key fd_number (mb_field (d_body m))) forms ↔
    Forall2 (form_of index' name syntax (d_body m)) (sort_by_key fd_number (mb_field (d_body m))) forms).
  { intros file m syntax forms Hm.
    assert (Hsub : ∀ x, x ∈ sort_by_key fd_number (mb_field (d_body m)) → x ∈ mb_field (d_body m)).
    { intros x. by rewrite (sort_perm fd_number (mb_field (d_body m))). }
    revert forms Hsub. generalize (sort_by_key fd_number (mb_field (d_body m))) as l.
    induction l as [|x l IH]; intros forms Hsub; [split; inversion 1; constructor|].
    split; inversion 1; subst; (constructor; [|apply IH; [intros z Hz; apply Hsub; by right|done]]); unfold form_of in *;
      rewrite (Hform file m syntax x Hm) in * by (apply Hsub; by left); done. }
  split; intros [(file&d&Hd&Hs&Hc) Hn]; (split; [|done]).
  - exists file, d. rewrite Hget. split; [done|]. split; [done|]. destruct d as [m|e], (nf_content f) as [x|x]; try done.
    destruct Hc; split; try done. apply forms_exact, (Hfields file); [done|]. by apply forms_exact.
  - rewrite Hget in Hd. exists file, d. split; [done|]. split; [done|]. destruct d as [m|e], (nf_content f) as [x|x]; try done.
    destruct Hc; split; try done. apply forms_exact, (Hfields file); [done|]. by apply forms_exact.
Qed.

(** What a form refers to is what its field refers to. *)
Lemma field_refs self name syntax m field form r :
  field_form self name syntax m field = Some (Ok form) → r ∈ option_list (ff_reference form) →
  ∃ reference, fd_type_name field = Some reference ∧ fp_resolve self name reference = Some (Ok r).
Proof.
  unfold field_form. destruct (fp_ensure _ _); [|done].
  destruct (field_type self name field) as [[[kind target]|]|] eqn:Et; [|done..]. intros [= Hf] Hr. revert Hf.
  destruct (try_enum _ _ _); [|done]. cbn.
  destruct (match fd_oneof_index field with Some _ => _ | None => _ end) as [oneof|]; [|done]. cbn.
  destruct (if fd_proto3_optional field then _ else _); [|done].
  destruct (fp_ensure _ _); [|done]. destruct (fp_ensure _ _); [|done]. destruct (fp_ensure _ _); [|done]. intros [= <-].
  cbn in Hr. destruct target as [t|]; cbn in Hr; [|by apply elem_of_nil in Hr]. apply list_elem_of_singleton in Hr as ->.
  unfold field_type in Et. destruct (fd_type_name field) as [reference|].
  - exists reference. split; [done|]. destruct (fp_resolve self name reference) as [[t'|]|]; [|done..].
    destruct (_ <$> _); [|done]. injection Et as Et. revert Et. destruct (try_enum _ _ _); [|done]. cbn.
    destruct (ok_or _ _); [|done]. destruct (if bool_decide _ then _ else _); [|done]. by intros [= _ ->].
  - injection Et as Et. revert Et. destruct (try_enum _ _ _); [|done]. cbn.
    destruct (ok_or _ _); [|done]. by destruct (if bool_decide _ then _ else _).
Qed.

Lemma kept_refs name f r : kept name → has_form index name f → r ∈ node_refs f → kept r.
Proof.
  intros Hk [(file&d&Hd&_&Hc) _] Hr. unfold node_refs, content_refs in Hr.
  destruct (nf_content f) as [x|x], d as [m|e]; try done; [|by apply elem_of_nil in Hr].
  apply list_elem_of_bind in Hr as (ff&Hr&Hff). destruct Hc as [_ _ _ _ _ _ _ _ _ Hf%forms_exact].
  destruct (Forall2_member_r _ _ _ _ Hf Hff) as (field&Hin&Hform). rewrite (sort_perm fd_number) in Hin.
  destruct (field_refs _ _ _ _ _ _ _ Hform Hr) as (reference&Ht&Hres).
  destruct (kept_resolve name file m field reference Hk Hd Hin Ht) as (target&Hkt&Hr1&_). congruence.
Qed.

Lemma kept_reaches message name :
  kept message → reaches index message name ↔ reaches index' message name.
Proof.
  intros Hm.
  assert (Hk : ∀ name, reaches index message name → kept name).
  { induction 1 as [|n f r _ IH Hf Hr]; [done|]. by eapply kept_refs. }
  split.
  - induction 1 as [|n f r Hn IH Hf Hr]; [constructor|].
    eapply reaches_step; [exact IH| |exact Hr]. by apply kept_form; [apply Hk|].
  - induction 1 as [|n f r _ IH Hf Hr]; [constructor|]. eapply reaches_step; [exact IH| |exact Hr].
    apply kept_form; [by apply Hk|done].
Qed.

Lemma kept_schema message forms : kept message → schema_of index message forms → schema_of index' message forms.
Proof.
  intros Hm [Hs Hf Ha].
  assert (Hk : ∀ name, reaches index message name → kept name).
  { induction 1 as [|n f r _ IH Hform Hr]; [done|]. by eapply kept_refs. }
  split; [done|..].
  - intros f Hin. destruct (Hf f Hin) as [Hr Hform]. split; [by apply kept_reaches|]. apply kept_form; [by apply Hk|done].
  - intros name Hr. apply Ha. by apply kept_reaches.
Qed.
End pruned.

(** Pruning keeps fingerprints: in a set that refers to definitions the way
    [protoc] writes it, the files kept for a message fingerprint it as the whole
    set does, so a reader of a bag computes the fingerprint that rides on the
    bus. *)
Theorem descriptor_subset_fingerprint fds index message files h :
  index_new fds = Ok index → linked fds index → descriptor_subset fds message = Some (Some files) →
  message_fingerprint fds message = Some (Ok (Some h)) → message_fingerprint files message = Some (Ok (Some h)).
Proof.
  intros Hnew Hlinked Hsub Hfp. pose proof (index_new_exact fds) as Hex. rewrite Hnew in Hex. destruct Hex as [Hok Hidx].
  unfold descriptor_subset in Hsub. destruct (find_message fds message) as [[root m]|] eqn:Ef; [|done].
  destruct (wanted_exact fds (fl_name root)) as (w&Hw&Himp). rewrite Hw in Hsub. injection Hsub as Hsub.
  assert (Hfiles : ∀ f, f ∈ files ↔ f ∈ fds ∧ imports fds (fl_name root) (fl_name f)).
  { intros f. rewrite <- Hsub, list_elem_of_filter, Himp. tauto. }
  assert (Hsublist : files `sublist_of` fds) by (rewrite <- Hsub; apply sublist_filter).
  assert (Hidx' : index_of files (bt_collect ((λ e, (entry_name e, e.2)) <$> entries files))).
  { pose proof (entries_sublist _ _ Hsublist) as Hse. split; [| |done].
    - intros e He. apply (io_named _ _ Hidx). by eapply elem_of_sublist.
    - eapply sublist_NoDup; [apply (io_distinct _ _ Hidx)|by rewrite Hse]. }
  pose proof (index_new_exact files) as Hex. destruct (index_new files) as [index'|e] eqn:Enew'; [|by apply Hex in Hidx'].
  destruct Hex as [Hok' Hidx2]. clear Hidx'.
  assert (Hkept : kept fds index (fl_name root) message).
  { assert (Hall : Forall (λ e, e.1.2 ≠ []) (entries fds)) by (apply Forall_forall; apply (io_named _ _ Hidx)).
    destruct (find_message_entry fds message root m Hall Ef) as (Hroot&e&He&Hn&Hv). exists root, (DMessage m). split; [|constructor].
    apply (index_of_get fds); [done|]. exists e. split; [|done]. apply list_elem_of_bind. by exists root. }
  revert Hfp. unfold message_fingerprint. rewrite Hnew, Enew'. intros Hfp.
  destruct (index_message_exact index message Hok) as (r&Hr&Hcase). rewrite Hfp in Hr. injection Hr as <-.
  destruct Hcase as ((file&m'&Hmsg)&forms&Hforms&->).
  pose proof (kept_schema fds files index index' (fl_name root) Hidx Hidx2 Hlinked Hfiles message forms Hkept Hforms) as Hforms'.
  pose proof (kept_get fds files index index' (fl_name root) Hidx Hidx2 Hfiles message Hkept) as Hget. rewrite Hmsg in Hget.
  destruct (index_message_exact index' message Hok') as (r'&->&Hcase'). destruct r' as [[h'|]|e].
  - destruct Hcase' as (_&forms'&Hforms2&->). by rewrite (schema_functional _ _ _ _ Hforms' Hforms2).
  - by destruct (Hcase' file m').
  - by destruct (proj2 Hcase' forms).
Qed.


(** ** A set with an unrelated file *)

Definition pose_file : FileDescriptor :=
  mkFileDescriptor (bytes_of "pose.proto") (bytes_of "geo") [bytes_of "point.proto"] (bytes_of "proto3")
    [example_message (bytes_of "Pose") [example_field (bytes_of "at") 1 TYPE_MESSAGE (Some (bytes_of ".geo.Point"))]] [].
Definition point_file : FileDescriptor :=
  mkFileDescriptor (bytes_of "point.proto") (bytes_of "geo") [] (bytes_of "proto3")
    [example_message (bytes_of "Point") [example_field (bytes_of "x") 1 5 None]] [].
Definition other_file : FileDescriptor :=
  mkFileDescriptor (bytes_of "other.proto") [] [bytes_of "pose.proto"] [] [example_message (bytes_of "Other") []] [].
Definition pose_set : list FileDescriptor := [other_file; point_file; pose_file].

Definition pose_index : Index :=
  match index_new pose_set with Ok index => index | Err _ => [] end.

Lemma pose_linked : linked pose_set pose_index.
Proof.
  intros name file m field reference Hget Hin Hty.
  assert (Hall : Forall (λ e : str * (FileDescriptor * Definition_), match e.2.2 with
    | DMessage m => Forall (λ f, fd_type_name f = None ∨ e.2.1 = pose_file ∧ fd_type_name f = Some (bytes_of ".geo.Point"))
        (mb_field (d_body m))
    | DEnum _ => True end) pose_index).
  { vm_compute. repeat constructor; by auto. }
  apply bt_get_elem in Hget. rewrite Forall_forall in Hall. specialize (Hall _ Hget). cbn in Hall.
  rewrite Forall_forall in Hall. destruct (Hall field Hin) as [?|[-> Hp]]; [congruence|].
  exists (bytes_of "geo.Point"), point_file, (DMessage (example_message (bytes_of "Point") [example_field (bytes_of "x") 1 5 None])).
  split; [|split; [by vm_compute|]].
  - rewrite Hty in Hp. assert (reference = default [] (Some reference)) as -> by done. by rewrite Hp.
  - eapply (imports_step _ _ (fl_name pose_file) pose_file); [constructor|by vm_compute|by left].
Qed.

Lemma descriptor_subset_fingerprint_witness :
  descriptor_subset pose_set (bytes_of "geo.Pose") = Some (Some [point_file; pose_file]) ∧
  message_fingerprint [point_file; pose_file] (bytes_of "geo.Pose") = message_fingerprint pose_set (bytes_of "geo.Pose").
Proof.
  split; [by vm_compute|].
  destruct (message_fingerprint pose_set (bytes_of "geo.Pose")) as [[[h|]|]|] eqn:E;
    try (exfalso; revert E; vm_compute; discriminate).
  apply (descriptor_subset_fingerprint pose_set pose_index); [by vm_compute|apply pose_linked|by vm_compute|exact E].
Defined.
